(* ===== verification/_CoqProject ===== *)
-Q . S2P
Prelude.v
Bytes.v
Digits.v
Float64.v
Json.v
Externals.v
Keys.v
Enroll.v
Schema.v
Sign.v
Validate.v
Mutate.v
Identity.v
Limits.v
Sorting.v
Presence.v
Allowlist.v
Gate.v
Service.v
Framing.v
Hooks.v
Config.v
AuditFiles.v
Auditor.v
Backends.v
Registry.v
Session.v
Addrs.v
Paths.v
Mesh.v
Grants.v
Rosters.v
System.v
Invites.v
Sas.v
Recovery.v
Org.v
Joining.v
Proxy.v
Rendezvous.v
Attest.v
SelfKey.v
Scope.v
Peers.v
Dial.v
Status.v
Minting.v
Reach.v
Selectors.v
Boot.v
Relays.v
Doctor.v
Accept.v
BlobGate.v
Publishing.v
Fetching.v
Control.v
Client.v
Render.v
ConnCache.v
Resume.v
Autostart.v
Endpoints.v
Tunnel.v
