(* ===== verification/Prelude.v ===== *)
(** * mcpmesh: verification library (root file)

    mcpmesh carries Model Context Protocol sessions between the devices of a person, of
    people who paired, and of an organisation.  A daemon ([node/]) accepts connections
    from authenticated endpoints, decides who the peer is, and hands each session to a
    local service; a person drives it through a control socket ([local-api/], [cli/]).  This
    library models what decides {i who may do what} and {i what reaches a service}, the state
    behind it and the verbs that change it, and proves what they promise.  File names below
    are relative to [src/].

    ** How the program fits together

    An endpoint id is an Ed25519 public key the transport has authenticated.  A
    {i trust gate} ([net/src/identity.rs]) turns it into a [PeerIdentity] or refuses it.
    Two stores feed the composed gate ([node/src/roster/gate.rs]): the signed {i roster} of
    an organisation ([trust/src/roster/]) and the {i pair allowlist}
    ([node/src/allowlist.rs]) which the pairing rendezvous
    ([node/src/pairing/rendezvous.rs]) fills from one-time {i invites}
    ([node/src/pairing/mod.rs]).  A gated connection is registered
    ([net/src/registry.rs]), so that an install of a new roster or a revocation can sever
    it; each of its sessions is framed ([codec/], [net/src/transport.rs]), has its first
    frame stripped of reserved metadata and matched with a service
    ([net/src/service.rs]), and is admitted against the live service registry
    ([net/src/endpoint.rs]).  Blobs are served by scope ([node/src/blobs/scope.rs]).  The
    other direction starts at the control server ([node/src/control.rs]): a verb changes the
    shared state, or dials a peer ([node/src/daemon/dial.rs]) and hands the caller the
    session.

    ** Files

    - [Prelude] (this file): [result], list, map and option lemmas, hints and tactics.
    - [Bytes]: byte strings, 32-byte keys and their order, big- and little-endian
      integers, string operations of the Rust standard library.
    - [Json]: [serde_json::Value] and its accessors.
    - [Externals]: the third-party interfaces as classes of operations and classes of
      laws ([Ed25519], [TextEncoding], [Chrono], [SerdeJson], [Blake3]); [Toy] is a
      concrete instance of each, on which the witnesses compute.
    - [Schema], [Sign], [Validate], [Mutate]: [trust/src/roster/mod.rs];
      [roster/sign.rs], [app.rs] and [binding.rs]; [roster/validate.rs];
      [roster/mutate.rs].  A [Roster] is the record of the document, a [RosterView] what a
      gate reads of it.
    - [Identity]: [local-api/src/principals.rs], [net/src/identity.rs]; the class
      [TrustGate] is what the gates promise the accept loop.
    - [Allowlist]: [node/src/allowlist.rs]: three tables of raw rows and their operations
      under database failures; the pairing-mode gate.
    - [Gate]: [node/src/roster/gate.rs]: roster gate, composed gate, the register-time
      recheck [composed_should_sever_now].
    - [Service], [Framing]: [net/src/service.rs] and [net/src/errors.rs];
      [codec/src/lib.rs], [net/src/framing.rs], [net/src/transport.rs], [recv_frame].
    - [Registry]: [net/src/registry.rs], [node/src/daemon/sever.rs].
    - [Session]: the authorisation half of [net/src/endpoint.rs]; a running session is
      the function [run_session] of what it reads at each of its critical sections.
    - [System]: registry, gate and service registry as one transition system.  A [step] is
      one critical section of one task; whatever a task read earlier is arbitrary, so the
      reachable states are those of every interleaving, and so is the service registry a
      swap installs.  [y_past] is a history no operation reads.
    - [Invites], [Sas], [Rendezvous]: [node/src/pairing/mod.rs] and [persist.rs];
      [sas.rs]; [rendezvous.rs].
    - [Scope]: [node/src/blobs/scope.rs].
    - [Digits], [Float64]: the decimal formatting and the double-precision arithmetic of
      the language.
    - [Config]: [node/src/config.rs] and [node/src/daemon/config_write.rs]: the document, the
      typed configuration read from it, and the edits of the file.
    - [Limits]: [node/src/limits.rs]; a limiter shared through an [Arc] is an index into
      the bundle's heap.
    - [AuditFiles], [Auditor]: [node/src/audit/]: the month files with every filesystem
      fault; the open sessions and the correlator of one session's lines.
    - [Backends]: [node/src/backends/]: what a caller's frame becomes, the pump as a
      sequence of turns of its two loops, and the environment of a spawned server.
    - [Hooks]: [node/src/daemon/hooks.rs]: the dialled connections and the close pass of a
      revoke, as a transition system like [System].
    - [Mesh], [Grants]: the state the daemon's verbs share, the building of the service
      registry ([node/src/daemon.rs]), and the service verbs of
      [node/src/daemon/handlers.rs] in a state monad with their typed errors.
    - [Addrs], [Dial], [ConnCache], [Resume]: the dial side: which addresses of a peer are
      dialled and in which order ([node/src/daemon/dial.rs], [dial_hint.rs],
      [lookup_hygiene.rs]); one connection per remote with single-flight dials
      ([conn_cache.rs]); suspend detection ([resume.rs]).
    - [Paths], [Reach]: [node/src/daemon/self_net.rs], [reach.rs], [path_watch.rs]: which path
      carries the bytes, and what is known of each peer's reachability.
    - [Keys], [Enroll], [Rosters], [Org]: [trust/src/keys.rs]; [node/src/roster/enroll.rs];
      installing, distributing and confirming the roster ([node/src/daemon/roster_install.rs],
      [node/src/roster/distribute.rs]); the operator's verbs
      ([node/src/daemon/org_author.rs]).
    - [Sorting], [Presence]: the language's stable sort; [node/src/roster/presence.rs].
    - [Boot], [Accept]: the network knobs and the endpoint they are built into
      ([node/src/daemon/boot.rs]); the dispatch of an inbound connection
      ([node/src/daemon/accept.rs]).
    - [BlobGate], [Publishing], [Fetching]: [node/src/blobs/provider.rs]: serving,
      publishing and withdrawing, fetching.
    - [Peers], [Selectors], [Minting], [Relays], [Status]: the other verbs of
      [node/src/daemon/handlers.rs] and the views of [node/src/daemon/status.rs], over the
      state of [Mesh].
    - [Recovery], [SelfKey]: [node/src/pairing/recovery.rs]; the files and slots that decide
      which person a device presents.
    - [Control], [Client], [Proxy], [Render], [Doctor]: the control server
      ([node/src/control.rs]), its client ([local-api/src/client.rs]) and three faces of the
      command line ([cli/src/proxy.rs], [render.rs], [doctor.rs]).
    - [Joining], [Attest], [Autostart], [Endpoints], [Tunnel]: enrolling on the command line
      ([cli/src/enrollcmd.rs]); device attestation ([rendezvous.rs]); finding or starting the
      one daemon ([cli/src/client.rs], [daemonshell.rs], [transport/unix.rs]); where files and
      socket are ([local-api/src/paths.rs], [node/src/paths.rs]); opening a session through the
      daemon ([open_session] of [handlers.rs], [pipe_session] of [dial.rs]).

    ** What the theorems show

    - {i Severing is complete}, on both sides of a connection.
      [System.no_severed_connection_survives], [System.live_sessions_authorized] (no session
      outlives a revoke; one whose service was merely unregistered finishes),
      [Session.principal_endpoints_complete], [Hooks.no_dialled_connection_survives].
    - {i Revocation wins and nothing else grants.}  [Gate.revocation_wins],
      [Gate.sever_matches_admission], [Allowlist.admission_spec],
      [Allowlist.revocation_persists], [Session.admit_sound],
      [Peers.peer_revoke_takes_effect], [Peers.revocation_delivered],
      [Status.revoked_listed] (what status shows is what is refused).
    - {i Grants.}  [Grants.service_verbs_refine] (every verb refines its specification on the
      stored policy), [Grants.revoke_takes_effect], [Grants.revoked_never_resolved],
      [Grants.grant_refusals]; [Grants.revoke_retry_lost] and
      [Grants.unpair_keeps_ephemeral] are defects.
    - {i Rosters.}  [Validate.validate_for_install_spec] (the install rules, exactly),
      [Validate.view_resolve_spec]; for each operator mutation that the result is installable
      and changes only what it names ([Mutate.upsert_member_spec] and its siblings);
      [Rosters.only_signed_rosters], [Rosters.serials_never_roll_back],
      [Rosters.install_takes_effect]; [Org.org_rotate_failure].
    - {i Pairing.}  [Minting.mint_exact], [Invites.redemptions_bounded] over any history with
      restarts and file faults, [Rendezvous.inviter_side_effects],
      [Rendezvous.no_redemption_oracle], [Rendezvous.redeem_invite_spec],
      [Rendezvous.pairing_completes]; [Attest.attestation_completes]; enrolling by codes,
      [Joining.enrollment_completes].
    - {i Who this device is.}  [SelfKey.presented_survives_restart],
      [SelfKey.recovery_restores_person], [Recovery.recovery_phrase_exact].
    - {i Framing and metadata.}  [Framing.framing_reference] (equivalence with a
      line-by-line reference), [Framing.recv_frame_spec],
      [Service.strip_reserved_meta_spec], [Service.select_service_spec].
    - {i Sessions reach the right server under the right name.}
      [Backends.backend_identity_authentic], [Backends.spawn_env_authentic]; from the AI
      client's side [Proxy.pump_transparent], [Tunnel.session_carried] and the two composed,
      [Tunnel.session_end_to_end].
    - {i Dialling.}  [ConnCache.single_flight], [Reach.evidence_kept],
      [Selectors.hint_clear_exact], [Tunnel.session_refused], and the lemmas of [Dial], [Addrs]
      and [Paths].
    - {i Blobs.}  [BlobGate.blobs_need_a_grant], [Publishing.withdrawal_stands],
      [Fetching.fetch_ends], [Scope.scope_access_spec], [Scope.scope_store_durable].
    - {i The control plane.}  [Control.every_request_answered], [Control.inflight_capped],
      [Control.teardown_complete] (with the two ways a registration is orphaned),
      [Control.errors_branchable],
      [Client.conversation_answered] (client and server composed),
      [Render.daemon_error_shown]; one daemon for all callers, [Autostart.single_daemon],
      [Autostart.ensure_daemon_ends], [Endpoints.endpoints_meet].
    - {i Configuration.}  [Config.config_history] (the file refines its specification under
      every pattern of faults), [Relays.relays_refine], [Doctor.doctor_covers_boot] (the
      diagnostic against the start it predicts).
    - {i Metering and audit.}  [Backends.pump_burst], [Backends.batch_unmetered],
      [Limits.for_service_spec], [Limits.check_spec]; [Auditor.auditor_refines],
      [Auditor.audit_privacy], [AuditFiles.append_read_all], [AuditFiles.prune_spec],
      [AuditFiles.civil_from_days_spec].

    ** Conventions

    A Rust [String] is its UTF-8 bytes ([string]); integers of the protocol are [Z] with
    the width's wrap-around or saturation written out where the code can reach it; a
    [HashMap] is a [gmap], and where the code iterates one, the definition takes any order
    and the theorem says the result does not depend on it.  A fallible access to the disk
    or the database takes the fault as an argument, so theorems hold for every pattern of
    failures; a failed write leaves the old contents, which is what an atomic rename and a
    redb transaction promise.  A stream is written in whole frames: the part of one that went
    out before a write failed is no frame.  Clocks are arguments.

    {i Fuel.}  A loop over a stream takes as fuel more than the number of reads left
    ([Framing.drain], [recv_frame_fuel]); [Framing.recv_frame_spec] and
    [Framing.framing_reference] are stated at that fuel, so the reader always returns.  The
    depth-bounded walks of [Service] recurse on the bound the code has ([MAX_META_DEPTH]).
    Following the pages of a listing takes at most one more step than there are rows.

    {i Parameters.}  Signatures are checked by [ed25519-dalek], texts encoded by
    [data-encoding], JSON read and printed by [serde_json], instants parsed by [chrono],
    digests computed by [blake3]; rows of the database and the invite and scope structs go
    through serde's derived code.  These are arguments of the definitions.  Their laws are
    what the documentation states (a signature made with a key verifies under it, decoding
    inverts encoding) and are used only by the theorems that name them.

    ** Not modelled

    Transport, hole punching and discovery ([iroh], [node/src/discovery/]), the streaming of
    blob content ([iroh-blobs]), gossip's overlay, the sockets and named pipes under the
    control plane ([local-api/src/transport/]), starting a child process, the argument parser
    ([cli/src/main.rs]) and [xtask]: they hand data to a library or the operating system, or
    move it between the parts above.  What such code returns is an argument of the
    definitions that use it.  The manifest lists each with its reason. *)
From stdpp Require Import base list gmap strings sorting.
From Stdlib Require Import ZArith Lia.

(** ** Results

    Rust's [Result<T, E>]; the [?] operator is monadic bind. *)
Inductive result (E A : Type) : Type :=
| Ok (a : A)
| Err (e : E).
Arguments Ok {E A} a.
Arguments Err {E A} e.

#[export] Instance result_ret {E} : MRet (result E) := fun A a => Ok a.
#[export] Instance result_bind {E} : MBind (result E) := fun A B f r =>
  match r with Ok a => f a | Err e => Err e end.
#[export] Instance result_fmap {E} : FMap (result E) := fun A B f r =>
  match r with Ok a => Ok (f a) | Err e => Err e end.
#[export] Instance result_eq_dec {E A} `{EqDecision E, EqDecision A} :
  EqDecision (result E A).
Proof. solve_decision. Defined.

(** [Result::is_ok], [Result::map_err], [Result::ok] and [Option::ok_or]. *)
Definition is_ok {E A} (r : result E A) : bool :=
  match r with Ok _ => true | Err _ => false end.
Definition map_err {E F A} (f : E -> F) (r : result E A) : result F A :=
  match r with Ok a => Ok a | Err e => Err (f e) end.
Definition ok {E A} (r : result E A) : option A :=
  match r with Ok a => Some a | Err _ => None end.
Definition ok_or {E A} (e : E) (o : option A) : result E A :=
  match o with Some a => Ok a | None => Err e end.

(** A loop whose body may return early with an error. *)
Fixpoint fold_result {E A B} (f : B -> A -> result E B) (b : B) (l : list A) : result E B :=
  match l with
  | [] => Ok b
  | a :: l => b' ← f b a; fold_result f b' l
  end.

Lemma fold_result_app {E A B} (f : B -> A -> result E B) b l1 l2 :
  fold_result f b (l1 ++ l2) = (b' ← fold_result f b l1; fold_result f b' l2).
Proof.
  revert b; induction l1 as [|a l1 IH]; intros b; simpl; [done|].
  destruct (f b a); simpl; [apply IH|done].
Qed.

Lemma fold_result_map {E A B C} (g : C -> A) (f : B -> A -> result E B) b l :
  fold_result f b (g <$> l) = fold_result (fun b c => f b (g c)) b l.
Proof.
  revert b; induction l as [|a l IH]; intros b; simpl; [done|].
  destruct (f b (g a)); simpl; [apply IH|done].
Qed.

(** A nested loop is a loop over the concatenation of the inner sequences. *)
Lemma fold_result_bind {E A B C} (g : C -> list A) (f : B -> A -> result E B) b l :
  fold_result (fun b c => fold_result f b (g c)) b l = fold_result f b (l ≫= g).
Proof.
  revert b; induction l as [|a l IH]; intros b; simpl; [done|].
  rewrite fold_result_app. destruct (fold_result f b (g a)); simpl; [apply IH|done].
Qed.

Section result_lemmas.
Context {E A B : Type}.

Lemma bind_Ok (r : result E A) (f : A -> result E B) b :
  (r ≫= f) = Ok b <-> exists a, r = Ok a /\ f a = Ok b.
Proof. destruct r; simpl; naive_solver. Qed.

Lemma bind_Err (r : result E A) (f : A -> result E B) e :
  (r ≫= f) = Err e <-> r = Err e \/ exists a, r = Ok a /\ f a = Err e.
Proof. destruct r; simpl; naive_solver. Qed.

Lemma map_err_Ok {F} (g : E -> F) (r : result E A) a :
  map_err g r = Ok a <-> r = Ok a.
Proof. destruct r; simpl; naive_solver. Qed.

Lemma ok_or_Ok (e : E) (o : option A) a : ok_or e o = Ok a <-> o = Some a.
Proof. destruct o; simpl; naive_solver. Qed.

Lemma ok_or_Err (e e' : E) (o : option A) :
  ok_or e o = Err e' <-> o = None /\ e = e'.
Proof. destruct o; simpl; naive_solver. Qed.

Lemma is_ok_true (r : result E A) : is_ok r = true <-> exists a, r = Ok a.
Proof. destruct r; simpl; naive_solver. Qed.

Lemma is_ok_false (r : result E A) : is_ok r = false <-> exists e, r = Err e.
Proof. destruct r; simpl; naive_solver. Qed.

Lemma result_fmap_Ok (f : A -> B) (r : result E A) b :
  f <$> r = Ok b <-> exists a, r = Ok a /\ b = f a.
Proof. destruct r; simpl; naive_solver. Qed.
End result_lemmas.

(** ** Machine integers

    Rust integers are [Z] values; the plain operators of a release build wrap, the
    [saturating_*] ones clamp. *)
Open Scope Z_scope.

Definition i64_min : Z := - 2 ^ 63.
Definition i64_max : Z := 2 ^ 63 - 1.
Definition u64_max : Z := 2 ^ 64 - 1.
Definition u32_max : Z := 2 ^ 32 - 1.
Definition u8_max : Z := 255.

Definition in_i64 (z : Z) : Prop := i64_min <= z <= i64_max.

(** Two's complement wrap-around to 64 bits. *)
Definition i64_wrap (z : Z) : Z := (z + 2 ^ 63) mod 2 ^ 64 - 2 ^ 63.
Definition i64_add (a b : Z) : Z := i64_wrap (a + b).
Definition i64_sub (a b : Z) : Z := i64_wrap (a - b).

Definition clamp (lo hi z : Z) : Z := Z.max lo (Z.min hi z).
Definition i64_saturating_sub (a b : Z) : Z := clamp i64_min i64_max (a - b).
Definition i64_saturating_abs (a : Z) : Z := clamp i64_min i64_max (Z.abs a).
Definition u8_saturating_add (a b : Z) : Z := clamp 0 u8_max (a + b).
Definition u32_saturating_add (a b : Z) : Z := clamp 0 u32_max (a + b).
Definition u32_checked_sub (a b : Z) : option Z :=
  if a <? b then None else Some (a - b).

Lemma i64_wrap_id z : in_i64 z -> i64_wrap z = z.
Proof.
  unfold in_i64, i64_min, i64_max, i64_wrap. intros.
  rewrite Z.mod_small; lia.
Qed.

Lemma i64_add_exact a b : in_i64 (a + b) -> i64_add a b = a + b.
Proof. apply i64_wrap_id. Qed.

Lemma i64_sub_exact a b : in_i64 (a - b) -> i64_sub a b = a - b.
Proof. apply i64_wrap_id. Qed.

Lemma i64_saturating_sub_exact a b :
  in_i64 (a - b) -> i64_saturating_sub a b = a - b.
Proof. unfold in_i64, i64_saturating_sub, clamp. lia. Qed.

Lemma i64_saturating_sub_in a b : in_i64 (i64_saturating_sub a b).
Proof. unfold in_i64, i64_saturating_sub, clamp, i64_min, i64_max. lia. Qed.

Close Scope Z_scope.

(** ** Automation *)

Create HintDb mesh.
Create Rewrite HintDb mesh_len.
#[export] Hint Resolve i64_saturating_sub_in : mesh.

(** Case analysis on the [if]s and [match]es of an executable definition, keeping the
    equations and discarding the impossible branches. *)
Ltac case_all :=
  repeat (case_match; simplify_eq/=; try done).

(** Turn [r ≫= f = Ok b] style hypotheses into their components. *)
Ltac inv_result :=
  repeat match goal with
  | H : mbind _ ?r = Ok _ |- _ =>
      apply bind_Ok in H as (? & ? & ?)
  | H : map_err _ _ = Ok _ |- _ => apply map_err_Ok in H
  | H : ok_or _ _ = Ok _ |- _ => apply ok_or_Ok in H
  | H : fmap _ ?r = Ok _ |- _ => apply result_fmap_Ok in H as (? & ? & ?)
  end; simplify_eq/=.

(** Membership in concatenations, by cases on the membership hypotheses. *)
Ltac in_list :=
  intros; rewrite ?elem_of_app, ?elem_of_cons, ?elem_of_nil in *; intuition (subst; solve [auto | eauto | congruence]).

(** ** Lists *)

(** [Iterator::position]: the index of the first element satisfying [p]. *)
Fixpoint position {A} (p : A -> bool) (l : list A) : option nat :=
  match l with
  | [] => None
  | x :: l => if p x then Some 0 else S <$> position p l
  end.

(** [slice::iter().find]. *)
Fixpoint find_first {A} (p : A -> bool) (l : list A) : option A :=
  match l with
  | [] => None
  | x :: l => if p x then Some x else find_first p l
  end.

(** Mutate the first element satisfying [p] ([iter_mut().find]). *)
Fixpoint alter_first {A} (p : A -> bool) (f : A -> A) (l : list A) : list A :=
  match l with
  | [] => []
  | x :: l => if p x then f x :: l else x :: alter_first p f l
  end.

(** Push unless an equal element is present already. *)
Definition push_unique {A} `{EqDecision A} (l : list A) (x : A) : list A :=
  if decide (x ∈ l) then l else l ++ [x].

Section list_lemmas.
Context {A : Type}.
Implicit Types (p : A -> bool) (l : list A).

Lemma find_first_Some p l x :
  find_first p l = Some x -> x ∈ l /\ p x = true.
Proof.
  induction l as [|y l IH]; simpl; [done|]. intros.
  destruct (p y) eqn:?; simplify_eq; set_solver.
Qed.

Lemma find_first_None p l :
  find_first p l = None <-> Forall (fun x => p x = false) l.
Proof.
  induction l as [|y l IH]; simpl; [by split|].
  rewrite Forall_cons. destruct (p y); naive_solver.
Qed.

Lemma position_Some p l i :
  position p l = Some i -> exists x, l !! i = Some x /\ p x = true.
Proof.
  revert i; induction l as [|y l IH]; intros i; simpl; [done|].
  destruct (p y) eqn:?; intros; simplify_eq/=; [eauto|].
  destruct (position p l); simplify_eq/=; eauto.
Qed.

Lemma position_None p l :
  position p l = None <-> Forall (fun x => p x = false) l.
Proof.
  induction l as [|y l IH]; simpl; [by split|].
  rewrite Forall_cons, <- IH. destruct (p y), (position p l); naive_solver.
Qed.

Lemma alter_first_None p f l :
  find_first p l = None -> alter_first p f l = l.
Proof.
  induction l as [|y l IH]; simpl; [done|].
  destruct (p y); [done|]. intros. by f_equal; auto.
Qed.

(** The first match splits the list. *)
Lemma find_first_split p l x :
  find_first p l = Some x ->
  exists l1 l2, l = l1 ++ x :: l2 /\ Forall (fun y => p y = false) l1 /\
    p x = true /\ forall f, alter_first p f l = l1 ++ f x :: l2.
Proof.
  induction l as [|y l IH]; simpl; [done|]. intros H.
  destruct (p y) eqn:Hy; simplify_eq.
  - by exists [], l.
  - destruct (IH H) as (l1 & l2 & -> & ? & ? & Hf).
    exists (y :: l1), l2. repeat split; [|done|].
    + by constructor.
    + intros f. by rewrite Hf.
Qed.

Lemma elem_of_push_unique `{EqDecision A} l x y :
  y ∈ push_unique l x <-> y ∈ l \/ y = x.
Proof. unfold push_unique. case_decide; set_solver. Qed.

Lemma elem_of_fold_push_unique `{EqDecision A} (xs l : list A) y :
  y ∈ foldl push_unique l xs <-> y ∈ l \/ y ∈ xs.
Proof.
  revert l; induction xs as [|x xs IH]; intros l; simpl; [set_solver|].
  rewrite IH, elem_of_push_unique. set_solver.
Qed.

Lemma fold_push_unique_incl `{EqDecision A} (xs l : list A) :
  l ⊆ foldl push_unique l xs.
Proof. intros y Hy. apply elem_of_fold_push_unique. by left. Qed.

Lemma existsb_elem (f : A -> bool) l :
  existsb f l = true <-> exists x, x ∈ l /\ f x = true.
Proof.
  rewrite existsb_exists. setoid_rewrite list_elem_of_In. done.
Qed.

Lemma existsb_false (f : A -> bool) l :
  existsb f l = false <-> forall x, x ∈ l -> f x = false.
Proof.
  rewrite <- not_true_iff_false, existsb_elem. split.
  - intros H x Hx. destruct (f x) eqn:?; naive_solver.
  - intros H (x & Hx & Hf). rewrite H in Hf; done.
Qed.
End list_lemmas.

Lemma filter_none {A} (P : A -> Prop) `{!forall x, Decision (P x)} (l : list A) :
  (forall x, x ∈ l -> ~ P x) -> filter P l = [].
Proof.
  induction l as [|x l IH]; [done|]. intros Hn.
  rewrite filter_cons_False by (apply Hn; left). apply IH. intros; apply Hn. by right.
Qed.

(** Dropping elements, and keeping fewer of them, yields a sublist. *)
Lemma omap_sublist {A B} (f g : A -> option B) (l' l : list A) :
  (forall x y, f x = Some y -> g x = Some y) ->
  l' `sublist_of` l -> omap f l' `sublist_of` omap g l.
Proof.
  intros Hfg. induction 1 as [|x l' l _ IH|x l' l _ IH]; simpl; [done|..].
  - destruct (f x) as [y|] eqn:Hf.
    + rewrite (Hfg x y Hf). by apply sublist_skip.
    + destruct (g x); [by apply sublist_cons|done].
  - destruct (g x); [by apply sublist_cons|done].
Qed.

(** A strictly sorted order on the keys makes sorting independent of the input order. *)
Section sort_perm.
Context {A : Type} (R : relation A) `{!RelDecision R, !Transitive R, !Total R}.

Lemma merge_sort_perm_eq (l1 l2 : list A) :
  (forall x y, x ∈ l1 -> y ∈ l1 -> R x y -> R y x -> x = y) ->
  l1 ≡ₚ l2 -> merge_sort R l1 = merge_sort R l2.
Proof.
  intros Hanti Hp.
  assert (Hs1 : StronglySorted R (merge_sort R l1)) by (by apply (StronglySorted_merge_sort R)).
  assert (Hs2 : StronglySorted R (merge_sort R l2)) by (by apply (StronglySorted_merge_sort R)).
  assert (Hp' : merge_sort R l1 ≡ₚ merge_sort R l2)
    by (by rewrite !merge_sort_Permutation).
  assert (Ha : forall x y, x ∈ merge_sort R l1 -> y ∈ merge_sort R l1 ->
                 R x y -> R y x -> x = y).
  { intros x y. rewrite !(merge_sort_Permutation R l1). auto. }
  clear Hanti Hp. revert Hs1 Hs2 Hp' Ha.
  generalize (merge_sort R l1) (merge_sort R l2). clear l1 l2.
  induction l as [|x l IH]; intros l2 Hs1 Hs2 Hp Ha.
  { by apply Permutation_nil in Hp as ->. }
  destruct l2 as [|y l2]; [by apply Permutation_sym, Permutation_nil in Hp|].
  apply StronglySorted_inv in Hs1 as [Hs1 Hx].
  apply StronglySorted_inv in Hs2 as [Hs2 Hy].
  assert (x = y) as <-.
  { assert (y ∈ x :: l) as Hyl by (rewrite Hp; set_solver).
    assert (x ∈ y :: l2) as Hxl by (rewrite <- Hp; set_solver).
    apply elem_of_cons in Hyl as [->|Hyl]; [done|].
    apply elem_of_cons in Hxl as [->|Hxl]; [done|].
    rewrite Forall_forall in Hx, Hy. apply Ha; set_solver. }
  f_equal. apply IH; [done..| |].
  - by apply Permutation_cons_inv in Hp.
  - intros; apply Ha; set_solver.
Qed.
End sort_perm.
