(* ===== verification/Bytes.v ===== *)
(** * Bytes

    Byte strings ([Vec<u8>], [&[u8]]), fixed 32-byte arrays ([[u8; 32]]) with their
    order, the big- and little-endian encodings the signing preimages use, and the string
    operations of the Rust standard library that the components share.  A Rust [String]
    is its sequence of UTF-8 bytes, so it is a [string] here ([String.length] is the
    length in bytes, [as_bytes] the bytes themselves). *)
From stdpp Require Import base list gmap strings.
From Stdlib Require Import ZArith Lia Strings.Byte.
From S2P Require Import Prelude.

Abbreviation byte := Byte.byte.
Abbreviation bytes := (list Byte.byte).

#[export] Instance byte_eq_dec : EqDecision byte := Byte.byte_eq_dec.
#[export] Program Instance byte_countable : Countable byte :=
  inj_countable Byte.to_N Byte.of_N _.
Next Obligation. intros x. apply Byte.of_to_N. Qed.

Definition byte_val (b : byte) : Z := Z.of_N (Byte.to_N b).
(** [x as u8]. *)
Definition byte_of (z : Z) : byte :=
  match Byte.of_N (Z.to_N (z mod 256)) with Some b => b | None => Byte.x00 end.

Lemma byte_val_bound b : (0 <= byte_val b < 256)%Z.
Proof. unfold byte_val. pose proof (Byte.to_N_bounded b). lia. Qed.

Lemma byte_of_val b : byte_of (byte_val b) = b.
Proof.
  unfold byte_of. pose proof (byte_val_bound b).
  rewrite Z.mod_small by lia. unfold byte_val. by rewrite N2Z.id, Byte.of_to_N.
Qed.

Lemma byte_val_of z : byte_val (byte_of z) = (z mod 256)%Z.
Proof.
  unfold byte_of. pose proof (Z.mod_pos_bound z 256 ltac:(lia)).
  destruct (Byte.of_N _) as [b|] eqn:E.
  - apply Byte.to_of_N in E. unfold byte_val. rewrite E. lia.
  - apply Byte.of_N_None_iff in E. lia.
Qed.

#[export] Instance byte_val_inj : Inj (=) (=) byte_val.
Proof. intros x y E. by rewrite <- (byte_of_val x), <- (byte_of_val y), E. Qed.

(** ** Strings and their bytes *)

Definition as_bytes (s : string) : bytes := String.list_byte_of_string s.
Definition from_bytes (b : bytes) : string := String.string_of_list_byte b.

Lemma from_as_bytes s : from_bytes (as_bytes s) = s.
Proof. apply String.string_of_list_byte_of_string. Qed.

Lemma as_from_bytes b : as_bytes (from_bytes b) = b.
Proof. apply String.list_byte_of_string_of_list_byte. Qed.

#[export] Instance as_bytes_inj : Inj (=) (=) as_bytes.
Proof. intros x y E. by rewrite <- (from_as_bytes x), E, from_as_bytes. Qed.

#[export] Instance from_bytes_inj : Inj (=) (=) from_bytes.
Proof. intros x y E. by rewrite <- (as_from_bytes x), E, as_from_bytes. Qed.

Lemma length_as_bytes s : length (as_bytes s) = String.length s.
Proof.
  unfold as_bytes, String.list_byte_of_string.
  rewrite List.length_map. induction s; simpl; congruence.
Qed.

Lemma as_bytes_app s t : as_bytes (s +:+ t) = as_bytes s ++ as_bytes t.
Proof.
  unfold as_bytes, String.list_byte_of_string. rewrite <- List.map_app. f_equal.
  induction s; simpl; [done|]. by f_equal.
Qed.

(** [str::starts_with] and [str::strip_prefix]. *)
Definition starts_with (p s : string) : bool := String.prefix p s.

Fixpoint strip_prefix (p s : string) : option string :=
  match p, s with
  | EmptyString, _ => Some s
  | String a p, String b s => if decide (a = b) then strip_prefix p s else None
  | String _ _, EmptyString => None
  end.

Lemma strip_prefix_app p s : strip_prefix p (p +:+ s) = Some s.
Proof. induction p; simpl; [done|]. by rewrite decide_True. Qed.

Lemma strip_prefix_Some p s t : strip_prefix p s = Some t <-> s = p +:+ t.
Proof.
  split; [|intros ->; apply strip_prefix_app].
  revert s; induction p as [|a p IH]; intros [|b s]; simpl; intros; simplify_eq; try done.
  case_decide; simplify_eq. by rewrite (IH s).
Qed.

Lemma starts_with_spec p s : starts_with p s = true <-> exists t, s = p +:+ t.
Proof.
  unfold starts_with. revert s; induction p as [|a p IH]; intros s; simpl.
  - split; [by exists s|]. intros _. by destruct s.
  - destruct s as [|b s]; simpl.
    { split; [done|]. by intros [t ?]. }
    destruct (Ascii.ascii_dec a b) as [->|]; simpl.
    + rewrite IH. split; intros [t Ht]; exists t; [by rewrite Ht|by injection Ht].
    + split; [done|]. intros [t Ht]. by injection Ht.
Qed.

Lemma starts_with_strip p s :
  starts_with p s = bool_decide (is_Some (strip_prefix p s)).
Proof.
  apply eq_bool_prop_intro. rewrite !Is_true_true, starts_with_spec, bool_decide_eq_true.
  unfold is_Some. by setoid_rewrite strip_prefix_Some.
Qed.

(** [str::strip_suffix], on bytes. *)
Definition strip_suffix (suffix s : bytes) : option bytes :=
  reverse <$> (let r := reverse s in let p := reverse suffix in
               if decide (take (length p) r = p) then Some (drop (length p) r) else None).

(** ** Fixed-width arrays *)

(** [[u8; 32]]: the length is part of the type, as in Rust. *)
Record key32 : Type := Key32 {
  key_bytes : bytes;
  key_len : Is_true (Nat.eqb (length key_bytes) 32) }.

Lemma key32_eq (a b : key32) : key_bytes a = key_bytes b -> a = b.
Proof. destruct a, b; simpl; intros ->. f_equal. apply proof_irrel. Qed.

#[export] Instance key_bytes_inj : Inj (=) (=) key_bytes.
Proof. exact key32_eq. Qed.

Lemma key_bytes_length k : length (key_bytes k) = 32.
Proof. destruct k as [b H]; simpl. by apply Is_true_true, Nat.eqb_eq in H. Qed.

#[export] Instance key32_eq_dec : EqDecision key32.
Proof.
  intros a b. destruct (decide (key_bytes a = key_bytes b)) as [E|E].
  - left. by apply key32_eq.
  - right. congruence.
Defined.

(** [<&[u8] as TryInto<[u8; 32]>>::try_into]. *)
Definition try_key32 (b : bytes) : option key32 :=
  match decide (Is_true (Nat.eqb (length b) 32)) with
  | left H => Some (Key32 b H)
  | right _ => None
  end.

Lemma try_key32_bytes k : try_key32 (key_bytes k) = Some k.
Proof.
  unfold try_key32. case_decide as H.
  - f_equal. by apply key32_eq.
  - destruct H. apply key_len.
Qed.

Lemma try_key32_Some b k : try_key32 b = Some k <-> b = key_bytes k.
Proof.
  split; [|intros ->; apply try_key32_bytes].
  unfold try_key32. case_decide; intros; by simplify_eq/=.
Qed.

#[export] Program Instance key32_countable : Countable key32 :=
  inj_countable key_bytes try_key32 _.
Next Obligation. apply try_key32_bytes. Qed.

(** [[b; 32]]. *)
Definition key_fill (b : byte) : key32 := Key32 (replicate 32 b) I.

(** The derived lexicographic order of byte arrays. *)
Fixpoint bytes_leb (a b : bytes) : bool :=
  match a, b with
  | [], _ => true
  | _ :: _, [] => false
  | x :: a, y :: b =>
      if decide (x = y) then bytes_leb a b else (byte_val x <? byte_val y)%Z
  end.

Lemma bytes_leb_refl a : bytes_leb a a = true.
Proof. induction a; simpl; [done|]. by rewrite decide_True. Qed.

Lemma bytes_leb_total a b : bytes_leb a b = true \/ bytes_leb b a = true.
Proof.
  revert b; induction a as [|x a IH]; intros [|y b]; simpl; auto.
  destruct (decide (x = y)) as [->|Hne].
  - rewrite decide_True by done. auto.
  - rewrite decide_False by done. rewrite !Z.ltb_lt.
    assert (byte_val x <> byte_val y) by (by intros ?%(inj byte_val)). lia.
Qed.

Lemma bytes_leb_antisym a b : bytes_leb a b = true -> bytes_leb b a = true -> a = b.
Proof.
  revert b; induction a as [|x a IH]; intros [|y b]; simpl; try done.
  destruct (decide (x = y)) as [->|Hne].
  - rewrite decide_True by done. intros. f_equal; auto.
  - rewrite decide_False by done. rewrite !Z.ltb_lt. lia.
Qed.

Lemma bytes_leb_trans a b c :
  bytes_leb a b = true -> bytes_leb b c = true -> bytes_leb a c = true.
Proof.
  revert b c; induction a as [|x a IH]; intros [|y b] [|z c]; simpl; try done.
  repeat case_decide; subst; try done; rewrite ?Z.ltb_lt; try lia. eauto.
Qed.

Definition key_leb (a b : key32) : bool := bytes_leb (key_bytes a) (key_bytes b).

(** ** Integer encodings *)

(** [to_be_bytes] and [to_le_bytes] of an [n]-byte integer. *)
Fixpoint to_le_bytes (n : nat) (z : Z) : bytes :=
  match n with
  | O => []
  | S n => byte_of z :: to_le_bytes n (z / 256)
  end.
Definition to_be_bytes (n : nat) (z : Z) : bytes := reverse (to_le_bytes n z).

Lemma length_to_le_bytes n z : length (to_le_bytes n z) = n.
Proof. revert z; induction n; intros; simpl; auto. Qed.

Lemma length_to_be_bytes n z : length (to_be_bytes n z) = n.
Proof. unfold to_be_bytes. by rewrite length_reverse, length_to_le_bytes. Qed.

(** The encoding determines the value modulo the width. *)
Lemma to_le_bytes_mod n x y :
  to_le_bytes n x = to_le_bytes n y <-> (x mod 256 ^ Z.of_nat n = y mod 256 ^ Z.of_nat n)%Z.
Proof.
  revert x y; induction n as [|n IH]; intros x y.
  { simpl. by rewrite !Z.mod_1_r. }
  rewrite Nat2Z.inj_succ, Z.pow_succ_r by lia.
  rewrite !Z.rem_mul_r by lia. split.
  - simpl. intros E. injection E as E1 E2%IH.
    apply (f_equal byte_val) in E1. rewrite !byte_val_of in E1. lia.
  - intros E. pose proof (Z.mod_pos_bound x 256 ltac:(lia)).
    pose proof (Z.mod_pos_bound y 256 ltac:(lia)).
    assert (x mod 256 = y mod 256)%Z by nia.
    simpl. f_equal.
    + apply (inj byte_val). by rewrite !byte_val_of.
    + apply IH. lia.
Qed.

Lemma to_le_bytes_inj n x y :
  (0 <= x < 256 ^ Z.of_nat n)%Z -> (0 <= y < 256 ^ Z.of_nat n)%Z ->
  to_le_bytes n x = to_le_bytes n y -> x = y.
Proof. intros ?? E%to_le_bytes_mod. by rewrite !Z.mod_small in E by lia. Qed.

Lemma to_be_bytes_inj n x y :
  (0 <= x < 256 ^ Z.of_nat n)%Z -> (0 <= y < 256 ^ Z.of_nat n)%Z ->
  to_be_bytes n x = to_be_bytes n y -> x = y.
Proof.
  intros ?? E. apply (to_le_bytes_inj n); [done..|].
  by apply (inj reverse).
Qed.

(** Two's complement values: the 8-byte encoding is injective on [i64]. *)
Lemma to_le_bytes_inj_i64 x y :
  in_i64 x -> in_i64 y -> to_le_bytes 8 x = to_le_bytes 8 y -> x = y.
Proof.
  unfold in_i64, i64_min, i64_max. intros Hx Hy E%to_le_bytes_mod.
  change (256 ^ Z.of_nat 8)%Z with (2 ^ 64)%Z in E.
  assert (exists k, x = y + k * 2 ^ 64)%Z as [k Hk].
  { exists (x / 2 ^ 64 - y / 2 ^ 64)%Z.
    pose proof (Z.div_mod x (2 ^ 64) ltac:(lia)).
    pose proof (Z.div_mod y (2 ^ 64) ltac:(lia)). lia. }
  assert (k = 0)%Z by nia. lia.
Qed.

(** Appending after a prefix of known length is unambiguous. *)
Lemma app_inj_l_len {A} (a b c d : list A) :
  length a = length b -> a ++ c = b ++ d -> a = b /\ c = d.
Proof. intros. by apply app_inj_1. Qed.

#[export] Hint Resolve key_bytes_length length_to_be_bytes length_to_le_bytes : mesh.
#[export] Hint Rewrite @length_app length_to_be_bytes length_to_le_bytes key_bytes_length
  length_as_bytes : mesh_len.
