(* ===== verification/Digits.v ===== *)
(** * Decimal text

    Zero-padded decimal numbers ([format!("{:04}")]), reading digits back, and the fact that
    makes file names of months sortable: texts of the same number of digits are ordered as
    their numbers. *)
From stdpp Require Import base list strings pretty.
From Stdlib Require Import ZArith Lia Strings.Byte.
From S2P Require Import Prelude Bytes.

Local Open Scope Z_scope.

Definition is_ascii_digit (b : byte) : bool := (48 <=? byte_val b) && (byte_val b <=? 57).

(** Pad with zeros to a width. *)
Fixpoint pad (n : nat) (s : string) : string :=
  match n with
  | O => s
  | S n => if Nat.ltb n (String.length s) then s else ("0" +:+ pad n s)%string
  end.

Definition digits_value (acc : Z) (b : bytes) : Z := foldl (fun a d => 10 * a + (byte_val d - 48)) acc b.

(** [str::parse] on digits only. *)
Definition parse_digits (b : bytes) : option Z :=
  if forallb is_ascii_digit b then Some (digits_value 0 b) else None.

(** The [n] last digits of a number, most significant first. *)
Fixpoint digits (n : nat) (z : Z) : bytes :=
  match n with
  | O => []
  | S n => digits n (z / 10) ++ [byte_of (48 + z mod 10)]
  end.

(** ** Printing *)
Lemma length_digits n z : length (digits n z) = n.
Proof. revert z; induction n as [|n IH]; intros z; simpl; [done|]. rewrite length_app, IH. simpl. lia. Qed.

Lemma pad_zeros n s : pad (n + String.length s) s = from_bytes (digits n 0) +:+ s.
Proof.
  induction n as [|n IH].
  - simpl. destruct s as [|c s]; [done|]. cbn [String.length pad].
    by rewrite (proj2 (Nat.ltb_lt _ _)) by lia.
  - cbn [Nat.add pad]. rewrite (proj2 (Nat.ltb_ge _ _)), IH by lia.
    assert (Hd : digits (S n) 0 = Byte.x30 :: digits n 0).
    { clear. induction n as [|n IH]; [done|]. cbn [digits] in *. rewrite Z.div_0_l in * by lia.
      by rewrite IH at 1. }
    by rewrite Hd.
Qed.

Lemma digit_char (x : N) :
  String (pretty_N_char (x mod 10)) "" = from_bytes [byte_of (48 + Z.of_N x mod 10)].
Proof.
  assert (Heq : Z.of_N x mod 10 = Z.of_N (x mod 10)) by by rewrite N2Z.inj_mod.
  rewrite Heq. clear Heq.
  assert (Hx : (x mod 10 < 10)%N) by (apply N.mod_lt; lia). revert Hx.
  generalize (x mod 10)%N. intros d Hd.
  assert (Hc : d = 0%N \/ d = 1%N \/ d = 2%N \/ d = 3%N \/ d = 4%N \/ d = 5%N \/ d = 6%N \/ d = 7%N \/
               d = 8%N \/ d = 9%N) by lia.
  repeat (destruct Hc as [Hc|Hc]; [by subst d|]). by subst d.
Qed.

Lemma from_bytes_app a b : from_bytes (a ++ b) = from_bytes a +:+ from_bytes b.
Proof. apply as_bytes_inj. by rewrite as_bytes_app, !as_from_bytes. Qed.

Lemma string_app_assoc (a b c : string) : (a +:+ b) +:+ c = a +:+ (b +:+ c).
Proof. apply as_bytes_inj. by rewrite !as_bytes_app, app_assoc. Qed.

Lemma pad_go n (x : N) s :
  Z.of_N x < 10 ^ Z.of_nat n ->
  pad (n + String.length s) (pretty_N_go x s) = from_bytes (digits n (Z.of_N x)) +:+ s.
Proof.
  revert x s. induction n as [|n IH]; intros x s Hx.
  - assert (x = 0%N) as -> by lia. rewrite pretty_N_go_0. apply (pad_zeros 0).
  - destruct (decide (x = 0)%N) as [->|Hx0]; [rewrite pretty_N_go_0; apply pad_zeros|].
    rewrite pretty_N_go_step by lia.
    replace (S n + String.length s)%nat
      with (n + String.length (String (pretty_N_char (x mod 10)) s))%nat by (simpl; lia).
    rewrite IH.
    + rewrite N2Z.inj_div. cbn [digits]. rewrite from_bytes_app, <- digit_char, string_app_assoc.
      done.
    + rewrite N2Z.inj_div. apply Z.div_lt_upper_bound; [lia|].
      rewrite Nat2Z.inj_succ, Z.pow_succ_r in Hx by lia. lia.
Qed.

(** A padded number is its digits. *)
Lemma pad_pretty n z :
  (0 < n)%nat -> 0 <= z < 10 ^ Z.of_nat n -> pad n (pretty z) = from_bytes (digits n z).
Proof.
  intros Hn Hz. destruct z as [|p|p]; [| |lia].
  - change (pretty 0) with "0"%string. replace n with (pred n + String.length "0")%nat at 1 by (simpl; lia).
    rewrite pad_zeros. destruct n as [|n]; [lia|]. cbn [digits].
    rewrite from_bytes_app, Z.div_0_l by lia. reflexivity.
  - change (pretty (Z.pos p)) with (pretty_N_go (N.pos p) ""). pose proof (pad_go n (N.pos p) "") as H.
    cbn [String.length] in H. rewrite Nat.add_0_r in H. rewrite H by (simpl; lia).
    apply as_bytes_inj. by rewrite as_bytes_app, app_nil_r.
Qed.

(** ** Reading back *)
Lemma digits_are_digits n z : forallb is_ascii_digit (digits n z) = true.
Proof.
  revert z; induction n as [|n IH]; intros z; cbn [digits]; [done|]. rewrite forallb_app, IH. simpl.
  unfold is_ascii_digit. rewrite byte_val_of.
  pose proof (Z.mod_pos_bound z 10 ltac:(lia)). rewrite Z.mod_small by lia.
  rewrite !(proj2 (Z.leb_le _ _)) by lia. done.
Qed.

Lemma digits_value_digits n z : 0 <= z < 10 ^ Z.of_nat n -> digits_value 0 (digits n z) = z.
Proof.
  revert z; induction n as [|n IH]; intros z Hz; [simpl in *; lia|]. cbn [digits].
  unfold digits_value in *. rewrite foldl_app. rewrite IH.
  - simpl. rewrite byte_val_of. pose proof (Z.mod_pos_bound z 10 ltac:(lia)).
    rewrite (Z.mod_small (48 + _)) by lia. pose proof (Z.div_mod z 10 ltac:(lia)). lia.
  - rewrite Nat2Z.inj_succ, Z.pow_succ_r in Hz by lia.
    split; [apply Z.div_pos|apply Z.div_lt_upper_bound]; lia.
Qed.

Lemma parse_digits_digits n z : 0 <= z < 10 ^ Z.of_nat n -> parse_digits (digits n z) = Some z.
Proof. intros Hz. unfold parse_digits. by rewrite digits_are_digits, digits_value_digits. Qed.

Lemma is_digit_bound b : is_ascii_digit b = true -> 48 <= byte_val b <= 57.
Proof. unfold is_ascii_digit. rewrite andb_true_iff, !Z.leb_le. lia. Qed.

Lemma digits_value_bound b acc :
  forallb is_ascii_digit b = true ->
  acc * 10 ^ Z.of_nat (length b) <= digits_value acc b < (acc + 1) * 10 ^ Z.of_nat (length b).
Proof.
  unfold digits_value. revert acc; induction b as [|d b IH]; intros acc; simpl; [lia|].
  intros [Hd Hb]%andb_true_iff. apply is_digit_bound in Hd. specialize (IH (10 * acc + (byte_val d - 48)) Hb).
  change (Z.pos (Pos.of_succ_nat (length b))) with (Z.of_nat (S (length b))).
  rewrite Nat2Z.inj_succ, Z.pow_succ_r by lia. nia.
Qed.

(** ** Order *)
Lemma compare_bytes_cons x a y b :
  String.compare (from_bytes (x :: a)) (from_bytes (y :: b)) =
    match byte_val x ?= byte_val y with Eq => String.compare (from_bytes a) (from_bytes b) | c => c end.
Proof.
  simpl. unfold Ascii.compare, byte_val. rewrite !N2Z.inj_compare.
  assert (H : forall z, Ascii.N_of_ascii (Ascii.ascii_of_byte z) = Byte.to_N z) by by intros [].
  rewrite <- !N2Z.inj_compare, !H. by destruct (Byte.to_N x ?= Byte.to_N y)%N.
Qed.

Lemma compare_bytes_app a b c d :
  length a = length c ->
  String.compare (from_bytes (a ++ b)) (from_bytes (c ++ d)) =
    match String.compare (from_bytes a) (from_bytes c) with
    | Eq => String.compare (from_bytes b) (from_bytes d) | r => r end.
Proof.
  revert c; induction a as [|x a IH]; intros [|y c]; simpl app; try done. intros [= Hl].
  rewrite !compare_bytes_cons. destruct (byte_val x ?= byte_val y); [|done..]. by apply IH.
Qed.

(** Numbers of the same number of digits are ordered as their texts. *)
Lemma compare_digits a b x y :
  forallb is_ascii_digit a = true -> forallb is_ascii_digit b = true -> length a = length b ->
  (digits_value x a ?= digits_value y b) =
    match x ?= y with Eq => String.compare (from_bytes a) (from_bytes b) | c => c end.
Proof.
  revert b x y; induction a as [|c a IH]; intros [|d b] x y; try done.
  { intros _ _ _. simpl. by destruct (x ?= y). }
  simpl forallb. intros [Hc Ha]%andb_true_iff [Hd Hb]%andb_true_iff [= Hl].
  apply is_digit_bound in Hc, Hd. cbn [digits_value foldl].
  change (foldl _ ?i a) with (digits_value i a). change (foldl _ ?i b) with (digits_value i b).
  rewrite (IH b _ _ Ha Hb Hl), compare_bytes_cons.
  destruct (Z.compare_spec x y) as [->|Hxy|Hxy].
  - destruct (Z.compare_spec (byte_val c) (byte_val d)) as [Hcd|Hcd|Hcd].
    + by rewrite Hcd, Z.compare_refl.
    + by rewrite (proj2 (Z.compare_lt_iff _ _)) by lia.
    + by rewrite (proj2 (Z.compare_gt_iff _ _)) by lia.
  - by rewrite (proj2 (Z.compare_lt_iff _ _)) by lia.
  - by rewrite (proj2 (Z.compare_gt_iff _ _)) by lia.
Qed.

(** Digits are those of their value. *)
Lemma digits_of_value b : forallb is_ascii_digit b = true -> digits (length b) (digits_value 0 b) = b.
Proof.
  induction b as [|d b IH] using rev_ind; [done|].
  rewrite forallb_app, length_app, Nat.add_comm. simpl forallb.
  intros [Hb Hd]%andb_true_iff. rewrite andb_true_r in Hd. apply is_digit_bound in Hd.
  unfold digits_value. rewrite foldl_app. cbn [Nat.add length digits foldl].
  change (foldl _ 0 b) with (digits_value 0 b).
  replace (10 * digits_value 0 b + (byte_val d - 48)) with (byte_val d - 48 + digits_value 0 b * 10) by ring.
  rewrite Z.div_add, Z.div_small, Z.mod_add, Z.mod_small, Z.add_0_l, IH by lia || done.
  do 2 f_equal. rewrite <- (byte_of_val d) at 2. f_equal. lia.
Qed.

(** ** Integers as text *)

(** [str::parse] to an unsigned and a signed 64-bit integer. *)
Definition parse_unsigned (max : Z) (b : bytes) : option Z :=
  let b := match b with c :: b' => if decide (c = Byte.x2b) then b' else b | [] => b end in
  if bool_decide (b = []) then None
  else
    match parse_digits b with
    | Some z => if z <=? max then Some z else None
    | None => None
    end.
Definition parse_u64 : bytes -> option Z := parse_unsigned u64_max.
Definition parse_i64 (b : bytes) : option Z :=
  match b with
  | c :: b' =>
      if decide (c = Byte.x2d) then
        match b' with
        | c' :: _ => if decide (c' = Byte.x2b) then None else Z.opp <$> parse_unsigned (2 ^ 63) b'
        | [] => None
        end
      else parse_unsigned i64_max b
  | [] => None
  end.

Lemma digits_value_zeros n b : digits_value 0 (replicate n Byte.x30 ++ b) = digits_value 0 b.
Proof. unfold digits_value. rewrite foldl_app. f_equal. induction n as [|n IH]; simpl; [done|]. exact IH. Qed.

Lemma pad_bytes n s :
  as_bytes (pad n s) = replicate (n - String.length s) Byte.x30 ++ as_bytes s.
Proof.
  induction n as [|n IH]; [done|]. cbn [pad]. destruct (Nat.ltb_spec n (String.length s)) as [Hl|Hl].
  - by replace (S n - String.length s)%nat with 0%nat by lia.
  - replace (S n - String.length s)%nat with (S (n - String.length s))%nat by lia.
    cbn [replicate]. rewrite as_bytes_app, IH. done.
Qed.

(** The text of a number that is not negative is its digits. *)
Lemma pretty_nonneg z :
  0 <= z -> forallb is_ascii_digit (as_bytes (pretty z)) = true /\
  digits_value 0 (as_bytes (pretty z)) = z /\ as_bytes (pretty z) <> [].
Proof.
  intros Hz. set (n := S (Z.to_nat z)).
  assert (Hn : 0 <= z < 10 ^ Z.of_nat n).
  { split; [done|]. apply Z.lt_le_trans with (Z.of_nat n); [lia|]. apply Z.lt_le_incl, Z.pow_gt_lin_r; lia. }
  pose proof (f_equal as_bytes (pad_pretty n z ltac:(lia) Hn)) as Hp. rewrite pad_bytes, as_from_bytes in Hp.
  split_and!.
  - pose proof (digits_are_digits n z) as Hd. rewrite <- Hp, forallb_app in Hd.
    by apply andb_true_iff in Hd as [_ ?].
  - pose proof (digits_value_digits n z Hn) as Hd. by rewrite <- Hp, digits_value_zeros in Hd.
  - intros E. rewrite E in Hp. assert (Hl : String.length (pretty z) = 0%nat) by by rewrite <- length_as_bytes, E.
    destruct z as [|p|p]; [done| |lia]. pose proof (digits_value_digits n (Z.pos p) Hn) as Hd.
    rewrite <- Hp, digits_value_zeros in Hd. done.
Qed.

Lemma parse_unsigned_pretty max z : 0 <= z <= max -> parse_unsigned max (as_bytes (pretty z)) = Some z.
Proof.
  intros Hz. destruct (pretty_nonneg z ltac:(lia)) as (Hd & Hv & Hne). unfold parse_unsigned.
  destruct (as_bytes (pretty z)) as [|c b] eqn:E; [done|].
  rewrite decide_False.
  - rewrite bool_decide_false by done. unfold parse_digits. rewrite Hd, Hv.
    by rewrite (proj2 (Z.leb_le _ _)) by lia.
  - intros ->. by simpl in Hd.
Qed.

Lemma parse_i64_pretty z : in_i64 z -> parse_i64 (as_bytes (pretty z)) = Some z.
Proof.
  unfold in_i64, i64_min, i64_max. intros Hz. destruct (Z.le_gt_cases 0 z) as [H0|H0].
  - pose proof (parse_unsigned_pretty i64_max z ltac:(unfold i64_max; lia)) as Hp.
    destruct (pretty_nonneg z H0) as (Hd & _ & Hne). unfold parse_i64.
    destruct (as_bytes (pretty z)) as [|c b]; [done|]. rewrite decide_False; [done|].
    intros ->. by simpl in Hd.
  - destruct z as [|p|p]; [lia..|]. change (pretty (Z.neg p)) with ("-" +:+ pretty (Z.pos p))%string.
    rewrite as_bytes_app. change (as_bytes "-") with [Byte.x2d]. cbn [app parse_i64].
    rewrite decide_True by done. pose proof (parse_unsigned_pretty (2 ^ 63) (Z.pos p) ltac:(lia)) as Hp.
    destruct (pretty_nonneg (Z.pos p) ltac:(lia)) as (Hd & _ & Hne).
    destruct (as_bytes (pretty (Z.pos p))) as [|c b]; [done|]. rewrite decide_False by (intros ->; by simpl in Hd).
    by rewrite Hp.
Qed.

(** ** White space *)

(** The characters of [char::is_whitespace], in UTF-8. *)
Definition whitespace : list bytes :=
  [[Byte.x20]; [Byte.x09]; [Byte.x0a]; [Byte.x0b]; [Byte.x0c]; [Byte.x0d]; [Byte.xc2; Byte.x85];
   [Byte.xc2; Byte.xa0]; [Byte.xe1; Byte.x9a; Byte.x80]] ++
  ((fun b => [Byte.xe2; Byte.x80; b]) <$>
    [Byte.x80; Byte.x81; Byte.x82; Byte.x83; Byte.x84; Byte.x85; Byte.x86; Byte.x87; Byte.x88;
     Byte.x89; Byte.x8a; Byte.xa8; Byte.xa9; Byte.xaf]) ++
  [[Byte.xe2; Byte.x81; Byte.x9f]; [Byte.xe3; Byte.x80; Byte.x80]].

Definition drop_one (spaces : list bytes) (b : bytes) : option bytes :=
  head (omap (fun w => if decide (take (length w) b = w) then Some (drop (length w) b) else None) spaces).
Fixpoint drop_all (fuel : nat) (spaces : list bytes) (b : bytes) : bytes :=
  match fuel with
  | O => b
  | S fuel => match drop_one spaces b with Some b => drop_all fuel spaces b | None => b end
  end.

(** [str::trim]: every removal shortens the text, so its length is fuel enough. *)
Definition trim (b : bytes) : bytes :=
  let b := drop_all (length b) whitespace b in
  reverse (drop_all (length b) (reverse <$> whitespace) (reverse b)).


Definition sign_or_digit (c : byte) : bool := is_ascii_digit c || bool_decide (c = Byte.x2d).

Lemma drop_one_none l c b :
  Forall (fun w : bytes => head w <> Some c /\ w <> []) l -> drop_one l (c :: b) = None.
Proof.
  intros Hl. unfold drop_one. induction Hl as [|w l [Hc Hn] _ IH]; [done|]. cbn [omap list_omap].
  rewrite decide_False; [exact IH|]. destruct w as [|x w]; [done|]. cbn. intros [= <- _]. done.
Qed.

Lemma drop_all_number l c b n :
  l = whitespace \/ l = reverse <$> whitespace -> sign_or_digit c = true -> drop_all n l (c :: b) = c :: b.
Proof.
  intros Hl Hc. destruct n as [|n]; [done|]. cbn [drop_all]. rewrite drop_one_none; [done|].
  assert (Hw : Forall (fun w : bytes => match w with x :: _ => sign_or_digit x = false | [] => False end) l).
  { destruct Hl as [->| ->]; vm_compute; repeat constructor. }
  eapply Forall_impl; [exact Hw|]. intros [|x w]; [done|]. intros Hx. split; [|done]. simpl. congruence.
Qed.

(** A number has no white space to trim. *)
Lemma trim_number b : forallb sign_or_digit b = true -> trim b = b.
Proof.
  intros Hb. unfold trim. destruct b as [|c b']; [done|]. set (b := c :: b') in *.
  rewrite (drop_all_number whitespace c b') by (by left || by apply andb_true_iff in Hb as [? _]). fold b.
  assert (Hr : forallb sign_or_digit (reverse b) = true).
  { apply forallb_forall. intros x Hx. rewrite forallb_forall in Hb. apply Hb.
    rewrite <- list_elem_of_In, elem_of_reverse in Hx. by rewrite <- list_elem_of_In. }
  destruct (reverse b) as [|d r] eqn:E.
  - apply (f_equal reverse) in E. by rewrite reverse_involutive in E.
  - rewrite drop_all_number by (by right || by apply andb_true_iff in Hr as [? _]).
    rewrite <- E. apply reverse_involutive.
Qed.

Lemma number_pretty (z : Z) : forallb sign_or_digit (as_bytes (pretty z)) = true.
Proof.
  assert (Hd : forall z, 0 <= z -> forallb sign_or_digit (as_bytes (pretty z)) = true).
  { intros y Hy. destruct (pretty_nonneg y Hy) as (Hd & _). apply forallb_forall. intros x Hx.
    rewrite forallb_forall in Hd. unfold sign_or_digit. by rewrite Hd. }
  destruct (Z.le_gt_cases 0 z) as [H0|H0]; [by apply Hd|].
  destruct z as [|p|p]; [lia..|]. change (pretty (Z.neg p)) with ("-" +:+ pretty (Z.pos p))%string.
  rewrite as_bytes_app. change (as_bytes "-") with [Byte.x2d]. cbn [app forallb].
  by rewrite Hd by lia.
Qed.

Lemma trim_pretty (z : Z) : trim (as_bytes (pretty z)) = as_bytes (pretty z).
Proof. apply trim_number, number_pretty. Qed.
