(* ===== verification/Float64.v ===== *)
(** * Double-precision arithmetic

    Rust's [f64] is IEEE 754 binary64; the operations are the executable specification of
    the Standard Library ([SpecFloat]) at precision 53.  Only what the rate limiter uses is
    here, with the lemma that makes integer arithmetic exact: sums, differences and
    comparisons of integers below [2 ^ 53] are those of the integers. *)
From stdpp Require Import base tactics numbers.
From Stdlib Require Import ZArith Lia.
From Stdlib Require Export Floats.SpecFloat.
From S2P Require Import Prelude.

Local Open Scope Z_scope.

Abbreviation f64 := spec_float.

Definition f64_add : f64 -> f64 -> f64 := SFadd 53 1024.
Definition f64_sub : f64 -> f64 -> f64 := SFsub 53 1024.
Definition f64_mul : f64 -> f64 -> f64 := SFmul 53 1024.
Definition f64_div : f64 -> f64 -> f64 := SFdiv 53 1024.

(** [f64::from(u32)] and [u64 as f64]: the nearest double, ties to even. *)
Definition f64_of_Z (z : Z) : f64 := binary_normalize 53 1024 z 0 false.

(** [a >= b] and [a > b]. *)
Definition f64_ge (a b : f64) : bool := SFleb b a.
Definition f64_gt (a b : f64) : bool := SFltb b a.

Definition is_nan (a : f64) : bool := match a with S754_nan => true | _ => false end.

(** [f64::min] and [f64::max]: the other operand when one is not a number. *)
Definition f64_min (a b : f64) : f64 :=
  if is_nan a then b else if is_nan b then a else if SFleb a b then a else b.
Definition f64_max (a b : f64) : f64 :=
  if is_nan a then b else if is_nan b then a else if SFleb b a then a else b.

(** [f64::ceil] of a finite number, as an integer. *)
Definition f64_ceil_Z (neg : bool) (m : positive) (e : Z) : Z :=
  let z := if neg then Zneg m else Zpos m in
  if 0 <=? e then z * 2 ^ e else - (- z / 2 ^ (- e)).

(** [x.ceil() as u64]: saturating, zero for what is not a number. *)
Definition f64_ceil_u64 (a : f64) : Z :=
  match a with
  | S754_finite neg m e => clamp 0 u64_max (f64_ceil_Z neg m e)
  | S754_infinity false => u64_max
  | _ => 0
  end.

(** ** Integers are exact *)
Definition canon (k : Z) : f64 :=
  S754_finite false (Z.to_pos (k * 2 ^ (52 - Z.log2 k))) (Z.log2 k - 52).

Lemma digits_log2 m : Z.pos (digits2_pos m) = Z.log2 (Z.pos m) + 1.
Proof.
  induction m as [m IH|m IH|]; [| |done]; cbn [digits2_pos]; rewrite Pos2Z.inj_succ, IH.
  - rewrite Pos2Z.inj_xI, Z.log2_succ_double; lia.
  - rewrite Pos2Z.inj_xO, Z.log2_double; lia.
Qed.

Lemma shl_iter m d : Z.pos (Pos.iter xO m d) = Z.pos m * 2 ^ Z.pos d.
Proof.
  induction d as [|d IH] using Pos.peano_ind; [simpl; lia|].
  rewrite Pos.iter_succ, Pos2Z.inj_xO, IH, Pos2Z.inj_succ, Z.pow_succ_r by lia. ring.
Qed.

Lemma shr_1_double z : 0 < z ->
  shr_1 {| shr_m := 2 * z; shr_r := false; shr_s := false |} =
    {| shr_m := z; shr_r := false; shr_s := false |}.
Proof. by destruct z. Qed.

Lemma iter_pos_shr p z : 0 < z ->
  iter_pos shr_1 p {| shr_m := z * 2 ^ Z.pos p; shr_r := false; shr_s := false |} =
    {| shr_m := z; shr_r := false; shr_s := false |}.
Proof.
  revert z. induction p as [p IH|p IH|]; intros z Hz; cbn [iter_pos].
  - replace (z * 2 ^ Z.pos (xI p)) with (2 * ((z * 2 ^ Z.pos p) * 2 ^ Z.pos p)).
    + rewrite shr_1_double, IH, IH by lia. done.
    + replace (Z.pos (xI p)) with (1 + Z.pos p + Z.pos p) by lia.
      rewrite !Z.pow_add_r, Z.pow_1_r by lia. ring.
  - replace (z * 2 ^ Z.pos (xO p)) with ((z * 2 ^ Z.pos p) * 2 ^ Z.pos p).
    + rewrite IH, IH by lia. done.
    + replace (Z.pos (xO p)) with (Z.pos p + Z.pos p) by lia.
      rewrite Z.pow_add_r by lia. ring.
  - rewrite Z.pow_1_r, Z.mul_comm. by apply shr_1_double.
Qed.

Lemma log2_mul_pow2' k n : 0 < k -> 0 <= n -> Z.log2 (k * 2 ^ n) = Z.log2 k + n.
Proof. intros. rewrite Z.log2_mul_pow2; lia. Qed.

(** Rounding a number whose mantissa already has 53 digits, or more of them zero. *)
Lemma round_aux_exact k s :
  0 < k -> Z.log2 k <= 52 -> 0 <= s ->
  binary_round_aux 53 1024 false (k * 2 ^ (52 - Z.log2 k) * 2 ^ s) (Z.log2 k - 52 - s) loc_Exact
    = canon k.
Proof.
  intros Hk Hl Hs. set (c := k * 2 ^ (52 - Z.log2 k)).
  assert (Hc : 0 < c) by (unfold c; nia).
  assert (Hlc : Z.log2 c = 52) by (unfold c; rewrite log2_mul_pow2'; lia).
  pose proof (Z.log2_nonneg k) as Hn.
  assert (Hd : forall n, 0 <= n -> Zdigits2 (c * 2 ^ n) = 53 + n).
  { intros n Hn'. pose proof (log2_mul_pow2' c n Hc Hn') as Hlog.
    destruct (c * 2 ^ n) as [|m|m] eqn:E; [nia| |nia]. unfold Zdigits2.
    rewrite digits_log2. lia. }
  unfold binary_round_aux, shr_fexp. rewrite Hd by done. unfold fexp, emin.
  replace (53 + s + (Z.log2 k - 52 - s)) with (Z.log2 k + 1) by lia.
  rewrite Z.max_l by lia. replace (Z.log2 k + 1 - 53 - (Z.log2 k - 52 - s)) with s by lia.
  assert (Hshr : shr (shr_record_of_loc (c * 2 ^ s) loc_Exact) (Z.log2 k - 52 - s) s =
    ({| shr_m := c; shr_r := false; shr_s := false |}, Z.log2 k - 52)).
  { unfold shr, shr_record_of_loc. destruct s as [|p|p]; [| |lia].
    - rewrite Z.pow_0_r, Z.mul_1_r. f_equal. lia.
    - rewrite iter_pos_shr by done. f_equal. lia. }
  rewrite Hshr. cbn [shr_m loc_of_shr_record round_nearest_even].
  pose proof (Hd 0 ltac:(lia)) as Hd0. rewrite Z.pow_0_r, Z.mul_1_r in Hd0. rewrite Hd0.
  replace (53 + 0 + (Z.log2 k - 52)) with (Z.log2 k + 1) by lia. rewrite Z.max_l by lia.
  replace (Z.log2 k + 1 - 53 - (Z.log2 k - 52)) with 0 by lia.
  cbn [shr shr_record_of_loc shr_m]. unfold canon. fold c. destruct c as [|m|m]; try lia.
  rewrite (proj2 (Z.leb_le _ _)) by lia. done.
Qed.

(** An integer below [2 ^ 53], however its mantissa is aligned. *)
Lemma round_exact m k n :
  0 < k < 2 ^ 53 -> 0 <= n -> Z.pos m = k * 2 ^ n -> binary_round 53 1024 false m (- n) = canon k.
Proof.
  intros Hk Hn Hm. assert (Hl : Z.log2 k <= 52) by (apply Z.lt_succ_r, Z.log2_lt_pow2; lia).
  pose proof (Z.log2_nonneg k) as Hlk.
  unfold binary_round. rewrite digits_log2, Hm, log2_mul_pow2' by lia. unfold fexp, emin.
  replace (Z.log2 k + n + 1 + - n) with (Z.log2 k + 1) by lia. rewrite Z.max_l by lia.
  unfold shl_align. destruct (Z.log2 k + 1 - 53 - - n) as [|s|d] eqn:Hs.
  - rewrite Hm. replace n with (52 - Z.log2 k) by lia.
    rewrite <- (round_aux_exact k 0) by lia. f_equal; lia.
  - rewrite Hm. rewrite <- (round_aux_exact k (Z.pos s)) by lia. f_equal; [|lia].
    rewrite <- Z.mul_assoc, <- Z.pow_add_r by lia. do 2 f_equal. lia.
  - rewrite shl_iter, Hm, <- (round_aux_exact k 0) by lia. f_equal; [|lia].
    rewrite Z.pow_0_r, Z.mul_1_r, <- Z.mul_assoc, <- Z.pow_add_r by lia. do 2 f_equal. lia.
Qed.

Lemma f64_of_Z_canon k : 0 < k < 2 ^ 53 -> f64_of_Z k = canon k.
Proof.
  intros Hk. destruct k as [|m|m]; try lia. unfold f64_of_Z, binary_normalize.
  apply (round_exact m (Z.pos m) 0); lia.
Qed.

Lemma shl_align_canon k e :
  0 < k < 2 ^ 53 -> e <= Z.log2 k - 52 ->
  Z.pos (fst (shl_align (Z.to_pos (k * 2 ^ (52 - Z.log2 k))) (Z.log2 k - 52) e)) = k * 2 ^ (- e).
Proof.
  intros Hk He. assert (Hl : Z.log2 k <= 52) by (apply Z.lt_succ_r, Z.log2_lt_pow2; lia).
  unfold shl_align. destruct (e - (Z.log2 k - 52)) as [|s|d] eqn:Hd; simpl; [|lia|].
  - rewrite Z2Pos.id by nia. do 2 f_equal. lia.
  - rewrite shl_iter, Z2Pos.id, <- Z.mul_assoc, <- Z.pow_add_r by nia. do 2 f_equal. lia.
Qed.

Lemma f64_sub_int a b :
  0 <= b <= a -> a < 2 ^ 53 -> f64_sub (f64_of_Z a) (f64_of_Z b) = f64_of_Z (a - b).
Proof.
  intros Hb Ha. destruct (Z.eq_dec b 0) as [->|Hb0].
  { rewrite Z.sub_0_r. destruct (Z.eq_dec a 0) as [->|Ha0]; [done|].
    by rewrite !f64_of_Z_canon by lia. }
  rewrite (f64_of_Z_canon a), (f64_of_Z_canon b) by lia. unfold f64_sub, canon, SFsub.
  assert (Hab : Z.log2 b <= Z.log2 a) by (apply Z.log2_le_mono; lia).
  rewrite Z.min_r by lia. unfold cond_Zopp. rewrite !shl_align_canon by lia.
  replace (Z.log2 b - 52) with (- (52 - Z.log2 b)) by lia. rewrite Z.opp_involutive.
  assert (Hl : Z.log2 b <= 52) by (apply Z.lt_succ_r, Z.log2_lt_pow2; lia).
  rewrite <- Z.mul_sub_distr_r. destruct (Z.eq_dec (a - b) 0) as [->|Hne]; [done|].
  assert (Hpos : 0 < (a - b) * 2 ^ (52 - Z.log2 b))
    by (apply Z.mul_pos_pos; [lia|apply Z.pow_pos_nonneg; lia]).
  unfold binary_normalize. destruct ((a - b) * 2 ^ (52 - Z.log2 b)) as [|m|m] eqn:E; try lia.
  rewrite f64_of_Z_canon by lia. apply round_exact; lia.
Qed.

Lemma f64_compare_int a b :
  0 <= a < 2 ^ 53 -> 0 <= b < 2 ^ 53 -> SFcompare (f64_of_Z a) (f64_of_Z b) = Some (a ?= b).
Proof.
  intros Ha Hb. destruct (Z.eq_dec a 0) as [->|Ha0].
  { destruct (Z.eq_dec b 0) as [->|Hb0]; [done|]. rewrite (f64_of_Z_canon b) by lia.
    rewrite (proj2 (Z.compare_lt_iff 0 b)) by lia. done. }
  destruct (Z.eq_dec b 0) as [->|Hb0].
  { rewrite (f64_of_Z_canon a) by lia. rewrite (proj2 (Z.compare_gt_iff a 0)) by lia. done. }
  rewrite !f64_of_Z_canon by lia. unfold canon, SFcompare. f_equal.
  destruct (Z.compare_spec (Z.log2 a - 52) (Z.log2 b - 52)) as [He|He|He].
  - assert (Hlog : Z.log2 a = Z.log2 b) by lia.
    assert (Hl : Z.log2 b <= 52) by (apply Z.lt_succ_r, Z.log2_lt_pow2; lia).
    change (Pos.compare_cont Eq ?x ?y) with (Z.compare (Z.pos x) (Z.pos y)).
    rewrite Hlog, !Z2Pos.id by nia. symmetry. rewrite !(Z.mul_comm _ (2 ^ _)).
    apply Zmult_compare_compat_l. lia.
  - symmetry. apply Z.compare_lt_iff, Z.log2_lt_cancel. lia.
  - symmetry. apply Z.compare_gt_iff, Z.log2_lt_cancel. lia.
Qed.

Lemma f64_ge_int a b :
  0 <= a < 2 ^ 53 -> 0 <= b < 2 ^ 53 -> f64_ge (f64_of_Z a) (f64_of_Z b) = (b <=? a).
Proof.
  intros. unfold f64_ge, SFleb. rewrite f64_compare_int by done. unfold Z.leb.
  by destruct (b ?= a).
Qed.

Lemma f64_min_int a b :
  0 <= a < 2 ^ 53 -> 0 <= b < 2 ^ 53 ->
  f64_min (f64_of_Z a) (f64_of_Z b) = f64_of_Z (Z.min a b).
Proof.
  intros Ha Hb. assert (Hnan : forall z, 0 <= z < 2 ^ 53 -> is_nan (f64_of_Z z) = false).
  { intros z Hz. destruct (Z.eq_dec z 0) as [->|]; [done|]. by rewrite f64_of_Z_canon by lia. }
  unfold f64_min. rewrite !Hnan by done.
  change (SFleb ?x ?y) with (f64_ge y x). rewrite f64_ge_int by done.
  destruct (Z.leb_spec a b); f_equal; lia.
Qed.

Lemma f64_add_zero_r k s : 0 < k < 2 ^ 53 -> f64_add (f64_of_Z k) (S754_zero s) = f64_of_Z k.
Proof. intros. by rewrite f64_of_Z_canon by lia. Qed.

(** ** Quotients of integers are finite *)
Definition finite_pos (a : f64) : bool :=
  match a with S754_finite false _ _ | S754_zero false => true | _ => false end.

Lemma shr_1_bound r : 0 <= shr_m r -> 0 <= shr_m (shr_1 r) <= shr_m r.
Proof. destruct r as [[|[]|] ? ?]; simpl; lia. Qed.

Lemma iter_pos_bound p r : 0 <= shr_m r -> 0 <= shr_m (iter_pos shr_1 p r) <= shr_m r.
Proof.
  revert r. induction p as [p IH|p IH|]; intros r Hr; cbn [iter_pos].
  - pose proof (shr_1_bound r Hr). pose proof (IH (shr_1 r)). pose proof (IH (iter_pos shr_1 p (shr_1 r))).
    lia.
  - pose proof (IH r Hr). pose proof (IH (iter_pos shr_1 p r)). lia.
  - by apply shr_1_bound.
Qed.

Lemma digits_bound z n : 0 <= z < 2 ^ n -> 0 <= n -> Zdigits2 z <= n.
Proof.
  intros Hz Hn. destruct z as [|m|m]; [done| |lia]. unfold Zdigits2.
  rewrite digits_log2. pose proof (proj1 (Z.log2_lt_pow2 (Z.pos m) n ltac:(lia)) ltac:(lia)). lia.
Qed.

Lemma shr_fexp_bound m e l n :
  0 <= m < 2 ^ n -> 0 <= n -> e + n <= 900 -> e <= 900 ->
  0 <= shr_m (shr_fexp 53 1024 m e l).1 <= m /\
  (shr_fexp 53 1024 m e l).2 <= Z.max e (Z.max (e + n - 53) (-1074)).
Proof.
  intros Hm Hn He He'. pose proof (digits_bound m n Hm Hn) as Hd.
  assert (Hr : shr_m (shr_record_of_loc m l) = m) by (by destruct l as [|[]]).
  unfold shr_fexp, shr, fexp, emin.
  destruct (Z.max (Zdigits2 m + e - 53) (3 - 1024 - 53) - e) as [|p|p] eqn:Hp; simpl; try lia.
  split; [|lia]. rewrite <- Hr at 3. apply iter_pos_bound. lia.
Qed.

Lemma round_aux_finite m e l n :
  0 <= m < 2 ^ n -> 0 <= n <= 200 -> e <= 400 ->
  finite_pos (binary_round_aux 53 1024 false m e l) = true.
Proof.
  intros Hm Hn He. unfold binary_round_aux.
  pose proof (shr_fexp_bound m e l n Hm (proj1 Hn) ltac:(lia) ltac:(lia)) as [H1 H2].
  destruct (shr_fexp 53 1024 m e l) as [r1 e1]. simpl in H1, H2.
  set (m2 := round_nearest_even _ _).
  assert (Hm2 : 0 <= m2 < 2 ^ (n + 1)).
  { rewrite Z.pow_add_r by lia. subst m2. unfold round_nearest_even.
    destruct (loc_of_shr_record r1) as [|[]]; try destruct (Z.even (shr_m r1)); lia. }
  pose proof (shr_fexp_bound m2 e1 loc_Exact (n + 1) Hm2 ltac:(lia) ltac:(lia) ltac:(lia)) as Hb.
  destruct (shr_fexp 53 1024 m2 e1 loc_Exact) as [r2 e2]. simpl in Hb.
  destruct (shr_m r2) as [|p|p] eqn:Hr; [done| |lia].
  rewrite (proj2 (Z.leb_le _ _)) by lia. done.
Qed.

Lemma digits_pos z : 0 < z -> 0 < Zdigits2 z.
Proof. destruct z; simpl; lia. Qed.

Lemma canon_mantissa k : 0 < k < 2 ^ 53 -> 0 < k * 2 ^ (52 - Z.log2 k) < 2 ^ 53.
Proof.
  intros Hk. assert (Hl : Z.log2 k <= 52) by (apply Z.lt_succ_r, Z.log2_lt_pow2; lia).
  pose proof (Z.log2_nonneg k). split; [apply Z.mul_pos_pos; [lia|]; apply Z.pow_pos_nonneg; lia|].
  apply Z.log2_lt_cancel. rewrite log2_mul_pow2' by lia. change (Z.log2 (2 ^ 53)) with 53. lia.
Qed.

Lemma f64_div_int a b :
  0 <= a < 2 ^ 53 -> 0 < b < 2 ^ 53 -> finite_pos (f64_div (f64_of_Z a) (f64_of_Z b)) = true.
Proof.
  intros Ha Hb. destruct (Z.eq_dec a 0) as [->|Ha0]; [by rewrite (f64_of_Z_canon b) by lia|].
  rewrite (f64_of_Z_canon a), (f64_of_Z_canon b) by lia. unfold f64_div, canon, SFdiv, SFdiv_core_binary.
  pose proof (canon_mantissa a ltac:(lia)) as Hma. pose proof (canon_mantissa b ltac:(lia)) as Hmb.
  set (ma := a * 2 ^ _) in *. set (mb := b * 2 ^ _) in *. rewrite !Z2Pos.id by lia.
  assert (Hla : Z.log2 a <= 52) by (apply Z.lt_succ_r, Z.log2_lt_pow2; lia).
  assert (Hlb : Z.log2 b <= 52) by (apply Z.lt_succ_r, Z.log2_lt_pow2; lia).
  pose proof (Z.log2_nonneg a). pose proof (Z.log2_nonneg b).
  pose proof (digits_bound ma 53 ltac:(lia) ltac:(lia)) as Hd1.
  pose proof (digits_bound mb 53 ltac:(lia) ltac:(lia)) as Hd2.
  pose proof (digits_pos ma ltac:(lia)) as Hda. pose proof (digits_pos mb ltac:(lia)) as Hdb.
  set (e' := Z.min _ _). assert (He' : -300 <= e' <= 60) by (unfold e', fexp, emin; lia).
  set (s := _ - e'). assert (Hs : s <= 120) by (unfold s, e', fexp, emin; lia).
  set (m' := match s with Z0 => ma | _ => _ end).
  assert (Hm' : 0 <= m' < 2 ^ 173).
  { subst m'. destruct s as [|p|p] eqn:E; try lia. rewrite Z.shiftl_mul_pow2 by lia.
    assert (2 ^ Z.pos p <= 2 ^ 120) by (apply Z.pow_le_mono_r; lia).
    change (2 ^ 173) with (2 ^ 53 * 2 ^ 120). nia. }
  pose proof (Z.div_le_upper_bound m' mb m' ltac:(lia) ltac:(nia)) as Hq.
  pose proof (Z.div_pos m' mb ltac:(lia) ltac:(lia)) as Hq0. unfold Z.div in Hq, Hq0.
  destruct (Z.div_eucl m' mb) as [q r]. apply (round_aux_finite _ _ _ 173); lia.
Qed.
