(* ===== verification/Json.v ===== *)
(** * JSON values

    The [serde_json::Value] the daemon passes around, and the accessors of [Value] and
    [Map] the components use.  An object is its list of members; the keys of a parsed
    object are distinct ([wf_value]).  Numbers keep their integer value when they have
    one; a float keeps its text, which no component looks at. *)
From stdpp Require Import base list gmap strings.
From Stdlib Require Import ZArith Lia.
From S2P Require Import Prelude.

Inductive Number : Type :=
| NInt (z : Z)
| NFloat (text : string).

Inductive Value : Type :=
| VNull
| VBool (b : bool)
| VNumber (n : Number)
| VString (s : string)
| VArray (l : list Value)
| VObject (m : list (string * Value)).

Abbreviation Map := (list (string * Value)).

(** The induction principle with hypotheses for the elements of arrays and objects. *)
Section Value_ind.
Variable P : Value -> Prop.
Hypothesis Hnull : P VNull.
Hypothesis Hbool : forall b, P (VBool b).
Hypothesis Hnum : forall n, P (VNumber n).
Hypothesis Hstr : forall s, P (VString s).
Hypothesis Harr : forall l, Forall P l -> P (VArray l).
Hypothesis Hobj : forall m, Forall (fun kv => P kv.2) m -> P (VObject m).

Fixpoint Value_ind' (v : Value) : P v :=
  match v with
  | VNull => Hnull
  | VBool b => Hbool b
  | VNumber n => Hnum n
  | VString s => Hstr s
  | VArray l => Harr l
      ((fix go l := match l return Forall P l with
        | [] => Forall_nil_2 P
        | v :: l => Forall_cons_2 P v l (Value_ind' v) (go l)
        end) l)
  | VObject m => Hobj m
      ((fix go m := match m return Forall (fun kv => P kv.2) m with
        | [] => Forall_nil_2 _
        | kv :: m => Forall_cons_2 _ kv m (Value_ind' kv.2) (go m)
        end) m)
  end.
End Value_ind.

(** ** Objects *)

(** [Map::get]. *)
Fixpoint map_get (k : string) (m : Map) : option Value :=
  match m with
  | [] => None
  | (k', v) :: m => if String.eqb k k' then Some v else map_get k m
  end.

(** [Map::retain] (the predicate sees the key only, as every caller here does). *)
Definition map_retain (p : string -> bool) (m : Map) : Map :=
  filter (fun kv => p kv.1 = true) m.

(** [Map::remove]. *)
Definition map_remove (k : string) (m : Map) : Map :=
  map_retain (fun k' => bool_decide (k' <> k)) m.

(** [Map::insert]: a [BTreeMap], ordered by key; replaces the value of a present key. *)
Fixpoint map_insert (k : string) (v : Value) (m : Map) : Map :=
  match m with
  | [] => [(k, v)]
  | (k', v') :: m' =>
      if String.eqb k k' then (k, v) :: m'
      else if String.ltb k k' then (k, v) :: m
      else (k', v') :: map_insert k v m'
  end.

(** Replace the value of a present key, if any ([Map::get_mut] followed by a write). *)
Fixpoint map_alter (k : string) (f : Value -> Value) (m : Map) : Map :=
  match m with
  | [] => []
  | (k', v') :: m => if String.eqb k k' then (k', f v') :: m else (k', v') :: map_alter k f m
  end.

Definition map_contains (k : string) (m : Map) : bool :=
  match map_get k m with Some _ => true | None => false end.

(** ** Values *)

Definition as_object (v : Value) : option Map :=
  match v with VObject m => Some m | _ => None end.
Definition as_array (v : Value) : option (list Value) :=
  match v with VArray l => Some l | _ => None end.
Definition as_str (v : Value) : option string :=
  match v with VString s => Some s | _ => None end.
Definition is_string (v : Value) : bool :=
  match v with VString _ => true | _ => false end.
Definition is_null (v : Value) : bool :=
  match v with VNull => true | _ => false end.

(** [Value::get] with a string key: [None] unless the value is an object. *)
Definition value_get (k : string) (v : Value) : option Value :=
  m ← as_object v; map_get k m.

(** [Value::pointer] along a path of non-numeric tokens: every step indexes an object. *)
Definition value_pointer (path : list string) (v : Value) : option Value :=
  foldl (fun o k => o ≫= value_get k) (Some v) path.

(** Write through [Value::pointer_mut] along a path of non-numeric tokens. *)
Fixpoint value_pointer_mut (path : list string) (f : Value -> Value) (v : Value) : Value :=
  match path with
  | [] => f v
  | k :: path =>
      match v with
      | VObject m => VObject (map_alter k (value_pointer_mut path f) m)
      | v => v
      end
  end.

(** Every object of the value has distinct keys. *)
Inductive wf_value : Value -> Prop :=
| wf_null : wf_value VNull
| wf_bool b : wf_value (VBool b)
| wf_number n : wf_value (VNumber n)
| wf_string s : wf_value (VString s)
| wf_array l : Forall wf_value l -> wf_value (VArray l)
| wf_object m : NoDup m.*1 -> Forall (fun kv => wf_value kv.2) m -> wf_value (VObject m).

(** ** Lemmas *)

(** Case analysis on the key comparisons of a goal. *)
Ltac case_keys :=
  repeat match goal with
  | |- context [String.eqb ?a ?b] => destruct (String.eqb_spec a b); simpl
  | |- context [decide (@eq string ?a ?b)] => destruct (decide (a = b)); simpl
  end; subst; simpl; try done; try congruence.


Lemma map_get_Some_elem k v m : map_get k m = Some v -> (k, v) ∈ m.
Proof.
  induction m as [|[k' v'] m IH]; simpl; [done|]. case_keys; intros; simplify_eq; set_solver.
Qed.

Lemma map_get_None k m : map_get k m = None <-> k ∉ m.*1.
Proof.
  induction m as [|[k' v'] m IH]; simpl; [set_solver|].
  case_keys; [set_solver|]. rewrite IH. set_solver.
Qed.

Lemma map_get_retain p k m :
  map_get k (map_retain p m) = if p k then map_get k m else None.
Proof.
  unfold map_retain. induction m as [|[k' v'] m IH]; simpl; [by destruct (p k)|].
  rewrite filter_cons. simpl. destruct (decide (p k' = true)) as [Hp|Hp]; simpl.
  - case_keys; by rewrite ?Hp.
  - rewrite IH. case_keys; try done.
    apply not_true_is_false in Hp. by rewrite Hp.
Qed.

Lemma map_get_remove k k' m :
  map_get k (map_remove k' m) = if decide (k = k') then None else map_get k m.
Proof.
  unfold map_remove. rewrite map_get_retain. repeat case_decide; case_bool_decide; done.
Qed.

Lemma map_get_insert k k' v m :
  map_get k (map_insert k' v m) = if decide (k = k') then Some v else map_get k m.
Proof.
  induction m as [|[k2 v2] m IH]; simpl; [by case_keys|].
  destruct (String.ltb k' k2); case_keys; simpl; case_keys.
Qed.

Lemma map_get_alter k k' f m :
  map_get k (map_alter k' f m) =
    if decide (k = k') then f <$> map_get k m else map_get k m.
Proof.
  induction m as [|[k2 v2] m IH]; simpl; [by case_keys|].
  case_keys; simpl; case_keys.
Qed.

Lemma map_retain_retain p q m :
  map_retain p (map_retain q m) = map_retain (fun k => p k && q k) m.
Proof.
  unfold map_retain. induction m as [|[k v] m IH]; simpl; [done|].
  rewrite !filter_cons. simpl. destruct (q k) eqn:Hq; simpl.
  - rewrite filter_cons. simpl. rewrite andb_true_r. by rewrite IH.
  - by rewrite andb_false_r.
Qed.

Lemma map_retain_ext p q m :
  (forall k, p k = q k) -> map_retain p m = map_retain q m.
Proof.
  intros H. apply list_filter_iff. intros [k v]. simpl. by rewrite H.
Qed.

Lemma map_retain_id p m :
  Forall (fun kv => p kv.1 = true) m -> map_retain p m = m.
Proof.
  unfold map_retain. induction 1 as [|[k v] m Hk _ IH]; [done|].
  by rewrite filter_cons_True, IH.
Qed.

Lemma map_alter_none k f m : map_get k m = None -> map_alter k f m = m.
Proof.
  induction m as [|[k' v'] m IH]; simpl; [done|]. case_keys.
  intros. f_equal; auto.
Qed.

Lemma map_alter_alter k f g m : map_alter k f (map_alter k g m) = map_alter k (f ∘ g) m.
Proof.
  induction m as [|[k' v'] m IH]; simpl; [done|].
  case_keys.
Qed.

Lemma map_alter_ext k f g m :
  (forall v, map_get k m = Some v -> f v = g v) -> map_alter k f m = map_alter k g m.
Proof.
  induction m as [|[k' v'] m IH]; simpl; [done|]. intros H. case_keys.
  - by rewrite H.
  - by rewrite IH.
Qed.

Lemma map_alter_id k f m :
  (forall v, map_get k m = Some v -> f v = v) -> map_alter k f m = m.
Proof.
  induction m as [|[k' v'] m IH]; simpl; [done|]. intros H. case_keys.
  - by rewrite H.
  - by rewrite IH.
Qed.

Lemma map_retain_insert p k v m : p k = false -> map_retain p (map_insert k v m) = map_retain p m.
Proof.
  intros Hk. unfold map_retain. induction m as [|[k' v'] m IH]; cbn [map_insert].
  - rewrite filter_cons_False; [done|]. simpl. congruence.
  - destruct (String.eqb_spec k k') as [<-|Hne]; [|destruct (String.ltb k k')].
    + rewrite !filter_cons_False; [done|simpl; congruence..].
    + rewrite filter_cons_False; [done|simpl; congruence].
    + rewrite !filter_cons. by rewrite IH.
Qed.

Lemma map_remove_insert k v m : map_remove k (map_insert k v m) = map_remove k m.
Proof. apply map_retain_insert, bool_decide_false. intros Hk. by apply Hk. Qed.

Lemma map_alter_insert k f v m : map_alter k f (map_insert k v m) = map_insert k (f v) m.
Proof.
  induction m as [|[k' v'] m IH]; simpl; [by rewrite String.eqb_refl|].
  destruct (String.eqb_spec k k') as [<-|Hne]; [by simpl; rewrite String.eqb_refl|].
  destruct (String.ltb k k'); simpl; [by rewrite String.eqb_refl|].
  apply String.eqb_neq in Hne. by rewrite Hne, IH.
Qed.

Lemma map_remove_absent k m : map_get k m = None -> map_remove k m = m.
Proof.
  intros Hk%map_get_None. apply map_retain_id. apply Forall_forall. intros [k' v'] Hin.
  apply bool_decide_true. simpl. intros ->. apply Hk. apply list_elem_of_fmap. by exists (k, v').
Qed.

Lemma fst_map_alter k f m : (map_alter k f m).*1 = m.*1.
Proof.
  induction m as [|[k' v'] m IH]; simpl; [done|]. case_keys; by f_equal.
Qed.

(** Lists of values that read back element by element. *)
Lemma mapM_as_str l : mapM as_str (map VString l) = Some l.
Proof. apply mapM_Some. rewrite Forall2_fmap_l. by apply Forall_Forall2_diag, Forall_true. Qed.

Lemma mapM_of_to {A} (f : A -> Value) (g : Value -> option A) l :
  Forall (fun x => g (f x) = Some x) l -> mapM g (map f l) = Some l.
Proof. intros H. apply mapM_Some. rewrite Forall2_fmap_l. by apply Forall_Forall2_diag. Qed.
