(* ===== verification/Externals.v ===== *)
(** * Interfaces of the libraries the program calls

    Cryptography, text encodings, JSON and RFC 3339 parsing are third-party code
    ([ed25519-dalek], [blake3], [data-encoding], [serde_json], [serde_jcs], [chrono]).
    Each is a class of operations and, separately, a class of the laws its documentation
    states and the program relies on.  Module [Toy] gives every class a concrete
    instance, so that the laws are seen to be satisfiable and witnesses can compute. *)
From stdpp Require Import base list gmap strings countable.
From Stdlib Require Import ZArith Lia Strings.Byte.
From S2P Require Import Prelude Bytes Json.

(** ** [ed25519-dalek] *)
Class Ed25519 := {
  SigningKey : Type;
  VerifyingKey : Type;
  Signature : Type;
  verifying_key : SigningKey -> VerifyingKey;
  vk_to_bytes : VerifyingKey -> key32;
  vk_from_bytes : key32 -> option VerifyingKey;
  sig_to_bytes : Signature -> bytes;
  sig_from_bytes : bytes -> Signature;
  sig_from_slice : bytes -> option Signature;
  ed_sign : SigningKey -> bytes -> Signature;
  verify_strict : VerifyingKey -> bytes -> Signature -> bool }.

Class Ed25519Laws (E : Ed25519) := {
  vk_from_to v : vk_from_bytes (vk_to_bytes v) = Some v;
  vk_to_from k v : vk_from_bytes k = Some v -> vk_to_bytes v = k;
  sig_to_bytes_length s : length (sig_to_bytes s) = 64;
  sig_from_to s : sig_from_bytes (sig_to_bytes s) = s;
  sig_from_slice_spec b :
    sig_from_slice b = if Nat.eqb (length b) 64 then Some (sig_from_bytes b) else None;
  verify_sign sk m : verify_strict (verifying_key sk) m (ed_sign sk m) = true }.

(** ** [blake3] *)
Class Blake3 := { blake3 : bytes -> key32 }.

(** ** [data-encoding] *)
Class TextEncoding := {
  base64url_encode : bytes -> string;
  base64url_decode : string -> result string bytes;
  base32_encode : bytes -> string;
  base32_decode : string -> result string bytes;
  hexlower_encode : bytes -> string;
  hexlower_decode : string -> result string bytes }.

(** The [NOPAD] and [HEXLOWER] encodings are canonical: exactly one text decodes to given
    bytes. *)
Class TextEncodingLaws (T : TextEncoding) := {
  base64url_decode_encode b : base64url_decode (base64url_encode b) = Ok b;
  base64url_encode_decode s b : base64url_decode s = Ok b -> base64url_encode b = s;
  base32_decode_encode b : base32_decode (base32_encode b) = Ok b;
  hexlower_decode_encode b : hexlower_decode (hexlower_encode b) = Ok b;
  hexlower_encode_decode s b : hexlower_decode s = Ok b -> hexlower_encode b = s }.

#[export] Instance hexlower_inj `{TextEncodingLaws} : Inj (=) (=) hexlower_encode.
Proof.
  intros a b Hab. apply (f_equal hexlower_decode) in Hab. rewrite !hexlower_decode_encode in Hab.
  by injection Hab.
Qed.

(** ** [chrono] *)
Class Chrono := {
  parse_from_rfc3339 : string -> result string Z;
  to_rfc3339 : Z -> string }.

(** Four-digit years, the range RFC 3339 can express. *)
Definition rfc3339_range (t : Z) : Prop := (-62167219200 <= t < 253402300800)%Z.

Class ChronoLaws (C : Chrono) := {
  parse_to_rfc3339 t : rfc3339_range t -> parse_from_rfc3339 (to_rfc3339 t) = Ok t }.

(** ** [serde_json] and [serde_jcs] *)
Class SerdeJson := {
  json_to_vec : Value -> bytes;
  json_from_slice : bytes -> option Value;
  jcs_to_vec : Value -> result string bytes }.

(** Values whose printed form reads back exactly: object keys in [BTreeMap] order,
    integers within [i64] and [u64], no floats. *)
Definition json_int (z : Z) : bool := ((i64_min <=? z) && (z <=? u64_max))%Z.

Fixpoint keys_sorted (ks : list string) : bool :=
  match ks with
  | k :: (k' :: _) as ks' => String.ltb k k' && keys_sorted ks'
  | _ => true
  end.

Fixpoint plain_value (v : Value) : bool :=
  match v with
  | VNumber (NInt z) => json_int z
  | VNumber (NFloat _) => false
  | VArray l => forallb plain_value l
  | VObject m =>
      keys_sorted (map fst m) && forallb (fun kv => plain_value kv.2) m
  | _ => true
  end.

Definition newline : byte := Byte.x0a.

Class SerdeJsonLaws (J : SerdeJson) := {
  json_from_to v : plain_value v = true -> json_from_slice (json_to_vec v) = Some v;
  json_no_newline v : newline ∉ json_to_vec v }.

(** ** Concrete instances *)
Module Toy.
(** A signature is the key followed by a 32-byte fold of the message: enough for
    signing and verifying to agree and for different messages to be told apart. *)
Definition toy_hash (m : bytes) : key32 :=
  let z := foldl (fun a b => (a * 257 + byte_val b + 1) mod 2 ^ 61)%Z 7%Z m in
  match try_key32 (to_le_bytes 32 z) with Some k => k | None => key_fill Byte.x00 end.

Definition key_or_zero (b : bytes) : key32 :=
  match try_key32 b with Some k => k | None => key_fill Byte.x00 end.
Definition toy_sig_from_bytes (b : bytes) : key32 * key32 :=
  (key_or_zero (take 32 b), key_or_zero (drop 32 b)).

#[export] Instance ed25519 : Ed25519 := {|
  SigningKey := key32;
  VerifyingKey := key32;
  Signature := key32 * key32;
  verifying_key sk := sk;
  vk_to_bytes v := v;
  vk_from_bytes k := Some k;
  sig_to_bytes s := key_bytes s.1 ++ key_bytes s.2;
  sig_from_bytes := toy_sig_from_bytes;
  sig_from_slice b :=
    if Nat.eqb (length b) 64 then Some (toy_sig_from_bytes b) else None;
  ed_sign sk m := (sk, toy_hash m);
  verify_strict v m s := bool_decide (s = (v, toy_hash m)) |}.

Lemma key_or_zero_bytes k : key_or_zero (key_bytes k) = k.
Proof. unfold key_or_zero. by rewrite try_key32_bytes. Qed.

#[export] Instance ed25519_laws : Ed25519Laws ed25519.
Proof.
  split; simpl; try done.
  - by intros k v [= ->].
  - intros [a b]; simpl. by rewrite length_app, !key_bytes_length.
  - intros [a b]; simpl. unfold toy_sig_from_bytes.
    rewrite take_app_length', drop_app_length' by (symmetry; apply key_bytes_length).
    by rewrite !key_or_zero_bytes.
  - intros. by apply bool_decide_eq_true.
Qed.

#[export] Instance blake3_toy : Blake3 := {| blake3 := toy_hash |}.

#[export] Instance text_encoding : TextEncoding := {|
  base64url_encode := from_bytes;
  base64url_decode s := Ok (as_bytes s);
  base32_encode := from_bytes;
  base32_decode s := Ok (as_bytes s);
  hexlower_encode := from_bytes;
  hexlower_decode s := Ok (as_bytes s) |}.

#[export] Instance text_encoding_laws : TextEncodingLaws text_encoding.
Proof.
  split; simpl.
  - intros b. by rewrite as_from_bytes.
  - intros s b [= <-]. apply from_as_bytes.
  - intros b. by rewrite as_from_bytes.
  - intros b. by rewrite as_from_bytes.
  - intros s b [= <-]. apply from_as_bytes.
Qed.

(** Instants are written as the 8 bytes of their two's complement. *)
Definition toy_time (s : string) : Z :=
  i64_wrap (foldr (fun b a => byte_val b + 256 * a)%Z 0%Z (as_bytes s)).
#[export] Instance chrono : Chrono := {|
  parse_from_rfc3339 s := Ok (toy_time s);
  to_rfc3339 t := from_bytes (to_le_bytes 8 t) |}.

Lemma fold_le_bytes n z :
  foldr (fun b a => byte_val b + 256 * a)%Z 0%Z (to_le_bytes n z) =
    (z mod 256 ^ Z.of_nat n)%Z.
Proof.
  revert z; induction n as [|n IH]; intros z; [by rewrite Z.mod_1_r|].
  rewrite Nat2Z.inj_succ, Z.pow_succ_r, Z.rem_mul_r by lia.
  simpl. by rewrite IH, byte_val_of.
Qed.

#[export] Instance chrono_laws : ChronoLaws chrono.
Proof.
  split; cbn [parse_from_rfc3339 to_rfc3339 chrono]. unfold rfc3339_range, toy_time. intros t Ht. f_equal.
  rewrite as_from_bytes, fold_le_bytes. unfold i64_wrap.
  change (256 ^ Z.of_nat 8)%Z with (2 ^ 64)%Z.
  rewrite Zplus_mod_idemp_l, Z.mod_small; lia.
Qed.

(** ** A JSON printer and parser

    One letter per kind of value, strings with newline, backslash and the closing
    quote escaped, integers in binary. *)
Definition backslash : byte := Byte.x5c.
Definition quote : byte := Byte.x22.

Fixpoint esc (b : bytes) : bytes :=
  match b with
  | [] => [quote]
  | c :: b =>
      if decide (c = newline) then backslash :: Byte.x6e :: esc b
      else if decide (c = backslash) then backslash :: backslash :: esc b
      else if decide (c = quote) then backslash :: Byte.x71 :: esc b
      else c :: esc b
  end.

Fixpoint unesc (b : bytes) : option (bytes * bytes) :=
  match b with
  | [] => None
  | c :: b =>
      if decide (c = quote) then Some ([], b)
      else if decide (c = backslash) then
        match b with
        | [] => None
        | d :: b =>
            let e := if decide (d = Byte.x6e) then newline
                     else if decide (d = Byte.x71) then quote else backslash in
            match unesc b with Some (s, r) => Some (e :: s, r) | None => None end
        end
      else match unesc b with Some (s, r) => Some (c :: s, r) | None => None end
  end.

Lemma unesc_esc b rest : unesc (esc b ++ rest) = Some (b, rest).
Proof.
  induction b as [|c b IH]; [done|]. simpl.
  destruct (decide (c = newline)) as [->|Hn]; [simpl; by rewrite IH|].
  destruct (decide (c = backslash)) as [->|Hb]; [simpl; by rewrite IH|].
  destruct (decide (c = quote)) as [->|Hq]; [simpl; by rewrite IH|].
  simpl. rewrite !decide_False by done. by rewrite IH.
Qed.

Lemma esc_no_newline b : newline ∉ esc b.
Proof.
  induction b as [|c b IH]; simpl; [set_solver|].
  repeat case_decide; rewrite ?not_elem_of_cons; naive_solver.
Qed.

Fixpoint pos_digits (p : positive) : bytes :=
  match p with
  | xH => []
  | xO p => Byte.x30 :: pos_digits p
  | xI p => Byte.x31 :: pos_digits p
  end.
Fixpoint digits_pos (b : bytes) : positive :=
  match b with
  | [] => xH
  | d :: b => if decide (d = Byte.x31) then xI (digits_pos b) else xO (digits_pos b)
  end.

Lemma digits_pos_digits p : digits_pos (pos_digits p) = p.
Proof. induction p; simpl; by f_equal. Qed.

Definition z_digits (z : Z) : bytes :=
  match z with
  | Z0 => [] | Zpos p => Byte.x2b :: pos_digits p | Zneg p => Byte.x2d :: pos_digits p
  end.
Definition digits_z (b : bytes) : Z :=
  match b with
  | [] => Z0
  | s :: b => if decide (s = Byte.x2b) then Zpos (digits_pos b) else Zneg (digits_pos b)
  end.

Lemma digits_z_digits z : digits_z (z_digits z) = z.
Proof. destruct z; simpl; by rewrite ?digits_pos_digits. Qed.

Fixpoint print (v : Value) : bytes :=
  match v with
  | VNull => [Byte.x6e]
  | VBool b => [if b then Byte.x74 else Byte.x66]
  | VNumber (NInt z) => Byte.x69 :: esc (z_digits z)
  | VNumber (NFloat t) => Byte.x64 :: esc (as_bytes t)
  | VString s => Byte.x73 :: esc (as_bytes s)
  | VArray l => Byte.x5b :: foldr (fun v b => print v ++ b) [Byte.x5d] l
  | VObject m =>
      Byte.x7b :: foldr (fun kv b => Byte.x6b :: esc (as_bytes kv.1) ++ print kv.2 ++ b)
                    [Byte.x7d] m
  end.

(** The parser: [fuel] bounds the nesting and the lengths. *)
Section items.
Context (parse : bytes -> option (Value * bytes)).
Fixpoint parse_items (n : nat) (b : bytes) : option (list Value * bytes) :=
  match n, b with
  | S n, c :: b' =>
      if decide (c = Byte.x5d) then Some ([], b')
      else match parse b with
           | Some (v, r) =>
               match parse_items n r with Some (l, r) => Some (v :: l, r) | None => None end
           | None => None
           end
  | _, _ => None
  end.
Fixpoint parse_members (n : nat) (b : bytes) : option (Map * bytes) :=
  match n, b with
  | S n, c :: b =>
      if decide (c = Byte.x7d) then Some ([], b)
      else match unesc b with
           | Some (k, r) =>
               match parse r with
               | Some (v, r) =>
                   match parse_members n r with
                   | Some (l, r) => Some ((from_bytes k, v) :: l, r)
                   | None => None
                   end
               | None => None
               end
           | None => None
           end
  | _, _ => None
  end.
End items.

Definition parse_text (f : bytes -> Value) (b : bytes) : option (Value * bytes) :=
  match unesc b with Some (t, r) => Some (f t, r) | None => None end.

Fixpoint parse (n : nat) (b : bytes) : option (Value * bytes) :=
  match n, b with
  | S n, c :: b =>
      if decide (c = Byte.x6e) then Some (VNull, b)
      else if decide (c = Byte.x74) then Some (VBool true, b)
      else if decide (c = Byte.x66) then Some (VBool false, b)
      else if decide (c = Byte.x69) then parse_text (fun t => VNumber (NInt (digits_z t))) b
      else if decide (c = Byte.x64) then parse_text (fun t => VNumber (NFloat (from_bytes t))) b
      else if decide (c = Byte.x73) then parse_text (fun t => VString (from_bytes t)) b
      else if decide (c = Byte.x5b) then
        match parse_items (parse n) n b with
        | Some (l, r) => Some (VArray l, r) | None => None end
      else if decide (c = Byte.x7b) then
        match parse_members (parse n) n b with
        | Some (m, r) => Some (VObject m, r) | None => None end
      else None
  | _, _ => None
  end.

Lemma print_head v : exists c b, print v = c :: b /\ c <> Byte.x5d.
Proof. destruct v as [|[]|[]| | |]; simpl; by eexists _, _. Qed.

Lemma parse_print v n rest :
  length (print v) <= n -> parse n (print v ++ rest) = Some (v, rest).
Proof.
  revert n rest. induction v as [|[]|[z|t]|s|l IH|m IH] using Value_ind';
    intros [|n] rest Hn; simpl in Hn; try lia; try done.
  - simpl. unfold parse_text. rewrite unesc_esc. by rewrite digits_z_digits.
  - simpl. unfold parse_text. rewrite unesc_esc. by rewrite from_as_bytes.
  - simpl. unfold parse_text. rewrite unesc_esc. by rewrite from_as_bytes.
  - simpl. assert (Hitems : forall k, length (foldr (fun v b => print v ++ b) [Byte.x5d] l) <= n ->
      length (foldr (fun v b => print v ++ b) [Byte.x5d] l) <= k ->
      parse_items (parse n) k (foldr (fun v b => print v ++ b) [Byte.x5d] l ++ rest)
        = Some (l, rest)).
    { clear Hn. induction IH as [|v l Hv _ IHl]; intros k Hn Hk.
      { by destruct k; [simpl in Hk; lia|]. }
      destruct (print_head v) as (c & b & Hp & Hc). simpl in Hn, Hk |- *.
      rewrite length_app in Hn, Hk. rewrite <- app_assoc.
      pose proof (Hv n) as Hv'. rewrite Hp in *. simpl in *.
      destruct k as [|k]; [lia|]. simpl.
      rewrite decide_False by done. rewrite Hv' by lia. by rewrite IHl by lia. }
    by rewrite Hitems by lia.
  - simpl. set (body := fun m => foldr (fun kv b => Byte.x6b :: esc (as_bytes kv.1) ++ print kv.2 ++ b)
                    [Byte.x7d] m) in *.
    assert (Hitems : forall k, length (body m) <= n -> length (body m) <= k ->
      parse_members (parse n) k (body m ++ rest) = Some (m, rest)).
    { clear Hn. induction IH as [|[key v] m Hv _ IHm]; intros [|k] Hn Hk; simpl in Hn, Hk;
        try lia; [done|].
      rewrite !length_app in Hn, Hk. simpl. rewrite <- !app_assoc, unesc_esc. simpl in Hv.
      rewrite Hv by lia. rewrite IHm by lia. by rewrite from_as_bytes. }
    by rewrite Hitems by lia.
Qed.

Lemma print_no_newline v : newline ∉ print v.
Proof.
  induction v as [|[]|[z|t]|s|l IH|m IH] using Value_ind'; simpl;
    rewrite ?not_elem_of_cons;
    try (split; [done|first [apply esc_no_newline|apply not_elem_of_nil]]).
  - split; [done|]. induction IH as [|v l Hv _ IHl]; simpl.
    + apply not_elem_of_cons. split; [done|apply not_elem_of_nil].
    + rewrite elem_of_app. tauto.
  - split; [done|]. induction IH as [|[k v] m Hv _ IHm]; simpl.
    + apply not_elem_of_cons. split; [done|apply not_elem_of_nil].
    + rewrite elem_of_cons, !elem_of_app. pose proof (esc_no_newline (as_bytes k)).
      simpl in Hv. intuition done.
Qed.

(** Reading a whole slice as one value. *)
Definition slice {A} (f : Value -> option A) (b : bytes) : option A :=
  match parse (length b) b with Some (v, []) => f v | _ => None end.

Lemma slice_print {A} (f : Value -> option A) v : slice f (print v) = f v.
Proof.
  unfold slice. pose proof (parse_print v (length (print v)) []) as H.
  rewrite app_nil_r in H. by rewrite H.
Qed.

#[export] Instance serde_json : SerdeJson := {|
  json_to_vec := print; json_from_slice := slice Some; jcs_to_vec v := Ok (print v) |}.

#[export] Instance serde_json_laws : SerdeJsonLaws serde_json.
Proof. split; [intros v _; apply slice_print|apply print_no_newline]. Qed.
End Toy.
