(* ===== verification/Keys.v ===== *)
(** * Keys: the key files

    [trust/src/keys.rs]: loading a key file or minting it, and writing a given key.  A
    directory is a map from paths to contents; every system call may fail, and another
    process may publish or remove the file between two of them.  Permission bits are not
    modelled. *)
From stdpp Require Import base list gmap strings.
From Stdlib Require Import ZArith Lia Strings.Byte.
From S2P Require Import Prelude Bytes Externals.

Abbreviation Files := (gmap string bytes).

Inductive KeyError := KeyIo (e : string) | KeyExists | Malformed.
#[export] Instance KeyError_eq_dec : EqDecision KeyError.
Proof. solve_decision. Defined.

(** [SigningKey::from_bytes] and [to_bytes] of [ed25519_dalek]. *)
Class SecretBytes (E : Ed25519) := {
  sk_to_bytes : SigningKey -> key32;
  sk_from_bytes : key32 -> SigningKey }.
Class SecretBytesLaws {E : Ed25519} (S : SecretBytes E) := { sk_from_to k : sk_from_bytes (sk_to_bytes k) = k }.

(** What meets one attempt: what another process does to the file before the read and
    between the read and the link, the faults, and the key drawn. *)
Record Attempt `{E : Ed25519} := {
  at_before : option bytes -> option bytes;
  at_read : option string;
  at_key : SigningKey;
  at_between : option bytes -> option bytes;
  at_write : option string }.

Section keys.
Context `{E : Ed25519, S : !SecretBytes E}.

(** The temporary file is always removed; the link fails when the path exists. *)
Definition mint_signing_key_at (a : Attempt) (path : string) (files : Files) : result KeyError SigningKey * Files :=
  match at_write a with
  | Some e => (Err (KeyIo e), partial_alter (at_between a) path files)
  | None =>
      let files := partial_alter (at_between a) path files in
      match files !! path with
      | Some _ => (Err KeyExists, files)
      | None => (Ok (at_key a), <[path := key_bytes (sk_to_bytes (at_key a))]> files)
      end
  end.

Fixpoint load_or_generate_within (budget : nat) (attempts : nat -> Attempt) (path : string) (files : Files) :
    result KeyError (SigningKey * bool) * Files :=
  match budget with
  | O => (Err KeyExists, files)
  | Datatypes.S budget =>
      let a := attempts O in
      let files := partial_alter (at_before a) path files in
      match at_read a, files !! path with
      | Some e, _ => (Err (KeyIo e), files)
      | None, Some b => (k ← ok_or Malformed (try_key32 b); Ok (sk_from_bytes k, false), files)
      | None, None =>
          match mint_signing_key_at a path files with
          | (Ok key, files) => (Ok (key, true), files)
          | (Err KeyExists, files) => load_or_generate_within budget (fun i => attempts (Datatypes.S i)) path files
          | (Err e, files) => (Err e, files)
          end
      end
  end.

Definition load_or_generate_signing_key : (nat -> Attempt) -> string -> Files -> result KeyError (SigningKey * bool) * Files :=
  load_or_generate_within 4.

(** The rename replaces atomically; the link refuses an existing target. *)
Definition write_signing_key (fault : option string) (path : string) (key : SigningKey) (replace : bool) (files : Files) :
    result KeyError unit * Files :=
  match fault with
  | Some e => (Err (KeyIo e), files)
  | None =>
      if negb replace && bool_decide (is_Some (files !! path)) then (Err KeyExists, files)
      else (Ok tt, <[path := key_bytes (sk_to_bytes key)]> files)
  end.

Definition public_bytes (key : SigningKey) : key32 := vk_to_bytes (verifying_key key).

(** [{:02x}] of a byte. *)
Definition hex_digit (z : Z) : byte := byte_of (if z <? 10 then 48 + z else 87 + z)%Z.
Definition lower_hex (b : byte) : bytes := [hex_digit (byte_val b / 16)%Z; hex_digit (byte_val b mod 16)%Z].
Definition fingerprint (key : SigningKey) : string :=
  from_bytes (concat (lower_hex <$> take 4 (key_bytes (public_bytes key)))).

(** ** Properties *)
Context `{SL : !SecretBytesLaws S}.

(** Nobody else touches the file and no call fails. *)
Definition alone (a : Attempt) : Prop :=
  (forall o, at_before a o = o) /\ (forall o, at_between a o = o) /\ at_read a = None /\ at_write a = None.
(** Other processes may publish the file, never remove it. *)
Definition publishes (f : option bytes -> option bytes) : Prop := forall o b, o = Some b -> f o = Some b.

Lemma partial_alter_same {A} (f : option A -> option A) path (m : gmap string A) :
  (forall o, f o = o) -> partial_alter f path m = m.
Proof.
  intros Hf. apply map_eq. intros k. destruct (decide (k = path)) as [->|].
  - by rewrite lookup_partial_alter_eq, Hf.
  - by rewrite lookup_partial_alter_ne.
Qed.

Lemma partial_alter_kept f path p (files : Files) b :
  publishes f -> files !! p = Some b -> partial_alter f path files !! p = Some b.
Proof.
  intros Hf Hp. destruct (decide (p = path)) as [->|]; [rewrite lookup_partial_alter_eq; by apply Hf|by rewrite lookup_partial_alter_ne].
Qed.

(** Every outcome of the bounded retries. *)
Lemma load_or_generate_cases budget attempts path files r files' :
  (forall i, publishes (at_before (attempts i)) /\ publishes (at_between (attempts i))) ->
  load_or_generate_within budget attempts path files = (r, files') ->
  (forall p b, files !! p = Some b -> files' !! p = Some b) /\
  match r with
  | Ok (key, created) =>
      files' !! path = Some (key_bytes (sk_to_bytes key)) /\ (created = true -> files !! path = None /\ exists i, key = at_key (attempts i)) \/
      created = false /\ exists k, files' !! path = Some (key_bytes k) /\ key = sk_from_bytes k
  | Err _ => True
  end.
Proof.
  revert attempts files.
  induction budget as [|budget IH]; intros attempts files Hpub H; simpl in H; [by injection H as <- <-|].
  destruct (Hpub 0) as [Hb Hm]. set (files1 := partial_alter (at_before (attempts 0)) path files) in *.
  assert (Hk : forall p b, files !! p = Some b -> files1 !! p = Some b) by (intros; by apply partial_alter_kept).
  destruct (at_read (attempts 0)); [by injection H as <- <-|]. destruct (files1 !! path) as [b|] eqn:Hf.
  - injection H as <- <-. split; [done|]. destruct (try_key32 b) as [k|] eqn:Ht; [|done]. simpl. right. split; [done|].
    exists k. apply try_key32_Some in Ht as ->. done.
  - assert (Hnone : files !! path = None) by (destruct (files !! path) eqn:Hp; [apply Hk in Hp; congruence|done]).
    unfold mint_signing_key_at in H. set (files2 := partial_alter (at_between (attempts 0)) path files1) in *.
    assert (Hk2 : forall p b, files !! p = Some b -> files2 !! p = Some b) by (intros; apply partial_alter_kept; auto).
    destruct (at_write (attempts 0)); [by injection H as <- <-|]. destruct (files2 !! path) as [b|] eqn:Hf2.
    + destruct (IH (fun i => attempts (Datatypes.S i)) files2) as [Hkeep Hr]; [intros i; apply Hpub|done|].
      split; [by intros p b' ?%Hk2%Hkeep|]. destruct r as [[key created]|]; [|done].
      destruct Hr as [[Hin Hc]|Hr]; [left; split; [done|]|by right]. intros Ht. destruct (Hc Ht) as [? _]. congruence.
    + injection H as <- <-. split.
      * intros p b Hp. destruct (decide (p = path)) as [->|]; [congruence|]. rewrite lookup_insert_ne by done. auto.
      * left. rewrite lookup_insert_eq. split; [done|]. intros _. split; [done|]. by exists 0.
Qed.

(** A key on disk is never lost to a minting: whatever races and faults meet it, every
    file that was there stays as it was; a key reported created is the one drawn in some
    attempt and is in the file, and one reported loaded is the content of the file. *)
Theorem load_or_generate_spec attempts path files r files' :
  (forall i, publishes (at_before (attempts i)) /\ publishes (at_between (attempts i))) ->
  load_or_generate_signing_key attempts path files = (r, files') ->
  (forall p b, files !! p = Some b -> files' !! p = Some b) /\
  match r with
  | Ok (key, created) =>
      files' !! path = Some (key_bytes (sk_to_bytes key)) /\ (created = true -> files !! path = None /\ exists i, key = at_key (attempts i)) \/
      created = false /\ exists k, files' !! path = Some (key_bytes k) /\ key = sk_from_bytes k
  | Err _ => True
  end.
Proof. apply load_or_generate_cases. Qed.

(** Left alone, the first call mints and every later one loads that key. *)
Lemma mint_then_load attempts path files :
  alone (attempts 0) -> files !! path = None ->
  let key := at_key (attempts 0) in
  let files' := <[path := key_bytes (sk_to_bytes key)]> files in
  load_or_generate_signing_key attempts path files = (Ok (key, true), files') /\
  forall attempts', alone (attempts' 0) -> load_or_generate_signing_key attempts' path files' = (Ok (key, false), files').
Proof.
  intros (Hb & Hm & Hr & Hw) Hn. unfold load_or_generate_signing_key. simpl. split.
  - rewrite (partial_alter_same _ _ _ Hb), Hr, Hn. unfold mint_signing_key_at. by rewrite Hw, (partial_alter_same _ _ _ Hm), Hn.
  - intros attempts' (Hb' & _ & Hr' & _). rewrite (partial_alter_same _ _ _ Hb'), Hr', lookup_insert_eq, try_key32_bytes. simpl.
    by rewrite sk_from_to.
Qed.

(** A write replaces the key or leaves every file. *)
Lemma write_signing_key_spec fault path key replace files r files' :
  write_signing_key fault path key replace files = (r, files') ->
  match r with
  | Ok _ => files' = <[path := key_bytes (sk_to_bytes key)]> files /\ (replace = false -> files !! path = None)
  | Err e => files' = files /\ (e = KeyExists -> replace = false /\ is_Some (files !! path))
  end.
Proof.
  unfold write_signing_key. destruct fault; [by intros [= <- <-]|]. destruct replace; simpl; [by intros [= <- <-]|].
  case_bool_decide as Hs; intros [= <- <-]; [done|]. split; [done|]. intros _. by apply eq_None_not_Some.
Qed.
End keys.

(** ** A concrete key text, and witnesses *)
Module ToyKeys.
Import Toy.
#[export] Instance secret_bytes : SecretBytes ed25519 := {| sk_to_bytes k := k; sk_from_bytes k := k |}.
#[export] Instance secret_bytes_laws : SecretBytesLaws secret_bytes.
Proof. by split. Qed.
Definition quiet (k : key32) : Attempt (E := ed25519) :=
  {| at_before o := o; at_read := None; at_key := k; at_between o := o; at_write := None |}.
End ToyKeys.

Module Witness.
Import Toy ToyKeys.

(** Another process publishes its key between the read and the link. *)
Definition raced : Attempt (E := ed25519) :=
  {| at_before o := o; at_read := None; at_key := key_fill Byte.x01; at_write := None;
     at_between o := match o with Some b => Some b | None => Some (key_bytes (key_fill Byte.x02)) end |}.
Definition files0 : Files := {["user.key"%string := key_bytes (key_fill Byte.x09)]}.

Lemma load_or_generate_spec_witness :
  (load_or_generate_signing_key (fun _ => raced) "org-root.key" files0).2 !! "user.key"%string = Some (key_bytes (key_fill Byte.x09)).
Proof.
  assert (Hp : forall i : nat, publishes (at_before raced) /\ publishes (at_between raced)) by (intros _; split; intros o b ->; reflexivity).
  exact (proj1 (load_or_generate_spec (fun _ => raced) "org-root.key" files0 _ _ Hp (surjective_pairing _)) "user.key"%string _ eq_refl).
Defined.
End Witness.
