(* ===== verification/Enroll.v ===== *)
(** * Enrolment codes

    [node/src/roster/enroll.rs]: the three one-line codes of an organisation's ceremonies.
    A code is its scheme and the base32 text of its JSON; the JSON of each struct is serde's
    derived code, a parameter. *)
From stdpp Require Import base list strings.
From Stdlib Require Import ZArith Strings.Byte.
From S2P Require Import Prelude Bytes Json Externals.

Definition ORG_SCHEME : string := "mcpmesh-org:".
Definition JOIN_SCHEME : string := "mcpmesh-join:".
Definition DEVICE_SCHEME : string := "mcpmesh-device:".

Record OrgInviteCode := { oc_org_id : string; oc_org_root_pk : string; oc_roster_url : option string }.
Record JoinCode := {
  jc_display_name : string;
  jc_requested_user_id : string;
  jc_user_pk : string;
  jc_device_endpoint_id : string;
  jc_device_label : string;
  jc_binding_sig : string }.
Record DeviceCode := { dc_device_endpoint_id : string; dc_device_label : string }.

(** [Serialize] and [DeserializeOwned] of a code. *)
Class CodeJson (C : Type) := {
  code_to_vec : C -> bytes;
  code_from_slice : bytes -> option C }.
Class CodeJsonLaws {C} (J : CodeJson C) := { code_from_to c : code_from_slice (code_to_vec c) = Some c }.

Section codes.
Context `{T : TextEncoding}.

Definition encode_code {C} `{J : CodeJson C} (scheme : string) (value : C) : string :=
  scheme +:+ base32_encode (code_to_vec value).

Definition decode_code {C} `{J : CodeJson C} (scheme line : string) : result string C :=
  payload ← ok_or ("not an " +:+ scheme +:+ " code (missing scheme)") (strip_prefix scheme line);
  json ← map_err (fun _ => "enrollment code payload is not valid base32"%string) (base32_decode payload);
  ok_or "enrollment code payload is not the expected shape"%string (code_from_slice json).

(** [encode] and [decode] of each code. *)
Context `{JO : CodeJson OrgInviteCode, JJ : CodeJson JoinCode, JD : CodeJson DeviceCode}.
Definition org_encode : OrgInviteCode -> string := encode_code ORG_SCHEME.
Definition org_decode : string -> result string OrgInviteCode := decode_code ORG_SCHEME.
Definition join_encode : JoinCode -> string := encode_code JOIN_SCHEME.
Definition join_decode : string -> result string JoinCode := decode_code JOIN_SCHEME.
Definition device_encode : DeviceCode -> string := encode_code DEVICE_SCHEME.
Definition device_decode : string -> result string DeviceCode := decode_code DEVICE_SCHEME.

(** ** Properties *)
Context `{TL : !TextEncodingLaws T}.
Context `{LO : !CodeJsonLaws JO, LJ : !CodeJsonLaws JJ, LD : !CodeJsonLaws JD}.

Lemma decode_encode_code {C} `{J : CodeJson C, !CodeJsonLaws J} scheme (c : C) :
  decode_code scheme (encode_code scheme c) = Ok c.
Proof.
  unfold decode_code, encode_code. rewrite strip_prefix_app. simpl. rewrite base32_decode_encode. simpl.
  by rewrite code_from_to.
Qed.

(** A line of one scheme is not a code of a scheme that is no prefix of it. *)
Lemma decode_other_scheme {C D} `{J : CodeJson C, K : CodeJson D} scheme other (c : C) :
  strip_prefix other (scheme +:+ base32_encode (code_to_vec c)) = None ->
  is_ok (decode_code (C := D) other (encode_code scheme c)) = false.
Proof. unfold decode_code, encode_code. by intros ->. Qed.

(** Each code survives its line, and a line of one kind is never taken for another
    kind, whatever it carries: the joiner's code cannot be approved as an invite, nor a
    device's code as a person's. *)
Theorem codes_roundtrip o j d :
  org_decode (org_encode o) = Ok o /\ join_decode (join_encode j) = Ok j /\ device_decode (device_encode d) = Ok d /\
  is_ok (join_decode (org_encode o)) = false /\ is_ok (device_decode (org_encode o)) = false /\
  is_ok (org_decode (join_encode j)) = false /\ is_ok (device_decode (join_encode j)) = false /\
  is_ok (org_decode (device_encode d)) = false /\ is_ok (join_decode (device_encode d)) = false.
Proof.
  unfold org_decode, join_decode, device_decode, org_encode, join_encode, device_encode.
  rewrite !decode_encode_code. split_and!; try done; by apply decode_other_scheme.
Qed.
End codes.

(** ** Witnesses *)
Module ToyEnroll.
Import Toy.

Definition text (o : option string) : Value := match o with Some s => VString s | None => VNull end.
Definition text_of (v : Value) : option (option string) :=
  match v with VString s => Some (Some s) | VNull => Some None | _ => None end.

#[export] Instance org_json : CodeJson OrgInviteCode := {|
  code_to_vec c := print (VArray [VString (oc_org_id c); VString (oc_org_root_pk c); text (oc_roster_url c)]);
  code_from_slice := slice (fun v =>
    match v with
    | VArray [VString o; VString k; u] =>
        u ← text_of u; Some {| oc_org_id := o; oc_org_root_pk := k; oc_roster_url := u |}
    | _ => None
    end) |}.
#[export] Instance org_json_laws : CodeJsonLaws org_json.
Proof. split. intros [o k [u|]]; apply (slice_print (A := OrgInviteCode)). Qed.

#[export] Instance join_json : CodeJson JoinCode := {|
  code_to_vec c := print (VArray [VString (jc_display_name c); VString (jc_requested_user_id c); VString (jc_user_pk c);
                                  VString (jc_device_endpoint_id c); VString (jc_device_label c); VString (jc_binding_sig c)]);
  code_from_slice := slice (fun v =>
    match v with
    | VArray [VString n; VString r; VString u; VString d; VString l; VString s] =>
        Some {| jc_display_name := n; jc_requested_user_id := r; jc_user_pk := u;
                jc_device_endpoint_id := d; jc_device_label := l; jc_binding_sig := s |}
    | _ => None
    end) |}.
#[export] Instance join_json_laws : CodeJsonLaws join_json.
Proof. split. intros []; apply (slice_print (A := JoinCode)). Qed.

#[export] Instance device_json : CodeJson DeviceCode := {|
  code_to_vec c := print (VArray [VString (dc_device_endpoint_id c); VString (dc_device_label c)]);
  code_from_slice := slice (fun v =>
    match v with
    | VArray [VString d; VString l] => Some {| dc_device_endpoint_id := d; dc_device_label := l |}
    | _ => None
    end) |}.
#[export] Instance device_json_laws : CodeJsonLaws device_json.
Proof. split. intros []; apply (slice_print (A := DeviceCode)). Qed.
End ToyEnroll.

Module Witness.
Import Toy ToyEnroll.

Definition tablet : DeviceCode := {| dc_device_endpoint_id := "b64u:key"; dc_device_label := "tablet" |}.
Lemma codes_roundtrip_witness :
  device_decode (device_encode tablet) = Ok tablet /\ is_ok (join_decode (device_encode tablet)) = false.
Proof.
  destruct (codes_roundtrip {| oc_org_id := "acme"; oc_org_root_pk := "k"; oc_roster_url := None |}
    {| jc_display_name := "Bob"; jc_requested_user_id := "bob"; jc_user_pk := "u"; jc_device_endpoint_id := "d";
       jc_device_label := "tablet"; jc_binding_sig := "s" |} tablet) as (_ & _ & Hd & _ & _ & _ & _ & _ & Hj).
  split; [exact Hd|exact Hj].
Defined.
End Witness.
