(* ===== verification/Schema.v ===== *)
(** * The roster document

    [trust/src/roster/mod.rs]: the schema of a signed org roster, its JSON form, the
    [b64u:] text codec of keys and identifiers, and the typed failures of roster
    handling. *)
From stdpp Require Import base list gmap strings.
From Stdlib Require Import ZArith Lia Strings.Byte.
From S2P Require Import Prelude Bytes Json Externals.

Definition ROSTER_FORMAT : string := "mcpmesh-roster/1".
Definition ROSTER_FORMAT_ROTATION : string := "mcpmesh-roster/2".
Definition B64U_PREFIX : string := "b64u:".
(** Clock-skew tolerance of the validity window, in seconds. *)
Definition SKEW_SECS : Z := 10 * 60.

Record RosterDevice := {
  d_endpoint_id : string;
  d_label : string;
  d_role : string }.

Record RosterUser := {
  u_user_id : string;
  u_display_name : string;
  u_user_pk : string;
  u_groups : list string;
  u_devices : list RosterDevice }.

Record Roster := {
  r_format : string;
  r_org_id : string;
  r_serial : Z;
  r_issued_at : string;
  r_expires_at : string;
  r_groups : list string;
  r_users : list RosterUser;
  r_revoked_endpoints : list string;
  r_successor_root_pk : option string;
  r_successor_sig : option string;
  r_sig : string }.

Definition default_role : string := "primary".

#[export] Instance RosterDevice_eq_dec : EqDecision RosterDevice.
Proof. solve_decision. Defined.
#[export] Instance RosterUser_eq_dec : EqDecision RosterUser.
Proof. solve_decision. Defined.
#[export] Instance Roster_eq_dec : EqDecision Roster.
Proof. solve_decision. Defined.

(** A failure names the rule that was violated.  [Json], [Jcs] and [Encoding] carry the
    text of the library's own error. *)
Inductive RosterError : Type :=
| EJson (e : string)
| EJcs (e : string)
| EEncoding (e : string)
| EBadTimestamp (e : string)
| EBadFormat (format : string)
| EBadSignature
| EStaleSerial (got installed : Z)
| EOutOfValidity
| EDuplicateEndpoint
| EDuplicateUser (user_id : string)
| ENamespaceCollision (name : string)
| EUndeclaredGroup (group : string).

#[export] Instance RosterError_eq_dec : EqDecision RosterError.
Proof. solve_decision. Defined.

(** ** The JSON form

    The derived [Serialize] goes through a [BTreeMap], so members come out in key order;
    the two rotation fields are left out when absent. *)
Definition strings_to_value (l : list string) : Value := VArray (map VString l).

Definition device_to_value (d : RosterDevice) : Value :=
  VObject [("endpoint_id", VString (d_endpoint_id d));
           ("label", VString (d_label d));
           ("role", VString (d_role d))]%string.

Definition user_to_value (u : RosterUser) : Value :=
  VObject [("devices", VArray (map device_to_value (u_devices u)));
           ("display_name", VString (u_display_name u));
           ("groups", strings_to_value (u_groups u));
           ("user_id", VString (u_user_id u));
           ("user_pk", VString (u_user_pk u))]%string.

Definition opt_member (k : string) (o : option string) : Map :=
  match o with Some s => [(k, VString s)] | None => [] end.

Definition roster_to_value (r : Roster) : Value :=
  VObject (
    [("expires_at", VString (r_expires_at r));
     ("format", VString (r_format r));
     ("groups", strings_to_value (r_groups r));
     ("issued_at", VString (r_issued_at r));
     ("org_id", VString (r_org_id r));
     ("revoked_endpoints", strings_to_value (r_revoked_endpoints r));
     ("serial", VNumber (NInt (r_serial r)));
     ("sig", VString (r_sig r))]%string ++
    opt_member "successor_root_pk" (r_successor_root_pk r) ++
    opt_member "successor_sig" (r_successor_sig r) ++
    [("users", VArray (map user_to_value (r_users r)))]%string).

(** The derived [Deserialize] under [deny_unknown_fields]: every key is a field of the
    schema, every field without a default is present and has its type. *)
Definition known_fields (fields : list string) (m : Map) : bool :=
  forallb (fun kv => existsb (String.eqb kv.1) fields) m.

Definition req_string (k : string) (m : Map) : option string :=
  map_get k m ≫= as_str.
Definition opt_string (k : string) (m : Map) : option (option string) :=
  match map_get k m with
  | None | Some VNull => Some None
  | Some v => Some <$> as_str v
  end.
Definition default_string (d : string) (k : string) (m : Map) : option string :=
  match map_get k m with None => Some d | Some v => as_str v end.
Definition req_u64 (k : string) (m : Map) : option Z :=
  match map_get k m with
  | Some (VNumber (NInt z)) =>
      if ((0 <=? z) && (z <=? u64_max))%Z then Some z else None
  | _ => None
  end.
Definition req_list {A} (f : Value -> option A) (k : string) (m : Map) : option (list A) :=
  l ← map_get k m ≫= as_array; mapM f l.

Definition device_fields : list string := ["endpoint_id"; "label"; "role"]%string.
Definition device_of_value (v : Value) : option RosterDevice :=
  m ← as_object v;
  if known_fields device_fields m then
    e ← req_string "endpoint_id" m;
    l ← req_string "label" m;
    r ← default_string default_role "role" m;
    Some {| d_endpoint_id := e; d_label := l; d_role := r |}
  else None.

Definition user_fields : list string :=
  ["user_id"; "display_name"; "user_pk"; "groups"; "devices"]%string.
Definition user_of_value (v : Value) : option RosterUser :=
  m ← as_object v;
  if known_fields user_fields m then
    i ← req_string "user_id" m;
    n ← req_string "display_name" m;
    p ← req_string "user_pk" m;
    g ← req_list as_str "groups" m;
    d ← req_list device_of_value "devices" m;
    Some {| u_user_id := i; u_display_name := n; u_user_pk := p;
            u_groups := g; u_devices := d |}
  else None.

Definition roster_fields : list string :=
  ["format"; "org_id"; "serial"; "issued_at"; "expires_at"; "groups"; "users";
   "revoked_endpoints"; "successor_root_pk"; "successor_sig"; "sig"]%string.
Definition roster_of_value (v : Value) : option Roster :=
  m ← as_object v;
  if known_fields roster_fields m then
    f ← req_string "format" m;
    o ← req_string "org_id" m;
    s ← req_u64 "serial" m;
    i ← req_string "issued_at" m;
    e ← req_string "expires_at" m;
    g ← req_list as_str "groups" m;
    u ← req_list user_of_value "users" m;
    x ← req_list as_str "revoked_endpoints" m;
    sp ← opt_string "successor_root_pk" m;
    ss ← opt_string "successor_sig" m;
    sg ← req_string "sig" m;
    Some {| r_format := f; r_org_id := o; r_serial := s; r_issued_at := i;
            r_expires_at := e; r_groups := g; r_users := u; r_revoked_endpoints := x;
            r_successor_root_pk := sp; r_successor_sig := ss; r_sig := sg |}
  else None.

(** ** The [b64u:] codec *)
Section b64u.
Context `{T : TextEncoding}.

Definition encode_b64u (b : bytes) : string := B64U_PREFIX +:+ base64url_encode b.

Definition decode_b64u (s : string) : result RosterError bytes :=
  payload ← ok_or (EEncoding "missing b64u: prefix") (strip_prefix B64U_PREFIX s);
  map_err EEncoding (base64url_decode payload).

Definition decode_endpoint_id (s : string) : result RosterError key32 :=
  b ← decode_b64u s;
  ok_or (EEncoding "endpoint_id is not 32 bytes") (try_key32 b).

Context `{TL : !TextEncodingLaws T}.

Lemma decode_encode_b64u b : decode_b64u (encode_b64u b) = Ok b.
Proof.
  unfold decode_b64u, encode_b64u.
  rewrite strip_prefix_app. simpl. by rewrite base64url_decode_encode.
Qed.

Lemma encode_decode_b64u s b : decode_b64u s = Ok b -> s = encode_b64u b.
Proof.
  unfold decode_b64u, encode_b64u. intros (p & Hp & Hb)%bind_Ok.
  apply ok_or_Ok, strip_prefix_Some in Hp as ->.
  apply map_err_Ok, base64url_encode_decode in Hb as <-. done.
Qed.

Lemma decode_encode_endpoint_id k : decode_endpoint_id (encode_b64u (key_bytes k)) = Ok k.
Proof.
  unfold decode_endpoint_id. rewrite decode_encode_b64u. simpl.
  by rewrite try_key32_bytes.
Qed.

Lemma decode_endpoint_id_Ok s k :
  decode_endpoint_id s = Ok k <-> s = encode_b64u (key_bytes k).
Proof.
  split; [|intros ->; apply decode_encode_endpoint_id].
  unfold decode_endpoint_id. intros (b & Hb & Hk)%bind_Ok.
  apply ok_or_Ok, try_key32_Some in Hk as ->. by apply encode_decode_b64u.
Qed.

(** The text of an endpoint id determines it and conversely: comparing the strings is
    comparing the endpoints. *)
Lemma decode_endpoint_id_inj s s' k :
  decode_endpoint_id s = Ok k -> decode_endpoint_id s' = Ok k -> s = s'.
Proof. rewrite !decode_endpoint_id_Ok. congruence. Qed.

#[export] Instance encode_b64u_inj : Inj (=) (=) encode_b64u.
Proof.
  intros a b E. apply (f_equal decode_b64u) in E.
  rewrite !decode_encode_b64u in E. congruence.
Qed.
End b64u.

(** ** Lemmas on the JSON form *)

#[local] Arguments mapM : simpl never.
#[local] Arguments map : simpl never.

Lemma device_of_to d : device_of_value (device_to_value d) = Some d.
Proof. by destruct d. Qed.

Lemma user_of_to u : user_of_value (user_to_value u) = Some u.
Proof.
  destruct u as [i n p g d]. unfold user_of_value, user_to_value, req_list, strings_to_value. cbn.
  rewrite mapM_as_str. cbn.
  rewrite mapM_of_to by (apply Forall_true; intros; apply device_of_to). done.
Qed.

(** Every document whose serial is a [u64] reads back from its JSON form. *)
Lemma roster_of_to r :
  (0 <= r_serial r <= u64_max)%Z -> roster_of_value (roster_to_value r) = Some r.
Proof.
  destruct r as [f o s i e g u x sp ss sg]. simpl. intros Hs.
  unfold roster_of_value, roster_to_value, req_list, req_u64, opt_string.
  destruct sp, ss; cbn;
    rewrite !mapM_as_str, mapM_of_to by (apply Forall_true; intros; apply user_of_to);
    rewrite !(proj2 (Z.leb_le _ _)) by lia; done.
Qed.

Lemma known_fields_spec fs m :
  known_fields fs m = true <-> forall k, k ∈ m.*1 -> k ∈ fs.
Proof.
  unfold known_fields. rewrite forallb_forall. split.
  - intros H k ([k' v] & -> & Hin)%list_elem_of_fmap.
    apply list_elem_of_In, H, existsb_elem in Hin as (f & Hf & E).
    simpl in E. by apply String.eqb_eq in E as ->.
  - intros H [k v] Hin%list_elem_of_In. apply existsb_elem. exists k.
    split; [|apply String.eqb_refl]. apply H, list_elem_of_fmap. by exists (k, v).
Qed.

(** A document with a key outside the schema does not parse. *)
Lemma roster_unknown_field m k :
  k ∈ m.*1 -> k ∉ roster_fields -> roster_of_value (VObject m) = None.
Proof.
  intros Hk Hn. unfold roster_of_value. simpl.
  destruct (known_fields roster_fields m) eqn:E; [|done].
  rewrite known_fields_spec in E. naive_solver.
Qed.
