(* ===== verification/Sign.v ===== *)
(** * Signatures

    [trust/src/roster/sign.rs], [trust/src/app.rs] and [trust/src/binding.rs]: the
    canonical form of a roster and its org-root signature, the domain-separated
    preimages of the other signed statements, and the pairing-mode device binding. *)
From stdpp Require Import base list gmap strings.
From Stdlib Require Import ZArith Lia Strings.Byte.
From S2P Require Import Prelude Bytes Json Externals Schema.

(** ** Domains *)
Definition DEVICE_BINDING_DOMAIN : bytes := as_bytes "mcpmesh/join/device-binding/1".
Definition INTRODUCE_DOMAIN : bytes := as_bytes "mcpmesh/introduce/1".
Definition ORG_ROTATION_DOMAIN : bytes := as_bytes "mcpmesh/org-root-rotation/1".
Definition DEVICE_REVOCATION_DOMAIN : bytes := as_bytes "mcpmesh/device-revocation/1".
Definition APP_SIG_DOMAIN : bytes := as_bytes "mcpmesh/app-sig/1".

(** ** Preimages *)

(** domain, endorser key, subject endpoint, subject user key (32 zero bytes when absent). *)
Definition introduce_preimage (endorser_pk subject_endpoint_id : key32)
    (subject_user_pk : option key32) : bytes :=
  INTRODUCE_DOMAIN ++ key_bytes endorser_pk ++ key_bytes subject_endpoint_id ++
  key_bytes (default (key_fill Byte.x00) subject_user_pk).

(** domain, [org_id.len() as u32] big-endian, org id, successor key. *)
Definition org_rotation_preimage (org_id : string) (successor_pk : key32) : bytes :=
  ORG_ROTATION_DOMAIN ++ to_be_bytes 4 (Z.of_nat (String.length org_id)) ++
  as_bytes org_id ++ key_bytes successor_pk.

Definition device_revocation_preimage (user_pk device_endpoint_id : key32)
    (issued_at : Z) : bytes :=
  DEVICE_REVOCATION_DOMAIN ++ key_bytes user_pk ++ key_bytes device_endpoint_id ++
  to_be_bytes 8 issued_at.

Definition device_binding_preimage (user_pk device_endpoint_id : key32) : bytes :=
  DEVICE_BINDING_DOMAIN ++ key_bytes user_pk ++ key_bytes device_endpoint_id.

(** domain, [domain.len() as u64] little-endian, the caller's domain, the message. *)
Definition preimage (domain msg : bytes) : bytes :=
  APP_SIG_DOMAIN ++ to_le_bytes 8 (Z.of_nat (length domain)) ++ domain ++ msg.

Section sign.
Context `{E : Ed25519, T : TextEncoding, J : SerdeJson}.

(** ** Roster signatures *)

(** Any top-level [sig] member is removed before canonicalization. *)
Definition canonical_bytes_without_sig (value : Value) : result RosterError bytes :=
  let v := match value with
           | VObject m => VObject (map_remove "sig" m)
           | v => v
           end in
  map_err EJcs (jcs_to_vec v).

Definition canonical_bytes (roster : Roster) : result RosterError bytes :=
  canonical_bytes_without_sig (roster_to_value roster).

Definition verify (roster : Roster) (root_pk : VerifyingKey) : result RosterError unit :=
  canon ← canonical_bytes roster;
  sig_bytes ← decode_b64u (r_sig roster);
  sig ← ok_or EBadSignature (sig_from_slice sig_bytes);
  if verify_strict root_pk canon sig then Ok () else Err EBadSignature.

Definition set_sig (s : string) (r : Roster) : Roster :=
  {| r_format := r_format r; r_org_id := r_org_id r; r_serial := r_serial r;
     r_issued_at := r_issued_at r; r_expires_at := r_expires_at r;
     r_groups := r_groups r; r_users := r_users r;
     r_revoked_endpoints := r_revoked_endpoints r;
     r_successor_root_pk := r_successor_root_pk r;
     r_successor_sig := r_successor_sig r; r_sig := s |}.

Definition sign (root : SigningKey) (roster : Roster) : result RosterError Roster :=
  canon ← canonical_bytes roster;
  Ok (set_sig (encode_b64u (sig_to_bytes (ed_sign root canon))) roster).

(** ** The other statements *)

Definition sign_introduction (endorser_key : SigningKey) (subject_endpoint_id : key32)
    (subject_user_pk : option key32) : bytes :=
  let endorser_pk := vk_to_bytes (verifying_key endorser_key) in
  sig_to_bytes (ed_sign endorser_key
    (introduce_preimage endorser_pk subject_endpoint_id subject_user_pk)).

Definition verify_introduction (endorser_pk subject_endpoint_id : key32)
    (subject_user_pk : option key32) (sig : bytes) : result RosterError unit :=
  vk ← ok_or EBadSignature (vk_from_bytes endorser_pk);
  if Nat.eqb (length sig) 64 then
    let msg := introduce_preimage endorser_pk subject_endpoint_id subject_user_pk in
    if verify_strict vk msg (sig_from_bytes sig) then Ok () else Err EBadSignature
  else Err EBadSignature.

Definition sign_org_rotation (current_root : SigningKey) (org_id : string)
    (successor_pk : key32) : bytes :=
  sig_to_bytes (ed_sign current_root (org_rotation_preimage org_id successor_pk)).

(** The shape the three [Signature::from_slice] verifiers share. *)
Definition verify_slice (pk : key32) (msg sig : bytes) : result RosterError unit :=
  vk ← ok_or EBadSignature (vk_from_bytes pk);
  s ← ok_or EBadSignature (sig_from_slice sig);
  if verify_strict vk msg s then Ok () else Err EBadSignature.

Definition verify_org_rotation (pinned_root_pk : key32) (org_id : string)
    (successor_pk : key32) (sig : bytes) : result RosterError unit :=
  verify_slice pinned_root_pk (org_rotation_preimage org_id successor_pk) sig.

Definition sign_device_revocation (user_key : SigningKey) (device_endpoint_id : key32)
    (issued_at : Z) : bytes :=
  let user_pk := vk_to_bytes (verifying_key user_key) in
  sig_to_bytes (ed_sign user_key
    (device_revocation_preimage user_pk device_endpoint_id issued_at)).

Definition verify_device_revocation (user_pk device_endpoint_id : key32)
    (issued_at : Z) (sig : bytes) : result RosterError unit :=
  verify_slice user_pk (device_revocation_preimage user_pk device_endpoint_id issued_at) sig.

Definition sign_device_binding (user_key : SigningKey) (device_endpoint_id : key32) : bytes :=
  let user_pk := vk_to_bytes (verifying_key user_key) in
  sig_to_bytes (ed_sign user_key (device_binding_preimage user_pk device_endpoint_id)).

Definition verify_device_binding (user_pk device_endpoint_id : key32) (sig : bytes) :
    result RosterError unit :=
  verify_slice user_pk (device_binding_preimage user_pk device_endpoint_id) sig.

(** ** Application signatures *)

Definition sign_app (device_key : SigningKey) (domain msg : bytes) : bytes :=
  sig_to_bytes (ed_sign device_key (preimage domain msg)).

Definition verify_app (endpoint_id : key32) (domain msg sig : bytes) : bool :=
  match vk_from_bytes endpoint_id with
  | None => false
  | Some pk => verify_strict pk (preimage domain msg) (sig_from_bytes sig)
  end.

(** ** Pairing-mode binding *)

Definition user_id (user_key : SigningKey) : string :=
  encode_b64u (key_bytes (vk_to_bytes (verifying_key user_key))).

Definition present (user_key : SigningKey) (device_endpoint_id : key32) : string * string :=
  let sig := sign_device_binding user_key device_endpoint_id in
  (encode_b64u (key_bytes (vk_to_bytes (verifying_key user_key))), encode_b64u sig).

(** [b64u] text to a 32-byte key, refusing any other length. *)
Definition decode32 (b64u : string) : result RosterError key32 :=
  b ← decode_b64u b64u; ok_or EBadSignature (try_key32 b).

Definition verify_presented (user_pk_b64u binding_sig_b64u : string)
    (authenticated_endpoint : key32) : result RosterError string :=
  user_pk ← decode32 user_pk_b64u;
  sig ← decode_b64u binding_sig_b64u;
  _ ← verify_device_binding user_pk authenticated_endpoint sig;
  Ok (encode_b64u (key_bytes user_pk)).

(** [Option::map(decode32).transpose()]. *)
Definition decode32_opt (o : option string) : result RosterError (option key32) :=
  match o with None => Ok None | Some s => Some <$> decode32 s end.

Definition endorse (user_key : SigningKey) (subject_endpoint_id : key32)
    (subject_user_pk_b64u : option string) : result RosterError string :=
  subject_pk ← decode32_opt subject_user_pk_b64u;
  Ok (encode_b64u (sign_introduction user_key subject_endpoint_id subject_pk)).

Definition verify_endorsement (endorser_pk_b64u evidence_b64u : string)
    (subject_endpoint_id : key32) (subject_user_pk_b64u : option string) :
    result RosterError unit :=
  endorser_pk ← decode32 endorser_pk_b64u;
  subject_pk ← decode32_opt subject_user_pk_b64u;
  sig ← decode_b64u evidence_b64u;
  verify_introduction endorser_pk subject_endpoint_id subject_pk sig.
End sign.

(** ** The preimages determine their fields *)

Ltac preimage_parts H :=
  repeat (apply app_inj_l_len in H as [? H];
          [|by rewrite ?key_bytes_length, ?length_to_be_bytes, ?length_to_le_bytes]).

Lemma device_binding_preimage_inj u e u' e' :
  device_binding_preimage u e = device_binding_preimage u' e' -> u = u' /\ e = e'.
Proof.
  unfold device_binding_preimage. intros H%app_inv_head.
  preimage_parts H. split; by apply (inj key_bytes).
Qed.

Lemma device_revocation_preimage_inj u e t u' e' t' :
  (0 <= t <= u64_max)%Z -> (0 <= t' <= u64_max)%Z ->
  device_revocation_preimage u e t = device_revocation_preimage u' e' t' ->
  u = u' /\ e = e' /\ t = t'.
Proof.
  unfold device_revocation_preimage, u64_max. intros ?? H%app_inv_head.
  preimage_parts H. repeat split; try by apply (inj key_bytes).
  by apply (to_be_bytes_inj 8); [lia..|].
Qed.

(** An absent subject key is the all-zero key. *)
Lemma introduce_preimage_inj a s o a' s' o' :
  introduce_preimage a s o = introduce_preimage a' s' o' ->
  a = a' /\ s = s' /\ default (key_fill Byte.x00) o = default (key_fill Byte.x00) o'.
Proof.
  unfold introduce_preimage. intros H%app_inv_head.
  preimage_parts H. repeat split; by apply (inj key_bytes).
Qed.

(** The length prefix separates the org id from the key as long as it did not wrap. *)
Lemma org_rotation_preimage_inj o k o' k' :
  (Z.of_nat (String.length o) <= u32_max)%Z ->
  (Z.of_nat (String.length o') <= u32_max)%Z ->
  org_rotation_preimage o k = org_rotation_preimage o' k' -> o = o' /\ k = k'.
Proof.
  unfold org_rotation_preimage, u32_max. intros ?? H%app_inv_head.
  apply app_inj_l_len in H as [Hl H]; [|by rewrite !length_to_be_bytes].
  apply to_be_bytes_inj in Hl; [|lia..].
  apply app_inj_l_len in H as [Ho H]; [|rewrite !length_as_bytes; lia].
  split; [by apply (inj as_bytes)|by apply (inj key_bytes)].
Qed.

Lemma app_preimage_inj d m d' m' :
  (Z.of_nat (length d) <= u64_max)%Z -> (Z.of_nat (length d') <= u64_max)%Z ->
  preimage d m = preimage d' m' -> d = d' /\ m = m'.
Proof.
  unfold preimage, u64_max. intros ?? H%app_inv_head.
  apply app_inj_l_len in H as [Hl H]; [|by rewrite !length_to_le_bytes].
  apply to_le_bytes_inj in Hl; [|lia..].
  apply app_inj_l_len in H as [Hd H]; [done|lia].
Qed.

(** ** Signing and verifying agree *)
Section sign_lemmas.
Context `{E : Ed25519, T : TextEncoding, J : SerdeJson}.
Context `{EL : !Ed25519Laws E, TL : !TextEncodingLaws T}.

Lemma canonical_bytes_set_sig s r : canonical_bytes (set_sig s r) = canonical_bytes r.
Proof.
  unfold canonical_bytes, canonical_bytes_without_sig, roster_to_value.
  by destruct r as [???????? [] [] ?].
Qed.

Lemma sig_from_slice_to s : sig_from_slice (sig_to_bytes s) = Some s.
Proof. by rewrite sig_from_slice_spec, sig_to_bytes_length, sig_from_to. Qed.

Lemma verify_slice_Ok pk msg sig :
  verify_slice pk msg sig = Ok () <->
  exists vk, vk_from_bytes pk = Some vk /\ length sig = 64 /\
    verify_strict vk msg (sig_from_bytes sig) = true.
Proof.
  unfold verify_slice. rewrite sig_from_slice_spec.
  destruct (vk_from_bytes pk) as [vk|]; simpl; [|naive_solver].
  destruct (Nat.eqb_spec (length sig) 64); simpl; [|naive_solver].
  destruct (verify_strict _ _ _) eqn:?; (split; [by eauto|]); [done|].
  intros (vk' & ? & ? & ?). congruence.
Qed.

Lemma verify_slice_sign sk msg :
  verify_slice (vk_to_bytes (verifying_key sk)) msg (sig_to_bytes (ed_sign sk msg)) = Ok ().
Proof.
  apply verify_slice_Ok. exists (verifying_key sk).
  by rewrite vk_from_to, sig_to_bytes_length, sig_from_to, verify_sign.
Qed.

Lemma verify_Ok r vk :
  verify r vk = Ok () <->
  exists canon sig, canonical_bytes r = Ok canon /\ decode_b64u (r_sig r) = Ok sig /\
    length sig = 64 /\ verify_strict vk canon (sig_from_bytes sig) = true.
Proof.
  unfold verify. destruct (canonical_bytes r) as [c|]; simpl; [|naive_solver].
  destruct (decode_b64u (r_sig r)) as [b|]; simpl; [|naive_solver].
  rewrite sig_from_slice_spec. destruct (Nat.eqb_spec (length b) 64); simpl; [|naive_solver].
  destruct (verify_strict _ _ _) eqn:?; (split; [by eauto 10|]); [done|].
  intros (c' & b' & ? & ? & ? & ?). congruence.
Qed.

Lemma decode32_Ok s k : decode32 s = Ok k <-> s = encode_b64u (key_bytes k).
Proof.
  unfold decode32. split.
  - intros (b & Hb & Hk)%bind_Ok.
    apply ok_or_Ok, try_key32_Some in Hk as ->. by apply encode_decode_b64u.
  - intros ->. rewrite decode_encode_b64u. simpl. by rewrite try_key32_bytes.
Qed.
End sign_lemmas.
#[export] Hint Resolve sig_from_slice_to verify_slice_sign : mesh.

(** ** Properties *)
Section properties.
Context `{E : Ed25519, T : TextEncoding, J : SerdeJson}.
Context `{EL : !Ed25519Laws E, TL : !TextEncodingLaws T}.

(** Signing succeeds exactly when the document canonicalizes, changes nothing but
    the signature field, and the result verifies under the signer's public key, also
    when the document being signed carried any other signature. *)
Theorem sign_then_verify root r r' old :
  sign root (set_sig old r) = Ok r' ->
  verify r' (verifying_key root) = Ok () /\ r' = set_sig (r_sig r') r /\
  sign root r = Ok r'.
Proof.
  unfold sign. rewrite canonical_bytes_set_sig. intros (c & Hc & [= <-])%bind_Ok.
  rewrite Hc. simpl. repeat split; [|by destruct r..].
  apply verify_Ok. exists c, (sig_to_bytes (ed_sign root c)).
  rewrite !canonical_bytes_set_sig. simpl.
  by rewrite decode_encode_b64u, sig_to_bytes_length, sig_from_to, verify_sign.
Qed.

(** A presented binding is accepted exactly when its key text is a 32-byte key
    that is a curve point, the signature is 64 bytes, and it verifies over the binding
    of that key to the authenticated endpoint; the user id returned is the presented
    key text itself. *)
Theorem verify_presented_spec pk_text sig_text ep uid :
  verify_presented pk_text sig_text ep = Ok uid <->
  exists pk vk sig,
    pk_text = encode_b64u (key_bytes pk) /\ decode_b64u sig_text = Ok sig /\
    vk_from_bytes pk = Some vk /\ length sig = 64 /\
    verify_strict vk (device_binding_preimage pk ep) (sig_from_bytes sig) = true /\
    uid = pk_text.
Proof.
  unfold verify_presented, verify_device_binding. split.
  - intros (pk & Hpk%decode32_Ok & (sig & Hs & ([] & Hv & [= <-])%bind_Ok)%bind_Ok)%bind_Ok.
    apply verify_slice_Ok in Hv as (vk & ? & ? & ?). naive_solver.
  - intros (pk & vk & sig & -> & Hs & Hvk & Hl & Hv & ->).
    rewrite (proj2 (decode32_Ok _ pk) eq_refl). simpl. rewrite Hs. simpl.
    rewrite (proj2 (verify_slice_Ok pk _ sig)); [done|]. eauto.
Qed.

Lemma present_verifies uk ep :
  verify_presented (present uk ep).1 (present uk ep).2 ep = Ok (user_id uk).
Proof.
  apply verify_presented_spec. simpl. exists (vk_to_bytes (verifying_key uk)).
  exists (verifying_key uk), (sign_device_binding uk ep).
  split_and!; [done|apply decode_encode_b64u|apply vk_from_to|apply sig_to_bytes_length| |done].
  unfold sign_device_binding. rewrite sig_from_to. apply verify_sign.
Qed.

(** An endorsement made with a user key verifies under that user's id, for the same
    subject endpoint and the same optional subject key. *)
Theorem endorse_then_verify uk subject spk ev :
  endorse uk subject spk = Ok ev ->
  verify_endorsement (user_id uk) ev subject spk = Ok ().
Proof.
  unfold endorse, verify_endorsement, user_id. intros (o & Ho & [= <-])%bind_Ok.
  rewrite (proj2 (decode32_Ok _ _) eq_refl). simpl. rewrite Ho. simpl.
  rewrite decode_encode_b64u. simpl. unfold verify_introduction, sign_introduction.
  rewrite vk_from_to. simpl.
  by rewrite sig_to_bytes_length, sig_from_to, verify_sign.
Qed.
End properties.

(** ** Witnesses *)
Module Witness.
Import Toy.

Definition key : SigningKey := key_fill Byte.x01.
Definition subject : key32 := key_fill Byte.x11.

Definition doc : Roster :=
  {| r_format := ROSTER_FORMAT; r_org_id := "acme"; r_serial := 7;
     r_issued_at := "i"; r_expires_at := "e"; r_groups := []; r_users := [];
     r_revoked_endpoints := []; r_successor_root_pk := None; r_successor_sig := None;
     r_sig := "stale" |}.
Definition signed_doc : Roster := match sign key doc with Ok r => r | Err _ => doc end.

Lemma sign_then_verify_witness : verify signed_doc (verifying_key key) = Ok ().
Proof.
  apply (sign_then_verify key doc signed_doc "other"). vm_compute. reflexivity.
Defined.

Lemma verify_presented_spec_witness :
  verify_presented (user_id key) (present key subject).2 subject = Ok (user_id key).
Proof.
  apply verify_presented_spec.
  exists key, key, (sign_device_binding key subject).
  split_and!; vm_compute; reflexivity.
Defined.

Lemma endorse_then_verify_witness :
  verify_endorsement (user_id key)
    (encode_b64u (sign_introduction key subject (Some subject))) subject
    (Some (encode_b64u (key_bytes subject))) = Ok ().
Proof. apply (endorse_then_verify key subject). vm_compute. reflexivity. Defined.
End Witness.
