(* ===== verification/Validate.v ===== *)
(** * Roster validation

    [trust/src/roster/validate.rs]: the six install rules, the adoption of a
    cross-signed successor root, the resolvable view a gate reads, and the degraded-mode
    state machine. *)
From stdpp Require Import base list gmap strings sorting.
From Stdlib Require Import ZArith Lia Strings.Byte.
From S2P Require Import Prelude Bytes Json Externals Schema Sign.

(** ** The view *)

Record ResolvedDevice := {
  rd_user_id : string;
  rd_display_name : string;
  rd_groups : list string;
  rd_role : string;
  rd_label : string }.

Record RosterMemberEntry := {
  m_user_id : string;
  m_display_name : string;
  m_groups : list string }.

Record RosterView := {
  v_org_id : string;
  v_serial : Z;
  v_expires_at_epoch : Z;
  v_devices : gmap key32 ResolvedDevice;
  v_revoked : gset key32;
  v_groups : list string;
  v_users : list RosterMemberEntry }.

Inductive RosterState := Approved | DegradedGrace | DegradedStopped.

#[export] Instance RosterState_eq_dec : EqDecision RosterState.
Proof. solve_decision. Defined.
#[export] Instance ResolvedDevice_eq_dec : EqDecision ResolvedDevice.
Proof. solve_decision. Defined.

Definition resolve (v : RosterView) (endpoint : key32) : option ResolvedDevice :=
  v_devices v !! endpoint.

Definition is_revoked (v : RosterView) (endpoint : key32) : bool :=
  bool_decide (endpoint ∈ v_revoked v).

(** Dial-candidate rank of a role. *)
Definition role_rank (role : string) : nat :=
  if decide (role = "primary"%string) then 0
  else if decide (role = "mirror"%string) then 1
  else 2.

(** The comparison [devices_for_user] sorts by: rank, then endpoint bytes. *)
Definition candidate_le (a b : key32 * string) : Prop :=
  role_rank a.2 < role_rank b.2 \/
  (role_rank a.2 = role_rank b.2 /\ key_leb a.1 b.1 = true).

#[export] Instance candidate_le_dec : RelDecision candidate_le.
Proof. intros a b. unfold candidate_le. apply _. Defined.

(** [devices_for_user] over the entries in the order [iter] happens to yield them. *)
Definition sort_candidates (user_id : string) (entries : list (key32 * ResolvedDevice)) :
    list (key32 * string) :=
  merge_sort candidate_le
    ((fun kd => (kd.1, rd_role kd.2)) <$>
       filter (fun kd => rd_user_id kd.2 = user_id) entries).

Definition devices_for_user (v : RosterView) (user_id : string) : list (key32 * string) :=
  sort_candidates user_id (map_to_list (v_devices v)).

(** ** Degraded mode *)

Definition severity (s : RosterState) : Z :=
  match s with Approved => 0 | DegradedGrace => 1 | DegradedStopped => 2 end.

Definition state (v : RosterView) (now_epoch grace_secs : Z) : RosterState :=
  if (now_epoch <=? v_expires_at_epoch v)%Z then Approved
  else if (now_epoch <=? i64_add (v_expires_at_epoch v) grace_secs)%Z then DegradedGrace
  else DegradedStopped.

Definition effective_state (v : RosterView) (now_epoch grace_secs : Z)
    (last_confirmed : option Z) (max_staleness_secs : Z) : RosterState :=
  let expiry := state v now_epoch grace_secs in
  let staleness :=
    match last_confirmed with
    | None => Approved
    | Some lc =>
        let stale := i64_saturating_sub now_epoch lc in
        if (stale <=? max_staleness_secs)%Z then Approved
        else if (stale <=? i64_add max_staleness_secs grace_secs)%Z then DegradedGrace
        else DegradedStopped
    end in
  if (severity expiry <=? severity staleness)%Z then staleness else expiry.

(** ** Validation *)

Section validate.
Context `{E : Ed25519, T : TextEncoding, J : SerdeJson, C : Chrono}.

Definition parse_rfc3339 (s : string) : result RosterError Z :=
  map_err (fun e => EBadTimestamp (s +:+ ": " +:+ e)) (parse_from_rfc3339 s).

(** [AnchorChange]: the successor the caller must now pin. *)
Definition AnchorChange : Type := option string.

Definition resolve_verifier (roster : Roster) (pinned : VerifyingKey) :
    result RosterError (VerifyingKey * AnchorChange) :=
  if is_ok (verify roster pinned) then Ok (pinned, None)
  else
    match r_successor_root_pk roster, r_successor_sig roster with
    | Some succ_pk_b64u, Some succ_sig_b64u =>
        succ_pk ← decode32 succ_pk_b64u;
        succ_sig ← decode_b64u succ_sig_b64u;
        _ ← verify_org_rotation (vk_to_bytes pinned) (r_org_id roster) succ_pk succ_sig;
        succ ← ok_or EBadSignature (vk_from_bytes succ_pk);
        _ ← verify roster succ;
        Ok (succ, Some succ_pk_b64u)
    | _, _ => Err EBadSignature
    end.

(** One user against rule 5 and the uniqueness of user ids. *)
Definition check_user (group_set : gset string) (seen : gset string) (u : RosterUser) :
    result RosterError (gset string) :=
  if decide (u_user_id u ∈ seen) then Err (EDuplicateUser (u_user_id u))
  else if decide (u_user_id u ∈ group_set) then Err (ENamespaceCollision (u_user_id u))
  else
    match find_first (fun g => bool_decide (g ∉ group_set)) (u_groups u) with
    | Some g => Err (EUndeclaredGroup g)
    | None => Ok ({[u_user_id u]} ∪ seen)
    end.

Definition insert_revoked (revoked : gset key32) (e : string) :
    result RosterError (gset key32) :=
  eid ← decode_endpoint_id e; Ok ({[eid]} ∪ revoked).

Definition resolved (u : RosterUser) (d : RosterDevice) : ResolvedDevice :=
  {| rd_user_id := u_user_id u; rd_display_name := u_display_name u;
     rd_groups := u_groups u; rd_role := d_role d; rd_label := d_label d |}.

(** Rule 4: a revoked endpoint is skipped, a repeated one refused. *)
Definition insert_device (revoked : gset key32) (devices : gmap key32 ResolvedDevice)
    (ud : RosterUser * RosterDevice) : result RosterError (gmap key32 ResolvedDevice) :=
  eid ← decode_endpoint_id (d_endpoint_id ud.2);
  if decide (eid ∈ revoked) then Ok devices
  else
    match devices !! eid with
    | Some _ => Err EDuplicateEndpoint
    | None => Ok (<[eid := resolved ud.1 ud.2]> devices)
    end.

Definition insert_devices (revoked : gset key32) (devices : gmap key32 ResolvedDevice)
    (u : RosterUser) : result RosterError (gmap key32 ResolvedDevice) :=
  fold_result (insert_device revoked) devices (pair u <$> u_devices u).

Definition member (u : RosterUser) : RosterMemberEntry :=
  {| m_user_id := u_user_id u; m_display_name := u_display_name u; m_groups := u_groups u |}.

Definition build_view (roster : Roster) (expires_at_epoch : Z) : result RosterError RosterView :=
  let group_set : gset string := list_to_set (r_groups roster) in
  _ ← fold_result (check_user group_set) ∅ (r_users roster);
  revoked ← fold_result insert_revoked ∅ (r_revoked_endpoints roster);
  devices ← fold_result (insert_devices revoked) ∅ (r_users roster);
  Ok {| v_org_id := r_org_id roster; v_serial := r_serial roster;
        v_expires_at_epoch := expires_at_epoch; v_devices := devices;
        v_revoked := revoked; v_groups := r_groups roster;
        v_users := member <$> r_users roster |}.

Definition known_format (roster : Roster) : bool :=
  bool_decide (r_format roster = ROSTER_FORMAT) ||
  bool_decide (r_format roster = ROSTER_FORMAT_ROTATION).

Definition has_rotation (roster : Roster) : bool :=
  bool_decide (is_Some (r_successor_root_pk roster)) ||
  bool_decide (is_Some (r_successor_sig roster)).

Definition validate_for_install_with_anchor (roster : Roster) (root_pk : VerifyingKey)
    (installed_serial now_epoch : Z) : result RosterError (RosterView * AnchorChange) :=
  if negb (known_format roster) then Err (EBadFormat (r_format roster))
  else if negb (Bool.eqb (has_rotation roster)
                  (bool_decide (r_format roster = ROSTER_FORMAT_ROTATION)))
  then Err (EBadFormat (r_format roster))
  else
    va ← resolve_verifier roster root_pk;
    if (r_serial roster <=? installed_serial)%Z
    then Err (EStaleSerial (r_serial roster) installed_serial)
    else
      issued ← parse_rfc3339 (r_issued_at roster);
      expires ← parse_rfc3339 (r_expires_at roster);
      if (now_epoch <? i64_sub issued SKEW_SECS)%Z || (i64_add expires SKEW_SECS <? now_epoch)%Z
      then Err EOutOfValidity
      else v ← build_view roster expires; Ok (v, va.2).

Definition validate_for_install (roster : Roster) (root_pk : VerifyingKey)
    (installed_serial now_epoch : Z) : result RosterError RosterView :=
  fst <$> validate_for_install_with_anchor roster root_pk installed_serial now_epoch.

Definition load_installed (roster : Roster) (root_pk : VerifyingKey) :
    result RosterError RosterView :=
  if negb (known_format roster) then Err (EBadFormat (r_format roster))
  else
    _ ← resolve_verifier roster root_pk;
    expires ← parse_rfc3339 (r_expires_at roster);
    build_view roster expires.
End validate.

(** ** What [build_view] accepts and builds *)
Section view.
Context `{T : TextEncoding}.

Definition decodes (s : string) : Prop := exists k, decode_endpoint_id s = Ok k.

(** The user/device pairs of a document, in document order. *)
Definition doc_devices (us : list RosterUser) : list (RosterUser * RosterDevice) :=
  us ≫= fun u => pair u <$> u_devices u.

(** The endpoint and identity a pair contributes, unless its endpoint is revoked. *)
Definition active_entry (revoked : gset key32) (ud : RosterUser * RosterDevice) :
    option (key32 * ResolvedDevice) :=
  k ← ok (decode_endpoint_id (d_endpoint_id ud.2));
  if decide (k ∈ revoked) then None else Some (k, resolved ud.1 ud.2).

Definition active_entries (revoked : gset key32) (l : list (RosterUser * RosterDevice)) :
    list (key32 * ResolvedDevice) := omap (active_entry revoked) l.

Definition revoked_set (l : list string) : gset key32 :=
  list_to_set (omap (fun s => ok (decode_endpoint_id s)) l).

(** Rules 4 and 5 as a property of the document. *)
Record doc_wf (r : Roster) : Prop := {
  wf_users : NoDup (u_user_id <$> r_users r);
  wf_disjoint u : u ∈ r_users r -> u_user_id u ∉ r_groups r;
  wf_declared u g : u ∈ r_users r -> g ∈ u_groups u -> g ∈ r_groups r;
  wf_revoked s : s ∈ r_revoked_endpoints r -> decodes s;
  wf_devices ud : ud ∈ doc_devices (r_users r) -> decodes (d_endpoint_id ud.2);
  wf_endpoints : NoDup (active_entries (revoked_set (r_revoked_endpoints r))
                          (doc_devices (r_users r))).*1 }.

Lemma elem_of_doc_devices us ud :
  ud ∈ doc_devices us <-> ud.1 ∈ us /\ ud.2 ∈ u_devices ud.1.
Proof.
  unfold doc_devices. rewrite list_elem_of_bind. destruct ud as [u d]; simpl. split.
  - intros (u' & (d' & [= -> ->] & Hd)%list_elem_of_fmap & Hu). done.
  - intros [Hu Hd]. exists u. split; [|done]. apply list_elem_of_fmap. by exists d.
Qed.

Lemma elem_of_active_entries revoked l k rd :
  (k, rd) ∈ active_entries revoked l <->
  exists ud, ud ∈ l /\ decode_endpoint_id (d_endpoint_id ud.2) = Ok k /\
    k ∉ revoked /\ rd = resolved ud.1 ud.2.
Proof.
  unfold active_entries. rewrite list_elem_of_omap. unfold active_entry.
  split; intros (ud & Hin & H); exists ud; (split; [done|]).
  - destruct (decode_endpoint_id _) as [k'|]; simpl in *; [|done].
    case_decide; [done|]. by injection H as -> ->.
  - destruct H as (-> & ? & ->). simpl. by rewrite decide_False.
Qed.

Lemma elem_of_active_keys revoked l k :
  k ∈ (active_entries revoked l).*1 <->
  exists ud, ud ∈ l /\ decode_endpoint_id (d_endpoint_id ud.2) = Ok k /\ k ∉ revoked.
Proof.
  rewrite list_elem_of_fmap. split.
  - intros ([k' rd] & -> & (ud & ? & ? & ? & _)%elem_of_active_entries). by exists ud.
  - intros (ud & ? & ? & ?). exists (k, resolved ud.1 ud.2). split; [done|].
    apply elem_of_active_entries. by exists ud.
Qed.

Lemma elem_of_revoked_set l k :
  k ∈ revoked_set l <-> exists s, s ∈ l /\ decode_endpoint_id s = Ok k.
Proof.
  unfold revoked_set. rewrite elem_of_list_to_set, list_elem_of_omap.
  split; intros (s & ? & H); exists s; (split; [done|]).
  - destruct (decode_endpoint_id s); simpl in *; congruence.
  - by rewrite H.
Qed.

Lemma check_user_Ok gs seen u s' :
  check_user gs seen u = Ok s' <->
  u_user_id u ∉ seen /\ u_user_id u ∉ gs /\ (forall g, g ∈ u_groups u -> g ∈ gs) /\
  s' = {[u_user_id u]} ∪ seen.
Proof.
  unfold check_user. case_decide; [naive_solver|]. case_decide; [naive_solver|].
  destruct (find_first _ _) as [g|] eqn:Hf.
  - apply find_first_Some in Hf as [Hin Hg%bool_decide_eq_true]. naive_solver.
  - rewrite find_first_None, Forall_forall in Hf.
    assert (forall g, g ∈ u_groups u -> g ∈ gs).
    { intros g Hg. apply Hf, bool_decide_eq_false, dec_stable in Hg. done. }
    naive_solver.
Qed.

Lemma check_users_Ok gs seen us :
  (exists s', fold_result (check_user gs) seen us = Ok s') <->
  NoDup (u_user_id <$> us) /\
  (forall u, u ∈ us -> u_user_id u ∉ seen /\ u_user_id u ∉ gs /\
     forall g, g ∈ u_groups u -> g ∈ gs).
Proof.
  revert seen; induction us as [|u us IH]; intros seen; simpl.
  { split; [|by eauto]. intros _. split; [constructor|]. set_solver. }
  rewrite NoDup_cons. split.
  - intros (s' & (s1 & (? & ? & ? & ->)%check_user_Ok & Hs)%bind_Ok).
    destruct (proj1 (IH _) (ex_intro _ _ Hs)) as [Hnd Hall].
    split_and!; [|done|].
    + intros (u' & Hu & Hin)%list_elem_of_fmap. destruct (Hall u' Hin). set_solver.
    + intros u' [->|Hin]%elem_of_cons; [done|]. destruct (Hall u' Hin). set_solver.
  - intros [[Hn Hnd] Hall].
    assert (check_user gs seen u = Ok ({[u_user_id u]} ∪ seen)) as ->.
    { apply check_user_Ok. destruct (Hall u); [set_solver|]. naive_solver. }
    simpl. apply IH. split; [done|]. intros u' Hin.
    destruct (Hall u') as (? & ? & ?); [set_solver|]. split; [|done].
    apply not_elem_of_union. split; [|done]. apply not_elem_of_singleton.
    intros Heq. apply Hn. rewrite <- Heq. apply list_elem_of_fmap. by exists u'.
Qed.

Lemma insert_revoked_Ok acc l s :
  fold_result insert_revoked acc l = Ok s <->
  (forall e, e ∈ l -> decodes e) /\ s = revoked_set l ∪ acc.
Proof.
  revert acc; induction l as [|e l IH]; intros acc.
  { simpl. unfold revoked_set. simpl. rewrite (left_id_L ∅ (∪)). split.
    - intros [= <-]. split; [set_solver|done].
    - by intros [_ ->]. }
  assert (forall k, decode_endpoint_id e = Ok k ->
    revoked_set (e :: l) = {[k]} ∪ revoked_set l) as Hset.
  { intros k Hk. unfold revoked_set. simpl. by rewrite Hk. }
  simpl. unfold insert_revoked at 2. unfold decodes.
  destruct (decode_endpoint_id e) as [k|err] eqn:Hk; simpl.
  - rewrite IH, (Hset k eq_refl). split.
    + intros [Hall ->]. split; [|set_solver].
      intros e' [->|?]%elem_of_cons; [by exists k|by apply Hall].
    + intros [Hall ->]. split; [|set_solver]. intros; apply Hall; set_solver.
  - split; [done|]. intros [Hall _].
    destruct (Hall e) as [? ?]; [set_solver|]. congruence.
Qed.

Lemma fold_devices_Ok revoked acc l m :
  fold_result (insert_device revoked) acc l = Ok m <->
  (forall ud, ud ∈ l -> decodes (d_endpoint_id ud.2)) /\
  NoDup (active_entries revoked l).*1 /\
  (forall k, k ∈ (active_entries revoked l).*1 -> acc !! k = None) /\
  m = list_to_map (active_entries revoked l) ∪ acc.
Proof.
  revert acc; induction l as [|ud l IH]; intros acc; simpl.
  { split; [intros [= <-]|by intros (_ & _ & _ & ->); rewrite map_empty_union].
    split_and!; [set_solver|constructor|set_solver|by rewrite map_empty_union]. }
  unfold insert_device at 2. unfold decodes in *. unfold active_entry at 1 2 3.
  destruct (decode_endpoint_id (d_endpoint_id ud.2)) as [k|err] eqn:Hk; simpl.
  2: { split; [done|]. intros [Hall _].
       destruct (Hall ud) as [? ?]; [set_solver|]. congruence. }
  case_decide as Hr; simpl.
  { rewrite IH. split; intros (Hall & Hrest); (split; [|done]).
    - intros ud' [->|?]%elem_of_cons; [by exists k|by apply Hall].
    - intros; apply Hall; set_solver. }
  rewrite NoDup_cons. destruct (acc !! k) eqn:Ha; simpl.
  { split; [done|]. intros (_ & _ & Hacc & _). rewrite Hacc in Ha; [done|set_solver]. }
  rewrite IH. split.
  - intros (Hall & Hnd & Hacc & ->). split_and!.
    + intros ud' [->|?]%elem_of_cons; [by exists k|by apply Hall].
    + intros Hin. specialize (Hacc _ Hin). by rewrite lookup_insert_eq in Hacc.
    + done.
    + intros k' [->|Hin]%elem_of_cons; [done|]. specialize (Hacc _ Hin).
      by apply lookup_insert_None in Hacc as [? _].
    + rewrite <- insert_union_l, insert_union_r; [done|].
      apply not_elem_of_list_to_map_1. intros Hin. specialize (Hacc _ Hin).
      by rewrite lookup_insert_eq in Hacc.
  - intros (Hall & [Hn Hnd] & Hacc & ->). split_and!; [|done| |].
    + intros; apply Hall; set_solver.
    + intros k' Hin. rewrite lookup_insert_ne by (intros ->; done). apply Hacc. set_solver.
    + rewrite <- insert_union_l, insert_union_r; [done|].
      by apply not_elem_of_list_to_map_1.
Qed.

(** The view a well-formed document denotes. *)
Definition view_of (r : Roster) (expires : Z) : RosterView :=
  let revoked := revoked_set (r_revoked_endpoints r) in
  {| v_org_id := r_org_id r; v_serial := r_serial r; v_expires_at_epoch := expires;
     v_devices := list_to_map (active_entries revoked (doc_devices (r_users r)));
     v_revoked := revoked; v_groups := r_groups r; v_users := member <$> r_users r |}.

Lemma build_view_Ok r t v : build_view r t = Ok v <-> doc_wf r /\ v = view_of r t.
Proof.
  unfold build_view. split.
  - intros (s & Hs & (rev & Hr & (dev & Hd & [= <-])%bind_Ok)%bind_Ok)%bind_Ok.
    destruct (proj1 (check_users_Ok _ _ _) (ex_intro _ _ Hs)) as [Hnd Hu].
    apply insert_revoked_Ok in Hr as [Hr ->]. rewrite (right_id_L ∅ (∪)) in Hd |- *.
    unfold insert_devices in Hd. rewrite fold_result_bind in Hd.
    apply fold_devices_Ok in Hd as (Hdec & Hnd' & _ & ->).
    rewrite (right_id_L ∅ (∪)). split; [|done]. split; try done.
    + intros u Hin. destruct (Hu u Hin). set_solver.
    + intros u g Hin Hg. destruct (Hu u Hin) as (_ & _ & Hgs). set_solver.
  - intros [[Hnd Hdis Hdecl Hrev Hdev Hep] ->].
    destruct (proj2 (check_users_Ok (list_to_set (r_groups r)) ∅ (r_users r))) as [s ->].
    { split; [done|]. intros u Hin. split_and!; [set_solver|..].
      - rewrite elem_of_list_to_set. by apply Hdis.
      - intros g Hg. rewrite elem_of_list_to_set. by eapply Hdecl. }
    simpl. rewrite (proj2 (insert_revoked_Ok ∅ _ _) (conj Hrev eq_refl)). simpl.
    rewrite (right_id_L ∅ (∪)). unfold insert_devices. rewrite fold_result_bind.
    erewrite (proj2 (fold_devices_Ok _ ∅ _ _)); [|by split_and!; [..|done]].
    simpl. rewrite (right_id_L ∅ (∪)). done.
Qed.

Lemma view_of_resolve r t k rd :
  doc_wf r ->
  resolve (view_of r t) k = Some rd <->
  exists u d, u ∈ r_users r /\ d ∈ u_devices u /\
    decode_endpoint_id (d_endpoint_id d) = Ok k /\
    k ∉ v_revoked (view_of r t) /\ rd = resolved u d.
Proof.
  intros Hwf. unfold resolve. simpl.
  rewrite <- elem_of_list_to_map by apply (wf_endpoints _ Hwf).
  rewrite elem_of_active_entries. setoid_rewrite elem_of_doc_devices. split.
  - intros ([u d] & [? ?] & ? & ? & ->). by exists u, d.
  - intros (u & d & ? & ? & ? & ? & ->). by exists (u, d).
Qed.
End view.

(** ** Lemmas on the clock *)

Lemma severity_inj s s' : severity s = severity s' -> s = s'.
Proof. by destruct s, s'. Qed.

Lemma severity_state v now g :
  in_i64 (v_expires_at_epoch v + g) ->
  severity (state v now g) =
    (if decide (now <= v_expires_at_epoch v) then 0
     else if decide (now <= v_expires_at_epoch v + g) then 1 else 2)%Z.
Proof.
  intros Hg. unfold state. rewrite i64_add_exact by done.
  destruct (Z.leb_spec now (v_expires_at_epoch v)).
  { by rewrite decide_True. }
  rewrite decide_False by lia.
  destruct (Z.leb_spec now (v_expires_at_epoch v + g)).
  - by rewrite decide_True.
  - by rewrite decide_False by lia.
Qed.

Lemma state_mono v now now' g :
  in_i64 (v_expires_at_epoch v + g) -> (now <= now')%Z ->
  (severity (state v now g) <= severity (state v now' g))%Z.
Proof. intros ??. rewrite !severity_state by done. repeat case_decide; lia. Qed.

(** The staleness half of [effective_state]. *)
Definition staleness_state (now g : Z) (lc : option Z) (ms : Z) : RosterState :=
  match lc with
  | None => Approved
  | Some lc =>
      let stale := i64_saturating_sub now lc in
      if (stale <=? ms)%Z then Approved
      else if (stale <=? i64_add ms g)%Z then DegradedGrace
      else DegradedStopped
  end.

Lemma effective_state_severity v now g lc ms :
  severity (effective_state v now g lc ms) =
    Z.max (severity (state v now g)) (severity (staleness_state now g lc ms)).
Proof.
  change (effective_state v now g lc ms) with
    (if (severity (state v now g) <=? severity (staleness_state now g lc ms))%Z
     then staleness_state now g lc ms else state v now g).
  destruct (Z.leb_spec (severity (state v now g)) (severity (staleness_state now g lc ms))); lia.
Qed.

Lemma staleness_severity now g lc ms :
  in_i64 (ms + g) ->
  severity (staleness_state now g (Some lc) ms) =
    (if decide (i64_saturating_sub now lc <= ms) then 0
     else if decide (i64_saturating_sub now lc <= ms + g) then 1 else 2)%Z.
Proof.
  intros. unfold staleness_state. rewrite i64_add_exact by done. simpl.
  destruct (Z.leb_spec (i64_saturating_sub now lc) ms).
  { by rewrite decide_True. }
  rewrite decide_False by lia.
  destruct (Z.leb_spec (i64_saturating_sub now lc) (ms + g)).
  - by rewrite decide_True.
  - by rewrite decide_False by lia.
Qed.

(** ** Lemmas on candidate order *)

#[export] Instance candidate_le_total : Total candidate_le.
Proof.
  intros [a r] [b s]. unfold candidate_le; simpl.
  destruct (bytes_leb_total (key_bytes a) (key_bytes b)); unfold key_leb;
    destruct (lt_eq_lt_dec (role_rank r) (role_rank s)) as [[]|]; auto.
Qed.

#[export] Instance candidate_le_trans : Transitive candidate_le.
Proof.
  intros [a r] [b s] [c t]. unfold candidate_le, key_leb; simpl.
  intros [?|[? ?]] [?|[? ?]]; [left; lia..|right].
  split; [lia|]. by eapply bytes_leb_trans.
Qed.

Lemma candidate_le_antisym a b :
  candidate_le a b -> candidate_le b a -> a.1 = b.1.
Proof.
  unfold candidate_le, key_leb. intros [?|[? ?]] [?|[? ?]]; try lia.
  apply (inj key_bytes). by apply bytes_leb_antisym.
Qed.

(** ** Properties *)

Section properties.
Context `{E : Ed25519, T : TextEncoding, J : SerdeJson, C : Chrono}.
Context `{EL : !Ed25519Laws E, TL : !TextEncodingLaws T}.

Lemma resolve_verifier_Ok r pinned vk a :
  resolve_verifier r pinned = Ok (vk, a) <->
  (verify r pinned = Ok () /\ vk = pinned /\ a = None) \/
  (verify r pinned <> Ok () /\
   exists pk sig, r_successor_root_pk r = Some (encode_b64u (key_bytes pk)) /\
     r_successor_sig r = Some (encode_b64u sig) /\ length sig = 64 /\
     verify_strict pinned (org_rotation_preimage (r_org_id r) pk)
       (sig_from_bytes sig) = true /\
     vk_from_bytes pk = Some vk /\ verify r vk = Ok () /\
     a = Some (encode_b64u (key_bytes pk))).
Proof.
  unfold resolve_verifier. destruct (verify r pinned) as [[]|e] eqn:Hv; simpl.
  { split; [intros [= <- <-]; by left|]. intros [(_ & -> & ->)|[[] _]]; done. }
  split.
  - intros H. right. split; [done|]. case_match eqn:Hp; [|done]. case_match eqn:Hs; [|done].
    apply bind_Ok in H as (pk & Hpk%decode32_Ok & H).
    apply bind_Ok in H as (sg & Hsg%encode_decode_b64u & H).
    apply bind_Ok in H as ([] & Hrot & H). apply bind_Ok in H as (vk' & Hvk & H).
    apply bind_Ok in H as ([] & Hb & [= <- <-]).
    apply ok_or_Ok in Hvk. apply verify_slice_Ok in Hrot as (p & Hp' & ? & ?).
    rewrite vk_from_to in Hp'. simplify_eq. by exists pk, sg.
  - intros [[? _]|[_ (pk & sg & -> & -> & Hl & Hrot & Hvk & Hb & ->)]]; [done|].
    rewrite (proj2 (decode32_Ok _ pk) eq_refl). simpl. rewrite decode_encode_b64u. simpl.
    unfold verify_org_rotation. rewrite (proj2 (verify_slice_Ok _ _ _)).
    2: { exists pinned. by rewrite vk_from_to. }
    simpl. rewrite Hvk. simpl. by rewrite Hb.
Qed.

Lemma known_format_true r :
  known_format r = true <-> r_format r = ROSTER_FORMAT \/ r_format r = ROSTER_FORMAT_ROTATION.
Proof. unfold known_format. by rewrite orb_true_iff, !bool_decide_eq_true. Qed.

(** C9: installing accepts a document exactly when all six rules hold: a known format
    that agrees with the presence of the rotation pair, a signature by the pinned root
    or by its cross-signed successor, a serial above the installed one, a validity
    window containing [now] up to the skew, and the structural rules; the view
    returned is the one the document denotes. *)
Theorem validate_for_install_spec r root installed now v a issued expires :
  parse_from_rfc3339 (r_issued_at r) = Ok issued ->
  parse_from_rfc3339 (r_expires_at r) = Ok expires ->
  in_i64 (issued - SKEW_SECS) -> in_i64 (expires + SKEW_SECS) ->
  validate_for_install_with_anchor r root installed now = Ok (v, a) <->
  (r_format r = ROSTER_FORMAT /\ has_rotation r = false \/
   r_format r = ROSTER_FORMAT_ROTATION /\ has_rotation r = true) /\
  (exists vk, resolve_verifier r root = Ok (vk, a)) /\
  (installed < r_serial r)%Z /\
  (issued - SKEW_SECS <= now <= expires + SKEW_SECS)%Z /\
  doc_wf r /\ v = view_of r expires.
Proof.
  intros Hi He Hwi Hwe. unfold validate_for_install_with_anchor, parse_rfc3339.
  rewrite Hi, He, <- build_view_Ok. simpl.
  rewrite i64_sub_exact, i64_add_exact by done.
  assert (ROSTER_FORMAT <> ROSTER_FORMAT_ROTATION) as Hne by done.
  assert (Hf : (r_format r = ROSTER_FORMAT /\ has_rotation r = false \/
      r_format r = ROSTER_FORMAT_ROTATION /\ has_rotation r = true) <->
    known_format r = true /\
    has_rotation r = bool_decide (r_format r = ROSTER_FORMAT_ROTATION)).
  { rewrite known_format_true. case_bool_decide; intuition congruence. }
  rewrite Hf. clear Hf Hne. destruct (known_format r); simpl; [|naive_solver].
  destruct (eqb_spec (has_rotation r) (bool_decide (r_format r = ROSTER_FORMAT_ROTATION)));
    simpl; [|naive_solver].
  destruct (resolve_verifier r root) as [[vk a']|]; simpl; [|naive_solver].
  destruct (Z.leb_spec (r_serial r) installed); [naive_solver lia|].
  destruct (Z.ltb_spec now (issued - SKEW_SECS)); simpl; [naive_solver lia|].
  destruct (Z.ltb_spec (expires + SKEW_SECS) now); simpl; [naive_solver lia|].
  destruct (build_view r expires) as [v'|]; simpl; [|naive_solver].
  split; [intros [= <- <-]; naive_solver lia|].
  intros (_ & (vk' & [= -> ->]) & _ & _ & [= ->]). done.
Qed.

(** What an accepted document satisfied. *)
Lemma validate_inv r root installed now v a :
  validate_for_install_with_anchor r root installed now = Ok (v, a) ->
  known_format r = true /\ (exists vk, resolve_verifier r root = Ok (vk, a)) /\
  (installed < r_serial r)%Z /\
  exists e, parse_rfc3339 (r_expires_at r) = Ok e /\ build_view r e = Ok v.
Proof.
  unfold validate_for_install_with_anchor. destruct (known_format r); simpl; [|done]. case_match; [done|].
  intros ([vk a'] & Hr & Hx)%bind_Ok. destruct (Z.leb_spec (r_serial r) installed); [done|].
  apply bind_Ok in Hx as (i & _ & Hx). apply bind_Ok in Hx as (e & He & Hx).
  case_match; [done|]. apply bind_Ok in Hx as (v' & Hv & [= <- <-]). eauto 10.
Qed.

(** It loads under the root it was judged by and under the key that signed it. *)
Lemma resolve_verifier_loads r root vk a e v :
  known_format r = true -> resolve_verifier r root = Ok (vk, a) ->
  parse_rfc3339 (r_expires_at r) = Ok e -> build_view r e = Ok v ->
  load_installed r root = Ok v /\ verify r vk = Ok () /\ load_installed r vk = Ok v.
Proof.
  intros Hf Hr He Hv.
  assert (verify r vk = Ok ()) as Hvk.
  { apply resolve_verifier_Ok in Hr as [(? & -> & _)|(_ & ? & ? & _ & _ & _ & _ & _ & ? & _)]; done. }
  unfold load_installed. rewrite Hf, Hr. simpl. rewrite He. simpl. split; [done|]. split; [done|].
  unfold resolve_verifier. rewrite Hvk. done.
Qed.

(** A node never moves its anchor on a roster its pinned root signs, and adopts
    a successor only when the pinned root signed that successor for this organisation
    and the successor signed the document. *)
Theorem anchor_adoption r root installed now v a :
  validate_for_install_with_anchor r root installed now = Ok (v, a) ->
  match a with
  | None => verify r root = Ok ()
  | Some text =>
      verify r root <> Ok () /\
      exists pk vk sig, text = encode_b64u (key_bytes pk) /\
        r_successor_root_pk r = Some text /\ vk_from_bytes pk = Some vk /\
        verify_org_rotation (vk_to_bytes root) (r_org_id r) pk sig = Ok () /\
        verify r vk = Ok () /\
        (* once re-pinned, the document verifies directly *)
        resolve_verifier r vk = Ok (vk, None)
  end.
Proof.
  intros (_ & [vk Hr] & _)%validate_inv.
  apply resolve_verifier_Ok in Hr as [(? & -> & ->)|(? & pk & sg & ? & ? & ? & ? & ? & Hv & ->)].
  { done. }
  split; [done|]. exists pk, vk, sg. split_and!; try done.
  - apply verify_slice_Ok. exists root. by rewrite vk_from_to.
  - apply resolve_verifier_Ok. by left.
Qed.

(** A document accepted for installation loads at the next start, under the root
    it was accepted with and under the successor it may have announced, and yields the
    same view; expiry does not matter to loading. *)
Theorem install_then_load r root installed now v a :
  validate_for_install_with_anchor r root installed now = Ok (v, a) ->
  load_installed r root = Ok v /\
  forall vk, resolve_verifier r root = Ok (vk, a) -> load_installed r vk = Ok v.
Proof.
  intros (Hf & [vk Hr] & _ & e & He & Hv)%validate_inv.
  destruct (resolve_verifier_loads r root vk a e v Hf Hr He Hv) as (? & _ & ?). split; [done|].
  intros vk' Hr'. rewrite Hr in Hr'. by injection Hr' as <-.
Qed.

(** An endpoint resolves in an installed view exactly when some user of the
    document lists a device with that endpoint id and the document does not revoke it;
    the identity is that user's and device's, the user id names no group, and every
    group is declared. *)
Theorem view_resolve_spec r t v k rd :
  build_view r t = Ok v ->
  (resolve v k = Some rd <->
     exists u d, u ∈ r_users r /\ d ∈ u_devices u /\
       d_endpoint_id d = encode_b64u (key_bytes k) /\
       encode_b64u (key_bytes k) ∉ r_revoked_endpoints r /\ rd = resolved u d) /\
  (resolve v k = Some rd ->
     is_revoked v k = false /\ rd_user_id rd ∉ v_groups v /\ rd_groups rd ⊆ v_groups v) /\
  (is_revoked v k = true <-> encode_b64u (key_bytes k) ∈ r_revoked_endpoints r).
Proof.
  intros [Hwf ->]%build_view_Ok.
  assert (Hrev : forall k, k ∈ v_revoked (view_of r t) <->
    encode_b64u (key_bytes k) ∈ r_revoked_endpoints r).
  { intros k'. simpl. rewrite elem_of_revoked_set. setoid_rewrite decode_endpoint_id_Ok.
    split; [by intros (s & ? & ->)|by eauto]. }
  unfold is_revoked. rewrite bool_decide_eq_false, bool_decide_eq_true.
  rewrite (view_of_resolve r t k rd Hwf), Hrev. setoid_rewrite decode_endpoint_id_Ok.
  split_and!; [naive_solver| |done].
  intros (u & d & Hu & Hd & Hx & Hy & ->).
  split_and!; [by rewrite <- Hrev|by apply (wf_disjoint _ Hwf)|].
  intros g Hg. by eapply (wf_declared _ Hwf).
Qed.
End properties.

(** The effective state is the more degraded of expiry and staleness, never improves
    as the clock advances, and once the last confirmation is older than the staleness
    bound plus the grace the roster authorizes nothing, whatever its expiry date. *)
Theorem effective_state_spec v now now' g lc ms :
  in_i64 (v_expires_at_epoch v + g) -> in_i64 (ms + g) -> (now <= now')%Z ->
  severity (effective_state v now g lc ms) =
    Z.max (severity (state v now g)) (severity (staleness_state now g lc ms)) /\
  (severity (effective_state v now g lc ms) <= severity (effective_state v now' g lc ms))%Z /\
  (forall c, lc = Some c -> in_i64 (now - c) -> (c + ms + g < now)%Z -> (0 <= g)%Z ->
     effective_state v now g lc ms = DegradedStopped) /\
  (lc = None -> effective_state v now g lc ms = state v now g).
Proof.
  intros He Hs Hle. split_and!.
  - apply effective_state_severity.
  - rewrite !effective_state_severity.
    pose proof (state_mono v now now' g He Hle).
    assert (severity (staleness_state now g lc ms) <= severity (staleness_state now' g lc ms))%Z.
    { destruct lc as [c|]; [|simpl; lia]. rewrite !staleness_severity by done.
      unfold i64_saturating_sub, clamp. repeat case_decide; lia. }
    lia.
  - intros c -> Hc Hlt Hg. apply severity_inj. rewrite effective_state_severity.
    rewrite staleness_severity, i64_saturating_sub_exact by done.
    rewrite !decide_False by lia. destruct (state v now g); simpl; lia.
  - intros ->. apply severity_inj. rewrite effective_state_severity.
    destruct (state v now g); simpl; lia.
Qed.

(** The dial candidates of a person are exactly the active devices the roster gives
    them, each with its role, ordered primary, mirror, other and by endpoint within a
    role; the order does not depend on how the map enumerates its entries. *)
Theorem devices_for_user_spec v uid :
  Sorted candidate_le (devices_for_user v uid) /\
  (forall k role, (k, role) ∈ devices_for_user v uid <->
     exists rd, resolve v k = Some rd /\ rd_user_id rd = uid /\ rd_role rd = role) /\
  (forall entries, entries ≡ₚ map_to_list (v_devices v) ->
     sort_candidates uid entries = devices_for_user v uid).
Proof.
  unfold devices_for_user, sort_candidates. split_and!.
  - apply Sorted_merge_sort, _.
  - intros k role. rewrite merge_sort_Permutation, list_elem_of_fmap. split.
    + intros ([k' rd] & [= -> ->] & [? Hin]%list_elem_of_filter).
      apply elem_of_map_to_list in Hin. by exists rd.
    + intros (rd & Hr & Hu & <-). exists (k, rd). split; [done|].
      apply list_elem_of_filter. split; [done|]. by apply elem_of_map_to_list.
  - intros entries Hp. apply merge_sort_perm_eq; try apply _.
    + intros [k r] [k' r'] Hx Hy Hle Hge.
      pose proof (candidate_le_antisym _ _ Hle Hge) as Hk. simpl in Hk. subst k'.
      rewrite Hp in Hx, Hy.
      apply list_elem_of_fmap in Hx as ([a ra] & [= -> ->] & [_ Hx]%list_elem_of_filter).
      apply list_elem_of_fmap in Hy as ([b rb] & [= -> ->] & [_ Hy]%list_elem_of_filter).
      apply elem_of_map_to_list in Hx, Hy. congruence.
    + by rewrite Hp.
Qed.

(** ** A concrete organisation

    Two people with one device each, a revoked endpoint, and the keys the witnesses
    sign with. *)
Module Sample.
Import Toy.

Definition ep (b : byte) : string := encode_b64u (key_bytes (key_fill b)).
Definition root : SigningKey := key_fill Byte.x01.
Definition root_pk : VerifyingKey := verifying_key root.
Definition successor : key32 := key_fill Byte.x02.
Definition successor_pk : VerifyingKey := successor.
Definition alice_ep : key32 := key_fill Byte.x11.
Definition bob_ep : key32 := key_fill Byte.x22.
Definition dead_ep : key32 := key_fill Byte.x33.

Definition device (b : byte) (label : string) : RosterDevice :=
  {| d_endpoint_id := ep b; d_label := label; d_role := "primary" |}.

Definition body : Roster :=
  {| r_format := ROSTER_FORMAT; r_org_id := "acme"; r_serial := 7;
     r_issued_at := to_rfc3339 1000; r_expires_at := to_rfc3339 5000;
     r_groups := ["eng"%string];
     r_users :=
       [{| u_user_id := "alice"; u_display_name := "Alice"; u_user_pk := "pkA";
           u_groups := ["eng"%string]; u_devices := [device Byte.x11 "laptop"] |};
        {| u_user_id := "bob"; u_display_name := "Bob"; u_user_pk := "pkB";
           u_groups := []; u_devices := [device Byte.x22 "phone"] |}];
     r_revoked_endpoints := [ep Byte.x33];
     r_successor_root_pk := None; r_successor_sig := None; r_sig := "" |}.

(** The document signed by the root. *)
Definition signed : Roster :=
  match sign root body with Ok r => r | Err _ => body end.

(** The same document announcing, and signed by, a successor root. *)
Definition rotated_body : Roster :=
  {| r_format := ROSTER_FORMAT_ROTATION; r_org_id := "acme"; r_serial := 8;
     r_issued_at := r_issued_at body; r_expires_at := r_expires_at body;
     r_groups := r_groups body; r_users := r_users body;
     r_revoked_endpoints := r_revoked_endpoints body;
     r_successor_root_pk := Some (encode_b64u (key_bytes successor));
     r_successor_sig := Some (encode_b64u (sign_org_rotation root "acme" successor));
     r_sig := "" |}.
Definition rotated : Roster :=
  match sign successor rotated_body with Ok r => r | Err _ => body end.

Lemma body_wf : doc_wf body.
Proof.
  assert (is_ok (build_view body 5000) = true) as [v Hv]%is_ok_true
    by (vm_compute; reflexivity).
  by apply build_view_Ok in Hv as [? _].
Qed.

Definition view : RosterView := view_of signed 5000.

Lemma signed_view : build_view signed 5000 = Ok view.
Proof.
  apply build_view_Ok. split; [|done]. destruct body_wf. by split.
Qed.
End Sample.

(** ** Witnesses *)
Module Witness.
Import Toy Sample.

Definition rotated_view : RosterView := view_of rotated 5000.

Lemma rotated_installs :
  validate_for_install_with_anchor rotated root_pk 7 2000
    = Ok (rotated_view, r_successor_root_pk rotated).
Proof. vm_compute. reflexivity. Qed.

Lemma validate_for_install_spec_witness :
  validate_for_install_with_anchor signed root_pk 6 2000 = Ok (view, None).
Proof.
  apply (validate_for_install_spec signed root_pk 6 2000 view None 1000 5000).
  - vm_compute; reflexivity.
  - vm_compute; reflexivity.
  - vm_compute; split; discriminate.
  - vm_compute; split; discriminate.
  - split_and!.
    + left. by split.
    + exists root_pk. vm_compute; reflexivity.
    + reflexivity.
    + discriminate.
    + discriminate.
    + apply (proj1 (build_view_Ok _ _ _) signed_view).
    + reflexivity.
Defined.

Lemma anchor_adoption_witness :
  verify rotated root_pk <> Ok () /\ resolve_verifier rotated successor_pk = Ok (successor_pk, None).
Proof.
  destruct (anchor_adoption _ _ _ _ _ _ rotated_installs)
    as (Hn & pk & vk & sg & _ & _ & Hvk & _ & _ & Hr).
  split; [exact Hn|]. vm_compute. reflexivity.
Defined.

Lemma install_then_load_witness :
  load_installed rotated root_pk = Ok rotated_view /\
  load_installed rotated successor_pk = Ok rotated_view.
Proof.
  destruct (install_then_load _ _ _ _ _ _ rotated_installs) as [H1 H2].
  split; [exact H1|]. apply H2. vm_compute. reflexivity.
Defined.

Lemma view_resolve_spec_witness :
  is_revoked view dead_ep = true /\ resolve view dead_ep = None.
Proof.
  destruct (view_resolve_spec signed 5000 view dead_ep
    (resolved {| u_user_id := ""; u_display_name := ""; u_user_pk := ""; u_groups := [];
                 u_devices := [] |} (device Byte.x33 "")) signed_view) as (_ & _ & H).
  split; [apply H; vm_compute; left|vm_compute; reflexivity].
Defined.

Lemma effective_state_spec_witness :
  effective_state view 9000 60 (Some 1000%Z) 600 = DegradedStopped.
Proof.
  apply (effective_state_spec view 9000 9000 60 (Some 1000%Z) 600) with (c := 1000%Z);
    vm_compute; (split || reflexivity || idtac); discriminate.
Defined.
End Witness.
