(* ===== verification/Mutate.v ===== *)
(** * Roster mutations

    [trust/src/roster/mutate.rs]: the operator's transformations of a roster before it
    is signed again.  Each checks first and changes the document only when every check
    passed, so an error leaves the roster as it was. *)
From stdpp Require Import base list gmap strings.
From Stdlib Require Import ZArith Lia Strings.Byte.
From S2P Require Import Prelude Bytes Json Externals Schema Sign Validate.

Inductive MutateError :=
| UserIdIsGroup (name : string)
| GroupIsUserId (name : string)
| EndpointBelongsToAnotherUser (endpoint : string)
| EndpointRevoked (endpoint : string)
| NoSuchPerson (user_id : string)
| NoSuchDevice (user_id device_label : string).

(** The fields the transformations assign, and [sig.clear()]. *)
Definition set_body (groups : list string) (users : list RosterUser) (revoked : list string)
    (r : Roster) : Roster :=
  {| r_format := r_format r; r_org_id := r_org_id r; r_serial := r_serial r;
     r_issued_at := r_issued_at r; r_expires_at := r_expires_at r;
     r_groups := groups; r_users := users; r_revoked_endpoints := revoked;
     r_successor_root_pk := r_successor_root_pk r;
     r_successor_sig := r_successor_sig r; r_sig := "" |}.

Definition set_devices (ds : list RosterDevice) (u : RosterUser) : RosterUser :=
  {| u_user_id := u_user_id u; u_display_name := u_display_name u;
     u_user_pk := u_user_pk u; u_groups := u_groups u; u_devices := ds |}.

Section mutate.
Context `{C : Chrono}.

Definition rfc3339 (epoch : Z) : string := to_rfc3339 epoch.

Definition empty_roster (org_id : string) (serial issued_epoch expires_epoch : Z) : Roster :=
  {| r_format := ROSTER_FORMAT; r_org_id := org_id; r_serial := serial;
     r_issued_at := rfc3339 issued_epoch; r_expires_at := rfc3339 expires_epoch;
     r_groups := []; r_users := []; r_revoked_endpoints := [];
     r_successor_root_pk := None; r_successor_sig := None; r_sig := "" |}.
End mutate.

Definition has_user_id (uid : string) (u : RosterUser) : bool := bool_decide (u_user_id u = uid).

(** The change [upsert_member] makes to an existing entry of [user_id]. *)
Definition upsert_user (display_name user_pk : string) (groups : list string)
    (device : RosterDevice) (u : RosterUser) : RosterUser :=
  if decide (u_user_pk u = user_pk) then
    {| u_user_id := u_user_id u; u_display_name := u_display_name u;
       u_user_pk := u_user_pk u; u_groups := foldl push_unique (u_groups u) groups;
       u_devices :=
         if existsb (fun d => bool_decide (d_endpoint_id d = d_endpoint_id device)) (u_devices u)
         then u_devices u else u_devices u ++ [device] |}
  else
    {| u_user_id := u_user_id u; u_display_name := display_name;
       u_user_pk := user_pk; u_groups := groups; u_devices := [device] |}.

Definition upsert_member (roster : Roster) (user_id display_name user_pk : string)
    (groups : list string) (device_endpoint_id device_label : string) :
    result MutateError Roster :=
  if existsb (fun g => bool_decide (g = user_id)) (r_groups roster)
     || existsb (fun g => bool_decide (g = user_id)) groups
  then Err (UserIdIsGroup user_id)
  else
    match find_first (fun g => existsb (fun u =>
            negb (has_user_id user_id u) && has_user_id g u) (r_users roster)) groups with
    | Some g => Err (GroupIsUserId g)
    | None =>
        if existsb (fun u => negb (has_user_id user_id u)
             && existsb (fun d => bool_decide (d_endpoint_id d = device_endpoint_id)) (u_devices u))
             (r_users roster)
        then Err (EndpointBelongsToAnotherUser device_endpoint_id)
        else if existsb (fun e => bool_decide (e = device_endpoint_id))
                  (r_revoked_endpoints roster)
        then Err (EndpointRevoked device_endpoint_id)
        else
          let declared := foldl push_unique (r_groups roster) groups in
          let device := {| d_endpoint_id := device_endpoint_id; d_label := device_label;
                           d_role := "primary" |} in
          let users :=
            match find_first (has_user_id user_id) (r_users roster) with
            | Some _ => alter_first (has_user_id user_id)
                          (upsert_user display_name user_pk groups device) (r_users roster)
            | None => r_users roster ++
                [{| u_user_id := user_id; u_display_name := display_name;
                    u_user_pk := user_pk; u_groups := groups; u_devices := [device] |}]
            end in
          Ok (set_body declared users (r_revoked_endpoints roster) roster)
    end.

(** [Vec::remove] panics out of range; [position] returned an index in range, so the
    last branch is never taken ([revoke_device_spec] covers every success). *)
Definition revoke_device (roster : Roster) (user_id device_label : string) :
    result MutateError Roster :=
  user ← ok_or (NoSuchPerson user_id) (find_first (has_user_id user_id) (r_users roster));
  idx ← ok_or (NoSuchDevice user_id device_label)
          (position (fun d => bool_decide (d_label d = device_label)) (u_devices user));
  dev ← ok_or (NoSuchDevice user_id device_label) (u_devices user !! idx);
  let users := alter_first (has_user_id user_id)
                 (set_devices (delete idx (u_devices user))) (r_users roster) in
  Ok (set_body (r_groups roster) users
        (push_unique (r_revoked_endpoints roster) (d_endpoint_id dev)) roster).

Definition remove_user (roster : Roster) (user_id : string) (revoke_endpoints : bool) :
    result MutateError Roster :=
  idx ← ok_or (NoSuchPerson user_id) (position (has_user_id user_id) (r_users roster));
  user ← ok_or (NoSuchPerson user_id) (r_users roster !! idx);
  let revoked := r_revoked_endpoints roster in
  let revoked := if revoke_endpoints
                 then foldl push_unique revoked (d_endpoint_id <$> u_devices user)
                 else revoked in
  Ok (set_body (r_groups roster) (delete idx (r_users roster)) revoked roster).

(** ** Lemmas *)

Lemma has_user_id_true uid u : has_user_id uid u = true <-> u_user_id u = uid.
Proof. apply bool_decide_eq_true. Qed.

Lemma position_split {A} (p : A -> bool) l i x :
  position p l = Some i -> l !! i = Some x ->
  exists l1 l2, l = l1 ++ x :: l2 /\ delete i l = l1 ++ l2 /\ p x = true /\
    find_first p l = Some x.
Proof.
  revert i; induction l as [|y l IH]; intros i; simpl; [done|].
  destruct (p y) eqn:Hy.
  - intros [= <-] [= ->]. by exists [], l.
  - destruct (position p l) as [j|]; [|done]. intros [= <-] Hx.
    destruct (IH j eq_refl Hx) as (l1 & l2 & -> & Hd & ? & ?).
    exists (y :: l1), l2. simpl. by rewrite Hd.
Qed.

(** The endpoint texts of a document, in document order. *)
Definition endpoints (us : list RosterUser) : list string :=
  us ≫= fun u => d_endpoint_id <$> u_devices u.

Lemma elem_of_endpoints us s :
  s ∈ endpoints us <-> exists u d, u ∈ us /\ d ∈ u_devices u /\ s = d_endpoint_id d.
Proof.
  unfold endpoints. rewrite list_elem_of_bind. setoid_rewrite list_elem_of_fmap. naive_solver.
Qed.

Lemma endpoints_app us1 us2 : endpoints (us1 ++ us2) = endpoints us1 ++ endpoints us2.
Proof. apply bind_app. Qed.

Section lemmas.
Context `{T : TextEncoding, TL : !TextEncodingLaws T}.

(** The active endpoint a device's text denotes. *)
Definition active_key (revoked : gset key32) (s : string) : option key32 :=
  k ← ok (decode_endpoint_id s); if decide (k ∈ revoked) then None else Some k.

Lemma active_key_Some s t k :
  active_key s t = Some k <-> decode_endpoint_id t = Ok k /\ k ∉ s.
Proof.
  unfold active_key. destruct (decode_endpoint_id t) as [k'|]; simpl; [|naive_solver].
  case_decide; split; [done|by intros [[= ->] ?]|by intros [= ->]|by intros [[= ->] _]].
Qed.

Lemma active_keys_eq s us :
  (active_entries s (doc_devices us)).*1 = omap (active_key s) (endpoints us).
Proof.
  assert (endpoints us = d_endpoint_id ∘ snd <$> doc_devices us) as ->.
  { unfold endpoints, doc_devices. induction us as [|u us IH]; [done|].
    rewrite !bind_cons, fmap_app, IH, <- list_fmap_compose. done. }
  induction (doc_devices us) as [|ud l IH]; simpl; [done|].
  unfold active_entry, active_key, compose.
  destruct (decode_endpoint_id _); simpl; [|done]. case_decide; simpl; [done|by f_equal].
Qed.

Lemma revoked_set_mono l l' : l ⊆ l' -> revoked_set l ⊆ revoked_set l'.
Proof.
  intros Hl k. rewrite !elem_of_revoked_set. intros (s & ? & ?). eauto.
Qed.

(** [doc_wf] in terms of the document's texts. *)
Lemma doc_wf_alt r :
  doc_wf r <->
  NoDup (u_user_id <$> r_users r) /\
  (forall u, u ∈ r_users r -> u_user_id u ∉ r_groups r /\ u_groups u ⊆ r_groups r) /\
  (forall s, s ∈ r_revoked_endpoints r -> decodes s) /\
  (forall s, s ∈ endpoints (r_users r) -> decodes s) /\
  NoDup (omap (active_key (revoked_set (r_revoked_endpoints r))) (endpoints (r_users r))).
Proof.
  rewrite <- active_keys_eq. split.
  - intros [Hnd Hdis Hdecl Hrev Hdev Hep]. split_and!; try done.
    + intros u Hu. split; [by apply Hdis|]. intros g. by apply Hdecl.
    + intros s (u & d & ? & ? & ->)%elem_of_endpoints. apply (Hdev (u, d)).
      by apply elem_of_doc_devices.
  - intros (Hnd & Hu & Hrev & Hdev & Hep). split; try done.
    + intros u ?. by apply Hu.
    + intros u g Hin. by apply Hu.
    + intros [u d] [? ?]%elem_of_doc_devices. apply Hdev, elem_of_endpoints. by exists u, d.
Qed.

(** Rules 4 and 5 survive removing users and devices and revoking endpoints. *)
Lemma doc_wf_shrink r r' :
  doc_wf r -> r_groups r' = r_groups r ->
  u_user_id <$> r_users r' `sublist_of` u_user_id <$> r_users r ->
  (forall u', u' ∈ r_users r' -> exists u, u ∈ r_users r /\
     u_user_id u' = u_user_id u /\ u_groups u' = u_groups u) ->
  endpoints (r_users r') `sublist_of` endpoints (r_users r) ->
  r_revoked_endpoints r ⊆ r_revoked_endpoints r' ->
  (forall s, s ∈ r_revoked_endpoints r' -> decodes s) ->
  doc_wf r'.
Proof.
  rewrite !doc_wf_alt. intros (Hnd & Hall & Hrev & Hdev & Hep) Hg Husers Hsame Hds Hre Hdec.
  split_and!; [by eapply sublist_NoDup| |done| |].
  - intros u' (u & Hu & -> & ->)%Hsame. rewrite Hg. by apply Hall.
  - intros s Hs. eapply Hdev, elem_of_sublist, Hds. done.
  - eapply sublist_NoDup; [exact Hep|].
    apply omap_sublist; [|done]. intros t k. rewrite !active_key_Some.
    intros [? Hk]. split; [done|]. intros Hk'. apply Hk. by eapply revoked_set_mono.
Qed.

(** Adding an endpoint text the list does not have adds a new active key, or none. *)
Lemma active_nodup_cons s e l :
  e ∉ l -> NoDup (omap (active_key s) l) -> NoDup (omap (active_key s) (e :: l)).
Proof.
  intros He Hnd. simpl. destruct (active_key s e) as [k|] eqn:Hk; [|done].
  constructor; [|done]. intros (t & Ht & Htk)%list_elem_of_omap.
  apply active_key_Some in Hk as [Hk _], Htk as [Htk _].
  by rewrite (decode_endpoint_id_inj _ _ _ Hk Htk) in He.
Qed.

Lemma verify_unsigned `{Ed25519, SerdeJson} r vk : r_sig r = ""%string -> verify r vk <> Ok ().
Proof.
  unfold verify. intros ->. destruct (canonical_bytes r); simpl; [|done].
  unfold decode_b64u. simpl. done.
Qed.
End lemmas.

(** ** Properties *)
Section properties.
Context `{T : TextEncoding, TL : !TextEncodingLaws T}.

(** In a valid document the other entries carry other user ids. *)
Lemma other_user_ids r l1 u l2 :
  doc_wf r -> r_users r = l1 ++ u :: l2 ->
  forall u', u' ∈ l1 ++ l2 -> u_user_id u' <> u_user_id u.
Proof.
  intros Hwf Hus. pose proof (wf_users _ Hwf) as Hnd. rewrite Hus, fmap_app, fmap_cons in Hnd.
  apply NoDup_app in Hnd as (_ & Hd & [Hn _]%NoDup_cons).
  intros u' [Hin|Hin]%elem_of_app Heq.
  - apply (Hd (u_user_id u')); [by apply list_elem_of_fmap_2|]. rewrite Heq. in_list.
  - apply Hn. rewrite <- Heq. by apply list_elem_of_fmap_2.
Qed.

Lemma find_user_split r uid u :
  doc_wf r -> find_first (has_user_id uid) (r_users r) = Some u ->
  u_user_id u = uid /\
  exists l1 l2, r_users r = l1 ++ u :: l2 /\
    (forall f, alter_first (has_user_id uid) f (r_users r) = l1 ++ f u :: l2) /\
    (forall u', u' ∈ l1 ++ l2 -> u_user_id u' <> uid).
Proof.
  intros Hwf (l1 & l2 & Hl & H1 & Hu%has_user_id_true & Hf)%find_first_split.
  split; [done|]. exists l1, l2. split_and!; [done..|].
  rewrite <- Hu. by apply (other_user_ids r l1 u l2).
Qed.

(** The document [revoke_device] builds is valid. *)
Lemma revoked_doc_wf r l1 l2 u d1 d2 d k :
  doc_wf r -> r_users r = l1 ++ u :: l2 -> u_devices u = d1 ++ d :: d2 ->
  decode_endpoint_id (d_endpoint_id d) = Ok k ->
  doc_wf (set_body (r_groups r) (l1 ++ set_devices (d1 ++ d2) u :: l2)
            (push_unique (r_revoked_endpoints r) (d_endpoint_id d)) r).
Proof.
  intros Hwf Hus Hds Hk. eapply (doc_wf_shrink r); simpl; try done.
  - rewrite Hus, !fmap_app, !fmap_cons. done.
  - intros u' [? | [-> | ?]%elem_of_cons]%elem_of_app; [exists u'|exists u|exists u'];
      rewrite Hus; split; try done; in_list.
  - rewrite Hus, !endpoints_app. apply sublist_app; [done|].
    change (endpoints (?x :: l2)) with ((d_endpoint_id <$> u_devices x) ++ endpoints l2).
    simpl. rewrite Hds. apply sublist_app; [|done]. rewrite !fmap_app.
    apply sublist_app; [done|]. by apply sublist_cons.
  - intros s ?. apply elem_of_push_unique. by left.
  - intros s [? | ->]%elem_of_push_unique; [by apply (wf_revoked _ Hwf)|by exists k].
Qed.

(** The document [remove_user] builds is valid. *)
Lemma removed_doc_wf r l1 u l2 rv :
  doc_wf r -> r_users r = l1 ++ u :: l2 -> r_revoked_endpoints r ⊆ rv ->
  (forall s, s ∈ rv -> s ∈ r_revoked_endpoints r \/ s ∈ d_endpoint_id <$> u_devices u) ->
  doc_wf (set_body (r_groups r) (l1 ++ l2) rv r).
Proof.
  intros Hwf Hus Hsub Hrv. eapply (doc_wf_shrink r); simpl; try done.
  - rewrite Hus, !fmap_app, !fmap_cons. apply sublist_app; [done|]. by apply sublist_cons.
  - intros u' Hin. exists u'. rewrite Hus. split; [in_list|done].
  - rewrite Hus, !endpoints_app. apply sublist_app; [done|]. by apply sublist_inserts_l.
  - intros s [?|(d & -> & Hd)%list_elem_of_fmap]%Hrv; [by apply (wf_revoked _ Hwf)|].
    apply (wf_devices _ Hwf (u, d)), elem_of_doc_devices. rewrite Hus. simpl. in_list.
Qed.

(** Revoking a device of a valid document removes it from its person's list and
    revokes its endpoint; the result is again a valid document, unsigned, in which the
    endpoint is revoked and resolves to nothing while every other endpoint resolves as
    before. *)
Theorem revoke_device_spec r uid label r' t :
  doc_wf r -> revoke_device r uid label = Ok r' ->
  build_view r' t = Ok (view_of r' t) /\ r_sig r' = ""%string /\
  exists u d k, u ∈ r_users r /\ u_user_id u = uid /\ d ∈ u_devices u /\ d_label d = label /\
    decode_endpoint_id (d_endpoint_id d) = Ok k /\
    is_revoked (view_of r' t) k = true /\ resolve (view_of r' t) k = None /\
    (forall k', k' <> k -> resolve (view_of r' t) k' = resolve (view_of r t) k').
Proof.
  intros Hwf. unfold revoke_device.
  intros (u & Hu%ok_or_Ok & (idx & Hi%ok_or_Ok & (d & Hd%ok_or_Ok & [= <-])%bind_Ok)%bind_Ok)%bind_Ok.
  destruct (find_user_split _ _ _ Hwf Hu) as (Huid & l1 & l2 & Hus & -> & Hother).
  destruct (position_split _ _ _ _ Hi Hd) as (d1 & d2 & Hds & -> & Hlab%bool_decide_eq_true & _).
  assert (u ∈ r_users r) as Hin by (rewrite Hus; in_list).
  assert (d ∈ u_devices u) as Hdin by (rewrite Hds; in_list).
  destruct (wf_devices _ Hwf (u, d)) as [k Hk]; [by apply elem_of_doc_devices|]. simpl in Hk.
  set (r' := set_body _ _ _ _).
  assert (doc_wf r') as Hwf' by (eapply revoked_doc_wf; eauto).
  split; [by apply build_view_Ok|]. split; [done|].
  assert (Hrev : forall k', k' ∈ v_revoked (view_of r' t) <->
    k' ∈ v_revoked (view_of r t) \/ k' = k).
  { intros k'. simpl. rewrite !elem_of_revoked_set. setoid_rewrite elem_of_push_unique.
    split.
    - intros (s & [Hs| ->] & Hdec); [left; eauto|right; congruence].
    - intros [(s & ? & ?)| ->]; eauto. }
  exists u, d, k. split_and!; try done.
  - apply bool_decide_eq_true, Hrev. by right.
  - apply eq_None_not_Some. intros [rd (? & ? & _ & _ & _ & Hn & _)%(view_of_resolve _ _ _ _ Hwf')].
    apply Hn, Hrev. by right.
  - intros k' Hne. apply option_eq. intros rd.
    rewrite !view_of_resolve by done. simpl r_users. rewrite Hus.
    setoid_rewrite Hrev. split.
    + intros (u' & d' & Hu' & Hd' & Hdec & Hn & ->).
      apply elem_of_app in Hu' as [? | [-> | ?]%elem_of_cons].
      * exists u', d'. split_and!; [in_list|tauto..].
      * exists u, d'. split_and!; [in_list|rewrite Hds; simpl in Hd'; in_list|tauto..].
      * exists u', d'. split_and!; [in_list|tauto..].
    + intros (u' & d' & Hu' & Hd' & Hdec & Hn & ->).
      apply elem_of_app in Hu' as [? | [-> | ?]%elem_of_cons].
      * exists u', d'. split_and!; [in_list|tauto..].
      * exists (set_devices (d1 ++ d2) u), d'. split_and!; [in_list| |tauto..].
        simpl. rewrite Hds in Hd'. assert (d' <> d) by congruence. in_list.
      * exists u', d'. split_and!; [in_list|tauto..].
Qed.

(** Removing a person leaves a valid, unsigned document in which no endpoint
    resolves to that person; with [revoke_endpoints] each of their devices is revoked,
    and in either case everyone else resolves exactly as before. *)
Theorem remove_user_spec r uid b r' t :
  doc_wf r -> remove_user r uid b = Ok r' ->
  build_view r' t = Ok (view_of r' t) /\ r_sig r' = ""%string /\
  (forall k rd, resolve (view_of r' t) k = Some rd <->
     resolve (view_of r t) k = Some rd /\ rd_user_id rd <> uid) /\
  (forall u d k, u ∈ r_users r -> u_user_id u = uid -> d ∈ u_devices u ->
     decode_endpoint_id (d_endpoint_id d) = Ok k -> b = true ->
     is_revoked (view_of r' t) k = true).
Proof.
  intros Hwf. unfold remove_user.
  intros (idx & Hi%ok_or_Ok & (u & Hu%ok_or_Ok & [= <-])%bind_Ok)%bind_Ok.
  destruct (position_split _ _ _ _ Hi Hu) as (l1 & l2 & Hus & -> & Huid%has_user_id_true & Hf).
  pose proof (other_user_ids _ _ _ _ Hwf Hus) as Hother. rewrite Huid in Hother.
  set (rv := if b then _ else _).
  assert (Hsub : r_revoked_endpoints r ⊆ rv).
  { subst rv. destruct b; [apply fold_push_unique_incl|done]. }
  assert (Hrv : forall s, s ∈ rv -> s ∈ r_revoked_endpoints r \/ s ∈ d_endpoint_id <$> u_devices u).
  { subst rv. destruct b; [|by left]. intros s. by rewrite elem_of_fold_push_unique. }
  set (r' := set_body _ _ _ _).
  assert (doc_wf r') as Hwf' by (eapply removed_doc_wf; eauto).
  split_and!; [by apply build_view_Ok|done|..].
  - intros k rd. rewrite !view_of_resolve by done. split.
    + intros (u' & d' & Hu' & Hd' & Hdec & Hn & ->). split; [|by apply Hother].
      exists u', d'. split_and!; try done.
      * rewrite Hus. simpl in Hu'. in_list.
      * intros Hx. apply Hn. by eapply revoked_set_mono.
    + intros [(u' & d' & Hu' & Hd' & Hdec & Hn & ->) Hne]. exists u', d'.
      assert (u' ∈ l1 ++ l2) as Hu'' by (rewrite Hus in Hu'; simpl in Hne; in_list).
      split_and!; try done. simpl. rewrite elem_of_revoked_set.
      intros (s & [Hs|(d & -> & Hd)%list_elem_of_fmap]%Hrv & Hsk).
      * apply Hn. simpl. rewrite elem_of_revoked_set. eauto.
      * assert (u ∈ r_users r) as Hin by (rewrite Hus; in_list).
        assert (resolve (view_of r t) k = Some (resolved u' d')) as H1
          by (apply view_of_resolve; [done|]; by exists u', d').
        assert (resolve (view_of r t) k = Some (resolved u d)) as H2
          by (apply view_of_resolve; [done|]; by exists u, d).
        rewrite H1 in H2. apply (Hother u'); [done|]. injection H2. congruence.
  - intros u' d k Hu' Hid Hd Hk ->. apply bool_decide_eq_true. simpl.
    rewrite elem_of_revoked_set. exists (d_endpoint_id d). split; [|done].
    subst rv. apply elem_of_fold_push_unique. right. apply list_elem_of_fmap.
    exists d. split; [done|]. rewrite Hus in Hu'.
    assert (u' ∉ l1 ++ l2) as Hn by (by intros ?%Hother).
    assert (u' = u) as <-; [|done]. in_list.
Qed.

(** The four guards of [upsert_member], as propositions. *)
Lemma upsert_guards r uid name pk gs ep label r' :
  upsert_member r uid name pk gs ep label = Ok r' ->
  uid ∉ r_groups r /\ uid ∉ gs /\
  (forall u, u ∈ r_users r -> u_user_id u <> uid -> u_user_id u ∉ gs) /\
  (forall u d, u ∈ r_users r -> d ∈ u_devices u -> d_endpoint_id d = ep -> u_user_id u = uid) /\
  ep ∉ r_revoked_endpoints r.
Proof.
  unfold upsert_member. destruct (existsb _ (r_groups r)) eqn:E1; [done|].
  destruct (existsb _ gs) eqn:E2; [done|]. simpl.
  destruct (find_first _ gs) eqn:E3; [done|].
  destruct (existsb _ (r_users r)) eqn:E4; [done|].
  destruct (existsb _ (r_revoked_endpoints r)) eqn:E5; [done|]. intros _.
  rewrite existsb_false in E1; rewrite existsb_false in E2; rewrite existsb_false in E4;
    rewrite existsb_false in E5. rewrite find_first_None, Forall_forall in E3.
  split_and!.
  - intros Hin%E1. by rewrite bool_decide_true in Hin.
  - intros Hin%E2. by rewrite bool_decide_true in Hin.
  - intros u Hu Hne Hin%E3. rewrite existsb_false in Hin. specialize (Hin u Hu).
    unfold has_user_id in Hin. by rewrite bool_decide_false, bool_decide_true in Hin.
  - intros u d Hu Hd Hep. specialize (E4 u Hu). apply andb_false_iff in E4 as [E|E].
    + by apply negb_false_iff, has_user_id_true in E.
    + rewrite existsb_false in E. specialize (E d Hd). by rewrite bool_decide_true in E.
  - intros Hin%E5. by rewrite bool_decide_true in Hin.
Qed.

Definition new_device (ep label : string) : RosterDevice :=
  {| d_endpoint_id := ep; d_label := label; d_role := "primary" |}.

(** What a user entry is after [upsert_member], relative to what it was ([o]). *)
Definition upserted (uid ep : string) (gs : list string) (o : list RosterUser)
    (u' : RosterUser) : Prop :=
  u_user_id u' = uid /\ (forall u, u ∈ o -> u_user_id u = uid) /\
  gs ⊆ u_groups u' /\ u_groups u' ⊆ gs ++ (o ≫= u_groups) /\
  (exists d, d ∈ u_devices u' /\ d_endpoint_id d = ep) /\
  (endpoints [u'] = endpoints o \/
   exists x, x `sublist_of` endpoints o /\ ep ∉ x /\ endpoints [u'] = x ++ [ep]).

Lemma endpoints_one u : endpoints [u] = d_endpoint_id <$> u_devices u.
Proof. unfold endpoints. simpl. by rewrite app_nil_r. Qed.

Lemma fresh_upserted uid name pk gs ep label o :
  (forall u, u ∈ o -> u_user_id u = uid) ->
  upserted uid ep gs o
    {| u_user_id := uid; u_display_name := name; u_user_pk := pk; u_groups := gs;
       u_devices := [new_device ep label] |}.
Proof.
  intros Ho. unfold upserted. simpl. split_and!; [done|done|done|..].
  - intros g ?. apply elem_of_app. by left.
  - exists (new_device ep label). split; [by apply list_elem_of_singleton|done].
  - right. exists []. split_and!; [apply sublist_nil_l|apply not_elem_of_nil|done].
Qed.

Lemma upsert_user_upserted name pk gs ep label u :
  upserted (u_user_id u) ep gs [u] (upsert_user name pk gs (new_device ep label) u).
Proof.
  unfold upsert_user. case_decide; [|apply fresh_upserted; in_list].
  unfold upserted. rewrite !endpoints_one. simpl. rewrite app_nil_r. split_and!.
  - done.
  - in_list.
  - intros g ?. apply elem_of_fold_push_unique. by right.
  - intros g. rewrite elem_of_fold_push_unique, elem_of_app. tauto.
  - destruct (existsb _ _) eqn:He.
    + apply existsb_elem in He as (d & ? & ?%bool_decide_eq_true). eauto.
    + exists (new_device ep label). split; [|done]. in_list.
  - destruct (existsb _ _) eqn:He; [by left|right]. rewrite existsb_false in He.
    exists (d_endpoint_id <$> u_devices u). split_and!; [done| |by rewrite fmap_app].
    intros (d & -> & Hd)%list_elem_of_fmap. specialize (He d Hd).
    by rewrite bool_decide_true in He.
Qed.

(** The shape of a successful [upsert_member]: one entry of [uid], at the place of the
    old one or at the end. *)
Lemma upsert_shape r uid name pk gs ep label r' :
  doc_wf r -> upsert_member r uid name pk gs ep label = Ok r' ->
  exists l1 o l2 u', r_users r = l1 ++ o ++ l2 /\ r_users r' = l1 ++ u' :: l2 /\
    (forall u, u ∈ l1 ++ l2 -> u_user_id u <> uid) /\ upserted uid ep gs o u' /\
    r_groups r' = foldl push_unique (r_groups r) gs /\
    r_revoked_endpoints r' = r_revoked_endpoints r /\ r_sig r' = ""%string.
Proof.
  intros Hwf H. unfold upsert_member in H. case_match; [done|]. case_match; [done|].
  case_match; [done|]. case_match; [done|]. injection H as <-. simpl.
  destruct (find_first (has_user_id uid) (r_users r)) as [u|] eqn:Hf.
  - destruct (find_user_split _ _ _ Hwf Hf) as (<- & l1 & l2 & Hus & -> & Hother).
    eexists l1, [u], l2, _. split_and!; try done. apply upsert_user_upserted.
  - exists (r_users r), [], []. eexists. rewrite app_nil_r. split_and!; try done.
    + rewrite find_first_None, Forall_forall in Hf. intros u Hu H%has_user_id_true.
      rewrite app_nil_r in Hu. by rewrite Hf in H.
    + apply fresh_upserted. by intros ? ?%not_elem_of_nil.
Qed.

Lemma upsert_endpoints_nodup s a x b o ep :
  ep ∉ a -> ep ∉ b -> ep ∉ x -> x `sublist_of` o ->
  NoDup (omap (active_key s) (a ++ o ++ b)) ->
  NoDup (omap (active_key s) (a ++ (x ++ [ep]) ++ b)).
Proof.
  intros Ha Hb Hx Hs Hnd.
  assert (a ++ (x ++ [ep]) ++ b ≡ₚ ep :: (a ++ x ++ b)) as -> by solve_Permutation.
  apply active_nodup_cons; [in_list|]. eapply sublist_NoDup; [exact Hnd|].
  apply omap_sublist; [done|]. by repeat apply sublist_app.
Qed.

Lemma upsert_doc_wf r uid name pk gs ep label r' :
  doc_wf r -> decodes ep -> upsert_member r uid name pk gs ep label = Ok r' -> doc_wf r'.
Proof.
  intros Hwf Hep Hup.
  destruct (upsert_guards _ _ _ _ _ _ _ _ Hup) as (G1 & G2 & G3 & G4 & G5).
  destruct (upsert_shape _ _ _ _ _ _ _ _ Hwf Hup)
    as (l1 & o & l2 & u' & Hus & Hus' & Hother & Hu' & Hg & Hrv & _).
  destruct Hu' as (Hid & Ho & Hgs & Hgs' & _ & Heps).
  apply doc_wf_alt in Hwf as (Hnd & Hall & Hrev & Hdev & Hnde).
  assert (Hne : forall l : list RosterUser, l ⊆ r_users r -> (forall u, u ∈ l -> u_user_id u <> uid) ->
    ep ∉ endpoints l).
  { intros l Hl Hu (u & d & Hin & Hd & ->)%elem_of_endpoints.
    apply (Hu u Hin). by eapply G4; [apply Hl|..]. }
  apply doc_wf_alt. rewrite Hus', Hg, Hrv. rewrite Hus in Hnd, Hdev, Hnde.
  rewrite !endpoints_app in Hdev, Hnde.
  change (u' :: l2) with ([u'] ++ l2). rewrite !endpoints_app. split_and!.
  - rewrite !fmap_app in Hnd |- *. apply NoDup_app in Hnd as (N1 & Hd1 & N2).
    apply NoDup_app in N2 as (_ & _ & N2). simpl. rewrite Hid.
    assert (forall l : list RosterUser, (forall u, u ∈ l -> u_user_id u <> uid) -> uid ∉ u_user_id <$> l) as Hn.
    { intros l Hl (u & -> & Hin)%list_elem_of_fmap. by apply (Hl u). }
    apply NoDup_app. split_and!; [done| |apply NoDup_cons; split; [|done]].
    + intros i Hi. apply not_elem_of_cons. split.
      * intros ->. revert Hi. apply Hn. intros; apply Hother, elem_of_app. by left.
      * intros ?. apply (Hd1 i Hi), elem_of_app. by right.
    + apply Hn. intros; apply Hother, elem_of_app. by right.
  - intros u Hu. rewrite elem_of_app, elem_of_app, list_elem_of_singleton in Hu.
    assert (Hold : u ∈ l1 ++ l2 -> u_user_id u ∉ foldl push_unique (r_groups r) gs /\
      u_groups u ⊆ foldl push_unique (r_groups r) gs).
    { intros Hin. assert (u ∈ r_users r) as Hr by (rewrite Hus; in_list).
      destruct (Hall u Hr) as [Hd Hdg]. rewrite elem_of_fold_push_unique. split.
      - intros [?|?]; [done|]. by apply (G3 u); [|apply Hother|].
      - intros g ?%Hdg. apply elem_of_fold_push_unique. by left. }
    destruct Hu as [? | [-> | ?]]; [apply Hold; in_list| |apply Hold; in_list].
    rewrite Hid, elem_of_fold_push_unique. split; [tauto|].
    intros g Hin%Hgs'. apply elem_of_fold_push_unique.
    apply elem_of_app in Hin as [?|(u & Hug & Huo)%list_elem_of_bind]; [by right|left].
    apply (Hall u); [rewrite Hus; in_list|done].
  - done.
  - intros s Hs. destruct Heps as [Heq|(x & Hx & _ & Heq)]; rewrite Heq in Hs.
    + by apply Hdev.
    + rewrite !elem_of_app, list_elem_of_singleton in Hs.
      destruct Hs as [? | [[? | ->] | ?]]; [apply Hdev; in_list| |done|apply Hdev; in_list].
      apply Hdev. rewrite !elem_of_app. right; left. by eapply elem_of_sublist.
  - destruct Heps as [->|(x & Hx & Hnx & ->)]; [done|].
    eapply upsert_endpoints_nodup; try done; apply Hne; try (intros ??; apply Hother; in_list);
      intros u ?; rewrite Hus; in_list.
Qed.

(** C17: an upsert the guards let through gives a valid, unsigned document in which the
    new endpoint is alive: it resolves to the person, with at least the requested groups;
    every endpoint of everyone else resolves exactly as before, and no endpoint gets to
    be someone else's. *)
Theorem upsert_member_spec r uid name pk gs ep label r' k t :
  doc_wf r -> decode_endpoint_id ep = Ok k ->
  upsert_member r uid name pk gs ep label = Ok r' ->
  build_view r' t = Ok (view_of r' t) /\ r_sig r' = ""%string /\
  (exists rd, resolve (view_of r' t) k = Some rd /\ rd_user_id rd = uid /\
     gs ⊆ rd_groups rd) /\
  (forall k' rd', rd_user_id rd' <> uid ->
     resolve (view_of r' t) k' = Some rd' <-> resolve (view_of r t) k' = Some rd').
Proof.
  intros Hwf Hk Hup. assert (doc_wf r') as Hwf' by (by eapply upsert_doc_wf; [|exists k|]).
  destruct (upsert_guards _ _ _ _ _ _ _ _ Hup) as (_ & _ & _ & _ & G5).
  destruct (upsert_shape _ _ _ _ _ _ _ _ Hwf Hup)
    as (l1 & o & l2 & u' & Hus & Hus' & Hother & Hu' & _ & Hrv & Hsig).
  destruct Hu' as (Hid & Ho & Hgs & _ & (d & Hd & Hde) & _).
  assert (Hvr : v_revoked (view_of r' t) = v_revoked (view_of r t)) by (simpl; by rewrite Hrv).
  split_and!; [by apply build_view_Ok|done| |].
  - exists (resolved u' d). split_and!; [|done|done]. apply view_of_resolve; [done|].
    exists u', d. rewrite Hus', Hde, Hvr. split_and!; [in_list|done|done| |done].
    simpl. rewrite elem_of_revoked_set. intros (s & Hs & Hsk).
    by rewrite (decode_endpoint_id_inj _ _ _ Hsk Hk) in Hs.
  - intros k' rd' Hne. rewrite !view_of_resolve, Hvr, Hus, Hus' by done.
    split; intros (u & d' & Hu & ? & ? & ? & ->); exists u, d'; (split; [|done]); simpl in Hne.
    + apply elem_of_app in Hu as [? | [-> | ?]%elem_of_cons]; [in_list|done|in_list].
    + rewrite !elem_of_app in Hu. destruct Hu as [?|[?%Ho|?]]; [in_list|done|in_list].
Qed.
End properties.

(** ** Witnesses *)
Module Witness.
Import Toy Sample.

Definition other_device : string := encode_b64u (key_bytes (key_fill Byte.x44)).

(** The document after each mutation, and that the mutation succeeds. *)
Definition revoked_body : Roster :=
  match revoke_device body "alice" "laptop" with Ok r => r | Err _ => body end.
Definition removed_body : Roster :=
  match remove_user body "alice" true with Ok r => r | Err _ => body end.
Definition upserted_body : Roster :=
  match upsert_member body "bob" "Bob" "pkB" ["ops"%string] other_device "tablet" with
  | Ok r => r | Err _ => body end.

Lemma revoke_device_spec_witness : r_sig revoked_body = ""%string /\
  build_view revoked_body 5000 = Ok (view_of revoked_body 5000).
Proof.
  destruct (revoke_device_spec body "alice" "laptop" revoked_body 5000 body_wf
    ltac:(vm_compute; reflexivity)) as (H1 & H2 & _).
  split; [exact H2|exact H1].
Defined.

Lemma remove_user_spec_witness : is_revoked (view_of removed_body 5000) alice_ep = true.
Proof.
  destruct (remove_user_spec body "alice" true removed_body 5000 body_wf
    ltac:(vm_compute; reflexivity)) as (_ & _ & _ & H).
  apply (H {| u_user_id := "alice"; u_display_name := "Alice"; u_user_pk := "pkA";
              u_groups := ["eng"%string]; u_devices := [device Byte.x11 "laptop"] |}
           (device Byte.x11 "laptop")); vm_compute; try reflexivity; left.
Defined.

Lemma upsert_member_spec_witness : exists rd,
  resolve (view_of upserted_body 5000) (key_fill Byte.x44) = Some rd /\
  rd_user_id rd = "bob"%string /\ ["ops"%string] ⊆ rd_groups rd.
Proof.
  destruct (upsert_member_spec body "bob" "Bob" "pkB" ["ops"%string] other_device "tablet"
    upserted_body (key_fill Byte.x44) 5000 body_wf ltac:(vm_compute; reflexivity)
    ltac:(vm_compute; reflexivity)) as (_ & _ & H & _).
  exact H.
Defined.
End Witness.
