(* ===== verification/Identity.v ===== *)
(** * Identities, principals and the trust-gate interface

    [local-api/src/principals.rs] ([principal_set]) and [net/src/identity.rs]
    ([EndpointId], [PeerIdentity], the [TrustGate] trait and [StaticGate]). *)
From stdpp Require Import base list gmap strings.
From Stdlib Require Import ZArith Lia Strings.Byte.
From S2P Require Import Prelude Bytes Externals.

(** A device's public key. *)
Definition EndpointId : Type := key32.

Section principal.
Context `{T : TextEncoding}.

(** The device arm of the authorization namespace. *)
Definition principal (e : EndpointId) : string := "eid:" +:+ hexlower_encode (key_bytes e).

Lemma principal_inj `{!TextEncodingLaws T} : Inj (=) (=) principal.
Proof.
  intros a b H. unfold principal in H. simpl in H.
  apply (inj (String.append "eid:")) in H. apply (inj hexlower_encode) in H. by apply (inj key_bytes).
Qed.
End principal.

(** Groups, then the device principal and the user id, skipping the empty ones. *)
Definition principal_set (eid user_id : option string) (groups : list string) : gset string :=
  let set := list_to_set (filter (fun s => s <> ""%string) groups) in
  foldl (fun set v => if decide (v = ""%string) then set else {[v]} ∪ set)
    set (omap id [eid; user_id]).

Record PeerIdentity := {
  id_endpoint : EndpointId;
  id_name : string;
  id_user_id : option string;
  id_groups : list string }.

#[export] Instance PeerIdentity_eq_dec : EqDecision PeerIdentity.
Proof. solve_decision. Defined.

(** [PeerIdentity::nickname]: the endpoint is zero until a gate stamps it. *)
Definition nickname_identity (name : string) : PeerIdentity :=
  {| id_endpoint := key_fill Byte.x00; id_name := name; id_user_id := None; id_groups := [] |}.

(** The trait; a gate's answers at one instant. *)
Record TrustGate := {
  gate_resolve : EndpointId -> option PeerIdentity;
  gate_is_revoked : EndpointId -> bool;
  gate_should_sever_now : EndpointId -> option string -> bool;
  gate_roster_user : EndpointId -> option string }.

(** The trait's provided methods. *)
Definition default_gate (resolve : EndpointId -> option PeerIdentity) : TrustGate :=
  {| gate_resolve := resolve; gate_is_revoked _ := false;
     gate_should_sever_now _ _ := false; gate_roster_user _ := None |}.

Definition stamp (e : EndpointId) (i : PeerIdentity) : PeerIdentity :=
  {| id_endpoint := e; id_name := id_name i; id_user_id := id_user_id i;
     id_groups := id_groups i |}.

Definition StaticGate (entries : list (EndpointId * PeerIdentity)) : TrustGate :=
  let map := foldl (fun m e => <[e.1 := e.2]> m) (∅ : gmap EndpointId PeerIdentity) entries in
  default_gate (fun e => stamp e <$> map !! e).

(** What every trust policy owes the accept path: the identity it returns carries the
    endpoint that was asked about, and a revoked endpoint resolves to nothing. *)
Class GateLaws (g : TrustGate) := {
  gate_stamps e i : gate_resolve g e = Some i -> id_endpoint i = e;
  gate_revoked_denies e : gate_is_revoked g e = true -> gate_resolve g e = None;
  gate_revoked_severs e ru : gate_is_revoked g e = true -> ru = gate_roster_user g e ->
    gate_should_sever_now g e ru = true }.

#[export] Instance StaticGate_laws entries : GateLaws (StaticGate entries).
Proof.
  split; simpl; try done. intros e i. rewrite fmap_Some. by intros (x & _ & ->).
Qed.

Lemma elem_of_principal_set eid uid gs p :
  p ∈ principal_set eid uid gs <->
  p <> ""%string /\ (eid = Some p \/ uid = Some p \/ p ∈ gs).
Proof.
  assert (Hset : p ∈ (list_to_set (filter (fun s => s <> ""%string) gs) : gset string) <->
    p <> ""%string /\ p ∈ gs).
  { by rewrite elem_of_list_to_set, list_elem_of_filter. }
  unfold principal_set. destruct eid as [e|], uid as [u|]; simpl; repeat case_decide; subst;
    rewrite ?elem_of_union, ?elem_of_singleton, Hset; intuition congruence.
Qed.
