(* ===== verification/Limits.v ===== *)
(** * Rate limits

    [node/src/limits.rs]: the token bucket, the bounded map of per-endpoint buckets, the
    gate a session consults, and the daemon's bundle of limiters.  Token arithmetic is
    double precision ([Float64]); an [Instant] is its nanoseconds.  A limiter shared through
    an [Arc] is an index into [heap], so two sessions of one service spend the same tokens. *)
From stdpp Require Import base list gmap strings.
From Stdlib Require Import ZArith Lia Strings.Byte.
From S2P Require Import Prelude Bytes Float64 Identity.

Local Open Scope Z_scope.

Definition Instant : Type := Z.
Definition NANOS_PER_SEC : Z := 1000000000.

(** [Duration::as_secs_f64]. *)
Definition as_secs_f64 (nanos : Z) : f64 :=
  f64_add (f64_of_Z (nanos / NANOS_PER_SEC))
          (f64_div (f64_of_Z (nanos mod NANOS_PER_SEC)) (f64_of_Z NANOS_PER_SEC)).

(** [Instant::saturating_duration_since]. *)
Definition saturating_duration_since (now earlier : Instant) : Z := Z.max 0 (now - earlier).

(** ** The bucket *)
Record TokenBucket := {
  b_capacity : f64;
  b_refill_per_sec : f64;
  b_tokens : f64;
  b_last_refill : Instant }.

Definition new_bucket (capacity refill_per_sec : f64) (now : Instant) : TokenBucket :=
  {| b_capacity := capacity; b_refill_per_sec := refill_per_sec;
     b_tokens := capacity; b_last_refill := now |}.

(** The lazy refill that starts every take. *)
Definition refilled (b : TokenBucket) (now : Instant) : f64 :=
  let elapsed := as_secs_f64 (saturating_duration_since now (b_last_refill b)) in
  f64_min (f64_add (b_tokens b) (f64_mul elapsed (b_refill_per_sec b))) (b_capacity b).

Definition set_tokens (b : TokenBucket) (now : Instant) (tokens : f64) : TokenBucket :=
  {| b_capacity := b_capacity b; b_refill_per_sec := b_refill_per_sec b;
     b_tokens := tokens; b_last_refill := now |}.

Definition try_take_cost (b : TokenBucket) (now : Instant) (cost : f64) :
    result Z unit * TokenBucket :=
  let tokens := refilled b now in
  if f64_ge tokens cost then (Ok tt, set_tokens b now (f64_sub tokens cost))
  else
    let deficit := f64_sub cost tokens in
    let secs := if f64_gt (b_refill_per_sec b) (f64_of_Z 0)
                then f64_div deficit (b_refill_per_sec b) else f64_of_Z u32_max in
    (Err (f64_ceil_u64 (f64_mul secs (f64_of_Z 1000))), set_tokens b now tokens).

Definition try_take (b : TokenBucket) (now : Instant) : result Z unit * TokenBucket :=
  try_take_cost b now (f64_of_Z 1).

(** ** The map of buckets *)
Definition IDLE_TTL : Z := 600 * NANOS_PER_SEC.
Definition MAX_BUCKETS : nat := 4096.

Record Tracked := { bucket : TokenBucket; last_seen : Instant }.

Record RateLimiter := {
  rl_capacity : f64;
  rl_refill_per_sec : f64;
  rl_buckets : gmap EndpointId Tracked }.

Definition per_minute_f64 (per_min burst : f64) : RateLimiter :=
  {| rl_capacity := f64_max burst (f64_of_Z 1);
     rl_refill_per_sec := f64_div (f64_max per_min (f64_of_Z 1)) (f64_of_Z 60);
     rl_buckets := ∅ |}.

Definition per_minute (per_min burst : Z) : RateLimiter :=
  {| rl_capacity := f64_of_Z (Z.max burst 1);
     rl_refill_per_sec := f64_div (f64_of_Z (Z.max per_min 1)) (f64_of_Z 60);
     rl_buckets := ∅ |}.

Definition unlimited_shared : RateLimiter := per_minute u32_max u32_max.

(** The order in which a [HashMap] is iterated: any permutation of its entries. *)
Class HashOrder := {
  iter {K A} `{Countable K} : gmap K A -> list (K * A);
  iter_perm {K A} `{Countable K} (m : gmap K A) : Permutation (iter m) (map_to_list m) }.

(** [Iterator::min_by_key]: the first of the least. *)
Fixpoint min_by_key {A} (key : A -> Z) (l : list A) : option A :=
  match l with
  | [] => None
  | x :: l =>
      match min_by_key key l with
      | Some y => if key x <=? key y then Some x else Some y
      | None => Some x
      end
  end.

Section limiter.
Context `{H : HashOrder}.

Definition live (now : Instant) (t : Tracked) : bool :=
  saturating_duration_since now (last_seen t) <? IDLE_TTL.

Definition make_room (map : gmap EndpointId Tracked) (now : Instant) : gmap EndpointId Tracked :=
  let map := filter (fun kt => live now kt.2 = true) map in
  if (MAX_BUCKETS <=? size map)%nat then
    match min_by_key (fun kt => last_seen kt.2) (iter map) with
    | Some (oldest, _) => delete oldest map
    | None => map
    end
  else map.

Definition set_buckets (l : RateLimiter) (m : gmap EndpointId Tracked) : RateLimiter :=
  {| rl_capacity := rl_capacity l; rl_refill_per_sec := rl_refill_per_sec l; rl_buckets := m |}.

(** The endpoint's bucket, made if it has none; and the take. *)
Definition check_cost (endpoint : EndpointId) (now : Instant) (cost : f64) (l : RateLimiter) :
    result Z unit * RateLimiter :=
  let '(t, map) :=
    match rl_buckets l !! endpoint with
    | Some t => (t, rl_buckets l)
    | None =>
        ({| bucket := new_bucket (rl_capacity l) (rl_refill_per_sec l) now; last_seen := now |},
         make_room (rl_buckets l) now)
    end in
  let '(r, b) := try_take_cost (bucket t) now cost in
  (r, set_buckets l (<[endpoint := {| bucket := b; last_seen := now |}]> map)).

Definition check (endpoint : EndpointId) (now : Instant) (l : RateLimiter) :
    result Z unit * RateLimiter :=
  check_cost endpoint now (f64_of_Z 1) l.

(** [RateGate::admit_at]: without an endpoint nothing is limited. *)
Definition admit_at (endpoint : option EndpointId) (now : Instant) (l : RateLimiter) :
    result Z unit * RateLimiter :=
  match endpoint with Some eid => check eid now l | None => (Ok tt, l) end.

(** ** The bundle *)
Definition PAIR_ACCEPT_PER_MIN : Z := 30.
Definition BLOB_CONN_PER_MIN : Z := 60.
Definition PING_PER_MIN : Z := 60.
Definition MIN_BLOB_BYTES_PER_MIN : Z := 2 * 16 * 1024.
Definition MAX_TRACKED_SERVICES : nat := 256.

Record ServiceBucket := { sb_effective_rpm : option Z; sb_limiter : nat }.

Record MeshLimiters := {
  heap : list RateLimiter;
  requests : nat;
  global_rpm : option Z;
  services : gmap string ServiceBucket;
  pair_accept : TokenBucket;
  blob_bytes : option RateLimiter;
  blob_conn : RateLimiter;
  ping : RateLimiter;
  ping_refused : Z }.

Definition effective_rpm (m : MeshLimiters) (configured : option Z) : option Z :=
  (fun global => match configured with Some c => Z.min c global | None => global end)
    <$> global_rpm m.

Definition with_services (m : MeshLimiters) (h : list RateLimiter) (s : gmap string ServiceBucket) :
    MeshLimiters :=
  {| heap := h; requests := requests m; global_rpm := global_rpm m; services := s;
     pair_accept := pair_accept m; blob_bytes := blob_bytes m; blob_conn := blob_conn m;
     ping := ping m; ping_refused := ping_refused m |}.

Definition fresh_limiter (effective : option Z) : RateLimiter :=
  match effective with None => unlimited_shared | Some rpm => per_minute rpm rpm end.

Definition for_service (name : string) (configured : option Z) (m : MeshLimiters) :
    nat * MeshLimiters :=
  let effective := effective_rpm m configured in
  let replace :=
    let map := services m in
    let map :=
      if (MAX_TRACKED_SERVICES <=? size map)%nat && negb (bool_decide (is_Some (map !! name))) then
        match head (iter map) with Some (victim, _) => delete victim map | None => map end
      else map in
    let limiter := length (heap m) in
    (limiter,
     with_services m (heap m ++ [fresh_limiter effective])
       (<[name := {| sb_effective_rpm := effective; sb_limiter := limiter |}]> map)) in
  match services m !! name with
  | Some existing =>
      if decide (sb_effective_rpm existing = effective) then (sb_limiter existing, m) else replace
  | None => replace
  end.

Definition tracked_rpm (name : string) (m : MeshLimiters) : option (option Z) :=
  sb_effective_rpm <$> services m !! name.

Definition from_config (rate_limit_per_min blob_bytes_per_min : Z) (now : Instant) : MeshLimiters :=
  {| heap := [per_minute rate_limit_per_min rate_limit_per_min];
     requests := 0;
     global_rpm := Some rate_limit_per_min;
     services := ∅;
     pair_accept := new_bucket (f64_of_Z PAIR_ACCEPT_PER_MIN)
                      (f64_div (f64_of_Z PAIR_ACCEPT_PER_MIN) (f64_of_Z 60)) now;
     blob_bytes :=
       if 0 <? blob_bytes_per_min then
         let per_min := Z.max blob_bytes_per_min MIN_BLOB_BYTES_PER_MIN in
         Some (per_minute_f64 (f64_of_Z per_min) (f64_of_Z per_min))
       else None;
     blob_conn := per_minute BLOB_CONN_PER_MIN BLOB_CONN_PER_MIN;
     ping := per_minute PING_PER_MIN PING_PER_MIN;
     ping_refused := 0 |}.

Definition unlimited (now : Instant) : MeshLimiters :=
  {| heap := [unlimited_shared];
     requests := 0;
     global_rpm := None;
     services := ∅;
     pair_accept := new_bucket (f64_of_Z u32_max) (f64_of_Z u32_max) now;
     blob_bytes := None;
     blob_conn := unlimited_shared;
     ping := unlimited_shared;
     ping_refused := 0 |}.

Definition admit_pair_accept_at (now : Instant) (m : MeshLimiters) : bool * MeshLimiters :=
  let '(r, b) := try_take (pair_accept m) now in
  (is_ok r,
   {| heap := heap m; requests := requests m; global_rpm := global_rpm m; services := services m;
      pair_accept := b; blob_bytes := blob_bytes m; blob_conn := blob_conn m;
      ping := ping m; ping_refused := ping_refused m |}).

Definition admit_blob_bytes_at (endpoint : EndpointId) (bytes : Z) (now : Instant)
    (m : MeshLimiters) : bool * MeshLimiters :=
  match blob_bytes m with
  | Some l =>
      let '(r, l) := check_cost endpoint now (f64_of_Z bytes) l in
      (is_ok r,
       {| heap := heap m; requests := requests m; global_rpm := global_rpm m;
          services := services m; pair_accept := pair_accept m; blob_bytes := Some l;
          blob_conn := blob_conn m; ping := ping m; ping_refused := ping_refused m |})
  | None => (true, m)
  end.

Definition admit_ping_at (endpoint : EndpointId) (now : Instant) (m : MeshLimiters) :
    bool * MeshLimiters :=
  let '(r, l) := check endpoint now (ping m) in
  (is_ok r,
   {| heap := heap m; requests := requests m; global_rpm := global_rpm m;
      services := services m; pair_accept := pair_accept m; blob_bytes := blob_bytes m;
      blob_conn := blob_conn m; ping := l;
      ping_refused := if is_ok r then ping_refused m else (ping_refused m + 1) mod 2 ^ 64 |}).

Definition admit_blob_conn_at (endpoint : EndpointId) (now : Instant) (m : MeshLimiters) :
    bool * MeshLimiters :=
  let '(r, l) := check endpoint now (blob_conn m) in
  (is_ok r,
   {| heap := heap m; requests := requests m; global_rpm := global_rpm m;
      services := services m; pair_accept := pair_accept m; blob_bytes := blob_bytes m;
      blob_conn := l; ping := ping m; ping_refused := ping_refused m |}).
End limiter.

(** ** A burst at one instant *)
Definition int_bucket (k c : Z) (refill : f64) (now : Instant) : TokenBucket :=
  {| b_capacity := f64_of_Z c; b_refill_per_sec := refill; b_tokens := f64_of_Z k;
     b_last_refill := now |}.

Lemma refilled_now k c refill now :
  0 <= k <= c -> c < 2 ^ 53 -> finite_pos refill = true ->
  refilled (int_bucket k c refill now) now = f64_of_Z k.
Proof.
  intros Hk Hc Hr. unfold refilled, int_bucket, saturating_duration_since; simpl.
  rewrite Z.sub_diag. change (as_secs_f64 (Z.max 0 0)) with (S754_zero false).
  assert (Hz : f64_mul (S754_zero false) refill = S754_zero false).
  { by destruct refill as [[]| | |[] ? ?]. }
  rewrite Hz. assert (Ha : f64_add (f64_of_Z k) (S754_zero false) = f64_of_Z k).
  { destruct (Z.eq_dec k 0) as [->|]; [done|]. apply f64_add_zero_r. lia. }
  rewrite Ha, f64_min_int by lia. f_equal. lia.
Qed.

(** A take is a subtraction on integer tokens, and a refusal below one. *)
Lemma take_now k c refill now :
  0 <= k <= c -> c < 2 ^ 53 -> finite_pos refill = true ->
  exists e, try_take (int_bucket k c refill now) now =
    if 1 <=? k then (Ok tt, int_bucket (k - 1) c refill now)
    else (Err e, int_bucket k c refill now).
Proof.
  intros Hk Hc Hr. unfold try_take, try_take_cost. rewrite refilled_now, f64_ge_int by lia || done.
  destruct (Z.leb_spec 1 k) as [H1|H1]; [|by eexists].
  exists 0. rewrite f64_sub_int by lia. done.
Qed.

Section properties.
Context `{H : HashOrder}.

(** [n] requests of one endpoint at one instant. *)
Fixpoint checks (n : nat) (endpoint : EndpointId) (now : Instant) (l : RateLimiter) :
    list bool * RateLimiter :=
  match n with
  | O => ([], l)
  | S n =>
      let '(r, l) := check endpoint now l in
      let '(rs, l) := checks n endpoint now l in
      (is_ok r :: rs, l)
  end.

Lemma check_tracked endpoint now l t :
  rl_buckets l !! endpoint = Some t ->
  check endpoint now l =
    ((try_take (bucket t) now).1,
     set_buckets l (<[endpoint := {| bucket := (try_take (bucket t) now).2; last_seen := now |}]>
       (rl_buckets l))).
Proof.
  intros Ht. unfold check, check_cost, try_take. rewrite Ht.
  by destruct (try_take_cost (bucket t) now (f64_of_Z 1)).
Qed.

Lemma check_untracked endpoint now l :
  rl_buckets l !! endpoint = None ->
  let b := new_bucket (rl_capacity l) (rl_refill_per_sec l) now in
  check endpoint now l =
    ((try_take b now).1,
     set_buckets l (<[endpoint := {| bucket := (try_take b now).2; last_seen := now |}]>
       (make_room (rl_buckets l) now))).
Proof.
  intros Ht b. unfold check, check_cost, try_take. rewrite Ht.
  cbn [bucket]. fold b. by destruct (try_take_cost b now (f64_of_Z 1)).
Qed.

Definition grants (n k : nat) : list bool := replicate (n `min` k) true ++ replicate (n - k) false.

Lemma grants_S n k : grants (S n) (S k) = true :: grants n k.
Proof. done. Qed.
Lemma grants_0 n : grants n 0 = replicate n false.
Proof. unfold grants. by rewrite Nat.min_0_r, Nat.sub_0_r. Qed.

Lemma checks_tracked n endpoint now l k c refill :
  0 <= k <= c -> c < 2 ^ 53 -> finite_pos refill = true ->
  rl_buckets l !! endpoint = Some {| bucket := int_bucket k c refill now; last_seen := now |} ->
  (checks n endpoint now l).1 = grants n (Z.to_nat k).
Proof.
  intros Hk Hc Hr. revert k l Hk. induction n as [|n IH]; intros k l Hk Hl; [done|].
  simpl. rewrite (check_tracked _ _ _ _ Hl). cbn [bucket].
  destruct (take_now k c refill now Hk Hc Hr) as [e ->].
  destruct (Z.leb_spec 1 k) as [H1|H1]; cbn [fst snd].
  - replace (Z.to_nat k) with (S (Z.to_nat (k - 1))) by lia. rewrite grants_S.
    set (l' := set_buckets _ _). pose proof (IH (k - 1) l' ltac:(lia)) as Hi.
    destruct (checks n endpoint now l') as [rs l'']. simpl in *. f_equal. apply Hi.
    unfold l'; simpl. apply lookup_insert_eq.
  - replace k with 0 in * by lia. set (l' := set_buckets _ _).
    pose proof (IH 0 l' Hk) as Hi. change (Z.to_nat 0) with O. rewrite grants_0 in *.
    destruct (checks n endpoint now l') as [rs l'']. simpl in *. f_equal. apply Hi.
    unfold l'; simpl. apply lookup_insert_eq.
Qed.

(** A limiter of burst [n] admits exactly [n] requests (at least one) that an endpoint it
    does not track makes at one instant, and refuses every further one; each endpoint has
    the burst to itself, whatever the others used. *)
Lemma checks_grants n endpoint now rate burst buckets :
  0 <= rate <= u32_max -> 0 <= burst <= u32_max -> buckets !! endpoint = None ->
  (checks n endpoint now (set_buckets (per_minute rate burst) buckets)).1 =
    grants n (Z.to_nat (Z.max burst 1)).
Proof.
  unfold u32_max. intros Hrate Hburst Hb. destruct n as [|n]; [done|].
  set (l := set_buckets _ _). set (c := Z.max burst 1).
  set (refill := rl_refill_per_sec l).
  assert (Hr : finite_pos refill = true) by (apply f64_div_int; lia).
  assert (Hc : 0 <= c <= c /\ c < 2 ^ 53) by lia. simpl.
  rewrite (check_untracked endpoint now l Hb).
  change (new_bucket _ _ now) with (int_bucket c c refill now).
  destruct (take_now c c refill now (proj1 Hc) (proj2 Hc) Hr) as [e ->].
  rewrite (proj2 (Z.leb_le _ _)) by lia. cbn [fst snd].
  replace (Z.to_nat c) with (S (Z.to_nat (c - 1))) by lia. rewrite grants_S.
  set (l' := set_buckets _ _).
  pose proof (checks_tracked n endpoint now l' (c - 1) c refill ltac:(lia) (proj2 Hc) Hr) as Hi.
  destruct (checks n endpoint now l') as [rs l'']. simpl in *. f_equal. apply Hi.
  unfold l'; simpl. apply lookup_insert_eq.
Qed.

Lemma min_by_key_spec {A} (key : A -> Z) l :
  match min_by_key key l with
  | Some x => x ∈ l /\ forall y, y ∈ l -> key x <= key y
  | None => l = []
  end.
Proof.
  induction l as [|a l IH]; simpl; [done|].
  destruct (min_by_key key l) as [y|].
  - destruct IH as [Hy Hmin]. destruct (Z.leb_spec (key a) (key y)); split; try set_solver;
      intros z [->|Hz]%elem_of_cons; try specialize (Hmin z Hz); lia.
  - subst l. split; [set_solver|]. intros y ->%list_elem_of_singleton. lia.
Qed.

(** Making room forgets idle endpoints, then at most one: a least recently seen one. *)
Lemma make_room_spec map now :
  (size map <= MAX_BUCKETS)%nat ->
  (size (make_room map now) < MAX_BUCKETS)%nat /\
  forall k t, map !! k = Some t ->
    make_room map now !! k = Some t \/
    make_room map now !! k = None /\
      (live now t = false \/
       size map = MAX_BUCKETS /\ forall k' t', map !! k' = Some t' -> last_seen t <= last_seen t').
Proof.
  intros Hsize. unfold make_room. set (m := filter _ map).
  assert (Hm : forall k t, m !! k = Some t <-> map !! k = Some t /\ live now t = true)
    by (intros; apply map_lookup_filter_Some).
  assert (Hle : (size m <= size map)%nat) by (apply map_subseteq_size, map_filter_subseteq).
  destruct (Nat.leb_spec MAX_BUCKETS (size m)) as [Hfull|Hroom].
  - assert (Heq : m = map) by (apply map_subseteq_size_eq; [apply map_filter_subseteq|lia]).
    pose proof (min_by_key_spec (fun kt : EndpointId * Tracked => last_seen kt.2) (iter m)) as Hmin.
    destruct (min_by_key _ (iter m)) as [[old told]|].
    + destruct Hmin as [Hin Hmin]. rewrite iter_perm, elem_of_map_to_list in Hin. split.
      * rewrite map_size_delete_Some by eauto. unfold MAX_BUCKETS in *. lia.
      * intros k t Hk. destruct (decide (k = old)) as [->|Hne].
        -- right. rewrite lookup_delete_eq. split; [done|]. right. split; [lia|]. intros k' t' Hk'.
           rewrite Heq in *. assert (t = told) as -> by congruence. apply (Hmin (k', t')).
           rewrite iter_perm. by apply elem_of_map_to_list.
        -- left. rewrite lookup_delete_ne by done. by rewrite Heq.
    + exfalso. pose proof (Permutation_length (iter_perm m)) as Hlen.
      rewrite Hmin, length_map_to_list in Hlen. unfold MAX_BUCKETS in *. simpl in Hlen. lia.
  - split; [done|]. intros k t Hk. destruct (live now t) eqn:Hl; [left; by apply Hm|].
    right. split; [|by left]. apply eq_None_not_Some. intros [t' [Ht' Hl']%Hm]. congruence.
Qed.

(** The answer depends on the endpoint's own bucket only (a full one when it has none);
    the map never holds more than the cap; and another endpoint's bucket is unchanged, or was
    forgotten because it had been idle for the whole period or was a least recently seen one
    of a full map. *)
Theorem check_spec endpoint now cost l r l' :
  (size (rl_buckets l) <= MAX_BUCKETS)%nat ->
  check_cost endpoint now cost l = (r, l') ->
  r = (try_take_cost (match rl_buckets l !! endpoint with
                      | Some t => bucket t
                      | None => new_bucket (rl_capacity l) (rl_refill_per_sec l) now
                      end) now cost).1 /\
  (size (rl_buckets l') <= MAX_BUCKETS)%nat /\
  is_Some (rl_buckets l' !! endpoint) /\
  forall e t, e <> endpoint -> rl_buckets l !! e = Some t ->
    rl_buckets l' !! e = Some t \/
    rl_buckets l !! endpoint = None /\ rl_buckets l' !! e = None /\
      (live now t = false \/
       size (rl_buckets l) = MAX_BUCKETS /\
       forall e' t', rl_buckets l !! e' = Some t' -> last_seen t <= last_seen t').
Proof.
  intros Hsize. unfold check_cost. pose proof (make_room_spec (rl_buckets l) now Hsize) as [Hr Hkeep].
  destruct (rl_buckets l !! endpoint) as [t0|] eqn:Ht; cbn [bucket];
    destruct (try_take_cost _ _ _) as [r0 b]; intros [= <- <-]; simpl; (split; [done|]).
  - split_and!.
    + rewrite map_size_insert_Some by eauto. done.
    + rewrite lookup_insert_eq. eauto.
    + intros e t He Hl. left. by rewrite lookup_insert_ne.
  - split_and!.
    + pose proof (map_size_insert endpoint {| bucket := b; last_seen := now |}
        (make_room (rl_buckets l) now)) as Hs.
      destruct (make_room (rl_buckets l) now !! endpoint); simpl in Hs; lia.
    + rewrite lookup_insert_eq. eauto.
    + intros e t He Hl. rewrite lookup_insert_ne by done.
      destruct (Hkeep e t Hl) as [?|[? ?]]; tauto.
Qed.

(** ** Per-service limiters *)

(** Two limiters differ at most in what their endpoints have spent. *)
Definition same_rates (a b : RateLimiter) : Prop :=
  rl_capacity a = rl_capacity b /\ rl_refill_per_sec a = rl_refill_per_sec b.

(** Every tracked service has a limiter of its own, at the rate recorded for it, which is
    not above the global one. *)
Record limiters_wf (m : MeshLimiters) : Prop := {
  wf_size : (size (services m) <= MAX_TRACKED_SERVICES)%nat;
  wf_limiter name b : services m !! name = Some b ->
    exists l, heap m !! sb_limiter b = Some l /\ same_rates l (fresh_limiter (sb_effective_rpm b));
  wf_ceiling name b : services m !! name = Some b ->
    match global_rpm m, sb_effective_rpm b with
    | Some g, Some e => e <= g
    | None, None => True
    | _, _ => False
    end;
  wf_distinct n1 n2 b1 b2 : services m !! n1 = Some b1 -> services m !! n2 = Some b2 ->
    sb_limiter b1 = sb_limiter b2 -> n1 = n2 }.

Lemma effective_ceiling m configured :
  match global_rpm m, effective_rpm m configured with
  | Some g, Some e => e <= g
  | None, None => True
  | _, _ => False
  end.
Proof. unfold effective_rpm. destruct (global_rpm m); simpl; [|done]. destruct configured; lia. Qed.

Lemma replace_wf m name e l kept :
  limiters_wf m -> kept ⊆ services m -> (size (<[name := {| sb_effective_rpm := e;
    sb_limiter := length (heap m) |}]> kept) <= MAX_TRACKED_SERVICES)%nat ->
  same_rates l (fresh_limiter e) ->
  match global_rpm m, e with Some g, Some e => e <= g | None, None => True | _, _ => False end ->
  limiters_wf (with_services m (heap m ++ [l])
    (<[name := {| sb_effective_rpm := e; sb_limiter := length (heap m) |}]> kept)).
Proof.
  intros Hwf Hsub Hsize Hl Hceil.
  assert (Hold : forall n b, kept !! n = Some b -> services m !! n = Some b /\
    (sb_limiter b < length (heap m))%nat).
  { intros n b Hb. assert (Hs : services m !! n = Some b) by by eapply lookup_weaken.
    split; [done|]. destruct (wf_limiter _ Hwf n b Hs) as (l' & Hl' & _). by eapply lookup_lt_Some. }
  split; cbn [services heap global_rpm with_services].
  - done.
  - intros n b [[<- <-]|[Hn Hb]]%lookup_insert_Some; simpl.
    + exists l. split; [|done]. by apply list_lookup_middle.
    + apply Hold in Hb as [Hb Hlt]. destruct (wf_limiter _ Hwf n b Hb) as (l' & Hl' & Hr).
      exists l'. split; [|done]. by rewrite lookup_app_l.
  - intros n b [[<- <-]|[Hn Hb]]%lookup_insert_Some; simpl; [done|].
    apply Hold in Hb as [Hb _]. by eapply wf_ceiling.
  - intros n1 n2 b1 b2 [[<- <-]|[H1 Hb1]]%lookup_insert_Some [[<- <-]|[H2 Hb2]]%lookup_insert_Some;
      simpl; try done.
    + apply Hold in Hb2 as [_ ?]. lia.
    + apply Hold in Hb1 as [_ ?]. lia.
    + apply Hold in Hb1 as [? _]. apply Hold in Hb2 as [? _]. by eapply wf_distinct.
Qed.

(** The entries kept when a service is added, and that the new entry still fits. *)
Definition kept_services (name : string) (m : MeshLimiters) : gmap string ServiceBucket :=
  if (MAX_TRACKED_SERVICES <=? size (services m))%nat &&
     negb (bool_decide (is_Some (services m !! name))) then
    match head (iter (services m)) with
    | Some (victim, _) => delete victim (services m)
    | None => services m
    end
  else services m.

Lemma kept_services_spec name m e limiter :
  limiters_wf m ->
  kept_services name m ⊆ services m /\
  (size (<[name := {| sb_effective_rpm := e; sb_limiter := limiter |}]> (kept_services name m))
    <= MAX_TRACKED_SERVICES)%nat.
Proof.
  intros Hwf. pose proof (wf_size _ Hwf) as Hs. unfold kept_services.
  destruct (Nat.leb_spec MAX_TRACKED_SERVICES (size (services m))) as [Hfull|Hroom]; simpl.
  - case_bool_decide as Hin; simpl.
    + split; [done|]. rewrite map_size_insert_Some by done. done.
    + pose proof (Permutation_length (iter_perm (services m))) as Hlen.
      rewrite length_map_to_list in Hlen.
      assert (Hv : forall v b, head (iter (services m)) = Some (v, b) -> is_Some (services m !! v)).
      { intros v b Hh. exists b. apply elem_of_map_to_list. rewrite <- iter_perm.
        by apply head_Some_elem_of. }
      destruct (iter (services m)) as [|[v b] rest]; simpl in *; [unfold MAX_TRACKED_SERVICES in *; lia|].
      split; [apply delete_subseteq|]. rewrite map_size_insert_None.
      * rewrite map_size_delete_Some by eauto. lia.
      * rewrite lookup_delete_None. right. by apply eq_None_not_Some.
  - split; [done|]. pose proof (map_size_insert name {| sb_effective_rpm := e;
      sb_limiter := limiter |} (services m)) as Hi. destruct (services m !! name); simpl in Hi; lia.
Qed.

(** Asking for a service's limiter keeps the invariant and gives a limiter at the
    effective rate, which no configuration lifts above the global one; no limiter in use is
    touched, so a reload that does not change a service's rate returns the very limiter it
    had, spent tokens included; a changed rate gets a new one. *)
Theorem for_service_spec name configured m i m' :
  limiters_wf m -> for_service name configured m = (i, m') ->
  limiters_wf m' /\
  tracked_rpm name m' = Some (effective_rpm m configured) /\
  (exists l, heap m' !! i = Some l /\ same_rates l (fresh_limiter (effective_rpm m configured))) /\
  heap m `prefix_of` heap m' /\
  (tracked_rpm name m = Some (effective_rpm m configured) ->
    m' = m /\ sb_limiter <$> services m !! name = Some i) /\
  (tracked_rpm name m <> Some (effective_rpm m configured) ->
    heap m !! i = None /\ heap m' !! i = Some (fresh_limiter (effective_rpm m configured))).
Proof.
  intros Hwf. unfold for_service, tracked_rpm. set (e := effective_rpm m configured).
  fold (kept_services name m). set (kept := kept_services name m).
  pose proof (kept_services_spec name m e (length (heap m)) Hwf) as Hkept.
  assert (Hnew : (length (heap m), with_services m (heap m ++ [fresh_limiter e])
      (<[name := {| sb_effective_rpm := e; sb_limiter := length (heap m) |}]> kept)) = (i, m') ->
    limiters_wf m' /\ sb_effective_rpm <$> services m' !! name = Some e /\
    (exists l, heap m' !! i = Some l /\ same_rates l (fresh_limiter e)) /\
    heap m `prefix_of` heap m' /\ heap m !! i = None /\ heap m' !! i = Some (fresh_limiter e)).
  { intros [= <- <-]. split_and!.
    - apply replace_wf; try done; [apply Hkept..|apply effective_ceiling].
    - simpl. by rewrite lookup_insert_eq.
    - exists (fresh_limiter e). split; [by apply list_lookup_middle|done].
    - by eexists.
    - by apply lookup_ge_None.
    - by apply list_lookup_middle. }
  destruct (services m !! name) as [b|] eqn:Hb; simpl.
  - case_decide as Hd.
    + intros [= <- <-]. destruct (wf_limiter _ Hwf name b Hb) as (l & Hl & Hr).
      rewrite Hb. simpl. rewrite Hd in *. split_and!; try done; by eauto.
    + intros (? & ? & ? & ? & ? & ?)%Hnew. split_and!; try done. congruence.
  - intros (? & ? & ? & ? & ? & ?)%Hnew. split_and!; done.
Qed.
End properties.

Module Witness.
#[export] Instance hash_order : HashOrder.
Proof. refine {| iter K A _ _ m := map_to_list m |}. done. Defined.

Definition alice : EndpointId := key_fill Byte.x01.
Definition bob : EndpointId := key_fill Byte.x02.

(** Three requests against a burst of two, with another endpoint already tracked. *)
Lemma burst_of_two :
  (checks 3 alice 5%Z (set_buckets (per_minute 60 2)
    {[bob := {| bucket := int_bucket 0 2 (f64_of_Z 1) 5; last_seen := 5 |}]})).1 =
    [true; true; false].
Proof.
  apply (checks_grants 3 alice 5%Z 60 2); [unfold u32_max; lia..|].
  apply lookup_singleton_None. done.
Qed.

Lemma no_buckets rate burst : (size (rl_buckets (per_minute rate burst)) <= MAX_BUCKETS)%nat.
Proof. simpl. rewrite map_size_empty. unfold MAX_BUCKETS. lia. Qed.

Lemma check_spec_witness :
  let l := per_minute 60 2 in
  (check_cost alice 5%Z (f64_of_Z 1) l).1 = Ok tt /\
  (size (rl_buckets (check_cost alice 5%Z (f64_of_Z 1) l).2) <= MAX_BUCKETS)%nat.
Proof.
  intros l.
  destruct (check_spec alice 5%Z (f64_of_Z 1) l _ _ (no_buckets 60 2)
    (surjective_pairing _)) as (Hr & Hs & _).
  split; [rewrite Hr; vm_compute; reflexivity|exact Hs].
Defined.

Lemma limiters_wf_start : limiters_wf (from_config 120 0 0).
Proof. split; simpl; [unfold MAX_TRACKED_SERVICES; rewrite map_size_empty; lia|done..]. Qed.

(** A service that asks for more than the ceiling gets the ceiling. *)
Lemma for_service_spec_witness :
  limiters_wf (for_service "notes" (Some 500) (from_config 120 0 0)).2 /\
  tracked_rpm "notes" (for_service "notes" (Some 500) (from_config 120 0 0)).2 = Some (Some 120).
Proof.
  destruct (for_service_spec "notes" (Some 500) (from_config 120 0 0) _ _ limiters_wf_start
    (surjective_pairing _)) as (Hwf & Ht & _).
  split; [exact Hwf|exact Ht].
Defined.
End Witness.
