(* ===== verification/Sorting.v ===== *)
(** * Sorting: [slice::sort_by_key]

    The standard library's stable sort by a key, as insertion; used where the source sorts
    candidates, with the lemmas that say what order comes out. *)
From stdpp Require Import base list sets sorting.
From Stdlib Require Import ZArith Lia.
From S2P Require Import Prelude.

Section sort.
Context {A : Type} (key : A -> Z).

(** Before the first element of a greater key; after its equals. *)
Fixpoint insert_by_key (x : A) (l : list A) : list A :=
  match l with
  | [] => [x]
  | y :: l' => if (key y <=? key x)%Z then y :: insert_by_key x l' else x :: l
  end.

Definition sort_by_key (l : list A) : list A := foldl (fun acc x => insert_by_key x acc) [] l.

Definition key_le (a b : A) : Prop := (key a <= key b)%Z.

Lemma insert_by_key_perm x l : Permutation (insert_by_key x l) (x :: l).
Proof.
  induction l as [|y l IH]; simpl; [done|]. destruct (_ <=? _)%Z; [|done].
  rewrite IH. constructor.
Qed.

Lemma sort_by_key_perm l : Permutation (sort_by_key l) l.
Proof.
  unfold sort_by_key. assert (H : forall acc, Permutation (foldl (fun acc x => insert_by_key x acc) acc l) (acc ++ l)); [|by rewrite H].
  induction l as [|x l IH]; intros acc; simpl; [by rewrite app_nil_r|].
  rewrite IH, insert_by_key_perm. simpl. by rewrite Permutation_middle.
Qed.

Lemma elem_of_sort_by_key x l : x ∈ sort_by_key l <-> x ∈ l.
Proof. by rewrite sort_by_key_perm. Qed.

Lemma insert_by_key_sorted x l : StronglySorted key_le l -> StronglySorted key_le (insert_by_key x l).
Proof.
  unfold key_le. induction 1 as [|y l Hs IH Hall]; simpl; [by repeat constructor|].
  destruct (Z.leb_spec (key y) (key x)).
  - constructor; [done|]. rewrite insert_by_key_perm. by constructor.
  - constructor; [by constructor|]. constructor; [lia|]. eapply Forall_impl; [exact Hall|]. simpl. lia.
Qed.

Lemma sort_by_key_sorted l : StronglySorted key_le (sort_by_key l).
Proof.
  unfold sort_by_key. assert (H : forall acc, StronglySorted key_le acc ->
    StronglySorted key_le (foldl (fun acc x => insert_by_key x acc) acc l)); [|apply H; constructor].
  induction l as [|x l IH]; intros acc Hs; simpl; [done|]. by apply IH, insert_by_key_sorted.
Qed.

(** Equals keep the order they came in. *)
Lemma insert_by_key_filter k x l :
  StronglySorted key_le l ->
  filter (fun y => key y = k) (insert_by_key x l) = filter (fun y => key y = k) (l ++ [x]).
Proof.
  induction 1 as [|y l Hs IH Hall]; simpl; [done|]. destruct (Z.leb_spec (key y) (key x)).
  - rewrite !(filter_cons _ y). case_decide; [f_equal|]; done.
  - change (y :: l ++ [x]) with ((y :: l) ++ [x]). rewrite filter_app. destruct (decide (key x = k)) as [Hx|Hx].
    + assert (Hf : filter (fun z => key z = k) (y :: l) = []).
      { destruct (filter (fun z => key z = k) (y :: l)) as [|z l'] eqn:Hf; [done|]. exfalso.
        assert (Hz : z ∈ filter (fun z => key z = k) (y :: l)) by (rewrite Hf; apply list_elem_of_here).
        apply list_elem_of_filter in Hz as [Hk Hz]. apply elem_of_cons in Hz as [->|Hz]; [lia|].
        rewrite Forall_forall in Hall. specialize (Hall z Hz). unfold key_le in Hall. lia. }
      rewrite (filter_cons_True _ x (y :: l)), Hf, filter_cons_True by done. done.
    + rewrite (filter_cons_False _ x (y :: l)), (filter_cons_False _ x []) by done. by rewrite filter_nil, app_nil_r.
Qed.

Lemma sort_by_key_stable k l : filter (fun y => key y = k) (sort_by_key l) = filter (fun y => key y = k) l.
Proof.
  induction l as [|x l IH] using rev_ind; [done|]. unfold sort_by_key in *. rewrite foldl_app. simpl.
  rewrite insert_by_key_filter by apply sort_by_key_sorted. by rewrite !filter_app, IH.
Qed.
End sort.

(** A key that occurs once still does among the elements a test keeps. *)
Lemma nodup_fmap_keep {A B} (f : A -> B) (test : A -> bool) l : NoDup (f <$> l) -> NoDup (f <$> List.filter test l).
Proof.
  induction l as [|x l IH]; simpl; [done|]. intros [Hn Hnd]%NoDup_cons. specialize (IH Hnd).
  destruct (test x); simpl; [|done]. constructor; [|done].
  intros (y & Hy & Hl)%list_elem_of_fmap. apply Hn, list_elem_of_fmap. exists y.
  split; [done|]. by apply list_elem_of_In, filter_In, proj1, list_elem_of_In in Hl.
Qed.

Lemma StronglySorted_nth {A} (R : A -> A -> Prop) l i j a b :
  StronglySorted R l -> l !! i = Some a -> l !! j = Some b -> i < j -> R a b.
Proof.
  intros Hs. revert i j. induction Hs as [|x l Hs IH Hall]; intros i j Hi Hj Hij; [done|].
  destruct j as [|j]; [lia|]. destruct i as [|i]; simpl in *; [|apply (IH i j); [done..|lia]].
  injection Hi as <-. rewrite Forall_forall in Hall. by apply Hall, (list_elem_of_lookup_2 _ j).
Qed.
