(* ===== verification/Presence.v ===== *)
(** * Presence: heartbeats and the advisory table

    [node/src/roster/presence.rs]: the signed beat, its checks, the table of the freshest
    beat per device, the publish and track loops as one step per beat, and the gossip topics
    of [node/src/roster/transport.rs].  The serde encoding of a beat is a parameter, the
    clock and the random word of the jitter are arguments. *)
From stdpp Require Import base list gmap strings sorting.
From Stdlib Require Import ZArith Lia Strings.Byte.
From S2P Require Import Prelude Bytes Json Externals Schema Sign Validate Identity Limits Sorting.

Local Open Scope Z_scope.

Definition PRESENCE_DOMAIN : string := "mcpmesh/presence/1".
Definition APP_METADATA_MAX_BYTES : Z := 256.
Definition PRESENCE_SKEW_SECS : Z := 120.
Definition PRESENCE_TTL_SECS : Z := 180.
Definition PRESENCE_PERIOD_SECS : Z := 60.
Definition PRESENCE_JITTER_SECS : Z := 15.

Record Presence := {
  pr_t : string;
  pr_endpoint_id : string;
  pr_user_id : string;
  pr_ts : Z;
  pr_roster_serial : Z;
  pr_meta : string;
  pr_sig : string }.

Record PresenceEntry := { en_user_id : string; en_ts : Z; en_meta : string }.

(** What serde derives for [Presence]. *)
Class PresenceCodec := {
  presence_to_vec : Presence -> bytes;
  presence_from_slice : bytes -> option Presence }.
Definition beat_wf (p : Presence) : Prop := in_i64 (pr_ts p) /\ 0 <= pr_roster_serial p <= u64_max.
Class PresenceCodecLaws (C : PresenceCodec) := {
  presence_from_to p : beat_wf p -> presence_from_slice (presence_to_vec p) = Some p;
  presence_from_wf b p : presence_from_slice b = Some p -> beat_wf p }.

Definition preimage (endpoint_id : key32) (user_id : string) (ts serial : Z) (meta : string) : bytes :=
  as_bytes PRESENCE_DOMAIN ++ key_bytes endpoint_id ++ as_bytes user_id ++ to_le_bytes 8 ts ++ to_le_bytes 8 serial ++
  (if decide (meta = ""%string) then [] else as_bytes meta).

(** ** Beats *)
Section beat.
Context `{E : Ed25519, T : TextEncoding}.

Definition signed (device_key : SigningKey) (endpoint_id : key32) (user_id : string) (ts serial : Z) (meta : string) : Presence :=
  let sig := ed_sign device_key (preimage endpoint_id user_id ts serial meta) in
  {| pr_t := "presence"; pr_endpoint_id := encode_b64u (key_bytes endpoint_id); pr_user_id := user_id; pr_ts := ts;
     pr_roster_serial := serial; pr_meta := meta; pr_sig := encode_b64u (sig_to_bytes sig) |}.

Definition verify (p : Presence) (now : Z) : option key32 :=
  if negb (bool_decide (pr_t p = "presence"%string))
     || (PRESENCE_SKEW_SECS <=? i64_saturating_abs (i64_saturating_sub now (pr_ts p)))
     || (APP_METADATA_MAX_BYTES <? Z.of_nat (String.length (pr_meta p)))
  then None
  else
    eid ← ok (decode_endpoint_id (pr_endpoint_id p));
    vk ← vk_from_bytes eid;
    b ← ok (decode_b64u (pr_sig p));
    sig ← sig_from_slice b;
    if verify_strict vk (preimage eid (pr_user_id p) (pr_ts p) (pr_roster_serial p) (pr_meta p)) sig
    then Some eid else None.

Definition accept (p : Presence) (now : Z) (view : RosterView) : option key32 :=
  eid ← verify p now;
  resolved ← Validate.resolve view eid;
  if decide (rd_user_id resolved = pr_user_id p) then Some eid else None.
End beat.

(** ** The table *)
Abbreviation PresenceTable := (gmap key32 PresenceEntry).

Definition record (eid : key32) (user_id : string) (ts : Z) (meta : string) (table : PresenceTable) : PresenceTable :=
  let fresh := <[eid := {| en_user_id := user_id; en_ts := ts; en_meta := meta |}]> table in
  match table !! eid with
  | Some e => if ts <=? en_ts e then table else fresh
  | None => fresh
  end.

Section table.
Context `{H : HashOrder}.

Definition active (now : Z) (table : PresenceTable) : list (key32 * PresenceEntry) :=
  List.filter (fun kv => i64_sub now (en_ts kv.2) <? PRESENCE_TTL_SECS) (iter table).

(** [Reverse(ts)] negates the key. *)
Definition endpoints_for_user_by_recency (user_id : string) (table : PresenceTable) : list key32 :=
  fst <$> sort_by_key (fun kv => - en_ts kv.2)
            (List.filter (fun kv => bool_decide (en_user_id kv.2 = user_id)) (iter table)).
End table.

(** ** The topic and the loops *)
Record RosterGossip (S R : Type) := { gossip_sender : S; gossip_receiver : option R }.
Arguments gossip_sender {S R}.
Arguments gossip_receiver {S R}.

Definition topic_sender {S R} (topic : option (RosterGossip S R)) : option S := gossip_sender <$> topic.

(** The receiver leaves once; the sender stays. *)
Definition take_receiver {S R} (topic : option (RosterGossip S R)) : option R * option (RosterGossip S R) :=
  match topic with
  | None => (None, None)
  | Some g => (gossip_receiver g, Some {| gossip_sender := gossip_sender g; gossip_receiver := None |})
  end.

Definition roster_topic_bytes `{Blake3} (org_id : string) : key32 := blake3 (as_bytes ("mcpmesh/roster/" +:+ org_id)).
Definition presence_topic_bytes `{Blake3} (org_id : string) : key32 := blake3 (as_bytes ("mcpmesh/presence/" +:+ org_id)).

Section loops.
Context `{E : Ed25519, T : TextEncoding, C : PresenceCodec}.

(** One turn of the publish loop: the payload broadcast. *)
Definition publish_beat (device_key : SigningKey) (user_id app_metadata : string) (view : option RosterView) (now : Z) : bytes :=
  presence_to_vec (signed device_key (vk_to_bytes (verifying_key device_key)) user_id now
                     (default 0 (v_serial <$> view)) app_metadata).

(** One turn of the track loop, on a payload of the topic. *)
Definition track_step (now : Z) (view : option RosterView) (content : bytes) (table : PresenceTable) : PresenceTable :=
  match presence_from_slice content, view with
  | Some p, Some view =>
      match accept p now view with
      | Some eid => record eid (pr_user_id p) (pr_ts p) (pr_meta p) table
      | None => table
      end
  | _, _ => table
  end.

(** A turn's clock reading, the view it found and the payload it received. *)
Definition Received : Type := Z * option RosterView * bytes.
Definition track (events : list Received) (table : PresenceTable) : PresenceTable :=
  foldl (fun table ev => let '(now, view, content) := ev in track_step now view content table) table events.
End loops.

(** Four random bytes as a word, reduced modulo the span. *)
Definition next_beat_secs (random : Z) : Z :=
  Z.max 1 (PRESENCE_PERIOD_SECS + (random mod (2 * PRESENCE_JITTER_SECS + 1) - PRESENCE_JITTER_SECS)).

(** ** Properties *)
Section properties.
Context `{E : Ed25519, T : TextEncoding, C : PresenceCodec}.
Context `{EL : !Ed25519Laws E, TL : !TextEncodingLaws T, CL : !PresenceCodecLaws C}.

(** What a verified beat is: fresh, small, and signed by the endpoint it names over exactly
    its fields. *)
Lemma verify_spec p now eid :
  verify p now = Some eid <->
  pr_t p = "presence"%string /\ i64_saturating_abs (i64_saturating_sub now (pr_ts p)) < PRESENCE_SKEW_SECS /\
  Z.of_nat (String.length (pr_meta p)) <= APP_METADATA_MAX_BYTES /\
  pr_endpoint_id p = encode_b64u (key_bytes eid) /\
  exists vk sig, vk_from_bytes eid = Some vk /\ decode_b64u (pr_sig p) = Ok sig /\ length sig = 64%nat /\
    verify_strict vk (preimage eid (pr_user_id p) (pr_ts p) (pr_roster_serial p) (pr_meta p)) (sig_from_bytes sig) = true.
Proof.
  unfold verify. destruct (negb _ || _ || _) eqn:Hg.
  - split; [done|]. intros (Ht & Hs & Hm & _). rewrite bool_decide_true in Hg by done. simpl in Hg.
    apply orb_true_iff in Hg as [?%Z.leb_le|?%Z.ltb_lt]; lia.
  - apply orb_false_iff in Hg as [[Ht%negb_false_iff%bool_decide_eq_true Hs%Z.leb_gt]%orb_false_iff Hm%Z.ltb_ge].
    split.
    + intros (e & He & H)%bind_Some. apply bind_Some in H as (vk & Hvk & H). apply bind_Some in H as (b & Hb & H).
      apply bind_Some in H as (sig & Hsig & H). destruct (verify_strict _ _ _) eqn:Hv; [|done]. injection H as ->.
      destruct (decode_endpoint_id _) as [e'|] eqn:Hd; [|done]. injection He as ->. apply decode_endpoint_id_Ok in Hd.
      destruct (decode_b64u (pr_sig p)) as [b'|] eqn:Hb'; [|done]. injection Hb as ->.
      rewrite sig_from_slice_spec in Hsig. destruct (Nat.eqb_spec (length b) 64); [|done]. injection Hsig as <-.
      split_and!; try done. by exists vk, b.
    + intros (_ & _ & _ & He & vk & sig & Hvk & Hsig & Hl & Hv). rewrite (proj2 (decode_endpoint_id_Ok _ eid) He). simpl.
      rewrite Hvk, Hsig. simpl. rewrite sig_from_slice_spec, Hl. simpl. by rewrite Hv.
Qed.

Lemma accept_spec p now view eid :
  accept p now view = Some eid <->
  verify p now = Some eid /\ exists rd, Validate.resolve view eid = Some rd /\ rd_user_id rd = pr_user_id p.
Proof.
  unfold accept. split.
  - intros (e & Hv & H)%bind_Some. apply bind_Some in H as (rd & Hr & H). case_decide as Hu; [|done].
    injection H as ->. split; [done|]. by exists rd.
  - intros (Hv & rd & Hr & Hu). rewrite Hv. simpl. rewrite Hr. simpl. by rewrite decide_True.
Qed.

(** The signed bytes determine every field once the user is known, as the roster fixes it. *)
Lemma preimage_inj eid user ts serial meta eid' ts' serial' meta' :
  in_i64 ts -> in_i64 ts' -> 0 <= serial <= u64_max -> 0 <= serial' <= u64_max ->
  preimage eid user ts serial meta = preimage eid' user ts' serial' meta' ->
  eid = eid' /\ ts = ts' /\ serial = serial' /\ meta = meta'.
Proof.
  unfold preimage, u64_max. intros Ht Ht' Hs Hs' H%app_inv_head.
  apply app_inj_l_len in H as [He H]; [|by rewrite !key_bytes_length]. apply app_inv_head in H.
  apply app_inj_l_len in H as [Hts H]; [|by rewrite !length_to_le_bytes].
  apply app_inj_l_len in H as [Hse H]; [|by rewrite !length_to_le_bytes].
  split_and!; [by apply (inj key_bytes)|by apply to_le_bytes_inj_i64|apply (to_le_bytes_inj 8); [change (256 ^ Z.of_nat 8) with (2 ^ 64); lia..|done]|].
  assert (Hm : forall m : string, (if decide (m = ""%string) then [] else as_bytes m) = as_bytes m) by (intros m; destruct (decide (m = ""%string)) as [->|]; reflexivity).
  rewrite !Hm in H. by apply (inj as_bytes).
Qed.

(** *** The table as a function of the history *)

(** The beat an event carries, if it was accepted. *)
Definition accepted (ev : Received) : option (key32 * PresenceEntry) :=
  let '(now, view, content) := ev in
  match presence_from_slice content, view with
  | Some p, Some view => (fun eid => (eid, {| en_user_id := pr_user_id p; en_ts := pr_ts p; en_meta := pr_meta p |})) <$> accept p now view
  | _, _ => None
  end.

Definition note (table : PresenceTable) (ev : Received) : PresenceTable :=
  match accepted ev with
  | Some (eid, e) => record eid (en_user_id e) (en_ts e) (en_meta e) table
  | None => table
  end.

Lemma track_note events table : track events table = foldl note table events.
Proof.
  unfold track. revert table. induction events as [|[[now view] content] evs IH]; intros table; simpl; [done|].
  rewrite <- IH. f_equal. unfold track_step, note, accepted.
  destruct (presence_from_slice content) as [p|]; [|done]. destruct view as [v|]; [|done]. by destruct (accept p now v).
Qed.

(** The first of the freshest beats. *)
Definition freshest (events : list Received) (eid : key32) (e : PresenceEntry) : Prop :=
  exists before ev after, events = before ++ ev :: after /\ accepted ev = Some (eid, e) /\
    (forall ev' e', ev' ∈ before -> accepted ev' = Some (eid, e') -> en_ts e' < en_ts e) /\
    (forall ev' e', ev' ∈ after -> accepted ev' = Some (eid, e') -> en_ts e' <= en_ts e).

Lemma freshest_accepted events eid e ev e' :
  freshest events eid e -> ev ∈ events -> accepted ev = Some (eid, e') -> en_ts e' <= en_ts e.
Proof.
  intros (b & ev0 & a & -> & Ha & Hb & Hf) [Hin|[->|Hin]%elem_of_cons]%elem_of_app He.
  - specialize (Hb _ _ Hin He). lia.
  - assert (e' = e) as -> by congruence. lia.
  - by apply (Hf ev).
Qed.

Lemma freshest_snoc events ev eid e :
  freshest (events ++ [ev]) eid e <->
  (accepted ev = Some (eid, e) /\ forall ev' e', ev' ∈ events -> accepted ev' = Some (eid, e') -> en_ts e' < en_ts e) \/
  (freshest events eid e /\ forall e', accepted ev = Some (eid, e') -> en_ts e' <= en_ts e).
Proof.
  split.
  - intros (b & ev0 & a & Heq & Ha & Hb & Hf). destruct a as [|x a _] using rev_ind.
    + apply app_inj_tail in Heq as [-> ->]. left. by split.
    + rewrite app_comm_cons, app_assoc in Heq. apply app_inj_tail in Heq as [-> ->]. right. split.
      * exists b, ev0, a. split_and!; [done..|]. intros ev' e' Hin. apply Hf. set_solver.
      * intros e'. apply Hf. set_solver.
  - intros [[Ha Hb]|[(b & ev0 & a & -> & Ha & Hb & Hf) He]].
    + exists events, ev, []. split_and!; [done..|]. by intros ev' e' ?%elem_of_nil.
    + exists b, ev0, (a ++ [ev]). split_and!; [by rewrite <- app_assoc|done..|].
      intros ev' e' [Hin| ->%list_elem_of_singleton]%elem_of_app; [by apply Hf|apply He].
Qed.

Lemma record_lookup eid u ts meta table k :
  record eid u ts meta table !! k =
    if decide (k = eid) then
      match table !! eid with
      | Some e => if ts <=? en_ts e then Some e else Some {| en_user_id := u; en_ts := ts; en_meta := meta |}
      | None => Some {| en_user_id := u; en_ts := ts; en_meta := meta |}
      end
    else table !! k.
Proof.
  unfold record. case_decide as Hk; [subst k|].
  - destruct (table !! eid) as [e|] eqn:He; [destruct (_ <=? _); [done|]|]; apply lookup_insert_eq.
  - destruct (table !! eid) as [e|]; [destruct (_ <=? _); [done|]|]; by rewrite lookup_insert_ne.
Qed.

Lemma note_entry events eid ev e :
  ev ∈ events -> accepted ev = Some (eid, e) -> is_Some (foldl note ∅ events !! eid).
Proof.
  induction events as [|x evs IH] using rev_ind; [by intros ?%elem_of_nil|]. rewrite foldl_app. simpl. unfold note at 1.
  intros Hin Ha. apply elem_of_app in Hin as [Hin| ->%list_elem_of_singleton].
  - specialize (IH Hin Ha). destruct (accepted x) as [[k e']|]; [|done]. rewrite record_lookup. case_decide; [subst|done].
    destruct (foldl note ∅ evs !! k) as [e0|]; [destruct (_ <=? _)|]; by eexists.
  - rewrite Ha, record_lookup, decide_True by done.
    destruct (foldl note ∅ evs !! eid) as [e0|]; [destruct (_ <=? _)|]; by eexists.
Qed.

Lemma track_freshest events eid e : foldl note ∅ events !! eid = Some e <-> freshest events eid e.
Proof.
  revert e. induction events as [|ev evs IH] using rev_ind; intros e.
  { simpl. rewrite lookup_empty. split; [done|]. intros (b & ev & a & Heq & _). by destruct b. }
  rewrite freshest_snoc, <- IH, foldl_app. simpl. unfold note at 1.
  destruct (accepted ev) as [[k e']|] eqn:Ha; [|split; [by right|by intros [[? _]|[? _]]]].
  rewrite record_lookup. case_decide as Hk; [subst k|].
  2: { split; [intros ?; right; split; [done|]; intros ? [= ? ?]; congruence|intros [[? _]|[? _]]; congruence]. }
  destruct (foldl note ∅ evs !! eid) as [e0|] eqn:Hl.
  - pose proof (proj1 (IH e0) eq_refl) as Hf.
    assert (Hle : forall ev' e1, ev' ∈ evs -> accepted ev' = Some (eid, e1) -> en_ts e1 <= en_ts e0) by (intros ? ?; by apply freshest_accepted).
    destruct e' as [u ts meta]. simpl. destruct (Z.leb_spec ts (en_ts e0)) as [Hts|Hts]; split.
    + intros [= <-]. right. split; [done|]. by intros e' [= <-].
    + intros [[[= <-] Hb]|[? _]]; [|done]. exfalso. destruct Hf as (b & ev0 & a & -> & Ha0 & _).
      specialize (Hb ev0 e0 ltac:(set_solver) Ha0). simpl in Hb. lia.
    + intros [= <-]. left. split; [done|]. intros ev' e1 Hin H1. specialize (Hle _ _ Hin H1). simpl. lia.
    + intros [[[= <-] _]|[[= <-] Hb]]; [done|]. specialize (Hb _ eq_refl). simpl in Hb. lia.
  - destruct e' as [u ts meta]. simpl. split; [|by intros [[[= <-] _]|[? _]]].
    intros [= <-]. left. split; [done|]. intros ev' e1 Hin H1. destruct (note_entry _ _ _ _ Hin H1) as [? ?]. congruence.
Qed.

(** The presence table is a function of the beats that were accepted: a device has an
    entry exactly when some beat of it was, and the entry is the first of its freshest one,
    so an old, repeated or reordered beat never displaces a newer one.  Every accepted beat
    was signed by the device it is filed under over the very fields recorded, less than two
    minutes from the receiver's clock, with at most 256 bytes of metadata, for the user the
    installed roster gives that device. *)
Theorem presence_table_spec events eid e :
  (track events ∅ !! eid = Some e <-> freshest events eid e) /\
  (forall now view content, accepted (now, view, content) = Some (eid, e) ->
     exists p v rd, presence_from_slice content = Some p /\ view = Some v /\ Validate.resolve v eid = Some rd /\
       rd_user_id rd = en_user_id e /\ verify p now = Some eid /\
       (pr_user_id p, pr_ts p, pr_meta p) = (en_user_id e, en_ts e, en_meta e) /\
       i64_saturating_abs (i64_saturating_sub now (en_ts e)) < PRESENCE_SKEW_SECS /\
       Z.of_nat (String.length (en_meta e)) <= APP_METADATA_MAX_BYTES).
Proof.
  split.
  - rewrite track_note. apply track_freshest.
  - intros now view content H. unfold accepted in H. destruct (presence_from_slice content) as [p|]; [|done].
    destruct view as [v|]; [|done]. apply fmap_Some in H as (k & Ha & [= <- ->]). simpl.
    pose proof Ha as (Hv & rd & Hr & Hu)%accept_spec. pose proof Hv as (_ & Hs & Hm & _)%verify_spec. by exists p, v, rd.
Qed.

Lemma signed_verifies device_key user_id ts serial meta now :
  i64_saturating_abs (i64_saturating_sub now ts) < PRESENCE_SKEW_SECS -> Z.of_nat (String.length meta) <= APP_METADATA_MAX_BYTES ->
  let eid := vk_to_bytes (verifying_key device_key) in
  verify (signed device_key eid user_id ts serial meta) now = Some eid.
Proof.
  intros Hs Hm eid. apply verify_spec. simpl. split_and!; [done..|].
  exists (verifying_key device_key), (sig_to_bytes (ed_sign device_key (preimage eid user_id ts serial meta))).
  rewrite decode_encode_b64u, sig_from_to, sig_to_bytes_length. split_and!; [apply vk_from_to|done..|apply verify_sign].
Qed.

(** A beat is heard: what a device broadcasts, received by a node whose clock is less
    than two minutes off and whose roster gives the device the user it beats for, leaves the
    device in the table under that user with a beat at least as fresh; and it is listed as
    active for three minutes from that beat on, whatever other beats were heard before. *)
Theorem beat_heard `{H : HashOrder} device_key user_id meta sender_view sent view now events rd later :
  let eid := vk_to_bytes (verifying_key device_key) in
  in_i64 sent -> 0 <= default 0 (v_serial <$> sender_view) <= u64_max ->
  i64_saturating_abs (i64_saturating_sub now sent) < PRESENCE_SKEW_SECS ->
  Z.of_nat (String.length meta) <= APP_METADATA_MAX_BYTES ->
  Validate.resolve view eid = Some rd -> rd_user_id rd = user_id ->
  let table := track (events ++ [(now, Some view, publish_beat device_key user_id meta sender_view sent)]) ∅ in
  exists e, table !! eid = Some e /\ sent <= en_ts e /\
    (in_i64 (later - en_ts e) -> later - en_ts e < PRESENCE_TTL_SECS -> (eid, e) ∈ active later table).
Proof.
  intros eid Hts Hser Hskew Hmeta Hres Huser table.
  set (p := signed device_key eid user_id sent (default 0 (v_serial <$> sender_view)) meta).
  assert (Hacc : accepted (now, Some view, publish_beat device_key user_id meta sender_view sent) =
    Some (eid, {| en_user_id := user_id; en_ts := sent; en_meta := meta |})).
  { unfold accepted, publish_beat. fold eid. fold p. rewrite presence_from_to by done.
    assert (accept p now view = Some eid) as ->; [|done].
    apply accept_spec. split; [by apply signed_verifies|]. by exists rd. }
  assert (Htab : is_Some (table !! eid)).
  { unfold table. rewrite track_note. eapply note_entry; [|exact Hacc]. apply elem_of_app. right. by left. }
  destruct Htab as [e He]. exists e. split; [done|]. pose proof He as Hf. unfold table in Hf. rewrite track_note in Hf.
  apply track_freshest in Hf. split.
  - apply (freshest_accepted _ _ _ _ _ Hf) in Hacc; [done|]. apply elem_of_app. right. by left.
  - intros Hin Httl. unfold active. apply list_elem_of_In, filter_In. split.
    + apply list_elem_of_In. rewrite iter_perm. by apply elem_of_map_to_list.
    + apply Z.ltb_lt. simpl. by rewrite i64_sub_exact.
Qed.

(** The table serves every device heard for a user, each once, the most recent first. *)
Theorem recency_spec `{H : HashOrder} user_id table :
  (forall eid, eid ∈ endpoints_for_user_by_recency user_id table <-> exists e, table !! eid = Some e /\ en_user_id e = user_id) /\
  NoDup (endpoints_for_user_by_recency user_id table) /\
  forall i j a b ea eb, endpoints_for_user_by_recency user_id table !! i = Some a -> endpoints_for_user_by_recency user_id table !! j = Some b ->
    (i < j)%nat -> table !! a = Some ea -> table !! b = Some eb -> en_ts eb <= en_ts ea.
Proof.
  unfold endpoints_for_user_by_recency. set (hits := List.filter _ _).
  assert (Hin : forall k e, (k, e) ∈ hits <-> table !! k = Some e /\ en_user_id e = user_id).
  { intros k e. unfold hits. rewrite list_elem_of_In, filter_In, <- list_elem_of_In, iter_perm, elem_of_map_to_list.
    by rewrite bool_decide_eq_true. }
  set (sorted := sort_by_key _ hits). assert (Hso : forall kv, kv ∈ sorted <-> kv ∈ hits) by (intros; apply elem_of_sort_by_key).
  split_and!.
  - intros eid. rewrite list_elem_of_fmap. split.
    + intros ([k e] & -> & Hk%Hso%Hin). by exists e.
    + intros (e & He). exists (eid, e). split; [done|]. by apply Hso, Hin.
  - unfold sorted. rewrite sort_by_key_perm. apply nodup_fmap_keep. rewrite iter_perm. apply NoDup_fst_map_to_list.
  - intros i j a b ea eb Hi Hj Hij Ha Hb. apply list_lookup_fmap_Some in Hi as ([a' ea'] & -> & Hi). apply list_lookup_fmap_Some in Hj as ([b' eb'] & -> & Hj).
    assert (ea' = ea) as -> by (apply list_elem_of_lookup_2, Hso, Hin in Hi as [Hi _]; simpl in Ha; congruence).
    assert (eb' = eb) as -> by (apply list_elem_of_lookup_2, Hso, Hin in Hj as [Hj _]; simpl in Hb; congruence).
    pose proof (StronglySorted_nth _ sorted i j (a', ea) (b', eb) (sort_by_key_sorted _ hits) Hi Hj Hij) as Hle.
    unfold key_le in Hle. simpl in Hle. lia.
Qed.

(** Every wait of the publish loop is between 45 and 75 seconds, so two beats in a row can
    be lost before an entry expires. *)
Lemma next_beat_bounds random :
  45 <= next_beat_secs random <= 75 /\ 2 * next_beat_secs random < PRESENCE_TTL_SECS.
Proof.
  unfold next_beat_secs, PRESENCE_PERIOD_SECS, PRESENCE_JITTER_SECS, PRESENCE_TTL_SECS.
  pose proof (Z.mod_pos_bound random (2 * 15 + 1) ltac:(lia)). lia.
Qed.

Lemma receiver_taken_once {S R} (topic : option (RosterGossip S R)) :
  let '(r, topic') := take_receiver topic in
  r = topic ≫= gossip_receiver /\ (take_receiver topic').1 = None /\ topic_sender topic' = topic_sender topic.
Proof. by destruct topic as [[s [r|]]|]. Qed.
End properties.

(** ** A concrete codec *)
Module ToyPresence.
Import Toy.

Definition beat_to (p : Presence) : Value :=
  VArray [VString (pr_t p); VString (pr_endpoint_id p); VString (pr_user_id p); VNumber (NInt (pr_ts p));
          VNumber (NInt (pr_roster_serial p)); VString (pr_meta p); VString (pr_sig p)].
Definition beat_of (v : Value) : option Presence :=
  match v with
  | VArray [VString t; VString e; VString u; VNumber (NInt ts); VNumber (NInt s); VString m; VString sig] =>
      if (i64_min <=? ts) && (ts <=? i64_max) && (0 <=? s) && (s <=? u64_max) then
        Some {| pr_t := t; pr_endpoint_id := e; pr_user_id := u; pr_ts := ts; pr_roster_serial := s; pr_meta := m; pr_sig := sig |}
      else None
  | _ => None
  end.

#[export] Instance presence_codec : PresenceCodec := {|
  presence_to_vec p := print (beat_to p); presence_from_slice := slice beat_of |}.

#[export] Instance presence_codec_laws : PresenceCodecLaws presence_codec.
Proof.
  split.
  - intros p [[H1 H2] [H3 H4]]. transitivity (beat_of (beat_to p)); [apply slice_print|]. destruct p as [t e u ts s m sig].
    cbn in *. by rewrite !(proj2 (Z.leb_le _ _)).
  - intros b p. simpl. unfold slice. destruct (parse _ _) as [[v [|]]|]; [|done|done]. unfold beat_of.
    repeat (match goal with |- context [match ?x with _ => _ end] => is_var x; destruct x; try done end).
    match goal with |- context [if ?c then _ else _] => destruct c eqn:Hc end; [|done].
    apply andb_true_iff in Hc as [[[? ?]%andb_true_iff ?]%andb_true_iff ?]. intros [= <-].
    repeat split; simpl; by apply Z.leb_le.
Qed.
End ToyPresence.

(** ** Witnesses *)
Module Witness.
Import Toy Validate.Sample ToyPresence Limits.Witness.

(** Alice's laptop, whose key is the byte the sample roster lists it under. *)
Definition laptop : SigningKey := alice_ep.
Definition beat : bytes := publish_beat laptop "alice" "on call" (Some view) 2000.

Lemma presence_table_spec_witness :
  track [(2010, Some view, beat)] ∅ !! alice_ep = Some {| en_user_id := "alice"; en_ts := 2000; en_meta := "on call" |} <->
  freshest [(2010, Some view, beat)] alice_ep {| en_user_id := "alice"; en_ts := 2000; en_meta := "on call" |}.
Proof. apply (presence_table_spec [(2010, Some view, beat)] alice_ep). Defined.

Lemma beat_heard_witness : exists e,
  track ([] ++ [(2010, Some view, beat)]) ∅ !! alice_ep = Some e /\ 2000 <= en_ts e.
Proof.
  destruct (Validate.resolve view alice_ep) as [rd|] eqn:Hres; [|vm_compute in Hres; discriminate Hres].
  assert (Hu : rd_user_id rd = "alice"%string) by (vm_compute in Hres; injection Hres as <-; reflexivity).
  destruct (beat_heard laptop "alice" "on call" (Some view) 2000 view 2010 [] rd 2100) as (e & He & Hts & _).
  - split; vm_compute; discriminate.
  - split; vm_compute; discriminate.
  - vm_compute. reflexivity.
  - vm_compute. discriminate.
  - exact Hres.
  - exact Hu.
  - exists e. split; [exact He|exact Hts].
Defined.
End Witness.
