(* ===== verification/Allowlist.v ===== *)
(** * The pair allowlist

    [node/src/allowlist.rs]: the three tables of [state.redb] (pair rows, revoked
    endpoints, revoked identities), every operation on them, the admission decision with
    its fail-closed reading of errors, and the pairing-mode trust gate.

    A table is a finite map of raw rows, so unreadable rows are states of the model.  A
    database access may fail: [io] says which ones do.  A write transaction that fails
    before its commit leaves the tables as they were, which is redb's contract. *)
From stdpp Require Import base list gmap strings sorting.
From Stdlib Require Import ZArith Lia Strings.Byte.
From S2P Require Import Prelude Bytes Json Externals Identity.

Record RevokedEntry := {
  re_endpoint_id : key32;
  re_revoked_at : Z;
  re_reason : option string;
  re_source : string;
  re_signer_user_id : option string;
  re_issued_at : option Z }.

Record PeerEntry := {
  pe_endpoint_id : key32;
  pe_nickname : string;
  pe_services : list string;
  pe_paired_at : option string;
  pe_user_id : option string;
  pe_last_addr : option string }.

Inductive Admission := Refused | Unpaired | AdmittedAs (e : PeerEntry).

#[export] Instance PeerEntry_eq_dec : EqDecision PeerEntry.
Proof. solve_decision. Defined.
#[export] Instance Admission_eq_dec : EqDecision Admission.
Proof. solve_decision. Defined.

(** The row codec is serde's derived JSON of the two structs. *)
Class RowCodec := {
  peer_to_vec : PeerEntry -> bytes;
  peer_from_slice : bytes -> option PeerEntry;
  revoked_to_vec : RevokedEntry -> bytes;
  revoked_from_slice : bytes -> option RevokedEntry }.

Class RowCodecLaws (R : RowCodec) := {
  peer_from_to e : peer_from_slice (peer_to_vec e) = Some e;
  revoked_from_to e : revoked_from_slice (revoked_to_vec e) = Some e }.

(** ** The database *)
Record PeerStore := {
  t_peers : gmap bytes bytes;
  t_revoked : gmap bytes bytes;
  t_revoked_users : gmap string bytes }.

Inductive Access := Begin | PEERS | REVOKED | REVOKED_USERS | Commit.

(** The accesses that fail, with their error. *)
Definition Io : Type := Access -> option string.
Definition healthy : Io := fun _ => None.

Definition access (io : Io) (a : Access) : result string unit :=
  match io a with Some e => Err e | None => Ok () end.

Definition set_peers (m : gmap bytes bytes) (s : PeerStore) : PeerStore :=
  {| t_peers := m; t_revoked := t_revoked s; t_revoked_users := t_revoked_users s |}.
Definition set_revoked (m : gmap bytes bytes) (s : PeerStore) : PeerStore :=
  {| t_peers := t_peers s; t_revoked := m; t_revoked_users := t_revoked_users s |}.
Definition set_revoked_users (m : gmap string bytes) (s : PeerStore) : PeerStore :=
  {| t_peers := t_peers s; t_revoked := t_revoked s; t_revoked_users := m |}.

Definition empty_store : PeerStore := {| t_peers := ∅; t_revoked := ∅; t_revoked_users := ∅ |}.

(** A table's rows in key order. *)
Definition row_le (a b : bytes * bytes) : Prop := bytes_leb a.1 b.1 = true.
#[export] Instance row_le_dec : RelDecision row_le.
Proof. intros a b. unfold row_le. apply _. Defined.
Definition rows (m : gmap bytes bytes) : list (bytes * bytes) :=
  merge_sort row_le (map_to_list m).

Section allowlist.
Context `{R : RowCodec}.

(** [PeerStore::open] over an existing file: the write transaction only creates the tables. *)
Definition open (io : Io) (s : PeerStore) : result string PeerStore :=
  _ ← access io Begin; _ ← access io PEERS; _ ← access io REVOKED;
  _ ← access io REVOKED_USERS; _ ← access io Commit; Ok s.

Definition unreadable_row (endpoint_id : key32) : RevokedEntry :=
  {| re_endpoint_id := endpoint_id; re_revoked_at := 0;
     re_reason := Some "unreadable revocation row"%string; re_source := "unknown";
     re_signer_user_id := None; re_issued_at := None |}.

Definition revoked_entry (io : Io) (s : PeerStore) (endpoint_id : key32) :
    result string (option RevokedEntry) :=
  _ ← access io Begin; _ ← access io REVOKED;
  match t_revoked s !! key_bytes endpoint_id with
  | None => Ok None
  | Some v => Ok (Some (default (unreadable_row endpoint_id) (revoked_from_slice v)))
  end.

Definition is_revoked (io : Io) (s : PeerStore) (endpoint_id : key32) : bool :=
  match revoked_entry io s endpoint_id with
  | Ok v => bool_decide (is_Some v)
  | Err _ => true
  end.

Definition is_user_revoked (io : Io) (s : PeerStore) (user_id : string) : bool :=
  match (_ ← access io Begin; _ ← access io REVOKED_USERS;
         Ok (E := string) (bool_decide (is_Some (t_revoked_users s !! user_id)))) with
  | Ok v => v
  | Err _ => true
  end.

Definition is_roster_user_revoked (io : Io) (s : PeerStore) (roster_user_id : string) : bool :=
  starts_with "b64u:" roster_user_id && is_user_revoked io s roster_user_id.

(** ** Admission *)

(** The decision over the three reads, each a result. *)
Definition decide_admission (endpoint_revoked : result string bool)
    (pair_row : result string (option bytes))
    (identity_revoked : string -> result string bool) : Admission :=
  let decision : result string Admission :=
    r ← endpoint_revoked;
    if (r : bool) then Ok Refused
    else
      row ← pair_row;
      match row with
      | None => Ok Unpaired
      | Some raw =>
          match peer_from_slice raw with
          | None => Ok Unpaired
          | Some entry =>
              match pe_user_id entry with
              | Some uid =>
                  revoked ← identity_revoked uid;
                  if (revoked : bool) then Ok Refused else Ok (AdmittedAs entry)
              | None => Ok (AdmittedAs entry)
              end
          end
      end in
  match decision with Ok a => a | Err _ => Refused end.

Definition admission (io : Io) (s : PeerStore) (endpoint_id : key32) : Admission :=
  let txn := access io Begin in
  let k := key_bytes endpoint_id in
  decide_admission
    (_ ← txn; _ ← access io REVOKED; Ok (bool_decide (is_Some (t_revoked s !! k))))
    (_ ← txn; _ ← access io PEERS; Ok (t_peers s !! k))
    (fun uid => _ ← txn; _ ← access io REVOKED_USERS;
                Ok (bool_decide (is_Some (t_revoked_users s !! uid)))).

Definition is_refused (io : Io) (s : PeerStore) (endpoint_id : key32) : bool :=
  bool_decide (admission io s endpoint_id = Refused).

(** ** Writes: one transaction each, the new store returned by the commit *)

Definition revoke_user (io : Io) (s : PeerStore) (user_id : string) (e : RevokedEntry) :
    result string PeerStore :=
  _ ← access io Begin; _ ← access io REVOKED_USERS; _ ← access io Commit;
  Ok (set_revoked_users (<[user_id := revoked_to_vec e]> (t_revoked_users s)) s).

Definition unrevoke_user (io : Io) (s : PeerStore) (user_id : string) :
    result string (bool * PeerStore) :=
  _ ← access io Begin; _ ← access io REVOKED_USERS; _ ← access io Commit;
  Ok (bool_decide (is_Some (t_revoked_users s !! user_id)),
      set_revoked_users (delete user_id (t_revoked_users s)) s).

Definition revoke (io : Io) (s : PeerStore) (e : RevokedEntry) : result string PeerStore :=
  _ ← access io Begin; _ ← access io REVOKED; _ ← access io Commit;
  Ok (set_revoked (<[key_bytes (re_endpoint_id e) := revoked_to_vec e]> (t_revoked s)) s).

Definition unrevoke (io : Io) (s : PeerStore) (endpoint_id : key32) :
    result string (bool * PeerStore) :=
  _ ← access io Begin; _ ← access io REVOKED; _ ← access io Commit;
  Ok (bool_decide (is_Some (t_revoked s !! key_bytes endpoint_id)),
      set_revoked (delete (key_bytes endpoint_id) (t_revoked s)) s).

Definition list_revoked (io : Io) (s : PeerStore) : result string (list RevokedEntry) :=
  _ ← access io Begin; _ ← access io REVOKED;
  Ok ((fun kv => default (unreadable_row (default (key_fill Byte.x00) (try_key32 kv.1)))
                   (revoked_from_slice kv.2)) <$> rows (t_revoked s)).

Definition add (io : Io) (s : PeerStore) (e : PeerEntry) : result string PeerStore :=
  _ ← access io Begin; _ ← access io PEERS; _ ← access io Commit;
  Ok (set_peers (<[key_bytes (pe_endpoint_id e) := peer_to_vec e]> (t_peers s)) s).

Definition with_last_addr (a : option string) (e : PeerEntry) : PeerEntry :=
  {| pe_endpoint_id := pe_endpoint_id e; pe_nickname := pe_nickname e;
     pe_services := pe_services e; pe_paired_at := pe_paired_at e;
     pe_user_id := pe_user_id e; pe_last_addr := a |}.

(** An early return drops the transaction uncommitted, so no commit can fail there. *)
Definition set_last_addr (io : Io) (s : PeerStore) (endpoint_id : key32) (last_addr : string) :
    result string (bool * PeerStore) :=
  _ ← access io Begin; _ ← access io PEERS;
  match t_peers s !! key_bytes endpoint_id with
  | None => Ok (false, s)
  | Some existing =>
      entry ← ok_or "corrupt peer entry"%string (peer_from_slice existing);
      if decide (pe_last_addr entry = Some last_addr) then Ok (false, s)
      else
        let bytes := peer_to_vec (with_last_addr (Some last_addr) entry) in
        _ ← access io Commit;
        Ok (true, set_peers (<[key_bytes endpoint_id := bytes]> (t_peers s)) s)
  end.

Definition clear_last_addr (io : Io) (s : PeerStore) (endpoint_id : key32) :
    result string (option string * PeerStore) :=
  _ ← access io Begin; _ ← access io PEERS;
  match t_peers s !! key_bytes endpoint_id with
  | None => Ok (None, s)
  | Some existing =>
      entry ← ok_or "corrupt peer entry"%string (peer_from_slice existing);
      match pe_last_addr entry with
      | None => Ok (None, s)
      | Some previous =>
          let bytes := peer_to_vec (with_last_addr None entry) in
          _ ← access io Commit;
          Ok (Some previous, set_peers (<[key_bytes endpoint_id := bytes]> (t_peers s)) s)
      end
  end.

(** ** Reads of the pair table *)

Definition resolve (io : Io) (s : PeerStore) (endpoint_id : key32) :
    result string (option PeerEntry) :=
  _ ← access io Begin; _ ← access io PEERS;
  Ok (t_peers s !! key_bytes endpoint_id ≫= peer_from_slice).

Definition list_peers (io : Io) (s : PeerStore) : result string (list PeerEntry) :=
  _ ← access io Begin; _ ← access io PEERS;
  Ok (omap (fun kv => peer_from_slice kv.2) (rows (t_peers s))).

Definition entry_for (io : Io) (s : PeerStore) (nickname : string) :
    result string (option PeerEntry) :=
  l ← list_peers io s; Ok (find_first (fun e => bool_decide (pe_nickname e = nickname)) l).

Definition entries_for_user (io : Io) (s : PeerStore) (user_id : string) :
    result string (list PeerEntry) :=
  l ← list_peers io s; Ok (filter (fun e => pe_user_id e = Some user_id) l).

(** Does this row parse to an entry of that nickname? *)
Definition row_named (nickname : string) (v : bytes) : bool :=
  match peer_from_slice v with
  | Some entry => bool_decide (pe_nickname entry = nickname)
  | None => false
  end.

Definition remove (io : Io) (s : PeerStore) (nickname : string) :
    result string (bool * PeerStore) :=
  _ ← access io Begin; _ ← access io PEERS;
  let victims := omap (fun kv => if row_named nickname kv.2 then Some kv.1 else None)
                   (rows (t_peers s)) in
  _ ← access io Commit;
  Ok (negb (bool_decide (victims = [])),
      set_peers (foldl (fun m k => delete k m) (t_peers s) victims) s).

(** ** The pairing-mode gate *)

Definition identity_of (endpoint : EndpointId) (e : PeerEntry) : PeerIdentity :=
  {| id_endpoint := endpoint; id_name := pe_nickname e; id_user_id := pe_user_id e;
     id_groups := [] |}.

Definition allowlist_resolve (io : Io) (s : PeerStore) (endpoint : EndpointId) :
    option PeerIdentity :=
  match admission io s endpoint with
  | AdmittedAs e => Some (identity_of endpoint e)
  | Refused | Unpaired => None
  end.

(** [AllowlistGate] over the store as it is now. *)
Definition AllowlistGate (io : Io) (s : PeerStore) : TrustGate :=
  {| gate_resolve := allowlist_resolve io s;
     gate_is_revoked := is_refused io s;
     gate_should_sever_now endpoint _ := is_refused io s endpoint;
     gate_roster_user _ := None |}.
End allowlist.

(** ** Lemmas *)

#[export] Instance row_le_total : Total row_le.
Proof. intros a b. apply bytes_leb_total. Qed.
#[export] Instance row_le_trans : Transitive row_le.
Proof. intros a b c. apply bytes_leb_trans. Qed.

Lemma elem_of_rows m k v : (k, v) ∈ rows m <-> m !! k = Some v.
Proof. unfold rows. rewrite merge_sort_Permutation. apply elem_of_map_to_list. Qed.

Lemma lookup_foldl_delete {A} (ks : list bytes) (m : gmap bytes A) k :
  foldl (fun m k => delete k m) m ks !! k = if decide (k ∈ ks) then None else m !! k.
Proof.
  revert m; induction ks as [|k' ks IH]; intros m; cbn [foldl]; [done|].
  rewrite IH. destruct (decide (k = k')) as [->|Hne].
  - rewrite lookup_delete_eq, (decide_True (P := k' ∈ k' :: ks)) by in_list. by case_decide.
  - rewrite lookup_delete_ne by congruence. apply decide_ext. in_list.
Qed.

Section lemmas.
Context `{R : RowCodec}.

(** What the tables say about an endpoint, with no access failing. *)
Definition admission_of (s : PeerStore) (endpoint_id : key32) : Admission :=
  if decide (is_Some (t_revoked s !! key_bytes endpoint_id)) then Refused
  else
    match t_peers s !! key_bytes endpoint_id ≫= peer_from_slice with
    | None => Unpaired
    | Some e =>
        match pe_user_id e ≫= (fun uid => t_revoked_users s !! uid) with
        | Some _ => Refused
        | None => AdmittedAs e
        end
    end.

Lemma admission_of_entry s k e :
  admission_of s k = AdmittedAs e <->
  t_revoked s !! key_bytes k = None /\
  (exists raw, t_peers s !! key_bytes k = Some raw /\ peer_from_slice raw = Some e) /\
  (forall uid, pe_user_id e = Some uid -> t_revoked_users s !! uid = None).
Proof.
  unfold admission_of. case_decide as Hr.
  { split; [done|]. intros [Hn _]. rewrite Hn in Hr. by destruct Hr. }
  apply eq_None_not_Some in Hr. destruct (t_peers s !! key_bytes k) as [raw|] eqn:Hp; simpl.
  2: { split; [done|]. by intros (_ & (raw & ? & _) & _). }
  destruct (peer_from_slice raw) as [e'|] eqn:He; simpl.
  2: { split; [done|]. intros (_ & (raw' & [= ->] & He') & _). by rewrite He in He'. }
  destruct (pe_user_id e' ≫= _) as [r|] eqn:Hu.
  - split; [done|]. intros (_ & (raw' & [= <-] & He') & Hall).
    rewrite He in He'. injection He' as ->. apply bind_Some in Hu as (uid & Hu & Hs).
    by rewrite (Hall uid Hu) in Hs.
  - split.
    + intros [= ->]. split_and!; [done|by exists raw|]. intros uid Huid.
      by rewrite Huid in Hu.
    + intros (_ & (raw' & [= <-] & He') & _). congruence.
Qed.

(** Any failing access makes the answer [Refused]; otherwise the tables decide. *)
Lemma admission_cases io s k :
  admission io s k = Refused \/
  admission io s k = admission_of s k /\ io Begin = None /\ io REVOKED = None.
Proof.
  unfold admission, decide_admission, admission_of, access.
  destruct (io Begin); [by left|]. destruct (io REVOKED); [by left|]. simpl.
  case_bool_decide as Hr; simpl; [by left|]. rewrite decide_False by done.
  destruct (io PEERS); [by left|]. simpl.
  destruct (t_peers s !! key_bytes k) as [raw|]; simpl; [|by right].
  destruct (peer_from_slice raw) as [e|]; simpl; [|by right].
  destruct (pe_user_id e) as [uid|]; simpl; [|by right].
  destruct (io REVOKED_USERS); [by left|]. simpl.
  destruct (t_revoked_users s !! uid) as [v|]; simpl; [by left|by right].
Qed.

Lemma admission_healthy s k : admission healthy s k = admission_of s k.
Proof.
  unfold admission, decide_admission, admission_of, access. simpl.
  case_bool_decide as Hr; simpl; [by rewrite decide_True|]. rewrite decide_False by done.
  destruct (t_peers s !! key_bytes k) as [raw|]; simpl; [|done].
  destruct (peer_from_slice raw) as [e|]; simpl; [|done].
  destruct (pe_user_id e) as [uid|]; simpl; [|done].
  by destruct (t_revoked_users s !! uid).
Qed.

Lemma is_refused_true io s k : is_refused io s k = true <-> admission io s k = Refused.
Proof. apply bool_decide_eq_true. Qed.

#[export] Instance AllowlistGate_laws io s : GateLaws (AllowlistGate io s).
Proof.
  split; simpl.
  - intros e i. unfold allowlist_resolve. destruct (admission io s e); [done..|].
    by intros [= <-].
  - intros e H%is_refused_true. unfold allowlist_resolve. by rewrite H.
  - done.
Qed.
End lemmas.

(** ** Sequences of operations *)
Inductive StoreOp :=
| OpAdd (e : PeerEntry)
| OpSetLastAddr (k : key32) (a : string)
| OpClearLastAddr (k : key32)
| OpRemove (nickname : string)
| OpRevoke (e : RevokedEntry)
| OpUnrevoke (k : key32)
| OpRevokeUser (uid : string) (e : RevokedEntry)
| OpUnrevokeUser (uid : string).

Section run.
Context `{R : RowCodec}.

Definition exec (io : Io) (s : PeerStore) (op : StoreOp) : result string PeerStore :=
  match op with
  | OpAdd e => add io s e
  | OpSetLastAddr k a => snd <$> set_last_addr io s k a
  | OpClearLastAddr k => snd <$> clear_last_addr io s k
  | OpRemove n => snd <$> remove io s n
  | OpRevoke e => revoke io s e
  | OpUnrevoke k => snd <$> unrevoke io s k
  | OpRevokeUser uid e => revoke_user io s uid e
  | OpUnrevokeUser uid => snd <$> unrevoke_user io s uid
  end.

(** What the writes that put a row leave. *)
Lemma add_put io s e s' :
  add io s e = Ok s' -> s' = set_peers (<[key_bytes (pe_endpoint_id e) := peer_to_vec e]> (t_peers s)) s.
Proof. unfold add. intros H. by inv_result. Qed.
Lemma revoke_put io s e s' :
  revoke io s e = Ok s' -> s' = set_revoked (<[key_bytes (re_endpoint_id e) := revoked_to_vec e]> (t_revoked s)) s.
Proof. unfold revoke. intros H. by inv_result. Qed.
Lemma revoke_user_put io s uid e s' :
  revoke_user io s uid e = Ok s' -> s' = set_revoked_users (<[uid := revoked_to_vec e]> (t_revoked_users s)) s.
Proof. unfold revoke_user. intros H. by inv_result. Qed.

(** A failed operation leaves the store as it was; each runs under its own faults. *)
Definition run (s : PeerStore) (ops : list (Io * StoreOp)) : PeerStore :=
  foldl (fun s op => match exec op.1 s op.2 with Ok s' => s' | Err _ => s end) s ops.

Lemma exec_revoked io s op s' k :
  exec io s op = Ok s' -> op <> OpUnrevoke k ->
  is_Some (t_revoked s !! key_bytes k) -> is_Some (t_revoked s' !! key_bytes k).
Proof.
  intros H Hop Hk. destruct op; simpl in H;
    unfold add, set_last_addr, clear_last_addr, remove, revoke, unrevoke, revoke_user,
      unrevoke_user in H; inv_result; repeat (case_match; inv_result); simplify_eq/=; try done.
  - destruct (decide (re_endpoint_id e = k)) as [->|Hne].
    + rewrite lookup_insert_eq. by eexists.
    + rewrite lookup_insert_ne; [done|]. by intros ?%(inj key_bytes).
  - rewrite lookup_delete_ne; [done|]. intros ?%(inj key_bytes). congruence.
Qed.

Lemma exec_revoked_users io s op s' uid :
  exec io s op = Ok s' -> op <> OpUnrevokeUser uid ->
  is_Some (t_revoked_users s !! uid) -> is_Some (t_revoked_users s' !! uid).
Proof.
  intros H Hop Hk. destruct op as [| | | | | |u e|u]; simpl in H;
    unfold add, set_last_addr, clear_last_addr, remove, revoke, unrevoke, revoke_user,
      unrevoke_user in H; inv_result; repeat (case_match; inv_result); simplify_eq/=; try done.
  - destruct (decide (u = uid)) as [->|Hne].
    + rewrite lookup_insert_eq. by eexists.
    + by rewrite lookup_insert_ne.
  - rewrite lookup_delete_ne; [done|]. congruence.
Qed.

(** Every readable row is stored under its own endpoint id. *)
Definition store_keyed (s : PeerStore) : Prop :=
  forall k raw e, t_peers s !! k = Some raw -> peer_from_slice raw = Some e ->
    k = key_bytes (pe_endpoint_id e).

Lemma exec_keyed `{!RowCodecLaws R} io s op s' :
  exec io s op = Ok s' -> store_keyed s -> store_keyed s'.
Proof.
  intros H Hk. destruct op; simpl in H.
  - unfold add in H. inv_result. intros k raw e'. simpl. rewrite lookup_insert_Some.
    intros [[<- <-]|[_ ?]]; [|by eapply Hk]. rewrite peer_from_to. by intros [= ->].
  - apply result_fmap_Ok in H as ([b s''] & H & ->). unfold set_last_addr in H. inv_result.
    case_match eqn:Hrow; simplify_eq/=; [|done]. inv_result. case_decide; simplify_eq/=; [done|].
    inv_result. intros k' raw e'. simpl. rewrite lookup_insert_Some.
    intros [[<- <-]|[_ ?]]; [|by eapply Hk]. rewrite peer_from_to. intros [= <-]. simpl. by eapply Hk.
  - apply result_fmap_Ok in H as ([b s''] & H & ->). unfold clear_last_addr in H. inv_result.
    case_match eqn:Hrow; simplify_eq/=; [|done]. inv_result. case_match; simplify_eq/=; [|done].
    inv_result. intros k' raw e'. simpl. rewrite lookup_insert_Some.
    intros [[<- <-]|[_ ?]]; [|by eapply Hk]. rewrite peer_from_to. intros [= <-]. simpl. by eapply Hk.
  - apply result_fmap_Ok in H as ([b s''] & H & ->). unfold remove in H. inv_result.
    intros k' raw e'. simpl. rewrite lookup_foldl_delete. case_decide; [done|]. intros; by eapply Hk.
  - unfold revoke in H. by inv_result.
  - unfold unrevoke in H. by inv_result.
  - unfold revoke_user in H. by inv_result.
  - unfold unrevoke_user in H. by inv_result.
Qed.

(** A property every operation of a list keeps holds at its end. *)
Lemma run_preserves (P : PeerStore -> Prop) (bad : StoreOp) ops s :
  (forall io s op s', exec io s op = Ok s' -> op <> bad -> P s -> P s') ->
  bad ∉ ops.*2 -> P s -> P (run s ops).
Proof.
  intros Hstep. revert s; induction ops as [|[io op] ops IH]; intros s Hbad HP; [done|].
  simpl in Hbad. apply not_elem_of_cons in Hbad as [Hne Hbad]. unfold run. simpl. apply IH; [done|].
  destruct (exec io s op) as [s'|] eqn:E; [|done]. by eapply Hstep.
Qed.
End run.

(** ** Properties *)
Section properties.
Context `{R : RowCodec, RL : !RowCodecLaws R}.

(** An endpoint is admitted only off a readable pair row, with no row about it in
    the endpoint revocation table, readable or not, and none about the row's identity;
    whatever accesses fail, the answer is what the tables say or a refusal, and it is a
    refusal when the revocation table cannot be read. *)
Theorem admission_spec io s k :
  (forall e, admission io s k = AdmittedAs e ->
     t_revoked s !! key_bytes k = None /\
     (exists raw, t_peers s !! key_bytes k = Some raw /\ peer_from_slice raw = Some e) /\
     (forall uid, pe_user_id e = Some uid -> t_revoked_users s !! uid = None)) /\
  (admission io s k = Refused \/ admission io s k = admission healthy s k) /\
  (io Begin <> None \/ io REVOKED <> None -> admission io s k = Refused) /\
  (t_revoked s !! key_bytes k <> None -> admission io s k = Refused /\ is_revoked io s k = true).
Proof.
  rewrite admission_healthy. destruct (admission_cases io s k) as [Hr|(Ha & Hb & Hc)].
  - rewrite Hr. split_and!; [done|by left|done|]. intros Hk. split; [done|].
    unfold is_revoked, revoked_entry, access. destruct (io Begin); [done|].
    destruct (io REVOKED); [done|]. simpl. by destruct (t_revoked s !! _).
  - rewrite Ha. split_and!; [by intros e ?%admission_of_entry|by right|naive_solver|].
    intros Hk. unfold admission_of, is_revoked, revoked_entry, access. rewrite Hb, Hc. simpl.
    by destruct (t_revoked s !! _).
Qed.

(** C13: once written, a revocation stands through any sequence of operations, failing or
    not, that does not lift that same revocation: the endpoint stays refused whatever is
    paired again, and no device whose row carries a revoked identity is admitted. *)
Theorem revocation_persists io s s' ops io' :
  (forall e, revoke io s e = Ok s' -> OpUnrevoke (re_endpoint_id e) ∉ ops.*2 ->
     is_refused io' (run s' ops) (re_endpoint_id e) = true /\
     gate_resolve (AllowlistGate io' (run s' ops)) (re_endpoint_id e) = None) /\
  (forall uid e, revoke_user io s uid e = Ok s' -> OpUnrevokeUser uid ∉ ops.*2 ->
     forall k i, gate_resolve (AllowlistGate io' (run s' ops)) k = Some i ->
       id_user_id i <> Some uid).
Proof.
  split.
  - intros e H Hops. assert (is_Some (t_revoked (run s' ops) !! key_bytes (re_endpoint_id e))) as [v Hv].
    { eapply (run_preserves (fun s => is_Some (t_revoked s !! _))); [|done|].
      - intros; by eapply exec_revoked.
      - unfold revoke in H. inv_result. rewrite lookup_insert_eq. by eexists. }
    assert (is_refused io' (run s' ops) (re_endpoint_id e) = true) as Href.
    { apply is_refused_true. destruct (admission_cases io' (run s' ops) (re_endpoint_id e))
        as [?|(-> & _)]; [done|]. unfold admission_of. by rewrite Hv. }
    split; [done|]. by apply gate_revoked_denies.
  - intros uid e H Hops k i. assert (is_Some (t_revoked_users (run s' ops) !! uid)) as [v Hv].
    { eapply (run_preserves (fun s => is_Some (t_revoked_users s !! _))); [|done|].
      - intros; by eapply exec_revoked_users.
      - unfold revoke_user in H. inv_result. rewrite lookup_insert_eq. by eexists. }
    simpl. unfold allowlist_resolve.
    destruct (admission_cases io' (run s' ops) k) as [->|(Ha & _)]; [done|].
    destruct (admission io' _ k) as [| |pe] eqn:E; [done..|]. intros [= <-]. simpl.
    symmetry in Ha. apply admission_of_entry in Ha as (_ & _ & Hu). intros Huid.
    by rewrite (Hu _ Huid) in Hv.
Qed.

(** The entry of a row, without its dial hint. *)
Definition hintless (s : PeerStore) (k : bytes) : option PeerEntry :=
  with_last_addr None <$> (t_peers s !! k ≫= peer_from_slice).

Lemma hint_write_spec s k raw entry a :
  t_peers s !! key_bytes k = Some raw -> peer_from_slice raw = Some entry ->
  let s' := set_peers (<[key_bytes k := peer_to_vec (with_last_addr a entry)]> (t_peers s)) s in
  dom (t_peers s') = dom (t_peers s) /\
  (forall k', k' <> key_bytes k -> t_peers s' !! k' = t_peers s !! k') /\
  (forall k', hintless s' k' = hintless s k') /\
  (t_peers s' !! key_bytes k ≫= peer_from_slice) = Some (with_last_addr a entry).
Proof.
  intros Hraw He. simpl. unfold hintless. simpl. split_and!.
  - apply dom_insert_lookup_L. by eexists.
  - intros k' Hne. by rewrite lookup_insert_ne.
  - intros k'. destruct (decide (k' = key_bytes k)) as [->|Hne].
    + rewrite lookup_insert_eq, Hraw. simpl. by rewrite peer_from_to, He.
    + by rewrite lookup_insert_ne.
  - rewrite lookup_insert_eq. apply peer_from_to.
Qed.

(** The store a hint write leaves: untouched, or one row rewritten. *)
Definition hint_written (s : PeerStore) (k : key32) (a : option string) (s' : PeerStore) : Prop :=
  exists raw entry, t_peers s !! key_bytes k = Some raw /\ peer_from_slice raw = Some entry /\
    s' = set_peers (<[key_bytes k := peer_to_vec (with_last_addr a entry)]> (t_peers s)) s.

Lemma set_last_addr_result io s k a b s' :
  set_last_addr io s k a = Ok (b, s') -> s' = s /\ b = false \/ hint_written s k (Some a) s'.
Proof.
  unfold set_last_addr, hint_written. intros H. inv_result.
  case_match; simplify_eq/=; [|by left]. inv_result.
  case_decide; simplify_eq/=; [by left|]. inv_result. right. eauto.
Qed.

Lemma clear_last_addr_result io s k o s' :
  clear_last_addr io s k = Ok (o, s') -> s' = s \/ hint_written s k None s'.
Proof.
  unfold clear_last_addr, hint_written. intros H. inv_result.
  case_match; simplify_eq/=; [|by left]. inv_result.
  case_match; simplify_eq/=; [|by left]. inv_result. right. eauto.
Qed.

(** Refreshing or clearing a dial hint never creates or removes a row and changes
    nothing but the hint of the one row named: not its proven identity, nickname, services
    or pairing stamp, and nothing of any other row or table. *)
Theorem hint_updates_spec io s k s' :
  (exists a b, set_last_addr io s k a = Ok (b, s')) \/ (exists o, clear_last_addr io s k = Ok (o, s')) ->
  dom (t_peers s') = dom (t_peers s) /\
  (forall k', k' <> key_bytes k -> t_peers s' !! k' = t_peers s !! k') /\
  (forall k', hintless s' k' = hintless s k') /\
  t_revoked s' = t_revoked s /\ t_revoked_users s' = t_revoked_users s /\
  (forall a, set_last_addr io s k a = Ok (true, s') ->
     exists e, (t_peers s' !! key_bytes k ≫= peer_from_slice) = Some e /\ pe_last_addr e = Some a).
Proof.
  intros H. assert (s' = s \/ exists a, hint_written s k a s') as Hs.
  { destruct H as [(a & b & H)|(o & H)].
    - apply set_last_addr_result in H as [[-> _]|H]; [by left|right; eauto].
    - apply clear_last_addr_result in H as [->|H]; [by left|right; eauto]. }
  assert (Hset : forall a, set_last_addr io s k a = Ok (true, s') -> hint_written s k (Some a) s').
  { intros a [[_ ?]|?]%set_last_addr_result; done. }
  clear H. split_and!;
    try (destruct Hs as [->|(a & raw & e & H1 & H2 & ->)]; [done|first [done|by apply (hint_write_spec s k raw e a)]]).
  intros a (raw & e & H1 & H2 & ->)%Hset.
  destruct (hint_write_spec s k raw e (Some a) H1 H2) as (_ & _ & _ & ?). by eexists.
Qed.

(** Removing a nickname deletes exactly the readable rows that carry it, keeps every
    other row byte for byte, unreadable ones included, and reports whether there was any. *)
Theorem remove_spec io s n b s' :
  remove io s n = Ok (b, s') ->
  (forall k v, t_peers s' !! k = Some v <->
     t_peers s !! k = Some v /\ row_named n v = false) /\
  (b = true <-> exists k v, t_peers s !! k = Some v /\ row_named n v = true) /\
  t_revoked s' = t_revoked s /\ t_revoked_users s' = t_revoked_users s.
Proof.
  unfold remove. intros H. inv_result.
  set (victims := omap _ _).
  assert (Hv : forall k, k ∈ victims <->
    exists v, t_peers s !! k = Some v /\ row_named n v = true).
  { intros k. unfold victims. rewrite list_elem_of_omap. split.
    - intros ([k' v] & Hin%elem_of_rows & Hx). simpl in Hx. case_match; simplify_eq. eauto.
    - intros (v & Hk & Hn). exists (k, v). split; [by apply elem_of_rows|]. simpl. by rewrite Hn. }
  split_and!; [| |done..].
  - intros k v. simpl. rewrite lookup_foldl_delete. case_decide as Hk.
    + apply Hv in Hk as (v' & Hk & Hn). split; [done|]. intros [Hk' ?]. congruence.
    + split; [|by intros [? _]]. intros Hs. split; [done|].
      apply not_true_iff_false. intros Hn. apply Hk, Hv. eauto.
  - rewrite negb_true_iff, bool_decide_eq_false. split.
    + intros Hne. destruct victims as [|k l] eqn:E; [done|].
      destruct (proj1 (Hv k)) as (v & ? & ?); [in_list|]. eauto.
    + intros (k & v & ? & ?) He. assert (k ∈ victims) as Hin by (apply Hv; eauto).
      rewrite He in Hin. by apply elem_of_nil in Hin.
Qed.
End properties.

(** ** A concrete row codec

    Rows are JSON arrays of the fields. *)
Module ToyRows.
Import Toy.

Definition opt_to {A} (f : A -> Value) (o : option A) : Value :=
  match o with Some a => VArray [f a] | None => VNull end.
Definition opt_of {A} (f : Value -> option A) (v : Value) : option (option A) :=
  match v with
  | VNull => Some None
  | VArray [x] => match f x with Some a => Some (Some a) | None => None end
  | _ => None
  end.
Definition key_to (k : key32) : Value := VString (from_bytes (key_bytes k)).
Definition key_of (v : Value) : option key32 :=
  match v with VString s => try_key32 (as_bytes s) | _ => None end.
Definition int_to (z : Z) : Value := VNumber (NInt z).
Definition int_of (v : Value) : option Z :=
  match v with VNumber (NInt z) => Some z | _ => None end.

Definition peer_to (e : PeerEntry) : Value :=
  VArray [key_to (pe_endpoint_id e); VString (pe_nickname e);
          VArray (map VString (pe_services e)); opt_to VString (pe_paired_at e);
          opt_to VString (pe_user_id e); opt_to VString (pe_last_addr e)].
Definition peer_of (v : Value) : option PeerEntry :=
  match v with
  | VArray [k; VString n; VArray ss; p; u; a] =>
      k ← key_of k; ss ← mapM as_str ss; p ← opt_of as_str p; u ← opt_of as_str u;
      a ← opt_of as_str a;
      Some {| pe_endpoint_id := k; pe_nickname := n; pe_services := ss; pe_paired_at := p;
              pe_user_id := u; pe_last_addr := a |}
  | _ => None
  end.
Definition revoked_to (e : RevokedEntry) : Value :=
  VArray [key_to (re_endpoint_id e); int_to (re_revoked_at e); opt_to VString (re_reason e);
          VString (re_source e); opt_to VString (re_signer_user_id e);
          opt_to int_to (re_issued_at e)].
Definition revoked_of (v : Value) : option RevokedEntry :=
  match v with
  | VArray [k; at_; r; VString s; u; i] =>
      k ← key_of k; at_ ← int_of at_; r ← opt_of as_str r; u ← opt_of as_str u;
      i ← opt_of int_of i;
      Some {| re_endpoint_id := k; re_revoked_at := at_; re_reason := r; re_source := s;
              re_signer_user_id := u; re_issued_at := i |}
  | _ => None
  end.

#[export] Instance row_codec : RowCodec := {|
  peer_to_vec e := print (peer_to e); peer_from_slice := slice peer_of;
  revoked_to_vec e := print (revoked_to e); revoked_from_slice := slice revoked_of |}.

Lemma key_of_to k : key_of (key_to k) = Some k.
Proof. unfold key_of, key_to. by rewrite as_from_bytes, try_key32_bytes. Qed.

#[export] Instance row_codec_laws : RowCodecLaws row_codec.
Proof.
  split; intros e.
  - transitivity (peer_of (peer_to e)); [apply slice_print|].
    destruct e as [k n ss p u a]. unfold peer_of, peer_to. cbn -[key_of key_to mapM map].
    rewrite key_of_to. cbn -[mapM map]. rewrite mapM_as_str. by destruct p, u, a.
  - transitivity (revoked_of (revoked_to e)); [apply slice_print|].
    destruct e as [k t r s u i]. unfold revoked_of, revoked_to. cbn -[key_of key_to].
    rewrite key_of_to. by destruct r, u, i.
Qed.
End ToyRows.

(** ** Witnesses *)
Module Witness.
Import Toy ToyRows.

Definition ep : key32 := key_fill Byte.x11.
Definition row (addr : option string) : PeerEntry :=
  {| pe_endpoint_id := ep; pe_nickname := "laptop"; pe_services := ["notes"%string];
     pe_paired_at := None; pe_user_id := Some "b64u:alice"%string; pe_last_addr := addr |}.
Definition revocation : RevokedEntry :=
  {| re_endpoint_id := ep; re_revoked_at := 5; re_reason := None; re_source := "local";
     re_signer_user_id := None; re_issued_at := None |}.

Definition ok_or_same {A} (r : result string A) (d : A) : A :=
  match r with Ok a => a | Err _ => d end.
Definition paired : PeerStore := ok_or_same (add healthy empty_store (row None)) empty_store.
Definition revoked_store : PeerStore := ok_or_same (revoke healthy paired revocation) paired.

Lemma revocation_persists_witness :
  is_refused healthy (run revoked_store [(healthy, OpAdd (row None))]) ep = true.
Proof.
  destruct (revocation_persists healthy paired revoked_store [(healthy, OpAdd (row None))] healthy)
    as [H _].
  apply (H revocation); [vm_compute; reflexivity|]. simpl. intros Hin.
  apply elem_of_cons in Hin as [Hin|Hin]; [discriminate Hin|].
  apply elem_of_nil in Hin. exact Hin.
Defined.

Lemma hint_updates_spec_witness : exists s',
  set_last_addr healthy paired ep "addr" = Ok (true, s') /\ dom (t_peers s') = dom (t_peers paired).
Proof.
  destruct (set_last_addr healthy paired ep "addr") as [[b s']|e] eqn:E.
  - exists s'. assert (b = true) as ->.
    { apply (f_equal (fun r => match r with Ok (b, _) => b | Err _ => true end)) in E.
      vm_compute in E. congruence. }
    split; [reflexivity|]. apply (hint_updates_spec healthy paired ep s'). left.
    exists "addr"%string, true. exact E.
  - exfalso. apply (f_equal is_ok) in E. vm_compute in E. discriminate E.
Defined.

Definition removed : PeerStore := set_peers ∅ paired.

Lemma remove_spec_witness :
  exists k v, t_peers paired !! k = Some v /\ row_named "laptop" v = true.
Proof.
  assert (remove healthy paired "laptop" = Ok (true, removed)) as H0
    by (vm_compute; reflexivity).
  destruct (remove_spec healthy paired "laptop" true removed H0) as (_ & H & _).
  apply H. reflexivity.
Defined.
End Witness.
