(* ===== verification/Gate.v ===== *)
(** * The roster and composed gates

    [node/src/roster/gate.rs]: the roster gate over the installed view with its degraded
    states, and the composition with the pair allowlist (revocation, then roster, then
    pairing).  A gate's answers are taken at one instant [now] and one store. *)
From stdpp Require Import base list gmap strings.
From Stdlib Require Import ZArith Lia Strings.Byte.
From S2P Require Import Prelude Bytes Externals Schema Validate Identity Allowlist.

Definition DEFAULT_GRACE_SECS : Z := 72 * 3600.

Record RosterGate := {
  g_view : option RosterView;
  g_grace_secs : Z;
  g_last_confirmed : option Z;
  g_max_staleness : Z }.

Definition empty_gate : RosterGate :=
  {| g_view := None; g_grace_secs := DEFAULT_GRACE_SECS; g_last_confirmed := None;
     g_max_staleness := i64_max |}.
Definition with_grace (grace_secs : Z) : RosterGate :=
  {| g_view := None; g_grace_secs := grace_secs; g_last_confirmed := None;
     g_max_staleness := i64_max |}.
Definition with_freshness (grace_secs max_staleness : Z) : RosterGate :=
  {| g_view := None; g_grace_secs := grace_secs; g_last_confirmed := None;
     g_max_staleness := max_staleness |}.

Definition set_last_confirmed (epoch : Z) (g : RosterGate) : RosterGate :=
  {| g_view := g_view g; g_grace_secs := g_grace_secs g; g_last_confirmed := Some epoch;
     g_max_staleness := g_max_staleness g |}.
Definition install (v : RosterView) (g : RosterGate) : RosterGate :=
  {| g_view := Some v; g_grace_secs := g_grace_secs g;
     g_last_confirmed := g_last_confirmed g; g_max_staleness := g_max_staleness g |}.

Definition gate_effective_state (g : RosterGate) (now : Z) : option RosterState :=
  v ← g_view g;
  Some (effective_state v now (g_grace_secs g) (g_last_confirmed g) (g_max_staleness g)).

Definition roster_resolve (now : Z) (g : RosterGate) (endpoint : EndpointId) :
    option PeerIdentity :=
  v ← g_view g;
  if decide (gate_effective_state g now = Some DegradedStopped) then None
  else if Validate.is_revoked v endpoint then None
  else
    d ← Validate.resolve v endpoint;
    Some {| id_endpoint := endpoint; id_name := rd_user_id d;
            id_user_id := Some (rd_user_id d); id_groups := rd_groups d |}.

Definition roster_is_revoked (g : RosterGate) (endpoint : EndpointId) : bool :=
  default false ((fun v => Validate.is_revoked v endpoint) <$> g_view g).

Definition roster_user (now : Z) (g : RosterGate) (endpoint : EndpointId) : option string :=
  roster_resolve now g endpoint ≫= id_user_id.

(** The roster gate on its own keeps the trait's default [should_sever_now]. *)
Definition RosterTrustGate (now : Z) (g : RosterGate) : TrustGate :=
  {| gate_resolve := roster_resolve now g; gate_is_revoked := roster_is_revoked g;
     gate_should_sever_now _ _ := false; gate_roster_user := roster_user now g |}.

(** ** The composed gate *)
Record ComposedGate := { c_roster : RosterGate; c_pairs : PeerStore }.

Section composed.
Context `{R : RowCodec}.

Definition roster_identity_revoked (io : Io) (c : ComposedGate)
    (roster_user_id : option string) : bool :=
  match roster_user_id with
  | Some u => is_roster_user_revoked io (c_pairs c) u
  | None => false
  end.

Definition composed_resolve (io : Io) (now : Z) (c : ComposedGate) (endpoint : EndpointId) :
    option PeerIdentity :=
  if roster_is_revoked (c_roster c) endpoint then None
  else
    let pair := admission io (c_pairs c) endpoint in
    if decide (pair = Refused) then None
    else
      match roster_resolve now (c_roster c) endpoint with
      | Some id => if roster_identity_revoked io c (id_user_id id) then None else Some id
      | None =>
          match pair with
          | AdmittedAs e => Some (identity_of endpoint e)
          | Refused | Unpaired => None
          end
      end.

Definition composed_is_revoked (io : Io) (now : Z) (c : ComposedGate) (endpoint : EndpointId) :
    bool :=
  roster_is_revoked (c_roster c) endpoint
  || is_refused io (c_pairs c) endpoint
  || roster_identity_revoked io c (roster_user now (c_roster c) endpoint).

Definition composed_should_sever_now (io : Io) (c : ComposedGate) (endpoint : EndpointId)
    (ru : option string) : bool :=
  is_refused io (c_pairs c) endpoint
  || roster_is_revoked (c_roster c) endpoint
  || roster_identity_revoked io c ru
  || (bool_decide (is_Some ru)
      && match g_view (c_roster c) with
         | Some v => bool_decide (Validate.resolve v endpoint = None)
         | None => false
         end).

Definition composed_gate (io : Io) (now : Z) (c : ComposedGate) : TrustGate :=
  {| gate_resolve := composed_resolve io now c;
     gate_is_revoked := composed_is_revoked io now c;
     gate_should_sever_now := composed_should_sever_now io c;
     gate_roster_user := roster_user now (c_roster c) |}.
End composed.

(** ** Lemmas *)

Lemma roster_resolve_Some now g e i :
  roster_resolve now g e = Some i <->
  exists v d, g_view g = Some v /\ gate_effective_state g now <> Some DegradedStopped /\
    Validate.is_revoked v e = false /\ Validate.resolve v e = Some d /\
    i = {| id_endpoint := e; id_name := rd_user_id d; id_user_id := Some (rd_user_id d);
           id_groups := rd_groups d |}.
Proof.
  unfold roster_resolve. split.
  - intros (v & Hv & H)%bind_Some. case_decide; [done|].
    destruct (Validate.is_revoked v e) eqn:Hr; [done|].
    apply bind_Some in H as (d & Hd & [= <-]). by exists v, d.
  - intros (v & d & -> & Hs & Hr & Hd & ->). simpl. by rewrite decide_False, Hr, Hd.
Qed.

Lemma roster_revoked_denies now g e :
  roster_is_revoked g e = true -> roster_resolve now g e = None.
Proof.
  unfold roster_is_revoked, roster_resolve. destruct (g_view g); simpl; [|done].
  intros ->. by case_decide.
Qed.

Section lemmas.
Context `{R : RowCodec}.

(** The three rules in precedence order. *)
Lemma composed_resolve_Some io now c e i :
  composed_resolve io now c e = Some i <->
  roster_is_revoked (c_roster c) e = false /\ admission io (c_pairs c) e <> Refused /\
  (roster_resolve now (c_roster c) e = Some i /\
     roster_identity_revoked io c (id_user_id i) = false \/
   roster_resolve now (c_roster c) e = None /\
     exists pe, admission io (c_pairs c) e = AdmittedAs pe /\ i = identity_of e pe).
Proof.
  unfold composed_resolve. destruct (roster_is_revoked _ _); [by split; [|intros [? _]]|].
  case_decide as Ha; [by split; [|intros (_ & ? & _)]|].
  destruct (roster_resolve now (c_roster c) e) as [j|].
  - destruct (roster_identity_revoked io c (id_user_id j)) eqn:Hj; split; [done| | |].
    + intros (_ & _ & [[[= ->] ?]|[? _]]); congruence.
    + intros [= ->]. split_and!; [done..|]. by left.
    + intros (_ & _ & [[[= ->] ?]|[? _]]); congruence.
  - destruct (admission io (c_pairs c) e) as [| |pe] eqn:E; split; try done.
    + by intros (_ & _ & [[? _]|(_ & pe & ? & _)]).
    + intros [= <-]. split_and!; [done..|]. right. eauto.
    + by intros (_ & _ & [[? _]|(_ & pe' & [= ->] & ->)]).
Qed.

#[export] Instance composed_gate_laws io now c : GateLaws (composed_gate io now c).
Proof.
  split; simpl.
  - intros e i (_ & _ & [[H _]|(_ & pe & _ & ->)])%composed_resolve_Some; [|done].
    by apply roster_resolve_Some in H as (v & d & _ & _ & _ & _ & ->).
  - intros e. unfold composed_is_revoked, composed_resolve, is_refused, roster_user.
    destruct (roster_is_revoked _ _); [done|]. simpl.
    case_bool_decide as Ha; [by rewrite decide_True|]. rewrite decide_False by done.
    destruct (roster_resolve now (c_roster c) e) as [j|]; simpl; [|done]. by intros ->.
  - intros e ru H ->. unfold composed_is_revoked, composed_should_sever_now in *.
    apply orb_true_iff in H as [[H|H]%orb_true_iff|H]; rewrite H; by rewrite ?orb_true_r.
Qed.
End lemmas.

(** ** Properties *)
Section properties.
Context `{R : RowCodec}.

(** C3: revocation wins, from either source and whatever else is stored: an endpoint the
    installed roster revokes, however degraded that roster is, an endpoint with a row in
    the revocation table, a pair row whose identity is revoked, and a rostered device whose
    user id is a revoked [b64u:] identity are never resolved; the first three are reported
    as revoked and their sessions are severed, whoever they were resolved as. *)
Theorem revocation_wins io now c e :
  (roster_is_revoked (c_roster c) e = true \/
   t_revoked (c_pairs c) !! key_bytes e <> None \/
   (exists raw pe uid, t_peers (c_pairs c) !! key_bytes e = Some raw /\
      peer_from_slice raw = Some pe /\ pe_user_id pe = Some uid /\
      t_revoked_users (c_pairs c) !! uid <> None) ->
   composed_resolve io now c e = None /\ composed_is_revoked io now c e = true /\
   forall ru, composed_should_sever_now io c e ru = true) /\
  (forall u, roster_user now (c_roster c) e = Some u -> starts_with "b64u:" u = true ->
     t_revoked_users (c_pairs c) !! u <> None ->
     composed_resolve io now c e = None /\ composed_is_revoked io now c e = true /\
     composed_should_sever_now io c e (Some u) = true).
Proof.
  split.
  - intros H. assert (roster_is_revoked (c_roster c) e = true \/
      is_refused io (c_pairs c) e = true) as Hr.
    { destruct H as [H|H]; [by left|right]. apply is_refused_true.
      destruct (admission_cases io (c_pairs c) e) as [?|(-> & _)]; [done|]. unfold admission_of.
      destruct (t_revoked (c_pairs c) !! key_bytes e) as [v|] eqn:Hv; [by rewrite decide_True|].
      destruct H as [?|(raw & pe & uid & -> & Hp & Hu & Hn)]; [done|].
      rewrite decide_False by (by intros [? ?]). simpl. rewrite Hp. simpl. rewrite Hu. simpl.
      by destruct (t_revoked_users (c_pairs c) !! uid). }
    assert (composed_is_revoked io now c e = true) as Hrev.
    { unfold composed_is_revoked. destruct Hr as [->| ->]; by rewrite ?orb_true_r. }
    split_and!; [by apply (gate_revoked_denies (g := composed_gate io now c))|done|].
    intros ru. unfold composed_should_sever_now. destruct Hr as [->| ->]; by rewrite ?orb_true_r.
  - intros u Hu Hb Hn.
    assert (roster_identity_revoked io c (Some u) = true) as Hid.
    { simpl. unfold is_roster_user_revoked, is_user_revoked, access. rewrite Hb. simpl.
      destruct (io Begin); [done|]. destruct (io REVOKED_USERS); [done|]. simpl.
      by destruct (t_revoked_users (c_pairs c) !! u). }
    assert (composed_is_revoked io now c e = true) as Hrev.
    { unfold composed_is_revoked. by rewrite Hu, Hid, orb_true_r. }
    split_and!; [by apply (gate_revoked_denies (g := composed_gate io now c))|done|].
    unfold composed_should_sever_now. by rewrite Hid, orb_true_r.
Qed.

(** Registration agrees with admission: a connection the gate resolves is not severed
    by the recheck made with the same state; a device that was resolved through the roster
    is severed once the installed roster no longer lists it, even with a pair row; and a
    peer known only by pairing is severed by no roster that does not revoke it. *)
Theorem sever_matches_admission io now c e :
  (forall i, composed_resolve io now c e = Some i ->
     composed_should_sever_now io c e (roster_user now (c_roster c) e) = false) /\
  (forall v u, g_view (c_roster c) = Some v -> Validate.resolve v e = None ->
     composed_should_sever_now io c e (Some u) = true) /\
  (roster_is_revoked (c_roster c) e = false -> is_refused io (c_pairs c) e = false ->
     composed_should_sever_now io c e None = false).
Proof.
  unfold composed_should_sever_now. split_and!.
  - intros i (Hr & Ha & Hcases)%composed_resolve_Some. rewrite Hr.
    unfold is_refused. rewrite (bool_decide_false _ Ha). simpl.
    destruct Hcases as [[Hi Hid]|[Hi _]]; unfold roster_user; rewrite Hi; simpl; [|done].
    rewrite Hid. simpl. destruct (id_user_id i); [|done]. simpl.
    apply roster_resolve_Some in Hi as (v & d & -> & _ & _ & Hd & _). by rewrite Hd.
  - intros v u -> Hd. rewrite Hd. simpl. by rewrite orb_true_r.
  - intros -> ->. done.
Qed.

(** Pairing mode is untouched by an absent or stopped roster: with no roster installed
    the composed gate answers exactly as the allowlist gate, and with a roster stopped by
    expiry or staleness it resolves exactly the paired peers that roster does not revoke. *)
Theorem pairing_mode_unchanged io now c e :
  (g_view (c_roster c) = None ->
     let a := AllowlistGate io (c_pairs c) in let g := composed_gate io now c in
     gate_resolve g e = gate_resolve a e /\ gate_is_revoked g e = gate_is_revoked a e /\
     gate_roster_user g e = gate_roster_user a e /\
     gate_should_sever_now g e None = gate_should_sever_now a e None) /\
  (gate_effective_state (c_roster c) now = Some DegradedStopped ->
     roster_user now (c_roster c) e = None /\
     composed_resolve io now c e =
       if roster_is_revoked (c_roster c) e then None
       else gate_resolve (AllowlistGate io (c_pairs c)) e).
Proof.
  assert (Hpair : roster_resolve now (c_roster c) e = None ->
    composed_resolve io now c e =
      if roster_is_revoked (c_roster c) e then None
      else gate_resolve (AllowlistGate io (c_pairs c)) e).
  { intros Hn. unfold composed_resolve. simpl. unfold allowlist_resolve. rewrite Hn.
    destruct (roster_is_revoked _ _); [done|]. by destruct (admission io (c_pairs c) e). }
  split.
  - intros Hv. simpl. unfold composed_is_revoked, composed_should_sever_now, roster_user.
    assert (roster_resolve now (c_roster c) e = None) as Hn
      by (unfold roster_resolve; by rewrite Hv).
    rewrite (Hpair Hn), Hn. unfold roster_is_revoked. rewrite Hv. simpl.
    by rewrite !orb_false_r.
  - intros Hs. assert (roster_resolve now (c_roster c) e = None) as Hn.
    { unfold roster_resolve. destruct (g_view (c_roster c)); [|done]. simpl.
      by rewrite decide_True. }
    split; [unfold roster_user; by rewrite Hn|by apply Hpair].
Qed.
End properties.
