(* ===== verification/Service.v ===== *)
(** * Service selection and the reserved [_meta] namespace

    [net/src/service.rs] and [net/src/errors.rs]: reserved keys are deleted from every
    frame of a (bounded) batch, a [clientInfo] that names itself as a principal is
    removed, and the first frame selects one of the caller's services or is refused. *)
From stdpp Require Import base list gmap strings.
From Stdlib Require Import ZArith Lia.
From S2P Require Import Prelude Bytes Json.

(** ** Synthesized errors *)
Definition ERR_FRAMING : Z := -32051.
Definition ERR_SESSION : Z := -32052.
Definition ERR_LIMIT : Z := -32053.
Definition ERR_SERVICE : Z := -32054.
Definition ERR_UNREACHABLE : Z := -32055.
Definition ERR_PARSE : Z := -32700.
Definition MSG_SERVICE : string := "unknown or unauthorized service".

Definition error_value (id : Value) (code : Z) (message : string) (data : Map) : Value :=
  VObject [("error"%string, VObject [("code"%string, VNumber (NInt code));
                                     ("data"%string, VObject data);
                                     ("message"%string, VString message)]);
           ("id"%string, id); ("jsonrpc"%string, VString "2.0")].

Definition synthesized (id : Value) (code : Z) (message : string) : Value :=
  error_value id code message [("source"%string, VString "mcpmesh")].

Definition synthesized_limited (id : Value) (retry_after_ms : Z) : Value :=
  error_value id ERR_LIMIT "rate limited"
    [("retry_after_ms"%string, VNumber (NInt retry_after_ms));
     ("source"%string, VString "mcpmesh")].

(** ** Reserved keys *)
Inductive ServiceDecision := Selected (name : string) | Refuse.

#[export] Instance ServiceDecision_eq_dec : EqDecision ServiceDecision.
Proof. solve_decision. Defined.

Definition MAX_BATCH_DEPTH : nat := 8.
Definition CLIENT_INFO_KEY : string := "io.modelcontextprotocol/clientInfo".
Definition LEGACY_META_PREFIX : string := "mcpmesh/".
Definition META_PREFIX : string := "tech.counterpunch.mcpmesh/".
Definition RESERVED_META_PREFIXES : list string := [LEGACY_META_PREFIX; META_PREFIX].
Definition SERVICE_KEYS : list string :=
  ["tech.counterpunch.mcpmesh/service"%string; "mcpmesh/service"%string].
Definition PEER_KEYS : list string :=
  ["tech.counterpunch.mcpmesh/peer"%string; "mcpmesh/peer"%string].
Definition PRINCIPAL_PREFIXES : list string := ["eid:"%string; "b64u:"%string].

Definition reserved (k : string) : bool :=
  existsb (fun p => starts_with p k) RESERVED_META_PREFIXES.

(** The path [/params/_meta]. *)
Definition meta_path : list string := ["params"%string; "_meta"%string].

(** Apply a change to a frame's [params._meta] when it is an object. *)
Definition on_meta (f : Map -> Map) (frame : Value) : Value :=
  value_pointer_mut meta_path
    (fun v => match v with VObject m => VObject (f m) | v => v end) frame.

Fixpoint strip_reserved_meta_to_depth (frame : Value) (depth : nat) : Value :=
  match frame with
  | VArray batch =>
      if Nat.ltb depth MAX_BATCH_DEPTH
      then VArray (map (fun e => strip_reserved_meta_to_depth e (S depth)) batch)
      else frame
  | _ => on_meta (map_retain (fun k => negb (reserved k))) frame
  end.

Definition strip_reserved_meta (frame : Value) : Value := strip_reserved_meta_to_depth frame 0.

(** The object at [params._meta], if there is one. *)
Definition frame_meta (frame : Value) : option Map :=
  value_pointer meta_path frame ≫= as_object.

Definition impersonating (meta : Map) : bool :=
  match (map_get CLIENT_INFO_KEY meta ≫= value_get "name") ≫= as_str with
  | Some n => existsb (fun p => starts_with p n) PRINCIPAL_PREFIXES
  | None => false
  end.

Fixpoint strip_impersonating_client_info_to_depth (frame : Value) (depth : nat) : Value * bool :=
  match frame with
  | VArray batch =>
      if Nat.leb MAX_BATCH_DEPTH depth then (frame, false)
      else
        let out := map (fun e => strip_impersonating_client_info_to_depth e (S depth)) batch in
        (VArray (map fst out), existsb snd out)
  | _ =>
      match frame_meta frame with
      | None => (frame, false)
      | Some meta =>
          if impersonating meta then (on_meta (map_remove CLIENT_INFO_KEY) frame, true)
          else (frame, false)
      end
  end.

Definition strip_impersonating_client_info (frame : Value) : Value * bool :=
  strip_impersonating_client_info_to_depth frame 0.

(** ** Selection *)

(** [init.pointer("/params/_meta/<key>")]. *)
Definition read_meta (init : Value) (key : string) : option Value :=
  value_pointer (meta_path ++ [key]) init.

(** The decision from the entries of [SERVICE_KEYS], in their order. *)
Definition decide_service (entries : list (option Value)) (caller_allowed : list string) :
    ServiceDecision :=
  let flat := omap id entries in
  let malformed := existsb (fun v => negb (is_string v)) flat in
  let conflicting :=
    match entries with
    | [a; b] => match a ≫= as_str, b ≫= as_str with
                | Some a, Some b => negb (String.eqb a b)
                | _, _ => false
                end
    | _ => false
    end in
  let requested := head (omap as_str flat) in
  if malformed || conflicting then Refuse
  else
    match requested with
    | Some name => if decide (name ∈ caller_allowed) then Selected name else Refuse
    | None => match caller_allowed with [name] => Selected name | _ => Refuse end
    end.

Definition select_service (init : Value) (caller_allowed : list string) :
    Value * ServiceDecision :=
  let entries := map (read_meta init) SERVICE_KEYS in
  let frame := (strip_impersonating_client_info (strip_reserved_meta init)).1 in
  (frame, decide_service entries caller_allowed).

(** ** The frames a batch holds

    What a server that unwraps batches acts on, down to a nesting depth. *)
Fixpoint unwrap (n : nat) (v : Value) : list Value :=
  match v with
  | VArray l => match n with 0 => [] | S n => l ≫= unwrap n end
  | v => [v]
  end.

Definition is_batch (v : Value) : bool := match v with VArray _ => true | _ => false end.

(** ** Lemmas *)

Lemma frame_meta_spec v m :
  frame_meta v = Some m <->
  exists top params, v = VObject top /\ map_get "params" top = Some (VObject params) /\
    map_get "_meta" params = Some (VObject m).
Proof.
  unfold frame_meta, value_pointer, meta_path. simpl. unfold value_get. split.
  - intros (meta & H & Hm)%bind_Some. destruct meta; try done. injection Hm as ->.
    apply bind_Some in H as (p & H & Hp). apply bind_Some in Hp as (ps & Hps & Hm).
    destruct p; try done. injection Hps as ->.
    apply bind_Some in H as (top & Htop & Hp). destruct v; try done. injection Htop as ->.
    by exists top, ps.
  - intros (top & params & -> & Hp & Hm). simpl. rewrite Hp. simpl. by rewrite Hm.
Qed.

Lemma frame_meta_on_meta f v : frame_meta (on_meta f v) = f <$> frame_meta v.
Proof.
  destruct (frame_meta v) as [m|] eqn:E; simpl.
  - apply frame_meta_spec in E as (top & params & -> & Hp & Hm).
    apply frame_meta_spec. unfold on_meta, meta_path. simpl.
    eexists _, _. split; [done|]. rewrite map_get_alter, decide_True, Hp by done. simpl.
    split; [done|]. by rewrite map_get_alter, decide_True, Hm.
  - apply eq_None_not_Some. intros [m (top & params & H & Hp & Hm)%frame_meta_spec].
    apply (eq_None_not_Some (frame_meta v)) in E. apply E. unfold on_meta, meta_path in H.
    destruct v as [| | | | |mv]; try done. simpl in H. injection H as <-.
    rewrite map_get_alter, decide_True in Hp by done.
    destruct (map_get "params" mv) as [p|] eqn:Hmp; simpl in Hp; [|done].
    injection Hp as Hp. destruct p as [| | | | |mp]; try done. simpl in Hp. injection Hp as <-.
    rewrite map_get_alter, decide_True in Hm by done.
    destruct (map_get "_meta" mp) as [q|] eqn:Hq; simpl in Hm; [|done].
    injection Hm as Hm. destruct q as [| | | | |mq]; try done.
    exists mq. apply frame_meta_spec. by eexists _, _.
Qed.

Lemma on_meta_on_meta f g v : on_meta f (on_meta g v) = on_meta (f ∘ g) v.
Proof.
  unfold on_meta, meta_path. destruct v as [| | | | |m]; try done. simpl. f_equal.
  rewrite map_alter_alter. apply map_alter_ext. intros p _. unfold compose.
  destruct p as [| | | | |mp]; try done. simpl. f_equal.
  rewrite map_alter_alter. apply map_alter_ext. intros q _. by destruct q.
Qed.

Lemma on_meta_ext f g v :
  (forall m, frame_meta v = Some m -> f m = g m) -> on_meta f v = on_meta g v.
Proof.
  unfold on_meta, meta_path. destruct v as [| | | | |m]; try done. simpl. intros H. f_equal.
  apply map_alter_ext. intros p Hp. destruct p as [| | | | |mp]; try done. simpl. f_equal.
  apply map_alter_ext. intros q Hq. destruct q as [| | | | |mq]; try done.
  rewrite (H mq); [done|]. apply frame_meta_spec. by eexists _, _.
Qed.

Lemma on_meta_id f v : (forall m, frame_meta v = Some m -> f m = m) -> on_meta f v = v.
Proof.
  intros H. transitivity (on_meta id v); [by apply on_meta_ext|].
  unfold on_meta, meta_path. destruct v as [| | | | |m]; try done. simpl. f_equal.
  apply map_alter_id. intros p _. destruct p as [| | | | |mp]; try done. simpl. f_equal.
  apply map_alter_id. intros q _. by destruct q.
Qed.

Lemma is_batch_on_meta f v : is_batch (on_meta f v) = is_batch v.
Proof. by destruct v. Qed.

Lemma unwrap_frame n v : is_batch v = false -> unwrap n v = [v].
Proof. by destruct v, n. Qed.

Lemma elem_of_unwrap_frame n v f : is_batch v = false -> f ∈ unwrap n v -> f = v.
Proof. intros H. rewrite unwrap_frame by done. by intros ->%list_elem_of_singleton. Qed.

(** *** The strips, frame by frame *)

Definition strip_frame : Value -> Value := on_meta (map_retain (fun k => negb (reserved k))).

Definition frame_impersonates (f : Value) : bool :=
  match frame_meta f with Some m => impersonating m | None => false end.

Definition strip_info_frame (f : Value) : Value :=
  if frame_impersonates f then on_meta (map_remove CLIENT_INFO_KEY) f else f.

Lemma strip_to_depth_frame v d :
  is_batch v = false -> strip_reserved_meta_to_depth v d = strip_frame v.
Proof. by destruct v. Qed.

Lemma strip_info_to_depth_frame v d :
  is_batch v = false ->
  strip_impersonating_client_info_to_depth v d = (strip_info_frame v, frame_impersonates v).
Proof.
  intros H. unfold strip_info_frame, frame_impersonates.
  destruct v; try done; cbn [strip_impersonating_client_info_to_depth];
    destruct (frame_meta _) as [m0|]; try done; by destruct (impersonating m0).
Qed.

Lemma bind_map_unwrap n (f g : Value -> Value) l :
  Forall (fun v => unwrap n (f v) = map g (unwrap n v)) l ->
  map f l ≫= unwrap n = map g (l ≫= unwrap n).
Proof.
  induction 1 as [|v l Hv _ IH]; [done|].
  change (map f (v :: l)) with (f v :: map f l).
  by rewrite !bind_cons, List.map_app, Hv, IH.
Qed.

Lemma unwrap_strip v d n :
  d + n = MAX_BATCH_DEPTH ->
  unwrap n (strip_reserved_meta_to_depth v d) = map strip_frame (unwrap n v).
Proof.
  revert d n. induction v as [|b0|n0|s0|l IH|m0 _] using Value_ind'; intros d n Hd;
    try (rewrite strip_to_depth_frame by done; rewrite !unwrap_frame by done; done).
  simpl. destruct n as [|n].
  - replace (Nat.ltb d MAX_BATCH_DEPTH) with false by (symmetry; apply Nat.ltb_ge; lia). done.
  - replace (Nat.ltb d MAX_BATCH_DEPTH) with true by (symmetry; apply Nat.ltb_lt; lia). simpl.
    apply bind_map_unwrap. eapply Forall_impl; [exact IH|]. intros v Hv. apply Hv. lia.
Qed.

Lemma unwrap_strip_info_frame v d n :
  is_batch v = false ->
  unwrap n (strip_impersonating_client_info_to_depth v d).1 = map strip_info_frame (unwrap n v) /\
  (strip_impersonating_client_info_to_depth v d).2 = existsb frame_impersonates (unwrap n v).
Proof.
  intros H. rewrite strip_info_to_depth_frame by done. cbn [fst snd].
  rewrite (unwrap_frame n v) by done. simpl. rewrite orb_false_r. split; [|done].
  apply unwrap_frame. unfold strip_info_frame.
  destruct (frame_impersonates v); [by rewrite is_batch_on_meta|done].
Qed.

Lemma unwrap_strip_info v d n :
  d + n = MAX_BATCH_DEPTH ->
  unwrap n (strip_impersonating_client_info_to_depth v d).1 = map strip_info_frame (unwrap n v) /\
  (strip_impersonating_client_info_to_depth v d).2 = existsb frame_impersonates (unwrap n v).
Proof.
  revert d n. induction v as [|b0|n0|s0|l IH|m0 _] using Value_ind'; intros d n Hd;
    try (by apply unwrap_strip_info_frame).
  cbn [strip_impersonating_client_info_to_depth]. destruct n as [|n].
  - replace (Nat.leb MAX_BATCH_DEPTH d) with true by (symmetry; apply Nat.leb_le; lia). done.
  - replace (Nat.leb MAX_BATCH_DEPTH d) with false by (symmetry; apply Nat.leb_gt; lia).
    cbn [fst snd unwrap]. rewrite !List.map_map. split.
    + apply (bind_map_unwrap n (fun e => (strip_impersonating_client_info_to_depth e (S d)).1)).
      eapply Forall_impl; [exact IH|]. intros v Hv. apply Hv. lia.
    + assert (forall n d, S d + n = MAX_BATCH_DEPTH -> Forall (fun v =>
        (strip_impersonating_client_info_to_depth v (S d)).2 = existsb frame_impersonates (unwrap n v)) l)
        as Hall.
      { intros n' d' Hd'. eapply Forall_impl; [exact IH|]. intros v Hv. by apply Hv. }
      specialize (Hall n d ltac:(lia)). clear IH.
      induction Hall as [|v l Hv _ IHl]; [done|]. simpl. rewrite existsb_app, <- Hv. by f_equal.
Qed.

(** A change of every frame that leaves each of them as it is leaves the value as it is. *)
Lemma strip_to_depth_id v d n :
  d + n = MAX_BATCH_DEPTH -> Forall (fun f => strip_frame f = f) (unwrap n v) ->
  strip_reserved_meta_to_depth v d = v.
Proof.
  revert d n. induction v as [|b0|n0|s0|l IH|m0 _] using Value_ind'; intros d n Hd Hall;
    try (rewrite strip_to_depth_frame by done; rewrite unwrap_frame in Hall by done;
         by apply Forall_cons in Hall as [? _]).
  simpl. destruct n as [|n].
  - by replace (Nat.ltb d MAX_BATCH_DEPTH) with false by (symmetry; apply Nat.ltb_ge; lia).
  - replace (Nat.ltb d MAX_BATCH_DEPTH) with true by (symmetry; apply Nat.ltb_lt; lia).
    f_equal. simpl in Hall. induction IH as [|v l Hv _ IHl]; [done|]. simpl in *.
    apply Forall_app in Hall as [H1 H2]. f_equal; [|by apply IHl].
    apply (Hv (S d) n); [lia|done].
Qed.

Lemma strip_frame_meta f :
  frame_meta (strip_frame f) = map_retain (fun k => negb (reserved k)) <$> frame_meta f.
Proof. apply frame_meta_on_meta. Qed.

Lemma strip_frame_idem f : strip_frame (strip_frame f) = strip_frame f.
Proof.
  apply on_meta_id. intros m. rewrite strip_frame_meta. intros (m' & _ & ->)%fmap_Some.
  rewrite map_retain_retain. apply map_retain_ext. intros k. by rewrite andb_diag.
Qed.

Lemma strip_info_frame_meta f :
  frame_meta (strip_info_frame f) =
    (fun m => if impersonating m then map_remove CLIENT_INFO_KEY m else m) <$> frame_meta f.
Proof.
  unfold strip_info_frame, frame_impersonates. destruct (frame_meta f) as [m|] eqn:E; simpl.
  - destruct (impersonating m); [|done]. rewrite frame_meta_on_meta. by rewrite E.
  - done.
Qed.

Lemma impersonating_removed m : impersonating (map_remove CLIENT_INFO_KEY m) = false.
Proof. unfold impersonating. by rewrite map_get_remove, decide_True. Qed.

Lemma strip_info_frame_clean f : frame_impersonates (strip_info_frame f) = false.
Proof.
  unfold frame_impersonates. rewrite strip_info_frame_meta.
  destruct (frame_meta f) as [m|]; simpl; [|done].
  destruct (impersonating m) eqn:E; [apply impersonating_removed|done].
Qed.

(** ** Properties *)

(** After the strip no frame a server could unwrap, down to the batch depth bound,
    carries a reserved key in its [params._meta]; every other key keeps its value, a value
    with nothing reserved is returned unchanged, and stripping twice is stripping once. *)
Theorem strip_reserved_meta_spec v :
  (forall f m k, f ∈ unwrap MAX_BATCH_DEPTH (strip_reserved_meta v) ->
     frame_meta f = Some m -> reserved k = true -> map_get k m = None) /\
  (forall i f m, unwrap MAX_BATCH_DEPTH v !! i = Some f -> frame_meta f = Some m ->
     exists f' m', unwrap MAX_BATCH_DEPTH (strip_reserved_meta v) !! i = Some f' /\
       frame_meta f' = Some m' /\ forall k, reserved k = false -> map_get k m' = map_get k m) /\
  ((forall f m, f ∈ unwrap MAX_BATCH_DEPTH v -> frame_meta f = Some m ->
      Forall (fun kv => reserved kv.1 = false) m) -> strip_reserved_meta v = v) /\
  strip_reserved_meta (strip_reserved_meta v) = strip_reserved_meta v.
Proof.
  unfold strip_reserved_meta. rewrite (unwrap_strip v 0 MAX_BATCH_DEPTH) by done. split_and!.
  - intros f m k Hf Hm Hk. apply list_elem_of_In, in_map_iff in Hf as (g & <- & _).
    rewrite strip_frame_meta in Hm. apply fmap_Some in Hm as (m' & _ & ->).
    by rewrite map_get_retain, Hk.
  - intros i f m Hi Hm. exists (strip_frame f), (map_retain (fun k => negb (reserved k)) m).
    split_and!.
    + change (map strip_frame ?l) with (strip_frame <$> l). by rewrite list_lookup_fmap, Hi.
    + by rewrite strip_frame_meta, Hm.
    + intros k Hk. by rewrite map_get_retain, Hk.
  - intros Hall. apply (strip_to_depth_id v 0 MAX_BATCH_DEPTH); [done|].
    apply Forall_forall. intros f Hf. apply on_meta_id. intros m Hm.
    apply map_retain_id. eapply Forall_impl; [by apply (Hall f m)|]. by intros kv ->.
  - apply (strip_to_depth_id _ 0 MAX_BATCH_DEPTH); [done|].
    rewrite (unwrap_strip v 0 MAX_BATCH_DEPTH) by done. apply Forall_forall.
    intros f Hf. apply list_elem_of_In, in_map_iff in Hf as (g & <- & _). apply strip_frame_idem.
Qed.

(** After the client-info pass no frame a server could unwrap names itself in the
    principal grammar; the flag returned says whether some frame did, and frames that did
    not, and every other key of those that did, are as they were. *)
Theorem strip_client_info_spec v :
  (forall f, f ∈ unwrap MAX_BATCH_DEPTH (strip_impersonating_client_info v).1 ->
     frame_impersonates f = false) /\
  ((strip_impersonating_client_info v).2 = true <->
     exists f, f ∈ unwrap MAX_BATCH_DEPTH v /\ frame_impersonates f = true) /\
  (forall i f, unwrap MAX_BATCH_DEPTH v !! i = Some f ->
     exists f', unwrap MAX_BATCH_DEPTH (strip_impersonating_client_info v).1 !! i = Some f' /\
       (frame_impersonates f = false -> f' = f) /\
       (forall m k, frame_meta f = Some m -> k <> CLIENT_INFO_KEY ->
          exists m', frame_meta f' = Some m' /\ map_get k m' = map_get k m)).
Proof.
  unfold strip_impersonating_client_info.
  destruct (unwrap_strip_info v 0 MAX_BATCH_DEPTH eq_refl) as [-> ->]. split_and!.
  - intros f Hf. apply list_elem_of_In, in_map_iff in Hf as (g & <- & _).
    apply strip_info_frame_clean.
  - apply existsb_elem.
  - intros i f Hi. exists (strip_info_frame f). split_and!.
    + change (map strip_info_frame ?l) with (strip_info_frame <$> l).
      by rewrite list_lookup_fmap, Hi.
    + intros Hf. unfold strip_info_frame. by rewrite Hf.
    + intros m k Hm Hk. rewrite strip_info_frame_meta, Hm. simpl.
      eexists. split; [done|]. destruct (impersonating m); [|done].
      by rewrite map_get_remove, decide_False.
Qed.

(** What the two spellings of the service key decide. *)
Lemma decide_service_Selected a b allowed name :
  decide_service [a; b] allowed = Selected name <->
  name ∈ allowed /\
  ((a = Some (VString name) \/ b = Some (VString name)) /\
   (forall v, a = Some v -> v = VString name) /\ (forall v, b = Some v -> v = VString name) \/
   a = None /\ b = None /\ allowed = [name]).
Proof.
  assert (Hone : forall s, (if decide (s ∈ allowed) then Selected s else Refuse) = Selected name <->
    s = name /\ name ∈ allowed).
  { intros s. case_decide; split; try done; [by intros [= ->]|by intros [-> _]|by intros [-> ?]]. }
  unfold decide_service.
  destruct a as [va|], b as [vb|]; simpl.
  - destruct va as [| | |sa| |], vb as [| | |sb| |]; simpl; rewrite ?orb_true_r;
      try (split; [done|]; intros (_ & [(_ & H1 & H2)|(? & _)]);
           [try (by specialize (H1 _ eq_refl)); by specialize (H2 _ eq_refl)|done]).
    destruct (String.eqb_spec sa sb) as [->|Hne]; simpl.
    + rewrite Hone. split.
      * intros [-> ?]. split; [done|]. left. split; [by left|]. by split; intros ? [= <-].
      * intros (? & [(_ & H1 & _)|(? & _)]); [|done]. by injection (H1 _ eq_refl).
    + split; [done|]. intros (_ & [(_ & H1 & H2)|(? & _)]); [|done].
      specialize (H1 _ eq_refl). specialize (H2 _ eq_refl). congruence.
  - destruct va as [| | |sa| |]; simpl;
      try (split; [done|]; intros (_ & [(_ & H1 & _)|(? & _)]); [by specialize (H1 _ eq_refl)|done]).
    rewrite Hone. split.
    + intros [-> ?]. split; [done|]. left. split; [by left|]. by split; [intros ? [= <-]|].
    + intros (? & [(_ & H1 & _)|(? & _)]); [|done]. by injection (H1 _ eq_refl).
  - destruct vb as [| | |sb| |]; simpl;
      try (split; [done|]; intros (_ & [(_ & _ & H1)|(_ & ? & _)]); [by specialize (H1 _ eq_refl)|done]).
    rewrite Hone. split.
    + intros [-> ?]. split; [done|]. left. split; [by right|]. by split; [|intros ? [= <-]].
    + intros (? & [(_ & _ & H1)|(_ & ? & _)]); [|done]. by injection (H1 _ eq_refl).
  - split.
    + destruct allowed as [|n [|]]; try done. intros [= ->]. split; [in_list|by right].
    + by intros (_ & [([|] & _)|(_ & _ & ->)]).
Qed.

Lemma select_service_allowed init allowed frame name :
  select_service init allowed = (frame, Selected name) -> name ∈ allowed.
Proof. intros [= _ H]. by apply decide_service_Selected in H as [? _]. Qed.

(** No frame of what a selection hands on has a reserved key. *)
Lemma select_service_clean init allowed frame d f m k :
  select_service init allowed = (frame, d) ->
  f ∈ unwrap MAX_BATCH_DEPTH frame -> frame_meta f = Some m -> reserved k = true ->
  map_get k m = None.
Proof.
  intros [= <- _] Hf Hm Hk. unfold strip_impersonating_client_info in Hf.
  destruct (unwrap_strip_info (strip_reserved_meta init) 0 MAX_BATCH_DEPTH eq_refl) as [Hu _].
  rewrite Hu in Hf. apply list_elem_of_In, in_map_iff in Hf as (g & <- & Hg%list_elem_of_In).
  rewrite strip_info_frame_meta in Hm. apply fmap_Some in Hm as (mg & Hmg & ->).
  unfold strip_reserved_meta in Hg. rewrite (unwrap_strip init 0 MAX_BATCH_DEPTH) in Hg by done.
  apply list_elem_of_In, in_map_iff in Hg as (g' & <- & _).
  rewrite strip_frame_meta in Hmg. apply fmap_Some in Hmg as (m' & _ & ->).
  assert (map_get k (map_retain (fun k => negb (reserved k)) m') = None) as Hnone
    by (by rewrite map_get_retain, Hk).
  destruct (impersonating _); [|done]. rewrite map_get_remove. by case_decide.
Qed.

(** A session is only ever given a service its caller is allowed: the name asked for,
    when every spelling present is a string and they agree, or the caller's one service when
    none is present; in every other case it is refused.  The frame handed on is always the
    stripped one, whatever the decision, and no frame of it has a reserved key left. *)
Theorem select_service_spec init allowed :
  let (frame, decision) := select_service init allowed in
  (forall name, decision = Selected name <->
     name ∈ allowed /\
     ((exists k, k ∈ SERVICE_KEYS /\ read_meta init k = Some (VString name)) /\
      (forall k v, k ∈ SERVICE_KEYS -> read_meta init k = Some v -> v = VString name) \/
      (forall k, k ∈ SERVICE_KEYS -> read_meta init k = None) /\ allowed = [name])) /\
  frame = (strip_impersonating_client_info (strip_reserved_meta init)).1 /\
  (forall f m k, f ∈ unwrap MAX_BATCH_DEPTH frame -> frame_meta f = Some m -> reserved k = true ->
     map_get k m = None).
Proof.
  unfold select_service. split; [|split; [done|]].
  - intros name. unfold SERVICE_KEYS. cbn [map]. rewrite decide_service_Selected.
    set (ka := "tech.counterpunch.mcpmesh/service"%string). set (kb := "mcpmesh/service"%string).
    assert (Hin : forall k, k ∈ [ka; kb] <-> k = ka \/ k = kb) by (intros; in_list).
    setoid_rewrite Hin. split; intros [? H]; (split; [done|]).
    + destruct H as [(H & H1 & H2)|(? & ? & ?)]; [left|right].
      * split; [destruct H; eauto|]. intros k v [-> | ->]; auto.
      * split; [|done]. by intros k [-> | ->].
    + destruct H as [((k & Hk & H) & H1)|(H & ->)]; [left|right].
      * split; [destruct Hk as [-> | ->]; auto|]. split; intros v; apply H1; auto.
      * split; [|split]; auto.
  - intros f m k. eapply (select_service_clean init allowed). reflexivity.
Qed.
