(* ===== verification/Framing.v ===== *)
(** * Wire framing

    [codec/src/lib.rs] (one compact JSON value per line, 16 MiB cap), the strike policy of
    [net/src/framing.rs], the framed transport of [net/src/transport.rs] and the reading
    loop [recv_frame] of [net/src/endpoint.rs].  The byte stream is the sequence of
    outcomes its reads will have: a byte, an I/O error, or the cancellation of the call
    (the future is dropped while the read is pending); past the end every read answers
    zero bytes, the end of the file. *)
From stdpp Require Import base list gmap strings.
From Stdlib Require Import ZArith Lia.
From S2P Require Import Prelude Bytes Json Externals Service.

(** ** The codec *)
Definition MAX_FRAME_BYTES : Z := (16 * 1024 * 1024)%Z.

Inductive Violation := TooLarge | InvalidJson.
Inductive Inbound := Frame (v : Value) | Violated (v : Violation).

Inductive Read :=
| RByte (b : byte)
| RErr (e : string)
| RCancel.
#[export] Instance read_eq_dec : EqDecision Read.
Proof. solve_decision. Defined.

Record FrameReader := {
  fr_reader : list Read;
  fr_max : Z;
  fr_buf : bytes;
  fr_discarding : bool }.

Definition new_reader (reader : list Read) (max_frame : Z) : FrameReader :=
  {| fr_reader := reader; fr_max := max_frame; fr_buf := []; fr_discarding := false |}.

(** The buffered reader half: the bytes not consumed yet. *)
Definition into_inner (r : FrameReader) : list Read := fr_reader r.

(** What [next] answers: an [io::Result<Option<Inbound>>], or nothing when the caller
    dropped the future. *)
Inductive Next :=
| Done (r : result string (option Inbound))
| Dropped.


Section codec.
Context `{J : SerdeJson}.

Definition parse_line (line : bytes) : Inbound :=
  match json_from_slice line with
  | Some v => Frame v
  | None => Violated InvalidJson
  end.

(** The loop of [FrameReader::next], on the three pieces of parser state. *)
Fixpoint next_loop (max : Z) (reads : list Read) (buf : bytes) (discarding : bool) :
    Next * FrameReader :=
  let state rest buf d :=
    {| fr_reader := rest; fr_max := max; fr_buf := buf; fr_discarding := d |} in
  match reads with
  | [] =>
      if discarding then (Done (Ok (Some (Violated TooLarge))), state [] buf false)
      else (Done (Ok None), state [] buf false)
  | RErr e :: rest => (Done (Err e), state rest buf discarding)
  | RCancel :: rest => (Dropped, state rest buf discarding)
  | RByte b :: rest =>
      if decide (b = newline) then
        if discarding then (Done (Ok (Some (Violated TooLarge))), state rest buf false)
        else (Done (Ok (Some (parse_line buf))), state rest [] false)
      else if discarding then next_loop max rest buf true
      else if (max <=? Z.of_nat (length buf))%Z then next_loop max rest [] true
      else next_loop max rest (buf ++ [b]) false
  end.

Definition next (r : FrameReader) : Next * FrameReader :=
  next_loop (fr_max r) (fr_reader r) (fr_buf r) (fr_discarding r).

(** The bytes [write_frame] puts on the stream. *)
Definition frame_bytes (frame : Value) : bytes := json_to_vec frame ++ [newline].
End codec.

(** ** The transport

    The write half: the bytes the peer gets, the outcomes of the writes still to come
    ([true] fails; past the end they succeed), and whether it was finished.  [None] is a
    closed transport. *)
Record Writer := {
  w_sent : bytes;
  w_faults : list bool;
  w_finished : bool }.

Record NdjsonTransport := {
  t_reader : FrameReader;
  t_writer : option Writer }.

Inductive RecvError := Io (e : string) | RecvViolation (v : Violation).

Definition new_transport (reads : list Read) (w : Writer) (max_frame : Z) : NdjsonTransport :=
  {| t_reader := new_reader reads max_frame; t_writer := Some w |}.

(** [shutdown]: finish the write half; the outcome is ignored by every caller. *)
Definition finish_writer (w : Writer) : Writer :=
  {| w_sent := w_sent w; w_faults := w_faults w; w_finished := true |}.
Definition shutdown (t : NdjsonTransport) : NdjsonTransport :=
  {| t_reader := t_reader t; t_writer := finish_writer <$> t_writer t |}.

(** [close]: the writer is taken. *)
Definition close (t : NdjsonTransport) : NdjsonTransport :=
  {| t_reader := t_reader t; t_writer := None |}.

Section transport.
Context `{J : SerdeJson}.

(** [write_frame]: a failed or finished writer reports an error. What of the frame had gone out
    when the write failed is not counted: it ends in no newline, so it is never a frame. *)
Definition write_frame (w : Writer) (frame : Value) : result string unit * Writer :=
  if w_finished w then (Err "finished"%string, w)
  else match w_faults w with
       | true :: fs => (Err "io"%string,
           {| w_sent := w_sent w; w_faults := fs; w_finished := w_finished w |})
       | fs => (Ok (),
           {| w_sent := w_sent w ++ frame_bytes frame; w_faults := tail fs;
              w_finished := w_finished w |})
       end.

(** [send_value], through [send_locked]. *)
Definition send_value (t : NdjsonTransport) (v : Value) : result string unit * NdjsonTransport :=
  match t_writer t with
  | Some w =>
      let (r, w) := write_frame w v in
      (r, {| t_reader := t_reader t; t_writer := Some w |})
  | None => (Err "transport closed"%string, t)
  end.

(** [recv_value]; [None] when the future was dropped. *)
Definition recv_value (t : NdjsonTransport) :
    option (result RecvError (option Value)) * NdjsonTransport :=
  let (o, r) := next (t_reader t) in
  let t := {| t_reader := r; t_writer := t_writer t |} in
  (match o with
   | Dropped => None
   | Done (Err e) => Some (Err (Io e))
   | Done (Ok None) => Some (Ok None)
   | Done (Ok (Some (Frame v))) => Some (Ok (Some v))
   | Done (Ok (Some (Violated v))) => Some (Err (RecvViolation v))
   end, t).
End transport.

(** ** Strikes *)
Abbreviation Strikes := Z (only parsing).
Inductive StrikeOutcome := Continue | Close.

Definition register (s : Strikes) : StrikeOutcome * Strikes :=
  let s := u8_saturating_add s 1 in
  (if (3 <=? s)%Z then Close else Continue, s).

(** The code and wording of the answer to a violation. *)
Definition violation_answer (v : Violation) : Value :=
  match v with
  | TooLarge => synthesized VNull ERR_FRAMING "frame exceeds max_frame_bytes"
  | InvalidJson => synthesized VNull ERR_PARSE "frame is not valid JSON"
  end.

Section recv.
Context `{J : SerdeJson}.

(** What [recv_frame] ends with: [Some] frame, a clean end, or the caller dropped it. *)
Inductive Recv :=
| Received (v : option Value)
| RecvDropped.

(** [recv_frame]; every turn of the loop but the last consumes a line or the end of one,
    so the reads left bound it ([recv_frame_total]). *)
Fixpoint recv_frame_fuel (fuel : nat) (t : NdjsonTransport) (s : Strikes) :
    option (Recv * NdjsonTransport * Strikes) :=
  match fuel with
  | O => None
  | S fuel =>
      match recv_value t with
      | (None, t) => Some (RecvDropped, t, s)
      | (Some (Ok (Some v)), t) => Some (Received (Some v), t, s)
      | (Some (Ok None), t) => Some (Received None, t, s)
      | (Some (Err (Io _)), t) => Some (Received None, t, s)
      | (Some (Err (RecvViolation v)), t) =>
          let (_, t) := send_value t (violation_answer v) in
          match register s with
          | (Close, s) => Some (Received None, shutdown t, s)
          | (Continue, s) => recv_frame_fuel fuel t s
          end
      end
  end.

(** Reads left, plus the line being skipped. *)
Definition fuel_of (r : FrameReader) : nat :=
  length (fr_reader r) + (if fr_discarding r then 1 else 0).

Definition recv_frame (t : NdjsonTransport) (s : Strikes) :
    option (Recv * NdjsonTransport * Strikes) :=
  recv_frame_fuel (S (fuel_of (t_reader t))) t s.
End recv.

(** ** The reference: lines of the byte stream

    Reading until the end of the stream, or an I/O error: dropped calls are repeated. *)
Section reference.
Context `{J : SerdeJson}.

Fixpoint drain (fuel : nat) (r : FrameReader) : option (list Inbound * option string) :=
  match fuel with
  | O => None
  | S fuel =>
      match next r with
      | (Dropped, r) => drain fuel r
      | (Done (Err e), _) => Some ([], Some e)
      | (Done (Ok None), _) => Some ([], None)
      | (Done (Ok (Some x)), r) => prod_map (cons x) id <$> drain fuel r
      end
  end.

(** The bytes before the first I/O error, and that error. *)
Fixpoint observed (reads : list Read) : bytes * option string :=
  match reads with
  | [] => ([], None)
  | RByte b :: reads => prod_map (cons b) id (observed reads)
  | RErr e :: _ => ([], Some e)
  | RCancel :: reads => observed reads
  end.

(** Complete lines, and what follows the last newline. *)
Fixpoint lines (bs : bytes) : list bytes * bytes :=
  match bs with
  | [] => ([], [])
  | b :: bs =>
      let '(ls, rest) := lines bs in
      if decide (b = newline) then ([] :: ls, rest)
      else match ls with
           | [] => ([], b :: rest)
           | l :: ls => ((b :: l) :: ls, rest)
           end
  end.

Definition classify (max : Z) (line : bytes) : Inbound :=
  if (Z.of_nat (length line) <=? max)%Z then parse_line line else Violated TooLarge.

(** Each complete line is one frame or one violation; an unfinished last line counts only
    when the stream ended cleanly and the line was already over the cap. *)
Definition reference (max : Z) (o : bytes * option string) : list Inbound * option string :=
  let '(ls, rest) := lines o.1 in
  ((classify max <$> ls) ++
     (if o.2 is Some _ then [] else
      if (Z.of_nat (length rest) <=? max)%Z then [] else [Violated TooLarge]), o.2).

(** The reference with the part [p] of the current line already read. *)
Fixpoint from_line (max : Z) (p : bytes) (reads : list Read) : list Inbound * option string :=
  match reads with
  | [] => ((if (Z.of_nat (length p) <=? max)%Z then [] else [Violated TooLarge]), None)
  | RErr e :: _ => ([], Some e)
  | RCancel :: reads => from_line max p reads
  | RByte b :: reads =>
      if decide (b = newline) then prod_map (cons (classify max p)) id (from_line max [] reads)
      else from_line max (p ++ [b]) reads
  end.

Lemma lines_app_free p bs :
  newline ∉ p ->
  lines (p ++ bs) =
    match (lines bs).1 with
    | [] => ([], p ++ (lines bs).2)
    | l :: ls => ((p ++ l) :: ls, (lines bs).2)
    end.
Proof.
  intros Hp. induction p as [|b p IH]; simpl; [by destruct (lines bs) as [[] ?]|].
  rewrite IH by set_solver. destruct (lines bs) as [[|l ls] rest]; simpl;
    rewrite decide_False; try done; intros ->; set_solver.
Qed.

Lemma from_line_reference max p reads :
  newline ∉ p ->
  from_line max p reads = reference max (prod_map (app p) id (observed reads)).
Proof.
  unfold reference. revert p; induction reads as [|[b|e|] reads IH]; intros p Hp; simpl.
  - rewrite lines_app_free by done. simpl. by rewrite app_nil_r.
  - case_decide as Hb.
    + subst b. rewrite IH by set_solver. destruct (observed reads) as [bs e]; simpl.
      rewrite lines_app_free by done. simpl. destruct (lines bs) as [ls rest]; simpl.
      by rewrite app_nil_r.
    + rewrite IH by set_solver. destruct (observed reads) as [bs e]; simpl.
      by rewrite <- app_assoc.
  - rewrite lines_app_free by done. done.
  - by apply IH.
Qed.

(** The parser state after the part [p] of a line. *)
Definition at_line (max : Z) (p buf : bytes) (d : bool) : Prop :=
  if d then buf = [] /\ (max < Z.of_nat (length p))%Z else buf = p /\ (Z.of_nat (length p) <= max)%Z.

(** What one call of [next] leaves of the reference. *)
Definition next_post (max : Z) (p : bytes) (reads : list Read) (d : bool) (o : Next)
    (r : FrameReader) : Prop :=
  fr_max r = max /\
  match o with
  | Dropped => exists p', at_line max p' (fr_buf r) (fr_discarding r) /\
      from_line max p reads = from_line max p' (fr_reader r) /\
      (fuel_of r < length reads + (if d then 1 else 0))%nat
  | Done (Err e) => from_line max p reads = ([], Some e)
  | Done (Ok None) => from_line max p reads = ([], None)
  | Done (Ok (Some x)) => fr_discarding r = false /\ fr_buf r = [] /\
      from_line max p reads = prod_map (cons x) id (from_line max [] (fr_reader r)) /\
      (fuel_of r < length reads + (if d then 1 else 0))%nat
  end.

Lemma next_post_step max p reads d d' o r b :
  b <> newline -> next_post max (p ++ [b]) reads d' o r ->
  next_post max p (RByte b :: reads) d o r.
Proof.
  intros Hb [Hm Hpost]. split; [done|]. destruct o as [[[x|]|e]|]; simpl;
    rewrite ?decide_False by done; try done.
  - destruct Hpost as (? & ? & ? & ?). split_and!; try done. destruct d, d'; lia.
  - destruct Hpost as (p' & ? & ? & ?). exists p'. split_and!; try done. destruct d, d'; lia.
Qed.

Lemma next_loop_from_line max reads p buf d o r :
  (0 <= max)%Z -> at_line max p buf d -> next_loop max reads buf d = (o, r) ->
  next_post max p reads d o r.
Proof.
  intros Hmax. revert p buf d. induction reads as [|[b|e|] reads IH]; intros p buf d Hp; simpl.
  - destruct d; intros [= <- <-]; split; simpl; try done; destruct Hp as [-> Hp].
    + rewrite (proj2 (Z.leb_gt _ _)), (proj2 (Z.leb_le _ _)) by lia. split_and!; try done. unfold fuel_of; simpl; lia.
    + by rewrite (proj2 (Z.leb_le _ _)) by lia.
  - case_decide as Hb; [destruct d; intros [= <- <-]; destruct Hp as [-> Hp]|].
    + split; simpl; [done|]. rewrite decide_True by done. unfold classify.
      rewrite (proj2 (Z.leb_gt _ _)) by lia. split_and!; try done. unfold fuel_of; simpl; lia.
    + split; simpl; [done|]. rewrite decide_True by done. unfold classify.
      rewrite (proj2 (Z.leb_le _ _)) by lia. split_and!; try done. unfold fuel_of; simpl; lia.
    + intros Hn. destruct d; [|destruct (Z.leb_spec max (Z.of_nat (length buf)))];
        destruct Hp as [-> Hp]; (eapply next_post_step; [done|]; eapply IH; [|exact Hn]);
        split; try done; rewrite length_app; simpl; lia.
  - by intros [= <- <-].
  - intros [= <- <-]. split; [done|]. exists p. split_and!; try done. unfold fuel_of; simpl; lia.
Qed.

Lemma drain_from_line fuel r p :
  (0 <= fr_max r)%Z -> at_line (fr_max r) p (fr_buf r) (fr_discarding r) ->
  (fuel_of r < fuel)%nat -> drain fuel r = Some (from_line (fr_max r) p (fr_reader r)).
Proof.
  revert r p; induction fuel as [|fuel IH]; intros r p Hmax Hp Hf; [lia|]. simpl.
  destruct (next r) as [o r'] eqn:Hn.
  destruct (next_loop_from_line _ _ _ _ _ _ _ Hmax Hp Hn) as [Hm Hpost].
  destruct o as [[[x|]|e]|]; [|by rewrite Hpost..|].
  - destruct Hpost as (Hd & Hb & -> & Hl). rewrite (IH r' []); rewrite ?Hm, ?Hb, ?Hd; try done.
    unfold fuel_of in *. lia.
  - destruct Hpost as (p' & Hp' & -> & ?). rewrite (IH r' p'); rewrite ?Hm; try done.
    unfold fuel_of in *. lia.
Qed.

Lemma next_loop_suffix max reads buf d o r :
  next_loop max reads buf d = (o, r) ->
  fr_reader r `suffix_of` reads /\ (o = Dropped -> RCancel ∈ reads).
Proof.
  revert buf d; induction reads as [|[b|e|] reads IH]; intros buf d; simpl.
  - destruct d; by intros [= <- <-].
  - intros Hn.
    assert (Hrec : forall buf d, next_loop max reads buf d = (o, r) ->
      fr_reader r `suffix_of` RByte b :: reads /\ (o = Dropped -> RCancel ∈ RByte b :: reads)).
    { intros buf' d' [? Hd]%IH. split; [by apply suffix_cons_r|]. intros ->. right. by apply Hd. }
    case_all; try (by eapply Hrec); split; try done; by apply suffix_cons_r.
  - intros [= <- <-]. split; [by apply suffix_cons_r|done].
  - intros [= <- <-]. split; [by apply suffix_cons_r|]. intros _; left.
Qed.

(** The reader never holds more than the cap, and holds nothing between frames. *)
Definition reader_ok (r : FrameReader) : Prop :=
  if fr_discarding r then fr_buf r = [] else (Z.of_nat (length (fr_buf r)) <= fr_max r)%Z.

Lemma next_loop_ok max reads buf d o r :
  (0 <= max)%Z ->
  reader_ok {| fr_reader := reads; fr_max := max; fr_buf := buf; fr_discarding := d |} ->
  next_loop max reads buf d = (o, r) ->
  reader_ok r /\ fr_max r = max /\
  forall x, o = Done (Ok (Some x)) -> fr_buf r = [] /\ fr_discarding r = false.
Proof.
  unfold reader_ok; simpl. intros Hmax.
  revert buf d; induction reads as [|[b|e|] reads IH]; intros buf d Hok; simpl.
  - destruct d; intros [= <- <-]; subst; simpl; split_and!; done || lia.
  - case_decide; [destruct d; intros [= <- <-]; subst; simpl; split_and!; done || lia|].
    destruct d; [by apply IH|]. destruct (Z.leb_spec max (Z.of_nat (length buf))); [by apply IH|].
    apply IH. rewrite length_app; simpl; lia.
  - intros [= <- <-]; simpl. by split_and!.
  - intros [= <- <-]; simpl. by split_and!.
Qed.

Lemma new_reader_at_line reads max : (0 <= max)%Z ->
  at_line max [] (fr_buf (new_reader reads max)) (fr_discarding (new_reader reads max)).
Proof. by split. Qed.

Lemma drain_new fuel reads max :
  (0 <= max)%Z -> (length reads < fuel)%nat ->
  drain fuel (new_reader reads max) = Some (reference max (observed reads)).
Proof.
  intros. rewrite (drain_from_line _ _ []); [|done|by apply new_reader_at_line|].
  - rewrite from_line_reference by (apply not_elem_of_nil). simpl.
    by destruct (observed reads).
  - unfold fuel_of; simpl; lia.
Qed.

Lemma observed_bytes bs : observed (RByte <$> bs) = (bs, None).
Proof. induction bs as [|b bs IH]; [done|]. rewrite fmap_cons. simpl. by rewrite IH. Qed.

Lemma lines_frames `{!SerdeJsonLaws J} vs :
  lines (vs ≫= frame_bytes) = (json_to_vec <$> vs, []).
Proof.
  induction vs as [|v vs IH]; [done|]. rewrite bind_cons. unfold frame_bytes at 1.
  rewrite <- app_assoc, lines_app_free by apply json_no_newline. simpl. rewrite IH. simpl.
  by rewrite app_nil_r.
Qed.
End reference.

(** ** The reading loop *)
Section recv_lemmas.
Context `{J : SerdeJson}.

(** The transport after answering the violations [vs]. *)
Definition answer_all (vs : list Violation) (t : NdjsonTransport) : NdjsonTransport :=
  foldl (fun t v => (send_value t (violation_answer v)).2) t vs.

Definition with_reader (r : FrameReader) (t : NdjsonTransport) : NdjsonTransport :=
  {| t_reader := r; t_writer := t_writer t |}.

Lemma send_value_reader t v : t_reader (send_value t v).2 = t_reader t.
Proof. unfold send_value. destruct (t_writer t) as [w|]; [|done]. destruct (write_frame w v); done. Qed.

Lemma answer_all_with_reader r vs t : answer_all vs (with_reader r t) = with_reader r (answer_all vs t).
Proof.
  revert t; induction vs as [|v vs IH]; intros t; simpl; [done|]. rewrite <- IH. f_equal.
  unfold send_value, with_reader; simpl. destruct (t_writer t) as [w|] eqn:Hw; simpl; [|by rewrite Hw].
  by destruct (write_frame w _).
Qed.

(** What the loop does to the lines [items] still to come: the violations [vs] are
    answered in order, up to the first frame, the end or the third strike. *)
Definition recv_post (t : NdjsonTransport) (s : Strikes) (vs : list Violation)
    (v : option Value) (t' : NdjsonTransport) : Prop :=
  let max := fr_max (t_reader t) in
  let items := from_line max [] (fr_reader (t_reader t)) in
  exists r', fr_max r' = max /\ RCancel ∉ fr_reader r' /\
  match v with
  | Some f => t' = with_reader (new_reader (into_inner r') max) (answer_all vs t) /\
      (s + Z.of_nat (length vs) < 3)%Z /\
      items = prod_map (app ((Violated <$> vs) ++ [Frame f])) id (from_line max [] (into_inner r'))
  | None =>
      (t' = with_reader r' (answer_all vs t) /\ (s + Z.of_nat (length vs) < 3)%Z /\
       items.1 = Violated <$> vs) \/
      (t' = shutdown (with_reader r' (answer_all vs t)) /\ (s + Z.of_nat (length vs) = 3)%Z /\
       Violated <$> vs `prefix_of` items.1)
  end.

Lemma new_reader_eta r : fr_buf r = [] -> fr_discarding r = false ->
  r = new_reader (into_inner r) (fr_max r).
Proof. destruct r; simpl. by intros -> ->. Qed.

Lemma recv_post_cons t r' s x vs v t' :
  fr_max r' = fr_max (t_reader t) -> r' = new_reader (into_inner r') (fr_max r') ->
  from_line (fr_max (t_reader t)) [] (fr_reader (t_reader t)) =
    prod_map (cons (Violated x)) id (from_line (fr_max (t_reader t)) [] (fr_reader r')) ->
  recv_post (send_value (with_reader r' t) (violation_answer x)).2 (s + 1) vs v t' ->
  recv_post t s (x :: vs) v t'.
Proof.
  intros Hm Hr Hl (r2 & Hm2 & Hc2 & Hv). unfold recv_post. exists r2.
  rewrite send_value_reader in *. simpl in Hm2, Hv. rewrite Hm in *.
  assert (Ha : forall r, with_reader r
    (answer_all vs (send_value (with_reader r' t) (violation_answer x)).2) =
    with_reader r (answer_all (x :: vs) t)).
  { intros r. change (answer_all vs _) with (answer_all (x :: vs) (with_reader r' t)).
    by rewrite answer_all_with_reader. }
  split; [congruence|]. split; [done|]. rewrite Hl. destruct v as [f|].
  - destruct Hv as (-> & Hs & ->). rewrite Ha. split_and!; [done|simpl; lia|].
    by destruct (from_line _ _ (into_inner r2)).
  - destruct (from_line _ [] (fr_reader r')) as [items e]; simpl in *.
    destruct Hv as [(-> & Hs & ->)|(-> & Hs & Hp)]; [left|right]; rewrite Ha;
      (split_and!; [done|lia|]); [done|by apply prefix_cons].
Qed.

Lemma recv_frame_fuel_spec fuel t s :
  (0 <= fr_max (t_reader t))%Z -> (0 <= s < 3)%Z ->
  t_reader t = new_reader (into_inner (t_reader t)) (fr_max (t_reader t)) ->
  RCancel ∉ fr_reader (t_reader t) -> (fuel_of (t_reader t) < fuel)%nat ->
  exists vs v t', recv_frame_fuel fuel t s =
    Some (Received v, t', (s + Z.of_nat (length vs))%Z) /\ recv_post t s vs v t'.
Proof.
  revert t s; induction fuel as [|fuel IH]; intros t s Hmax Hs Hr Hc Hf; [lia|].
  simpl. unfold recv_value. destruct (next (t_reader t)) as [o r'] eqn:Hn.
  destruct (next_loop_suffix _ _ _ _ _ _ Hn) as [[l Hsuf] Hdrop].
  assert (Hc' : RCancel ∉ fr_reader r') by (rewrite Hsuf in Hc; set_solver).
  assert (Hp : next_post (fr_max (t_reader t)) [] (fr_reader (t_reader t)) false o r').
  { rewrite Hr in Hn. by eapply next_loop_from_line, Hn. }
  destruct Hp as [Hm Hpost].
  assert (Hend : forall o', o' = [] /\ from_line (fr_max (t_reader t)) [] (fr_reader (t_reader t))
      = (o', match o with Done (Err e) => Some e | _ => None end) ->
    recv_post t s [] None (with_reader r' t)).
  { intros o' [-> Hl]. exists r'. split_and!; [done..|]. left. rewrite Hl. split_and!; [done| |done].
    simpl; lia. }
  destruct o as [[[[f|x]|]|e]|]; [| | | |by destruct (Hc (Hdrop eq_refl))].
  - destruct Hpost as (Hd & Hb & Hl & _). exists [], (Some f), (with_reader r' t).
    split; [simpl; by rewrite Z.add_0_r|]. exists r'. split_and!; try done; [|simpl; lia].
    simpl. by rewrite <- Hm, <- new_reader_eta.
  - destruct Hpost as (Hd & Hb & Hl & Hlt).
    pose proof (new_reader_eta _ Hb Hd) as Hr'.
    assert (fuel_of r' < fuel)%nat by (unfold fuel_of in Hf; lia).
    fold (with_reader r' t). pose proof (recv_post_cons t r' s x) as Hcons.
    rewrite Hm in Hr'. specialize (fun vs v t' => Hcons vs v t' Hm).
    destruct (send_value _ _) as [res t1] eqn:Hsv.
    assert (Ht1 : t_reader t1 = r') by (change t1 with (res, t1).2; by rewrite <- Hsv, send_value_reader).
    unfold register, u8_saturating_add, clamp, u8_max.
    rewrite (Z.max_r 0), Z.min_r by lia. destruct (Z.leb_spec 3 (s + 1)).
    + exists [x], None, (shutdown t1). split; [done|].
      apply Hcons; [by rewrite Hm|done|]. exists r'. simpl. rewrite Ht1.
      split_and!; try done. right. split_and!; [|lia|by apply prefix_nil].
      f_equal. destruct t1; simpl in *; by subst.
    + destruct (IH t1 (s + 1)%Z) as (vs & v & t' & -> & Hp); rewrite ?Ht1, ?Hm; try done; [lia|].
      exists (x :: vs), v, t'. split; [do 2 f_equal; simpl; lia|]. apply Hcons; [by rewrite Hm|done..].
  - exists [], None, (with_reader r' t). split; [simpl; by rewrite Z.add_0_r|by eapply Hend].
  - exists [], None, (with_reader r' t). split; [simpl; by rewrite Z.add_0_r|by eapply Hend].
Qed.
End recv_lemmas.

(** ** Properties *)
Section properties.
Context `{J : SerdeJson, JL : !SerdeJsonLaws J}.

(** C14: whatever the cuts between reads and however often a call is dropped and repeated,
    reading until the stream ends yields exactly the reference: each complete line of the
    bytes that arrived is one frame, or one violation when it is over the cap or not JSON;
    a violation never costs a following frame, an unfinished line is dropped (reported when
    it was over the cap), and an I/O error ends the reading after the complete lines. *)
Theorem framing_reference reads max fuel :
  (0 <= max)%Z -> (length reads < fuel)%nat ->
  drain fuel (new_reader reads max) = Some (reference max (observed reads)).
Proof. apply drain_new. Qed.

(** Frames written one after the other are read back exactly, provided each fits the
    cap. *)
Theorem frames_roundtrip vs max :
  Forall (fun v => plain_value v = true /\ (Z.of_nat (length (json_to_vec v)) <= max)%Z) vs ->
  (0 <= max)%Z ->
  drain (S (length (vs ≫= frame_bytes))) (new_reader (RByte <$> (vs ≫= frame_bytes)) max) =
    Some (Frame <$> vs, None).
Proof.
  intros Hvs Hmax. rewrite drain_new by (rewrite ?length_fmap; lia).
  rewrite observed_bytes. unfold reference; simpl. rewrite lines_frames; simpl.
  rewrite (proj2 (Z.leb_le _ _)), app_nil_r by lia. repeat f_equal.
  induction Hvs as [|v vs [Hp Hl] _ IH]; [done|]. simpl. f_equal; [|done].
  unfold classify, parse_line. by rewrite (proj2 (Z.leb_le _ _)), json_from_to.
Qed.

(** The reader never buffers more than the cap, and between frames it buffers nothing,
    so handing its inner reader on loses no byte. *)
Theorem reader_bounded r o r' :
  (0 <= fr_max r)%Z -> reader_ok r -> next r = (o, r') ->
  reader_ok r' /\ (Z.of_nat (length (fr_buf r')) <= fr_max r')%Z /\
  forall x, o = Done (Ok (Some x)) -> r' = new_reader (into_inner r') (fr_max r).
Proof.
  intros Hmax Hok Hn. destruct r as [reads max buf d].
  destruct (next_loop_ok max reads buf d o r' Hmax Hok Hn) as (Hok' & Hm & Hx).
  split; [done|]. split.
  - unfold reader_ok in Hok'. simpl in *. destruct (fr_discarding r'); [rewrite Hok'; simpl; lia|done].
  - intros x Ho. destruct (Hx x Ho) as [Hb Hd]. destruct r'; simpl in *. by subst.
Qed.

(** Reading the next frame of a session always ends: the violations before it are
    answered one by one with the marked -32051 or -32700 error, the frame after fewer than
    three of them is returned with the rest of the stream untouched, and the third strike
    finishes the write half and ends the session whatever follows. *)
Theorem recv_frame_spec t s reads max :
  (0 <= max)%Z -> (0 <= s < 3)%Z -> t_reader t = new_reader reads max -> RCancel ∉ reads ->
  exists vs v t', recv_frame t s = Some (Received v, t', (s + Z.of_nat (length vs))%Z) /\
  let items := reference max (observed reads) in
  let w := t_writer (answer_all vs t) in
  match v with
  | Some f => (s + Z.of_nat (length vs) < 3)%Z /\ t_writer t' = w /\
      exists rest, t_reader t' = new_reader rest max /\
        items = prod_map (app ((Violated <$> vs) ++ [Frame f])) id (reference max (observed rest))
  | None =>
      ((s + Z.of_nat (length vs) < 3)%Z /\ t_writer t' = w /\ items.1 = Violated <$> vs) \/
      ((s + Z.of_nat (length vs) = 3)%Z /\ t_writer t' = finish_writer <$> w /\
       Violated <$> vs `prefix_of` items.1)
  end.
Proof.
  intros Hmax Hs Hr Hc.
  destruct (recv_frame_fuel_spec (S (fuel_of (t_reader t))) t s)
    as (vs & v & t' & Hrun & r' & Hm & _ & Hv); rewrite ?Hr in *; try done; [lia|].
  exists vs, v, t'. split; [unfold recv_frame; by rewrite Hr|]. simpl in *.
  assert (Href : forall l, reference max (observed l) = from_line max [] l).
  { intros l. rewrite from_line_reference by (apply not_elem_of_nil).
    simpl. by destruct (observed l). }
  rewrite Href. destruct v as [f|].
  - destruct Hv as (-> & ? & Hl). split_and!; [done|done|]. exists (into_inner r').
    split; [done|]. by rewrite Href.
  - destruct Hv as [(-> & ? & Hl)|(-> & ? & Hl)]; [left|right]; by split_and!.
Qed.
End properties.

(** ** Witnesses *)
Module Witness.
Import Toy.

Definition hello : Value := VObject [("id"%string, VNumber (NInt 1))].
(** A junk line, then a frame cut by a dropped call. *)
Definition stream : list Read :=
  (RByte <$> (as_bytes "junk" ++ [newline])) ++ [RCancel] ++ (RByte <$> frame_bytes hello).
Definition clean : list Read :=
  (RByte <$> (as_bytes "junk" ++ [newline])) ++ (RByte <$> frame_bytes hello).
Definition transport : NdjsonTransport :=
  new_transport clean {| w_sent := []; w_faults := [true]; w_finished := false |} 64.

Lemma framing_reference_witness :
  drain 100 (new_reader stream 64) = Some ([Violated InvalidJson; Frame hello], None).
Proof.
  rewrite (framing_reference stream 64 100).
  - vm_compute. reflexivity.
  - lia.
  - vm_compute. lia.
Defined.

Lemma frames_roundtrip_witness :
  drain (S (length ([hello; hello] ≫= frame_bytes)))
    (new_reader (RByte <$> ([hello; hello] ≫= frame_bytes)) 64)
    = Some ([Frame hello; Frame hello], None).
Proof.
  apply (frames_roundtrip [hello; hello] 64); [|lia].
  repeat constructor; vm_compute; discriminate.
Defined.

Lemma reader_bounded_witness :
  reader_ok (next (new_reader stream 3)).2.
Proof.
  refine (proj1 (reader_bounded (new_reader stream 3) _ _ _ _ (surjective_pairing _))).
  - simpl. lia.
  - unfold reader_ok. simpl. lia.
Defined.

Lemma recv_frame_spec_witness : exists t',
  recv_frame transport 0 = Some (Received (Some hello), t', 1%Z).
Proof.
  destruct (recv_frame_spec transport 0 clean 64) as (vs & v & t' & Hr & Hv).
  - lia.
  - lia.
  - reflexivity.
  - apply (bool_decide_unpack _). vm_compute. exact I.
  - exists t'. assert (Hv' : (fun x => (x.1.1, x.2)) <$> recv_frame transport 0 =
      Some (Received (Some hello), 1%Z)) by (vm_compute; reflexivity).
    rewrite Hr in *. cbn [fmap option_fmap option_map fst snd] in Hv'.
    by injection Hv' as -> ->.
Defined.
End Witness.

