(* ===== verification/Hooks.v ===== *)
(** * Dialled connections

    [node/src/daemon/hooks.rs] and the outbound predicate [refused_by] of
    [node/src/daemon/dial.rs]: the registry of the connections this node dialled, the two
    endpoint hooks and the close pass of a revoke.  A connection is the number of its
    handle; the watcher of its close and every other task are steps of a transition
    system, so the theorem holds for every interleaving. *)
From stdpp Require Import base list gmap strings relations.
From Stdlib Require Import ZArith Lia Strings.Byte.
From S2P Require Import Prelude Bytes Externals Validate Identity Allowlist.

Section hooks.
Context `{R : RowCodec}.

Definition refused_by (io : Io) (store : PeerStore) (view : option RosterView) (id : key32) : bool :=
  if is_refused io store id then true
  else
    match view with
    | None => false
    | Some view =>
        Validate.is_revoked view id ||
        match Validate.resolve view id with
        | Some d => is_roster_user_revoked io store (rd_user_id d)
        | None => false
        end
    end.

(** ** The registry *)
Record PeerConns := {
  pc_inner : gmap key32 (gmap N N);
  pc_seq : N }.

Definition no_conns : PeerConns := {| pc_inner := ∅; pc_seq := 0 |}.

(** The key is what [fetch_add] on the 64-bit counter returns. *)
Definition insert_conn (id : key32) (conn : N) (p : PeerConns) : N * PeerConns :=
  let key := pc_seq p in
  (key,
   {| pc_inner := <[id := <[key := conn]> (default ∅ (pc_inner p !! id))]> (pc_inner p);
      pc_seq := ((pc_seq p + 1) mod 2 ^ 64)%N |}).

Definition remove_conn (id : key32) (key : N) (p : PeerConns) : PeerConns :=
  match pc_inner p !! id with
  | None => p
  | Some conns =>
      let conns := delete key conns in
      {| pc_inner := if decide (conns = ∅) then delete id (pc_inner p)
                     else <[id := conns]> (pc_inner p);
         pc_seq := pc_seq p |}
  end.

Definition conns_len (p : PeerConns) : nat :=
  foldr (fun kv n => size kv.2 + n) 0 (map_to_list (pc_inner p)).

Definition remote_ids (p : PeerConns) : gset key32 := dom (pc_inner p).

(** The connections [close_ids] closes: a handle upgrades while its connection is [alive]. *)
Definition close_ids (ids : gset key32) (alive : N -> bool) (p : PeerConns) : list N :=
  filter (fun c => alive c = true)
    (flat_map (fun kv => if decide (kv.1 ∈ ids) then (map_to_list kv.2).*2 else [])
       (map_to_list (pc_inner p))).

(** The refusal reads of one close pass, over the ids it read. *)
Definition refused_of (io : Io) (store : PeerStore) (view : option RosterView) (ids : gset key32) :
    gset key32 :=
  filter (fun id => refused_by io store view id = true) ids.

(** The gate, once armed, reads the store and the view of the instant.  A join failure,
    [joined = false], closes nothing. *)
Definition close_refused (io : Io) (store : PeerStore) (view : option RosterView) (joined : bool)
    (alive : N -> bool) (p : PeerConns) : list N :=
  if joined then close_ids (refused_of io store view (remote_ids p)) alive p else [].

(** ** The hooks *)
Definition ALPN_PAIR : string := "mcpmesh/pair/1".

(** [None] is a hook not armed yet; a join failure refuses. *)
Definition hook_refuses (gate : option (PeerStore * option RosterView)) (io : Io) (joined : bool)
    (id : key32) : bool :=
  match gate with
  | Some (store, view) => negb joined || refused_by io store view id
  | None => true
  end.

Definition before_connect (gate : option (PeerStore * option RosterView)) (io : Io) (joined : bool)
    (remote : key32) (alpn : string) : bool :=
  bool_decide (alpn = ALPN_PAIR) || negb (hook_refuses gate io joined remote).

(** [after_handshake] before its re-check: the key of the entry it registered, if it
    registers at all. *)
Definition after_handshake_register (outbound : bool) (alpn : string) (remote : key32) (conn : N)
    (p : PeerConns) : option N * PeerConns :=
  if negb outbound || bool_decide (alpn = ALPN_PAIR) then (None, p)
  else let '(key, p) := insert_conn remote conn p in (Some key, p).

(** The re-check: accepted, or removed again and rejected. *)
Definition after_handshake_recheck (gate : option (PeerStore * option RosterView)) (io : Io)
    (joined : bool) (remote : key32) (key : N) (p : PeerConns) : bool * PeerConns :=
  if hook_refuses gate io joined remote then (false, remove_conn remote key p) else (true, p).

(** ** The transition system *)

(** A connection the hook registered: handshaking until its re-check passed. *)
Record Dialled := { d_remote : key32; d_key : N; d_accepted : bool }.

(** A close pass: not begun, having read the ids, or having read which are refused. *)
Inductive Pass := Pending | ReadIds (ids : gset key32) | ReadRefused (ids : gset key32).

Record Net := {
  n_store : PeerStore;
  n_view : option RosterView;
  n_conns : PeerConns;
  n_dialled : gmap N Dialled;
  n_closed : gset N;
  n_passes : list Pass }.

Definition refused_now (y : Net) (id : key32) : bool :=
  refused_by healthy (n_store y) (n_view y) id.

Definition with_conns p d y := {| n_store := n_store y; n_view := n_view y; n_conns := p;
  n_dialled := d; n_closed := n_closed y; n_passes := n_passes y |}.
Definition with_closed c y := {| n_store := n_store y; n_view := n_view y; n_conns := n_conns y;
  n_dialled := n_dialled y; n_closed := c ∪ n_closed y; n_passes := n_passes y |}.
Definition with_trust s v y := {| n_store := s; n_view := v; n_conns := n_conns y;
  n_dialled := n_dialled y; n_closed := n_closed y; n_passes := n_passes y |}.
Definition with_passes l y := {| n_store := n_store y; n_view := n_view y; n_conns := n_conns y;
  n_dialled := n_dialled y; n_closed := n_closed y; n_passes := l |}.

Inductive net_step : Net -> Net -> Prop :=
| net_register y conn remote alpn key p :
    n_dialled y !! conn = None ->
    after_handshake_register true alpn remote conn (n_conns y) = (Some key, p) ->
    (pc_seq (n_conns y) + 1 < 2 ^ 64)%N ->
    net_step y (with_conns p (<[conn := {| d_remote := remote; d_key := key; d_accepted := false |}]>
                            (n_dialled y)) y)
| net_accept y io joined conn d p :
    n_dialled y !! conn = Some d -> d_accepted d = false ->
    after_handshake_recheck (Some (n_store y, n_view y)) io joined (d_remote d) (d_key d) (n_conns y)
      = (true, p) ->
    net_step y (with_conns p (<[conn := {| d_remote := d_remote d; d_key := d_key d;
                                       d_accepted := true |}]> (n_dialled y)) y)
| net_reject y io joined conn d p :
    n_dialled y !! conn = Some d -> d_accepted d = false ->
    after_handshake_recheck (Some (n_store y, n_view y)) io joined (d_remote d) (d_key d) (n_conns y)
      = (false, p) ->
    net_step y (with_closed {[conn]} (with_conns p (n_dialled y) y))
| net_close y conn : net_step y (with_closed {[conn]} y)
| net_watcher y conn d :
    n_dialled y !! conn = Some d -> conn ∈ n_closed y ->
    net_step y (with_conns (remove_conn (d_remote d) (d_key d) (n_conns y)) (n_dialled y) y)
| net_trust y s v :
    (* a write that refuses no device that was not refused *)
    (forall id, refused_by healthy s v id = true -> refused_now y id = true) ->
    net_step y (with_trust s v y)
| net_revoke y s v :
    (* any other write owes a close pass *)
    net_step y (with_passes (Pending :: n_passes y) (with_trust s v y))
| net_pass_ids y l1 l2 :
    n_passes y = l1 ++ Pending :: l2 ->
    net_step y (with_passes (l1 ++ ReadIds (remote_ids (n_conns y)) :: l2) y)
| net_pass_refused y io ids l1 l2 :
    n_passes y = l1 ++ ReadIds ids :: l2 ->
    net_step y (with_passes (l1 ++ ReadRefused (refused_of io (n_store y) (n_view y) ids) :: l2) y)
| net_pass_close y ids l1 l2 :
    n_passes y = l1 ++ ReadRefused ids :: l2 ->
    net_step y (with_passes (l1 ++ l2)
      (with_closed (list_to_set (close_ids ids (fun c => bool_decide (c ∉ n_closed y)) (n_conns y))) y)).

Definition net_initial (y : Net) : Prop :=
  n_conns y = no_conns /\ n_dialled y = ∅ /\ n_passes y = [].
Definition net_reachable (y : Net) : Prop := exists y0, net_initial y0 /\ rtc net_step y0 y.
End hooks.

(** ** Lemmas *)
Section lemmas.
Context `{R : RowCodec}.

(** Faults only ever refuse more. *)
Lemma refused_fail_closed io s v id : refused_by healthy s v id = true -> refused_by io s v id = true.
Proof.
  unfold refused_by. destruct (is_refused io s id) eqn:Hr; [done|].
  assert (is_refused healthy s id = false) as ->.
  { apply bool_decide_eq_false. apply bool_decide_eq_false in Hr. rewrite admission_healthy.
    destruct (admission_cases io s id) as [?|(<- & _)]; done. }
  destruct v as [v|]; [|done]. intros [->|H]%orb_true_iff; [done|]. apply orb_true_iff. right.
  destruct (Validate.resolve v id) as [d|]; [|done]. unfold is_roster_user_revoked in *.
  apply andb_true_iff in H as [-> H]. simpl. unfold is_user_revoked, access in *.
  destruct (io Begin); [done|]. by destruct (io REVOKED_USERS).
Qed.

Lemma elem_of_close_ids ids alive p c :
  c ∈ close_ids ids alive p <->
  alive c = true /\ exists id m k, id ∈ ids /\ pc_inner p !! id = Some m /\ m !! k = Some c.
Proof.
  unfold close_ids. rewrite list_elem_of_filter, list_elem_of_In, in_flat_map. split.
  - intros [Ha ([id m] & Hin & Hc)]. split; [done|]. apply list_elem_of_In, elem_of_map_to_list in Hin.
    simpl in Hc. case_decide; [|done]. apply list_elem_of_In, list_elem_of_fmap in Hc as ([k c'] & -> & Hc).
    exists id, m, k. by apply elem_of_map_to_list in Hc.
  - intros [Ha (id & m & k & Hid & Hm & Hk)]. split; [done|]. exists (id, m).
    split; [by apply list_elem_of_In, elem_of_map_to_list|]. simpl. rewrite decide_True by done.
    apply list_elem_of_In, list_elem_of_fmap. exists (k, c). by rewrite elem_of_map_to_list.
Qed.

Definition registered (p : PeerConns) (id : key32) (key conn : N) : Prop :=
  exists m, pc_inner p !! id = Some m /\ m !! key = Some conn.

Lemma registered_insert p id conn id' key' conn' :
  registered (insert_conn id conn p).2 id' key' conn' <->
  (id' = id /\ key' = pc_seq p /\ conn' = conn) \/
  (~ (id' = id /\ key' = pc_seq p) /\ registered p id' key' conn').
Proof.
  unfold registered. simpl. split.
  - intros (m & [[<- <-]|[Hne Hm]]%lookup_insert_Some & Hk).
    + apply lookup_insert_Some in Hk as [[<- <-]|[Hne Hk]]; [by left|]. right. split; [naive_solver|].
      destruct (pc_inner p !! id) as [m'|] eqn:E; simpl in Hk; [eauto|by rewrite lookup_empty in Hk].
    + right. split; [naive_solver|eauto].
  - intros [(-> & -> & ->)|(Hne & m & Hm & Hk)].
    + eexists. rewrite lookup_insert_eq. split; [done|by rewrite lookup_insert_eq].
    + destruct (decide (id' = id)) as [->|]; [|exists m; by rewrite lookup_insert_ne].
      eexists. rewrite lookup_insert_eq. split; [done|]. rewrite Hm, lookup_insert_ne by naive_solver. done.
Qed.

Lemma registered_remove p id key id' key' conn' :
  registered (remove_conn id key p) id' key' conn' <->
  ~ (id' = id /\ key' = key) /\ registered p id' key' conn'.
Proof.
  unfold remove_conn, registered. destruct (pc_inner p !! id) as [m|] eqn:E; simpl.
  - destruct (decide (id' = id)) as [->|Hid].
    + assert (Hm : forall m' : gmap N N, (if decide (delete key m = ∅) then delete id (pc_inner p)
          else <[id := delete key m]> (pc_inner p)) !! id = Some m' ->
          m' = delete key m) by (intros m'; case_decide; rewrite ?lookup_delete_eq, ?lookup_insert_eq; congruence).
      split.
      * intros (m' & ->%Hm & [? ?]%lookup_delete_Some). split; [naive_solver|eauto].
      * intros (Hne & m' & [= <-]%(eq_trans (eq_sym E)) & Hk). exists (delete key m).
        rewrite lookup_delete_ne by naive_solver. split; [|done]. case_decide as He.
        { apply (f_equal (fun x : gmap N N => x !! key')) in He.
          rewrite lookup_delete_ne, Hk, lookup_empty in He by naive_solver. done. }
        by rewrite lookup_insert_eq.
    + split.
      * intros (m' & Hm & Hk). split; [naive_solver|]. exists m'. split; [|done].
        case_decide; [by rewrite lookup_delete_ne in Hm|by rewrite lookup_insert_ne in Hm].
      * intros (_ & m' & Hm & Hk). exists m'. split; [|done].
        case_decide; [by rewrite lookup_delete_ne|by rewrite lookup_insert_ne].
  - split; [|naive_solver]. intros H. split; [|done]. intros [-> _]. destruct H as (? & ? & _). congruence.
Qed.

(** ** Invariants *)

(** Keys are given once, and an open connection is registered under its own. *)
Definition conns_inv (y : Net) : Prop :=
  (forall c d, n_dialled y !! c = Some d -> (d_key d < pc_seq (n_conns y))%N) /\
  (forall c c' d d', n_dialled y !! c = Some d -> n_dialled y !! c' = Some d' ->
     d_key d = d_key d' -> c = c') /\
  (forall c d, n_dialled y !! c = Some d -> c ∉ n_closed y ->
     registered (n_conns y) (d_remote d) (d_key d) c).

Definition covers (p : Pass) (id : key32) : Prop :=
  match p with Pending => True | ReadIds ids | ReadRefused ids => id ∈ ids end.

(** An open connection to a refused device is one some pass is about to close. *)
Definition owed_inv (y : Net) : Prop :=
  forall c d, n_dialled y !! c = Some d -> d_accepted d = true -> c ∉ n_closed y ->
    refused_now y (d_remote d) = true -> exists p, p ∈ n_passes y /\ covers p (d_remote d).
End lemmas.

Section invariants.
Context `{R : RowCodec}.

(** A step that leaves the dialled connections alone and only loses the entries of closed
    ones keeps the registry's invariant. *)
Lemma conns_inv_frame y y' :
  conns_inv y -> n_dialled y' = n_dialled y -> pc_seq (n_conns y') = pc_seq (n_conns y) ->
  n_closed y ⊆ n_closed y' ->
  (forall c d, n_dialled y !! c = Some d -> c ∉ n_closed y' ->
     registered (n_conns y) (d_remote d) (d_key d) c -> registered (n_conns y') (d_remote d) (d_key d) c) ->
  conns_inv y'.
Proof.
  unfold conns_inv. intros (Hlt & Hinj & Hreg) -> -> Hc Hkeep. split_and!; [done..|]. intros c d Hd Ho.
  apply Hkeep; [done..|]. apply Hreg; [done|]. set_solver.
Qed.

Lemma remove_other y c d c' d' :
  conns_inv y -> n_dialled y !! c = Some d -> n_dialled y !! c' = Some d' -> c <> c' ->
  registered (n_conns y) (d_remote d') (d_key d') c' ->
  registered (remove_conn (d_remote d) (d_key d) (n_conns y)) (d_remote d') (d_key d') c'.
Proof.
  intros (_ & Hinj & _) Hd Hd' Hne Hr. apply registered_remove. split; [|done].
  intros [_ He]. apply Hne. eapply Hinj; eauto.
Qed.

Lemma remove_conn_seq id key p : pc_seq (remove_conn id key p) = pc_seq p.
Proof. unfold remove_conn. by destruct (pc_inner p !! id). Qed.

Lemma recheck_spec gate io joined id key p b p' :
  after_handshake_recheck gate io joined id key p = (b, p') ->
  b = negb (hook_refuses gate io joined id) /\ p' = (if b then p else remove_conn id key p).
Proof. unfold after_handshake_recheck. by destruct (hook_refuses _ _ _ _); intros [= <- <-]. Qed.

Lemma conns_inv_step y y' : conns_inv y -> net_step y y' -> conns_inv y'.
Proof.
  intros Hinv Hstep. destruct Hstep;
    try (by apply (conns_inv_frame y); [done..|simpl; set_solver|]).
  - unfold after_handshake_register in H0. simpl in H0. case_bool_decide; [done|]. injection H0 as <- <-.
    destruct Hinv as (Hlt & Hinj & Hreg). unfold conns_inv. simpl.
    rewrite N.mod_small by done. split_and!.
    + intros c d [[<- <-]|[_ Hd]]%lookup_insert_Some; simpl; [lia|]. specialize (Hlt c d Hd). lia.
    + intros c c' d d' [[<- <-]|[_ Hd]]%lookup_insert_Some [[<- <-]|[_ Hd']]%lookup_insert_Some; simpl;
        intros Hk; [done|..]; [specialize (Hlt _ _ Hd'); lia|specialize (Hlt _ _ Hd); lia|eauto].
    + intros c d [[<- <-]|[_ Hd]]%lookup_insert_Some Ho; apply (registered_insert (n_conns y) remote conn);
        simpl; [by left|]. right. split; [intros [_ He]; specialize (Hlt _ _ Hd); lia|eauto].
  - apply recheck_spec in H1 as [_ ->]. destruct Hinv as (Hlt & Hinj & Hreg). unfold conns_inv. simpl.
    split_and!.
    + intros c d' [[<- <-]|[_ Hd]]%lookup_insert_Some; simpl; eauto.
    + intros c c' d1 d2 [[<- <-]|[_ Hd]]%lookup_insert_Some [[<- <-]|[_ Hd']]%lookup_insert_Some; simpl; eauto.
    + intros c d' [[<- <-]|[_ Hd]]%lookup_insert_Some; simpl; [|eauto]. by apply (Hreg conn d).
  - apply recheck_spec in H1 as [_ ->]. apply (conns_inv_frame y); simpl; try done.
    + apply remove_conn_seq.
    + set_solver.
    + intros c d' Hd' Ho Hr. apply (remove_other y conn d c d'); try done. set_solver.
  - apply (conns_inv_frame y); simpl; try done.
    + apply remove_conn_seq.
    + intros c d' Hd' Ho Hr. apply (remove_other y conn d c d'); try done. set_solver.
Qed.

(** A step after which the owed connections were owed, and every pass that owed them still
    does, keeps the obligation. *)
Lemma owed_inv_frame y y' :
  owed_inv y -> n_closed y ⊆ n_closed y' ->
  (forall c d, n_dialled y' !! c = Some d -> d_accepted d = true -> c ∉ n_closed y' ->
     refused_now y' (d_remote d) = true ->
     n_dialled y !! c = Some d /\ refused_now y (d_remote d) = true /\
     forall p, p ∈ n_passes y -> covers p (d_remote d) ->
       exists p', p' ∈ n_passes y' /\ covers p' (d_remote d)) ->
  owed_inv y'.
Proof.
  intros Hinv Hc Hold c d Hd Ha Ho Hr. destruct (Hold c d Hd Ha Ho Hr) as (Hd0 & Hr0 & Hp).
  destruct (Hinv c d Hd0 Ha (fun H => Ho (Hc _ H)) Hr0) as (p & Hin & Hcov). by apply (Hp p).
Qed.

(** Replacing one pass of the list by one that covers what it covered. *)
Lemma pass_replaced l1 l2 p q (id : key32) :
  (covers p id -> covers q id) ->
  forall r, r ∈ l1 ++ p :: l2 -> covers r id -> exists r', r' ∈ l1 ++ q :: l2 /\ covers r' id.
Proof.
  intros Hpq r Hin Hr. apply elem_of_app in Hin as [?|[->|?]%elem_of_cons].
  - exists r. rewrite elem_of_app. auto.
  - exists q. rewrite elem_of_app, elem_of_cons. auto.
  - exists r. rewrite elem_of_app, elem_of_cons. auto.
Qed.

Lemma owed_inv_step y y' : conns_inv y -> owed_inv y -> net_step y y' -> owed_inv y'.
Proof.
  intros (_ & _ & Hreg) Hinv Hstep. destruct Hstep.
  - apply (owed_inv_frame y); [done..|]. simpl. intros c d [[<- <-]|[_ Hd]]%lookup_insert_Some; eauto 10; done.
  - pose proof (recheck_spec _ _ _ _ _ _ _ _ H1) as [Hb _]. symmetry in Hb. apply negb_true_iff in Hb.
    simpl in Hb. apply orb_false_iff in Hb as [_ Hb].
    apply (owed_inv_frame y); [done..|]. simpl. intros c d' [[<- <-]|[_ Hd]]%lookup_insert_Some; eauto 10.
    simpl. intros _ _ Hr. unfold refused_now in Hr. simpl in Hr.
    apply (refused_fail_closed io) in Hr. congruence.
  - apply (owed_inv_frame y); simpl; [done|set_solver|]. eauto 10.
  - apply (owed_inv_frame y); simpl; [done|set_solver|]. eauto 10.
  - apply (owed_inv_frame y); simpl; [done..|]. eauto 10.
  - apply (owed_inv_frame y); simpl; [done..|]. intros c d Hd _ _ Hr. eauto 10.
  - intros c d Hd Ha Ho Hr. exists Pending. simpl. split; [apply elem_of_cons; by left|done].
  - apply (owed_inv_frame y); simpl; [done..|]. intros c d Hd Ha Ho Hr. split_and!; [done..|].
    rewrite H. apply pass_replaced. intros _. simpl. unfold remote_ids. apply elem_of_dom.
    destruct (Hreg c d Hd Ho) as (m & Hm & _). eauto.
  - apply (owed_inv_frame y); simpl; [done..|]. intros c d Hd Ha Ho Hr. split_and!; [done..|].
    rewrite H. apply pass_replaced. simpl. intros Hid. unfold refused_of. apply elem_of_filter.
    split; [|done]. by apply refused_fail_closed.
  - apply (owed_inv_frame y); simpl; [done|set_solver|]. intros c d Hd Ha Ho Hr. split_and!; [done..|].
    intros p Hp Hcov. rewrite H in Hp.
    apply elem_of_app in Hp as [?|[->|?]%elem_of_cons]; [exists p; rewrite elem_of_app; auto| |exists p; rewrite elem_of_app; auto].
    exfalso. apply Ho. apply elem_of_union. left. apply elem_of_list_to_set, elem_of_close_ids.
    assert (c ∉ n_closed y) as Ho' by set_solver. split; [by apply bool_decide_eq_true|].
    destruct (Hreg c d Hd Ho') as (m & Hm & Hk). by exists (d_remote d), m, (d_key d).
Qed.

(** In every interleaving of dials, closes, watchers, revocations and their close passes,
    once no close pass is owed no connection this node dialled, and whose handshake its hook
    let through, is open to a device the node refuses to dial; whatever reads failed. *)
Theorem no_dialled_connection_survives y :
  net_reachable y -> n_passes y = [] ->
  forall c d, n_dialled y !! c = Some d -> d_accepted d = true -> c ∉ n_closed y ->
    refused_now y (d_remote d) = false.
Proof.
  intros (y0 & (Hc & Hd & Hp) & Hsteps) Hnone.
  assert (Hinv : conns_inv y /\ owed_inv y).
  { assert (conns_inv y0 /\ owed_inv y0) as H0.
    { unfold conns_inv, owed_inv. rewrite Hd. split_and!; intros *; by rewrite lookup_empty. }
    clear Hc Hd Hp. revert H0. induction Hsteps as [|y y1 y2 Hs _ IH]; [done|]. intros [H1 H2]. apply IH; [done|].
    split; [by eapply conns_inv_step|by eapply owed_inv_step]. }
  intros c d Hcd Ha Ho. apply not_true_iff_false. intros Hr.
  destruct (proj2 Hinv c d Hcd Ha Ho Hr) as (p & Hin & _). rewrite Hnone in Hin. by apply elem_of_nil in Hin.
Qed.
End invariants.

(** ** Witnesses *)
Module Witness.
Import Toy ToyRows.

Definition alice : key32 := key_fill Byte.x01.
Definition bob : key32 := key_fill Byte.x02.
Definition bob_revoked : PeerStore :=
  set_revoked {[key_bytes bob := Byte.x7b :: nil]} empty_store.

Definition y0 : Net :=
  {| n_store := empty_store; n_view := None; n_conns := no_conns; n_dialled := ∅; n_closed := ∅;
     n_passes := [] |}.
Definition dial_to (conn : N) (remote : key32) (y : Net) : Net :=
  let '(k, p) := after_handshake_register true "mcpmesh/mcp/1" remote conn (n_conns y) in
  with_conns p (<[conn := {| d_remote := remote; d_key := default 0%N k; d_accepted := false |}]>
                  (n_dialled y)) y.
Definition accept (conn : N) (remote : key32) (key : N) (y : Net) : Net :=
  with_conns (n_conns y)
    (<[conn := {| d_remote := remote; d_key := key; d_accepted := true |}]> (n_dialled y)) y.
Definition y1 := dial_to 1 bob y0.
Definition y2 := dial_to 2 alice y1.
Definition y3 := accept 1 bob 0 y2.
Definition y4 := accept 2 alice 1 y3.
Definition y5 := with_passes [Pending] (with_trust bob_revoked None y4).
Definition y6 := with_passes [ReadIds (remote_ids (n_conns y5))] y5.
Definition y7 := with_passes [ReadRefused (refused_of healthy bob_revoked None (remote_ids (n_conns y5)))] y6.
Definition y8 := with_passes []
  (with_closed (list_to_set (close_ids (refused_of healthy bob_revoked None (remote_ids (n_conns y5)))
     (fun c => bool_decide (c ∉ n_closed y7)) (n_conns y7))) y7).

Lemma reachable8 : net_reachable y8.
Proof.
  exists y0. split; [by split_and!|].
  eapply (rtc_l _ y0 y1); [apply (net_register y0 1 bob "mcpmesh/mcp/1" 0); [done|reflexivity|done]|].
  eapply (rtc_l _ y1 y2); [apply (net_register y1 2 alice "mcpmesh/mcp/1" 1); [done|reflexivity|done]|].
  eapply (rtc_l _ y2 y3); [apply (net_accept y2 healthy true 1 {| d_remote := bob; d_key := 0; d_accepted := false |});
    [vm_compute; reflexivity|done|reflexivity]|].
  eapply (rtc_l _ y3 y4); [apply (net_accept y3 healthy true 2 {| d_remote := alice; d_key := 1; d_accepted := false |});
    [vm_compute; reflexivity|done|reflexivity]|].
  eapply (rtc_l _ y4 y5); [apply (net_revoke y4 bob_revoked None)|].
  eapply (rtc_l _ y5 y6); [apply (net_pass_ids y5 [] []); reflexivity|].
  eapply (rtc_l _ y6 y7); [apply (net_pass_refused y6 healthy (remote_ids (n_conns y5)) [] []); reflexivity|].
  eapply (rtc_l _ y7 y8); [apply (net_pass_close y7 _ [] []); reflexivity|].
  apply rtc_refl.
Qed.

Lemma no_dialled_connection_survives_witness :
  1%N ∈ n_closed y8 /\ refused_now y8 alice = false.
Proof.
  split; [apply (bool_decide_unpack _); vm_compute; exact I|].
  apply (no_dialled_connection_survives y8 reachable8 eq_refl 2%N
    {| d_remote := alice; d_key := 1; d_accepted := true |}); [vm_compute; reflexivity|reflexivity|].
  apply (bool_decide_unpack _). vm_compute. exact I.
Defined.
End Witness.
