(* ===== verification/Config.v ===== *)
(** * The configuration file

    [node/src/config.rs] and [node/src/daemon/config_write.rs]: what a daemon reads from
    [config.toml] and the read-modify-write operations on it.  Parsing and printing TOML is
    the [toml] crate's; the reading of a table into the typed configuration is the derived
    deserializer's, written out field by field.  A fault of the disk is an argument. *)
From stdpp Require Import base list gmap strings pretty sorting.
From Stdlib Require Import ZArith Lia Strings.Byte.
From S2P Require Import Prelude Bytes Digits Json Externals.

(** ** TOML *)
Inductive Toml :=
| TString (s : string)
| TInteger (z : Z)
| TFloat (s : string)
| TBoolean (b : bool)
| TDatetime (s : string)
| TArray (l : list Toml)
| TTable (m : gmap string Toml).

Abbreviation Table := (gmap string Toml).

(** The one-line header every managed write puts first; a comment to TOML. *)
Definition CONFIG_HEADER : string :=
  "# mcpmesh config — every table and key is documented in docs/config.md (https://github.com/counterpunchtech/mcpmesh/blob/main/docs/config.md)".

Definition with_header (rendered : bytes) : bytes := as_bytes CONFIG_HEADER ++ Byte.x0a :: rendered.

Class TomlCodec := {
  toml_from_str : bytes -> result string Table;
  to_string_pretty : Table -> result string bytes }.

(** What is printed reads back, a comment line before it is skipped, and the empty text is
    the empty table. *)
Class TomlCodecLaws (C : TomlCodec) := {
  toml_from_pretty d s : to_string_pretty d = Ok s -> toml_from_str (with_header s) = Ok d;
  toml_from_empty : toml_from_str [] = Ok ∅ }.

Definition toml_str (v : Toml) : option string := match v with TString s => Some s | _ => None end.
Definition toml_int (v : Toml) : option Z := match v with TInteger z => Some z | _ => None end.
Definition toml_bool (v : Toml) : option bool := match v with TBoolean b => Some b | _ => None end.
Definition toml_array (v : Toml) : option (list Toml) := match v with TArray l => Some l | _ => None end.
Definition toml_table (v : Toml) : option Table := match v with TTable m => Some m | _ => None end.
Definition toml_is (s : string) (v : Toml) : bool := bool_decide (toml_str v = Some s).

(** ** The typed configuration *)
Record IdentityCfg := {
  i_device_key : option string;
  i_nickname : option string;
  i_org_id : option string;
  i_org_root_pk : option string;
  i_user_id : option string;
  i_admit_attested_devices : bool;
  i_user_key : option string }.

Record NetworkCfg := {
  n_relay_mode : string;
  n_relay_urls : list string;
  n_discovery_mode : string;
  n_discovery_urls : list string;
  n_relay_only : bool;
  n_presence_mode : string;
  n_idle_timeout_secs : option Z;
  n_keep_alive_secs : option Z;
  n_local_discovery : string }.

Record LimitsCfg := {
  l_rate_limit_per_min : Z;
  l_max_inflight : Z;
  l_max_sessions : Z;
  l_blob_bytes_per_min : Z;
  l_audit_retain_months : Z }.

Record RosterCfg := {
  ro_grace_period : string;
  ro_url : option string;
  ro_poll_interval : string;
  ro_max_staleness : string }.

Record BlobsCfg := { bl_gc_interval : option string }.

Record ServiceCfg := {
  sc_run : option (list string);
  sc_socket : option string;
  sc_allow : list string;
  sc_env : gmap string string;
  sc_cwd : option string;
  sc_rate_limit_per_min : option Z }.

Record Config := {
  c_identity : IdentityCfg;
  c_network : NetworkCfg;
  c_limits : LimitsCfg;
  c_roster : RosterCfg;
  c_blobs : BlobsCfg;
  c_services : gmap string ServiceCfg }.

(** ** Reading a table *)

(** A field that is absent, a field with a default, and the kinds of field. *)
Definition field {A} (f : Toml -> option A) (k : string) (m : Table) : option (option A) :=
  match m !! k with None => Some None | Some v => Some <$> f v end.
Definition field_or {A} (f : Toml -> option A) (d : A) (k : string) (m : Table) : option A :=
  default d <$> field f k m.
Definition strings_of (v : Toml) : option (list string) := toml_array v ≫= mapM toml_str.
Definition unsigned_of (max : Z) (v : Toml) : option Z :=
  z ← toml_int v; if ((0 <=? z) && (z <=? max))%Z then Some z else None.

(** Every entry of a table through [f], or nothing. *)
Definition map_values {A} (f : Toml -> option A) (m : Table) : option (gmap string A) :=
  if decide (map_Forall (fun _ v => is_Some (f v)) m) then Some (omap f m) else None.

Definition identity_of (m : Table) : option IdentityCfg :=
  device_key ← field toml_str "device_key" m;
  nickname ← field toml_str "nickname" m;
  org_id ← field toml_str "org_id" m;
  org_root_pk ← field toml_str "org_root_pk" m;
  user_id ← field toml_str "user_id" m;
  attested ← field_or toml_bool false "admit_attested_devices" m;
  user_key ← field toml_str "user_key" m;
  Some {| i_device_key := device_key; i_nickname := nickname; i_org_id := org_id;
          i_org_root_pk := org_root_pk; i_user_id := user_id;
          i_admit_attested_devices := attested; i_user_key := user_key |}.

Definition network_of (m : Table) : option NetworkCfg :=
  relay_mode ← field_or toml_str "default" "relay_mode" m;
  relay_urls ← field_or strings_of [] "relay_urls" m;
  discovery_mode ← field_or toml_str "default" "discovery_mode" m;
  discovery_urls ← field_or strings_of [] "discovery_urls" m;
  relay_only ← field_or toml_bool false "relay_only" m;
  presence_mode ← field_or toml_str "paired" "presence_mode" m;
  idle ← field (unsigned_of u64_max) "idle_timeout_secs" m;
  keep ← field (unsigned_of u64_max) "keep_alive_secs" m;
  local ← field_or toml_str "off" "local_discovery" m;
  Some {| n_relay_mode := relay_mode; n_relay_urls := relay_urls; n_discovery_mode := discovery_mode;
          n_discovery_urls := discovery_urls; n_relay_only := relay_only;
          n_presence_mode := presence_mode; n_idle_timeout_secs := idle;
          n_keep_alive_secs := keep; n_local_discovery := local |}.

Definition limits_of (m : Table) : option LimitsCfg :=
  rate ← field_or (unsigned_of u32_max) 120%Z "rate_limit_per_min" m;
  inflight ← field_or (unsigned_of u32_max) 16%Z "max_inflight" m;
  sessions ← field_or (unsigned_of u32_max) 4%Z "max_sessions" m;
  blob ← field_or (unsigned_of u64_max) 0%Z "blob_bytes_per_min" m;
  retain ← field_or (unsigned_of u32_max) 0%Z "audit_retain_months" m;
  Some {| l_rate_limit_per_min := rate; l_max_inflight := inflight; l_max_sessions := sessions;
          l_blob_bytes_per_min := blob; l_audit_retain_months := retain |}.

Definition roster_of (m : Table) : option RosterCfg :=
  grace ← field_or toml_str "72h" "grace_period" m;
  url ← field toml_str "url" m;
  poll ← field_or toml_str "1h" "poll_interval" m;
  stale ← field_or toml_str "24h" "max_staleness" m;
  Some {| ro_grace_period := grace; ro_url := url; ro_poll_interval := poll; ro_max_staleness := stale |}.

Definition blobs_of (m : Table) : option BlobsCfg :=
  gc ← field toml_str "gc_interval" m; Some {| bl_gc_interval := gc |}.

Definition service_of (v : Toml) : option ServiceCfg :=
  m ← toml_table v;
  run ← field strings_of "run" m;
  socket ← field toml_str "socket" m;
  allow ← field_or strings_of [] "allow" m;
  env ← field_or (fun v => toml_table v ≫= map_values toml_str) ∅ "env" m;
  cwd ← field toml_str "cwd" m;
  rate ← field (unsigned_of u32_max) "rate_limit_per_min" m;
  Some {| sc_run := run; sc_socket := socket; sc_allow := allow; sc_env := env; sc_cwd := cwd;
          sc_rate_limit_per_min := rate |}.

Definition section (k : string) (doc : Table) : option Table := field_or toml_table ∅ k doc.

Definition config_of (doc : Table) : option Config :=
  identity ← section "identity" doc ≫= identity_of;
  network ← section "network" doc ≫= network_of;
  limits ← section "limits" doc ≫= limits_of;
  roster ← section "roster" doc ≫= roster_of;
  blobs ← section "blobs" doc ≫= blobs_of;
  services ← section "services" doc ≫= map_values service_of;
  Some {| c_identity := identity; c_network := network; c_limits := limits; c_roster := roster;
          c_blobs := blobs; c_services := services |}.

(** ** Accessors *)
Definition DEFAULT_GRACE_SECS : Z := 72 * 3600.
Definition DEFAULT_MAX_STALENESS_SECS : Z := 24 * 3600.
Definition MIN_GC_INTERVAL_SECS : Z := 60.

(** [u64::checked_mul] and [i64::try_from]. *)
Definition checked_seconds (v mult : Z) : option Z :=
  let p := (v * mult)%Z in
  if (p <=? u64_max)%Z then if (p <=? i64_max)%Z then Some p else None else None.

Definition parse_duration (s : string) : result string Z :=
  let s := trim (as_bytes s) in
  let '(num, mult) :=
    match strip_suffix (as_bytes "d") s with
    | Some n => (n, (24 * 3600)%Z)
    | None =>
        match strip_suffix (as_bytes "h") s with
        | Some n => (n, 3600%Z)
        | None =>
            match strip_suffix (as_bytes "m") s with
            | Some n => (n, 60%Z)
            | None => match strip_suffix (as_bytes "s") s with Some n => (n, 1%Z) | None => (s, 1%Z) end
            end
        end
    end in
  ok_or ("unparseable duration: " +:+ from_bytes s)
    (v ← parse_u64 (trim num); checked_seconds v mult).

Definition grace_seconds (c : RosterCfg) : Z := default DEFAULT_GRACE_SECS (ok (parse_duration (ro_grace_period c))).
Definition poll_interval_seconds (c : RosterCfg) : Z := default 3600%Z (ok (parse_duration (ro_poll_interval c))).
Definition max_staleness_seconds (c : RosterCfg) : Z :=
  default DEFAULT_MAX_STALENESS_SECS (ok (parse_duration (ro_max_staleness c))).

Definition gc_interval_seconds (c : BlobsCfg) : option Z :=
  raw ← bl_gc_interval c;
  secs ← ok (parse_duration raw);
  if (MIN_GC_INTERVAL_SECS <=? secs)%Z then Some secs else None.

Inductive Backend := BRun (cmd : list string) | BSocket (path : string).

Definition backend_result (s : ServiceCfg) : result string Backend :=
  match sc_run s, sc_socket s with
  | Some cmd, None => Ok (BRun cmd)
  | None, Some p => Ok (BSocket p)
  | Some _, Some _ => Err "service has both run and socket"
  | None, None => Err "service has neither run nor socket"
  end.

(** ** Writing *)
Record Faults := { f_read : option string; f_write : option string }.
Definition healthy : Faults := {| f_read := None; f_write := None |}.

(** [None] is a file that does not exist. *)
Abbreviation File := (option bytes).

Section writers.
Context `{C : TomlCodec}.

Definition read_config_for_rmw (io : Faults) (file : File) : result string bytes :=
  match f_read io with Some e => Err e | None => Ok (default [] file) end.

Definition read_doc (io : Faults) (file : File) : result string Table :=
  s ← read_config_for_rmw io file; toml_from_str s.

(** [Config::load]: a missing file is the defaults. *)
Definition config_load (io : Faults) (file : File) : result string Config :=
  doc ← read_doc io file; ok_or "config does not match" (config_of doc).

Definition write_config_doc (io : Faults) (doc : Table) (file : File) : result string unit * File :=
  match to_string_pretty doc with
  | Err e => (Err e, file)
  | Ok rendered =>
      match f_write io with
      | Some e => (Err e, file)
      | None => (Ok tt, Some (with_header rendered))
      end
  end.

(** The discipline of every writer: read, parse, change, and write what changed.  An edit
    gives the new document, or nothing when there is nothing to write. *)
Definition rmw (io : Faults) (edit : Table -> result string (option Table)) (file : File) :
    result string bool * File :=
  match doc ← read_doc io file; edit doc with
  | Err e => (Err e, file)
  | Ok None => (Ok false, file)
  | Ok (Some doc) =>
      match write_config_doc io doc file with
      | (Err e, file) => (Err e, file)
      | (Ok _, file) => (Ok true, file)
      end
  end.
End writers.

(** A top-level table to edit, made if it is absent. *)
Definition entry_table (table : string) (doc : Table) : result string Table :=
  match default (TTable ∅) (doc !! table) with
  | TTable m => Ok m
  | _ => Err ("[" +:+ table +:+ "] is not a table")
  end.

Definition upsert_config_strings (table : string) (pairs : list (string * string)) (doc : Table) :
    result string (option Table) :=
  entry ← entry_table table doc;
  Ok (Some (<[table := TTable (foldl (fun m kv => <[kv.1 := TString kv.2]> m) entry pairs)]> doc)).

Definition write_identity_pin (org_root_pk org_id : string) :=
  upsert_config_strings "identity" [("org_root_pk", org_root_pk); ("org_id", org_id)]%string.
Definition write_identity_user_id (user_id : string) :=
  upsert_config_strings "identity" [("user_id", user_id)]%string.
Definition write_join_pin (org_id org_root_pk user_id user_key : string) :=
  upsert_config_strings "identity"
    [("org_id", org_id); ("org_root_pk", org_root_pk); ("user_id", user_id); ("user_key", user_key)]%string.
Definition write_roster_url (url : string) := upsert_config_strings "roster" [("url", url)]%string.
Definition write_identity_nickname (nickname : string) :=
  upsert_config_strings "identity" [("nickname", nickname)]%string.

Definition write_relays (urls : list string) (doc : Table) : result string (option Table) :=
  network ← entry_table "network" doc;
  Ok (Some (<["network"%string := TTable
      (<["relay_urls"%string := TArray (map TString urls)]>
        (<["relay_mode"%string := TString "custom"]> network))]> doc)).

(** *** Services and their allow lists *)
Inductive BackendSpec :=
| Run (cmd : list string) (env : gmap string string) (cwd : option string)
| Socket (path : string).

Definition get_table (k : string) (m : Table) : option Table := m !! k ≫= toml_table.
Definition get_array (k : string) (m : Table) : option (list Toml) := m !! k ≫= toml_array.
Definition get_int (k : string) (m : Table) : option Z := m !! k ≫= toml_int.
Definition strings_in (l : list Toml) : list string := omap toml_str l.
Definition services_table (doc : Table) : option Table := get_table "services" doc.

Definition remove_service_from_config (name : string) (doc : Table) : result string (option Table) :=
  match services_table doc with
  | None => Ok None
  | Some services =>
      match services !! name with
      | None => Ok None
      | Some _ => Ok (Some (<["services"%string := TTable (delete name services)]> doc))
      end
  end.

Definition existing_allow (services : Table) (name : string) : list string :=
  match get_table name services ≫= get_array "allow" with
  | Some arr => strings_in arr
  | None => []
  end.

Definition backend_entry (backend : BackendSpec) : Table :=
  match backend with
  | Run cmd env cwd =>
      let m : Table := <["run"%string := TArray (map TString cmd)]> ∅ in
      let m := match cwd with Some cwd => <["cwd"%string := TString cwd]> m | None => m end in
      if decide (env = ∅) then m else <["env"%string := TTable (TString <$> env)]> m
  | Socket path => <["socket"%string := TString path]> ∅
  end.

Definition write_service_to_config (name : string) (backend : BackendSpec) (allow : list string)
    (rate_limit_per_min : option Z) (doc : Table) : result string (option Table) :=
  services ← entry_table "services" doc;
  let merged_allow := foldl push_unique (existing_allow services name) allow in
  let entry := <["allow"%string := TArray (map TString merged_allow)]> (backend_entry backend) in
  let preserved_rate :=
    match rate_limit_per_min with
    | Some r => Some r
    | None => get_table name services ≫= get_int "rate_limit_per_min"
    end in
  let entry := match preserved_rate with
               | Some rate => <["rate_limit_per_min"%string := TInteger rate]> entry
               | None => entry
               end in
  Ok (Some (<["services"%string := TTable (<[name := TTable entry]> services)]> doc)).

(** One service of a grant. *)
Definition append_one (principal : string) (acc : Table * bool) (svc : string) :
    result string (Table * bool) :=
  match acc.1 !! svc with
  | None => Ok acc
  | Some (TTable entry) =>
      match default (TArray []) (entry !! "allow"%string) with
      | TArray allow =>
          if existsb (toml_is principal) allow then Ok acc
          else Ok (<[svc := TTable (<["allow"%string := TArray (allow ++ [TString principal])]> entry)]> acc.1,
                   true)
      | _ => Err ("[services." +:+ svc +:+ "].allow is not an array")
      end
  | Some _ => Err ("[services." +:+ svc +:+ "] is not a table")
  end.

Definition append_allow_to_config (principal : string) (services : list string) (doc : Table) :
    result string (option Table) :=
  match services_table doc with
  | None => Ok None
  | Some tbl =>
      match fold_result (append_one principal) (tbl, false) services with
      | Err e => Err e
      | Ok (tbl, changed) => Ok (if changed then Some (<["services"%string := TTable tbl]> doc) else None)
      end
  end.

Definition remove_principal_from_service (service principal : string) (doc : Table) :
    result string (option Table) :=
  match services_table doc with
  | None => Ok None
  | Some tbl =>
      match get_table service tbl with
      | None => Ok None
      | Some svc =>
          match get_array "allow" svc with
          | None => Ok None
          | Some allow =>
              let kept := filter (fun v => toml_is principal v = false) allow in
              if Nat.eqb (length kept) (length allow) then Ok None
              else Ok (Some (<["services"%string :=
                     TTable (<[service := TTable (<["allow"%string := TArray kept]> svc)]> tbl)]> doc))
          end
      end
  end.

(** One entry of a removal, and whether it lost a principal. *)
Definition strip_entry (principals : list string) (entry : Toml) : Toml * bool :=
  match toml_table entry with
  | None => (entry, false)
  | Some svc =>
      match get_array "allow" svc with
      | None => (entry, false)
      | Some allow =>
          let kept := filter (fun v => existsb (fun p => toml_is p v) principals = false) allow in
          (TTable (<["allow"%string := TArray kept]> svc), negb (Nat.eqb (length kept) (length allow)))
      end
  end.

Definition remove_allow_from_config (principals : list string) (doc : Table) : result string (option Table) :=
  match services_table doc with
  | None => Ok None
  | Some tbl =>
      let stripped := strip_entry principals <$> tbl in
      if bool_decide (map_Forall (fun _ e => e.2 = false) stripped) then Ok None
      else Ok (Some (<["services"%string := TTable (fst <$> stripped)]> doc))
  end.

(** ** What an operation promises *)
Inductive ConfigOp :=
| IdentityPin (org_root_pk org_id : string)
| IdentityUserId (user_id : string)
| JoinPin (org_id org_root_pk user_id user_key : string)
| RosterUrl (url : string)
| IdentityNickname (nickname : string)
| Relays (urls : list string)
| WriteService (name : string) (backend : BackendSpec) (allow : list string) (rate : option Z)
| RemoveService (name : string)
| AppendAllow (principal : string) (services : list string)
| RemovePrincipal (service principal : string)
| RemoveAllow (principals : list string).

Definition config_edit (op : ConfigOp) : Table -> result string (option Table) :=
  match op with
  | IdentityPin pk org_id => write_identity_pin pk org_id
  | IdentityUserId u => write_identity_user_id u
  | JoinPin org_id pk u k => write_join_pin org_id pk u k
  | RosterUrl url => write_roster_url url
  | IdentityNickname n => write_identity_nickname n
  | Relays urls => write_relays urls
  | WriteService name backend allow rate => write_service_to_config name backend allow rate
  | RemoveService name => remove_service_from_config name
  | AppendAllow p services => append_allow_to_config p services
  | RemovePrincipal s p => remove_principal_from_service s p
  | RemoveAllow ps => remove_allow_from_config ps
  end.

Definition with_identity (f : IdentityCfg -> IdentityCfg) (c : Config) : Config :=
  {| c_identity := f (c_identity c); c_network := c_network c; c_limits := c_limits c;
     c_roster := c_roster c; c_blobs := c_blobs c; c_services := c_services c |}.
Definition with_network (f : NetworkCfg -> NetworkCfg) (c : Config) : Config :=
  {| c_identity := c_identity c; c_network := f (c_network c); c_limits := c_limits c;
     c_roster := c_roster c; c_blobs := c_blobs c; c_services := c_services c |}.
Definition with_roster (f : RosterCfg -> RosterCfg) (c : Config) : Config :=
  {| c_identity := c_identity c; c_network := c_network c; c_limits := c_limits c;
     c_roster := f (c_roster c); c_blobs := c_blobs c; c_services := c_services c |}.
Definition with_services (f : gmap string ServiceCfg -> gmap string ServiceCfg) (c : Config) : Config :=
  {| c_identity := c_identity c; c_network := c_network c; c_limits := c_limits c;
     c_roster := c_roster c; c_blobs := c_blobs c; c_services := f (c_services c) |}.

Definition set_pin (pk org_id : string) (i : IdentityCfg) : IdentityCfg :=
  {| i_device_key := i_device_key i; i_nickname := i_nickname i; i_org_id := Some org_id;
     i_org_root_pk := Some pk; i_user_id := i_user_id i;
     i_admit_attested_devices := i_admit_attested_devices i; i_user_key := i_user_key i |}.
Definition set_user_id (u : string) (i : IdentityCfg) : IdentityCfg :=
  {| i_device_key := i_device_key i; i_nickname := i_nickname i; i_org_id := i_org_id i;
     i_org_root_pk := i_org_root_pk i; i_user_id := Some u;
     i_admit_attested_devices := i_admit_attested_devices i; i_user_key := i_user_key i |}.
Definition set_user_key (k : string) (i : IdentityCfg) : IdentityCfg :=
  {| i_device_key := i_device_key i; i_nickname := i_nickname i; i_org_id := i_org_id i;
     i_org_root_pk := i_org_root_pk i; i_user_id := i_user_id i;
     i_admit_attested_devices := i_admit_attested_devices i; i_user_key := Some k |}.
Definition set_nickname (n : string) (i : IdentityCfg) : IdentityCfg :=
  {| i_device_key := i_device_key i; i_nickname := Some n; i_org_id := i_org_id i;
     i_org_root_pk := i_org_root_pk i; i_user_id := i_user_id i;
     i_admit_attested_devices := i_admit_attested_devices i; i_user_key := i_user_key i |}.
Definition set_url (url : string) (r : RosterCfg) : RosterCfg :=
  {| ro_grace_period := ro_grace_period r; ro_url := Some url;
     ro_poll_interval := ro_poll_interval r; ro_max_staleness := ro_max_staleness r |}.
Definition set_relays (urls : list string) (n : NetworkCfg) : NetworkCfg :=
  {| n_relay_mode := "custom"; n_relay_urls := urls; n_discovery_mode := n_discovery_mode n;
     n_discovery_urls := n_discovery_urls n; n_relay_only := n_relay_only n;
     n_presence_mode := n_presence_mode n; n_idle_timeout_secs := n_idle_timeout_secs n;
     n_keep_alive_secs := n_keep_alive_secs n; n_local_discovery := n_local_discovery n |}.
Definition on_allow (f : list string -> list string) (s : ServiceCfg) : ServiceCfg :=
  {| sc_run := sc_run s; sc_socket := sc_socket s; sc_allow := f (sc_allow s); sc_env := sc_env s;
     sc_cwd := sc_cwd s; sc_rate_limit_per_min := sc_rate_limit_per_min s |}.

Definition registered (backend : BackendSpec) (allow : list string) (rate : option Z)
    (old : option ServiceCfg) : ServiceCfg :=
  let allow := foldl push_unique (default [] (sc_allow <$> old)) allow in
  let rate := match rate with Some r => Some r | None => old ≫= sc_rate_limit_per_min end in
  match backend with
  | Run cmd env cwd =>
      {| sc_run := Some cmd; sc_socket := None; sc_allow := allow; sc_env := env; sc_cwd := cwd;
         sc_rate_limit_per_min := rate |}
  | Socket path =>
      {| sc_run := None; sc_socket := Some path; sc_allow := allow; sc_env := ∅; sc_cwd := None;
         sc_rate_limit_per_min := rate |}
  end.

(** A principal granted one service after the other; a name without a service grants nothing. *)
Definition grant_all (p : string) (m : gmap string ServiceCfg) (services : list string) : gmap string ServiceCfg :=
  foldl (fun m svc => alter (on_allow (fun l => push_unique l p)) svc m) m services.

Definition config_spec (op : ConfigOp) : Config -> Config :=
  match op with
  | IdentityPin pk org_id => with_identity (set_pin pk org_id)
  | IdentityUserId u => with_identity (set_user_id u)
  | JoinPin org_id pk u k => with_identity (set_user_key k ∘ set_user_id u ∘ set_pin pk org_id)
  | RosterUrl url => with_roster (set_url url)
  | IdentityNickname n => with_identity (set_nickname n)
  | Relays urls => with_network (set_relays urls)
  | WriteService name backend allow rate =>
      with_services (fun m => <[name := registered backend allow rate (m !! name)]> m)
  | RemoveService name => with_services (delete name)
  | AppendAllow p services =>
      with_services (fun m => grant_all p m services)
  | RemovePrincipal s p => with_services (alter (on_allow (filter (fun a => a <> p))) s)
  | RemoveAllow ps => with_services (fmap (on_allow (filter (fun a => a ∉ ps))))
  end.

(** A rate is an unsigned 32-bit integer. *)
Definition config_op_wf (op : ConfigOp) : Prop :=
  match op with
  | WriteService _ _ _ (Some r) => (0 <= r <= u32_max)%Z
  | _ => True
  end.

(** ** Reading back what was written *)
Lemma strings_of_Some v l : strings_of v = Some l <-> v = TArray (map TString l).
Proof.
  unfold strings_of. split.
  - intros (arr & Ha & Hl)%bind_Some. destruct v as [| | | | |arr'|]; try done. injection Ha as ->.
    f_equal. apply mapM_Some in Hl. induction Hl as [|x s arr l Hx _ IH]; [done|].
    destruct x; try done. injection Hx as ->. by rewrite IH.
  - intros ->. simpl. apply mapM_Some. rewrite Forall2_fmap_l. by apply Forall_Forall2_diag, Forall_true.
Qed.

Lemma map_values_Some {A} (f : Toml -> option A) m r :
  map_values f m = Some r <-> forall k, f <$> m !! k = Some <$> r !! k.
Proof.
  unfold map_values. split.
  - case_decide as Hall; [|done]. intros [= <-] k. rewrite lookup_omap.
    destruct (m !! k) as [v|] eqn:Hk; simpl; [|done]. by destruct (Hall k v Hk) as [a ->].
  - intros Hk. rewrite decide_True.
    + f_equal. apply map_eq. intros k. rewrite lookup_omap. specialize (Hk k).
      destruct (m !! k), (r !! k); simpl in *; naive_solver.
    + intros k v Hv. specialize (Hk k). rewrite Hv in Hk. simpl in Hk. destruct (r !! k); simpl in Hk; naive_solver.
Qed.

Lemma field_insert {A} (f : Toml -> option A) k k' v m :
  field f k (<[k' := v]> m) = if decide (k = k') then Some <$> f v else field f k m.
Proof.
  unfold field. case_decide as H; [subst; by rewrite lookup_insert_eq|by rewrite lookup_insert_ne].
Qed.

Lemma section_insert k k' m doc :
  section k (<[k' := TTable m]> doc) = if decide (k = k') then Some m else section k doc.
Proof. unfold section, field_or. rewrite field_insert. by case_decide. Qed.

Lemma config_of_Some doc c :
  config_of doc = Some c <->
  section "identity" doc ≫= identity_of = Some (c_identity c) /\
  section "network" doc ≫= network_of = Some (c_network c) /\
  section "limits" doc ≫= limits_of = Some (c_limits c) /\
  section "roster" doc ≫= roster_of = Some (c_roster c) /\
  section "blobs" doc ≫= blobs_of = Some (c_blobs c) /\
  section "services" doc ≫= map_values service_of = Some (c_services c).
Proof.
  unfold config_of. split.
  - intros (i & Hi & (n & Hn & (l & Hl & (r & Hr & (b & Hb & (s & Hs & [= <-])%bind_Some)%bind_Some)%bind_Some)
      %bind_Some)%bind_Some)%bind_Some. done.
  - intros (-> & -> & -> & -> & -> & ->). by destruct c.
Qed.

Lemma service_of_Some v s :
  service_of v = Some s <->
  exists m, v = TTable m /\ field strings_of "run" m = Some (sc_run s) /\
    field toml_str "socket" m = Some (sc_socket s) /\
    field_or strings_of [] "allow" m = Some (sc_allow s) /\
    field_or (fun v => toml_table v ≫= map_values toml_str) ∅ "env" m = Some (sc_env s) /\
    field toml_str "cwd" m = Some (sc_cwd s) /\
    field (unsigned_of u32_max) "rate_limit_per_min" m = Some (sc_rate_limit_per_min s).
Proof.
  unfold service_of. split.
  - intros (m & Hm & (? & ? & (? & ? & (? & ? & (? & ? & (? & ? & (? & ? & [= <-])%bind_Some)%bind_Some)%bind_Some)
      %bind_Some)%bind_Some)%bind_Some)%bind_Some. destruct v; try done. injection Hm as ->. by exists m.
  - intros (m & -> & H1 & H2 & H3 & H4 & H5 & H6). simpl. rewrite H1, H2, H3, H4, H5, H6. by destruct s.
Qed.

(** The document with one section replaced. *)
Lemma section_default {A} (f : Table -> option A) k doc a :
  section k doc ≫= f = Some a ->
  exists m, default (TTable ∅) (doc !! k) = TTable m /\ f m = Some a.
Proof.
  unfold section, field_or, field. destruct (doc !! k) as [v|]; simpl; [|by exists ∅].
  destruct v; try done. by exists m.
Qed.

(** Reads of a table with some fields written. *)
Ltac read_fields :=
  unfold field_or; rewrite ?field_insert;
  repeat first [rewrite decide_True by done|rewrite decide_False by done]; simpl.

Lemma identity_of_Some m i :
  identity_of m = Some i <->
  field toml_str "device_key" m = Some (i_device_key i) /\
  field toml_str "nickname" m = Some (i_nickname i) /\
  field toml_str "org_id" m = Some (i_org_id i) /\
  field toml_str "org_root_pk" m = Some (i_org_root_pk i) /\
  field toml_str "user_id" m = Some (i_user_id i) /\
  field_or toml_bool false "admit_attested_devices" m = Some (i_admit_attested_devices i) /\
  field toml_str "user_key" m = Some (i_user_key i).
Proof.
  unfold identity_of. split.
  - intros (? & ? & (? & ? & (? & ? & (? & ? & (? & ? & (? & ? & (? & ? & [= <-])%bind_Some)%bind_Some)%bind_Some)
      %bind_Some)%bind_Some)%bind_Some)%bind_Some. done.
  - intros (-> & -> & -> & -> & -> & -> & ->). by destruct i.
Qed.

Lemma network_of_Some m n :
  network_of m = Some n <->
  field_or toml_str "default" "relay_mode" m = Some (n_relay_mode n) /\
  field_or strings_of [] "relay_urls" m = Some (n_relay_urls n) /\
  field_or toml_str "default" "discovery_mode" m = Some (n_discovery_mode n) /\
  field_or strings_of [] "discovery_urls" m = Some (n_discovery_urls n) /\
  field_or toml_bool false "relay_only" m = Some (n_relay_only n) /\
  field_or toml_str "paired" "presence_mode" m = Some (n_presence_mode n) /\
  field (unsigned_of u64_max) "idle_timeout_secs" m = Some (n_idle_timeout_secs n) /\
  field (unsigned_of u64_max) "keep_alive_secs" m = Some (n_keep_alive_secs n) /\
  field_or toml_str "off" "local_discovery" m = Some (n_local_discovery n).
Proof.
  unfold network_of. split.
  - intros (? & ? & (? & ? & (? & ? & (? & ? & (? & ? & (? & ? & (? & ? & (? & ? & (? & ? & [= <-])%bind_Some)
      %bind_Some)%bind_Some)%bind_Some)%bind_Some)%bind_Some)%bind_Some)%bind_Some)%bind_Some. done.
  - intros (-> & -> & -> & -> & -> & -> & -> & -> & ->). by destruct n.
Qed.

Lemma roster_of_Some m r :
  roster_of m = Some r <->
  field_or toml_str "72h" "grace_period" m = Some (ro_grace_period r) /\
  field toml_str "url" m = Some (ro_url r) /\
  field_or toml_str "1h" "poll_interval" m = Some (ro_poll_interval r) /\
  field_or toml_str "24h" "max_staleness" m = Some (ro_max_staleness r).
Proof.
  unfold roster_of. split.
  - intros (? & ? & (? & ? & (? & ? & (? & ? & [= <-])%bind_Some)%bind_Some)%bind_Some)%bind_Some. done.
  - intros (-> & -> & -> & ->). by destruct r.
Qed.

(** The configuration of a document with one section replaced. *)
Lemma replace_sections doc c m :
  config_of doc = Some c ->
  (forall i, identity_of m = Some i ->
     config_of (<["identity"%string := TTable m]> doc) = Some (with_identity (fun _ => i) c)) /\
  (forall n, network_of m = Some n ->
     config_of (<["network"%string := TTable m]> doc) = Some (with_network (fun _ => n) c)) /\
  (forall r, roster_of m = Some r ->
     config_of (<["roster"%string := TTable m]> doc) = Some (with_roster (fun _ => r) c)) /\
  (forall s, map_values service_of m = Some s ->
     config_of (<["services"%string := TTable m]> doc) = Some (with_services (fun _ => s) c)).
Proof.
  intros (H1 & H2 & H3 & H4 & H5 & H6)%config_of_Some. split_and!; intros x Hx; apply config_of_Some;
    rewrite !section_insert;
    repeat first [rewrite decide_True by done|rewrite decide_False by done]; simpl; by rewrite ?Hx.
Qed.

(** An edit that must come out as a function of the configuration. *)
Definition edits_to (r : result string (option Table)) (c c' : Config) : Prop :=
  match r with
  | Ok (Some doc) => config_of doc = Some c'
  | Ok None => c' = c
  | Err _ => False
  end.

Lemma identity_edit doc c pairs f :
  config_of doc = Some c ->
  (forall m i, identity_of m = Some i ->
     identity_of (foldl (fun m kv => <[kv.1 := TString kv.2]> m) m pairs) = Some (f i)) ->
  edits_to (upsert_config_strings "identity" pairs doc) c (with_identity f c).
Proof.
  intros Hc Hf. pose proof Hc as (Hi & _)%config_of_Some.
  apply section_default in Hi as (m & Hm & Hi). unfold upsert_config_strings, entry_table. rewrite Hm. simpl.
  by apply replace_sections, Hf.
Qed.

Lemma pins_read pk org_id m i :
  identity_of m = Some i ->
  identity_of (<["org_id"%string := TString org_id]> (<["org_root_pk"%string := TString pk]> m)) =
    Some (set_pin pk org_id i).
Proof.
  rewrite !identity_of_Some. unfold field_or. intros (? & ? & ? & ? & ? & ? & ?). read_fields. done.
Qed.

Lemma join_pins_read pk org_id u k m i :
  identity_of m = Some i ->
  identity_of (<["user_key"%string := TString k]> (<["user_id"%string := TString u]>
    (<["org_root_pk"%string := TString pk]> (<["org_id"%string := TString org_id]> m)))) =
    Some (set_user_key k (set_user_id u (set_pin pk org_id i))).
Proof.
  rewrite !identity_of_Some. unfold field_or. intros (? & ? & ? & ? & ? & ? & ?). read_fields. done.
Qed.

Lemma user_id_read u m i :
  identity_of m = Some i -> identity_of (<["user_id"%string := TString u]> m) = Some (set_user_id u i).
Proof.
  rewrite !identity_of_Some. unfold field_or. intros (? & ? & ? & ? & ? & ? & ?). read_fields. done.
Qed.

Lemma nickname_read n m i :
  identity_of m = Some i -> identity_of (<["nickname"%string := TString n]> m) = Some (set_nickname n i).
Proof.
  rewrite !identity_of_Some. unfold field_or. intros (? & ? & ? & ? & ? & ? & ?). read_fields. done.
Qed.

Lemma relays_edit doc c urls :
  config_of doc = Some c -> edits_to (write_relays urls doc) c (with_network (set_relays urls) c).
Proof.
  intros Hc. pose proof Hc as (_ & Hn & _)%config_of_Some.
  apply section_default in Hn as (m & Hm & Hn). unfold write_relays, entry_table. rewrite Hm. simpl.
  apply replace_sections; [done|]. apply network_of_Some in Hn. apply network_of_Some.
  unfold field_or in *. destruct Hn as (? & ? & ? & ? & ? & ? & ? & ? & ?). read_fields.
  rewrite (proj2 (strings_of_Some _ _) eq_refl). done.
Qed.

Lemma url_edit doc c url :
  config_of doc = Some c -> edits_to (write_roster_url url doc) c (with_roster (set_url url) c).
Proof.
  intros Hc. pose proof Hc as (_ & _ & _ & Hr & _)%config_of_Some.
  apply section_default in Hr as (m & Hm & Hr). unfold write_roster_url, upsert_config_strings, entry_table.
  rewrite Hm. simpl. apply replace_sections; [done|]. apply roster_of_Some in Hr. apply roster_of_Some.
  unfold field_or in *. destruct Hr as (? & ? & ? & ?). read_fields. done.
Qed.

(** *** Services *)

Lemma services_read doc c :
  config_of doc = Some c ->
  match services_table doc with
  | Some tbl => map_values service_of tbl = Some (c_services c)
  | None => doc !! "services"%string = None /\ c_services c = ∅
  end.
Proof.
  intros (_ & _ & _ & _ & _ & Hs)%config_of_Some. unfold section, field_or, field, services_table, get_table in *.
  destruct (doc !! "services"%string) as [v|]; simpl in *.
  - by destruct v.
  - pose proof (proj1 (map_values_Some _ _ _) Hs) as Hs'. split; [done|]. apply map_eq. intros k. specialize (Hs' k).
    rewrite lookup_empty in *. simpl in Hs'. by destruct (c_services c !! k).
Qed.

Lemma service_at tbl svcs name :
  map_values service_of tbl = Some svcs ->
  match tbl !! name with
  | Some v => exists m s, v = TTable m /\ service_of (TTable m) = Some s /\ svcs !! name = Some s
  | None => svcs !! name = None
  end.
Proof.
  intros Hk. rewrite map_values_Some in Hk. specialize (Hk name).
  destruct (tbl !! name) as [v|], (svcs !! name) as [s|]; simpl in *; try done. injection Hk as Hk.
  pose proof Hk as (m & -> & _)%service_of_Some. by exists m, s.
Qed.

Lemma map_values_insert tbl svcs name v s :
  map_values service_of tbl = Some svcs -> service_of v = Some s ->
  map_values service_of (<[name := v]> tbl) = Some (<[name := s]> svcs).
Proof.
  rewrite !map_values_Some. intros Hk Hv k. destruct (decide (k = name)) as [->|Hne].
  - rewrite !lookup_insert_eq. simpl. by rewrite Hv.
  - by rewrite !lookup_insert_ne.
Qed.

Lemma allow_read m s :
  service_of (TTable m) = Some s ->
  match get_array "allow" m with
  | Some arr => m !! "allow"%string = Some (TArray arr) /\ arr = map TString (sc_allow s)
  | None => m !! "allow"%string = None /\ sc_allow s = []
  end.
Proof.
  intros (m' & [= <-] & _ & _ & Ha & _)%service_of_Some. unfold field_or, field, get_array in *.
  destruct (m !! "allow"%string) as [v|]; simpl in *; [|by injection Ha].
  destruct (strings_of v) as [l|] eqn:Hl; simpl in *; [|done]. injection Ha as <-.
  by apply strings_of_Some in Hl as ->.
Qed.

Lemma allow_written m s l :
  service_of (TTable m) = Some s ->
  service_of (TTable (<["allow"%string := TArray (map TString l)]> m)) = Some (on_allow (fun _ => l) s).
Proof.
  intros (m' & [= <-] & H)%service_of_Some. apply service_of_Some. eexists. split; [done|].
  unfold field_or in *. destruct H as (? & ? & ? & ? & ? & ?). read_fields.
  rewrite (proj2 (strings_of_Some _ _) eq_refl). done.
Qed.

Lemma existsb_toml_is p l : existsb (toml_is p) (map TString l) = bool_decide (p ∈ l).
Proof.
  apply eq_bool_prop_intro. rewrite !Is_true_true, bool_decide_eq_true, existsb_exists. split.
  - intros (v & Hv & Hp). apply in_map_iff in Hv as (a & <- & Ha). unfold toml_is in Hp. simpl in Hp.
    apply bool_decide_eq_true in Hp. injection Hp as ->. by apply list_elem_of_In.
  - intros Hp. exists (TString p). split; [by apply in_map, list_elem_of_In|]. unfold toml_is.
    by apply bool_decide_eq_true.
Qed.

(** A filter of the strings of an array, by its length. *)
Lemma filter_strings (P : Toml -> Prop) (Q : string -> Prop) `{!forall v, Decision (P v), !forall s, Decision (Q s)} l :
  (forall s, P (TString s) <-> Q s) ->
  filter P (map TString l) = map TString (filter Q l) /\
  (length (filter P (map TString l)) = length (map TString l) -> filter Q l = l).
Proof.
  intros Hpq. assert (E : filter P (map TString l) = map TString (filter Q l)).
  { induction l as [|a l IH]; [done|]. cbn [map]. rewrite !filter_cons, IH.
    destruct (decide (P (TString a))) as [Hp|Hp], (decide (Q a)) as [Hq|Hq]; naive_solver. }
  split; [done|]. rewrite E, !length_map. intros Hl. clear E.
  induction l as [|a l IH]; [done|]. rewrite filter_cons in *. case_decide.
  - simpl in Hl. f_equal. apply IH. lia.
  - pose proof (length_filter Q l). simpl in Hl. lia.
Qed.

Lemma on_allow_id f s : f (sc_allow s) = sc_allow s -> on_allow f s = s.
Proof. unfold on_allow. intros ->. by destruct s. Qed.

Lemma append_one_read p acc svcs svc :
  map_values service_of acc.1 = Some svcs ->
  exists tbl changed, append_one p acc svc = Ok (tbl, acc.2 || changed) /\
    map_values service_of tbl = Some (alter (on_allow (fun l => push_unique l p)) svc svcs) /\
    (changed = false -> alter (on_allow (fun l => push_unique l p)) svc svcs = svcs).
Proof.
  intros Hm. unfold append_one. pose proof (service_at _ _ svc Hm) as Hs.
  destruct acc as [tbl b]. cbn [fst snd] in *. destruct (tbl !! svc) as [v|] eqn:Hv.
  2: { assert (E : alter (on_allow (fun l => push_unique l p)) svc svcs = svcs)
         by (apply map_eq; intros k; destruct (decide (k = svc)) as [->|]; [by rewrite lookup_alter_eq, Hs|by rewrite lookup_alter_ne]).
       exists tbl, false. rewrite E. split_and!; [by rewrite orb_false_r|done..]. }
  destruct Hs as (m & s & -> & Hsv & Hs). pose proof (allow_read m s Hsv) as Ha.
  assert (Harr : exists arr, default (TArray []) (m !! "allow"%string) = TArray arr /\ arr = map TString (sc_allow s)).
  { destruct (get_array "allow" m) as [arr|]; destruct Ha as [Ha1 Ha2]; rewrite Ha1; simpl; [by exists arr|].
    exists []. by rewrite Ha2. }
  destruct Harr as (arr & -> & ->). rewrite existsb_toml_is.
  assert (Halt : alter (on_allow (fun l => push_unique l p)) svc svcs =
    <[svc := on_allow (fun l => push_unique l p) s]> svcs).
  { apply map_eq. intros k. destruct (decide (k = svc)) as [->|]; [by rewrite lookup_alter_eq, Hs, lookup_insert_eq|].
    by rewrite lookup_alter_ne, lookup_insert_ne. }
  rewrite Halt. unfold push_unique. case_bool_decide as Hp.
  - assert (E : on_allow (fun l => if decide (p ∈ l) then l else l ++ [p]) s = s)
      by (apply on_allow_id; by rewrite decide_True).
    rewrite E, (insert_id _ _ _ Hs). exists tbl, false. split_and!; [by rewrite orb_false_r|done..].
  - eexists _, true. split_and!; [by rewrite orb_true_r| |done].
    apply map_values_insert; [done|]. change [TString p] with (map TString [p]). rewrite <- map_app.
    rewrite (allow_written m s) by done. unfold on_allow. by rewrite decide_False.
Qed.

Lemma append_edit doc c p services :
  config_of doc = Some c ->
  edits_to (append_allow_to_config p services doc) c (config_spec (AppendAllow p services) c).
Proof.
  intros Hc. unfold append_allow_to_config. pose proof (services_read doc c Hc) as Hs.
  destruct (services_table doc) as [tbl|].
  2: { destruct Hs as [_ Hs]. simpl. unfold with_services. destruct c; simpl in *; subst.
       f_equal. induction services as [|a l IH]; simpl; [done|].
       replace (alter (on_allow (fun l0 => push_unique l0 p)) a ∅) with (∅ : gmap string ServiceCfg); [done|].
       by apply map_eq; intros k; rewrite lookup_alter, lookup_empty; case_decide. }
  assert (Hfold : forall acc svcs, map_values service_of acc.1 = Some svcs ->
    exists tbl changed, fold_result (append_one p) acc services = Ok (tbl, acc.2 || changed) /\
      map_values service_of tbl = Some (grant_all p svcs services) /\ (changed = false -> grant_all p svcs services = svcs)).
  { unfold grant_all. induction services as [|svc services IH]; intros acc svcs Hm; simpl.
    { exists acc.1, false. rewrite orb_false_r. by destruct acc. }
    destruct (append_one_read p acc svcs svc Hm) as (t1 & b1 & -> & Hm1 & Hb1). simpl.
    destruct (IH (t1, acc.2 || b1) _ Hm1) as (t2 & b2 & -> & Hm2 & Hb2). simpl.
    exists t2, (b1 || b2). split_and!; [by rewrite orb_assoc|done|].
    intros [-> ->]%orb_false_iff. rewrite Hb1 in Hb2 by done. rewrite Hb1 by done. by apply Hb2. }
  destruct (Hfold (tbl, false) _ Hs) as (t & b & -> & Hm & Hb). simpl. destruct b; simpl.
  - by apply replace_sections.
  - unfold with_services. rewrite Hb by done. by destruct c.
Qed.

Lemma remove_principal_edit doc c service p :
  config_of doc = Some c ->
  edits_to (remove_principal_from_service service p doc) c (config_spec (RemovePrincipal service p) c).
Proof.
  intros Hc. pose proof (services_read doc c Hc) as Hs. unfold remove_principal_from_service.
  assert (Hid : forall f s, c_services c !! service = Some s -> f (sc_allow s) = sc_allow s ->
    with_services (alter (on_allow f) service) c = c).
  { intros f s Hl Hf. destruct c as [i n l r b svcs]; simpl in *. unfold with_services. simpl. f_equal.
    apply map_eq. intros k. destruct (decide (k = service)) as [->|]; [|by rewrite lookup_alter_ne].
    rewrite lookup_alter_eq, Hl. simpl. by rewrite on_allow_id. }
  assert (Hnone : c_services c !! service = None -> with_services (alter (on_allow (filter (fun a => a <> p))) service) c = c).
  { intros Hl. destruct c as [i n l r b svcs]; simpl in *. unfold with_services. simpl. f_equal.
    apply map_eq. intros k. destruct (decide (k = service)) as [->|]; [|by rewrite lookup_alter_ne].
    by rewrite lookup_alter_eq, Hl. }
  destruct (services_table doc) as [tbl|]; [|by apply Hnone; destruct Hs as [_ ->]].
  pose proof (service_at _ _ service Hs) as Hat. unfold get_table.
  destruct (tbl !! service) as [v|] eqn:Hv; simpl; [|by apply Hnone].
  destruct Hat as (m & s & -> & Hsv & Hl). simpl. pose proof (allow_read m s Hsv) as Ha.
  destruct (get_array "allow" m) as [arr|].
  2: { simpl. apply (Hid _ s Hl). by destruct Ha as [_ ->]. }
  destruct Ha as [_ ->].
  destruct (filter_strings (fun v => toml_is p v = false) (fun a => a <> p) (sc_allow s)) as [He Hlen].
  { intros a. unfold toml_is. simpl. rewrite bool_decide_eq_false. split; [intros H ->; by apply H|congruence]. }
  destruct (Nat.eqb_spec (length (filter (fun v => toml_is p v = false) (map TString (sc_allow s))))
    (length (map TString (sc_allow s)))) as [Hn|Hn].
  - simpl. apply (Hid _ s Hl). by apply Hlen.
  - rewrite He. simpl. rewrite (proj2 (proj2 (proj2 (replace_sections doc c _ Hc))) _
      (map_values_insert _ _ _ _ _ Hs (allow_written m s _ Hsv))).
    f_equal. destruct c as [i n l r b svcs]; simpl in *. unfold with_services. simpl. f_equal.
    apply map_eq. intros k. destruct (decide (k = service)) as [->|].
    + by rewrite lookup_insert_eq, lookup_alter_eq, Hl.
    + by rewrite lookup_insert_ne, lookup_alter_ne.
Qed.

(** A principal no list holds is not stripped: nothing is written. *)
Lemma remove_principal_none doc c service p :
  config_of doc = Some c -> (forall s, c_services c !! service = Some s -> p ∉ sc_allow s) ->
  remove_principal_from_service service p doc = Ok None.
Proof.
  intros Hc Hp. pose proof (services_read doc c Hc) as Hs. unfold remove_principal_from_service.
  destruct (services_table doc) as [tbl|]; [|done].
  pose proof (service_at _ _ service Hs) as Hat. unfold get_table.
  destruct (tbl !! service) as [v|] eqn:Hv; simpl; [|done].
  destruct Hat as (m & s & -> & Hsv & Hl). simpl. pose proof (allow_read m s Hsv) as Ha.
  destruct (get_array "allow" m) as [arr|]; [|done]. destruct Ha as [_ ->].
  destruct (filter_strings (fun v => toml_is p v = false) (fun a => a <> p) (sc_allow s)) as [He _].
  { intros a. unfold toml_is. simpl. rewrite bool_decide_eq_false. split; [intros H ->; by apply H|congruence]. }
  rewrite He. specialize (Hp s Hl). assert (Hf : filter (fun a => a <> p) (sc_allow s) = sc_allow s).
  { clear - Hp. induction (sc_allow s) as [|a l IH]; [done|]. apply not_elem_of_cons in Hp as [Hne Hp].
    rewrite filter_cons_True by congruence. by rewrite IH. }
  rewrite Hf. by rewrite Nat.eqb_refl.
Qed.

Lemma strip_entry_read ps m s :
  service_of (TTable m) = Some s ->
  service_of (strip_entry ps (TTable m)).1 = Some (on_allow (filter (fun a => a ∉ ps)) s) /\
  ((strip_entry ps (TTable m)).2 = false -> on_allow (filter (fun a => a ∉ ps)) s = s).
Proof.
  intros Hs. unfold strip_entry. cbn [toml_table]. pose proof (allow_read m s Hs) as Ha.
  destruct (get_array "allow" m) as [arr|]; destruct Ha as [_ Ha].
  2: { cbn [fst snd]. rewrite on_allow_id by (by rewrite Ha). done. }
  subst arr.
  destruct (filter_strings (fun v => existsb (fun p => toml_is p v) ps = false) (fun a => a ∉ ps) (sc_allow s)) as [He Hlen].
  { intros a. rewrite existsb_false. unfold toml_is. simpl. split.
    - intros H Hin. specialize (H a Hin). by apply bool_decide_eq_false in H.
    - intros H x Hx. apply bool_decide_eq_false. congruence. }
  cbn [fst snd]. rewrite He. split; [by rewrite (allow_written m s) by done|].
  rewrite negb_false_iff, Nat.eqb_eq. intros Hn. apply on_allow_id, Hlen. by rewrite He.
Qed.

Lemma remove_allow_edit doc c ps :
  config_of doc = Some c ->
  edits_to (remove_allow_from_config ps doc) c (config_spec (RemoveAllow ps) c).
Proof.
  intros Hc. pose proof (services_read doc c Hc) as Hs. unfold remove_allow_from_config.
  destruct (services_table doc) as [tbl|].
  2: { destruct Hs as [_ Hs]. simpl. unfold with_services. rewrite Hs, fmap_empty, <- Hs. by destruct c. }
  assert (Hall : forall k, match tbl !! k with
    | Some v => exists s, c_services c !! k = Some s /\
        service_of (strip_entry ps v).1 = Some (on_allow (filter (fun a => a ∉ ps)) s) /\
        ((strip_entry ps v).2 = false -> on_allow (filter (fun a => a ∉ ps)) s = s)
    | None => c_services c !! k = None end).
  { intros k. pose proof (service_at _ _ k Hs) as Hk. destruct (tbl !! k) as [v|]; [|done].
    destruct Hk as (m & s & -> & Hsv & Hl). exists s. split; [done|]. by apply strip_entry_read. }
  case_bool_decide as Hn; simpl.
  - unfold with_services. replace (on_allow _ <$> c_services c) with (c_services c); [by destruct c|].
    apply map_eq. intros k. rewrite lookup_fmap. specialize (Hall k). destruct (tbl !! k) as [v|] eqn:Hv.
    + destruct Hall as (s & -> & _ & Hid). simpl. rewrite Hid; [done|].
      apply (Hn k (strip_entry ps v)). by rewrite lookup_fmap, Hv.
    + by rewrite Hall.
  - apply replace_sections; [done|]. apply map_values_Some. intros k. rewrite !lookup_fmap.
    specialize (Hall k). destruct (tbl !! k) as [v|]; simpl.
    + destruct Hall as (s & -> & Hsv & _). simpl. by rewrite Hsv.
    + by rewrite Hall.
Qed.

Lemma remove_service_edit doc c name :
  config_of doc = Some c ->
  edits_to (remove_service_from_config name doc) c (config_spec (RemoveService name) c).
Proof.
  intros Hc. pose proof (services_read doc c Hc) as Hs. unfold remove_service_from_config.
  assert (Hnone : c_services c !! name = None -> with_services (delete name) c = c).
  { intros Hl. unfold with_services. rewrite delete_id by done. by destruct c. }
  destruct (services_table doc) as [tbl|]; [|by apply Hnone; destruct Hs as [_ ->]].
  pose proof (service_at _ _ name Hs) as Hat. destruct (tbl !! name) as [v|] eqn:Hv; simpl; [|by apply Hnone].
  apply replace_sections; [done|]. rewrite map_values_Some in *. intros k.
  destruct (decide (k = name)) as [->|]; [by rewrite !lookup_delete_eq|by rewrite !lookup_delete_ne].
Qed.

Lemma map_values_strings (env : gmap string string) : map_values toml_str (TString <$> env) = Some env.
Proof. apply map_values_Some. intros k. rewrite lookup_fmap. by destruct (env !! k). Qed.

(** The entry a registration writes reads as the registered service. *)
Lemma registered_read backend allow rate :
  match rate with Some r => (0 <= r <= u32_max)%Z | None => True end ->
  let entry := <["allow"%string := TArray (map TString allow)]> (backend_entry backend) in
  service_of (TTable match rate with
                     | Some r => <["rate_limit_per_min"%string := TInteger r]> entry
                     | None => entry
                     end) =
    Some (on_allow (fun _ => allow) (registered backend [] rate None)).
Proof.
  intros Hr entry. unfold registered. simpl.
  assert (Hrate : field (unsigned_of u32_max) "rate_limit_per_min"
     (match rate with Some r => <["rate_limit_per_min"%string := TInteger r]> entry | None => entry end) = Some rate).
  { destruct rate as [r|].
    - rewrite field_insert, decide_True by done. unfold unsigned_of. simpl.
      by rewrite !(proj2 (Z.leb_le _ _)) by lia.
    - unfold entry. read_fields. unfold field. destruct backend as [cmd env [cwd|]|path]; simpl;
        repeat case_decide; by simplify_map_eq. }
  assert (Hother : forall A (f : Toml -> option A) k, k <> "rate_limit_per_min"%string ->
    field f k (match rate with Some r => <["rate_limit_per_min"%string := TInteger r]> entry | None => entry end) =
    field f k entry).
  { intros A f k Hk. destruct rate; [|done]. by rewrite field_insert, decide_False. }
  apply service_of_Some. eexists. split; [done|]. unfold field_or. rewrite Hrate, !Hother by done.
  unfold entry. read_fields. rewrite (proj2 (strings_of_Some _ _) eq_refl).
  destruct backend as [cmd env cwd|path]; cbn [on_allow sc_run sc_socket sc_allow sc_env sc_cwd sc_rate_limit_per_min].
  - assert (He : forall A (f : Toml -> option A) k, k <> "env"%string -> field f k (backend_entry (Run cmd env cwd)) =
      field f k (match cwd with Some cwd => <["cwd"%string := TString cwd]> (<["run"%string := TArray (map TString cmd)]> ∅)
                 | None => <["run"%string := TArray (map TString cmd)]> ∅ end)).
    { intros A f k Hk. unfold backend_entry. case_decide; [done|]. by rewrite field_insert, decide_False. }
    rewrite (He _ _ "run"%string), (He _ _ "socket"%string), (He _ _ "cwd"%string) by done.
    split_and!; try done.
    + destruct cwd; read_fields; by rewrite (proj2 (strings_of_Some _ _) eq_refl).
    + destruct cwd; read_fields; done.
    + unfold backend_entry. case_decide as Henv.
      * subst env. destruct cwd; read_fields; done.
      * rewrite field_insert, decide_True by done. simpl. by rewrite map_values_strings.
    + destruct cwd; read_fields; done.
    + by destruct rate.
  - unfold backend_entry. read_fields. by destruct rate.
Qed.

Lemma strings_in_map l : strings_in (map TString l) = l.
Proof. unfold strings_in. induction l as [|a l IH]; [done|]. simpl. f_equal. exact IH. Qed.

Lemma write_service_edit doc c name backend allow rate :
  config_op_wf (WriteService name backend allow rate) -> config_of doc = Some c ->
  edits_to (write_service_to_config name backend allow rate doc) c
    (config_spec (WriteService name backend allow rate) c).
Proof.
  intros Hwf Hc. unfold write_service_to_config, entry_table.
  pose proof Hc as (_ & _ & _ & _ & _ & Hs)%config_of_Some.
  apply section_default in Hs as (tbl & Htbl & Hs). rewrite Htbl. simpl.
  pose proof (service_at _ _ name Hs) as Hat. unfold existing_allow, get_table.
  assert (Hold : match (tbl !! name ≫= toml_table) ≫= get_array "allow" with
                 | Some arr => strings_in arr | None => [] end = default [] (sc_allow <$> c_services c !! name) /\
    (tbl !! name ≫= toml_table) ≫= get_int "rate_limit_per_min" = c_services c !! name ≫= sc_rate_limit_per_min /\
    forall r, c_services c !! name ≫= sc_rate_limit_per_min = Some r -> (0 <= r <= u32_max)%Z).
  { destruct (tbl !! name) as [v|]; simpl; [|by rewrite Hat].
    destruct Hat as (m & s & -> & Hsv & ->). simpl. split; [|].
    - pose proof (allow_read m s Hsv) as Ha. destruct (get_array "allow" m) as [arr|]; destruct Ha as [_ ->]; [|done].
      apply strings_in_map.
    - pose proof Hsv as (m' & [= <-] & _ & _ & _ & _ & _ & Hr)%service_of_Some. unfold field, get_int in *.
      destruct (m !! "rate_limit_per_min"%string) as [v|]; simpl in *; [|by injection Hr as <-].
      unfold unsigned_of in Hr. destruct v; try done. simpl in *.
      destruct ((0 <=? z) && (z <=? u32_max))%Z eqn:Hz; [|done]. simpl in Hr. injection Hr as <-.
      apply andb_true_iff in Hz as [?%Z.leb_le ?%Z.leb_le]. split; [done|]. by intros r [= <-]. }
  destruct Hold as (-> & -> & Hrange).
  set (rate' := match rate with Some r => Some r | None => c_services c !! name ≫= sc_rate_limit_per_min end).
  assert (Hr' : match rate' with Some r => (0 <= r <= u32_max)%Z | None => True end).
  { unfold rate'. simpl in Hwf. destruct rate; [done|].
    destruct (c_services c !! name ≫= sc_rate_limit_per_min) eqn:E; [by apply Hrange|done]. }
  rewrite (proj2 (proj2 (proj2 (replace_sections doc c _ Hc))) _
    (map_values_insert _ _ _ _ _ Hs (registered_read backend _ rate' Hr'))).
  assert (E : forall old, rate' = match rate with Some r => Some r | None => old ≫= sc_rate_limit_per_min end ->
    on_allow (fun _ => foldl push_unique (default [] (sc_allow <$> old)) allow) (registered backend [] rate' None) =
    registered backend allow rate old).
  { intros old E. unfold registered, on_allow. rewrite <- E. by destruct backend, rate'. }
  simpl. unfold with_services. by rewrite E.
Qed.

Lemma config_edit_spec op doc c :
  config_op_wf op -> config_of doc = Some c -> edits_to (config_edit op doc) c (config_spec op c).
Proof.
  intros Hwf Hc. destruct op; simpl config_edit.
  - apply identity_edit; [done|]. intros. by apply pins_read.
  - apply identity_edit; [done|]. intros. by apply user_id_read.
  - apply identity_edit; [done|]. intros. by apply join_pins_read.
  - by apply url_edit.
  - apply identity_edit; [done|]. intros. by apply nickname_read.
  - by apply relays_edit.
  - by apply write_service_edit.
  - by apply remove_service_edit.
  - by apply append_edit.
  - by apply remove_principal_edit.
  - by apply remove_allow_edit.
Qed.

(** ** Histories of the file *)
Section properties.
Context `{L : TomlCodecLaws}.

Definition run_op (io : Faults) (op : ConfigOp) (file : File) : result string bool * File :=
  rmw io (config_edit op) file.

(** One operation on a file that loads: only the disk or the printer can fail, and then the
    file is as it was; otherwise it loads as the operation promises, and is untouched when
    nothing changed. *)
Lemma run_op_spec io op file c :
  config_op_wf op -> config_load healthy file = Ok c ->
  match run_op io op file with
  | (Ok changed, file') =>
      config_load healthy file' = Ok (config_spec op c) /\ (changed = false -> file' = file)
  | (Err e, file') =>
      file' = file /\ (f_read io = Some e \/ f_write io = Some e \/ exists d, to_string_pretty d = Err e)
  end.
Proof.
  intros Hwf (doc & Hdoc & Hc)%bind_Ok. apply ok_or_Ok in Hc. unfold run_op, rmw, read_doc, read_config_for_rmw in *.
  simpl in Hdoc. destruct (f_read io) as [e|]; simpl; [by auto|]. rewrite Hdoc. simpl.
  pose proof (config_edit_spec op doc c Hwf Hc) as Hs. destruct (config_edit op doc) as [[doc'|]|e]; simpl in Hs; [| |done].
  - unfold write_config_doc. destruct (to_string_pretty doc') as [s|e] eqn:Hp; simpl; [|by eauto].
    destruct (f_write io) as [e|]; simpl; [by auto|]. split; [|done].
    unfold config_load, read_doc, read_config_for_rmw. simpl. rewrite (toml_from_pretty _ _ Hp). simpl. by rewrite Hs.
  - split; [|done]. unfold config_load, read_doc, read_config_for_rmw. simpl. rewrite Hdoc. simpl. by rewrite Hc, Hs.
Qed.

(** The operations that succeeded, and the file after all of them. *)
Fixpoint run_config (ops : list (Faults * ConfigOp)) (file : File) : list ConfigOp * File :=
  match ops with
  | [] => ([], file)
  | (io, op) :: ops =>
      let '(r, file) := run_op io op file in
      let '(succeeded, file) := run_config ops file in
      (if is_ok r then op :: succeeded else succeeded, file)
  end.

(** C15: the file refines its abstract specification: after any sequence of edits, under any
    pattern of read and write failures, it loads, and as exactly the configuration the edits
    that reported success promise; an edit changes no setting but the one it names, a
    registration drops no grant, and a failed edit leaves no trace. *)
Theorem config_history ops file c :
  config_load healthy file = Ok c -> Forall (fun o => config_op_wf o.2) ops ->
  let '(succeeded, file') := run_config ops file in
  config_load healthy file' = Ok (foldl (fun c op => config_spec op c) c succeeded).
Proof.
  intros Hc Hwf. revert file c Hc. induction Hwf as [|[io op] ops Hop _ IH]; intros file c Hc; [done|].
  simpl. pose proof (run_op_spec io op file c Hop Hc) as Hs. destruct (run_op io op file) as [[b|e] file1].
  - specialize (IH file1 _ (proj1 Hs)). by destruct (run_config ops file1).
  - destruct Hs as [-> _]. specialize (IH file _ Hc). by destruct (run_config ops file).
Qed.
End properties.

(** A concrete codec: tables, arrays, strings and integers, printed as the toy JSON. *)
Module ToyToml.
Import Externals.Toy Json.

Definition by_name (a b : string * Toml) : Prop := String.leb a.1 b.1 = true.
#[export] Instance by_name_dec : RelDecision by_name.
Proof. unfold by_name. intros a b. apply _. Defined.

Fixpoint enc (n : nat) (v : Toml) : option Value :=
  match n with
  | O => None
  | S n =>
      match v with
      | TString s => Some (VString s)
      | TInteger z => Some (VNumber (NInt z))
      | TArray l => VArray <$> mapM (enc n) l
      | TTable m =>
          VObject <$> mapM (fun kv => pair kv.1 <$> enc n kv.2) (merge_sort by_name (map_to_list m))
      | _ => None
      end
  end.
Fixpoint dec (n : nat) (v : Value) : option Toml :=
  match n with
  | O => None
  | S n =>
      match v with
      | VString s => Some (TString s)
      | VNumber (NInt z) => Some (TInteger z)
      | VArray l => TArray <$> mapM (dec n) l
      | VObject l => TTable ∘ list_to_map <$> mapM (fun kv => pair kv.1 <$> dec n kv.2) l
      | _ => None
      end
  end.

Lemma dec_enc n v w : enc n v = Some w -> dec n w = Some v.
Proof.
  revert v w. induction n as [|n IH]; intros v w; [done|]. simpl. destruct v as [s|z|s|b|s|l|m]; try done.
  - by intros [= <-].
  - by intros [= <-].
  - intros (l' & Hl & ->)%fmap_Some. simpl. apply mapM_Some in Hl.
    assert (E : mapM (dec n) l' = Some l); [|by rewrite E].
    apply mapM_Some, Forall2_flip. eapply Forall2_impl; [exact Hl|]. intros x y. apply IH.
  - intros (l' & Hl & ->)%fmap_Some. simpl. apply mapM_Some in Hl.
    assert (E : mapM (fun kv => pair kv.1 <$> dec n kv.2) l' = Some (merge_sort by_name (map_to_list m))).
    { apply mapM_Some, Forall2_flip. eapply Forall2_impl; [exact Hl|].
      intros [k x] [k' y] (y' & Hy & [= <- <-])%fmap_Some. simpl. by rewrite (IH x y Hy). }
    rewrite E. simpl. do 2 f_equal. etrans; [|apply list_to_map_to_list].
    apply list_to_map_proper; [|apply merge_sort_Permutation].
    rewrite merge_sort_Permutation. apply NoDup_fst_map_to_list.
Qed.

Definition print_doc (d : Table) : result string bytes :=
  match enc 8 (TTable d) with
  | Some v => if plain_value v then Ok (json_to_vec v) else Err "unprintable"
  | None => Err "unprintable"
  end.
Definition parse_doc (b : bytes) : result string Table :=
  if bool_decide (b = []) then Ok ∅
  else
    let h := with_header [] in
    let b := if bool_decide (take (length h) b = h) then drop (length h) b else b in
    match json_from_slice b ≫= dec 8 with Some (TTable d) => Ok d | _ => Err "not TOML" end.

#[export] Instance toml : TomlCodec := {| toml_from_str := parse_doc; to_string_pretty := print_doc |}.
#[export] Instance toml_laws : TomlCodecLaws toml.
Proof.
  split; cbn [toml_from_str to_string_pretty toml]; [|done]. intros d s. unfold print_doc, parse_doc.
  destruct (enc 8 (TTable d)) as [v|] eqn:He; [|done]. destruct (plain_value v) eqn:Hv; [|done].
  intros [= <-]. rewrite bool_decide_false by done. cbv zeta.
  assert (Hh : with_header (json_to_vec v) = with_header [] ++ json_to_vec v).
  { unfold with_header. by rewrite <- app_assoc. }
  change (print v) with (json_to_vec v). rewrite Hh, take_app_length, drop_app_length, bool_decide_true by done.
  rewrite (json_from_to v Hv). cbn [mbind option_bind]. by rewrite (dec_enc _ _ _ He).
Qed.
End ToyToml.

Module Witness.
Import ToyToml.

Definition ops : list (Faults * ConfigOp) :=
  [(healthy, WriteService "notes" (Socket "/run/notes") ["eid:aa"] (Some 30%Z));
   (healthy, AppendAllow "b64u:bob" ["notes"; "absent"]);
   ({| f_read := None; f_write := Some "disk full" |}, RemoveService "notes");
   (healthy, WriteService "notes" (Socket "/run/notes2") [] None);
   (healthy, RemovePrincipal "notes" "eid:aa")]%string.

(** The failed removal leaves the service, and registering it again keeps its grants. *)
Lemma config_history_witness :
  (run_config ops None).1 = [WriteService "notes" (Socket "/run/notes") ["eid:aa"] (Some 30%Z);
    AppendAllow "b64u:bob" ["notes"; "absent"]; WriteService "notes" (Socket "/run/notes2") [] None;
    RemovePrincipal "notes" "eid:aa"]%string /\
  exists c, config_load healthy (run_config ops None).2 = Ok c /\
    sc_allow <$> c_services c !! "notes"%string = Some ["b64u:bob"]%string.
Proof.
  assert (H0 : exists c, config_load healthy None = Ok c) by (eexists; vm_compute; reflexivity).
  destruct H0 as [c0 H0]. split; [vm_compute; reflexivity|].
  assert (Hwf : Forall (fun o => config_op_wf o.2) ops).
  { repeat constructor; simpl; unfold u32_max; lia. }
  pose proof (config_history ops None c0 H0 Hwf) as H.
  destruct (run_config ops None) as [done_ file'] eqn:E. eexists. split; [exact H|].
  assert (Hc0 : c_services c0 = ∅) by (vm_compute in H0; by injection H0 as <-).
  assert (Hd : done_ = (run_config ops None).1) by by rewrite E.
  vm_compute in Hd. rewrite Hd. destruct c0 as [i n l r b s]; simpl in Hc0; subst s. vm_compute. reflexivity.
Defined.
End Witness.
