(* ===== verification/AuditFiles.v ===== *)
(** * The audit log on disk

    [node/src/audit/mod.rs], the file half of [node/src/audit/log.rs] and the clock of
    [node/src/audit/record.rs]: one JSON line per record in one file per calendar month, the
    reads, the page over them, pruning and retention.

    The directory is a finite map from names to contents ([None] before it is made); it is
    listed in any order.  [Fs] says which accesses fail; an append that fails may leave any
    part of its line behind.  The JSON of a record is serde's derived code, a parameter. *)
From stdpp Require Import base list gmap strings sorting pretty.
From Stdlib Require Import ZArith Lia Strings.Byte.
From S2P Require Import Prelude Bytes Digits Json Externals Service Framing Limits.

(** ** Records ([local-api/src/protocol.rs]) *)
Inductive AuditKind := SessionOpen | SessionClose | Request | BlobFetch | Trust.

#[export] Instance AuditKind_eq_dec : EqDecision AuditKind.
Proof. solve_decision. Defined.

Record AuditRecord := {
  ar_ts : string;
  ar_kind : AuditKind;
  ar_peer : option string;
  ar_service : option string;
  ar_method : option string;
  ar_tool : option string;
  ar_args_hash : option string;
  ar_bytes_out : option Z;
  ar_status : option string;
  ar_latency_ms : option Z;
  ar_event : option string;
  ar_target : option string;
  ar_principal : option string }.

Definition session_open (ts : string) (peer : option string) (service : string)
    (principal : option string) : AuditRecord :=
  {| ar_ts := ts; ar_kind := SessionOpen; ar_peer := peer; ar_service := Some service;
     ar_method := None; ar_tool := None; ar_args_hash := None; ar_bytes_out := None;
     ar_status := None; ar_latency_ms := None; ar_event := None; ar_target := None;
     ar_principal := principal |}.

Definition session_close (ts : string) (peer : option string) (service : string)
    (principal : option string) : AuditRecord :=
  {| ar_ts := ts; ar_kind := SessionClose; ar_peer := peer; ar_service := Some service;
     ar_method := None; ar_tool := None; ar_args_hash := None; ar_bytes_out := None;
     ar_status := None; ar_latency_ms := None; ar_event := None; ar_target := None;
     ar_principal := principal |}.

Definition proxied_request (ts : string) (peer : option string) (service method : string)
    (tool : option string) (args_hash : string) (bytes_out : Z) (status : string)
    (latency_ms : Z) (principal : option string) : AuditRecord :=
  {| ar_ts := ts; ar_kind := Request; ar_peer := peer; ar_service := Some service;
     ar_method := Some method; ar_tool := tool; ar_args_hash := Some args_hash;
     ar_bytes_out := Some bytes_out; ar_status := Some status;
     ar_latency_ms := Some latency_ms; ar_event := None; ar_target := None;
     ar_principal := principal |}.

Definition proxied_notification (ts : string) (peer : option string) (service method : string)
    (tool : option string) (args_hash : string) (principal : option string) : AuditRecord :=
  {| ar_ts := ts; ar_kind := Request; ar_peer := peer; ar_service := Some service;
     ar_method := Some method; ar_tool := tool; ar_args_hash := Some args_hash;
     ar_bytes_out := None; ar_status := None; ar_latency_ms := None; ar_event := None;
     ar_target := None; ar_principal := principal |}.

Definition trust_record (ts event : string) (target principal : option string) : AuditRecord :=
  {| ar_ts := ts; ar_kind := Trust; ar_peer := None; ar_service := None; ar_method := None;
     ar_tool := None; ar_args_hash := None; ar_bytes_out := None; ar_status := None;
     ar_latency_ms := None; ar_event := Some event; ar_target := target;
     ar_principal := principal |}.

Definition with_status (r : AuditRecord) (status : string) : AuditRecord :=
  {| ar_ts := ar_ts r; ar_kind := ar_kind r; ar_peer := ar_peer r; ar_service := ar_service r;
     ar_method := ar_method r; ar_tool := ar_tool r; ar_args_hash := ar_args_hash r;
     ar_bytes_out := ar_bytes_out r; ar_status := Some status;
     ar_latency_ms := ar_latency_ms r; ar_event := ar_event r; ar_target := ar_target r;
     ar_principal := ar_principal r |}.

Class AuditCodec := {
  record_to_vec : AuditRecord -> bytes;
  record_from_str : bytes -> option AuditRecord }.

(** [line.trim().is_empty()] for a line of ASCII white space (any other blank line is not
    JSON either, and is skipped as such). *)
Definition blank (line : bytes) : bool :=
  forallb (fun b => ((9 <=? byte_val b) && (byte_val b <=? 13)) || (byte_val b =? 32))%Z line.

(** serde_json escapes control characters, reads back what it writes, and takes no blank
    text for a value. *)
Definition carriage_return : byte := Byte.x0d.
Class AuditCodecLaws (C : AuditCodec) := {
  record_from_to r : record_from_str (record_to_vec r) = Some r;
  record_no_newline r : newline ∉ record_to_vec r;
  record_no_cr r : carriage_return ∉ record_to_vec r;
  record_blank b : blank b = true -> record_from_str b = None }.

(** ** Month keys *)
Definition month_shape (b : bytes) : bool :=
  Nat.eqb (length b) 7 && bool_decide (b !! 4 = Some Byte.x2d) &&
  forallb is_ascii_digit (take 4 b) && forallb is_ascii_digit (drop 5 b).

Definition JSONL : bytes := as_bytes ".jsonl".

Definition month_of_filename (name : string) : option string :=
  stem ← strip_suffix JSONL (as_bytes name);
  if month_shape stem then Some (from_bytes stem) else None.

Definition valid_month_key (s : string) : bool :=
  let b := as_bytes s in
  month_shape b &&
  (String.leb "01" (from_bytes (drop 5 b)) && String.leb (from_bytes (drop 5 b)) "12").

(** ** Files *)
Definition Dir : Type := option (gmap string bytes).

Record Fs := {
  fs_read_dir : option string;
  fs_read : string -> option string;
  fs_len : string -> bool;
  fs_remove : string -> option string }.

Definition reliable : Fs :=
  {| fs_read_dir := None; fs_read _ := None; fs_len _ := true; fs_remove _ := None |}.

(** Month, name, size. *)
Definition MonthFile : Type := string * string * Z.
Definition by_month (a b : MonthFile) : Prop := String.le a.1.1 b.1.1.
#[export] Instance by_month_dec : RelDecision by_month.
Proof. unfold by_month. intros a b. apply _. Defined.

(** [str::lines] and [BufRead::lines]. *)
Definition chomp (l : bytes) : bytes :=
  match last l with
  | Some b => if decide (b = carriage_return) then take (length l - 1) l else l
  | None => l
  end.
Definition str_lines (body : bytes) : list bytes :=
  let '(ls, rest) := lines body in
  map chomp ls ++ match rest with [] => [] | _ => [rest] end.

(** [rec.ts.get(0..7)]: absent when short or inside a character. *)
Definition month_prefix (ts : string) : string :=
  let b := as_bytes ts in
  if Nat.leb 7 (length b) &&
     match b !! 7 with Some c => negb ((128 <=? byte_val c) && (byte_val c <=? 191))%Z | None => true end
  then from_bytes (take 7 b) else "0000-00".

(** How an append ends: all of the line, or an error after a part of it. *)
Inductive Append := Appended | Torn (n : nat) (e : string) | NotOpened (e : string).

Section files.
Context `{H : HashOrder, C : AuditCodec}.

Definition list_month_files (fs : Fs) (dir : Dir) : result string (list MonthFile) :=
  match fs_read_dir fs with
  | Some e => Err e
  | None =>
      match dir with
      | None => Ok []
      | Some files =>
          Ok (merge_sort by_month (omap (fun kv : string * bytes =>
                month ← month_of_filename kv.1;
                Some (month, kv.1, if fs_len fs kv.1 then Z.of_nat (length kv.2) else 0%Z))
              (iter files)))
      end
  end.

Definition open_file (fs : Fs) (dir : Dir) (name : string) : result string bytes :=
  match fs_read fs name with
  | Some e => Err e
  | None => ok_or "not found"%string (dir ≫= lookup name)
  end.

(** One line: nothing when blank or unreadable. *)
Definition parse_record (line : bytes) : option AuditRecord :=
  if blank line then None else record_from_str line.

Definition read_records (fs : Fs) (dir : Dir) (name : string) : result string (list AuditRecord) :=
  body ← open_file fs dir name; Ok (omap parse_record (str_lines body)).

Definition read_all_records (fs : Fs) (dir : Dir) : result string (list AuditRecord) :=
  months ← list_month_files fs dir;
  fold_result (fun out (f : MonthFile) => recs ← read_records fs dir f.1.2; Ok (out ++ recs)) [] months.

Definition append_record (how : Append) (dir : Dir) (rec : AuditRecord) : result string unit * Dir :=
  let files := default ∅ dir in
  let path := (month_prefix (ar_ts rec) +:+ ".jsonl")%string in
  let line := record_to_vec rec ++ [newline] in
  let old := default [] (files !! path) in
  match how with
  | NotOpened e => (Err e, Some files)
  | Torn n e => (Err e, Some (<[path := old ++ take n line]> files))
  | Appended => (Ok tt, Some (<[path := old ++ line]> files))
  end.

Fixpoint prune_files (fs : Fs) (before : string) (months : list MonthFile)
    (deleted : list string) (files : gmap string bytes) :
    result string (list string) * gmap string bytes :=
  match months with
  | [] => (Ok deleted, files)
  | (month, path, _) :: months =>
      if String.ltb month before then
        match fs_remove fs path with
        | Some e => (Err e, files)
        | None => prune_files fs before months (deleted ++ [month]) (delete path files)
        end
      else prune_files fs before months deleted files
  end.

Definition prune_before (fs : Fs) (before : string) (dir : Dir) : result string (list string) * Dir :=
  match list_month_files fs dir with
  | Err e => (Err e, dir)
  | Ok months =>
      match dir with
      | None => (Ok [], None)
      | Some files => let '(r, files) := prune_files fs before months [] files in (r, Some files)
      end
  end.

(** ** Queries *)
Definition of_kind (kind : option AuditKind) (r : AuditRecord) : bool :=
  match kind with Some k => bool_decide (ar_kind r = k) | None => true end.

Definition filter_records (records : list AuditRecord) (kind : option AuditKind)
    (peer : option string) : list AuditRecord :=
  filter (fun r =>
    match peer with
    | Some p => bool_decide (ar_peer r = Some p) || bool_decide (ar_principal r = Some p)
    | None => true
    end = true)
    (filter (fun r => of_kind kind r = true) records).

Record AuditListResult := { alr_records : list AuditRecord; alr_total : Z }.

Record PageState := { ps_total : Z; ps_records : list AuditRecord; ps_to_skip : nat }.

(** The body of the inner loop of [list_page]. *)
Definition page_line (kind : option AuditKind) (peer : option string) (limit : nat)
    (st : PageState) (line : bytes) : PageState :=
  match parse_record line with
  | None => st
  | Some rec =>
      if negb (of_kind kind rec) then st
      else if match peer with Some p => negb (bool_decide (ar_peer rec = Some p)) | None => false end
      then st
      else
        let total := ((ps_total st + 1) mod 2 ^ 64)%Z in
        if Nat.ltb 0 (ps_to_skip st) then
          {| ps_total := total; ps_records := ps_records st; ps_to_skip := ps_to_skip st - 1 |}
        else if Nat.ltb (length (ps_records st)) limit then
          {| ps_total := total; ps_records := ps_records st ++ [rec]; ps_to_skip := 0 |}
        else {| ps_total := total; ps_records := ps_records st; ps_to_skip := 0 |}
  end.

Definition out_of_range (since until : option string) (month : string) : bool :=
  match since with Some s => String.ltb month s | None => false end ||
  match until with Some u => String.ltb u month | None => false end.

Definition list_page (fs : Fs) (dir : Dir) (since until : option string) (kind : option AuditKind)
    (peer : option string) (limit offset : nat) : result string AuditListResult :=
  months ← list_month_files fs dir;
  st ← fold_result (fun st (f : MonthFile) =>
         if out_of_range since until f.1.1 then Ok st
         else body ← open_file fs dir f.1.2;
              Ok (foldl (page_line kind peer limit) st (str_lines body)))
       {| ps_total := 0; ps_records := []; ps_to_skip := offset |} months;
  Ok {| alr_records := ps_records st; alr_total := ps_total st |}.

Record AuditSummaryResult := {
  per_peer : list (string * Z);
  per_service : list (string * Z);
  total_sessions : Z }.

Definition bump_count (o : option string) (m : gmap string Z) : gmap string Z :=
  match o with Some k => <[k := ((default 0 (m !! k) + 1) mod 2 ^ 64)%Z]> m | None => m end.

Definition summary_step (acc : gmap string Z * gmap string Z * Z) (rec : AuditRecord) :
    gmap string Z * gmap string Z * Z :=
  let '(peers, services, total) := acc in
  if decide (ar_kind rec = SessionOpen) then
    (bump_count (ar_peer rec) peers, bump_count (ar_service rec) services,
     ((total + 1) mod 2 ^ 64)%Z)
  else acc.

Definition by_key (a b : string * Z) : Prop := String.le a.1 b.1.
#[export] Instance by_key_dec : RelDecision by_key.
Proof. unfold by_key. intros a b. apply _. Defined.

(** A [BTreeMap] is emptied in key order. *)
Definition summarize_sessions (records : list AuditRecord) : AuditSummaryResult :=
  let '(peers, services, total) := foldl summary_step (∅, ∅, 0%Z) records in
  {| per_peer := merge_sort by_key (map_to_list peers);
     per_service := merge_sort by_key (map_to_list services);
     total_sessions := total |}.
End files.

(** [parse_kind]. *)
Definition parse_kind (s : string) : option AuditKind :=
  if String.eqb s "session_open" then Some SessionOpen
  else if String.eqb s "session_close" then Some SessionClose
  else if String.eqb s "request" then Some Request
  else if String.eqb s "blob_fetch" then Some BlobFetch
  else if String.eqb s "trust" then Some Trust
  else None.

(** ** Retention and the clock *)
Local Open Scope Z_scope.

Definition month_key (year month : Z) : string := pad 4 (pretty year) +:+ "-" +:+ pad 2 (pretty month).

Definition retention_cutoff (current : string) (retain_months : Z) : option string :=
  if (retain_months =? 0) || negb (valid_month_key current) then None
  else
    year ← parse_digits (take 4 (as_bytes current));
    month ← parse_digits (take 2 (drop 5 (as_bytes current)));
    let total := year * 12 + (month - 1) - (retain_months - 1) in
    if total <? 0 then None else Some (month_key (total / 12) (total mod 12 + 1)).

(** [civil_from_days]: days since 1970-01-01 to year, month and day.  The divisions of
    signed integers truncate. *)
Definition civil_from_days (z : Z) : Z * Z * Z :=
  let z := z + 719468 in
  let era := (if 0 <=? z then z else z - 146096) ÷ 146097 in
  let doe := z - era * 146097 in
  let yoe := (doe - doe / 1460 + doe / 36524 - doe / 146096) / 365 in
  let y := yoe + era * 400 in
  let doy := doe - (365 * yoe + yoe / 4 - yoe / 100) in
  let mp := (5 * doy + 2) / 153 in
  let d := doy - (153 * mp + 2) / 5 + 1 in
  let m := if mp <? 10 then mp + 3 else mp - 9 in
  ((if m <=? 2 then y + 1 else y), m, d).

Definition fmt_rfc3339_millis (unix_millis : Z) : string :=
  let secs := i64_wrap (unix_millis / 1000) in
  let millis := unix_millis mod 1000 in
  let days := secs / 86400 in
  let secs_of_day := secs mod 86400 in
  let '(h, m, s) := (secs_of_day / 3600, secs_of_day mod 3600 / 60, secs_of_day mod 60) in
  let '(year, month, day) := civil_from_days days in
  pad 4 (pretty year) +:+ "-" +:+ pad 2 (pretty month) +:+ "-" +:+ pad 2 (pretty day) +:+ "T" +:+
  pad 2 (pretty h) +:+ ":" +:+ pad 2 (pretty m) +:+ ":" +:+ pad 2 (pretty s) +:+ "." +:+
  pad 3 (pretty millis) +:+ "Z".
Close Scope Z_scope.

(** ** The calendar

    The reference: Gregorian leap years, the length of each month, and the number of days
    before a date since 1970-01-01. *)
Section calendar.
Local Open Scope Z_scope.

Definition leap (y : Z) : bool := (y mod 4 =? 0) && (negb (y mod 100 =? 0) || (y mod 400 =? 0)).

Definition days_in_month (y m : Z) : Z :=
  if m =? 2 then if leap y then 29 else 28
  else if (m =? 4) || (m =? 6) || (m =? 9) || (m =? 11) then 30 else 31.

(** Leap years up to and including [y]. *)
Definition leaps (y : Z) : Z := y / 4 - y / 100 + y / 400.

Lemma leaps_step y : leaps y - leaps (y - 1) = if leap y then 1 else 0.
Proof.
  unfold leaps, leap.
  destruct (Z.eqb_spec (y mod 4) 0), (Z.eqb_spec (y mod 100) 0), (Z.eqb_spec (y mod 400) 0);
    simpl; Z.to_euclidean_division_equations; lia.
Qed.

Definition year_start (y : Z) : Z := 365 * (y - 1970) + leaps (y - 1) - leaps 1969.

Lemma year_start_step y : year_start (y + 1) = year_start y + if leap y then 366 else 365.
Proof.
  pose proof (leaps_step y). unfold year_start. replace (y + 1 - 1) with y by lia.
  destruct (leap y); lia.
Qed.

(** Days of the year before the month. *)
Fixpoint month_start (y : Z) (n : nat) : Z :=
  match n with O => 0 | S n => month_start y n + days_in_month y (Z.of_nat n + 1) end.

Definition day_number (y m d : Z) : Z := year_start y + month_start y (Z.to_nat (m - 1)) + (d - 1).

(** Year of era and day of the year, both counted from March. *)
Lemma year_of_era doe :
  0 <= doe <= 146096 ->
  let yoe := (doe - doe / 1460 + doe / 36524 - doe / 146096) / 365 in
  let doy := doe - (365 * yoe + yoe / 4 - yoe / 100) in
  0 <= yoe <= 399 /\ 0 <= doy <= 365 /\ (doy = 365 -> leap (yoe + 1) = true).
Proof.
  intros H yoe doy. assert (Hy : 0 <= yoe <= 399 /\ 0 <= doy <= 365).
  { subst yoe doy. Z.to_euclidean_division_equations. lia. }
  split_and!; try lia. intros Hd. unfold leap.
  assert (Hl : (yoe + 1) mod 4 = 0 /\ ((yoe + 1) mod 100 <> 0 \/ (yoe + 1) mod 400 = 0)).
  { subst yoe doy. Z.to_euclidean_division_equations. lia. }
  destruct Hl as [-> Hl]. simpl. destruct (Z.eqb_spec ((yoe + 1) mod 100) 0); [|done].
  destruct Hl as [Hl| ->]; done.
Qed.

Lemma leap_era y era : leap (y + era * 400) = leap y.
Proof.
  unfold leap. replace ((y + era * 400) mod 4) with (y mod 4) by (Z.to_euclidean_division_equations; lia).
  replace ((y + era * 400) mod 100) with (y mod 100) by (Z.to_euclidean_division_equations; lia).
  by rewrite Z.mod_add by lia.
Qed.

Lemma leaps_era y era : leaps (y + era * 400) = leaps y + 97 * era.
Proof. unfold leaps. Z.to_euclidean_division_equations. lia. Qed.

Lemma month_table Y : let l := if leap Y then 1 else 0 in
  month_start Y 0 = 0 /\ month_start Y 1 = 31 /\ month_start Y 2 = 59 + l /\
  month_start Y 3 = 90 + l /\ month_start Y 4 = 120 + l /\ month_start Y 5 = 151 + l /\
  month_start Y 6 = 181 + l /\ month_start Y 7 = 212 + l /\ month_start Y 8 = 243 + l /\
  month_start Y 9 = 273 + l /\ month_start Y 10 = 304 + l /\ month_start Y 11 = 334 + l.
Proof. simpl. unfold days_in_month. simpl. destruct (leap Y); by split_and!. Qed.

(** Evaluate the month that starts in the [k]th fifth of the March-based year. *)
Ltac march_month k :=
  let m := eval vm_compute in (if k <? 10 then k + 3 else k - 9) in
  let o := eval vm_compute in ((153 * k + 2) / 5) in
  let n := eval vm_compute in (Z.to_nat (m - 1)) in
  change (if k <? 10 then k + 3 else k - 9) with m;
  change ((153 * k + 2) / 5) with o;
  change (Z.to_nat (m - 1)) with n;
  unfold days_in_month.

(** A date [doy] days into the year that starts on the first of March of [y]. *)
Lemma march_date y doy :
  0 <= doy <= 365 -> (doy = 365 -> leap (y + 1) = true) ->
  let mp := (5 * doy + 2) / 153 in
  let d := doy - (153 * mp + 2) / 5 + 1 in
  let m := if mp <? 10 then mp + 3 else mp - 9 in
  let y' := if m <=? 2 then y + 1 else y in
  1 <= m <= 12 /\ 1 <= d <= days_in_month y' m /\
  day_number y' m d = year_start (y + 1) - 306 + doy.
Proof.
  intros Hdoy Hleap mp d m y'. pose proof (year_start_step y) as Hstep.
  assert (Hmp : 0 <= mp <= 11) by (subst mp; Z.to_euclidean_division_equations; lia).
  assert (Hd : 5 * doy + 2 = 153 * mp + (5 * doy + 2) mod 153) by (apply Z.div_mod; lia).
  pose proof (Z.mod_pos_bound (5 * doy + 2) 153 ltac:(lia)) as Hb.
  unfold day_number. subst y' m d. clearbody mp.
  assert (Hcase : mp = 0 \/ mp = 1 \/ mp = 2 \/ mp = 3 \/ mp = 4 \/ mp = 5 \/ mp = 6 \/ mp = 7 \/
                  mp = 8 \/ mp = 9 \/ mp = 10 \/ mp = 11) by lia.
  pose proof (month_table y) as Ht. pose proof (month_table (y + 1)) as Ht'.
  repeat (destruct Hcase as [Hcase|Hcase]; [subst mp|]); [.. |subst mp];
    (match goal with |- context [if ?k <? 10 then _ else _] => march_month k end);
    cbn [Z.leb Z.eqb Z.compare Pos.compare Pos.compare_cont Pos.eqb orb]; cbv zeta in Ht, Ht';
    destruct (leap y) eqn:Hly, (leap (y + 1)) eqn:Hly';
    (destruct (decide (doy = 365)) as [E|E]; [pose proof (Hleap E)|]; try discriminate; lia).
Qed.

(** The calendar conversion is exact: every day from the epoch on is given the date,
    with a month and a day that exist in that year, whose day number it is. *)
Theorem civil_from_days_spec z :
  0 <= z ->
  let '(y, m, d) := civil_from_days z in
  1 <= m <= 12 /\ 1 <= d <= days_in_month y m /\ day_number y m d = z.
Proof.
  intros Hz. unfold civil_from_days. rewrite (proj2 (Z.leb_le 0 (z + 719468))) by lia.
  rewrite Z.quot_div_nonneg by lia. set (era := (z + 719468) / 146097).
  pose proof (Z.div_mod (z + 719468) 146097 ltac:(lia)) as Hdm. fold era in Hdm.
  pose proof (Z.mod_pos_bound (z + 719468) 146097 ltac:(lia)) as Hb.
  replace (z + 719468 - era * 146097) with ((z + 719468) mod 146097) by lia.
  set (doe := (z + 719468) mod 146097) in *.
  pose proof (year_of_era doe ltac:(lia)) as (Hyoe & Hdoy & Hleap).
  set (yoe := (doe - _ + _ - _) / 365) in *.
  set (doy := doe - (365 * yoe + _ - _)) in *.
  pose proof (march_date (yoe + era * 400) doy Hdoy) as Hm. cbv zeta in Hm |- *.
  destruct Hm as (Hm & Hd & Hn).
  { intros E. replace (yoe + era * 400 + 1) with (yoe + 1 + era * 400) by lia. rewrite leap_era. auto. }
  split_and!; try done; [apply Hm..|apply Hd|apply Hd|]. rewrite Hn. unfold year_start.
  replace (yoe + era * 400 + 1 - 1) with (yoe + era * 400) by lia. rewrite leaps_era.
  assert (Hdef : doe = doy + (365 * yoe + yoe / 4 - yoe / 100)) by (subst doy; lia).
  unfold leaps. replace (yoe / 400) with 0 by (symmetry; apply Z.div_small; lia).
  change (1969 / 4 - 1969 / 100 + 1969 / 400) with 477. lia.
Qed.
End calendar.

(** ** Month keys and their order *)
Section months.
Local Open Scope Z_scope.

Lemma take_key (y m : bytes) c : length y = 4%nat -> take 4 (y ++ c :: m) = y.
Proof. intros <-. apply take_app_length. Qed.
Lemma drop_key (y m : bytes) c : length y = 4%nat -> drop 5 (y ++ c :: m) = m.
Proof. intros H. rewrite drop_app, drop_ge, H by lia. apply drop_0. Qed.

(** A text of the shape of a key: four digits, a dash, two digits. *)
Lemma month_shape_spec b :
  month_shape b = true <->
  exists y m, b = y ++ Byte.x2d :: m /\ length y = 4%nat /\ length m = 2%nat /\
    forallb is_ascii_digit y = true /\ forallb is_ascii_digit m = true.
Proof.
  unfold month_shape. rewrite !andb_true_iff, Nat.eqb_eq, bool_decide_eq_true. split.
  - intros [[[Hl Hd] Hy] Hm]. exists (take 4 b), (drop 5 b).
    assert (Hs : drop 4 b = Byte.x2d :: drop 5 b) by by apply drop_S.
    split_and!; try done; [by rewrite <- Hs, take_drop|..]; rewrite ?length_take, ?length_drop; lia.
  - intros (y & m & -> & Hy & Hm & Hdy & Hdm). rewrite length_app. simpl length.
    rewrite lookup_app_r, Hy, take_key, drop_key by lia. split_and!; try done. lia.
Qed.

(** The month a key names, counted from year zero. *)
Definition month_index (s : string) : option Z :=
  year ← parse_digits (take 4 (as_bytes s));
  month ← parse_digits (take 2 (drop 5 (as_bytes s)));
  Some (12 * year + (month - 1)).

(** The number whose six digits the key has: the order of keys. *)
Definition month_rank (b : bytes) : Z := digits_value (digits_value 0 (take 4 b)) (drop 5 b).

Lemma month_rank_value y m : length y = 4%nat -> length m = 2%nat ->
  forallb is_ascii_digit m = true ->
  month_rank (y ++ Byte.x2d :: m) = 100 * digits_value 0 y + digits_value 0 m.
Proof.
  intros Hy Hm Hd. unfold month_rank. rewrite take_key, drop_key by done.
  destruct m as [|a [|b [|]]]; try done. unfold digits_value; simpl. lia.
Qed.

Lemma month_compare a b :
  month_shape a = true -> month_shape b = true ->
  String.compare (from_bytes a) (from_bytes b) = (month_rank a ?= month_rank b).
Proof.
  intros (y & m & -> & Hy & Hm & Hdy & Hdm)%month_shape_spec
         (y' & m' & -> & Hy' & Hm' & Hdy' & Hdm')%month_shape_spec.
  rewrite compare_bytes_app by lia.
  assert (Hc : String.compare (from_bytes y) (from_bytes y') = (digits_value 0 y ?= digits_value 0 y'))
    by (rewrite compare_digits by (done || lia); done).
  rewrite Hc, compare_bytes_cons, Z.compare_refl. unfold month_rank.
  rewrite !take_key, !drop_key by done.
  by rewrite (compare_digits m m') by (done || lia).
Qed.

Lemma month_ltb a b :
  month_shape (as_bytes a) = true -> month_shape (as_bytes b) = true ->
  String.ltb a b = (month_rank (as_bytes a) <? month_rank (as_bytes b)).
Proof.
  intros Ha Hb. unfold String.ltb, Z.ltb. rewrite <- month_compare, !from_as_bytes by done. done.
Qed.

Lemma valid_month_key_spec s :
  valid_month_key s = true <->
  exists y m, as_bytes s = digits 4 y ++ Byte.x2d :: digits 2 m /\ 0 <= y < 10000 /\ 1 <= m <= 12.
Proof.
  unfold valid_month_key. rewrite !andb_true_iff. split.
  - intros [(y & m & Hs & Hy & Hm & Hdy & Hdm)%month_shape_spec Hr]. rewrite Hs in Hr.
    rewrite drop_key in Hr by done. unfold String.leb in Hr.
    change "01"%string with (from_bytes (digits 2 1)) in Hr.
    change "12"%string with (from_bytes (digits 2 12)) in Hr.
    assert (Hcmp : forall z, String.compare (from_bytes (digits 2 z)) (from_bytes m) =
      (digits_value 0 (digits 2 z) ?= digits_value 0 m)).
    { intros z. rewrite compare_digits; [done|apply digits_are_digits|done|]. by rewrite length_digits, Hm. }
    exists (digits_value 0 y), (digits_value 0 m).
    pose proof (digits_value_bound y 0 Hdy) as Hby. pose proof (digits_value_bound m 0 Hdm) as Hbm.
    rewrite Hy in Hby. rewrite Hm in Hbm. simpl in Hby, Hbm.
    rewrite <- (digits_of_value y Hdy), <- (digits_of_value m Hdm), Hy, Hm in Hs.
    split_and!; try done; try lia.
    + destruct Hr as [Hr _]. rewrite Hcmp, digits_value_digits in Hr by (simpl; lia).
      destruct (Z.compare_spec 1 (digits_value 0 m)); try done; lia.
    + destruct Hr as [_ Hr]. rewrite String.compare_antisym, Hcmp, digits_value_digits in Hr by (simpl; lia).
      destruct (Z.compare_spec 12 (digits_value 0 m)); try done; lia.
  - intros (y & m & Hs & Hy & Hm). rewrite Hs. split.
    + apply month_shape_spec. eexists _, _. rewrite !length_digits, !digits_are_digits. done.
    + rewrite drop_key by apply length_digits.
      assert (Hc : m = 1 \/ m = 2 \/ m = 3 \/ m = 4 \/ m = 5 \/ m = 6 \/ m = 7 \/ m = 8 \/ m = 9 \/
                   m = 10 \/ m = 11 \/ m = 12) by lia.
      repeat (destruct Hc as [Hc|Hc]; [by subst m|]). by subst m.
Qed.
End months.

Section retention.
Local Open Scope Z_scope.

Lemma month_key_bytes y m :
  0 <= y < 10000 -> 1 <= m <= 12 -> as_bytes (month_key y m) = digits 4 y ++ Byte.x2d :: digits 2 m.
Proof.
  intros Hy Hm. unfold month_key. rewrite !pad_pretty by (simpl; lia).
  by rewrite !as_bytes_app, !as_from_bytes.
Qed.

Lemma month_index_bytes s y m :
  as_bytes s = digits 4 y ++ Byte.x2d :: digits 2 m -> 0 <= y < 10000 -> 1 <= m <= 12 ->
  month_index s = Some (12 * y + (m - 1)) /\ month_rank (as_bytes s) = 100 * y + m.
Proof.
  intros Hs Hy Hm. unfold month_index.
  rewrite Hs, take_key, drop_key, take_ge by (rewrite length_digits; lia).
  rewrite !parse_digits_digits by (simpl; lia). split; [done|].
  rewrite month_rank_value, !digits_value_digits
    by (apply length_digits || apply digits_are_digits || (simpl; lia)). done.
Qed.

(** Keys of existing months are ordered as the months. *)
Lemma valid_month_ltb a b i j :
  valid_month_key a = true -> valid_month_key b = true ->
  month_index a = Some i -> month_index b = Some j -> (String.ltb a b = true <-> i < j).
Proof.
  intros Ha Hb Hi Hj. pose proof (proj1 (andb_prop _ _ Ha)) as Sa. pose proof (proj1 (andb_prop _ _ Hb)) as Sb.
  apply valid_month_key_spec in Ha as (ya & ma & Ea & Hya & Hma), Hb as (yb & mb & Eb & Hyb & Hmb).
  rewrite month_ltb by done.
  destruct (month_index_bytes a ya ma Ea Hya Hma) as [Hi' ->], (month_index_bytes b yb mb Eb Hyb Hmb) as [Hj' ->].
  rewrite Hi in Hi'. rewrite Hj in Hj'. injection Hi' as ->. injection Hj' as ->. rewrite Z.ltb_lt. lia.
Qed.

(** In month [i], keeping [n] months cuts at month [i - (n - 1)]: the cutoff is a valid
    key of exactly that month, a month's key sorts before it exactly when the month is
    older, and there is no cutoff when everything is kept or the window reaches before year
    zero. *)
Theorem retention_spec current i n :
  valid_month_key current = true -> month_index current = Some i -> 0 <= n ->
  match retention_cutoff current n with
  | None => n = 0 \/ i - (n - 1) < 0
  | Some cutoff =>
      0 < n /\ valid_month_key cutoff = true /\ month_index cutoff = Some (i - (n - 1)) /\
      forall k j, valid_month_key k = true -> month_index k = Some j ->
        (String.ltb k cutoff = true <-> j < i - (n - 1))
  end.
Proof.
  intros Hv Hi Hn. unfold retention_cutoff. rewrite Hv. simpl negb. rewrite orb_false_r.
  destruct (Z.eqb_spec n 0) as [->|Hn0]; [by left|].
  apply valid_month_key_spec in Hv as (y & m & Hs & Hy & Hm).
  rewrite Hs, take_key, drop_key, take_ge by (rewrite length_digits; lia).
  rewrite !parse_digits_digits by (simpl; lia). simpl.
  destruct (month_index_bytes current y m Hs Hy Hm) as [Hi' _]. rewrite Hi in Hi'. injection Hi' as ->.
  replace (y * 12 + (m - 1) - (n - 1)) with (12 * y + (m - 1) - (n - 1)) by ring.
  set (t := 12 * y + (m - 1) - (n - 1)). destruct (Z.ltb_spec t 0) as [Ht|Ht]; [right; lia|].
  assert (Hq : 0 <= t / 12 < 10000) by (subst t; Z.to_euclidean_division_equations; lia).
  assert (Hr : 1 <= t mod 12 + 1 <= 12) by (pose proof (Z.mod_pos_bound t 12); lia).
  pose proof (month_key_bytes _ _ Hq Hr) as Hk.
  assert (Hkv : valid_month_key (month_key (t / 12) (t mod 12 + 1)) = true)
    by (apply valid_month_key_spec; by eexists _, _).
  destruct (month_index_bytes _ _ _ Hk Hq Hr) as [Hki _].
  pose proof (Z.div_mod t 12 ltac:(lia)) as Hdm.
  replace (12 * (t / 12) + (t mod 12 + 1 - 1)) with t in Hki by lia.
  split_and!; try done; [lia|]. intros k j Hkk Hj. by apply valid_month_ltb.
Qed.
End retention.

(** ** Paging is filtering *)
Section paging.
Context `{H : HashOrder, C : AuditCodec}.

Definition page_match (kind : option AuditKind) (peer : option string) (r : AuditRecord) : bool :=
  of_kind kind r && match peer with Some p => bool_decide (ar_peer r = Some p) | None => true end.

(** The state of the scan after the matching records [hits]. *)
Definition page_state (limit offset : nat) (hits : list AuditRecord) : PageState :=
  {| ps_total := (Z.of_nat (length hits) mod 2 ^ 64)%Z;
     ps_records := take limit (drop offset hits);
     ps_to_skip := offset - length hits |}.

Lemma page_line_state kind peer limit offset hits line :
  page_line kind peer limit (page_state limit offset hits) line =
  page_state limit offset
    (hits ++ filter (fun r => page_match kind peer r = true) (option_list (parse_record line))).
Proof.
  unfold page_line, page_match. destruct (parse_record line) as [r|]; simpl; [|by rewrite app_nil_r].
  assert (Hm : match peer with Some p => negb (bool_decide (ar_peer r = Some p)) | None => false end
    = negb match peer with Some p => bool_decide (ar_peer r = Some p) | None => true end)
    by by destruct peer.
  rewrite Hm, filter_cons, filter_nil. generalize match peer with Some p => bool_decide (ar_peer r = Some p) | None => true end.
  intros pm. destruct (of_kind kind r), pm; simpl; rewrite ?app_nil_r; try done.
  unfold page_state; simpl. rewrite length_app, Zplus_mod_idemp_l. simpl length.
  replace (Z.of_nat (length hits) + 1)%Z with (Z.of_nat (length hits + 1)) by lia.
  rewrite drop_app, take_app, length_drop.
  destruct (Nat.ltb_spec 0 (offset - length hits)) as [Hs|Hs].
  - f_equal; [|lia]. destruct (offset - length hits) as [|k] eqn:E; [lia|]. simpl.
    rewrite drop_nil, take_nil. by rewrite app_nil_r.
  - replace (offset - length hits) with 0 by lia. simpl. rewrite length_take, length_drop.
    destruct (Nat.ltb_spec (limit `min` (length hits - offset)) limit) as [Hl|Hl].
    + f_equal; [|lia]. f_equal. rewrite take_ge by (simpl; lia). done.
    + f_equal; [|lia]. replace (limit - (length hits - offset)) with 0 by lia. simpl. by rewrite app_nil_r.
Qed.

Lemma page_lines_state kind peer limit offset ls hits :
  foldl (page_line kind peer limit) (page_state limit offset hits) ls =
  page_state limit offset (hits ++ filter (fun r => page_match kind peer r = true) (omap parse_record ls)).
Proof.
  revert hits; induction ls as [|l ls IH]; intros hits; simpl; [by rewrite app_nil_r|].
  rewrite page_line_state, IH, <- app_assoc. do 2 f_equal.
  destruct (parse_record l); simpl; [|done]. by rewrite <- filter_app.
Qed.

(** The streaming page is the page of the reference that reads every file of the
    range whole, filters and slices, the total and the first read error included; memory
    held is the page only. *)
Theorem audit_page_spec fs dir since until kind peer limit offset :
  list_page fs dir since until kind peer limit offset =
  (months ← list_month_files fs dir;
   recs ← fold_result (fun out (f : MonthFile) => r ← read_records fs dir f.1.2; Ok (out ++ r)) []
     (filter (fun f : MonthFile => out_of_range since until f.1.1 = false) months);
   let hits := filter (fun r => page_match kind peer r = true) recs in
   Ok {| alr_records := take limit (drop offset hits);
         alr_total := (Z.of_nat (length hits) mod 2 ^ 64)%Z |}).
Proof.
  unfold list_page. destruct (list_month_files fs dir) as [months|e]; simpl; [|done].
  pose (step := fun st (f : MonthFile) =>
         if out_of_range since until f.1.1 then Ok st
         else body ← open_file fs dir f.1.2;
              Ok (foldl (page_line kind peer limit) st (str_lines body))).
  assert (Hgen : forall hits0, fold_result step (page_state limit offset
      (filter (fun r => page_match kind peer r = true) hits0)) months =
    (recs ← fold_result (fun out (f : MonthFile) => r ← read_records fs dir f.1.2; Ok (out ++ r)) hits0
      (filter (fun f : MonthFile => out_of_range since until f.1.1 = false) months);
     Ok (page_state limit offset (filter (fun r => page_match kind peer r = true) recs)))).
  { induction months as [|f months IH]; intros hits0; simpl; [done|]. unfold step at 2.
    rewrite filter_cons. destruct (out_of_range since until f.1.1); simpl; [by apply IH|].
    unfold read_records. destruct (open_file fs dir f.1.2) as [body|e]; simpl; [|done].
    rewrite page_lines_state, <- filter_app. apply IH. }
  specialize (Hgen []). simpl in Hgen.
  change (page_state limit offset (filter _ [])) with
    {| ps_total := 0; ps_records := take limit (drop offset []); ps_to_skip := offset - 0 |} in Hgen.
  rewrite drop_nil, take_nil, Nat.sub_0_r in Hgen. fold step. rewrite Hgen.
  match goal with |- (?x ≫= _) ≫= _ = _ => by destruct x end.
Qed.
End paging.

(** ** Appending and reading back *)

(** A file whose last line is complete. *)
Definition clean (body : bytes) : Prop := (lines body).2 = [].

Definition records_of `{AuditCodec} (body : bytes) : list AuditRecord :=
  omap parse_record (str_lines body).

Lemma lines_clean_app a b :
  clean a -> lines (a ++ b) = ((lines a).1 ++ (lines b).1, (lines b).2).
Proof.
  unfold clean. induction a as [|c a IH]; simpl; [by destruct (lines b)|].
  destruct (lines a) as [ls rest] eqn:E; simpl in *. case_decide as Hc.
  - simpl. intros ->. rewrite IH by done. by destruct (lines b).
  - destruct ls as [|l ls]; simpl; [done|]. intros ->. rewrite IH by done. done.
Qed.

Lemma str_lines_clean_app a b : clean a -> str_lines (a ++ b) = str_lines a ++ str_lines b.
Proof.
  intros Ha. unfold str_lines. rewrite lines_clean_app by done. unfold clean in Ha.
  destruct (lines a) as [la ra], (lines b) as [lb rb]; simpl in *. subst ra.
  by rewrite map_app, app_nil_r, <- app_assoc.
Qed.

Lemma lines_free p : newline ∉ p -> lines p = ([], p).
Proof. intros Hp. rewrite <- (app_nil_r p), lines_app_free by done. simpl. by rewrite app_nil_r. Qed.

Lemma str_lines_free p : newline ∉ p -> str_lines p = match p with [] => [] | _ => [p] end.
Proof. intros Hp. unfold str_lines. by rewrite lines_free. Qed.

Lemma chomp_free p : carriage_return ∉ p -> chomp p = p.
Proof.
  intros Hp. unfold chomp. destruct (last p) as [b|] eqn:Hl; [|done].
  rewrite decide_False; [done|]. intros ->. apply Hp. by apply last_Some_elem_of.
Qed.

Section appending.
Context `{H : HashOrder, C : AuditCodec, CL : !AuditCodecLaws C}.

Lemma parse_record_line r : parse_record (record_to_vec r) = Some r.
Proof.
  unfold parse_record. destruct (blank (record_to_vec r)) eqn:Hb; [|apply record_from_to].
  pose proof (record_blank _ Hb) as Hn. by rewrite record_from_to in Hn.
Qed.

Lemma line_of_record r :
  str_lines (record_to_vec r ++ [newline]) = [record_to_vec r] /\ clean (record_to_vec r ++ [newline]).
Proof.
  unfold str_lines, clean. rewrite lines_app_free by apply record_no_newline. simpl.
  rewrite app_nil_r, chomp_free by apply record_no_cr. done.
Qed.

(** What an append makes of the records of its file: a complete one adds its record after
    the others; a torn one leaves the others and at most what its fragment reads as; and no
    other file changes. *)
Lemma append_records how dir r res dir' :
  let path := (month_prefix (ar_ts r) +:+ ".jsonl")%string in
  let body := fun (d : Dir) => default [] (d ≫= lookup path) in
  clean (body dir) -> append_record how dir r = (res, dir') ->
  (forall name, name <> path -> default ∅ dir' !! name = default ∅ dir !! name) /\
  match how with
  | Appended => res = Ok tt /\ clean (body dir') /\ records_of (body dir') = records_of (body dir) ++ [r]
  | Torn n e =>
      res = Err e /\
      (n <= length (record_to_vec r) ->
       records_of (body dir') = records_of (body dir) ++ records_of (take n (record_to_vec r)))
  | NotOpened e => res = Err e /\ default ∅ dir' = default ∅ dir
  end.
Proof.
  intros path body Hc. assert (Hbody : default [] (default ∅ dir !! path) = body dir).
  { unfold body. destruct dir; simpl; [done|]. by rewrite lookup_empty. }
  assert (Hnew : forall x, body (Some (<[path := x]> (default ∅ dir))) = x).
  { intros x. unfold body. cbn [mbind option_bind]. by rewrite lookup_insert_eq. }
  clearbody body. unfold append_record. fold path. rewrite Hbody.
  destruct how as [|n e|e]; intros [= <- <-]; cbn [default].
  - split; [intros name Hn; by apply lookup_insert_ne|]. rewrite Hnew.
    destruct (line_of_record r) as [Hl Hcl]. split_and!; [done|..].
    + unfold clean in *. by rewrite lines_clean_app.
    + unfold records_of. rewrite (str_lines_clean_app (body dir)), Hl, omap_app by done. simpl.
      by rewrite parse_record_line.
  - split; [intros name Hn; by apply lookup_insert_ne|]. split; [done|]. intros Hn.
    rewrite Hnew, take_app_le by done.
    unfold records_of. by rewrite (str_lines_clean_app (body dir)), omap_app.
  - done.
Qed.
End appending.

(** ** The listing *)
Lemma strip_suffix_Some p s t : strip_suffix p s = Some t <-> s = t ++ p.
Proof.
  unfold strip_suffix. split.
  - intros (r & Hr & ->)%fmap_Some. case_decide as Hd; [|done]. injection Hr as <-.
    pose proof (take_drop (length (reverse p)) (reverse s)) as E. rewrite Hd in E.
    rewrite <- (reverse_involutive s), <- E at 1. by rewrite reverse_app, reverse_involutive.
  - intros ->. rewrite reverse_app, decide_True by apply take_app_length.
    rewrite drop_app_length. simpl. by rewrite reverse_involutive.
Qed.

Lemma month_of_filename_spec name m :
  month_of_filename name = Some m <->
  name = (m +:+ ".jsonl")%string /\ month_shape (as_bytes m) = true.
Proof.
  unfold month_of_filename. split.
  - intros (stem & Hs & Hm)%bind_Some. destruct (month_shape stem) eqn:E; [|done]. injection Hm as <-.
    apply strip_suffix_Some in Hs. split; [|by rewrite as_from_bytes].
    apply as_bytes_inj. by rewrite as_bytes_app, as_from_bytes.
  - intros [-> Hm]. rewrite as_bytes_app.
    rewrite (proj2 (strip_suffix_Some JSONL (as_bytes m ++ as_bytes ".jsonl") (as_bytes m))) by done.
    simpl. by rewrite Hm, from_as_bytes.
Qed.

#[export] Instance by_month_total : Total by_month.
Proof. intros a b. unfold by_month. apply String.le_total. Qed.
#[export] Instance by_month_trans : Transitive by_month.
Proof. intros a b c. unfold by_month. by etrans. Qed.

Section listing.
Context `{H : HashOrder, C : AuditCodec}.

Definition month_entry (fs : Fs) (kv : string * bytes) : option MonthFile :=
  month ← month_of_filename kv.1;
  Some (month, kv.1, if fs_len fs kv.1 then Z.of_nat (length kv.2) else 0%Z).

(** The month files of a directory that can be listed, oldest first. *)
Definition month_list (fs : Fs) (files : gmap string bytes) : list MonthFile :=
  merge_sort by_month (omap (month_entry fs) (iter files)).

Lemma list_month_files_ok fs files :
  fs_read_dir fs = None -> list_month_files fs (Some files) = Ok (month_list fs files).
Proof. intros Hd. unfold list_month_files. by rewrite Hd. Qed.

Lemma elem_of_month_list fs files f :
  f ∈ month_list fs files <->
  exists body, files !! f.1.2 = Some body /\ f.1.2 = (f.1.1 +:+ ".jsonl")%string /\
    month_shape (as_bytes f.1.1) = true /\
    f.2 = (if fs_len fs f.1.2 then Z.of_nat (length body) else 0%Z).
Proof.
  unfold month_list. rewrite merge_sort_Permutation, list_elem_of_omap. split.
  - intros ([name body] & Hin & He). rewrite iter_perm, elem_of_map_to_list in Hin.
    apply bind_Some in He as (m & Hm & [= <-]). simpl in Hm. apply month_of_filename_spec in Hm as [-> Hm].
    simpl. by exists body.
  - intros (body & Hb & Hn & Hm & Hz). exists (f.1.2, body). rewrite iter_perm, elem_of_map_to_list.
    split; [done|]. unfold month_entry. simpl.
    rewrite (proj2 (month_of_filename_spec f.1.2 f.1.1)) by done. simpl. rewrite <- Hz.
    by destruct f as [[? ?] ?].
Qed.

Lemma month_list_sorted fs files : StronglySorted by_month (month_list fs files).
Proof. apply (StronglySorted_merge_sort by_month). Qed.

(** A month has one file. *)
Lemma month_list_unique fs files a b :
  a ∈ month_list fs files -> b ∈ month_list fs files -> a.1.1 = b.1.1 -> a = b.
Proof.
  intros (ba & Ha & Hna & _ & Hza)%elem_of_month_list (bb & Hb & Hnb & _ & Hzb)%elem_of_month_list Hm.
  assert (Hn : a.1.2 = b.1.2) by congruence. rewrite Hn in *. rewrite Ha in Hb. injection Hb as <-.
  destruct a as [[? ?] ?], b as [[? ?] ?]; simpl in *. congruence.
Qed.

Lemma month_list_eq fs files l :
  StronglySorted by_month l -> l ≡ₚ month_list fs files -> month_list fs files = l.
Proof.
  intros Hs Hp. symmetry. apply (StronglySorted_unique_strong by_month); [|done|apply month_list_sorted|done].
  intros a b Ha Hb Hab Hba. rewrite Hp in Ha. apply (month_list_unique fs files a b Ha Hb).
  unfold by_month in *. by apply (anti_symm String.le).
Qed.

Lemma month_list_perm fs files : month_list fs files ≡ₚ omap (month_entry fs) (map_to_list files).
Proof. unfold month_list. by rewrite merge_sort_Permutation, iter_perm. Qed.

(** Splitting a sorted listing around a month it does not have. *)
Lemma split_at_month key (l : list MonthFile) :
  StronglySorted by_month l -> (forall f, f ∈ l -> f.1.1 <> key) ->
  exists before after, l = before ++ after /\
    (forall f, f ∈ before -> String.le f.1.1 key) /\ (forall f, f ∈ after -> String.le key f.1.1).
Proof.
  intros Hs Hk. induction Hs as [|f l Hs IH Hf]; [by exists [], []; split_and!; try done; intros ? []%not_elem_of_nil|].
  destruct (decide (String.le f.1.1 key)) as [Hle|Hgt].
  - destruct IH as (before & after & -> & Hb & Ha); [intros; apply Hk; by right|].
    exists (f :: before), after. split_and!; [done| |done].
    intros g [->|Hg]%elem_of_cons; auto.
  - exists [], (f :: l). split_and!; [done|by intros ? []%not_elem_of_nil|].
    assert (Hkf : String.le key f.1.1) by by destruct (String.le_total f.1.1 key).
    intros g [->|Hg]%elem_of_cons; [done|]. rewrite Forall_forall in Hf.
    etrans; [exact Hkf|exact (Hf g Hg)].
Qed.

(** The listing once a month's file is written: its entry takes its place in the order. *)
Lemma month_list_insert fs files key body :
  month_shape (as_bytes key) = true ->
  let path := (key +:+ ".jsonl")%string in
  let entry b := (key, path, if fs_len fs path then Z.of_nat (length b) else 0%Z) in
  exists before after,
    (forall f, f ∈ before -> String.le f.1.1 key /\ f.1.2 <> path) /\
    (forall f, f ∈ after -> String.le key f.1.1 /\ f.1.2 <> path) /\
    month_list fs files = before ++ option_list (entry <$> files !! path) ++ after /\
    month_list fs (<[path := body]> files) = before ++ [entry body] ++ after.
Proof.
  intros Hkey path entry. set (rest := delete path files).
  assert (Hin : forall f, f ∈ month_list fs rest -> f.1.2 <> path /\ f.1.1 <> key).
  { intros f (b & Hb & Hn & _)%elem_of_month_list. unfold rest in Hb.
    apply lookup_delete_Some in Hb as [Hne _]. split; [congruence|].
    intros Hk. apply Hne. by rewrite Hn, Hk. }
  destruct (split_at_month key (month_list fs rest) (month_list_sorted fs rest)) as (before & after & Hsplit & Hb & Ha).
  { intros f Hf. by apply Hin. }
  assert (Hentry : forall b, month_entry fs (path, b) = Some (entry b)).
  { intros b. unfold month_entry. simpl. by rewrite (proj2 (month_of_filename_spec path key)). }
  pose proof (month_list_sorted fs rest) as Hsr. rewrite Hsplit in Hsr.
  apply StronglySorted_app in Hsr as (Hcross & Hsb & Hsa).
  assert (Hsorted : forall o, StronglySorted by_month (before ++ option_list (entry <$> o) ++ after)).
  { intros o. apply StronglySorted_app_2; [|done|].
    - intros x y Hx [Hy|Hy]%elem_of_app; [|auto]. destruct o; simpl in Hy; [|by apply not_elem_of_nil in Hy].
      apply list_elem_of_singleton in Hy as ->. by apply Hb.
    - destruct o; simpl; [|done]. constructor; [done|]. apply Forall_forall. intros y Hy. by apply Ha. }
  assert (Hperm : forall m o, (match o with Some b => map_to_list m ≡ₚ (path, b) :: map_to_list rest
      | None => map_to_list m ≡ₚ map_to_list rest end) ->
    month_list fs m = before ++ option_list (entry <$> o) ++ after).
  { intros m o Hm. apply month_list_eq; [apply Hsorted|]. rewrite month_list_perm.
    assert (Hr : omap (month_entry fs) (map_to_list rest) ≡ₚ before ++ after)
      by by rewrite <- month_list_perm, Hsplit.
    destruct o as [b|]; rewrite Hm; simpl; rewrite ?Hentry, Hr; [|done]. symmetry. apply Permutation_middle. }
  exists before, after. split_and!.
  - intros f Hf. split; [by apply Hb|]. apply Hin. rewrite Hsplit. set_solver.
  - intros f Hf. split; [by apply Ha|]. apply Hin. rewrite Hsplit. set_solver.
  - apply Hperm. unfold rest. destruct (files !! path) as [b|] eqn:E.
    + by rewrite map_to_list_delete.
    + by rewrite delete_id.
  - apply (Hperm _ (Some body)). unfold rest. rewrite <- insert_delete_eq.
    apply map_to_list_insert. apply lookup_delete_eq.
Qed.
End listing.

Lemma month_list_empty `{HashOrder} fs : month_list fs ∅ = [].
Proof.
  apply month_list_eq; [constructor|]. rewrite month_list_perm. by rewrite map_to_list_empty.
Qed.

Section log_properties.
Context `{H : HashOrder, C : AuditCodec, CL : !AuditCodecLaws C}.

(** Every file can be read. *)
Definition readable (fs : Fs) : Prop := fs_read_dir fs = None /\ forall name, fs_read fs name = None.

Definition file_records (files : gmap string bytes) (f : MonthFile) : list AuditRecord :=
  records_of (default [] (files !! f.1.2)).

Lemma read_files_ok fs files l out :
  readable fs -> (forall f, f ∈ l -> is_Some (files !! f.1.2)) ->
  fold_result (fun out (f : MonthFile) => recs ← read_records fs (Some files) f.1.2; Ok (out ++ recs)) out l
    = Ok (out ++ (l ≫= file_records files)).
Proof.
  intros [_ Hr] Hl. revert out. induction l as [|f l IH]; intros out; simpl; [by rewrite app_nil_r|].
  destruct (Hl f) as [body Hb]; [by left|]. unfold read_records, open_file. rewrite Hr. simpl. rewrite Hb. simpl.
  rewrite IH by (intros; apply Hl; by right). rewrite <- app_assoc. do 3 f_equal.
  unfold file_records. by rewrite Hb.
Qed.

Lemma read_all_ok fs files :
  readable fs -> read_all_records fs (Some files) = Ok (month_list fs files ≫= file_records files).
Proof.
  intros Hr. unfold read_all_records. rewrite list_month_files_ok by apply Hr. simpl.
  rewrite read_files_ok; [done|done|]. intros f (body & Hb & _)%elem_of_month_list. eauto.
Qed.

Lemma bind_ext_elem {A B} (f g : A -> list B) l : (forall x, x ∈ l -> f x = g x) -> l ≫= f = l ≫= g.
Proof. intros Hf. induction l as [|x l IH]; [done|].
  rewrite !bind_cons, Hf, IH by set_solver. done. Qed.

(** A record appended to a log of complete lines is read back in its place, after
    everything recorded in its month or before and before everything of later months, and
    nothing else the log holds is lost, added or reordered. *)
Theorem append_read_all fs dir r dir' :
  let key := month_prefix (ar_ts r) in
  readable fs -> month_shape (as_bytes key) = true ->
  (forall body, dir ≫= lookup (key +:+ ".jsonl")%string = Some body -> clean body) ->
  append_record Appended dir r = (Ok tt, dir') ->
  exists before after files files',
    read_all_records fs dir = Ok (before ++ after) /\
    read_all_records fs dir' = Ok (before ++ [r] ++ after) /\
    before = (files ≫= file_records (default ∅ dir)) /\ (forall f, f ∈ files -> String.le f.1.1 key) /\
    after = (files' ≫= file_records (default ∅ dir)) /\ (forall f, f ∈ files' -> String.le key f.1.1).
Proof.
  intros key Hr Hkey Hclean Happ. set (path := (key +:+ ".jsonl")%string) in *.
  assert (Hc : clean (default [] (dir ≫= lookup path))).
  { destruct (dir ≫= lookup path) eqn:E; [by apply Hclean|done]. }
  destruct (append_records Appended dir r _ _ Hc Happ) as (Hother & _ & _ & Hnew).
  assert (Hread : read_all_records fs dir = read_all_records fs (Some (default ∅ dir))).
  { destruct dir; [done|]. rewrite read_all_ok by done. unfold read_all_records, list_month_files.
    destruct Hr as [-> _]. simpl. by rewrite month_list_empty. }
  rewrite Hread. revert Happ. unfold append_record. fold key path. set (files := default ∅ dir) in *.
  set (body := default [] (files !! path) ++ _). intros [= <-].
  destruct (month_list_insert fs files key body Hkey) as (before & after & Hb & Ha & Hold & Hins).
  fold path in Hb, Ha, Hold, Hins.
  assert (Hkeep : forall l, (forall f, f ∈ l -> f.1.2 <> path) ->
    l ≫= file_records (<[path := body]> files) = l ≫= file_records files).
  { intros l Hl. apply bind_ext_elem. intros f Hf. unfold file_records. by rewrite lookup_insert_ne by (symmetry; auto). }
  set (old := records_of (default [] (files !! path))).
  assert (Hmid : option_list ((fun b => (key, path, if fs_len fs path then Z.of_nat (length b) else 0%Z)) <$>
      files !! path) ≫= file_records files = old).
  { unfold old, file_records. destruct (files !! path) eqn:E; simpl; [|done].
    rewrite E. simpl. by rewrite app_nil_r. }
  assert (Hmid' : [(key, path, if fs_len fs path then Z.of_nat (length body) else 0%Z)]
    ≫= file_records (<[path := body]> files) = old ++ [r]).
  { simpl. rewrite app_nil_r. unfold file_records. simpl. rewrite lookup_insert_eq.
    simpl in Hnew. rewrite lookup_insert_eq in Hnew. simpl in Hnew |- *. rewrite Hnew. unfold old, files.
    do 3 f_equal. destruct dir; simpl; [done|by rewrite lookup_empty]. }
  rewrite !read_all_ok, Hold, Hins, !bind_app, Hmid, Hmid', !Hkeep by (done || intros; by apply Hb || by apply Ha).
  exists ((before ≫= file_records files) ++ old), (after ≫= file_records files),
    (before ++ option_list ((fun b => (key, path, if fs_len fs path then Z.of_nat (length b) else 0%Z)) <$>
      files !! path)), after.
  rewrite bind_app, Hmid, <- !app_assoc. split_and!; try done.
  - by rewrite (Hkeep after) by (intros f Hf; by apply Ha).
  - intros f [Hf|Hf]%elem_of_app; [by apply Hb|].
    destruct (files !! path); simpl in Hf; [|by apply not_elem_of_nil in Hf].
    by apply list_elem_of_singleton in Hf as ->.
  - intros f Hf. by apply Ha.
Qed.
End log_properties.

(** ** Pruning *)
Section pruning.
Context `{H : HashOrder}.

Lemma prune_files_spec fs before l deleted files r files' :
  prune_files fs before l deleted files = (r, files') ->
  (forall name, files' !! name = files !! name \/
     files' !! name = None /\ fs_remove fs name = None /\
     exists f, f ∈ l /\ f.1.2 = name /\ String.ltb f.1.1 before = true) /\
  match r with
  | Ok d =>
      d = deleted ++ (filter (fun f : MonthFile => String.ltb f.1.1 before = true) l).*1.*1 /\
      forall f, f ∈ l -> String.ltb f.1.1 before = true -> files' !! f.1.2 = None
  | Err e => exists f, f ∈ l /\ String.ltb f.1.1 before = true /\ fs_remove fs f.1.2 = Some e
  end.
Proof.
  revert deleted files. induction l as [|[[m path] sz] l IH]; intros deleted files; simpl.
  { intros [= <- <-]. split; [auto|]. rewrite app_nil_r. split; [done|]. by intros f []%not_elem_of_nil. }
  rewrite filter_cons. simpl. destruct (String.ltb m before) eqn:Hm; simpl.
  - destruct (fs_remove fs path) as [e|] eqn:Hrm.
    + intros [= <- <-]. split; [auto|]. exists (m, path, sz). split_and!; [by left|done|done].
    + intros Hp. destruct (IH _ _ Hp) as [Hkeep Hr]. split.
      * intros name. destruct (decide (name = path)) as [->|Hne].
        -- right. destruct (Hkeep path) as [Hl|(Hl & _)];
             [rewrite lookup_delete_eq in Hl|]; (split_and!; [done|done|]);
             exists (m, path, sz); split_and!; [by left|done|done|by left|done|done].
        -- destruct (Hkeep name) as [Hl|(Hl & Hf & f & Hin & ? & ?)].
           ++ left. by rewrite lookup_delete_ne in Hl.
           ++ right. split_and!; [done|done|]. exists f. split_and!; [by right|done|done].
      * destruct r as [d|e].
        -- destruct Hr as [-> Hr]. rewrite <- app_assoc. split; [done|].
           intros f [->|Hf]%elem_of_cons Hlt; [|by apply Hr]. simpl.
           destruct (Hkeep path) as [Hl|(Hl & _)]; [by rewrite lookup_delete_eq in Hl|done].
        -- destruct Hr as (f & ? & ? & ?). exists f. split_and!; [by right|done|done].
  - intros Hp. destruct (IH _ _ Hp) as [Hkeep Hr]. split.
    + intros name. destruct (Hkeep name) as [?|(? & ? & f & ? & ? & ?)]; [auto|].
      right. split_and!; [done|done|]. exists f. split_and!; [by right|done|done].
    + destruct r as [d|e].
      * destruct Hr as [-> Hr]. split; [done|]. intros f [->|Hf]%elem_of_cons Hlt; [|by apply Hr].
        simpl in Hlt. congruence.
      * destruct Hr as (f & ? & ? & ?). exists f. split_and!; [by right|done|done].
Qed.

(** Pruning deletes only month files strictly older than the month given, whatever
    fails; when it succeeds none of them is left, and it reports exactly their months,
    oldest first; an error names a removal that failed. *)
Theorem prune_spec fs before files r dir' :
  fs_read_dir fs = None -> prune_before fs before (Some files) = (r, dir') ->
  (forall name, default ∅ dir' !! name = files !! name \/
     default ∅ dir' !! name = None /\ fs_remove fs name = None /\
     exists m, month_of_filename name = Some m /\ String.ltb m before = true) /\
  match r with
  | Ok deleted =>
      (forall name m, month_of_filename name = Some m -> String.ltb m before = true ->
         default ∅ dir' !! name = None) /\
      StronglySorted String.le deleted /\
      (forall m, m ∈ deleted <-> String.ltb m before = true /\ month_shape (as_bytes m) = true /\
         is_Some (files !! (m +:+ ".jsonl")%string))
  | Err e => exists name, fs_remove fs name = Some e
  end.
Proof.
  intros Hd. unfold prune_before. rewrite list_month_files_ok by done.
  destruct (prune_files fs before (month_list fs files) [] files) as [r0 files'] eqn:Hp.
  intros [= <- <-]. simpl. destruct (prune_files_spec _ _ _ _ _ _ _ Hp) as [Hkeep Hr]. split.
  - intros name. destruct (Hkeep name) as [?|(? & ? & f & Hf & <- & Hlt)]; [auto|]. right.
    split_and!; [done|done|]. exists f.1.1. split; [|done].
    apply elem_of_month_list in Hf as (b & _ & Hn & Hm & _). by apply month_of_filename_spec.
  - destruct r0 as [d|e]; [|destruct Hr as (f & _ & _ & ?); by exists f.1.2].
    destruct Hr as [-> Hr]. simpl. split_and!.
    + intros name m [-> Hm]%month_of_filename_spec Hlt. destruct (Hkeep (m +:+ ".jsonl")%string) as [Hl|[Hl _]]; [|done].
      destruct (files !! (m +:+ ".jsonl")%string) as [b|] eqn:E; [|done].
      apply (Hr (m, (m +:+ ".jsonl")%string, if fs_len fs (m +:+ ".jsonl")%string then Z.of_nat (length b) else 0%Z));
        [|done]. apply elem_of_month_list. by exists b.
    + pose proof (month_list_sorted fs files) as Hs. clear -Hs.
      induction Hs as [|f l Hs IH Hf]; [constructor|]. rewrite filter_cons. case_decide; [|done].
      simpl. constructor; [done|]. apply Forall_forall. intros x Hx.
      apply list_elem_of_fmap in Hx as (y & -> & Hy). apply list_elem_of_fmap in Hy as (g & -> & Hg).
      apply list_elem_of_filter in Hg as [_ Hg]. rewrite Forall_forall in Hf. by apply Hf.
    + intros m. rewrite list_elem_of_fmap. setoid_rewrite list_elem_of_fmap.
      setoid_rewrite list_elem_of_filter. setoid_rewrite elem_of_month_list. split.
      * intros (y & -> & f & -> & Hlt & b & Hb & Hn & Hm & _). split_and!; [done|done|].
        exists b. by rewrite <- Hn.
      * intros (Hlt & Hm & b & Hb). eexists (m, _). split; [done|].
        exists (m, (m +:+ ".jsonl")%string, if fs_len fs (m +:+ ".jsonl")%string then Z.of_nat (length b) else 0%Z).
        split; [done|]. split; [done|]. by exists b.
Qed.
End pruning.

(** A concrete record codec: a JSON array of the fields, its bytes spelled in letters. *)
Module ToyCodec.
Import Externals.Toy.

Definition letter (z : Z) : byte := byte_of (97 + z).
Fixpoint spell (b : bytes) : bytes :=
  match b with
  | [] => []
  | c :: b => letter (byte_val c / 16) :: letter (byte_val c mod 16) :: spell b
  end.
Definition unletter (b : byte) : option Z :=
  if ((97 <=? byte_val b) && (byte_val b <? 113))%Z then Some (byte_val b - 97)%Z else None.
Fixpoint unspell (b : bytes) : option bytes :=
  match b with
  | [] => Some []
  | x :: y :: b => hi ← unletter x; lo ← unletter y; r ← unspell b; Some (byte_of (16 * hi + lo) :: r)
  | _ => None
  end.

Lemma unletter_letter z : (0 <= z < 16)%Z -> unletter (letter z) = Some z.
Proof.
  intros Hz. unfold unletter, letter. rewrite byte_val_of, Z.mod_small by lia.
  rewrite (proj2 (Z.leb_le _ _)), (proj2 (Z.ltb_lt _ _)) by lia. simpl. f_equal. lia.
Qed.

Lemma unspell_spell b : unspell (spell b) = Some b.
Proof.
  induction b as [|c b IH]; [done|]. cbn [spell unspell]. pose proof (byte_val_bound c).
  rewrite !unletter_letter by (Z.to_euclidean_division_equations; lia). simpl. rewrite IH. simpl.
  rewrite <- Z.div_mod by lia. by rewrite byte_of_val.
Qed.

Lemma spell_letters b c : c ∈ spell b -> (97 <= byte_val c)%Z.
Proof.
  induction b as [|x b IH]; cbn [spell]; [by intros ?%not_elem_of_nil|].
  pose proof (byte_val_bound x).
  intros [->|[->|?]%elem_of_cons]%elem_of_cons; [| |by apply IH];
    unfold letter; rewrite byte_val_of, Z.mod_small by (Z.to_euclidean_division_equations; lia);
    Z.to_euclidean_division_equations; lia.
Qed.

Definition opt_to {A} (f : A -> Value) (o : option A) : Value :=
  match o with Some a => VArray [f a] | None => VNull end.
Definition opt_of {A} (f : Value -> option A) (v : Value) : option (option A) :=
  match v with VNull => Some None | VArray [a] => Some <$> f a | _ => None end.
Definition int_to (z : Z) : Value := VNumber (NInt z).
Definition int_of (v : Value) : option Z := match v with VNumber (NInt z) => Some z | _ => None end.
Definition kind_to (k : AuditKind) : Value :=
  int_to (match k with SessionOpen => 0 | SessionClose => 1 | Request => 2 | BlobFetch => 3 | Trust => 4 end).
Definition kind_of (v : Value) : option AuditKind :=
  z ← int_of v;
  if (z =? 0)%Z then Some SessionOpen else if (z =? 1)%Z then Some SessionClose
  else if (z =? 2)%Z then Some Request else if (z =? 3)%Z then Some BlobFetch
  else if (z =? 4)%Z then Some Trust else None.

Definition record_to (r : AuditRecord) : Value :=
  VArray [VString (ar_ts r); kind_to (ar_kind r); opt_to VString (ar_peer r);
    opt_to VString (ar_service r); opt_to VString (ar_method r); opt_to VString (ar_tool r);
    opt_to VString (ar_args_hash r); opt_to int_to (ar_bytes_out r); opt_to VString (ar_status r);
    opt_to int_to (ar_latency_ms r); opt_to VString (ar_event r); opt_to VString (ar_target r);
    opt_to VString (ar_principal r)].
Definition record_of (v : Value) : option AuditRecord :=
  match v with
  | VArray [ts; k; pe; se; me; to; ah; bo; st; la; ev; ta; pr] =>
      ts ← as_str ts; k ← kind_of k; pe ← opt_of as_str pe; se ← opt_of as_str se;
      me ← opt_of as_str me; to ← opt_of as_str to; ah ← opt_of as_str ah; bo ← opt_of int_of bo;
      st ← opt_of as_str st; la ← opt_of int_of la; ev ← opt_of as_str ev; ta ← opt_of as_str ta;
      pr ← opt_of as_str pr;
      Some {| ar_ts := ts; ar_kind := k; ar_peer := pe; ar_service := se; ar_method := me;
              ar_tool := to; ar_args_hash := ah; ar_bytes_out := bo; ar_status := st;
              ar_latency_ms := la; ar_event := ev; ar_target := ta; ar_principal := pr |}
  | _ => None
  end.

Lemma opt_of_to {A} (f : A -> Value) g o : (forall a, g (f a) = Some a) -> opt_of g (opt_to f o) = Some o.
Proof. intros Hf. destruct o; simpl; [|done]. by rewrite Hf. Qed.

Lemma record_of_to r : record_of (record_to r) = Some r.
Proof.
  unfold record_of, record_to. rewrite !opt_of_to by done.
  assert (Hk : kind_of (kind_to (ar_kind r)) = Some (ar_kind r)) by by destruct (ar_kind r).
  rewrite Hk. by destruct r.
Qed.

#[export] Instance audit_codec : AuditCodec := {|
  record_to_vec r := spell (print (record_to r));
  record_from_str b := b ← unspell b; slice record_of b |}.

#[export] Instance audit_codec_laws : AuditCodecLaws audit_codec.
Proof.
  split.
  - intros r. cbn [record_to_vec record_from_str audit_codec]. rewrite unspell_spell.
    transitivity (record_of (record_to r)); [apply slice_print|apply record_of_to].
  - intros r Hin. apply spell_letters in Hin. done.
  - intros r Hin. apply spell_letters in Hin. done.
  - intros [|c b]; [done|]. unfold blank. simpl. intros [Hc _]%andb_true_iff.
    assert (Hu : unletter c = None).
    { unfold unletter. rewrite (proj2 (Z.leb_gt _ _)); [done|].
      apply orb_true_iff in Hc as [[? ?]%andb_true_iff|?%Z.eqb_eq]; [rewrite !Z.leb_le in *; lia|lia]. }
    destruct b as [|d b]; [done|]. cbn [record_from_str audit_codec unspell]. by rewrite Hu.
Qed.
End ToyCodec.

Module Witness.
Import ToyCodec Limits.Witness.

Definition opened : AuditRecord :=
  session_open "2026-07-03T14:02:11.480Z" (Some "bob"%string) "notes" (Some "eid:01"%string).

Lemma civil_from_days_spec_witness : day_number 2026 7 3 = 20637%Z.
Proof. exact (proj2 (proj2 (civil_from_days_spec 20637 ltac:(lia)))). Defined.

Lemma retention_spec_witness : forall k j, valid_month_key k = true -> month_index k = Some j ->
  (String.ltb k "2026-06" = true <-> (j < 24317)%Z).
Proof. exact (proj2 (proj2 (proj2 (retention_spec "2026-07" 24318 2 eq_refl eq_refl ltac:(lia))))). Defined.

Lemma append_read_all_witness : exists before after,
  read_all_records reliable None = Ok (before ++ after) /\
  read_all_records reliable (append_record Appended None opened).2 = Ok (before ++ [opened] ++ after).
Proof.
  destruct (append_read_all reliable None opened _ (conj eq_refl (fun _ => eq_refl)) eq_refl
    ltac:(discriminate) eq_refl) as (b & a & _ & _ & H1 & H2 & _).
  exists b, a. exact (conj H1 H2).
Defined.

Lemma prune_spec_witness :
  default ∅ (prune_before reliable "2026-07"
    (Some {["2026-06.jsonl"%string := []; "2026-08.jsonl"%string := []]})).2 !! "2026-06.jsonl"%string = None.
Proof.
  assert (Hok : is_ok (prune_before reliable "2026-07"
    (Some {["2026-06.jsonl"%string := []; "2026-08.jsonl"%string := []]})).1 = true) by reflexivity.
  destruct (prune_before reliable "2026-07" _) as [r dir'] eqn:E in Hok |- *.
  destruct (prune_spec reliable "2026-07" _ r dir' eq_refl E) as [_ Hr].
  destruct r as [d|e]; [|discriminate]. exact (proj1 Hr "2026-06.jsonl"%string "2026-06"%string eq_refl eq_refl).
Defined.
End Witness.
