(* ===== verification/Auditor.v ===== *)
(** * Auditing a session

    The live half of [node/src/audit/log.rs] and [args_hash] of [node/src/audit/record.rs]:
    the table of open sessions with the records that open and close them, and the correlator
    that turns the lines of one session into audit records.  Whether the writer's queue
    takes a record ([try_send] on a bounded channel) is an argument: [accepted]. *)
From stdpp Require Import base list gmap strings sorting.
From Stdlib Require Import ZArith Lia.
From S2P Require Import Prelude Bytes Json Externals Service Limits AuditFiles.

(** ** The digest of the arguments *)

(** [blake3::Hash::to_hex]. *)
Class Blake3Hex := { to_hex : key32 -> string }.

Section digest.
Context `{J : SerdeJson, B : Blake3, X : Blake3Hex}.

(** The params without what the daemon wrote into [_meta]. *)
Definition own_params (params : Value) : Value :=
  match value_get "_meta" params ≫= as_object, params with
  | Some meta, VObject m =>
      if existsb reserved (map fst meta) then
        let kept := map_retain (fun k => negb (reserved k)) meta in
        if bool_decide (kept = []) then VObject (map_remove "_meta" m)
        else VObject (map_alter "_meta" (fun _ => VObject kept) m)
      else params
  | _, _ => params
  end.

Definition args_hash (params : Value) : string :=
  "blake3:" +:+ to_hex (blake3 (json_to_vec (own_params params))).
End digest.

(** ** Open sessions *)
Record ActiveSession := {
  as_peer : string;
  as_service : string;
  as_opened_at : Z;
  as_principal : option string }.

(** The queue to the writer, everything sent to live subscribers, and the table. *)
Record AuditLog := {
  al_queue : list AuditRecord;
  al_stream : list AuditRecord;
  al_live : gmap Z ActiveSession;
  al_seq : Z }.

Definition new_log : AuditLog := {| al_queue := []; al_stream := []; al_live := ∅; al_seq := 0 |}.

Definition record (accepted : bool) (rec : AuditRecord) (l : AuditLog) : AuditLog :=
  {| al_queue := if accepted then al_queue l ++ [rec] else al_queue l;
     al_stream := al_stream l ++ [rec];
     al_live := al_live l; al_seq := al_seq l |}.

Definition set_live (m : gmap Z ActiveSession) (seq : Z) (l : AuditLog) : AuditLog :=
  {| al_queue := al_queue l; al_stream := al_stream l; al_live := m; al_seq := seq |}.

Definition open_tracked (accepted : bool) (ts : string) (now : Z) (peer service : string)
    (principal : option string) (l : AuditLog) : Z * AuditLog :=
  let id := al_seq l in
  let l := set_live (al_live l) ((id + 1) mod 2 ^ 64)%Z l in
  let l := record accepted (session_open ts (Some peer) service principal) l in
  let s := {| as_peer := peer; as_service := service; as_opened_at := now;
              as_principal := principal |} in
  (id, set_live (<[id := s]> (al_live l)) (al_seq l) l).

Definition close_tracked (accepted : bool) (ts : string) (id : Z) (l : AuditLog) : AuditLog :=
  match al_live l !! id with
  | Some s =>
      record accepted (session_close ts (Some (as_peer s)) (as_service s) (as_principal s))
        (set_live (delete id (al_live l)) (al_seq l) l)
  | None => l
  end.

Definition by_opened_at (a b : ActiveSession) : Prop := (as_opened_at a <= as_opened_at b)%Z.
#[export] Instance by_opened_at_dec : RelDecision by_opened_at.
Proof. unfold by_opened_at. intros a b. apply _. Defined.

Definition active_sessions `{HashOrder} (l : AuditLog) : list ActiveSession :=
  merge_sort by_opened_at (map snd (iter (al_live l))).

(** ** The request auditor *)
Record Pending := {
  p_method : string;
  p_tool : option string;
  p_args_hash : string;
  p_started : Instant }.

Record RequestAuditor := {
  ra_peer : option string;
  ra_service : string;
  ra_principal : option string;
  ra_pending : gmap string Pending;
  ra_drop_reported : bool }.

Definition new_auditor (peer : option string) (service : string) (principal : option string) :
    RequestAuditor :=
  {| ra_peer := peer; ra_service := service; ra_principal := principal;
     ra_pending := ∅; ra_drop_reported := false |}.

Definition with_pending (m : gmap string Pending) (a : RequestAuditor) : RequestAuditor :=
  {| ra_peer := ra_peer a; ra_service := ra_service a; ra_principal := ra_principal a;
     ra_pending := m; ra_drop_reported := ra_drop_reported a |}.
Definition with_reported (b : bool) (a : RequestAuditor) : RequestAuditor :=
  {| ra_peer := ra_peer a; ra_service := ra_service a; ra_principal := ra_principal a;
     ra_pending := ra_pending a; ra_drop_reported := b |}.

Section auditor.
Context `{J : SerdeJson, B : Blake3, X : Blake3Hex}.

(** [Value::to_string]. *)
Definition to_string (v : Value) : string := from_bytes (json_to_vec v).

Definition method_of (frame : Value) : option string := value_get "method" frame ≫= as_str.
Definition tool_of (method : string) (frame : Value) : option string :=
  if String.eqb method "tools/call"
  then value_pointer ["params"; "name"]%string frame ≫= as_str else None.
Definition params_of (frame : Value) : Value := default VNull (value_get "params" frame).

(** A frame's id, unless it has none or a null one. *)
Definition request_id (frame : Value) : option Value :=
  match value_get "id" frame with
  | Some id => if is_null id then None else Some id
  | None => None
  end.

Definition notification (ts method : string) (frame : Value) (a : RequestAuditor) : AuditRecord :=
  proxied_notification ts (ra_peer a) (ra_service a) method (tool_of method frame)
    (args_hash (params_of frame)) (ra_principal a).

Definition on_dropped (ts : string) (frame : Value) (a : RequestAuditor) :
    list AuditRecord * RequestAuditor :=
  if ra_drop_reported a then ([], a)
  else
    let a := with_reported true a in
    match method_of frame with
    | None => ([], a)
    | Some method => ([with_status (notification ts method frame a) "rate_limited"], a)
    end.

Definition on_request (ts : string) (now : Instant) (frame : Value) (a : RequestAuditor) :
    list AuditRecord * RequestAuditor :=
  let a := with_reported false a in
  match method_of frame with
  | None => ([], a)
  | Some method =>
      match request_id frame with
      | Some id =>
          ([], with_pending (<[to_string id :=
              {| p_method := method; p_tool := tool_of method frame;
                 p_args_hash := args_hash (params_of frame); p_started := now |}]> (ra_pending a)) a)
      | None => ([notification ts method frame a], a)
      end
  end.

(** [Duration::as_millis], cut to 64 bits. *)
Definition as_millis (nanos : Z) : Z := Z.min (nanos / 1000000) u64_max.

Definition completed (ts : string) (now : Instant) (frame : Value) (bytes_out : Z) (p : Pending)
    (a : RequestAuditor) : AuditRecord :=
  proxied_request ts (ra_peer a) (ra_service a) (p_method p) (p_tool p) (p_args_hash p) bytes_out
    (match value_get "error" frame with Some _ => "error" | None => "ok" end)
    (as_millis (saturating_duration_since now (p_started p))) (ra_principal a).

Definition on_response (ts : string) (now : Instant) (frame : Value) (bytes_out : Z)
    (a : RequestAuditor) : list AuditRecord * RequestAuditor :=
  match value_get "method" frame with
  | Some _ => ([], a)
  | None =>
      match request_id frame with
      | None => ([], a)
      | Some id =>
          let key := to_string id in
          match ra_pending a !! key with
          | None => ([], a)
          | Some p => ([completed ts now frame bytes_out p a], with_pending (delete key (ra_pending a)) a)
          end
      end
  end.

(** ** Histories *)
Inductive Line :=
| Dropped (ts : string) (frame : Value)
| Forwarded (ts : string) (now : Instant) (frame : Value)
| Answered (ts : string) (now : Instant) (frame : Value) (bytes_out : Z).

Definition line_step (l : Line) (a : RequestAuditor) : list AuditRecord * RequestAuditor :=
  match l with
  | Dropped ts f => on_dropped ts f a
  | Forwarded ts now f => on_request ts now f a
  | Answered ts now f n => on_response ts now f n a
  end.

Fixpoint run_lines (ls : list Line) (a : RequestAuditor) : list AuditRecord * RequestAuditor :=
  match ls with
  | [] => ([], a)
  | l :: ls =>
      let '(r, a) := line_step l a in
      let '(rs, a) := run_lines ls a in (r ++ rs, a)
  end.
End auditor.

(** ** Sessions: the ledger *)
Inductive SessionOp :=
| OpOpen (accepted : bool) (ts : string) (now : Z) (peer service : string) (principal : option string)
| OpClose (accepted : bool) (ts : string) (id : Z).

Definition session_op (op : SessionOp) (l : AuditLog) : AuditLog :=
  match op with
  | OpOpen ok ts now peer service principal => (open_tracked ok ts now peer service principal l).2
  | OpClose ok ts id => close_tracked ok ts id l
  end.

Definition is_open (op : SessionOp) : bool := match op with OpOpen _ _ _ _ _ _ => true | _ => false end.
Definition opens (ops : list SessionOp) : nat := length (filter (fun op => is_open op = true) ops).

(** Records of a kind about one peer, service and principal; sessions in the table likewise. *)
Definition about (kind : AuditKind) (k : string * string * option string) (r : AuditRecord) : bool :=
  bool_decide (ar_kind r = kind) && bool_decide (ar_peer r = Some k.1.1) &&
  bool_decide (ar_service r = Some k.1.2) && bool_decide (ar_principal r = k.2).
Definition counted (kind : AuditKind) (k : string * string * option string) (rs : list AuditRecord) : nat :=
  length (filter (fun r => about kind k r = true) rs).
Definition session_is (k : string * string * option string) (s : ActiveSession) : bool :=
  bool_decide ((as_peer s, as_service s, as_principal s) = k).
Definition live_count (k : string * string * option string) (m : gmap Z ActiveSession) : nat :=
  size (filter (fun kv : Z * ActiveSession => session_is k kv.2 = true) m).

Lemma counted_app kind k a b : counted kind k (a ++ b) = counted kind k a + counted kind k b.
Proof. unfold counted. by rewrite filter_app, length_app. Qed.

Lemma counted_one kind k r : counted kind k [r] = if about kind k r then 1 else 0.
Proof. unfold counted. rewrite filter_cons, filter_nil. by destruct (about kind k r). Qed.

Lemma about_session kind kind' k ts s :
  about kind k (session_open ts (Some (as_peer s)) (as_service s) (as_principal s)) =
    bool_decide (kind = SessionOpen) && session_is k s /\
  about kind' k (session_close ts (Some (as_peer s)) (as_service s) (as_principal s)) =
    bool_decide (kind' = SessionClose) && session_is k s.
Proof.
  unfold about, session_is; simpl. destruct k as [[p sv] pr]; simpl.
  split; repeat case_bool_decide; simpl; try done; try congruence; naive_solver.
Qed.

Lemma live_count_insert k m id s :
  m !! id = None -> live_count k (<[id := s]> m) = live_count k m + if session_is k s then 1 else 0.
Proof.
  intros Hid. unfold live_count. destruct (session_is k s) eqn:Hs.
  - rewrite map_filter_insert_True, map_size_insert_None by (done || by apply map_lookup_filter_None; left). lia.
  - rewrite map_filter_insert_not' by (simpl; congruence). lia.
Qed.

Lemma live_count_delete k m id s :
  m !! id = Some s -> live_count k m = live_count k (delete id m) + if session_is k s then 1 else 0.
Proof.
  intros Hs. rewrite <- (insert_delete_id m id s Hs) at 1. apply live_count_insert, lookup_delete_eq.
Qed.

(** What holds after [n] opens. *)
Record ledger (n : nat) (l : AuditLog) : Prop := {
  ledger_seq : al_seq l = Z.of_nat n;
  ledger_ids id : is_Some (al_live l !! id) -> (0 <= id < Z.of_nat n)%Z;
  ledger_count k : counted SessionOpen k (al_stream l) =
    counted SessionClose k (al_stream l) + live_count k (al_live l) }.

Lemma session_op_ledger n op l :
  (Z.of_nat (n + opens [op]) < 2 ^ 64)%Z -> ledger n l -> ledger (n + opens [op]) (session_op op l).
Proof.
  intros Hn [Hseq Hids Hc]. destruct op as [ok ts now peer service principal|ok ts id];
    unfold opens in *; rewrite filter_cons, filter_nil in *; simpl in *.
  - set (s := {| as_peer := peer; as_service := service; as_opened_at := now; as_principal := principal |}).
    assert (Hfresh : al_live l !! al_seq l = None).
    { apply eq_None_not_Some. intros Hs%Hids. lia. }
    split; simpl.
    + rewrite Hseq, Z.mod_small by lia. lia.
    + intros id [<-|[_ Hid]]%lookup_insert_is_Some; [lia|]. apply Hids in Hid. lia.
    + intros k. rewrite !counted_app, !counted_one, live_count_insert, Hc by done.
      destruct (about_session SessionOpen SessionClose k ts s) as [E1 _]. simpl in E1. rewrite E1.
      assert (E2 : about SessionClose k (session_open ts (Some peer) service principal) = false) by done.
      rewrite E2. fold s. destruct (session_is k s); lia.
  - unfold close_tracked. destruct (al_live l !! id) as [s|] eqn:Hs; [|by rewrite Nat.add_0_r; split].
    rewrite Nat.add_0_r. split; simpl.
    + done.
    + intros i [_ Hi]%lookup_delete_is_Some. by apply Hids.
    + intros k. rewrite !counted_app, !counted_one, Hc.
      destruct (about_session SessionOpen SessionClose k ts s) as [_ E1]. rewrite E1.
      assert (E2 : about SessionOpen k (session_close ts (Some (as_peer s)) (as_service s) (as_principal s)) = false) by done.
      rewrite E2. rewrite bool_decide_true by done. simpl.
      rewrite (live_count_delete k (al_live l) id s Hs). lia.
Qed.

Lemma opens_cons op ops : opens (op :: ops) = opens [op] + opens ops.
Proof. unfold opens. rewrite !filter_cons, filter_nil. by case_decide. Qed.

Lemma ledger_run n ops l :
  (Z.of_nat (n + opens ops) < 2 ^ 64)%Z -> ledger n l -> ledger (n + opens ops) (foldl (fun l op => session_op op l) l ops).
Proof.
  revert n l. induction ops as [|op ops IH]; intros n l Hn Hl; simpl; [by rewrite Nat.add_0_r|].
  rewrite opens_cons in *. rewrite Nat.add_assoc in *. apply IH; [done|].
  apply session_op_ledger; [lia|done].
Qed.

(** Over any sequence of session opens and closes, closes of sessions already closed
    included, the record stream balances with the table: for every peer, service and
    principal the sessions opened are those closed plus those in the table, so a session is
    listed as live exactly while its close has not been recorded. *)
Theorem session_ledger ops k :
  (Z.of_nat (opens ops) < 2 ^ 64)%Z ->
  let l := foldl (fun l op => session_op op l) new_log ops in
  counted SessionOpen k (al_stream l) = counted SessionClose k (al_stream l) + live_count k (al_live l).
Proof.
  intros Hn l. apply (ledger_run 0 ops new_log Hn). split; [done|..].
  - intros id [s Hs]. simpl in Hs. by rewrite lookup_empty in Hs.
  - intros k'. done.
Qed.

(** ** The auditor against its history *)
Section refinement.
Context `{J : SerdeJson, B : Blake3, X : Blake3Hex}.

Definition awaiting (ts : string) (now : Instant) (frame : Value) : option (string * Pending) :=
  method ← method_of frame; id ← request_id frame;
  Some (to_string id, {| p_method := method; p_tool := tool_of method frame;
                         p_args_hash := args_hash (params_of frame); p_started := now |}).

Definition answers (frame : Value) : option string :=
  match value_get "method" frame with
  | Some _ => None
  | None => to_string <$> request_id frame
  end.

(** The request of id [k] that has not been answered, read off the lines so far. *)
Definition track (k : string) (o : option Pending) (l : Line) : option Pending :=
  match l with
  | Dropped _ _ => o
  | Forwarded ts now f =>
      match awaiting ts now f with Some (k', p) => if decide (k' = k) then Some p else o | None => o end
  | Answered _ _ f _ => if decide (answers f = Some k) then None else o
  end.
Definition outstanding (k : string) (h : list Line) : option Pending := foldl (track k) None h.

(** Whether a dropped line has been reported since the last delivery. *)
Definition reported (h : list Line) : bool :=
  foldl (fun b l => match l with Dropped _ _ => true | Forwarded _ _ _ => false | Answered _ _ _ _ => b end)
    false h.

(** The records a line must give, from the lines before it. *)
Definition line_records (a : RequestAuditor) (h : list Line) (l : Line) : list AuditRecord :=
  match l with
  | Dropped ts f =>
      match method_of f with
      | Some m => if reported h then [] else [with_status (notification ts m f a) "rate_limited"]
      | None => []
      end
  | Forwarded ts now f =>
      match method_of f, request_id f with Some m, None => [notification ts m f a] | _, _ => [] end
  | Answered ts now f n =>
      match answers f ≫= fun k => outstanding k h with
      | Some p => [completed ts now f n p a]
      | None => []
      end
  end.
Fixpoint history_records (a : RequestAuditor) (h ls : list Line) : list AuditRecord :=
  match ls with [] => [] | l :: ls => line_records a h l ++ history_records a (h ++ [l]) ls end.

(** The auditor's state is the abstraction of the history. *)
Record abstracts (a : RequestAuditor) (h : list Line) (st : RequestAuditor) : Prop := {
  abs_static : ra_peer st = ra_peer a /\ ra_service st = ra_service a /\ ra_principal st = ra_principal a;
  abs_pending k : ra_pending st !! k = outstanding k h;
  abs_reported : ra_drop_reported st = reported h }.

Lemma outstanding_snoc k h l : outstanding k (h ++ [l]) = track k (outstanding k h) l.
Proof. unfold outstanding. by rewrite foldl_snoc. Qed.
Lemma reported_snoc h l : reported (h ++ [l]) =
  match l with Dropped _ _ => true | Forwarded _ _ _ => false | Answered _ _ _ _ => reported h end.
Proof. unfold reported. by rewrite foldl_snoc. Qed.

Lemma notification_static ts m f a st :
  ra_peer st = ra_peer a -> ra_service st = ra_service a -> ra_principal st = ra_principal a ->
  notification ts m f st = notification ts m f a.
Proof. unfold notification. by intros -> -> ->. Qed.

Lemma step_simulates a h st l :
  abstracts a h st ->
  (line_step l st).1 = line_records a h l /\ abstracts a (h ++ [l]) (line_step l st).2.
Proof.
  intros [(Hp & Hs & Hr) Hpend Hrep]. destruct l as [ts f|ts now f|ts now f n]; simpl.
  - unfold on_dropped. rewrite Hrep. destruct (reported h) eqn:E.
    + split; [by destruct (method_of f)|]. split; [done|intros k; by rewrite outstanding_snoc, Hpend|].
      simpl. by rewrite reported_snoc.
    + assert (Ha : abstracts a (h ++ [Dropped ts f]) (with_reported true st)).
      { split; [done|intros k; by rewrite outstanding_snoc; apply Hpend|]. by rewrite reported_snoc. }
      destruct (method_of f) as [m|]; (split; [|done]); [|done]. simpl.
      by rewrite (notification_static _ _ _ a).
  - unfold on_request, awaiting. destruct (method_of f) as [m|] eqn:Hm; simpl.
    + destruct (request_id f) as [id|] eqn:Hid; simpl; (split; [try done|]).
      * split; [done| |by rewrite reported_snoc]. intros k. rewrite outstanding_snoc. simpl.
        unfold awaiting. rewrite Hm, Hid. simpl. case_decide as Hk.
        -- subst k. by rewrite lookup_insert_eq.
        -- by rewrite lookup_insert_ne, Hpend.
      * by rewrite (notification_static _ _ _ a).
      * split; [done| |by rewrite reported_snoc]. intros k. rewrite outstanding_snoc. simpl.
        unfold awaiting. by rewrite Hm, Hid, Hpend.
    + split; [done|]. split; [done| |by rewrite reported_snoc]. intros k. rewrite outstanding_snoc. simpl.
      unfold awaiting. by rewrite Hm, Hpend.
  - assert (Hkeep : answers f = None \/ (exists k, answers f = Some k /\ outstanding k h = None) ->
      abstracts a (h ++ [Answered ts now f n]) st).
    { intros Ha. split; [done| |by rewrite reported_snoc]. intros k. rewrite outstanding_snoc, Hpend. simpl.
      case_decide as Hk; [|done]. destruct Ha as [Ha|(k' & Ha & Ho)]; congruence. }
    unfold on_response, answers in *. destruct (value_get "method" f) eqn:Em; [by split; auto|].
    destruct (request_id f) as [id|] eqn:Ei; simpl in *; [|by split; auto].
    rewrite Hpend. destruct (outstanding (to_string id) h) as [p|] eqn:Ho; simpl; [|split; eauto].
    split.
    + unfold completed. by rewrite Hp, Hs, Hr.
    + split; [done| |by rewrite reported_snoc]. intros k. rewrite outstanding_snoc. simpl.
      unfold answers. rewrite Em, Ei. simpl. case_decide as Hk.
      * injection Hk as <-. apply lookup_delete_eq.
      * rewrite lookup_delete_ne by congruence. apply Hpend.
Qed.

(** The correlator refines the history of the session: whatever the interleaving of
    requests, answers and drops, and however often an id is reused, an answer completes
    exactly the last request of its id still unanswered (and a line a server initiates
    completes nothing), a notification is recorded at once, and a run of drops is reported
    once until a delivery. *)
Theorem auditor_refines peer service principal ls :
  let a := new_auditor peer service principal in
  (run_lines ls a).1 = history_records a [] ls.
Proof.
  intros a. assert (Hgen : forall h st, abstracts a h st -> (run_lines ls st).1 = history_records a h ls).
  { induction ls as [|l ls IH]; intros h st Hst; [done|]. simpl.
    destruct (step_simulates a h st l Hst) as [H1 H2].
    destruct (line_step l st) as [r st']; simpl in *. specialize (IH _ _ H2).
    destruct (run_lines ls st') as [rs st'']; simpl in *. by rewrite H1, IH. }
  apply Hgen. split; [done|intros k; apply lookup_empty|done].
Qed.

(** ** What a record can tell *)

(** Lines that agree on the method, the tool's name, the digest of the arguments, the id,
    whether there is an error, and the size. *)
Definition same_request (f f' : Value) : Prop :=
  method_of f = method_of f' /\ (forall m, tool_of m f = tool_of m f') /\
  args_hash (params_of f) = args_hash (params_of f') /\ request_id f = request_id f'.
Definition same_line (l l' : Line) : Prop :=
  match l, l' with
  | Dropped ts f, Dropped ts' f' => ts = ts' /\ same_request f f'
  | Forwarded ts now f, Forwarded ts' now' f' => ts = ts' /\ now = now' /\ same_request f f'
  | Answered ts now f n, Answered ts' now' f' n' =>
      ts = ts' /\ now = now' /\ n = n' /\ answers f = answers f' /\
      (value_get "error" f = None <-> value_get "error" f' = None)
  | _, _ => False
  end.

Lemma same_line_step l l' a : same_line l l' -> line_step l a = line_step l' a.
Proof.
  destruct l as [ts f|ts now f|ts now f n], l' as [ts' f'|ts' now' f'|ts' now' f' n']; simpl; try done.
  - intros (<- & Hm & Ht & Ha & _). unfold on_dropped, notification. rewrite Hm, Ha.
    destruct (ra_drop_reported a), (method_of f'); by rewrite ?Ht.
  - intros (<- & <- & Hm & Ht & Ha & Hi). unfold on_request, notification. rewrite Hm, Ha, Hi.
    destruct (method_of f') as [m|], (request_id f'); by rewrite ?Ht.
  - intros (<- & <- & <- & Hans & He). unfold on_response, answers, completed in *.
    assert (Herr : (match value_get "error" f with Some _ => "error" | None => "ok" end)%string =
                   (match value_get "error" f' with Some _ => "error" | None => "ok" end)%string).
    { destruct (value_get "error" f), (value_get "error" f'); try done; naive_solver. }
    rewrite Herr. destruct (value_get "method" f), (value_get "method" f');
      destruct (request_id f), (request_id f'); simpl in Hans; try done; by injection Hans as ->.
Qed.

(** Nothing of the arguments but their digest, and nothing of a response but its size
    and whether it is an error, reaches an audit record: sessions that agree on those give
    the same records, line for line. *)
Theorem audit_privacy ls ls' a : Forall2 same_line ls ls' -> (run_lines ls a).1 = (run_lines ls' a).1.
Proof.
  intros Hl. revert a. induction Hl as [|l l' ls ls' Hl _ IH]; intros a; [done|]. simpl.
  rewrite (same_line_step l l' a Hl). destruct (line_step l' a) as [r a'].
  specialize (IH a'). destruct (run_lines ls a'), (run_lines ls' a'). simpl in *. by rewrite IH.
Qed.
End refinement.


Module Witness.
Import Externals.Toy.
#[export] Instance blake3_hex : Blake3Hex := {| to_hex k := from_bytes (key_bytes k) |}.

Definition ping_frame : Value := VObject [("id", VNumber (NInt 1)); ("method", VString "ping")]%string.
Definition answer (secret : string) : Value :=
  VObject [("id", VNumber (NInt 1)); ("result", VString secret)]%string.
Definition session (secret : string) : list Line :=
  [Forwarded "t0" 0%Z ping_frame; Answered "t1" 5000000%Z (answer secret) 40%Z].

(** Two answers of the same size leave the same audit trail. *)
Lemma audit_privacy_witness :
  (run_lines (session "alpha") (new_auditor None "notes" None)).1 =
  (run_lines (session "omega") (new_auditor None "notes" None)).1.
Proof.
  apply (audit_privacy (session "alpha") (session "omega")).
  repeat constructor.
Defined.

Lemma session_ledger_witness :
  let l := foldl (fun l op => session_op op l) new_log
    [OpOpen true "t0" 0 "bob" "notes" None; OpClose true "t1" 0; OpClose true "t2" 0] in
  counted SessionOpen ("bob", "notes", None)%string (al_stream l) =
  counted SessionClose ("bob", "notes", None)%string (al_stream l) +
  live_count ("bob", "notes", None)%string (al_live l).
Proof. apply (session_ledger _ ("bob", "notes", None)%string). reflexivity. Defined.
End Witness.
