(* ===== verification/Backends.v ===== *)
(** * Session backends

    [node/src/backends/mod.rs], [socket.rs] and [spawn.rs]: what a caller's frame becomes
    before the local server sees it, the pump between the two byte streams, the identity a
    socket server is told in [_meta] and a spawned one in its environment.

    The two directions of the pump run concurrently and share the auditor and the writer to
    the peer, each behind a lock: a run of the pump is a sequence of events, one per turn of
    either loop, in any order.  Whether a write succeeds is part of the event. *)
From stdpp Require Import base list gmap strings.
From Stdlib Require Import ZArith Lia.
From S2P Require Import Prelude Bytes Json Externals Identity Limits Service AuditFiles Auditor.

(** ** The authoritative identity *)
Definition empty_object : Value := VObject [].

(** Both spellings of the peer key, over whatever was there. *)
Definition stamp (peer : Value) (meta : Map) : Map :=
  foldl (fun m key => map_insert key peer m) meta PEER_KEYS.

Definition stamp_params (peer : Value) (params : Map) : Map :=
  let meta := match map_get "_meta" params with Some (VObject m) => m | _ => [] end in
  map_insert "_meta" (VObject (stamp peer meta)) params.

(** One frame that is not a batch. *)
Definition inject_frame (frame peer : Value) : Value :=
  match frame with
  | VObject top =>
      match map_get "method" top with
      | Some (VString _) =>
          match map_get "params" top with
          | None | Some VNull => VObject (map_insert "params" (VObject (stamp_params peer [])) top)
          | Some (VObject params) =>
              VObject (map_alter "params" (fun _ => VObject (stamp_params peer params)) top)
          | Some _ => frame
          end
      | _ => frame
      end
  | _ => frame
  end.

Fixpoint inject_peer (frame peer : Value) (depth : nat) : Value :=
  match frame with
  | VArray batch =>
      if Nat.ltb depth 8 then VArray (map (fun e => inject_peer e peer (S depth)) batch) else frame
  | _ => inject_frame frame peer
  end.

Definition sanitize_caller_frame (frame : Value) (peer_meta : option Value) : Value * bool :=
  let frame := strip_reserved_meta frame in
  let '(frame, impersonating) := strip_impersonating_client_info frame in
  (match peer_meta with Some peer => inject_peer frame peer 0 | None => frame end, impersonating).

Section backends.
Context `{T : TextEncoding, J : SerdeJson, B : Blake3, X : Blake3Hex, H : HashOrder}.

Definition opt_string (o : option string) : Value :=
  match o with Some s => VString s | None => VNull end.

Definition peer_meta_value (id : PeerIdentity) : Value :=
  VObject [("eid", VString (principal (id_endpoint id)));
           ("groups", VArray (map VString (id_groups id)));
           ("name", VString (id_name id));
           ("user_id", opt_string (id_user_id id))]%string.

Definition session_principal (identity : option PeerIdentity) : option string :=
  principal ∘ id_endpoint <$> identity.

(** The name a session is recorded under. *)
Definition session_peer (identity : option PeerIdentity) : option string :=
  (fun id => default (id_name id) (id_user_id id)) <$> identity.

(** ** The pump *)
Record PumpState := {
  pm_limiter : RateLimiter;
  pm_auditor : RequestAuditor;
  pm_to_server : list Value;
  pm_to_peer : list Value;
  pm_records : list AuditRecord;
  pm_server_write : bool;    (* the write half to the server is still held *)
  pm_ended : bool }.

(** The outcome of one turn of a loop. *)
Inductive FromPeer := PeerFrame (frame : Value) (write_ok : bool) | PeerEnd.
Inductive FromServer := ServerFrame (frame : Value) (write_ok : bool) | ServerEnd.
Inductive PumpEvent :=
| Inbound (ts : string) (now : Instant) (e : FromPeer)
| Outbound (ts : string) (now : Instant) (e : FromServer).

Section pump.
Context (endpoint : option EndpointId) (peer_meta : option Value).

Definition drop_server (st : PumpState) : PumpState :=
  {| pm_limiter := pm_limiter st; pm_auditor := pm_auditor st; pm_to_server := pm_to_server st;
     pm_to_peer := pm_to_peer st; pm_records := pm_records st; pm_server_write := false;
     pm_ended := pm_ended st |}.

(** A turn of the loop from the peer: sanitize, meter, audit, forward. *)
Definition to_server_turn (ts : string) (now : Instant) (frame : Value) (write_ok : bool)
    (st : PumpState) : PumpState :=
  let '(frame, _) := sanitize_caller_frame frame peer_meta in
  let '(verdict, limiter) :=
    match value_get "method" frame with
    | Some _ => admit_at endpoint now (pm_limiter st)
    | None => (Ok tt, pm_limiter st)
    end in
  match verdict with
  | Err retry_after_ms =>
      match request_id frame with
      | Some id =>
          {| pm_limiter := limiter; pm_auditor := pm_auditor st; pm_to_server := pm_to_server st;
             pm_to_peer := pm_to_peer st ++ [synthesized_limited id retry_after_ms];
             pm_records := pm_records st; pm_server_write := pm_server_write st;
             pm_ended := pm_ended st |}
      | None =>
          let '(recs, auditor) := on_dropped ts frame (pm_auditor st) in
          {| pm_limiter := limiter; pm_auditor := auditor; pm_to_server := pm_to_server st;
             pm_to_peer := pm_to_peer st; pm_records := pm_records st ++ recs;
             pm_server_write := pm_server_write st; pm_ended := pm_ended st |}
      end
  | Ok _ =>
      let '(recs, auditor) := on_request ts now frame (pm_auditor st) in
      {| pm_limiter := limiter; pm_auditor := auditor;
         pm_to_server := if write_ok then pm_to_server st ++ [frame] else pm_to_server st;
         pm_to_peer := pm_to_peer st; pm_records := pm_records st ++ recs;
         pm_server_write := write_ok; pm_ended := pm_ended st |}
  end.

(** A turn of the loop from the server: correlate, forward. *)
Definition to_transport_turn (ts : string) (now : Instant) (frame : Value) (write_ok : bool)
    (st : PumpState) : PumpState :=
  let bytes_out := Z.of_nat (length (json_to_vec frame)) in
  let '(recs, auditor) := on_response ts now frame bytes_out (pm_auditor st) in
  {| pm_limiter := pm_limiter st; pm_auditor := auditor; pm_to_server := pm_to_server st;
     pm_to_peer := if write_ok then pm_to_peer st ++ [frame] else pm_to_peer st;
     pm_records := pm_records st ++ recs; pm_server_write := pm_server_write st;
     pm_ended := negb write_ok |}.

Definition end_pump (st : PumpState) : PumpState :=
  {| pm_limiter := pm_limiter st; pm_auditor := pm_auditor st; pm_to_server := pm_to_server st;
     pm_to_peer := pm_to_peer st; pm_records := pm_records st;
     pm_server_write := pm_server_write st; pm_ended := true |}.

(** After the end nothing runs; once the first loop let go of the server it is parked. *)
Definition pump_event (st : PumpState) (e : PumpEvent) : PumpState :=
  if pm_ended st then st
  else match e with
  | Inbound ts now (PeerFrame f ok) =>
      if pm_server_write st then to_server_turn ts now f ok st else st
  | Inbound _ _ PeerEnd => drop_server st
  | Outbound ts now (ServerFrame f ok) => to_transport_turn ts now f ok st
  | Outbound _ _ ServerEnd => end_pump st
  end.

(** The pump after its first write, the session's first frame. *)
Definition start_pump (initialize : Value) (limiter : RateLimiter) (auditor : RequestAuditor) : PumpState :=
  {| pm_limiter := limiter; pm_auditor := auditor; pm_to_server := [initialize]; pm_to_peer := [];
     pm_records := []; pm_server_write := true; pm_ended := false |}.

Definition pump (initialize : Value) (limiter : RateLimiter) (auditor : RequestAuditor)
    (events : list PumpEvent) : PumpState :=
  foldl pump_event (start_pump initialize limiter auditor) events.
End pump.

(** ** The socket backend, once it is connected *)
Definition socket_run_over (service : string) (identity : option PeerIdentity) (initialize : Value)
    (limiter : RateLimiter) (events : list PumpEvent) : PumpState :=
  let initialize := match identity with
                    | Some id => inject_peer initialize (peer_meta_value id) 0
                    | None => initialize
                    end in
  pump (id_endpoint <$> identity) (peer_meta_value <$> identity) initialize limiter
    (new_auditor (session_peer identity) service (session_principal identity)) events.

(** ** The spawn backend *)
Definition CONCURRENCY_RETRY_MS : Z := 1000.

(** [str::to_ascii_uppercase]. *)
Definition to_ascii_uppercase (s : string) : string :=
  from_bytes (map (fun b => if ((97 <=? byte_val b) && (byte_val b <=? 122))%Z
                            then byte_of (byte_val b - 32) else b) (as_bytes s)).

Definition join (sep : string) (l : list string) : string :=
  match l with [] => "" | x :: l => foldl (fun acc y => acc +:+ sep +:+ y) x l end.

Definition PEER_VARS : list string :=
  ["MCPMESH_PEER_NAME"; "MCPMESH_PEER_USER"; "MCPMESH_PEER_GROUPS"; "MCPMESH_PEER_EID"]%string.

Definition identity_env (identity : option PeerIdentity) : gmap string string :=
  match identity with
  | None => ∅
  | Some id =>
      let env : gmap string string :=
        match id_user_id id with
        | Some user => {["MCPMESH_PEER_USER"%string := user]}
        | None => ∅
        end in
      <["MCPMESH_PEER_NAME"%string := id_name id]>
        (<["MCPMESH_PEER_GROUPS"%string := join "," (id_groups id)]>
          (<["MCPMESH_PEER_EID"%string := principal (id_endpoint id)]> env))
  end.

(** The child's environment: the daemon's, the service's less our own names, the identity's
    variables set or removed. *)
Definition child_env (inherited service_env : gmap string string) (identity : option PeerIdentity) :
    gmap string string :=
  identity_env identity ∪
  filter (fun kv => kv.1 ∉ PEER_VARS)
    (filter (fun kv => starts_with "MCPMESH_" (to_ascii_uppercase kv.1) = false) service_env ∪ inherited).

Record Child := {
  ch_program : string;
  ch_args : list string;
  ch_env : gmap string string;
  ch_cwd : option string }.

Inductive SpawnOutcome :=
| Refused (answer : Value)
| SpawnFailed (e : string)
| Ran (child : Child) (st : PumpState).

(** [permits] is what is left of the service's cap; [spawned] whether the system started
    the child. *)
Definition spawn_run_over (cmd : list string) (env : gmap string string) (cwd : option string)
    (inherited : gmap string string) (service : string) (permits : nat) (spawned : result string unit)
    (identity : option PeerIdentity) (initialize : Value) (limiter : RateLimiter)
    (events : list PumpEvent) : SpawnOutcome :=
  match permits with
  | O => Refused (synthesized_limited (default VNull (value_get "id" initialize)) CONCURRENCY_RETRY_MS)
  | S _ =>
      match cmd with
      | [] => SpawnFailed "run backend cmd is empty"
      | program :: args =>
          match spawned with
          | Err e => SpawnFailed e
          | Ok _ =>
              Ran {| ch_program := program; ch_args := args; ch_env := child_env inherited env identity;
                     ch_cwd := cwd |}
                (pump (id_endpoint <$> identity) None initialize limiter
                  (new_auditor (session_peer identity) service (session_principal identity)) events)
          end
      end
  end.
End backends.

(** ** The identity a server is told *)

Lemma reserved_peer_keys k : k ∈ PEER_KEYS -> reserved k = true.
Proof. unfold PEER_KEYS. intros [->|[->|[]%not_elem_of_nil]%elem_of_cons]%elem_of_cons; done. Qed.

Lemma map_get_stamp peer m k :
  map_get k (stamp peer m) = if decide (k ∈ PEER_KEYS) then Some peer else map_get k m.
Proof.
  unfold stamp, PEER_KEYS. cbn [foldl]. rewrite !map_get_insert.
  case_decide as H1; [subst; by rewrite decide_True by set_solver|].
  case_decide as H2; [subst; by rewrite decide_True by set_solver|].
  rewrite decide_False; [done|]. intros [?|[?|[]%not_elem_of_nil]%elem_of_cons]%elem_of_cons; done.
Qed.

Lemma stamp_nonempty peer m : stamp peer m <> [].
Proof.
  intros E. pose proof (map_get_stamp peer m "mcpmesh/peer") as H. rewrite E in H.
  rewrite decide_True in H; [done|]. unfold PEER_KEYS. set_solver.
Qed.

(** The shapes of frame an injection changes. *)
Lemma inject_frame_cases f peer :
  inject_frame f peer = f \/
  exists top m ps top', f = VObject top /\ map_get "method" top = Some (VString m) /\
    (map_get "params" top = Some (VObject ps) \/
     (map_get "params" top = None \/ map_get "params" top = Some VNull) /\ ps = []) /\
    inject_frame f peer = VObject top' /\
    (forall k, map_get k top' =
       if decide (k = "params"%string) then Some (VObject (stamp_params peer ps)) else map_get k top).
Proof.
  destruct f as [| | | | |top]; try by left. cbn [inject_frame].
  destruct (map_get "method" top) as [[| | |m| |]|] eqn:Hm; try by left.
  destruct (map_get "params" top) as [[| | | | |ps]|] eqn:Hp; try by left.
  - right. eexists top, m, [], _. split_and!; try done; [right; split; [by right|done]|].
    intros k. apply map_get_insert.
  - right. eexists top, m, ps, _. split_and!; try done; [by left|].
    intros k. rewrite map_get_alter. case_decide as Hk; [|done]. by rewrite Hk, Hp.
  - right. eexists top, m, [], _. split_and!; try done; [right; split; [by left|done]|].
    intros k. apply map_get_insert.
Qed.

Lemma method_of_inject f peer : method_of (inject_frame f peer) = method_of f.
Proof.
  destruct (inject_frame_cases f peer) as [->|(top & m & ps & top' & -> & _ & _ & -> & Hk)]; [done|].
  unfold method_of, value_get. simpl. by rewrite Hk.
Qed.

Lemma inject_meta f peer m :
  frame_meta (inject_frame f peer) = Some m ->
  (inject_frame f peer = f /\ frame_meta f = Some m) \/
  (is_Some (method_of f) /\ exists m0, m = stamp peer m0 /\ (frame_meta f = Some m0 \/ m0 = [])).
Proof.
  destruct (inject_frame_cases f peer) as [->|(top & mt & ps & top' & Hf & Hmt & Hps & -> & Hk)]; [by left|].
  intros (top1 & params & [= <-] & Hp & Hm)%frame_meta_spec. right.
  rewrite Hk, decide_True in Hp by done. injection Hp as <-. unfold stamp_params in Hm.
  rewrite map_get_insert, decide_True in Hm by done. injection Hm as <-. split.
  { subst f. unfold method_of, value_get. simpl. rewrite Hmt. by eexists. }
  eexists. split; [done|]. destruct (map_get "_meta" ps) as [[| | | | |m0]|] eqn:E; auto. left.
  destruct Hps as [Hps|[_ ->]]; [|done]. apply frame_meta_spec. by exists top, ps.
Qed.

(** What one frame may carry of the reserved namespace when [peer] is the caller. *)
Definition attributed (peer : Value) (f : Value) : Prop :=
  (forall m k v, frame_meta f = Some m -> reserved k = true -> map_get k m = Some v ->
     k ∈ PEER_KEYS /\ v = peer /\ is_Some (method_of f)) /\
  (forall ps k, is_Some (method_of f) -> value_get "params" f = Some (VObject ps) -> k ∈ PEER_KEYS ->
     read_meta f k = Some peer).
Definition unattributed (f : Value) : Prop :=
  forall m k, frame_meta f = Some m -> reserved k = true -> map_get k m = None.

Lemma inject_frame_attributed f peer : unattributed f -> attributed peer (inject_frame f peer).
Proof.
  intros Hc. split.
  - intros m k v Hm Hk Hv. rewrite method_of_inject.
    destruct (inject_meta f peer m Hm) as [[_ Hf]|(Hmt & m0 & -> & Hm0)].
    { by rewrite (Hc m k Hf Hk) in Hv. }
    rewrite map_get_stamp in Hv. case_decide as Hin; [by injection Hv as <-|].
    destruct Hm0 as [Hm0| ->]; [by rewrite (Hc m0 k Hm0 Hk) in Hv|done].
  - intros ps k Hmt Hps Hk. rewrite method_of_inject in Hmt. unfold read_meta, meta_path, value_pointer. simpl.
    destruct (inject_frame_cases f peer) as [E|(top & m & ps0 & top' & -> & _ & _ & E & Hg)]; rewrite E in *.
    + exfalso. destruct f as [| | | | |top]; try done. unfold value_get in Hps. simpl in Hps.
      destruct Hmt as [s Hs]. unfold method_of, value_get in Hs. simpl in Hs, E.
      destruct (map_get "method" top) as [[| | |m| |]|]; try done. rewrite Hps in E.
      injection E as E. assert (Hx : map_get "params" top = Some (VObject (stamp_params peer ps))).
      { rewrite <- E at 1. by rewrite map_get_alter, decide_True, Hps. }
      rewrite Hx in Hps. injection Hps as Hps.
      (* a stamped params is only ever the original when it was stamped already *)
      assert (Hm : exists mm, map_get "_meta" ps = Some (VObject (stamp peer mm))).
      { rewrite <- Hps. unfold stamp_params. rewrite map_get_insert, decide_True by done. eauto. }
      destruct Hm as [mm Hmm]. assert (Hfm : frame_meta (VObject top) = Some (stamp peer mm)).
      { apply frame_meta_spec. exists top, ps. split_and!; try done. by rewrite Hx, Hps. }
      pose proof (Hc _ k Hfm (reserved_peer_keys k Hk)) as Hnone. by rewrite map_get_stamp, decide_True in Hnone.
    + unfold value_get. simpl. rewrite Hg, decide_True by done. simpl. unfold stamp_params.
      rewrite map_get_insert, decide_True by done. simpl. by rewrite map_get_stamp, decide_True.
Qed.

Lemma is_batch_inject f peer : is_batch f = false -> is_batch (inject_frame f peer) = false.
Proof.
  destruct (inject_frame_cases f peer) as [->|(? & ? & ? & ? & -> & _ & _ & -> & _)]; done.
Qed.

Lemma unwrap_inject v peer d n :
  d + n = MAX_BATCH_DEPTH ->
  unwrap n (inject_peer v peer d) = map (fun f => inject_frame f peer) (unwrap n v).
Proof.
  revert d n. induction v as [|b0|n0|s0|l IH|m0 _] using Value_ind'; intros d n Hd;
    try (cbn [inject_peer]; rewrite (unwrap_frame n (inject_frame _ _)) by (by apply is_batch_inject);
         rewrite unwrap_frame by done; done).
  cbn [inject_peer]. unfold MAX_BATCH_DEPTH in Hd. destruct n as [|n].
  - rewrite (proj2 (Nat.ltb_ge _ _)) by lia. done.
  - rewrite (proj2 (Nat.ltb_lt _ _)) by lia. cbn [unwrap].
    apply (bind_map_unwrap n (fun e => inject_peer e peer (S d))). eapply Forall_impl; [exact IH|].
    intros v Hv. apply Hv. unfold MAX_BATCH_DEPTH. lia.
Qed.

Lemma inject_attributed v peer :
  (forall f, f ∈ unwrap MAX_BATCH_DEPTH v -> unattributed f) ->
  forall f, f ∈ unwrap MAX_BATCH_DEPTH (inject_peer v peer 0) -> attributed peer f.
Proof.
  intros Hv f. rewrite unwrap_inject by done.
  intros Hf. apply list_elem_of_In, in_map_iff in Hf as (g & <- & Hg%list_elem_of_In).
  by apply inject_frame_attributed, Hv.
Qed.

(** After the two strips nothing reserved is left. *)
Lemma stripped_unattributed v f :
  f ∈ unwrap MAX_BATCH_DEPTH (strip_impersonating_client_info (strip_reserved_meta v)).1 -> unattributed f.
Proof.
  unfold strip_impersonating_client_info, strip_reserved_meta.
  rewrite (proj1 (unwrap_strip_info _ 0 MAX_BATCH_DEPTH eq_refl)), (unwrap_strip v 0 MAX_BATCH_DEPTH) by done.
  intros Hf m k. apply list_elem_of_In, in_map_iff in Hf as (g & <- & Hg).
  apply in_map_iff in Hg as (g0 & <- & _). rewrite strip_info_frame_meta, strip_frame_meta.
  intros (m1 & (m2 & _ & ->)%fmap_Some & ->)%fmap_Some Hk.
  destruct (impersonating _); rewrite ?map_get_remove, map_get_retain, Hk; simpl; [by case_decide|done].
Qed.

Lemma sanitized v peer_meta :
  forall f, f ∈ unwrap MAX_BATCH_DEPTH (sanitize_caller_frame v peer_meta).1 ->
    match peer_meta with Some peer => attributed peer f | None => unattributed f end.
Proof.
  intros f. unfold sanitize_caller_frame.
  pose proof (stripped_unattributed v) as Hs.
  destruct (strip_impersonating_client_info _) as [fr imp]. simpl in *.
  destruct peer_meta as [peer|]; [by apply inject_attributed|apply Hs].
Qed.

(** A value changed in its [_meta] only keeps its top-level keys. *)
Lemma value_get_on_meta k f v : k <> "params"%string -> value_get k (on_meta f v) = value_get k v.
Proof.
  intros Hk. unfold on_meta, meta_path, value_get. destruct v as [| | | | |m]; try done. simpl.
  by rewrite map_get_alter, decide_False.
Qed.

Lemma value_get_inject k v peer d : k <> "params"%string -> value_get k (inject_peer v peer d) = value_get k v.
Proof.
  intros Hk. assert (Hf : value_get k (inject_frame v peer) = value_get k v).
  { destruct (inject_frame_cases v peer) as [->|(? & ? & ? & ? & -> & _ & _ & -> & Hg)]; [done|].
    unfold value_get. simpl. by rewrite Hg, decide_False. }
  destruct v; try exact Hf. cbn [inject_peer]. by destruct (Nat.ltb d 8).
Qed.

Lemma value_get_sanitize k v peer_meta :
  k <> "params"%string -> value_get k (sanitize_caller_frame v peer_meta).1 = value_get k v.
Proof.
  intros Hk. unfold sanitize_caller_frame.
  assert (Hs : value_get k (strip_impersonating_client_info (strip_reserved_meta v)).1 = value_get k v).
  { unfold strip_reserved_meta, strip_impersonating_client_info. destruct v as [| | | |l|m]; try done.
    rewrite strip_to_depth_frame by done. rewrite strip_info_to_depth_frame by done.
    cbn [fst]. unfold strip_info_frame. destruct (frame_impersonates _); unfold strip_frame;
      by rewrite ?value_get_on_meta. }
  destruct (strip_impersonating_client_info _) as [fr imp]. simpl in *.
  destruct peer_meta; [by rewrite value_get_inject|done].
Qed.

Section properties.
Context `{T : TextEncoding, J : SerdeJson, B : Blake3, X : Blake3Hex, H : HashOrder}.

(** Every frame the server is sent is the first one or a sanitized one. *)
Lemma pump_frames endpoint peer_meta initialize limiter auditor events w :
  w ∈ pm_to_server (pump endpoint peer_meta initialize limiter auditor events) ->
  w = initialize \/ exists f, w = (sanitize_caller_frame f peer_meta).1.
Proof.
  unfold pump. assert (Hgen : forall st, (forall w, w ∈ pm_to_server st ->
      w = initialize \/ exists f, w = (sanitize_caller_frame f peer_meta).1) ->
    forall w, w ∈ pm_to_server (foldl (pump_event endpoint peer_meta) st events) ->
      w = initialize \/ exists f, w = (sanitize_caller_frame f peer_meta).1).
  { induction events as [|e events IH]; intros st Hst; [done|]. simpl. apply IH. intros x Hx.
    unfold pump_event in Hx. destruct (pm_ended st); [by apply Hst|].
    destruct e as [ts now [f ok|]|ts now [f ok|]]; try (by apply Hst).
    - destruct (pm_server_write st); [|by apply Hst]. unfold to_server_turn in Hx.
      pose proof (surjective_pairing (sanitize_caller_frame f peer_meta)) as E.
      destruct (sanitize_caller_frame f peer_meta) as [fr imp] eqn:Ef.
      destruct (match value_get "method" fr with Some _ => _ | None => _ end) as [[u|e] l].
      + destruct (on_request ts now fr (pm_auditor st)) as [recs a]. simpl in Hx.
        destruct ok; [|by apply Hst]. apply elem_of_app in Hx as [Hx|Hx]; [by apply Hst|].
        apply list_elem_of_singleton in Hx as ->. right. exists f. by rewrite Ef.
      + destruct (request_id fr); [by apply Hst|]. destruct (on_dropped ts fr (pm_auditor st)). by apply Hst.
    - unfold to_transport_turn in Hx. destruct (on_response _ _ _ _ _). by apply Hst. }
  apply (Hgen (start_pump initialize limiter auditor)). simpl. intros x Hx.
  left. by apply list_elem_of_singleton in Hx.
Qed.

(** C5: over a whole session, whatever the caller sends and however the two directions
    interleave, no frame a socket server could unwrap carries a reserved key except the peer
    keys of a request, and those hold the identity the gate resolved, whole; every request
    whose params can hold [_meta] carries it; and a spawned server, told who calls by its
    environment, sees no reserved key at all. *)
Theorem backend_identity_authentic service identity init allowed limiter events :
  let initialize := (select_service init allowed).1 in
  (forall w f, w ∈ pm_to_server (socket_run_over service identity initialize limiter events) ->
     f ∈ unwrap MAX_BATCH_DEPTH w ->
     match identity with
     | Some id => attributed (peer_meta_value id) f
     | None => unattributed f
     end) /\
  (forall cmd env cwd inherited permits spawned child st w f,
     spawn_run_over cmd env cwd inherited service permits spawned identity initialize limiter events = Ran child st ->
     w ∈ pm_to_server st -> f ∈ unwrap MAX_BATCH_DEPTH w -> unattributed f).
Proof.
  intros initialize. assert (Hinit : forall f, f ∈ unwrap MAX_BATCH_DEPTH initialize -> unattributed f)
    by apply stripped_unattributed. split.
  - unfold socket_run_over. intros w f Hw Hf. apply pump_frames in Hw as [->|[g ->]].
    + destruct identity as [id|]; [by apply (inject_attributed initialize)|by apply Hinit].
    + apply sanitized in Hf. by destruct identity.
  - unfold spawn_run_over. intros cmd env cwd inherited [|permits] spawned child st w f; [done|].
    destruct cmd as [|program args]; [done|]. destruct spawned; [|done]. intros [= _ <-] Hw Hf.
    apply pump_frames in Hw as [->|[g ->]]; [by apply Hinit|]. by apply sanitized in Hf.
Qed.

(** ** The environment of a spawned server *)

Lemma peer_vars_ours k : k ∈ PEER_VARS -> starts_with "MCPMESH_" (to_ascii_uppercase k) = true.
Proof.
  unfold PEER_VARS. intros Hk. repeat (apply elem_of_cons in Hk as [->|Hk]; [reflexivity|]).
  by apply not_elem_of_nil in Hk.
Qed.

Lemma identity_env_ours identity k : is_Some (identity_env identity !! k) -> k ∈ PEER_VARS.
Proof.
  unfold identity_env, PEER_VARS. destruct identity as [id|].
  2: { intros [v Hv]. by rewrite lookup_empty in Hv. }
  rewrite !lookup_insert_is_Some. intros [<-|[_ [<-|[_ [<-|[_ Hk]]]]]]; [set_solver..|].
  destruct (id_user_id id) as [u|].
  - apply lookup_singleton_is_Some in Hk as <-. set_solver.
  - destruct Hk as [v Hv]. by rewrite lookup_empty in Hv.
Qed.

(** A spawned server's identity variables are exactly those of the caller the gate
    resolved, absent when it resolved none: neither the service's own environment nor the
    daemon's can set one.  No other variable of our prefix comes from the service, in any
    letter case; the rest is the service's over the inherited. *)
Theorem spawn_env_authentic inherited service_env identity k :
  let env := child_env inherited service_env identity in
  (k ∈ PEER_VARS -> env !! k = identity_env identity !! k) /\
  (k ∉ PEER_VARS -> starts_with "MCPMESH_" (to_ascii_uppercase k) = true -> env !! k = inherited !! k) /\
  (starts_with "MCPMESH_" (to_ascii_uppercase k) = false ->
     env !! k = match service_env !! k with Some v => Some v | None => inherited !! k end).
Proof.
  intros env. unfold env, child_env. clear env.
  set (ours := filter _ service_env).
  assert (Hours : forall k, ours !! k =
    if starts_with "MCPMESH_" (to_ascii_uppercase k) then None else service_env !! k).
  { intros k'. unfold ours. destruct (starts_with _ _) eqn:E.
    - apply map_lookup_filter_None. right. simpl. congruence.
    - rewrite map_lookup_filter. destruct (service_env !! k'); simpl; [|done]. by rewrite option_guard_True. }
  assert (Hrest : forall k, k ∉ PEER_VARS ->
    (identity_env identity ∪ filter (fun kv => kv.1 ∉ PEER_VARS) (ours ∪ inherited)) !! k =
      (ours ∪ inherited) !! k).
  { intros k' Hk'. rewrite lookup_union_r.
    - rewrite map_lookup_filter. destruct ((ours ∪ inherited) !! k'); simpl; [|done]. by rewrite option_guard_True.
    - apply eq_None_not_Some. intros Hs. by apply identity_env_ours in Hs. }
  split_and!.
  - intros Hk. apply lookup_union_l, map_lookup_filter_None. right. intros v _ Hn. by apply Hn.
  - intros Hk Hp. rewrite Hrest, lookup_union_r by (done || by rewrite Hours, Hp). done.
  - intros Hp. assert (Hk : k ∉ PEER_VARS) by (intros Hk%peer_vars_ours; congruence).
    rewrite Hrest by done. rewrite lookup_union, Hours, Hp.
    by destruct (service_env !! k), (inherited !! k).
Qed.

(** ** Metering *)

Definition inbound (ts : string) (now : Instant) (frame : Value) : PumpEvent :=
  Inbound ts now (PeerFrame frame true).

Lemma checks_fst n endpoint now l :
  (checks (S n) endpoint now l).1 =
    is_ok (check endpoint now l).1 :: (checks n endpoint now (check endpoint now l).2).1.
Proof. simpl. destruct (check endpoint now l) as [r l']. simpl. by destruct (checks n endpoint now l'). Qed.

(** What a run of method-bearing frames at one instant does is read off the limiter's
    answers. *)
Lemma pump_metered eid peer_meta ts now frames st :
  Forall (fun f => is_Some (value_get "method" f)) frames ->
  pm_ended st = false -> pm_server_write st = true ->
  let verdicts := (checks (length frames) eid now (pm_limiter st)).1 in
  let st' := foldl (pump_event (Some eid) peer_meta) st (inbound ts now <$> frames) in
  pm_to_server st' = pm_to_server st ++
    ((fun f => (sanitize_caller_frame f peer_meta).1) <$> omap (fun vf : bool * Value => if vf.1 then Some vf.2 else None) (zip verdicts frames)) /\
  value_get "id" <$> pm_to_peer st' = (value_get "id" <$> pm_to_peer st) ++
    (Some <$> omap (fun vf : bool * Value => if vf.1 then None else request_id vf.2) (zip verdicts frames)).
Proof.
  intros Hm. revert st. induction Hm as [|f frames Hf _ IH]; intros st Hend Hw.
  { simpl. by rewrite !app_nil_r. }
  cbn [length]. rewrite checks_fst. rewrite (fmap_cons (inbound ts now)). cbn [foldl zip_with].
  unfold pump_event at 2 4. rewrite Hend, Hw. unfold inbound, to_server_turn.
  pose proof (value_get_sanitize "method" f peer_meta ltac:(done)) as Hmf.
  pose proof (value_get_sanitize "id" f peer_meta ltac:(done)) as Hid.
  destruct (sanitize_caller_frame f peer_meta) as [g imp] eqn:Hg. cbn [fst] in Hmf, Hid.
  destruct Hf as [m Hf]. rewrite Hmf, Hf. cbn [admit_at].
  destruct (check eid now (pm_limiter st)) as [[u|e] l] eqn:Hc; cbn [fst snd is_ok omap list_omap].
  - destruct (on_request ts now g (pm_auditor st)) as [recs a].
    match goal with |- context [foldl _ ?s _] => pose proof (IH s ltac:(done) ltac:(done)) as [H1 H2] end.
    unfold inbound in H1, H2.
    rewrite H1, H2. cbn [pm_to_server pm_to_peer pm_limiter].
    rewrite <- app_assoc. by rewrite fmap_cons, Hg.
  - assert (Hreq : request_id g = request_id f) by (unfold request_id; by rewrite Hid).
    rewrite Hreq. destruct (request_id f) as [id|].
    + match goal with |- context [foldl _ ?s _] => pose proof (IH s ltac:(done) ltac:(done)) as [H1 H2] end.
    unfold inbound in H1, H2.
    rewrite H1, H2. cbn [pm_to_server pm_to_peer pm_limiter].
      rewrite fmap_app, <- app_assoc. done.
    + destruct (on_dropped ts g (pm_auditor st)) as [recs a].
      match goal with |- context [foldl _ ?s _] => pose proof (IH s ltac:(done) ltac:(done)) as [H1 H2] end.
    unfold inbound in H1, H2.
      by rewrite H1, H2.
Qed.

Lemma omap_id_Some {P} (l : list P) : omap Some l = l.
Proof. induction l as [|x l IH]; simpl; [done|by f_equal]. Qed.

Lemma zip_grants {P Q} (g : P -> option Q) k (l : list P) :
  omap (fun vf : bool * P => if vf.1 then g vf.2 else None) (zip (grants (length l) k) l) = omap g (take k l) /\
  omap (fun vf : bool * P => if vf.1 then None else g vf.2) (zip (grants (length l) k) l) = omap g (drop k l).
Proof.
  revert k. induction l as [|a l IH]; intros [|k]; try done; cbn [length].
  - rewrite grants_0. cbn [replicate zip_with omap list_omap fst snd take drop].
    destruct (IH 0) as [H1 H2]. rewrite grants_0 in H1, H2. rewrite take_0 in H1. rewrite drop_0 in H2.
    split; [done|]. by destruct (g a); rewrite H2.
  - rewrite grants_S. cbn [zip_with omap list_omap fst snd take drop]. destruct (IH k) as [H1 H2].
    split; [|done]. by destruct (g a); rewrite H1.
Qed.

(** Of the requests and notifications an endpoint sends at one instant, to a service
    whose limiter has not seen it, exactly the burst reaches the server, in order and
    sanitized; each further request is answered with a rate-limit error under its own id and
    each further notification gets no answer. *)
Theorem pump_burst eid peer_meta ts now frames initialize rate burst buckets auditor :
  (0 <= rate <= u32_max)%Z -> (0 <= burst <= u32_max)%Z -> buckets !! eid = None ->
  Forall (fun f => is_Some (value_get "method" f)) frames ->
  let limiter := set_buckets (per_minute rate burst) buckets in
  let st := pump (Some eid) peer_meta initialize limiter auditor (inbound ts now <$> frames) in
  let k := Z.to_nat (Z.max burst 1) in
  pm_to_server st = initialize :: ((fun f => (sanitize_caller_frame f peer_meta).1) <$> take k frames) /\
  value_get "id" <$> pm_to_peer st = Some <$> omap request_id (drop k frames).
Proof.
  intros Hr Hb Hnew Hm limiter st k.
  destruct (pump_metered eid peer_meta ts now frames (start_pump initialize limiter auditor) Hm eq_refl eq_refl)
    as [H1 H2].
  unfold st, pump. rewrite H1, H2. cbn [pm_limiter start_pump pm_to_server pm_to_peer].
  pose proof (checks_grants (length frames) eid now rate burst buckets Hr Hb Hnew) as Hg.
  unfold limiter. rewrite Hg. fold k.
  rewrite (proj1 (zip_grants Some k frames)), (proj2 (zip_grants request_id k frames)).
  by rewrite omap_id_Some.
Qed.

(** A frame that is a batch is forwarded whatever the limiter holds: a burst of any
    length, of batches of any number of requests, reaches the server whole and leaves the
    limiter, the audit records and the requests the auditor waits for as they were. *)
Theorem batch_unmetered endpoint peer_meta ts now batches initialize limiter auditor :
  let st := pump endpoint peer_meta initialize limiter auditor
              ((fun b => inbound ts now (VArray b)) <$> batches) in
  pm_to_server st = initialize :: ((fun b => (sanitize_caller_frame (VArray b) peer_meta).1) <$> batches) /\
  pm_limiter st = limiter /\ pm_records st = [] /\ ra_pending (pm_auditor st) = ra_pending auditor.
Proof.
  intros st. unfold st, pump.
  assert (Hgen : forall st0, pm_ended st0 = false -> pm_server_write st0 = true ->
    let st := foldl (pump_event endpoint peer_meta) st0 ((fun b => inbound ts now (VArray b)) <$> batches) in
    pm_to_server st = pm_to_server st0 ++ ((fun b => (sanitize_caller_frame (VArray b) peer_meta).1) <$> batches) /\
    pm_limiter st = pm_limiter st0 /\ pm_records st = pm_records st0 /\
    ra_pending (pm_auditor st) = ra_pending (pm_auditor st0)).
  { induction batches as [|b batches IH]; intros st0 He Hw; [by rewrite app_nil_r|].
    rewrite !fmap_cons. cbn [foldl]. unfold pump_event at 2 4 6 8. rewrite He, Hw. cbn [inbound].
    unfold to_server_turn. pose proof (value_get_sanitize "method" (VArray b) peer_meta ltac:(done)) as Hm.
    destruct (sanitize_caller_frame (VArray b) peer_meta) as [g imp]. cbn [fst] in *. rewrite Hm.
    change (value_get "method" (VArray b)) with (@None Value). cbn [on_request].
    unfold on_request, method_of. rewrite Hm. cbn [mbind option_bind value_get as_object].
    match goal with |- context [foldl _ ?s _] =>
      pose proof (IH s ltac:(done) ltac:(done)) as (H1 & H2 & H3 & H4) end.
    split_and!; [|etrans; [eassumption|]..]; [|done|apply app_nil_r|done].
    rewrite H1. cbn [pm_to_server]. by rewrite <- app_assoc. }
  apply (Hgen (start_pump initialize limiter auditor)); done.
Qed.

(** ** The digest of what the caller sent *)

Lemma map_retain_stamp peer m :
  map_retain (fun k => negb (reserved k)) (stamp peer m) = map_retain (fun k => negb (reserved k)) m.
Proof. unfold stamp, PEER_KEYS. cbn [foldl]. by rewrite !map_retain_insert. Qed.

(** What the digest is taken of, of stamped params: what the caller's params keep. *)
Definition caller_params (params : Map) : Map :=
  let kept := match map_get "_meta" params with
              | Some (VObject m) => map_retain (fun k => negb (reserved k)) m
              | _ => []
              end in
  if bool_decide (kept = []) then map_remove "_meta" params else map_insert "_meta" (VObject kept) params.

Lemma own_params_stamped peer params :
  own_params (VObject (stamp_params peer params)) = VObject (caller_params params).
Proof.
  unfold own_params, stamp_params, caller_params. unfold value_get at 1. cbn [as_object mbind option_bind].
  rewrite map_get_insert, decide_True by done. cbn [as_object mbind option_bind].
  set (m := match map_get "_meta" params with Some (VObject m) => m | _ => [] end).
  assert (Hres : existsb reserved (map fst (stamp peer m)) = true).
  { apply existsb_exists. exists "mcpmesh/peer"%string. split; [|done]. apply list_elem_of_In.
    destruct (decide ("mcpmesh/peer"%string ∈ map fst (stamp peer m))) as [?|Hn]; [done|exfalso].
    apply map_get_None in Hn. rewrite map_get_stamp, decide_True in Hn; [done|]. unfold PEER_KEYS. set_solver. }
  rewrite Hres, map_retain_stamp.
  assert (Hm : map_retain (fun k => negb (reserved k)) m =
    match map_get "_meta" params with Some (VObject m) => map_retain (fun k => negb (reserved k)) m | _ => [] end).
  { unfold m. by destruct (map_get "_meta" params) as [[]|]. }
  rewrite <- Hm. case_bool_decide.
  - by rewrite map_remove_insert.
  - by rewrite map_alter_insert.
Qed.

Lemma params_inject f peer :
  inject_frame f peer = f \/
  exists ps, (params_of f = VObject ps \/ params_of f = VNull /\ ps = []) /\
    forall peer', params_of (inject_frame f peer') = VObject (stamp_params peer' ps).
Proof.
  destruct f as [| | | | |top]; try by left. unfold params_of, value_get. cbn [inject_frame as_object mbind option_bind].
  destruct (map_get "method" top) as [[| | |m| |]|] eqn:Hm; try by left.
  destruct (map_get "params" top) as [[| | | | |ps]|] eqn:Hp; try (by left);
    right; eexists; (split; [by eauto|]); intros peer'; cbn [as_object mbind option_bind];
    rewrite ?map_get_insert, ?map_get_alter, ?decide_True by done; try done.
  by rewrite Hp.
Qed.

(** The digest an audit record holds of a request does not depend on the identity the
    backend stamped on it; params without a [_meta] hash to what the caller sent; but a
    request the caller sent without params is recorded with the digest of an empty object. *)
Theorem digest_ignores_identity f peer peer' ps :
  args_hash (params_of (inject_frame f peer)) = args_hash (params_of (inject_frame f peer')) /\
  (params_of f = VObject ps -> map_get "_meta" ps = None ->
     args_hash (params_of (inject_frame f peer)) = args_hash (params_of f)) /\
  (is_Some (method_of f) -> is_Some (as_object f) -> params_of f = VNull ->
     args_hash (params_of (inject_frame f peer)) = args_hash empty_object /\
     args_hash (params_of f) = ("blake3:" +:+ to_hex (blake3 (json_to_vec VNull)))%string).
Proof.
  unfold args_hash. split_and!.
  - destruct (params_inject f peer) as [E|(ps' & _ & Hps)].
    + destruct (params_inject f peer') as [E'|(ps' & _ & Hps)]; [by rewrite E, E'|].
      by rewrite !Hps, !own_params_stamped.
    + by rewrite !Hps, !own_params_stamped.
  - intros Hf Hnone. destruct (params_inject f peer) as [->|(ps' & Hps & Hi)]; [done|].
    rewrite Hi, own_params_stamped, Hf. destruct Hps as [Hps|[Hps _]]; rewrite Hf in Hps; [|done].
    injection Hps as <-. unfold caller_params, own_params, value_get. simpl. rewrite Hnone. simpl.
    by rewrite map_remove_absent.
  - intros Hm Ho Hn. split; [|by rewrite Hn].
    destruct (params_inject f peer) as [E|(ps' & Hps & Hi)].
    + exfalso. destruct f as [| | | | |top]; try by destruct Ho. destruct Hm as [s Hm].
      unfold method_of, params_of, value_get in *. simpl in *.
      destruct (map_get "method" top) as [[]|]; try done.
      destruct (map_get "params" top) as [[]|] eqn:Ep; try done; injection E as E;
        apply (f_equal (map_get "params")) in E; rewrite map_get_insert, decide_True, Ep in E by done; done.
    + rewrite Hi, own_params_stamped. destruct Hps as [Hps|[_ ->]]; [by rewrite Hn in Hps|]. done.
Qed.
End properties.

Module Witness.
Import Externals.Toy Limits.Witness Auditor.Witness.

(** Three pings at once against a burst of two: the third is refused under its id. *)
Lemma pump_burst_witness :
  let st := pump (Some alice) None VNull (set_buckets (per_minute 60 2) ∅)
              (new_auditor None "notes" None) (inbound "t0" 5%Z <$> [ping_frame; ping_frame; ping_frame]) in
  pm_to_server st = VNull ::
    ((fun f => (sanitize_caller_frame f None).1) <$> [ping_frame; ping_frame]) /\
  value_get "id" <$> pm_to_peer st = [Some (VNumber (NInt 1))].
Proof.
  apply (pump_burst alice None "t0" 5%Z [ping_frame; ping_frame; ping_frame] VNull 60 2 ∅
    (new_auditor None "notes" None)).
  - unfold u32_max; lia.
  - unfold u32_max; lia.
  - apply lookup_empty.
  - repeat constructor; by eexists.
Defined.
End Witness.
