(* ===== verification/Registry.v ===== *)
(** * The live-connection registry

    [net/src/registry.rs]: checked registration, the promotion of the roster
    discriminator, the principals live sessions were admitted as, and the two severing
    operations; [node/src/daemon/sever.rs]: the endpoints a principal names.

    Every operation here runs under the registry mutex, so each is one atomic step; the
    predicate a caller passes is evaluated inside it. *)
From stdpp Require Import base list gmap strings.
From Stdlib Require Import ZArith Lia Strings.Byte.
From S2P Require Import Prelude Bytes Externals Validate Identity Allowlist.

(** One tracked connection.  [t_conn] names the transport connection it is a handle of. *)
Record Tracked := {
  t_endpoint_id : EndpointId;
  t_roster_user : option string;
  t_admitted : gmap string nat;
  t_conn : N }.

Record ConnRegistry := {
  reg_inner : gmap N Tracked;
  reg_seq : N }.

Definition new_registry : ConnRegistry := {| reg_inner := ∅; reg_seq := 0 |}.

Definition set_inner (m : gmap N Tracked) (r : ConnRegistry) : ConnRegistry :=
  {| reg_inner := m; reg_seq := reg_seq r |}.

(** The sever decision of a roster install. *)
Definition should_sever (endpoint_id : EndpointId) (roster_user : option string)
    (revoked active_devices : gset EndpointId) : bool :=
  bool_decide (endpoint_id ∈ revoked)
  || (bool_decide (is_Some roster_user) && negb (bool_decide (endpoint_id ∈ active_devices))).

(** The counter is a [u64]. *)
Definition next_seq (n : N) : N := ((n + 1) mod 2 ^ 64)%N.

Definition register_checked (conn : N) (endpoint_id : EndpointId) (roster_user : option string)
    (should_sever_now : EndpointId -> bool) (r : ConnRegistry) : option (N * ConnRegistry) :=
  if should_sever_now endpoint_id then None
  else
    let id := reg_seq r in
    Some (id, {| reg_inner := <[id := {| t_endpoint_id := endpoint_id;
                                         t_roster_user := roster_user;
                                         t_admitted := ∅; t_conn := conn |}]> (reg_inner r);
                 reg_seq := next_seq id |}).

(** [Registration::drop]. *)
Definition deregister (id : N) (r : ConnRegistry) : ConnRegistry :=
  set_inner (delete id (reg_inner r)) r.

Definition set_roster_user (user : option string) (t : Tracked) : Tracked :=
  {| t_endpoint_id := t_endpoint_id t; t_roster_user := user; t_admitted := t_admitted t;
     t_conn := t_conn t |}.
Definition set_admitted (m : gmap string nat) (t : Tracked) : Tracked :=
  {| t_endpoint_id := t_endpoint_id t; t_roster_user := t_roster_user t; t_admitted := m;
     t_conn := t_conn t |}.

(** [ConnTracker::admit_roster_user]: the answer, the tracker's [promoted] flag and the
    registry after it. *)
Definition admit_roster_user (id : N) (promoted : bool) (roster_user : option string)
    (should_sever_now : EndpointId -> bool) (r : ConnRegistry) : bool * bool * ConnRegistry :=
  match roster_user with
  | None => (true, promoted, r)
  | Some user =>
      if promoted then (true, promoted, r)
      else
        match reg_inner r !! id with
        | None => (false, promoted, r)
        | Some tracked =>
            if should_sever_now (t_endpoint_id tracked) then (false, promoted, r)
            else (true, true,
                  set_inner (<[id := set_roster_user (Some user) tracked]> (reg_inner r)) r)
        end
  end.

(** [*entry(p).or_insert(0) += 1] and the decrement of [AdmittedSession::drop]. *)
Definition bump (m : gmap string nat) (p : string) : gmap string nat :=
  <[p := S (default 0 (m !! p))]> m.
Definition unbump (m : gmap string nat) (p : string) : gmap string nat :=
  match m !! p with
  | Some n => let n := n - 1 in if Nat.eqb n 0 then delete p m else <[p := n]> m
  | None => m
  end.

(** [ConnTracker::admit_session]: the new registry, or a refusal. *)
Definition admit_session (id : N) (principals : list string) (still_admitted : bool)
    (r : ConnRegistry) : option ConnRegistry :=
  tracked ← reg_inner r !! id;
  if still_admitted then
    Some (set_inner (<[id := set_admitted (foldl bump (t_admitted tracked) principals) tracked]>
                       (reg_inner r)) r)
  else None.

(** [AdmittedSession::drop]. *)
Definition drop_session (id : N) (principals : list string) (r : ConnRegistry) : ConnRegistry :=
  match reg_inner r !! id with
  | None => r
  | Some tracked =>
      set_inner (<[id := set_admitted (foldl unbump (t_admitted tracked) principals) tracked]>
                   (reg_inner r)) r
  end.

(** The connections the two severing operations close; the count returned is its length. *)
Definition sever_matching (p : EndpointId -> option string -> bool) (r : ConnRegistry) : list N :=
  omap (fun kt => if p (t_endpoint_id kt.2) (t_roster_user kt.2) then Some (t_conn kt.2) else None)
    (map_to_list (reg_inner r)).

Definition sever_matching_admitted (endpoints : EndpointId -> bool) (principals : string -> bool)
    (r : ConnRegistry) : list N :=
  omap (fun kt =>
          if endpoints (t_endpoint_id kt.2)
             || existsb (fun kn => principals kn.1) (map_to_list (t_admitted kt.2))
          then Some (t_conn kt.2) else None)
    (map_to_list (reg_inner r)).

Definition registry_len (r : ConnRegistry) : nat := size (reg_inner r).

(** ** The endpoints a principal names *)
Section endpoints.
Context `{T : TextEncoding, R : RowCodec}.

Definition endpoints_for_principal (io : Io) (store : PeerStore) (roster : option RosterView)
    (p : string) : result string (gset EndpointId) :=
  peers ← list_peers io store;
  let out := foldl (fun out entry =>
      let eid := pe_endpoint_id entry in
      if bool_decide (principal eid = p) || bool_decide (pe_user_id entry = Some p)
      then {[eid]} ∪ out else out) (∅ : gset EndpointId) peers in
  Ok match roster with
     | None => out
     | Some view =>
         foldl (fun out kd =>
           let eid := kd.1 in
           if bool_decide (principal eid = p) || bool_decide (rd_user_id kd.2 = p)
              || existsb (fun g => bool_decide (g = p)) (rd_groups kd.2)
           then {[eid]} ∪ out else out) out (map_to_list (v_devices view))
     end.

Lemma elem_of_fold_if {A} (b : A -> bool) (f : A -> EndpointId) (l : list A) (s : gset EndpointId) e :
  e ∈ foldl (fun out a => if b a then {[f a]} ∪ out else out) s l <->
  e ∈ s \/ exists a, a ∈ l /\ b a = true /\ e = f a.
Proof.
  revert s; induction l as [|a l IH]; intros s; simpl.
  - split; [by left|]. intros [?|(a & Ha & _)]; [done|]. by apply elem_of_nil in Ha.
  - rewrite IH. destruct (b a) eqn:Hb.
    + rewrite elem_of_union, elem_of_singleton. split.
      * intros [[->|?]|(c & ? & ? & ?)]; [right; exists a; split; [left|done]|by left|].
        right; exists c. split; [by right|done].
      * intros [?|(c & Hc & ? & ->)]; [by left; right|].
        apply elem_of_cons in Hc as [->|Hc]; [by left; left|right; eauto].
    + split; intros [?|(c & Hc & ? & ->)]; [by left|right; exists c; split; [by right|done]|by left|].
      apply elem_of_cons in Hc as [->|Hc]; [congruence|right; eauto].
Qed.

(** The endpoints whose stored row, or roster device, the principal names. *)
Lemma elem_of_endpoints_for_principal io store roster p s e :
  endpoints_for_principal io store roster p = Ok s ->
  e ∈ s <->
  (exists k raw pe, t_peers store !! k = Some raw /\ peer_from_slice raw = Some pe /\
     pe_endpoint_id pe = e /\ (principal e = p \/ pe_user_id pe = Some p)) \/
  (exists v rd, roster = Some v /\ v_devices v !! e = Some rd /\
     (principal e = p \/ rd_user_id rd = p \/ p ∈ rd_groups rd)).
Proof.
  unfold endpoints_for_principal, list_peers. intros H. inv_result.
  set (out := foldl _ ∅ _).
  assert (Hout : e ∈ out <-> exists k raw pe, t_peers store !! k = Some raw /\
    peer_from_slice raw = Some pe /\ pe_endpoint_id pe = e /\
    (principal e = p \/ pe_user_id pe = Some p)).
  { unfold out. rewrite (elem_of_fold_if (fun pe => bool_decide (principal (pe_endpoint_id pe) = p)
      || bool_decide (pe_user_id pe = Some p)) pe_endpoint_id).
    setoid_rewrite list_elem_of_omap. setoid_rewrite orb_true_iff.
    setoid_rewrite bool_decide_eq_true. split.
    - intros [?|(pe & ([k raw] & Hin%elem_of_rows & Hp) & Hn & ->)]; [set_solver|]. eauto 10.
    - intros (k & raw & pe & Hk & Hp & <- & Hn). right. exists pe. split; [|done].
      exists (k, raw). by rewrite elem_of_rows. }
  rewrite <- Hout. clear Hout. destruct roster as [v|].
  - rewrite (elem_of_fold_if (fun kd => bool_decide (principal kd.1 = p)
      || bool_decide (rd_user_id kd.2 = p) || existsb (fun g => bool_decide (g = p)) (rd_groups kd.2))
      fst).
    setoid_rewrite orb_true_iff. setoid_rewrite orb_true_iff. setoid_rewrite bool_decide_eq_true.
    assert (Hg : forall gs, existsb (fun g => bool_decide (g = p)) gs = true <-> p ∈ gs).
    { intros gs. rewrite existsb_elem. setoid_rewrite bool_decide_eq_true. split.
      - by intros (g & ? & <-).
      - intros ?. by exists p. }
    setoid_rewrite Hg. split.
    + intros [?|([k rd] & Hin%elem_of_map_to_list & Hn & ->)]; [by left|right]. simpl in *.
      exists v, rd. tauto.
    + intros [?|(v' & rd & [= <-] & Hin & Hn)]; [by left|right].
      exists (e, rd). rewrite elem_of_map_to_list. simpl. tauto.
  - split; [by left|]. by intros [?|(v & rd & ? & _)].
Qed.
End endpoints.

(** ** Lemmas *)

Lemma elem_of_sever_matching p r c :
  c ∈ sever_matching p r <->
  exists id t, reg_inner r !! id = Some t /\ p (t_endpoint_id t) (t_roster_user t) = true /\
    c = t_conn t.
Proof.
  unfold sever_matching. rewrite list_elem_of_omap. split.
  - intros ([id t] & Hin%elem_of_map_to_list & H). simpl in H. case_match; simplify_eq. eauto.
  - intros (id & t & ? & Hp & ->). exists (id, t). rewrite elem_of_map_to_list. simpl. by rewrite Hp.
Qed.

Lemma elem_of_sever_matching_admitted ends ps r c :
  c ∈ sever_matching_admitted ends ps r <->
  exists id t, reg_inner r !! id = Some t /\ c = t_conn t /\
    (ends (t_endpoint_id t) = true \/
     exists p n, t_admitted t !! p = Some n /\ ps p = true).
Proof.
  unfold sever_matching_admitted. rewrite list_elem_of_omap.
  assert (Hex : forall t, existsb (fun kn => ps kn.1) (map_to_list (t_admitted t)) = true <->
    exists p n, t_admitted t !! p = Some n /\ ps p = true).
  { intros t. rewrite existsb_elem. split.
    - intros ([p n] & Hin%elem_of_map_to_list & ?). eauto.
    - intros (p & n & ? & ?). exists (p, n). by rewrite elem_of_map_to_list. }
  split.
  - intros ([id t] & Hin%elem_of_map_to_list & H). simpl in H. case_match eqn:Hc; simplify_eq.
    exists id, t. split_and!; [done..|]. apply orb_true_iff in Hc as [?|?]; [by left|right].
    by apply Hex.
  - intros (id & t & ? & -> & H). exists (id, t). rewrite elem_of_map_to_list. simpl.
    split; [done|]. replace (_ || _) with true; [done|]. symmetry. apply orb_true_iff.
    destruct H as [?|?]; [by left|right]. by apply Hex.
Qed.

(** The number of times [p] occurs among the principals of live sessions. *)
Definition occurrences (p : string) (l : list string) : nat :=
  length (filter (fun q => q = p) l).

Lemma occurrences_cons p q l :
  occurrences p (q :: l) = (if decide (q = p) then 1 else 0) + occurrences p l.
Proof. unfold occurrences. rewrite filter_cons. by case_decide. Qed.

Lemma occurrences_app p l1 l2 : occurrences p (l1 ++ l2) = occurrences p l1 + occurrences p l2.
Proof. unfold occurrences. by rewrite filter_app, length_app. Qed.

Lemma occurrences_elem p l : p ∈ l -> 0 < occurrences p l.
Proof.
  intros H. unfold occurrences.
  assert (p ∈ filter (fun q => q = p) l) as Hin by (by apply list_elem_of_filter).
  destruct (filter _ l); [by apply elem_of_nil in Hin|simpl; lia].
Qed.

(** A count map: no zero entries. *)
Definition counts (m : gmap string nat) (f : string -> nat) : Prop :=
  forall p, m !! p = if decide (f p = 0) then None else Some (f p).

Lemma counts_bumps m f l :
  counts m f -> counts (foldl bump m l) (fun p => f p + occurrences p l).
Proof.
  revert m f; induction l as [|q l IH]; intros m f Hm; simpl.
  - intros p. unfold occurrences. simpl. by rewrite Nat.add_0_r.
  - intros p. assert (counts (bump m q) (fun p => f p + if decide (q = p) then 1 else 0)) as Hb.
    { intros p'. unfold bump. destruct (decide (q = p')) as [->|Hne].
      - rewrite lookup_insert_eq, (Hm p'). rewrite (decide_False (P := f p' + 1 = 0)) by lia.
        destruct (decide (f p' = 0)) as [->|?]; simpl; f_equal; lia.
      - rewrite lookup_insert_ne by done. by rewrite Nat.add_0_r, (Hm p'). }
    rewrite (IH _ _ Hb p), occurrences_cons, Nat.add_assoc. done.
Qed.

Lemma counts_unbumps m f l :
  counts m (fun p => f p + occurrences p l) -> counts (foldl unbump m l) f.
Proof.
  revert m; induction l as [|q l IH]; intros m Hm; simpl.
  - intros p. rewrite (Hm p). unfold occurrences. simpl. by rewrite Nat.add_0_r.
  - apply IH. intros p. pose proof (Hm p) as Hp. pose proof (Hm q) as Hq.
    cbn beta in Hp, Hq. rewrite occurrences_cons in Hp, Hq. unfold unbump.
    rewrite (decide_True (P := q = q)) in Hq by done.
    rewrite decide_False in Hq by lia. rewrite Hq.
    destruct (Nat.eqb_spec (f q + (1 + occurrences q l) - 1) 0) as [He|He];
      destruct (decide (q = p)) as [<-|Hne].
    + rewrite lookup_delete_eq. by rewrite decide_True by lia.
    + by rewrite lookup_delete_ne.
    + rewrite lookup_insert_eq, decide_False by lia. f_equal. lia.
    + by rewrite lookup_insert_ne.
Qed.

(** *** Entries after each operation *)

Lemma register_checked_Some conn e ru ssn r id r' :
  register_checked conn e ru ssn r = Some (id, r') ->
  ssn e = false /\ id = reg_seq r /\ reg_seq r' = next_seq (reg_seq r) /\
  reg_inner r' = <[id := {| t_endpoint_id := e; t_roster_user := ru; t_admitted := ∅;
                            t_conn := conn |}]> (reg_inner r).
Proof. unfold register_checked. destruct (ssn e); [done|]. by intros [= <- <-]. Qed.

(** The entries a promotion can change: one discriminator, after a recheck. *)
Lemma admit_roster_user_lookup id f ru ssn r b f' r' id' t' :
  admit_roster_user id f ru ssn r = (b, f', r') -> reg_inner r' !! id' = Some t' ->
  exists t, reg_inner r !! id' = Some t /\ t_conn t' = t_conn t /\
    t_endpoint_id t' = t_endpoint_id t /\ t_admitted t' = t_admitted t /\
    (t_roster_user t' = t_roster_user t \/
     t_roster_user t' = ru /\ ssn (t_endpoint_id t) = false).
Proof.
  unfold admit_roster_user. destruct ru as [user|].
  2: { intros [= <- <- <-] ?. exists t'. naive_solver. }
  destruct f; [intros [= <- <- <-] ?; exists t'; naive_solver|].
  destruct (reg_inner r !! id) as [t|] eqn:Ht; [|intros [= <- <- <-] ?; exists t'; naive_solver].
  destruct (ssn (t_endpoint_id t)) eqn:Hs; intros [= <- <- <-] H; [exists t'; naive_solver|].
  simpl in H. destruct (decide (id' = id)) as [->|Hne].
  - rewrite lookup_insert_eq in H. injection H as <-. exists t. simpl. naive_solver.
  - rewrite lookup_insert_ne in H by done. exists t'. naive_solver.
Qed.

Lemma admit_roster_user_seq id f ru ssn r b f' r' :
  admit_roster_user id f ru ssn r = (b, f', r') -> reg_seq r' = reg_seq r.
Proof.
  unfold admit_roster_user. intros H. repeat case_match; by injection H as <- <- <-.
Qed.

Lemma admit_session_Some id ps ok r r' :
  admit_session id ps ok r = Some r' ->
  ok = true /\ reg_seq r' = reg_seq r /\ exists t, reg_inner r !! id = Some t /\
    reg_inner r' = <[id := set_admitted (foldl bump (t_admitted t) ps) t]> (reg_inner r).
Proof.
  unfold admit_session. intros (t & Ht & H)%bind_Some. destruct ok; [|done].
  injection H as <-. split_and!; [done..|]. by exists t.
Qed.

(** An entry after a session ended, against the entry before. *)
Lemma drop_session_lookup id ps r id' t' :
  reg_inner (drop_session id ps r) !! id' = Some t' ->
  exists t, reg_inner r !! id' = Some t /\ t_conn t' = t_conn t /\
    t_endpoint_id t' = t_endpoint_id t /\ t_roster_user t' = t_roster_user t /\
    t_admitted t' = (if decide (id' = id) then foldl unbump (t_admitted t) ps else t_admitted t).
Proof.
  unfold drop_session. destruct (reg_inner r !! id) as [t|] eqn:Ht; simpl.
  - destruct (decide (id' = id)) as [->|Hne].
    + rewrite lookup_insert_eq. intros [= <-]. by exists t.
    + rewrite lookup_insert_ne by done. intros. by exists t'.
  - intros H. exists t'. rewrite decide_False by congruence. done.
Qed.

Lemma drop_session_seq id ps r : reg_seq (drop_session id ps r) = reg_seq r.
Proof. unfold drop_session. by case_match. Qed.

Lemma bumps_present m ps p : is_Some (m !! p) \/ p ∈ ps -> is_Some (foldl bump m ps !! p).
Proof.
  revert m; induction ps as [|q ps IH]; intros m Hp; simpl.
  - destruct Hp as [?|Hn]; [done|]. by apply elem_of_nil in Hn.
  - apply IH. rewrite elem_of_cons in Hp. unfold bump.
    destruct (decide (q = p)) as [->|Hne]; [left; rewrite lookup_insert_eq; by eexists|].
    rewrite lookup_insert_ne by done. naive_solver.
Qed.
