(* ===== verification/Session.v ===== *)
(** * Services and per-session authorization

    [net/src/endpoint.rs]: the service registry with its hot-swappable handle, the allow
    check, and the authorization half of one session ([run_mesh_connection]'s checks,
    [resolve_session_principal], [still_admits] and the admission in [run_session]).

    An [Arc<Services>] is an index into [heap], the registries stored so far; two handles
    are the same registry exactly when the indices agree ([Arc::ptr_eq]). *)
From stdpp Require Import base list gmap strings.
From Stdlib Require Import ZArith Lia Strings.Byte.
From S2P Require Import Prelude Bytes Json Externals Validate Identity Allowlist Gate Service Registry.

Inductive ServiceKind := KRun | KSocket.

(** [backend] is the handle of an [Arc<dyn SessionBackend>]. *)
Record ServiceEntry := {
  se_backend : nat;
  se_allow : list string;
  se_kind : ServiceKind;
  se_ephemeral : bool }.

Abbreviation Services := (gmap string ServiceEntry).

Definition set_allow (allow : list string) (e : ServiceEntry) : ServiceEntry :=
  {| se_backend := se_backend e; se_allow := allow; se_kind := se_kind e;
     se_ephemeral := se_ephemeral e |}.

Definition with_allow_replaced (s : Services) (name : string) (allow : list string) :
    option Services :=
  match s !! name with
  | None => None
  | Some _ => Some (map_imap (fun svc entry =>
      Some (set_allow (if decide (svc = name) then allow else se_allow entry) entry)) s)
  end.

(** ** The live handle *)
Record LiveServices := { heap : list Services; live : nat }.

Definition new_live (s : Services) : LiveServices := {| heap := [s]; live := 0 |}.
(** [LiveServices::get]: the handle stored last. *)
Definition live_get (l : LiveServices) : nat := live l.
Definition services_at (l : LiveServices) (h : nat) : Services := default ∅ (heap l !! h).
(** [LiveServices::store]: a freshly allocated registry becomes the live one. *)
Definition live_store (s : Services) (l : LiveServices) : LiveServices :=
  {| heap := heap l ++ [s]; live := length (heap l) |}.

Section session.
Context `{T : TextEncoding}.

(** The principals a resolved identity carries. *)
Definition identity_principals (i : PeerIdentity) : gset string :=
  principal_set (Some (principal (id_endpoint i))) (id_user_id i) (id_groups i).

Definition caller_admits (identity : PeerIdentity) (allow : list string) : bool :=
  existsb (fun a => bool_decide (a ∈ identity_principals identity)) allow.

Definition still_admits (l : LiveServices) (snapshot : nat) (name : string)
    (identity : PeerIdentity) : bool :=
  let now := live_get l in
  bool_decide (now = snapshot)
  || match services_at l now !! name with
     | Some e => caller_admits identity (se_allow e)
     | None => false
     end.

(** The services a caller is admitted to, in the order the map yields them. *)
Definition allowed_services (s : Services) (identity : option PeerIdentity) : list string :=
  match identity with
  | Some identity =>
      omap (fun ne => if caller_admits identity (se_allow ne.2) then Some ne.1 else None)
        (map_to_list s)
  | None => []
  end.

(** [caller_admitted_services] of [node/src/daemon/reach.rs] before its sort. *)
Definition caller_admitted_services (l : LiveServices) (identity : PeerIdentity) : list string :=
  allowed_services (services_at l (live_get l)) (Some identity).

(** [resolve_session_principal]: the gate may change between the reads, so each of the
    three reads has its own gate; [recheck] is the gate read under the registry lock. *)
Definition resolve_session_principal (before at_ after recheck : TrustGate)
    (remote : EndpointId) (id : N) (promoted : bool) (r : ConnRegistry) :
    option PeerIdentity * bool * ConnRegistry :=
  let roster_before := gate_roster_user before remote in
  match gate_resolve at_ remote with
  | None => (None, promoted, r)
  | Some identity =>
      let roster_user := match roster_before with
                         | Some u => Some u
                         | None => gate_roster_user after remote
                         end in
      let '(admitted, promoted, r) :=
        admit_roster_user id promoted roster_user
          (fun eid => gate_should_sever_now recheck eid roster_user) r in
      (if admitted then Some identity else None, promoted, r)
  end.

(** The admission of one session once its first frame arrived: the snapshot [h] of the
    registry was read before the recheck on [l].  [Some] is the selected service with the
    identity the backend is handed and the registry holding the session's principals. *)
Definition run_session (l : LiveServices) (h : nat) (identity : option PeerIdentity) (id : N)
    (init : Value) (r : ConnRegistry) : Value * option (string * PeerIdentity * ConnRegistry) :=
  let allowed := allowed_services (services_at l h) identity in
  let (init, decision) := select_service init allowed in
  (init,
   match decision, identity with
   | Selected name, Some identity =>
       match admit_session id (elements (identity_principals identity))
               (still_admits l h name identity) r with
       | Some r => Some (name, identity, r)
       | None => None
       end
   | _, _ => None
   end).

(** The refusal: the one answer for unknown, unauthorized, unresolved and revoked. *)
Definition refusal (init : Value) : Value :=
  synthesized (default VNull (value_get "id" init)) ERR_SERVICE MSG_SERVICE.
End session.

(** [run_mesh_connection] up to its first session: [None] closes the connection with 401. *)
Definition accept_connection (g1 g2 g3 : TrustGate) (conn : N) (remote : EndpointId)
    (r : ConnRegistry) : option (N * bool * ConnRegistry) :=
  match gate_resolve g1 remote with
  | None => None
  | Some _ =>
      let roster_user := gate_roster_user g2 remote in
      match register_checked conn remote roster_user
              (fun eid => gate_should_sever_now g3 eid roster_user) r with
      | None => None
      | Some (id, r) => Some (id, bool_decide (is_Some roster_user), r)
      end
  end.

(** ** Lemmas *)
Section lemmas.
Context `{T : TextEncoding}.

Lemma caller_admits_true i allow :
  caller_admits i allow = true <-> exists a, a ∈ allow /\ a ∈ identity_principals i.
Proof.
  unfold caller_admits. rewrite existsb_elem. by setoid_rewrite bool_decide_eq_true.
Qed.

Lemma elem_of_allowed_services s i name :
  name ∈ allowed_services s (Some i) <->
  exists e, s !! name = Some e /\ caller_admits i (se_allow e) = true.
Proof.
  simpl. rewrite list_elem_of_omap. split.
  - intros ([n e] & Hin%elem_of_map_to_list & H). simpl in H. case_match; simplify_eq. eauto.
  - intros (e & ? & Ha). exists (name, e). rewrite elem_of_map_to_list. simpl. by rewrite Ha.
Qed.

Lemma with_allow_replaced_lookup s name allow s' svc :
  with_allow_replaced s name allow = Some s' ->
  s' !! svc = (fun e => if decide (svc = name) then set_allow allow e else e) <$> s !! svc.
Proof.
  unfold with_allow_replaced. destruct (s !! name); [|done]. intros [= <-].
  rewrite map_lookup_imap. destruct (s !! svc) as [[b a k e]|]; simpl; [|done].
  by case_decide.
Qed.

Lemma accept_connection_Some g1 g2 g3 conn e r id b r' :
  accept_connection g1 g2 g3 conn e r = Some (id, b, r') ->
  is_Some (gate_resolve g1 e) /\ b = bool_decide (is_Some (gate_roster_user g2 e)) /\
  register_checked conn e (gate_roster_user g2 e)
    (fun eid => gate_should_sever_now g3 eid (gate_roster_user g2 e)) r = Some (id, r').
Proof.
  unfold accept_connection. destruct (gate_resolve g1 e); [|done].
  destruct (register_checked _ _ _ _ _) as [[id' r'']|]; [|done]. intros [= <- <- <-].
  split_and!; [by eexists|done..].
Qed.

Lemma resolve_session_principal_cases g1 g2 g3 g4 e id f r i b r' :
  resolve_session_principal g1 g2 g3 g4 e id f r = (i, b, r') ->
  (i = None /\ b = f /\ r' = r) \/
  exists ru adm, admit_roster_user id f ru (fun eid => gate_should_sever_now g4 eid ru) r
    = (adm, b, r') /\ i = (if adm then gate_resolve g2 e else None).
Proof.
  unfold resolve_session_principal. destruct (gate_resolve g2 e) as [ident|].
  2: { intros [= <- <- <-]. by left. }
  destruct (admit_roster_user _ _ _ _ _) as [[adm f'] r''] eqn:Ha. intros [= <- <- <-].
  right. by eexists _, adm.
Qed.

Lemma admit_Some l h i id init r frame name i' r' :
  run_session l h (Some i) id init r = (frame, Some (name, i', r')) ->
  i' = i /\ select_service init (allowed_services (services_at l h) (Some i)) = (frame, Selected name) /\
  admit_session id (elements (identity_principals i)) (still_admits l h name i) r = Some r'.
Proof.
  unfold run_session. destruct (select_service _ _) as [fr d]. destruct d as [nm|]; [|done].
  destruct (admit_session _ _ _ _) as [r''|] eqn:Ha; [|done]. by intros [= <- <- <- <-].
Qed.

(** A selected service is one the snapshot admits the caller to, and still is when the
    session is recorded. *)
Lemma admit_live l h i id init r frame name i' r' :
  run_session l h (Some i) id init r = (frame, Some (name, i', r')) ->
  exists e, services_at l (live_get l) !! name = Some e /\ caller_admits i (se_allow e) = true.
Proof.
  intros (-> & Hsel & Ha)%admit_Some. apply admit_session_Some in Ha as (Hs & _).
  apply orb_true_iff in Hs as [<-%bool_decide_eq_true|Hs].
  - apply elem_of_allowed_services. by eapply select_service_allowed.
  - destruct (services_at l (live_get l) !! name) as [e|]; [|done]. by exists e.
Qed.
End lemmas.

(** ** Properties *)
Section properties.
Context `{T : TextEncoding, R : RowCodec}.

(** A session is handed to a backend only as the identity it was resolved as, for a
    service whose allow list in the live registry names one of that identity's principals,
    with a frame that carries no reserved key; and every one of its principals is on the
    connection's registry entry from that moment. *)
Theorem admit_sound l h i id init r frame name i' r' :
  run_session l h (Some i) id init r = (frame, Some (name, i', r')) ->
  i' = i /\
  (exists e p, services_at l (live_get l) !! name = Some e /\ p ∈ se_allow e /\
     p ∈ identity_principals i) /\
  (forall f m k, f ∈ unwrap MAX_BATCH_DEPTH frame -> frame_meta f = Some m ->
     reserved k = true -> map_get k m = None) /\
  (exists t, reg_inner r' !! id = Some t /\
     forall p, p ∈ identity_principals i -> is_Some (t_admitted t !! p)).
Proof.
  intros H. destruct (admit_live _ _ _ _ _ _ _ _ _ _ H) as (e & He & Hadm).
  apply admit_Some in H as (-> & Hsel & Ha). split_and!; [done|..].
  - apply caller_admits_true in Hadm as (p & ? & ?). by exists e, p.
  - intros f m k Hf Hm Hk. by eapply select_service_clean.
  - apply admit_session_Some in Ha as (_ & _ & t & Ht & ->). eexists. rewrite lookup_insert_eq.
    split; [done|]. intros p Hp. simpl. apply bumps_present. right. by apply elem_of_elements.
Qed.

(** Severing by principal reaches everyone: whatever endpoint the composed gate resolves
    to an identity carrying a principal is among the endpoints computed for that principal
    from the same store and roster, in a store whose rows are under their own keys, which
    every operation maintains. *)
Theorem principal_endpoints_complete io io' now c e i p s :
  store_keyed (c_pairs c) ->
  endpoints_for_principal io' (c_pairs c) (g_view (c_roster c)) p = Ok s ->
  composed_resolve io now c e = Some i -> p ∈ identity_principals i ->
  e ∈ s.
Proof.
  intros Hkey Hs Hres [_ Hp]%elem_of_principal_set.
  apply (elem_of_endpoints_for_principal _ _ _ _ _ e Hs).
  apply composed_resolve_Some in Hres as (_ & _ & [[Hr _]|(_ & pe & Hadm & ->)]).
  - apply roster_resolve_Some in Hr as (v & d & Hv & _ & _ & Hd & ->). simpl in Hp. right.
    exists v, d. split_and!; [done..|]. destruct Hp as [[= ?]|[[= ?]|?]]; auto.
  - left. destruct (admission_cases io (c_pairs c) e) as [?|(Ha & _)]; [congruence|].
    rewrite Hadm in Ha. symmetry in Ha.
    apply admission_of_entry in Ha as (_ & (raw & Hraw & Hpe) & _).
    exists (key_bytes e), raw, pe. split_and!; [done..| |].
    + apply (inj key_bytes). symmetry. by eapply Hkey.
    + simpl in Hp. destruct Hp as [[= ?]|[?|Hn]]; [by left|by right|].
      by apply elem_of_nil in Hn.
Qed.
End properties.

(** ** Witnesses *)
Module Witness.
Import Toy ToyRows Sample.

Definition alice : PeerIdentity :=
  {| id_endpoint := alice_ep; id_name := "alice"; id_user_id := Some "alice"%string;
     id_groups := ["eng"%string] |}.
Definition services : LiveServices :=
  new_live {["notes"%string := {| se_backend := 0; se_allow := ["eng"%string]; se_kind := KSocket;
                                  se_ephemeral := true |}]}.
Definition tracked : Tracked :=
  {| t_endpoint_id := alice_ep; t_roster_user := Some "alice"%string; t_admitted := ∅;
     t_conn := 3 |}.
Definition reg : ConnRegistry := {| reg_inner := {[0%N := tracked]}; reg_seq := 1 |}.
Definition reg' : ConnRegistry :=
  match (run_session services 0 (Some alice) 0 (VObject []) reg).2 with
  | Some (_, _, r) => r | None => reg end.

Lemma admitted : run_session services 0 (Some alice) 0 (VObject []) reg
  = (VObject [], Some ("notes"%string, alice, reg')).
Proof. vm_compute. reflexivity. Qed.

Lemma admit_sound_witness : exists t, reg_inner reg' !! 0%N = Some t /\
  is_Some (t_admitted t !! "alice"%string).
Proof.
  destruct (admit_sound _ _ _ _ _ _ _ _ _ _ admitted) as (_ & _ & _ & t & Ht & Hp).
  exists t. split; [exact Ht|]. apply Hp, elem_of_principal_set. split; [discriminate|].
  right. left. reflexivity.
Defined.

Definition gate : ComposedGate :=
  {| c_roster := install view (with_freshness 60 600); c_pairs := empty_store |}.

Lemma gate_resolves : composed_resolve healthy 2000 gate alice_ep = Some alice.
Proof. vm_compute. reflexivity. Qed.

Lemma principal_endpoints_complete_witness : exists s,
  endpoints_for_principal healthy (c_pairs gate) (g_view (c_roster gate)) "eng" = Ok s /\
  alice_ep ∈ s.
Proof.
  destruct (endpoints_for_principal healthy (c_pairs gate) (g_view (c_roster gate)) "eng")
    as [s|e] eqn:E.
  - exists s. split; [reflexivity|].
    apply (principal_endpoints_complete healthy healthy 2000 gate alice_ep alice "eng" s).
    + intros k raw e H. simpl in H. rewrite lookup_empty in H. discriminate H.
    + exact E.
    + exact gate_resolves.
    + apply elem_of_principal_set. split; [discriminate|]. right. right. left.
  - discriminate E.
Defined.
End Witness.
