(* ===== verification/Addrs.v ===== *)
(** * Addresses a peer is dialled at

    The filter of the addresses a remote party claims ([is_dialable_addr] and its uses in
    [node/src/daemon/dial.rs] and [node/src/daemon/lookup_hygiene.rs]), the merging of dial
    hints ([node/src/daemon/dial_hint.rs]) and the bounded provider address book of
    [node/src/roster/transport.rs].

    An IPv4 address is its 32-bit value, an IPv6 address its 128-bit value. *)
From stdpp Require Import base list gmap strings.
From Stdlib Require Import ZArith Lia Strings.Byte.
From S2P Require Import Prelude Bytes Externals.

Local Open Scope Z_scope.

Inductive IpAddr := V4 (a : Z) | V6 (a : Z).

Definition ip_range (ip : IpAddr) : Prop :=
  match ip with V4 a => 0 <= a < 2 ^ 32 | V6 a => 0 <= a < 2 ^ 128 end.

Definition octet0 (a : Z) : Z := Z.shiftr a 24.
Definition v4_is_unspecified (a : Z) : bool := a =? 0.
Definition v4_is_multicast (a : Z) : bool := (224 <=? octet0 a) && (octet0 a <=? 239).
Definition v4_is_broadcast (a : Z) : bool := a =? 2 ^ 32 - 1.
Definition v6_is_unspecified (a : Z) : bool := a =? 0.
Definition v6_is_multicast (a : Z) : bool := Z.shiftr a 120 =? 255.

(** The IPv4 address an IPv4-mapped one stands for, any other address itself. *)
Definition to_canonical (ip : IpAddr) : IpAddr :=
  match ip with
  | V4 a => V4 a
  | V6 a => if Z.shiftr a 32 =? 0xffff then V4 (Z.land a (Z.ones 32)) else V6 a
  end.

Inductive TransportAddr :=
| Ip (ip : IpAddr) (port : Z)
| Relay (url : string)
| Custom (data : bytes).

#[export] Instance IpAddr_eq_dec : EqDecision IpAddr.
Proof. solve_decision. Defined.
#[export] Instance TransportAddr_eq_dec : EqDecision TransportAddr.
Proof. solve_decision. Defined.

Definition is_ip (a : TransportAddr) : bool := match a with Ip _ _ => true | _ => false end.

Record EndpointAddr := { ea_id : key32; ea_addrs : list TransportAddr }.

Definition is_dialable_addr (a : TransportAddr) : bool :=
  match a with
  | Ip ip port =>
      if port =? 0 then false
      else
        match to_canonical ip with
        | V4 v4 =>
            negb (v4_is_unspecified v4) && negb (v4_is_multicast v4) && negb (v4_is_broadcast v4)
            && (octet0 v4 <? 240)
        | V6 v6 => negb (v6_is_unspecified v6) && negb (v6_is_multicast v6)
        end
  | Relay _ | Custom _ => true
  end.

(** Nothing left is the bare id, which discovery resolves. *)
Definition dialable_only (addr : EndpointAddr) : EndpointAddr :=
  {| ea_id := ea_id addr; ea_addrs := filter (fun a => is_dialable_addr a = true) (ea_addrs addr) |}.

(** The JSON of an address is iroh's. *)
Class AddrCodec := {
  addr_to_string : EndpointAddr -> string;
  addr_from_str : string -> option EndpointAddr }.

Definition stored_dial_addr `{AddrCodec} (last_addr : option string) (endpoint_id : key32) : EndpointAddr :=
  match last_addr ≫= addr_from_str with
  | Some addr =>
      if decide (ea_id addr = endpoint_id) then dialable_only addr
      else {| ea_id := endpoint_id; ea_addrs := [] |}
  | None => {| ea_id := endpoint_id; ea_addrs := [] |}
  end.

(** What a live connection, of whose paths some are IP paths, teaches about the peer. *)
Definition observed_for `{AddrCodec} (remote : key32) (paths : list TransportAddr) : option string :=
  match filter (fun a => is_ip a = true) paths with
  | [] => None
  | addrs => Some (addr_to_string {| ea_id := remote; ea_addrs := addrs |})
  end.

Definition merge_hint (observed existing : option string) : option string :=
  match observed with Some o => Some o | None => existing end.

(** What a lookup resolved: iroh's [EndpointData]. *)
Class EndpointDataOps := {
  EndpointData : Type;
  ed_addrs : EndpointData -> list TransportAddr;
  ed_user_data : EndpointData -> option string;
  clear_ip_addrs : EndpointData -> EndpointData;
  add_addrs : list TransportAddr -> EndpointData -> EndpointData }.

Class EndpointDataLaws (D : EndpointDataOps) := {
  clear_ip_addrs_elem d a : a ∈ ed_addrs (clear_ip_addrs d) <-> a ∈ ed_addrs d /\ is_ip a = false;
  add_addrs_elem l d a : a ∈ ed_addrs (add_addrs l d) <-> a ∈ l \/ a ∈ ed_addrs d;
  clear_ip_addrs_user d : ed_user_data (clear_ip_addrs d) = ed_user_data d;
  add_addrs_user l d : ed_user_data (add_addrs l d) = ed_user_data d }.

Definition filter_item `{EndpointDataOps} (d : EndpointData) : EndpointData :=
  let kept := filter (fun a => is_dialable_addr a = true) (ed_addrs d) in
  add_addrs (filter (fun a => is_ip a = true) kept) (clear_ip_addrs d).

(** [HygienicLookup::resolve]: every resolved item is filtered, an error passes. *)
Definition resolve_filtered `{EndpointDataOps} (items : list (result string EndpointData)) :
    list (result string EndpointData) :=
  map (fun r => match r with Ok d => Ok (filter_item d) | Err e => Err e end) items.

(** ** The provider address book *)
Record RosterAddrBook := {
  ab_lookup : gmap key32 EndpointAddr;
  ab_known : gset key32;
  ab_cap : nat }.

Definition register (cap : nat) : RosterAddrBook := {| ab_lookup := ∅; ab_known := ∅; ab_cap := cap |}.

(** Whether the provider was newly added. *)
Definition note (addr : EndpointAddr) (b : RosterAddrBook) : bool * RosterAddrBook :=
  let addr := dialable_only addr in
  if bool_decide (ea_id addr ∈ ab_known b) || (ab_cap b <=? size (ab_known b))%nat then (false, b)
  else (true, {| ab_lookup := <[ea_id addr := addr]> (ab_lookup b);
                 ab_known := {[ea_id addr]} ∪ ab_known b; ab_cap := ab_cap b |}).

Definition known_len (b : RosterAddrBook) : nat := size (ab_known b).

(** The book after a sequence of notes. *)
Definition notes (cap : nat) (l : list EndpointAddr) : RosterAddrBook :=
  foldl (fun b a => (note a b).2) (register cap) l.

(** ** Lemmas *)
Lemma octet0_spec a : octet0 a = a / 2 ^ 24.
Proof. apply Z.shiftr_div_pow2. lia. Qed.

Lemma octet0_lt a n : octet0 a < n <-> a < n * 2 ^ 24.
Proof.
  rewrite octet0_spec. pose proof (Z.div_mod a (2 ^ 24) ltac:(lia)).
  pose proof (Z.mod_pos_bound a (2 ^ 24) ltac:(lia)). nia.
Qed.

(** The IPv4 addresses that pass: below the multicast block, the unspecified one apart. *)
Lemma v4_passes a :
  0 <= a < 2 ^ 32 ->
  negb (v4_is_unspecified a) && negb (v4_is_multicast a) && negb (v4_is_broadcast a) && (octet0 a <? 240) = true
  <-> 0 < a < 224 * 2 ^ 24.
Proof.
  intros Ha. unfold v4_is_unspecified, v4_is_multicast, v4_is_broadcast.
  pose proof (octet0_lt a 224). pose proof (octet0_lt a 240).
  rewrite !andb_true_iff, !negb_true_iff, andb_false_iff, !Z.leb_gt, Z.ltb_lt, !Z.eqb_neq. lia.
Qed.

Lemma v6_passes a :
  0 <= a < 2 ^ 128 ->
  negb (v6_is_unspecified a) && negb (v6_is_multicast a) = true <-> 0 < a < 255 * 2 ^ 120.
Proof.
  intros Ha. unfold v6_is_unspecified, v6_is_multicast. rewrite Z.shiftr_div_pow2 by lia.
  pose proof (Z.div_mod a (2 ^ 120) ltac:(lia)). pose proof (Z.mod_pos_bound a (2 ^ 120) ltac:(lia)).
  rewrite andb_true_iff, !negb_true_iff, !Z.eqb_neq. nia.
Qed.

Lemma to_canonical_range ip : ip_range ip -> ip_range (to_canonical ip).
Proof.
  destruct ip as [a|a]; cbn [ip_range to_canonical]; [done|]. intros Ha.
  destruct (_ =? _); cbn [ip_range]; [|exact Ha]. rewrite Z.land_ones by lia. apply Z.mod_pos_bound. lia.
Qed.

Lemma to_canonical_mapped a : 0 <= a < 2 ^ 32 -> to_canonical (V6 (0xffff * 2 ^ 32 + a)) = V4 a.
Proof.
  intros Ha. unfold to_canonical. rewrite Z.shiftr_div_pow2, Z.land_ones by lia.
  rewrite Z.div_add_l, Z.div_small, Z.add_0_r by lia. rewrite (Z.eqb_refl 0xffff).
  by rewrite Z.add_comm, Z.mod_add, Z.mod_small by lia.
Qed.

Lemma elem_of_dialable_only a addr :
  a ∈ ea_addrs (dialable_only addr) <-> a ∈ ea_addrs addr /\ is_dialable_addr a = true.
Proof. simpl. rewrite list_elem_of_filter. tauto. Qed.

(** *** The book *)
Record book_ok (cap : nat) (seen : list EndpointAddr) (b : RosterAddrBook) : Prop := {
  book_cap : ab_cap b = cap;
  book_size : (size (ab_known b) <= cap)%nat;
  book_dom : dom (ab_lookup b) = ab_known b;
  book_entries id a : ab_lookup b !! id = Some a ->
    ea_id a = id /\ exists addr, addr ∈ seen /\ a = dialable_only addr }.

Lemma note_ok cap seen b addr : book_ok cap seen b -> book_ok cap (seen ++ [addr]) (note addr b).2.
Proof.
  intros [Hc Hs Hd He]. unfold note. destruct (_ || _) eqn:Hb; simpl.
  - split; [done..|]. intros id a (<- & addr' & Hin & ->)%He. split; [done|].
    exists addr'. split; [|done]. apply elem_of_app. by left.
  - apply orb_false_iff in Hb as [Hn%bool_decide_eq_false Hl%Nat.leb_gt]. split; simpl; [done|..].
    + rewrite size_union by set_solver. rewrite size_singleton. simpl in *. lia.
    + by rewrite dom_insert_L, Hd.
    + intros id a [[<- <-]|[_ (<- & addr' & Hin & ->)%He]]%lookup_insert_Some; (split; [done|]).
      * exists addr. split; [|done]. apply elem_of_app. right. by apply list_elem_of_singleton.
      * exists addr'. split; [|done]. apply elem_of_app. by left.
Qed.

Lemma notes_ok cap l : book_ok cap l (notes cap l).
Proof.
  unfold notes. induction l as [|a l IH] using rev_ind.
  - split; [done|apply Nat.le_0_l|apply dom_empty_L|]. intros id a. simpl. by rewrite lookup_empty.
  - rewrite foldl_app. simpl. by apply note_ok.
Qed.

(** ** Properties *)

(** The address filter lets through exactly the addresses that can be a unicast peer,
    whichever form they are written in: a port that is not zero, and the IPv4 address (an
    IPv4-mapped one included) below the multicast block and not unspecified, or the IPv6
    address neither unspecified nor multicast; a mapped address is judged as the IPv4
    address it stands for. *)
Theorem dialable_addr_spec ip port :
  ip_range ip ->
  (is_dialable_addr (Ip ip port) = true <->
     port <> 0 /\
     match to_canonical ip with
     | V4 a => 0 < a < 224 * 2 ^ 24
     | V6 a => 0 < a < 255 * 2 ^ 120
     end) /\
  forall a, 0 <= a < 2 ^ 32 ->
    is_dialable_addr (Ip (V6 (0xffff * 2 ^ 32 + a)) port) = is_dialable_addr (Ip (V4 a) port).
Proof.
  intros Hr%to_canonical_range. split.
  - unfold is_dialable_addr. destruct (Z.eqb_spec port 0) as [->|Hp]; [split; [done|]; by intros []|].
    destruct (to_canonical ip) as [a|a].
    + rewrite v4_passes by exact Hr. split; [by split|by intros []].
    + rewrite v6_passes by exact Hr. split; [by split|by intros []].
  - intros a Ha. unfold is_dialable_addr. by rewrite to_canonical_mapped.
Qed.

(** Whatever a lookup service, a stored hint or an unsigned announcement claims about a
    peer, every address this node goes on to dial from it passed the filter; a hint for
    another peer is ignored, the resolver keeps every address that passes, and the
    provider book never holds more than its capacity nor changes a recorded provider. *)
Theorem addresses_filtered `{AddrCodec, DL : EndpointDataLaws} (hint : option string) id cap l addr d :
  (forall a, a ∈ ea_addrs (stored_dial_addr hint id) -> is_dialable_addr a = true) /\
  ea_id (stored_dial_addr hint id) = id /\
  (forall a, a ∈ ed_addrs (filter_item d) <-> a ∈ ed_addrs d /\ is_dialable_addr a = true) /\
  ed_user_data (filter_item d) = ed_user_data d /\
  (known_len (notes cap l) <= cap)%nat /\
  (forall p e a, ab_lookup (notes cap l) !! p = Some e -> a ∈ ea_addrs e -> is_dialable_addr a = true) /\
  (forall p e, ab_lookup (notes cap l) !! p = Some e -> ab_lookup (notes cap (l ++ [addr])) !! p = Some e).
Proof.
  assert (Hstored : (forall a, a ∈ ea_addrs (stored_dial_addr hint id) -> is_dialable_addr a = true) /\
    ea_id (stored_dial_addr hint id) = id).
  { unfold stored_dial_addr. destruct (hint ≫= addr_from_str) as [e|]; [|split; [|done]; by intros a ?%elem_of_nil].
    case_decide; [|split; [|done]; by intros a ?%elem_of_nil]. split; [|done].
    by intros a [_ ?]%elem_of_dialable_only. }
  destruct Hstored as [Hs1 Hs2]. pose proof (notes_ok cap l) as [Hc Hsz Hd He]. split_and!; try done.
  - intros a. unfold filter_item. rewrite add_addrs_elem, clear_ip_addrs_elem, !list_elem_of_filter.
    split; [intros [(_ & ? & ?)|[? Hip]]; [done|]; split; [done|]; by destruct a|].
    intros [? ?]. destruct (is_ip a) eqn:?; [by left|by right].
  - unfold filter_item. by rewrite add_addrs_user, clear_ip_addrs_user.
  - intros p e a (_ & addr' & _ & ->)%He. by intros [_ ?]%elem_of_dialable_only.
  - intros p e Hp. unfold notes. rewrite foldl_app. simpl. fold (notes cap l). unfold note.
    destruct (_ || _) eqn:Hb; [done|]. simpl. rewrite lookup_insert_ne; [done|]. intros <-.
    apply orb_false_iff in Hb as [Hn%bool_decide_eq_false _]. apply Hn. rewrite <- Hd.
    by apply elem_of_dom_2 in Hp.
Qed.

(** Learning nothing keeps a hint: no sequence of observations takes a stored address
    away, and the hint is the latest observation there was. *)
Theorem hint_never_lost (observations : list (option string)) (existing : option string) :
  let hint := foldl (fun h o => merge_hint o h) existing observations in
  (is_Some existing -> is_Some hint) /\
  hint = match list_find (fun o => is_Some o) (reverse observations) with
         | Some (_, o) => o
         | None => existing
         end.
Proof.
  simpl. induction observations as [|o l [IH1 IH2]] using rev_ind; [done|].
  rewrite foldl_app, reverse_app. simpl. split.
  - intros He. destruct o; simpl; eauto.
  - destruct o as [s|]; simpl; [done|]. rewrite IH2. by destruct (list_find _ (reverse l)) as [[]|].
Qed.

(** ** Witnesses *)
Module Witness.

(** Lists for data, the first letter of a hint for its address. *)
#[local] Instance lists : EndpointDataOps :=
  {| EndpointData := list TransportAddr * option string; ed_addrs := fst; ed_user_data := snd;
     clear_ip_addrs d := (filter (fun a => is_ip a = false) d.1, d.2);
     add_addrs l d := (d.1 ++ l, d.2) |}.
#[local] Instance lists_laws : EndpointDataLaws lists.
Proof.
  split; intros; simpl; [rewrite list_elem_of_filter; tauto|rewrite elem_of_app; tauto|done..].
Qed.

Definition peer : key32 := key_fill Byte.x44.
Definition mapped_multicast : TransportAddr := Ip (V6 (0xffff * 2 ^ 32 + 224 * 2 ^ 24 + 1)) 1900.
Definition lan : TransportAddr := Ip (V4 (192 * 2 ^ 24 + 168 * 2 ^ 16 + 4)) 4433.
Definition claimed : EndpointAddr := {| ea_id := peer; ea_addrs := [mapped_multicast; lan; Relay "https://relay"] |}.
#[local] Instance one_hint : AddrCodec := {| addr_to_string _ := "hint"; addr_from_str _ := Some claimed |}.

Definition item : list TransportAddr * option string := (ea_addrs claimed, None).

Lemma dialable_addr_spec_witness :
  is_dialable_addr mapped_multicast = false /\ is_dialable_addr lan = true.
Proof.
  split.
  - apply not_true_iff_false. intros H.
    apply (proj1 (dialable_addr_spec (V6 (0xffff * 2 ^ 32 + 224 * 2 ^ 24 + 1)) 1900 ltac:(vm_compute; split; congruence))) in H.
    destruct H as [_ H]. vm_compute in H. destruct H. discriminate.
  - apply (proj1 (dialable_addr_spec (V4 (192 * 2 ^ 24 + 168 * 2 ^ 16 + 4)) 4433 ltac:(vm_compute; split; congruence))).
    vm_compute. split; [|split]; congruence.
Defined.

Lemma addresses_filtered_witness :
  ea_addrs (stored_dial_addr (Some "hint"%string) peer) = [lan; Relay "https://relay"] /\
  (lan ∈ ed_addrs (filter_item (item : EndpointData)) <-> lan ∈ ea_addrs claimed /\ is_dialable_addr lan = true) /\
  (known_len (notes 1 [claimed; claimed]) <= 1)%nat.
Proof.
  destruct (addresses_filtered (Some "hint"%string) peer 1 [claimed; claimed] claimed (item : @EndpointData lists))
    as (_ & _ & Hf & _ & Hk & _).
  split; [vm_compute; reflexivity|]. split; [exact (Hf lan)|exact Hk].
Defined.
End Witness.
