(* ===== verification/Paths.v ===== *)
(** * Which path carries the bytes

    [node/src/daemon/reach.rs] (paths) and [self_net.rs]: the structural reading of a
    connection's paths, the measurement of one window and its combination, the settling, and
    this node's own posture.  iroh's path list and its events are a transition system of their
    own, as [reach.rs] documents them: a path joins the list before its [Opened] is sent and
    leaves it before its [Closed] is. *)
From stdpp Require Import base list gmap strings.
From Stdlib Require Import ZArith Lia.
From S2P Require Import Prelude Addrs.

Local Open Scope Z_scope.

Inductive PeerPath := Direct | Relayed (url : option string) | Unknown.
#[export] Instance PeerPath_eq_dec : EqDecision PeerPath.
Proof. solve_decision. Defined.

(** [RelayUrl]: its parser and the parts of the parsed url. *)
Class RelayUrls := {
  RelayUrl : Type;
  relay_parse : string -> option RelayUrl;
  url_scheme : RelayUrl -> string;
  url_host : RelayUrl -> option string;
  url_port : RelayUrl -> option string }.

Section urls.
Context `{U : RelayUrls}.

Definition sanitize_relay_url (u : RelayUrl) : string :=
  match url_host u, url_port u with
  | Some host, Some port => url_scheme u +:+ "://" +:+ host +:+ ":" +:+ port
  | Some host, None => url_scheme u +:+ "://" +:+ host
  | None, _ => url_scheme u
  end.

Definition normalize_relay_url (raw : string) : option string := sanitize_relay_url <$> relay_parse raw.

(** A relay of the address's type is parsed already. *)
Definition path_kind (addr : TransportAddr) : PeerPath :=
  match addr with
  | Relay url => Relayed (normalize_relay_url url)
  | Ip _ _ => Direct
  | Custom _ => Unknown
  end.
End urls.

(** ** The structural reading *)
Fixpoint classify_loop (only : option PeerPath) (count : nat) (paths : list (PeerPath * bool)) : PeerPath :=
  match paths with
  | [] => match count, only with 1%nat, Some kind => kind | _, _ => Unknown end
  | (kind, selected) :: paths => if selected : bool then kind else classify_loop (Some kind) (S count) paths
  end.
Definition classify_paths (paths : list (PeerPath * bool)) : PeerPath := classify_loop None 0 paths.

(** [settle]: the [i]-th reading is [probe i], taken at [clock i]. *)
Definition PATH_SETTLE_MS : Z := 600.
Fixpoint settle (fuel : nat) (deadline : Z) (clock : nat -> Z) (probe : nat -> PeerPath) (i : nat) : option PeerPath :=
  match fuel with
  | O => None
  | S fuel =>
      let path := probe i in
      if decide (path = Direct) then Some path
      else if deadline <=? clock i then Some path
      else settle fuel deadline clock probe (S i)
  end.
Definition settled_path (window : Z) (clock : nat -> Z) (probe : nat -> PeerPath) : option PeerPath :=
  settle (S (Z.to_nat (window / 50 + 1))) (clock 0%nat + window) clock probe 0.

(** ** One window *)
Abbreviation PathId := nat.
Abbreviation AppFrames := Z.

(** [PathStats], the frames counted. *)
Record PathStats := { tx_stream : Z; tx_datagram : Z; rx_stream : Z; rx_datagram : Z }.
Definition u64_wrap (x : Z) : Z := x mod 2 ^ 64.
Definition frames_of (s : PathStats) : AppFrames := u64_wrap (tx_stream s + tx_datagram s + rx_stream s + rx_datagram s).
Definition since (now then_ : AppFrames) : Z := Z.max 0 (now - then_).

Abbreviation PathSample := (PathId * PeerPath * AppFrames)%type.

Inductive ObservedEvent :=
| OOpened (id : PathId)
| OClosed (id : PathId) (remote_addr : TransportAddr) (last_stats : PathStats)
| OSelected | OLagged | OUnrecognised.

Inductive WindowEvent :=
| Opened (id : PathId)
| Closed (id : PathId) (kind : PeerPath) (frames : AppFrames)
| Lagged | Unrecognised.
#[export] Instance WindowEvent_eq_dec : EqDecision WindowEvent.
Proof. solve_decision. Defined.

Definition from_observed `{U : RelayUrls} (e : ObservedEvent) : option WindowEvent :=
  match e with
  | OOpened id => Some (Opened id)
  | OClosed id addr stats => Some (Closed id (path_kind addr) (frames_of stats))
  | OSelected => None
  | OLagged => Some Lagged
  | OUnrecognised => Some Unrecognised
  end.

Inductive WindowReading := Moved (p : PeerPath) | Idle (p : PeerPath) | Unobservable.
#[export] Instance WindowReading_eq_dec : EqDecision WindowReading.
Proof. solve_decision. Defined.

(** What [mark] accumulates. *)
Record Marks := { mk_relay : option PeerPath; mk_direct : bool; mk_unobservable : bool }.
Definition mark (kind : PeerPath) (m : Marks) : Marks :=
  match kind with
  | Relayed _ => {| mk_relay := match mk_relay m with Some r => Some r | None => Some kind end;
                    mk_direct := mk_direct m; mk_unobservable := mk_unobservable m |}
  | Direct => {| mk_relay := mk_relay m; mk_direct := true; mk_unobservable := mk_unobservable m |}
  | Unknown => {| mk_relay := mk_relay m; mk_direct := mk_direct m; mk_unobservable := true |}
  end.

Definition sample_of (id : PathId) (l : list PathSample) : option AppFrames :=
  snd <$> find_first (fun x : PathSample => bool_decide (x.1.1 = id)) l.
Definition opened_ids (events : list WindowEvent) : list PathId :=
  omap (fun e => match e with Opened id => Some id | _ => None end) events.
Definition closed_ids (events : list WindowEvent) : list PathId :=
  omap (fun e => match e with Closed id _ _ => Some id | _ => None end) events.
Definition untrusted (e : WindowEvent) : bool := match e with Lagged | Unrecognised => true | _ => false end.

(** The count a close is measured from; none for one that only crossed into the window. *)
Definition closed_from (before : list PathSample) (events : list WindowEvent) (id : PathId) : option AppFrames :=
  match sample_of id before with
  | Some base => Some base
  | None => if decide (id ∈ opened_ids events) then Some 0 else None
  end.

Definition mark_event (before : list PathSample) (events : list WindowEvent) (m : Marks) (e : WindowEvent) : Marks :=
  match e with
  | Closed id kind frames =>
      match closed_from before events id with
      | Some from => if 0 <? since frames from then mark kind m else m
      | None => m
      end
  | _ => m
  end.

Definition mark_sample (before : list PathSample) (m : Marks) (x : PathSample) : Marks :=
  if 0 <? since x.2 (default 0 (sample_of x.1.1 before)) then mark x.1.2 m else m.

Definition accounted (after : list PathSample) (events : list WindowEvent) (id : PathId) : bool :=
  existsb (fun x : PathSample => bool_decide (x.1.1 = id)) after || bool_decide (id ∈ closed_ids events).

Definition classify_window (before after : list PathSample) (events : list WindowEvent) (fallback : PeerPath) : WindowReading :=
  let m0 := {| mk_relay := None; mk_direct := false; mk_unobservable := false |} in
  let m := foldl (mark_sample before) (foldl (mark_event before events) m0 events) after in
  let disappeared := existsb (fun x : PathSample => negb (accounted after events x.1.1)) before
                     || existsb (fun id => negb (accounted after events id)) (opened_ids events) in
  match mk_relay m with
  | Some relay => Moved relay
  | None =>
      if mk_unobservable m || existsb untrusted events || disappeared then Unobservable
      else if mk_direct m then Moved Direct else Idle fallback
  end.

(** ** Several windows *)
Definition PATH_MEASURE_WINDOWS : nat := 3.
Fixpoint combine_windows (windows : nat) (measure : nat -> WindowReading) (i : nat) : PeerPath :=
  match windows with
  | O => Unknown
  | S windows =>
      match measure i with
      | Moved path => path
      | Unobservable => Unknown
      | Idle Unknown => combine_windows windows measure (S i)
      | Idle path => path
      end
  end.

(** One window's script: what its source answers at each call, in the order of the calls.  [None]
    among the events is the end of the stream. *)
Record WindowScript := {
  ws_closed_first : bool;
  ws_before : list PathSample;
  ws_during : list (option ObservedEvent);
  ws_closed_second : bool;
  ws_after : list PathSample;
  ws_queued : list (option ObservedEvent);
  ws_fallback : PeerPath }.

(** Events up to the end of the stream, if it ends. *)
Fixpoint drain `{U : RelayUrls} (seen : list WindowEvent) (l : list (option ObservedEvent)) : option (list WindowEvent) :=
  match l with
  | [] => Some seen
  | Some e :: l => drain (seen ++ option_list (from_observed e)) l
  | None :: _ => None
  end.

Definition measure_window `{U : RelayUrls} (s : WindowScript) : WindowReading :=
  if ws_closed_first s then Unobservable
  else
    match drain [] (ws_during s) with
    | None => Unobservable
    | Some seen =>
        if ws_closed_second s then Unobservable
        else
          match drain seen (ws_queued s) with
          | None => Unobservable
          | Some seen => classify_window (ws_before s) (ws_after s) seen (ws_fallback s)
          end
    end.

Definition measured_path `{U : RelayUrls} (scripts : nat -> WindowScript) : PeerPath :=
  combine_windows PATH_MEASURE_WINDOWS (fun i => measure_window (scripts i)) 0.

(** ** This node's own posture *)
Record RelayInfo := { ri_url : string; ri_connected : bool }.
Record SelfNetwork := {
  sn_online : bool;
  sn_home_relay : option string;
  sn_relays : list RelayInfo;
  sn_direct_addrs : list string;
  sn_last_change_epoch : option Z;
  sn_identity_conflict_epoch : option Z;
  sn_presence_mode : option string;
  sn_local_discovery : option string }.

Definition project (relays : list (string * bool)) (direct_addrs : list string) (last_change conflict : option Z)
    (presence_mode local_discovery : option string) : SelfNetwork :=
  let relays := (fun r => {| ri_url := r.1; ri_connected := r.2 |}) <$> relays in
  {| sn_online := existsb ri_connected relays;
     sn_home_relay := ri_url <$> find_first ri_connected relays;
     sn_relays := relays; sn_direct_addrs := direct_addrs; sn_last_change_epoch := last_change;
     sn_identity_conflict_epoch := conflict; sn_presence_mode := presence_mode; sn_local_discovery := local_discovery |}.

Definition signature (n : SelfNetwork) : bool * option string * list (string * bool) * option Z :=
  (sn_online n, sn_home_relay n, (fun r => (ri_url r, ri_connected r)) <$> sn_relays n, sn_identity_conflict_epoch n).

Definition stamped (stamp : Z) (n : SelfNetwork) : SelfNetwork :=
  {| sn_online := sn_online n; sn_home_relay := sn_home_relay n; sn_relays := sn_relays n;
     sn_direct_addrs := sn_direct_addrs n; sn_last_change_epoch := Some stamp;
     sn_identity_conflict_epoch := sn_identity_conflict_epoch n; sn_presence_mode := sn_presence_mode n;
     sn_local_discovery := sn_local_discovery n |}.

(** The watcher: what was last announced, the stamp of the mesh, the frames sent. *)
Record NetWatch := { nw_previous : SelfNetwork; nw_change : option Z; nw_frames : list SelfNetwork }.
Definition net_watch_start : NetWatch :=
  {| nw_previous := project [] [] None None None None; nw_change := None; nw_frames := [] |}.

(** One turn: the posture read and the clock. *)
Definition net_watch_turn (w : NetWatch) (reading : SelfNetwork * Z) : NetWatch :=
  let '(current, stamp) := reading in
  if decide (signature current = signature (nw_previous w)) then w
  else {| nw_previous := current; nw_change := Some stamp; nw_frames := nw_frames w ++ [stamped stamp current] |}.
Definition net_watch (readings : list (SelfNetwork * Z)) : NetWatch := foldl net_watch_turn net_watch_start readings.

(** ** The path list, as iroh keeps it

    One actor changes the list and sends the event of each change before the next: a path joins
    the list before its [Opened] is sent and leaves it before its [Closed] is; a subscriber that
    falls behind receives [Lagged] for what it lost; ids are not used twice.  [a_carried] is
    every application frame, with the path it went over. *)
Record Actor := {
  a_listed : list PathSample;
  a_used : list PathId;
  a_pending : option WindowEvent;
  a_sent : list WindowEvent;
  a_carried : list (PathId * PeerPath) }.

Definition bump (id : PathId) (l : list PathSample) : list PathSample :=
  (fun x : PathSample => if decide (x.1.1 = id) then (x.1, x.2 + 1) else x) <$> l.
Definition unlist (id : PathId) (l : list PathSample) : list PathSample := filter (fun x : PathSample => x.1.1 <> id) l.

Inductive actor_step : Actor -> Actor -> Prop :=
| as_open a id kind :
    id ∉ a_used a -> a_pending a = None ->
    actor_step a {| a_listed := a_listed a ++ [(id, kind, 0)]; a_used := id :: a_used a; a_pending := Some (Opened id);
                    a_sent := a_sent a; a_carried := a_carried a |}
| as_carry a id kind n :
    (id, kind, n) ∈ a_listed a ->
    actor_step a {| a_listed := bump id (a_listed a); a_used := a_used a; a_pending := a_pending a;
                    a_sent := a_sent a; a_carried := a_carried a ++ [(id, kind)] |}
| as_close a id kind n :
    (id, kind, n) ∈ a_listed a -> a_pending a = None ->
    actor_step a {| a_listed := unlist id (a_listed a); a_used := a_used a; a_pending := Some (Closed id kind n);
                    a_sent := a_sent a; a_carried := a_carried a |}
| as_send a e :
    a_pending a = Some e ->
    actor_step a {| a_listed := a_listed a; a_used := a_used a; a_pending := None;
                    a_sent := a_sent a ++ [e]; a_carried := a_carried a |}
| as_lag a e :
    a_pending a = Some e ->
    actor_step a {| a_listed := a_listed a; a_used := a_used a; a_pending := None;
                    a_sent := a_sent a ++ [Lagged]; a_carried := a_carried a |}.

Definition actor_start : Actor := {| a_listed := []; a_used := []; a_pending := None; a_sent := []; a_carried := [] |}.

(** A subscription sees the events sent after it. *)
Definition subscribe (a : Actor) : Actor :=
  {| a_listed := a_listed a; a_used := a_used a; a_pending := a_pending a; a_sent := []; a_carried := a_carried a |}.

(** The three moments of a window: the subscription, the two samples and the last drain. *)
Record measured (start before after done : Actor) : Prop := {
  me_start : exists a, rtc actor_step actor_start a /\ start = subscribe a;
  me_before : rtc actor_step start before;
  me_after : rtc actor_step before after;
  me_done : rtc actor_step after done }.

Definition carried_on (id : PathId) (a : Actor) : Z := Z.of_nat (length (filter (fun f : PathId * PeerPath => f.1 = id) (a_carried a))).

(** ** What a window marks *)

(** The kinds marked, in order. *)
Definition event_kind (before : list PathSample) (events : list WindowEvent) (e : WindowEvent) : option PeerPath :=
  match e with
  | Closed id kind frames => from ← closed_from before events id; if 0 <? since frames from then Some kind else None
  | _ => None
  end.
Definition sample_kind (before : list PathSample) (x : PathSample) : option PeerPath :=
  if 0 <? since x.2 (default 0 (sample_of x.1.1 before)) then Some x.1.2 else None.
Definition moved_kinds (before after : list PathSample) (events : list WindowEvent) : list PeerPath :=
  omap (event_kind before events) events ++ omap (sample_kind before) after.

Lemma foldl_mark_omap {A} (f : A -> option PeerPath) (g : Marks -> A -> Marks) m l :
  (forall m x, g m x = match f x with Some k => mark k m | None => m end) ->
  foldl g m l = foldl (fun m k => mark k m) m (omap f l).
Proof.
  intros Hg. revert m. induction l as [|x l IH]; intros m; [done|]. simpl. rewrite Hg, IH.
  change (omap f (x :: l)) with (match f x with Some k => k :: omap f l | None => omap f l end). by destruct (f x).
Qed.

Lemma window_marks before after events m :
  foldl (mark_sample before) (foldl (mark_event before events) m events) after =
  foldl (fun m k => mark k m) m (moved_kinds before after events).
Proof.
  unfold moved_kinds. rewrite foldl_app. rewrite <- (foldl_mark_omap _ (mark_event before events)), <- (foldl_mark_omap _ (mark_sample before)); [done|..].
  - intros m' x. unfold mark_sample, sample_kind. by destruct (_ <? _).
  - intros m' [id|id k n| |]; try done. simpl. destruct (closed_from _ _ id); [|done]. simpl. by destruct (_ <? _).
Qed.

Definition is_relayed (k : PeerPath) : bool := match k with Relayed _ => true | _ => false end.
Lemma marks_spec l m :
  let r := foldl (fun m k => mark k m) m l in
  mk_relay r = match mk_relay m with Some k => Some k | None => find_first is_relayed l end /\
  mk_direct r = mk_direct m || bool_decide (Direct ∈ l) /\
  mk_unobservable r = mk_unobservable m || bool_decide (Unknown ∈ l).
Proof.
  revert m. induction l as [|x l IH]; intros m.
  - simpl. rewrite !orb_false_r. by destruct (mk_relay m).
  - cbn [foldl find_first]. destruct (IH (mark x m)) as (-> & -> & ->).
    assert (Hin : forall k, bool_decide (k ∈ x :: l) = bool_decide (k = x) || bool_decide (k ∈ l)).
    { intros k. rewrite <- bool_decide_or. apply bool_decide_ext, elem_of_cons. }
    rewrite !Hin. destruct x as [|u|]; cbn [mark mk_relay mk_direct mk_unobservable is_relayed];
      rewrite ?(bool_decide_true (Direct = Direct)), ?(bool_decide_true (Unknown = Unknown)) by done;
      rewrite ?(bool_decide_false (Direct = _)), ?(bool_decide_false (Unknown = _)) by done;
      rewrite ?orb_true_r, ?orb_true_l, ?orb_false_l; split_and!; try done; by destruct (mk_relay m).
Qed.

Lemma classify_cases before after events fallback :
  let kinds := moved_kinds before after events in
  (classify_window before after events fallback = Moved Direct ->
     Direct ∈ kinds /\ (forall k, k ∈ kinds -> k = Direct) /\ existsb untrusted events = false /\
     (forall x, x ∈ before -> accounted after events x.1.1 = true) /\
     forall id, id ∈ opened_ids events -> accounted after events id = true) /\
  (classify_window before after events fallback = Idle fallback \/ (exists p, classify_window before after events fallback = Moved p /\ p ∈ kinds) \/
   classify_window before after events fallback = Unobservable) /\
  (forall p, classify_window before after events fallback = Idle p ->
     p = fallback /\ kinds = [] /\ existsb untrusted events = false /\
     (forall x, x ∈ before -> accounted after events x.1.1 = true) /\
     forall id, id ∈ opened_ids events -> accounted after events id = true).
Proof.
  intros kinds. unfold classify_window. cbv zeta. rewrite window_marks. fold kinds.
  destruct (marks_spec kinds {| mk_relay := None; mk_direct := false; mk_unobservable := false |}) as (-> & -> & ->).
  cbn [mk_relay mk_direct mk_unobservable]. rewrite !orb_false_l.
  destruct (find_first is_relayed kinds) as [k|] eqn:Hr.
  { apply find_first_Some in Hr as [Hk Hu]. destruct k as [|u|]; [done| |done].
    split_and!; [by intros [=]|right; left; eauto|by intros p [=]]. }
  apply find_first_None in Hr. rewrite Forall_forall in Hr.
  case_bool_decide as Hun; simpl; [split_and!; try done; by right; right|].
  destruct (existsb untrusted events) eqn:Ht; simpl; [split_and!; try done; by right; right|].
  match goal with |- context [if ?c then Unobservable else _] => destruct c eqn:Hd end; [split_and!; try done; by right; right|].
  apply orb_false_iff in Hd as [Hb Ho].
  assert (Hbef : forall x, x ∈ before -> accounted after events x.1.1 = true).
  { intros x Hx. apply negb_false_iff, not_true_iff_false. intros Hn. apply not_true_iff_false in Hb. apply Hb, existsb_exists. exists x. by rewrite <- list_elem_of_In. }
  assert (Hop : forall id, id ∈ opened_ids events -> accounted after events id = true).
  { intros x Hx. apply negb_false_iff, not_true_iff_false. intros Hn. apply not_true_iff_false in Ho. apply Ho, existsb_exists. exists x. by rewrite <- list_elem_of_In. }
  assert (Hall : forall k, k ∈ kinds -> k = Direct) by (intros [|u|] Hk; [done|by apply Hr in Hk|done]).
  case_bool_decide as Hdir.
  - split_and!; [done|right; left; eauto|by intros p [=]].
  - split_and!; [by intros [=]|by left|]. intros p [= <-]. split_and!; try done. destruct kinds as [|k l]; [done|].
    exfalso. apply Hdir. rewrite <- (Hall k); apply list_elem_of_here.
Qed.

(** ** The counts of the path list *)
Definition ids (l : list PathSample) : list PathId := (fun x : PathSample => x.1.1) <$> l.
Definition gone (a : Actor) (id : PathId) : Prop := id ∈ a_used a /\ id ∉ ids (a_listed a).
Definition announced (a : Actor) (e : WindowEvent) : Prop := e ∈ a_sent a \/ a_pending a = Some e.

(** What the list, the counters and the closes always agree on. *)
Record actor_inv (a : Actor) : Prop := {
  ai_nodup : NoDup (ids (a_listed a));
  ai_listed_used id : id ∈ ids (a_listed a) -> id ∈ a_used a;
  ai_carried_used f : f ∈ a_carried a -> f.1 ∈ a_used a;
  ai_listed id kind n : (id, kind, n) ∈ a_listed a ->
    n = carried_on id a /\ forall k, (id, k) ∈ a_carried a -> k = kind;
  ai_closed id kind n : announced a (Closed id kind n) ->
    gone a id /\ n = carried_on id a /\ forall k, (id, k) ∈ a_carried a -> k = kind;
  ai_opening id : a_pending a = Some (Opened id) -> id ∈ ids (a_listed a) }.

Lemma ids_bump id l : ids (bump id l) = ids l.
Proof. unfold ids, bump. rewrite <- list_fmap_compose. apply list_fmap_ext. intros i x _. simpl. by case_decide. Qed.
Lemma elem_of_bump id l i k n : (i, k, n) ∈ bump id l -> exists n', (i, k, n') ∈ l /\ n = if decide (i = id) then n' + 1 else n'.
Proof.
  intros ([[i' k'] n'] & Hx & Hin)%list_elem_of_fmap. simpl in Hx. exists n'. destruct (decide (i' = id)) as [->|Hne]; injection Hx as -> -> ->; split; try done; by rewrite ?decide_True, ?decide_False by done.
Qed.
Lemma elem_of_unlist id l x : x ∈ unlist id l <-> x ∈ l /\ x.1.1 <> id.
Proof. unfold unlist. rewrite list_elem_of_filter. tauto. Qed.
Lemma elem_of_ids id l : id ∈ ids l <-> exists k n, (id, k, n) ∈ l.
Proof.
  unfold ids. rewrite list_elem_of_fmap. split; [intros ([[i k] n] & -> & ?); eauto|]. intros (k & n & ?). by exists (id, k, n).
Qed.
Lemma elem_of_ids_unlist id l i : i ∈ ids (unlist id l) <-> i ∈ ids l /\ i <> id.
Proof. rewrite !elem_of_ids. setoid_rewrite elem_of_unlist. naive_solver. Qed.

Lemma nodup_ids l id k n k' n' : NoDup (ids l) -> (id, k, n) ∈ l -> (id, k', n') ∈ l -> k = k' /\ n = n'.
Proof.
  induction l as [|[[i j] m] l IH]; [by intros _ ?%not_elem_of_nil|]. cbn. intros [Hi Hn]%NoDup_cons.
  assert (Hno : forall k n, (i, k, n) ∈ l -> False) by (intros; apply Hi, elem_of_ids; eauto).
  intros [Ha|Ha]%elem_of_cons [Hb|Hb]%elem_of_cons; simplify_eq; [done|by exfalso; eapply Hno|by exfalso; eapply Hno|by apply IH].
Qed.

Lemma carried_snoc id a b i k :
  a_carried b = a_carried a ++ [(i, k)] -> carried_on id b = carried_on id a + if decide (i = id) then 1 else 0.
Proof.
  intros Hb. unfold carried_on. rewrite Hb, filter_app, length_app, filter_cons. rewrite filter_nil. simpl. case_decide; cbn [length]; lia.
Qed.

Lemma ids_snoc l id k n : ids (l ++ [(id, k, n)]) = ids l ++ [id].
Proof. unfold ids. by rewrite fmap_app. Qed.

Lemma carried_none a id : actor_inv a -> id ∉ a_used a -> carried_on id a = 0.
Proof.
  intros Hi Hn. unfold carried_on. destruct (filter _ (a_carried a)) as [|f l] eqn:Hf; [done|exfalso].
  assert (Hx : f ∈ filter (fun f : PathId * PeerPath => f.1 = id) (a_carried a)) by (rewrite Hf; apply list_elem_of_here).
  apply list_elem_of_filter in Hx as [<- Hx]. by apply (ai_carried_used _ Hi) in Hx.
Qed.

Lemma open_inv a id kind :
  actor_inv a -> id ∉ a_used a -> a_pending a = None ->
  actor_inv {| a_listed := a_listed a ++ [(id, kind, 0)]; a_used := id :: a_used a; a_pending := Some (Opened id);
               a_sent := a_sent a; a_carried := a_carried a |}.
Proof.
  intros Hi Hnew Hp. pose proof (carried_none a id Hi Hnew) as Hzero. destruct Hi as [Hnd Hlu Hcu Hl Hc Ho].
  assert (Hni : id ∉ ids (a_listed a)) by (intros ?%Hlu; done). split; cbn [a_listed a_used a_pending a_sent a_carried].
  - rewrite ids_snoc. apply NoDup_app. split; [done|]. split; [|apply NoDup_singleton].
    intros x Hx Hs%list_elem_of_singleton. by subst.
  - intros i. rewrite ids_snoc. intros [Hx|Hx%list_elem_of_singleton]%elem_of_app; [right; auto|subst; by left].
  - intros f Hf. right. auto.
  - intros i k n [Hin|Hin%list_elem_of_singleton]%elem_of_app; [by apply Hl|]. injection Hin as -> -> ->.
    split; [by symmetry|]. intros k' Hk. by apply Hcu in Hk.
  - intros i k n [Hx|Hx]; [|done]. destruct (Hc i k n (or_introl Hx)) as ((Hu & Hni') & ? & ?). split; [|done]. split; [by right|].
    simpl. rewrite ids_snoc. intros [?|Hs%list_elem_of_singleton]%elem_of_app; [done|]. by subst.
  - intros i [= <-]. rewrite ids_snoc. apply elem_of_app. right. by apply list_elem_of_singleton.
Qed.

Lemma carry_inv a id kind n :
  actor_inv a -> (id, kind, n) ∈ a_listed a ->
  actor_inv {| a_listed := bump id (a_listed a); a_used := a_used a; a_pending := a_pending a;
               a_sent := a_sent a; a_carried := a_carried a ++ [(id, kind)] |}.
Proof.
  intros [Hnd Hlu Hcu Hl Hc Ho] Hin. assert (Hids : id ∈ ids (a_listed a)) by (apply elem_of_ids; eauto).
  set (b := Build_Actor _ _ _ _ _). pose proof (fun i => carried_snoc i a b id kind eq_refl) as Hb.
  assert (Hkeep : forall i k m, m = carried_on i a -> (forall k', (i, k') ∈ a_carried a -> k' = k) -> (i = id -> k = kind) ->
    forall k', (i, k') ∈ a_carried b -> k' = k).
  { intros i k m _ Hk Hik k' [?|Hx%list_elem_of_singleton]%elem_of_app; [by apply Hk|]. injection Hx as -> ->. symmetry. by apply Hik. }
  split; subst b; cbn [a_listed a_used a_pending a_sent a_carried] in *; rewrite ?ids_bump; try done.
  - intros f [?|Hx%list_elem_of_singleton]%elem_of_app; [auto|]. subst f. by apply Hlu.
  - intros i k m (m' & Hx & ->)%elem_of_bump. destruct (Hl i k m' Hx) as [-> Hk]. split.
    + rewrite Hb. destruct (decide (i = id)) as [->|]; [by rewrite decide_True|]. rewrite decide_False by done. lia.
    + eapply Hkeep; [done..|]. intros ->. by destruct (nodup_ids _ _ _ _ _ _ Hnd Hx Hin).
  - intros i k m Hx. destruct (Hc i k m Hx) as ((Hu & Hni) & -> & Hk).
    assert (Hne : i <> id) by (intros ->; done). split; [split; [done|]; simpl; by rewrite ids_bump|]. split.
    + rewrite Hb, decide_False by done. lia.
    + by eapply Hkeep.
Qed.

Lemma nodup_unlist id l : NoDup (ids l) -> NoDup (ids (unlist id l)).
Proof.
  induction l as [|x l IH]; [by constructor|]. intros Hn. change (ids (x :: l)) with (x.1.1 :: ids l) in Hn. apply NoDup_cons in Hn as [Hx Hn].
  unfold unlist. rewrite filter_cons. fold (unlist id l). case_decide; [|auto].
  change (NoDup (x.1.1 :: ids (unlist id l))). constructor; [|auto]. by intros [? _]%elem_of_ids_unlist.
Qed.

Lemma close_inv a id kind n :
  actor_inv a -> (id, kind, n) ∈ a_listed a -> a_pending a = None ->
  actor_inv {| a_listed := unlist id (a_listed a); a_used := a_used a; a_pending := Some (Closed id kind n);
               a_sent := a_sent a; a_carried := a_carried a |}.
Proof.
  intros [Hnd Hlu Hcu Hl Hc Ho] Hin Hp. split; cbn [a_listed a_used a_pending a_sent a_carried]; try done.
  - by apply nodup_unlist.
  - intros i [Hi _]%elem_of_ids_unlist. auto.
  - intros i k m [Hx _]%elem_of_unlist. by apply Hl.
  - intros i k m [Hx|Hx].
    + destruct (Hc i k m (or_introl Hx)) as ((Hu & Hni) & ? & ?). split; [|done]. split; [done|]. simpl. by intros [? _]%elem_of_ids_unlist.
    + injection Hx as <- <- <-. split; [|by apply Hl]. split; [apply Hlu, elem_of_ids; eauto|]. simpl. by intros [_ ?]%elem_of_ids_unlist.
Qed.

Lemma sent_inv a e e' :
  actor_inv a -> a_pending a = Some e -> e' = e \/ e' = Lagged ->
  actor_inv {| a_listed := a_listed a; a_used := a_used a; a_pending := None; a_sent := a_sent a ++ [e']; a_carried := a_carried a |}.
Proof.
  intros [Hnd Hlu Hcu Hl Hc Ho] Hp He. split; cbn [a_listed a_used a_pending a_sent a_carried]; try done.
  intros i k n [[Hx|Hx%list_elem_of_singleton]%elem_of_app|Hx]; [apply Hc; by left| |done].
  destruct He as [->| ->]; [|done]. apply Hc. right. by rewrite Hp, Hx.
Qed.

Lemma actor_step_inv a b : actor_inv a -> actor_step a b -> actor_inv b.
Proof.
  intros Hi Hs. destruct Hs; [by apply open_inv|by eapply carry_inv|by eapply close_inv|eapply sent_inv; eauto..].
Qed.
Lemma actor_steps_inv a b : actor_inv a -> rtc actor_step a b -> actor_inv b.
Proof. intros Hi Hs. induction Hs; [done|]. by eauto using actor_step_inv. Qed.

Lemma start_inv a : rtc actor_step actor_start a -> actor_inv (subscribe a).
Proof.
  intros Hs. assert (Hi : actor_inv a).
  { eapply actor_steps_inv; [|exact Hs]. split; cbn.
    - constructor.
    - by intros ? ?%not_elem_of_nil.
    - by intros ? ?%not_elem_of_nil.
    - by intros ? ? ? ?%not_elem_of_nil.
    - by intros id k n [?%not_elem_of_nil|].
    - done. }
  destruct Hi as [Hnd Hlu Hcu Hl Hc Ho]. split; cbn; try done. intros id k n [?%not_elem_of_nil|Hp]; [done|]. apply Hc. by right.
Qed.

(** *** What changes and what never does *)
Lemma step_mono a b :
  actor_step a b -> (forall id, id ∈ a_used a -> id ∈ a_used b) /\ (forall e, e ∈ a_sent a -> e ∈ a_sent b) /\
  exists l, a_carried b = a_carried a ++ l.
Proof.
  intros Hs. destruct Hs; cbn; split_and!; try done; try (by exists []; rewrite app_nil_r).
  - intros i ?. by right.
  - eauto.
  - intros x ?. apply elem_of_app. by left.
  - intros x ?. apply elem_of_app. by left.
Qed.
Lemma steps_mono a b :
  rtc actor_step a b -> (forall id, id ∈ a_used a -> id ∈ a_used b) /\ (forall e, e ∈ a_sent a -> e ∈ a_sent b) /\
  exists l, a_carried b = a_carried a ++ l.
Proof.
  intros Hs. induction Hs as [a|a b c Hs _ (H1 & H2 & l2 & H3)]; [split_and!; try done; exists []; by rewrite app_nil_r|].
  destruct (step_mono _ _ Hs) as (G1 & G2 & l1 & G3). split_and!; [auto..|]. exists (l1 ++ l2). by rewrite H3, G3, app_assoc.
Qed.

(** A path that left the list carries nothing more. *)
Lemma gone_step a b id : actor_inv a -> actor_step a b -> gone a id -> gone b id /\ carried_on id b = carried_on id a.
Proof.
  intros Hi Hs [Hu Hn]. unfold gone. destruct Hs as [a i k Hnew Hp|a i k n Hin|a i k n Hin Hp|a e Hp|a e Hp]; cbn; try done.
  - split; [|done]. split; [by right|]. rewrite ids_snoc. intros [?|Hx%list_elem_of_singleton]%elem_of_app; [done|]. by subst.
  - rewrite ids_bump. split; [done|]. rewrite (carried_snoc id a (Build_Actor _ _ _ _ _) i k eq_refl), decide_False; [lia|].
    intros ->. apply Hn, elem_of_ids. eauto.
  - split; [|done]. split; [done|]. by intros [? _]%elem_of_ids_unlist.
Qed.
Lemma gone_steps a b id : actor_inv a -> rtc actor_step a b -> gone a id -> gone b id /\ carried_on id b = carried_on id a.
Proof.
  intros Hi Hs. induction Hs as [a|a b c Hs _ IH]; [done|]. intros Hg. destruct (gone_step a b id Hi Hs Hg) as [Hb <-].
  apply IH; [by eapply actor_step_inv|done].
Qed.

(** What a subscriber knows of a path opened, or closed, since it subscribed. *)
Record heard_of (start a : Actor) : Prop := {
  ho_opened id : id ∈ a_used a -> id ∈ a_used start \/ announced a (Opened id) \/ Lagged ∈ a_sent a;
  ho_closed id : gone a id -> gone start id \/ (exists k n, announced a (Closed id k n)) \/ Lagged ∈ a_sent a }.

Lemma announced_sent a e e' listed used carried :
  a_pending a = Some e -> announced a e' ->
  announced {| a_listed := listed; a_used := used; a_pending := None; a_sent := a_sent a ++ [e]; a_carried := carried |} e'.
Proof. intros Hp [?|He]; left; cbn; apply elem_of_app; [by left|right]. apply list_elem_of_singleton. congruence. Qed.

Lemma heard_step start a b : heard_of start a -> actor_step a b -> heard_of start b.
Proof.
  intros [Ho Hc] Hs. unfold gone in *. destruct Hs as [a i k Hnew Hp|a i k n Hin|a i k n Hin Hp|a e Hp|a e Hp]; split; unfold gone; cbn [a_used a_listed a_sent].
  - intros id [->|Hu]%elem_of_cons; [right; left; by right|]. destruct (Ho id Hu) as [?|[[?|?]|?]]; [by left|right; left; by left|congruence|by right; right].
  - intros id [[->|Hu]%elem_of_cons Hn]; [exfalso; apply Hn; rewrite ids_snoc, elem_of_app, list_elem_of_singleton; by right|].
    rewrite ids_snoc, not_elem_of_app in Hn. destruct Hn as [Hn _].
    destruct (Hc id (conj Hu Hn)) as [?|[(k' & n & [?|?])|?]]; [by left|right; left; exists k', n; by left|congruence|by right; right].
  - done.
  - intros id. rewrite ids_bump. apply Hc.
  - intros id Hu. destruct (Ho id Hu) as [?|[[?|?]|?]]; [by left|right; left; by left|congruence|by right; right].
  - intros id [Hu Hn]. destruct (decide (id = i)) as [->|Hne]; [right; left; exists k, n; by right|].
    destruct (Hc id) as [?|[(k' & n' & [?|?])|?]]; [|by left|right; left; exists k', n'; by left|congruence|by right; right].
    split; [done|]. intros Hx. apply Hn, elem_of_ids_unlist. done.
  - intros id Hu. destruct (Ho id Hu) as [?|[?|?]]; [by left|right; left; by apply announced_sent|right; right; apply elem_of_app; by left].
  - intros id Hg. destruct (Hc id Hg) as [?|[(k' & n' & ?)|?]]; [by left|right; left; exists k', n'; by apply announced_sent|right; right; apply elem_of_app; by left].
  - intros id Hu. right; right. apply elem_of_app. right. by apply list_elem_of_singleton.
  - intros id Hg. right; right. apply elem_of_app. right. by apply list_elem_of_singleton.
Qed.
Lemma heard_steps start a b : heard_of start a -> rtc actor_step a b -> heard_of start b.
Proof. intros Hh Hs. induction Hs; [done|]. eauto using heard_step. Qed.
Lemma heard_start a : heard_of a a.
Proof. split; intros; by left. Qed.

(** *** Every frame of the window is marked *)
Lemma sample_of_Some id l n : sample_of id l = Some n -> exists k, (id, k, n) ∈ l.
Proof.
  unfold sample_of. rewrite fmap_Some. intros ([[i k] m] & [Hin Hi%bool_decide_eq_true]%find_first_Some & ->). simpl in *. subst i. eauto.
Qed.
Lemma sample_of_None id l : sample_of id l = None -> id ∉ ids l.
Proof.
  unfold sample_of. rewrite fmap_None, find_first_None, Forall_forall. intros Hn (k & n & Hin)%elem_of_ids.
  specialize (Hn _ Hin). by apply bool_decide_eq_false in Hn.
Qed.
Lemma elem_of_opened id l : id ∈ opened_ids l <-> Opened id ∈ l.
Proof.
  unfold opened_ids. rewrite list_elem_of_omap. split; [|by exists (Opened id)].
  intros ([i|i k n| |] & Hin & Hx); try done. by injection Hx as ->.
Qed.
Lemma elem_of_closed id l : id ∈ closed_ids l <-> exists k n, Closed id k n ∈ l.
Proof.
  unfold closed_ids. rewrite list_elem_of_omap. split; [|intros (k & n & ?); by exists (Closed id k n)].
  intros ([i|i k n| |] & Hin & Hx); try done. injection Hx as ->. eauto.
Qed.
Lemma accounted_spec after events id :
  accounted after events id = true <-> id ∈ ids after \/ id ∈ closed_ids events.
Proof.
  unfold accounted. rewrite orb_true_iff, bool_decide_eq_true, existsb_exists, elem_of_ids. setoid_rewrite <- list_elem_of_In.
  setoid_rewrite bool_decide_eq_true. split; (intros [H|H]; [left|by right]).
  - destruct H as ([[i k] n] & ? & Hi). simpl in Hi. subst i. eauto.
  - destruct H as (k & n & ?). by exists (id, k, n).
Qed.

Lemma carried_nonneg a id : 0 <= carried_on id a.
Proof. unfold carried_on. lia. Qed.

(** A path that carried something between the samples was listed at the first, or opened after. *)
Lemma carried_between before after id :
  actor_inv before -> rtc actor_step before after -> carried_on id before < carried_on id after ->
  id ∈ ids (a_listed before) \/ id ∉ a_used before.
Proof.
  intros Hi Hs Hlt. destruct (decide (id ∈ ids (a_listed before))) as [?|Hn]; [by left|]. right. intros Hu.
  destruct (gone_steps before after id Hi Hs (conj Hu Hn)) as [_ Heq]. lia.
Qed.

Lemma carried_mono a b id : rtc actor_step a b -> carried_on id a <= carried_on id b.
Proof.
  intros (_ & _ & l & Hl)%steps_mono. unfold carried_on. rewrite Hl, filter_app, length_app. lia.
Qed.

Lemma carried_used a id : actor_inv a -> 0 < carried_on id a -> id ∈ a_used a.
Proof. intros Hi Hp. destruct (decide (id ∈ a_used a)) as [?|Hn]; [done|]. rewrite (carried_none a id Hi Hn) in Hp. lia. Qed.

Lemma frame_marked start before after done id k :
  measured start before after done ->
  carried_on id before < carried_on id after -> (id, k) ∈ a_carried after ->
  existsb untrusted (a_sent done) = false ->
  (forall x, x ∈ a_listed before -> accounted (a_listed after) (a_sent done) x.1.1 = true) ->
  (forall i, i ∈ opened_ids (a_sent done) -> accounted (a_listed after) (a_sent done) i = true) ->
  k ∈ moved_kinds (a_listed before) (a_listed after) (a_sent done).
Proof.
  intros [(a0 & H0 & ->) H1 H2 H3] Hlt Hk Htr Hb Ho.
  assert (I0 := start_inv _ H0). assert (I1 := actor_steps_inv _ _ I0 H1). assert (I2 := actor_steps_inv _ _ I1 H2).
  assert (I3 := actor_steps_inv _ _ I2 H3).
  assert (Hlag : Lagged ∉ a_sent done).
  { intros Hin. apply not_true_iff_false in Htr. apply Htr, existsb_exists. exists Lagged. by rewrite <- list_elem_of_In. }
  assert (Hsince : forall n m, m < n -> 0 <? since n m = true) by (intros; unfold since; apply Z.ltb_lt; lia).
  assert (Hfresh := carried_between _ _ _ I1 H2 Hlt).
  unfold moved_kinds. apply elem_of_app. destruct (decide (id ∈ ids (a_listed after))) as [Hin|Hout].
  { right. apply elem_of_ids in Hin as (kind & n & Hin). destruct (ai_listed _ I2 _ _ _ Hin) as [-> Hkk]. rewrite (Hkk _ Hk).
    apply list_elem_of_omap. exists (id, kind, carried_on id after). split; [done|]. unfold sample_kind. simpl.
    destruct (sample_of id (a_listed before)) as [base|] eqn:Hs; simpl.
    - apply sample_of_Some in Hs as [k' Hs]. destruct (ai_listed _ I1 _ _ _ Hs) as [-> _]. by rewrite Hsince.
    - pose proof (carried_nonneg before id). rewrite Hsince; [done|lia]. }
  assert (Hused : id ∈ a_used after) by (apply carried_used; [done|]; pose proof (carried_nonneg before id); lia).
  destruct (gone_steps _ _ _ I2 H3 (conj Hused Hout)) as [Hgone Hsame].
  assert (Hopened : id ∉ ids (a_listed before) -> id ∈ opened_ids (a_sent done)).
  { intros Hnb. destruct Hfresh as [?|Hnu]; [done|]. assert (Hh := heard_steps _ _ _ (heard_steps _ _ _ (heard_steps _ _ _ (heard_start _) H1) H2) H3).
    destruct (ho_opened _ _ Hh id (proj1 Hgone)) as [Hx|[[Hx|Hx]|Hx]]; [|by apply elem_of_opened| |done].
    - by apply (steps_mono _ _ H1) in Hx.
    - by apply (ai_opening _ I3) in Hx as ?%(proj2 Hgone). }
  destruct (decide (id ∈ closed_ids (a_sent done))) as [Hc|Hnc].
  - left. apply elem_of_closed in Hc as (kind & n & Hc). destruct (ai_closed _ I3 id kind n (or_introl Hc)) as (_ & -> & Hkk).
    destruct (steps_mono _ _ H3) as (_ & _ & l & Hl). rewrite (Hkk k) by (rewrite Hl; apply elem_of_app; by left).
    apply list_elem_of_omap. exists (Closed id kind (carried_on id done)). split; [done|]. simpl. unfold closed_from.
    destruct (sample_of id (a_listed before)) as [base|] eqn:Hs; simpl.
    + apply sample_of_Some in Hs as [k' Hs]. destruct (ai_listed _ I1 _ _ _ Hs) as [-> _]. by rewrite Hsince by lia.
    + apply sample_of_None in Hs. rewrite decide_True by auto. simpl. pose proof (carried_nonneg before id). by rewrite Hsince by lia.
  - exfalso. assert (Hacc : accounted (a_listed after) (a_sent done) id = true); [|by apply accounted_spec in Hacc as [?|?]].
    destruct (decide (id ∈ ids (a_listed before))) as [(kk & n & Hin)%elem_of_ids|Hnb]; [by apply (Hb _ Hin)|]. by apply Ho, Hopened.
Qed.

Lemma carried_pos a id : 0 < carried_on id a -> exists k, (id, k) ∈ a_carried a.
Proof.
  unfold carried_on. destruct (filter _ (a_carried a)) as [|[i k] l] eqn:Hf; [simpl; lia|intros _].
  assert (Hx : (i, k) ∈ filter (fun f : PathId * PeerPath => f.1 = id) (a_carried a)) by (rewrite Hf; apply list_elem_of_here).
  apply list_elem_of_filter in Hx as [Hi Hx]. simpl in Hi. subst i. eauto.
Qed.

(** A kind that is marked is that of a path that carried something. *)
Lemma kind_carried start before after done p :
  measured start before after done -> p ∈ moved_kinds (a_listed before) (a_listed after) (a_sent done) ->
  exists id, (id, p) ∈ a_carried done.
Proof.
  intros [(a0 & H0 & ->) H1 H2 H3].
  assert (I0 := start_inv _ H0). assert (I1 := actor_steps_inv _ _ I0 H1). assert (I2 := actor_steps_inv _ _ I1 H2).
  assert (I3 := actor_steps_inv _ _ I2 H3). destruct (steps_mono _ _ H3) as (_ & _ & l & Hl).
  assert (Hpos : forall n m, (0 <? since n m) = true -> 0 <= m -> 0 < n) by (unfold since; intros n m ?%Z.ltb_lt ?; lia).
  unfold moved_kinds. intros [(e & He & Hk)%list_elem_of_omap|(x & Hx & Hk)%list_elem_of_omap]%elem_of_app.
  - destruct e as [|id kind n| |]; try done. simpl in Hk. destruct (closed_from _ _ id) as [from|] eqn:Hfrom; [|done]. simpl in Hk.
    destruct (0 <? since n from) eqn:Hs; [|done]. injection Hk as ->.
    destruct (ai_closed _ I3 id p n (or_introl He)) as (_ & Hn & Hkk). destruct (carried_pos done id) as [k Hk]; [|by rewrite (Hkk k Hk) in Hk; eauto].
    rewrite <- Hn. apply (Hpos _ _ Hs). unfold closed_from in Hfrom. destruct (sample_of id (a_listed before)) as [b|] eqn:Hb.
    + injection Hfrom as <-. apply sample_of_Some in Hb as [k Hb]. destruct (ai_listed _ I1 _ _ _ Hb) as [-> _]. apply carried_nonneg.
    + case_decide; [|done]. by injection Hfrom as <-.
  - destruct x as [[id kind] n]. unfold sample_kind in Hk. simpl in Hk. destruct (0 <? since n _) eqn:Hs; [|done]. injection Hk as ->.
    destruct (ai_listed _ I2 _ _ _ Hx) as [Hn Hkk]. destruct (carried_pos after id) as [k Hk].
    + rewrite <- Hn. apply (Hpos _ _ Hs). destruct (sample_of id (a_listed before)) as [b|] eqn:Hb; [|done]. simpl.
      apply sample_of_Some in Hb as [k Hb]. destruct (ai_listed _ I1 _ _ _ Hb) as [-> _]. apply carried_nonneg.
    + rewrite (Hkk k Hk) in Hk. exists id. rewrite Hl. apply elem_of_app. by left.
Qed.

(** What several windows come to: the first that is not idle without an answer decides. *)
Lemma combine_windows_spec n measure i :
  (forall k, (k < n)%nat -> measure (i + k)%nat = Idle Unknown) /\ combine_windows n measure i = Unknown \/
  exists k, (k < n)%nat /\ (forall j, (j < k)%nat -> measure (i + j)%nat = Idle Unknown) /\ measure (i + k)%nat <> Idle Unknown /\
    combine_windows n measure i = match measure (i + k)%nat with Moved p | Idle p => p | Unobservable => Unknown end.
Proof.
  revert i. induction n as [|n IH]; intros i; simpl; [left; split; [intros; lia|done]|].
  destruct (decide (measure i = Idle Unknown)) as [He|Hne].
  - rewrite He. destruct (IH (S i)) as [[Hall Hc]|(k & Hk & Hall & Hn & Hc)].
    + left. split; [|done]. intros [|k] Hk; [by rewrite Nat.add_0_r|]. rewrite <- Nat.add_succ_comm. apply Hall. lia.
    + right. exists (S k). rewrite <- Nat.add_succ_comm. split_and!; [lia| |done|done].
      intros [|j] Hj; [by rewrite Nat.add_0_r|]. rewrite <- Nat.add_succ_comm. apply Hall. lia.
  - right. exists 0%nat. rewrite Nat.add_0_r. split_and!; [lia|intros; lia|done|]. by destruct (measure i) as [|[]|].
Qed.

(** [settle] always answers: with the first direct reading, or with the first reading at its
    deadline; it is never later than one poll after it. *)
Lemma settled_path_spec window clock probe :
  0 <= window -> (forall i, clock i + 50 <= clock (S i)) ->
  exists i, settled_path window clock probe = Some (probe i) /\
    (probe i = Direct \/ clock 0%nat + window <= clock i) /\
    forall j, (j < i)%nat -> probe j <> Direct /\ clock j < clock 0%nat + window.
Proof.
  intros Hw Hclock. unfold settled_path. set (fuel := S _). set (deadline := clock 0%nat + window).
  assert (Hgen : forall f i, (deadline - clock i < 50 * (Z.of_nat f - 1)) -> (0 < f)%nat ->
    exists k, settle f deadline clock probe i = Some (probe (i + k)%nat) /\ (probe (i + k)%nat = Direct \/ deadline <= clock (i + k)%nat) /\
    forall j, (j < k)%nat -> probe (i + j)%nat <> Direct /\ clock (i + j)%nat < deadline).
  { induction f as [|f IH]; intros i Hf Hp; [lia|]. simpl. case_decide as Hd.
    - exists 0%nat. rewrite Nat.add_0_r. split_and!; [done|by left|intros; lia].
    - destruct (Z.leb_spec deadline (clock i)).
      + exists 0%nat. rewrite Nat.add_0_r. split_and!; [done|by right|intros; lia].
      + pose proof (Hclock i). destruct (IH (S i)) as (k & Hk & Hc & Hall); [lia|lia|].
        exists (S k). rewrite <- Nat.add_succ_comm. split_and!; [done..|]. intros [|j] Hj; [by rewrite Nat.add_0_r|].
        rewrite <- Nat.add_succ_comm. apply Hall. lia. }
  destruct (Hgen fuel 0%nat) as (k & Hk & Hc & Hall); [|unfold fuel; lia|by exists k].
  unfold deadline, fuel. pose proof (Z.div_mod window 50 ltac:(lia)). pose proof (Z.mod_pos_bound window 50 ltac:(lia)).
  pose proof (Z.div_pos window 50 ltac:(lia) ltac:(lia)). lia.
Qed.

(** The structural reading: a selected path, or the only one, or nothing. *)
Lemma classify_paths_spec paths :
  (exists l1 kind l2, paths = l1 ++ (kind, true) :: l2 /\ (forall x, x ∈ l1 -> x.2 = false) /\ classify_paths paths = kind) \/
  (forall x, x ∈ paths -> x.2 = false) /\
  classify_paths paths = match paths with [(kind, _)] => kind | _ => Unknown end.
Proof.
  assert (Hgen : forall only count, (exists l1 kind l2, paths = l1 ++ (kind, true) :: l2 /\ (forall x, x ∈ l1 -> x.2 = false) /\ classify_loop only count paths = kind) \/
    (forall x, x ∈ paths -> x.2 = false) /\
    classify_loop only count paths = match paths, count, only with [], 1%nat, Some kind => kind | [(kind, _)], O, _ => kind | _, _, _ => Unknown end).
  { induction paths as [|[kind []] paths IH]; intros only count; simpl.
    - right. split; [by intros ? ?%not_elem_of_nil|]. by destruct count as [|[]], only.
    - left. exists [], kind, paths. split_and!; [done|by intros ? ?%not_elem_of_nil|done].
    - destruct (IH (Some kind) (S count)) as [(l1 & k & l2 & -> & Hl & Hc)|[Hall Hc]].
      + left. exists ((kind, false) :: l1), k, l2. split_and!; [done| |done]. by intros x [->|?%Hl]%elem_of_cons.
      + right. split; [by intros x [->|?%Hall]%elem_of_cons|]. rewrite Hc. by destruct paths as [|[] []], count. }
  destruct (Hgen None 0%nat) as [?|[H1 H2]]; [by left|right]. split; [done|]. unfold classify_paths. rewrite H2. by destruct paths as [|[] []].
Qed.

(** The watcher announces exactly the changes of posture, against an offline baseline, and what
    it announced last is what the last reading said. *)
Lemma net_watch_spec readings :
  let w := net_watch readings in
  let base := nw_previous net_watch_start in
  (forall l1 current stamp, readings = l1 ++ [(current, stamp)] -> signature (nw_previous w) = signature current) /\
  signature (nw_previous w) = default (signature base) (signature <$> last (nw_frames w)) /\
  nw_change w = last (nw_frames w) ≫= sn_last_change_epoch /\
  forall i a b, ((base :: nw_frames w) !! i) = Some a -> nw_frames w !! i = Some b -> signature a <> signature b.
Proof.
  cbv zeta. unfold net_watch. induction readings as [|[current stamp] l IH] using rev_ind.
  - split_and!; [by intros [|? []] ? ? ?|done..].
  - rewrite foldl_app. cbn [foldl]. set (w := foldl net_watch_turn net_watch_start l) in *. destruct IH as (_ & H2 & H3 & H4).
    unfold net_watch_turn. case_decide as Hs.
    + split_and!; try done. intros l1 c s Hl. apply app_inj_tail in Hl as [_ [= <- <-]]. by symmetry.
    + cbn [nw_previous nw_change nw_frames]. rewrite last_snoc. split_and!; try done.
      { intros l1 c s Hl. by apply app_inj_tail in Hl as [_ [= <- <-]]. }
      intros i a b Ha Hb. rewrite app_comm_cons in Ha. apply lookup_snoc_Some in Hb as [[Hi Hb]|[-> <-]].
      * rewrite lookup_app_l in Ha by (simpl; lia). by eapply H4.
      * rewrite lookup_app_l in Ha by (simpl; lia). intros Heq. apply Hs. rewrite H2. change (signature (stamped stamp current)) with (signature current) in Heq.
        rewrite <- Heq. destruct (nw_frames w) as [|f fs]; [by injection Ha as <-|]. rewrite (last_lookup (f :: fs)). simpl in Ha. cbn [length pred]. by rewrite Ha.
Qed.

(** ** Properties *)

(** One window never hides a relay.  Whatever paths opened, carried, closed and were
    announced or lost around a window: if the window reads [Moved Direct] then every application
    frame between its two samples went over a direct path, if it reads [Idle] none moved between
    them at all, and a path it blames has carried one. *)
Theorem window_private start before after done fallback :
  measured start before after done ->
  let reading := classify_window (a_listed before) (a_listed after) (a_sent done) fallback in
  let new := drop (length (a_carried before)) (a_carried after) in
  (reading = Moved Direct -> forall id k, (id, k) ∈ new -> k = Direct) /\
  (forall p, reading = Idle p -> p = fallback /\ new = []) /\
  forall p, reading = Moved p -> exists id, (id, p) ∈ a_carried done.
Proof.
  intros Hm reading new. pose proof (me_after _ _ _ _ Hm) as H2.
  destruct (steps_mono _ _ H2) as (_ & _ & l & Hl).
  assert (Hnew : new = l) by (unfold new; by rewrite Hl, drop_app_length).
  assert (Hlt : forall id k, (id, k) ∈ l -> carried_on id before < carried_on id after).
  { intros id k Hin. unfold carried_on. rewrite Hl, filter_app, length_app.
    assert (Hf : (id, k) ∈ filter (fun f : PathId * PeerPath => f.1 = id) l) by by apply list_elem_of_filter.
    destruct (filter (fun f : PathId * PeerPath => f.1 = id) l); [by apply not_elem_of_nil in Hf|]. simpl. lia. }
  assert (Hin : forall f, f ∈ l -> f ∈ a_carried after) by (intros; rewrite Hl; apply elem_of_app; by right).
  destruct (classify_cases (a_listed before) (a_listed after) (a_sent done) fallback) as (Hd & Hc & Hi). fold reading in Hd, Hc, Hi.
  rewrite Hnew. split_and!.
  - intros Hr id k Hk. destruct (Hd Hr) as (_ & Hall & Ht & Hb & Ho). apply Hall. eapply frame_marked; eauto.
  - intros p Hr. destruct (Hi p Hr) as (-> & Hnil & Ht & Hb & Ho). split; [done|]. destruct l as [|[id k] l]; [done|exfalso].
    apply (not_elem_of_nil k). rewrite <- Hnil. eapply frame_marked; [exact Hm|eapply Hlt|apply Hin|..]; eauto using list_elem_of_here.
  - intros p Hr. destruct Hc as [Hc|[(q & Hc & Hk)|Hc]]; [congruence| |congruence]. rewrite Hr in Hc. injection Hc as <-.
    by eapply kind_carried.
Qed.

(** A script is faithful to a run of the path list, over which [moved] was carried between the
    two samples. *)
Definition faithful `{U : RelayUrls} (s : WindowScript) (moved : list (PathId * PeerPath)) : Prop :=
  exists start before after done, measured start before after done /\
    ws_before s = a_listed before /\ ws_after s = a_listed after /\
    (forall seen, drain [] (ws_during s ++ ws_queued s) = Some seen -> seen = a_sent done) /\
    moved = drop (length (a_carried before)) (a_carried after).

Lemma drain_app `{U : RelayUrls} seen l1 l2 : drain seen (l1 ++ l2) = (drain seen l1 ≫= fun s => drain s l2).
Proof. revert seen. induction l1 as [|[e|] l1 IH]; intros seen; simpl; [done|apply IH|done]. Qed.

(** What a window that answers has read. *)
Lemma measure_window_reads `{U : RelayUrls} s r :
  measure_window s = r -> r <> Unobservable ->
  exists seen, drain [] (ws_during s ++ ws_queued s) = Some seen /\ r = classify_window (ws_before s) (ws_after s) seen (ws_fallback s) /\
    ws_closed_first s = false /\ ws_closed_second s = false.
Proof.
  unfold measure_window. rewrite drain_app. destruct (ws_closed_first s); [congruence|].
  destruct (drain [] (ws_during s)) as [s1|]; [|congruence]. destruct (ws_closed_second s); [congruence|]. simpl.
  destruct (drain s1 (ws_queued s)) as [s2|]; [|congruence]. intros <- _. eauto.
Qed.

(** A measured [Direct] is a statement about where the bytes went.  When a connection reads
    [Direct] over its windows, then in the window that decided every application frame between
    the two samples went over a direct path, in the windows before it none moved at all, and the
    connection was open throughout, whatever paths opened, carried, closed and were announced or
    lost around the samples. *)
Theorem measured_path_private `{U : RelayUrls} scripts moved :
  (forall i, faithful (scripts i) (moved i)) -> measured_path scripts = Direct ->
  exists k, (k < PATH_MEASURE_WINDOWS)%nat /\ (forall j, (j < k)%nat -> moved j = []) /\
    (forall id p, (id, p) ∈ moved k -> p = Direct) /\
    forall j, (j <= k)%nat -> ws_closed_first (scripts j) = false /\ ws_closed_second (scripts j) = false.
Proof.
  intros Hf Hd. unfold measured_path in Hd.
  destruct (combine_windows_spec PATH_MEASURE_WINDOWS (fun i => measure_window (scripts i)) 0) as [[_ Hu]|(k & Hk & Hall & _ & Hc)]; [congruence|].
  simpl in *. rewrite Hd in Hc.
  assert (Hread : forall i, measure_window (scripts i) <> Unobservable -> exists p,
    (measure_window (scripts i) = Moved p \/ measure_window (scripts i) = Idle p) /\
    (forall id q, measure_window (scripts i) = Moved Direct -> (id, q) ∈ moved i -> q = Direct) /\
    (measure_window (scripts i) = Idle p -> moved i = []) /\ ws_closed_first (scripts i) = false /\ ws_closed_second (scripts i) = false).
  { intros i Hn. destruct (measure_window_reads _ _ eq_refl Hn) as (seen & Hs & Hr & H1 & H2). rewrite Hr in *.
    destruct (Hf i) as (start & before & after & done' & Hm & Hb & Ha & He & Hmv). rewrite (He _ Hs), Hb, Ha in *.
    destruct (window_private _ _ _ _ (ws_fallback (scripts i)) Hm) as (Hdir & Hidle & _). rewrite <- Hmv in *.
    destruct (classify_window _ _ _ _) as [p|p|]; [| |done]; exists p; split_and!; try done; try tauto.
    - intros id q Hp. by apply Hdir.
    - intros _. by eapply Hidle. }
  exists k. split; [done|]. split_and!.
  - intros j Hj. destruct (Hread j) as (p & Hp & _ & Hi & _); [by rewrite (Hall j Hj)|]. apply Hi. destruct Hp as [Hp|Hp]; [|done]. by rewrite (Hall j Hj) in Hp.
  - intros id q Hin. destruct (Hread k) as (p & Hp & Hm & Hi & _); [by destruct (measure_window (scripts k))|].
    destruct Hp as [Hp|Hp]; rewrite Hp in Hc; subst p; [by eapply Hm|]. rewrite (Hi Hp) in Hin. by apply not_elem_of_nil in Hin.
  - intros j Hj. destruct (decide (j = k)) as [->|Hne].
    + destruct (Hread k) as (p & _ & _ & _ & ?); [by destruct (measure_window (scripts k))|done].
    + destruct (Hread j) as (p & _ & _ & _ & ?); [by rewrite (Hall j) by lia|done].
Qed.

(** ** Witnesses *)
Module Witness.
#[local] Instance plain_urls : RelayUrls :=
  {| RelayUrl := string; relay_parse := Some; url_scheme _ := "https"; url_host u := Some u; url_port _ := None |}.
Definition relay : PeerPath := Relayed (Some "https://relay").

(** A relayed path and a direct one; a frame goes over the direct one, which then closes. *)
Definition both : Actor :=
  {| a_listed := [(0%nat, relay, 0); (1%nat, Direct, 0)]; a_used := [1%nat; 0%nat]; a_pending := None;
     a_sent := [Opened 0; Opened 1]; a_carried := [] |}.
Lemma both_reached : rtc actor_step actor_start both.
Proof.
  eapply rtc_l; [apply (as_open _ 0%nat relay); [apply not_elem_of_nil|done]|].
  eapply rtc_l; [by eapply as_send|]. eapply rtc_l; [apply (as_open _ 1%nat Direct); [|done]; simpl; set_solver|].
  eapply rtc_l; [by eapply as_send|]. apply rtc_refl.
Defined.
Definition used_direct : Actor :=
  {| a_listed := [(0%nat, relay, 0)]; a_used := [1%nat; 0%nat]; a_pending := Some (Closed 1 Direct 1);
     a_sent := []; a_carried := [(1%nat, Direct)] |}.
Definition closed_direct : Actor :=
  {| a_listed := [(0%nat, relay, 0)]; a_used := [1%nat; 0%nat]; a_pending := None;
     a_sent := [Closed 1 Direct 1]; a_carried := [(1%nat, Direct)] |}.
Lemma window : measured (subscribe both) (subscribe both) used_direct closed_direct.
Proof.
  split; [exists both; split; [apply both_reached|done]|apply rtc_refl| |].
  - eapply rtc_l; [apply (as_carry _ 1%nat Direct 0); simpl; set_solver|].
    eapply rtc_l; [apply (as_close _ 1%nat Direct 1); [simpl; set_solver|done]|]. apply rtc_refl.
  - eapply rtc_l; [by eapply as_send|]. apply rtc_refl.
Defined.
Definition script : WindowScript :=
  {| ws_closed_first := false; ws_before := a_listed (subscribe both); ws_during := [Some OSelected];
     ws_closed_second := false; ws_after := a_listed used_direct;
     ws_queued := [Some (OClosed 1 (Ip (V4 1) 1) {| tx_stream := 1; tx_datagram := 0; rx_stream := 0; rx_datagram := 0 |})];
     ws_fallback := Unknown |}.
Lemma script_faithful : faithful script [(1%nat, Direct)].
Proof.
  exists (subscribe both), (subscribe both), used_direct, closed_direct. split; [apply window|]. split_and!; [done..| |done].
  intros seen Hs. vm_compute in Hs. injection Hs as <-. reflexivity.
Defined.
Lemma measured_path_private_witness : measured_path (fun _ => script) = Direct /\
  exists k, (k < 3)%nat /\ forall id p, (id, p) ∈ [(1%nat, Direct)] -> p = Direct.
Proof.
  split; [vm_compute; reflexivity|].
  destruct (measured_path_private (fun _ => script) (fun _ => [(1%nat, Direct)]) (fun _ => script_faithful) ltac:(vm_compute; reflexivity))
    as (k & Hk & _ & Hd & _). exists k. split; [exact Hk|exact Hd].
Defined.

(** The same with the close still unannounced: nothing is vouched for. *)
Example close_in_flight : classify_window (a_listed both) (a_listed used_direct) [] Unknown = Unobservable.
Proof. reflexivity. Qed.

(** One frame over the relay is blamed on it, whatever went direct. *)
Example relay_wins : classify_window (a_listed both) [(0%nat, relay, 1); (1%nat, Direct, 40)] [] Direct = Moved relay.
Proof. reflexivity. Qed.
End Witness.
