(* ===== verification/Mesh.v ===== *)
(** * The daemon's shared state and its service registry

    The part of [MeshState] ([node/src/daemon.rs]) the service and peer verbs work on, the
    building of the service registry from the configuration and the ephemeral registrations
    ([build_services_with_ephemeral]), the reload every mutation ends in, and the severing
    of a principal's connections ([sever_principals] of [node/src/daemon/handlers.rs]).

    A verb is a function of the state: it holds [reload_lock] from its first access to its
    last, and each access to a file or to the store takes the fault that befalls it. *)
From stdpp Require Import base list gmap strings sorting.
From Stdlib Require Import ZArith Lia Strings.Byte.
From S2P Require Import Prelude Bytes Json Externals Validate Identity Limits Allowlist Gate Service Hooks Config AuditFiles Registry Session.

(** ** State *)
Record EphemeralService := {
  eph_backend : BackendSpec;
  eph_allow : list string;
  eph_rate_limit_per_min : option Z }.

(** A backend object: what it runs or dials, its service's name, the permits of its
    semaphore and the limiter it shares. *)
Inductive ServiceBackend :=
| SpawnBackend (cmd : list string) (env : gmap string string) (cwd : option string)
    (concurrency : Z) (service : string) (limiter : nat)
| SocketBackend (path : string) (service : string) (limiter : nat).

(** What is served: [config.toml], the registrations of live control connections, the
    limiters, the backends built so far and the live registry. *)
Record Serving := {
  s_config : option bytes;
  s_ephemeral : gmap string EphemeralService;
  s_limiters : MeshLimiters;
  s_backends : list ServiceBackend;
  s_live : LiveServices }.

(** The connections: accepted ones in the registry, dialled ones in [PeerConns], and the
    handles closed so far. *)
Record Conns := {
  k_registry : ConnRegistry;
  k_dialled : PeerConns;
  k_closed : gset N }.

Record MeshState := {
  m_serving : Serving;
  m_store : PeerStore;
  m_roster : option RosterView;
  m_conns : Conns;
  m_audit : list AuditRecord }.

Definition with_serving (s : Serving) (m : MeshState) : MeshState :=
  {| m_serving := s; m_store := m_store m; m_roster := m_roster m; m_conns := m_conns m;
     m_audit := m_audit m |}.
Definition with_store (s : PeerStore) (m : MeshState) : MeshState :=
  {| m_serving := m_serving m; m_store := s; m_roster := m_roster m; m_conns := m_conns m;
     m_audit := m_audit m |}.
Definition with_conns (k : Conns) (m : MeshState) : MeshState :=
  {| m_serving := m_serving m; m_store := m_store m; m_roster := m_roster m; m_conns := k;
     m_audit := m_audit m |}.
Definition with_audit (r : AuditRecord) (m : MeshState) : MeshState :=
  {| m_serving := m_serving m; m_store := m_store m; m_roster := m_roster m; m_conns := m_conns m;
     m_audit := m_audit m ++ [r] |}.

Definition with_config (f : option bytes) (s : Serving) : Serving :=
  {| s_config := f; s_ephemeral := s_ephemeral s; s_limiters := s_limiters s;
     s_backends := s_backends s; s_live := s_live s |}.
Definition with_ephemeral (e : gmap string EphemeralService) (s : Serving) : Serving :=
  {| s_config := s_config s; s_ephemeral := e; s_limiters := s_limiters s;
     s_backends := s_backends s; s_live := s_live s |}.
Definition with_live (l : LiveServices) (s : Serving) : Serving :=
  {| s_config := s_config s; s_ephemeral := s_ephemeral s; s_limiters := s_limiters s;
     s_backends := s_backends s; s_live := l |}.
Definition close_handles (l : list N) (k : Conns) : Conns :=
  {| k_registry := k_registry k; k_dialled := k_dialled k; k_closed := list_to_set l ∪ k_closed k |}.

(** ** Verbs: a state monad with typed errors *)
Inductive VerbError :=
| InvalidParams (m : string)
| NoSuchService (service : string)
| PrincipalRevoked (principal : string)
| Failed (e : string).

Definition Verb (A : Type) : Type := MeshState -> result VerbError A * MeshState.

#[export] Instance verb_ret : MRet Verb := fun A a m => (Ok a, m).
#[export] Instance verb_bind : MBind Verb := fun A B f v m =>
  match v m with
  | (Ok a, m) => f a m
  | (Err e, m) => (Err e, m)
  end.

Definition bail {A} (e : VerbError) : Verb A := fun m => (Err e, m).
Definition gets {A} (f : MeshState -> A) : Verb A := fun m => (Ok (f m), m).
Definition modify (f : MeshState -> MeshState) : Verb unit := fun m => (Ok tt, f m).
(** A fallible computation on the state's contents, its error an untyped one. *)
Definition attempt {A} (f : MeshState -> result string A) : Verb A := fun m =>
  (map_err Failed (f m), m).
Definition ensure (b : bool) (e : VerbError) : Verb unit := if b then mret tt else bail e.
Definition on_serving (f : Serving -> Serving) : Verb unit := modify (fun m => with_serving (f (m_serving m)) m).
Definition audit (r : AuditRecord) : Verb unit := modify (with_audit r).

(** ** Building the registry *)

(** The entries of a [BTreeMap], in the order of their keys. *)
Definition by_key {A} (a b : string * A) : Prop := String.leb a.1 b.1 = true.
#[export] Instance by_key_dec {A} : RelDecision (@by_key A).
Proof. intros a b. unfold by_key. apply _. Defined.
Definition btree_iter {A} (m : gmap string A) : list (string * A) := merge_sort by_key (map_to_list m).

Definition spawn_concurrency (cfg : Config) : Z := Z.max (l_max_sessions (c_limits cfg)) 1.

Record Build := {
  bd_limiters : MeshLimiters;
  bd_backends : list ServiceBackend;
  bd_services : Services }.

Section build.
Context `{H : HashOrder}.

(** A new backend, sharing the limiter of its service's name and rate. *)
Definition session_backend_run (cmd : list string) (env : gmap string string) (cwd : option string)
    (name : string) (cfg : Config) (rate : option Z) (l : MeshLimiters) : ServiceBackend * MeshLimiters :=
  let '(i, l) := for_service name rate l in
  (SpawnBackend cmd env cwd (spawn_concurrency cfg) name i, l).

Definition session_backend_socket (path name : string) (rate : option Z) (l : MeshLimiters) :
    ServiceBackend * MeshLimiters :=
  let '(i, l) := for_service name rate l in (SocketBackend path name i, l).

Definition add_entry (name : string) (allow : list string) (kind : ServiceKind) (ephemeral : bool)
    (backend : ServiceBackend * MeshLimiters) (b : Build) : Build :=
  {| bd_limiters := backend.2;
     bd_backends := bd_backends b ++ [backend.1];
     bd_services := <[name := {| se_backend := length (bd_backends b); se_allow := allow;
                                 se_kind := kind; se_ephemeral := ephemeral |}]> (bd_services b) |}.

Definition build_config_entry (cfg : Config) (b : Build) (entry : string * ServiceCfg) : Build :=
  let '(name, svc) := entry in
  match backend_result svc with
  | Ok (BRun cmd) =>
      add_entry name (sc_allow svc) KRun false
        (session_backend_run cmd (sc_env svc) (sc_cwd svc) name cfg (sc_rate_limit_per_min svc)
           (bd_limiters b)) b
  | Ok (BSocket path) =>
      add_entry name (sc_allow svc) KSocket false
        (session_backend_socket path name (sc_rate_limit_per_min svc) (bd_limiters b)) b
  | Err _ => b
  end.

Definition build_ephemeral_entry (cfg : Config) (b : Build) (entry : string * EphemeralService) : Build :=
  let '(name, eph) := entry in
  match eph_backend eph with
  | Run cmd env cwd =>
      add_entry name (eph_allow eph) KRun true
        (session_backend_run cmd env cwd name cfg (eph_rate_limit_per_min eph) (bd_limiters b)) b
  | Socket path =>
      add_entry name (eph_allow eph) KSocket true
        (session_backend_socket path name (eph_rate_limit_per_min eph) (bd_limiters b)) b
  end.

Definition build_services_with_ephemeral (cfg : Config) (ephemeral : gmap string EphemeralService)
    (limiters : MeshLimiters) (backends : list ServiceBackend) : Build :=
  foldl (build_ephemeral_entry cfg)
    (foldl (build_config_entry cfg)
       {| bd_limiters := limiters; bd_backends := backends; bd_services := ∅ |}
       (btree_iter (c_services cfg)))
    (iter ephemeral).

Definition build_services_audited (cfg : Config) := build_services_with_ephemeral cfg ∅.

(** ** Reload and swap *)
Definition swap_services (s : Services) (sv : Serving) : Serving :=
  with_live (live_store s (s_live sv)) sv.

Context `{C : TomlCodec}.

(** Rebuilds from the disk and the registrations, and swaps. *)
Definition reload_services_from_disk (io : Config.Faults) (why : string) : Verb unit :=
  cfg ← attempt (fun m => map_err (fun e => "reload config after " +:+ why +:+ ": " +:+ e)%string
                            (config_load io (s_config (m_serving m))));
  on_serving (fun s =>
    let b := build_services_with_ephemeral cfg (s_ephemeral s) (s_limiters s) (s_backends s) in
    swap_services (bd_services b)
      {| s_config := s_config s; s_ephemeral := s_ephemeral s; s_limiters := bd_limiters b;
         s_backends := bd_backends b; s_live := s_live s |}).

(** One write of [config.toml]: whether it changed. *)
Definition config_rmw (io : Config.Faults) (edit : Table -> result string (option Table)) : Verb bool := fun m =>
  let '(r, file) := rmw io edit (s_config (m_serving m)) in
  (map_err Failed r, with_serving (with_config file (m_serving m)) m).
End build.

(** ** Severing *)
Section sever.
Context `{T : TextEncoding, R : RowCodec}.

Definition open_handle (m : MeshState) (c : N) : bool := bool_decide (c ∉ k_closed (m_conns m)).

(** [close_refused_peer_conns]: the dialled connections to devices now refused. *)
Definition close_refused_peer_conns (io : Allowlist.Io) (joined : bool) (m : MeshState) : nat * MeshState :=
  let cut := close_refused io (m_store m) (m_roster m) joined (open_handle m) (k_dialled (m_conns m)) in
  (length cut, with_conns (close_handles cut (m_conns m)) m).

(** The endpoints any of the principals names. *)
Definition endpoints_for_principals (io : Allowlist.Io) (store : PeerStore) (roster : option RosterView)
    (principals : list string) : result string (gset EndpointId) :=
  foldl (fun all p => all ← all; more ← endpoints_for_principal io store roster p; Ok (all ∪ more))
    (Ok ∅) principals.

Definition sever_principals (io : Allowlist.Io) (joined : bool) (principals : list string) : Verb nat := fun m =>
  let '(_, m) := close_refused_peer_conns io joined m in
  match endpoints_for_principals io (m_store m) (m_roster m) principals with
  | Err e => (Err (Failed e), m)
  | Ok targets =>
      let cut := sever_matching_admitted (fun eid => bool_decide (eid ∈ targets))
                   (fun p => bool_decide (p ∈ principals)) (k_registry (m_conns m)) in
      (Ok (length cut), with_conns (close_handles cut (m_conns m)) m)
  end.
End sever.

(** ** What a registry serves *)

(** A service as a caller meets it: what runs or is dialled, under which name it is audited
    and metered, and whom it admits. *)
Record Served := {
  sv_backend : BackendSpec;
  sv_service : string;
  sv_allow : list string;
  sv_kind : ServiceKind;
  sv_ephemeral : bool }.

Definition spec_of (b : ServiceBackend) : BackendSpec :=
  match b with
  | SpawnBackend cmd env cwd _ _ _ => Run cmd env cwd
  | SocketBackend path _ _ => Socket path
  end.
Definition service_name (b : ServiceBackend) : string :=
  match b with SpawnBackend _ _ _ _ s _ | SocketBackend _ s _ => s end.
Definition kind_of (b : BackendSpec) : ServiceKind :=
  match b with Run _ _ _ => KRun | Socket _ => KSocket end.

Definition serve_spec (name : string) (b : BackendSpec) (allow : list string) (ephemeral : bool) : Served :=
  {| sv_backend := b; sv_service := name; sv_allow := allow; sv_kind := kind_of b;
     sv_ephemeral := ephemeral |}.

Definition view (services : Services) (backends : list ServiceBackend) (name : string) : option Served :=
  match services !! name with
  | Some e =>
      match backends !! se_backend e with
      | Some b => Some {| sv_backend := spec_of b; sv_service := service_name b;
                          sv_allow := se_allow e; sv_kind := se_kind e; sv_ephemeral := se_ephemeral e |}
      | None => None
      end
  | None => None
  end.

(** What the configuration and the registrations ask for: a registration shadows an entry,
    an entry without exactly one backend is not served. *)
Definition config_served (name : string) (svc : ServiceCfg) : option Served :=
  match backend_result svc with
  | Ok (BRun cmd) => Some (serve_spec name (Run cmd (sc_env svc) (sc_cwd svc)) (sc_allow svc) false)
  | Ok (BSocket path) => Some (serve_spec name (Socket path) (sc_allow svc) false)
  | Err _ => None
  end.
Definition ephemeral_served (name : string) (e : EphemeralService) : Served :=
  serve_spec name (eph_backend e) (eph_allow e) true.

Definition served (cfg : Config) (ephemeral : gmap string EphemeralService) (name : string) : option Served :=
  match ephemeral !! name with
  | Some e => Some (ephemeral_served name e)
  | None => match c_services cfg !! name with Some svc => config_served name svc | None => None end
  end.

Definition live_services (s : Serving) : Services := services_at (s_live s) (live_get (s_live s)).
Definition live_view (s : Serving) : string -> option Served := view (live_services s) (s_backends s).

(** Every handle of a registry names a backend that was built. *)
Definition handles_valid (services : Services) (backends : list ServiceBackend) : Prop :=
  forall name e, services !! name = Some e -> se_backend e < length backends.

(** The live registry is what the file and the registrations say. *)
Definition in_sync `{TomlCodec} (s : Serving) : Prop :=
  handles_valid (live_services s) (s_backends s) /\
  exists cfg, config_load Config.healthy (s_config s) = Ok cfg /\
    forall name, live_view s name = served cfg (s_ephemeral s) name.

(** Folding an insertion over the entries of a map. *)
Lemma fold_overlay {S A C} (V : S -> string -> option C) (I : S -> Prop) (step : S -> string * A -> S)
    (f : string -> A -> option C) (m : gmap string A) l s :
  (forall s k a, I s -> I (step s (k, a)) /\
     forall n, V (step s (k, a)) n = if decide (n = k) then match f k a with Some c => Some c | None => V s n end
                               else V s n) ->
  Permutation l (map_to_list m) -> I s ->
  I (foldl step s l) /\
  forall n, V (foldl step s l) n =
    match m !! n with
    | Some a => match f n a with Some c => Some c | None => V s n end
    | None => V s n
    end.
Proof.
  intros Hstep Hp. assert (Hnd : NoDup l.*1) by (rewrite Hp; apply NoDup_fst_map_to_list).
  assert (Hm : forall n, m !! n = list_to_map (M := gmap string A) l !! n).
  { intros n. f_equal. rewrite (list_to_map_proper l (map_to_list m)) by done. by rewrite list_to_map_to_list. }
  setoid_rewrite Hm. clear Hm Hp m. revert s. induction l as [|[k a] l IH]; intros s HI; simpl.
  { split; [done|]. intros n. by rewrite lookup_empty. }
  apply NoDup_cons in Hnd as [Hk Hnd]. destruct (Hstep s k a HI) as [HI' HV].
  destruct (IH Hnd _ HI') as [HI2 HV2]. split; [done|]. intros n. rewrite HV2, HV.
  destruct (decide (n = k)) as [->|Hne].
  - rewrite lookup_insert_eq. by rewrite (not_elem_of_list_to_map_1 _ _ Hk).
  - rewrite lookup_insert_ne by done. done.
Qed.

Lemma foldl_inv {A B} (P : A -> Prop) (f : A -> B -> A) (l : list B) (a : A) :
  P a -> (forall a b, P a -> P (f a b)) -> P (foldl f a l).
Proof. intros Ha Hf. revert a Ha. induction l; simpl; auto. Qed.

Section build_lemmas.
Context `{H : HashOrder}.

Lemma btree_iter_perm {A} (m : gmap string A) : Permutation (btree_iter m) (map_to_list m).
Proof. apply merge_sort_Permutation. Qed.

Definition build_view (b : Build) : string -> option Served := view (bd_services b) (bd_backends b).
Definition build_valid (b : Build) : Prop := handles_valid (bd_services b) (bd_backends b).

Lemma view_app services backends more n :
  handles_valid services backends -> view services (backends ++ more) n = view services backends n.
Proof.
  intros Hv. unfold view. destruct (services !! n) as [e|] eqn:E; [|done].
  by rewrite lookup_app_l by eauto.
Qed.

(** An added entry serves what it was built from, and nothing else changes. *)
Lemma add_entry_view name allow kind eph backend b :
  build_valid b ->
  build_valid (add_entry name allow kind eph backend b) /\
  forall n, build_view (add_entry name allow kind eph backend b) n =
    if decide (n = name)
    then Some {| sv_backend := spec_of backend.1; sv_service := service_name backend.1; sv_allow := allow;
                 sv_kind := kind; sv_ephemeral := eph |}
    else build_view b n.
Proof.
  intros Hv. split.
  - intros n e. simpl. rewrite length_app. simpl. intros [[<- <-]|[_ He]]%lookup_insert_Some; simpl; [lia|].
    specialize (Hv n e He). lia.
  - intros n. unfold build_view, add_entry. simpl. case_decide as Hn.
    + subst n. unfold view. rewrite lookup_insert_eq. simpl. by rewrite list_lookup_middle.
    + rewrite <- (view_app (bd_services b) _ [backend.1]) by exact Hv.
      unfold view. by rewrite lookup_insert_ne by done.
Qed.

Lemma build_config_view cfg b name svc :
  build_valid b ->
  build_valid (build_config_entry cfg b (name, svc)) /\
  forall n, build_view (build_config_entry cfg b (name, svc)) n =
    if decide (n = name) then match config_served name svc with Some c => Some c | None => build_view b n end
    else build_view b n.
Proof.
  intros Hv. unfold build_config_entry, config_served, session_backend_run, session_backend_socket.
  destruct (backend_result svc) as [[cmd|path]|e].
  - destruct (for_service _ _ _) as [i l]. apply add_entry_view. done.
  - destruct (for_service _ _ _) as [i l]. apply add_entry_view. done.
  - split; [done|]. intros n. by case_decide.
Qed.

Lemma build_ephemeral_view cfg b name e :
  build_valid b ->
  build_valid (build_ephemeral_entry cfg b (name, e)) /\
  forall n, build_view (build_ephemeral_entry cfg b (name, e)) n =
    if decide (n = name) then Some (ephemeral_served name e) else build_view b n.
Proof.
  intros Hv. unfold build_ephemeral_entry, ephemeral_served, session_backend_run, session_backend_socket.
  destruct (eph_backend e); destruct (for_service _ _ _) as [i l]; by apply add_entry_view.
Qed.

(** The registry built serves exactly what was asked for. *)
Lemma build_serves cfg ephemeral limiters backends :
  let b := build_services_with_ephemeral cfg ephemeral limiters backends in
  build_valid b /\ forall name, build_view b name = served cfg ephemeral name.
Proof.
  simpl. unfold build_services_with_ephemeral, served. set (b0 := {| bd_limiters := limiters; bd_backends := backends; bd_services := ∅ |}).
  assert (H0 : build_valid b0) by (intros n e He; simpl in He; by rewrite lookup_empty in He).
  destruct (fold_overlay build_view build_valid (build_config_entry cfg) config_served (c_services cfg)
    (btree_iter (c_services cfg)) b0) as [Hv Hs];
    [intros; by apply build_config_view|apply btree_iter_perm|done|].
  destruct (fold_overlay build_view build_valid (build_ephemeral_entry cfg)
    (fun n e => Some (ephemeral_served n e)) ephemeral (iter ephemeral) _ ltac:(intros; by apply build_ephemeral_view)
    (iter_perm ephemeral) Hv) as [Hv2 Hs2].
  split; [exact Hv2|]. intros name. rewrite Hs2. destruct (ephemeral !! name); [done|]. rewrite Hs.
  destruct (c_services cfg !! name); [|done]. by destruct (config_served _ _).
Qed.

Lemma build_prefix cfg ephemeral limiters backends :
  backends `prefix_of` bd_backends (build_services_with_ephemeral cfg ephemeral limiters backends).
Proof.
  assert (Hc : forall b x, bd_backends b `prefix_of` bd_backends (build_config_entry cfg b x)).
  { intros b [n svc]. unfold build_config_entry, session_backend_run, session_backend_socket.
    destruct (backend_result svc) as [[]|]; [..|done]; destruct (for_service _ _ _); apply prefix_app_r; done. }
  assert (He : forall b x, bd_backends b `prefix_of` bd_backends (build_ephemeral_entry cfg b x)).
  { intros b [n e]. unfold build_ephemeral_entry, session_backend_run, session_backend_socket.
    destruct (eph_backend e); destruct (for_service _ _ _); apply prefix_app_r; done. }
  unfold build_services_with_ephemeral.
  apply foldl_inv; [|intros b x ?; by etrans]. apply foldl_inv; [done|intros b x ?; by etrans].
Qed.
End build_lemmas.
