(* ===== verification/Grants.v ===== *)
(** * Service registration, grants and revocation

    The service verbs of [node/src/daemon/handlers.rs]: registration (persistent and
    ephemeral), the grants of a pairing and of the grant verb, their revocation, and the
    authorization half of an unpairing; [principal_is_revoked] with them.  Each verb is its
    handler from its first access under [reload_lock] to its last. *)
From stdpp Require Import base list gmap strings.
From Stdlib Require Import ZArith Lia Strings.Byte.
From S2P Require Import Prelude Bytes Json Externals Validate Identity Limits Allowlist Gate Service Hooks Config AuditFiles Registry Session Mesh.

(** The faults of one verb: of its edit, of the guard that loads the configuration, of the
    reload, of its reads of the store and of those of the sever. *)
Record VerbIo := {
  v_edit : Config.Faults;
  v_check : Config.Faults;
  v_reload : Config.Faults;
  v_store : Allowlist.Io;
  v_sever : Allowlist.Io;
  v_joined : bool }.

Definition no_faults : VerbIo :=
  {| v_edit := Config.healthy; v_check := Config.healthy; v_reload := Config.healthy;
     v_store := Allowlist.healthy; v_sever := Allowlist.healthy; v_joined := true |}.

Record RegisterServiceParams := {
  rp_name : string;
  rp_backend : BackendSpec;
  rp_allow : list string;
  rp_ephemeral : bool;
  rp_rate_limit_per_min : option Z }.

(** ** The ephemeral registrations' lists *)
Definition with_eph_allow (f : list string -> list string) (e : EphemeralService) : EphemeralService :=
  {| eph_backend := eph_backend e; eph_allow := f (eph_allow e);
     eph_rate_limit_per_min := eph_rate_limit_per_min e |}.

(** [None]: no registration of the name; otherwise whether the list moved. *)
Definition grant_ephemeral (service principal : string) (map : gmap string EphemeralService) :
    option bool * gmap string EphemeralService :=
  match map !! service with
  | None => (None, map)
  | Some entry =>
      if existsb (fun a => bool_decide (a = principal)) (eph_allow entry) then (Some false, map)
      else (Some true, <[service := with_eph_allow (fun l => l ++ [principal]) entry]> map)
  end.

Definition revoke_ephemeral (service principal : string) (map : gmap string EphemeralService) :
    option bool * gmap string EphemeralService :=
  match map !! service with
  | None => (None, map)
  | Some entry =>
      let entry' := with_eph_allow (filter (fun a => a <> principal)) entry in
      (Some (negb (Nat.eqb (length (eph_allow entry')) (length (eph_allow entry)))),
       <[service := entry']> map)
  end.

(** A change of the registrations and what it answers. *)
Definition on_ephemeral {A} (f : gmap string EphemeralService -> A * gmap string EphemeralService) : Verb A := fun m =>
  let '(a, map) := f (s_ephemeral (m_serving m)) in
  (Ok a, with_serving (with_ephemeral map (m_serving m)) m).

(** A failure that is only logged. *)
Definition logged {A} (v : Verb A) : Verb unit := fun m => (Ok tt, (v m).2).

(** ** Which principals are revoked *)
Section revoked.
Context `{T : TextEncoding, R : RowCodec}.

Definition principal_to_endpoint (principal : string) : option EndpointId :=
  match strip_prefix "eid:" principal with
  | Some hex => match hexlower_decode hex with Ok b => try_key32 b | Err _ => None end
  | None => None
  end.

Definition principal_is_revoked (io : Allowlist.Io) (store : PeerStore) (roster : option RosterView)
    (principal : string) : bool :=
  match principal_to_endpoint principal with
  | Some id =>
      is_refused io store id
      || match roster with Some v => Validate.is_revoked v id | None => false end
  | None => starts_with "b64u:" principal && is_user_revoked io store principal
  end.

(** What unpairing one nickname strips: each device's principal, and its user unless
    another device someone paired still carries it. *)
Definition strips_user (others : list PeerEntry) (acc : list string) (user_id : string) : list string :=
  if existsb (fun o => bool_decide (pe_user_id o = Some user_id) && bool_decide (is_Some (pe_paired_at o))) others
     || bool_decide (user_id ∈ acc)
  then acc else acc ++ [user_id].

Definition service_principals (nickname : string) (rows : list PeerEntry) : list string :=
  let targets := filter (fun e => pe_nickname e = nickname) rows in
  let others := filter (fun e => pe_nickname e <> nickname) rows in
  foldl (fun acc t =>
           let acc := acc ++ [principal (pe_endpoint_id t)] in
           match pe_user_id t with Some uid => strips_user others acc uid | None => acc end)
    [] targets.
End revoked.

(** ** The verbs *)
Section verbs.
Context `{H : HashOrder, T : TextEncoding, R : RowCodec, C : TomlCodec}.

Definition load_config (io : Config.Faults) : Verb Config :=
  attempt (fun m => map_err (fun e => "config error in config.toml: " +:+ e)%string
                      (config_load io (s_config (m_serving m)))).

Definition has_ephemeral (name : string) : Verb bool :=
  gets (fun m => bool_decide (is_Some (s_ephemeral (m_serving m) !! name))).

Definition register_service (io : VerbIo) (p : RegisterServiceParams) : Verb unit :=
  _ ← ensure (negb (bool_decide (rp_rate_limit_per_min p = Some 0%Z)))
        (InvalidParams "rate_limit_per_min must be at least 1 (omit it to use [limits].rate_limit_per_min)");
  if rp_ephemeral p then
    cfg ← load_config (v_check io);
    _ ← ensure (negb (bool_decide (is_Some (c_services cfg !! rp_name p))))
          (Failed "service is already registered persistently in config");
    _ ← on_ephemeral (fun map => (tt, <[rp_name p :=
          {| eph_backend := rp_backend p; eph_allow := rp_allow p;
             eph_rate_limit_per_min := rp_rate_limit_per_min p |}]> map));
    reload_services_from_disk (v_reload io) "register-ephemeral"
  else
    taken ← has_ephemeral (rp_name p);
    _ ← ensure (negb taken) (Failed "service is currently registered ephemerally");
    _ ← config_rmw (v_edit io)
          (write_service_to_config (rp_name p) (rp_backend p) (rp_allow p) (rp_rate_limit_per_min p));
    reload_services_from_disk (v_reload io) "register".

(** When a control connection closes; a reload that fails is only logged. *)
Definition unregister_ephemeral (io : VerbIo) (names : list string) : Verb unit :=
  match names with
  | [] => mret tt
  | _ =>
      _ ← on_ephemeral (fun map => (tt, foldl (fun map name => delete name map) map names));
      logged (reload_services_from_disk (v_reload io) "unregister-ephemeral")
  end.

Definition unregister_service (io : VerbIo) (name : string) : Verb unit :=
  dropped_ephemeral ← on_ephemeral (fun map => (bool_decide (is_Some (map !! name)), delete name map));
  removed_config ← config_rmw (v_edit io) (remove_service_from_config name);
  if (dropped_ephemeral || removed_config : bool)
  then reload_services_from_disk (v_reload io) "unregister" else mret tt.

(** A pairing's grant: lenient about names it does not know. *)
Definition grant_service_access (io : VerbIo) (ts principal display_nickname : string)
    (services : list string) : Verb unit :=
  changed ← config_rmw (v_edit io) (append_allow_to_config principal services);
  changed ← on_ephemeral (fun map => foldl (fun '(changed, map) svc =>
              let '(moved, map) := grant_ephemeral svc principal map in
              (changed || default false moved, map)) (changed, map) services);
  _ ← (if (changed : bool) then reload_services_from_disk (v_reload io) "grant" else mret tt);
  audit (trust_record ts "pair" (Some display_nickname) (Some principal)).

Definition apply_ephemeral_allow (io : VerbIo) (service why : string) : Verb unit := fun m =>
  let s := m_serving m in
  let updated :=
    match s_ephemeral s !! service with
    | Some e => with_allow_replaced (live_services s) service (eph_allow e)
    | None => None
    end in
  match updated with
  | Some services => (Ok tt, with_serving (swap_services services s) m)
  | None => reload_services_from_disk (v_reload io) why m
  end.

Definition service_servable_in_config (io : VerbIo) (service : string) : Verb bool :=
  cfg ← load_config (v_check io);
  mret match c_services cfg !! service with
       | Some svc => is_ok (backend_result svc)
       | None => false
       end.

Definition grant_service_allow (io : VerbIo) (service principal : string) : Verb unit :=
  revoked ← gets (fun m => principal_is_revoked (v_store io) (m_store m) (m_roster m) principal);
  if (revoked : bool) then bail (PrincipalRevoked principal)
  else
    is_ephemeral ← has_ephemeral service;
    known ← (if (is_ephemeral : bool) then mret true else service_servable_in_config io service);
    _ ← ensure known (NoSuchService service);
    config_moved ← config_rmw (v_edit io) (append_allow_to_config principal [service]);
    ephemeral_moved ← on_ephemeral (grant_ephemeral service principal);
    if (config_moved : bool) then reload_services_from_disk (v_reload io) "service-allow-grant"
    else if default false ephemeral_moved then apply_ephemeral_allow io service "service-allow-grant"
    else mret tt.

(** The answer is the number of accepted connections cut. *)
Definition revoke_service_allow (io : VerbIo) (service principal : string) : Verb nat :=
  ephemeral_moved ← on_ephemeral (revoke_ephemeral service principal);
  config_moved ← config_rmw (v_edit io) (remove_principal_from_service service principal);
  known ← (if bool_decide (ephemeral_moved = None) && negb config_moved
           then service_servable_in_config io service else mret true);
  _ ← ensure known (NoSuchService service);
  if config_moved || default false ephemeral_moved then
    _ ← (if (config_moved : bool) then reload_services_from_disk (v_reload io) "service-allow-revoke"
         else apply_ephemeral_allow io service "service-allow-revoke");
    sever_principals (v_sever io) (v_joined io) [principal]
  else mret 0.

(** Whether an entry was stripped, and the connections cut. *)
Definition revoke_service_access (io : VerbIo) (nickname : string) : Verb bool :=
  rows ← attempt (fun m => list_peers (v_store io) (m_store m));
  let principals := service_principals nickname rows in
  if bool_decide (principals = []) then mret false
  else
    changed ← config_rmw (v_edit io) (remove_allow_from_config principals);
    _ ← (if (changed : bool) then reload_services_from_disk (v_reload io) "revoke" else mret tt);
    _ ← sever_principals (v_sever io) (v_joined io) principals;
    mret changed.
End verbs.

(** ** Reasoning about verbs *)
Lemma verb_bind_Ok {A B} (v : Verb A) (f : A -> Verb B) m b m' :
  (v ≫= f) m = (Ok b, m') <-> exists a m1, v m = (Ok a, m1) /\ f a m1 = (Ok b, m').
Proof.
  unfold mbind, verb_bind. destruct (v m) as [[a|e] m1]; split; [by eauto| |done|].
  - by intros (? & ? & [= <- <-] & ?).
  - by intros (? & ? & [=] & _).
Qed.

Lemma verb_bind_Err {A B} (v : Verb A) (f : A -> Verb B) m e m' :
  (v ≫= f) m = (Err e, m') <->
  v m = (Err e, m') \/ exists a m1, v m = (Ok a, m1) /\ f a m1 = (Err e, m').
Proof.
  unfold mbind, verb_bind. destruct (v m) as [[a|e'] m1]; split.
  - eauto.
  - by intros [[=]|(? & ? & [= <- <-] & ?)].
  - intros [= -> ->]. by left.
  - by intros [[= -> ->]|(? & ? & [=] & _)].
Qed.

Lemma ensure_Ok b e m u m' : ensure b e m = (Ok u, m') <-> b = true /\ m' = m.
Proof. destruct b; simpl; unfold mret, verb_ret, bail; destruct u; naive_solver. Qed.

Lemma attempt_Ok {A} (f : MeshState -> result string A) m a m' :
  attempt f m = (Ok a, m') <-> f m = Ok a /\ m' = m.
Proof. unfold attempt. destruct (f m); simpl; naive_solver. Qed.

Ltac verb_ok :=
  repeat match goal with
  | H : (_ ≫= _) _ = (Ok _, _) |- _ => apply verb_bind_Ok in H as (? & ? & ? & ?)
  | H : ensure _ _ _ = (Ok _, _) |- _ => apply ensure_Ok in H as [? ->]
  | H : attempt _ _ = (Ok _, _) |- _ => apply attempt_Ok in H as [? ->]
  | H : mret _ _ = (Ok _, _) |- _ => injection H as ? ?; subst
  | H : gets _ _ = (Ok _, _) |- _ => injection H as ? ?; subst
  | H : bail _ _ = (Ok _, _) |- _ => discriminate H
  | H : has_ephemeral _ _ = (Ok _, _) |- _ => injection H as ? ?; subst
  end.

(** ** What a serving state stands for *)
Record Policy := {
  p_config : Config;
  p_ephemeral : gmap string EphemeralService }.

Section policy.
Context `{H : HashOrder, T : TextEncoding, R : RowCodec, C : TomlCodec, !TomlCodecLaws C}.

(** The file and the registrations are the policy's, and the live registry serves it. *)
Definition stored (s : Serving) (p : Policy) : Prop :=
  config_load Config.healthy (s_config s) = Ok (p_config p) /\ s_ephemeral s = p_ephemeral p.
Definition represents (s : Serving) (p : Policy) : Prop :=
  stored s p /\ handles_valid (live_services s) (s_backends s) /\
  forall name, live_view s name = served (p_config p) (p_ephemeral p) name.

(** Everything but what is served. *)
Definition same_peers (m m' : MeshState) : Prop :=
  m_store m' = m_store m /\ m_roster m' = m_roster m /\ m_conns m' = m_conns m.

#[export] Instance same_peers_refl : Reflexive same_peers.
Proof. by intros m. Qed.
#[export] Instance same_peers_trans : Transitive same_peers.
Proof. intros m1 m2 m3 (H1 & H2 & H3) (? & ? & ?). unfold same_peers. by rewrite <- H1, <- H2, <- H3. Qed.

Lemma config_load_io io file :
  config_load io file = match f_read io with Some e => Err e | None => config_load Config.healthy file end.
Proof. unfold config_load, read_doc, read_config_for_rmw. by destruct (f_read io). Qed.

Lemma live_swap services s : live_services (swap_services services s) = services.
Proof. unfold live_services, swap_services, services_at, live_get. simpl. by rewrite list_lookup_middle. Qed.

(** A reload serves exactly what is stored, or fails and changes nothing. *)
Lemma reload_spec io why m p :
  stored (m_serving m) p ->
  match f_read io with
  | Some _ => exists e, reload_services_from_disk io why m = (Err (Failed e), m)
  | None => exists m', reload_services_from_disk io why m = (Ok tt, m') /\
      represents (m_serving m') p /\ same_peers m m' /\ m_audit m' = m_audit m /\
      s_config (m_serving m') = s_config (m_serving m)
  end.
Proof.
  intros [Hc He]. unfold reload_services_from_disk, mbind, verb_bind, attempt. rewrite config_load_io.
  destruct (f_read io) as [e|]; simpl; [eauto|]. rewrite Hc. simpl. eexists. split; [done|].
  pose proof (build_serves (p_config p) (s_ephemeral (m_serving m)) (s_limiters (m_serving m))
    (s_backends (m_serving m))) as [Hv Hs]. split_and!; [|done..].
  split; [by split|]. unfold live_view, live_services, services_at, live_get. simpl.
  rewrite !list_lookup_middle by done. simpl. split; [done|]. rewrite <- He. exact Hs.
Qed.

Lemma reload_Ok io why m u m' p :
  stored (m_serving m) p -> reload_services_from_disk io why m = (Ok u, m') ->
  represents (m_serving m') p /\ same_peers m m'.
Proof.
  intros Hs Hr. pose proof (reload_spec io why m p Hs) as Hspec. destruct (f_read io).
  - destruct Hspec as [? Hspec]. congruence.
  - destruct Hspec as (m1 & Hm & ? & ? & _). rewrite Hm in Hr. by injection Hr as _ <-.
Qed.

Lemma with_config_id s : with_config (s_config s) s = s.
Proof. by destruct s. Qed.
Lemma with_serving_id m : with_serving (m_serving m) m = m.
Proof. by destruct m. Qed.

(** An edit of the file does what it promises or nothing. *)
Lemma config_rmw_spec io op m p :
  config_op_wf op -> stored (m_serving m) p ->
  match config_rmw io (config_edit op) m with
  | (Ok changed, m') =>
      exists file, m' = with_serving (with_config file (m_serving m)) m /\
        config_load Config.healthy file = Ok (config_spec op (p_config p)) /\
        (changed = false -> m' = m /\ config_spec op (p_config p) = p_config p)
  | (Err _, m') => m' = m
  end.
Proof.
  intros Hwf [Hc He]. unfold config_rmw. pose proof (run_op_spec io op _ _ Hwf Hc) as Hs. unfold run_op in Hs.
  destruct (rmw io (config_edit op) (s_config (m_serving m))) as [[b|e] file]; simpl.
  - exists file. split_and!; [done|by apply Hs|]. intros ->. destruct Hs as [Hs Hf]. rewrite (Hf eq_refl) in *.
    split; [by rewrite with_config_id, with_serving_id|]. congruence.
  - destruct Hs as [-> _]. by rewrite with_config_id, with_serving_id.
Qed.

Lemma on_ephemeral_run {A} (f : gmap string EphemeralService -> A * gmap string EphemeralService) m :
  on_ephemeral f m = (Ok (f (s_ephemeral (m_serving m))).1,
    with_serving (with_ephemeral (f (s_ephemeral (m_serving m))).2 (m_serving m)) m).
Proof. unfold on_ephemeral. by destruct (f _). Qed.
End policy.

(** ** The verbs' specification *)
Inductive ServiceVerb :=
| VRegister (p : RegisterServiceParams)
| VDisconnect (names : list string)
| VUnregister (name : string)
| VPair (ts principal display_nickname : string) (services : list string)
| VGrant (service principal : string)
| VRevoke (service principal : string)
| VUnpair (nickname : string).

Definition on_config (op : ConfigOp) (p : Policy) : Policy :=
  {| p_config := config_spec op (p_config p); p_ephemeral := p_ephemeral p |}.
Definition on_registrations (f : gmap string EphemeralService -> gmap string EphemeralService) (p : Policy) : Policy :=
  {| p_config := p_config p; p_ephemeral := f (p_ephemeral p) |}.

Definition registered_as (p : RegisterServiceParams) : EphemeralService :=
  {| eph_backend := rp_backend p; eph_allow := rp_allow p; eph_rate_limit_per_min := rp_rate_limit_per_min p |}.
Definition grant_to (principal : string) (map : gmap string EphemeralService) (service : string) :
    gmap string EphemeralService :=
  alter (with_eph_allow (fun l => push_unique l principal)) service map.
Definition revoke_from (principal service : string) (map : gmap string EphemeralService) :
    gmap string EphemeralService :=
  alter (with_eph_allow (filter (fun a => a <> principal))) service map.

Definition verb_spec `{TextEncoding} (v : ServiceVerb) (rows : list PeerEntry) : Policy -> Policy :=
  match v with
  | VRegister r =>
      if rp_ephemeral r then on_registrations (<[rp_name r := registered_as r]>)
      else on_config (WriteService (rp_name r) (rp_backend r) (rp_allow r) (rp_rate_limit_per_min r))
  | VDisconnect names => on_registrations (fun map => foldl (fun map name => delete name map) map names)
  | VUnregister name => on_registrations (delete name) ∘ on_config (RemoveService name)
  | VPair _ principal _ services =>
      on_registrations (fun map => foldl (grant_to principal) map services) ∘
      on_config (AppendAllow principal services)
  | VGrant service principal =>
      on_registrations (fun map => grant_to principal map service) ∘ on_config (AppendAllow principal [service])
  | VRevoke service principal =>
      on_registrations (revoke_from principal service) ∘ on_config (RemovePrincipal service principal)
  | VUnpair nickname => on_config (RemoveAllow (service_principals nickname rows))
  end.

(** A rate is an unsigned 32-bit integer. *)
Definition verb_wf (v : ServiceVerb) : Prop :=
  match v with
  | VRegister r => match rp_rate_limit_per_min r with Some z => (0 <= z <= u32_max)%Z | None => True end
  | _ => True
  end.

Definition run_verb `{HashOrder, TextEncoding, RowCodec, TomlCodec} (io : VerbIo) (v : ServiceVerb) : Verb unit :=
  match v with
  | VRegister r => register_service io r
  | VDisconnect names => unregister_ephemeral io names
  | VUnregister name => unregister_service io name
  | VPair ts principal nickname services => grant_service_access io ts principal nickname services
  | VGrant service principal => grant_service_allow io service principal
  | VRevoke service principal => _ ← revoke_service_allow io service principal; mret tt
  | VUnpair nickname => _ ← revoke_service_access io nickname; mret tt
  end.

Lemma filter_same_length {A} (P : A -> Prop) `{!forall x, Decision (P x)} (l : list A) :
  length (filter P l) = length l -> filter P l = l.
Proof.
  induction l as [|x l IH]; [done|]. rewrite filter_cons. pose proof (length_filter P l) as Hle.
  case_decide; simpl; intros Hl; [f_equal; apply IH|]; lia.
Qed.

Section refinement.
Context `{H : HashOrder, T : TextEncoding, R : RowCodec, C : TomlCodec, !TomlCodecLaws C}.

(** The registrations after a grant or a revocation, and when they moved. *)
Lemma grant_ephemeral_spec service principal map :
  (grant_ephemeral service principal map).2 = grant_to principal map service /\
  (default false (grant_ephemeral service principal map).1 = false -> grant_to principal map service = map).
Proof.
  unfold grant_ephemeral, grant_to, with_eph_allow, push_unique. destruct (map !! service) as [e|] eqn:E.
  - assert (Hx : existsb (fun a => bool_decide (a = principal)) (eph_allow e) = bool_decide (principal ∈ eph_allow e)).
    { apply eq_bool_prop_intro. rewrite !Is_true_true, existsb_elem, bool_decide_eq_true.
      setoid_rewrite bool_decide_eq_true. naive_solver. }
    rewrite Hx. case_bool_decide as Hin; simpl.
    + rewrite alter_id; [done|]. intros e' He. rewrite E in He. injection He as <-.
      rewrite decide_True by done. by destruct e.
    + split; [|done]. apply map_eq. intros i. destruct (decide (i = service)) as [->|].
      * rewrite lookup_insert_eq, lookup_alter_eq, E. simpl. by rewrite decide_False.
      * by rewrite lookup_insert_ne, lookup_alter_ne.
  - simpl. rewrite alter_id' by done. done.
Qed.

Lemma revoke_ephemeral_spec service principal map :
  (revoke_ephemeral service principal map).2 = revoke_from principal service map /\
  (default false (revoke_ephemeral service principal map).1 = false -> revoke_from principal service map = map) /\
  ((revoke_ephemeral service principal map).1 = None <-> map !! service = None).
Proof.
  unfold revoke_ephemeral, revoke_from. destruct (map !! service) as [e|] eqn:E; simpl.
  - split_and!; [|intros Hl|done].
    + apply map_eq. intros i. destruct (decide (i = service)) as [->|].
      * by rewrite lookup_insert_eq, lookup_alter_eq, E.
      * by rewrite lookup_insert_ne, lookup_alter_ne.
    + apply negb_false_iff, Nat.eqb_eq in Hl. apply alter_id. intros e' He. rewrite E in He.
      injection He as <-. unfold with_eph_allow. simpl in Hl. rewrite filter_same_length by done. by destruct e.
  - rewrite alter_id' by done. split_and!; done.
Qed.
End refinement.

Section refinement.
Context `{H : HashOrder, T : TextEncoding, R : RowCodec, C : TomlCodec, !TomlCodecLaws C}.

Lemma with_ephemeral_id s : with_ephemeral (s_ephemeral s) s = s.
Proof. by destruct s. Qed.

Lemma view_set_allow services backends name allow services' n :
  with_allow_replaced services name allow = Some services' ->
  view services' backends n =
    (if decide (n = name)
     then (fun v => {| sv_backend := sv_backend v; sv_service := sv_service v; sv_allow := allow;
                       sv_kind := sv_kind v; sv_ephemeral := sv_ephemeral v |}) <$> view services backends n
     else view services backends n).
Proof.
  intros Hw. unfold view. rewrite (with_allow_replaced_lookup _ _ _ _ n Hw).
  destruct (services !! n) as [e|]; simpl; [|by case_decide]. case_decide; simpl; [|done].
  by destruct (backends !! se_backend e).
Qed.

Lemma with_allow_replaced_valid services backends name allow services' :
  with_allow_replaced services name allow = Some services' ->
  handles_valid services backends -> handles_valid services' backends.
Proof.
  intros Hw Hv n e. rewrite (with_allow_replaced_lookup _ _ _ _ n Hw).
  destruct (services !! n) as [e0|] eqn:E; simpl; [|done]. intros [= <-].
  case_decide; simpl; by eapply Hv.
Qed.

(** Pushing one registration's list into the live registry is as good as a reload. *)
Lemma apply_ephemeral_allow_Ok io service why g m map u m' p :
  represents (m_serving m) p -> map = alter (with_eph_allow g) service (p_ephemeral p) ->
  apply_ephemeral_allow io service why (with_serving (with_ephemeral map (m_serving m)) m) = (Ok u, m') ->
  represents (m_serving m') {| p_config := p_config p; p_ephemeral := map |} /\ same_peers m m'.
Proof.
  intros ([Hc He] & Hv & Hs) Hmap. unfold apply_ephemeral_allow.
  assert (Hst : stored (m_serving (with_serving (with_ephemeral map (m_serving m)) m)) {| p_config := p_config p; p_ephemeral := map |})
    by (split; [exact Hc|done]).
  simpl. destruct (map !! service) as [e|] eqn:Hl; [destruct (with_allow_replaced _ _ _) as [sv|] eqn:Hw|].
  - intros [= _ <-]. split; [|done]. split; [exact Hst|]. simpl. unfold live_view. rewrite live_swap. simpl.
    split; [by eapply with_allow_replaced_valid|]. intros n.
    rewrite (view_set_allow _ _ _ _ _ n Hw). unfold live_view in Hs. unfold live_services in *. rewrite Hs. subst map.
    rewrite lookup_alter_eq in Hl. unfold served. simpl. destruct (decide (n = service)) as [->|Hn].
    + rewrite lookup_alter_eq. destruct (p_ephemeral p !! service); [|done]. by injection Hl as <-.
    + by rewrite lookup_alter_ne.
  - intros Hr. destruct (reload_Ok _ _ _ _ _ _ Hst Hr). by split.
  - intros Hr. destruct (reload_Ok _ _ _ _ _ _ Hst Hr). by split.
Qed.

(** A verb that reloads when something moved, and is where it was when nothing did. *)
Lemma reload_if_Ok (b : bool) io why m m1 u m' p p1 :
  represents (m_serving m) p -> stored (m_serving m1) p1 -> same_peers m m1 ->
  (b = false -> m_serving m1 = m_serving m /\ p1 = p) ->
  (if b then reload_services_from_disk io why else mret tt) m1 = (Ok u, m') ->
  represents (m_serving m') p1 /\ same_peers m m'.
Proof.
  intros Hr Hs Hp Hb Hrun. destruct b.
  - destruct (reload_Ok _ _ _ _ _ _ Hs Hrun) as [? ?]. split; [done|]. by etrans.
  - destruct Hb as [Heq ->]; [done|]. injection Hrun as _ <-. by rewrite Heq.
Qed.

Lemma severs_serving io joined ps m n m' :
  sever_principals io joined ps m = (Ok n, m') -> m_serving m' = m_serving m /\ m_store m' = m_store m.
Proof.
  unfold sever_principals, close_refused_peer_conns. simpl.
  destruct (endpoints_for_principals _ _ _ _); [|done]. by intros [= _ <-].
Qed.

(** An edit of the file, as a step of a verb. *)
Lemma config_rmw_Ok io op m changed m' p :
  config_op_wf op -> stored (m_serving m) p -> config_rmw io (config_edit op) m = (Ok changed, m') ->
  stored (m_serving m') (on_config op p) /\ same_peers m m' /\
  (changed = false -> m' = m /\ on_config op p = p).
Proof.
  intros Hwf Hs Hr. pose proof (config_rmw_spec io op m p Hwf Hs) as Hspec. rewrite Hr in Hspec.
  destruct Hspec as (file & -> & Hl & Hf). split_and!; [|done|].
  - split; [exact Hl|]. apply Hs.
  - intros Hb. destruct (Hf Hb) as [-> He]. split; [done|]. destruct p. unfold on_config. by rewrite He.
Qed.

Lemma on_ephemeral_Ok {A} (f : gmap string EphemeralService -> A * gmap string EphemeralService) m a m' p :
  stored (m_serving m) p -> on_ephemeral f m = (Ok a, m') ->
  a = (f (p_ephemeral p)).1 /\ m' = with_serving (with_ephemeral (f (p_ephemeral p)).2 (m_serving m)) m /\
  same_peers m m' /\ stored (m_serving m') (on_registrations (fun map => (f map).2) p).
Proof.
  intros [Hc He] Hr. rewrite on_ephemeral_run, He in Hr. injection Hr as <- <-. by split_and!.
Qed.
End refinement.

(** The one change of the registrations, or write of the file, among the hypotheses. *)
Tactic Notation "ephemeral_step" "as" simple_intropattern(pat) :=
  match goal with Hx : on_ephemeral _ _ = _ |- _ => eapply on_ephemeral_Ok in Hx as pat end.
Tactic Notation "write_step" constr(op) "as" simple_intropattern(pat) :=
  match goal with Hx : config_rmw _ _ _ = _ |- _ => eapply (config_rmw_Ok _ op) in Hx as pat end.

Section verbs_refine.
Context `{H : HashOrder, T : TextEncoding, R : RowCodec, C : TomlCodec, !TomlCodecLaws C}.

(** What one verb that reported success did. *)
Definition refines (v : Verb unit) (spec : Policy -> Policy) : Prop :=
  forall m p m', represents (m_serving m) p -> v m = (Ok tt, m') ->
    represents (m_serving m') (spec p) /\ m_store m' = m_store m.

Lemma register_refines io r :
  verb_wf (VRegister r) -> refines (register_service io r) (verb_spec (VRegister r) []).
Proof.
  intros Hwf m p m' Hr. unfold register_service, verb_spec, load_config. destruct (rp_ephemeral r); intros Hrun; verb_ok.
  - ephemeral_step as (? & ? & Hp & Hs); [subst|apply Hr]. revert select (reload_services_from_disk _ _ _ = _). intros Hl.
    destruct (reload_Ok _ _ _ _ _ _ Hs Hl) as [? Hp']. split; [done|]. exact (eq_trans (proj1 Hp') (proj1 Hp)).
  - write_step (WriteService (rp_name r) (rp_backend r) (rp_allow r) (rp_rate_limit_per_min r)) as (Hs & Hp & _); [|exact Hwf|apply Hr].
    revert select (reload_services_from_disk _ _ _ = _). intros Hl.
    destruct (reload_Ok _ _ _ _ _ _ Hs Hl) as [? Hp']. split; [done|]. rewrite (proj1 Hp'). apply Hp.
Qed.

Lemma disconnect_refines io names :
  f_read (v_reload io) = None -> refines (unregister_ephemeral io names) (verb_spec (VDisconnect names) []).
Proof.
  intros Hf m p m' Hr. unfold unregister_ephemeral. destruct names as [|n names]; intros Hrun.
  { injection Hrun as <-. destruct p. by split. }
  verb_ok. ephemeral_step as (? & ? & Hp & Hs); [subst|apply Hr].
  pose proof (reload_spec (v_reload io) "unregister-ephemeral" _ _ Hs) as Hrel. rewrite Hf in Hrel.
  destruct Hrel as (m2 & Hm2 & Hrep & Hp2 & _). unfold logged in H1. rewrite Hm2 in H1. injection H1 as <-.
  split; [exact Hrep|]. exact (eq_trans (proj1 Hp2) (proj1 Hp)).
Qed.

Lemma unregister_refines io name : refines (unregister_service io name) (verb_spec (VUnregister name) []).
Proof.
  intros m p m' Hr Hrun. unfold unregister_service in Hrun. verb_ok.
  ephemeral_step as (Hx & Hm1 & Hp & Hs); [|apply Hr].
  write_step (RemoveService name) as (Hs2 & Hp2 & Hid); [|done|exact Hs].
  match goal with Hz : _ _ = (Ok _, m') |- _ => rename Hz into Hif end.
  eapply (reload_if_Ok _ _ _ m _ _ _ p) in Hif as [Hrep Hp']; [|done|exact Hs2|by etrans|].
  - split; [exact Hrep|apply Hp'].
  - intros [Hb Hc]%orb_false_iff. destruct (Hid Hc) as [-> Heq]. rewrite Heq.
    rewrite Hx in Hb. apply bool_decide_eq_false, eq_None_not_Some in Hb. rewrite Hm1. simpl.
    unfold on_registrations. simpl. rewrite delete_id by done. destruct Hr as [[_ He] _]. split; [|by destruct p].
    rewrite <- He. apply with_ephemeral_id.
Qed.

(** The registrations after a pairing's grants, and when none moved. *)
Lemma grants_fold principal services changed map :
  let '(b, map') := foldl (fun '(changed, map) svc =>
      let '(moved, map) := grant_ephemeral svc principal map in (changed || default false moved, map))
      (changed, map) services in
  map' = foldl (grant_to principal) map services /\ (b = false -> changed = false /\ map' = map).
Proof.
  revert changed map. induction services as [|svc services IH]; intros changed map; simpl; [done|].
  pose proof (grant_ephemeral_spec svc principal map) as [Hg Hid].
  destruct (grant_ephemeral svc principal map) as [moved map1]; simpl in *. subst map1.
  specialize (IH (changed || default false moved) (grant_to principal map svc)).
  destruct (foldl _ (changed || _, _) services) as [b map']. destruct IH as [-> Hb]. split; [done|].
  intros ->. destruct Hb as [[-> Hm]%orb_false_iff Heq]; [done|]. split; [done|]. by rewrite Heq, Hid.
Qed.

Lemma pair_refines io ts principal nickname services :
  refines (grant_service_access io ts principal nickname services)
    (verb_spec (VPair ts principal nickname services) []).
Proof.
  intros m p m' Hr Hrun. unfold grant_service_access in Hrun. verb_ok.
  write_step (AppendAllow principal services) as (Hs & Hp & Hid); [|done|apply Hr].
  ephemeral_step as (Hx & Hm2 & Hp2 & Hs2); [|exact Hs].
  match goal with Ha : audit _ ?m1 = _, Hz : _ _ = (Ok _, ?m1) |- _ => rename Hz into Hif; injection Ha as <- end. simpl.
  pose proof (grants_fold principal services x (p_ephemeral (on_config (AppendAllow principal services) p))) as Hfold.
  rewrite Hx, Hm2 in *. unfold on_registrations in Hs2. destruct (foldl _ (x, _) services) as [b map'].
  destruct Hfold as [-> Hb].
  eapply (reload_if_Ok _ _ _ m _ _ _ p) in Hif as [Hrep Hp']; [|done|exact Hs2|by etrans|].
  - split; [exact Hrep|apply Hp'].
  - simpl. intros ->. destruct Hb as [-> Heq]; [done|]. destruct (Hid eq_refl) as [-> Hpe].
    simpl in Heq. rewrite Heq. destruct Hr as [[_ He] _]. simpl. rewrite <- He. split; [by rewrite with_ephemeral_id|].
    rewrite He. exact Hpe.
Qed.

(** The common end of the two list verbs: reload if the file moved, push the list if only
    the registration did. *)
Lemma allow_verb_Ok io service why g (config_moved ephemeral_moved : bool) op m m1 m2 u m' p :
  represents (m_serving m) p -> stored (m_serving m1) (on_config op p) -> same_peers m m1 ->
  (config_moved = false -> m_serving m1 = m_serving m /\ on_config op p = p) ->
  m2 = with_serving (with_ephemeral (alter (with_eph_allow g) service (p_ephemeral p)) (m_serving m1)) m1 ->
  (ephemeral_moved = false -> alter (with_eph_allow g) service (p_ephemeral p) = p_ephemeral p) ->
  (if config_moved then reload_services_from_disk (v_reload io) why
   else if ephemeral_moved then apply_ephemeral_allow io service why else mret tt) m2 = (Ok u, m') ->
  represents (m_serving m') (on_registrations (alter (with_eph_allow g) service) (on_config op p)) /\ same_peers m m'.
Proof.
  intros Hr Hs Hp Hc -> He Hrun. destruct config_moved.
  - edestruct reload_Ok as [Hrep Hp']; [|exact Hrun|split; [exact Hrep|by etrans]]. destruct Hs as [Hs _]. by split.
  - destruct Hc as [Hm Hid]; [done|]. rewrite Hid. rewrite Hm in Hrun. destruct ephemeral_moved.
    + assert (Heq : with_serving (with_ephemeral (alter (with_eph_allow g) service (p_ephemeral p)) (m_serving m)) m1 =
        with_serving (with_ephemeral (alter (with_eph_allow g) service (p_ephemeral p)) (m_serving m1)) m1) by (by rewrite Hm).
      rewrite Heq in Hrun. eapply apply_ephemeral_allow_Ok in Hrun as [? Hp'];
        [|rewrite Hm; exact Hr|done]. split; [done|by etrans].
    + injection Hrun as _ <-. unfold on_registrations. rewrite He by done. simpl.
      split; [|exact Hp]. destruct p as [cfg eph], Hr as [[Hst Heph] Hr]. simpl in *. subst eph.
      rewrite with_ephemeral_id. by split.
Qed.
End verbs_refine.

Section list_verbs.
Context `{H : HashOrder, T : TextEncoding, R : RowCodec, C : TomlCodec, !TomlCodecLaws C}.

Lemma load_config_run io m b m' :
  load_config io m = (b, m') -> m' = m.
Proof. unfold load_config, attempt. by intros [= _ <-]. Qed.

Lemma servable_run io service m b m' :
  service_servable_in_config io service m = (b, m') -> m' = m.
Proof.
  unfold service_servable_in_config, mbind, verb_bind, load_config, attempt.
  destruct (map_err _ (config_load _ _)); by intros [= _ <-].
Qed.

Lemma grant_refines io service principal :
  refines (grant_service_allow io service principal) (verb_spec (VGrant service principal) []).
Proof.
  intros m p m' Hr Hrun. unfold grant_service_allow in Hrun. apply verb_bind_Ok in Hrun as (revoked & m0 & Hg & Hrun).
  injection Hg as _ <-. destruct revoked; [done|]. verb_ok.
  match goal with Hk : (if ?b then mret true else _) ?ma = (Ok true, ?mb) |- _ =>
    assert (mb = ma) as -> by (destruct b; [by injection Hk|by eapply servable_run]); rename ma into m end.
  write_step (AppendAllow principal [service]) as (Hs & Hp & Hid); [|done|apply Hr].
  ephemeral_step as (Hx & Hm2 & Hp2 & Hs2); [|exact Hs].
  match goal with Hz : _ _ = (Ok _, m') |- _ => rename Hz into Hif end.
  pose proof (grant_ephemeral_spec service principal (p_ephemeral p)) as [Hgr Hmv]. simpl in Hx, Hm2.
  rewrite Hgr in Hm2. eapply allow_verb_Ok in Hif as [Hrep Hp'];
    [split; [exact Hrep|apply Hp']|exact Hr|exact Hs|exact Hp| |exact Hm2|].
  - intros Hb. by destruct (Hid Hb) as [-> ?].
  - rewrite Hx. exact Hmv.
Qed.

(** A revocation up to its sever. *)
Lemma revoke_Ok io service principal m p n m' :
  represents (m_serving m) p -> revoke_service_allow io service principal m = (Ok n, m') ->
  exists m1, represents (m_serving m1) (verb_spec (VRevoke service principal) [] p) /\ same_peers m m1 /\
    (sever_principals (v_sever io) (v_joined io) [principal] m1 = (Ok n, m') \/
     verb_spec (VRevoke service principal) [] p = p /\ m' = m1 /\ n = 0).
Proof.
  intros Hr Hrun. unfold revoke_service_allow in Hrun. apply verb_bind_Ok in Hrun as (em & m1 & He & Hrun).
  apply verb_bind_Ok in Hrun as (cm & m2 & Hc & Hrun). apply verb_bind_Ok in Hrun as (known & m3 & Hk & Hrun).
  assert (m3 = m2) as ->.
  { destruct (bool_decide (em = None) && negb cm); [by eapply servable_run|by injection Hk as _ <-]. }
  clear Hk. apply verb_bind_Ok in Hrun as ([] & m4 & [_ ->]%ensure_Ok & Hrun).
  ephemeral_step as (Hx & Hm1 & Hp1 & Hs1); [|apply Hr].
  write_step (RemovePrincipal service principal) as (Hs2 & Hp2 & Hid); [|done|exact Hs1].
  pose proof (revoke_ephemeral_spec service principal (p_ephemeral p)) as (Hrv & Hmv & _).
  assert (Hspec : on_config (RemovePrincipal service principal)
    (on_registrations (fun map => (revoke_ephemeral service principal map).2) p) =
    verb_spec (VRevoke service principal) [] p).
  { unfold on_registrations, on_config. simpl. by rewrite Hrv. }
  rewrite Hspec in Hs2, Hid.
  assert (Hem : default false em = false -> m_serving m1 = m_serving m /\
    on_registrations (fun map => (revoke_ephemeral service principal map).2) p = p).
  { intros Hz. rewrite Hx in Hz. specialize (Hmv Hz). rewrite Hm1, Hrv, Hmv. simpl.
    destruct p as [cfg eph], Hr as [[_ Heq] _]. simpl in *. subst eph. rewrite with_ephemeral_id.
    unfold on_registrations. simpl. by rewrite Hrv, Hmv. }
  destruct cm; simpl in Hrun.
  - apply verb_bind_Ok in Hrun as ([] & m5 & Hl & Hsev). destruct (reload_Ok _ _ _ _ _ _ Hs2 Hl) as [Hrep Hp5].
    exists m5. split; [exact Hrep|]. split; [by do 2 (etrans; [eassumption|])|by left].
  - destruct (Hid eq_refl) as [-> Hspec']. destruct (default false em) eqn:Hd.
    + apply verb_bind_Ok in Hrun as ([] & m5 & Hl & Hsev). rewrite Hm1, Hrv in Hl.
      unfold revoke_from in Hl. eapply apply_ephemeral_allow_Ok in Hl as [Hrep Hp5]; [|exact Hr|done].
      exists m5. split; [|split; [exact Hp5|by left]]. rewrite Hspec'. unfold on_registrations. rewrite Hrv. exact Hrep.
    + injection Hrun as <- <-. destruct (Hem eq_refl) as [Hsame Hpol]. exists m1. rewrite Hspec', Hpol, Hsame.
      split; [exact Hr|]. split; [exact Hp1|by right].
Qed.
End list_verbs.

Section theorems.
Context `{H : HashOrder, T : TextEncoding, R : RowCodec, C : TomlCodec, !TomlCodecLaws C}.

Lemma unpair_refines io nickname m p m' :
  represents (m_serving m) p -> run_verb io (VUnpair nickname) m = (Ok tt, m') ->
  represents (m_serving m')
    (verb_spec (VUnpair nickname) (default [] (ok (list_peers (v_store io) (m_store m)))) p) /\
  m_store m' = m_store m.
Proof.
  intros Hr Hrun. simpl in Hrun. apply verb_bind_Ok in Hrun as (b & m0 & Hrun & Hm). injection Hm as <-.
  unfold revoke_service_access in Hrun. apply verb_bind_Ok in Hrun as (rows & m1 & Hl & Hrun).
  apply attempt_Ok in Hl as [Hl ->]. rewrite Hl. simpl. case_bool_decide as Hnil.
  - injection Hrun as _ <-. split; [|done]. rewrite Hnil. destruct p as [cfg eph]. unfold on_config. simpl.
    replace (with_services _ cfg) with cfg; [done|]. destruct cfg as [i n l r bl s]. unfold with_services. f_equal.
    rewrite <- (map_fmap_id s) at 1. apply map_fmap_ext. intros k svc _. symmetry. apply on_allow_id.
    change (id svc) with svc. induction (sc_allow svc) as [|a l' IH]; [done|]. rewrite filter_cons_True by apply not_elem_of_nil. by rewrite IH.
  - apply verb_bind_Ok in Hrun as (changed & m2 & Hc & Hrun). apply verb_bind_Ok in Hrun as ([] & m3 & Hif & Hrun).
    apply verb_bind_Ok in Hrun as (n & m4 & Hsev & Hrun). injection Hrun as _ <-.
    write_step (RemoveAllow (service_principals nickname rows)) as (Hs & Hp & Hid); [|done|apply Hr].
    eapply (reload_if_Ok _ _ _ m _ _ _ p) in Hif as [Hrep Hp']; [|done|exact Hs|exact Hp|].
    + apply severs_serving in Hsev as [-> ->]. split; [exact Hrep|apply Hp'].
    + intros Hb. by destruct (Hid Hb) as [-> ?].
Qed.

(** C6: every service verb refines its specification on the stored policy, the configuration
    with the ephemeral registrations: from a live registry that serves exactly the policy, a
    verb that reports success leaves exactly the specified policy stored and a live registry
    that serves exactly that, a registration shadowing an entry of the same name and an entry
    without one backend not served; it touches no peer row.  (A closing control connection's
    reload has no one to report to: there the file must have been readable.)  A live registry
    that is out of step, as a failed reload leaves it, may stay so under a verb that finds
    nothing to change ([revoke_retry_lost]). *)
Theorem service_verbs_refine io v m p m' :
  verb_wf v -> represents (m_serving m) p ->
  (forall names, v = VDisconnect names -> f_read (v_reload io) = None) ->
  run_verb io v m = (Ok tt, m') ->
  represents (m_serving m') (verb_spec v (default [] (ok (list_peers (v_store io) (m_store m)))) p) /\
  m_store m' = m_store m.
Proof.
  intros Hwf Hr Hd Hrun. destruct v.
  - by apply (register_refines io p0 Hwf m p m').
  - by apply (disconnect_refines io names (Hd _ eq_refl) m p m').
  - by apply (unregister_refines io name m p m').
  - by apply (pair_refines io ts principal display_nickname services m p m').
  - by apply (grant_refines io service principal m p m').
  - simpl in Hrun. apply verb_bind_Ok in Hrun as (n & m0 & Hrun & Hm). injection Hm as <-.
    destruct (revoke_Ok _ _ _ _ _ _ _ Hr Hrun) as (m1 & Hrep & Hp & [Hs|(_ & -> & _)]).
    + apply severs_serving in Hs as [-> ->]. split; [exact Hrep|apply Hp].
    + split; [exact Hrep|apply Hp].
  - by apply (unpair_refines io nickname m p m').
Qed.

(** ** Severing *)
Lemma elem_of_endpoints_for_principals io store roster ps all e :
  endpoints_for_principals io store roster ps = Ok all ->
  e ∈ all <-> exists p s, p ∈ ps /\ endpoints_for_principal io store roster p = Ok s /\ e ∈ s.
Proof.
  clear dependent C.
  unfold endpoints_for_principals.
  assert (Hgen : forall acc, foldl (fun all p => all ← all; more ← endpoints_for_principal io store roster p; Ok (all ∪ more))
      acc ps = Ok all -> exists a0, acc = Ok a0 /\
      (e ∈ all <-> e ∈ a0 \/ exists p s, p ∈ ps /\ endpoints_for_principal io store roster p = Ok s /\ e ∈ s)).
  { induction ps as [|p ps IH]; simpl; intros acc Hf.
    - exists all. split; [done|]. split; [auto|]. intros [?|(? & ? & Hin & _)]; [done|]. by apply elem_of_nil in Hin.
    - apply IH in Hf as (a1 & (a0 & Ha0 & (more & Hm & [= <-])%bind_Ok)%bind_Ok & Hiff). exists a0. split; [done|]. rewrite Hiff, elem_of_union.
      split.
      + intros [[?|?]|(q & s & ? & ? & ?)]; [by left|right; exists p, more; by rewrite elem_of_cons; auto|].
        right. exists q, s. rewrite elem_of_cons. auto.
      + intros [?|(q & s & [->|?]%elem_of_cons & Hq & ?)]; [by left; left| |by right; eauto].
        left. right. congruence. }
  intros Hf. destruct (Hgen _ Hf) as (a0 & [= <-] & ->). set_solver.
Qed.

(** The connections a sever closes are exactly those of the principals' endpoints, those
    with a session admitted as one of them, and those dialled to refused devices. *)
Lemma sever_principals_spec io joined ps m n m' :
  sever_principals io joined ps m = (Ok n, m') ->
  exists targets, endpoints_for_principals io (m_store m) (m_roster m) ps = Ok targets /\
    k_registry (m_conns m') = k_registry (m_conns m) /\
    forall c, c ∈ k_closed (m_conns m') <->
      c ∈ k_closed (m_conns m) \/
      c ∈ close_refused io (m_store m) (m_roster m) joined (open_handle m) (k_dialled (m_conns m)) \/
      exists id t, reg_inner (k_registry (m_conns m)) !! id = Some t /\ t_conn t = c /\
        (t_endpoint_id t ∈ targets \/ exists p, p ∈ ps /\ is_Some (t_admitted t !! p)).
Proof.
  unfold sever_principals, close_refused_peer_conns. simpl.
  destruct (endpoints_for_principals _ _ _ _) as [targets|] eqn:Ht; [|done]. intros [= _ <-].
  exists targets. split_and!; [done..|]. intros c. simpl. rewrite !elem_of_union, !elem_of_list_to_set.
  rewrite elem_of_sever_matching_admitted. setoid_rewrite bool_decide_eq_true.
  split; [intros [(id & t & ? & -> & Hm)|[?|?]]|intros [?|[?|(id & t & ? & <- & Hm)]]]; auto.
  - right. right. exists id, t. split_and!; [done..|]. destruct Hm as [?|(p & k & ? & ?)]; [by left|].
    right. exists p. eauto.
  - left. exists id, t. split_and!; [done..|]. destruct Hm as [?|(p & ? & k & ?)]; [by left|]. right. by exists p, k.
Qed.
End theorems.

Section revocation.
Context `{H : HashOrder, T : TextEncoding, R : RowCodec, C : TomlCodec, !TomlCodecLaws C}.

Lemma alter_idem {A} (f : A -> A) (k : string) (m : gmap string A) :
  (forall a, f (f a) = f a) -> alter f k (alter f k m) = alter f k m.
Proof.
  intros Hf. apply map_eq. intros i. destruct (decide (i = k)) as [->|]; [|by rewrite !lookup_alter_ne].
  rewrite !lookup_alter_eq. destruct (m !! k); simpl; [by rewrite Hf|done].
Qed.

Lemma filter_idem {A} (P : A -> Prop) `{!forall x, Decision (P x)} (l : list A) :
  filter P (filter P l) = filter P l.
Proof. by apply list_filter_filter_r. Qed.

(** The entries of the live registry, read off what is served. *)
Lemma live_allow s p name e :
  represents s p -> live_services s !! name = Some e ->
  exists v, served (p_config p) (p_ephemeral p) name = Some v /\ sv_allow v = se_allow e.
Proof.
  intros (_ & Hv & Hs) He. rewrite <- Hs. unfold live_view, view. rewrite He.
  destruct (lookup_lt_is_Some_2 _ _ (Hv _ _ He)) as [b ->]. eauto.
Qed.

Lemma live_served s p name v :
  represents s p -> served (p_config p) (p_ephemeral p) name = Some v ->
  exists e, live_services s !! name = Some e /\ se_allow e = sv_allow v.
Proof.
  intros (_ & _ & Hs) Hv. rewrite <- Hs in Hv. unfold live_view, view in Hv.
  destruct (live_services s !! name) as [e|]; [|done]. destruct (s_backends s !! _); [|done].
  injection Hv as <-. eauto.
Qed.

Lemma config_served_allow name svc v : config_served name svc = Some v -> sv_allow v = sc_allow svc.
Proof. unfold config_served. destruct (backend_result svc) as [[]|]; by intros [= <-]. Qed.

Lemma served_revoked service principal p v :
  served (p_config (verb_spec (VRevoke service principal) [] p))
    (p_ephemeral (verb_spec (VRevoke service principal) [] p)) service = Some v ->
  principal ∉ sv_allow v.
Proof.
  unfold served. simpl. unfold revoke_from. rewrite lookup_alter_eq.
  destruct (p_ephemeral p !! service) as [e|]; simpl.
  - intros [= <-]. simpl. rewrite list_elem_of_filter. naive_solver.
  - rewrite lookup_alter_eq. destruct (c_services _ !! service) as [svc|]; [|done]. simpl.
    intros ->%config_served_allow. simpl. rewrite list_elem_of_filter. naive_solver.
Qed.

(** The list of a registration, pushed into the live registry, is what the live entry has. *)
Lemma pushed_allow io service why principal map m u m' p :
  stored (m_serving m) {| p_config := p_config p; p_ephemeral := revoke_from principal service map |} ->
  default false (revoke_ephemeral service principal map).1 = true ->
  verb_spec (VRevoke service principal) [] p = {| p_config := p_config p; p_ephemeral := revoke_from principal service map |} ->
  apply_ephemeral_allow io service why m = (Ok u, m') ->
  stored (m_serving m') (verb_spec (VRevoke service principal) [] p) /\ same_peers m m' /\
  forall e, live_services (m_serving m') !! service = Some e -> principal ∉ se_allow e.
Proof.
  intros Hst Hmoved Hspec Hrun. unfold apply_ephemeral_allow in Hrun. rewrite Hspec.
  assert (Hreload : reload_services_from_disk (v_reload io) why m = (Ok u, m') ->
    stored (m_serving m') {| p_config := p_config p; p_ephemeral := revoke_from principal service map |} /\ same_peers m m' /\
    forall e, live_services (m_serving m') !! service = Some e -> principal ∉ se_allow e).
  { intros Hr. destruct (reload_Ok _ _ _ _ _ _ Hst Hr) as [Hrep Hp]. split; [apply Hrep|]. split; [done|].
    intros e He. destruct (live_allow _ _ _ _ Hrep He) as (v & Hv & <-). rewrite <- Hspec in Hv. by eapply served_revoked. }
  destruct Hst as [Hc He]. simpl in He. rewrite He in Hrun. unfold revoke_from in Hrun at 1. rewrite lookup_alter_eq in Hrun.
  unfold revoke_ephemeral in Hmoved. destruct (map !! service) as [e0|] eqn:Hl; [|done]. simpl in Hrun.
  destruct (with_allow_replaced _ _ _) as [sv|] eqn:Hw; [|by apply Hreload].
  injection Hrun as _ <-. split; [by split|]. split; [done|]. intros e. simpl. rewrite live_swap.
  rewrite (with_allow_replaced_lookup _ _ _ _ service Hw). destruct (live_services (m_serving m) !! service); simpl; [|done].
  rewrite decide_True by done. intros [= <-]. simpl. rewrite list_elem_of_filter. naive_solver.
Qed.

(** A revocation up to its sever, whatever the live registry was. *)
Lemma revoke_stored io service principal m p n m' :
  stored (m_serving m) p -> revoke_service_allow io service principal m = (Ok n, m') ->
  verb_spec (VRevoke service principal) [] p = p \/
  exists m1, same_peers m m1 /\ sever_principals (v_sever io) (v_joined io) [principal] m1 = (Ok n, m') /\
    forall e, live_services (m_serving m1) !! service = Some e -> principal ∉ se_allow e.
Proof.
  intros Hst Hrun. unfold revoke_service_allow in Hrun. apply verb_bind_Ok in Hrun as (em & m1 & He & Hrun).
  apply verb_bind_Ok in Hrun as (cm & m2 & Hc & Hrun). apply verb_bind_Ok in Hrun as (known & m3 & Hk & Hrun).
  assert (m3 = m2) as ->.
  { destruct (bool_decide (em = None) && negb cm); [by eapply servable_run|by injection Hk as _ <-]. }
  clear Hk. apply verb_bind_Ok in Hrun as ([] & m4 & [_ ->]%ensure_Ok & Hrun).
  ephemeral_step as (Hx & Hm1 & Hp1 & Hs1); [|apply Hst].
  write_step (RemovePrincipal service principal) as (Hs2 & Hp2 & Hid); [|done|exact Hs1].
  pose proof (revoke_ephemeral_spec service principal (p_ephemeral p)) as (Hrv & Hmv & _).
  assert (Hspec : on_config (RemovePrincipal service principal)
    (on_registrations (fun map => (revoke_ephemeral service principal map).2) p) =
    verb_spec (VRevoke service principal) [] p).
  { unfold on_registrations, on_config. simpl. by rewrite Hrv. }
  rewrite Hspec in Hs2, Hid. destruct cm; simpl in Hrun.
  - apply verb_bind_Ok in Hrun as ([] & m5 & Hl & Hsev). destruct (reload_Ok _ _ _ _ _ _ Hs2 Hl) as [Hrep Hp5].
    right. exists m5. split; [by do 2 (etrans; [eassumption|])|]. split; [done|].
    intros e Hle. destruct (live_allow _ _ _ _ Hrep Hle) as (v & Hv & <-). by eapply served_revoked.
  - destruct (Hid eq_refl) as [-> Hspec']. destruct (default false em) eqn:Hd.
    + apply verb_bind_Ok in Hrun as ([] & m5 & Hl & Hsev). rewrite Hx in Hd. unfold on_registrations in Hspec', Hs1. rewrite Hrv in Hspec', Hs1.
      destruct (pushed_allow _ _ _ _ _ _ _ _ _ Hs1 Hd Hspec' Hl) as (_ & Hp5 & Hno). right. exists m5. split; [by etrans|]. by split.
    + left. rewrite Hspec'. rewrite Hx in Hd. unfold on_registrations. rewrite Hrv, (Hmv Hd). by destruct p.
Qed.

(** C7: a revocation that finds the principal granted, in the file or in a registration, and
    reports success is in force, whatever the live registry was before: no entry of the live
    registry admits the principal to the service any more, and every tracked connection of an
    endpoint it names, and every one with a session admitted as it, has been closed. One that
    finds nothing to strip leaves none admitting it either, provided the live registry was in
    step with what is stored: otherwise see [revoke_retry_lost]. *)
Theorem revoke_takes_effect io service principal m p n m' :
  stored (m_serving m) p -> revoke_service_allow io service principal m = (Ok n, m') ->
  (verb_spec (VRevoke service principal) [] p <> p ->
   (forall e, live_services (m_serving m') !! service = Some e -> principal ∉ se_allow e) /\
   exists targets, endpoints_for_principal (v_sever io) (m_store m) (m_roster m) principal = Ok targets /\
     forall id t, reg_inner (k_registry (m_conns m)) !! id = Some t ->
       t_endpoint_id t ∈ targets \/ is_Some (t_admitted t !! principal) ->
       t_conn t ∈ k_closed (m_conns m')) /\
  (represents (m_serving m) p ->
   forall e, live_services (m_serving m') !! service = Some e -> principal ∉ se_allow e).
Proof.
  intros Hst Hrun. split.
  - intros Hne. destruct (revoke_stored _ _ _ _ _ _ _ Hst Hrun) as [?|(m1 & Hp & Hs & Hno)]; [done|]. split.
    { intros e. rewrite (proj1 (severs_serving _ _ _ _ _ _ Hs)). apply Hno. }
    destruct (sever_principals_spec _ _ _ _ _ _ Hs) as (targets & Ht & Hreg & Hclosed).
    destruct Hp as (Hstore & Hro & Hco). rewrite Hstore, Hro in Ht.
    unfold endpoints_for_principals in Ht. simpl in Ht. apply bind_Ok in Ht as (more & Hm & [= <-]).
    exists more. split; [done|]. intros id t Hid Hmatch. apply Hclosed. right. right.
    exists id, t. rewrite Hco. split_and!; [done..|]. destruct Hmatch as [?|?]; [left; set_solver|].
    right. exists principal. split; [by left|done].
  - intros Hr. destruct (revoke_Ok _ _ _ _ _ _ _ Hr Hrun) as (m1 & Hrep & _ & Hend).
    assert (Hrep' : represents (m_serving m') (verb_spec (VRevoke service principal) [] p)).
    { destruct Hend as [Hs|(_ & -> & _)]; [|done]. by apply severs_serving in Hs as [-> _]. }
    intros e He. destruct (live_allow _ _ _ _ Hrep' He) as (v & Hv & <-). by eapply served_revoked.
Qed.

(** ** A revocation that failed is not retried *)

Lemma rmw_noop service principal m cfg :
  config_load Config.healthy (s_config (m_serving m)) = Ok cfg ->
  (forall svc, c_services cfg !! service = Some svc -> principal ∉ sc_allow svc) ->
  config_rmw Config.healthy (remove_principal_from_service service principal) m = (Ok false, m).
Proof.
  intros (doc & Hdoc & Hcfg)%bind_Ok Hno. apply ok_or_Ok in Hcfg. unfold config_rmw, rmw. rewrite Hdoc. simpl.
  rewrite (remove_principal_none _ _ _ _ Hcfg Hno). by rewrite with_config_id, with_serving_id.
Qed.

(** What the strip leaves when it is written: both lists without the principal, and nothing
    else touched. *)
Lemma strip_written io service principal m p svc :
  represents (m_serving m) p ->
  is_ok (rmw (v_edit io) (remove_principal_from_service service principal) (s_config (m_serving m))).1 = true ->
  c_services (p_config p) !! service = Some svc -> principal ∈ sc_allow svc ->
  exists m1, revoke_service_allow io service principal m =
      (_ ← reload_services_from_disk (v_reload io) "service-allow-revoke";
       sever_principals (v_sever io) (v_joined io) [principal]) m1 /\
    stored (m_serving m1) (verb_spec (VRevoke service principal) [] p) /\
    live_services (m_serving m1) = live_services (m_serving m) /\ m_conns m1 = m_conns m.
Proof.
  intros Hr Hw Hl Hin. destruct (proj1 Hr) as [Hc He].
  set (m0 := with_serving (with_ephemeral (revoke_from principal service (p_ephemeral p)) (m_serving m)) m).
  assert (Hst0 : stored (m_serving m0) (on_registrations (revoke_from principal service) p)) by (by split).
  pose proof (config_rmw_spec (v_edit io) (RemovePrincipal service principal) m0 _ I Hst0) as Hspec.
  destruct (config_rmw (v_edit io) (config_edit (RemovePrincipal service principal)) m0) as [[changed|err] m1] eqn:Hrun.
  - destruct Hspec as (file & -> & Hload & Hch).
    assert (changed = true) as ->.
    { destruct changed; [done|]. destruct (Hch eq_refl) as [_ Hid]. simpl in Hid.
      apply (f_equal (fun c => c_services c !! service)) in Hid. simpl in Hid. rewrite lookup_alter_eq, Hl in Hid.
      injection Hid as Hid. apply (f_equal sc_allow) in Hid. simpl in Hid. rewrite <- Hid in Hin.
      by apply list_elem_of_filter in Hin as [? _]. }
    exists (with_serving (with_config file (m_serving m0)) m0). split; [|by split].
    unfold revoke_service_allow. unfold mbind at 1, verb_bind at 1. rewrite on_ephemeral_run, He.
      rewrite (proj1 (revoke_ephemeral_spec service principal (p_ephemeral p))). fold m0.
      unfold mbind at 1, verb_bind at 1. simpl config_edit in Hrun. rewrite Hrun.
      by rewrite andb_false_r.
  - exfalso. unfold config_rmw in Hrun. simpl in Hrun. destruct (rmw _ _ _) as [[b|s] f]; [done|]. by simpl in Hw.
Qed.

(** With nothing left to strip the verb reports success and does nothing. *)
Lemma revoke_noop service principal m p :
  stored (m_serving m) p -> verb_spec (VRevoke service principal) [] p = p ->
  is_Some (p_ephemeral p !! service) \/
    (exists svc, c_services (p_config p) !! service = Some svc /\ is_ok (backend_result svc) = true) ->
  revoke_service_allow no_faults service principal m = (Ok 0, m).
Proof.
  intros Hst Hspec Hknown. unfold revoke_service_allow, mbind, verb_bind. rewrite on_ephemeral_run.
  destruct p as [cfg eph]. injection Hspec as Hcfg Heph. destruct Hst as [Hc He]. simpl in *. rewrite He.
  pose proof (revoke_ephemeral_spec service principal eph) as (Hrv & _ & Hnone). rewrite Heph in Hrv. rewrite Hrv.
  rewrite <- He, with_ephemeral_id, with_serving_id, He.
  assert (Hem : default false (revoke_ephemeral service principal eph).1 = false).
  { unfold revoke_ephemeral in Hrv |- *. destruct (eph !! service) as [e|] eqn:E; [|done]. simpl in *.
    apply (f_equal (fun x => x !! service)) in Hrv. rewrite lookup_insert_eq, E in Hrv. injection Hrv as Hrv.
    apply (f_equal eph_allow) in Hrv. simpl in Hrv. by rewrite Hrv, Nat.eqb_refl. }
  rewrite (rmw_noop service principal m cfg Hc).
  2: { intros svc Hl Hin. apply (f_equal (fun c => c_services c !! service)) in Hcfg. simpl in Hcfg.
       rewrite lookup_alter_eq, Hl in Hcfg. injection Hcfg as Hsvc. apply (f_equal sc_allow) in Hsvc.
       simpl in Hsvc. rewrite <- Hsvc in Hin. by apply list_elem_of_filter in Hin as [? _]. }
  assert (Hk : (if bool_decide ((revoke_ephemeral service principal eph).1 = None) && negb false
    then service_servable_in_config no_faults service else mret true) m = (Ok true, m)).
  { case_bool_decide as Hn; [|done]. simpl. apply Hnone in Hn. destruct Hknown as [[? ?]|(svc & Hl & Hb)]; [congruence|].
    unfold service_servable_in_config, mbind, verb_bind, load_config, attempt. simpl. rewrite Hc. simpl.
    unfold mret, verb_ret. by rewrite Hl, Hb. }
  rewrite Hk. simpl. by rewrite Hem.
Qed.

(** A revocation that failed after its strip is lost: when the configuration cannot be
    reloaded the verb fails with the live registry and every connection as they were, and the
    operator's retry, on a healthy disk, reports success and still swaps and severs nothing. *)
Theorem revoke_retry_lost io service principal m p e svc :
  represents (m_serving m) p -> f_read (v_reload io) = Some e ->
  is_ok (rmw (v_edit io) (remove_principal_from_service service principal) (s_config (m_serving m))).1 = true ->
  c_services (p_config p) !! service = Some svc -> is_ok (backend_result svc) = true ->
  principal ∈ sc_allow svc ->
  exists e1 m1, revoke_service_allow io service principal m = (Err e1, m1) /\
    revoke_service_allow no_faults service principal m1 = (Ok 0, m1) /\
    live_services (m_serving m1) = live_services (m_serving m) /\ m_conns m1 = m_conns m.
Proof.
  intros Hr Hrel Hw Hl Hb Hin. destruct (proj1 Hr) as [Hc He].
  destruct (strip_written io service principal m p svc Hr Hw Hl Hin) as (m1 & Hrun & Hst & Hlive & Hconns).
  exists (Failed ("reload config after service-allow-revoke: " +:+ e)%string), m1. split_and!; [|..|done|done].
  - rewrite Hrun. unfold mbind, verb_bind. unfold reload_services_from_disk, mbind, verb_bind, attempt.
    rewrite config_load_io, Hrel. done.
  - apply (revoke_noop service principal m1 _ Hst).
    + simpl. unfold on_registrations, on_config. simpl. f_equal.
      * destruct (p_config p) as [i n l r b svcs]. unfold with_services. simpl. f_equal.
        apply alter_idem. intros s. unfold on_allow. simpl. f_equal. apply filter_idem.
      * unfold revoke_from. apply alter_idem. intros s. unfold with_eph_allow. simpl. f_equal. apply filter_idem.
    + right. exists (on_allow (filter (fun a => a <> principal)) svc). simpl. by rewrite lookup_alter_eq, Hl.
Qed.
End revocation.

Section more.
Context `{H : HashOrder, T : TextEncoding, R : RowCodec, C : TomlCodec, !TomlCodecLaws C}.

Lemma principal_to_endpoint_spec `{!TextEncodingLaws T} p e :
  principal_to_endpoint p = Some e <-> p = principal e.
Proof.
  unfold principal_to_endpoint, principal. split.
  - destruct (strip_prefix "eid:" p) as [hex|] eqn:Hs; [|done]. apply strip_prefix_Some in Hs as ->.
    destruct (hexlower_decode hex) as [b|] eqn:Hd; [|done]. intros ->%try_key32_Some.
    by rewrite (hexlower_encode_decode _ _ Hd).
  - intros ->. rewrite strip_prefix_app, hexlower_decode_encode. apply try_key32_bytes.
Qed.

Lemma admitted_user_not_revoked io s k pe uid :
  admission io s k = AdmittedAs pe -> pe_user_id pe = Some uid -> is_user_revoked io s uid = false.
Proof.
  unfold admission, decide_admission, is_user_revoked, access. destruct (io Begin); [done|].
  destruct (io REVOKED); [done|]. simpl. case_bool_decide; [done|]. destruct (io PEERS); [done|]. simpl.
  destruct (t_peers s !! key_bytes k) as [raw|]; simpl; [|done].
  destruct (peer_from_slice raw) as [e|]; simpl; [|done]. intros Ha Hu.
  destruct (pe_user_id e) as [u|] eqn:Hue; simpl in Ha; [|congruence].
  destruct (io REVOKED_USERS); simpl in Ha; [done|].
  case_bool_decide as Hr; simpl in Ha; [done|]. injection Ha as <-. rewrite Hu in Hue. injection Hue as <-.
  simpl. by apply bool_decide_eq_false.
Qed.

(** The question the grant verb asks is never wider than admission: on the same reads, with
    any of them failing, a principal it calls revoked is neither the device principal of
    anyone the composed gate resolves nor, if it names a person, anyone's user. *)
Theorem revoked_never_resolved `{!TextEncodingLaws T} io now g p endpoint i :
  principal_is_revoked io (c_pairs g) (g_view (Gate.c_roster g)) p = true ->
  composed_resolve io now g endpoint = Some i ->
  p <> principal (id_endpoint i) /\ (starts_with "b64u:" p = true -> id_user_id i <> Some p).
Proof.
  intros Hrev Hres. pose proof (composed_gate_laws io now g) as [Hstamp _ _]. specialize (Hstamp endpoint i Hres).
  apply composed_resolve_Some in Hres as (Hroster & Hadm & Hwho).
  unfold principal_is_revoked in Hrev. destruct (principal_to_endpoint p) as [e|] eqn:Hp.
  - apply principal_to_endpoint_spec in Hp as ->. split; [|by unfold principal].
    intros Heq%(inj principal). subst e. rewrite Hstamp in Hrev. apply orb_true_iff in Hrev as [Hr|Hr].
    + by apply is_refused_true in Hr.
    + unfold roster_is_revoked in Hroster. destruct (g_view (Gate.c_roster g)); simpl in *; congruence.
  - apply andb_true_iff in Hrev as [Hb Hr]. split.
    + intros ->. assert (principal_to_endpoint (principal (id_endpoint i)) = Some (id_endpoint i))
        by (by apply principal_to_endpoint_spec). congruence.
    + intros _ Hu. destruct Hwho as [[_ Hid]|(_ & pe & Ha & ->)].
      * rewrite Hu in Hid. simpl in Hid. unfold is_roster_user_revoked in Hid. by rewrite Hb, Hr in Hid.
      * simpl in Hu. by rewrite (admitted_user_not_revoked _ _ _ _ _ Ha Hu) in Hr.
Qed.

Lemma reload_Err io why m e m' :
  reload_services_from_disk io why m = (Err e, m') -> exists s, e = Failed s /\ m' = m.
Proof.
  unfold reload_services_from_disk, mbind, verb_bind, attempt. destruct (config_load _ _); simpl; [done|].
  intros [= <- <-]. eauto.
Qed.

(** Every way the grant verb fails: a revoked principal and an unknown service are
    refused by name, before anything is written, exactly for what their names say; any other
    failure is one of the disk.  In every case the live registry, the peers and the
    connections are left as they were. *)
Theorem grant_refusals io service principal m p e m' :
  represents (m_serving m) p -> grant_service_allow io service principal m = (Err e, m') ->
  live_services (m_serving m') = live_services (m_serving m) /\ same_peers m m' /\
  match e with
  | PrincipalRevoked q =>
      q = principal /\ m' = m /\ principal_is_revoked (v_store io) (m_store m) (m_roster m) principal = true
  | NoSuchService s =>
      s = service /\ m' = m /\ served (p_config p) (p_ephemeral p) service = None
  | InvalidParams _ => False
  | Failed _ => principal_is_revoked (v_store io) (m_store m) (m_roster m) principal = false
  end.
Proof.
  intros Hr Hrun. unfold grant_service_allow in Hrun. apply verb_bind_Err in Hrun as [[=]|(rev & m0 & Hg & Hrun)].
  injection Hg as <- <-. destruct (principal_is_revoked _ _ _ _) eqn:Hrev.
  { injection Hrun as <- <-. by split_and!. }
  apply verb_bind_Err in Hrun as [[=]|(eph & m0 & He & Hrun)]. injection He as <- <-.
  apply verb_bind_Err in Hrun as [Hk|(known & m0 & Hk & Hrun)].
  { assert (m' = m) as -> by (case_bool_decide; [done|by eapply servable_run]). split_and!; [done..|].
    case_bool_decide; [done|]. unfold service_servable_in_config, load_config, attempt in Hk.
    apply verb_bind_Err in Hk as [Hk|(? & ? & ? & [=])].
    destruct (config_load _ _); simpl in Hk; [done|]. by injection Hk as <-. }
  assert (m0 = m) as -> by (case_bool_decide; [by injection Hk|by eapply servable_run]).
  apply verb_bind_Err in Hrun as [Hn|(u & m0 & Hn & Hrun)].
  { destruct known; simpl in Hn; [done|]. injection Hn as <- <-. split_and!; [done..|].
    case_bool_decide as Hno; [done|]. apply eq_None_not_Some in Hno. destruct (proj1 Hr) as [Hc Heph]. rewrite Heph in Hno.
    unfold served. rewrite Hno. unfold service_servable_in_config, load_config in Hk.
    apply verb_bind_Ok in Hk as (cfg & m1 & Hl & Hk). apply attempt_Ok in Hl as [Hl ->]. rewrite config_load_io in Hl.
    destruct (f_read _); [done|]. rewrite Hc in Hl. injection Hl as <-. injection Hk as Hk.
    destruct (c_services (p_config p) !! service) as [svc|]; [|done]. unfold config_served.
    by destruct (backend_result svc). }
  apply ensure_Ok in Hn as [_ ->]. apply verb_bind_Err in Hrun as [Hc|(cm & m1 & Hc & Hrun)].
  { pose proof (config_rmw_spec (v_edit io) (AppendAllow principal [service]) m p I (proj1 Hr)) as Hs.
    simpl config_edit in Hs. rewrite Hc in Hs. subst m'. split_and!; [done..|]. unfold config_rmw in Hc.
    destruct (rmw _ _ _) as [[b|s] f]; simpl in Hc; [done|]. by injection Hc as <- _. }
  pose proof (config_rmw_spec (v_edit io) (AppendAllow principal [service]) m p I (proj1 Hr)) as Hs.
  simpl config_edit in Hs. rewrite Hc in Hs. destruct Hs as (file & -> & _).
  apply verb_bind_Err in Hrun as [He|(em & m2 & He & Hrun)]; rewrite on_ephemeral_run in He; [done|].
  injection He as _ <-.
  assert (exists s, e = Failed s /\ m' = with_serving (with_ephemeral (grant_ephemeral service principal
      (s_ephemeral (m_serving (with_serving (with_config file (m_serving m)) m)))).2
      (m_serving (with_serving (with_config file (m_serving m)) m))) (with_serving (with_config file (m_serving m)) m))
    as (s & -> & ->).
  { destruct cm; [by apply reload_Err in Hrun|]. destruct (default false em); [|done].
    unfold apply_ephemeral_allow in Hrun.
    destruct (match _ with Some e0 => with_allow_replaced _ _ _ | None => None end); [done|].
    by apply reload_Err in Hrun. }
  by split_and!.
Qed.
End more.

Section unpair.
Context `{H : HashOrder, T : TextEncoding, R : RowCodec, C : TomlCodec, !TomlCodecLaws C}.

(** An unpairing strips the file only: whoever an ephemeral registration admits, the live
    registry admits after it, the unpaired device and person included; the pairing's grant
    writes both lists. *)
Lemma unpair_keeps_ephemeral io nickname m p b m' service e a :
  represents (m_serving m) p -> revoke_service_access io nickname m = (Ok b, m') ->
  p_ephemeral p !! service = Some e -> a ∈ eph_allow e ->
  exists entry, live_services (m_serving m') !! service = Some entry /\ a ∈ se_allow entry.
Proof.
  intros Hr Hrun He Ha.
  assert (Hv : run_verb io (VUnpair nickname) m = (Ok tt, m')).
  { simpl. unfold mbind, verb_bind. by rewrite Hrun. }
  destruct (unpair_refines _ _ _ _ _ Hr Hv) as [Hrep _].
  destruct (live_served _ _ service (ephemeral_served service e) Hrep) as (entry & Hl & Hal).
  { unfold served. simpl. by rewrite He. }
  exists entry. by rewrite Hal.
Qed.

(** Another device of the person is paired under another name. *)
Definition shared_elsewhere (nickname : string) (rows : list PeerEntry) (u : string) : Prop :=
  exists o, o ∈ rows /\ pe_nickname o <> nickname /\ pe_user_id o = Some u /\ is_Some (pe_paired_at o).

(** The principals an unpairing strips: each device's, and a person's unless another device
    of theirs is paired. *)
Lemma service_principals_spec nickname rows a :
  a ∈ service_principals nickname rows <->
  exists t, t ∈ rows /\ pe_nickname t = nickname /\
    (a = principal (pe_endpoint_id t) \/ pe_user_id t = Some a /\ ~ shared_elsewhere nickname rows a).
Proof.
  unfold service_principals. set (others := filter (fun e => pe_nickname e <> nickname) rows).
  assert (Hshared : forall u, existsb (fun o => bool_decide (pe_user_id o = Some u) && bool_decide (is_Some (pe_paired_at o))) others
      = true <-> shared_elsewhere nickname rows u).
  { intros u. rewrite existsb_elem. setoid_rewrite andb_true_iff. setoid_rewrite bool_decide_eq_true.
    unfold others, shared_elsewhere. setoid_rewrite list_elem_of_filter. split; intros (o & H1 & H2); exists o; tauto. }
  set (gives := fun t => a = principal (pe_endpoint_id t) \/ pe_user_id t = Some a /\ ~ shared_elsewhere nickname rows a).
  assert (Hstrip : forall acc u, a ∈ strips_user others acc u <->
      a ∈ acc \/ (a = u /\ ~ shared_elsewhere nickname rows u)).
  { intros acc u. unfold strips_user. rewrite <- Hshared. destruct (existsb _ others); simpl; [tauto|].
    case_bool_decide as Hin; [split; [by left|intros [?|[-> _]]; done]|].
    rewrite elem_of_app, list_elem_of_singleton. split; [intros [?|?]; auto|intros [?|[? _]]; auto]. }
  set (step := fun acc t => _).
  assert (Hstep : forall acc t, a ∈ step acc t <-> a ∈ acc \/ gives t).
  { intros acc t. unfold step, gives. destruct (pe_user_id t) as [u|]; [rewrite Hstrip|];
      rewrite elem_of_app, list_elem_of_singleton; [|split; [tauto|intros [?|[?|[? _]]]; auto; done]].
    split; [intros [[?|?]|[-> ?]]; auto|intros [?|[?|[[= ->] ?]]]; auto]. }
  assert (Hfold : forall l acc, a ∈ foldl step acc l <-> a ∈ acc \/ exists t, t ∈ l /\ gives t).
  { induction l as [|t l IH]; intros acc; simpl.
    - split; [by left|]. intros [?|(t & Ht & _)]; [done|]. by apply elem_of_nil in Ht.
    - rewrite IH, Hstep. setoid_rewrite elem_of_cons. split.
      + intros [[?|?]|(t' & ? & ?)]; [by left|right; exists t; auto|right; exists t'; auto].
      + intros [?|(t' & [->|?] & ?)]; [by left; left|by left; right|right; eauto]. }
  rewrite Hfold. setoid_rewrite list_elem_of_filter. split.
  - intros [Hin|(t & [? ?] & ?)]; [by apply elem_of_nil in Hin|exists t; auto].
  - intros (t & ? & ? & ?). right. exists t. auto.
Qed.
End unpair.

(** ** Witnesses *)
Module Witness.
Import Toy ToyRows Config.ToyToml Limits.Witness.

Definition no_config : Config :=
  {| c_identity := {| i_device_key := None; i_nickname := None; i_org_id := None; i_org_root_pk := None;
       i_user_id := None; i_admit_attested_devices := false; i_user_key := None |};
     c_network := {| n_relay_mode := "default"; n_relay_urls := []; n_discovery_mode := "default";
       n_discovery_urls := []; n_relay_only := false; n_presence_mode := "paired"; n_idle_timeout_secs := None;
       n_keep_alive_secs := None; n_local_discovery := "off" |};
     c_limits := {| l_rate_limit_per_min := 120; l_max_inflight := 16; l_max_sessions := 4;
       l_blob_bytes_per_min := 0; l_audit_retain_months := 0 |};
     c_roster := {| ro_grace_period := "72h"; ro_url := None; ro_poll_interval := "1h"; ro_max_staleness := "24h" |};
     c_blobs := {| bl_gc_interval := None |};
     c_services := ∅ |}.

(** A connection of [bob], with a session admitted as its device principal. *)
Definition tracked : Registry.Tracked :=
  {| t_endpoint_id := bob; t_roster_user := None; t_admitted := {["eid:bob" := 1]}; t_conn := 7 |}.
Definition conns : Conns :=
  {| k_registry := {| reg_inner := {[0%N := tracked]}; reg_seq := 1 |}; k_dialled := no_conns; k_closed := ∅ |}.
Definition m0 : MeshState :=
  {| m_serving := {| s_config := None; s_ephemeral := ∅; s_limiters := from_config 120 0 0%Z;
       s_backends := []; s_live := new_live ∅ |};
     m_store := empty_store; m_roster := None; m_conns := conns; m_audit := [] |}.
Definition p0 : Policy := {| p_config := no_config; p_ephemeral := ∅ |}.

Lemma represents0 : represents (m_serving m0) p0.
Proof.
  split; [by split; [vm_compute; reflexivity|]|]. split; [intros n e He; change ((∅ : Services) !! n = Some e) in He; by rewrite lookup_empty in He|].
  intros n. unfold live_view, view, served. change (live_services (m_serving m0)) with (∅ : Services). simpl. by rewrite !lookup_empty.
Qed.

Definition notes : RegisterServiceParams :=
  {| rp_name := "notes"; rp_backend := Socket "/run/notes"; rp_allow := ["eid:bob"; "b64u:carol"];
     rp_ephemeral := false; rp_rate_limit_per_min := None |}.
Definition m1 : MeshState := (register_service no_faults notes m0).2.
Definition p1 : Policy := verb_spec (VRegister notes) [] p0.
Definition notes_entry : ServiceCfg := registered (Socket "/run/notes") ["eid:bob"; "b64u:carol"] None None.

Lemma entry1 : c_services (p_config p1) !! "notes"%string = Some notes_entry.
Proof. simpl. by rewrite lookup_insert_eq. Qed.

Lemma ok_run (v : Verb unit) m : is_ok (v m).1 = true -> v m = (Ok tt, (v m).2).
Proof. by destruct (v m) as [[[]|] ?]. Qed.

Lemma ok1 : is_ok (register_service no_faults notes m0).1 = true.
Proof. vm_compute. reflexivity. Qed.
Lemma run1 : register_service no_faults notes m0 = (Ok tt, m1).
Proof. exact (ok_run _ _ ok1). Qed.

Lemma represents1 : represents (m_serving m1) p1.
Proof. exact (proj1 (register_refines no_faults notes I m0 p0 m1 represents0 run1)). Qed.

Definition m2 : MeshState := (run_verb no_faults (VRevoke "notes" "eid:bob") m1).2.
Lemma ok2 : is_ok (run_verb no_faults (VRevoke "notes" "eid:bob") m1).1 = true.
Proof. vm_compute. reflexivity. Qed.
Lemma run2 : run_verb no_faults (VRevoke "notes" "eid:bob") m1 = (Ok tt, m2).
Proof. exact (ok_run _ _ ok2). Qed.

(** A registration, then a revocation, from an empty configuration. *)
Lemma service_verbs_refine_witness :
  represents (m_serving m1) p1 /\
  exists m2, run_verb no_faults (VRevoke "notes" "eid:bob") m1 = (Ok tt, m2) /\
    represents (m_serving m2) (verb_spec (VRevoke "notes" "eid:bob") [] p1).
Proof.
  split; [exact represents1|].
  exists m2. split; [exact run2|].
  exact (proj1 (service_verbs_refine no_faults (VRevoke "notes" "eid:bob") m1 p1 m2 I represents1
    (fun _ _ => eq_refl) run2)).
Defined.

Lemma stripped_differs : verb_spec (VRevoke "notes" "eid:bob") [] p1 <> p1.
Proof.
  intros Heq. apply (f_equal (fun p => sc_allow <$> c_services (p_config p) !! "notes"%string)) in Heq.
  simpl in Heq. rewrite lookup_alter_eq, lookup_insert_eq in Heq. discriminate Heq.
Qed.

Lemma revoke_takes_effect_witness : exists n m2,
  revoke_service_allow no_faults "notes" "eid:bob" m1 = (Ok n, m2) /\ 7%N ∈ k_closed (m_conns m2).
Proof.
  destruct (revoke_service_allow no_faults "notes" "eid:bob" m1) as [r m2] eqn:E.
  assert (Hr : is_ok r = true).
  { transitivity (is_ok (revoke_service_allow no_faults "notes" "eid:bob" m1).1); [by rewrite E|].
    vm_compute. reflexivity. }
  destruct r as [n|]; [|discriminate Hr]. exists n, m2. split; [reflexivity|].
  destruct (revoke_takes_effect no_faults "notes" "eid:bob" m1 p1 n m2 (proj1 represents1) E) as [H _].
  destruct (H stripped_differs) as (_ & targets & _ & Hc). apply (Hc 0%N tracked).
  - assert (k_registry (m_conns m1) = k_registry conns) as -> by (vm_compute; reflexivity).
    simpl. apply lookup_singleton_eq.
  - right. simpl. rewrite lookup_singleton_eq. eauto.
Defined.

(** The reload after the strip finds the file unreadable. *)
Definition reload_fault : VerbIo :=
  {| v_edit := Config.healthy; v_check := Config.healthy;
     v_reload := {| f_read := Some "permission denied"; f_write := None |};
     v_store := Allowlist.healthy; v_sever := Allowlist.healthy; v_joined := true |}.

Lemma revoke_retry_lost_witness : exists m2,
  revoke_service_allow no_faults "notes" "eid:bob" m2 = (Ok 0, m2) /\
  exists e, live_services (m_serving m2) !! "notes"%string = Some e /\ "eid:bob"%string ∈ se_allow e.
Proof.
  destruct (revoke_retry_lost reload_fault "notes" "eid:bob" m1 p1 "permission denied" notes_entry)
    as (e1 & m2 & _ & Hretry & Hlive & _).
  - exact represents1.
  - reflexivity.
  - vm_compute. reflexivity.
  - exact entry1.
  - reflexivity.
  - simpl. left.
  - exists m2. split; [exact Hretry|]. rewrite Hlive.
    destruct (live_served _ _ "notes" (serve_spec "notes" (Socket "/run/notes") ["eid:bob"; "b64u:carol"] false)
      represents1) as (e & He & Ha).
    { unfold served. simpl. rewrite lookup_empty, lookup_insert_eq. reflexivity. }
    exists e. split; [exact He|]. rewrite Ha. left.
Defined.

Lemma grant_refusals_witness : exists m2,
  grant_service_allow no_faults "notez" "eid:bob" m1 = (Err (NoSuchService "notez"), m2) /\ m2 = m1.
Proof.
  destruct (grant_service_allow no_faults "notez" "eid:bob" m1) as [r m2] eqn:E. exists m2.
  assert (r = Err (NoSuchService "notez")) as ->.
  { transitivity (grant_service_allow no_faults "notez" "eid:bob" m1).1; [by rewrite E|]. vm_compute. reflexivity. }
  split; [reflexivity|].
  destruct (grant_refusals no_faults "notez" "eid:bob" m1 p1 (NoSuchService "notez") m2 represents1 E)
    as (_ & _ & _ & H & _). exact H.
Defined.

(** [carol] is revoked; the paired [alice] of the allowlist's example still resolves. *)
Definition gate : ComposedGate :=
  {| Gate.c_roster := empty_gate;
     c_pairs := set_revoked_users {["b64u:carol"%string := []]} Allowlist.Witness.paired |}.

Lemma revoked_never_resolved_witness : exists i,
  composed_resolve Allowlist.healthy 0%Z gate Allowlist.Witness.ep = Some i /\ id_user_id i <> Some "b64u:carol"%string.
Proof.
  destruct (composed_resolve Allowlist.healthy 0%Z gate Allowlist.Witness.ep) as [i|] eqn:E.
  - exists i. split; [reflexivity|].
    apply (revoked_never_resolved Allowlist.healthy 0%Z gate "b64u:carol" Allowlist.Witness.ep i);
      [vm_compute; reflexivity|exact E|reflexivity].
  - exfalso. apply (f_equal (fun o => match o with Some _ => true | None => false end)) in E.
    vm_compute in E. discriminate E.
Defined.
End Witness.
