(* ===== verification/Rosters.v ===== *)
(** * Installing, distributing and confirming the org roster

    [node/src/roster/mod.rs] (the persisted document), [node/src/roster/freshness.rs] (the
    confirmation sidecar), [node/src/daemon/roster_install.rs] (the install pipeline and the
    organisation verbs), [node/src/roster/distribute.rs] with the fetch of
    [node/src/roster/transport.rs] (gossip and polling), [confirm_roster_current] of
    [node/src/daemon.rs] and the startup load of [node/src/daemon/boot.rs].

    An operation holds [reload_lock] from its first access to its last, and is a function of
    the node's state and of the faults of its accesses.  The close pass an install spawns is
    an operation of its own, owed until it runs. *)
From stdpp Require Import base list gmap strings pretty.
From Stdlib Require Import ZArith Lia Strings.Byte.
From S2P Require Import Prelude Bytes Digits Json Externals Schema Sign Validate Identity Allowlist Gate Service Hooks Config AuditFiles Registry Session Addrs Mesh.

Local Open Scope Z_scope.

(** ** The persisted document *)
Inductive AnchorError := BadText (e : RosterError) | BadLength | BadKey.

Inductive InstallError :=
| StageFile (e : string)
| ReadFile (e : string)
| ParseFile
| ReadInstalled (e : string)
| Invalid (e : RosterError)
| Persist (e : string)
| NoAnchor
| BadAnchor (e : AnchorError)
| ReadConfig (e : string)
| WriteConfig (e : string)
| BadNickname (e : string)
| BadMetadata (length : Z)
| Fetch (e : string)
| Announcing (e : string).

(** The struct's own serializer, pretty-printed; what it prints reads back. *)
Class RosterPrinter := { roster_to_vec_pretty : Roster -> bytes }.

Definition roster_from_slice `{SerdeJson} (b : bytes) : option Roster := json_from_slice b ≫= roster_of_value.

Class RosterPrinterLaws `{J : SerdeJson} (P : RosterPrinter) := {
  roster_pretty_reads r : 0 <= r_serial r <= u64_max -> roster_from_slice (roster_to_vec_pretty r) = Some r }.

(** The faults of one operation, and the text of its instant. *)
Record RosterIo := {
  ri_stage : option string;
  ri_reread : option string;
  ri_read : option string;
  ri_write : option string;
  ri_config : Config.Faults;
  ri_pin : Config.Faults;
  ri_confirm : option string;
  ri_config_again : Config.Faults;
  ri_uid : Config.Faults;
  ri_store : Allowlist.Io;
  ri_joined : bool;
  ri_ts : string }.

Definition no_roster_faults (ts : string) : RosterIo :=
  {| ri_stage := None; ri_reread := None; ri_read := None; ri_write := None;
     ri_config := Config.healthy; ri_pin := Config.healthy; ri_confirm := None;
     ri_config_again := Config.healthy; ri_uid := Config.healthy;
     ri_store := Allowlist.healthy; ri_joined := true; ri_ts := ts |}.

Definition faulty (e : option string) {A} (a : A) : result string A :=
  match e with Some e => Err e | None => Ok a end.

Section store.
Context `{E : Ed25519, T : TextEncoding, J : SerdeJson, C : Chrono, P : RosterPrinter}.

Definition load (io : RosterIo) (root_pk : VerifyingKey) (disk : option bytes) :
    result InstallError (option RosterView) :=
  file ← map_err ReadInstalled (faulty (ri_read io) disk);
  match file with
  | None => Ok None
  | Some b =>
      roster ← ok_or ParseFile (roster_from_slice b);
      view ← map_err Invalid (load_installed roster root_pk);
      Ok (Some view)
  end.

Definition disk_serial (disk : option bytes) : Z :=
  match disk ≫= roster_from_slice with Some r => r_serial r | None => 0 end.

(** An unparseable file counts as none. *)
Definition installed_serial (io : RosterIo) (disk : option bytes) : result InstallError Z :=
  map_err ReadInstalled (disk_serial <$> faulty (ri_read io) disk).

(** The file judged is read first; the accepted document is written last. *)
Definition accept_file (io : RosterIo) (file : result string bytes) (root_pk : VerifyingKey) (now : Z)
    (disk : option bytes) : result InstallError (Roster * RosterView * AnchorChange) :=
  b ← map_err ReadFile file;
  roster ← ok_or ParseFile (roster_from_slice b);
  installed ← installed_serial io disk;
  va ← map_err Invalid (validate_for_install_with_anchor roster root_pk installed now);
  Ok (roster, va.1, va.2).

Definition install_from_file (io : RosterIo) (file : result string bytes) (root_pk : VerifyingKey) (now : Z)
    (disk : option bytes) : result InstallError (RosterView * AnchorChange) * option bytes :=
  match accept_file io file root_pk now disk with
  | Err e => (Err e, disk)
  | Ok (roster, view, anchor) =>
      match ri_write io with
      | Some e => (Err (Persist e), disk)
      | None => (Ok (view, anchor), Some (roster_to_vec_pretty roster))
      end
  end.

Definition parse_org_root_pk (b64u : string) : result AnchorError VerifyingKey :=
  b ← map_err BadText (decode_b64u b64u);
  k ← ok_or BadLength (try_key32 b);
  ok_or BadKey (vk_from_bytes k).
End store.

(** ** Freshness *)

(** Well-formed UTF-8, which reading a file to a string requires. *)
Definition between (lo hi : Z) (b : byte) : bool := (lo <=? byte_val b) && (byte_val b <=? hi).
Definition continuation : byte -> bool := between 0x80 0xbf.

Fixpoint utf8 (b : bytes) : bool :=
  match b with
  | [] => true
  | c :: b =>
      if between 0 0x7f c then utf8 b
      else
        match b with
        | [] => false
        | d :: b =>
            if between 0xc2 0xdf c then continuation d && utf8 b
            else
              match b with
              | [] => false
              | e :: b =>
                  if (between 0xe0 0xe0 c && between 0xa0 0xbf d)
                     || ((between 0xe1 0xec c || between 0xee 0xef c) && continuation d)
                     || (between 0xed 0xed c && between 0x80 0x9f d)
                  then continuation e && utf8 b
                  else
                    match b with
                    | [] => false
                    | f :: b =>
                        ((between 0xf0 0xf0 c && between 0x90 0xbf d)
                         || (between 0xf1 0xf3 c && continuation d)
                         || (between 0xf4 0xf4 c && between 0x80 0x8f d))
                        && continuation e && continuation f && utf8 b
                    end
              end
        end
  end.

Lemma utf8_number b : forallb sign_or_digit b = true -> utf8 b = true.
Proof.
  induction b as [|c b IH]; [done|]. intros [Hc Hb]%andb_true_iff. cbn [utf8].
  assert (between 0 0x7f c = true) as ->; [|by apply IH].
  unfold sign_or_digit, is_ascii_digit in Hc. unfold between.
  apply orb_true_iff in Hc as [[?%Z.leb_le ?%Z.leb_le]%andb_true_iff| ->%bool_decide_eq_true]; [|done].
  apply andb_true_iff. rewrite !Z.leb_le. lia.
Qed.

(** [FreshnessStore]: absent or unparseable is [None]. *)
Definition freshness_load (fault : option string) (file : option bytes) : result string (option Z) :=
  file ← faulty fault file;
  match file with
  | None => Ok None
  | Some b => if utf8 b then Ok (parse_i64 (trim b)) else Err "stream did not contain valid UTF-8"
  end.

Definition freshness_store (fault : option string) (epoch : Z) (file : option bytes) :
    result string unit * option bytes :=
  match fault with
  | Some e => (Err e, file)
  | None => (Ok tt, Some (as_bytes (pretty epoch)))
  end.

Lemma freshness_roundtrip epoch : in_i64 epoch -> freshness_load None (Some (as_bytes (pretty epoch))) = Ok (Some epoch).
Proof.
  intros He. unfold freshness_load. simpl. rewrite (utf8_number _ (number_pretty epoch)), trim_pretty.
  by rewrite parse_i64_pretty.
Qed.

(** ** The node *)

(** The roster gate is the view of the shared state with the freshness fields here;
    [rn_close_passes] counts the spawned close passes that have not run; [rn_announced] is
    what was broadcast on the roster topic. *)
Record RosterNode := {
  rn_self : key32;
  rn_mesh : MeshState;
  rn_roster_json : option bytes;
  rn_confirmed : option bytes;
  rn_grace_secs : Z;
  rn_max_staleness : Z;
  rn_last_confirmed : option Z;
  rn_armed : bool;
  rn_close_passes : nat;
  rn_book : RosterAddrBook;
  rn_announced : list (Z * bytes);
  rn_nickname : string;
  rn_app_metadata : string;
  rn_poll : option (string * Z);
  rn_transport_live : bool }.

Definition rn_gate (n : RosterNode) : RosterGate :=
  {| g_view := m_roster (rn_mesh n); g_grace_secs := rn_grace_secs n;
     g_last_confirmed := rn_last_confirmed n; g_max_staleness := rn_max_staleness n |}.
Definition rn_config (n : RosterNode) : option bytes := s_config (m_serving (rn_mesh n)).

(** The part of the node an install touches. *)
Definition set_rn (mesh : MeshState) (disk confirmed : option bytes) (last : option Z) (passes : nat)
    (n : RosterNode) : RosterNode :=
  {| rn_self := rn_self n; rn_mesh := mesh; rn_roster_json := disk; rn_confirmed := confirmed;
     rn_grace_secs := rn_grace_secs n; rn_max_staleness := rn_max_staleness n;
     rn_last_confirmed := last; rn_armed := rn_armed n; rn_close_passes := passes;
     rn_book := rn_book n; rn_announced := rn_announced n; rn_nickname := rn_nickname n;
     rn_app_metadata := rn_app_metadata n; rn_poll := rn_poll n; rn_transport_live := rn_transport_live n |}.
Definition on_mesh (f : MeshState -> MeshState) (n : RosterNode) : RosterNode :=
  set_rn (f (rn_mesh n)) (rn_roster_json n) (rn_confirmed n) (rn_last_confirmed n) (rn_close_passes n) n.
Definition with_disk (d : option bytes) (n : RosterNode) : RosterNode :=
  set_rn (rn_mesh n) d (rn_confirmed n) (rn_last_confirmed n) (rn_close_passes n) n.
Definition with_freshness_of (last : Z) (file : option bytes) (n : RosterNode) : RosterNode :=
  set_rn (rn_mesh n) (rn_roster_json n) file (Some last) (rn_close_passes n) n.
Definition with_passes (k : nat) (n : RosterNode) : RosterNode :=
  set_rn (rn_mesh n) (rn_roster_json n) (rn_confirmed n) (rn_last_confirmed n) k n.

(** The rest. *)
Definition set_rest (book : RosterAddrBook) (announced : list (Z * bytes)) (nickname metadata : string)
    (poll : option (string * Z)) (n : RosterNode) : RosterNode :=
  {| rn_self := rn_self n; rn_mesh := rn_mesh n; rn_roster_json := rn_roster_json n;
     rn_confirmed := rn_confirmed n; rn_grace_secs := rn_grace_secs n;
     rn_max_staleness := rn_max_staleness n; rn_last_confirmed := rn_last_confirmed n;
     rn_armed := rn_armed n; rn_close_passes := rn_close_passes n; rn_book := book;
     rn_announced := announced; rn_nickname := nickname; rn_app_metadata := metadata;
     rn_poll := poll; rn_transport_live := rn_transport_live n |}.
Definition with_book (b : RosterAddrBook) (n : RosterNode) : RosterNode :=
  set_rest b (rn_announced n) (rn_nickname n) (rn_app_metadata n) (rn_poll n) n.
Definition with_announced (a : Z * bytes) (n : RosterNode) : RosterNode :=
  set_rest (rn_book n) (rn_announced n ++ [a]) (rn_nickname n) (rn_app_metadata n) (rn_poll n) n.
Definition with_nickname (s : string) (n : RosterNode) : RosterNode :=
  set_rest (rn_book n) (rn_announced n) s (rn_app_metadata n) (rn_poll n) n.
Definition with_metadata (s : string) (n : RosterNode) : RosterNode :=
  set_rest (rn_book n) (rn_announced n) (rn_nickname n) s (rn_poll n) n.
Definition with_poll (p : option (string * Z)) (n : RosterNode) : RosterNode :=
  set_rest (rn_book n) (rn_announced n) (rn_nickname n) (rn_app_metadata n) p n.

Definition with_view (v : option RosterView) (m : MeshState) : MeshState :=
  {| m_serving := m_serving m; m_store := m_store m; m_roster := v; m_conns := m_conns m;
     m_audit := m_audit m |}.

(** *** Operations: state and typed errors *)
Definition Act (A : Type) : Type := RosterNode -> result InstallError A * RosterNode.
#[export] Instance act_ret : MRet Act := fun A a n => (Ok a, n).
#[export] Instance act_bind : MBind Act := fun A B f v n =>
  match v n with
  | (Ok a, n) => f a n
  | (Err e, n) => (Err e, n)
  end.
Definition fail {A} (e : InstallError) : Act A := fun n => (Err e, n).
Definition read {A} (f : RosterNode -> A) : Act A := fun n => (Ok (f n), n).
Definition update (f : RosterNode -> RosterNode) : Act unit := fun n => (Ok tt, f n).
Definition lift {A} (f : RosterNode -> result InstallError A) : Act A := fun n => (f n, n).
Definition require (b : bool) (e : InstallError) : Act unit := if b then mret tt else fail e.

(** A failure that is only logged. *)
Definition best_effort {A} (a : Act A) : Act unit := fun n => (Ok tt, (a n).2).

Definition gate_serial (n : RosterNode) : Z :=
  match m_roster (rn_mesh n) with Some v => v_serial v | None => 0 end.

Section pipeline.
Context `{E : Ed25519, T : TextEncoding, J : SerdeJson, C : Chrono, P : RosterPrinter, R : RowCodec, TC : TomlCodec}.

Definition mesh_config_org_root_pk (io : RosterIo) (n : RosterNode) : result InstallError (option string) :=
  cfg ← map_err ReadConfig (config_load (ri_config io) (rn_config n));
  Ok (i_org_root_pk (c_identity cfg)).

(** One surgical write of [config.toml]. *)
Definition write_config (faults : Config.Faults) (edit : Table -> result string (option Table)) : Act bool := fun n =>
  let '(r, file) := rmw faults edit (rn_config n) in
  (map_err WriteConfig r, on_mesh (fun m => with_serving (with_config file (m_serving m)) m) n).

Definition confirm_roster_current (io : RosterIo) (now : Z) : Act unit :=
  update (fun n => with_freshness_of now (freshness_store (ri_confirm io) now (rn_confirmed n)).2 n).

(** Swap, sever, owe the close pass, record; the connections severed. *)
Definition install_target (v : RosterView) : string := v_org_id v +:+ "/" +:+ pretty (v_serial v).

(** The sever predicate of an install, over the sets of the new view. *)
Definition severs (v : RosterView) : EndpointId -> option string -> bool :=
  fun eid roster_user => should_sever eid roster_user (v_revoked v) (dom (v_devices v)).

Definition install_roster_view_and_sever (io : RosterIo) (v : RosterView) : Act nat :=
  _ ← update (on_mesh (with_view (Some v)));
  cut ← read (fun n => sever_matching (severs v) (k_registry (m_conns (rn_mesh n))));
  _ ← update (on_mesh (fun m => with_conns (close_handles cut (m_conns m)) m));
  _ ← update (fun n => if rn_armed n then with_passes (S (rn_close_passes n)) n else n);
  _ ← update (on_mesh (with_audit (trust_record (ri_ts io) "roster_install" (Some (install_target v)) None)));
  mret (length cut).

Definition audit_successor_adoption (io : RosterIo) (anchor : AnchorChange) (org_id : string) : Act unit :=
  match anchor with
  | None => mret tt
  | Some pk => update (on_mesh (with_audit (trust_record (ri_ts io) "org_root_rotated" (Some org_id) (Some pk))))
  end.

Definition adopt_successor_root (io : RosterIo) (anchor : AnchorChange) (org_id : string) : Act unit :=
  match anchor with
  | None => mret tt
  | Some pk =>
      _ ← write_config (ri_pin io) (write_identity_pin pk org_id);
      audit_successor_adoption io anchor org_id
  end.

(** The roster's user id for this device replaces the configured proposal; best effort. *)
Definition reconcile_user_id_from_roster (io : RosterIo) : Act unit := fun n =>
  match m_roster (rn_mesh n) ≫= (fun v => Validate.resolve v (rn_self n)) with
  | None => (Ok tt, n)
  | Some d =>
      let proposed := ok (config_load (ri_config_again io) (rn_config n)) ≫= (fun c => i_user_id (c_identity c)) in
      if decide (proposed = Some (rd_user_id d)) then (Ok tt, n)
      else (Ok tt, (write_config (ri_uid io) (write_identity_user_id (rd_user_id d)) n).2)
  end.

(** The temporary file the bytes are judged from. *)
Definition staged (io : RosterIo) (b : bytes) : result string bytes := faulty (ri_reread io) b.

Definition install_to_disk (io : RosterIo) (file : result string bytes) (pk : VerifyingKey) (now : Z) :
    Act (RosterView * AnchorChange) := fun n =>
  let '(r, disk) := install_from_file io file pk now (rn_roster_json n) in (r, with_disk disk n).

Definition converge_roster_bytes (io : RosterIo) (now : Z) (b : bytes) (serial : Z) : Act bool :=
  installed ← read gate_serial;
  if serial <=? installed then mret false
  else
    pinned ← lift (mesh_config_org_root_pk io);
    text ← lift (fun _ => ok_or NoAnchor pinned);
    pk ← lift (fun _ => map_err BadAnchor (parse_org_root_pk text));
    _ ← lift (fun _ => map_err StageFile (faulty (ri_stage io) tt));
    va ← install_to_disk io (staged io b) pk now;
    _ ← adopt_successor_root io va.2 (v_org_id va.1);
    _ ← confirm_roster_current io now;
    _ ← install_roster_view_and_sever io va.1;
    _ ← reconcile_user_id_from_roster io;
    mret true.

(** *** Announcing *)

(** What the gossip side answers: whether it runs, the blob store, the topic's sender. *)
Record GossipEnv := {
  ge_active : bool;
  ge_blobs : bool;
  ge_read : option string;
  ge_publish : option string;
  ge_sender : bool;
  ge_broadcast : option string }.

Definition announce_roster (env : GossipEnv) : Act unit := fun n =>
  if negb (ge_active env) || negb (ge_blobs env) then (Ok tt, n)
  else
    match m_roster (rn_mesh n) with
    | None => (Ok tt, n)
    | Some v =>
        match ge_read env, rn_roster_json n with
        | Some e, _ => (Err (Announcing e), n)
        | None, None => (Err (Announcing "read installed roster for announce"), n)
        | None, Some b =>
            match ge_publish env with
            | Some e => (Err (Announcing e), n)
            | None =>
                if ge_sender env then
                  match ge_broadcast env with
                  | Some e => (Err (Announcing e), n)
                  | None => (Ok tt, with_announced (v_serial v, b) n)
                  end
                else (Ok tt, n)
            end
        end
    end.

(** The manual install: an explicit key is pinned, unless the roster moved the anchor. *)
Definition install_roster (io : RosterIo) (env : GossipEnv) (now : Z) (file : result string bytes)
    (org_root_pk : option string) : Act (string * Z * nat) :=
  text ← lift (fun n => match org_root_pk with
                        | Some s => Ok s
                        | None => pinned ← mesh_config_org_root_pk io n; ok_or NoAnchor pinned
                        end);
  pk ← lift (fun _ => map_err BadAnchor (parse_org_root_pk text));
  va ← install_to_disk io file pk now;
  let '(v, anchor) := va in
  _ ← audit_successor_adoption io anchor (v_org_id v);
  _ ← (if bool_decide (is_Some org_root_pk) || bool_decide (is_Some anchor)
       then write_config (ri_pin io) (write_identity_pin (default text anchor) (v_org_id v))
       else mret false);
  _ ← confirm_roster_current io now;
  severed ← install_roster_view_and_sever io v;
  _ ← reconcile_user_id_from_roster io;
  _ ← best_effort (announce_roster env);
  mret (v_org_id v, v_serial v, severed).
End pipeline.

(** ** Distribution *)
Definition MAX_ROSTER_BYTES : Z := 4 * 1024 * 1024.

(** A response: its status, its announced length, its body chunk by chunk. *)
Record Response := {
  rs_status : result string unit;
  rs_content_length : option Z;
  rs_chunks : list (result string bytes) }.

Fixpoint read_chunks (max : Z) (body : bytes) (chunks : list (result string bytes)) : result string bytes :=
  match chunks with
  | [] => Ok body
  | Err e :: _ => Err e
  | Ok chunk :: chunks =>
      if Z.of_nat (length body) + Z.of_nat (length chunk) <=? max
      then read_chunks max (body ++ chunk) chunks
      else Err "roster body exceeds the cap (streamed)"%string
  end.

Definition fetch_capped (response : result string Response) (max : Z) : result string bytes :=
  r ← response;
  _ ← rs_status r;
  match rs_content_length r with
  | Some len => if len <=? max then read_chunks max [] (rs_chunks r)
                else Err "roster body exceeds the cap (content-length)"%string
  | None => read_chunks max [] (rs_chunks r)
  end.

Record RosterAnnounce := { an_serial : Z; an_roster_hash : string; an_blob_ticket : string }.

Section distribute.
Context `{E : Ed25519, T : TextEncoding, J : SerdeJson, C : Chrono, P : RosterPrinter, R : RowCodec, TC : TomlCodec, B : Blake3}.

(** The announce's binding of the fetched document. *)
Definition fetch (download : result string bytes) (roster_hash : string) : result string bytes :=
  b ← download;
  let got := ("blake3:" +:+ hexlower_encode (key_bytes (blake3 b)))%string in
  if decide (got = roster_hash) then Ok b else Err "roster blob hash mismatch"%string.

(** [ticket]: the announced ticket's provider, if it parses; [download]: what the blob
    transfer gave, [None] when it timed out. *)
Definition on_announce (io : RosterIo) (env : GossipEnv) (now : Z) (ticket : string -> option EndpointAddr)
    (download : option (result string bytes)) (announce : RosterAnnounce) : Act unit :=
  installed ← read gate_serial;
  if (an_serial announce <=? installed) || negb (ge_blobs env) then mret tt
  else
    refused ← read (fun n =>
      match ticket (an_blob_ticket announce) with
      | Some addr => negb (ri_joined io)
                     || refused_by (ri_store io) (m_store (rn_mesh n)) (m_roster (rn_mesh n)) (ea_id addr)
      | None => false
      end);
    if (refused : bool) then mret tt
    else
      _ ← update (fun n => match ticket (an_blob_ticket announce) with
                           | Some addr => with_book (note addr (rn_book n)).2 n
                           | None => n
                           end);
      match download with
      | None => mret tt
      | Some got =>
          b ← lift (fun _ => map_err Fetch
                (match ticket (an_blob_ticket announce) with
                 | Some _ => fetch got (an_roster_hash announce)
                 | None => Err "parse blob ticket"%string
                 end));
          installed ← converge_roster_bytes io now b (an_serial announce);
          if (installed : bool) then announce_roster env else mret tt
      end.

Definition equal_serial_body_is_authentic (io : RosterIo) (parsed : option Roster) (n : RosterNode) : bool :=
  match parsed with
  | None => false
  | Some roster =>
      match mesh_config_org_root_pk io n with
      | Ok (Some pk_b64) =>
          match parse_org_root_pk pk_b64 with
          | Ok pk => is_ok (verify roster pk)
          | Err _ => false
          end
      | _ => false
      end
  end.

Definition poll_roster_url_once (io : RosterIo) (env : GossipEnv) (now : Z) (response : result string Response) :
    Act unit :=
  body ← lift (fun _ => map_err Fetch (fetch_capped response MAX_ROSTER_BYTES));
  installed ← read gate_serial;
  match roster_from_slice body with
  | None => mret tt
  | Some r =>
      if installed <? r_serial r then
        done ← converge_roster_bytes io now body (r_serial r);
        if (done : bool) then best_effort (announce_roster env) else mret tt
      else if r_serial r =? installed then
        authentic ← read (equal_serial_body_is_authentic io (Some r));
        if (authentic : bool) then confirm_roster_current io now else mret tt
      else mret tt
  end.

(** ** The organisation verbs *)

(** Whether a restart is needed for the roster transport. *)
Definition org_join (io : RosterIo) (org_id org_root_pk user_id user_key : string) : Act bool :=
  _ ← lift (fun _ => map_err BadAnchor (parse_org_root_pk org_root_pk));
  _ ← write_config (ri_pin io) (write_join_pin org_id org_root_pk user_id user_key);
  read (fun n => negb (rn_transport_live n)).

Definition set_nickname (io : RosterIo) (nickname : string) : Act unit :=
  let nickname := from_bytes (trim (as_bytes nickname)) in
  _ ← require (negb (bool_decide (nickname = ""%string))) (BadNickname "the nickname is empty");
  _ ← require (negb (existsb (fun c => bool_decide (c = Byte.x2f)) (as_bytes nickname)))
        (BadNickname "the nickname must not contain '/'");
  _ ← write_config (ri_pin io) (write_identity_nickname nickname);
  update (with_nickname nickname).

Definition APP_METADATA_MAX_BYTES : Z := 256.
Definition set_app_metadata (metadata : string) : Act unit :=
  let len := Z.of_nat (String.length metadata) in
  _ ← require (len <=? APP_METADATA_MAX_BYTES) (BadMetadata len);
  update (with_metadata metadata).

(** [respawn_poll_loop]'s interval: the configured one, an hour when the configuration does
    not load. *)
Definition poll_interval (io : RosterIo) (config : option bytes) : Z :=
  match config_load (ri_config_again io) config with
  | Ok c => poll_interval_seconds (c_roster c)
  | Err _ => 3600
  end.

(** The poll loop is respawned when an organisation is pinned. *)
Definition set_roster_url (io : RosterIo) (url : string) : Act unit :=
  _ ← write_config (ri_pin io) (write_roster_url url);
  update (fun n =>
    let cfg := config_load (ri_config io) (rn_config n) in
    if match cfg with Ok c => bool_decide (is_Some (i_org_root_pk (c_identity c))) | Err _ => false end
    then with_poll (Some (url, poll_interval io (rn_config n))) n
    else n).

(** ** The tasks *)
Definition staleness_sweep_once (now : Z) : Act nat :=
  state ← read (fun n => gate_effective_state (rn_gate n) now);
  if decide (state = Some DegradedStopped) then
    cut ← read (fun n => sever_matching (fun _ roster_user => bool_decide (is_Some roster_user))
                           (k_registry (m_conns (rn_mesh n))));
    _ ← update (on_mesh (fun m => with_conns (close_handles cut (m_conns m)) m));
    mret (length cut)
  else mret 0%nat.

(** One owed close pass of the dialled connections. *)
Definition close_pass (io : RosterIo) : Act unit :=
  update (fun n =>
    match rn_close_passes n with
    | O => n
    | S k => with_passes k (on_mesh (fun m => (close_refused_peer_conns (ri_store io) (ri_joined io) m).2) n)
    end).

(** ** The start *)
Definition boot_view (io : RosterIo) (cfg : Config) (disk : option bytes) : option RosterView :=
  match i_org_root_pk (c_identity cfg) with
  | None => None
  | Some text =>
      match parse_org_root_pk text with
      | Err _ => None
      | Ok pk => match load io pk disk with Ok v => v | Err _ => None end
      end
  end.

(** The sidecar's instant; none and a roster is the one-time upgrade grace. *)
Definition boot_freshness (io : RosterIo) (now : Z) (view : option RosterView) (file : option bytes) :
    option Z * option bytes :=
  match freshness_load (ri_reread io) file with
  | Ok (Some lc) => (Some lc, file)
  | Ok None =>
      if bool_decide (is_Some view) then (Some now, (freshness_store (ri_confirm io) now file).2)
      else (None, file)
  | Err _ => (None, file)
  end.

Definition boot (io : RosterIo) (now : Z) (cfg : Config) (default_nickname : string) (transport_live : bool)
    (n : RosterNode) : RosterNode :=
  let roster_mode := bool_decide (is_Some (i_org_root_pk (c_identity cfg))) in
  let view := boot_view io cfg (rn_roster_json n) in
  let '(last, confirmed) := boot_freshness io now view (rn_confirmed n) in
  {| rn_self := rn_self n;
     rn_mesh := with_view view (with_conns {| k_registry := new_registry; k_dialled := no_conns; k_closed := ∅ |}
                                  (rn_mesh n));
     rn_roster_json := rn_roster_json n; rn_confirmed := confirmed;
     rn_grace_secs := grace_seconds (c_roster cfg);
     rn_max_staleness := max_staleness_seconds (c_roster cfg); rn_last_confirmed := last;
     rn_armed := true; rn_close_passes := 0; rn_book := register (ab_cap (rn_book n));
     rn_announced := []; rn_nickname := default default_nickname (i_nickname (c_identity cfg));
     rn_app_metadata := "";
     rn_poll := if roster_mode
                then (fun url => (url, poll_interval io (rn_config n))) <$> ro_url (c_roster cfg)
                else None;
     rn_transport_live := transport_live |}.

(** ** Histories *)
Inductive Event :=
| InstallRoster (file : result string bytes) (org_root_pk : option string)
| Announce (a : RosterAnnounce) (ticket : string -> option EndpointAddr) (download : option (result string bytes))
| Poll (response : result string Response)
| OrgJoin (org_id org_root_pk user_id user_key : string)
| SetNickname (nickname : string)
| SetAppMetadata (metadata : string)
| SetRosterUrl (url : string)
| Sweep
| ClosePass
| Boot (cfg : Config) (default_nickname : string) (transport_live : bool).

Definition handle (io : RosterIo) (env : GossipEnv) (now : Z) (e : Event) (n : RosterNode) : RosterNode :=
  match e with
  | InstallRoster file pk => (install_roster io env now file pk n).2
  | Announce a ticket download => (on_announce io env now ticket download a n).2
  | Poll response => (poll_roster_url_once io env now response n).2
  | OrgJoin org pk u k => (org_join io org pk u k n).2
  | SetNickname s => (set_nickname io s n).2
  | SetAppMetadata s => (set_app_metadata s n).2
  | SetRosterUrl url => (set_roster_url io url n).2
  | Sweep => (staleness_sweep_once now n).2
  | ClosePass => (close_pass io n).2
  | Boot cfg nickname live => boot io now cfg nickname live n
  end.

Definition history (l : list (RosterIo * GossipEnv * Z * Event)) (n : RosterNode) : RosterNode :=
  foldl (fun n x => let '(io, env, now, e) := x in handle io env now e n) n l.
End distribute.

(** ** Lemmas *)
Lemma roster_of_value_serial v r : roster_of_value v = Some r -> 0 <= r_serial r <= u64_max.
Proof.
  unfold roster_of_value. intros (m & _ & H)%bind_Some. destruct (known_fields _ m); [|done].
  apply bind_Some in H as (f & _ & H). apply bind_Some in H as (o & _ & H).
  apply bind_Some in H as (s & Hs & H).
  assert (0 <= s <= u64_max).
  { unfold req_u64 in Hs. repeat (case_match; try done). simplify_eq.
    match goal with H : _ && _ = true |- _ => apply andb_true_iff in H as [?%Z.leb_le ?%Z.leb_le] end. done. }
  repeat (apply bind_Some in H as (? & _ & H)). by simplify_eq.
Qed.

(** A document of representable numbers prints as it is. *)
Lemma plain_strings l : plain_value (strings_to_value l) = true.
Proof. by induction l. Qed.

Lemma plain_map {A} (f : A -> Value) l : (forall a, plain_value (f a) = true) -> plain_value (VArray (map f l)) = true.
Proof. intros Hf. simpl. induction l as [|a l IH]; [done|]. simpl. by rewrite Hf, IH. Qed.

Lemma plain_user u : plain_value (user_to_value u) = true.
Proof.
  pose proof (plain_map device_to_value (u_devices u) ltac:(done)) as Hd. pose proof (plain_strings (u_groups u)) as Hg.
  unfold user_to_value. cbn -[device_to_value strings_to_value] in *. by rewrite Hd, Hg.
Qed.

Lemma plain_roster r : 0 <= r_serial r <= u64_max -> plain_value (roster_to_value r) = true.
Proof.
  intros Hs. pose proof (plain_map user_to_value (r_users r) plain_user) as Hu.
  pose proof (plain_strings (r_groups r)) as Hg. pose proof (plain_strings (r_revoked_endpoints r)) as Hx.
  assert (json_int (r_serial r) = true) as Hi.
  { unfold json_int, i64_min. apply andb_true_iff. rewrite !Z.leb_le. lia. }
  unfold roster_to_value. destruct (r_successor_root_pk r), (r_successor_sig r);
    cbn -[user_to_value strings_to_value json_int] in *; by rewrite Hg, Hx, Hi, Hu.
Qed.

Section lemmas.
Context `{E : Ed25519, T : TextEncoding, J : SerdeJson, C : Chrono, P : RosterPrinter, R : RowCodec, TC : TomlCodec, B : Blake3}.
Context `{EL : !Ed25519Laws E, TL : !TextEncodingLaws T, PL : !RosterPrinterLaws P}.

Lemma roster_from_slice_serial b r : roster_from_slice b = Some r -> 0 <= r_serial r <= u64_max.
Proof. intros (v & _ & H)%bind_Some. by eapply roster_of_value_serial. Qed.

Lemma accept_file_Ok io file pk now disk r v a :
  accept_file io file pk now disk = Ok (r, v, a) <->
  exists b, file = Ok b /\ roster_from_slice b = Some r /\ ri_read io = None /\
    validate_for_install_with_anchor r pk (disk_serial disk) now = Ok (v, a).
Proof.
  unfold accept_file, installed_serial. split.
  - destruct file as [b|]; simpl; [|done]. destruct (roster_from_slice b) as [r'|] eqn:Hr; simpl; [|done].
    destruct (ri_read io); simpl; [done|]. destruct (validate_for_install_with_anchor _ _ _ _) as [[v' a']|] eqn:Hv; simpl; [|done].
    intros [= <- <- <-]. by exists b.
  - intros (b & -> & Hr & Hio & Hv). simpl. rewrite Hr, Hio. simpl. by rewrite Hv.
Qed.

(** What an accepted document says of itself. *)
Lemma accepted io file pk now disk r v a :
  accept_file io file pk now disk = Ok (r, v, a) ->
  disk_serial disk < r_serial r /\ v_serial v = r_serial r /\
  disk_serial (Some (roster_to_vec_pretty r)) = r_serial r /\
  roster_from_slice (roster_to_vec_pretty r) = Some r /\ load_installed r pk = Ok v /\
  exists vk, resolve_verifier r pk = Ok (vk, a) /\ verify r vk = Ok tt /\ load_installed r vk = Ok v.
Proof.
  intros (b & -> & Hb & _ & Hv)%accept_file_Ok.
  assert (Hr : roster_from_slice (roster_to_vec_pretty r) = Some r)
    by (apply roster_pretty_reads; by eapply roster_from_slice_serial).
  apply validate_inv in Hv as (Hf & (vk & Hvk) & Hs & e & He & Hb2).
  destruct (resolve_verifier_loads r pk vk a e v Hf Hvk He Hb2) as (Hl1 & Hver & Hl2).
  apply build_view_Ok in Hb2 as [_ ->]. unfold disk_serial at 2. simpl. rewrite Hr.
  split_and!; try done. by exists vk.
Qed.

(** *** What the parts of an install touch *)
Definition set_config (file : option bytes) : RosterNode -> RosterNode :=
  on_mesh (fun m => with_serving (with_config file (m_serving m)) m).

Lemma write_config_frame faults edit n : exists file, (write_config faults edit n).2 = set_config file n.
Proof. unfold write_config. destruct (rmw _ _ _) as [r file]. by exists file. Qed.

Lemma reconcile_frame io n :
  (reconcile_user_id_from_roster io n).1 = Ok tt /\
  exists file, (reconcile_user_id_from_roster io n).2 = set_config file n.
Proof.
  assert (Hn : n = set_config (rn_config n) n) by (by destruct n as [? [[] ? ? ? ?]]).
  unfold reconcile_user_id_from_roster. destruct (_ ≫= _) as [d|]; [case_decide|].
  - split; [done|]. by exists (rn_config n).
  - split; [done|]. apply write_config_frame.
  - split; [done|]. by exists (rn_config n).
Qed.

(** The end of every install. *)
Definition finish (io : RosterIo) (now : Z) (v : RosterView) (n : RosterNode) : RosterNode :=
  (reconcile_user_id_from_roster io (install_roster_view_and_sever io v (confirm_roster_current io now n).2).2).2.

Definition severed (v : RosterView) (n : RosterNode) : list N :=
  sever_matching (severs v) (k_registry (m_conns (rn_mesh n))).

Record finished (io : RosterIo) (now : Z) (v : RosterView) (n n' : RosterNode) : Prop := {
  fin_view : m_roster (rn_mesh n') = Some v;
  fin_disk : rn_roster_json n' = rn_roster_json n;
  fin_last : rn_last_confirmed n' = Some now;
  fin_confirmed : rn_confirmed n' = (freshness_store (ri_confirm io) now (rn_confirmed n)).2;
  fin_conns : m_conns (rn_mesh n') = close_handles (severed v n) (m_conns (rn_mesh n));
  fin_audit : m_audit (rn_mesh n')
    = m_audit (rn_mesh n) ++ [trust_record (ri_ts io) "roster_install" (Some (install_target v)) None];
  fin_store : m_store (rn_mesh n') = m_store (rn_mesh n);
  fin_self : rn_self n' = rn_self n;
  fin_passes : rn_close_passes n' = if rn_armed n then S (rn_close_passes n) else rn_close_passes n;
  fin_rest : rn_book n' = rn_book n /\ rn_announced n' = rn_announced n }.

Lemma finish_finished io now v n : finished io now v n (finish io now v n).
Proof.
  unfold finish. destruct (reconcile_frame io (install_roster_view_and_sever io v (confirm_roster_current io now n).2).2)
    as (_ & file & ->).
  destruct n as [? [] ? ? ? ? ? armed]. destruct armed; by split.
Qed.

Lemma set_config_same n : set_config (rn_config n) n = n.
Proof. by destruct n as [? [[] ? ? ? ?]]. Qed.

(** A failed write leaves the node as it was. *)
Lemma write_config_err faults edit n e n' : write_config faults edit n = (Err e, n') -> n' = n.
Proof.
  unfold write_config, rmw. pose proof (set_config_same n) as Hn. unfold set_config in Hn.
  destruct (_ ≫= _) as [[doc|]|x]; [|done|by intros [= _ <-]].
  unfold write_config_doc. destruct (to_string_pretty doc); [destruct (f_write faults)|];
    [by intros [= _ <-]|done|by intros [= _ <-]].
Qed.

Lemma bind_total {X Y} (v : Act X) (f : X -> Act Y) a n : (v n).1 = Ok a -> (v ≫= f) n = f a (v n).2.
Proof. unfold mbind, act_bind. destruct (v n) as [r n']. simpl. by intros ->. Qed.

Lemma bind_run {X Y} (v : Act X) (f : X -> Act Y) n r n' :
  v n = (r, n') -> (v ≫= f) n = match r with Ok a => f a n' | Err e => (Err e, n') end.
Proof. unfold mbind, act_bind. intros ->. by destruct r. Qed.

(** The tail of an install cannot fail. *)
Lemma tail_run {A} io now v (k : nat -> Act A) n :
  (_ ← confirm_roster_current io now; s ← install_roster_view_and_sever io v;
   _ ← reconcile_user_id_from_roster io; k s) n = k (length (severed v n)) (finish io now v n).
Proof.
  erewrite (bind_total (confirm_roster_current io now)) by reflexivity.
  erewrite (bind_total (install_roster_view_and_sever io v)) by reflexivity.
  by erewrite (bind_total (reconcile_user_id_from_roster io)) by apply reconcile_frame.
Qed.

Lemma adopt_cases io anchor org n r n' :
  adopt_successor_root io anchor org n = (r, n') ->
  (anchor = None /\ r = Ok tt /\ n' = n) \/
  (is_Some anchor /\ (exists e, r = Err e) /\ n' = n) \/
  exists pk changed file, anchor = Some pk /\ r = Ok tt /\
    write_config (ri_pin io) (write_identity_pin pk org) n = (Ok changed, set_config file n) /\
    n' = on_mesh (with_audit (trust_record (ri_ts io) "org_root_rotated" (Some org) (Some pk))) (set_config file n).
Proof.
  unfold adopt_successor_root. destruct anchor as [pk|]; [|intros [= <- <-]; by left].
  intros H. right. unfold mbind, act_bind in H.
  destruct (write_config_frame (ri_pin io) (write_identity_pin pk org) n) as [file Hf].
  destruct (write_config _ _ n) as [[c|e] n1] eqn:Hw; simpl in Hf.
  - subst n1. injection H as <- <-. right. by exists pk, c, file.
  - apply write_config_err in Hw as ->. injection H as <- <-. left. split; [done|]. by split; [exists e|].
Qed.

Definition pinned_root (io : RosterIo) (n : RosterNode) (pk : VerifyingKey) : Prop :=
  exists cfg text, config_load (ri_config io) (rn_config n) = Ok cfg /\
    i_org_root_pk (c_identity cfg) = Some text /\ parse_org_root_pk text = Ok pk.

Lemma pinned_root_intro io n text pk :
  mesh_config_org_root_pk io n = Ok (Some text) -> parse_org_root_pk text = Ok pk -> pinned_root io n pk.
Proof.
  unfold pinned_root, mesh_config_org_root_pk. intros (cfg & Hc & [= Ht])%bind_Ok Hp.
  apply map_err_Ok in Hc. by exists cfg, text.
Qed.

Lemma install_to_disk_cases io file pk now n r n' :
  install_to_disk io file pk now n = (r, n') ->
  ((exists e, r = Err e) /\ n' = n) \/
  exists doc v a, accept_file io file pk now (rn_roster_json n) = Ok (doc, v, a) /\ ri_write io = None /\
    r = Ok (v, a) /\ n' = with_disk (Some (roster_to_vec_pretty doc)) n.
Proof.
  assert (Hn : with_disk (rn_roster_json n) n = n) by (by destruct n).
  unfold install_to_disk, install_from_file. destruct (accept_file _ _ _ _ _) as [[[doc v] a]|e]; [|].
  - destruct (ri_write io) as [e|] eqn:Hw; intros [= <- <-]; [left; rewrite Hn; eauto|right].
    by exists doc, v, a.
  - intros [= <- <-]. left. rewrite Hn. eauto.
Qed.

(** Every outcome of an automatic convergence. *)
Lemma converge_cases io now b serial n r n' :
  converge_roster_bytes io now b serial n = (r, n') ->
  (n' = n /\ r <> Ok true) \/
  exists pk doc v a, gate_serial n < serial /\ pinned_root io n pk /\
    accept_file io (staged io b) pk now (rn_roster_json n) = Ok (doc, v, a) /\ ri_write io = None /\
    let n1 := with_disk (Some (roster_to_vec_pretty doc)) n in
    let n2 := (adopt_successor_root io a (v_org_id v) n1).2 in
    (is_Some a /\ (exists e, r = Err e) /\ n' = n1) \/
    ((adopt_successor_root io a (v_org_id v) n1).1 = Ok tt /\ r = Ok true /\ n' = finish io now v n2).
Proof.
  unfold converge_roster_bytes. rewrite (bind_total (read gate_serial) _ (gate_serial n)) by done. simpl.
  destruct (Z.leb_spec serial (gate_serial n)) as [Hs|Hs]; [intros [= <- <-]; by left|].
  unfold mbind at 1, act_bind at 1, lift at 1.
  destruct (mesh_config_org_root_pk io n) as [[text|]|e] eqn:Hm; [|by intros [= <- <-]; left..].
  rewrite bind_total with (a := text) by done. simpl.
  destruct (parse_org_root_pk text) as [pk|e] eqn:Hp; [|intros [= <- <-]; by left].
  rewrite bind_total with (a := pk) by done. simpl.
  destruct (ri_stage io) as [e|]; [intros [= <- <-]; by left|].
  rewrite bind_total with (a := tt) by done. simpl. unfold mbind at 1, act_bind at 1.
  destruct (install_to_disk _ _ _ _ _) as [res n1] eqn:Hi.
  apply install_to_disk_cases in Hi as [[[e ->] ->]|(doc & v & a & Hacc & Hw & -> & ->)]; [intros [= <- <-]; by left|].
  intros H. right. exists pk, doc, v, a. split_and!; [done| |done..|].
  { by eapply pinned_root_intro. }
  cbn zeta. revert H. simpl fst. simpl snd. unfold mbind at 1, act_bind at 1.
  destruct (adopt_successor_root io a (v_org_id v) _) as [ra n2] eqn:Ha. simpl fst. simpl snd.
  destruct ra as [[]|e].
  - intros H. right. rewrite (tail_run io now v (fun _ => mret true)) in H. by injection H as <- <-.
  - intros [= <- <-]. left.
    apply adopt_cases in Ha as [(_ & [=] & _)|[(? & _ & ->)|(spk & c & file & _ & [=] & _)]]; eauto.
Qed.

(** Every outcome of a manual install. *)
Lemma install_roster_cases io env now file org_root_pk n r n' :
  install_roster io env now file org_root_pk n = (r, n') ->
  ((exists e, r = Err e) /\ n' = n) \/
  exists text pk doc v a, match org_root_pk with
                          | Some s => text = s
                          | None => mesh_config_org_root_pk io n = Ok (Some text)
                          end /\
    parse_org_root_pk text = Ok pk /\
    accept_file io file pk now (rn_roster_json n) = Ok (doc, v, a) /\ ri_write io = None /\
    let n1 := (audit_successor_adoption io a (v_org_id v) (with_disk (Some (roster_to_vec_pretty doc)) n)).2 in
    let pins := bool_decide (is_Some org_root_pk) || bool_decide (is_Some a) in
    let w := write_config (ri_pin io) (write_identity_pin (default text a) (v_org_id v)) n1 in
    (pins = true /\ (exists e, r = Err e) /\ n' = n1) \/
    exists n2, n2 = (if pins then w.2 else n1) /\ (pins = true -> exists changed, w.1 = Ok changed) /\
      r = Ok (v_org_id v, v_serial v, length (severed v n2)) /\
      n' = (announce_roster env (finish io now v n2)).2.
Proof.
  unfold install_roster, mbind at 1, act_bind at 1, lift at 1.
  destruct (match org_root_pk with Some s => Ok s | None => _ end) as [text|e] eqn:Ht; [|intros [= <- <-]; left; eauto].
  assert (Htext : match org_root_pk with
                  | Some s => text = s
                  | None => mesh_config_org_root_pk io n = Ok (Some text)
                  end).
  { destruct org_root_pk; [by injection Ht|]. apply bind_Ok in Ht as (p & -> & Hp). by apply ok_or_Ok in Hp as ->. }
  destruct (parse_org_root_pk text) as [pk|e] eqn:Hp; [|intros [= <- <-]; left; eauto].
  rewrite bind_total with (a := pk) by done. simpl. unfold mbind at 1, act_bind at 1.
  destruct (install_to_disk _ _ _ _ _) as [res n1] eqn:Hi.
  apply install_to_disk_cases in Hi as [[[e ->] ->]|(doc & v & a & Hacc & Hw & -> & ->)]; [intros [= <- <-]; left; eauto|].
  intros H. right. exists text, pk, doc, v, a. do 4 (split; [done|]). cbn zeta. revert H.
  set (n0 := with_disk _ n). rewrite bind_total with (a := tt) by (by destruct a). simpl.
  set (n1 := (audit_successor_adoption io a (v_org_id v) n0).2).
  destruct (bool_decide (is_Some org_root_pk) || bool_decide (is_Some a)).
  - unfold mbind at 1, act_bind at 1. destruct (write_config _ _ n1) as [[c|e] n2] eqn:Hwc; simpl fst; simpl snd.
    + rewrite tail_run. intros [= <- <-]. right. exists n2. split_and!; [done| |done..]. by exists c.
    + intros [= <- <-]. left. apply write_config_err in Hwc as ->. eauto.
  - rewrite bind_total with (a := false) by done. simpl. rewrite tail_run. intros [= <- <-]. right. by exists n1.
Qed.

(** *** What the distribution channels touch *)

(** The state an install may change: the view, the document, the freshness, the
    configuration, the connections. *)
Definition trusted (n : RosterNode) :=
  (rn_mesh n, rn_roster_json n, rn_confirmed n, rn_last_confirmed n, rn_close_passes n).

Lemma announce_trusted env n : trusted (announce_roster env n).2 = trusted n.
Proof. unfold announce_roster. repeat (case_match; try done). Qed.

Lemma on_announce_cases io env now ticket download a n :
  let n' := (on_announce io env now ticket download a n).2 in
  trusted n' = trusted n \/
  exists b nb r n1, download = Some (Ok b) /\ an_roster_hash a = ("blake3:" +:+ hexlower_encode (key_bytes (blake3 b)))%string /\
    (exists addr, ticket (an_blob_ticket a) = Some addr /\ refused_by (ri_store io) (m_store (rn_mesh n)) (m_roster (rn_mesh n)) (ea_id addr) = false) /\
    trusted nb = trusted n /\ rn_self nb = rn_self n /\ rn_armed nb = rn_armed n /\
    converge_roster_bytes io now b (an_serial a) nb = (r, n1) /\ trusted n' = trusted n1.
Proof.
  cbn zeta. unfold on_announce. rewrite (bind_total (read gate_serial) _ (gate_serial n)) by done. simpl.
  destruct (_ || _); [by left|].
  set (nb := match ticket (an_blob_ticket a) with Some addr => with_book (note addr (rn_book n)).2 n | None => n end).
  assert (Hnb : trusted nb = trusted n /\ rn_self nb = rn_self n /\ rn_armed nb = rn_armed n) by (unfold nb; by case_match).
  erewrite bind_total by reflexivity. simpl. case_match; [by left|]. erewrite bind_total by reflexivity. simpl.
  change (match ticket (an_blob_ticket a) with Some addr => _ | None => n end) with nb. clearbody nb.
  destruct download as [got|]; [|left; by apply Hnb]. unfold mbind at 1, act_bind at 1, lift.
  destruct (ticket (an_blob_ticket a)) as [addr|]; simpl; [|left; by apply Hnb].
  apply orb_false_iff in H as [_ Href].
  unfold fetch. destruct got as [b|e]; simpl; [|left; by apply Hnb]. case_decide as Hh; simpl; [|left; by apply Hnb].
  right. destruct (converge_roster_bytes io now b (an_serial a) nb) as [r n1] eqn:Hc.
  exists b, nb, r, n1. split_and!; try done; [by exists addr|by apply Hnb..|].
  erewrite bind_total by reflexivity. simpl.
  erewrite bind_run by exact Hc. destruct r as [[]|]; [apply announce_trusted|done..].
Qed.

Lemma poll_cases io env now response n :
  let n' := (poll_roster_url_once io env now response n).2 in
  trusted n' = trusted n \/
  exists b doc, fetch_capped response MAX_ROSTER_BYTES = Ok b /\ roster_from_slice b = Some doc /\
    ((exists r n1, converge_roster_bytes io now b (r_serial doc) n = (r, n1) /\ trusted n' = trusted n1) \/
     (r_serial doc = gate_serial n /\ equal_serial_body_is_authentic io (Some doc) n = true /\
      n' = (confirm_roster_current io now n).2)).
Proof.
  cbn zeta. unfold poll_roster_url_once. destruct (fetch_capped response MAX_ROSTER_BYTES) as [b|e]; [|by left].
  rewrite bind_total with (a := b) by done. simpl.
  rewrite (bind_total (read gate_serial) _ (gate_serial n)) by done. simpl.
  destruct (roster_from_slice b) as [doc|] eqn:Hd; [|by left].
  destruct (Z.ltb_spec (gate_serial n) (r_serial doc)).
  - right. exists b, doc. split_and!; [done..|]. left.
    destruct (converge_roster_bytes io now b (r_serial doc) n) as [r n1] eqn:Hc. exists r, n1. split; [done|].
    erewrite bind_run by exact Hc. destruct r as [[]|]; [apply announce_trusted|done..].
  - destruct (Z.eqb_spec (r_serial doc) (gate_serial n)); [|by left].
    rewrite (bind_total (read _) _ (equal_serial_body_is_authentic io (Some doc) n)) by done. unfold read. cbn [snd].
    destruct (equal_serial_body_is_authentic io (Some doc) n) eqn:Ha; [|by left].
    right. exists b, doc. split_and!; [done..|]. by right.
Qed.
End lemmas.

(** *** What a restart finds *)
Section restart.
Context `{E : Ed25519, T : TextEncoding, J : SerdeJson, C : Chrono, P : RosterPrinter, R : RowCodec, TC : TomlCodec, B : Blake3}.
Context `{EL : !Ed25519Laws E, TL : !TextEncodingLaws T, PL : !RosterPrinterLaws P, CL : !TomlCodecLaws TC}.

(** The configuration pins a root that the document on disk loads under, as [v]. *)
Definition restartable (v : RosterView) (n : RosterNode) : Prop :=
  exists cfg text pk doc, config_load Config.healthy (rn_config n) = Ok cfg /\
    i_org_root_pk (c_identity cfg) = Some text /\ parse_org_root_pk text = Ok pk /\
    (exists b, rn_roster_json n = Some b /\ roster_from_slice b = Some doc) /\ load_installed doc pk = Ok v.

Lemma write_config_Ok faults op n changed n' c :
  config_op_wf op -> config_load Config.healthy (rn_config n) = Ok c ->
  write_config faults (config_edit op) n = (Ok changed, n') ->
  config_load Config.healthy (rn_config n') = Ok (config_spec op c).
Proof.
  intros Hwf Hc. pose proof (run_op_spec faults op _ c Hwf Hc) as Hs. unfold run_op in Hs. unfold write_config.
  destruct (rmw _ _ _) as [[b|e] file]; [|done]. intros [= _ <-]. apply Hs.
Qed.

Lemma healthy_load io n cfg : config_load io (rn_config n) = Ok cfg -> config_load Config.healthy (rn_config n) = Ok cfg.
Proof. unfold config_load, read_doc, read_config_for_rmw. by destruct (f_read io). Qed.

(** The reconciled user id does not disturb the pin. *)
Lemma finish_restartable io now v n : restartable v n -> restartable v (finish io now v n).
Proof.
  intros (cfg & text & pk & doc & Hc & Ht & Hp & Hd & Hl).
  assert (Hd' : rn_roster_json (finish io now v n) = rn_roster_json n) by apply (fin_disk _ _ _ _ _ (finish_finished io now v n)).
  unfold finish in *. set (n1 := (install_roster_view_and_sever io v (confirm_roster_current io now n).2).2) in *.
  assert (Hc1 : config_load Config.healthy (rn_config n1) = Ok cfg)
    by (subst n1; destruct n as [? [] ? ? ? ? ? armed]; by destruct armed).
  assert (Hid : exists cfg', config_load Config.healthy (rn_config (reconcile_user_id_from_roster io n1).2) = Ok cfg' /\
      i_org_root_pk (c_identity cfg') = Some text).
  { unfold reconcile_user_id_from_roster. destruct (_ ≫= _) as [d|]; [case_decide|]; [by exists cfg| |by exists cfg].
    destruct (write_config (ri_uid io) _ n1) as [[ch'|e'] n3] eqn:Hw'; simpl.
    - apply (write_config_Ok _ (IdentityUserId (rd_user_id d)) _ _ _ cfg I Hc1) in Hw'. by eexists.
    - apply write_config_err in Hw' as ->. by exists cfg. }
  destruct Hid as (cfg' & Hc' & Ht'). exists cfg', text, pk, doc. rewrite Hd'. done.
Qed.

Lemma successor_parses doc pk vk s :
  resolve_verifier doc pk = Ok (vk, Some s) -> parse_org_root_pk s = Ok vk.
Proof.
  intros [(_ & _ & [=])|(_ & k & sg & _ & _ & _ & _ & Hvk & _ & [= ->])]%resolve_verifier_Ok.
  unfold parse_org_root_pk. rewrite decode_encode_b64u. simpl. rewrite try_key32_bytes. simpl. by rewrite Hvk.
Qed.

(** The anchor in force once the document is on disk: the one it was judged by, or the
    successor once that is pinned. *)
Lemma anchored io file now text pk n doc v a file' cfg :
  accept_file io file pk now (rn_roster_json n) = Ok (doc, v, a) -> parse_org_root_pk text = Ok pk ->
  config_load Config.healthy file' = Ok cfg -> i_org_root_pk (c_identity cfg) = Some (default text a) ->
  forall n', rn_config n' = file' -> rn_roster_json n' = Some (roster_to_vec_pretty doc) -> restartable v n'.
Proof.
  intros (_ & _ & _ & Hr & Hl & vk & Hvk & _ & Hl')%accepted Hp Hc Ht n' <- Hd. destruct a as [s|]; simpl in Ht.
  - exists cfg, s, vk, doc. split_and!; try done; [by eapply successor_parses|]. eauto.
  - exists cfg, text, pk, doc. split_and!; try done. eauto.
Qed.

(** What a complete install leaves behind, on either channel. *)
Record installed (io : RosterIo) (now : Z) (v : RosterView) (n n' : RosterNode) : Prop := {
  ins_view : m_roster (rn_mesh n') = Some v;
  ins_newer : disk_serial (rn_roster_json n) < v_serial v;
  ins_disk : disk_serial (rn_roster_json n') = v_serial v;
  ins_last : rn_last_confirmed n' = Some now;
  ins_confirmed : ri_confirm io = None -> rn_confirmed n' = Some (as_bytes (pretty now));
  ins_conns : m_conns (rn_mesh n') = close_handles (severed v n) (m_conns (rn_mesh n));
  ins_audit : trust_record (ri_ts io) "roster_install" (Some (install_target v)) None ∈ m_audit (rn_mesh n');
  ins_restart : restartable v n' }.

Lemma trusted_fields n n' :
  trusted n' = trusted n ->
  rn_mesh n' = rn_mesh n /\ rn_roster_json n' = rn_roster_json n /\ rn_confirmed n' = rn_confirmed n /\
  rn_last_confirmed n' = rn_last_confirmed n /\ rn_close_passes n' = rn_close_passes n.
Proof. by intros [=]. Qed.

Lemma installed_intro io file pk now n doc v a n2 n' :
  trusted n' = trusted (finish io now v n2) -> accept_file io file pk now (rn_roster_json n) = Ok (doc, v, a) ->
  rn_roster_json n2 = Some (roster_to_vec_pretty doc) -> m_conns (rn_mesh n2) = m_conns (rn_mesh n) ->
  restartable v n2 -> installed io now v n n'.
Proof.
  intros (Hm & Hj & Hcf & Hl & _)%trusted_fields Hacc Hd Hk Hr. pose proof (finish_restartable io now v n2 Hr) as Hr'.
  destruct (accepted _ _ _ _ _ _ _ _ Hacc) as (Hlt & Hv & Hds & _).
  destruct (finish_finished io now v n2) as [Fv Fd Fl Fc Fk Fa _ _ _ _].
  split; rewrite ?Hm, ?Hj, ?Hcf, ?Hl, ?Fv, ?Fd, ?Fl, ?Fc, ?Fk, ?Fa.
  - done.
  - lia.
  - rewrite Hd, Hds. done.
  - done.
  - unfold freshness_store. by intros ->.
  - unfold severed. by rewrite Hk.
  - apply elem_of_app. right. by apply list_elem_of_singleton.
  - destruct Hr' as (cfg & text & pk' & doc' & H1 & H2 & H3 & H4 & H5). exists cfg, text, pk', doc'.
    unfold rn_config in *. rewrite Hm, Hj. done.
Qed.
Lemma converge_installs io now b serial n n' :
  converge_roster_bytes io now b serial n = (Ok true, n') -> exists v, installed io now v n n'.
Proof.
  intros [[_ []]|(pk & doc & v & a & _ & (cfg & text & Hc & Ht & Hp) & Hacc & _ & [(_ & [e [=]] & _)|(Ha & _ & ->)])]%converge_cases; [done|].
  exists v. destruct (adopt_successor_root io a (v_org_id v) _) as [r n2] eqn:Had. simpl in *. subst r.
  apply healthy_load in Hc.
  apply adopt_cases in Had as [(-> & _ & ->)|[(_ & [e [=]] & _)|(s & ch & file & -> & _ & Hw & ->)]].
  - eapply installed_intro; [done..|]. by eapply anchored.
  - apply (write_config_Ok _ (IdentityPin s (v_org_id v)) (with_disk _ n) _ _ cfg I Hc) in Hw.
    eapply installed_intro; [done..|]. by eapply (anchored _ _ _ text).
Qed.

Lemma install_roster_installs io env now file org_root_pk n out n' cfg :
  config_load Config.healthy (rn_config n) = Ok cfg ->
  install_roster io env now file org_root_pk n = (Ok out, n') ->
  exists v, out.1 = (v_org_id v, v_serial v) /\ out.2 = length (severed v n) /\ installed io now v n n'.
Proof.
  intros Hc [[[e [=]] _]|(text & pk & doc & v & a & Ht & Hp & Hacc & _ & Hrest)]%install_roster_cases.
  cbn zeta in Hrest. set (n1 := (audit_successor_adoption io a (v_org_id v) _).2) in *.
  assert (Hn1 : rn_roster_json n1 = Some (roster_to_vec_pretty doc) /\ rn_config n1 = rn_config n /\
    m_conns (rn_mesh n1) = m_conns (rn_mesh n)) by (unfold n1; destruct a; by split_and!).
  clearbody n1. destruct Hn1 as (Hd1 & Hc1 & Hk1).
  destruct Hrest as [(_ & [e [=]] & _)|(n2 & Hn2 & Hw & [= ->] & ->)]. exists v.
  assert (H2 : rn_roster_json n2 = Some (roster_to_vec_pretty doc) /\ m_conns (rn_mesh n2) = m_conns (rn_mesh n)).
  { subst n2. destruct (_ || _); [|done].
    destruct (write_config_frame (ri_pin io) (write_identity_pin (default text a) (v_org_id v)) n1) as [f ->]. done. }
  destruct H2 as [Hd2 Hk2]. split; [done|]. split; [unfold severed; by rewrite Hk2|].
  eapply installed_intro; [by rewrite announce_trusted|done..|].
  destruct (bool_decide (is_Some org_root_pk) || bool_decide (is_Some a)) eqn:Hpins.
  - destruct (Hw eq_refl) as [ch Hok]. destruct (write_config _ _ n1) as [r n3] eqn:Hwc. simpl in *. subst r n3.
    rewrite <- Hc1 in Hc. apply (write_config_Ok _ (IdentityPin (default text a) (v_org_id v)) _ _ _ cfg I Hc) in Hwc.
    by eapply (anchored _ _ _ text).
  - apply orb_false_iff in Hpins as [Ho%bool_decide_eq_false Ha%bool_decide_eq_false].
    destruct org_root_pk; [by destruct Ho|]. destruct a; [by destruct Ha|]. subst n2.
    unfold mesh_config_org_root_pk in Ht. apply bind_Ok in Ht as (cfg' & Hl%map_err_Ok%healthy_load & [= Hpin]).
    eapply (anchored _ _ _ text _ _ _ _ _ _ cfg'); [done..| |done]. simpl. by rewrite Hc1.
Qed.

(** ** Properties *)

(** C10: a roster install that reports success, by hand or over gossip or polling, is
    complete: the serial on disk was lower, the gate has the new view, every accepted
    connection the view severs is closed, and a restart under the configuration it left
    loads exactly that view (under the successor's key when the roster rotated the root)
    and the instant it was confirmed at. *)
Theorem install_takes_effect io env now n n' :
  (exists b serial, converge_roster_bytes io now b serial n = (Ok true, n')) \/
  (exists file org_root_pk out cfg, config_load Config.healthy (rn_config n) = Ok cfg /\
     install_roster io env now file org_root_pk n = (Ok out, n')) ->
  exists v cfg', disk_serial (rn_roster_json n) < v_serial v /\ m_roster (rn_mesh n') = Some v /\
    (forall id t, reg_inner (k_registry (m_conns (rn_mesh n'))) !! id = Some t ->
       severs v (t_endpoint_id t) (t_roster_user t) = true -> t_conn t ∈ k_closed (m_conns (rn_mesh n'))) /\
    config_load Config.healthy (rn_config n') = Ok cfg' /\
    forall io' now' nickname live, ri_read io' = None ->
      let restarted := boot io' now' cfg' nickname live n' in
      m_roster (rn_mesh restarted) = Some v /\
      (ri_confirm io = None -> ri_reread io' = None -> in_i64 now -> rn_last_confirmed restarted = Some now).
Proof.
  intros Hrun. assert (Hins : exists v, installed io now v n n').
  { destruct Hrun as [(b & serial & H)|(file & pk & out & cfg & Hc & H)]; [by eapply converge_installs|].
    destruct (install_roster_installs _ _ _ _ _ _ _ _ _ Hc H) as (v & _ & _ & ?). by exists v. }
  destruct Hins as [v [Hv Hlt _ _ Hcf Hk _ (cfg & text & pk & doc & Hc & Ht & Hp & (b & Hb & Hr) & Hl)]].
  exists v, cfg. split_and!; [done..| |done|].
  - intros id t Hid Hsv. rewrite Hk in Hid |- *. simpl in *. apply elem_of_union_l, elem_of_list_to_set.
    unfold severed. apply elem_of_sever_matching. eauto.
  - intros io' now' nickname live Hio. unfold boot. unfold boot_view, load. rewrite Ht, Hp, Hio, Hb. simpl.
    rewrite Hr. simpl. rewrite Hl. simpl. destruct (boot_freshness _ _ _ _) as [last file] eqn:Hbf. simpl.
    split; [done|]. intros Hcio Hre Hnow. unfold boot_freshness in Hbf. rewrite (Hcf Hcio), Hre in Hbf.
    rewrite freshness_roundtrip in Hbf by done. by injection Hbf as <- _.
Qed.

(** The bytes a remote party supplied. *)
Definition event_body (e : Event) : option bytes :=
  match e with
  | Announce _ _ (Some (Ok b)) => Some b
  | Poll response => ok (fetch_capped response MAX_ROSTER_BYTES)
  | _ => None
  end.

(** A document signed by the pinned root, or by the successor the pinned root signed for
    this organisation, and not older than what is held. *)
Definition authentic (io : RosterIo) (n : RosterNode) (b : bytes) : Prop :=
  exists doc pk vk a, roster_from_slice b = Some doc /\ pinned_root io n pk /\
    resolve_verifier doc pk = Ok (vk, a) /\ verify doc vk = Ok tt /\
    (disk_serial (rn_roster_json n) < r_serial doc \/ r_serial doc = gate_serial n).

(** C11: whatever arrives over gossip or from the polled URL, the view, the document on disk,
    the configuration, the freshness and the connections stay as they are unless the bytes
    are a document signed by the pinned root (or by the successor that root signed), not
    older than the one held; over gossip they also hash to what was announced and were
    fetched from a provider this node does not refuse. *)
Theorem only_signed_rosters io env now e n :
  (match e with Announce _ _ _ | Poll _ => True | _ => False end) ->
  trusted (handle io env now e n) = trusted n \/
  exists b, event_body e = Some b /\ authentic io n b /\
    match e with
    | Announce a ticket _ =>
        an_roster_hash a = ("blake3:" +:+ hexlower_encode (key_bytes (blake3 b)))%string /\
        exists addr, ticket (an_blob_ticket a) = Some addr /\
          refused_by (ri_store io) (m_store (rn_mesh n)) (m_roster (rn_mesh n)) (ea_id addr) = false
    | _ => True
    end.
Proof.
  assert (Hconv : forall b serial n0 r n1, trusted n0 = trusted n ->
    converge_roster_bytes io now b serial n0 = (r, n1) -> trusted n1 = trusted n \/ authentic io n b).
  { intros b serial n0 r n1 H0 [[-> _]|(pk & doc & v & a & _ & Hpk & Hacc & _)]%converge_cases; [by left|right].
    apply trusted_fields in H0 as (Hm & Hj & _). unfold pinned_root, rn_config in Hpk. rewrite Hm in Hpk. rewrite Hj in Hacc.
    destruct (accepted _ _ _ _ _ _ _ _ Hacc) as (Hlt & _ & _ & _ & _ & vk & Hvk & Hver & _).
    apply accept_file_Ok in Hacc as (b' & Hb & Hd & _). unfold staged, faulty in Hb. destruct (ri_reread io); [done|].
    injection Hb as <-. exists doc, pk, vk, a. split_and!; try done. by left. }
  destruct e as [| a ticket download | response | | | | | | |]; try done; intros _; simpl.
  - destruct (on_announce_cases io env now ticket download a n) as [?|(b & nb & r & n1 & -> & Hh & Hp & Hnb & _ & _ & Hc & ->)]; [by left|].
    destruct (Hconv _ _ _ _ _ Hnb Hc); [by left|right]. by exists b.
  - destruct (poll_cases io env now response n) as [?|(b & doc & Hf & Hd & [(r & n1 & Hc & ->)|(Hs & Ha & _)])]; [by left|..].
    + destruct (Hconv _ _ n _ _ eq_refl Hc); [by left|right]. exists b. by rewrite Hf.
    + right. exists b. rewrite Hf. split_and!; [done| |done]. unfold equal_serial_body_is_authentic in Ha.
      destruct (mesh_config_org_root_pk io n) as [[text|]|] eqn:Hm; try done.
      destruct (parse_org_root_pk text) as [pk|] eqn:Hp; [|done].
      apply is_ok_true in Ha as [[] Hv]. exists doc, pk, pk, None. split_and!; try done; [by eapply pinned_root_intro| |by right].
      apply resolve_verifier_Ok. by left.
Qed.

Definition is_boot (e : Event) : bool := match e with Boot _ _ _ => true | _ => false end.
Definition serials_ok (n : RosterNode) : Prop := gate_serial n <= disk_serial (rn_roster_json n).

Lemma serials_of n n' : trusted n' = trusted n -> gate_serial n' = gate_serial n /\ disk_serial (rn_roster_json n') = disk_serial (rn_roster_json n).
Proof. intros (Hm & Hj & _)%trusted_fields. unfold gate_serial. by rewrite Hm, Hj. Qed.

(** Neither serial goes down, and the gate is never ahead of the disk. *)
Definition advances (n n' : RosterNode) : Prop :=
  disk_serial (rn_roster_json n) <= disk_serial (rn_roster_json n') /\ serials_ok n' /\ gate_serial n <= gate_serial n'.

Lemma advances_trusted n n' : serials_ok n -> trusted n' = trusted n -> advances n n'.
Proof. intros Hs [Hg Hd]%serials_of. unfold advances, serials_ok in *. lia. Qed.

Lemma finish_advances io now v doc n n2 :
  serials_ok n -> v_serial v = r_serial doc -> disk_serial (rn_roster_json n) < r_serial doc ->
  disk_serial (rn_roster_json n2) = r_serial doc -> advances n (finish io now v n2).
Proof.
  intros Hs Hv Hlt Hd2. destruct (finish_finished io now v n2) as [Fv Fd _ _ _ _ _ _ _ _].
  unfold advances, serials_ok, gate_serial in *. rewrite Fv, Fd. lia.
Qed.

Lemma converge_advances io now b serial n r n' :
  serials_ok n -> converge_roster_bytes io now b serial n = (r, n') -> advances n n'.
Proof.
  intros Hs [[-> _]|(pk & doc & v & a & _ & _ & Hacc & _ & Hr)]%converge_cases; [by apply advances_trusted|].
  destruct (accepted _ _ _ _ _ _ _ _ Hacc) as (Hlt & Hv & Hd & _). destruct Hr as [(_ & _ & ->)|(_ & _ & ->)].
  - unfold advances, serials_ok, gate_serial in *. simpl in *. rewrite Hd. lia.
  - apply (finish_advances _ _ _ doc); [done..|]. simpl.
    destruct (adopt_successor_root io a (v_org_id v) _) as [ra n2] eqn:Ha.
    by apply adopt_cases in Ha as [(_ & _ & ->)|[(_ & _ & ->)|(? & ? & ? & _ & _ & _ & ->)]].
Qed.

Lemma install_roster_advances io env now file pk n : serials_ok n -> advances n (install_roster io env now file pk n).2.
Proof.
  intros Hs. destruct (install_roster _ _ _ _ _ _) as [r n'] eqn:Hi.
  apply install_roster_cases in Hi as [[_ ->]|(text & vk & doc & v & a & _ & _ & Hacc & _ & Hr)]; [by apply advances_trusted|].
  destruct (accepted _ _ _ _ _ _ _ _ Hacc) as (Hlt & Hv & Hd & _). cbn zeta in Hr.
  set (n1 := (audit_successor_adoption io a (v_org_id v) _).2) in *.
  assert (Hn1 : m_roster (rn_mesh n1) = m_roster (rn_mesh n) /\ disk_serial (rn_roster_json n1) = r_serial doc)
    by (unfold n1; by destruct a).
  clearbody n1. destruct Hn1 as [Hm1 Hd1]. destruct Hr as [(_ & _ & ->)|(n2 & Hn2 & _ & _ & ->)].
  - unfold advances, serials_ok, gate_serial in *. simpl. rewrite Hm1, Hd1. lia.
  - assert (Hd2 : disk_serial (rn_roster_json n2) = r_serial doc).
    { subst n2. destruct (_ || _); [|done]. by destruct (write_config_frame (ri_pin io) (write_identity_pin (default text a) (v_org_id v)) n1) as [f ->]. }
    destruct (finish_advances io now v doc n n2 Hs Hv Hlt Hd2) as (H1 & H2 & H3).
    destruct (serials_of _ _ (announce_trusted env (finish io now v n2))) as [Hg Hd3].
    unfold advances, serials_ok in *. simpl. rewrite Hg, Hd3. done.
Qed.

(** The verbs and the tasks leave the view and the document. *)
Definition keeps (n n' : RosterNode) : Prop :=
  m_roster (rn_mesh n') = m_roster (rn_mesh n) /\ rn_roster_json n' = rn_roster_json n.

Lemma keeps_advances n n' : serials_ok n -> keeps n n' -> advances n n'.
Proof. intros Hs [Hm Hd]. unfold advances, serials_ok, gate_serial in *. rewrite Hm, Hd. lia. Qed.

Lemma write_then_keeps {X} faults edit (k : bool -> Act X) n :
  (forall b n, keeps n (k b n).2) -> keeps n ((write_config faults edit ≫= k) n).2.
Proof.
  intros Hk. destruct (write_config_frame faults edit n) as [file Hf].
  unfold mbind, act_bind. destruct (write_config faults edit n) as [[c|e] n1]; simpl in *; subst n1; [|done].
  apply (Hk c (set_config file n)).
Qed.

Lemma verbs_keep io env now e n :
  match e with InstallRoster _ _ | Announce _ _ _ | Poll _ | Boot _ _ _ => False | _ => True end ->
  keeps n (handle io env now e n).
Proof.
  destruct e; try done; intros _; simpl.
  - unfold org_join. destruct (parse_org_root_pk org_root_pk) as [pk|]; [|done].
    rewrite bind_total with (a := pk) by done. by apply write_then_keeps.
  - unfold set_nickname, require. destruct (negb (bool_decide _)); [|done]. rewrite bind_total with (a := tt) by done.
    destruct (negb (existsb _ _)); [|done]. rewrite bind_total with (a := tt) by done. by apply write_then_keeps.
  - unfold set_app_metadata, require. by destruct (_ <=? _).
  - apply write_then_keeps. intros b m. simpl. by case_match.
  - unfold staleness_sweep_once. erewrite bind_total by reflexivity. by case_decide.
  - unfold close_pass. simpl. unfold update. simpl. by destruct (rn_close_passes n).
Qed.

Lemma handle_advances io env now e n :
  serials_ok n -> is_boot e = false -> advances n (handle io env now e n).
Proof.
  intros Hs Hb. destruct e; try done; try by apply keeps_advances, verbs_keep.
  - by apply install_roster_advances.
  - simpl. destruct (on_announce_cases io env now ticket download a n) as [?|(b & nb & r & n1 & _ & _ & _ & Hnb & _ & _ & Hc & Hn')].
    + by apply advances_trusted.
    + assert (Hsb : serials_ok nb) by (destruct (serials_of _ _ Hnb); unfold serials_ok in *; lia).
      destruct (converge_advances _ _ _ _ _ _ _ Hsb Hc) as (H1 & H2 & H3).
      destruct (serials_of _ _ Hnb), (serials_of _ _ Hn'). unfold advances, serials_ok in *. lia.
  - simpl. destruct (poll_cases io env now response n) as [?|(b & doc & _ & _ & [(r & n1 & Hc & Hn')|(_ & _ & ->)])].
    + by apply advances_trusted.
    + destruct (converge_advances _ _ _ _ _ _ _ Hs Hc) as (H1 & H2 & H3).
      destruct (serials_of _ _ Hn'). unfold advances, serials_ok in *. lia.
    + by apply keeps_advances.
Qed.

(** A start loads what is on disk, or nothing. *)
Lemma boot_view_serial io cfg disk v : boot_view io cfg disk = Some v -> disk_serial disk = v_serial v.
Proof.
  unfold boot_view. destruct (i_org_root_pk _) as [text|]; [|done]. destruct (parse_org_root_pk text) as [pk|]; [|done].
  destruct (load io pk disk) as [o|] eqn:Hl; [|done]. intros ->. unfold load in Hl.
  apply bind_Ok in Hl as (file & Hf%map_err_Ok & Hl). unfold faulty in Hf. destruct (ri_read io); [done|].
  injection Hf as <-. destruct disk as [b|]; [|done]. apply bind_Ok in Hl as (r & Hr%ok_or_Ok & Hl).
  apply bind_Ok in Hl as (v' & Hl%map_err_Ok & [= ->]). unfold disk_serial. simpl. rewrite Hr.
  unfold load_installed in Hl. destruct (negb (known_format r)); [done|]. apply bind_Ok in Hl as (? & _ & Hl).
  by apply bind_Ok in Hl as (e & _ & [_ ->]%build_view_Ok).
Qed.

Lemma disk_serial_nonneg disk : 0 <= disk_serial disk.
Proof.
  unfold disk_serial. destruct (disk ≫= roster_from_slice) as [r|] eqn:Hr; [|lia].
  apply bind_Some in Hr as (b & _ & Hr%roster_from_slice_serial). lia.
Qed.

Lemma boot_serials io now cfg nickname live n :
  serials_ok (boot io now cfg nickname live n) /\ rn_roster_json (boot io now cfg nickname live n) = rn_roster_json n.
Proof.
  unfold boot. destruct (boot_freshness _ _ _ _) as [last file]. split; [|done].
  unfold serials_ok, gate_serial. simpl. destruct (boot_view io cfg (rn_roster_json n)) as [v|] eqn:Hv.
  - apply boot_view_serial in Hv. lia.
  - apply disk_serial_nonneg.
Qed.

Lemma history_app l l' n : history (l ++ l') n = history l' (history l n).
Proof. apply foldl_app. Qed.

(** Any events: the serial on disk never goes down and the gate is never ahead of it;
    between starts the gate's serial never goes down either. *)
Lemma history_advances l n :
  serials_ok n ->
  disk_serial (rn_roster_json n) <= disk_serial (rn_roster_json (history l n)) /\ serials_ok (history l n) /\
  (Forall (fun x => is_boot x.2 = false) l -> gate_serial n <= gate_serial (history l n)).
Proof.
  revert n. induction l as [|[[[io env] now] e] l IH]; intros n Hs; simpl; [split_and!; [lia|done|lia]|].
  destruct (is_boot e) eqn:Hb.
  - destruct e; try done. simpl. destruct (boot_serials io now cfg default_nickname transport_live n) as [Hs' Hd].
    destruct (IH _ Hs') as (H1 & H2 & _). rewrite Hd in H1. split_and!; [done..|]. by intros [? _]%Forall_cons.
  - destruct (handle_advances io env now e n Hs Hb) as (H1 & H2 & H3). destruct (IH _ H2) as (H4 & H5 & H6).
    split_and!; [lia|done|]. intros [_ Hl]%Forall_cons. specialize (H6 Hl). lia.
Qed.

(** C12: no rollback: from a node that has just started, under any sequence of installs,
    announcements, polls, organisation verbs, sweeps and restarts, and whatever accesses
    fail, the serial of the document on disk never decreases and the gate never enforces a
    newer roster than the disk holds; between two starts the serial the gate enforces
    never decreases. *)
Theorem serials_never_roll_back l l' n :
  m_roster (rn_mesh n) = None ->
  let n1 := history l n in let n2 := history (l ++ l') n in
  disk_serial (rn_roster_json n1) <= disk_serial (rn_roster_json n2) /\
  gate_serial n2 <= disk_serial (rn_roster_json n2) /\
  (Forall (fun x => is_boot x.2 = false) l' -> gate_serial n1 <= gate_serial n2).
Proof.
  intros Hn. assert (Hs : serials_ok n) by (unfold serials_ok, gate_serial; rewrite Hn; apply disk_serial_nonneg).
  destruct (history_advances l n Hs) as (_ & Hs1 & _). simpl. rewrite history_app. by apply history_advances.
Qed.

(** A convergence that fails either leaves no trace, or it failed to pin a rotated root
    after the document was already written: then the gate goes on enforcing the old view,
    the configuration keeps the old root, and no retry of the same document, whatever the
    clock and the disk do, is ever accepted or changes anything. *)
Theorem failed_convergence io now b serial n e n' :
  converge_roster_bytes io now b serial n = (Err e, n') ->
  n' = n \/
  exists doc successor, roster_from_slice b = Some doc /\ r_successor_root_pk doc = Some successor /\
    rn_roster_json n' = Some (roster_to_vec_pretty doc) /\ gate_serial n < serial /\
    m_roster (rn_mesh n') = m_roster (rn_mesh n) /\ rn_config n' = rn_config n /\
    forall io' now' serial',
      let '(r, n2) := converge_roster_bytes io' now' b serial' n' in r <> Ok true /\ n2 = n'.
Proof.
  intros [[-> _]|(pk & doc & v & a & Hlt & _ & Hacc & _ & [(Ha & _ & ->)|(_ & [=] & _)])]%converge_cases; [by left|right].
  destruct (accepted _ _ _ _ _ _ _ _ Hacc) as (_ & _ & Hd & _ & _ & vk & Hvk & _).
  apply accept_file_Ok in Hacc as (b' & Hb & Hdoc & _). unfold staged, faulty in Hb. destruct (ri_reread io); [done|].
  injection Hb as <-. destruct Ha as [s ->].
  apply resolve_verifier_Ok in Hvk as [(_ & _ & [=])|(_ & k & sg & Hs & _ & _ & _ & _ & _ & [= ->])].
  exists doc, (encode_b64u (key_bytes k)). split_and!; try done. intros io' now' serial'.
  destruct (converge_roster_bytes io' now' b serial' _) as [r n2] eqn:Hc.
  apply converge_cases in Hc as [[-> Hr]|(pk' & doc' & v' & a' & _ & _ & Hacc' & _)]; [done|exfalso].
  destruct (accepted _ _ _ _ _ _ _ _ Hacc') as (Hlt' & _).
  apply accept_file_Ok in Hacc' as (b' & Hb & Hdoc' & _). unfold staged, faulty in Hb. destruct (ri_reread io'); [done|].
  injection Hb as <-. rewrite Hdoc in Hdoc'. injection Hdoc' as <-. simpl in Hlt'. rewrite Hd in Hlt'. lia.
Qed.

(** A polled host needs nothing but the roster already installed to confirm it: serving
    those bytes again at any later time makes the roster count as confirmed then, and no
    staleness degrades it however long the host withholds a newer one. *)
Lemma poll_replay_confirms io env now response n b doc pk v :
  fetch_capped response MAX_ROSTER_BYTES = Ok b -> roster_from_slice b = Some doc ->
  m_roster (rn_mesh n) = Some v -> r_serial doc = v_serial v -> pinned_root io n pk -> verify doc pk = Ok tt ->
  let n' := (poll_roster_url_once io env now response n).2 in
  0 <= rn_max_staleness n ->
  gate_effective_state (rn_gate n') now = Some (state v now (rn_grace_secs n)).
Proof.
  intros Hf Hd Hv Hs (cfg & text & Hc & Ht & Hp) Hver n' Hms.
  assert (Ha : equal_serial_body_is_authentic io (Some doc) n = true).
  { unfold equal_serial_body_is_authentic, mesh_config_org_root_pk. rewrite Hc. simpl. by rewrite Ht, Hp, Hver. }
  assert (Hn' : n' = (confirm_roster_current io now n).2).
  { unfold n', poll_roster_url_once. rewrite bind_total with (a := b) by (unfold lift; by rewrite Hf).
    rewrite (bind_total (read gate_serial) _ (gate_serial n)) by done. cbn [snd read lift]. rewrite Hd.
    assert (r_serial doc = gate_serial n) as -> by (unfold gate_serial; by rewrite Hv).
    rewrite Z.ltb_irrefl, Z.eqb_refl.
    rewrite (bind_total (read _) _ (equal_serial_body_is_authentic io (Some doc) n)) by done. by rewrite Ha. }
  rewrite Hn'. unfold gate_effective_state, rn_gate. simpl. rewrite Hv. simpl. f_equal.
  unfold effective_state. replace (i64_saturating_sub now now) with 0
    by (unfold i64_saturating_sub, clamp; by rewrite Z.sub_diag).
  destruct (Z.leb_spec 0 (rn_max_staleness n)); [|lia].
  destruct (state v now (rn_grace_secs n)); done.
Qed.
End restart.

(** A body within the cap. *)
Lemma fetch_capped_bounded response max b :
  fetch_capped response max = Ok b -> 0 <= max -> Z.of_nat (length b) <= max.
Proof.
  intros (r & _ & H)%bind_Ok Hm. apply bind_Ok in H as (_ & _ & H).
  assert (Hr : read_chunks max [] (rs_chunks r) = Ok b) by (repeat case_match; done). clear H.
  assert (H0 : Z.of_nat (length (@nil byte)) <= max) by done. revert Hr H0. generalize (@nil byte).
  induction (rs_chunks r) as [|[chunk|] l IH]; intros body; simpl; [by intros [= <-]|case_match eqn:Hc|done]; [|done].
  intros Hr _. apply (IH _ Hr). rewrite length_app. apply Z.leb_le in Hc. lia.
Qed.

(** A printer: the toy JSON of the document. *)
Module ToyRosters.
Import Toy Json.

#[export] Instance roster_printer : RosterPrinter :=
  {| roster_to_vec_pretty r := json_to_vec (roster_to_value r) |}.
#[export] Instance roster_printer_laws : RosterPrinterLaws roster_printer.
Proof.
  split. intros r Hr. unfold roster_from_slice. cbn [roster_to_vec_pretty roster_printer].
  rewrite (json_from_to _ (plain_roster r Hr)). cbn [mbind option_bind]. by apply roster_of_to.
Qed.
End ToyRosters.

(** ** Witnesses *)
Module Witness.
Import Toy ToyRows Config.ToyToml Validate.Sample ToyRosters.

Definition root_text : string := encode_b64u (key_bytes root).

(** A device of alice that has joined acme, with one accepted connection of a device the
    roster revokes. *)
Definition joined : option bytes :=
  (rmw Config.healthy (write_join_pin "acme" root_text "alice" "/keys/user") None).2.
Definition tracked : Registry.Tracked :=
  {| t_endpoint_id := dead_ep; t_roster_user := Some "carol"%string; t_admitted := ∅; t_conn := 7 |}.
Definition n0 : RosterNode :=
  {| rn_self := alice_ep;
     rn_mesh := {| m_serving := {| s_config := joined; s_ephemeral := ∅; s_limiters := Limits.from_config 120 0 0;
                                   s_backends := []; s_live := new_live ∅ |};
                   m_store := empty_store; m_roster := None;
                   m_conns := {| k_registry := {| reg_inner := {[0%N := tracked]}; reg_seq := 1 |};
                                 k_dialled := no_conns; k_closed := ∅ |};
                   m_audit := [] |};
     rn_roster_json := None; rn_confirmed := None; rn_grace_secs := 0; rn_max_staleness := 600;
     rn_last_confirmed := None; rn_armed := true; rn_close_passes := 0; rn_book := register 4;
     rn_announced := []; rn_nickname := "laptop"; rn_app_metadata := ""; rn_poll := None; rn_transport_live := true |}.

Definition io0 : RosterIo := no_roster_faults "now".
Definition env0 : GossipEnv :=
  {| ge_active := true; ge_blobs := true; ge_read := None; ge_publish := None; ge_sender := true; ge_broadcast := None |}.
Definition body_of (r : Roster) : bytes := roster_to_vec_pretty r.
Definition serve (b : bytes) : result string Response :=
  Ok {| rs_status := Ok tt; rs_content_length := None; rs_chunks := [Ok b] |}.

Definition n1 : RosterNode := (converge_roster_bytes io0 2000 (body_of signed) 7 n0).2.

Definition is_installed (r : result InstallError bool) : bool := match r with Ok b => b | Err _ => false end.
Lemma installed_run io now b serial n :
  is_installed (converge_roster_bytes io now b serial n).1 = true ->
  converge_roster_bytes io now b serial n = (Ok true, (converge_roster_bytes io now b serial n).2).
Proof. by destruct (converge_roster_bytes io now b serial n) as [[[]|] ?]. Qed.
Lemma ok_first : is_installed (converge_roster_bytes io0 2000 (body_of signed) 7 n0).1 = true.
Proof. vm_compute. reflexivity. Qed.

Lemma install_takes_effect_witness :
  exists v cfg, 0 < v_serial v /\ m_roster (rn_mesh n1) = Some v /\
    config_load Config.healthy (rn_config n1) = Ok cfg /\
    m_roster (rn_mesh (boot io0 3000 cfg "laptop" true n1)) = Some v /\
    rn_last_confirmed (boot io0 3000 cfg "laptop" true n1) = Some 2000.
Proof.
  destruct (install_takes_effect io0 env0 2000 n0 n1
    (or_introl (ex_intro _ (body_of signed) (ex_intro _ 7 (installed_run _ _ _ _ _ ok_first)))))
    as (v & cfg & Hlt & Hv & _ & Hc & Hboot). exists v, cfg.
  destruct (Hboot io0 3000 "laptop"%string true eq_refl) as [Hb Hf].
  split; [exact Hlt|]. split; [exact Hv|]. split; [exact Hc|]. split; [exact Hb|].
  apply Hf; [reflexivity|reflexivity|]. split; vm_compute; discriminate.
Defined.

(** A body that is no document. *)
Lemma only_signed_rosters_witness : trusted (handle io0 env0 2500 (Poll (serve [])) n1) = trusted n1.
Proof.
  destruct (only_signed_rosters io0 env0 2500 (Poll (serve [])) n1 I) as [H|(b & Hb & Ha & _)]; [exact H|exfalso].
  injection Hb as <-. destruct Ha as (doc & pk & vk & a & Hd & _).
  assert (Hn : roster_from_slice [] = None) by (vm_compute; reflexivity). congruence.
Defined.

Lemma serials_never_roll_back_witness :
  gate_serial (history [(io0, env0, 2000, Poll (serve (body_of signed)))] n0)
  <= gate_serial (history ([(io0, env0, 2000, Poll (serve (body_of signed)))] ++
                           [(io0, env0, 2100, Poll (serve (body_of body)))]) n0).
Proof.
  apply (serials_never_roll_back [(io0, env0, 2000, Poll (serve (body_of signed)))]
           [(io0, env0, 2100, Poll (serve (body_of body)))] n0 eq_refl).
  by repeat constructor.
Defined.

(** The rotated document, judged while [config.toml] cannot be written. *)
Definition io_full : RosterIo :=
  {| ri_stage := None; ri_reread := None; ri_read := None; ri_write := None; ri_config := Config.healthy;
     ri_pin := {| f_read := None; f_write := Some "disk full"%string |}; ri_confirm := None;
     ri_config_again := Config.healthy; ri_uid := Config.healthy; ri_store := Allowlist.healthy;
     ri_joined := true; ri_ts := "now" |}.
Definition n2 : RosterNode := (converge_roster_bytes io_full 2100 (body_of rotated) 8 n1).2.

Lemma err_run io now b serial n :
  is_ok (converge_roster_bytes io now b serial n).1 = false ->
  exists e, converge_roster_bytes io now b serial n = (Err e, (converge_roster_bytes io now b serial n).2).
Proof. destruct (converge_roster_bytes io now b serial n) as [[x|e] m]; [done|]. by exists e. Qed.
Lemma lost_err : is_ok (converge_roster_bytes io_full 2100 (body_of rotated) 8 n1).1 = false.
Proof. vm_compute. reflexivity. Qed.
Lemma serial2 : disk_serial (rn_roster_json n2) = 8.
Proof. vm_compute. reflexivity. Qed.
Lemma serial1 : disk_serial (rn_roster_json n1) = 7.
Proof. vm_compute. reflexivity. Qed.
Lemma reads_back : roster_from_slice (body_of rotated) = Some rotated.
Proof. vm_compute. reflexivity. Qed.

Lemma failed_convergence_witness :
  m_roster (rn_mesh n2) = m_roster (rn_mesh n1) /\ rn_config n2 = rn_config n1 /\
  rn_roster_json n2 = Some (roster_to_vec_pretty rotated) /\
  (converge_roster_bytes io0 2200 (body_of rotated) 8 n2).2 = n2.
Proof.
  destruct (err_run _ _ _ _ _ lost_err) as [e He].
  destruct (failed_convergence _ _ _ _ _ _ _ He) as [H|(doc & s & Hd & _ & Hj & _ & Hv & Hc & Hretry)]; fold n2 in *.
  - exfalso. pose proof serial2 as H2. rewrite H, serial1 in H2. discriminate.
  - rewrite reads_back in Hd. injection Hd as <-. split; [exact Hv|]. split; [exact Hc|]. split; [exact Hj|].
    specialize (Hretry io0 2200 8). destruct (converge_roster_bytes io0 2200 (body_of rotated) 8 n2) as [r n3].
    apply Hretry.
Defined.
End Witness.
