(* ===== verification/System.v ===== *)
(** * The node's authorization state as a transition system

    The registry, the trust gate and the service registry are shared by concurrent tasks:
    connection handlers, session tasks, the roster installer and the control verbs.  Each
    step below is one critical section of one of them ([run_mesh_connection] and
    [run_session] of [net/src/endpoint.rs], the guards of [net/src/registry.rs],
    [install_roster_view_and_sever] and [staleness_sweep_once] of
    [node/src/daemon/roster_install.rs], [reload_services_from_disk], [revoke_service_allow]
    and [sever_principals] of [node/src/daemon/handlers.rs]); what a task read before its
    critical section is arbitrary, so every interleaving is a sequence of steps.  A swap of
    the service registry puts {i any} registry in place of the live one: it is rebuilt from
    a file anyone may have edited, and an unregistration or a closing control connection
    takes services away without severing anyone. *)
From stdpp Require Import base list gmap strings relations.
From Stdlib Require Import ZArith Lia Strings.Byte.
From S2P Require Import Prelude Bytes Json Externals Validate Identity Allowlist Gate Service Registry Session.

(** One admitted session: the connection's registry id, the service and the identity the
    backend was handed.  Its [AdmittedSession] guard is live as long as it is listed. *)
Record LiveSession := {
  ls_id : N;
  ls_service : string;
  ls_identity : PeerIdentity }.

(** What has happened to the service registry: a swap, with the principals a revoke is made
    of (none for any other verb), and how the revoke ended. *)
Inductive Change :=
| Swapped (old : Services) (revoked : list string)
| Severed (revoked : list string)
| Unsevered (revoked : list string).

Record Sys := {
  y_gate : ComposedGate;
  y_reg : ConnRegistry;
  y_closed : gset N;
  y_promoted : gset N;
  y_sessions : list LiveSession;
  y_services : LiveServices;
  (* the installer is between its swap and its sever *)
  y_installing : option RosterView;
  (* a revoke is between its swap and its sever *)
  y_revoking : option (list string);
  (* the history of the service registry, latest first: no operation reads it *)
  y_past : list Change }.

Definition with_gate g y := {| y_gate := g; y_reg := y_reg y; y_closed := y_closed y;
  y_promoted := y_promoted y; y_sessions := y_sessions y; y_services := y_services y;
  y_installing := y_installing y; y_revoking := y_revoking y; y_past := y_past y |}.
Definition with_reg r y := {| y_gate := y_gate y; y_reg := r; y_closed := y_closed y;
  y_promoted := y_promoted y; y_sessions := y_sessions y; y_services := y_services y;
  y_installing := y_installing y; y_revoking := y_revoking y; y_past := y_past y |}.
Definition with_promoted p y := {| y_gate := y_gate y; y_reg := y_reg y; y_closed := y_closed y;
  y_promoted := p; y_sessions := y_sessions y; y_services := y_services y;
  y_installing := y_installing y; y_revoking := y_revoking y; y_past := y_past y |}.
Definition with_sessions l y := {| y_gate := y_gate y; y_reg := y_reg y; y_closed := y_closed y;
  y_promoted := y_promoted y; y_sessions := l; y_services := y_services y;
  y_installing := y_installing y; y_revoking := y_revoking y; y_past := y_past y |}.
Definition with_services l y := {| y_gate := y_gate y; y_reg := y_reg y; y_closed := y_closed y;
  y_promoted := y_promoted y; y_sessions := y_sessions y; y_services := l;
  y_installing := y_installing y; y_revoking := y_revoking y; y_past := y_past y |}.
Definition with_installing o y := {| y_gate := y_gate y; y_reg := y_reg y; y_closed := y_closed y;
  y_promoted := y_promoted y; y_sessions := y_sessions y; y_services := y_services y;
  y_installing := o; y_revoking := y_revoking y; y_past := y_past y |}.
Definition with_revoking o y := {| y_gate := y_gate y; y_reg := y_reg y; y_closed := y_closed y;
  y_promoted := y_promoted y; y_sessions := y_sessions y; y_services := y_services y;
  y_installing := y_installing y; y_revoking := o; y_past := y_past y |}.
Definition with_past l y := {| y_gate := y_gate y; y_reg := y_reg y; y_closed := y_closed y;
  y_promoted := y_promoted y; y_sessions := y_sessions y; y_services := y_services y;
  y_installing := y_installing y; y_revoking := y_revoking y; y_past := l |}.
(** [conn.close] on every connection of the list; closing is non-blocking, the entries go
    when the handlers unwind. *)
Definition close_conns (l : list N) y := {| y_gate := y_gate y; y_reg := y_reg y;
  y_closed := list_to_set l ∪ y_closed y; y_promoted := y_promoted y;
  y_sessions := y_sessions y; y_services := y_services y; y_installing := y_installing y;
  y_revoking := y_revoking y; y_past := y_past y |}.

Definition set_promoted (id : N) (b : bool) (p : gset N) : gset N :=
  if b then {[id]} ∪ p else p ∖ {[id]}.

Section system.
Context `{T : TextEncoding, R : RowCodec}.

Definition on_roster (f : RosterGate -> RosterGate) (c : ComposedGate) : ComposedGate :=
  {| c_roster := f (c_roster c); c_pairs := c_pairs c |}.

(** The sever predicate of an install, over the sets of the new view. *)
Definition view_severs (v : RosterView) : EndpointId -> option string -> bool :=
  fun eid roster_user => should_sever eid roster_user (v_revoked v) (dom (v_devices v)).

(** [install_roster_view_and_sever]: swap, then sever. *)
Definition install_swap (v : RosterView) (y : Sys) : Sys :=
  with_installing (Some v) (with_gate (on_roster (install v) (y_gate y)) y).
Definition install_sever (v : RosterView) (y : Sys) : Sys :=
  with_installing None (close_conns (sever_matching (view_severs v) (y_reg y)) y).

(** [staleness_sweep_once], with the number of connections it cuts. *)
Definition should_staleness_sever (s : option RosterState) : bool :=
  bool_decide (s = Some DegradedStopped).
Definition staleness_sweep_once (now : Z) (y : Sys) : Sys * nat :=
  if should_staleness_sever (gate_effective_state (c_roster (y_gate y)) now) then
    let cut := sever_matching (fun _ roster_user => bool_decide (is_Some roster_user)) (y_reg y) in
    (close_conns cut y, length cut)
  else (y, 0).

(** [sever_principals]: the endpoints the principals name now, or the sessions admitted as
    one of them. *)
Definition sever_principals (targets : gset EndpointId) (principals : list string) (y : Sys) :
    Sys * nat :=
  let cut := sever_matching_admitted (fun eid => bool_decide (eid ∈ targets))
               (fun p => bool_decide (p ∈ principals)) (y_reg y) in
  (close_conns cut y, length cut).

Definition current (y : Sys) : Services := services_at (y_services y) (live_get (y_services y)).

(** [swap_services]. *)
Definition swap_registry (s : Services) (revoked : list string) (y : Sys) : Sys :=
  with_past (Swapped (current y) revoked :: y_past y) (with_services (live_store s (y_services y)) y).

(** The gate as the registry lock's recheck reads it. *)
Definition recheck (io : Io) (now : Z) (y : Sys) : TrustGate := composed_gate io now (y_gate y).

Inductive step : Sys -> Sys -> Prop :=
| step_accept y io now g1 g2 conn remote id b r' :
    accept_connection g1 g2 (recheck io now y) conn remote (y_reg y) = Some (id, b, r') ->
    (reg_seq (y_reg y) + 1 < 2 ^ 64)%N ->
    step y (with_promoted (set_promoted id b (y_promoted y)) (with_reg r' y))
| step_resolve y io now before at_ after remote id i b r' :
    resolve_session_principal before at_ after (recheck io now y) remote id
      (bool_decide (id ∈ y_promoted y)) (y_reg y) = (i, b, r') ->
    step y (with_promoted (set_promoted id b (y_promoted y)) (with_reg r' y))
| step_admit y h i id init frame name i' r' :
    run_session (y_services y) h (Some i) id init (y_reg y) = (frame, Some (name, i', r')) ->
    step y (with_sessions ({| ls_id := id; ls_service := name; ls_identity := i' |} :: y_sessions y)
              (with_reg r' y))
| step_end y l1 s l2 :
    y_sessions y = l1 ++ s :: l2 ->
    step y (with_sessions (l1 ++ l2)
              (with_reg (drop_session (ls_id s) (elements (identity_principals (ls_identity s)))
                           (y_reg y)) y))
| step_deregister y id : step y (with_reg (deregister id (y_reg y)) y)
| step_peer_close y c : step y (close_conns [c] y)
| step_pairs y s : step y (with_gate {| c_roster := c_roster (y_gate y); c_pairs := s |} y)
| step_confirm y epoch :
    step y (with_gate (on_roster (set_last_confirmed epoch) (y_gate y)) y)
| step_swap y v : y_installing y = None -> step y (install_swap v y)
| step_sever y v : y_installing y = Some v -> step y (install_sever v y)
| step_sweep y now : step y (staleness_sweep_once now y).1
(** any verb but a revoke: a registration, a grant, an unregistration, a reload *)
| step_swap_services y s : step y (swap_registry s [] y)
| step_revoke_swap y s ps :
    y_revoking y = None -> step y (with_revoking (Some ps) (swap_registry s ps y))
| step_revoke_sever y targets ps :
    y_revoking y = Some ps ->
    step y (with_past (Severed ps :: y_past y) (with_revoking None (sever_principals targets ps y).1))
(** the store could not be read for the endpoints to sever: the verb reports the error *)
| step_revoke_fails y ps :
    y_revoking y = Some ps -> step y (with_past (Unsevered ps :: y_past y) (with_revoking None y)).

(** The node after start: no connection yet, whatever the gate and services loaded. *)
Definition initial (y : Sys) : Prop :=
  y_reg y = new_registry /\ y_promoted y = ∅ /\ y_sessions y = [] /\
  y_installing y = None /\ y_revoking y = None /\ y_past y = [].

Definition reachable (y : Sys) : Prop := exists y0, initial y0 /\ rtc step y0 y.

(** Rule induction for a step-closed property. *)
Lemma reachable_ind (P : Sys -> Prop) :
  (forall y, initial y -> P y) -> (forall y y', P y -> step y y' -> P y') ->
  forall y, reachable y -> P y.
Proof.
  intros Hi Hs y (y0 & H0 & Hr). apply Hi in H0. clear Hi.
  induction Hr as [|y1 y2 y3 H12 _ IH]; eauto.
Qed.
End system.

(** ** Invariants *)
Section invariants.
Context `{T : TextEncoding, R : RowCodec}.

(** The composed recheck covers the sever rule of the installed view. *)
Lemma recheck_covers io now y v e ru :
  gate_should_sever_now (recheck io now y) e ru = false ->
  g_view (c_roster (y_gate y)) = Some v -> view_severs v e ru = false.
Proof.
  unfold recheck, view_severs, should_sever. simpl. unfold composed_should_sever_now.
  intros H Hv. unfold roster_is_revoked in H. rewrite Hv in H. simpl in H.
  apply orb_false_iff in H as [[[_ H1]%orb_false_iff _]%orb_false_iff H2].
  apply bool_decide_eq_false in H1. rewrite bool_decide_false by done. simpl.
  destruct ru; simpl in *; [|done]. apply bool_decide_eq_false in H2.
  rewrite bool_decide_true; [done|]. apply elem_of_dom. by apply not_eq_None_Some.
Qed.

(** Every open tracked connection agrees with the installed view, except while an
    installer is between its swap and its sever. *)
Definition sever_inv (y : Sys) : Prop :=
  match y_installing y with
  | Some v => g_view (c_roster (y_gate y)) = Some v
  | None => forall v id t, g_view (c_roster (y_gate y)) = Some v ->
      reg_inner (y_reg y) !! id = Some t -> t_conn t ∉ y_closed y ->
      view_severs v (t_endpoint_id t) (t_roster_user t) = false
  end.

(** A step that keeps the view, opens no connection and only changes discriminators the
    recheck passed keeps [sever_inv]. *)
Lemma sever_inv_entries io now y y' :
  sever_inv y -> y_installing y' = y_installing y ->
  g_view (c_roster (y_gate y')) = g_view (c_roster (y_gate y)) ->
  y_closed y ⊆ y_closed y' ->
  (forall id t', reg_inner (y_reg y') !! id = Some t' ->
     (exists t, reg_inner (y_reg y) !! id = Some t /\ t_conn t' = t_conn t /\
        t_endpoint_id t' = t_endpoint_id t /\ t_roster_user t' = t_roster_user t) \/
     gate_should_sever_now (recheck io now y) (t_endpoint_id t') (t_roster_user t') = false) ->
  sever_inv y'.
Proof.
  unfold sever_inv. intros Hinv -> -> Hc Hent. destruct (y_installing y); [done|].
  intros v id t' Hv Ht' Hopen.
  destruct (Hent id t' Ht') as [(t & Ht & Hcn & -> & ->)|Hs].
  - apply (Hinv v id t); [done..|]. rewrite <- Hcn. intros Hin. by apply Hopen, Hc.
  - by eapply recheck_covers.
Qed.

Lemma sever_inv_step y y' : sever_inv y -> step y y' -> sever_inv y'.
Proof.
  intros Hinv Hstep. destruct Hstep.
  - apply accept_connection_Some in H as (_ & _ & Hr).
    apply register_checked_Some in Hr as (Hs & _ & _ & Hreg).
    eapply (sever_inv_entries io now y); try done. simpl. intros id' t' Ht'.
    rewrite Hreg, lookup_insert_Some in Ht'. destruct Ht' as [[_ <-]|[_ ?]]; [by right|left; eauto].
  - apply resolve_session_principal_cases in H as [(_ & _ & ->)|(ru & adm & Ha & _)];
      eapply (sever_inv_entries io now y); try done; simpl; intros id' t' Ht'; [left; eauto|].
    eapply admit_roster_user_lookup in Ha as (t & Ht & Hc & He & _ & Hru); [|done].
    destruct Hru as [Hru|[Hru Hs]]; [left; eauto|right]. by rewrite He, Hru.
  - apply admit_Some in H as (-> & _ & Hs).
    apply admit_session_Some in Hs as (_ & _ & t & Ht & Hreg).
    eapply (sever_inv_entries healthy 0 y); try done. simpl. intros id' t' Ht'. left.
    rewrite Hreg, lookup_insert_Some in Ht'. destruct Ht' as [[<- <-]|[_ ?]]; eauto.
  - eapply (sever_inv_entries healthy 0 y); try done. simpl. intros id' t' Ht'. left.
    apply drop_session_lookup in Ht' as (t & ? & ? & ? & ? & _). eauto 10.
  - eapply (sever_inv_entries healthy 0 y); try done. simpl. intros id' t' Ht'. left.
    apply lookup_delete_Some in Ht' as [_ ?]. eauto 10.
  - eapply (sever_inv_entries healthy 0 y); try done; [simpl; set_solver|].
    intros id' t' Ht'. left. eauto 10.
  - eapply (sever_inv_entries healthy 0 y); try done. intros id' t' Ht'. left. eauto 10.
  - eapply (sever_inv_entries healthy 0 y); try done. intros id' t' Ht'. left. eauto 10.
  - done.
  - unfold sever_inv in Hinv |- *. rewrite H in Hinv. simpl. rewrite Hinv.
    intros v' id t [= <-] Ht Hopen. apply not_true_iff_false. intros Hs. apply Hopen.
    apply elem_of_union. left. apply elem_of_list_to_set, elem_of_sever_matching. eauto.
  - unfold staleness_sweep_once. destruct (should_staleness_sever _); [|done].
    eapply (sever_inv_entries healthy 0 y); try done; [simpl; set_solver|].
    intros id' t' Ht'. left. eauto 10.
  - eapply (sever_inv_entries healthy 0 y); try done. intros id' t' Ht'. left. eauto 10.
  - eapply (sever_inv_entries healthy 0 y); try done. intros id' t' Ht'. left. eauto 10.
  - eapply (sever_inv_entries healthy 0 y); try done; [simpl; set_solver|].
    intros id' t' Ht'. left. eauto 10.
  - eapply (sever_inv_entries healthy 0 y); try done. intros id' t' Ht'. left. eauto 10.
Qed.

(** *** The principals of live sessions *)

Definition session_principals (id : N) (l : list LiveSession) : list string :=
  filter (fun s => ls_id s = id) l ≫= fun s => elements (identity_principals (ls_identity s)).

Definition count_inv (y : Sys) : Prop :=
  (forall id, is_Some (reg_inner (y_reg y) !! id) -> (id < reg_seq (y_reg y))%N) /\
  (forall s, s ∈ y_sessions y -> (ls_id s < reg_seq (y_reg y))%N) /\
  (forall id t, reg_inner (y_reg y) !! id = Some t ->
     counts (t_admitted t) (fun p => occurrences p (session_principals id (y_sessions y)))).

Lemma session_principals_cons id s l :
  session_principals id (s :: l) =
    (if decide (ls_id s = id) then elements (identity_principals (ls_identity s)) else [])
    ++ session_principals id l.
Proof. unfold session_principals. rewrite filter_cons. by case_decide. Qed.

Lemma occurrences_session_middle id s l1 l2 p :
  occurrences p (session_principals id (l1 ++ s :: l2)) =
    occurrences p (session_principals id (l1 ++ l2)) +
    (if decide (ls_id s = id)
     then occurrences p (elements (identity_principals (ls_identity s))) else 0).
Proof.
  unfold session_principals. rewrite !filter_app, filter_cons, !bind_app, !occurrences_app.
  case_decide; [rewrite bind_cons, occurrences_app|]; lia.
Qed.

(** Entries of [y'] are entries of [y] with the same counts, and no session is new. *)
Lemma count_inv_entries y y' :
  count_inv y -> reg_seq (y_reg y') = reg_seq (y_reg y) -> y_sessions y' = y_sessions y ->
  (forall id t', reg_inner (y_reg y') !! id = Some t' ->
     exists t, reg_inner (y_reg y) !! id = Some t /\ t_admitted t' = t_admitted t) ->
  count_inv y'.
Proof.
  intros (H1 & H2 & H3) Hs Hl Hent. unfold count_inv. rewrite Hs, Hl. split_and!; [|done|].
  - intros id [t' Ht']. destruct (Hent id t' Ht') as (t & Ht & _). apply H1. by eexists.
  - intros id t' Ht'. destruct (Hent id t' Ht') as (t & Ht & ->). by apply H3.
Qed.

Lemma count_inv_step y y' : count_inv y -> step y y' -> count_inv y'.
Proof.
  intros Hinv Hstep. destruct Hstep;
    try (eapply count_inv_entries; [exact Hinv|done|done|by intros id' t' ?; exists t']).
  - destruct Hinv as (H1 & H2 & H3).
    apply accept_connection_Some in H as (_ & _ & Hr).
    apply register_checked_Some in Hr as (_ & -> & Hseq & Hreg).
    assert (Hnext : next_seq (reg_seq (y_reg y)) = (reg_seq (y_reg y) + 1)%N)
      by (apply N.mod_small; lia).
    unfold count_inv. simpl. rewrite Hseq, Hreg, Hnext. split_and!.
    + intros id' [t' Ht']. apply lookup_insert_Some in Ht' as [[<- _]|[_ ?]].
      { lia. }
      pose proof (H1 id' ltac:(by eexists)). lia.
    + intros s Hs. specialize (H2 s Hs). lia.
    + intros id' t' Ht'. apply lookup_insert_Some in Ht' as [[<- <-]|[_ ?]]; [|by apply H3].
      simpl. intros p. rewrite decide_True; [done|].
      assert (filter (fun s => ls_id s = reg_seq (y_reg y)) (y_sessions y) = []) as Hnil.
      { apply filter_none. intros s Hs Heq. specialize (H2 s Hs). lia. }
      unfold session_principals. by rewrite Hnil.
  - apply resolve_session_principal_cases in H as [(_ & _ & ->)|(ru & adm & Ha & _)].
    + eapply count_inv_entries; [exact Hinv|done|done|by intros id' t' ?; exists t'].
    + eapply count_inv_entries; [exact Hinv| |done|]; simpl.
      * by eapply admit_roster_user_seq.
      * intros id' t' Ht'.
        eapply admit_roster_user_lookup in Ha as (t & Ht & _ & _ & ? & _); [|done]. eauto.
  - destruct Hinv as (H1 & H2 & H3). apply admit_Some in H as (-> & _ & Hs).
    apply admit_session_Some in Hs as (_ & Hseq & t & Ht & Hreg).
    unfold count_inv. simpl. rewrite Hseq, Hreg. split_and!.
    + intros id' [t' Ht']. apply lookup_insert_Some in Ht' as [[<- _]|[_ ?]]; apply H1; by eexists.
    + intros s [->|?]%elem_of_cons; [|by apply H2]. simpl. apply H1. by eexists.
    + intros id' t' Ht'. apply lookup_insert_Some in Ht' as [[<- <-]|[Hne Ht']].
      * simpl. intros p. rewrite session_principals_cons, occurrences_app. simpl.
        rewrite (decide_True (P := id = id)) by done. rewrite Nat.add_comm.
        apply (counts_bumps _ (fun p => occurrences p (session_principals id (y_sessions y)))).
        by apply H3.
      * intros p. rewrite session_principals_cons, (decide_False (P := _ = id')) by (simpl; congruence).
        by apply H3.
  - destruct Hinv as (H1 & H2 & H3). unfold count_inv. simpl. rewrite drop_session_seq.
    split_and!.
    + intros id' [t' Ht']. apply drop_session_lookup in Ht' as (t & Ht & _). apply H1. by eexists.
    + intros s' Hs'. apply H2. rewrite H. in_list.
    + intros id' t' Ht'. apply drop_session_lookup in Ht' as (t & Ht & _ & _ & _ & ->).
      specialize (H3 id' t Ht). rewrite H in H3.
      assert (counts (t_admitted t) (fun p => occurrences p (session_principals id' (l1 ++ l2)) +
        if decide (ls_id s = id')
        then occurrences p (elements (identity_principals (ls_identity s))) else 0)) as Hc.
      { intros p. rewrite <- occurrences_session_middle. apply H3. }
      destruct (decide (id' = ls_id s)) as [->|Hne].
      * apply counts_unbumps. intros p. specialize (Hc p). cbn beta in Hc.
        by rewrite (decide_True (P := ls_id s = ls_id s)) in Hc by done.
      * intros p. specialize (Hc p). cbn beta in Hc.
        rewrite (decide_False (P := ls_id s = id')) in Hc by congruence.
        by rewrite Nat.add_0_r in Hc.
  - eapply count_inv_entries; [exact Hinv|done|done|]. simpl. intros id' t' Ht'.
    apply lookup_delete_Some in Ht' as [_ ?]. eauto.
  - eapply count_inv_entries; [exact Hinv|..]; unfold staleness_sweep_once;
      destruct (should_staleness_sever _); try done; by intros id' t' ?; exists t'.
Qed.

(** *** What live sessions are authorized by *)

(** The registry before the changes [l], when [now] is the one after them. *)
Fixpoint before (l : list Change) (now : Services) : Services :=
  match l with
  | [] => now
  | Swapped old _ :: l => before l old
  | _ :: l => before l now
  end.

Definition admits (r : Services) (s : LiveSession) : bool :=
  match r !! ls_service s with
  | Some e => caller_admits (ls_identity s) (se_allow e)
  | None => false
  end.
Definition is_of (s : LiveSession) (ps : list string) : Prop := exists p, p ∈ ps /\ p ∈ identity_principals (ls_identity s).

(** Admitted by the registry of some point, since when no revoke of a principal of it has
    severed. *)
Definition authorized_since (y : Sys) (s : LiveSession) (recent : list Change) : Prop :=
  recent `prefix_of` y_past y /\ admits (before recent (current y)) s = true /\
  forall ps, Severed ps ∈ recent -> ~ is_of s ps.

Definition auth_inv (y : Sys) : Prop :=
  forall s t, s ∈ y_sessions y -> reg_inner (y_reg y) !! ls_id s = Some t ->
    t_conn t ∉ y_closed y -> exists recent, authorized_since y s recent.

(** A revoke that swapped has severed, or failed, or is under way. *)
Definition revoke_inv (y : Sys) : Prop :=
  forall l1 old ps l2, y_past y = l1 ++ Swapped old ps :: l2 ->
    ps = [] \/ Severed ps ∈ l1 \/ Unsevered ps ∈ l1 \/ y_revoking y = Some ps.

Lemma current_swap r ps y : current (swap_registry r ps y) = r.
Proof.
  unfold current, swap_registry, services_at, live_store, live_get. simpl.
  by rewrite lookup_app_r, Nat.sub_diag by done.
Qed.

(** No new session and no reopened connection keeps [auth_inv]. *)
Lemma auth_inv_entries y y' :
  auth_inv y -> y_services y' = y_services y -> y_past y' = y_past y ->
  y_closed y ⊆ y_closed y' -> y_sessions y' ⊆ y_sessions y ->
  (forall s t', s ∈ y_sessions y -> reg_inner (y_reg y') !! ls_id s = Some t' ->
     exists t, reg_inner (y_reg y) !! ls_id s = Some t /\ t_conn t' = t_conn t) ->
  auth_inv y'.
Proof.
  unfold auth_inv, authorized_since, current. intros Hinv -> -> Hc Hl Hent s t' Hs Ht' Hopen.
  apply Hl in Hs. destruct (Hent s t' Hs Ht') as (t & Ht & Hcn).
  apply (Hinv s t); [done..|]. rewrite <- Hcn. intros Hin. by apply Hopen, Hc.
Qed.

(** A swap is one more change since. *)
Lemma auth_inv_swap r ps y : auth_inv y -> auth_inv (swap_registry r ps y).
Proof.
  intros Hinv s t Hs Ht Hopen. destruct (Hinv s t Hs Ht Hopen) as (recent & Hp & Ha & Hno).
  exists (Swapped (current y) ps :: recent). split; [by apply prefix_cons|].
  rewrite current_swap. split; [exact Ha|]. intros qs [?|Hin]%elem_of_cons; [done|by apply Hno].
Qed.

Lemma auth_inv_step y y' : count_inv y -> auth_inv y -> step y y' -> auth_inv y'.
Proof.
  intros Hcount Hinv Hstep. destruct Hstep;
    try (eapply auth_inv_entries; [exact Hinv|done|done|first [done|simpl; set_solver]|done|
         by intros s' t' _ ?; exists t']).
  - apply accept_connection_Some in H as (_ & _ & Hr).
    apply register_checked_Some in Hr as (_ & -> & _ & Hreg).
    eapply auth_inv_entries; [exact Hinv|done..|]. simpl. intros s t' Hs Ht'.
    apply (proj1 (proj2 Hcount)) in Hs. rewrite Hreg, lookup_insert_ne in Ht' by lia. eauto.
  - apply resolve_session_principal_cases in H as [(_ & _ & ->)|(ru & adm & Ha & _)];
      (eapply auth_inv_entries; [exact Hinv|done..|]); simpl; intros s t' _ Ht'; [eauto|].
    eapply admit_roster_user_lookup in Ha as (t & ? & ? & _); [|done]. eauto.
  - pose proof (admit_live _ _ _ _ _ _ _ _ _ _ H) as (e & He & Hadm).
    apply admit_Some in H as (-> & _ & Hs).
    apply admit_session_Some in Hs as (_ & _ & t & Ht & Hreg).
    intros s' t' Hs' Ht' Hopen. simpl in *. apply elem_of_cons in Hs' as [->|Hs'].
    { exists []. split; [apply prefix_nil|]. split; [|by intros ps ?%elem_of_nil].
      unfold admits, current. simpl. by rewrite He. }
    rewrite Hreg, lookup_insert_Some in Ht'.
    destruct Ht' as [[Heq <-]|[_ Ht']]; [|by apply (Hinv s' t')].
    apply (Hinv s' t); [done| |done]. by rewrite <- Heq.
  - eapply auth_inv_entries; [exact Hinv|done..| |]; simpl.
    + rewrite H. intros x. rewrite !elem_of_app, elem_of_cons. tauto.
    + intros s' t' _ Ht'. apply drop_session_lookup in Ht' as (t & ? & ? & _). eauto.
  - eapply auth_inv_entries; [exact Hinv|done..|]. simpl. intros s' t' _ Ht'.
    apply lookup_delete_Some in Ht' as [_ ?]. eauto.
  - unfold staleness_sweep_once. destruct (should_staleness_sever _); [|done].
    eapply auth_inv_entries; [exact Hinv|done|done|simpl; set_solver|done|eauto].
  - by apply auth_inv_swap.
  - by apply (auth_inv_swap s ps) in Hinv.
  - intros s' t Hs' Ht Hopen. simpl in Ht, Hopen. apply not_elem_of_union in Hopen as [Hcut Hopen].
    destruct (Hinv s' t Hs' Ht Hopen) as (recent & Hp & Ha & Hno). exists (Severed ps :: recent).
    split; [by apply prefix_cons|]. split; [exact Ha|]. intros qs [[= ->]|Hin]%elem_of_cons; [|by apply Hno].
    intros (p & Hq & Hi). apply Hcut.
    apply elem_of_list_to_set, elem_of_sever_matching_admitted. exists (ls_id s'), t.
    split_and!; [done..|]. right. exists p.
    pose proof (proj2 (proj2 Hcount) _ _ Ht p) as Hcnt.
    assert (0 < occurrences p (session_principals (ls_id s') (y_sessions y))) as Hpos.
    { apply occurrences_elem. unfold session_principals. apply list_elem_of_bind. exists s'.
      split; [by apply elem_of_elements|]. by apply list_elem_of_filter. }
    rewrite decide_False in Hcnt by lia. eexists. split; [exact Hcnt|].
    by apply bool_decide_eq_true.
  - intros s' t Hs' Ht Hopen. destruct (Hinv s' t Hs' Ht Hopen) as (recent & Hp & Ha & Hno).
    exists (Unsevered ps :: recent). split; [by apply prefix_cons|]. split; [exact Ha|].
    intros qs [?|Hin]%elem_of_cons; [done|by apply Hno].
Qed.

(** One more change, which is no revoke's swap unless that revoke is now under way. *)
Lemma revoke_inv_cons c y y' :
  revoke_inv y -> y_past y' = c :: y_past y ->
  (forall old ps, c = Swapped old ps -> ps = [] \/ y_revoking y' = Some ps) ->
  (forall ps, y_revoking y = Some ps -> y_revoking y' = Some ps \/ c = Severed ps \/ c = Unsevered ps) ->
  revoke_inv y'.
Proof.
  intros Hinv Hpast Hc Hr l1 old ps l2 Hl. rewrite Hpast in Hl. destruct l1 as [|c' l1]; injection Hl as Hl1 Hl2.
  { destruct (Hc _ _ Hl1); auto. }
  subst c'. destruct (Hinv _ _ _ _ Hl2) as [?|[?|[?|Hrev]]]; [by left|right; left; by right|do 2 right; left; by right|].
  destruct (Hr ps Hrev) as [?|[-> | ->]]; [by do 3 right|right; left; left|do 2 right; left; left].
Qed.

Lemma revoke_inv_step y y' : revoke_inv y -> step y y' -> revoke_inv y'.
Proof.
  intros Hinv Hstep. destruct Hstep; try done.
  - unfold staleness_sweep_once. by destruct (should_staleness_sever _).
  - eapply revoke_inv_cons; [exact Hinv|done|intros ?? [= _ <-]; by left|by left].
  - eapply revoke_inv_cons; [exact Hinv|done|intros ?? [= _ <-]; by right|]. intros qs Hq. congruence.
  - eapply revoke_inv_cons; [exact Hinv|done|done|]. intros qs Hq. right; left. congruence.
  - eapply revoke_inv_cons; [exact Hinv|done|done|]. intros qs Hq. right; right. congruence.
Qed.

Lemma reachable_inv y : reachable y -> sever_inv y /\ count_inv y /\ auth_inv y /\ revoke_inv y.
Proof.
  intros Hr. apply (reachable_ind (fun y => sever_inv y /\ count_inv y /\ auth_inv y /\ revoke_inv y)); [| |done].
  - intros y0 (Hreg & _ & Hs & Hi & _ & Hp). unfold sever_inv, count_inv, auth_inv, revoke_inv.
    rewrite Hreg, Hs, Hi, Hp. simpl. split_and!.
    + intros v id t _ Ht. by rewrite lookup_empty in Ht.
    + intros id [t Ht]. by rewrite lookup_empty in Ht.
    + intros s Hin. by apply elem_of_nil in Hin.
    + intros id t Ht. by rewrite lookup_empty in Ht.
    + intros s t Hin. by apply elem_of_nil in Hin.
    + intros l1 old ps l2 Hl. by destruct l1.
  - intros y1 y2 (H1 & H2 & H3 & H4) Hstep.
    split_and!; [by eapply sever_inv_step|by eapply count_inv_step|by eapply auth_inv_step|by eapply revoke_inv_step].
Qed.


(** ** Properties *)

(** C1: whatever the interleaving of accepts, session promotions, pair-store changes and
    roster installs, once an install has swapped and severed no open tracked connection
    belongs to an endpoint the installed roster revokes, nor was resolved through the roster
    while the installed roster no longer lists it. *)
Theorem no_severed_connection_survives y v id t :
  reachable y -> y_installing y = None -> g_view (c_roster (y_gate y)) = Some v ->
  reg_inner (y_reg y) !! id = Some t -> t_conn t ∉ y_closed y ->
  Validate.is_revoked v (t_endpoint_id t) = false /\
  (forall u, t_roster_user t = Some u -> exists d, Validate.resolve v (t_endpoint_id t) = Some d).
Proof.
  intros (Hs & _ & _)%reachable_inv Hi Hv Ht Hopen. unfold sever_inv in Hs. rewrite Hi in Hs.
  specialize (Hs v id t Hv Ht Hopen). unfold view_severs, should_sever in Hs.
  apply orb_false_iff in Hs as [Hr%bool_decide_eq_false Hd]. split.
  - by apply bool_decide_eq_false.
  - intros u Hu. rewrite Hu in Hd. simpl in Hd. apply negb_false_iff, bool_decide_eq_true in Hd.
    apply elem_of_dom in Hd as [d ?]. by exists d.
Qed.

(** The counts a tracked connection keeps are exactly those of its live sessions: a
    principal is present exactly when some live session on the connection was admitted as
    it, with that multiplicity, so the decrement when a session ends never underflows and
    leaves no zero entry. *)
Theorem admitted_counts_exact y id t p :
  reachable y -> reg_inner (y_reg y) !! id = Some t ->
  t_admitted t !! p =
    let n := occurrences p (session_principals id (y_sessions y)) in
    if decide (n = 0) then None else Some n.
Proof. intros (_ & (_ & _ & Hc) & _)%reachable_inv Ht. by apply Hc. Qed.

End invariants.

(** ** Witnesses

    A node with the sample roster installed and one service: Alice's laptop connects and
    opens one session. *)
Module Witness.
Import Toy ToyRows Sample.

Definition gate0 : ComposedGate :=
  {| c_roster := install view (with_freshness 60 600); c_pairs := empty_store |}.
Definition notes : Services :=
  {["notes"%string := {| se_backend := 0; se_allow := ["alice"%string]; se_kind := KRun;
                         se_ephemeral := false |}]}.
Definition y0 : Sys :=
  {| y_gate := gate0; y_reg := new_registry; y_closed := ∅; y_promoted := ∅; y_sessions := [];
     y_services := new_live notes; y_installing := None; y_revoking := None; y_past := [] |}.
Definition now : Z := 2000.
Definition g0 : TrustGate := recheck healthy now y0.

Definition accepted : option (N * bool * ConnRegistry) :=
  accept_connection g0 g0 g0 7 alice_ep new_registry.
Definition reg1 : ConnRegistry :=
  match accepted with Some (_, _, r) => r | None => new_registry end.
Definition y1 : Sys := with_promoted (set_promoted 0 true ∅) (with_reg reg1 y0).

Definition alice : PeerIdentity :=
  {| id_endpoint := alice_ep; id_name := "alice"; id_user_id := Some "alice"%string;
     id_groups := ["eng"%string] |}.
Definition hello : Value :=
  VObject [("id"%string, VNumber (NInt 1));
           ("params"%string, VObject [("_meta"%string,
              VObject [("mcpmesh/service"%string, VString "notes")])])].
Definition admitted : Value * option (string * PeerIdentity * ConnRegistry) :=
  run_session (y_services y1) 0 (Some alice) 0 hello reg1.
Definition reg2 : ConnRegistry :=
  match admitted.2 with Some (_, _, r) => r | None => reg1 end.
Definition session : LiveSession :=
  {| ls_id := 0; ls_service := "notes"; ls_identity := alice |}.
Definition y2 : Sys := with_sessions [session] (with_reg reg2 y1).

Lemma step01 : step y0 y1.
Proof.
  apply (step_accept y0 healthy now g0 g0 7%N alice_ep 0%N true reg1).
  - vm_compute. reflexivity.
  - vm_compute. reflexivity.
Qed.

Lemma step12 : step y1 y2.
Proof.
  apply (step_admit y1 0 alice 0%N hello admitted.1 "notes" alice reg2).
  vm_compute. reflexivity.
Qed.

Lemma reachable2 : reachable y2.
Proof.
  exists y0. split; [by split_and!|].
  eapply rtc_l; [apply step01|]. eapply rtc_l; [apply step12|]. apply rtc_refl.
Qed.

Definition entry : Tracked :=
  default {| t_endpoint_id := alice_ep; t_roster_user := None; t_admitted := ∅; t_conn := 0 |}
    (reg_inner reg2 !! 0%N).

Lemma entry_tracked : reg_inner (y_reg y2) !! 0%N = Some entry.
Proof. vm_compute. reflexivity. Qed.

Lemma entry_open : t_conn entry ∉ y_closed y2.
Proof. apply not_elem_of_empty. Qed.

Lemma no_severed_connection_survives_witness :
  Validate.is_revoked view (t_endpoint_id entry) = false.
Proof.
  exact (proj1 (no_severed_connection_survives y2 view 0%N entry reachable2 eq_refl eq_refl
    entry_tracked entry_open)).
Defined.

Lemma admitted_counts_exact_witness : t_admitted entry !! "eng"%string = Some 1.
Proof.
  transitivity (let n := occurrences "eng" (session_principals 0%N (y_sessions y2)) in
    if decide (n = 0) then None else Some n).
  - exact (admitted_counts_exact y2 0%N entry "eng" reachable2 entry_tracked).
  - vm_compute. reflexivity.
Defined.


(** Unregistering takes the service away and lets Alice's session go on; a revoke of her does
    not. *)
Definition unregistered : Sys := swap_registry ∅ [] y2.
Lemma unregistered_goes_on :
  reachable unregistered /\ session ∈ y_sessions unregistered /\ t_conn entry ∉ y_closed unregistered /\ admits (current unregistered) session = false.
Proof.
  split; [|split; [left|split; [apply not_elem_of_empty|vm_compute; reflexivity]]].
  destruct reachable2 as (y & Hy & Hr). exists y. split; [exact Hy|]. eapply rtc_r; [exact Hr|]. apply step_swap_services.
Qed.
Definition revoked : Sys :=
  let y := with_revoking (Some ["alice"%string]) (swap_registry ∅ ["alice"%string] y2) in
  with_past (Severed ["alice"%string] :: y_past y) (with_revoking None (sever_principals ∅ ["alice"%string] y).1).
Lemma revoked_ends : reachable revoked /\ t_conn entry ∈ y_closed revoked.
Proof.
  split; [|vm_compute; reflexivity].
  destruct reachable2 as (y & Hy & Hr). exists y. split; [exact Hy|].
  eapply rtc_r; [eapply rtc_r; [exact Hr|apply (step_revoke_swap y2 ∅ ["alice"%string]); reflexivity]|]. by apply step_revoke_sever.
Qed.
End Witness.
