(* ===== verification/Invites.v ===== *)
(** * Pairing invites

    [node/src/pairing/mod.rs] and [node/src/pairing/persist.rs]: the invite line, the
    registry of outstanding invites with its write-through file, and the redemption of a
    secret.  The JSON of the [Invite] struct is serde's derived code, a parameter.

    The mutating operations hold the [writes] lock from the map operation to the end of the
    write, so each is one transition here; a write either replaces the whole file or fails
    and leaves it ([InviteFile::store] renames a complete temporary over it). *)
From stdpp Require Import base list gmap strings.
From Stdlib Require Import ZArith Lia Strings.Byte.
From S2P Require Import Prelude Bytes Json Externals Identity Allowlist.

Definition INVITE_SCHEME : string := "mcpmesh-invite:".
Definition ENROLL_SCHEME : string := "mcpmesh-enroll:".
Definition MAX_APP_LABEL_LEN : Z := 256%Z.

Definition is_enrollment_line (line : string) : bool := starts_with ENROLL_SCHEME line.

Inductive SelfEnroll := SelfRefuse | SelfAllow.

Record Invite := {
  i_secret : key32;
  i_inviter_id : key32;
  i_inviter_addr_json : string;
  i_nickname : string;
  i_services : list string;
  i_expires_at_epoch : Z;
  i_app_label : option string;
  i_peer_nickname : option string;
  i_as_self : bool;
  i_uses_remaining : Z }.

#[export] Instance Invite_eq_dec : EqDecision Invite.
Proof. solve_decision. Defined.

(** The ranges of the [u64] and the [u32]. *)
Definition invite_wf (i : Invite) : Prop :=
  (0 <= i_expires_at_epoch i <= u64_max)%Z /\ (0 <= i_uses_remaining i <= u32_max)%Z.

Class InviteCodec := {
  invite_to_vec : Invite -> bytes;
  invite_from_slice : bytes -> option Invite;
  invites_to_vec : list Invite -> bytes;
  invites_from_slice : bytes -> option (list Invite) }.

Class InviteCodecLaws (C : InviteCodec) := {
  invite_from_to i : invite_wf i -> invite_from_slice (invite_to_vec i) = Some i;
  invites_from_to l : Forall invite_wf l -> invites_from_slice (invites_to_vec l) = Some l;
  invites_from_wf b l : invites_from_slice b = Some l -> Forall invite_wf l }.

(** ** The line *)
Section line.
Context `{T : TextEncoding, C : InviteCodec}.

Definition without_peer_nickname (i : Invite) : Invite :=
  {| i_secret := i_secret i; i_inviter_id := i_inviter_id i;
     i_inviter_addr_json := i_inviter_addr_json i; i_nickname := i_nickname i;
     i_services := i_services i; i_expires_at_epoch := i_expires_at_epoch i;
     i_app_label := i_app_label i; i_peer_nickname := None; i_as_self := i_as_self i;
     i_uses_remaining := i_uses_remaining i |}.

Definition encode (i : Invite) : string :=
  (if i_as_self i then ENROLL_SCHEME else INVITE_SCHEME) +:+
    base32_encode (invite_to_vec (without_peer_nickname i)).

Definition decode (line : string) : result string Invite :=
  payload ← ok_or "not an mcpmesh invite"%string
    (match strip_prefix INVITE_SCHEME line with
     | Some p => Some p
     | None => strip_prefix ENROLL_SCHEME line
     end);
  json ← map_err (fun _ => "invite payload is not valid base32"%string) (base32_decode payload);
  invite ← ok_or "invite payload is not a valid invite"%string (invite_from_slice json);
  if Bool.eqb (i_as_self invite) (starts_with ENROLL_SCHEME line) then Ok invite
  else Err "invite scheme and as_self disagree"%string.
End line.

(** ** The registry *)
Inductive FileOp := ReadAll | ReadLive | Store.
#[export] Instance FileOp_eq_dec : EqDecision FileOp.
Proof. solve_decision. Defined.
(** The file operations that fail. *)
Definition FileIo : Type := FileOp -> bool.
Definition disk_ok : FileIo := fun _ => false.

(** [file]: [None] is a RAM-only registry, [Some disk] a backed one, [disk] the bytes of the
    file, if it exists. *)
Record LiveInvites := {
  l_inner : gmap key32 Invite;
  l_file : option (option bytes) }.

Inductive Redeem := RedeemOk (i : Invite) | Expired | Unknown | Unavailable.

Definition new_invites : LiveInvites := {| l_inner := ∅; l_file := None |}.

Definition set_inner (m : gmap key32 Invite) (l : LiveInvites) : LiveInvites :=
  {| l_inner := m; l_file := l_file l |}.

(** [map.values().cloned().collect()]; the order is not observable, the file is read back
    into a map. *)
Definition values (m : gmap key32 Invite) : list Invite := (map_to_list m).*2.

(** [into_iter().map(|i| (i.secret, i)).collect()]: a later entry replaces an earlier one. *)
Definition by_secret (l : list Invite) : gmap key32 Invite :=
  foldl (fun m i => <[i_secret i := i]> m) ∅ l.

Definition with_uses (n : Z) (i : Invite) : Invite :=
  {| i_secret := i_secret i; i_inviter_id := i_inviter_id i;
     i_inviter_addr_json := i_inviter_addr_json i; i_nickname := i_nickname i;
     i_services := i_services i; i_expires_at_epoch := i_expires_at_epoch i;
     i_app_label := i_app_label i; i_peer_nickname := i_peer_nickname i;
     i_as_self := i_as_self i; i_uses_remaining := n |}.

Definition live (now : Z) (i : Invite) : Prop := (now <= i_expires_at_epoch i)%Z.
#[export] Instance live_dec now i : Decision (live now i).
Proof. unfold live. apply _. Defined.

Section registry.
Context `{C : InviteCodec}.

(** [InviteFile::load] on the bytes a successful read returns. *)
Definition file_load (disk : option bytes) (now : Z) : list Invite :=
  match disk with
  | None => []
  | Some bytes =>
      match invites_from_slice bytes with
      | Some v => filter (live now) v
      | None => []
      end
  end.

(** [InviteFile::load]: a failed read is the empty set. *)
Definition read_file (io : FileIo) (op : FileOp) (disk : option bytes) (now : Z) : list Invite :=
  if io op then [] else file_load disk now.

(** [LiveInvites::load]. *)
Definition load (io : FileIo) (disk : option bytes) (now : Z) : LiveInvites :=
  let on_disk := length (read_file io ReadAll disk 0) in
  let l := read_file io ReadLive disk now in
  let reaped := negb (Nat.eqb (length l) on_disk) in
  let map := by_secret l in
  {| l_inner := map;
     l_file := Some (if reaped && negb (io Store) then Some (invites_to_vec (values map))
                     else disk) |}.

Definition persist (io : FileIo) (snapshot : list Invite) (l : LiveInvites) :
    result string unit * LiveInvites :=
  match l_file l with
  | None => (Ok (), l)
  | Some _ =>
      if io Store then (Err "could not write the invite file"%string, l)
      else (Ok (), {| l_inner := l_inner l; l_file := Some (Some (invites_to_vec snapshot)) |})
  end.

Definition mint (io : FileIo) (l : LiveInvites) (invite : Invite) :
    result string unit * LiveInvites :=
  let secret := i_secret invite in
  let displaced := l_inner l !! secret in
  let map := <[secret := invite]> (l_inner l) in
  match persist io (values map) (set_inner map l) with
  | (Ok _, l) => (Ok (), l)
  | (Err e, l) =>
      (Err e, set_inner (match displaced with
                         | Some prev => <[secret := prev]> (l_inner l)
                         | None => delete secret (l_inner l)
                         end) l)
  end.

Definition peek_live_alias (l : LiveInvites) (secret : key32) (now : Z) : option (option string) :=
  i ← l_inner l !! secret; if decide (live now i) then Some (i_peer_nickname i) else None.

Definition peek_live (l : LiveInvites) (secret : key32) (now : Z) : bool :=
  bool_decide (is_Some (peek_live_alias l secret now)).

Definition peek_is_self (l : LiveInvites) (secret : key32) (now : Z) : bool :=
  match l_inner l !! secret with
  | Some i => bool_decide (live now i) && i_as_self i
  | None => false
  end.

(** The decision under the map's lock: [None] leaves the map and answers [Unknown]. *)
Definition redeem_step (m : gmap key32 Invite) (secret : key32) (now : Z) :
    option (Redeem * gmap key32 Invite) :=
  match m !! secret with
  | None => None
  | Some inv =>
      if decide (live now inv) then
        match u32_checked_sub (i_uses_remaining inv) 1 with
        | None => None
        | Some uses =>
            let entry := with_uses uses inv in
            if decide (uses = 0%Z) then Some (RedeemOk entry, delete secret m)
            else Some (RedeemOk entry, <[secret := entry]> m)
        end
      else Some (Expired, delete secret m)
  end.

Definition try_redeem (io : FileIo) (l : LiveInvites) (secret : key32) (now : Z) :
    Redeem * LiveInvites :=
  match redeem_step (l_inner l) secret now with
  | None => (Unknown, l)
  | Some (outcome, map) =>
      match persist io (values map) (set_inner map l) with
      | (Ok _, l) => (outcome, l)
      | (Err _, l) =>
          (Unavailable,
           match outcome with
           | RedeemOk inv =>
               set_inner (<[secret := with_uses (u32_saturating_add (i_uses_remaining inv) 1) inv]>
                            (l_inner l)) l
           | _ => l
           end)
      end
  end.

Definition count (l : LiveInvites) : nat := size (l_inner l).

(** [remove_expired] with [inv_persist_burn]: a failed write is only logged. *)
Definition remove_expired (io : FileIo) (l : LiveInvites) (now : Z) : LiveInvites :=
  let map := filter (fun kv => live now kv.2) (l_inner l) in
  if decide (size map = size (l_inner l)) then set_inner map l
  else snd (persist io (values map) (set_inner map l)).
End registry.

(** ** Histories

    The operations of one node's registry, restarts included, with the failing file
    operations of each. *)
Inductive InviteOp :=
| OpMint (i : Invite)
| OpRedeem (secret : key32) (now : Z)
| OpReap (now : Z)
| OpRestart (now : Z).

Section history.
Context `{C : InviteCodec}.

(** One operation, and what it redeemed. *)
Definition invite_step (l : LiveInvites) (op : FileIo * InviteOp) : LiveInvites * option key32 :=
  match op with
  | (io, OpMint i) => ((mint io l i).2, None)
  | (io, OpRedeem secret now) =>
      match try_redeem io l secret now with
      | (RedeemOk _, l) => (l, Some secret)
      | (_, l) => (l, None)
      end
  | (io, OpReap now) => (remove_expired io l now, None)
  | (io, OpRestart now) =>
      (match l_file l with None => new_invites | Some disk => load io disk now end, None)
  end.

(** How often [secret] was redeemed. *)
Fixpoint redemptions (secret : key32) (l : LiveInvites) (ops : list (FileIo * InviteOp)) : Z :=
  match ops with
  | [] => 0
  | op :: ops =>
      let (l, r) := invite_step l op in
      (if decide (r = Some secret) then 1 else 0) + redemptions secret l ops
  end%Z.

Definition mints (secret : key32) (op : FileIo * InviteOp) : Prop :=
  match op.2 with OpMint i => i_secret i = secret | _ => False end.
End history.

(** ** Lemmas *)
Section lemmas.
Implicit Types (m : gmap key32 Invite).
Context `{T : TextEncoding, TL : !TextEncodingLaws T, C : InviteCodec, CL : !InviteCodecLaws C}.

Definition map_wf (m : gmap key32 Invite) : Prop :=
  map_Forall (fun k i => i_secret i = k /\ invite_wf i) m.

(** Uses the registry or its file still holds for a secret; what a list of invites holds
    is bounded by its largest entry. *)
Definition uses_of (i : Invite) : Z := Z.max 0 (i_uses_remaining i).
Definition uses_in (secret : key32) (m : gmap key32 Invite) : Z :=
  match m !! secret with Some i => uses_of i | None => 0%Z end.
Fixpoint uses_listed (secret : key32) (l : list Invite) : Z :=
  match l with
  | [] => 0%Z
  | i :: l => Z.max (if decide (i_secret i = secret) then uses_of i else 0) (uses_listed secret l)
  end.
Definition uses_on_disk (secret : key32) (l : LiveInvites) : Z :=
  match l_file l with
  | None => 0%Z
  | Some disk => uses_listed secret (file_load disk 0)
  end.

(** What a restart or the running registry can still grant. *)
Definition budget (secret : key32) (l : LiveInvites) : Z :=
  Z.max (uses_in secret (l_inner l)) (uses_on_disk secret l).

Lemma uses_of_pos i : (0 <= uses_of i)%Z.
Proof. unfold uses_of. lia. Qed.

Lemma uses_listed_pos s l : (0 <= uses_listed s l)%Z.
Proof. induction l as [|i l IH]; simpl; [lia|]. lia. Qed.

Lemma budget_pos s l : (0 <= budget s l)%Z.
Proof.
  unfold budget, uses_in. destruct (l_inner l !! s) as [i|]; [pose proof (uses_of_pos i)|]; lia.
Qed.

Lemma uses_listed_elem s l i : i ∈ l -> i_secret i = s -> (uses_of i <= uses_listed s l)%Z.
Proof.
  induction l as [|j l IH]; [by intros ?%elem_of_nil|].
  intros [-> | Hi]%elem_of_cons Hs; simpl; [rewrite decide_True by done; lia|].
  specialize (IH Hi Hs). lia.
Qed.

Lemma uses_listed_le s l n :
  (0 <= n)%Z -> (forall i, i ∈ l -> i_secret i = s -> (uses_of i <= n)%Z) -> (uses_listed s l <= n)%Z.
Proof.
  intros Hn. induction l as [|i l IH]; simpl; intros Hl; [done|].
  apply Z.max_lub; [|apply IH; intros; apply Hl; [by right|done]].
  case_decide; [|done]. apply Hl; [left|done].
Qed.

Lemma elem_of_values m i : i ∈ values m <-> exists k, m !! k = Some i.
Proof.
  unfold values. rewrite list_elem_of_fmap. split.
  - intros ([k j] & -> & Hk%elem_of_map_to_list). eauto.
  - intros [k Hk]. exists (k, i). by rewrite elem_of_map_to_list.
Qed.

Lemma by_secret_lookup_gen l m k i :
  foldl (fun m i => <[i_secret i := i]> m) m l !! k = Some i ->
  (i ∈ l /\ i_secret i = k) \/ m !! k = Some i.
Proof.
  revert m; induction l as [|j l IH]; intros m; simpl; [by right|].
  intros [[? ?]|Hm]%IH; [left; split; [by right|done]|].
  apply lookup_insert_Some in Hm as [[<- <-]|[_ ?]]; [left; split; [left|done]|by right].
Qed.

Lemma by_secret_lookup l k i : by_secret l !! k = Some i -> i ∈ l /\ i_secret i = k.
Proof. intros [?|?]%by_secret_lookup_gen; [done|by simplify_map_eq]. Qed.

Lemma by_secret_wf l : Forall invite_wf l -> map_wf (by_secret l).
Proof.
  intros Hl k i [Hi <-]%by_secret_lookup. split; [done|]. by eapply Forall_forall in Hl.
Qed.

Lemma by_secret_uses s l : (uses_in s (by_secret l) <= uses_listed s l)%Z.
Proof.
  unfold uses_in. destruct (by_secret l !! s) as [i|] eqn:Hs; [|apply uses_listed_pos].
  apply by_secret_lookup in Hs as [? ?]. by apply uses_listed_elem.
Qed.

Lemma values_wf m : map_wf m -> Forall invite_wf (values m).
Proof. intros Hm. apply Forall_forall. intros i [k Hk]%elem_of_values. by apply Hm in Hk as [_ ?]. Qed.

Lemma values_uses s m : map_wf m -> uses_listed s (values m) = uses_in s m.
Proof.
  intros Hm. unfold uses_in. apply Z.le_antisymm.
  - apply uses_listed_le; [destruct (m !! s); [apply uses_of_pos|done]|].
    intros i [k Hk]%elem_of_values Hs. destruct (Hm _ _ Hk) as [<- _]. by rewrite <- Hs, Hk.
  - destruct (m !! s) as [i|] eqn:Hs; [|apply uses_listed_pos].
    destruct (Hm _ _ Hs) as [<- _]. apply uses_listed_elem; [|done]. apply elem_of_values. eauto.
Qed.

Lemma live_zero l : Forall invite_wf l -> filter (live 0) l = l.
Proof.
  induction 1 as [|i l [Hi _] _ IH]; [done|]. rewrite filter_cons_True by (unfold live; lia).
  by rewrite IH.
Qed.

(** What the written file reads back as. *)
Lemma file_load_values m : map_wf m -> file_load (Some (invites_to_vec (values m))) 0 = values m.
Proof.
  intros Hm. unfold file_load. rewrite invites_from_to by by apply values_wf.
  by apply live_zero, values_wf.
Qed.

Lemma file_load_incl disk now i : i ∈ file_load disk now -> i ∈ file_load disk 0 /\ live now i.
Proof.
  unfold file_load. destruct disk as [b|]; [|by intros ?%elem_of_nil].
  destruct (invites_from_slice b) as [l|] eqn:Hl; [|by intros ?%elem_of_nil].
  intros [Hn Hi]%list_elem_of_filter. rewrite live_zero by by eapply invites_from_wf. done.
Qed.

Lemma file_load_wf disk now : Forall invite_wf (file_load disk now).
Proof.
  unfold file_load. destruct disk as [b|]; [|done].
  destruct (invites_from_slice b) as [l|] eqn:Hl; [|done].
  apply Forall_forall. intros i [_ Hi]%list_elem_of_filter.
  by eapply Forall_forall in Hi; [|by eapply invites_from_wf].
Qed.

(** After a persisted operation the file holds what the map holds. *)
Lemma persist_spec io m l r l' :
  map_wf m -> persist io (values m) (set_inner m l) = (r, l') ->
  l_inner l' = m /\
  ((r = Ok () /\ forall s, (uses_on_disk s l' <= uses_in s m)%Z) \/
   (is_ok r = false /\ l_file l' = l_file l)).
Proof.
  intros Hm. unfold persist, set_inner; simpl. destruct (l_file l) as [disk|] eqn:Hf.
  - destruct (io Store); intros [= <- <-]; simpl; (split; [done|]); [by right|left].
    split; [done|]. intros s. unfold uses_on_disk. cbn [l_file].
    by rewrite file_load_values, values_uses.
  - intros [= <- <-]. simpl. split; [done|]. left. split; [done|]. intros s.
    unfold uses_on_disk, uses_in. simpl. destruct (m !! s) as [i|]; [apply uses_of_pos|done].
Qed.
Lemma by_secret_dom l m k :
  is_Some (m !! k) \/ (exists i, i ∈ l /\ i_secret i = k) ->
  is_Some (foldl (fun m i => <[i_secret i := i]> m) m l !! k).
Proof.
  revert m; induction l as [|j l IH]; intros m; simpl.
  - intros [?|(i & Hi%elem_of_nil & _)]; done.
  - intros H. apply IH. destruct (decide (i_secret j = k)) as [<-|Hne].
    { left. by rewrite lookup_insert_eq. }
    rewrite lookup_insert_ne by done.
    destruct H as [?|(i & [-> | ?]%elem_of_cons & ?)]; [by left|done|right; eauto].
Qed.

Lemma by_secret_values m : map_wf m -> by_secret (values m) = m.
Proof.
  intros Hm. apply map_eq. intros k. apply option_eq. intros i. split.
  - intros [[k' Hi]%elem_of_values <-]%by_secret_lookup. by destruct (Hm _ _ Hi) as [-> _].
  - intros Hi. destruct (Hm _ _ Hi) as [Hs _].
    destruct (by_secret_dom (values m) ∅ k) as [j Hj].
    { right. exists i. split; [apply elem_of_values; eauto|done]. }
    pose proof Hj as [[k' Hk']%elem_of_values Hk]%by_secret_lookup.
    destruct (Hm _ _ Hk') as [Hs' _]. unfold by_secret. rewrite Hj. congruence.
Qed.

(** The file, if there is one, reads back as exactly the registry. *)
Definition recorded (l : LiveInvites) : Prop :=
  match l_file l with None => True | Some disk => by_secret (file_load disk 0) = l_inner l end.

Lemma persist_recorded io m l r l' :
  map_wf m -> persist io (values m) (set_inner m l) = (r, l') ->
  l_inner l' = m /\ match r with Ok _ => recorded l' | Err _ => l_file l' = l_file l end.
Proof.
  intros Hm. unfold persist, set_inner, recorded; simpl. destruct (l_file l) as [disk|].
  - destruct (io Store); intros [= <- <-]; (split; [done|]); [done|]. cbn [l_file].
    by rewrite file_load_values, by_secret_values.
  - by intros [= <- <-].
Qed.

Lemma with_uses_eta e : with_uses (i_uses_remaining e) e = e.
Proof. by destruct e. Qed.

(** The invite left behind by one redemption: none when it was the last use. *)
Definition spent (e : Invite) (m : gmap key32 Invite) : gmap key32 Invite :=
  let e' := with_uses (i_uses_remaining e - 1) e in
  if decide (i_uses_remaining e = 1%Z) then delete (i_secret e) m else <[i_secret e := e']> m.

Lemma redeem_step_Some m k now o m' :
  map_wf m -> redeem_step m k now = Some (o, m') ->
  exists e, m !! k = Some e /\ i_secret e = k /\ invite_wf e /\
    ((o = Expired /\ m' = delete k m /\ ~ live now e) \/
     (o = RedeemOk (with_uses (i_uses_remaining e - 1) e) /\ m' = spent e m /\ live now e /\
      (1 <= i_uses_remaining e)%Z)).
Proof.
  intros Hm. unfold redeem_step, spent, u32_checked_sub.
  destruct (m !! k) as [e|] eqn:He; [|done]. destruct (Hm _ _ He) as [<- Hwf].
  intros H. exists e. split_and!; try done. case_decide as Hl.
  - right. destruct (Z.ltb_spec (i_uses_remaining e) 1); [done|].
    case_decide as Hz; [rewrite decide_True by lia|rewrite decide_False by lia];
      simplify_eq; by split_and!.
  - left. by simplify_eq.
Qed.

Lemma redeem_step_None m k now :
  redeem_step m k now = None ->
  forall e, m !! k = Some e -> live now e /\ (i_uses_remaining e < 1)%Z.
Proof.
  unfold redeem_step, u32_checked_sub. intros H e He. rewrite He in H. case_decide; [|done].
  destruct (Z.ltb_spec (i_uses_remaining e) 1); [done|]. by case_decide.
Qed.

Lemma spent_wf e m : map_wf m -> invite_wf e -> (1 <= i_uses_remaining e)%Z -> map_wf (spent e m).
Proof.
  intros Hm [? ?] ?. unfold spent. case_decide; [by apply map_Forall_delete|].
  apply map_Forall_insert_2; [|done]. split; [done|]. split; simpl; [done|lia].
Qed.

Lemma spent_restore e m : m !! i_secret e = Some e -> <[i_secret e := e]> (spent e m) = m.
Proof.
  intros He. unfold spent. case_decide.
  - rewrite insert_delete_eq. by apply insert_id.
  - rewrite insert_insert_eq. by apply insert_id.
Qed.

Lemma spent_uses s e m :
  m !! i_secret e = Some e -> (1 <= i_uses_remaining e)%Z ->
  uses_in s (spent e m) = (uses_in s m - if decide (i_secret e = s) then 1 else 0)%Z.
Proof.
  intros He Hu. unfold uses_in, spent. case_decide as H1; (case_decide as Hs; [subst s|]).
  - rewrite lookup_delete_eq, He. unfold uses_of. lia.
  - rewrite lookup_delete_ne by done. lia.
  - rewrite lookup_insert_eq, He. unfold uses_of. simpl. lia.
  - rewrite lookup_insert_ne by done. lia.
Qed.

(** Every outcome of a redemption, with the registry and the file it leaves. *)
Definition redeem_post (l : LiveInvites) (k : key32) (now : Z) (o : Redeem) (l' : LiveInvites) : Prop :=
  match o with
  | Unknown => l' = l /\ forall e, l_inner l !! k = Some e -> live now e /\ i_uses_remaining e = 0%Z
  | Expired => exists e, l_inner l !! k = Some e /\ ~ live now e /\
      l_inner l' = delete k (l_inner l) /\ recorded l'
  | RedeemOk i => exists e, l_inner l !! k = Some e /\ live now e /\ (1 <= i_uses_remaining e)%Z /\
      i = with_uses (i_uses_remaining e - 1) e /\ l_inner l' = spent e (l_inner l) /\ recorded l'
  | Unavailable => exists e, l_inner l !! k = Some e /\ l_file l' = l_file l /\
      (live now e /\ l' = l \/ ~ live now e /\ l_inner l' = delete k (l_inner l))
  end.

Lemma try_redeem_post io l k now o l' :
  map_wf (l_inner l) -> try_redeem io l k now = (o, l') ->
  map_wf (l_inner l') /\ redeem_post l k now o l'.
Proof.
  intros Hm. unfold try_redeem. destruct (redeem_step _ _ _) as [[o1 m']|] eqn:Hr.
  2: { intros [= <- <-]. split; [done|]. split; [done|]. intros e He.
       destruct (redeem_step_None _ _ _ Hr e He). destruct (Hm _ _ He) as [_ [_ ?]].
       split; [done|lia]. }
  destruct (redeem_step_Some _ _ _ _ _ Hm Hr)
    as (e & He & Hs & Hwf & [(-> & -> & Hl)|(-> & -> & Hl & Hu)]);
    destruct (persist io _ _) as [r l1] eqn:Hp;
    (apply persist_recorded in Hp as [Hi Hrec]; [|first [by apply map_Forall_delete|by apply spent_wf]]);
    destruct r as [[]|err]; intros [= <- <-].
  - split; [rewrite Hi; by apply map_Forall_delete|]. exists e. by rewrite Hi.
  - split; [rewrite Hi; by apply map_Forall_delete|]. exists e. split_and!; try done.
    right. by rewrite Hi.
  - split; [rewrite Hi; by apply spent_wf|]. exists e. rewrite Hi. by split_and!.
  - subst k. assert (Heq : with_uses (u32_saturating_add (i_uses_remaining e - 1) 1) (with_uses (i_uses_remaining e - 1) e) = e).
    { destruct e as [? ? ? ? ? ? ? ? ? n], Hwf. unfold with_uses, u32_saturating_add, clamp.
      simpl in *. f_equal. lia. }
    rewrite Heq. unfold set_inner. rewrite Hi, spent_restore by done. cbn [l_inner l_file].
    split; [done|]. exists e. split_and!; try done. left. split; [done|].
    rewrite Hrec. by destruct l.
Qed.

(** No operation but a mint of the same secret raises what is left of it, and a
    redemption lowers it by one. *)
Lemma budget_le s l l' :
  (uses_in s (l_inner l') <= budget s l)%Z -> (uses_on_disk s l' <= budget s l)%Z ->
  (budget s l' <= budget s l)%Z.
Proof. unfold budget. lia. Qed.

Lemma uses_in_delete s k m : (uses_in s (delete k m) <= uses_in s m)%Z.
Proof.
  unfold uses_in. destruct (decide (k = s)) as [->|Hne].
  - rewrite lookup_delete_eq. destruct (m !! s) as [i|]; [apply uses_of_pos|done].
  - by rewrite lookup_delete_ne.
Qed.

Lemma uses_in_filter s now m : (uses_in s (filter (fun kv => live now kv.2) m) <= uses_in s m)%Z.
Proof.
  unfold uses_in. destruct (filter _ m !! s) as [i|] eqn:Hi.
  - apply map_lookup_filter_Some in Hi as [-> _]. done.
  - destruct (m !! s) as [i|]; [apply uses_of_pos|done].
Qed.

Lemma redeem_budget io l k now o l' s :
  map_wf (l_inner l) -> try_redeem io l k now = (o, l') ->
  (budget s l' + match o with RedeemOk _ => if decide (k = s) then 1 else 0 | _ => 0 end
    <= budget s l)%Z.
Proof.
  intros Hm. unfold try_redeem. destruct (redeem_step _ _ _) as [[o1 m']|] eqn:Hr.
  2: { intros [= <- <-]. lia. }
  destruct (redeem_step_Some _ _ _ _ _ Hm Hr)
    as (e & He & Hs & Hwf & [(-> & -> & Hl)|(-> & -> & Hl & Hu)]).
  - assert (Hd : map_wf (delete k (l_inner l))) by by apply map_Forall_delete.
    destruct (persist io _ _) as [r l1] eqn:Hp. apply persist_spec in Hp as [Hi Hp]; [|done].
    pose proof (uses_in_delete s k (l_inner l)).
    destruct Hp as [[-> Hdisk]|[Hr' Hf]].
    + intros [= <- <-]. specialize (Hdisk s). unfold budget. rewrite Hi. lia.
    + destruct r; [done|]. intros [= <- <-]. unfold budget, uses_on_disk. rewrite Hi, Hf. lia.
  - destruct (persist io _ _) as [r l1] eqn:Hp.
    apply persist_spec in Hp as [Hi Hp]; [|by apply spent_wf]. subst k.
    destruct Hp as [[-> Hdisk]|[Hr' Hf]].
    + intros [= <- <-]. specialize (Hdisk s). rewrite spent_uses in Hdisk by done.
      unfold budget. rewrite Hi, spent_uses by done.
      assert (uses_in (i_secret e) (l_inner l) = uses_of e) as Hus by (unfold uses_in; by rewrite He).
      unfold uses_of in Hus. pose proof (budget_pos s l). unfold budget in *.
      case_decide; [subst s|]; lia.
    + destruct r; [done|]. intros [= <- <-]. unfold budget, uses_on_disk, set_inner.
      cbn [l_inner l_file]. rewrite Hi, Hf.
      assert (Hge : (uses_in s (<[i_secret e:=with_uses (u32_saturating_add (i_uses_remaining e - 1) 1)
        (with_uses (i_uses_remaining e - 1) e)]> (spent e (l_inner l))) <= uses_in s (l_inner l))%Z).
      { unfold uses_in. destruct (decide (i_secret e = s)) as [<-|Hne].
        - rewrite lookup_insert_eq, He. unfold uses_of, u32_saturating_add, clamp. simpl. lia.
        - rewrite lookup_insert_ne by done. unfold spent. case_decide;
            rewrite ?lookup_delete_ne, ?lookup_insert_ne by done; lia. }
      lia.
Qed.
Lemma mint_budget io l i r l' s :
  map_wf (l_inner l) -> invite_wf i -> mint io l i = (r, l') ->
  map_wf (l_inner l') /\ (i_secret i <> s -> (budget s l' <= budget s l)%Z) /\
  (r = Ok () -> (budget (i_secret i) l' <= uses_of i)%Z).
Proof.
  intros Hm Hi. unfold mint.
  assert (Hm' : map_wf (<[i_secret i := i]> (l_inner l))) by by apply map_Forall_insert_2.
  destruct (persist io _ _) as [r1 l1] eqn:Hp. apply persist_spec in Hp as [Hin Hp]; [|done].
  assert (Hother : i_secret i <> s ->
    uses_in s (<[i_secret i := i]> (l_inner l)) = uses_in s (l_inner l)).
  { intros. unfold uses_in. by rewrite lookup_insert_ne. }
  assert (Hself : uses_in (i_secret i) (<[i_secret i := i]> (l_inner l)) = uses_of i).
  { unfold uses_in. by rewrite lookup_insert_eq. }
  destruct Hp as [[-> Hdisk]|[Hr Hf]].
  - intros [= <- <-]. unfold budget. rewrite Hin. split; [done|]. split.
    + intros Hne. specialize (Hdisk s). rewrite Hother in * by done. lia.
    + intros _. specialize (Hdisk (i_secret i)). rewrite Hself in *. lia.
  - destruct r1; [done|]. intros [= <- <-]. unfold set_inner, budget, uses_on_disk.
    cbn [l_inner l_file]. rewrite Hin, Hf. split.
    + destruct (l_inner l !! i_secret i) as [prev|] eqn:Hprev.
      * apply map_Forall_insert_2; [by apply Hm|done].
      * by apply map_Forall_delete.
    + split; [|done]. intros Hne.
      assert (uses_in s (match l_inner l !! i_secret i with
        | Some prev => <[i_secret i := prev]> (<[i_secret i := i]> (l_inner l))
        | None => delete (i_secret i) (<[i_secret i := i]> (l_inner l)) end)
        = uses_in s (l_inner l)) as ->; [|lia].
      unfold uses_in. destruct (l_inner l !! i_secret i);
        by rewrite ?lookup_insert_ne, ?lookup_delete_ne, ?lookup_insert_ne by done.
Qed.

Lemma reap_budget io l now s :
  map_wf (l_inner l) ->
  map_wf (l_inner (remove_expired io l now)) /\
  (budget s (remove_expired io l now) <= budget s l)%Z.
Proof.
  intros Hm. unfold remove_expired.
  assert (Hm' : map_wf (filter (fun kv => live now kv.2) (l_inner l)))
    by (intros k i [? _]%map_lookup_filter_Some; by apply Hm).
  pose proof (uses_in_filter s now (l_inner l)). case_decide.
  - split; [done|]. apply budget_le; unfold budget, uses_on_disk, set_inner; cbn [l_inner l_file]; lia.
  - destruct (persist io _ _) as [r l1] eqn:Hp. apply persist_spec in Hp as [Hin Hp]; [|done].
    simpl. split; [by rewrite Hin|].
    destruct Hp as [[-> Hdisk]|[_ Hf]]; unfold budget.
    + specialize (Hdisk s). rewrite Hin. lia.
    + unfold uses_on_disk. rewrite Hin, Hf. lia.
Qed.

Lemma load_budget io disk now s :
  map_wf (l_inner (load io disk now)) /\
  (budget s (load io disk now) <= uses_listed s (file_load disk 0))%Z.
Proof.
  unfold load. cbn [l_inner]. set (live_set := read_file io ReadLive disk now).
  assert (Hwf : Forall invite_wf live_set).
  { unfold live_set, read_file. destruct (io ReadLive); [done|apply file_load_wf]. }
  assert (Hm : map_wf (by_secret live_set)) by by apply by_secret_wf.
  assert (Hle : (uses_in s (by_secret live_set) <= uses_listed s (file_load disk 0))%Z).
  { etrans; [apply by_secret_uses|]. apply uses_listed_le; [apply uses_listed_pos|].
    intros i Hi Hs. unfold live_set, read_file in Hi.
    destruct (io ReadLive); [by apply elem_of_nil in Hi|].
    apply file_load_incl in Hi as [Hi _]. by apply uses_listed_elem. }
  split; [done|]. unfold budget, uses_on_disk. cbn [l_inner l_file].
  destruct (_ && _).
  - rewrite file_load_values, values_uses by done. lia.
  - lia.
Qed.

Lemma invite_step_budget l op l' r s :
  map_wf (l_inner l) -> ~ mints s op -> (forall i, op.2 = OpMint i -> invite_wf i) ->
  invite_step l op = (l', r) ->
  map_wf (l_inner l') /\ ((if decide (r = Some s) then 1 else 0) + budget s l' <= budget s l)%Z.
Proof.
  intros Hm Hn Hw. destruct op as [io [i|k now|now|now]]; simpl.
  - intros [= <- <-]. destruct (mint io l i) as [r l1] eqn:Hmint.
    destruct (mint_budget _ _ _ _ _ s Hm (Hw _ eq_refl) Hmint) as (? & Hle & _). simpl.
    split; [done|]. by apply Hle.
  - destruct (try_redeem io l k now) as [o l1] eqn:Hr.
    pose proof (redeem_budget _ _ _ _ _ _ s Hm Hr) as Hb.
    destruct (try_redeem_post _ _ _ _ _ _ Hm Hr) as [? _].
    destruct o; intros [= <- <-]; (split; [done|]); [|simpl; lia..].
    destruct (decide (k = s)) as [->|]; [rewrite decide_True by done; lia|].
    rewrite decide_False by congruence. lia.
  - intros [= <- <-]. by apply reap_budget.
  - intros [= <- <-]. destruct (l_file l) as [disk|] eqn:Hf; simpl.
    + destruct (load_budget io disk now s) as [? Hle]. split; [done|].
      unfold budget, uses_on_disk at 2. rewrite Hf. unfold budget in Hle. lia.
    + split; [by apply map_Forall_empty|]. unfold budget, uses_in, uses_on_disk at 1. simpl.
      rewrite lookup_empty. pose proof (budget_pos s l). unfold budget, uses_in in *. lia.
Qed.

Lemma redemptions_le l ops s :
  map_wf (l_inner l) -> Forall (fun op => ~ mints s op) ops ->
  Forall (fun op => forall i, op.2 = OpMint i -> invite_wf i) ops ->
  (redemptions s l ops <= budget s l)%Z.
Proof.
  intros Hm Hn Hw. revert l Hm Hw. induction Hn as [|op ops Hop _ IH]; intros l Hm Hw; simpl.
  { apply budget_pos. }
  apply Forall_cons in Hw as [Hw1 Hw].
  destruct (invite_step l op) as [l' r] eqn:Hs.
  destruct (invite_step_budget _ _ _ _ _ Hm Hop Hw1 Hs) as [Hm' Hb].
  specialize (IH l' Hm' Hw). lia.
Qed.
Lemma encode_enrollment i : is_enrollment_line (encode i) = i_as_self i.
Proof.
  unfold is_enrollment_line, encode. destruct (i_as_self i).
  - apply starts_with_spec. eauto.
  - rewrite starts_with_strip. by apply bool_decide_eq_false; intros [? ?].
Qed.

Lemma decode_encode i : invite_wf i -> decode (encode i) = Ok (without_peer_nickname i).
Proof.
  intros Hi. pose proof (encode_enrollment i) as He. unfold is_enrollment_line in He.
  unfold decode. rewrite He.
  assert (match strip_prefix INVITE_SCHEME (encode i) with
          | Some p => Some p | None => strip_prefix ENROLL_SCHEME (encode i) end
    = Some (base32_encode (invite_to_vec (without_peer_nickname i)))) as ->.
  { unfold encode. destruct (i_as_self i); [|by rewrite strip_prefix_app].
    assert (strip_prefix INVITE_SCHEME (ENROLL_SCHEME +:+ base32_encode
      (invite_to_vec (without_peer_nickname i))) = None) as -> by done.
    by rewrite strip_prefix_app. }
  simpl. rewrite base32_decode_encode. simpl. rewrite invite_from_to by done. simpl.
  by rewrite eqb_reflx.
Qed.
End lemmas.

(** ** Properties *)
Section properties.
Context `{T : TextEncoding, TL : !TextEncodingLaws T, C : InviteCodec, CL : !InviteCodecLaws C}.

(** C4: once minted with [n] uses, an invite is never redeemed more than [n] times, over
    any sequence of redemptions, reaps, other mints and restarts, whichever reads and
    writes of the invite file fail. *)
Theorem redemptions_bounded io l i l' ops :
  map_wf (l_inner l) -> invite_wf i -> mint io l i = (Ok (), l') ->
  Forall (fun op => ~ mints (i_secret i) op) ops ->
  Forall (fun op => forall j, op.2 = OpMint j -> invite_wf j) ops ->
  (redemptions (i_secret i) l' ops <= i_uses_remaining i)%Z.
Proof.
  intros Hm Hi Hmint Hn Hw.
  destruct (mint_budget _ _ _ _ _ (i_secret i) Hm Hi Hmint) as (Hm' & _ & Hb).
  pose proof (redemptions_le l' ops _ Hm' Hn Hw). specialize (Hb eq_refl).
  destruct Hi as [_ [? _]]. unfold uses_of in Hb. lia.
Qed.

(** A redemption is granted only off a live invite with a use left, and only when the
    spent use is on disk (for a backed registry the file then reads back as exactly the
    registry); an unknown secret and a refused write of a live one change nothing, and an
    expired invite is only ever removed. *)
Theorem try_redeem_spec io l k now :
  map_wf (l_inner l) ->
  let (o, l') := try_redeem io l k now in
  map_wf (l_inner l') /\ redeem_post l k now o l'.
Proof.
  intros Hm. destruct (try_redeem io l k now) as [o l'] eqn:Hr. by eapply try_redeem_post.
Qed.

(** An invite line decodes to the invite it was made from, less the private alias; and
    of the lines that decode the self-enrollment ones are exactly those the pre-screen
    names. *)
Theorem invite_line_roundtrip i line :
  invite_wf i ->
  decode (encode i) = Ok (without_peer_nickname i) /\
  is_enrollment_line (encode i) = i_as_self i /\
  (forall j, decode line = Ok j -> i_as_self j = is_enrollment_line line).
Proof.
  intros Hi. split_and!; [by apply decode_encode|apply encode_enrollment|].
  intros j. unfold decode, is_enrollment_line. intros (p & Hp & Hj)%bind_Ok. inv_result.
  case_match eqn:Heq; simplify_eq. by apply eqb_prop.
Qed.
End properties.

(** ** A concrete codec *)
Module ToyInvites.
Import Toy ToyRows.

Definition in_range (hi z : Z) : option Z := if ((0 <=? z) && (z <=? hi))%Z then Some z else None.

Definition invite_to (i : Invite) : Value :=
  VArray [key_to (i_secret i); key_to (i_inviter_id i); VString (i_inviter_addr_json i);
          VString (i_nickname i); VArray (map VString (i_services i));
          int_to (i_expires_at_epoch i); opt_to VString (i_app_label i);
          opt_to VString (i_peer_nickname i); VBool (i_as_self i); int_to (i_uses_remaining i)].
Definition invite_of (v : Value) : option Invite :=
  match v with
  | VArray [s; k; VString a; VString n; VArray ss; t; l; p; VBool b; u] =>
      s ← key_of s; k ← key_of k; ss ← mapM as_str ss; t ← int_of t ≫= in_range u64_max;
      l ← opt_of as_str l; p ← opt_of as_str p; u ← int_of u ≫= in_range u32_max;
      Some {| i_secret := s; i_inviter_id := k; i_inviter_addr_json := a; i_nickname := n;
              i_services := ss; i_expires_at_epoch := t; i_app_label := l;
              i_peer_nickname := p; i_as_self := b; i_uses_remaining := u |}
  | _ => None
  end.
Definition invites_of (v : Value) : option (list Invite) := as_array v ≫= mapM invite_of.

#[export] Instance invite_codec : InviteCodec := {|
  invite_to_vec i := print (invite_to i); invite_from_slice := slice invite_of;
  invites_to_vec l := print (VArray (map invite_to l)); invites_from_slice := slice invites_of |}.

Lemma in_range_Some hi z : (0 <= z <= hi)%Z -> in_range hi z = Some z.
Proof. intros. unfold in_range. by rewrite !(proj2 (Z.leb_le _ _)) by lia. Qed.

Lemma in_range_inv hi z z' : in_range hi z = Some z' -> (0 <= z' <= hi)%Z.
Proof. unfold in_range. case_match eqn:H; intros; simplify_eq. lia. Qed.

Lemma invite_of_to i : invite_wf i -> invite_of (invite_to i) = Some i.
Proof.
  intros [? ?]. destruct i as [s k a n ss t l p b u]. unfold invite_of, invite_to.
  cbn -[key_of key_to mapM map]. rewrite !key_of_to. cbn -[mapM map]. rewrite mapM_as_str.
  cbn -[in_range]. rewrite !in_range_Some by done. by destruct l, p.
Qed.

Lemma invite_of_wf v i : invite_of v = Some i -> invite_wf i.
Proof.
  unfold invite_of. intros H. repeat case_match; try done; subst.
  repeat (apply bind_Some in H as (? & ? & H)). simplify_eq.
  repeat match goal with
  | H : int_of _ ≫= in_range _ = Some _ |- _ => apply bind_Some in H as (? & _ & ?%in_range_inv)
  end. by split.
Qed.

#[export] Instance invite_codec_laws : InviteCodecLaws invite_codec.
Proof.
  split.
  - intros i Hi. transitivity (invite_of (invite_to i)); [apply slice_print|by apply invite_of_to].
  - intros l Hl. transitivity (invites_of (VArray (map invite_to l))); [apply slice_print|].
    simpl. apply mapM_Some. rewrite Forall2_fmap_l. apply Forall_Forall2_diag.
    eapply Forall_impl; [exact Hl|]. apply invite_of_to.
  - intros b l. simpl. unfold slice. case_match; [|done]. case_match. case_match; [|done].
    unfold invites_of. intros (vs & _ & Hm)%bind_Some. apply mapM_Some in Hm.
    eapply Forall2_Forall_r; [exact Hm|]. apply Forall_true. intros v0 i. apply invite_of_wf.
Qed.
End ToyInvites.

(** ** Witnesses *)
Module Witness.
Import Toy ToyInvites.

Definition secret : key32 := key_fill Byte.x55.
Definition team_invite : Invite :=
  {| i_secret := secret; i_inviter_id := key_fill Byte.x11; i_inviter_addr_json := "{}";
     i_nickname := "alice"; i_services := ["notes"%string]; i_expires_at_epoch := 1000;
     i_app_label := None; i_peer_nickname := Some "bob"%string; i_as_self := false;
     i_uses_remaining := 2 |}.
Definition full : FileIo := fun op => bool_decide (op = Store).

Lemma in_memory : map_wf (l_inner {| l_inner := ∅; l_file := Some None |}).
Proof. apply map_Forall_empty. Qed.
Lemma team_wf : invite_wf team_invite.
Proof. unfold invite_wf, u64_max, u32_max. simpl. lia. Qed.

Definition minted : LiveInvites :=
  (mint disk_ok {| l_inner := ∅; l_file := Some None |} team_invite).2.

Lemma minted_ok :
  mint disk_ok {| l_inner := ∅; l_file := Some None |} team_invite = (Ok (), minted).
Proof.
  rewrite (surjective_pairing (mint _ _ _)). apply pair_equal_spec; split; reflexivity.
Qed.

(** Two redemptions, one whose write fails, a restart: the third is refused. *)
Definition history : list (FileIo * InviteOp) :=
  [(disk_ok, OpRedeem secret 10); (full, OpRedeem secret 10); (disk_ok, OpRestart 20);
   (disk_ok, OpRedeem secret 30); (disk_ok, OpRestart 40); (disk_ok, OpRedeem secret 50)].

Lemma redemptions_bounded_witness :
  redemptions secret minted history = 2%Z /\
  (redemptions secret minted history <= i_uses_remaining team_invite)%Z.
Proof.
  split; [vm_compute; reflexivity|].
  apply (redemptions_bounded disk_ok {| l_inner := ∅; l_file := Some None |} team_invite
    minted history in_memory team_wf minted_ok).
  - repeat (apply Forall_cons; split; [intros H; exact H|]). apply Forall_nil. exact I.
  - repeat (apply Forall_cons; split; [intros j H; discriminate H|]). apply Forall_nil. exact I.
Defined.

Lemma minted_wf : map_wf (l_inner minted).
Proof.
  exact (proj1 (mint_budget _ _ _ _ _ secret in_memory team_wf minted_ok)).
Qed.

Lemma try_redeem_spec_witness :
  (try_redeem full minted secret 10).1 = Unavailable /\
  map_wf (l_inner (try_redeem full minted secret 10).2).
Proof.
  pose proof (try_redeem_spec full minted secret 10 minted_wf) as H.
  split; [vm_compute; reflexivity|].
  destruct (try_redeem full minted secret 10) as [o l']. exact (proj1 H).
Defined.

Lemma invite_line_roundtrip_witness :
  decode (encode team_invite) = Ok (without_peer_nickname team_invite).
Proof. exact (proj1 (invite_line_roundtrip team_invite "" team_wf)). Defined.
End Witness.
