(* ===== verification/Sas.v ===== *)
(** * Short authentication codes

    [node/src/pairing/sas.rs]: the words two people read to each other after a pairing, and
    the fingerprints of an org root and of a join code. *)
From stdpp Require Import base list gmap strings.
From Stdlib Require Import ZArith Lia Strings.Byte.
From S2P Require Import Prelude Bytes Externals.

Definition WORDS : list string :=
  ["abandon"; "ability"; "able"; "about"; "above"; "absent"; "absorb"; "abstract"; "absurd";
   "abuse"; "access"; "accident"; "account"; "accuse"; "achieve"; "acid"; "acoustic";
   "acquire"; "across"; "act"; "action"; "actor"; "actress"; "actual"; "adapt"; "add";
   "addict"; "address"; "adjust"; "admit"; "adult"; "advance"; "advice"; "aerobic";
   "affair"; "afford"; "afraid"; "again"; "age"; "agent"; "agree"; "ahead"; "aim"; "air";
   "airport"; "aisle"; "alarm"; "album"; "alcohol"; "alert"; "alien"; "all"; "alley";
   "allow"; "almost"; "alone"; "alpha"; "already"; "also"; "alter"; "always"; "amateur";
   "amazing"; "among"; "amount"; "amused"; "analyst"; "anchor"; "ancient"; "anger";
   "angle"; "angry"; "animal"; "ankle"; "announce"; "annual"; "another"; "answer";
   "antenna"; "antique"; "anxiety"; "any"; "apart"; "apology"; "appear"; "apple";
   "approve"; "april"; "arch"; "arctic"; "area"; "arena"; "argue"; "arm"; "armed"; "armor";
   "army"; "around"; "arrange"; "arrest"; "arrive"; "arrow"; "art"; "artefact"; "artist";
   "artwork"; "ask"; "aspect"; "assault"; "asset"; "assist"; "assume"; "asthma"; "athlete";
   "atom"; "attack"; "attend"; "attitude"; "attract"; "auction"; "audit"; "august"; "aunt";
   "author"; "auto"; "autumn"; "average"; "avocado"; "avoid"; "awake"; "aware"; "away";
   "awesome"; "awful"; "awkward"; "axis"; "baby"; "bachelor"; "bacon"; "badge"; "bag";
   "balance"; "balcony"; "ball"; "bamboo"; "banana"; "banner"; "bar"; "barely"; "bargain";
   "barrel"; "base"; "basic"; "basket"; "battle"; "beach"; "bean"; "beauty"; "because";
   "become"; "beef"; "before"; "begin"; "behave"; "behind"; "believe"; "below"; "belt";
   "bench"; "benefit"; "best"; "betray"; "better"; "between"; "beyond"; "bicycle"; "bid";
   "bike"; "bind"; "biology"; "bird"; "birth"; "bitter"; "black"; "blade"; "blame";
   "blanket"; "blast"; "bleak"; "bless"; "blind"; "blood"; "blossom"; "blouse"; "blue";
   "blur"; "blush"; "board"; "boat"; "body"; "boil"; "bomb"; "bone"; "bonus"; "book";
   "boost"; "border"; "boring"; "borrow"; "boss"; "bottom"; "bounce"; "box"; "boy";
   "bracket"; "brain"; "brand"; "brass"; "brave"; "bread"; "breeze"; "brick"; "bridge";
   "brief"; "bright"; "bring"; "brisk"; "broccoli"; "broken"; "bronze"; "broom"; "brother";
   "brown"; "brush"; "bubble"; "buddy"; "budget"; "buffalo"; "build"; "bulb"; "bulk";
   "bullet"; "bundle"; "bunker"; "burden"; "burger"; "burst"; "bus"; "business"; "busy";
   "butter"; "buyer"; "buzz"; "cabbage"; "cabin"; "cable"]%string.

(** [[..].join("-")]. *)
Definition join_words (ws : list string) : string := String.concat "-" ws.

Section sas.
Context `{B : Blake3}.

(** Word [i] of a digest: [WORDS[bytes[i] as usize % n]]; [None] is the panic of an index
    out of range. *)
Definition digest_word (digest : key32) (i : nat) : option string :=
  b ← key_bytes digest !! i;
  WORDS !! (Z.to_nat (byte_val b) mod length WORDS).

Definition digest_words (digest : key32) (n : nat) : option string :=
  join_words <$> mapM (digest_word digest) (seq 0 n).

Definition sas_transcript (id_a id_b secret : key32) : bytes :=
  let '(lo, hi) := if key_leb id_a id_b then (id_a, id_b) else (id_b, id_a) in
  as_bytes "mcpmesh/pair/sas/1" ++ key_bytes lo ++ key_bytes hi ++ key_bytes secret.

Definition short_auth_code (id_a id_b secret : key32) : option string :=
  digest_words (blake3 (sas_transcript id_a id_b secret)) 3.

Definition root_transcript (pk : bytes) : bytes :=
  as_bytes "mcpmesh/roster/org-root-fingerprint/1" ++ pk.
Definition fingerprint_words (pk : bytes) : option string :=
  digest_words (blake3 (root_transcript pk)) 4.

Definition join_transcript (user_pk device_endpoint_id : bytes) : bytes :=
  as_bytes "mcpmesh/join/code-fingerprint/1" ++ user_pk ++ device_endpoint_id.
Definition join_code_fingerprint (user_pk device_endpoint_id : bytes) : option string :=
  digest_words (blake3 (join_transcript user_pk device_endpoint_id)) 4.
End sas.

(** ** Lemmas *)
Lemma words_length : length WORDS = 256%nat.
Proof. vm_compute. reflexivity. Qed.

Lemma key_leb_antisym a b : key_leb a b = true -> key_leb b a = true -> a = b.
Proof. intros H1 H2. apply (inj key_bytes). by apply bytes_leb_antisym. Qed.

Lemma key_leb_false a b : key_leb a b = false -> key_leb b a = true.
Proof. intros H. destruct (bytes_leb_total (key_bytes a) (key_bytes b)); [|done]. unfold key_leb in *. congruence. Qed.

Section lemmas.
Context `{B : Blake3}.

Lemma digest_word_Some d i : (i < 32)%nat -> exists w, digest_word d i = Some w.
Proof.
  intros Hi. unfold digest_word.
  destruct (key_bytes d !! i) as [b|] eqn:Hb.
  - simpl. destruct (WORDS !! _) as [w|] eqn:Hw; [eauto|].
    apply lookup_ge_None in Hw. rewrite words_length in Hw.
    pose proof (Nat.mod_upper_bound (Z.to_nat (byte_val b)) 256). lia.
  - apply lookup_ge_None in Hb. rewrite key_bytes_length in Hb. lia.
Qed.

Lemma digest_words_Some d n : (n <= 32)%nat -> exists s, digest_words d n = Some s.
Proof.
  intros Hn. unfold digest_words.
  assert (is_Some (mapM (digest_word d) (seq 0 n))) as [ws ->].
  { apply mapM_is_Some. apply Forall_forall. intros i Hi%elem_of_seq.
    apply digest_word_Some. lia. }
  simpl. eauto.
Qed.

Lemma sas_transcript_comm a b s : sas_transcript a b s = sas_transcript b a s.
Proof.
  unfold sas_transcript. destruct (key_leb a b) eqn:H1, (key_leb b a) eqn:H2; try done.
  - by rewrite (key_leb_antisym _ _ H1 H2).
  - apply key_leb_false in H1. congruence.
Qed.

Lemma sas_transcript_inj a b s a' b' s' :
  sas_transcript a b s = sas_transcript a' b' s' ->
  s = s' /\ (a = a' /\ b = b' \/ a = b' /\ b = a').
Proof.
  unfold sas_transcript.
  destruct (key_leb a b), (key_leb a' b');
    intros (H1 & H2)%app_inj_1; try done;
    (apply app_inj_1 in H2 as (H2 & H3); [|by rewrite !key_bytes_length]);
    (apply app_inj_1 in H3 as (H3 & H4); [|by rewrite !key_bytes_length]);
    apply (inj key_bytes) in H2, H3, H4; subst; auto.
Qed.
End lemmas.

(** ** Properties *)
Section properties.
Context `{B : Blake3}.

(** The code is always three words of the list, both sides of a pairing read the same
    one, and what is hashed determines the two endpoints and the secret: no other pairing,
    and neither of the fingerprint purposes, shares its transcript. *)
Theorem short_auth_code_spec a b s :
  (exists w, short_auth_code a b s = Some w) /\
  short_auth_code a b s = short_auth_code b a s /\
  (forall a' b' s', sas_transcript a b s = sas_transcript a' b' s' ->
     s = s' /\ (a = a' /\ b = b' \/ a = b' /\ b = a')) /\
  (forall pk, sas_transcript a b s <> root_transcript pk) /\
  (forall pk e, sas_transcript a b s <> join_transcript pk e).
Proof.
  split_and!.
  - apply digest_words_Some. lia.
  - unfold short_auth_code. by rewrite sas_transcript_comm.
  - intros a' b' s'. apply sas_transcript_inj.
  - intros pk. unfold sas_transcript. by destruct (key_leb a b).
  - intros pk e. unfold sas_transcript. by destruct (key_leb a b).
Qed.
End properties.
