(* ===== verification/Recovery.v ===== *)
(** * The recovery phrase of a user key

    [node/src/pairing/recovery.rs]: 32 key bytes as 32 words and a checksum word, and the
    reading of what a person wrote down.

    [str::to_lowercase] is written out for the characters whose lower case is a letter of
    the alphabet of the words: [A] to [Z] and the Kelvin sign.  Any other character keeps a
    word outside the alphabet, whatever it becomes. *)
From stdpp Require Import base list strings.
From Stdlib Require Import ZArith Lia Strings.Byte.
From S2P Require Import Prelude Bytes Digits Externals Sas.

Definition KEY_WORDS : nat := 32.
Definition PHRASE_WORDS : nat := KEY_WORDS + 1.

(** ** Text *)

(** [str::split_whitespace]: a step takes at least one byte, so the length is fuel enough. *)
Fixpoint split_ws (fuel : nat) (acc b : bytes) : list bytes :=
  match fuel with
  | O => [acc]
  | S fuel =>
      match drop_one whitespace b with
      | Some rest => acc :: split_ws fuel [] rest
      | None => match b with [] => [acc] | c :: b => split_ws fuel (acc ++ [c]) b end
      end
  end.
Definition split_whitespace (b : bytes) : list bytes :=
  filter (fun w => w <> []) (split_ws (S (length b)) [] b).

Definition is_ascii_upper (c : byte) : bool := ((65 <=? byte_val c) && (byte_val c <=? 90))%Z.
Definition is_ascii_lower (c : byte) : bool := ((97 <=? byte_val c) && (byte_val c <=? 122))%Z.
Definition is_ascii_alphabetic (c : byte) : bool := is_ascii_upper c || is_ascii_lower c.

Fixpoint skip_while (p : byte -> bool) (b : bytes) : bytes :=
  match b with
  | c :: rest => if p c then skip_while p rest else b
  | [] => []
  end.
(** [trim_matches(|c| !c.is_ascii_alphabetic())]: no byte of a longer character is one. *)
Definition trim_to_letters (b : bytes) : bytes :=
  let b := skip_while (fun c => negb (is_ascii_alphabetic c)) b in
  reverse (skip_while (fun c => negb (is_ascii_alphabetic c)) (reverse b)).

Fixpoint to_lowercase (b : bytes) : bytes :=
  match b with
  | Byte.xe2 :: ((Byte.x84 :: Byte.xaa :: rest) as _tail) => Byte.x6b :: to_lowercase rest
  | c :: rest => (if is_ascii_upper c then byte_of (byte_val c + 32) else c) :: to_lowercase rest
  | [] => []
  end.

(** The words of a phrase as they are looked up. *)
Definition spoken (phrase : string) : list bytes :=
  filter (fun w => w <> [])
    ((fun w => to_lowercase (trim_to_letters w)) <$> split_whitespace (as_bytes phrase)).

(** ** The codec *)

(** [WORDS[b as usize]]: the list has 256 words. *)
Definition word (b : byte) : string := default ""%string (WORDS !! Z.to_nat (byte_val b)).

(** [key[i] = b]. *)
Definition key_set (i : nat) (b : byte) (k : key32) : key32 :=
  default k (try_key32 (<[i := b]> (key_bytes k))).

Section codec.
Context `{B : Blake3}.

Definition checksum (key : key32) : byte := default Byte.x00 (key_bytes (blake3 (key_bytes key)) !! 0%nat).

Definition phrase_words (key : key32) : list string := (word <$> key_bytes key) ++ [word (checksum key)].
Definition encode (key : key32) : string := String.concat " " (phrase_words key).

Fixpoint read_words (i : nat) (words : list bytes) (key : key32) : result string key32 :=
  match words with
  | [] => Ok key
  | w :: words =>
      idx ← ok_or "not a recovery word"%string (position (fun c => bool_decide (as_bytes c = w)) WORDS);
      let b := byte_of (Z.of_nat idx) in
      if Nat.ltb i KEY_WORDS then read_words (S i) words (key_set i b key)
      else if decide (b = checksum key) then read_words (S i) words key
      else Err "the recovery phrase's checksum word does not match"%string
  end.

Definition decode (phrase : string) : result string key32 :=
  let words := spoken phrase in
  if decide (length words = PHRASE_WORDS) then read_words 0 words (key_fill Byte.x00)
  else Err "a recovery phrase is 33 words"%string.
End codec.

(** ** The alphabet *)
Lemma WORDS_nodup : NoDup WORDS.
Proof. apply (bool_decide_eq_true_1 _). vm_compute. reflexivity. Qed.

Lemma WORDS_lower : forallb (fun w => negb (String.eqb w "") && forallb is_ascii_lower (as_bytes w)) WORDS = true.
Proof. vm_compute. reflexivity. Qed.

Lemma word_lookup b : WORDS !! Z.to_nat (byte_val b) = Some (word b).
Proof.
  unfold word. pose proof (byte_val_bound b). destruct (WORDS !! Z.to_nat (byte_val b)) eqn:E; [done|].
  apply lookup_ge_None in E. rewrite words_length in E. lia.
Qed.

Lemma word_letters b : word b <> ""%string /\ forallb is_ascii_lower (as_bytes (word b)) = true.
Proof.
  pose proof WORDS_lower as Hl. rewrite forallb_forall in Hl.
  specialize (Hl (word b)). rewrite <- list_elem_of_In in Hl.
  specialize (Hl (list_elem_of_lookup_2 _ _ _ (word_lookup b))). apply andb_true_iff in Hl as [Hn Hl].
  split; [|done]. intros Hw. by rewrite Hw in Hn.
Qed.

(** A text is the word of one byte at most. *)
Lemma position_word w idx :
  position (fun c => bool_decide (as_bytes c = w)) WORDS = Some idx <->
  (idx < 256)%nat /\ w = as_bytes (word (byte_of (Z.of_nat idx))).
Proof.
  assert (Hin : forall idx c, WORDS !! idx = Some c -> (idx < 256)%nat /\ word (byte_of (Z.of_nat idx)) = c).
  { intros i c Hc. pose proof (lookup_lt_Some _ _ _ Hc) as Hi. rewrite words_length in Hi. split; [done|].
    unfold word. rewrite byte_val_of, Z.mod_small, Nat2Z.id by lia. by rewrite Hc. }
  split.
  - intros (c & Hc & Hw)%position_Some. apply bool_decide_eq_true in Hw. destruct (Hin _ _ Hc) as [? <-]. done.
  - intros [Hi ->]. destruct (position _ WORDS) as [j|] eqn:E.
    + apply position_Some in E as (c & Hc & Hw). apply bool_decide_eq_true, (inj as_bytes) in Hw.
      f_equal. apply (NoDup_lookup WORDS j idx c); [apply WORDS_nodup|done|]. rewrite Hw.
      rewrite <- word_lookup. rewrite byte_val_of, Z.mod_small, Nat2Z.id by lia. done.
    + rewrite position_None, Forall_forall in E.
      specialize (E _ (list_elem_of_lookup_2 _ _ _ (word_lookup (byte_of (Z.of_nat idx))))).
      by apply bool_decide_eq_false in E.
Qed.

Lemma byte_of_inj i j : (i < 256)%nat -> (j < 256)%nat -> byte_of (Z.of_nat i) = byte_of (Z.of_nat j) -> i = j.
Proof. intros Hi Hj H. apply (f_equal byte_val) in H. rewrite !byte_val_of, !Z.mod_small in H by lia. lia. Qed.

Lemma position_byte b : position (fun c => bool_decide (as_bytes c = as_bytes (word b))) WORDS = Some (Z.to_nat (byte_val b)).
Proof.
  pose proof (byte_val_bound b). apply position_word. split; [lia|]. by rewrite Z2Nat.id, byte_of_val by lia.
Qed.

(** ** Reading words back *)
Lemma key_set_bytes i b k : key_bytes (key_set i b k) = <[i := b]> (key_bytes k).
Proof.
  unfold key_set. destruct (try_key32 _) as [k'|] eqn:E; [by apply try_key32_Some in E|].
  assert (Hl : length (<[i := b]> (key_bytes k)) = 32%nat) by by rewrite length_insert, key_bytes_length.
  unfold try_key32 in E. case_decide as Hn; [done|]. rewrite Hl in Hn. by destruct Hn.
Qed.

Section laws.
Context `{B : Blake3}.

Lemma read_words_spec i words key k :
  (i <= 32)%nat -> length words = (33 - i)%nat ->
  read_words i words key = Ok k <->
  exists bs, key_bytes k = take i (key_bytes key) ++ bs /\ words = as_bytes <$> ((word <$> bs) ++ [word (checksum k)]).
Proof.
  revert i key. induction words as [|w words IH]; intros i key Hi Hl; [simpl in Hl; lia|].
  simpl in Hl. assert (Hlen : forall bs : bytes, key_bytes k = take i (key_bytes key) ++ bs -> length bs = (32 - i)%nat).
  { intros bs Hk. apply (f_equal length) in Hk. rewrite length_app, key_bytes_length, length_take, key_bytes_length in Hk. lia. }
  cbn [read_words]. rewrite bind_Ok. split.
  - intros (idx & Hp%ok_or_Ok & Hr). apply position_word in Hp as [Hx ->]. cbv zeta in Hr.
    unfold KEY_WORDS in Hr. destruct (Nat.ltb_spec i 32).
    + apply IH in Hr as (bs & Hk & ->); [|lia..]. rewrite key_set_bytes in Hk.
      rewrite (take_S_r _ _ (byte_of (Z.of_nat idx))), take_insert_ge, <- app_assoc in Hk
        by (done || by rewrite list_lookup_insert_eq by (rewrite key_bytes_length; lia)).
      eexists. split; [exact Hk|]. done.
    + assert (i = 32)%nat as -> by lia. destruct words; [|simpl in Hl; lia]. destruct (decide _) as [Hc|]; [|done].
      simpl in Hr. injection Hr as ->. exists []. rewrite app_nil_r, take_ge by (rewrite key_bytes_length; lia).
      split; [done|]. by rewrite Hc.
  - intros (bs & Hk & Hw). pose proof (Hlen _ Hk) as Hb. unfold KEY_WORDS. destruct bs as [|b bs].
    + simpl in Hw, Hb. injection Hw as -> ->. assert (i = 32)%nat as -> by lia.
      exists (Z.to_nat (byte_val (checksum k))). rewrite position_byte. split; [done|]. cbv zeta.
      pose proof (byte_val_bound (checksum k)). rewrite Z2Nat.id, byte_of_val by lia. cbn [Nat.ltb Nat.leb].
      rewrite app_nil_r, take_ge in Hk by (rewrite key_bytes_length; lia). apply key32_eq in Hk as ->.
      by rewrite decide_True by done.
    + simpl in Hw, Hb. injection Hw as -> ->. exists (Z.to_nat (byte_val b)). rewrite position_byte. split; [done|]. cbv zeta.
      pose proof (byte_val_bound b). rewrite Z2Nat.id, byte_of_val by lia. destruct (Nat.ltb_spec i 32); [|lia].
      apply IH; [lia|simpl in Hl; lia|]. exists bs. split; [|done]. rewrite key_set_bytes, Hk.
      rewrite (take_S_r _ _ b), take_insert_ge, <- app_assoc
        by (done || by rewrite list_lookup_insert_eq by (rewrite key_bytes_length; lia)). done.
Qed.

Lemma decode_words phrase k : decode phrase = Ok k <-> spoken phrase = as_bytes <$> phrase_words k.
Proof.
  unfold decode, phrase_words. split.
  - destruct (decide _) as [Hl|]; [|done]. intros H.
    apply read_words_spec in H as (bs & Hk & ->); [|lia|by rewrite Hl]. simpl in Hk. by rewrite Hk.
  - intros Hs. assert (Hl : length (spoken phrase) = PHRASE_WORDS).
    { rewrite Hs, length_fmap, length_app, length_fmap, key_bytes_length. done. }
    rewrite decide_True by done. apply read_words_spec; [lia|by rewrite Hl|]. by exists (key_bytes k).
Qed.
End laws.

(** ** Writing a phrase down *)
Lemma drop_one_letter c b : is_ascii_lower c = true -> drop_one whitespace (c :: b) = None.
Proof.
  intros Hc. apply drop_one_none.
  assert (Hw : Forall (fun w : bytes => match w with x :: _ => is_ascii_lower x = false | [] => False end) whitespace)
    by (vm_compute; repeat constructor).
  eapply Forall_impl; [exact Hw|]. intros [|x w]; [done|]. intros Hx. split; [|done]. simpl. congruence.
Qed.

Lemma split_ws_word fuel acc w rest :
  forallb is_ascii_lower w = true -> split_ws (length w + fuel) acc (w ++ rest) = split_ws fuel (acc ++ w) rest.
Proof.
  revert acc. induction w as [|c w IH]; intros acc Hw; [by rewrite app_nil_r|].
  apply andb_true_iff in Hw as [Hc Hw]. cbn [length Nat.add app split_ws]. rewrite drop_one_letter by done.
  rewrite IH by done. by rewrite <- app_assoc.
Qed.

Definition spoken_word (w : string) : Prop := w <> ""%string /\ forallb is_ascii_lower (as_bytes w) = true.

Lemma concat_cons2 (w v : string) (ws : list string) :
  as_bytes (String.concat " " (w :: v :: ws)) = as_bytes w ++ Byte.x20 :: as_bytes (String.concat " " (v :: ws)).
Proof. cbn [String.concat]. by rewrite !as_bytes_app. Qed.

Lemma split_ws_words (ws : list string) fuel :
  ws <> [] -> Forall spoken_word ws ->
  split_ws (S (length (as_bytes (String.concat " " ws))) + fuel) [] (as_bytes (String.concat " " ws)) = as_bytes <$> ws.
Proof.
  intros Hne Hws. revert fuel. induction ws as [|w ws IH]; [done|]. intros fuel. apply Forall_cons in Hws as [[Hw Hl] Hws].
  destruct ws as [|v ws].
  - cbn [String.concat]. rewrite <- (app_nil_r (as_bytes w)) at 2.
    replace (S (length (as_bytes w)) + fuel)%nat with (length (as_bytes w) + S fuel)%nat by lia.
    by rewrite split_ws_word.
  - rewrite concat_cons2, length_app. cbn [length].
    set (tail := as_bytes (String.concat " " (v :: ws))) in *.
    replace (S (length (as_bytes w) + S (length tail)) + fuel)%nat
      with (length (as_bytes w) + S (S (length tail) + fuel))%nat by lia.
    rewrite split_ws_word by done. cbn [split_ws].
    change (drop_one whitespace (Byte.x20 :: tail)) with (Some tail). cbv iota.
    rewrite IH by done. done.
Qed.

Lemma skip_none p c b : p c = false -> skip_while p (c :: b) = c :: b.
Proof. intros H. simpl. by rewrite H. Qed.

Lemma letters_kept w : forallb is_ascii_lower w = true -> w <> [] -> to_lowercase (trim_to_letters w) = w.
Proof.
  intros Hw Hn. assert (Ht : forall b, forallb is_ascii_lower b = true ->
    skip_while (fun c => negb (is_ascii_alphabetic c)) b = b).
  { intros [|c b]; [done|]. intros [Hc _]%andb_true_iff. apply skip_none. unfold is_ascii_alphabetic.
    by rewrite Hc, orb_true_r. }
  unfold trim_to_letters. rewrite (Ht w) by done. rewrite (Ht (reverse w)); [rewrite reverse_involutive|].
  - clear -Hw. induction w as [|c w IH]; [done|]. apply andb_true_iff in Hw as [Hc Hw].
    assert (Hs : to_lowercase (c :: w) = (if is_ascii_upper c then byte_of (byte_val c + 32) else c) :: to_lowercase w).
    { destruct c; try reflexivity. discriminate Hc. }
    rewrite Hs, IH by done. f_equal. unfold is_ascii_lower, is_ascii_upper in *.
    apply andb_true_iff in Hc as [H1%Z.leb_le H2%Z.leb_le].
    by rewrite (proj2 (Z.leb_gt (byte_val c) 90)), andb_false_r by lia.
  - apply forallb_forall. intros x Hx. rewrite <- list_elem_of_In, elem_of_reverse, list_elem_of_In in Hx.
    rewrite forallb_forall in Hw. by apply Hw.
Qed.

Lemma as_bytes_nil w : as_bytes w = [] -> w = ""%string.
Proof. intros H. apply (inj as_bytes). by rewrite H. Qed.

Lemma filter_kept {A} (P : A -> Prop) `{!forall x, Decision (P x)} (l : list A) : Forall P l -> filter P l = l.
Proof. induction 1 as [|x l Hx _ IH]; [done|]. rewrite filter_cons_True by done. by rewrite IH. Qed.

Lemma spoken_concat ws : ws <> [] -> Forall spoken_word ws -> spoken (String.concat " " ws) = as_bytes <$> ws.
Proof.
  intros Hne Hws. unfold spoken, split_whitespace.
  pose proof (split_ws_words ws 0 Hne Hws) as Hsp. rewrite Nat.add_0_r in Hsp. rewrite Hsp.
  assert (Hb : Forall (fun w => w <> []) (as_bytes <$> ws)).
  { apply Forall_fmap. eapply Forall_impl; [exact Hws|]. intros w [Hw _] Hn. by apply as_bytes_nil in Hn. }
  rewrite (filter_kept (fun w : bytes => w <> []) (as_bytes <$> ws)) by done.
  assert (Hm : (fun w => to_lowercase (trim_to_letters w)) <$> (as_bytes <$> ws) = as_bytes <$> ws).
  { rewrite <- list_fmap_compose. apply list_fmap_ext. intros i w Hi. simpl.
    rewrite Forall_forall in Hws. apply list_elem_of_lookup_2, Hws in Hi as [Hw Hl].
    apply letters_kept; [done|]. intros Hn. by apply as_bytes_nil in Hn. }
  rewrite Hm. by apply filter_kept.
Qed.

(** The length is fuel enough for any text. *)
Lemma drop_one_shorter l b r : Forall (fun w : bytes => w <> []) l -> drop_one l b = Some r -> (length r < length b)%nat.
Proof.
  intros Hl. unfold drop_one. induction Hl as [|w l Hw _ IH]; [done|]. cbn [omap list_omap].
  case_decide as Ht; [|exact IH]. intros [= <-]. rewrite length_drop.
  apply (f_equal length) in Ht. rewrite length_take in Ht. destruct w; [done|]. cbn [length] in *. lia.
Qed.

Lemma split_ws_fuel fuel acc b :
  (length b < fuel)%nat -> split_ws fuel acc b = split_ws (S (length b)) acc b.
Proof.
  assert (Hw : Forall (fun w : bytes => w <> []) whitespace) by (vm_compute; repeat constructor; discriminate).
  remember (length b) as n eqn:Hn. revert fuel acc b Hn. induction (lt_wf n) as [n _ IH].
  intros fuel acc b -> Hf. destruct fuel as [|fuel]; [lia|]. cbn [split_ws].
  destruct (drop_one whitespace b) as [r|] eqn:Hd.
  - pose proof (drop_one_shorter _ _ _ Hw Hd) as Hr. f_equal.
    rewrite (IH (length r)) by (done || lia). by rewrite (IH (length r) Hr (length b)) by (done || lia).
  - destruct b as [|c b]; [done|]. simpl in Hf. simpl.
    by rewrite (IH (length b)) by (simpl; done || lia).
Qed.

Section theorems.
Context `{B : Blake3}.

Lemma phrase_spoken k : spoken (encode k) = as_bytes <$> phrase_words k.
Proof.
  apply spoken_concat; [unfold phrase_words; by destruct (word <$> key_bytes k)|].
  apply Forall_app. split; [|by repeat constructor; apply word_letters].
  apply Forall_fmap, Forall_true. intros b. apply word_letters.
Qed.

(** C32: a phrase reads back as a key exactly when the words spoken in it, whatever separates
    them, whatever their case and the punctuation around them, are the words of that key
    and its checksum, in order; so a key's phrase reads back as the key, and two phrases
    that restore one key say the same words. *)
Theorem recovery_phrase_exact (phrase : string) (k : key32) :
  decode (encode k) = Ok k /\
  (decode phrase = Ok k <-> spoken phrase = spoken (encode k)) /\
  (decode phrase = Ok k -> length (spoken phrase) = PHRASE_WORDS /\ last (spoken phrase) = Some (as_bytes (word (checksum k)))).
Proof.
  rewrite phrase_spoken, decode_words, (decode_words phrase). split_and!; [apply phrase_spoken|done|].
  intros ->. unfold phrase_words. split.
  - by rewrite length_fmap, length_app, length_fmap, key_bytes_length.
  - rewrite fmap_app. cbn [fmap list_fmap]. by rewrite last_snoc.
Qed.
End theorems.

Module Witness.
Import Toy.

(** A numbered list in capitals, over several lines. *)
Definition dictated : string :=
  String.concat (String (Ascii.ascii_of_nat 10) "7) ")
    ((fun w => w +:+ "," )%string <$> phrase_words (key_fill Byte.x2a)).

Lemma dictated_read : decode dictated = Ok (key_fill Byte.x2a).
Proof. vm_compute. reflexivity. Qed.

Lemma mistyped_refused :
  is_ok (decode ("zoo " +:+ String.concat " " (drop 1 (phrase_words (key_fill Byte.x2a))))) = false.
Proof. vm_compute. reflexivity. Qed.

(** Capitals are read, and so is a Kelvin sign in a word's middle. *)
Lemma kelvin_read : to_lowercase (as_bytes "BA" ++ [Byte.xe2; Byte.x84; Byte.xaa] ++ as_bytes "e") = as_bytes "bake".
Proof. reflexivity. Qed.
End Witness.
