(* ===== verification/Org.v ===== *)
(** * Authoring an organisation

    [node/src/daemon/org_author.rs]: the operator's verbs.  Each reads the root key beside
    the configuration and the installed document, changes the document, signs it and puts it
    through the same install as every other channel ([Rosters]).  The verbs but [org_create]
    and the read-only [org_join_code] hold [org_author_lock], so no two of them overlap; an
    install from elsewhere may come between the read and the install, and is an argument. *)
From stdpp Require Import base list gmap strings.
From Stdlib Require Import ZArith Lia Strings.Byte.
From S2P Require Import Prelude Bytes Digits Json Externals Schema Sign Keys Enroll Validate Mutate Identity Allowlist Gate Config AuditFiles Registry Session Mesh Rosters Sas.

Local Open Scope Z_scope.

Definition DEFAULT_EXPIRES_SECS : Z := 90 * 86400.

Inductive OrgError :=
| EmptyName | NameHasSlash | ExpiresNotPositive
| RootKeyError (path : string) (e : KeyError) | OneTime (path : string)
| NotOperator | ReadRoster (path e : string) | ParseRoster
| BadCode (e : string) | BadUserPk (e : RosterError) | BadDevice (e : RosterError)
| BadSigText (e : RosterError) | Forged
| EmptyUserId | UserIdHasSlash | EmptyTarget | RotationOfDevice
| Rejected (e : MutateError) | SignRoster (e : RosterError)
| SameKey | Promote (e : string)
| NotInstalled (e : InstallError) | NotPublished (e : OrgError)
| Panic.

(** The node and the key files of its host. *)
Record OrgNode := { og_config_dir : string; og_roster : RosterNode; og_files : Files }.

Section faults.
Context `{E : Ed25519}.

(** The faults of one verb, what meets its two key files, and what the rest of the node does
    between the verb's read of the document and its install. *)
Record OrgIo := {
  oi_now : Z;
  oi_root : nat -> Attempt;
  oi_next : nat -> Attempt;
  oi_read : option string;
  oi_prior : option string;
  oi_rename : option string;
  oi_rollback : option string;
  oi_roster : RosterIo;
  oi_url : RosterIo;
  oi_env : GossipEnv;
  oi_meanwhile : RosterNode -> RosterNode }.
End faults.

Definition org_root_key_path (dir : string) : string := dir +:+ "/org-root.key".
(** [key_path.with_file_name("org_root_next.key")]. *)
Definition default_next_path (dir : string) : string := dir +:+ "/org_root_next.key".

Definition with_node (x : RosterNode) (n : OrgNode) : OrgNode :=
  {| og_config_dir := og_config_dir n; og_roster := x; og_files := og_files n |}.
Definition with_files (fs : Files) (n : OrgNode) : OrgNode :=
  {| og_config_dir := og_config_dir n; og_roster := og_roster n; og_files := fs |}.

(** *** Verbs: state and typed errors *)
Definition OrgAct (A : Type) : Type := OrgNode -> result OrgError A * OrgNode.
#[export] Instance org_ret : MRet OrgAct := fun A a n => (Ok a, n).
#[export] Instance org_bind : MBind OrgAct := fun A B f v n =>
  match v n with
  | (Ok a, n) => f a n
  | (Err e, n) => (Err e, n)
  end.
Definition ensure (b : bool) (e : OrgError) : OrgAct unit := fun n => (if b then Ok tt else Err e, n).
Definition judge {A} (r : result OrgError A) : OrgAct A := fun n => (r, n).
Definition gets {A} (f : OrgNode -> A) : OrgAct A := fun n => (Ok (f n), n).

(** [str::contains] of a '/', [str::trim] of a blank, [str::split_once] at a '/'. *)
Definition slash : byte := Byte.x2f.
Definition has_slash (s : string) : bool := existsb (fun c => bool_decide (c = slash)) (as_bytes s).
Definition blank (s : string) : bool := bool_decide (trim (as_bytes s) = []).

Fixpoint split_slash (b : bytes) : option (bytes * bytes) :=
  match b with
  | [] => None
  | c :: b => if bool_decide (c = slash) then Some ([], b)
              else '(l, r) ← split_slash b; Some (c :: l, r)
  end.
Definition split_once (s : string) : option (string * string) :=
  '(l, r) ← split_slash (as_bytes s); Some (from_bytes l, from_bytes r).

Definition u64_wrapping_succ (s : Z) : Z := (s + 1) mod 2 ^ 64.
Definition set_serial (s : Z) (r : Roster) : Roster :=
  {| r_format := r_format r; r_org_id := r_org_id r; r_serial := s; r_issued_at := r_issued_at r;
     r_expires_at := r_expires_at r; r_groups := r_groups r; r_users := r_users r;
     r_revoked_endpoints := r_revoked_endpoints r; r_successor_root_pk := r_successor_root_pk r;
     r_successor_sig := r_successor_sig r; r_sig := r_sig r |}.
(** [roster.serial += 1] of a release build. *)
Definition bump (r : Roster) : Roster := set_serial (u64_wrapping_succ (r_serial r)) r.

Definition set_bridge (successor_pk : string) (sig : string) (r : Roster) : Roster :=
  {| r_format := ROSTER_FORMAT_ROTATION; r_org_id := r_org_id r; r_serial := r_serial r;
     r_issued_at := r_issued_at r; r_expires_at := r_expires_at r; r_groups := r_groups r; r_users := r_users r;
     r_revoked_endpoints := r_revoked_endpoints r; r_successor_root_pk := Some successor_pk;
     r_successor_sig := Some sig; r_sig := r_sig r |}.

Record OrgCreateResult := {
  cr_org_id : string; cr_serial : Z; cr_org_invite : string; cr_fingerprint : option string }.
Record OrgApproveResult := {
  ap_user_id : string; ap_groups : list string; ap_org_id : string; ap_serial : Z; ap_fingerprint : option string }.
Record OrgJoinCodeResult := {
  jr_display_name : string; jr_requested_user_id : string; jr_device_label : string; jr_fingerprint : option string }.
Inductive RevokeMode := UserKeyRotation | DeviceCut | PersonCut.
Record OrgRevokeResult := {
  rr_target : string; rr_mode : RevokeMode; rr_org_id : string; rr_serial : Z; rr_severed : nat }.
Record OrgRotateResult := {
  rt_org_id : string; rt_serial : Z; rt_new_root_pk : string;
  rt_old_fingerprint : option string; rt_new_fingerprint : option string }.

Section verbs.
Context `{E : Ed25519, T : TextEncoding, J : SerdeJson, C : Chrono, P : RosterPrinter, R : RowCodec, TC : TomlCodec, B : Blake3}.
Context `{S : !SecretBytes E, JO : CodeJson OrgInviteCode, JJ : CodeJson JoinCode}.

(** [OrgRootKey::load_or_generate]. *)
Definition load_key (attempts : nat -> Attempt) (path : string) : OrgAct (SigningKey * bool) := fun n =>
  let '(r, files) := load_or_generate_signing_key attempts path (og_files n) in
  (map_err (RootKeyError path) r, with_files files n).

Definition root_path (n : OrgNode) : string := org_root_key_path (og_config_dir n).

Definition load_operator_roster (io : OrgIo) : OrgAct (SigningKey * Roster) :=
  path ← gets root_path;
  exists_ ← gets (fun n => bool_decide (is_Some (og_files n !! path)));
  _ ← ensure exists_ NotOperator;
  kc ← load_key (oi_root io) path;
  disk ← gets (fun n => rn_roster_json (og_roster n));
  b ← judge (match oi_read io, disk with
             | Some e, _ => Err (ReadRoster path e)
             | None, None => Err (ReadRoster path "No such file or directory")
             | None, Some b => Ok b
             end);
  roster ← judge (ok_or ParseRoster (roster_from_slice b));
  mret (kc.1, roster).

(** The document is staged in a temporary file, which the install reads. *)
Definition install_authored (io : OrgIo) (roster : Roster) (org_root_pk : option string) :
    OrgAct (string * Z * nat) := fun n =>
  let node := oi_meanwhile io (og_roster n) in
  match ri_stage (oi_roster io) with
  | Some e => (Err (NotInstalled (StageFile e)), with_node node n)
  | None =>
      let '(r, node) := install_roster (oi_roster io) (oi_env io) (oi_now io)
        (staged (oi_roster io) (json_to_vec (roster_to_value roster))) org_root_pk node in
      (map_err NotInstalled r, with_node node n)
  end.

Definition pk_bytes (key : SigningKey) : key32 := vk_to_bytes (verifying_key key).
Definition pk_text (key : SigningKey) : string := encode_b64u (key_bytes (pk_bytes key)).

(** [mint_signed]: a body that cannot be signed is a panic. *)
Definition mint_signed (root : SigningKey) (r : Roster) : result OrgError Roster :=
  map_err (fun _ => Panic) (sign root r).

Definition org_create (io : OrgIo) (name : string) (expires_secs : option Z) (roster_url : option string) :
    OrgAct OrgCreateResult :=
  _ ← ensure (negb (blank name)) EmptyName;
  _ ← ensure (negb (has_slash name)) NameHasSlash;
  let expires_secs := default DEFAULT_EXPIRES_SECS expires_secs in
  _ ← ensure (0 <? expires_secs) ExpiresNotPositive;
  path ← gets root_path;
  kc ← load_key (oi_root io) path;
  let '(root, created) := kc in
  _ ← ensure created (OneTime path);
  let now := oi_now io in
  roster ← judge (mint_signed root (empty_roster name 1 now (clamp i64_min i64_max (now + expires_secs))));
  let pk := pk_text root in
  installed ← install_authored io roster (Some pk);
  _ ← (match roster_url with
       | Some url => fun n => (Ok tt, with_node (set_roster_url (oi_url io) url (og_roster n)).2 n)
       | None => mret tt
       end : OrgAct unit);
  mret {| cr_org_id := installed.1.1; cr_serial := installed.1.2;
          cr_org_invite := org_encode {| oc_org_id := name; oc_org_root_pk := pk; oc_roster_url := roster_url |};
          cr_fingerprint := fingerprint_words (key_bytes (pk_bytes root)) |}.

Definition inspect_join_code (join_code : string) : result OrgError (JoinCode * key32 * key32 * option string) :=
  jc ← map_err BadCode (join_decode join_code);
  user_pk ← map_err BadUserPk (decode_endpoint_id (jc_user_pk jc));
  device_id ← map_err BadDevice (decode_endpoint_id (jc_device_endpoint_id jc));
  sig ← map_err BadSigText (decode_b64u (jc_binding_sig jc));
  _ ← map_err (fun _ => Forged) (verify_device_binding user_pk device_id sig);
  Ok (jc, user_pk, device_id, join_code_fingerprint (key_bytes user_pk) (key_bytes device_id)).

Definition org_join_code (join_code : string) : result OrgError OrgJoinCodeResult :=
  x ← inspect_join_code join_code;
  let '(jc, _, _, fingerprint) := x in
  Ok {| jr_display_name := jc_display_name jc; jr_requested_user_id := jc_requested_user_id jc;
        jr_device_label := jc_device_label jc; jr_fingerprint := fingerprint |}.

Definition org_approve (io : OrgIo) (join_code : string) (groups : list string) (user_id : option string) :
    OrgAct OrgApproveResult :=
  x ← judge (inspect_join_code join_code);
  let '(jc, _, _, code_fp) := x in
  kr ← load_operator_roster io;
  let '(root, roster) := kr in
  let uid := default (jc_requested_user_id jc) user_id in
  _ ← ensure (negb (blank uid)) EmptyUserId;
  _ ← ensure (negb (has_slash uid)) UserIdHasSlash;
  roster ← judge (map_err Rejected (upsert_member (bump roster) uid (jc_display_name jc) (jc_user_pk jc) groups
                                      (jc_device_endpoint_id jc) (jc_device_label jc)));
  roster ← judge (map_err SignRoster (sign root roster));
  installed ← install_authored io roster None;
  mret {| ap_user_id := uid; ap_groups := groups; ap_org_id := installed.1.1; ap_serial := installed.1.2;
          ap_fingerprint := code_fp |}.

(** The mutation a target and the flag ask for. *)
Definition revoke_in (target : string) (user_key : bool) (r : Roster) : result MutateError (Roster * RevokeMode) :=
  if user_key then r ← remove_user r target false; Ok (r, UserKeyRotation)
  else
    match split_once target with
    | Some (person, device) => r ← revoke_device r person device; Ok (r, DeviceCut)
    | None => r ← remove_user r target true; Ok (r, PersonCut)
    end.

Definition org_revoke (io : OrgIo) (target : string) (user_key : bool) : OrgAct OrgRevokeResult :=
  _ ← ensure (negb (blank target)) EmptyTarget;
  _ ← ensure (negb (user_key && has_slash target)) RotationOfDevice;
  kr ← load_operator_roster io;
  let '(root, roster) := kr in
  rm ← judge (map_err Rejected (revoke_in target user_key (bump roster)));
  let '(roster, mode) := rm in
  roster ← judge (map_err SignRoster (sign root roster));
  installed ← install_authored io roster None;
  mret {| rr_target := target; rr_mode := mode; rr_org_id := installed.1.1; rr_serial := installed.1.2;
          rr_severed := installed.2 |}.

(** The successor's file takes the root's place; the bytes it held before, if readable. *)
Definition promote (io : OrgIo) (next : string) : OrgAct (option bytes) := fun n =>
  let prior := match oi_prior io with Some _ => None | None => og_files n !! root_path n end in
  match oi_rename io, og_files n !! next with
  | Some e, _ => (Err (Promote e), n)
  | None, None => (Err (Promote "No such file or directory"), n)
  | None, Some b => (Ok prior, with_files (<[root_path n := b]> (delete next (og_files n))) n)
  end.

(** Best effort. *)
Definition rollback (io : OrgIo) (prior : option bytes) (n : OrgNode) : OrgNode :=
  match prior ≫= try_key32 with
  | None => n
  | Some k => with_files (write_signing_key (oi_rollback io) (root_path n) (sk_from_bytes k) true (og_files n)).2 n
  end.

Definition or_rollback {A} (io : OrgIo) (prior : option bytes) (install : OrgAct A) : OrgAct A := fun n =>
  match install n with
  | (Ok a, n) => (Ok a, n)
  | (Err e, n) => (Err (NotPublished e), rollback io prior n)
  end.

(** The successor's key, and the document it signs; nothing is published yet. *)
Definition rotate_prepare (io : OrgIo) (next : string) : OrgAct (SigningKey * SigningKey * Roster) :=
  kr ← load_operator_roster io;
  let '(current, roster) := kr in
  kc ← load_key (oi_next io) next;
  let successor := kc.1 in
  _ ← ensure (negb (bool_decide (pk_bytes successor = pk_bytes current))) SameKey;
  let cross := sign_org_rotation current (r_org_id roster) (pk_bytes successor) in
  let bridged := set_bridge (pk_text successor) (encode_b64u cross) (bump roster) in
  roster ← judge (map_err SignRoster (sign successor bridged));
  mret (current, successor, roster).

Definition next_path (new_key_path : option string) (n : OrgNode) : string :=
  default (default_next_path (og_config_dir n)) new_key_path.

Definition org_rotate (io : OrgIo) (new_key_path : option string) : OrgAct OrgRotateResult :=
  next ← gets (next_path new_key_path);
  csr ← rotate_prepare io next;
  let '(current, successor, roster) := csr in
  prior ← promote io next;
  installed ← or_rollback io prior (install_authored io roster (Some (pk_text successor)));
  mret {| rt_org_id := installed.1.1; rt_serial := installed.1.2; rt_new_root_pk := pk_text successor;
          rt_old_fingerprint := fingerprint_words (key_bytes (pk_bytes current));
          rt_new_fingerprint := fingerprint_words (key_bytes (pk_bytes successor)) |}.
End verbs.

(** ** Lemmas *)
Lemma obind_Ok {A B} (v : OrgAct A) (f : A -> OrgAct B) n b n' :
  (v ≫= f) n = (Ok b, n') -> exists a n1, v n = (Ok a, n1) /\ f a n1 = (Ok b, n').
Proof. unfold mbind, org_bind. destruct (v n) as [[a|e] n1]; [eauto|done]. Qed.

Lemma org_ensure_Ok b e n u n' : ensure b e n = (Ok u, n') -> b = true /\ n' = n.
Proof. unfold ensure. by destruct b; intros [= <-]. Qed.

Lemma judge_Ok {A} (r : result OrgError A) n a n' : judge r n = (Ok a, n') -> r = Ok a /\ n' = n.
Proof. by intros [= -> <-]. Qed.

Lemma or_rollback_Ok `{E : Ed25519, S : !SecretBytes E} {A} io prior (install : OrgAct A) n a n' :
  or_rollback io prior install n = (Ok a, n') -> install n = (Ok a, n').
Proof. unfold or_rollback. by destruct (install n) as [[x|e] n1]. Qed.

(** Unfolds a verb that succeeded into its steps. *)
Ltac org_ok :=
  repeat match goal with
  | H : (_ ≫= _) _ = (Ok _, _) |- _ => apply obind_Ok in H as (? & ? & ? & ?)
  | H : ensure _ _ _ = (Ok _, _) |- _ => apply org_ensure_Ok in H as [? ->]
  | H : judge _ _ = (Ok _, _) |- _ => apply judge_Ok in H as [? ->]
  | H : gets _ _ = (Ok _, _) |- _ => injection H as ? ?; subst
  | H : mret _ _ = (Ok _, _) |- _ => injection H as ? ?; subst
  | H : map_err _ _ = Ok _ |- _ => apply map_err_Ok in H
  | x : (_ * _)%type |- _ => destruct x
  end; simpl in *.

Section lemmas.
Context `{E : Ed25519, T : TextEncoding, J : SerdeJson, C : Chrono, P : RosterPrinter, R : RowCodec, TC : TomlCodec, B : Blake3}.
Context `{S : !SecretBytes E, JO : CodeJson OrgInviteCode, JJ : CodeJson JoinCode}.
Context `{EL : !Ed25519Laws E, TL : !TextEncodingLaws T, JL : !SerdeJsonLaws J, PL : !RosterPrinterLaws P, SL : !SecretBytesLaws S}.

(** What a successful manual install leaves before its common end. *)
Lemma install_roster_Ok io env now file org_root_pk n out n' :
  install_roster io env now file org_root_pk n = (Ok out, n') ->
  exists pk doc v a n2, accept_file io file pk now (rn_roster_json n) = Ok (doc, v, a) /\
    out = (v_org_id v, v_serial v, length (severed v n)) /\
    rn_roster_json n2 = Some (roster_to_vec_pretty doc) /\ m_conns (rn_mesh n2) = m_conns (rn_mesh n) /\
    n' = (announce_roster env (finish io now v n2)).2.
Proof.
  intros [[[e [=]] _]|(text & pk & doc & v & a & _ & _ & Hacc & _ & Hrest)]%install_roster_cases.
  cbn zeta in Hrest. set (n1 := (audit_successor_adoption io a (v_org_id v) _).2) in *.
  assert (Hn1 : rn_roster_json n1 = Some (roster_to_vec_pretty doc) /\ m_conns (rn_mesh n1) = m_conns (rn_mesh n))
    by (unfold n1; by destruct a). clearbody n1.
  destruct Hrest as [(_ & [e [=]] & _)|(n2 & Hn2 & _ & [= ->] & ->)]. exists pk, doc, v, a, n2.
  assert (H2 : rn_roster_json n2 = Some (roster_to_vec_pretty doc) /\ m_conns (rn_mesh n2) = m_conns (rn_mesh n)).
  { subst n2. destruct (_ || _); [|done].
    destruct (write_config_frame (ri_pin io) (write_identity_pin (default text a) (v_org_id v)) n1) as [f ->]. done. }
  destruct H2 as [? Hk]. split_and!; [done| |done..]. unfold severed. by rewrite Hk.
Qed.

(** What an authored document's install leaves, [n] being the node the install found. *)
Record published (io : OrgIo) (doc : Roster) (n n' : RosterNode) (v : RosterView) : Prop := {
  pb_view : m_roster (rn_mesh n') = Some v;
  pb_doc : doc_wf doc /\ exists t, v = view_of doc t;
  pb_newer : disk_serial (rn_roster_json n) < r_serial doc;
  pb_disk : rn_roster_json n' = Some (roster_to_vec_pretty doc);
  pb_conns : m_conns (rn_mesh n') = close_handles (severed v n) (m_conns (rn_mesh n));
  pb_audit : trust_record (ri_ts (oi_roster io)) "roster_install" (Some (install_target v)) None ∈ m_audit (rn_mesh n');
  pb_expires : is_ok (parse_rfc3339 (r_expires_at doc)) = true }.

(** What the install reads back is the document that was staged. *)
Lemma staged_reads io doc b doc' :
  0 <= r_serial doc <= u64_max -> staged io (json_to_vec (roster_to_value doc)) = Ok b -> roster_from_slice b = Some doc' -> doc' = doc.
Proof.
  intros Hs Hb Hpb. unfold staged, faulty in Hb. destruct (ri_reread _); [done|]. injection Hb as <-.
  unfold roster_from_slice in Hpb. rewrite json_from_to in Hpb by (by apply plain_roster). simpl in Hpb.
  rewrite roster_of_to in Hpb by done. by injection Hpb.
Qed.

Lemma authored_Ok io doc pk n out n' :
  0 <= r_serial doc <= u64_max -> install_authored io doc pk n = (Ok out, n') ->
  og_files n' = og_files n /\ og_config_dir n' = og_config_dir n /\
  exists v, published io doc (oi_meanwhile io (og_roster n)) (og_roster n') v /\
    out = (r_org_id doc, r_serial doc, length (severed v (oi_meanwhile io (og_roster n)))).
Proof.
  intros Hs H. unfold install_authored in H. destruct (ri_stage _); [done|].
  destruct (install_roster _ _ _ _ _ _) as [r node] eqn:Hi. injection H as Hr <-. apply map_err_Ok in Hr as ->.
  apply install_roster_Ok in Hi as (k & doc' & v & a & n2 & Hacc & -> & Hd2 & Hk2 & ->). do 2 (split; [done|]).
  set (n0 := oi_meanwhile io (og_roster n)) in *.
  pose proof Hacc as (b & Hb & Hpb & _ & Hv)%accept_file_Ok.
  assert (doc' = doc) as -> by (by eapply staged_reads).
  apply validate_inv in Hv as (_ & _ & Hlt & e & Hexp & [Hwf ->]%build_view_Ok).
  exists (view_of doc e). split; [|done].
  destruct (finish_finished (oi_roster io) (oi_now io) (view_of doc e) n2) as [Fv Fd _ _ Fk Fa _ _ _ _].
  set (n' := finish _ _ _ n2) in *.
  destruct (trusted_fields n' _ (announce_trusted (oi_env io) n')) as (Hm & Hj & _).
  split; simpl; rewrite ?Hm, ?Hj, ?Fv, ?Fd, ?Fk, ?Fa; try done.
  - split; [done|]. by exists e.
  - unfold severed. by rewrite Hk2.
  - apply elem_of_app. right. by apply list_elem_of_singleton.
  - by rewrite Hexp.
Qed.

(** What the operator's verbs start from. *)
Lemma load_operator_Ok io n key r n' :
  load_operator_roster io n = (Ok (key, r), n') ->
  og_roster n' = og_roster n /\ og_config_dir n' = og_config_dir n /\ is_Some (og_files n !! root_path n) /\
  (exists b, rn_roster_json (og_roster n) = Some b /\ roster_from_slice b = Some r) /\
  exists created, load_or_generate_signing_key (oi_root io) (root_path n) (og_files n) = (Ok (key, created), og_files n').
Proof.
  intros H. unfold load_operator_roster in H. org_ok.
  match goal with H : load_key _ _ _ = _ |- _ => unfold load_key in H; destruct (load_or_generate_signing_key _ _ _) as [res fs] eqn:Hl; injection H as ? <- end.
  destruct res as [[k c]|]; [|done]. simplify_eq/=. apply bool_decide_eq_true in H0.
  split_and!; try done; [|by eexists].
  destruct (oi_read io); [done|]. destruct (rn_roster_json _) as [x|]; [|done]. simplify_eq/=.
  eexists. split; [done|]. by eapply ok_or_Ok.
Qed.

Lemma sign_Ok key r r' : sign key r = Ok r' -> exists s, r' = set_sig s r.
Proof. unfold sign. intros (c & _ & [= <-])%bind_Ok. eauto. Qed.

Lemma sign_verifies key r r' : sign key r = Ok r' -> verify r' (verifying_key key) = Ok tt.
Proof. intros H. assert (r = set_sig (r_sig r) r) as Hr by (by destruct r). rewrite Hr in H. by apply sign_then_verify in H as []. Qed.

Lemma bump_range r : 0 <= r_serial (bump r) <= u64_max.
Proof. simpl. unfold u64_wrapping_succ, u64_max. pose proof (Z.mod_pos_bound (r_serial r + 1) (2 ^ 64)). lia. Qed.

(** A serial that wrapped is refused, so an authored document's is the next one. *)
Lemma bump_newer disk r : 0 <= r_serial r <= u64_max -> disk_serial disk < r_serial (bump r) -> r_serial (bump r) = r_serial r + 1.
Proof.
  intros Hr. pose proof (disk_serial_nonneg disk) as Hd. simpl. unfold u64_wrapping_succ, u64_max in *. intros Hlt.
  destruct (decide (r_serial r + 1 = 2 ^ 64)) as [Heq|]; [rewrite Heq, Z.mod_same in Hlt by lia; lia|].
  apply Z.mod_small. lia.
Qed.

(** Every verb that re-signs the document publishes what it signed, as the next serial. *)
Lemma publish_next io old doc pk n out n' :
  0 <= r_serial old <= u64_max -> r_serial doc = r_serial (bump old) -> install_authored io doc pk n = (Ok out, n') ->
  og_files n' = og_files n /\ r_serial doc = r_serial old + 1 /\
  exists v, published io doc (oi_meanwhile io (og_roster n)) (og_roster n') v /\
    out = (r_org_id doc, r_serial doc, length (severed v (oi_meanwhile io (og_roster n)))).
Proof.
  intros Hold Hs H. apply authored_Ok in H as (Hf & _ & v & Hp & ->); [|rewrite Hs; apply bump_range].
  split; [done|]. split; [|eauto]. rewrite Hs. eapply bump_newer; [done|]. rewrite <- Hs. apply (pb_newer _ _ _ _ _ Hp).
Qed.

(** The registered connections a view cuts off. *)
Definition cut_off (v : RosterView) (t : Tracked) : Prop :=
  t_endpoint_id t ∈ v_revoked v \/ is_Some (t_roster_user t) /\ Validate.resolve v (t_endpoint_id t) = None.

Lemma published_severs io doc n n' v i t :
  published io doc n n' v -> reg_inner (k_registry (m_conns (rn_mesh n))) !! i = Some t -> cut_off v t ->
  t_conn t ∈ k_closed (m_conns (rn_mesh n')).
Proof.
  intros Hp Hi Hc. rewrite (pb_conns _ _ _ _ _ Hp). simpl. apply elem_of_union_l, elem_of_list_to_set, elem_of_sever_matching.
  exists i, t. split_and!; [done| |done]. unfold severs, should_sever. destruct Hc as [Hr|[Hu Hn]].
  - apply orb_true_iff. left. by apply bool_decide_eq_true.
  - apply orb_true_iff. right. rewrite bool_decide_true by done. apply negb_true_iff, bool_decide_eq_false.
    apply not_elem_of_dom. exact Hn.
Qed.

Lemma find_first_user r u uid : doc_wf r -> u ∈ r_users r -> u_user_id u = uid -> find_first (has_user_id uid) (r_users r) = Some u.
Proof.
  intros Hwf Hu <-. destruct (find_first _ _) as [u'|] eqn:Hf.
  - destruct (find_user_split _ _ _ Hwf Hf) as (Hid & l1 & l2 & Hus & _ & Hother). rewrite Hus in Hu.
    apply elem_of_app in Hu as [Hu|[->|Hu]%elem_of_cons]; [|done|]; by destruct (Hother u ltac:(in_list)).
  - rewrite find_first_None, Forall_forall in Hf. exfalso. specialize (Hf _ Hu). unfold has_user_id in Hf. by rewrite bool_decide_eq_true_2 in Hf.
Qed.

(** What a success of the member mutation put in the document, whatever it held. *)
Lemma upsert_has r uid name pk gs ep label r' :
  upsert_member r uid name pk gs ep label = Ok r' ->
  r_serial r' = r_serial r /\ r_revoked_endpoints r' = r_revoked_endpoints r /\
  (exists u d, u ∈ r_users r' /\ u_user_id u = uid /\ u_user_pk u = pk /\ gs ⊆ u_groups u /\ d ∈ u_devices u /\ d_endpoint_id d = ep) /\
  (forall u, u_user_id u <> uid -> u ∈ r_users r' <-> u ∈ r_users r) /\
  (forall u d, find_first (has_user_id uid) (r_users r) = Some u -> u_user_pk u = pk -> d ∈ u_devices u ->
     exists u', u' ∈ r_users r' /\ u_user_id u' = uid /\ d ∈ u_devices u').
Proof.
  intros H. unfold upsert_member in H. repeat (case_match; [done|]). injection H as <-. simpl. do 2 (split; [done|]).
  destruct (find_first (has_user_id uid) (r_users r)) as [u|] eqn:Hf.
  - apply find_first_split in Hf as (l1 & l2 & -> & _ & <-%has_user_id_true & ->).
    destruct (upsert_user_upserted name pk gs ep label u) as (Hid & _ & Hg & _ & (d & Hd & He) & _). split_and!.
    + exists (upsert_user name pk gs (new_device ep label) u), d. split_and!; [in_list|done| |done..].
      unfold upsert_user. by case_decide.
    + intros u' Hne. rewrite !elem_of_app, !elem_of_cons. split; intros [?|[->|?]]; auto; exfalso; by apply Hne.
    + intros u0 d0 [= <-] Hpk Hd0. exists (upsert_user name pk gs (new_device ep label) u). split_and!; [in_list|done|].
      unfold upsert_user. rewrite decide_True by done. simpl. case_match; [done|]. apply elem_of_app. by left.
  - split_and!; [| |by intros u d [=]].
    + eexists _, (new_device ep label). rewrite elem_of_app, list_elem_of_singleton.
      split; [by right|]. split_and!; [done|done|done|by apply list_elem_of_singleton|done].
    + intros u' Hne. rewrite elem_of_app, list_elem_of_singleton. split; [intros [?| ->]; [done|by simpl in Hne]|by left].
Qed.

Lemma inspect_Ok code jc user_pk device fp :
  inspect_join_code code = Ok (jc, user_pk, device, fp) ->
  join_decode code = Ok jc /\ decode_endpoint_id (jc_user_pk jc) = Ok user_pk /\
  decode_endpoint_id (jc_device_endpoint_id jc) = Ok device /\
  (exists sig, decode_b64u (jc_binding_sig jc) = Ok sig /\ verify_device_binding user_pk device sig = Ok tt) /\
  jr_fingerprint <$> org_join_code code = Ok fp.
Proof.
  intros H. unfold org_join_code. rewrite H. simpl. unfold inspect_join_code in H. inv_result.
  split_and!; [done..| |done]. match goal with x : unit |- _ => destruct x end. eauto.
Qed.

(** The document a verb mutates is the one on disk. *)
Lemma operator_reads io n b old key r n' :
  rn_roster_json (og_roster n) = Some b -> roster_from_slice b = Some old ->
  load_operator_roster io n = (Ok (key, r), n') ->
  r = old /\ og_roster n' = og_roster n /\ og_config_dir n' = og_config_dir n /\
  exists created, load_or_generate_signing_key (oi_root io) (root_path n) (og_files n) = (Ok (key, created), og_files n').
Proof.
  intros Hb Hold (Hn & Hd & _ & (b' & Hb' & Hold') & Hk)%load_operator_Ok. split_and!; try done. congruence.
Qed.

(** *** The three readings of a target *)
Lemma revoke_in_serial target user_key r r' m : revoke_in target user_key r = Ok (r', m) -> r_serial r' = r_serial r.
Proof.
  unfold revoke_in, remove_user, revoke_device.
  destruct user_key; [|destruct (split_once target) as [[p d]|]]; intros H; inv_result; done.
Qed.

(** The view of the document after a revocation, in terms of the one before. *)
Definition revoked_view (target : string) (user_key : bool) (old : Roster) (mode : RevokeMode) (v : RosterView) : Prop :=
  match mode with
  | DeviceCut => user_key = false /\ exists person label u d k, split_once target = Some (person, label) /\
      u ∈ r_users old /\ u_user_id u = person /\ d ∈ u_devices u /\ d_label d = label /\
      decode_endpoint_id (d_endpoint_id d) = Ok k /\ Validate.is_revoked v k = true /\ Validate.resolve v k = None /\
      (forall k', k' <> k -> Validate.resolve v k' = Validate.resolve (view_of old 0) k')
  | mode =>
      (user_key = true <-> mode = UserKeyRotation) /\
      (forall k rd, Validate.resolve v k = Some rd <->
         Validate.resolve (view_of old 0) k = Some rd /\ rd_user_id rd <> target) /\
      (mode = PersonCut -> forall u d k, u ∈ r_users old -> u_user_id u = target -> d ∈ u_devices u ->
         decode_endpoint_id (d_endpoint_id d) = Ok k -> Validate.is_revoked v k = true) /\
      (mode = UserKeyRotation -> v_revoked v = v_revoked (view_of old 0))
  end.

Lemma revoke_in_view target user_key old r mode sg t :
  doc_wf old -> revoke_in target user_key (bump old) = Ok (r, mode) ->
  revoked_view target user_key old mode (view_of (set_sig sg r) t).
Proof.
  intros Hwf. assert (Hwf' : doc_wf (bump old)) by (by destruct Hwf). unfold revoke_in.
  destruct user_key; [|destruct (split_once target) as [[person label]|] eqn:Hs]; intros (r1 & H & [= <- <-])%bind_Ok; simpl.
  - destruct (remove_user_spec _ _ _ _ t Hwf' H) as (_ & _ & Hr & _). split_and!; [done|exact Hr|done|]. intros _.
    unfold remove_user in H. inv_result. done.
  - destruct (revoke_device_spec _ _ _ _ t Hwf' H) as (_ & _ & u & d & k & ? & ? & ? & ? & ? & ? & ? & ?).
    split; [done|]. by exists person, label, u, d, k.
  - destruct (remove_user_spec _ _ _ _ t Hwf' H) as (_ & _ & Hr & Hd). split_and!; [done|exact Hr| |done].
    intros _ u d k ????. by eapply Hd.
Qed.

(** *** Key files *)
Definition shares (attempts : nat -> Attempt) : Prop :=
  forall i, publishes (at_before (attempts i)) /\ publishes (at_between (attempts i)).
Definition holds_key (files : Files) (path : string) (key : SigningKey) : Prop :=
  exists k, files !! path = Some (key_bytes k) /\ key = sk_from_bytes k.

Lemma load_holds attempts path files key created files' :
  shares attempts -> load_or_generate_signing_key attempts path files = (Ok (key, created), files') ->
  (forall p b, files !! p = Some b -> files' !! p = Some b) /\ holds_key files' path key /\
  (created = true -> files !! path = None /\ files' !! path = Some (key_bytes (sk_to_bytes key))) /\
  (is_Some (files !! path) -> created = false /\ holds_key files path key).
Proof.
  intros Hsh H. apply (load_or_generate_cases _ _ _ _ _ _ Hsh) in H as [Hkeep Hr]. split; [done|].
  assert (Hh : holds_key files' path key).
  { destruct Hr as [[Hf _]|[_ Hk]]; [|done]. exists (sk_to_bytes key). by rewrite sk_from_to. }
  split_and!; [done| |].
  - intros ->. destruct Hr as [[Hf Hc]|[[=] _]]. by destruct (Hc eq_refl).
  - intros [b Hb]. split.
    + destruct created; [|done]. destruct Hr as [[_ Hc]|[[=] _]]. destruct (Hc eq_refl). congruence.
    + destruct Hh as (k & Hk & ->). exists k. pose proof (Hkeep _ _ Hb). split; congruence.
Qed.

Lemma holds_key_inj files path key key' : holds_key files path key -> holds_key files path key' -> key = key'.
Proof. intros (k & Hk & ->) (k' & Hk' & ->). rewrite Hk in Hk'. injection Hk' as Heq. by rewrite (key_bytes_inj _ _ Heq). Qed.

Lemma operator_key io n key r n' :
  shares (oi_root io) -> load_operator_roster io n = (Ok (key, r), n') ->
  holds_key (og_files n) (root_path n) key /\ forall p b, og_files n !! p = Some b -> og_files n' !! p = Some b.
Proof.
  intros Hsh (_ & _ & Hs & _ & c & Hl)%load_operator_Ok. apply (load_holds _ _ _ _ _ _ Hsh) in Hl as (Hk & _ & _ & Hh).
  split; [by apply Hh|done].
Qed.

(** *** The pin *)
Context `{CL : !TomlCodecLaws TC}.
Lemma finish_pin io now v n cfg :
  config_load Config.healthy (rn_config n) = Ok cfg ->
  exists cfg', config_load Config.healthy (rn_config (finish io now v n)) = Ok cfg' /\
    i_org_root_pk (c_identity cfg') = i_org_root_pk (c_identity cfg).
Proof.
  intros Hc. unfold finish. set (n1 := (install_roster_view_and_sever io v (confirm_roster_current io now n).2).2).
  assert (Hc1 : config_load Config.healthy (rn_config n1) = Ok cfg)
    by (subst n1; destruct n as [? [] ? ? ? ? ? armed]; by destruct armed).
  unfold reconcile_user_id_from_roster. destruct (_ ≫= _) as [d|]; [case_decide|]; [by exists cfg| |by exists cfg].
  destruct (write_config (ri_uid io) _ n1) as [[ch'|e'] n3] eqn:Hw'; simpl.
  - apply (write_config_Ok _ (IdentityUserId (rd_user_id d)) _ _ _ cfg I Hc1) in Hw'. by eexists.
  - apply write_config_err in Hw' as ->. by exists cfg.
Qed.

Lemma parse_pk_text key : parse_org_root_pk (pk_text key) = Ok (verifying_key key).
Proof.
  unfold parse_org_root_pk, pk_text, pk_bytes. rewrite decode_encode_b64u. simpl. rewrite try_key32_bytes. simpl.
  by rewrite vk_from_to.
Qed.

(** An install of a document the given root signed pins that root. *)
Lemma authored_pins io doc key n out n' cfg :
  0 <= r_serial doc <= u64_max -> verify doc (verifying_key key) = Ok tt ->
  config_load Config.healthy (rn_config (oi_meanwhile io (og_roster n))) = Ok cfg ->
  install_authored io doc (Some (pk_text key)) n = (Ok out, n') ->
  exists cfg', config_load Config.healthy (rn_config (og_roster n')) = Ok cfg' /\
    i_org_root_pk (c_identity cfg') = Some (pk_text key).
Proof.
  intros Hs Hv Hc H. unfold install_authored in H. destruct (ri_stage _); [done|].
  destruct (install_roster _ _ _ _ _ _) as [r node] eqn:Hi. injection H as Hr <-. apply map_err_Ok in Hr as ->. simpl.
  apply install_roster_cases in Hi as [[[e [=]] _]|(text & pk & doc' & v & a & -> & Hp & Hacc & _ & Hrest)].
  rewrite parse_pk_text in Hp. injection Hp as <-. pose proof Hacc as (b & Hb & Hpb & _ & Hval)%accept_file_Ok.
  assert (doc' = doc) as -> by (by eapply staged_reads).
  apply validate_inv in Hval as (_ & (vk & Hvk) & _).
  unfold resolve_verifier in Hvk. rewrite Hv in Hvk. injection Hvk as <- <-. cbn zeta in Hrest. simpl default in Hrest.
  destruct Hrest as [(_ & [e [=]] & _)|(n2 & Hn2 & Hw & _ & ->)]. rewrite bool_decide_true in Hn2, Hw by done. simpl in Hn2, Hw.
  destruct (Hw eq_refl) as [ch Hok]. destruct (write_config _ _ _) as [r n3] eqn:Hwc. simpl in *. subst r n3.
  apply (write_config_Ok _ (IdentityPin (pk_text key) (v_org_id v)) (with_disk _ _) _ _ cfg I Hc) in Hwc.
  destruct (finish_pin (oi_roster io) (oi_now io) v n2 _ Hwc) as (cfg' & Hl & Hpin). exists cfg'.
  pose proof (announce_trusted (oi_env io) (finish (oi_roster io) (oi_now io) v n2)) as (Hm & _)%trusted_fields.
  unfold rn_config in *. rewrite Hm. by rewrite Hpin.
Qed.

(** Setting the URL leaves the view, and the identity the configuration pins. *)
Lemma set_url_keeps io url n cfg :
  config_load Config.healthy (rn_config n) = Ok cfg ->
  let n' := (set_roster_url io url n).2 in
  m_roster (rn_mesh n') = m_roster (rn_mesh n) /\
  exists cfg', config_load Config.healthy (rn_config n') = Ok cfg' /\ c_identity cfg' = c_identity cfg.
Proof.
  intros Hc. unfold set_roster_url, mbind, act_bind.
  destruct (write_config_frame (ri_pin io) (write_roster_url url) n) as [file Hf].
  destruct (write_config _ _ n) as [[ch|e] n1] eqn:Hw; simpl in *.
  - apply (write_config_Ok _ (RosterUrl url) _ _ _ cfg I Hc) in Hw. subst n1. case_match; (split; [done|]); eexists; (split; [exact Hw|done]).
  - apply write_config_err in Hw as ->. split; [done|]. by exists cfg.
Qed.

(** A node with a root key file refuses to create, and changes nothing of the roster. *)
Lemma create_once io name secs url n :
  shares (oi_root io) -> is_Some (og_files n !! root_path n) ->
  is_ok (org_create io name secs url n).1 = false /\ og_roster (org_create io name secs url n).2 = og_roster n.
Proof.
  intros Hsh Hf. unfold org_create, mbind, org_bind, ensure, gets.
  destruct (negb (blank name)); [|done]. destruct (negb (has_slash name)); [|done]. destruct (0 <? _); [|done].
  unfold load_key. destruct (load_or_generate_signing_key _ _ _) as [[[root created]|e] fs] eqn:Hl; [|done]. simpl.
  apply (load_holds _ _ _ _ _ _ Hsh) in Hl as (_ & _ & _ & Hc). destruct (Hc Hf) as [-> _]. done.
Qed.

(** An install that fails leaves the roster state, or the document on disk and no more. *)
Lemma authored_Err io doc pk n e n' :
  0 <= r_serial doc <= u64_max -> install_authored io doc pk n = (Err e, n') ->
  let node := oi_meanwhile io (og_roster n) in
  og_files n' = og_files n /\ og_config_dir n' = og_config_dir n /\
  (og_roster n' = node \/
   rn_roster_json (og_roster n') = Some (roster_to_vec_pretty doc) /\ m_roster (rn_mesh (og_roster n')) = m_roster (rn_mesh node) /\
   m_conns (rn_mesh (og_roster n')) = m_conns (rn_mesh node) /\ rn_config (og_roster n') = rn_config node).
Proof.
  intros Hs H. unfold install_authored in H. cbn zeta. destruct (ri_stage _); [injection H as _ <-; by auto|].
  destruct (install_roster _ _ _ _ _ _) as [r node] eqn:Hi. injection H as Hr <-. do 2 (split; [done|]). simpl.
  apply install_roster_cases in Hi as [[_ ->]|(text & k & doc' & v & a & _ & _ & Hacc & _ & Hrest)]; [by left|right].
  pose proof Hacc as (b & Hb & Hpb & _)%accept_file_Ok. assert (doc' = doc) as -> by (by eapply staged_reads).
  cbn zeta in Hrest. destruct Hrest as [(_ & _ & ->)|(n2 & _ & _ & -> & _)]; [|done]. by destruct a.
Qed.

(** The successor takes the root's file. *)
Lemma promote_Ok io next n prior n' :
  promote io next n = (Ok prior, n') ->
  og_roster n' = og_roster n /\ og_config_dir n' = og_config_dir n /\
  (oi_prior io = None -> prior = og_files n !! root_path n) /\
  exists b, og_files n !! next = Some b /\ og_files n' = <[root_path n := b]> (delete next (og_files n)).
Proof.
  unfold promote. destruct (oi_rename io); [done|]. destruct (og_files n !! next) as [b|] eqn:Hb; [|done]. intros [= <- <-].
  split_and!; [done..| |by exists b]. by intros ->.
Qed.

(** The bridge a rotation signs, and how members re-anchor over it: one pinned to the old root
    verifies the document with the successor and is told to pin it, unless the old root's own
    signature would pass too. *)
Lemma bridge_adopted current successor org doc sg :
  r_org_id doc = org -> verify (set_sig sg (set_bridge (pk_text successor)
    (encode_b64u (sign_org_rotation current org (pk_bytes successor))) doc)) (verifying_key successor) = Ok tt ->
  let published := set_sig sg (set_bridge (pk_text successor) (encode_b64u (sign_org_rotation current org (pk_bytes successor))) doc) in
  resolve_verifier published (verifying_key successor) = Ok (verifying_key successor, None) /\
  (verify published (verifying_key current) = Ok tt \/
   resolve_verifier published (verifying_key current) = Ok (verifying_key successor, Some (pk_text successor))).
Proof.
  intros Ho Hv published. split; [apply resolve_verifier_Ok; by left|].
  destruct (verify published (verifying_key current)) as [[]|e] eqn:Hc; [by left|right].
  apply resolve_verifier_Ok. right. split; [by rewrite Hc|]. exists (pk_bytes successor), (sign_org_rotation current org (pk_bytes successor)).
  simpl. unfold sign_org_rotation. rewrite sig_from_to, sig_to_bytes_length, Ho. split_and!; try done; [apply verify_sign|apply vk_from_to].
Qed.

Lemma load_key_Ok attempts path n key c n' :
  load_key attempts path n = (Ok (key, c), n') ->
  load_or_generate_signing_key attempts path (og_files n) = (Ok (key, c), og_files n') /\
  og_roster n' = og_roster n /\ og_config_dir n' = og_config_dir n.
Proof.
  unfold load_key. destruct (load_or_generate_signing_key _ _ _) as [r fs]. intros [= Hr <-].
  by apply map_err_Ok in Hr as ->.
Qed.

(** The state of a rotation once the successor has the root's place. *)
Lemma rotate_promoted io next n current old n1 successor c n2 prior n3 :
  shares (oi_root io) -> shares (oi_next io) ->
  load_operator_roster io n = (Ok (current, old), n1) -> load_key (oi_next io) next n1 = (Ok (successor, c), n2) ->
  promote io next n2 = (Ok prior, n3) ->
  og_roster n3 = og_roster n /\ root_path n3 = root_path n /\ holds_key (og_files n3) (root_path n) successor /\
  (oi_prior io = None -> prior = og_files n !! root_path n).
Proof.
  intros Hr Hx Hl Hk Hp. pose proof (operator_key _ _ _ _ _ Hr Hl) as [_ Hkeep].
  apply load_operator_Ok in Hl as (Hn1 & Hd1 & [b Hb] & _ & _). apply load_key_Ok in Hk as (Hk & Hn2 & Hd2).
  apply (load_holds _ _ _ _ _ _ Hx) in Hk as (Hkeep2 & (k & Hk & ->) & _).
  apply promote_Ok in Hp as (Hn3 & Hd3 & Hprior & b' & Hb' & Hf). unfold root_path in *. rewrite Hd2, Hd1 in *.
  split; [congruence|]. split; [by rewrite Hd3|]. split.
  - exists k. rewrite Hf, lookup_insert_eq. split; [congruence|done].
  - intros Hio. rewrite (Hprior Hio), Hb. auto.
Qed.

(** An expiry that does not print as an RFC 3339 instant (a year past 9999, which the checks
    allow) is found out after the key is minted; every later attempt is then refused. *)
Lemma create_unrecoverable io name secs url n :
  shares (oi_root io) -> alone (oi_root io 0) -> og_files n !! root_path n = None ->
  blank name = false -> has_slash name = false -> 0 < default DEFAULT_EXPIRES_SECS secs ->
  is_ok (parse_rfc3339 (rfc3339 (clamp i64_min i64_max (oi_now io + default DEFAULT_EXPIRES_SECS secs)))) = false ->
  is_ok (org_create io name secs url n).1 = false /\
  forall io' name' secs' url', shares (oi_root io') ->
    is_ok (org_create io' name' secs' url' (org_create io name secs url n).2).1 = false.
Proof.
  intros Hsh Hal Hnone Hb Hs Hpos Hexp. set (key := at_key (oi_root io 0)).
  assert (Hgoal : is_ok (org_create io name secs url n).1 = false /\ is_Some (og_files (org_create io name secs url n).2 !!
    root_path (org_create io name secs url n).2)).
  { unfold org_create, mbind, org_bind, ensure, gets. rewrite Hb, Hs. simpl negb. cbn iota beta zeta.
    apply Z.ltb_lt in Hpos as ->. unfold load_key. destruct (mint_then_load _ _ _ Hal Hnone) as [-> _].
    cbn [map_err fst snd]. cbn iota beta. unfold judge. destruct (mint_signed _ _) as [doc|e] eqn:Hm.
    - apply map_err_Ok, sign_Ok in Hm as [sg ->]. set (doc := set_sig _ _). set (n1 := with_files _ n).
      destruct (install_authored io doc _ n1) as [[out|e] n2] eqn:Hi.
      + apply authored_Ok in Hi as (_ & _ & v & Hp & _); [|done]. pose proof (pb_expires _ _ _ _ _ Hp) as Hx. simpl in Hx. congruence.
      + split; [done|]. apply authored_Err in Hi as (Hf & Hd & _); [|done]. unfold root_path. simpl. rewrite Hf, Hd. simpl.
        rewrite lookup_insert_eq. eauto.
    - split; [done|]. unfold root_path. simpl. rewrite lookup_insert_eq. eauto. }
  destruct Hgoal as [Herr Hfile]. split; [done|]. intros. by apply create_once.
Qed.

(** An action failed first, or in what followed. *)
Lemma obind_Err {X Y} (v : OrgAct X) (f : X -> OrgAct Y) n e n' :
  (v ≫= f) n = (Err e, n') -> v n = (Err e, n') \/ exists a n1, v n = (Ok a, n1) /\ f a n1 = (Err e, n').
Proof. unfold mbind, org_bind. destruct (v n) as [[a|e'] n1]; [eauto|]. intros [= -> ->]. by left. Qed.

(** What no step before the promotion disturbs. *)
Definition kept (n n' : OrgNode) : Prop :=
  og_roster n' = og_roster n /\ root_path n' = root_path n /\
  forall p b, og_files n !! p = Some b -> og_files n' !! p = Some b.
#[export] Instance kept_preorder : PreOrder kept.
Proof.
  split; [done|]. intros x y z (H1 & H2 & H3) (G1 & G2 & G3). split_and!; [congruence..|]. eauto.
Qed.
(** The errors of the steps before the publication. *)
Definition unpublished (e : OrgError) : Prop := match e with NotPublished _ => False | _ => True end.
Definition keeps {A} (v : OrgAct A) : Prop := forall n, kept n (v n).2 /\ forall e, (v n).1 = Err e -> unpublished e.
Lemma keeps_gets {A} (f : OrgNode -> A) : keeps (gets f).
Proof. done. Qed.
Lemma keeps_ret {A} (a : A) : keeps (mret a).
Proof. done. Qed.
Lemma keeps_ensure b e : unpublished e -> keeps (ensure b e).
Proof. intros He n. split; [done|]. unfold ensure. by destruct b; intros e' [= <-]. Qed.
Lemma keeps_judge {A} (f : result OrgError A) : (forall e, f = Err e -> unpublished e) -> keeps (judge f).
Proof. by intros He n. Qed.
Lemma keeps_bind {X Y} (v : OrgAct X) (f : X -> OrgAct Y) : keeps v -> (forall a, keeps (f a)) -> keeps (v ≫= f).
Proof.
  intros Hv Hf n. unfold mbind, org_bind. destruct (Hv n) as [Hn He]. destruct (v n) as [[a|e] n1]; simpl in *;
    [|split; [done|]; intros e' [= <-]; by apply He].
  destruct (Hf a n1) as [Hn1 He1]. split; [by etrans|done].
Qed.
Lemma keeps_load_key attempts path : shares attempts -> keeps (load_key attempts path).
Proof.
  intros Hsh n. unfold load_key. destruct (load_or_generate_signing_key _ _ _) as [r fs] eqn:Hl.
  apply (load_or_generate_cases _ _ _ _ _ _ Hsh) in Hl as [Hk _]. split; [done|]. by destruct r; intros x [= <-].
Qed.
Lemma unpublished_ok_or {A} e (o : option A) e' : ok_or e o = Err e' -> unpublished e -> unpublished e'.
Proof. by destruct o; intros [= <-]. Qed.
Lemma unpublished_map_err {A X} (f : X -> OrgError) (r : result X A) e' :
  (forall x, unpublished (f x)) -> map_err f r = Err e' -> unpublished e'.
Proof. destruct r; intros He [= <-]. apply He. Qed.
#[local] Hint Resolve keeps_gets keeps_judge keeps_ensure keeps_ret keeps_bind keeps_load_key unpublished_ok_or : mesh.
#[local] Hint Extern 1 (unpublished _) => exact I : mesh.

Lemma keeps_load_operator io : shares (oi_root io) -> keeps (load_operator_roster io).
Proof.
  intros Hsh. unfold load_operator_roster. repeat (apply keeps_bind; [|intros ?]); eauto with mesh.
  apply keeps_judge. intros x. repeat case_match; by intros [= <-].
Qed.

Lemma keeps_prepare io next : shares (oi_root io) -> shares (oi_next io) -> keeps (rotate_prepare io next).
Proof.
  intros Hr Hx. unfold rotate_prepare. apply keeps_bind; [by apply keeps_load_operator|]. intros [current roster].
  repeat (apply keeps_bind; [|intros ?]); eauto with mesh.
  apply keeps_judge. intros e. by apply unpublished_map_err.
Qed.

(** What the preparation found and signed. *)
Lemma prepare_Ok io next n current successor doc n' :
  shares (oi_root io) -> shares (oi_next io) -> rotate_prepare io next n = (Ok (current, successor, doc), n') ->
  holds_key (og_files n) (root_path n) current /\ 0 <= r_serial doc <= u64_max.
Proof.
  intros Hr Hx H. unfold rotate_prepare in H. org_ok.
  match goal with H : load_operator_roster _ _ = _ |- _ => apply operator_key in H as [Hc _]; [|done] end.
  match goal with H : sign _ _ = _ |- _ => apply sign_Ok in H as [sg ->] end.
  split; [done|]. simpl. apply bump_range.
Qed.

Lemma kept_holds n n' key : kept n n' -> holds_key (og_files n) (root_path n) key -> holds_key (og_files n') (root_path n) key.
Proof. intros (_ & _ & Hk) (k & Hf & ->). exists k. auto. Qed.

Lemma promote_Err io next n e n' : promote io next n = (Err e, n') -> n' = n /\ exists m, e = Promote m.
Proof. unfold promote. destruct (oi_rename io); [|destruct (og_files n !! next)]; intros [= <- <-]; eauto. Qed.

(** Putting the predecessor back. *)
Lemma rollback_roster io prior n : og_roster (rollback io prior n) = og_roster n.
Proof. unfold rollback. by destruct (prior ≫= try_key32). Qed.

Lemma rollback_files io prior n p : p <> root_path n -> og_files (rollback io prior n) !! p = og_files n !! p.
Proof.
  intros Hp. unfold rollback. destruct (prior ≫= try_key32) as [k|]; [|done]. simpl. unfold write_signing_key.
  destruct (oi_rollback io); [done|]. simpl. by rewrite lookup_insert_ne.
Qed.

Lemma rollback_holds io files path n key :
  oi_rollback io = None -> root_path n = path -> holds_key files path key ->
  holds_key (og_files (rollback io (files !! path) n)) path key.
Proof.
  intros Hio <- (k & Hk & ->). unfold rollback. rewrite Hk. simpl. rewrite try_key32_bytes. simpl.
  unfold write_signing_key. rewrite Hio. simpl. exists (sk_to_bytes (sk_from_bytes k)). by rewrite lookup_insert_eq, sk_from_to.
Qed.
End lemmas.

(** ** Properties *)
Section properties.
Context `{E : Ed25519, T : TextEncoding, J : SerdeJson, C : Chrono, P : RosterPrinter, R : RowCodec, TC : TomlCodec, B : Blake3}.
Context `{S : !SecretBytes E, JO : CodeJson OrgInviteCode, JJ : CodeJson JoinCode}.
Context `{EL : !Ed25519Laws E, TL : !TextEncodingLaws T, JL : !SerdeJsonLaws J, PL : !RosterPrinterLaws P, SL : !SecretBytesLaws S}.
Context `{CL : !TomlCodecLaws TC, LO : !CodeJsonLaws JO}.

(** An approval that reports success acted on a code whose device binding the user key in
    it signed, and on the fingerprint the inspection showed; the node now serves the next
    serial after the document it read, in which the code's device resolves to the person the
    answer names, with at least the groups asked for, no slash in their id, and every other
    person's entry is as it was.  An install that came in between is never overwritten. *)
Theorem org_approve_spec io code groups uid n out n' b old :
  rn_roster_json (og_roster n) = Some b -> roster_from_slice b = Some old ->
  org_approve io code groups uid n = (Ok out, n') ->
  exists jc user_pk device doc v rd,
    join_decode code = Ok jc /\ decode_endpoint_id (jc_user_pk jc) = Ok user_pk /\
    decode_endpoint_id (jc_device_endpoint_id jc) = Ok device /\
    (exists sig, decode_b64u (jc_binding_sig jc) = Ok sig /\ verify_device_binding user_pk device sig = Ok tt) /\
    jr_fingerprint <$> org_join_code code = Ok (ap_fingerprint out) /\
    published io doc (oi_meanwhile io (og_roster n)) (og_roster n') v /\
    Validate.resolve v device = Some rd /\ rd_user_id rd = ap_user_id out /\ groups ⊆ rd_groups rd /\
    has_slash (ap_user_id out) = false /\
    (forall u, u_user_id u <> ap_user_id out -> u ∈ r_users doc <-> u ∈ r_users old) /\
    r_serial doc = r_serial old + 1 /\ disk_serial (rn_roster_json (oi_meanwhile io (og_roster n))) <= r_serial old /\
    (exists u, u ∈ r_users doc /\ u_user_id u = ap_user_id out /\ u_user_pk u = jc_user_pk jc) /\
    ap_user_id out = default (jc_requested_user_id jc) uid /\
    (forall key, shares (oi_root io) -> holds_key (og_files n) (root_path n) key -> verify doc (verifying_key key) = Ok tt) /\
    v_revoked v = v_revoked (view_of old 0) /\
    (doc_wf old -> forall u d k, u ∈ r_users old -> u_user_id u = ap_user_id out -> u_user_pk u = jc_user_pk jc -> d ∈ u_devices u ->
       decode_endpoint_id (d_endpoint_id d) = Ok k -> Validate.is_revoked v k = false ->
       exists rd', Validate.resolve v k = Some rd' /\ rd_user_id rd' = ap_user_id out) /\
    0 <= r_serial doc <= u64_max.
Proof.
  intros Hb Hold H. unfold org_approve in H. org_ok.
  match goal with H : load_operator_roster _ _ = _ |- _ => destruct (operator_reads _ _ _ _ _ _ _ Hb Hold H) as (-> & Hn & _ & _);
    pose proof (fun Hsh => operator_key _ _ _ _ _ Hsh H) as Hroot end.
  match goal with H : inspect_join_code _ = _ |- _ => apply inspect_Ok in H as (Hc & Hu & Hd & Hsig & Hfp) end.
  match goal with H : upsert_member _ _ _ _ _ _ _ = _ |- _ => pose proof H as (Hser & Hrev & (u & d & Hin & Huid & Hpk & Hg & Hdin & Hde) & Hother & Hkeep)%upsert_has;
    apply upsert_guards in H as (_ & _ & _ & _ & Hlive) end.
  match goal with H : sign _ _ = _ |- _ => pose proof (sign_verifies _ _ _ H) as Hverify; apply sign_Ok in H as [sg ->] end.
  match goal with H : install_authored _ _ _ _ = _ |- _ => apply (publish_next _ old) in H as (_ & Hnext & v & Hp & _);
    [|by eapply roster_from_slice_serial|done] end.
  rewrite Hn in Hp. pose proof Hp as [_ [Hwf [t ->]] Hnew _ _ _ _]. rewrite Hnext in Hnew. pose proof (bump_range old) as Hrange.
  rewrite <- Hser in Hrange.
  eexists _, _, _, _, _, (resolved u d). split_and!; try done; [| |lia|by exists u| | | |apply Hrange|apply Hrange].
  - apply view_of_resolve; [done|]. exists u, d. rewrite Hde. split_and!; try done. simpl. rewrite Hrev, elem_of_revoked_set.
    intros (s' & Hs' & Hk). by rewrite (decode_endpoint_id_inj _ _ _ Hk Hd) in Hs'.
  - by apply negb_true_iff.
  - intros key Hsh Hk. destruct (Hroot Hsh) as [Hk' _]. by rewrite (holds_key_inj _ _ _ _ Hk Hk').
  - simpl. by rewrite Hrev.
  - intros Hwf0 u0 d0 kk Hu0 Hid0 Hpk0 Hd0 Hk0 Hlive0.
    destruct (Hkeep u0 d0) as (u' & Hu' & Hid' & Hd'); [by apply (find_first_user old)|done..|].
    exists (resolved u' d0). split; [|exact Hid']. apply view_of_resolve; [done|]. exists u', d0. split_and!; try done.
    by apply bool_decide_eq_false in Hlive0.
Qed.

(** A revocation that reports success has done what its mode says, in the document the
    node now serves: a device cut revokes exactly the named device of the named person; cutting
    a person leaves no device resolving to them and every device the old document gave them
    revoked; a key rotation leaves no device resolving to them and the revoked ones as they
    were.  Everything else resolves as before, the serial is the next one, and every open
    connection the new view cuts off has been closed. *)
Theorem org_revoke_spec io target user_key n out n' b old :
  rn_roster_json (og_roster n) = Some b -> roster_from_slice b = Some old -> doc_wf old ->
  org_revoke io target user_key n = (Ok out, n') ->
  exists doc v, published io doc (oi_meanwhile io (og_roster n)) (og_roster n') v /\ r_serial doc = r_serial old + 1 /\
    revoked_view target user_key old (rr_mode out) v /\
    rr_severed out = length (severed v (oi_meanwhile io (og_roster n))) /\
    forall i t, reg_inner (k_registry (m_conns (rn_mesh (oi_meanwhile io (og_roster n))))) !! i = Some t -> cut_off v t ->
      t_conn t ∈ k_closed (m_conns (rn_mesh (og_roster n'))).
Proof.
  intros Hb Hold Hwf H. unfold org_revoke in H. org_ok.
  match goal with H : load_operator_roster _ _ = _ |- _ => destruct (operator_reads _ _ _ _ _ _ _ Hb Hold H) as (-> & Hn & _ & _) end.
  match goal with H : sign _ _ = _ |- _ => apply sign_Ok in H as [sg ->] end.
  match goal with H : revoke_in _ _ _ = _ |- _ => rename H into Hrev end. pose proof (revoke_in_serial _ _ _ _ _ Hrev) as Hser.
  match goal with H : install_authored _ _ _ _ = _ |- _ => apply (publish_next _ old) in H as (_ & Hnext & v & Hp & Hout);
    [|by eapply roster_from_slice_serial|exact Hser] end.
  rewrite Hn in *. simplify_eq/=. eexists _, v. split; [exact Hp|]. split; [exact Hnext|]. pose proof Hp as [_ [_ [t ->]] _ _ _ _ _].
  split; [by apply revoke_in_view|]. split; [done|]. intros i tr. by apply (published_severs _ _ _ _ _ _ _ Hp).
Qed.

(** Creating an organisation happens once.  On success a root was minted where no key file
    was, its key is in the file and is the one pinned in the configuration; the node serves an
    empty document of that name at serial one; the invite decodes to the name, the root and the
    URL; and whatever is asked afterwards, no second organisation is created on this node. *)
Theorem org_create_spec io name secs url n out n' cfg :
  shares (oi_root io) -> config_load Config.healthy (rn_config (oi_meanwhile io (og_roster n))) = Ok cfg ->
  org_create io name secs url n = (Ok out, n') ->
  og_files n !! root_path n = None /\
  exists root v cfg', holds_key (og_files n') (root_path n') root /\
    config_load Config.healthy (rn_config (og_roster n')) = Ok cfg' /\ i_org_root_pk (c_identity cfg') = Some (pk_text root) /\
    m_roster (rn_mesh (og_roster n')) = Some v /\ v_org_id v = name /\ v_serial v = 1 /\ (forall k, Validate.resolve v k = None) /\
    org_decode (cr_org_invite out) = Ok {| oc_org_id := name; oc_org_root_pk := pk_text root; oc_roster_url := url |} /\
    is_Some (cr_fingerprint out) /\
    forall io' name' secs' url', shares (oi_root io') -> is_ok (org_create io' name' secs' url' n').1 = false.
Proof.
  intros Hsh Hc H. unfold org_create in H. org_ok.
  match goal with k : nat |- _ => rename k into cut end.
  match goal with H : load_key ?k ?p ?x = _ |- _ => rename x into n; unfold load_key in H;
    destruct (load_or_generate_signing_key _ _ _) as [res fs] eqn:Hl; injection H as Hr <-; apply map_err_Ok in Hr as -> end.
  match goal with H : install_authored _ _ _ _ = (_, ?x) |- _ => rename H into Hi, x into n1 end.
  match goal with H : mint_signed _ _ = _ |- _ => apply map_err_Ok in H; rename H into Hm end.
  match goal with H : _ = (Ok _, n') |- _ => rename H into Hu end.
  apply (load_holds _ _ _ _ _ _ Hsh) in Hl as (_ & Hh & Hn & _). destruct (Hn eq_refl) as [Hnone _]. split; [exact Hnone|].
  pose proof (sign_verifies _ _ _ Hm) as Hv. apply sign_Ok in Hm as [sg ->].
  assert (Hs : forall t1 t2, 0 <= r_serial (set_sig sg (empty_roster name 1 t1 t2)) <= u64_max) by done.
  pose proof (fun Hs => authored_pins io _ s (with_files fs n) _ _ cfg Hs Hv Hc Hi) as Hpins.
  destruct (Hpins (Hs _ _)) as (cfg1 & Hc1 & Hp1).
  apply authored_Ok in Hi as (Hf & Hd & v & [Hview [Hwf [t ->]] _ _ _ _ _] & [= -> -> ->]); [|apply Hs]. simpl in Hf, Hd.
  assert (Hrest : og_files n' = og_files n1 /\ og_config_dir n' = og_config_dir n1 /\
    m_roster (rn_mesh (og_roster n')) = m_roster (rn_mesh (og_roster n1)) /\
    exists cfg', config_load Config.healthy (rn_config (og_roster n')) = Ok cfg' /\ i_org_root_pk (c_identity cfg') = i_org_root_pk (c_identity cfg1)).
  { destruct url as [url|]; injection Hu as <- <-; [|split_and!; [done..|by exists cfg1]].
    destruct (set_url_keeps (oi_url io) url _ _ Hc1) as [Hm (c & Hl & He)]. split_and!; [done..|exact Hm|].
    exists c. by rewrite He. }
  destruct Hrest as (Hf' & Hd' & Hm' & cfg' & Hc' & Hp'). unfold root_path in *. rewrite <- Hd, <- Hd', <- Hf, <- Hf' in Hh.
  eexists _, _, cfg'. split_and!; [exact Hh|exact Hc'|by rewrite Hp'|by rewrite Hm'|done|done| | | |].
  - intros k. done.
  - apply decode_encode_code.
  - destruct (digest_words_Some (blake3 (root_transcript (key_bytes (pk_bytes s)))) 4) as [w Hw]; [lia|]. exists w. exact Hw.
  - intros io' name' secs' url' Hsh'. apply create_once; [done|]. destruct Hh as (k & Hk & _). eauto.
Qed.

(** A rotation that reports success has moved the trust anchor everywhere it should: the
    root's key file holds the successor, a different key, which the configuration pins; the
    node serves the next serial with the same people and revocations; and the document it
    published carries any member still pinned to the old root over to the successor. *)
Theorem org_rotate_spec io new_key_path n out n' b old cfg :
  shares (oi_root io) -> shares (oi_next io) ->
  rn_roster_json (og_roster n) = Some b -> roster_from_slice b = Some old ->
  config_load Config.healthy (rn_config (oi_meanwhile io (og_roster n))) = Ok cfg ->
  org_rotate io new_key_path n = (Ok out, n') ->
  exists current successor doc v cfg',
    holds_key (og_files n) (root_path n) current /\ holds_key (og_files n') (root_path n) successor /\
    pk_bytes successor <> pk_bytes current /\ rt_new_root_pk out = pk_text successor /\
    config_load Config.healthy (rn_config (og_roster n')) = Ok cfg' /\ i_org_root_pk (c_identity cfg') = Some (pk_text successor) /\
    published io doc (oi_meanwhile io (og_roster n)) (og_roster n') v /\ r_serial doc = r_serial old + 1 /\
    v_org_id v = r_org_id old /\ v_devices v = v_devices (view_of old 0) /\ v_revoked v = v_revoked (view_of old 0) /\
    resolve_verifier doc (verifying_key successor) = Ok (verifying_key successor, None) /\
    (verify doc (verifying_key current) = Ok tt \/
     resolve_verifier doc (verifying_key current) = Ok (verifying_key successor, Some (pk_text successor))).
Proof.
  intros Hr Hx Hb Hold Hc H. unfold org_rotate, rotate_prepare in H. org_ok.
  match goal with H : load_operator_roster _ _ = _ |- _ => destruct (operator_reads _ _ _ _ _ _ _ Hb Hold H) as (-> & _);
    pose proof (operator_key _ _ _ _ _ Hr H) as [Hcur _]; rename H into Hl end.
  match goal with H : load_key _ _ _ = _ |- _ => rename H into Hk end.
  match goal with H : promote _ _ _ = (Ok ?p, ?x) |- _ => rename p into prior, x into n3;
    destruct (rotate_promoted _ _ _ _ _ _ _ _ _ _ _ Hr Hx Hl Hk H) as (Hn & Hd & Hsucc & _) end.
  match goal with H : or_rollback _ _ _ _ = _ |- _ => apply or_rollback_Ok in H; rename H into Hi end.
  match goal with H : sign ?k _ = _ |- _ => rename k into successor; rename H into Hs end.
  match goal with H : negb _ = true |- _ => apply negb_true_iff, bool_decide_eq_false in H; rename H into Hne end.
  pose proof (sign_verifies _ _ _ Hs) as Hv. apply sign_Ok in Hs as [sg ->]. rewrite <- Hn in Hc.
  pose proof (bridge_adopted _ _ (r_org_id old) (bump old) _ eq_refl Hv) as [Hself Hmember].
  pose proof (fun Hs => authored_pins io _ successor n3 _ _ cfg Hs Hv Hc Hi) as Hpins.
  destruct (Hpins (bump_range old)) as (cfg' & Hc' & Hp').
  apply (publish_next _ old) in Hi as (Hf & Hnext & v & Hp & _); [|by eapply roster_from_slice_serial|done]. rewrite Hn in Hp.
  rewrite <- Hf in Hsucc. pose proof Hp as [_ [_ [t Ht]] _ _ _ _ _].
  eexists _, successor, _, v, cfg'. split_and!; try done; by rewrite Ht.
Qed.

(** C20: a rotation that fails leaves the root's key file holding the key it held, whenever the
    old file could be read and written back; the gate's view, the connections and the
    configuration are those of a node that never rotated, though the document may have reached
    the disk.  The staged successor is not left behind for the next rotation: once the install
    has begun to fail its file is gone, and its key with it. *)
Theorem org_rotate_failure io new_key_path n e n' key :
  shares (oi_root io) -> shares (oi_next io) -> oi_prior io = None -> oi_rollback io = None ->
  holds_key (og_files n) (root_path n) key -> org_rotate io new_key_path n = (Err e, n') ->
  let next := next_path new_key_path n in
  let node := oi_meanwhile io (og_roster n) in
  holds_key (og_files n') (root_path n) key /\
  (og_roster n' = og_roster n \/ og_roster n' = node \/
   m_roster (rn_mesh (og_roster n')) = m_roster (rn_mesh node) /\ m_conns (rn_mesh (og_roster n')) = m_conns (rn_mesh node) /\
   rn_config (og_roster n') = rn_config node /\ exists doc, rn_roster_json (og_roster n') = Some (roster_to_vec_pretty doc)) /\
  ((exists e', e = NotPublished e') -> next <> root_path n -> og_files n' !! next = None).
Proof.
  intros Hr Hx Hprior Hroll Hkey H next node. unfold org_rotate in H.
  apply obind_Err in H as [[=]|(nx & n0 & [= <- <-] & H)]. fold next in H.
  apply obind_Err in H as [Hpre|([[current successor] doc] & n1 & Hpre & H)].
  { destruct (keeps_prepare io next Hr Hx n) as [Hkept Hun]. rewrite Hpre in Hkept, Hun. simpl in *.
    split; [by apply (kept_holds n)|]. split; [left; apply Hkept|]. intros [e' ->]. by destruct (Hun _ eq_refl). }
  pose proof (prepare_Ok _ _ _ _ _ _ _ Hr Hx Hpre) as [_ Hs]. destruct (keeps_prepare io next Hr Hx n) as [Hkept _].
  rewrite Hpre in Hkept. simpl in Hkept. pose proof (kept_holds _ _ _ Hkept Hkey) as Hkey1. destruct Hkept as (Hn1 & Hd1 & _).
  apply obind_Err in H as [Hp|(prior & n2 & Hp & H)].
  { apply promote_Err in Hp as [-> [m ->]]. split; [done|]. split; [by left|]. by intros [e' [=]]. }
  apply promote_Ok in Hp as (Hn2 & Hd2 & Hpr & b & _ & Hf2). rewrite Hd1 in *.
  apply obind_Err in H as [H|(? & ? & ? & [=])]. unfold or_rollback in H.
  destruct (install_authored _ _ _ n2) as [[x|e1] n3] eqn:Hi; [done|]. injection H as <- <-.
  apply authored_Err in Hi as (Hf & Hd & Hst); [|done]. rewrite Hn2, Hn1 in Hst. fold node in Hst.
  assert (Hrp : root_path n3 = root_path n) by (rewrite <- Hd1; unfold root_path; by rewrite Hd, Hd2).
  split; [|split].
  - rewrite (Hpr Hprior). by apply rollback_holds.
  - right. rewrite rollback_roster. destruct Hst as [Hst|(? & ? & ? & ?)]; [by left|right]. split_and!; [done..|eauto].
  - intros _ Hne. rewrite rollback_files by congruence. rewrite Hf, Hf2, lookup_insert_ne, lookup_delete_eq; congruence.
Qed.
End properties.

(** ** Witnesses *)
Module Witness.
Import Toy ToyRows Config.ToyToml Validate.Sample ToyRosters ToyKeys ToyEnroll.

Definition io1 : OrgIo := {|
  oi_now := 2000; oi_root := fun _ => quiet root; oi_next := fun _ => quiet successor; oi_read := None; oi_prior := None;
  oi_rename := None; oi_rollback := None; oi_roster := Rosters.Witness.io0; oi_url := Rosters.Witness.io0;
  oi_env := Rosters.Witness.env0; oi_meanwhile := fun n => n |}.
Lemma shares_quiet k : shares (fun _ => quiet k).
Proof. intros i. split; by intros o b ->. Qed.

(** A node that founds an organisation, approves Bob's tablet and cuts it off again. *)
Definition founder : OrgNode := {| og_config_dir := "/etc"; og_roster := Rosters.Witness.n0; og_files := ∅ |}.
Definition founded : OrgNode := (org_create io1 "acme" (Some 86400) None founder).2.
Definition bob_key : SigningKey := key_fill Byte.x41.
Definition bob_code : string := join_encode {|
  jc_display_name := "Bob"; jc_requested_user_id := "bob"; jc_user_pk := pk_text bob_key;
  jc_device_endpoint_id := ep Byte.x33; jc_device_label := "tablet";
  jc_binding_sig := encode_b64u (sign_device_binding bob_key (key_fill Byte.x33)) |}.
Definition approved : OrgNode := (org_approve io1 bob_code ["eng"%string] None founded).2.

Lemma org_run_ok {A} (v : OrgAct A) n : is_ok (v n).1 = true -> exists a, v n = (Ok a, (v n).2).
Proof. destruct (v n) as [[a|] m]; [eauto|done]. Qed.
Definition doc_of (n : OrgNode) : Roster := default body (rn_roster_json (og_roster n) ≫= roster_from_slice).
Lemma founded_ok : is_ok (org_create io1 "acme" (Some 86400) None founder).1 = true.
Proof. vm_compute. reflexivity. Qed.
Lemma approved_ok : is_ok (org_approve io1 bob_code ["eng"%string] None founded).1 = true.
Proof. vm_compute. reflexivity. Qed.
Lemma revoked_ok : is_ok (org_revoke io1 "bob/tablet" false approved).1 = true.
Proof. vm_compute. reflexivity. Qed.
Lemma rotated_ok : is_ok (org_rotate io1 None approved).1 = true.
Proof. vm_compute. reflexivity. Qed.

Definition readable (n : OrgNode) : bool :=
  match rn_roster_json (og_roster n) ≫= roster_from_slice with Some _ => true | None => false end.
Lemma on_disk n : readable n = true ->
  exists b, rn_roster_json (og_roster n) = Some b /\ roster_from_slice b = Some (doc_of n).
Proof.
  unfold readable, doc_of. destruct (rn_roster_json (og_roster n)) as [b|]; [|done]. simpl.
  destruct (roster_from_slice b) as [r|] eqn:Hr; [|done]. intros _. exists b. by rewrite Hr.
Qed.
Lemma founded_reads : readable founded = true.
Proof. vm_compute. reflexivity. Qed.
Lemma approved_reads : readable approved = true.
Proof. vm_compute. reflexivity. Qed.
Lemma approved_wf : doc_wf (doc_of approved).
Proof.
  assert (is_ok (Validate.build_view (doc_of approved) 0) = true) as [v Hv]%is_ok_true by (vm_compute; reflexivity).
  by apply build_view_Ok in Hv as [? _].
Qed.
Lemma config_reads n : is_ok (config_load Config.healthy (rn_config (og_roster n))) = true ->
  exists cfg, config_load Config.healthy (rn_config (og_roster n)) = Ok cfg.
Proof. apply is_ok_true. Qed.
Lemma founder_config : is_ok (config_load Config.healthy (rn_config (og_roster founder))) = true.
Proof. vm_compute. reflexivity. Qed.
Lemma approved_config : is_ok (config_load Config.healthy (rn_config (og_roster approved))) = true.
Proof. vm_compute. reflexivity. Qed.

Lemma org_create_spec_witness : exists v, m_roster (rn_mesh (og_roster founded)) = Some v /\ v_org_id v = "acme"%string /\ v_serial v = 1 /\
  is_ok (org_create io1 "acme" None None founded).1 = false.
Proof.
  destruct (org_run_ok _ _ founded_ok) as [out Hout]. destruct (config_reads _ founder_config) as [cfg Hcfg].
  destruct (org_create_spec io1 "acme" (Some 86400) None founder out founded cfg (shares_quiet root) Hcfg Hout)
    as (_ & r & v & cfg' & _ & _ & _ & Hv & Ho & Hs & _ & _ & _ & Honce).
  exists v. split; [exact Hv|]. split; [exact Ho|]. split; [exact Hs|]. exact (Honce io1 "acme"%string None None (shares_quiet root)).
Defined.

Lemma org_approve_spec_witness : exists device v rd,
  m_roster (rn_mesh (og_roster approved)) = Some v /\ Validate.resolve v device = Some rd /\ ["eng"%string] ⊆ rd_groups rd.
Proof.
  destruct (org_run_ok _ _ approved_ok) as [out Hout]. destruct (on_disk _ founded_reads) as (b & Hb & Hold).
  destruct (org_approve_spec io1 bob_code ["eng"%string] None founded out approved b _ Hb Hold Hout)
    as (jc & pk & device & doc & v & rd & _ & _ & _ & _ & _ & Hp & Hr & _ & Hg & _).
  exists device, v, rd. split; [exact (pb_view _ _ _ _ _ Hp)|]. split; [exact Hr|exact Hg].
Defined.

Lemma org_revoke_spec_witness : exists v out,
  m_roster (rn_mesh (og_roster (org_revoke io1 "bob/tablet" false approved).2)) = Some v /\
  revoked_view "bob/tablet" false (doc_of approved) (rr_mode out) v.
Proof.
  destruct (org_run_ok _ _ revoked_ok) as [out Hout]. destruct (on_disk _ approved_reads) as (b & Hb & Hold).
  destruct (org_revoke_spec io1 "bob/tablet" false approved out _ b _ Hb Hold approved_wf Hout) as (doc & v & Hp & _ & Hv & _).
  exists v, out. split; [exact (pb_view _ _ _ _ _ Hp)|exact Hv].
Defined.

Lemma org_rotate_spec_witness : exists successor cfg,
  holds_key (og_files (org_rotate io1 None approved).2) "/etc/org-root.key" successor /\
  config_load Config.healthy (rn_config (og_roster (org_rotate io1 None approved).2)) = Ok cfg /\
  i_org_root_pk (c_identity cfg) = Some (pk_text successor).
Proof.
  destruct (org_run_ok _ _ rotated_ok) as [out Hout]. destruct (on_disk _ approved_reads) as (b & Hb & Hold).
  destruct (config_reads _ approved_config) as [cfg Hcfg].
  destruct (org_rotate_spec io1 None approved out _ b _ cfg (shares_quiet root) (shares_quiet successor) Hb Hold Hcfg Hout)
    as (current & s & doc & v & cfg' & _ & Hh & _ & _ & Hc & Hp & _).
  exists s, cfg'. split; [exact Hh|]. split; [exact Hc|exact Hp].
Defined.

(** The new root cannot be pinned. *)
Definition io_full : OrgIo := {|
  oi_now := 2000; oi_root := fun _ => quiet root; oi_next := fun _ => quiet successor; oi_read := None; oi_prior := None;
  oi_rename := None; oi_rollback := None; oi_roster := Rosters.Witness.io_full; oi_url := Rosters.Witness.io0;
  oi_env := Rosters.Witness.env0; oi_meanwhile := fun n => n |}.
Lemma unpinned : is_ok (org_rotate io_full None approved).1 = false.
Proof. vm_compute. reflexivity. Qed.
Lemma approved_key : holds_key (og_files approved) "/etc/org-root.key" root.
Proof. exists root. by split; [vm_compute|]. Qed.

Lemma org_rotate_failure_witness : holds_key (og_files (org_rotate io_full None approved).2) "/etc/org-root.key" root.
Proof.
  assert (He : exists e, org_rotate io_full None approved = (Err e, (org_rotate io_full None approved).2)).
  { pose proof unpinned as Hu. destruct (org_rotate io_full None approved) as [[a|e] m]; [discriminate|]. exists e. reflexivity. }
  destruct He as [e He].
  exact (proj1 (org_rotate_failure io_full None approved e _ root (shares_quiet root) (shares_quiet successor) eq_refl eq_refl approved_key He)).
Defined.
End Witness.
