(* ===== verification/Joining.v ===== *)
(** * Joining an organisation

    [cli/src/enrollcmd.rs]: the joiner's and the operator's ends of an enrollment, on the command
    line: minting the person's key and the join code, binding another device, approving. What a
    verb does once it reaches the daemon is [Rosters] and [Org]; here are the key files, the
    codes, what is handed over and what is printed.

    A host is the record of its daemon's node and its key files ([OrgNode]), which the command
    line reads too. *)
From stdpp Require Import base list gmap strings pretty.
From Stdlib Require Import ZArith Lia Strings.Byte.
From S2P Require Import Prelude Bytes Digits Json Externals Schema Sign Keys Enroll Validate Mutate Identity Allowlist Gate Config AuditFiles Registry Session Mesh Rosters Sas Org.

Local Open Scope Z_scope.

(** ** Names *)
Definition is_ascii_alphanumeric (c : byte) : bool :=
  ((48 <=? byte_val c) && (byte_val c <=? 57)) || ((65 <=? byte_val c) && (byte_val c <=? 90)) || ((97 <=? byte_val c) && (byte_val c <=? 122)).
Definition to_ascii_lowercase (c : byte) : byte :=
  if (65 <=? byte_val c) && (byte_val c <=? 90) then byte_of (byte_val c + 32) else c.
Definition dash : byte := Byte.x2d.

(** The loop: a character that is not kept gives at most one dash, so reading the bytes of one
    outside ASCII one by one is reading the character. *)
Fixpoint slug_chars (last_dash : bool) (b : bytes) : bytes :=
  match b with
  | [] => []
  | c :: b =>
      if is_ascii_alphanumeric c then to_ascii_lowercase c :: slug_chars false b
      else if last_dash then slug_chars true b
      else dash :: slug_chars true b
  end.
(** [while s.ends_with('-') { s.pop(); }]. *)
Fixpoint pop_dashes (reversed : bytes) : bytes :=
  match reversed with
  | c :: b => if bool_decide (c = dash) then pop_dashes b else reversed
  | [] => []
  end.
Definition slug (name : string) : string :=
  let s := rev (pop_dashes (rev (slug_chars true (as_bytes name)))) in
  if bool_decide (s = []) then "user" else from_bytes s.

Definition comma : byte := Byte.x2c.
Fixpoint split_commas (b : bytes) : list bytes :=
  match b with
  | [] => [[]]
  | c :: b =>
      match split_commas b with
      | l :: ls => if bool_decide (c = comma) then [] :: l :: ls else (c :: l) :: ls
      | [] => []
      end
  end.
Definition split_csv (value : option string) : list string :=
  match value with
  | None => []
  | Some s => from_bytes <$> filter (fun x => x <> []) (trim <$> split_commas (as_bytes s))
  end.

(** ** The verbs *)
Inductive JoinError :=
| BadInvite (e : string) | BadOrgRoot (e : RosterError) | NoPath (e : string)
| UserKeyError (path : string) (e : KeyError) | ConfigError (e : string) | DeviceKeyError (path : string) (e : KeyError)
| NoDaemon (e : string) | Refused (e : InstallError) | Lost (e : string)
| BadDeviceCode (e : string) | BadDeviceEndpoint (e : RosterError)
| NotEnrolled | NoUserKey (path : string).

(** A verb on its host. *)
Definition Verb (A : Type) : Type := OrgNode -> result JoinError A * OrgNode.
#[export] Instance verb_ret : MRet Verb := fun A a n => (Ok a, n).
#[export] Instance verb_bind : MBind Verb := fun A B f v n =>
  match v n with
  | (Ok a, n) => f a n
  | (Err e, n) => (Err e, n)
  end.
Definition weigh {A} (r : result JoinError A) : Verb A := fun n => (r, n).
Definition look {A} (f : OrgNode -> A) : Verb A := fun n => (Ok (f n), n).
(** One call of the daemon; its answer may be lost after it took effect. *)
Definition call {A} (lost : option string) (a : Act A) : Verb A := fun n =>
  let '(r, node) := a (og_roster n) in
  (match lost with Some e => Err (Lost e) | None => map_err Refused r end, with_node node n).

Section io.
Context `{E : Ed25519}.
(** The default paths, the faults, and what meets the key files. *)
Record JoinIo := {
  ji_user_path : result string string;
  ji_device_path : result string string;
  ji_config_path : option string;
  ji_config : Faults;
  ji_user : nat -> Attempt;
  ji_device : nat -> Attempt;
  ji_connect : option string;
  ji_join : RosterIo;
  ji_lost : option string;
  ji_url : RosterIo;
  ji_url_lost : option string }.
End io.

Record JoinOutput := {
  jo_org_id : string; jo_user_id : string; jo_join_code : string; jo_join_code_fingerprint : option string;
  jo_org_root_fingerprint : option string; jo_restart_required : bool }.

Section verbs.
Context `{E : Ed25519, T : TextEncoding, J : SerdeJson, C : Chrono, P : RosterPrinter, R : RowCodec, TC : TomlCodec, B : Blake3}.
Context `{S : !SecretBytes E, JO : CodeJson OrgInviteCode, JJ : CodeJson JoinCode, JD : CodeJson DeviceCode}.

(** [UserKey::load_or_generate] and [DeviceKey::load_or_generate]. *)
Definition load_key_file (fail : KeyError -> JoinError) (attempts : nat -> Attempt) (path : string) : Verb SigningKey := fun n =>
  let '(r, files) := load_or_generate_signing_key attempts path (og_files n) in
  (map_err fail (fst <$> r), with_files files n).

Definition read_config (io : JoinIo) : Verb Config :=
  _ ← weigh (match ji_config_path io with Some e => Err (NoPath e) | None => Ok tt end);
  file ← look (fun n => rn_config (og_roster n));
  weigh (map_err ConfigError (config_load (ji_config io) file)).

Definition load_device_key (io : JoinIo) : Verb SigningKey :=
  cfg ← read_config io;
  key_path ← weigh (match i_device_key (c_identity cfg) with
                    | Some p => Ok p
                    | None => map_err NoPath (ji_device_path io)
                    end);
  load_key_file (DeviceKeyError key_path) (ji_device io) key_path.

(** A person's code for one of their devices. *)
Definition join_code (user_key : SigningKey) (display_name user_id : string) (endpoint_text : string) (device_id : key32)
    (label : string) : string :=
  join_encode {|
    jc_display_name := display_name; jc_requested_user_id := user_id; jc_user_pk := pk_text user_key;
    jc_device_endpoint_id := endpoint_text; jc_device_label := label;
    jc_binding_sig := encode_b64u (sign_device_binding user_key device_id) |}.

Definition run_join (io : JoinIo) (org_invite : string) (name user_id : option string) (label : string) : Verb JoinOutput :=
  invite ← weigh (map_err BadInvite (org_decode org_invite));
  root_pk ← weigh (map_err BadOrgRoot (decode_endpoint_id (oc_org_root_pk invite)));
  let display_name := default "user"%string name in
  let requested_user_id := default (slug display_name) user_id in
  user_key_path ← weigh (map_err NoPath (ji_user_path io));
  user_key ← load_key_file (UserKeyError user_key_path) (ji_user io) user_key_path;
  device_key ← load_device_key io;
  let device_id := pk_bytes device_key in
  let code_fp := join_code_fingerprint (key_bytes (pk_bytes user_key)) (key_bytes device_id) in
  let join := join_code user_key display_name requested_user_id (encode_b64u (key_bytes device_id)) device_id label in
  _ ← weigh (match ji_connect io with Some e => Err (NoDaemon e) | None => Ok tt end);
  restart ← call (ji_lost io) (org_join (ji_join io) (oc_org_id invite) (oc_org_root_pk invite) requested_user_id user_key_path);
  _ ← (match oc_roster_url invite with
       | Some url => call (ji_url_lost io) (set_roster_url (ji_url io) url)
       | None => mret tt
       end : Verb unit);
  mret {| jo_org_id := oc_org_id invite; jo_user_id := requested_user_id; jo_join_code := join; jo_join_code_fingerprint := code_fp;
          jo_org_root_fingerprint := fingerprint_words (key_bytes root_pk); jo_restart_required := restart |}.

Definition run_devices_code (io : JoinIo) (label : string) : Verb string :=
  key ← load_device_key io;
  mret (device_encode {| dc_device_endpoint_id := encode_b64u (key_bytes (pk_bytes key)); dc_device_label := label |}).

Definition run_devices_add (io : JoinIo) (device_code : string) : Verb (string * option string) :=
  dc ← weigh (map_err BadDeviceCode (device_decode device_code));
  new_device_id ← weigh (map_err BadDeviceEndpoint (decode_endpoint_id (dc_device_endpoint_id dc)));
  cfg ← read_config io;
  user_id ← weigh (ok_or NotEnrolled (i_user_id (c_identity cfg)));
  user_key_path ← weigh (match i_user_key (c_identity cfg) with
                         | Some p => Ok p
                         | None => map_err NoPath (ji_user_path io)
                         end);
  exists_ ← look (fun n => bool_decide (is_Some (og_files n !! user_key_path)));
  _ ← weigh (if exists_ : bool then Ok tt else Err (NoUserKey user_key_path));
  user_key ← load_key_file (UserKeyError user_key_path) (ji_user io) user_key_path;
  mret (join_code user_key user_id user_id (dc_device_endpoint_id dc) new_device_id (dc_device_label dc),
        join_code_fingerprint (key_bytes (pk_bytes user_key)) (key_bytes new_device_id)).

(** ** What is printed *)
Definition words (w : option string) : string := default ""%string w.

Definition join_lines (o : JoinOutput) : list string :=
  ["Joined org '" +:+ jo_org_id o +:+ "' as '" +:+ jo_user_id o +:+ "'."]%string ++
  (if jo_restart_required o then
     ["  → Restart the daemon before this fully takes effect: this one started in pairing mode, so presence and file sharing stay off until it does. The join itself is saved."%string]
   else []) ++
  ["Org root fingerprint: " +:+ words (jo_org_root_fingerprint o);
   "  → Confirm this matches what the operator reads back, out-of-band, before they approve you.";
   "Send the operator your join code: " +:+ jo_join_code o;
   "Join code fingerprint: " +:+ words (jo_join_code_fingerprint o);
   "  → Read this back to your operator out-of-band so they confirm they received YOUR join code (not a substituted one)."]%string.
Definition join_json (o : JoinOutput) : Value :=
  VObject [("org_id", VString (jo_org_id o)); ("user_id", VString (jo_user_id o)); ("join_code", VString (jo_join_code o));
           ("join_code_fingerprint", VString (words (jo_join_code_fingerprint o)));
           ("org_root_fingerprint", VString (words (jo_org_root_fingerprint o)));
           ("restart_required", VBool (jo_restart_required o))]%string.

(** What the operator reads before the call that approves. *)
Definition confirm_lines (seen : OrgJoinCodeResult) (groups : list string) (user_id : option string) : list string :=
  ["Approving join code " +:+ words (jr_fingerprint seen) +:+ " for '" +:+ jr_display_name seen +:+ "' as user '" +:+
     default (jr_requested_user_id seen) user_id +:+ "', groups [" +:+ String.concat ", " groups +:+ "].";
   "  → Verify " +:+ words (jr_fingerprint seen) +:+ " matches what the joiner read back to you out-of-band; if it doesn't, stop now and ask them for a fresh join code."]%string.
Definition approved_line (out : OrgApproveResult) : string :=
  "Approved '" +:+ ap_user_id out +:+ "' into [" +:+ String.concat ", " (ap_groups out) +:+ "] (org '" +:+ ap_org_id out +:+
  "', serial " +:+ pretty (ap_serial out) +:+ ").".

Definition approved_json (out : OrgApproveResult) : Value :=
  VObject [("user_id", VString (ap_user_id out)); ("groups", VArray (VString <$> ap_groups out)); ("org_id", VString (ap_org_id out));
           ("serial", VNumber (NInt (ap_serial out))); ("join_code_fingerprint", VString (words (ap_fingerprint out)))]%string.

(** What is printed: a line, or the object of [--json]. *)
Inductive Printed := Line (text : string) | Object (v : Value).

(** Everything printed, the answer, and the operator's host afterwards, when the daemon is
    reached. *)
Definition run_org_approve (io : OrgIo) (join_code groups : string) (user_id : option string) (json : bool) (n : OrgNode) :
    list Printed * (result OrgError OrgApproveResult * OrgNode) :=
  let groups := split_csv (Some groups) in
  let approve printed :=
    let '(r, n') := org_approve io join_code groups user_id n in
    (printed ++ (match r with Ok out => [if json then Object (approved_json out) else Line (approved_line out)] | Err _ => [] end), (r, n')) in
  if json then approve []
  else
    match org_join_code join_code with
    | Err e => ([], (Err e, n))
    | Ok seen => approve (Line <$> confirm_lines seen groups user_id)
    end.

Definition revoke_action (mode : RevokeMode) (target : string) : string :=
  match mode with
  | UserKeyRotation => "Rotated '" +:+ target +:+ "': removed from the roster. They re-enroll with a fresh user key (same device), then re-approve with the same user_id"
  | DeviceCut => "Revoked device '" +:+ target +:+ "'"
  | PersonCut => "Revoked person '" +:+ target +:+ "' (all devices)"
  end.
Definition revoke_line (out : OrgRevokeResult) : string :=
  revoke_action (rr_mode out) (rr_target out) +:+ " (org '" +:+ rr_org_id out +:+ "', serial " +:+ pretty (rr_serial out) +:+
  "). Severed " +:+ pretty (Z.of_nat (rr_severed out)) +:+ " live session" +:+ (if decide (rr_severed out = 1%nat) then "" else "s") +:+ ".".
End verbs.

(** ** Lemmas *)
Lemma jbind_Ok {X Y} (v : Verb X) (f : X -> Verb Y) n b n' :
  (v ≫= f) n = (Ok b, n') -> exists a n1, v n = (Ok a, n1) /\ f a n1 = (Ok b, n').
Proof. unfold mbind, verb_bind. destruct (v n) as [[a|e] n1]; [eauto|done]. Qed.
Lemma weigh_Ok {A} (r : result JoinError A) n a n' : weigh r n = (Ok a, n') -> r = Ok a /\ n' = n.
Proof. by intros [= -> <-]. Qed.
Lemma call_Ok {A} lost (a : Act A) n x n' :
  call lost a n = (Ok x, n') -> exists node, a (og_roster n) = (Ok x, node) /\ n' = with_node node n.
Proof.
  unfold call. destruct (a (og_roster n)) as [r node]. destruct lost; intros [= Hr <-]. apply map_err_Ok in Hr as ->. eauto.
Qed.

(** Unfolds a verb that succeeded into its steps. *)
Ltac verb_ok :=
  repeat match goal with
  | H : (_ ≫= _) _ = (Ok _, _) |- _ => apply jbind_Ok in H as (? & ? & ? & ?)
  | H : weigh _ _ = (Ok _, _) |- _ => apply weigh_Ok in H as [? ->]
  | H : look _ _ = (Ok _, _) |- _ => injection H as ? ?; subst
  | H : call _ _ _ = (Ok _, _) |- _ => apply call_Ok in H as (? & ? & ->)
  | H : mret _ _ = (Ok _, _) |- _ => injection H as ? ?; subst
  | H : map_err _ _ = Ok _ |- _ => apply map_err_Ok in H
  | H : ok_or _ _ = Ok _ |- _ => apply ok_or_Ok in H
  end; simpl in *.

(** *** Names *)
Lemma slug_chars_kept last b c : c ∈ slug_chars last b -> is_ascii_alphanumeric c = true \/ c = dash.
Proof.
  revert last. induction b as [|d b IH]; intros last; simpl; [by intros ?%not_elem_of_nil|].
  destruct (is_ascii_alphanumeric d) eqn:Hd.
  - intros [->|?]%elem_of_cons; [|by eapply IH]. left. revert Hd. clear. destruct d; vm_compute; done.
  - destruct last; [by apply IH|]. intros [->|?]%elem_of_cons; [by right|by eapply IH].
Qed.
Lemma pop_dashes_suffix b : pop_dashes b `suffix_of` b.
Proof.
  induction b as [|c b IH]; simpl; [done|]. case_bool_decide; [|done]. by apply suffix_cons_r.
Qed.

Definition name_char (c : byte) : bool := is_ascii_alphanumeric c || bool_decide (c = dash).
Lemma drop_all_name l c b n : l = whitespace \/ l = reverse <$> whitespace -> name_char c = true -> drop_all n l (c :: b) = c :: b.
Proof.
  intros Hl Hc. destruct n as [|n]; [done|]. cbn [drop_all]. rewrite drop_one_none; [done|].
  assert (Hw : Forall (fun w : bytes => match w with x :: _ => name_char x = false | [] => False end) l).
  { destruct Hl as [->| ->]; vm_compute; repeat constructor. }
  eapply Forall_impl; [exact Hw|]. intros [|x w]; [done|]. intros Hx. split; [|done]. simpl. congruence.
Qed.
Lemma trim_name b : Forall (fun c => name_char c = true) b -> trim b = b.
Proof.
  intros Hb. unfold trim. destruct b as [|c b']; [done|]. pose proof (Forall_inv Hb) as Hc. set (b := c :: b') in *.
  rewrite (drop_all_name whitespace c b') by auto. fold b.
  assert (Hr : Forall (fun c => name_char c = true) (reverse b)) by (by apply Forall_reverse).
  destruct (reverse b) as [|d r] eqn:E; [by apply (f_equal reverse) in E; rewrite reverse_involutive in E|].
  rewrite drop_all_name by (by right || by apply Forall_inv in Hr). rewrite <- E. apply reverse_involutive.
Qed.

(** A name a person is given by default is never one the operator's checks refuse. *)
Lemma slug_accepted name : blank (slug name) = false /\ has_slash (slug name) = false.
Proof.
  unfold slug. case_bool_decide as Hn; [done|]. set (s := rev _) in *.
  assert (Hin : Forall (fun c => name_char c = true) s).
  { apply Forall_forall. intros c Hc. unfold name_char. apply orb_true_iff. rewrite bool_decide_eq_true.
    apply (slug_chars_kept true (as_bytes name)). subst s. rewrite list_elem_of_In, <- in_rev, <- list_elem_of_In in Hc.
    destruct (pop_dashes_suffix (rev (slug_chars true (as_bytes name)))) as [p Hp].
    rewrite list_elem_of_In, in_rev, <- list_elem_of_In, Hp. apply elem_of_app. by right. }
  unfold blank, has_slash. rewrite as_from_bytes, (trim_name _ Hin). split; [by apply bool_decide_eq_false|].
  apply existsb_false. intros c Hc. rewrite Forall_forall in Hin. specialize (Hin _ Hc). apply bool_decide_eq_false. by intros ->.
Qed.

Section lemmas.
Context `{E : Ed25519, T : TextEncoding, J : SerdeJson, C : Chrono, P : RosterPrinter, R : RowCodec, TC : TomlCodec, B : Blake3}.
Context `{S : !SecretBytes E, JO : CodeJson OrgInviteCode, JJ : CodeJson JoinCode, JD : CodeJson DeviceCode}.
Context `{EL : !Ed25519Laws E, TL : !TextEncodingLaws T, JL : !SerdeJsonLaws J, PL : !RosterPrinterLaws P, SL : !SecretBytesLaws S}.
Context `{CL : !TomlCodecLaws TC, LO : !CodeJsonLaws JO, LJ : !CodeJsonLaws JJ, LD : !CodeJsonLaws JD}.

(** *** Key files *)
Definition keeps_files (n n' : OrgNode) : Prop := forall p b, og_files n !! p = Some b -> og_files n' !! p = Some b.

Lemma load_key_file_Ok fail attempts path n key n' :
  shares attempts -> load_key_file fail attempts path n = (Ok key, n') ->
  og_roster n' = og_roster n /\ keeps_files n n' /\ holds_key (og_files n') path key /\
  (is_Some (og_files n !! path) -> holds_key (og_files n) path key).
Proof.
  intros Hsh. unfold load_key_file. destruct (load_or_generate_signing_key _ _ _) as [r files] eqn:Hl. intros [= Hr <-].
  apply map_err_Ok in Hr. destruct r as [[k c]|]; [|done]. injection Hr as ->.
  apply (load_holds _ _ _ _ _ _ Hsh) in Hl as (Hk & Hh & _ & Hc). split_and!; [done..|]. intros Hs. by apply Hc.
Qed.

Lemma holds_kept n n' path key : keeps_files n n' -> holds_key (og_files n) path key -> holds_key (og_files n') path key.
Proof. intros Hk (k & Hf & ->). exists k. auto. Qed.

Lemma read_config_Ok io n cfg n' :
  read_config io n = (Ok cfg, n') -> n' = n /\ config_load Config.healthy (rn_config (og_roster n)) = Ok cfg.
Proof. intros H. unfold read_config in H. verb_ok. split; [done|]. by eapply healthy_load. Qed.

Lemma load_device_key_Ok io n key n' :
  shares (ji_device io) -> load_device_key io n = (Ok key, n') ->
  og_roster n' = og_roster n /\ keeps_files n n' /\ exists path, holds_key (og_files n') path key.
Proof.
  intros Hsh H. unfold load_device_key in H. verb_ok.
  match goal with H : read_config _ _ = _ |- _ => apply read_config_Ok in H as [-> _] end.
  match goal with H : load_key_file _ _ _ _ = _ |- _ => apply load_key_file_Ok in H as (? & ? & ? & _); [|done] end. eauto.
Qed.

(** *** Codes *)
Lemma decode_pk_text key : decode_endpoint_id (pk_text key) = Ok (pk_bytes key).
Proof. unfold decode_endpoint_id, pk_text. rewrite decode_encode_b64u. simpl. by rewrite try_key32_bytes. Qed.

(** A code inspects to what it was made of: its binding holds, and the words shown are those
    over the person's key and the device. *)
Lemma inspect_join_code_made key name uid ep device label :
  decode_endpoint_id ep = Ok device ->
  exists jc, inspect_join_code (join_code key name uid ep device label) =
      Ok (jc, pk_bytes key, device, join_code_fingerprint (key_bytes (pk_bytes key)) (key_bytes device)) /\
    jc_requested_user_id jc = uid /\ jc_display_name jc = name /\ jc_user_pk jc = pk_text key /\ jc_device_endpoint_id jc = ep /\
    jc_device_label jc = label.
Proof.
  intros Hd. unfold inspect_join_code, join_code. unfold join_decode, join_encode. rewrite decode_encode_code. simpl.
  assert (Hv : verify_device_binding (pk_bytes key) device (sign_device_binding key device) = Ok tt).
  { apply verify_slice_Ok. exists (verifying_key key). split; [apply vk_from_to|]. split; [apply sig_to_bytes_length|].
    unfold sign_device_binding. rewrite sig_from_to. apply verify_sign. }
  rewrite decode_pk_text, Hd. simpl. rewrite decode_encode_b64u. cbn [map_err mbind result_bind]. rewrite Hv.
  eexists. split; [reflexivity|done].
Qed.

(** What approving such a code comes to. *)
Lemma approves io key name uid ep device label groups n out n' b old :
  decode_endpoint_id ep = Ok device -> rn_roster_json (og_roster n) = Some b -> roster_from_slice b = Some old ->
  org_approve io (join_code key name uid ep device label) groups None n = (Ok out, n') ->
  ap_fingerprint out = join_code_fingerprint (key_bytes (pk_bytes key)) (key_bytes device) /\
  exists doc v rd, published io doc (oi_meanwhile io (og_roster n)) (og_roster n') v /\
    Validate.resolve v device = Some rd /\ rd_user_id rd = uid /\ groups ⊆ rd_groups rd /\
    (exists u, u ∈ r_users doc /\ u_user_id u = uid /\ u_user_pk u = pk_text key) /\
    (forall root, shares (oi_root io) -> holds_key (og_files n) (root_path n) root -> verify doc (verifying_key root) = Ok tt) /\
    v_revoked v = v_revoked (view_of old 0) /\
    (doc_wf old -> forall u d k, u ∈ r_users old -> u_user_id u = uid -> u_user_pk u = pk_text key -> d ∈ u_devices u ->
       decode_endpoint_id (d_endpoint_id d) = Ok k -> Validate.is_revoked v k = false ->
       exists rd', Validate.resolve v k = Some rd' /\ rd_user_id rd' = uid) /\
    0 <= r_serial doc <= u64_max.
Proof.
  intros Hd Hb Hold H. destruct (inspect_join_code_made key name uid ep device label Hd) as (jc & Hi & Hu & _ & Hpk & He & _).
  destruct (org_approve_spec _ _ _ _ _ _ _ _ _ Hb Hold H)
    as (jc' & pk & dev & doc & v & rd & Hjc & _ & Hdev & _ & Hfp & Hp & Hr & Hid & Hg & _ & _ & _ & _ & Hus & Hout & Hv & Hrev & Hkeep & Hser).
  pose proof Hi as (Hjc0 & _)%inspect_Ok. rewrite Hjc0 in Hjc. injection Hjc as <-.
  rewrite He, Hd in Hdev. injection Hdev as <-. simpl in Hout. rewrite Hu in Hout. rewrite Hout in *. rewrite Hpk in *.
  apply inspect_Ok in Hi as (_ & _ & _ & _ & Hfp'). rewrite Hfp' in Hfp. injection Hfp as Hfp.
  split; [done|]. exists doc, v, rd. split_and!; try done; apply Hser.
Qed.

Lemma org_join_pins io org root_pk uid path n restart n' cfg :
  config_load Config.healthy (rn_config n) = Ok cfg -> org_join io org root_pk uid path n = (Ok restart, n') ->
  exists cfg', config_load Config.healthy (rn_config n') = Ok cfg' /\
    i_org_root_pk (c_identity cfg') = Some root_pk /\ i_org_id (c_identity cfg') = Some org /\
    i_user_id (c_identity cfg') = Some uid /\ i_user_key (c_identity cfg') = Some path.
Proof.
  intros Hc H. unfold org_join, mbind, act_bind, lift, read in H. destruct (parse_org_root_pk root_pk); [|done]. simpl in H.
  destruct (write_config _ _ n) as [[ch|e] n1] eqn:Hw; [|done]. injection H as _ <-.
  apply (write_config_Ok _ (JoinPin org root_pk uid path) _ _ _ cfg I Hc) in Hw. eexists. split; [exact Hw|done].
Qed.

(** What a successful join leaves: the codes are made of the keys in the host's files, and the
    configuration pins the root of the invite, the person and their key. *)
Lemma run_join_Ok io org root url name uid label n jo n' cfg :
  shares (ji_user io) -> shares (ji_device io) -> config_load Config.healthy (rn_config (og_roster n)) = Ok cfg ->
  run_join io (org_encode {| oc_org_id := org; oc_org_root_pk := pk_text root; oc_roster_url := url |}) name uid label n = (Ok jo, n') ->
  exists user_path user_key device_path device_key cfg',
    holds_key (og_files n') user_path user_key /\ holds_key (og_files n') device_path device_key /\
    jo_user_id jo = default (slug (default "user"%string name)) uid /\
    jo_join_code jo = join_code user_key (default "user"%string name) (jo_user_id jo)
      (encode_b64u (key_bytes (pk_bytes device_key))) (pk_bytes device_key) label /\
    jo_join_code_fingerprint jo = join_code_fingerprint (key_bytes (pk_bytes user_key)) (key_bytes (pk_bytes device_key)) /\
    jo_org_root_fingerprint jo = fingerprint_words (key_bytes (pk_bytes root)) /\
    config_load Config.healthy (rn_config (og_roster n')) = Ok cfg' /\
    i_org_root_pk (c_identity cfg') = Some (pk_text root) /\ i_org_id (c_identity cfg') = Some org /\
    i_user_id (c_identity cfg') = Some (jo_user_id jo) /\ i_user_key (c_identity cfg') = Some user_path.
Proof.
  intros Hus Hds Hc H. unfold run_join in H. verb_ok.
  match goal with H : org_decode _ = _ |- _ => unfold org_decode, org_encode in H; rewrite decode_encode_code in H; injection H as <- end.
  simpl in *. match goal with H : decode_endpoint_id _ = _ |- _ => rewrite decode_pk_text in H; injection H as <- end.
  match goal with H : load_key_file _ _ _ n = _ |- _ => apply load_key_file_Ok in H as (Hn1 & _ & Hu & _); [|done] end.
  match goal with H : load_device_key _ _ = _ |- _ => apply load_device_key_Ok in H as (Hn2 & Hk2 & dp & Hd); [|done] end.
  pose proof (holds_kept _ _ _ _ Hk2 Hu) as Hu2.
  match goal with H : org_join _ _ _ _ _ _ = _ |- _ => apply (org_join_pins _ _ _ _ _ _ _ _ cfg) in H as (cfg1 & Hc1 & Hid); [|congruence] end.
  match goal with H : _ = (Ok _, n') |- _ => rename H into Hurl end.
  assert (Hend : og_files n' = og_files x8 /\ exists cfg', config_load Config.healthy (rn_config (og_roster n')) = Ok cfg' /\ c_identity cfg' = c_identity cfg1).
  { destruct url as [url|]; [|injection Hurl as _ <-; split; [done|by exists cfg1]].
    apply call_Ok in Hurl as (node & Hurl & ->). split; [done|]. simpl.
    destruct (set_url_keeps (ji_url io) url _ _ Hc1) as [_ Hcfg]. simpl in Hurl. by rewrite Hurl in Hcfg. }
  destruct Hend as (Hf & cfg' & Hc' & Hid'). rewrite <- Hf, <- Hid' in *.
  eexists _, _, dp, _, cfg'. split_and!; try done; apply Hid.
Qed.

Lemma run_devices_code_Ok io label n code n' :
  shares (ji_device io) -> run_devices_code io label n = (Ok code, n') ->
  exists path key, holds_key (og_files n') path key /\
    code = device_encode {| dc_device_endpoint_id := pk_text key; dc_device_label := label |}.
Proof.
  intros Hsh H. unfold run_devices_code in H. verb_ok.
  match goal with H : load_device_key _ _ = _ |- _ => apply load_device_key_Ok in H as (_ & _ & p & Hk); [|done] end.
  eexists p, _. by split.
Qed.

(** On an enrolled device, the code made for another one is the person's: their key signs it. *)
Lemma run_devices_add_Ok io key label path user_key uid n code fp n' cfg :
  shares (ji_user io) -> config_load Config.healthy (rn_config (og_roster n)) = Ok cfg ->
  i_user_id (c_identity cfg) = Some uid -> i_user_key (c_identity cfg) = Some path -> holds_key (og_files n) path user_key ->
  run_devices_add io (device_encode {| dc_device_endpoint_id := pk_text key; dc_device_label := label |}) n = (Ok (code, fp), n') ->
  code = join_code user_key uid uid (pk_text key) (pk_bytes key) label /\
  fp = join_code_fingerprint (key_bytes (pk_bytes user_key)) (key_bytes (pk_bytes key)).
Proof.
  intros Hsh Hc Hu Hp Hk H. assert (Hs : is_Some (og_files n !! path)) by (destruct Hk as (k & -> & _); by eexists).
  unfold run_devices_add in H. verb_ok.
  match goal with H : device_decode _ = _ |- _ => unfold device_decode, device_encode in H; rewrite decode_encode_code in H; injection H as <- end.
  simpl in *. match goal with H : decode_endpoint_id _ = _ |- _ => rewrite decode_pk_text in H; injection H as <- end.
  match goal with H : read_config _ _ = _ |- _ => apply read_config_Ok in H as [-> Hc'] end.
  rewrite Hc in Hc'. injection Hc' as <-. rewrite Hu, Hp in *. simplify_eq/=.
  match goal with H : load_key_file _ _ _ _ = _ |- _ => apply load_key_file_Ok in H as (_ & _ & _ & Hold); [|done] end.
  by rewrite (holds_key_inj _ _ _ _ (Hold Hs) Hk).
Qed.
End lemmas.

(** The words are printed, and then the approval runs: nothing is read from the operator in
    between, so a code that inspects is approved at once, whatever the words are, exactly as under
    [--json], where none are printed. *)
Lemma approve_never_waits `{E : Ed25519, T : TextEncoding, J : SerdeJson, C : Chrono, P : RosterPrinter, R : RowCodec, TC : TomlCodec, B : Blake3}
    `{S : !SecretBytes E, JO : CodeJson OrgInviteCode, JJ : CodeJson JoinCode} io code groups uid n :
  is_ok (org_join_code code) = true ->
  (run_org_approve io code groups uid false n).2 = (run_org_approve io code groups uid true n).2.
Proof.
  intros [seen Hs]%is_ok_true. unfold run_org_approve. rewrite Hs. by destruct (org_approve _ _ _ _ n).
Qed.

(** ** Properties *)
Section properties.
Context `{E : Ed25519, T : TextEncoding, J : SerdeJson, C : Chrono, P : RosterPrinter, R : RowCodec, TC : TomlCodec, B : Blake3}.
Context `{S : !SecretBytes E, JO : CodeJson OrgInviteCode, JJ : CodeJson JoinCode, JD : CodeJson DeviceCode}.
Context `{EL : !Ed25519Laws E, TL : !TextEncodingLaws T, JL : !SerdeJsonLaws J, PL : !RosterPrinterLaws P, SL : !SecretBytesLaws S}.
Context `{CL : !TomlCodecLaws TC, LO : !CodeJsonLaws JO, LJ : !CodeJsonLaws JJ, LD : !CodeJsonLaws JD}.

(** C37: the enrollment ceremonies compose. A person joins with an operator's invite and hands
    over the code; when the operator approves it, the roster now served resolves the joiner's
    device, by the key in its file, to the id the joiner was told, with the groups granted, and
    is signed by the root the joiner's configuration pins; the words the joiner reads out are
    those the inspection shows and the approval answers, and the root's words are the operator's.
    A second device, bound on the first with the codes of [devices code] and [devices add] and
    approved from that roster, resolves to the same person, with the first one still there. *)
Theorem enrollment_completes io org root url name uid label host jo host' cfg oio groups op out op' b old :
  shares (ji_user io) -> shares (ji_device io) -> config_load Config.healthy (rn_config (og_roster host)) = Ok cfg ->
  run_join io (org_encode {| oc_org_id := org; oc_org_root_pk := pk_text root; oc_roster_url := url |}) name uid label host = (Ok jo, host') ->
  shares (oi_root oio) -> holds_key (og_files op) (root_path op) root ->
  rn_roster_json (og_roster op) = Some b -> roster_from_slice b = Some old ->
  org_approve oio (jo_join_code jo) groups None op = (Ok out, op') ->
  exists device_path device_key cfg' doc v rd,
    holds_key (og_files host') device_path device_key /\
    config_load Config.healthy (rn_config (og_roster host')) = Ok cfg' /\ i_org_root_pk (c_identity cfg') = Some (pk_text root) /\
    jr_fingerprint <$> org_join_code (jo_join_code jo) = Ok (jo_join_code_fingerprint jo) /\ ap_fingerprint out = jo_join_code_fingerprint jo /\
    jo_org_root_fingerprint jo = fingerprint_words (key_bytes (pk_bytes root)) /\
    m_roster (rn_mesh (og_roster op')) = Some v /\ rn_roster_json (og_roster op') = Some (roster_to_vec_pretty doc) /\
    verify doc (verifying_key root) = Ok tt /\
    Validate.resolve v (pk_bytes device_key) = Some rd /\ rd_user_id rd = jo_user_id jo /\ groups ⊆ rd_groups rd /\
    (forall io1 label2 other code other' io2 code2 fp2 host'' oio2 groups2 op1 out2 op2,
       shares (ji_device io1) -> run_devices_code io1 label2 other = (Ok code, other') ->
       shares (ji_user io2) -> run_devices_add io2 code host' = (Ok (code2, fp2), host'') ->
       rn_roster_json (og_roster op1) = rn_roster_json (og_roster op') ->
       org_approve oio2 code2 groups2 None op1 = (Ok out2, op2) ->
       ap_fingerprint out2 = fp2 /\
       exists path2 key2 v2, holds_key (og_files other') path2 key2 /\ m_roster (rn_mesh (og_roster op2)) = Some v2 /\
         (exists rd2, Validate.resolve v2 (pk_bytes key2) = Some rd2 /\ rd_user_id rd2 = jo_user_id jo /\ groups2 ⊆ rd_groups rd2) /\
         exists rd1, Validate.resolve v2 (pk_bytes device_key) = Some rd1 /\ rd_user_id rd1 = jo_user_id jo).
Proof.
  intros Hus Hds Hc Hj Hrs Hroot Hb Hold Ha.
  destruct (run_join_Ok _ _ _ _ _ _ _ _ _ _ _ Hus Hds Hc Hj)
    as (upath & ukey & dpath & dkey & cfg' & Hu & Hd & Huid & Hcode & Hfp & Hrfp & Hc' & Hpin & _ & Hcu & Hck).
  rewrite Hcode in *. pose proof (decode_pk_text dkey) as Hdk. unfold pk_text in Hdk.
  destruct (approves _ _ _ _ _ _ _ _ _ _ _ _ _ Hdk Hb Hold Ha)
    as (Hafp & doc & v & rd & Hp & Hr & Hid & Hg & (u & Hu1 & Hu2 & Hu3) & Hv & _ & _ & Hser).
  destruct (inspect_join_code_made ukey (default "user" name) (jo_user_id jo) _ _ label Hdk) as (jc & Hi & _).
  apply inspect_Ok in Hi as (_ & _ & _ & _ & Hshown). pose proof Hp as [Hview [Hwf [t Ht]] _ Hdisk _ _ _].
  exists dpath, dkey, cfg', doc, v, rd. rewrite Hfp. split_and!; try done; [by apply Hv|].
  intros io1 label2 other code other' io2 code2 fp2 host'' oio2 groups2 op1 out2 op2 Hs1 Hdc Hs2 Hda Hdisk1 Ha2.
  destruct (run_devices_code_Ok _ _ _ _ _ Hs1 Hdc) as (path2 & key2 & Hk2 & ->).
  destruct (run_devices_add_Ok _ _ _ _ _ _ _ _ _ _ _ Hs2 Hc' Hcu Hck Hu Hda) as [-> ->]. rewrite Hdisk in Hdisk1.
  destruct (approves _ _ _ _ _ _ _ _ _ _ _ _ _ (decode_pk_text key2) Hdisk1 (roster_pretty_reads doc Hser) Ha2)
    as (Hafp2 & doc2 & v2 & rd2 & Hp2 & Hr2 & Hid2 & Hg2 & _ & _ & Hrev & Hkeep & _).
  split; [done|]. exists path2, key2, v2. split_and!; [done|apply (pb_view _ _ _ _ _ Hp2)|by exists rd2|].
  rewrite Ht in Hr. apply view_of_resolve in Hr as (u' & d & Hu' & Hd' & Hk & Hlive & Hrd); [|done].
  assert (Hid' : u_user_id u' = jo_user_id jo) by (rewrite <- Hid, Hrd; done).
  assert (u' = u) as -> by (pose proof (find_first_user _ _ _ Hwf Hu' Hid') as Hf; rewrite (find_first_user _ _ _ Hwf Hu1 Hu2) in Hf; congruence).
  eapply Hkeep; try done. unfold Validate.is_revoked. apply bool_decide_eq_false. by rewrite Hrev.
Qed.
End properties.

(** ** Witnesses *)
Module Witness.
Import Toy ToyRows Config.ToyToml Validate.Sample ToyRosters ToyKeys ToyEnroll Org.Witness.

(** A host whose files come to hold the two keys. *)
Definition jio (user device : key32) : JoinIo := {|
  ji_user_path := Ok "/cfg/user.key"%string; ji_device_path := Ok "/cfg/device.key"%string; ji_config_path := None;
  ji_config := Config.healthy; ji_user := fun _ => quiet user; ji_device := fun _ => quiet device; ji_connect := None;
  ji_join := Rosters.Witness.io0; ji_lost := None; ji_url := Rosters.Witness.io0; ji_url_lost := None |}.
Definition fresh_host : OrgNode := {| og_config_dir := "/cfg"; og_roster := Rosters.Witness.n0; og_files := ∅ |}.
Definition invite : string := org_encode {| oc_org_id := "acme"; oc_org_root_pk := pk_text root; oc_roster_url := None |}.
Definition answer_of {X} (d : X) (r : result JoinError X) : X := match r with Ok x => x | Err _ => d end.
Definition nobody : JoinOutput :=
  {| jo_org_id := ""; jo_user_id := ""; jo_join_code := ""; jo_join_code_fingerprint := None; jo_org_root_fingerprint := None; jo_restart_required := false |}.

Definition carol_key : key32 := key_fill Byte.x51.
Definition laptop : key32 := key_fill Byte.x52.
Definition phone : key32 := key_fill Byte.x53.
Definition join_run := run_join (jio carol_key laptop) invite (Some "Carol Ng"%string) None "laptop" fresh_host.
Definition carol : JoinOutput := answer_of nobody join_run.1.
Definition admitted : OrgNode := (org_approve io1 (jo_join_code carol) ["eng"%string] None founded).2.

Lemma joined_ok : is_ok join_run.1 = true.
Proof. vm_compute. reflexivity. Qed.
Lemma carol_named : jo_user_id carol = "carol-ng"%string.
Proof. vm_compute. reflexivity. Qed.
Lemma admitted_ok : is_ok (org_approve io1 (jo_join_code carol) ["eng"%string] None founded).1 = true.
Proof. vm_compute. reflexivity. Qed.
Lemma founded_key : holds_key (og_files founded) (root_path founded) root.
Proof. exists root. by split; [vm_compute|]. Qed.
Lemma fresh_config : is_ok (config_load Config.healthy (rn_config (og_roster fresh_host))) = true.
Proof. vm_compute. reflexivity. Qed.
Lemma run_joined : join_run = (Ok carol, join_run.2).
Proof. unfold carol. pose proof joined_ok as H. destruct join_run as [[o|e] n]; [reflexivity|discriminate]. Qed.

(** Carol joins and is approved; then her phone, by the two device verbs. *)
Definition phone_run := run_devices_code (jio carol_key phone) "phone" fresh_host.
Definition phone_code : string := answer_of ""%string phone_run.1.
Definition add_run := run_devices_add (jio carol_key laptop) phone_code join_run.2.
Definition phone_join : string * option string := answer_of (""%string, None) add_run.1.
Lemma phone_coded : phone_run = (Ok phone_code, phone_run.2).
Proof. vm_compute. reflexivity. Qed.
Lemma phone_added : add_run = (Ok (phone_join.1, phone_join.2), add_run.2).
Proof.
  assert (is_ok add_run.1 = true) as H by (vm_compute; reflexivity). unfold phone_join.
  destruct add_run as [[[c f]|e] n]; [reflexivity|discriminate].
Qed.
Lemma phone_approved : is_ok (org_approve io1 phone_join.1 ["eng"%string] None admitted).1 = true.
Proof. vm_compute. reflexivity. Qed.

Lemma enrollment_completes_witness : exists device_path device_key v,
  holds_key (og_files join_run.2) device_path device_key /\ m_roster (rn_mesh (og_roster admitted)) = Some v /\
  (exists rd, Validate.resolve v (pk_bytes device_key) = Some rd /\ rd_user_id rd = jo_user_id carol) /\
  exists path2 key2 v2, holds_key (og_files phone_run.2) path2 key2 /\
    m_roster (rn_mesh (og_roster (org_approve io1 phone_join.1 ["eng"%string] None admitted).2)) = Some v2 /\
    (exists rd2, Validate.resolve v2 (pk_bytes key2) = Some rd2 /\ rd_user_id rd2 = jo_user_id carol /\ ["eng"%string] ⊆ rd_groups rd2) /\
    exists rd1, Validate.resolve v2 (pk_bytes device_key) = Some rd1 /\ rd_user_id rd1 = jo_user_id carol.
Proof.
  destruct (org_run_ok _ _ admitted_ok) as [out Hout]. destruct (on_disk _ founded_reads) as (b & Hb & Hold).
  destruct (config_reads _ fresh_config) as [cfg Hcfg]. destruct (org_run_ok _ _ phone_approved) as [out2 Hout2].
  destruct (enrollment_completes (jio carol_key laptop) "acme" root None (Some "Carol Ng"%string) None "laptop" fresh_host carol join_run.2
    cfg io1 ["eng"%string] founded out admitted b (doc_of founded) (shares_quiet carol_key) (shares_quiet laptop) Hcfg run_joined
    (shares_quiet root) founded_key Hb Hold Hout)
    as (dp & dk & cfg' & doc & v & rd & Hd & _ & _ & _ & _ & _ & Hv & _ & _ & Hr & Hid & _ & Hmore).
  exists dp, dk, v. split; [exact Hd|]. split; [exact Hv|]. split; [exists rd; split; [exact Hr|exact Hid]|].
  exact (proj2 (Hmore (jio carol_key phone) "phone"%string fresh_host phone_code phone_run.2 (jio carol_key laptop) phone_join.1 phone_join.2
    add_run.2 io1 ["eng"%string] admitted out2 _ (shares_quiet phone) phone_coded (shares_quiet carol_key) phone_added eq_refl Hout2)).
Defined.

(** Two people who give no name (or one in no Latin letters) are both [user]: approving the second
    replaces the first, whose devices are out of the roster, and nothing says so. *)
Definition default_join (user device : key32) : JoinOutput :=
  answer_of nobody (run_join (jio user device) invite None None "laptop" fresh_host).1.
Definition first_join : JoinOutput := default_join (key_fill Byte.x61) (key_fill Byte.x62).
Definition second_join : JoinOutput := default_join (key_fill Byte.x63) (key_fill Byte.x64).
Definition one_in : OrgNode := (org_approve io1 (jo_join_code first_join) ["eng"%string] None founded).2.
Definition two_in := org_approve io1 (jo_join_code second_join) ["eng"%string] None one_in.
Definition resolves (k : key32) (n : OrgNode) : option string :=
  (v ← m_roster (rn_mesh (og_roster n)); rd_user_id <$> Validate.resolve v (pk_bytes k)).
Lemma default_ids_collide :
  resolves (key_fill Byte.x62) one_in = Some "user"%string /\ is_ok two_in.1 = true /\
  resolves (key_fill Byte.x64) two_in.2 = Some "user"%string /\ resolves (key_fill Byte.x62) two_in.2 = None.
Proof. vm_compute. done. Qed.
Lemma unlatin_names : slug "日本" = "user"%string /\ slug "Ольга" = "user"%string /\ slug "  Alice  Nguyen! " = "alice-nguyen"%string.
Proof. vm_compute. done. Qed.
Lemma csv_reads : split_csv (Some " eng, ,ops,"%string) = ["eng"; "ops"]%string /\ split_csv None = [].
Proof. vm_compute. done. Qed.
End Witness.
