(* ===== verification/Proxy.v ===== *)
(** * The connect proxy

    [cli/src/proxy.rs]: the target argument, the instructions for an AI client, and the pump
    between its stdio and the session, whose two directions run concurrently: a step is one
    frame of one of them. *)
From stdpp Require Import base list strings pretty relations.
From Stdlib Require Import ZArith Lia Strings.Byte.
From S2P Require Import Prelude Bytes Json Externals Auditor Service Org Framing.

Local Open Scope Z_scope.

(** ** The target and the instructions *)
Definition split_target (target : string) : result string (string * string) :=
  '(peer, service) ← ok_or "target must be <peer>/<service>"%string (Org.split_once target);
  if negb (bool_decide (peer = ""%string)) && negb (bool_decide (service = ""%string)) then Ok (peer, service)
  else Err "target must be <peer>/<service>"%string.

Definition dquote : string := from_bytes [x22].
Definition quoted (s : string) : string := (dquote +:+ s +:+ dquote)%string.

Definition unreachable_hint_line (peer : string) : string :=
  "peer unreachable — is " +:+ peer +:+ " online? ('mcpmesh status' shows reachability). This command is normally run by your MCP client.".

Section instructions.
Context `{J : SerdeJson}.

Definition mcp_servers_entry (peer service : string) : string :=
  let name := to_string (VString (peer +:+ "-" +:+ service)) in
  let target := to_string (VString (peer +:+ "/" +:+ service)) in
  name +:+ ": {" +:+ quoted "command" +:+ ": " +:+ quoted "mcpmesh" +:+ ", " +:+ quoted "args" +:+ ": [" +:+ quoted "connect" +:+ ", " +:+ target +:+ "]}".

(** [desktop_config]: where the desktop client keeps its configuration. *)
Definition client_instruction_lines (desktop_config peer : string) (services : list string) : list string :=
  match services with
  | [] => []
  | first :: _ =>
      ["Tools from " +:+ peer +:+ " run on " +:+ peer +:+ "'s machine. Treat their output as you would anything else " +:+ peer +:+ " sends you.";
       ""; "To use in Claude Code, run:"]%string ++
      ((fun s => "  claude mcp add " +:+ peer +:+ "-" +:+ s +:+ " -- mcpmesh connect " +:+ peer +:+ "/" +:+ s) <$> services) ++
      [""; "To use in Claude Desktop, add this under " +:+ quoted "mcpServers" +:+ " in"; "  " +:+ desktop_config;
       "then quit and restart Claude Desktop:"]%string ++
      imap (fun i s => "  " +:+ mcp_servers_entry peer s +:+ if (S i <? length services)%nat then "," else "") services ++
      [""; "Any other MCP client: add a stdio server with the command `mcpmesh connect " +:+ peer +:+ "/" +:+ first +:+ "`."]%string
  end.
End instructions.

(** ** The pump *)
Definition as_i64 (v : Value) : option Z :=
  match v with VNumber (NInt z) => if (i64_min <=? z) && (z <=? i64_max) then Some z else None | _ => None end.

(** The code of a refusal this mesh made up. *)
Definition mesh_error_code (frame : Value) : option Z :=
  error ← value_get "error" frame;
  source ← (value_get "data" error ≫= value_get "source") ≫= as_str;
  if negb (bool_decide (source = "mcpmesh"%string)) then None
  else
    code ← value_get "code" error ≫= as_i64;
    if (code =? ERR_UNREACHABLE) || (code =? ERR_SERVICE) then Some code else None.

Record Pump := {
  pm_stdin : FrameReader; pm_control_writer : Writer; pm_parked : bool;
  pm_control : FrameReader; pm_stdout : Writer; pm_ended_on : option Z; pm_over : bool }.

Section pump.
Context `{J : SerdeJson}.

Definition pump_start (stdin : list Read) (stdout : Writer) (control : FrameReader) (control_writer : Writer) : Pump :=
  {| pm_stdin := new_reader stdin MAX_FRAME_BYTES; pm_control_writer := control_writer; pm_parked := false;
     pm_control := control; pm_stdout := stdout; pm_ended_on := None; pm_over := false |}.

(** The direction to the daemon: what ends it half-closes, and it parks. *)
Definition to_control (p : Pump) : Pump :=
  let '(o, r) := next (pm_stdin p) in
  let set w parked :=
    {| pm_stdin := r; pm_control_writer := w; pm_parked := parked; pm_control := pm_control p; pm_stdout := pm_stdout p;
       pm_ended_on := pm_ended_on p; pm_over := pm_over p |} in
  match o with
  | Dropped => set (pm_control_writer p) false
  | Done (Ok (Some (Frame frame))) =>
      match write_frame (pm_control_writer p) frame with
      | (Ok _, w) => set w false
      | (Err _, w) => set (finish_writer w) true
      end
  | Done _ => set (finish_writer (pm_control_writer p)) true
  end.

(** The direction to the AI client: what ends it ends the pump. *)
Definition to_stdout (p : Pump) : Pump :=
  let '(o, r) := next (pm_control p) in
  let set w ended over :=
    {| pm_stdin := pm_stdin p; pm_control_writer := pm_control_writer p; pm_parked := pm_parked p; pm_control := r; pm_stdout := w;
       pm_ended_on := ended; pm_over := over |} in
  match o with
  | Dropped => set (pm_stdout p) (pm_ended_on p) false
  | Done (Ok (Some (Frame frame))) =>
      match write_frame (pm_stdout p) frame with
      | (Ok _, w) => set w (mesh_error_code frame) false
      | (Err _, w) => set (finish_writer w) (mesh_error_code frame) true
      end
  | Done _ => set (finish_writer (pm_stdout p)) (pm_ended_on p) true
  end.

Inductive pump_step : Pump -> Pump -> Prop :=
| pump_in p : pm_over p = false -> pm_parked p = false -> pump_step p (to_control p)
| pump_out p : pm_over p = false -> pump_step p (to_stdout p).

(** What a person at a terminal is told. *)
Definition run_hint (p : Pump) (terminal : bool) (peer : string) : option string :=
  if bool_decide (is_Some (pm_ended_on p)) && terminal then Some (unreachable_hint_line peer) else None.
End pump.

(** ** Lemmas *)

(** The frames before the first line that is none. *)
Fixpoint frames_before (l : list Inbound) : list Value :=
  match l with Frame v :: l => v :: frames_before l | _ => [] end.

Section lemmas.
Context `{J : SerdeJson}.

(** A reader inside a line of which [p] is read, and the frames still to come. *)
Definition mid_line (r : FrameReader) (p : bytes) : Prop := 0 <= fr_max r /\ at_line (fr_max r) p (fr_buf r) (fr_discarding r).
Definition to_come (r : FrameReader) (p : bytes) : list Value := frames_before (from_line (fr_max r) p (fr_reader r)).1.

(** What one [next] takes of them. *)
Lemma next_to_come r p o r' :
  mid_line r p -> next r = (o, r') ->
  match o with
  | Done (Ok (Some (Frame v))) => mid_line r' [] /\ to_come r p = v :: to_come r' [] /\ (fuel_of r' < fuel_of r)%nat
  | Dropped => exists p', mid_line r' p' /\ to_come r p = to_come r' p' /\ (fuel_of r' < fuel_of r)%nat
  | Done _ => to_come r p = []
  end.
Proof.
  intros [Hmax Hp] Hn. destruct (next_loop_from_line _ _ _ _ _ _ _ Hmax Hp Hn) as [Hm Hpost]. unfold to_come, mid_line. rewrite Hm.
  destruct o as [[[x|]|e]|].
  - destruct Hpost as (Hd & Hb & Hf & Hl). rewrite Hf. destruct x as [v|v]; cbn; [|done]. split; [|split; [done|]].
    + split; [done|]. rewrite Hd, Hb. by split.
    + unfold fuel_of at 2. by rewrite Nat.add_comm in *.
  - by rewrite Hpost.
  - by rewrite Hpost.
  - destruct Hpost as (p' & Hp' & Hf & Hl). exists p'. rewrite Hf. split; [done|]. split; [done|]. exact Hl.
Qed.

Definition flat (l : list Value) : bytes := l ≫= frame_bytes.
Lemma flat_snoc l v : flat (l ++ [v]) = flat l ++ frame_bytes v.
Proof. unfold flat. rewrite bind_app. cbn. by rewrite app_nil_r. Qed.

Lemma write_sent w v r w' : write_frame w v = (r, w') -> w_sent w' = (if is_ok r then w_sent w ++ frame_bytes v else w_sent w).
Proof. unfold write_frame. destruct (w_finished w); [by intros [= <- <-]|]. destruct (w_faults w) as [|[] fs]; by intros [= <- <-]. Qed.
Lemma write_healthy w v : w_faults w = [] -> w_finished w = false -> exists w', write_frame w v = (Ok tt, w') /\ w_faults w' = [] /\ w_finished w' = false.
Proof. intros Hf Hn. unfold write_frame. rewrite Hf, Hn. eexists. split; [done|]. done. Qed.

(** The pump after some steps: what went out each way is a prefix of the frames that come in,
    and what it will say it ended on is the last one. *)
Record pump_inv (sent_in sent_out : bytes) (frames_in frames_out : list Value) (healthy : bool) (p : Pump) : Prop := {
  pi_in : exists done line, w_sent (pm_control_writer p) = sent_in ++ flat done /\
    (if pm_parked p then done `prefix_of` frames_in
     else mid_line (pm_stdin p) line /\ done ++ to_come (pm_stdin p) line = frames_in);
  pi_out : exists done line, w_sent (pm_stdout p) = sent_out ++ flat done /\
    (if pm_over p then done `prefix_of` frames_out /\ (healthy = true -> done = frames_out)
     else mid_line (pm_control p) line /\ done ++ to_come (pm_control p) line = frames_out) /\
    (healthy = true -> pm_ended_on p = last done ≫= mesh_error_code /\
      (pm_over p = false -> w_faults (pm_stdout p) = [] /\ w_finished (pm_stdout p) = false)) }.

Lemma to_control_keeps p :
  pm_control (to_control p) = pm_control p /\ pm_stdout (to_control p) = pm_stdout p /\ pm_ended_on (to_control p) = pm_ended_on p /\
  pm_over (to_control p) = pm_over p.
Proof.
  unfold to_control. destruct (next (pm_stdin p)) as [[[[[v|v]|]|e]|] r]; [|done..]. by destruct (write_frame (pm_control_writer p) v) as [[u|e] w].
Qed.
Lemma to_stdout_keeps p :
  pm_stdin (to_stdout p) = pm_stdin p /\ pm_control_writer (to_stdout p) = pm_control_writer p /\ pm_parked (to_stdout p) = pm_parked p.
Proof.
  unfold to_stdout. destruct (next (pm_control p)) as [[[[[v|v]|]|e]|] r]; [|done..]. by destruct (write_frame (pm_stdout p) v) as [[u|e] w].
Qed.

Lemma to_control_inv si so fi fo ok p :
  pm_parked p = false -> pump_inv si so fi fo ok p -> pump_inv si so fi fo ok (to_control p).
Proof.
  intros Hpk [(done & line & Hs & Hr) Ho]. rewrite Hpk in Hr. destruct Hr as [Hm Hd].
  split; [|by destruct (to_control_keeps p) as (-> & -> & -> & ->)]. clear Ho. unfold to_control.
  destruct (next (pm_stdin p)) as [o r] eqn:Hn. pose proof (next_to_come _ _ _ _ Hm Hn) as Hc.
  assert (Hend : forall w, w_sent w = w_sent (pm_control_writer p) -> exists done' (line' : bytes), w_sent w = si ++ flat done' /\ done' `prefix_of` fi).
  { intros w ->. exists done, line. split; [done|]. rewrite <- Hd. by eexists. }
  destruct o as [[[[v|v]|]|e]|]; cbn [pm_control_writer pm_parked pm_stdin]; [|by apply Hend..|].
  - destruct Hc as (Hm' & Hc & _). destruct (write_frame (pm_control_writer p) v) as [[u|e] w] eqn:Hw; apply write_sent in Hw; cbn in Hw |- *; [|by apply Hend].
    exists (done ++ [v]), []. rewrite flat_snoc, Hw, Hs, <- app_assoc. split; [done|]. split; [done|]. rewrite <- app_assoc. cbn. by rewrite <- Hc.
  - destruct Hc as (line' & Hm' & Hc & _). exists done, line'. split; [done|]. split; [done|]. by rewrite <- Hc.
Qed.

Lemma to_stdout_inv si so fi fo ok p :
  pm_over p = false -> pump_inv si so fi fo ok p -> pump_inv si so fi fo ok (to_stdout p).
Proof.
  intros Hov [Hi (done & line & Hs & Hr & Hok)]. rewrite Hov in Hr, Hok. destruct Hr as [Hm Hd].
  split; [by destruct (to_stdout_keeps p) as (-> & -> & ->)|]. clear Hi. unfold to_stdout.
  destruct (next (pm_control p)) as [o r] eqn:Hn. pose proof (next_to_come _ _ _ _ Hm Hn) as Hc.
  assert (Hend : to_come (pm_control p) line = [] -> exists done' (line' : bytes), w_sent (finish_writer (pm_stdout p)) = so ++ flat done' /\
    (done' `prefix_of` fo /\ (ok = true -> done' = fo)) /\ (ok = true -> pm_ended_on p = last done' ≫= mesh_error_code /\ (true = false -> w_faults (finish_writer (pm_stdout p)) = [] /\ w_finished (finish_writer (pm_stdout p)) = false))).
  { intros Hz. rewrite Hz, app_nil_r in Hd. subst done. exists fo, line. split; [done|]. split; [done|]. intros Ht. by destruct (Hok Ht). }
  destruct o as [[[[v|v]|]|e]|]; cbn [pm_stdout pm_over pm_control pm_ended_on]; [|by apply Hend..|].
  - destruct Hc as (Hm' & Hc & _). destruct (write_frame (pm_stdout p) v) as [[[]|e] w] eqn:Hw; cbn [pm_stdout pm_over pm_control pm_ended_on].
    + exists (done ++ [v]), []. pose proof (write_sent _ _ _ _ Hw) as Hsent. cbn in Hsent. rewrite flat_snoc, Hsent, Hs, <- app_assoc. split; [done|]. split.
      * split; [done|]. rewrite <- app_assoc. cbn. by rewrite <- Hc.
      * intros Ht. rewrite last_snoc. split; [done|]. intros _. destruct (Hok Ht) as [_ Hh]. destruct (Hh eq_refl) as [Hf Hfin].
        destruct (write_healthy _ v Hf Hfin) as (w' & Hw' & ? & ?). rewrite Hw in Hw'. by injection Hw' as <-.
    + exists done, []. pose proof (write_sent _ _ _ _ Hw) as Hsent. cbn in Hsent |- *. split; [congruence|]. split.
      * split; [rewrite <- Hd; by eexists|]. intros Ht. exfalso. destruct (Hok Ht) as [_ Hh]. destruct (Hh eq_refl) as [Hf Hfin].
        destruct (write_healthy _ v Hf Hfin) as (w' & Hw' & _). by rewrite Hw in Hw'.
      * intros Ht. exfalso. destruct (Hok Ht) as [_ Hh]. destruct (Hh eq_refl) as [Hf Hfin].
        destruct (write_healthy _ v Hf Hfin) as (w' & Hw' & _). by rewrite Hw in Hw'.
  - destruct Hc as (line' & Hm' & Hc & _). exists done, line'. split; [done|]. split; [split; [done|by rewrite <- Hc]|]. intros Ht. by destruct (Hok Ht).
Qed.
End lemmas.

Section properties.
Context `{J : SerdeJson}.

(** What is left to do. *)
Definition work (p : Pump) : nat :=
  if pm_over p then 0 else 1 + fuel_of (pm_control p) + (if pm_parked p then 0 else 1 + fuel_of (pm_stdin p)).

Lemma to_control_work si so fi fo ok p :
  pump_inv si so fi fo ok p -> pm_over p = false -> pm_parked p = false -> (work (to_control p) < work p)%nat.
Proof.
  intros [(done & line & _ & Hr) _] Ho Hpk. rewrite Hpk in Hr. destruct Hr as [Hm _]. unfold work.
  destruct (to_control_keeps p) as (-> & _ & _ & ->). rewrite Ho, Hpk. unfold to_control.
  destruct (next (pm_stdin p)) as [o r] eqn:Hn. pose proof (next_to_come _ _ _ _ Hm Hn) as Hc.
  destruct o as [[[[v|v]|]|e]|]; cbn [pm_parked pm_stdin]; try lia.
  - destruct Hc as (_ & _ & ?). destruct (write_frame (pm_control_writer p) v) as [[u|e] w]; cbn [pm_parked pm_stdin]; lia.
  - destruct Hc as (? & _ & _ & ?). lia.
Qed.
Lemma to_stdout_work si so fi fo ok p : pump_inv si so fi fo ok p -> pm_over p = false -> (work (to_stdout p) < work p)%nat.
Proof.
  intros [_ (done & line & _ & Hr & _)] Ho. rewrite Ho in Hr. destruct Hr as [Hm _]. unfold work.
  destruct (to_stdout_keeps p) as (-> & _ & ->). rewrite Ho. unfold to_stdout.
  destruct (next (pm_control p)) as [o r] eqn:Hn. pose proof (next_to_come _ _ _ _ Hm Hn) as Hc.
  destruct o as [[[[v|v]|]|e]|]; cbn [pm_over pm_control]; try lia.
  - destruct Hc as (_ & _ & ?). destruct (write_frame (pm_stdout p) v) as [[u|e] w]; cbn [pm_over pm_control]; lia.
  - destruct Hc as (? & _ & _ & ?). lia.
Qed.

Lemma pump_steps_inv si so fi fo ok n p p' :
  nsteps pump_step n p p' -> pump_inv si so fi fo ok p -> pump_inv si so fi fo ok p' /\ (n + work p' <= work p)%nat.
Proof.
  induction 1 as [|n p p1 p' Hs _ IH]; intros Hi; [split; [done|lia]|].
  assert (pump_inv si so fi fo ok p1 /\ (work p1 < work p)%nat) as [Hi1 Hw].
  { destruct Hs as [p Ho Hpk|p Ho]; (split; [by apply to_control_inv || by apply to_stdout_inv|by eapply to_control_work || by eapply to_stdout_work]). }
  destruct (IH Hi1). split; [done|lia].
Qed.

Lemma new_to_come reads max : 0 <= max -> mid_line (new_reader reads max) [] /\ to_come (new_reader reads max) [] = frames_before (reference max (observed reads)).1.
Proof.
  intros Hm. split; [by split; [done|apply new_reader_at_line]|]. unfold to_come. cbn. rewrite from_line_reference by (apply not_elem_of_nil).
  by destruct (observed reads).
Qed.

(** C40: the pump is transparent: whichever way its two directions interleave, and whatever becomes
    of the daemon's side of the other one, the AI client is handed the frames the session
    sends, in order and unchanged, all of them up to the first line that is none before the
    pump ends, and what it ends on is the refusal in the last of them or nothing; the session
    gets a prefix of the client's frames; and the pump ends after boundedly many steps, by
    the end of the session only. *)
Theorem pump_transparent stdin stdout control control_writer n p :
  fr_buf control = [] -> fr_discarding control = false -> 0 <= fr_max control -> w_faults stdout = [] -> w_finished stdout = false ->
  nsteps pump_step n (pump_start stdin stdout control control_writer) p ->
  let frames_in := frames_before (reference MAX_FRAME_BYTES (observed stdin)).1 in
  let frames_out := frames_before (reference (fr_max control) (observed (fr_reader control))).1 in
  (exists sent, sent `prefix_of` frames_in /\ w_sent (pm_control_writer p) = w_sent control_writer ++ flat sent) /\
  (exists relayed, relayed `prefix_of` frames_out /\ (pm_over p = true -> relayed = frames_out) /\
     w_sent (pm_stdout p) = w_sent stdout ++ flat relayed /\ pm_ended_on p = last relayed ≫= mesh_error_code) /\
  (n <= 2 + fuel_of control + length stdin)%nat /\
  (pm_over p = false -> pump_step p (to_stdout p)).
Proof.
  intros Hb Hd Hm Hf Hw Hsteps fi fo.
  assert (Hnew : control = new_reader (fr_reader control) (fr_max control)) by (destruct control; simpl in *; by subst).
  destruct (new_to_come stdin MAX_FRAME_BYTES) as [Hi1 Hi2]; [done|]. destruct (new_to_come (fr_reader control) (fr_max control) Hm) as [Ho1 Ho2].
  rewrite <- Hnew in Ho1, Ho2.
  assert (Hinv : pump_inv (w_sent control_writer) (w_sent stdout) fi fo true (pump_start stdin stdout control control_writer)).
  { split; exists [], []; cbn; rewrite app_nil_r; [split; [done|by split]|]. split; [done|]. split; [by split|done]. }
  destruct (pump_steps_inv _ _ _ _ _ _ _ _ Hsteps Hinv) as [[(done1 & l1 & Hs1 & Hr1) (done2 & l2 & Hs2 & Hr2 & Hok)] Hn].
  destruct (Hok eq_refl) as [He _]. split_and!.
  - exists done1. split; [|done]. destruct (pm_parked p); [done|]. destruct Hr1 as [_ <-]. by eexists.
  - exists done2. split; [|split; [|done]].
    + destruct (pm_over p); [by destruct Hr2|]. destruct Hr2 as [_ <-]. by eexists.
    + intros Hov. rewrite Hov in Hr2. by destruct Hr2 as [_ ->].
  - unfold work in Hn. cbn in Hn. unfold fuel_of at 2 in Hn. cbn in Hn. lia.
  - apply pump_out.
Qed.

Lemma split_slash_app l r : existsb (fun c => bool_decide (c = slash)) l = false -> split_slash (l ++ slash :: r) = Some (l, r).
Proof.
  induction l as [|c l IH]; cbn; [done|]. intros [Hc Hl]%orb_false_iff. rewrite Hc. by rewrite IH.
Qed.
Lemma split_slash_clean b l r : split_slash b = Some (l, r) -> existsb (fun c => bool_decide (c = slash)) l = false.
Proof.
  revert l. induction b as [|c b IH]; intros l; cbn; [done|]. destruct (bool_decide (c = slash)) eqn:Hc; [by intros [= <- _]|].
  destruct (split_slash b) as [[l' r']|]; cbn; [|done]. intros [= <- <-]. cbn. by rewrite Hc, IH.
Qed.

(** A target is addressed as it is written exactly when the peer's name has no '/' in it. *)
Lemma target_addresses peer service :
  peer <> ""%string -> service <> ""%string -> split_target (peer +:+ "/" +:+ service) = Ok (peer, service) <-> has_slash peer = false.
Proof.
  intros Hp Hs. unfold split_target, Org.split_once. rewrite !as_bytes_app. change (as_bytes "/") with [slash]. split.
  - destruct (split_slash _) as [[l r]|] eqn:Hsp; cbn; [|done]. destruct (_ && _); [|done]. intros [= <- _].
    unfold has_slash. rewrite as_from_bytes. by apply split_slash_clean in Hsp.
  - intros Hn. cbn [app]. rewrite split_slash_app by done. cbn. rewrite !from_as_bytes.
    by rewrite !bool_decide_eq_false_2 by done.
Qed.
End properties.

(** The daemon's made-up refusals are recognised, a frame of the service's that only looks like
    one is not. *)
Lemma refusals_recognised id code message :
  mesh_error_code (synthesized id code message) = Some code <-> code = ERR_UNREACHABLE \/ code = ERR_SERVICE.
Proof.
  split.
  - unfold mesh_error_code. cbn. destruct ((i64_min <=? code) && (code <=? i64_max)); cbn; [|done].
    destruct ((code =? ERR_UNREACHABLE) || (code =? ERR_SERVICE)) eqn:Hc; [|done]. intros _. apply orb_true_iff in Hc as [?%Z.eqb_eq|?%Z.eqb_eq]; by auto.
  - by intros [-> | ->].
Qed.

(** ** Witnesses *)
Module Witness.
Import Toy.

Definition refusal : Value := synthesized (VNumber (NInt 1)) ERR_UNREACHABLE "peer unreachable".
Definition init : Value := VObject [("id"%string, VNumber (NInt 1)); ("method"%string, VString "initialize")].
Definition control : FrameReader := new_reader (RByte <$> frame_bytes refusal) MAX_FRAME_BYTES.
Definition healthy_out : Writer := {| w_sent := []; w_faults := []; w_finished := false |}.
(** The daemon answered and closed before the pump began: the client's first frame hits a dead
    pipe. *)
Definition dead_pipe : Writer := {| w_sent := []; w_faults := [true]; w_finished := false |}.
Definition p0 : Pump := pump_start (RByte <$> frame_bytes init) healthy_out control dead_pipe.
Definition p3 : Pump := to_stdout (to_stdout (to_control p0)).
Lemma drained : nsteps pump_step 3 p0 p3.
Proof.
  eapply nsteps_l; [apply pump_in; reflexivity|]. eapply nsteps_l; [apply pump_out; vm_compute; reflexivity|].
  eapply nsteps_l; [apply pump_out; vm_compute; reflexivity|]. apply nsteps_O.
Qed.
Lemma pump_transparent_witness :
  pm_over p3 = true /\ w_sent (pm_stdout p3) = frame_bytes refusal /\ pm_ended_on p3 = Some ERR_UNREACHABLE /\ w_sent (pm_control_writer p3) = [].
Proof.
  destruct (pump_transparent (RByte <$> frame_bytes init) healthy_out control dead_pipe 3 p3 eq_refl eq_refl ltac:(vm_compute; discriminate) eq_refl eq_refl drained)
    as (_ & (relayed & _ & Hall & Hs & He) & _).
  split; [vm_compute; reflexivity|]. rewrite Hs, He, Hall by (vm_compute; reflexivity). split; [vm_compute; reflexivity|]. split; vm_compute; reflexivity.
Defined.
Example told : run_hint p3 true "alice" = Some (unreachable_hint_line "alice") /\ run_hint p3 false "alice" = None.
Proof. split; vm_compute; reflexivity. Qed.
End Witness.
