(* ===== verification/Rendezvous.v ===== *)
(** * The pairing rendezvous

    [node/src/pairing/rendezvous.rs]: both sides of [mcpmesh/pair/1].  The inviter side
    works on the peer store, the invite registry, the grants its hook makes, the audit log
    and the ceremony ring; the redeemer side on its own store.  Each access may fail: a
    [Faults] record says which ones do.  The network is a parameter: what an address names,
    who answers the dial, and what the exchange of the hello returns. *)
From stdpp Require Import base list gmap strings sorting pretty.
From Stdlib Require Import ZArith Lia Strings.Byte.
From S2P Require Import Prelude Bytes Json Externals Schema Sign Identity Allowlist Invites Sas.

(** ** Messages *)
Definition MAX_PAIR_FRAME : Z := (64 * 1024)%Z.
Definition REASON_REFUSED : string := "pairing refused".
Definition REASON_IDENTITY_REVOKED : string :=
  "your identity is revoked on the inviter, which refuses any device presenting it — only the inviter can lift that (peer_unrevoke)".
Definition REASON_MALFORMED : string := "malformed request".
Definition REASON_ID_MISMATCH : string := "id mismatch".

Inductive RefusalCode := NicknameTakenCode | IdentityRevokedCode | UnknownCode.

Record RedeemerHello := {
  h_secret : key32;
  h_redeemer_id : key32;
  h_redeemer_nickname : string;
  h_user_pk : option string;
  h_binding_sig : option string;
  h_attest : bool }.

Inductive PairReply :=
| PairOk (inviter_id : key32) (inviter_nickname : string) (user_pk binding_sig : option string)
| PairRefused (reason : string) (code : option RefusalCode).

Record SelfBinding := { sb_user_pk : string; sb_sig : string }.

Record RecentPairing := {
  rp_peer_nickname : string;
  rp_sas_code : option string;
  rp_paired_at_epoch : Z;
  rp_self_enroll : bool }.

Record AdmitPlan := { pl_user_id : string; pl_nickname : string; pl_services : list string }.

Definition reason_nickname_taken (nickname : string) (invite_survived : bool) : string :=
  let recovery : string :=
    if invite_survived
    then "the invite was NOT consumed — rename this node and redeem the same invite again"
    else "ask the inviter for a fresh invite" in
  "nickname '" +:+ nickname +:+ "' is already taken by another paired peer; " +:+ recovery.

Definition collision_refusal (nickname : string) (invite_survived : bool) : PairReply :=
  PairRefused (reason_nickname_taken nickname invite_survived)
    (if invite_survived then Some NicknameTakenCode else None).

Definition collision_reply (alias : option string) (hello : RedeemerHello)
    (invite_survived : bool) : PairReply :=
  match alias with
  | None => collision_refusal (h_redeemer_nickname hello) invite_survived
  | Some _ => PairRefused REASON_REFUSED None
  end.

Definition effective_redeemer_nickname (alias : option string) (claimed : string) : string :=
  default claimed alias.

Definition merge_hint (observed existing : option string) : option string :=
  match observed with Some a => Some a | None => existing end.

Definition generic_refusal : PairReply := PairRefused REASON_REFUSED None.

(** ** The inviter *)
Record Inviter := {
  v_store : PeerStore;
  v_invites : LiveInvites;
  v_grants : list (string * string * list string);
  v_audit : list (string * option string);
  v_ring : list RecentPairing }.

(** What the daemon hands the rendezvous in [InviterCtx], less the stateful parts; the
    grant hook succeeds or fails. *)
Record InviterCtx := {
  x_self_binding : option SelfBinding;
  x_sign_binding : key32 -> option string;
  x_admit_attested : bool;
  x_self_endpoint_id : key32;
  x_self_nickname : string;
  x_grant_fails : option string }.

(** The failing accesses of one run: the peer store per call site, the invite file. *)
Record Faults := {
  f_precheck : Io; f_postcheck : Io; f_identity : Io; f_add : Io;
  f_endpoint : Io; f_entries : Io; f_prior : Io; f_file : FileIo }.
Definition no_faults : Faults :=
  {| f_precheck := healthy; f_postcheck := healthy; f_identity := healthy; f_add := healthy;
     f_endpoint := healthy; f_entries := healthy; f_prior := healthy; f_file := disk_ok |}.

(** How a run ends: a reply on the stream, or a bare close after an error. *)
Inductive Ending := Replied (r : PairReply) | Dropped (e : string).

Definition set_store (s : PeerStore) (v : Inviter) : Inviter :=
  {| v_store := s; v_invites := v_invites v; v_grants := v_grants v; v_audit := v_audit v;
     v_ring := v_ring v |}.
Definition set_invites (l : LiveInvites) (v : Inviter) : Inviter :=
  {| v_store := v_store v; v_invites := l; v_grants := v_grants v; v_audit := v_audit v;
     v_ring := v_ring v |}.
Definition push_grant (g : string * string * list string) (v : Inviter) : Inviter :=
  {| v_store := v_store v; v_invites := v_invites v; v_grants := v_grants v ++ [g];
     v_audit := v_audit v; v_ring := v_ring v |}.
Definition push_audit (a : string * option string) (v : Inviter) : Inviter :=
  {| v_store := v_store v; v_invites := v_invites v; v_grants := v_grants v;
     v_audit := v_audit v ++ [a]; v_ring := v_ring v |}.
Definition push_ring (r : RecentPairing) (v : Inviter) : Inviter :=
  {| v_store := v_store v; v_invites := v_invites v; v_grants := v_grants v;
     v_audit := v_audit v; v_ring := v_ring v ++ [r] |}.

Section inviter.
Context `{E : Ed25519, T : TextEncoding, B : Blake3, R : RowCodec, C : InviteCodec}.

Definition verified_user_id (user_pk binding_sig : option string) (authenticated_id : key32) :
    option string :=
  match user_pk, binding_sig with
  | Some pk, Some sig => ok (verify_presented pk sig authenticated_id)
  | _, _ => None
  end.

(** A name held by a different stored peer. *)
Definition nickname_collision (io : Io) (s : PeerStore) (nickname : string) (tls_id : key32) :
    result string bool :=
  l ← list_peers io s;
  Ok (existsb (fun e => bool_decide (pe_nickname e = nickname) &&
                        negb (bool_decide (pe_endpoint_id e = tls_id))) l).

Definition resolve_and_check_collision (io : Io) (s : PeerStore) (nickname : string)
    (tls_id : key32) : result string (option PeerEntry * bool) :=
  existing ← resolve io s tls_id;
  match existing with
  | Some e => Ok (Some e, false)
  | None => c ← nickname_collision io s nickname tls_id; Ok (None, c)
  end.

Definition attestation_decision (F : Faults) (hello : RedeemerHello) (tls_id : key32)
    (ctx : InviterCtx) (s : PeerStore) : result string AdmitPlan :=
  if negb (x_admit_attested ctx) then Err "not enabled on this node"%string
  else
    match h_user_pk hello, h_binding_sig hello with
    | Some user_pk, Some sig =>
        user_id ← map_err (fun _ => "binding does not verify"%string)
                    (verify_presented user_pk sig tls_id);
        if is_revoked (f_endpoint F) s tls_id then Err "endpoint is revoked"%string
        else if is_user_revoked (f_identity F) s user_id then Err "identity is revoked"%string
        else
          existing ← entries_for_user (f_entries F) s user_id;
          match existing with
          | [] => Err "no existing row for that identity"%string
          | e0 :: rest =>
              Ok {| pl_user_id := user_id; pl_nickname := pe_nickname e0;
                    pl_services := foldl (fun services e =>
                        filter (fun svc => svc ∈ pe_services e) services)
                      (pe_services e0) rest |}
          end
    | _, _ => Err "no binding presented"%string
    end.

Definition handle_attestation (F : Faults) (hello : RedeemerHello) (tls_id : key32)
    (ctx : InviterCtx) (now : Z) (v : Inviter) : Ending * Inviter :=
  match attestation_decision F hello tls_id ctx (v_store v) with
  | Err _ => (Replied generic_refusal, v)
  | Ok plan =>
      match resolve (f_prior F) (v_store v) tls_id with
      | Err e => (Dropped e, v)
      | Ok prior =>
          let entry :=
            {| pe_endpoint_id := tls_id; pe_nickname := pl_nickname plan;
               pe_services := pl_services plan;
               pe_paired_at := match prior ≫= pe_paired_at with
                               | Some at_ => Some at_ | None => Some (pretty now) end;
               pe_user_id := Some (pl_user_id plan);
               pe_last_addr := prior ≫= pe_last_addr |} in
          match add (f_add F) (v_store v) entry with
          | Err e => (Dropped e, v)
          | Ok s =>
              (Replied (PairOk (x_self_endpoint_id ctx) (x_self_nickname ctx)
                 (sb_user_pk <$> x_self_binding ctx) (sb_sig <$> x_self_binding ctx)),
               push_audit ("device_attest"%string, Some (principal tls_id)) (set_store s v))
          end
      end
  end.

(** The row an ordinary redemption writes: merged with the row the endpoint already has. *)
Definition merged_entry (invite : Invite) (hello : RedeemerHello) (tls_id : key32)
    (observed : option string) (now : Z) (existing : option PeerEntry) : PeerEntry :=
  let claimed := effective_redeemer_nickname (i_peer_nickname invite) (h_redeemer_nickname hello) in
  {| pe_endpoint_id := tls_id;
     pe_nickname := match existing with Some e => pe_nickname e | None => claimed end;
     pe_services := match existing with Some e => pe_services e | None => [] end;
     pe_paired_at := match existing ≫= pe_paired_at with
                     | Some at_ => Some at_ | None => Some (pretty now) end;
     pe_user_id := match verified_user_id (h_user_pk hello) (h_binding_sig hello) tls_id with
                   | Some uid => Some uid | None => existing ≫= pe_user_id end;
     pe_last_addr := merge_hint observed (existing ≫= pe_last_addr) |}.

(** The [Redeem::Ok(invite) if invite.as_self] arm. *)
Definition enroll_device (ctx : InviterCtx) (invite : Invite) (hello : RedeemerHello)
    (tls_id : key32) (now : Z) (v : Inviter) : Ending * Inviter :=
  match x_self_binding ctx with
  | None => (Replied (PairRefused "this device has no user identity to enroll into" None), v)
  | Some self_binding =>
      match x_sign_binding ctx tls_id with
      | None => (Replied generic_refusal, v)
      | Some sig =>
          let sas := short_auth_code (i_inviter_id invite) tls_id (h_secret hello) in
          (Replied (PairOk (i_inviter_id invite) (i_nickname invite)
             (Some (sb_user_pk self_binding)) (Some sig)),
           push_ring {| rp_peer_nickname := "(this person's device)"; rp_sas_code := sas;
                        rp_paired_at_epoch := now; rp_self_enroll := true |}
             (push_audit ("self_enroll"%string, Some (principal tls_id)) v))
      end
  end.

(** The ordinary [Redeem::Ok(invite)] arm. *)
Definition pair_peer (F : Faults) (ctx : InviterCtx) (invite : Invite) (hello : RedeemerHello)
    (tls_id : key32) (observed : option string) (now : Z) (v : Inviter) : Ending * Inviter :=
  let claimed := effective_redeemer_nickname (i_peer_nickname invite) (h_redeemer_nickname hello) in
  match resolve_and_check_collision (f_postcheck F) (v_store v) claimed tls_id with
  | Err e => (Dropped e, v)
  | Ok (_, true) =>
      (Replied (collision_reply (i_peer_nickname invite) hello (0 <? i_uses_remaining invite)%Z), v)
  | Ok (existing, false) =>
      let entry := merged_entry invite hello tls_id observed now existing in
      if match pe_user_id entry with
         | Some uid => is_user_revoked (f_identity F) (v_store v) uid
         | None => false
         end
      then (Replied (PairRefused REASON_IDENTITY_REVOKED (Some IdentityRevokedCode)), v)
      else
        let p := default (principal tls_id) (pe_user_id entry) in
        match add (f_add F) (v_store v) entry with
        | Err e => (Dropped e, v)
        | Ok s =>
            let v := set_store s v in
            match x_grant_fails ctx with
            | Some e => (Dropped e, v)
            | None =>
                let v := push_grant (p, pe_nickname entry, i_services invite) v in
                let sas := short_auth_code (i_inviter_id invite) tls_id (h_secret hello) in
                (Replied (PairOk (i_inviter_id invite) (i_nickname invite)
                   (sb_user_pk <$> x_self_binding ctx) (sb_sig <$> x_self_binding ctx)),
                 push_ring {| rp_peer_nickname := pe_nickname entry; rp_sas_code := sas;
                              rp_paired_at_epoch := now; rp_self_enroll := false |} v)
            end
        end
  end.

(** The nickname pre-check, reached only with a live secret. *)
Definition precheck (F : Faults) (hello : RedeemerHello) (tls_id : key32) (now : Z) (v : Inviter) :
    result string (option PairReply) :=
  if peek_is_self (v_invites v) (h_secret hello) now then Ok None
  else
    match peek_live_alias (v_invites v) (h_secret hello) now with
    | None => Ok None
    | Some alias =>
        let claimed := effective_redeemer_nickname alias (h_redeemer_nickname hello) in
        r ← resolve_and_check_collision (f_precheck F) (v_store v) claimed tls_id;
        Ok (if r.2 : bool then Some (collision_reply alias hello true) else None)
    end.

(** [handle_inviter_side]; [hello] is the first frame, [None] when it is no hello.  One
    reading of the clock stands for the run's. *)
Definition handle_inviter_side (F : Faults) (ctx : InviterCtx) (hello : option RedeemerHello)
    (tls_id : key32) (observed : option string) (now : Z) (v : Inviter) : Ending * Inviter :=
  match hello with
  | None => (Replied (PairRefused REASON_MALFORMED None), v)
  | Some hello =>
      if negb (bool_decide (tls_id = h_redeemer_id hello))
      then (Replied (PairRefused REASON_ID_MISMATCH None), v)
      else if h_attest hello then handle_attestation F hello tls_id ctx now v
      else
        match precheck F hello tls_id now v with
        | Err e => (Dropped e, v)
        | Ok (Some reply) => (Replied reply, v)
        | Ok None =>
            let (outcome, invites) := try_redeem (f_file F) (v_invites v) (h_secret hello) now in
            let v := set_invites invites v in
            match outcome with
            | RedeemOk invite =>
                if i_as_self invite && (0 <? i_uses_remaining invite)%Z
                then (Replied generic_refusal, v)
                else if i_as_self invite then enroll_device ctx invite hello tls_id now v
                else pair_peer F ctx invite hello tls_id observed now v
            | _ => (Replied generic_refusal, v)
            end
        end
  end.
End inviter.

(** ** The redeemer *)
Definition ERR_INVITE_EXPIRED : Z := (-32044)%Z.
Definition ERR_INVITE_NOT_LIVE : Z := (-32045)%Z.
Definition ERR_INVITER_UNREACHABLE : Z := (-32046)%Z.
Definition ERR_INVITER_MISMATCH : Z := (-32047)%Z.
Definition ERR_INVITE_NAME_CONFLICT : Z := (-32048)%Z.
Definition ERR_INVITE_REFUSED : Z := (-32049)%Z.
Definition ERR_SELF_ENROLL_NOT_OFFERED : Z := (-32052)%Z.
Definition ERR_PRINCIPAL_REVOKED : Z := (-32056)%Z.
Definition ERR_PAIR_IDENTITY_REVOKED : Z := (-32057)%Z.

(** A coded refusal (its prose is not modelled), the nickname refusal, any other error. *)
Inductive RedeemError :=
| PairRefusal (code : Z)
| NicknameTaken (msg : string)
| OtherError (msg : string).

Record PairResult := {
  pr_peer_nickname : string;
  pr_sas_code : option string;
  pr_enrolled_as_self : bool;
  pr_services : list string;
  pr_app_label : option string;
  pr_peer_user_id : option string }.

Inductive Exchange := GotReply (r : PairReply) | NoLiveInvite | ExchangeFailed (e : string).

(** The network: the endpoint id inside an address, who answers a dial to an id (its TLS
    identity), what the exchange of a hello returns, and the paths the connection used. *)
Record Net := {
  n_addr_id : string -> option key32;
  n_connect : key32 -> option key32;
  n_exchange : RedeemerHello -> Exchange;
  n_observed : option string }.

(** The redeemer's state, with what it has shown to the network. *)
Record Redeemer := {
  d_store : PeerStore;
  d_adopted : list SelfBinding;
  d_granted : list (string * string);
  d_dialled : list key32;
  d_sent : list (key32 * RedeemerHello) }.

Record RedeemFaults := {
  g_squat : Io; g_refused : Io; g_identity : Io; g_merge : Io; g_add : Io;
  g_adopt : option string; g_grant : option string }.

(** The caller's arguments; the hooks are present or not. *)
Record RedeemArgs := {
  a_self_id : key32;
  a_self_nickname : string;
  a_as_nickname : option string;
  a_self_enroll : SelfEnroll;
  a_adopt_binding : bool;
  a_self_binding : option SelfBinding;
  a_grant_back : bool }.

Definition hook {A} (fails : option string) (a : A) : result RedeemError A :=
  match fails with Some e => Err (OtherError e) | None => Ok a end.

Definition dial_logged (k : key32) (d : Redeemer) : Redeemer :=
  {| d_store := d_store d; d_adopted := d_adopted d; d_granted := d_granted d;
     d_dialled := d_dialled d ++ [k]; d_sent := d_sent d |}.
Definition sent_logged (x : key32 * RedeemerHello) (d : Redeemer) : Redeemer :=
  {| d_store := d_store d; d_adopted := d_adopted d; d_granted := d_granted d;
     d_dialled := d_dialled d; d_sent := d_sent d ++ [x] |}.
Definition adopted_logged (b : SelfBinding) (d : Redeemer) : Redeemer :=
  {| d_store := d_store d; d_adopted := d_adopted d ++ [b]; d_granted := d_granted d;
     d_dialled := d_dialled d; d_sent := d_sent d |}.
Definition granted_logged (x : string * string) (d : Redeemer) : Redeemer :=
  {| d_store := d_store d; d_adopted := d_adopted d; d_granted := d_granted d ++ [x];
     d_dialled := d_dialled d; d_sent := d_sent d |}.
Definition with_store (s : PeerStore) (d : Redeemer) : Redeemer :=
  {| d_store := s; d_adopted := d_adopted d; d_granted := d_granted d;
     d_dialled := d_dialled d; d_sent := d_sent d |}.

Section redeemer.
Context `{E : Ed25519, T : TextEncoding, B : Blake3, R : RowCodec, C : InviteCodec}.

Definition store_err {A} (r : result string A) : result RedeemError A := map_err OtherError r.

Definition nickname_squat (io : Io) (s : PeerStore) (nickname : string) (inviter_id : key32) :
    result string bool := nickname_collision io s nickname inviter_id.

Definition refusal_error (reason : string) (code : option RefusalCode) : RedeemError :=
  match code with
  | Some NicknameTakenCode => NicknameTaken ("pairing refused: " +:+ reason)
  | Some IdentityRevokedCode => PairRefusal ERR_PAIR_IDENTITY_REVOKED
  | _ => PairRefusal ERR_INVITE_REFUSED
  end.

(** What is checked before anything is contacted: the invite, our name for the inviter and
    the endpoint to dial. *)
Definition redeem_checks (F : RedeemFaults) (N : Net) (a : RedeemArgs) (invite_line : string)
    (now : Z) (s : PeerStore) : result RedeemError (Invite * string * key32) :=
  invite ← map_err OtherError (decode invite_line);
  if i_as_self invite && match a_self_enroll a with SelfRefuse => true | SelfAllow => false end
  then Err (PairRefusal ERR_SELF_ENROLL_NOT_OFFERED)
  else
    let local_name := default (i_nickname invite) (a_as_nickname a) in
    if (i_expires_at_epoch invite <? now)%Z then Err (PairRefusal ERR_INVITE_EXPIRED)
    else
      conflict ← (if i_as_self invite then Ok false
                  else store_err (nickname_squat (g_squat F) s local_name (i_inviter_id invite)));
      if (conflict : bool) then Err (PairRefusal ERR_INVITE_NAME_CONFLICT)
      else if negb (i_as_self invite) && is_refused (g_refused F) s (i_inviter_id invite)
      then Err (PairRefusal ERR_PRINCIPAL_REVOKED)
      else
        id ← ok_or (OtherError "invite carries an undecodable inviter address")
               (n_addr_id N (i_inviter_addr_json invite));
        if decide (id = i_inviter_id invite) then Ok (invite, local_name, id)
        else Err (PairRefusal ERR_INVITER_MISMATCH).

(** The row a redemption writes for the inviter. *)
Definition dialback_entry (N : Net) (invite : Invite) (local_name : string)
    (inviter_user_id : option string) (now : Z) (existing : option PeerEntry) : PeerEntry :=
  {| pe_endpoint_id := i_inviter_id invite; pe_nickname := local_name;
     pe_services := foldl push_unique (match existing with Some e => pe_services e | None => [] end)
                      (i_services invite);
     pe_paired_at := Some (pretty now);
     pe_user_id := match inviter_user_id with
                   | Some uid => Some uid | None => existing ≫= pe_user_id end;
     pe_last_addr := merge_hint (n_observed N) (existing ≫= pe_last_addr) |}.

Definition adopt_enrollment (F : RedeemFaults) (a : RedeemArgs) (invite : Invite)
    (local_name : string) (user_pk sig : option string) (d : Redeemer) :
    result RedeemError PairResult * Redeemer :=
  match user_pk, sig with
  | Some user_pk, Some sig =>
      match verify_presented user_pk sig (a_self_id a) with
      | Err _ => (Err (PairRefusal ERR_INVITE_REFUSED), d)
      | Ok _ =>
          let res :=
            {| pr_peer_nickname := local_name;
               pr_sas_code := short_auth_code (i_inviter_id invite) (a_self_id a) (i_secret invite);
               pr_enrolled_as_self := true; pr_services := [];
               pr_app_label := i_app_label invite; pr_peer_user_id := Some user_pk |} in
          if a_adopt_binding a then
            match hook (g_adopt F) tt with
            | Err e => (Err e, d)
            | Ok _ => (Ok res, adopted_logged {| sb_user_pk := user_pk; sb_sig := sig |} d)
            end
          else (Ok res, d)
      end
  | _, _ => (Err (PairRefusal ERR_INVITE_REFUSED), d)
  end.

Definition adopt_pairing (F : RedeemFaults) (N : Net) (a : RedeemArgs) (invite : Invite)
    (local_name : string) (inviter_user_id : option string) (now : Z) (d : Redeemer) :
    result RedeemError PairResult * Redeemer :=
  if match inviter_user_id with
     | Some uid => is_user_revoked (g_identity F) (d_store d) uid
     | None => false
     end
  then (Err (PairRefusal ERR_PRINCIPAL_REVOKED), d)
  else
    match store_err (existing ← resolve (g_merge F) (d_store d) (i_inviter_id invite);
                     add (g_add F) (d_store d)
                       (dialback_entry N invite local_name inviter_user_id now existing)) with
    | Err e => (Err e, d)
    | Ok s =>
        let d := with_store s d in
        let res :=
          {| pr_peer_nickname := local_name;
             pr_sas_code := short_auth_code (i_inviter_id invite) (a_self_id a) (i_secret invite);
             pr_enrolled_as_self := false; pr_services := i_services invite;
             pr_app_label := i_app_label invite; pr_peer_user_id := inviter_user_id |} in
        if a_grant_back a then
          match hook (g_grant F) tt with
          | Err e => (Err e, d)
          | Ok _ => (Ok res, granted_logged
                       (default (principal (i_inviter_id invite)) inviter_user_id, local_name) d)
          end
        else (Ok res, d)
    end.

Definition hello_of (a : RedeemArgs) (invite : Invite) : RedeemerHello :=
  {| h_secret := i_secret invite; h_redeemer_id := a_self_id a;
     h_redeemer_nickname := a_self_nickname a; h_user_pk := sb_user_pk <$> a_self_binding a;
     h_binding_sig := sb_sig <$> a_self_binding a; h_attest := false |}.

Definition redeem_invite (F : RedeemFaults) (N : Net) (a : RedeemArgs) (invite_line : string)
    (now : Z) (d : Redeemer) : result RedeemError PairResult * Redeemer :=
  match redeem_checks F N a invite_line now (d_store d) with
  | Err e => (Err e, d)
  | Ok (invite, local_name, id) =>
      let d := dial_logged id d in
      match n_connect N id with
      | None => (Err (PairRefusal ERR_INVITER_UNREACHABLE), d)
      | Some remote =>
          if decide (remote = i_inviter_id invite) then
            let d := sent_logged (remote, hello_of a invite) d in
            match n_exchange N (hello_of a invite) with
            | NoLiveInvite => (Err (PairRefusal ERR_INVITE_NOT_LIVE), d)
            | ExchangeFailed e => (Err (OtherError e), d)
            | GotReply (PairRefused reason code) => (Err (refusal_error reason code), d)
            | GotReply (PairOk _ _ user_pk sig) =>
                if i_as_self invite then adopt_enrollment F a invite local_name user_pk sig d
                else adopt_pairing F N a invite local_name
                       (verified_user_id user_pk sig (i_inviter_id invite)) now d
            end
          else (Err (PairRefusal ERR_INVITER_MISMATCH), d)
      end
  end.
End redeemer.

(** ** Lemmas *)
Section lemmas.
Context `{E : Ed25519, T : TextEncoding, B : Blake3, R : RowCodec, C : InviteCodec}.

(** Everything of the inviter but its invites. *)
Definition untouched (v v' : Inviter) : Prop :=
  v_store v' = v_store v /\ v_grants v' = v_grants v /\ v_audit v' = v_audit v /\
  v_ring v' = v_ring v.

Lemma not_live_peek l k now :
  (forall i, l_inner l !! k = Some i -> ~ live now i) ->
  peek_is_self l k now = false /\ peek_live_alias l k now = None.
Proof.
  intros Hn. unfold peek_is_self, peek_live_alias.
  destruct (l_inner l !! k) as [i|]; simpl; [|done].
  specialize (Hn i eq_refl). by rewrite bool_decide_eq_false_2, decide_False.
Qed.

Lemma not_live_redeem io l k now :
  (forall i, l_inner l !! k = Some i -> ~ live now i) ->
  forall i l', try_redeem io l k now <> (RedeemOk i, l').
Proof.
  intros Hn i l'. unfold try_redeem, redeem_step.
  destruct (l_inner l !! k) as [e|]; [|done]. rewrite decide_False by by apply Hn.
  by destruct (persist io _ _) as [[] ?].
Qed.

Lemma precheck_not_live F hello tls_id now v :
  (forall i, l_inner (v_invites v) !! h_secret hello = Some i -> ~ live now i) ->
  precheck F hello tls_id now v = Ok None.
Proof. intros [H1 H2]%not_live_peek. unfold precheck. by rewrite H1, H2. Qed.

(** Services an attested device gets are in every row of the person. *)
Lemma shared_services (es : list PeerEntry) (l : list string) svc :
  svc ∈ foldl (fun services e => filter (fun svc => svc ∈ pe_services e) services) l es ->
  svc ∈ l /\ forall e, e ∈ es -> svc ∈ pe_services e.
Proof.
  revert l; induction es as [|e es IH]; intros l; simpl.
  { intros ?. split; [done|]. by intros e ?%elem_of_nil. }
  intros [[? ?]%list_elem_of_filter Hes]%IH. split; [done|]. in_list.
Qed.

(** What an accepted attestation proved and writes. *)
Definition attested (F : Faults) (h : RedeemerHello) (tls_id : key32) (ctx : InviterCtx)
    (v v' : Inviter) : Prop :=
  exists pk sig uid entry,
    x_admit_attested ctx = true /\
    h_user_pk h = Some pk /\ h_binding_sig h = Some sig /\
    verify_presented pk sig tls_id = Ok uid /\
    is_revoked (f_endpoint F) (v_store v) tls_id = false /\
    is_user_revoked (f_identity F) (v_store v) uid = false /\
    (exists es, entries_for_user (f_entries F) (v_store v) uid = Ok es /\ es <> [] /\
       forall e svc, e ∈ es -> svc ∈ pe_services entry -> svc ∈ pe_services e) /\
    pe_endpoint_id entry = tls_id /\ pe_user_id entry = Some uid /\
    v_store v' = set_peers (<[key_bytes tls_id := peer_to_vec entry]> (t_peers (v_store v))) (v_store v) /\
    v_grants v' = v_grants v /\ v_ring v' = v_ring v /\
    v_audit v' = v_audit v ++ [("device_attest"%string, Some (principal tls_id))].

Lemma attestation_decision_Ok F h tls_id ctx s plan :
  attestation_decision F h tls_id ctx s = Ok plan ->
  x_admit_attested ctx = true /\
  exists pk sig, h_user_pk h = Some pk /\ h_binding_sig h = Some sig /\
    verify_presented pk sig tls_id = Ok (pl_user_id plan) /\
    is_revoked (f_endpoint F) s tls_id = false /\
    is_user_revoked (f_identity F) s (pl_user_id plan) = false /\
    exists es, entries_for_user (f_entries F) s (pl_user_id plan) = Ok es /\ es <> [] /\
      forall e svc, e ∈ es -> svc ∈ pl_services plan -> svc ∈ pe_services e.
Proof.
  unfold attestation_decision. destruct (x_admit_attested ctx); [|done]. simpl.
  destruct (h_user_pk h) as [pk|]; [|done]. destruct (h_binding_sig h) as [sig|]; [|done].
  intros (uid & Hv%map_err_Ok & H)%bind_Ok.
  destruct (is_revoked _ _ _) eqn:H1; [done|]. destruct (is_user_revoked _ _ _) eqn:H2; [done|].
  apply bind_Ok in H as (es & Hes & H). destruct es as [|e0 rest]; [done|]. simplify_eq/=.
  split; [done|]. exists pk, sig. split_and!; try done. exists (e0 :: rest).
  split_and!; [done..|]. intros e svc He [? ?]%shared_services. in_list.
Qed.

Lemma handle_attestation_effects F h tls_id ctx now v r v' :
  handle_attestation F h tls_id ctx now v = (r, v') ->
  untouched v v' \/ attested F h tls_id ctx v v'.
Proof.
  unfold handle_attestation.
  destruct (attestation_decision F h tls_id ctx (v_store v)) as [plan|] eqn:Hd;
    [|intros [= <- <-]; by left].
  destruct (resolve _ _ _) as [prior|]; [|intros [= <- <-]; by left].
  destruct (add _ _ _) as [s|] eqn:Hadd; [|intros [= <- <-]; by left].
  intros [= <- <-]. right. apply add_put in Hadd as ->.
  destruct (attestation_decision_Ok _ _ _ _ _ _ Hd)
    as (Hen & pk & sig & ? & ? & ? & ? & ? & Hes).
  exists pk, sig, (pl_user_id plan). eexists. split_and!; try done; simpl; done.
Qed.

(** What a completed pairing or enrollment writes. *)
Definition enrolled (ctx : InviterCtx) (invite : Invite) (tls_id : key32) (r : Ending)
    (v v' : Inviter) : Prop :=
  i_as_self invite = true /\ (i_uses_remaining invite <= 0)%Z /\
  v_store v' = v_store v /\ v_grants v' = v_grants v /\
  exists b sig, x_self_binding ctx = Some b /\ x_sign_binding ctx tls_id = Some sig /\
    r = Replied (PairOk (i_inviter_id invite) (i_nickname invite) (Some (sb_user_pk b)) (Some sig)) /\
    v_audit v' = v_audit v ++ [("self_enroll"%string, Some (principal tls_id))].

Definition paired_up (F : Faults) (invite : Invite) (h : RedeemerHello) (tls_id : key32)
    (observed : option string) (now : Z) (v v' : Inviter) : Prop :=
  i_as_self invite = false /\
  exists existing, resolve (f_postcheck F) (v_store v) tls_id = Ok existing /\
  let entry := merged_entry invite h tls_id observed now existing in
  (forall uid, pe_user_id entry = Some uid ->
     is_user_revoked (f_identity F) (v_store v) uid = false) /\
  v_store v' = set_peers (<[key_bytes tls_id := peer_to_vec entry]> (t_peers (v_store v))) (v_store v) /\
  v_audit v' = v_audit v /\
  (v_grants v' = v_grants v \/
   v_grants v' = v_grants v ++
     [(default (principal tls_id) (pe_user_id entry), pe_nickname entry, i_services invite)]).

Lemma enroll_device_effects ctx invite h tls_id now v r v' :
  i_as_self invite = true -> (0 <? i_uses_remaining invite)%Z = false ->
  enroll_device ctx invite h tls_id now v = (r, v') ->
  untouched v v' \/ enrolled ctx invite tls_id r v v'.
Proof.
  intros Hs Hu. unfold enroll_device.
  destruct (x_self_binding ctx) as [b|] eqn:Hb; [|intros [= <- <-]; by left].
  destruct (x_sign_binding ctx tls_id) as [sig|] eqn:Hsig; [|intros [= <- <-]; by left].
  intros [= <- <-]. right. split_and!; try done; [lia|]. exists b, sig. by split_and!.
Qed.

Lemma pair_peer_effects F ctx invite h tls_id observed now v r v' :
  i_as_self invite = false ->
  pair_peer F ctx invite h tls_id observed now v = (r, v') ->
  untouched v v' \/ paired_up F invite h tls_id observed now v v'.
Proof.
  intros Hs. unfold pair_peer.
  destruct (resolve_and_check_collision _ _ _ _) as [[existing []]|] eqn:Hc;
    [intros [= <- <-]; by left| |intros [= <- <-]; by left].
  assert (Hex : resolve (f_postcheck F) (v_store v) tls_id = Ok existing).
  { unfold resolve_and_check_collision in Hc. apply bind_Ok in Hc as (o & -> & Ho).
    destruct o; [by simplify_eq|]. apply bind_Ok in Ho as (? & _ & ?). by simplify_eq. }
  case_match eqn:Hrev; [intros [= <- <-]; by left|].
  destruct (add _ _ _) as [s|] eqn:Hadd; [|intros [= <- <-]; by left].
  apply add_put in Hadd as ->. intros Hend. right. split; [done|]. exists existing.
  split; [done|]. split.
  - intros uid Huid. by rewrite Huid in Hrev.
  - destruct (x_grant_fails ctx); injection Hend as <- <-; simpl; split_and!; auto.
Qed.

(** What the redeemer checked before it contacts anyone. *)
Definition checked (F : RedeemFaults) (a : RedeemArgs) (line : string) (now : Z) (s : PeerStore)
    (invite : Invite) : Prop :=
  decode line = Ok invite /\ (now <= i_expires_at_epoch invite)%Z /\
  (i_as_self invite = true -> a_self_enroll a = SelfAllow) /\
  (i_as_self invite = false -> is_refused (g_refused F) s (i_inviter_id invite) = false).

Lemma redeem_checks_Ok F N a line now s invite local_name id :
  redeem_checks F N a line now s = Ok (invite, local_name, id) ->
  checked F a line now s invite /\ id = i_inviter_id invite /\
  local_name = default (i_nickname invite) (a_as_nickname a).
Proof.
  unfold redeem_checks, checked. intros (i & Hd%map_err_Ok & H)%bind_Ok.
  destruct (i_as_self i && _) eqn:Hself; [done|].
  destruct (i_expires_at_epoch i <? now)%Z eqn:Hexp; [done|].
  apply bind_Ok in H as (c & _ & H). destruct c; [done|].
  destruct (negb (i_as_self i) && _) eqn:Href; [done|].
  apply bind_Ok in H as (id' & _ & H). case_decide as Hid; [|done]. simplify_eq.
  split_and!; try done.
  - lia.
  - intros Hs. rewrite Hs in Hself. by destruct (a_self_enroll a).
  - intros Hs. by rewrite Hs in Href.
Qed.

(** The redeemer's trust state after an adopted enrollment or a recorded pairing. *)
Definition trust_unchanged (d d' : Redeemer) : Prop :=
  d_store d' = d_store d /\ d_adopted d' = d_adopted d /\ d_granted d' = d_granted d.

Definition adopted_enrollment (a : RedeemArgs) (invite : Invite) (d d' : Redeemer) : Prop :=
  i_as_self invite = true /\ d_store d' = d_store d /\ d_granted d' = d_granted d /\
  exists b uid, d_adopted d' = d_adopted d ++ [b] /\
    verify_presented (sb_user_pk b) (sb_sig b) (a_self_id a) = Ok uid.

Definition recorded_pairing (F : RedeemFaults) (N : Net) (a : RedeemArgs) (invite : Invite)
    (now : Z) (d d' : Redeemer) : Prop :=
  i_as_self invite = false /\ d_adopted d' = d_adopted d /\
  exists existing pk sig,
    let uid := verified_user_id pk sig (i_inviter_id invite) in
    let name := default (i_nickname invite) (a_as_nickname a) in
    let entry := dialback_entry N invite name uid now existing in
    (forall u, uid = Some u -> is_user_revoked (g_identity F) (d_store d) u = false) /\
    resolve (g_merge F) (d_store d) (i_inviter_id invite) = Ok existing /\
    d_store d' = set_peers (<[key_bytes (i_inviter_id invite) := peer_to_vec entry]>
                              (t_peers (d_store d))) (d_store d) /\
    (d_granted d' = d_granted d \/
     d_granted d' = d_granted d ++ [(default (principal (i_inviter_id invite)) uid, name)]).

Lemma adopt_enrollment_effects F a invite name pk sig d res d' :
  i_as_self invite = true -> adopt_enrollment F a invite name pk sig d = (res, d') ->
  trust_unchanged d d' \/ adopted_enrollment a invite d d'.
Proof.
  intros Hs. unfold adopt_enrollment. destruct pk as [pk|], sig as [sig|];
    try (intros [= <- <-]; by left).
  destruct (verify_presented pk sig (a_self_id a)) as [uid|] eqn:Hv; [|intros [= <- <-]; by left].
  destruct (a_adopt_binding a); [|intros [= <- <-]; by left].
  destruct (hook _ _); [|intros [= <- <-]; by left]. intros [= <- <-]. right.
  split_and!; try done. by exists {| sb_user_pk := pk; sb_sig := sig |}, uid.
Qed.

Lemma adopt_pairing_effects F N a invite pk sig now d res d' :
  i_as_self invite = false ->
  adopt_pairing F N a invite (default (i_nickname invite) (a_as_nickname a))
    (verified_user_id pk sig (i_inviter_id invite)) now d = (res, d') ->
  trust_unchanged d d' \/ recorded_pairing F N a invite now d d'.
Proof.
  intros Hs. unfold adopt_pairing. case_match eqn:Hrev; [intros [= <- <-]; by left|].
  destruct (store_err _) as [s|] eqn:Hst; [|intros [= <- <-]; by left].
  unfold store_err in Hst. apply map_err_Ok, bind_Ok in Hst as (existing & Hex & ->%add_put).
  assert (Huid : forall u, verified_user_id pk sig (i_inviter_id invite) = Some u ->
    is_user_revoked (g_identity F) (d_store d) u = false).
  { intros u Hu. by rewrite Hu in Hrev. }
  intros H. right. split; [done|].
  destruct (a_grant_back a); [destruct (hook _ _)|]; injection H as <- <-;
    (split; [done|]); exists existing, pk, sig; split_and!; simpl; auto.
Qed.

Definition logged (a : RedeemArgs) (invite : Invite) (d d' : Redeemer) : Prop :=
  d_dialled d' = d_dialled d ++ [i_inviter_id invite] /\
  (d_sent d' = d_sent d \/ d_sent d' = d_sent d ++ [(i_inviter_id invite, hello_of a invite)]).

Lemma adopt_logs F N a invite name uid pk sig now d d1 d2 res1 res2 :
  adopt_enrollment F a invite name pk sig d = (res1, d1) ->
  adopt_pairing F N a invite name uid now d = (res2, d2) ->
  d_dialled d1 = d_dialled d /\ d_sent d1 = d_sent d /\
  d_dialled d2 = d_dialled d /\ d_sent d2 = d_sent d.
Proof.
  unfold adopt_enrollment, adopt_pairing. intros H1 H2.
  repeat case_match; simplify_eq/=; done.
Qed.
End lemmas.

(** ** The two sides together *)
Section honest.
Context `{E : Ed25519, T : TextEncoding, TL : !TextEncodingLaws T, B : Blake3,
  R : RowCodec, RL : !RowCodecLaws R, C : InviteCodec, CL : !InviteCodecLaws C}.

(** A network that reaches the inviter [k] in state [v]. *)
Definition honest_net (k : key32) (ctx : InviterCtx) (self : key32) (observed observed' : option string)
    (now : Z) (v : Inviter) : Net :=
  {| n_addr_id _ := Some k; n_connect id := if decide (id = k) then Some k else None;
     n_exchange h := match (handle_inviter_side no_faults ctx (Some h) self observed now v).1 with
                     | Replied r => GotReply r | Dropped e => ExchangeFailed e end;
     n_observed := observed' |}.

Definition no_redeem_faults : RedeemFaults :=
  {| g_squat := healthy; g_refused := healthy; g_identity := healthy; g_merge := healthy;
     g_add := healthy; g_adopt := None; g_grant := None |}.

(** Nothing about the endpoint, and no identity, is revoked. *)
Definition unrevoked (s : PeerStore) (k : key32) : Prop :=
  t_revoked s !! key_bytes k = None /\ t_revoked_users s = ∅.

Lemma unrevoked_user s k uid : unrevoked s k -> is_user_revoked healthy s uid = false.
Proof. intros [_ Hu]. unfold is_user_revoked. simpl. rewrite Hu. by apply bool_decide_eq_false; intros [? ?]. Qed.

Lemma unrevoked_refused s k : unrevoked s k -> is_refused healthy s k = false.
Proof.
  intros [Hr Hu]. apply bool_decide_eq_false. rewrite admission_healthy. unfold admission_of.
  rewrite decide_False by (rewrite Hr; by intros [? ?]).
  destruct (_ ≫= peer_from_slice) as [e|]; [|done]. rewrite Hu.
  destruct (pe_user_id e); done.
Qed.

(** A row just written is admitted when nothing is revoked. *)
Lemma added_resolves s e k :
  unrevoked s k -> pe_endpoint_id e = k ->
  allowlist_resolve healthy
    (set_peers (<[key_bytes k := peer_to_vec e]> (t_peers s)) s) k = Some (identity_of k e).
Proof.
  intros [Hr Hu] Hk. unfold allowlist_resolve. rewrite admission_healthy. unfold admission_of. simpl.
  rewrite decide_False by (rewrite Hr; by intros [? ?]).
  rewrite lookup_insert_eq. simpl. rewrite peer_from_to, Hu. by destruct (pe_user_id e).
Qed.

Lemma try_redeem_live l k now i :
  l_inner l !! k = Some i -> live now i -> (1 <= i_uses_remaining i)%Z ->
  exists l', try_redeem disk_ok l k now = (RedeemOk (with_uses (i_uses_remaining i - 1) i), l').
Proof.
  intros Hi Hl Hu. unfold try_redeem, redeem_step, u32_checked_sub. rewrite Hi, decide_True by done.
  destruct (Z.ltb_spec (i_uses_remaining i) 1); [lia|].
  unfold persist, set_inner; case_decide; simpl; destruct (l_file l); simpl; eauto.
Qed.

Lemma pair_peer_completes ctx invite h tls_id observed now v existing :
  resolve_and_check_collision healthy (v_store v)
    (effective_redeemer_nickname (i_peer_nickname invite) (h_redeemer_nickname h)) tls_id
    = Ok (existing, false) ->
  unrevoked (v_store v) tls_id -> x_grant_fails ctx = None ->
  let e := merged_entry invite h tls_id observed now existing in
  pair_peer no_faults ctx invite h tls_id observed now v =
    (Replied (PairOk (i_inviter_id invite) (i_nickname invite)
       (sb_user_pk <$> x_self_binding ctx) (sb_sig <$> x_self_binding ctx)),
     push_ring {| rp_peer_nickname := pe_nickname e;
                  rp_sas_code := short_auth_code (i_inviter_id invite) tls_id (h_secret h);
                  rp_paired_at_epoch := now; rp_self_enroll := false |}
       (push_grant (default (principal tls_id) (pe_user_id e), pe_nickname e, i_services invite)
          (set_store (set_peers (<[key_bytes tls_id := peer_to_vec e]> (t_peers (v_store v)))
                        (v_store v)) v))).
Proof.
  intros Hc Hr Hg. unfold pair_peer. simpl. rewrite Hc.
  match goal with |- context [if ?b then _ else _] => assert (b = false) as -> end.
  { case_match; [by eapply unrevoked_user|done]. }
  by rewrite Hg.
Qed.

Lemma adopt_pairing_completes N a invite name uid now d :
  unrevoked (d_store d) (i_inviter_id invite) ->
  exists res d' i, adopt_pairing no_redeem_faults N a invite name uid now d = (Ok res, d') /\
    pr_peer_nickname res = name /\
    pr_sas_code res = short_auth_code (i_inviter_id invite) (a_self_id a) (i_secret invite) /\
    allowlist_resolve healthy (d_store d') (i_inviter_id invite) = Some i /\ id_name i = name.
Proof.
  intros Hr. unfold adopt_pairing.
  match goal with |- context [if ?b then _ else _] => assert (b = false) as -> end.
  { destruct uid; [by eapply unrevoked_user|done]. }
  unfold store_err, resolve, add. simpl.
  set (e := dialback_entry _ _ _ _ _ _).
  pose proof (added_resolves (d_store d) e (i_inviter_id invite) Hr eq_refl) as Hres.
  destruct (a_grant_back a); simpl; do 3 eexists; (split; [done|]); split_and!; try done;
    simpl; exact Hres || done.
Qed.

Lemma redeem_checks_completes N a invite now s :
  decode (encode invite) = Ok (without_peer_nickname invite) ->
  i_as_self invite = false -> live now invite ->
  nickname_squat healthy s (default (i_nickname invite) (a_as_nickname a)) (i_inviter_id invite)
    = Ok false ->
  unrevoked s (i_inviter_id invite) -> n_addr_id N (i_inviter_addr_json invite) = Some (i_inviter_id invite) ->
  redeem_checks no_redeem_faults N a (encode invite) now s =
    Ok (without_peer_nickname invite, default (i_nickname invite) (a_as_nickname a), i_inviter_id invite).
Proof.
  intros Hd Hs Hl Hsq Hr Ha. unfold redeem_checks. rewrite Hd.
  cbn [mbind result_bind map_err without_peer_nickname i_as_self i_nickname i_expires_at_epoch
    i_inviter_id i_inviter_addr_json no_redeem_faults g_squat g_refused].
  rewrite Hs, Hsq, unrevoked_refused, Ha by done.
  rewrite (proj2 (Z.ltb_ge _ _)) by exact Hl. simpl. by rewrite decide_True.
Qed.
End honest.

(** ** Properties *)
Section properties.
Context `{E : Ed25519, T : TextEncoding, B : Blake3, R : RowCodec, C : InviteCodec}.

(** A caller that does not hold the secret of a live invite learns nothing and changes
    nothing: every redemption it tries gets the one generic refusal, whatever names, rows
    and invites the inviter has and whichever accesses fail; at most an expired invite is
    dropped. *)
Theorem no_redemption_oracle F ctx h tls_id observed now v :
  h_attest h = false -> h_redeemer_id h = tls_id ->
  (forall i, l_inner (v_invites v) !! h_secret h = Some i -> ~ live now i) ->
  exists v', handle_inviter_side F ctx (Some h) tls_id observed now v =
    (Replied generic_refusal, v') /\ untouched v v'.
Proof.
  intros Ha Hid Hl. unfold handle_inviter_side. rewrite bool_decide_eq_true_2 by done. simpl.
  rewrite Ha, precheck_not_live by done.
  pose proof (not_live_redeem (f_file F) (v_invites v) (h_secret h) now Hl) as Hn.
  destruct (try_redeem _ _ _ _) as [o l']. exists (set_invites l' v).
  destruct o as [i| | |]; [by destruct (Hn i l')|done..].
Qed.

(** C8: the inviter's trust state changes only for the TLS-authenticated endpoint, and only
    off an accepted attestation (opted in, a binding proven for that endpoint, neither the
    endpoint nor the identity revoked, a row of that person already held, services within
    every such row) or a recorded redemption: an enrollment writes no row and no grant and
    signs for that endpoint, a pairing writes one row, merged with the old one, and grants
    the invited services to its principal, never when its identity is revoked. *)
Theorem inviter_side_effects F ctx hello tls_id observed now v r v' :
  handle_inviter_side F ctx hello tls_id observed now v = (r, v') ->
  untouched v v' \/
  exists h, hello = Some h /\ h_redeemer_id h = tls_id /\
    ((h_attest h = true /\ v_invites v' = v_invites v /\ attested F h tls_id ctx v v') \/
     (exists invite,
        try_redeem (f_file F) (v_invites v) (h_secret h) now = (RedeemOk invite, v_invites v') /\
        (enrolled ctx invite tls_id r v v' \/ paired_up F invite h tls_id observed now v v'))).
Proof.
  unfold handle_inviter_side. destruct hello as [h|]; [|intros [= <- <-]; by left].
  case_bool_decide as Hid; simpl; [|intros [= <- <-]; by left].
  destruct (h_attest h) eqn:Ha.
  { intros H. pose proof H as [?|Hat]%handle_attestation_effects; [by left|]. right.
    exists h. split_and!; try done. left. split_and!; try done.
    unfold handle_attestation in H. repeat case_match; simplify_eq/=; done. }
  destruct (precheck F h tls_id now v) as [[reply|]|]; try (intros [= <- <-]; by left).
  destruct (try_redeem _ _ _ _) as [o l'] eqn:Hr.
  destruct o as [invite| | |]; try (intros [= <- <-]; by left).
  destruct (i_as_self invite) eqn:Hs; simpl.
  - destruct (0 <? i_uses_remaining invite)%Z eqn:Hu; [intros [= <- <-]; by left|].
    intros H. assert (v_invites v' = l') as <-.
    { unfold enroll_device in H. repeat case_match; by simplify_eq/=. }
    destruct (enroll_device_effects _ _ _ _ _ _ _ _ Hs Hu H) as [?|?]; [by left|].
    right. exists h. split_and!; try done. right. exists invite. split; [done|by left].
  - intros H. assert (v_invites v' = l') as <-.
    { unfold pair_peer in H. repeat case_match; by simplify_eq/=. }
    destruct (pair_peer_effects _ _ _ _ _ _ _ _ _ _ Hs H) as [?|?]; [by left|].
    right. exists h. split_and!; try done. right. exists invite. split; [done|by right].
Qed.

(** The redeemer contacts nobody for an enrollment its caller did not offer, an expired
    invite, or a revoked inviter, and dials and shows the secret only to the endpoint the
    invite names; it adopts a binding only when proven for its own endpoint, and writes one
    row, for that inviter, only when no identity proven to it is revoked. *)
Theorem redeem_invite_spec F N a line now d res d' :
  redeem_invite F N a line now d = (res, d') ->
  d' = d \/
  exists invite, checked F a line now (d_store d) invite /\ logged a invite d d' /\
    (trust_unchanged d d' \/ adopted_enrollment a invite d d' \/
     recorded_pairing F N a invite now d d').
Proof.
  unfold redeem_invite.
  destruct (redeem_checks F N a line now (d_store d)) as [[[invite name] id]|] eqn:Hc;
    [|intros [= <- <-]; by left].
  apply redeem_checks_Ok in Hc as (Hchk & -> & ->). intros H. right. exists invite.
  split; [done|]. destruct (n_connect N _) as [remote|];
    [|injection H as <- <-; split; [split; [done|by left]|by left]].
  case_decide as Hr; [subst remote|injection H as <- <-; split; [split; [done|by left]|by left]].
  set (d1 := sent_logged _ _) in H.
  assert (Hl : logged a invite d d1) by (split; [done|by right]).
  destruct (n_exchange N _) as [[k n pk sig|reason code]| |e];
    try (injection H as <- <-; split; [done|by left]).
  destruct (adopt_enrollment F a invite (default (i_nickname invite) (a_as_nickname a)) pk sig d1)
    as [r1 de] eqn:H1.
  destruct (adopt_pairing F N a invite (default (i_nickname invite) (a_as_nickname a))
    (verified_user_id pk sig (i_inviter_id invite)) now d1) as [r2 dp] eqn:H2.
  destruct (adopt_logs _ _ _ _ _ _ _ _ _ _ _ _ _ _ H1 H2) as (Hde & Hse & Hdp & Hsp).
  destruct (i_as_self invite) eqn:Hs; injection H as <- <-.
  - split; [unfold logged; by rewrite Hde, Hse|].
    destruct (adopt_enrollment_effects _ _ _ _ _ _ _ _ _ Hs H1) as [?|?]; auto.
  - split; [unfold logged; by rewrite Hdp, Hsp|].
    destruct (adopt_pairing_effects _ _ _ _ _ _ _ _ _ _ Hs H2) as [?|?]; auto.
Qed.

Context `{TL : !TextEncodingLaws T, RL : !RowCodecLaws R, CL : !InviteCodecLaws C}.

(** C16: an honest run over a reachable inviter, with a live invite, free names and nothing
    revoked, completes on both sides: each gate then resolves the other, the inviter grants
    the invited services to a principal its gate gives the redeemer, and both people are
    shown the same code. *)
Theorem pairing_completes ctx a invite now v d observed observed' existing :
  invite_wf invite -> i_as_self invite = false -> live now invite ->
  (1 <= i_uses_remaining invite)%Z ->
  l_inner (v_invites v) !! i_secret invite = Some invite ->
  resolve_and_check_collision healthy (v_store v)
    (effective_redeemer_nickname (i_peer_nickname invite) (a_self_nickname a)) (a_self_id a)
    = Ok (existing, false) ->
  nickname_squat healthy (d_store d) (default (i_nickname invite) (a_as_nickname a))
    (i_inviter_id invite) = Ok false ->
  unrevoked (v_store v) (a_self_id a) -> unrevoked (d_store d) (i_inviter_id invite) ->
  x_grant_fails ctx = None ->
  let N := honest_net (i_inviter_id invite) ctx (a_self_id a) observed observed' now v in
  exists res d' r v' i,
    redeem_invite no_redeem_faults N a (encode invite) now d = (Ok res, d') /\
    handle_inviter_side no_faults ctx (Some (hello_of a invite)) (a_self_id a) observed now v = (r, v') /\
    allowlist_resolve healthy (v_store v') (a_self_id a) = Some i /\
    (exists p, v_grants v' = v_grants v ++ [(p, id_name i, i_services invite)] /\
       (id_user_id i = Some p \/ p = principal (a_self_id a))) /\
    (exists i', allowlist_resolve healthy (d_store d') (i_inviter_id invite) = Some i' /\
       id_name i' = pr_peer_nickname res) /\
    (exists rp, v_ring v' = v_ring v ++ [rp] /\ rp_sas_code rp = pr_sas_code res).
Proof.
  intros Hwf Hself Hlive Huses Hin Hc Hsq Hrv Hrd Hg N.
  assert (Hh : hello_of a (without_peer_nickname invite) = hello_of a invite) by done.
  destruct (try_redeem_live _ _ _ _ Hin Hlive Huses) as [l' Hredeem].
  set (spent_invite := with_uses (i_uses_remaining invite - 1) invite) in *.
  pose proof (pair_peer_completes ctx spent_invite (hello_of a invite) (a_self_id a) observed now
    (set_invites l' v) existing Hc Hrv Hg) as Hpair. cbn zeta in Hpair.
  assert (Hhandle : exists r v', handle_inviter_side no_faults ctx (Some (hello_of a invite))
    (a_self_id a) observed now v = (r, v') /\
    pair_peer no_faults ctx spent_invite (hello_of a invite) (a_self_id a) observed now
      (set_invites l' v) = (r, v')).
  { eexists _, _. split; [|exact Hpair]. rewrite <- Hpair. unfold handle_inviter_side.
    rewrite bool_decide_eq_true_2 by done. simpl.
    assert (precheck no_faults (hello_of a invite) (a_self_id a) now v = Ok None) as ->.
    { unfold precheck, peek_is_self, peek_live_alias. simpl. rewrite Hin. simpl.
      rewrite Hself, andb_false_r, decide_True by done. simpl. by rewrite Hc. }
    rewrite Hredeem. simpl. by rewrite Hself. }
  destruct Hhandle as (r & v' & Hhandle & Hpair').
  rewrite Hpair in Hpair'. injection Hpair' as Hr' Hv'. clear Hpair.
  pose proof (redeem_checks_completes N a invite now (d_store d) (decode_encode _ Hwf) Hself Hlive
    Hsq Hrd eq_refl) as Hchk.
  set (name := default (i_nickname invite) (a_as_nickname a)) in *.
  set (d1 := sent_logged (i_inviter_id invite, hello_of a invite)
    (dial_logged (i_inviter_id invite) d)).
  destruct (adopt_pairing_completes N a (without_peer_nickname invite) name
    (verified_user_id (sb_user_pk <$> x_self_binding ctx) (sb_sig <$> x_self_binding ctx)
      (i_inviter_id invite)) now d1 Hrd) as (res & d' & i' & Hred & Hname & Hsas & Hi' & Hin').
  set (e := merged_entry spent_invite (hello_of a invite) (a_self_id a) observed now existing) in *.
  exists res, d', r, v', (identity_of (a_self_id a) e). split_and!.
  - unfold redeem_invite. rewrite Hchk. cbn [n_connect N honest_net].
    rewrite !decide_True by done. rewrite Hh. cbn [n_exchange N honest_net].
    rewrite Hhandle. simpl fst. rewrite <- Hr'. simpl. rewrite Hself. exact Hred.
  - exact Hhandle.
  - rewrite <- Hv'. by apply added_resolves.
  - exists (default (principal (a_self_id a)) (pe_user_id e)). rewrite <- Hv'. split; [done|].
    destruct (pe_user_id e) as [u|] eqn:Hu; [left; exact Hu|by right].
  - exists i'. split; [done|]. by rewrite Hin'.
  - eexists. rewrite <- Hv'. split; [done|]. by rewrite Hsas.
Qed.
End properties.

(** ** Witnesses *)
Module Witness.
Import Toy ToyRows ToyInvites.

Definition alice_ep : key32 := key_fill Byte.x11.
Definition bob_ep : key32 := key_fill Byte.x22.
Definition secret : key32 := key_fill Byte.x55.
Definition invite : Invite :=
  {| i_secret := secret; i_inviter_id := alice_ep; i_inviter_addr_json := "{}";
     i_nickname := "alice"; i_services := ["notes"%string]; i_expires_at_epoch := 1000;
     i_app_label := None; i_peer_nickname := None; i_as_self := false; i_uses_remaining := 1 |}.
Definition ctx : InviterCtx :=
  {| x_self_binding := None; x_sign_binding _ := None; x_admit_attested := false;
     x_self_endpoint_id := alice_ep; x_self_nickname := "alice"; x_grant_fails := None |}.
Definition args : RedeemArgs :=
  {| a_self_id := bob_ep; a_self_nickname := "bob"; a_as_nickname := None;
     a_self_enroll := SelfRefuse; a_adopt_binding := false; a_self_binding := None;
     a_grant_back := true |}.
Definition inviter (l : gmap key32 Invite) : Inviter :=
  {| v_store := empty_store; v_invites := {| l_inner := l; l_file := None |};
     v_grants := []; v_audit := []; v_ring := [] |}.
Definition redeemer : Redeemer :=
  {| d_store := empty_store; d_adopted := []; d_granted := []; d_dialled := []; d_sent := [] |}.

Lemma invite_ok : invite_wf invite.
Proof. unfold invite_wf, u64_max, u32_max. simpl. lia. Qed.

Lemma empty_unrevoked k : unrevoked empty_store k.
Proof. split; [apply lookup_empty|done]. Qed.

Lemma pairing_completes_witness : exists res d',
  redeem_invite no_redeem_faults
    (honest_net alice_ep ctx bob_ep None None 10 (inviter {[secret := invite]}))
    args (encode invite) 10 redeemer = (Ok res, d').
Proof.
  destruct (pairing_completes ctx args invite 10 (inviter {[secret := invite]}) redeemer None None
    None invite_ok) as (res & d' & r & v' & i & H & _).
  - reflexivity.
  - unfold live. simpl. lia.
  - simpl. lia.
  - apply lookup_singleton_eq.
  - vm_compute. reflexivity.
  - vm_compute. reflexivity.
  - apply empty_unrevoked.
  - apply empty_unrevoked.
  - reflexivity.
  - exists res, d'. exact H.
Defined.

Lemma no_redemption_oracle_witness : exists v',
  handle_inviter_side no_faults ctx (Some (hello_of args invite)) bob_ep None 10 (inviter ∅)
    = (Replied generic_refusal, v') /\ untouched (inviter ∅) v'.
Proof.
  apply no_redemption_oracle; [reflexivity|reflexivity|].
  intros i Hi. simpl in Hi. rewrite lookup_empty in Hi. discriminate Hi.
Defined.

Lemma inviter_side_effects_witness :
  let out := handle_inviter_side no_faults ctx (Some (hello_of args invite)) bob_ep None 10
               (inviter {[secret := invite]}) in
  untouched (inviter {[secret := invite]}) out.2 \/
  exists h, Some (hello_of args invite) = Some h /\ h_redeemer_id h = bob_ep.
Proof.
  intros out.
  destruct (inviter_side_effects no_faults ctx (Some (hello_of args invite)) bob_ep None 10
    (inviter {[secret := invite]}) out.1 out.2) as [H|(h & H1 & H2 & _)].
  - apply surjective_pairing.
  - left. exact H.
  - right. exists h. split; [exact H1|exact H2].
Defined.

Definition net : Net :=
  honest_net alice_ep ctx bob_ep None None 10 (inviter {[secret := invite]}).

Lemma redeem_invite_spec_witness :
  let out := redeem_invite no_redeem_faults net args (encode invite) 10 redeemer in
  out.2 = redeemer \/ exists i, checked no_redeem_faults args (encode invite) 10 empty_store i.
Proof.
  intros out.
  destruct (redeem_invite_spec no_redeem_faults net args (encode invite) 10 redeemer out.1 out.2)
    as [H|(i & H & _)].
  - apply surjective_pairing.
  - left. exact H.
  - right. exists i. exact H.
Defined.
End Witness.
