(* ===== verification/Attest.v ===== *)
(** * Device attestation

    The end of [node/src/pairing/rendezvous.rs] and its two verbs in
    [node/src/daemon/handlers.rs]: a device that holds its person's binding and no rows presents
    it to a node that pairs with the person. The other side, which decides, is
    [Rendezvous.handle_attestation]. *)
From stdpp Require Import base list gmap strings sorting pretty.
From Stdlib Require Import ZArith Lia Strings.Byte.
From S2P Require Import Prelude Bytes Digits Json Externals Schema Sign Identity Allowlist Invites Sas Rendezvous.

Definition ATTEST_SCHEME : string := "mcpmesh-attest:".
Record AttestOffer := { ao_node_id : key32; ao_node_addr_json : string }.

(** The struct's own serde. *)
Class OfferCodec := {
  offer_to_vec : AttestOffer -> bytes;
  offer_from_slice : bytes -> option AttestOffer }.
Class OfferCodecLaws (C : OfferCodec) := { offer_from_to o : offer_from_slice (offer_to_vec o) = Some o }.

(** Which accesses of the device's store fail. *)
Record AttestFaults := { k_refused : Io; k_resolve : Io; k_add : Io }.

Section attest.
Context `{E : Ed25519, T : TextEncoding, B : Blake3, R : RowCodec, C : InviteCodec, O : OfferCodec}.

Definition offer_encode (o : AttestOffer) : string := ATTEST_SCHEME +:+ base64url_encode (offer_to_vec o).
Definition offer_decode (line : string) : result string AttestOffer :=
  body ← ok_or "not an attestation offer (expected a mcpmesh-attest: line)"%string
           (strip_prefix ATTEST_SCHEME (from_bytes (trim (as_bytes line))));
  raw ← map_err (fun _ => "attestation offer is not valid base64url"%string) (base64url_decode body);
  ok_or "attestation offer is malformed"%string (offer_from_slice raw).

(** The [attest_offer] verb; the mesh is [None] on a control-only daemon. *)
Definition attest_offer (mesh : option InviterCtx) (addr_json : result string string) : result string string :=
  ctx ← ok_or "daemon has no mesh"%string mesh;
  if x_admit_attested ctx then
    addr ← addr_json;
    Ok (offer_encode {| ao_node_id := x_self_endpoint_id ctx; ao_node_addr_json := addr |})
  else Err "this node does not admit attested devices — set `[identity].admit_attested_devices = true` and restart, then offer again"%string.

(** No invite, so no secret. *)
Definition attest_hello (self_id : key32) (binding : SelfBinding) : RedeemerHello :=
  {| h_secret := key_fill Byte.x00; h_redeemer_id := self_id; h_redeemer_nickname := "";
     h_user_pk := Some (sb_user_pk binding); h_binding_sig := Some (sb_sig binding); h_attest := true |}.

(** The row of the peer, merged with the one already held. *)
Definition attest_entry (N : Net) (peer : key32) (nickname : string) (peer_user_id : option string) (now : Z)
    (existing : option PeerEntry) : PeerEntry :=
  {| pe_endpoint_id := peer; pe_nickname := nickname;
     pe_services := default [] (pe_services <$> existing);
     pe_paired_at := match existing ≫= pe_paired_at with Some at_ => Some at_ | None => Some (pretty now) end;
     pe_user_id := match peer_user_id with Some uid => Some uid | None => existing ≫= pe_user_id end;
     pe_last_addr := merge_hint (n_observed N) (existing ≫= pe_last_addr) |}.

(** What an accepting reply leads to. *)
Definition record_peer (F : AttestFaults) (N : Net) (nickname_for_peer : option string) (peer : key32) (nickname : string)
    (user_pk sig : option string) (now : Z) (d : Redeemer) : result RedeemError PairResult * Redeemer :=
  let peer_user_id := verified_user_id user_pk sig peer in
  match resolve (k_resolve F) (d_store d) peer with
  | Err e => (Err (OtherError e), d)
  | Ok existing =>
      let nickname := match nickname_for_peer with
                      | Some n => n
                      | None => default nickname (pe_nickname <$> existing)
                      end in
      match add (k_add F) (d_store d) (attest_entry N peer nickname peer_user_id now existing) with
      | Err e => (Err (OtherError e), d)
      | Ok s =>
          (Ok {| pr_peer_nickname := nickname; pr_sas_code := Some ""%string; pr_enrolled_as_self := false; pr_services := [];
                 pr_app_label := None; pr_peer_user_id := peer_user_id |}, with_store s d)
      end
  end.

Definition id_mismatch : RedeemError := OtherError "peer id mismatch — refusing (address-swap defense)".

Definition attest_to (F : AttestFaults) (N : Net) (self_id : key32) (self_binding : option SelfBinding)
    (nickname_for_peer : option string) (offer_line : string) (now : Z) (d : Redeemer) : result RedeemError PairResult * Redeemer :=
  match offer_decode offer_line, self_binding with
  | Err e, _ => (Err (OtherError e), d)
  | Ok _, None => (Err (OtherError "this device has no user key, so it has nothing to attest — import your recovery phrase first (`mcpmesh identity import`)"), d)
  | Ok offer, Some binding =>
      let node := ao_node_id offer in
      if is_refused (k_refused F) (d_store d) node then (Err (PairRefusal ERR_PRINCIPAL_REVOKED), d)
      else
        match n_addr_id N (ao_node_addr_json offer) with
        | None => (Err (OtherError "attestation offer carries an unusable address"), d)
        | Some id =>
            if decide (id = node) then
              let d := dial_logged id d in
              match n_connect N id with
              | None => (Err (OtherError "dial the attesting peer"), d)
              | Some remote =>
                  if decide (remote = node) then
                    let hello := attest_hello self_id binding in
                    let d := sent_logged (remote, hello) d in
                    match n_exchange N hello with
                    | NoLiveInvite => (Err (OtherError "read the attestation reply"), d)
                    | ExchangeFailed e => (Err (OtherError e), d)
                    | GotReply (PairRefused reason _) =>
                        (Err (OtherError ("the peer refused this attestation (" +:+ reason +:+ "). It admits another of your devices only if it already pairs with you AND has `admit_attested_devices` enabled")), d)
                    | GotReply (PairOk peer_id nickname user_pk sig) =>
                        if decide (peer_id = node) then record_peer F N nickname_for_peer peer_id nickname user_pk sig now d
                        else (Err (OtherError "peer reported an id that disagrees with its own offer"), d)
                    end
                  else (Err id_mismatch, d)
              end
            else (Err id_mismatch, d)
        end
  end.

(** ** Lemmas *)
Lemma offer_decode_encode `{TL : !TextEncodingLaws T, OL : !OfferCodecLaws O} o :
  trim (as_bytes (offer_encode o)) = as_bytes (offer_encode o) -> offer_decode (offer_encode o) = Ok o.
Proof.
  intros Ht. unfold offer_decode. rewrite Ht, from_as_bytes. unfold offer_encode. rewrite strip_prefix_app. simpl.
  rewrite base64url_decode_encode. simpl. by rewrite offer_from_to.
Qed.

(** Nothing a row already says of a peer is lost. *)
Definition row_kept (old new : PeerEntry) : Prop :=
  pe_services new = pe_services old /\ (is_Some (pe_paired_at old) -> pe_paired_at new = pe_paired_at old) /\
  (is_Some (pe_user_id old) -> is_Some (pe_user_id new)) /\ (is_Some (pe_last_addr old) -> is_Some (pe_last_addr new)).

Lemma attest_entry_keeps N k name uid now old : row_kept old (attest_entry N k name uid now (Some old)).
Proof.
  unfold row_kept, attest_entry. simpl. split_and!; [done| | |].
  - by intros [x ->].
  - intros [x Hx]. destruct uid; [eauto|]. by rewrite Hx.
  - intros [x Hx]. unfold merge_hint. destruct (n_observed N); [eauto|]. by rewrite Hx.
Qed.

Lemma record_peer_effects F N name k nick pk sig now d res d' :
  record_peer F N name k nick pk sig now d = (res, d') ->
  (is_ok res = false /\ d' = d) \/
  exists existing nickname, resolve (k_resolve F) (d_store d) k = Ok existing /\
    d' = with_store (set_peers (<[key_bytes k :=
           peer_to_vec (attest_entry N k nickname (verified_user_id pk sig k) now existing)]> (t_peers (d_store d))) (d_store d)) d.
Proof.
  unfold record_peer. destruct (resolve _ _ _) as [existing|e] eqn:Hr; [|intros [= <- <-]; by left].
  destruct (add _ _ _) as [s|e] eqn:Ha; [|intros [= <- <-]; by left]. intros [= <- <-]. right.
  apply add_put in Ha as ->. by eexists existing, _.
Qed.

(** An attestation contacts nobody for a line that is no offer, without a binding to show, or
    when this node refuses the offering one; it dials and shows the binding to the node the offer
    names and to no other, with no secret in what it shows; and it writes that node's row alone,
    keeping whatever was known of it, the identity it proved and its address included. *)
Theorem attest_to_spec F N self binding name line now d res d' :
  attest_to F N self binding name line now d = (res, d') ->
  d' = d \/
  exists offer b, offer_decode line = Ok offer /\ binding = Some b /\ is_refused (k_refused F) (d_store d) (ao_node_id offer) = false /\
    n_addr_id N (ao_node_addr_json offer) = Some (ao_node_id offer) /\
    d_dialled d' = d_dialled d ++ [ao_node_id offer] /\
    (d_sent d' = d_sent d \/ d_sent d' = d_sent d ++ [(ao_node_id offer, attest_hello self b)]) /\
    d_adopted d' = d_adopted d /\ d_granted d' = d_granted d /\
    (d_store d' = d_store d /\ is_ok res = false \/
     exists existing e, resolve (k_resolve F) (d_store d) (ao_node_id offer) = Ok existing /\
       d_store d' = set_peers (<[key_bytes (ao_node_id offer) := peer_to_vec e]> (t_peers (d_store d))) (d_store d) /\
       pe_endpoint_id e = ao_node_id offer /\ forall old, existing = Some old -> row_kept old e).
Proof.
  unfold attest_to. destruct (offer_decode line) as [offer|e]; [|intros [= <- <-]; by left].
  destruct binding as [b|]; [|intros [= <- <-]; by left].
  destruct (is_refused _ _ _) eqn:Href; [intros [= <- <-]; by left|].
  destruct (n_addr_id N _) as [id|] eqn:Hid; [|intros [= <- <-]; by left].
  case_decide as Heq; [subst id|intros [= <- <-]; by left]. intros H. right. exists offer, b.
  destruct (n_connect N _) as [remote|]; [|injection H as <- <-; split_and!; auto].
  case_decide as Hr; [subst remote|injection H as <- <-; split_and!; auto].
  destruct (n_exchange N _) as [[k nick pk sig|reason code]| |e]; try (injection H as <- <-; split_and!; auto; fail).
  case_decide as Hk; [subst k|injection H as <- <-; split_and!; auto].
  apply record_peer_effects in H as [[Hno ->]|(existing & nickname & Hex & ->)]; split_and!; auto.
  right. exists existing. eexists. split; [exact Hex|]. split; [reflexivity|]. split; [done|]. intros old ->. apply attest_entry_keeps.
Qed.

Context `{TL : !TextEncodingLaws T, RL : !RowCodecLaws R, OL : !OfferCodecLaws O}.

Definition no_attest_faults : AttestFaults := {| k_refused := healthy; k_resolve := healthy; k_add := healthy |}.

Lemma decision_admits ctx b self uid e0 rest s :
  x_admit_attested ctx = true -> verify_presented (sb_user_pk b) (sb_sig b) self = Ok uid -> unrevoked s self ->
  entries_for_user healthy s uid = Ok (e0 :: rest) ->
  exists services, attestation_decision no_faults (attest_hello self b) self ctx s =
      Ok {| pl_user_id := uid; pl_nickname := pe_nickname e0; pl_services := services |} /\
    forall svc, svc ∈ services -> forall e, e ∈ e0 :: rest -> svc ∈ pe_services e.
Proof.
  intros Hen Hv Hun Hes. pose proof (unrevoked_user s self uid Hun) as Hu. pose proof Hun as [Hrv _].
  assert (Hre : is_revoked healthy s self = false) by (unfold is_revoked, revoked_entry; simpl; by rewrite Hrv).
  eexists. split.
  - unfold attestation_decision. rewrite Hen. cbn [negb attest_hello h_user_pk h_binding_sig]. rewrite Hv.
    cbn [map_err mbind result_bind no_faults f_endpoint f_identity f_entries]. rewrite Hre, Hu, Hes. reflexivity.
  - intros svc Hs e He. apply shared_services in Hs as [H0 Hr]. apply elem_of_cons in He as [->|He]; [done|by apply Hr].
Qed.

(** A device restored to its person's key gets back to a node that pairs with the person: the node
    that made the offer admits it under the person's identity and name, with services every row
    of the person has, granting and comparing nothing; and the device's own gate resolves the
    node. Neither side's revocations may say otherwise, and both stores must work. *)
Theorem attestation_completes ctx b self uid k e0 rest json now v d observed observed' name :
  let line := offer_encode {| ao_node_id := k; ao_node_addr_json := json |} in
  let N := honest_net k ctx self observed observed' now v in
  trim (as_bytes line) = as_bytes line ->
  x_admit_attested ctx = true -> x_self_endpoint_id ctx = k ->
  verify_presented (sb_user_pk b) (sb_sig b) self = Ok uid ->
  entries_for_user healthy (v_store v) uid = Ok (e0 :: rest) ->
  unrevoked (v_store v) self -> unrevoked (d_store d) k ->
  exists res d' r v' i i' e,
    attest_offer (Some ctx) (Ok json) = Ok line /\
    attest_to no_attest_faults N self (Some b) name line now d = (Ok res, d') /\
    handle_inviter_side no_faults ctx (Some (attest_hello self b)) self observed now v = (r, v') /\
    allowlist_resolve healthy (v_store v') self = Some i /\ id_user_id i = Some uid /\ id_name i = pe_nickname e0 /\
    v_store v' = set_peers (<[key_bytes self := peer_to_vec e]> (t_peers (v_store v))) (v_store v) /\
    (forall svc, svc ∈ pe_services e -> forall e', e' ∈ e0 :: rest -> svc ∈ pe_services e') /\
    v_grants v' = v_grants v /\ v_invites v' = v_invites v /\ v_ring v' = v_ring v /\
    v_audit v' = v_audit v ++ [("device_attest"%string, Some (principal self))] /\
    allowlist_resolve healthy (d_store d') k = Some i' /\ id_name i' = pr_peer_nickname res.
Proof.
  intros line N Ht Hen Hself Hv Hes Hrv Hrd.
  destruct (decision_admits ctx b self uid e0 rest (v_store v) Hen Hv Hrv Hes) as (services & Hd & Hsvc).
  set (prior := t_peers (v_store v) !! key_bytes self ≫= peer_from_slice).
  set (e := {| pe_endpoint_id := self; pe_nickname := pe_nickname e0; pe_services := services;
               pe_paired_at := match prior ≫= pe_paired_at with Some at_ => Some at_ | None => Some (pretty now) end;
               pe_user_id := Some uid; pe_last_addr := prior ≫= pe_last_addr |}).
  set (v' := push_audit ("device_attest"%string, Some (principal self))
    (set_store (set_peers (<[key_bytes self := peer_to_vec e]> (t_peers (v_store v))) (v_store v)) v)).
  set (reply := PairOk (x_self_endpoint_id ctx) (x_self_nickname ctx) (sb_user_pk <$> x_self_binding ctx) (sb_sig <$> x_self_binding ctx)).
  assert (Hh : handle_inviter_side no_faults ctx (Some (attest_hello self b)) self observed now v = (Replied reply, v')).
  { unfold handle_inviter_side. rewrite bool_decide_eq_true_2 by done. simpl. unfold handle_attestation. by rewrite Hd. }
  set (existing := t_peers (d_store d) !! key_bytes k ≫= peer_from_slice).
  set (nick := match name with Some n => n | None => default (x_self_nickname ctx) (pe_nickname <$> existing) end).
  set (row := attest_entry N k nick (verified_user_id (sb_user_pk <$> x_self_binding ctx) (sb_sig <$> x_self_binding ctx) k) now existing).
  eexists _, _, _, _, (identity_of self e), (identity_of k row), e. split_and!; [| |exact Hh|by apply added_resolves|done..| |done|done|done|done| |].
  - unfold attest_offer. simpl. by rewrite Hen, Hself.
  - unfold attest_to. unfold line. rewrite offer_decode_encode by done. cbn zeta. cbn [ao_node_id ao_node_addr_json no_attest_faults k_refused].
    rewrite unrevoked_refused by done. cbn [N honest_net n_addr_id n_connect n_exchange]. rewrite !decide_True by done. rewrite Hh.
    cbn [fst reply]. rewrite decide_True by done. rewrite Hself. reflexivity.
  - exact Hsvc.
  - simpl. by apply (added_resolves (d_store d) row).
  - done.
Qed.
End attest.

(** ** Witnesses *)
Module Witness.
Import Toy ToyRows ToyInvites Rendezvous.Witness.

Definition offer_of (v : Value) : option AttestOffer :=
  match v with
  | VArray [k; VString a] => k ← key_of k; Some {| ao_node_id := k; ao_node_addr_json := a |}
  | _ => None
  end.
#[export] Instance offer_codec : OfferCodec := {|
  offer_to_vec o := print (VArray [key_to (ao_node_id o); VString (ao_node_addr_json o)]);
  offer_from_slice := slice offer_of |}.
#[export] Instance offer_codec_laws : OfferCodecLaws offer_codec.
Proof. split. intros [k a]. transitivity (offer_of (VArray [key_to k; VString a])); [apply slice_print|].
  cbn -[key_of key_to]. by rewrite key_of_to. Qed.

(** Carol's node pairs with her phone's owner; her restored laptop presents the person's binding. *)
Definition person : SigningKey := key_fill Byte.x41.
Definition laptop : key32 := key_fill Byte.x42.
Definition carol_uid : string := encode_b64u (key_bytes (vk_to_bytes (verifying_key person))).
Definition laptop_binding : SelfBinding :=
  {| sb_user_pk := carol_uid; sb_sig := encode_b64u (sign_device_binding person laptop) |}.
Definition phone_row : PeerEntry :=
  {| pe_endpoint_id := bob_ep; pe_nickname := "carol"; pe_services := ["notes"%string]; pe_paired_at := None;
     pe_user_id := Some carol_uid; pe_last_addr := None |}.
Definition open_ctx : InviterCtx :=
  {| x_self_binding := None; x_sign_binding _ := None; x_admit_attested := true;
     x_self_endpoint_id := alice_ep; x_self_nickname := "alice"; x_grant_fails := None |}.
Definition pairs_with_carol : Inviter :=
  {| v_store := set_peers {[key_bytes bob_ep := peer_to_vec phone_row]} empty_store; v_invites := {| l_inner := ∅; l_file := None |};
     v_grants := []; v_audit := []; v_ring := [] |}.
Definition offer_line : string := offer_encode {| ao_node_id := alice_ep; ao_node_addr_json := "{}" |}.

Lemma attestation_completes_witness : exists res d' i v',
  attest_to no_attest_faults (honest_net alice_ep open_ctx laptop None None 10 pairs_with_carol) laptop (Some laptop_binding) None
    offer_line 10 redeemer = (Ok res, d') /\
  allowlist_resolve healthy v' laptop = Some i /\ id_user_id i = Some carol_uid /\ id_name i = "carol"%string.
Proof.
  destruct (attestation_completes open_ctx laptop_binding laptop carol_uid alice_ep phone_row [] "{}" 10 pairs_with_carol redeemer
    None None None) as (res & d' & r & v' & i & i' & e & _ & H1 & _ & H2 & H3 & H4 & _).
  - vm_compute. reflexivity.
  - reflexivity.
  - reflexivity.
  - vm_compute. reflexivity.
  - vm_compute. reflexivity.
  - split; [apply lookup_empty|reflexivity].
  - apply empty_unrevoked.
  - exists res, d', i, (v_store v'). split; [exact H1|]. split; [exact H2|]. split; [exact H3|exact H4].
Defined.

Lemma attest_to_spec_witness :
  let out := attest_to no_attest_faults (honest_net alice_ep open_ctx laptop None None 10 pairs_with_carol) laptop None None offer_line 10 redeemer in
  out.2 = redeemer \/ exists b, (None : option SelfBinding) = Some b.
Proof.
  intros out. destruct (attest_to_spec no_attest_faults (honest_net alice_ep open_ctx laptop None None 10 pairs_with_carol) laptop None None
    offer_line 10 redeemer out.1 out.2 (surjective_pairing out)) as [H|(offer & b & _ & H & _)]; [left; exact H|right; exists b; exact H].
Defined.

(** The offering node names itself, and nothing asks whether the name is taken, as redeeming an
    invite does: a node that answers [alice] is filed beside the peer called so, and the name
    then means it. *)
Definition alice_row : PeerEntry :=
  {| pe_endpoint_id := key_fill Byte.x77; pe_nickname := "alice"; pe_services := ["notes"%string]; pe_paired_at := None;
     pe_user_id := None; pe_last_addr := None |}.
Definition knows_alice : Redeemer :=
  {| d_store := set_peers {[key_bytes (key_fill Byte.x77) := peer_to_vec alice_row]} empty_store; d_adopted := []; d_granted := [];
     d_dialled := []; d_sent := [] |}.
Definition named (s : PeerStore) : option key32 :=
  match entry_for healthy s "alice" with Ok o => pe_endpoint_id <$> o | Err _ => None end.
Definition squat := attest_to no_attest_faults (honest_net alice_ep open_ctx laptop None None 10 pairs_with_carol) laptop
  (Some laptop_binding) None offer_line 10 knows_alice.
Lemma attest_name_squatted :
  named (d_store knows_alice) = Some (key_fill Byte.x77) /\ is_ok squat.1 = true /\ named (d_store squat.2) = Some alice_ep /\
  nickname_squat healthy (d_store knows_alice) "alice" alice_ep = Ok true.
Proof. vm_compute. done. Qed.
End Witness.
