(* ===== verification/SelfKey.v ===== *)
(** * The identity a device presents

    Which person this device presents itself as, and what changes it: starting, adopting
    another device's identity, leaving it, exporting the user key and importing one
    ([node/src/daemon/boot.rs], [node/src/daemon.rs], [node/src/daemon/handlers.rs]).

    Two files hold the identity: the user key, and beside it the binding of an enrollment.
    Every operation but a start holds [user_key_lock] throughout, so it is a function of the
    state; each access to a file takes the fault that befalls it. *)
From stdpp Require Import base list gmap strings.
From Stdlib Require Import ZArith Lia Strings.Byte.
From S2P Require Import Prelude Bytes Json Externals Keys Schema Sign Recovery Rendezvous.

(** serde's derived JSON of the binding file. *)
Class BindingCodec := {
  binding_to_vec : SelfBinding -> bytes;
  binding_from_slice : bytes -> option SelfBinding }.
Class BindingCodecLaws (C : BindingCodec) := { binding_from_to b : binding_from_slice (binding_to_vec b) = Some b }.

#[export] Instance SelfBinding_eq_dec : EqDecision SelfBinding.
Proof. solve_decision. Defined.

(** ** Where the binding file is *)
Fixpoint rsplit_at (c : byte) (b : bytes) : option (bytes * bytes) :=
  match b with
  | [] => None
  | x :: b =>
      match rsplit_at c b with
      | Some (p, s) => Some (x :: p, s)
      | None => if decide (x = c) then Some ([], b) else None
      end
  end.

(** [Path::file_stem] of a name: a leading dot starts no extension. *)
Definition file_stem (name : bytes) : bytes :=
  match rsplit_at Byte.x2e name with
  | Some ([], _) | None => name
  | Some (stem, _) => stem
  end.

(** [Path::with_extension], of a path that ends in a file's name. *)
Definition with_extension (ext path : bytes) : bytes :=
  match rsplit_at Byte.x2f path with
  | Some (dir, name) => dir ++ Byte.x2f :: file_stem name ++ Byte.x2e :: ext
  | None => file_stem path ++ Byte.x2e :: ext
  end.
Definition adopted_binding_path (user_key_path : string) : string :=
  from_bytes (with_extension (as_bytes "adopted-binding.json") (as_bytes user_key_path)).

(** ** State *)
Record SelfKeys := {
  k_disk : Files;
  k_self : option SelfBinding;
  k_minted : bool;
  k_imported : option SelfBinding;
  k_adopted : option SelfBinding;
  k_audit : list (string * string) }.

Definition with_disk (d : Files) (s : SelfKeys) : SelfKeys :=
  {| k_disk := d; k_self := k_self s; k_minted := k_minted s; k_imported := k_imported s; k_adopted := k_adopted s;
     k_audit := k_audit s |}.
Definition set_self_binding_live (b : option SelfBinding) (s : SelfKeys) : SelfKeys :=
  {| k_disk := k_disk s; k_self := k_self s; k_minted := k_minted s; k_imported := k_imported s; k_adopted := b;
     k_audit := k_audit s |}.
Definition set_imported_binding (b : SelfBinding) (s : SelfKeys) : SelfKeys :=
  {| k_disk := k_disk s; k_self := k_self s; k_minted := k_minted s; k_imported := Some b; k_adopted := None;
     k_audit := k_audit s |}.
Definition note_user_key_replaced (s : SelfKeys) : SelfKeys :=
  {| k_disk := k_disk s; k_self := k_self s; k_minted := false; k_imported := k_imported s; k_adopted := k_adopted s;
     k_audit := k_audit s |}.
Definition audited (event who : string) (s : SelfKeys) : SelfKeys :=
  {| k_disk := k_disk s; k_self := k_self s; k_minted := k_minted s; k_imported := k_imported s; k_adopted := k_adopted s;
     k_audit := k_audit s ++ [(event, who)] |}.

(** An adopted identity outranks an imported one, and that the one the start derived. *)
Definition self_binding (s : SelfKeys) : option SelfBinding :=
  match k_adopted s with
  | Some b => Some b
  | None => match k_imported s with Some b => Some b | None => k_self s end
  end.

Inductive SelfError :=
| EnrolledHere (verb : string)
| NotEnrolled (stale : bool)
| SelfFailed (e : string).

Inductive SignBindingRefusal := Enrolled | NoIdentity | IdentityChanged | NoKey | KeyMismatch.

Record ImportIo := {
  i_unseen : bool;
  i_read : option string; i_remove : option string; i_write : option string; i_restore : option string }.
Definition import_ok : ImportIo :=
  {| i_unseen := false; i_read := None; i_remove := None; i_write := None; i_restore := None |}.

Section self.
Context `{E : Ed25519, T : TextEncoding, B : Blake3, S : !SecretBytes E, C : BindingCodec}.
Context (path : string) (ep : key32).
Implicit Types s : SelfKeys.

Definition sidecar : string := adopted_binding_path path.

Definition binding_of (key : SigningKey) : SelfBinding :=
  {| sb_user_pk := (present key ep).1; sb_sig := (present key ep).2 |}.

(** What a start makes of the binding file. *)
Definition readopt (read : option string) (disk : Files) : option SelfBinding :=
  match disk !! sidecar, read with
  | Some raw, None =>
      b ← binding_from_slice raw;
      if is_ok (verify_presented (sb_user_pk b) (sb_sig b) ep) then Some b else None
  | _, _ => None
  end.

Definition boot (attempts : nat -> Attempt) (read : option string) (disk : Files) : SelfKeys :=
  let '(r, disk) := load_or_generate_signing_key attempts path disk in
  {| k_disk := disk;
     k_self := match r with Ok (key, _) => Some (binding_of key) | Err _ => None end;
     k_minted := match r with Ok (_, created) => created | Err _ => false end;
     k_imported := None; k_adopted := readopt read disk; k_audit := [] |}.

(** ** Signing with the user key *)
Definition lock_own_user_key (verb : string) (s : SelfKeys) : result SelfError unit :=
  match k_adopted s with Some _ => Err (EnrolledHere verb) | None => Ok tt end.

Definition read_user_key (read : option string) (s : SelfKeys) : result string key32 :=
  match k_disk s !! path, read with
  | None, _ => Err "this node has no user key, so it cannot speak for a person"%string
  | Some _, Some e => Err e
  | Some raw, None => ok_or "the user key is not 32 bytes"%string (try_key32 raw)
  end.

Definition user_key_export (read : option string) (s : SelfKeys) : result SelfError (string * string) * SelfKeys :=
  match (_ ← lock_own_user_key "user_key_export" s; map_err SelfFailed (read_user_key read s)) with
  | Err e => (Err e, s)
  | Ok raw =>
      let uid := user_id (sk_from_bytes raw) in
      (Ok (encode raw, uid), audited "user_key_export" uid s)
  end.

Definition sign_ceremony_binding (presented : option SelfBinding) (read : option string) (endpoint_id : key32)
    (s : SelfKeys) : result SignBindingRefusal string :=
  _ ← map_err (fun _ => Enrolled) (lock_own_user_key "sign_binding" s);
  presented ← ok_or NoIdentity presented;
  if decide (self_binding s = Some presented) then
    raw ← map_err (fun _ => NoKey) (read_user_key read s);
    let key := sk_from_bytes raw in
    if decide (user_id key = sb_user_pk presented) then Ok (present key endpoint_id).2 else Err KeyMismatch
  else Err IdentityChanged.

(** ** Adopting and leaving *)

(** [write_private] renames a finished file over the path. *)
Definition adopt_hook (write : option string) (b : SelfBinding) (s : SelfKeys) : result SelfError unit * SelfKeys :=
  match write with
  | Some e => (Err (SelfFailed e), s)
  | None =>
      (Ok tt, audited "self_enroll_adopt" (sb_user_pk b)
                (set_self_binding_live (Some b) (with_disk (<[sidecar := binding_to_vec b]> (k_disk s)) s)))
  end.

(** A file that is not there is not an error. *)
Definition remove_adopted_sidecar (remove : option string) (disk : Files) : result string bool * Files :=
  match disk !! sidecar, remove with
  | None, _ => (Ok false, disk)
  | Some _, Some e => (Err e, disk)
  | Some _, None => (Ok true, delete sidecar disk)
  end.

Definition self_enroll_detach (remove : option string) (s : SelfKeys) :
    result SelfError (option string * string) * SelfKeys :=
  let '(r, disk) := remove_adopted_sidecar remove (k_disk s) in
  match r, k_adopted s with
  | Err e, _ => (Err (SelfFailed e), s)
  | Ok stale, None => (Err (NotEnrolled stale), with_disk disk s)
  | Ok _, Some adopted =>
      let s := audited "self_enroll_detach" (sb_user_pk adopted) (set_self_binding_live None (with_disk disk s)) in
      (Ok (sb_user_pk <$> self_binding s, sb_user_pk adopted), s)
  end.

(** ** Importing *)

(** The binding file is read and removed before the key is written, and written back when
    the key cannot be. *)
Definition supersede (io : ImportIo) (disk : Files) : result string (option bytes * Files) :=
  match disk !! sidecar with
  | None => Ok (None, disk)
  | Some raw =>
      match i_read io, i_remove io with
      | Some e, _ | None, Some e => Err e
      | None, None => Ok (Some raw, delete sidecar disk)
      end
  end.

Definition put_back (io : ImportIo) (removed : option bytes) (s : SelfKeys) : SelfKeys :=
  match removed with
  | None => s
  | Some raw =>
      match i_restore io with
      | None => with_disk (<[sidecar := raw]> (k_disk s)) s
      | Some _ => set_self_binding_live None s
      end
  end.

Definition user_key_import (io : ImportIo) (recovery_phrase : string) (replace : bool) (s : SelfKeys) :
    result SelfError (string * bool) * SelfKeys :=
  match decode recovery_phrase with
  | Err e => (Err (SelfFailed e), s)
  | Ok raw =>
      let existed := negb (i_unseen io) && bool_decide (is_Some (k_disk s !! path)) in
      let protects := existed && negb (k_minted s) in
      if protects && negb replace then (Err (SelfFailed "this node already has a user key that it did not mint just now"), s)
      else
        match supersede io (k_disk s) with
        | Err e => (Err (SelfFailed e), s)
        | Ok (removed, disk) =>
            let key := sk_from_bytes raw in
            let s := with_disk disk s in
            match write_signing_key (i_write io) path key existed (k_disk s) with
            | (Err _, _) => (Err (SelfFailed "write user key"), put_back io removed s)
            | (Ok _, disk) =>
                let s := set_imported_binding (binding_of key) (note_user_key_replaced (with_disk disk s)) in
                (Ok (user_id key, protects), audited "user_key_import" (user_id key) s)
            end
        end
  end.
End self.

(** ** Histories *)
Inductive SelfOp `{E : Ed25519} :=
| OpBoot (attempts : nat -> Attempt) (read : option string)
| OpAdopt (write : option string) (b : SelfBinding)
| OpDetach (remove : option string)
| OpImport (io : ImportIo) (recovery_phrase : string) (replace : bool)
| OpExport (read : option string).

(** ** The binding file is never the key *)
Lemma rsplit_at_Some c b p q : rsplit_at c b = Some (p, q) -> b = p ++ c :: q /\ c ∉ q.
Proof.
  revert p. induction b as [|x b IH]; intros p; [done|]. simpl. destruct (rsplit_at c b) as [[p' q']|] eqn:R.
  - intros [= <- ->]. destruct (IH _ eq_refl) as [-> Hq]. done.
  - case_decide as Hx; [|done]. intros [= <- <-]. subst x. split; [done|]. clear -R. revert R.
    induction b as [|y b IH]; simpl; [set_solver|]. destruct (rsplit_at c b) as [[? ?]|]; [done|].
    case_decide; [done|]. intros _ [->|Hin]%elem_of_cons; [done|]. by apply IH.
Qed.

Lemma stem_ext_other name ext : Byte.x2e ∈ ext -> file_stem name ++ Byte.x2e :: ext <> name.
Proof.
  intros Hext Heq. unfold file_stem in Heq.
  assert (Hgrow : name ++ Byte.x2e :: ext <> name).
  { intros H. apply (f_equal length) in H. rewrite length_app in H. simpl in H. lia. }
  destruct (rsplit_at Byte.x2e name) as [[[|y p] q]|] eqn:R; [done| |done].
  apply rsplit_at_Some in R as [-> Hq]. apply app_inv_head in Heq. injection Heq as ->. done.
Qed.

Lemma sidecar_other path : adopted_binding_path path <> path.
Proof.
  unfold adopted_binding_path, with_extension. intros H. apply (f_equal as_bytes) in H. rewrite as_from_bytes in H.
  assert (Hd : Byte.x2e ∈ as_bytes "adopted-binding.json") by (apply (bool_decide_eq_true_1 _); vm_compute; reflexivity).
  destruct (rsplit_at Byte.x2f (as_bytes path)) as [[dir name]|] eqn:R; [|by apply stem_ext_other in H].
  apply rsplit_at_Some in R as [R _]. rewrite R in H. apply app_inv_head in H. injection H as H.
  by apply stem_ext_other in H.
Qed.

Section theorems.
Context `{E : Ed25519, EL : !Ed25519Laws E, T : TextEncoding, TL : !TextEncodingLaws T, B : Blake3, S : !SecretBytes E,
  SL : !SecretBytesLaws S, C : BindingCodec, CL : !BindingCodecLaws C}.
Context (path : string) (ep : key32).
Implicit Types s : SelfKeys.

Definition run_op (op : SelfOp) (s : SelfKeys) : SelfKeys :=
  match op with
  | OpBoot attempts read => boot path ep attempts read (k_disk s)
  | OpAdopt write b => (adopt_hook path write b s).2
  | OpDetach remove => (self_enroll_detach path remove s).2
  | OpImport io phrase replace => (user_key_import path ep io phrase replace s).2
  | OpExport read => (user_key_export path read s).2
  end.

(** What the callers guarantee: a redemption adopts only a binding that verifies for this
    endpoint ([Rendezvous.adopt_enrollment]), and no other process removes the key. *)
Definition op_ok (op : SelfOp) : Prop :=
  match op with
  | OpBoot attempts _ => forall i, publishes (at_before (attempts i)) /\ publishes (at_between (attempts i))
  | OpAdopt _ b => is_ok (verify_presented (sb_user_pk b) (sb_sig b) ep) = true
  | _ => True
  end.

Definition run_ops (s : SelfKeys) (ops : list SelfOp) : SelfKeys := foldl (fun s op => run_op op s) s ops.

(** The fault that befell the binding file at the last start. *)
Definition last_read (read : option string) (ops : list SelfOp) : option string :=
  foldl (fun read op => match op with OpBoot _ read => read | _ => read end) read ops.

(** A device that has started at least once, with anything on its disk; [read] is what its last
    start met reading the binding file. *)
Definition reached_after (read : option string) (s : SelfKeys) : Prop :=
  exists disk attempts first ops, op_ok (OpBoot attempts first) /\ Forall op_ok ops /\
    s = run_ops (boot path ep attempts first disk) ops /\ read = last_read first ops.
Definition reached (s : SelfKeys) : Prop := exists read, reached_after read s.

Definition own (s : SelfKeys) : option SelfBinding :=
  match k_imported s with Some b => Some b | None => k_self s end.

(** What is presented agrees with the files, but for a binding the last start could not read. *)
Record agrees (read : option string) (s : SelfKeys) : Prop := {
  ag_adopted : k_adopted s = readopt path ep None (k_disk s) \/ (is_Some read /\ k_adopted s = None);
  ag_own b : own s = Some b ->
    exists raw, k_disk s !! path = Some (key_bytes raw) /\ b = binding_of ep (sk_from_bytes raw) }.

Lemma self_binding_own s : k_adopted s = None -> self_binding s = own s.
Proof. unfold self_binding, own. by intros ->. Qed.

Lemma sidecar_ne : sidecar path <> path.
Proof. apply sidecar_other. Qed.

Lemma readopt_other disk disk' : disk !! sidecar path = disk' !! sidecar path -> readopt path ep None disk = readopt path ep None disk'.
Proof. unfold readopt. by intros ->. Qed.

Lemma readopt_gone disk : disk !! sidecar path = None -> readopt path ep None disk = None.
Proof. unfold readopt. by intros ->. Qed.

Lemma boot_agrees attempts read disk : op_ok (OpBoot attempts read) -> agrees read (boot path ep attempts read disk).
Proof.
  intros Hok. unfold boot. destruct (load_or_generate_signing_key attempts path disk) as [r disk'] eqn:Hl.
  split; simpl.
  - destruct read; [right|by left]. split; [by eexists|]. unfold readopt. by destruct (disk' !! sidecar path).
  - intros b. unfold own. simpl. apply load_or_generate_cases in Hl as [_ Hr]; [|exact Hok].
    destruct r as [[key created]|e]; [|done]. intros [= <-].
    destruct Hr as [[Hp _]|(_ & raw & Hp & ->)]; [|by exists raw]. exists (sk_to_bytes key). by rewrite sk_from_to.
Qed.

Lemma adopt_agrees read write b s :
  is_ok (verify_presented (sb_user_pk b) (sb_sig b) ep) = true -> agrees read s -> agrees read (adopt_hook path write b s).2.
Proof.
  intros Hv [Ha Ho]. unfold adopt_hook. destruct write; [by split|]. split; simpl.
  - left. unfold readopt. rewrite lookup_insert_eq, binding_from_to. simpl. by rewrite Hv.
  - intros b' Hb. rewrite lookup_insert_ne by apply sidecar_ne. by apply Ho.
Qed.

(** With the file gone and nothing adopted the two agree. *)
Lemma gone_agrees disk : readopt path ep None (delete (sidecar path) disk) = None.
Proof. apply readopt_gone, lookup_delete_eq. Qed.

Lemma detach_agrees read remove s : agrees read s -> agrees read (self_enroll_detach path remove s).2.
Proof.
  intros [Ha Ho]. unfold self_enroll_detach, remove_adopted_sidecar. pose proof sidecar_ne as Hne.
  destruct (k_disk s !! sidecar path) as [raw|] eqn:Hf.
  - destruct remove; [by split|]. destruct (k_adopted s) eqn:Hk; simpl; (split; simpl;
      [left; by rewrite gone_agrees|]; intros b Hb; rewrite lookup_delete_ne by done; by apply Ho).
  - destruct (k_adopted s) eqn:Hk; simpl; split; simpl; [left; by rewrite readopt_gone|exact Ho|left; by rewrite readopt_gone, Hk|exact Ho].
Qed.

Lemma supersede_spec io disk removed disk' :
  supersede path io disk = Ok (removed, disk') -> disk !! sidecar path = removed /\ disk' = delete (sidecar path) disk.
Proof.
  unfold supersede. destruct (disk !! sidecar path) eqn:Hf.
  - destruct (i_read io), (i_remove io); try done. by intros [= <- <-].
  - intros [= <- <-]. split; [done|]. by rewrite delete_id.
Qed.

Lemma put_back_agrees read io removed s :
  agrees read s -> k_disk s !! sidecar path = removed ->
  agrees read (put_back path io removed (with_disk (delete (sidecar path) (k_disk s)) s)).
Proof.
  intros [Ha Ho] <-. pose proof sidecar_ne as Hne. unfold put_back. destruct (k_disk s !! sidecar path) as [raw|] eqn:Hf.
  - destruct (i_restore io); split; simpl.
    + left. by rewrite gone_agrees.
    + intros b Hb. rewrite lookup_delete_ne by done. by apply Ho.
    + rewrite insert_delete_eq, insert_id by done. done.
    + rewrite insert_delete_eq, insert_id by done. exact Ho.
  - rewrite delete_id by done. by split.
Qed.

Lemma import_agrees read io phrase replace s : agrees read s -> agrees read (user_key_import path ep io phrase replace s).2.
Proof.
  intros Hs. unfold user_key_import. destruct (decode phrase) as [raw|]; [|done]. cbv zeta. case_match; [done|].
  destruct (supersede path io (k_disk s)) as [[removed disk]|] eqn:Hsup; [|done].
  apply supersede_spec in Hsup as [Hr ->]. cbn [k_disk with_disk].
  destruct (write_signing_key _ _ _ _ _) as [[[]|e] disk'] eqn:Hw; [|by apply put_back_agrees].
  apply write_signing_key_spec in Hw as [-> _]. pose proof sidecar_ne as Hne. split; simpl.
  - left. rewrite readopt_gone; [done|]. rewrite lookup_insert_ne by done. apply lookup_delete_eq.
  - intros b [= <-]. rewrite lookup_insert_eq. exists (sk_to_bytes (sk_from_bytes raw)). by rewrite sk_from_to.
Qed.

Lemma export_disk read s : k_disk (user_key_export path read s).2 = k_disk s /\ self_binding (user_key_export path read s).2 = self_binding s.
Proof. unfold user_key_export. by destruct (_ ≫= _) as [|]. Qed.

Lemma run_op_agrees read op s : op_ok op -> agrees read s -> agrees (last_read read [op]) (run_op op s).
Proof.
  intros Hok Hs. destruct op; simpl; [by apply boot_agrees|by apply adopt_agrees|by apply detach_agrees|by apply import_agrees|].
  unfold user_key_export. destruct (_ ≫= _) as [|]; [|done]. destruct Hs as [Ha Ho]. by split.
Qed.

Lemma reached_agrees read s : reached_after read s -> agrees read s.
Proof.
  intros (disk & attempts & first & ops & Hb & Hops & -> & ->). unfold run_ops.
  assert (Hs := boot_agrees attempts first disk Hb). revert Hs. generalize (boot path ep attempts first disk). clear Hb. revert first.
  induction Hops as [|op ops Hop _ IH]; intros first s Hs; [done|]. simpl. apply IH. by apply (run_op_agrees first).
Qed.

(** ** Theorems *)

(** A start with nothing in its way presents the enrollment on the disk, or else the key that
    is there. *)
Lemma quiet_boot attempts s b :
  alone (attempts 0%nat) -> (exists read, agrees read s) -> self_binding s = Some b ->
  self_binding (boot path ep attempts None (k_disk s)) =
    match readopt path ep None (k_disk s) with Some e => Some e | None => own s end.
Proof.
  intros Hq (read & Ha & Ho) Hb. unfold boot. destruct (load_or_generate_signing_key attempts path (k_disk s)) as [r disk'] eqn:Hl.
  pose proof sidecar_ne as Hne.
  assert (Hkept : disk' !! sidecar path = k_disk s !! sidecar path).
  { clear -Hl Hq Hne. destruct Hq as (Hbe & Hm & Hrd & Hwr). unfold load_or_generate_signing_key in Hl.
    cbn [load_or_generate_within] in Hl. rewrite (partial_alter_same _ _ _ Hbe), Hrd in Hl.
    destruct (k_disk s !! path) eqn:Hp; [by injection Hl as _ <-|]. unfold mint_signing_key_at in Hl.
    rewrite Hwr, (partial_alter_same _ _ _ Hm), Hp in Hl. injection Hl as _ <-. by rewrite lookup_insert_ne by done. }
  unfold self_binding. simpl. rewrite (readopt_other _ _ Hkept).
  destruct (readopt path ep None (k_disk s)) as [b'|] eqn:Hk; [done|].
  assert (Hn : k_adopted s = None) by (by destruct Ha as [?|[_ ?]]).
  rewrite self_binding_own in Hb by done. rewrite Hb. destruct (Ho _ Hb) as (raw & Hp & ->).
  destruct Hq as (Hbe & _ & Hrd & _). unfold load_or_generate_signing_key in Hl. cbn [load_or_generate_within] in Hl.
  by rewrite (partial_alter_same _ _ _ Hbe), Hrd, Hp, try_key32_bytes in Hl; injection Hl as <- _.
Qed.

(** C30: after any history of starts, adoptions, detachments, exports and imports, whatever
    file accesses failed in them, the identity this device presents is the one the next
    start would present; with one exception, which takes a last start that could not read the
    file of an enrollment: the device then presents its own identity, and until it is enrolled
    again, detached or given another key the next start that can read the file goes back to
    the enrollment that is in it. *)
Theorem presented_survives_restart s read attempts b :
  reached_after read s -> alone (attempts 0%nat) -> self_binding s = Some b ->
  let next := self_binding (boot path ep attempts None (k_disk s)) in
  (read = None -> next = Some b) /\
  (next = Some b \/
   k_adopted s = None /\ own s = Some b /\
   exists e, readopt path ep None (k_disk s) = Some e /\ next = Some e).
Proof.
  intros Hs%reached_agrees Hq Hb. cbv zeta. rewrite (quiet_boot attempts s b) by eauto. destruct Hs as [Ha _].
  assert (Hin : k_adopted s = readopt path ep None (k_disk s) ->
    match readopt path ep None (k_disk s) with Some e => Some e | None => own s end = Some b).
  { intros <-. exact Hb. }
  split; [intros ->; destruct Ha as [Ha|[[? ?] _]]; [by apply Hin|done]|].
  destruct Ha as [Ha|[_ Hn]]; [left; by apply Hin|]. rewrite self_binding_own in Hb by done.
  destruct (readopt path ep None (k_disk s)) as [e|]; [right|by left]. eauto.
Qed.

Definition replaces (op : SelfOp) : bool := match op with OpImport _ _ replace => replace | _ => false end.

Lemma key_stands op s raw :
  op_ok op -> replaces op = false -> k_minted s = false -> k_disk s !! path = Some raw ->
  k_minted (run_op op s) = false /\ k_disk (run_op op s) !! path = Some raw.
Proof.
  intros Hok Hr Hm Hp. pose proof sidecar_ne as Hne. destruct op as [attempts bread|write b|remove|io phrase replace|read]; simpl.
  - unfold boot. destruct (load_or_generate_signing_key attempts path (k_disk s)) as [r disk'] eqn:Hl.
    apply load_or_generate_cases in Hl as [Hk Hc]; [|exact Hok]. split; [|by apply Hk]. simpl.
    destruct r as [[key [|]]|]; [|done|done]. destruct Hc as [[_ Hc]|[? _]]; [|done]. destruct (Hc eq_refl). congruence.
  - unfold adopt_hook. destruct write; [done|]. simpl. by rewrite lookup_insert_ne by done.
  - unfold self_enroll_detach, remove_adopted_sidecar. destruct (k_disk s !! sidecar path); [destruct remove; [done|]|];
      destruct (k_adopted s); simpl; by rewrite ?lookup_delete_ne by done.
  - simpl in Hr. subst replace. unfold user_key_import. destruct (decode phrase) as [k|]; [|done]. cbv zeta.
    rewrite Hm, Hp. destruct (i_unseen io) eqn:Hu; [|done]. simpl.
    destruct (supersede path io (k_disk s)) as [[removed disk]|] eqn:Hs; [|done].
    apply supersede_spec in Hs as [Hf ->].
    assert (Hp' : delete (sidecar path) (k_disk s) !! path = Some raw) by by rewrite lookup_delete_ne.
    unfold write_signing_key. rewrite Hp', bool_decide_eq_true_2 by eauto. simpl.
    destruct (i_write io); unfold put_back; destruct removed; try destruct (i_restore io); simpl;
      rewrite ?lookup_insert_ne by done; done.
  - unfold user_key_export. by destruct (_ ≫= _) as [|].
Qed.

(** A user key that a start found on the disk, or that an import wrote, stays there: only
    an import told to replace it can take it away. *)
Theorem identity_never_discarded s ops raw :
  Forall (op_ok) ops -> forallb (fun op => negb (replaces op)) ops = true ->
  k_minted s = false -> k_disk s !! path = Some raw ->
  k_disk (run_ops s ops) !! path = Some raw.
Proof.
  intros Hops. revert s. induction Hops as [|op ops Hop _ IH]; intros s Hr Hm Hp; [done|].
  apply andb_true_iff in Hr as [Hr%negb_true_iff Hrs]. simpl.
  destruct (key_stands _ _ _ Hop Hr Hm Hp). by apply IH.
Qed.

Lemma export_Ok read s phrase uid s' :
  user_key_export path read s = (Ok (phrase, uid), s') ->
  k_adopted s = None /\ exists raw, k_disk s !! path = Some (key_bytes raw) /\ phrase = encode raw /\ uid = user_id (sk_from_bytes raw).
Proof.
  unfold user_key_export, lock_own_user_key. destruct (k_adopted s); [done|]. simpl.
  destruct (read_user_key path read s) as [raw|] eqn:Hr; [|done]. simpl. intros [= <- <- <-]. split; [done|]. exists raw.
  split; [|done]. unfold read_user_key in Hr. destruct (k_disk s !! path) as [f|]; [|done]. destruct read; [done|].
  by apply ok_or_Ok, try_key32_Some in Hr as ->.
Qed.

(** A signature made for another device during a ceremony verifies, for that device, under
    the identity the ceremony presents, and is made only by a device that still presents it
    as its own. *)
Theorem ceremony_binding_verifies presented read e s sig :
  sign_ceremony_binding path presented read e s = Ok sig ->
  k_adopted s = None /\
  exists b, presented = Some b /\ self_binding s = Some b /\ verify_presented (sb_user_pk b) sig e = Ok (sb_user_pk b).
Proof.
  unfold sign_ceremony_binding, lock_own_user_key. destruct (k_adopted s); [done|]. simpl. intros H. split; [done|].
  destruct presented as [b|]; [|done]. simpl in H. destruct (decide _) as [Hb|]; [|done]. exists b. split_and!; [done..|].
  destruct (read_user_key path read s) as [raw|]; [|done]. simpl in H. case_decide as Hk; [|done].
  injection H as <-. rewrite <- Hk. apply present_verifies.
Qed.
End theorems.

Section recovery.
Context `{E : Ed25519, EL : !Ed25519Laws E, T : TextEncoding, TL : !TextEncodingLaws T, B : Blake3, S : !SecretBytes E,
  SL : !SecretBytesLaws S, C : BindingCodec, CL : !BindingCodecLaws C}.

(** C31: an exported phrase is the identity the exporting device presents; imported on another
    device it makes that one present the same person at once, with a binding its peers
    verify, and able to sign for the person's other devices. *)
Theorem recovery_restores_person path ep s read phrase uid s1 path' ep' s' e :
  reached path ep s -> user_key_export path read s = (Ok (phrase, uid), s1) ->
  (forall b, self_binding s = Some b -> sb_user_pk b = uid) /\
  exists protects s2 b sig,
    user_key_import path' ep' import_ok phrase true s' = (Ok (uid, protects), s2) /\
    self_binding s2 = Some b /\ sb_user_pk b = uid /\ verify_presented uid (sb_sig b) ep' = Ok uid /\
    sign_ceremony_binding path' (self_binding s2) None e s2 = Ok sig /\ verify_presented uid sig e = Ok uid.
Proof.
  intros Hs Hx. destruct (export_Ok _ _ _ _ _ _ Hx) as (Hn & raw & Hp & -> & ->).
  split.
  { intros b Hb. rewrite self_binding_own in Hb by done. destruct Hs as [at_last Hs]. destruct (ag_own _ _ _ _ (reached_agrees _ _ _ _ Hs) _ Hb) as (raw' & Hp' & ->).
    rewrite Hp in Hp'. injection Hp' as Hp'. by apply key32_eq in Hp' as ->. }
  unfold user_key_import. destruct (recovery_phrase_exact "" raw) as [-> _]. cbv zeta. rewrite andb_false_r.
  set (key := sk_from_bytes raw).
  assert (Hsup : supersede path' import_ok (k_disk s') = Ok (k_disk s' !! sidecar path', delete (sidecar path') (k_disk s'))).
  { unfold supersede. destruct (k_disk s' !! sidecar path') eqn:Hf; simpl; [done|]. by rewrite delete_id. }
  rewrite Hsup. cbn [k_disk with_disk]. unfold write_signing_key. simpl i_write. cbv iota. simpl i_unseen.
  assert (Hex : negb (negb false && bool_decide (is_Some (k_disk s' !! path'))) &&
    bool_decide (is_Some (delete (sidecar path') (k_disk s') !! path')) = false).
  { rewrite lookup_delete_ne by apply sidecar_ne. by destruct (bool_decide _). }
  rewrite Hex. eexists _, _, (binding_of ep' key), (present key e).2.
  split; [reflexivity|]. split; [reflexivity|]. split; [reflexivity|]. split; [apply present_verifies|].
  split; [|apply present_verifies].
  unfold sign_ceremony_binding, read_user_key. simpl. rewrite decide_True by done.
  rewrite lookup_insert_eq, try_key32_bytes. simpl. rewrite sk_from_to. fold key. by rewrite decide_True by done.
Qed.
End recovery.

(** ** A concrete codec, and witnesses *)
Module ToyBinding.
Import Toy.
#[export] Instance binding_codec : BindingCodec := {|
  binding_to_vec b := print (VArray [VString (sb_user_pk b); VString (sb_sig b)]);
  binding_from_slice := slice (fun v =>
    match v with
    | VArray [VString p; VString g] => Some {| sb_user_pk := p; sb_sig := g |}
    | _ => None
    end) |}.
#[export] Instance binding_codec_laws : BindingCodecLaws binding_codec.
Proof. split. intros []. apply (slice_print (A := SelfBinding)). Qed.
End ToyBinding.

Module Witness.
Import Toy ToyKeys ToyBinding.
Local Open Scope string_scope.

Definition path : string := "/home/a.b/user.key".
Lemma path_sidecar : adopted_binding_path path = "/home/a.b/user.adopted-binding.json".
Proof. reflexivity. Qed.
Lemma dotted_sidecar : adopted_binding_path ".key" = ".key.adopted-binding.json".
Proof. reflexivity. Qed.

Definition laptop : key32 := key_fill Byte.x61.
Definition minted : key32 := key_fill Byte.x6d.
Definition person : key32 := key_fill Byte.x70.
(** A key of the toy signatures is its bytes. *)
Definition key_of (k : key32) : @SigningKey ed25519 := k.
Definition attempts : nat -> Attempt := fun _ => quiet minted.
Lemma attempts_ok read : op_ok laptop (OpBoot attempts read).
Proof. intros i. split; intros o b Ho; exact Ho. Qed.
Lemma attempts_alone : alone (attempts 0%nat).
Proof. unfold alone. simpl. auto. Qed.

(** A new device is enrolled; leaving fails on the file, and so does an import's write. *)
Definition fresh : SelfKeys := boot path laptop attempts None ∅.
Definition ops : list SelfOp :=
  [OpAdopt None (binding_of laptop (key_of person)); OpDetach (Some "busy");
   OpImport {| i_unseen := false; i_read := None; i_remove := None; i_write := Some "disk full"; i_restore := None |}
     (encode person) true].
Lemma history_ok : Forall (op_ok laptop) ops.
Proof. repeat constructor. Qed.
Definition enrolled : SelfKeys := run_ops path laptop fresh ops.

Lemma presented_survives_restart_witness :
  self_binding (boot path laptop attempts None (k_disk enrolled)) = Some (binding_of laptop (key_of person)).
Proof.
  apply (presented_survives_restart path laptop enrolled None attempts).
  - exists ∅, attempts, None, ops. split; [exact (attempts_ok None)|]. split; [exact history_ok|]. split; reflexivity.
  - exact attempts_alone.
  - vm_compute. reflexivity.
  - reflexivity.
Defined.

(** A start that cannot read the enrollment presents the device's own key; the next one that can
    presents the person again. *)
Definition unread : SelfKeys := run_op path laptop (OpBoot attempts (Some "permission denied")) enrolled.
Lemma unread_start :
  self_binding unread = Some (binding_of laptop (key_of minted)) /\
  self_binding (boot path laptop attempts None (k_disk unread)) = Some (binding_of laptop (key_of person)).
Proof. vm_compute. auto. Qed.

Definition imported : SelfKeys := run_ops path laptop fresh [OpImport import_ok (encode person) false].
Definition guarded : list SelfOp :=
  [OpBoot attempts None; OpImport import_ok (encode laptop) false; OpAdopt None (binding_of laptop (key_of minted))].

Lemma identity_never_discarded_witness :
  k_disk (run_ops path laptop imported guarded) !! path = Some (key_bytes person).
Proof.
  apply (identity_never_discarded path laptop); [|reflexivity|vm_compute; reflexivity|vm_compute; reflexivity].
  constructor; [exact (attempts_ok None)|]. repeat constructor.
Defined.

Lemma ceremony_binding_verifies_witness : exists sig,
  sign_ceremony_binding path (self_binding imported) None minted imported = Ok sig /\
  k_adopted imported = None.
Proof.
  exists (sb_sig (binding_of minted (key_of person))).
  assert (H : sign_ceremony_binding path (self_binding imported) None minted imported = Ok (sb_sig (binding_of minted (key_of person))))
    by (vm_compute; reflexivity).
  split; [exact H|]. exact (proj1 (ceremony_binding_verifies path _ _ _ _ _ H)).
Defined.

Definition tablet : key32 := key_fill Byte.x74.
Lemma recovery_restores_person_witness : exists s2 b sig,
  user_key_import path tablet import_ok (encode person) true (boot path tablet attempts None ∅) = (Ok (sb_user_pk (binding_of laptop (key_of person)), false), s2) /\
  self_binding s2 = Some b /\ sb_user_pk b = sb_user_pk (binding_of laptop (key_of person)) /\
  sign_ceremony_binding path (self_binding s2) None minted s2 = Ok sig.
Proof.
  assert (Hr : reached path laptop imported).
  { exists None, ∅, attempts, None, [OpImport import_ok (encode person) false]. split; [exact (attempts_ok None)|].
    split; [repeat constructor|]. split; reflexivity. }
  assert (Hx : user_key_export path None imported = (Ok (encode person, sb_user_pk (binding_of laptop (key_of person))), (user_key_export path None imported).2))
    by (rewrite (surjective_pairing (user_key_export _ _ _)) at 1; f_equal; vm_compute; reflexivity).
  destruct (recovery_restores_person path laptop imported None _ _ _ path tablet (boot path tablet attempts None ∅) minted Hr Hx)
    as [_ (protects & s2 & b & sig & Hi & Hb & Hu & _ & Hs & _)].
  exists s2, b, sig. split; [|split; [exact Hb|split; [exact Hu|exact Hs]]].
  rewrite Hi. assert (Hp : (user_key_import path tablet import_ok (encode person) true (boot path tablet attempts None ∅)).1
    = Ok (sb_user_pk (binding_of laptop (key_of person)), false)) by (vm_compute; reflexivity).
  rewrite Hi in Hp. simpl in Hp. injection Hp as ->. reflexivity.
Defined.

(** A key that a start minted is presented from then on, to every peer this device pairs
    with; an import that was not told to replace anything still discards it, and reports
    that nothing was replaced. *)
Lemma presented_key_discarded :
  let r := user_key_import path laptop import_ok (encode person) false fresh in
  self_binding fresh = Some (binding_of laptop (key_of minted)) /\
  r.1 = Ok (sb_user_pk (binding_of laptop (key_of person)), false) /\ k_disk r.2 !! path = Some (key_bytes person) /\
  self_binding r.2 = Some (binding_of laptop (key_of person)).
Proof. vm_compute. auto. Qed.
End Witness.
