(* ===== verification/Scope.v ===== *)
(** * Blob scopes

    [node/src/blobs/scope.rs]: who may fetch which blob.  A scope names published hashes,
    the principals granted, and the hashes withdrawn; a blob is served when one scope both
    publishes it and grants the caller.  The table is held in memory and written through to
    one database row per scope; a failed transaction leaves the rows as they were. *)
From stdpp Require Import base list gmap sets strings sorting.
From Stdlib Require Import ZArith Lia.
From S2P Require Import Prelude Bytes Json Externals.

Definition DEFAULT_LIST_LIMIT : nat := 256.
Definition MAX_LIST_LIMIT : nat := 4096.

Record Scope := {
  sc_hashes : gset string;
  sc_grants : gset string;
  sc_withdrawn : gset string }.
Definition empty_scope : Scope := {| sc_hashes := ∅; sc_grants := ∅; sc_withdrawn := ∅ |}.

Abbreviation BlobScopes := (gmap string Scope) (only parsing).

Definition set_hashes (h : gset string) (sc : Scope) : Scope :=
  {| sc_hashes := h; sc_grants := sc_grants sc; sc_withdrawn := sc_withdrawn sc |}.
Definition set_grants (g : gset string) (sc : Scope) : Scope :=
  {| sc_hashes := sc_hashes sc; sc_grants := g; sc_withdrawn := sc_withdrawn sc |}.
Definition set_withdrawn (w : gset string) (sc : Scope) : Scope :=
  {| sc_hashes := sc_hashes sc; sc_grants := sc_grants sc; sc_withdrawn := w |}.

(** ** The table *)

Definition publish_hash (scope hash_hex : string) (t : BlobScopes) : BlobScopes :=
  let sc := default empty_scope (t !! scope) in
  <[scope := set_hashes ({[hash_hex]} ∪ sc_hashes sc)
               (set_withdrawn (sc_withdrawn sc ∖ {[hash_hex]}) sc)]> t.

Definition grant (scope principal : string) (t : BlobScopes) : BlobScopes :=
  let sc := default empty_scope (t !! scope) in
  <[scope := set_grants ({[principal]} ∪ sc_grants sc) sc]> t.

(** Remove principals from one grant set; the flag is whether one was there. *)
Definition strip_grants (principals : list string) (sc : Scope) : bool * Scope :=
  foldl (fun acc p => (acc.1 || bool_decide (p ∈ sc_grants acc.2),
                       set_grants (sc_grants acc.2 ∖ {[p]}) acc.2)) (false, sc) principals.

Definition revoke_principals (principals : list string) (t : BlobScopes) : bool * BlobScopes :=
  (existsb (fun kv => (strip_grants principals kv.2).1) (map_to_list t),
   (fun sc => (strip_grants principals sc).2) <$> t).

Definition revoke_from_scope (scope : string) (principals : list string) (t : BlobScopes) :
    bool * BlobScopes :=
  match t !! scope with
  | None => (false, t)
  | Some sc => let (changed, sc) := strip_grants principals sc in (changed, <[scope := sc]> t)
  end.

Definition unpublish_hash (scope hash_hex : string) (t : BlobScopes) : bool * BlobScopes :=
  match t !! scope with
  | None => (false, t)
  | Some sc =>
      (bool_decide (hash_hex ∈ sc_hashes sc),
       <[scope := set_hashes (sc_hashes sc ∖ {[hash_hex]})
                    (set_withdrawn ({[hash_hex]} ∪ sc_withdrawn sc) sc)]> t)
  end.

Definition live_hashes (t : BlobScopes) : gset string :=
  ⋃ ((fun kv => sc_hashes kv.2) <$> map_to_list t).

Definition is_withdrawn (scope hash_hex : string) (t : BlobScopes) : bool :=
  match t !! scope with Some sc => bool_decide (hash_hex ∈ sc_withdrawn sc) | None => false end.

Definition has_scope (scope : string) (t : BlobScopes) : bool :=
  bool_decide (is_Some (t !! scope)).

(** Does this scope serve the hash to one of the principals? *)
Definition scope_allows (hash_hex : string) (principals : gset string) (sc : Scope) : bool :=
  negb (bool_decide (hash_hex ∈ sc_withdrawn sc)) &&
  bool_decide (hash_hex ∈ sc_hashes sc) &&
  existsb (fun g => bool_decide (g ∈ principals)) (elements (sc_grants sc)).

Definition allows (hash_hex : string) (principals : gset string) (t : BlobScopes) : bool :=
  existsb (fun kv => scope_allows hash_hex principals kv.2) (map_to_list t).

(** ** Listing: a [BTreeMap] and [BTreeSet]s iterate in order *)

Definition sorted (s : gset string) : list string := merge_sort String.le (elements s).
Definition by_name (a b : string * Scope) : Prop := String.le a.1 b.1.
#[export] Instance by_name_dec : RelDecision by_name.
Proof. intros a b. unfold by_name. apply _. Defined.
Definition entries (t : BlobScopes) : list (string * Scope) := merge_sort by_name (map_to_list t).

Record ListQuery := {
  q_scope : option string;
  q_hash : option string;
  q_limit : option nat;
  q_offset : option nat;
  q_counts_only : bool }.

Record ScopePageRow := {
  row_name : string;
  row_hashes : list string;
  row_grants : list string;
  row_withdrawn : list string;
  row_counts : nat * nat * nat }.

Record ScopePage := { pg_rows : list ScopePageRow; pg_total : nat; pg_truncated : bool }.

(** [parse_blob_hash] is iroh's: a hash text and its canonical hex. *)
Definition matches (want_scope want_hash : option string) (kv : string * Scope) : bool :=
  match want_scope with None => true | Some w => String.eqb w kv.1 end &&
  match want_hash with None => true | Some h => bool_decide (h ∈ sc_hashes kv.2) end.

Definition page_row (counts_only : bool) (kv : string * Scope) : ScopePageRow :=
  let take (s : gset string) := if counts_only then [] else sorted s in
  {| row_name := kv.1; row_hashes := take (sc_hashes kv.2); row_grants := take (sc_grants kv.2);
     row_withdrawn := take (sc_withdrawn kv.2);
     row_counts := (size (sc_hashes kv.2), size (sc_grants kv.2), size (sc_withdrawn kv.2)) |}.

Definition list_page (parse_blob_hash : string -> result string string) (q : ListQuery)
    (t : BlobScopes) : result string ScopePage :=
  want_hash ← match q_hash q with
              | Some h => Some <$> parse_blob_hash h
              | None => Ok None
              end;
  let matching := filter (fun kv => matches (q_scope q) want_hash kv = true) (entries t) in
  let total := length matching in
  let offset := default 0 (q_offset q) in
  let limit := Nat.min (default DEFAULT_LIST_LIMIT (q_limit q)) MAX_LIST_LIMIT in
  let rows := page_row (q_counts_only q) <$> take limit (drop offset matching) in
  Ok {| pg_rows := rows; pg_total := total;
        pg_truncated := bool_decide (offset + length rows < total) |}.

(** ** The store *)
Class ScopeCodec := {
  scope_to_vec : Scope -> bytes;
  scope_from_slice : bytes -> option Scope;
  scopes_from_slice : bytes -> option BlobScopes }.
Class ScopeCodecLaws (C : ScopeCodec) := {
  scope_from_to sc : scope_from_slice (scope_to_vec sc) = Some sc }.

(** [s_db]: [None] is a memory-only store. *)
Record ScopeStore := { s_inner : BlobScopes; s_db : option (gmap string bytes) }.

Section store.
Context `{C : ScopeCodec}.

(** The rows of the table, every one of which must parse. *)
Definition read_rows (db : gmap string bytes) : result string BlobScopes :=
  if decide (map_Forall (fun _ v => is_Some (scope_from_slice v)) db)
  then Ok (omap scope_from_slice db)
  else Err "unreadable scope row"%string.

(** [ScopeStore::open]: a fresh table is filled from the old sidecar, which is then renamed
    away; [commit] and [rename] fail when the flags say so.  Answers the store, with the
    table and the sidecar it leaves. *)
Definition open (commit_fails rename_fails : bool) (db : gmap string bytes) (sidecar : option bytes) :
    result string ScopeStore * gmap string bytes * option bytes :=
  match decide (db = ∅), sidecar with
  | left _, Some b =>
      match scopes_from_slice b with
      | None => (Err "parse blob scopes"%string, db, sidecar)
      | Some scopes =>
          if commit_fails then (Err "commit"%string, db, sidecar)
          else
            let db := scope_to_vec <$> scopes in
            if rename_fails then (Err "rename migrated sidecar"%string, db, sidecar)
            else (Ok {| s_inner := scopes; s_db := Some db |}, db, None)
      end
  | _, _ =>
      ((fun scopes => {| s_inner := scopes; s_db := Some db |}) <$> read_rows db, db, sidecar)
  end.

Definition persist (fails : bool) (scopes : BlobScopes) (s : ScopeStore) :
    result string unit * ScopeStore :=
  match s_db s with
  | None => (Ok (), s)
  | Some _ =>
      if fails then (Err "commit"%string, s)
      else (Ok (), {| s_inner := s_inner s; s_db := Some (scope_to_vec <$> scopes) |})
  end.

Definition persist_scope (fails : bool) (name : string) (scope : option Scope) (s : ScopeStore) :
    result string unit * ScopeStore :=
  match s_db s with
  | None => (Ok (), s)
  | Some db =>
      if fails then (Err "commit"%string, s)
      else (Ok (), {| s_inner := s_inner s;
                      s_db := Some (match scope with
                                    | Some sc => <[name := scope_to_vec sc]> db
                                    | None => delete name db
                                    end) |})
  end.

Definition with_inner (t : BlobScopes) (s : ScopeStore) : ScopeStore :=
  {| s_inner := t; s_db := s_db s |}.

(** A mutation of one scope, then its row. *)
Definition store_one {A} (fails : bool) (scope : string) (f : BlobScopes -> A * BlobScopes)
    (s : ScopeStore) : result string A * ScopeStore :=
  let (a, t) := f (s_inner s) in
  let (r, s) := persist_scope fails scope (t !! scope) (with_inner t s) in
  (_ ← r; Ok a, s).

Definition store_publish_hash (fails : bool) (scope hash_hex : string) :=
  store_one fails scope (fun t => (tt, publish_hash scope hash_hex t)).
Definition store_grant (fails : bool) (scope principal : string) :=
  store_one fails scope (fun t => (tt, grant scope principal t)).
Definition store_revoke_from_scope (fails : bool) (scope : string) (principals : list string) :=
  store_one fails scope (revoke_from_scope scope principals).
Definition store_unpublish_hash (fails : bool) (scope hash_hex : string) :=
  store_one fails scope (unpublish_hash scope hash_hex).

(** [ScopeStore::revoke_principals]: nothing is written when memory did not change. *)
Definition store_revoke_principals (fails : bool) (principals : list string) (s : ScopeStore) :
    result string bool * ScopeStore :=
  let (changed, t) := revoke_principals principals (s_inner s) in
  let s := with_inner t s in
  if changed then
    let (r, s) := persist fails t s in (_ ← r; Ok true, s)
  else (Ok false, s).
End store.

(** ** Lemmas *)
Lemma strip_grants_spec ps sc :
  (strip_grants ps sc).2 = set_grants (sc_grants sc ∖ list_to_set ps) sc /\
  ((strip_grants ps sc).1 = true <-> exists p, p ∈ ps /\ p ∈ sc_grants sc).
Proof.
  unfold strip_grants. assert (Hgen : forall b sc,
    let r := foldl (fun acc p => (acc.1 || bool_decide (p ∈ sc_grants acc.2),
               set_grants (sc_grants acc.2 ∖ {[p]}) acc.2)) (b, sc) ps in
    r.2 = set_grants (sc_grants sc ∖ list_to_set ps) sc /\
    (r.1 = true <-> b = true \/ exists p, p ∈ ps /\ p ∈ sc_grants sc)).
  { clear sc. induction ps as [|p ps IH]; intros b sc; simpl.
    - split; [destruct sc; unfold set_grants; simpl; f_equal; set_solver|].
      split; [by left|]. intros [?|(p & ?%elem_of_nil & _)]; done.
    - destruct (IH (b || bool_decide (p ∈ sc_grants sc)) (set_grants (sc_grants sc ∖ {[p]}) sc))
        as [-> ->]. simpl. split; [unfold set_grants; simpl; f_equal; set_solver|].
      rewrite orb_true_iff, bool_decide_eq_true. split.
      + intros [[?|?]|(q & ? & ?)]; [by left|right; exists p; in_list|].
        right. exists q. set_solver.
      + intros [?|(q & [-> | ?]%elem_of_cons & ?)]; [by do 2 left|left; by right|].
        destruct (decide (q = p)) as [->|]; [left; by right|right; exists q; set_solver]. }
  destruct (Hgen false sc) as [H1 H2]. split; [done|]. rewrite H2. naive_solver.
Qed.

Lemma scope_allows_true h ps sc :
  scope_allows h ps sc = true <->
  h ∉ sc_withdrawn sc /\ h ∈ sc_hashes sc /\ exists g, g ∈ sc_grants sc /\ g ∈ ps.
Proof.
  unfold scope_allows. rewrite !andb_true_iff, negb_true_iff, bool_decide_eq_false,
    bool_decide_eq_true, existsb_elem. setoid_rewrite elem_of_elements.
  setoid_rewrite bool_decide_eq_true. tauto.
Qed.

Lemma allows_true h ps t :
  allows h ps t = true <-> exists n sc, t !! n = Some sc /\ scope_allows h ps sc = true.
Proof.
  unfold allows. rewrite existsb_elem. split.
  - intros ([n sc] & Hin%elem_of_map_to_list & ?). eauto.
  - intros (n & sc & Hn & ?). exists (n, sc). by rewrite elem_of_map_to_list.
Qed.

(** A caller is served off the entry [sc] of scope [s], or off another scope. *)
Lemma allows_insert h ps s sc t :
  allows h ps (<[s := sc]> t) = true <->
  scope_allows h ps sc = true \/
  exists n sc', n <> s /\ t !! n = Some sc' /\ scope_allows h ps sc' = true.
Proof.
  rewrite allows_true. split.
  - intros (n & sc' & [[<- <-]|[? ?]]%lookup_insert_Some & ?); [by left|]. right. eauto 6.
  - intros [?|(n & sc' & ? & ? & ?)].
    + exists s, sc. by rewrite lookup_insert_eq.
    + exists n, sc'. by rewrite lookup_insert_ne.
Qed.

Lemma allows_split h ps s t :
  allows h ps t = true <->
  scope_allows h ps (default empty_scope (t !! s)) = true \/
  exists n sc', n <> s /\ t !! n = Some sc' /\ scope_allows h ps sc' = true.
Proof.
  rewrite allows_true. split.
  - intros (n & sc & Hn & ?). destruct (decide (n = s)) as [->|]; [left; by rewrite Hn|].
    right. eauto 6.
  - intros [Hs|(n & sc' & _ & ? & ?)]; [|eauto]. destruct (t !! s) as [sc|] eqn:E; simpl in Hs.
    + eauto.
    + apply scope_allows_true in Hs as (_ & Hh & _). simpl in Hh. set_solver.
Qed.

Lemma strip_scope_allows h P ps sc :
  scope_allows h P (set_grants (sc_grants sc ∖ list_to_set ps) sc) =
  scope_allows h (P ∖ list_to_set ps) sc.
Proof.
  apply eq_bool_prop_intro. rewrite !Is_true_true, !scope_allows_true. simpl.
  assert ((exists g, g ∈ sc_grants sc ∖ list_to_set ps /\ g ∈ P) <->
          (exists g, g ∈ sc_grants sc /\ g ∈ P ∖ list_to_set ps)) as ->; [|done].
  split; intros (g & ? & ?); exists g; set_solver.
Qed.

Section store_lemmas.
Context `{C : ScopeCodec, CL : !ScopeCodecLaws C}.

Lemma read_rows_written (t : BlobScopes) : read_rows (scope_to_vec <$> t) = Ok t.
Proof.
  unfold read_rows. rewrite decide_True.
  - f_equal. apply map_eq. intros n. rewrite lookup_omap, lookup_fmap.
    destruct (t !! n); simpl; [apply scope_from_to|done].
  - intros n v (sc & <- & _)%lookup_fmap_Some. rewrite scope_from_to. eauto.
Qed.

(** Opening the rows on disk would give exactly the table in memory. *)
Definition in_sync (s : ScopeStore) : Prop :=
  match s_db s with None => True | Some db => read_rows db = Ok (s_inner s) end.

(** The row of one scope is current. *)
Definition row_current (scope : string) (s : ScopeStore) : Prop :=
  match s_db s with None => True | Some db => (db !! scope ≫= scope_from_slice) = s_inner s !! scope end.

Lemma read_rows_lookup db t n : read_rows db = Ok t -> (db !! n ≫= scope_from_slice) = t !! n.
Proof.
  unfold read_rows. case_decide; [|done]. intros [= <-]. by rewrite lookup_omap.
Qed.

Lemma store_one_spec {A} fails scope (f : BlobScopes -> A * BlobScopes) s r s' :
  (forall n, n <> scope -> (f (s_inner s)).2 !! n = s_inner s !! n) ->
  store_one fails scope f s = (r, s') ->
  s_inner s' = (f (s_inner s)).2 /\
  ((r = Ok (f (s_inner s)).1 /\ row_current scope s' /\ (in_sync s -> in_sync s')) \/
   (is_ok r = false /\ s_db s' = s_db s)).
Proof.
  intros Hf. unfold store_one, persist_scope, with_inner. destruct (f (s_inner s)) as [a t] eqn:Hfs.
  simpl in *. destruct (s_db s) as [db|] eqn:Hdb.
  - destruct fails; intros [= <- <-]; simpl; (split; [done|]); [by right|left]. split; [done|].
    unfold row_current, in_sync. rewrite Hdb. simpl.
    assert (Hrow : forall n, (match t !! scope with
      | Some sc => <[scope := scope_to_vec sc]> db | None => delete scope db end !! n ≫= scope_from_slice)
      = if decide (n = scope) then t !! n else (db !! n ≫= scope_from_slice)).
    { intros n. destruct (t !! scope) as [sc|] eqn:Hsc; case_decide as Hn; try subst n.
      - rewrite lookup_insert_eq, Hsc. simpl. apply scope_from_to.
      - by rewrite lookup_insert_ne.
      - by rewrite lookup_delete_eq, Hsc.
      - by rewrite lookup_delete_ne. }
    split; [by rewrite Hrow, decide_True|].
    intros Hsync. unfold read_rows. rewrite decide_True.
    + f_equal. apply map_eq. intros n. rewrite lookup_omap, Hrow. case_decide; [done|].
      rewrite (read_rows_lookup _ _ n Hsync). symmetry. by apply Hf.
    + intros n v Hv. specialize (Hrow n). rewrite Hv in Hrow. simpl in Hrow. rewrite Hrow.
      case_decide as Hn.
      * subst n. destruct (t !! scope); [eauto|by rewrite lookup_delete_eq in Hv].
      * assert (Hv' : db !! n = Some v).
        { destruct (t !! scope); [by rewrite lookup_insert_ne in Hv|by rewrite lookup_delete_ne in Hv]. }
        rewrite Hv'. simpl. unfold read_rows in Hsync. case_decide as Hall; [|done].
        by apply (Hall n v).
  - intros [= <- <-]. simpl. split; [done|]. left. split; [done|].
    unfold row_current, in_sync. simpl. rewrite Hdb. done.
Qed.
End store_lemmas.

(** Nothing was removed: the table is the same. *)
Lemma revoke_unchanged ps t t' : revoke_principals ps t = (false, t') -> t' = t.
Proof.
  unfold revoke_principals. intros [= Hex <-]. apply map_eq. intros n. rewrite lookup_fmap.
  destruct (t !! n) as [sc|] eqn:Hn; simpl; [|done]. f_equal.
  rewrite existsb_false in Hex. specialize (Hex (n, sc)). simpl in Hex.
  rewrite elem_of_map_to_list in Hex. specialize (Hex Hn).
  destruct (strip_grants_spec ps sc) as [-> Hc]. destruct sc as [h g w]. unfold set_grants. simpl in *.
  f_equal. apply set_eq. intros p. rewrite elem_of_difference, elem_of_list_to_set. split; [tauto|].
  intros Hp. split; [done|]. intros Hps. rewrite (proj2 Hc) in Hex; [done|eauto].
Qed.


(** ** Properties *)

Lemma unpublish_allows t h h' s P :
  allows h' P (unpublish_hash s h t).2 = true <->
  exists n sc, t !! n = Some sc /\ scope_allows h' P sc = true /\ ~ (n = s /\ h' = h).
Proof.
  unfold unpublish_hash. destruct (t !! s) as [sc|] eqn:Hs; simpl.
  + rewrite allows_insert, scope_allows_true. simpl.
    rewrite elem_of_union, elem_of_difference, elem_of_singleton. split.
    * intros [(Hn & [Hh Hne] & Hg)|(n & sc' & Hn & Hsc & Ha)].
      -- exists s, sc. split; [done|]. rewrite scope_allows_true. tauto.
      -- exists n, sc'. tauto.
    * intros (n & sc' & Hsc & Ha & Hn). destruct (decide (n = s)) as [->|Hne].
      -- left. rewrite Hs in Hsc. injection Hsc as <-. apply scope_allows_true in Ha. tauto.
      -- right. exists n, sc'. tauto.
  + rewrite allows_true. split; intros (n & sc & Hn & Ha).
    * exists n, sc. split_and!; [done..|]. intros [-> _]. congruence.
    * exists n, sc. tauto.
Qed.

Lemma revoke_from_scope_allows t h' s ps P :
  allows h' P (revoke_from_scope s ps t).2 = true <->
  exists n sc, t !! n = Some sc /\
    scope_allows h' (if decide (n = s) then P ∖ list_to_set ps else P) sc = true.
Proof.
  unfold revoke_from_scope. destruct (t !! s) as [sc|] eqn:Hs.
  + pose proof (strip_grants_spec ps sc) as [Hst _].
    destruct (strip_grants ps sc) as [c sc1]; simpl in *. subst sc1.
    rewrite allows_insert, strip_scope_allows. split.
    * intros [Ha|(n & sc' & Hn & Hsc & Ha)].
      -- exists s, sc. by rewrite decide_True.
      -- exists n, sc'. by rewrite decide_False.
    * intros (n & sc' & Hsc & Ha). case_decide as Hn; [left|right; exists n, sc'; done].
      subst n. rewrite Hs in Hsc. by injection Hsc as ->.
  + simpl. rewrite allows_true. split; intros (n & sc & Hn & Ha); exists n, sc; (split; [done|]);
      case_decide; subst; congruence.
Qed.

(** Who is served which blob after each operation: publishing and granting add exactly
    the named hash or principal to the named scope (publishing lifts a withdrawal there),
    unpublishing and a scoped revocation take away only within that scope, and unpairing
    takes the principals out of every scope and nothing else. *)
Theorem scope_access_spec t h h' s p ps P :
  (allows h' P (publish_hash s h t) = true <->
     allows h' P t = true \/
     h' = h /\ exists g, g ∈ sc_grants (default empty_scope (t !! s)) /\ g ∈ P) /\
  (allows h' P (grant s p t) = true <->
     allows h' P t = true \/
     p ∈ P /\ h' ∈ sc_hashes (default empty_scope (t !! s)) /\
       h' ∉ sc_withdrawn (default empty_scope (t !! s))) /\
  (allows h' P (unpublish_hash s h t).2 = true <->
     exists n sc, t !! n = Some sc /\ scope_allows h' P sc = true /\ ~ (n = s /\ h' = h)) /\
  (allows h' P (revoke_from_scope s ps t).2 = true <->
     exists n sc, t !! n = Some sc /\
       scope_allows h' (if decide (n = s) then P ∖ list_to_set ps else P) sc = true) /\
  allows h' P (revoke_principals ps t).2 = allows h' (P ∖ list_to_set ps) t.
Proof.
  split_and!.
  - unfold publish_hash. rewrite allows_insert, (allows_split _ _ s t), !scope_allows_true. simpl.
    rewrite elem_of_union, elem_of_difference, elem_of_singleton.
    destruct (decide (h' = h)); tauto.
  - unfold grant. rewrite allows_insert, (allows_split _ _ s t), !scope_allows_true. simpl.
    assert (Hg : (exists g, g ∈ {[p]} ∪ sc_grants (default empty_scope (t !! s)) /\ g ∈ P) <->
      p ∈ P \/ exists g, g ∈ sc_grants (default empty_scope (t !! s)) /\ g ∈ P).
    { split.
      - intros (g & [->%elem_of_singleton|?]%elem_of_union & ?); eauto.
      - intros [?|(g & ? & ?)]; [exists p|exists g]; split; set_solver. }
    rewrite Hg. tauto.
  - apply unpublish_allows.
  - apply revoke_from_scope_allows.
  - apply eq_bool_prop_intro. rewrite !Is_true_true, !allows_true. simpl. split.
    + intros (n & sc' & (sc & <- & Hn)%lookup_fmap_Some & Ha). exists n, sc. split; [done|].
      rewrite (proj1 (strip_grants_spec ps sc)), strip_scope_allows in Ha. done.
    + intros (n & sc & Hn & Ha). eexists n, _. rewrite lookup_fmap, Hn. split; [done|].
      by rewrite (proj1 (strip_grants_spec ps sc)), strip_scope_allows.
Qed.

Section store_properties.
Context `{C : ScopeCodec, CL : !ScopeCodecLaws C}.

(** An opened store is in step with its rows; a mutation that reports success leaves
    its scope's row current, and a store in step in step; one that reports failure leaves
    the rows as they were; and what a fresh store migrates is read back at the next open. *)
Theorem scope_store_durable s :
  (forall cf rf db sidecar db' sc', open cf rf db sidecar = (Ok s, db', sc') ->
     in_sync s /\ s_db s = Some db' /\
     forall sc, (open cf rf db' sc).1.1 = Ok s \/ db' = ∅) /\
  (forall fails scope h r s',
     store_publish_hash fails scope h s = (r, s') \/ store_grant fails scope h s = (r, s') ->
     if is_ok r then row_current scope s' /\ (in_sync s -> in_sync s') else s_db s' = s_db s) /\
  (forall fails scope ps r s', store_revoke_from_scope fails scope ps s = (r, s') ->
     if is_ok r then row_current scope s' /\ (in_sync s -> in_sync s') else s_db s' = s_db s) /\
  (forall fails scope h r s', store_unpublish_hash fails scope h s = (r, s') ->
     if is_ok r then row_current scope s' /\ (in_sync s -> in_sync s') else s_db s' = s_db s) /\
  (forall fails ps r s', store_revoke_principals fails ps s = (r, s') ->
     if is_ok r then in_sync s -> in_sync s' else s_db s' = s_db s).
Proof.
  assert (Hone : forall A fails scope (f : BlobScopes -> A * BlobScopes) r s',
    (forall n, n <> scope -> (f (s_inner s)).2 !! n = s_inner s !! n) ->
    store_one fails scope f s = (r, s') ->
    if is_ok r then row_current scope s' /\ (in_sync s -> in_sync s') else s_db s' = s_db s).
  { intros A fails scope f r s' Hf H. destruct (store_one_spec _ _ _ _ _ _ Hf H) as [_ [(-> & ?)|[-> ?]]];
      done. }
  assert (Hrows : forall db (sidecar : option bytes) db' sc',
    ((fun scopes => {| s_inner := scopes; s_db := Some db |}) <$> read_rows db, db, sidecar)
      = (Ok s, db', sc') ->
    (in_sync s /\ s_db s = Some db /\ (fun scopes => {| s_inner := scopes; s_db := Some db |}) <$>
      read_rows db = Ok s) /\ db' = db).
  { intros db sidecar db' sc' H. injection H as H <- _. split; [|done].
    pose proof H as (t & Ht & ->)%result_fmap_Ok. unfold in_sync. simpl. by rewrite Ht. }
  split_and!.
  - intros cf rf db sidecar db' sc'. unfold open.
    destruct (decide (db = ∅)) as [He|He]; [destruct sidecar as [b|]|].
    + destruct (scopes_from_slice b) as [scopes|]; [|done]. destruct cf; [done|]. destruct rf; [done|].
      intros [= <- <- <-]. unfold in_sync; simpl. rewrite read_rows_written. split_and!; [done..|].
      intros sc. destruct (decide _); [by right|by left].
    + intros [(? & ? & _) ->]%Hrows. auto.
    + intros [(? & ? & Hs) ->]%Hrows. split_and!; [done..|]. intros sc. left.
      by destruct (decide (db = ∅)).
  - intros fails scope h r s' [H|H]; (eapply Hone; [|exact H]); intros n Hn; simpl;
      [unfold publish_hash|unfold grant]; by rewrite lookup_insert_ne.
  - intros fails scope ps r s' H. eapply Hone; [|exact H]. intros n Hn. unfold revoke_from_scope.
    destruct (s_inner s !! scope) as [sc|]; [|done]. destruct (strip_grants ps sc). simpl.
    by rewrite lookup_insert_ne.
  - intros fails scope h r s' H. eapply Hone; [|exact H]. intros n Hn. unfold unpublish_hash.
    destruct (s_inner s !! scope); [|done]. simpl. by rewrite lookup_insert_ne.
  - intros fails ps r s'. unfold store_revoke_principals.
    destruct (revoke_principals ps (s_inner s)) as [changed t] eqn:Hr.
    unfold persist, with_inner. destruct changed; simpl.
    + destruct (s_db s) as [db|] eqn:Hdb.
      * destruct fails; intros [= <- <-]; simpl; [done|]. intros _. unfold in_sync; simpl.
        apply read_rows_written.
      * intros [= <- <-]. unfold in_sync; simpl. by rewrite Hdb.
    + intros [= <- <-]. simpl. unfold in_sync; simpl. destruct (s_db s) as [db|]; [|done].
      intros ->. f_equal. symmetry. by eapply revoke_unchanged.
Qed.
End store_properties.

(** ** Paging *)

(** Pages of a query from an offset on, each starting where the one before ended. *)
Definition at_offset (n : nat) (q : ListQuery) : ListQuery :=
  {| q_scope := q_scope q; q_hash := q_hash q; q_limit := q_limit q; q_offset := Some n;
     q_counts_only := q_counts_only q |}.
Fixpoint walk_pages (parse : string -> result string string) (fuel offset : nat) (q : ListQuery)
    (t : BlobScopes) : result string (list ScopePageRow) :=
  match fuel with
  | O => Ok []
  | S fuel =>
      pg ← list_page parse (at_offset offset q) t;
      if pg_truncated pg : bool then
        rest ← walk_pages parse fuel (offset + length (pg_rows pg)) q t; Ok (pg_rows pg ++ rest)
      else Ok (pg_rows pg)
  end.

#[export] Instance by_name_total : Total by_name.
Proof. intros a b. unfold by_name. apply String.le_total. Qed.
#[export] Instance by_name_trans : Transitive by_name.
Proof. intros a b c. unfold by_name. by etrans. Qed.

Lemma elem_of_entries t n sc : (n, sc) ∈ entries t <-> t !! n = Some sc.
Proof. unfold entries. rewrite merge_sort_Permutation. apply elem_of_map_to_list. Qed.

Lemma page_limit (o : option nat) : o <> Some 0 ->
  (1 <= Nat.min (default DEFAULT_LIST_LIMIT o) MAX_LIST_LIMIT)%nat.
Proof. intros Ho. destruct o as [[|n]|]; unfold DEFAULT_LIST_LIMIT, MAX_LIST_LIMIT; simpl; lia || done. Qed.

Lemma sorted_filter {A} (R : relation A) (P : A -> Prop) `{!forall x, Decision (P x)} l :
  StronglySorted R l -> StronglySorted R (filter P l).
Proof.
  induction 1 as [|x l _ IH Hx]; [constructor|]. rewrite filter_cons. case_decide; [|done].
  constructor; [done|]. apply Forall_forall. intros y [_ Hy]%list_elem_of_filter.
  by eapply Forall_forall in Hx.
Qed.

Lemma walk_pages_from parse fuel offset q t want l :
  q_limit q <> Some 0 ->
  match q_hash q with Some h => Some <$> parse h | None => Ok None end = Ok want ->
  l = filter (fun kv => matches (q_scope q) want kv = true) (entries t) ->
  (length l - offset < fuel)%nat ->
  walk_pages parse fuel offset q t = Ok (page_row (q_counts_only q) <$> drop offset l).
Proof.
  intros Hlim Hw Hl. revert offset. induction fuel as [|fuel IH]; intros offset Hf; [lia|].
  simpl. unfold list_page. cbn [q_hash q_limit q_offset q_scope q_counts_only at_offset].
  rewrite Hw. simpl. rewrite <- Hl.
  pose proof (page_limit _ Hlim) as Hpos.
  set (n := Nat.min _ _) in *. clearbody n.
  assert (Hsplit : page_row (q_counts_only q) <$> drop offset l =
    (page_row (q_counts_only q) <$> take n (drop offset l)) ++
    (page_row (q_counts_only q) <$> drop (offset + n) l)).
  { rewrite <- fmap_app. rewrite <- drop_drop. by rewrite take_drop. }
  rewrite length_fmap, length_take, length_drop. case_bool_decide as Htr.
  - assert (Nat.min n (length l - offset) = n) as Hmin by lia. rewrite Hmin.
    rewrite IH by lia. simpl. by rewrite Hsplit.
  - rewrite Hsplit, (drop_ge l (offset + n)) by lia. by rewrite app_nil_r.
Qed.

(** A listing page never exceeds the cap, and following the pages while they report
    truncation lists every matching scope exactly once, in name order. *)
Theorem list_page_spec parse q t want :
  match q_hash q with Some h => Some <$> parse h | None => Ok None end = Ok want ->
  q_limit q <> Some 0 ->
  (forall pg, list_page parse q t = Ok pg -> (length (pg_rows pg) <= MAX_LIST_LIMIT)%nat) /\
  exists l, walk_pages parse (S (size t)) 0 q t = Ok (page_row (q_counts_only q) <$> l) /\
    StronglySorted by_name l /\ NoDup l /\
    (forall n sc, (n, sc) ∈ l <-> t !! n = Some sc /\ matches (q_scope q) want (n, sc) = true).
Proof.
  intros Hw Hlim. split.
  - intros pg. unfold list_page. rewrite Hw. intros [= <-]. cbn [pg_rows].
    rewrite length_fmap, length_take. lia.
  - set (l := filter (fun kv => matches (q_scope q) want kv = true) (entries t)). exists l.
    split_and!.
    + rewrite (walk_pages_from _ _ _ _ _ want l Hlim Hw eq_refl).
      { by rewrite drop_0. }
      assert (length l <= length (entries t))%nat by (apply length_filter).
      assert (Hsz : length (entries t) = size t).
      { unfold entries. rewrite merge_sort_Permutation. apply length_map_to_list. }
      lia.
    + apply sorted_filter. by apply (StronglySorted_merge_sort by_name).
    + apply NoDup_filter. unfold entries. rewrite merge_sort_Permutation. apply NoDup_map_to_list.
    + intros n sc. unfold l. rewrite list_elem_of_filter, elem_of_entries. tauto.
Qed.

(** ** A revocation that was not written is not retried

    [ScopeStore::revoke_principals] writes only when memory changed.  After a failed write
    memory has already changed, so the retry reports [Ok(false)] and writes nothing: the
    grant is still in the rows, and back at the next open. *)
Section retry.
Context `{C : ScopeCodec, CL : !ScopeCodecLaws C}.

Definition granted_scope (h p : string) : Scope :=
  {| sc_hashes := {[h]}; sc_grants := {[p]}; sc_withdrawn := ∅ |}.

Lemma revoke_granted name h p :
  revoke_principals [p] {[name := granted_scope h p]} =
    (true, {[name := set_grants ∅ (granted_scope h p)]}).
Proof.
  unfold revoke_principals. rewrite map_to_list_singleton. simpl.
  rewrite bool_decide_eq_true_2 by set_solver. simpl. f_equal.
  rewrite map_fmap_singleton. unfold granted_scope, set_grants. simpl.
  do 2 f_equal. set_solver.
Qed.

Lemma revoke_empty name h p :
  revoke_principals [p] {[name := set_grants ∅ (granted_scope h p)]} =
    (false, {[name := set_grants ∅ (granted_scope h p)]}).
Proof.
  unfold revoke_principals. rewrite map_to_list_singleton. simpl.
  rewrite map_fmap_singleton. unfold granted_scope, set_grants. simpl.
  rewrite bool_decide_eq_false_2 by set_solver. simpl. do 3 f_equal. set_solver.
Qed.

Theorem revoke_retry_not_durable name h p :
  let t : BlobScopes := {[name := granted_scope h p]} in
  let s := {| s_inner := t; s_db := Some (scope_to_vec <$> t) |} in
  in_sync s /\
  exists e s1 s2 t', store_revoke_principals true [p] s = (Err e, s1) /\
    store_revoke_principals false [p] s1 = (Ok false, s2) /\
    (read_rows <$> s_db s2) = Some (Ok t') /\ allows h {[p]} t' = true.
Proof.
  intros t s. split; [apply read_rows_written|]. unfold store_revoke_principals, with_inner.
  do 3 eexists. exists t. split_and!.
  - unfold s, t. cbn [s_inner]. rewrite revoke_granted. unfold persist. simpl. done.
  - cbn [s_inner]. rewrite revoke_empty. done.
  - simpl. f_equal. apply read_rows_written.
  - apply allows_true. exists name, (granted_scope h p). split; [apply lookup_singleton_eq|].
    apply scope_allows_true. simpl. split_and!; [set_solver..|]. exists p. set_solver.
Qed.
End retry.

(** ** A concrete codec and witnesses *)
Module Witness.
Import Toy.

Definition set_to (s : gset string) : Value := VArray (map VString (elements s)).
Definition set_of (v : Value) : option (gset string) :=
  l ← as_array v; list_to_set <$> mapM as_str l.
Definition scope_to (sc : Scope) : Value :=
  VArray [set_to (sc_hashes sc); set_to (sc_grants sc); set_to (sc_withdrawn sc)].
Definition scope_of (v : Value) : option Scope :=
  match v with
  | VArray [h; g; w] =>
      h ← set_of h; g ← set_of g; w ← set_of w;
      Some {| sc_hashes := h; sc_grants := g; sc_withdrawn := w |}
  | _ => None
  end.

#[export] Instance scope_codec : ScopeCodec := {|
  scope_to_vec sc := print (scope_to sc);
  scope_from_slice := slice scope_of;
  scopes_from_slice b := Some ∅ |}.

Lemma set_of_to s : set_of (set_to s) = Some s.
Proof.
  unfold set_of, set_to. simpl. rewrite mapM_as_str. simpl. f_equal. apply list_to_set_elements_L.
Qed.

#[export] Instance scope_codec_laws : ScopeCodecLaws scope_codec.
Proof.
  split. intros sc. transitivity (scope_of (scope_to sc)); [apply slice_print|].
  unfold scope_of, scope_to. rewrite !set_of_to. by destruct sc.
Qed.

Definition room : BlobScopes := {["room"%string := granted_scope "h" "eid:p"]}.
Definition store : ScopeStore := {| s_inner := room; s_db := Some (scope_to_vec <$> room) |}.

Lemma store_in_sync : in_sync store.
Proof. apply read_rows_written. Qed.

Lemma scope_store_durable_witness :
  in_sync (store_revoke_from_scope false "room" ["eid:p"%string] store).2.
Proof.
  pose proof (proj1 (proj2 (proj2 (scope_store_durable store))) false "room"%string ["eid:p"%string]
    _ _ (surjective_pairing _)) as H.
  change (is_ok (store_revoke_from_scope false "room" ["eid:p"%string] store).1) with true in H.
  exact (proj2 H store_in_sync).
Defined.

Definition query : ListQuery :=
  {| q_scope := None; q_hash := None; q_limit := Some 1; q_offset := None; q_counts_only := true |}.

Lemma list_page_spec_witness : exists l,
  walk_pages (fun s => Ok s) (S (size room)) 0 query room = Ok (page_row true <$> l) /\ NoDup l.
Proof.
  destruct (list_page_spec (fun s => Ok s) query room None) as (_ & l & H & _ & Hn & _).
  - reflexivity.
  - discriminate.
  - exists l. split; [exact H|exact Hn].
Defined.
End Witness.
