(* ===== verification/Peers.v ===== *)
(** * Peers: introduction, renaming, removal and revocation

    The peer verbs of [node/src/daemon/handlers.rs]: adding, introducing, renaming and
    removing a contact, revoking it locally and lifting that, signing the revocation of a
    device and importing one.  A verb is a function of the shared state and of the faults
    of its accesses; [introduce_peer] and [rename_peer] are given as the two transactions
    they are, since another writer of the store may come in between. *)
From stdpp Require Import base list gmap strings sorting.
From Stdlib Require Import ZArith Lia Strings.Byte.
From S2P Require Import Prelude Bytes Digits Json Externals Schema Sign Validate Identity Limits Allowlist Gate Service Hooks Config AuditFiles Registry Session Mesh Grants Scope.

(** The text of an endpoint id is iroh's. *)
Class EndpointText := { endpoint_from_str : string -> option key32 }.

(** The faults of one verb: of its listing, of its other reads, of its writes (those of a
    loop by endpoint) and of the sever; its instant. *)
Record PeerIo := {
  p_list : Allowlist.Io;
  p_read : Allowlist.Io;
  p_user : Allowlist.Io;
  p_write : Allowlist.Io;
  p_at : key32 -> Allowlist.Io;
  p_sever : Allowlist.Io;
  p_joined : bool;
  p_now : Z;
  p_ts : string }.

Definition no_peer_faults (now : Z) (ts : string) : PeerIo :=
  {| p_list := Allowlist.healthy; p_read := Allowlist.healthy; p_user := Allowlist.healthy;
     p_write := Allowlist.healthy; p_at _ := Allowlist.healthy; p_sever := Allowlist.healthy;
     p_joined := true; p_now := now; p_ts := ts |}.

(** One transaction on the store: a failed one leaves it. *)
Definition on_store (f : PeerStore -> result string PeerStore) : Verb unit := fun m =>
  match f (m_store m) with
  | Ok s => (Ok tt, with_store s m)
  | Err e => (Err (Failed e), m)
  end.

Fixpoint for_each {A} (l : list A) (f : A -> Verb unit) : Verb unit :=
  match l with
  | [] => mret tt
  | a :: l => _ ← f a; for_each l f
  end.

(** ** Names *)
Definition MAX_ALIAS_CHARS : Z := 64.

(** On the UTF-8 bytes of a string: does it hold a control character, and how many
    characters is it? *)
Fixpoint has_control (b : bytes) : bool :=
  match b with
  | [] => false
  | c :: b =>
      (byte_val c <? 32)%Z || (byte_val c =? 127)%Z
      || ((byte_val c =? 0xc2)%Z && match b with d :: _ => (byte_val d <? 0xa0)%Z | [] => false end)
      || has_control b
  end.
Definition char_count (b : bytes) : Z :=
  Z.of_nat (length (filter (fun c => ~ (0x80 <= byte_val c < 0xc0)%Z) b)).

Definition trimmed (s : string) : string := from_bytes (trim (as_bytes s)).

Definition validated_alias (field : string) (alias : option string) : result VerbError (option string) :=
  match alias with
  | None => Ok None
  | Some raw =>
      let name := trimmed raw in
      if decide (name = ""%string) then Err (InvalidParams (field +:+ " must not be empty"))
      else if existsb (fun c => bool_decide (c = Byte.x2f)) (as_bytes name)
      then Err (InvalidParams (field +:+ " must not contain '/'"))
      else if has_control (as_bytes name)
      then Err (InvalidParams (field +:+ " must not contain control characters"))
      else if (MAX_ALIAS_CHARS <? char_count (as_bytes name))%Z
      then Err (InvalidParams (field +:+ " is too long"))
      else Ok (Some name)
  end.

(** A coded refusal. *)
Definition refuse_unless {A} (r : result VerbError A) : Verb A := fun m => (r, m).

Section verbs.
Context `{E : Ed25519, T : TextEncoding, R : RowCodec, X : EndpointText}.

(** ** Adding and introducing *)
Definition peer_entry (id : key32) (nickname : string) (services : list string) (user_id : option string) : PeerEntry :=
  {| pe_endpoint_id := id; pe_nickname := nickname; pe_services := services; pe_paired_at := None;
     pe_user_id := user_id; pe_last_addr := None |}.

Definition add_peer (io : PeerIo) (nickname endpoint_id : string) (allow : list string) : Verb unit :=
  match endpoint_from_str endpoint_id with
  | None => bail (Failed "peer_add: endpoint_id is not a valid EndpointId")
  | Some id => on_store (fun s => add (p_write io) s (peer_entry id nickname allow None))
  end.

Record PeerIntroduceParams := {
  in_subject : string;
  in_endorsed_by : string;
  in_evidence : string;
  in_subject_user_id : option string;
  in_subject_binding : option string;
  in_nickname : string }.

Definition subject_id (verb subject : string) : Verb key32 :=
  match endpoint_from_str (default subject (strip_prefix "eid:" subject)) with
  | Some id => mret id
  | None => bail (InvalidParams (verb +:+ ": subject is not a valid endpoint id"))
  end.

(** The user id the subject itself proves, never one merely asserted. *)
Definition proven_user_id (p : PeerIntroduceParams) (subject : key32) : result VerbError (option string) :=
  match in_subject_user_id p, in_subject_binding p with
  | None, None => Ok None
  | Some _, None => Err (InvalidParams "peer_introduce: subject_user_id requires subject_binding")
  | None, Some _ => Err (InvalidParams "peer_introduce: subject_binding without subject_user_id")
  | Some uid, Some sig =>
      match verify_presented uid sig subject with
      | Ok proven => Ok (Some proven)
      | Err _ => Err (InvalidParams "peer_introduce: the subject's device binding does not verify")
      end
  end.

Definition paired_as (uid : string) (e : PeerEntry) : bool :=
  bool_decide (is_Some (pe_paired_at e)) && bool_decide (pe_user_id e = Some uid).

(** Every check of an introduction, up to the write. *)
Definition introduce_check (self : key32) (io : PeerIo) (p : PeerIntroduceParams) : Verb PeerEntry :=
  alias ← refuse_unless (validated_alias "nickname" (Some (in_nickname p)));
  let nickname := default ""%string alias in
  subject ← subject_id "peer_introduce" (in_subject p);
  _ ← ensure (negb (bool_decide (subject = self))) (InvalidParams "peer_introduce: that is this node's own endpoint id");
  rows ← attempt (fun m => list_peers (p_list io) (m_store m));
  _ ← ensure (existsb (paired_as (in_endorsed_by p)) rows)
        (InvalidParams "peer_introduce: endorsed_by is not the user_id of a peer you are currently paired with");
  _ ← ensure (is_ok (verify_endorsement (in_endorsed_by p) (in_evidence p) subject (in_subject_user_id p)))
        (InvalidParams "peer_introduce: the endorsement does not verify");
  user_id ← refuse_unless (proven_user_id p subject);
  _ ← match user_id with
      | None => mret tt
      | Some uid =>
          revoked ← gets (fun m => is_user_revoked (p_user io) (m_store m) uid);
          ensure (negb revoked) (PrincipalRevoked uid)
      end;
  rows ← attempt (fun m => list_peers (p_list io) (m_store m));
  _ ← ensure (negb (existsb (fun e => bool_decide (pe_nickname e = nickname) && negb (bool_decide (pe_endpoint_id e = subject))) rows))
        (InvalidParams "peer_introduce: you already use the name for a different peer");
  existing ← attempt (fun m => Allowlist.resolve (p_read io) (m_store m) subject);
  _ ← ensure (negb (match existing with Some e => bool_decide (is_Some (pe_paired_at e)) | None => false end))
        (InvalidParams "peer_introduce: you are already paired with that peer");
  mret (peer_entry subject nickname [] user_id).

Definition introduce_write (io : PeerIo) (p : PeerIntroduceParams) (e : PeerEntry) : Verb unit :=
  _ ← on_store (fun s => add (p_write io) s e);
  audit (trust_record (p_ts io) "peer_introduce" (Some (pe_nickname e)) (Some (in_endorsed_by p))).

Definition introduce_peer (self : key32) (io : PeerIo) (p : PeerIntroduceParams) : Verb unit :=
  e ← introduce_check self io p; introduce_write io p e.

(** [lock_own_user_key] and [read_user_key]: whether this device adopted another's identity,
    and what reading its own key gives. *)
Definition endorse_peer (adopted : bool) (user_key : result string SigningKey) (subject : string)
    (subject_user_id : option string) : Verb (string * string) :=
  id ← subject_id "peer_endorse" subject;
  _ ← ensure (negb adopted) (InvalidParams "peer_endorse: this device was enrolled into another device's identity");
  key ← attempt (fun _ => user_key);
  evidence ← attempt (fun _ => map_err (fun _ => "endorse"%string) (endorse key id subject_user_id));
  mret (user_id key, evidence).

(** ** Renaming *)
Definition renames (user_id nickname : option string) (e : PeerEntry) : bool :=
  match user_id with
  | Some u => bool_decide (pe_user_id e = Some u)
  | None => bool_decide (Some (pe_nickname e) = nickname)
  end.

Definition rename_plan (io : Allowlist.Io) (store : PeerStore) (user_id nickname : option string) (to : string) :
    result string (option (list PeerEntry)) :=
  all ← list_peers io store;
  let targets := filter (fun e => renames user_id nickname e = true) all in
  if bool_decide (targets = []) then Err "peer_rename: no matching contact"%string
  else if forallb (fun e => bool_decide (pe_nickname e = to)) targets then Ok None
  else
    let target_ids := pe_endpoint_id <$> targets in
    if existsb (fun e => bool_decide (pe_nickname e = to) && bool_decide (pe_endpoint_id e ∉ target_ids)) all
    then Err "the nickname is already used by another contact"%string
    else Ok (Some targets).

Definition with_nickname (to : string) (e : PeerEntry) : PeerEntry :=
  {| pe_endpoint_id := pe_endpoint_id e; pe_nickname := to; pe_services := pe_services e;
     pe_paired_at := pe_paired_at e; pe_user_id := pe_user_id e; pe_last_addr := pe_last_addr e |}.

Definition rename_mutate (io : PeerIo) (to : string) (targets : list PeerEntry) : Verb unit :=
  for_each targets (fun e => on_store (fun s => add (p_at io (pe_endpoint_id e)) s (with_nickname to e))).

Definition rename_peer (io : PeerIo) (user_id nickname : option string) (to : string) : Verb unit :=
  let to := trimmed to in
  _ ← ensure (negb (bool_decide (to = ""%string))) (Failed "peer_rename: the new nickname is empty");
  _ ← ensure (bool_decide (is_Some user_id) || bool_decide (is_Some nickname)) (Failed "peer_rename: no contact identified");
  plan ← attempt (fun m => rename_plan (p_list io) (m_store m) user_id nickname to);
  match plan with
  | None => mret tt
  | Some targets => rename_mutate io to targets
  end.
End verbs.

(** ** Removing *)

(** What the blob scopes lose: the person too, unless any other row carries it. *)
Section removal.
Context `{H : HashOrder, T : TextEncoding, R : RowCodec, C : TomlCodec, SC : ScopeCodec}.

Definition blob_user (others : list PeerEntry) (acc : list string) (uid : string) : list string :=
  if existsb (fun o => bool_decide (pe_user_id o = Some uid)) others || bool_decide (uid ∈ acc)
  then acc else acc ++ [uid].

Definition blob_principals (nickname : string) (rows : list PeerEntry) : list string :=
  let targets := filter (fun e => pe_nickname e = nickname) rows in
  let others := filter (fun e => pe_nickname e <> nickname) rows in
  foldl (fun acc t =>
           let acc := acc ++ [principal (pe_endpoint_id t)] in
           match pe_user_id t with Some uid => blob_user others acc uid | None => acc end)
    [] targets.

(** The node with its blob provider, which roster mode has. *)
Record PeerNode := { pn_mesh : MeshState; pn_blobs : option ScopeStore }.

Definition strip_blobs (io : PeerIo) (blob_fault : bool) (nickname : string) (n : PeerNode) :
    result VerbError unit * PeerNode :=
  match pn_blobs n with
  | None => (Ok tt, n)
  | Some scopes =>
      match list_peers (p_list io) (m_store (pn_mesh n)) with
      | Err e => (Err (Failed e), n)
      | Ok rows =>
          let principals := blob_principals nickname rows in
          if bool_decide (principals = []) then (Ok tt, n)
          else (Ok tt, {| pn_mesh := pn_mesh n;
                          pn_blobs := Some (store_revoke_principals blob_fault principals scopes).2 |})
      end
  end.

(** The row is dropped last; all of it doing nothing is an error. *)
Definition drop_rows (io : PeerIo) (nickname : string) (revoked : bool) : Verb unit := fun m =>
  match remove (p_write io) (m_store m) nickname with
  | Err e => (Err (Failed e), m)
  | Ok (removed, s) =>
      if negb revoked && negb removed then (Err (Failed "no paired peer of that name"), with_store s m)
      else (Ok tt, with_audit (trust_record (p_ts io) "unpair" (Some nickname) None) (with_store s m))
  end.

Definition remove_peer (vio : VerbIo) (io : PeerIo) (blob_fault : bool) (nickname : string) (n : PeerNode) :
    result VerbError unit * PeerNode :=
  match revoke_service_access vio nickname (pn_mesh n) with
  | (Err e, m) => (Err e, {| pn_mesh := m; pn_blobs := pn_blobs n |})
  | (Ok revoked, m) =>
      match strip_blobs io blob_fault nickname {| pn_mesh := m; pn_blobs := pn_blobs n |} with
      | (Err e, n) => (Err e, n)
      | (Ok _, n) =>
          let '(r, m) := drop_rows io nickname revoked (pn_mesh n) in
          (r, {| pn_mesh := m; pn_blobs := pn_blobs n |})
      end
  end.
End removal.

(** ** Revoking *)
Definition REVOKE_SCHEME : string := "mcpmesh-revoke:".

Record RevocationToken := {
  tk_user_id : string;
  tk_endpoint : string;
  tk_issued_at : Z;
  tk_sig : string;
  tk_reason : option string }.

Class TokenCodec := {
  token_to_vec : RevocationToken -> bytes;
  token_from_slice : bytes -> option RevocationToken }.
Class TokenCodecLaws (K : TokenCodec) := { token_from_to t : token_from_slice (token_to_vec t) = Some t }.

Definition local_entry (id : key32) (now : Z) (reason : option string) : RevokedEntry :=
  {| re_endpoint_id := id; re_revoked_at := now; re_reason := reason; re_source := "local";
     re_signer_user_id := None; re_issued_at := None |}.
Definition signed_entry (id : key32) (now : Z) (reason : option string) (signer : string) (issued_at : Z) : RevokedEntry :=
  {| re_endpoint_id := id; re_revoked_at := now; re_reason := reason; re_source := "signed";
     re_signer_user_id := Some signer; re_issued_at := Some issued_at |}.

Section revocation.
Context `{E : Ed25519, T : TextEncoding, R : RowCodec, K : TokenCodec}.

(** The endpoints a principal or a nickname names. *)
Definition revocation_targets (io : Allowlist.Io) (peer : string) (m : MeshState) : result string (gset EndpointId) :=
  out ← endpoints_for_principal io (m_store m) (m_roster m) peer;
  rows ← list_peers io (m_store m);
  Ok (foldl (fun out e => if bool_decide (pe_nickname e = peer) then {[pe_endpoint_id e]} ∪ out else out) out rows).

(** A well-formed [eid:] stands for its device even without a row. *)
Definition named_targets (io : Allowlist.Io) (peer : string) : Verb (list EndpointId) :=
  targets ← attempt (revocation_targets io peer);
  mret (if bool_decide (targets = ∅)
        then match principal_to_endpoint peer with Some id => [id] | None => [] end
        else elements targets).

Definition identity_of_peer (peer : string) : option string := if starts_with "b64u:" peer then Some peer else None.

(** One endpoint of a local revocation: a signed entry stands. *)
Definition revoke_locally (io : PeerIo) (reason : option string) (id : key32) : Verb unit :=
  existing ← attempt (fun m => revoked_entry (p_at io id) (m_store m) id);
  match existing with
  | Some e => if bool_decide (re_source e = "signed"%string) then mret tt
              else on_store (fun s => revoke (p_at io id) s (local_entry id (p_now io) reason))
  | None => on_store (fun s => revoke (p_at io id) s (local_entry id (p_now io) reason))
  end.

Definition peer_revoke (io : PeerIo) (peer : string) (reason : option string) : Verb (list string * nat) :=
  targets ← named_targets (p_list io) peer;
  _ ← ensure (negb (bool_decide (targets = []))) (Failed "no paired device matches");
  _ ← match identity_of_peer peer with
      | Some uid => on_store (fun s => revoke_user (p_user io) s uid (local_entry (key_fill Byte.x00) (p_now io) reason))
      | None => mret tt
      end;
  _ ← for_each targets (revoke_locally io reason);
  let principals := principal <$> targets in
  severed ← sever_principals (p_sever io) (p_joined io) (principals ++ option_list (identity_of_peer peer));
  _ ← for_each principals (fun p => audit (trust_record (p_ts io) "peer_revoke" (Some peer) (Some p)));
  mret (principals, severed).

(** The endpoints of which a revocation was lifted. *)
Fixpoint lift_all (io : PeerIo) (ids : list key32) : Verb (list string) :=
  match ids with
  | [] => mret []
  | id :: ids =>
      was ← (fun m => match unrevoke (p_at io id) (m_store m) id with
                      | Ok (was, s) => (Ok was, with_store s m)
                      | Err e => (Err (Failed e), m)
                      end);
      rest ← lift_all io ids;
      mret (if (was : bool) then principal id :: rest else rest)
  end.

Definition peer_unrevoke (io : PeerIo) (peer : string) : Verb (list string) :=
  targets ← named_targets (p_list io) peer;
  _ ← match identity_of_peer peer with
      | Some uid => on_store (fun s => snd <$> unrevoke_user (p_user io) s uid)
      | None => mret tt
      end;
  lifted ← lift_all io targets;
  _ ← for_each lifted (fun p => audit (trust_record (p_ts io) "peer_unrevoke" (Some peer) (Some p)));
  mret lifted.

Definition encode_token (t : RevocationToken) : string := REVOKE_SCHEME +:+ base64url_encode (token_to_vec t).

Definition device_revoke (io : PeerIo) (adopted : bool) (user_key : result string SigningKey) (endpoint : string)
    (reason : option string) : Verb string :=
  match principal_to_endpoint endpoint with
  | None => bail (Failed "not an eid: device principal")
  | Some id =>
      _ ← ensure (negb adopted) (InvalidParams "device_revoke: this device was enrolled into another device's identity");
      key ← attempt (fun _ => user_key);
      let issued_at := p_now io in
      let token := {| tk_user_id := user_id key; tk_endpoint := principal id; tk_issued_at := issued_at;
                      tk_sig := encode_b64u (sign_device_revocation key id issued_at); tk_reason := reason |} in
      _ ← on_store (fun s => revoke (p_write io) s (signed_entry id issued_at reason (user_id key) issued_at));
      _ ← sever_principals (p_sever io) (p_joined io) [principal id];
      _ ← audit (trust_record (p_ts io) "device_revoke" None (Some (principal id)));
      mret (encode_token token)
  end.

(** A token's line: its content, its device, its signer's key and its signature. *)
Definition parse_token (line : string) : result string (RevocationToken * key32 * key32 * bytes) :=
  body ← ok_or "not a revocation token"%string (strip_prefix REVOKE_SCHEME (trimmed line));
  raw ← map_err (fun _ => "revocation token is not valid base64url"%string) (base64url_decode body);
  token ← ok_or "revocation token is malformed"%string (token_from_slice raw);
  endpoint ← ok_or "revocation token names no valid eid: principal"%string (principal_to_endpoint (tk_endpoint token));
  user_pk ← ok_or "revocation token carries no valid b64u: user_id"%string
              (ok (decode_b64u (tk_user_id token)) ≫= try_key32);
  sig ← map_err (fun _ => "revocation token signature is not base64url"%string) (decode_b64u (tk_sig token));
  Ok (token, endpoint, user_pk, sig).

Definition apply_import (io : PeerIo) (token : RevocationToken) (endpoint : key32) : Verb (bool * nat) :=
  _ ← on_store (fun s => revoke (p_write io) s
        (signed_entry endpoint (p_now io) (tk_reason token) (tk_user_id token) (tk_issued_at token)));
  severed ← sever_principals (p_sever io) (p_joined io) [principal endpoint];
  _ ← audit (trust_record (p_ts io) "device_revocation_import" (Some (tk_user_id token)) (Some (principal endpoint)));
  mret (true, severed).

(** Whether it was applied, and the connections severed. *)
Definition device_revocation_import (io : PeerIo) (line : string) : Verb (bool * nat) :=
  parsed ← attempt (fun _ => parse_token line);
  let '(token, endpoint, user_pk, sig) := parsed in
  _ ← ensure (is_ok (verify_device_revocation user_pk endpoint (tk_issued_at token) sig))
        (Failed "revocation signature does not verify against its user_id");
  rows ← attempt (fun m => list_peers (p_list io) (m_store m));
  prior ← attempt (fun m => revoked_entry (p_read io) (m_store m) endpoint);
  let row := find_first (fun e => bool_decide (pe_endpoint_id e = endpoint)) rows in
  let signers := fun e => bool_decide (pe_user_id e = Some (tk_user_id token)) in
  _ ← ensure (existsb signers rows) (Failed "this node does not know the signer");
  _ ← ensure (bool_decide (is_Some row)) (Failed "this node has no record of the device");
  _ ← ensure (match row with Some e => signers e | None => false end) (Failed "not a device of the signer on this node");
  match prior ≫= re_issued_at with
  | Some prior_at =>
      if (tk_issued_at token <=? prior_at)%Z then mret (false, 0)
      else apply_import io token endpoint
  | None => apply_import io token endpoint
  end.
End revocation.

(** ** Lemmas *)

(** A readable row of the pair table. *)
Definition row `{RowCodec} (s : PeerStore) (k : bytes) (e : PeerEntry) : Prop :=
  exists raw, t_peers s !! k = Some raw /\ peer_from_slice raw = Some e.

Section lemmas.
Context `{E : Ed25519, T : TextEncoding, R : RowCodec}.
Context `{EL : !Ed25519Laws E, TL : !TextEncodingLaws T, RL : !RowCodecLaws R}.

Lemma row_fun s k e e' : row s k e -> row s k e' -> e = e'.
Proof. intros (raw & H1 & H2) (raw' & H1' & H2'). congruence. Qed.

Lemma elem_of_list_peers io s rows e : list_peers io s = Ok rows -> e ∈ rows <-> exists k, row s k e.
Proof.
  unfold list_peers. intros H. inv_result. rewrite list_elem_of_omap. unfold row. split.
  - intros ([k raw] & Hin%elem_of_rows & Hp). eauto.
  - intros (k & raw & Hk & Hp). exists (k, raw). by rewrite elem_of_rows.
Qed.

Lemma row_add s e k e' :
  row (set_peers (<[key_bytes (pe_endpoint_id e) := peer_to_vec e]> (t_peers s)) s) k e' <->
  (k = key_bytes (pe_endpoint_id e) /\ e' = e) \/ (k <> key_bytes (pe_endpoint_id e) /\ row s k e').
Proof.
  unfold row. simpl. split.
  - intros (raw & [[<- <-]|[Hne Hk]]%lookup_insert_Some & Hp).
    + left. rewrite peer_from_to in Hp. by injection Hp.
    + right. eauto.
  - intros [[-> ->]|[Hne (raw & Hk & Hp)]].
    + exists (peer_to_vec e). by rewrite lookup_insert_eq, peer_from_to.
    + exists raw. by rewrite lookup_insert_ne by congruence.
Qed.

Lemma on_store_Ok f m u m' : on_store f m = (Ok u, m') <-> exists s, f (m_store m) = Ok s /\ m' = with_store s m.
Proof.
  unfold on_store. destruct (f (m_store m)) as [s|e]; split.
  - intros [= _ <-]. by exists s.
  - intros (s' & [= <-] & ->). by destruct u.
  - done.
  - by intros (? & [=] & _).
Qed.

Lemma on_store_Err f m e m' : on_store f m = (Err e, m') -> m' = m.
Proof. unfold on_store. destruct (f (m_store m)); [done|]. by intros [= _ <-]. Qed.

Lemma refuse_unless_Ok {A} (r : result VerbError A) m a m' : refuse_unless r m = (Ok a, m') <-> r = Ok a /\ m' = m.
Proof. unfold refuse_unless. naive_solver. Qed.

Lemma revoked_refused io s k : is_Some (t_revoked s !! key_bytes k) -> admission io s k = Refused.
Proof.
  intros Hr. destruct (admission_cases io s k) as [?|(-> & _)]; [done|]. unfold admission_of. by rewrite decide_True.
Qed.

(** A device the store has revoked resolves under no gate, whatever reads fail. *)
Lemma revoked_unresolved io now gate s k :
  is_Some (t_revoked s !! key_bytes k) -> composed_resolve io now {| Gate.c_roster := gate; c_pairs := s |} k = None.
Proof.
  intros Hr. unfold composed_resolve. destruct (roster_is_revoked _ _); [done|]. simpl.
  by rewrite (revoked_refused io s k Hr), decide_True.
Qed.

End lemmas.

Lemma audit_Ok r m u m' : audit r m = (Ok u, m') <-> m' = with_audit r m.
Proof. unfold audit, modify. destruct u. split; [by intros [= <-]|by intros ->]. Qed.

Ltac verbs_ok :=
  repeat match goal with
  | H : (_ ≫= _) _ = (Ok _, _) |- _ => apply verb_bind_Ok in H as (? & ? & ? & ?)
  | H : ensure _ _ _ = (Ok _, _) |- _ => apply ensure_Ok in H as [? ->]
  | H : attempt _ _ = (Ok _, _) |- _ => apply attempt_Ok in H as [? ->]
  | H : refuse_unless _ _ = (Ok _, _) |- _ => apply refuse_unless_Ok in H as [? ->]
  | H : on_store _ _ = (Ok _, _) |- _ => apply on_store_Ok in H as (? & ? & ->)
  | H : mret _ _ = (Ok _, _) |- _ => first [injection H as ? ?|injection H as ?]; subst
  | H : gets _ _ = (Ok _, _) |- _ => first [injection H as ? ?|injection H as ?]; subst
  | H : bail _ _ = (Ok _, _) |- _ => discriminate H
  | H : audit _ _ = (Ok _, _) |- _ => apply audit_Ok in H as ->
  end.

(** *** Verbs that only read *)
Definition reads {A} (v : Verb A) : Prop := forall m, (v m).2 = m.

Lemma reads_bind {A B} (v : Verb A) (f : A -> Verb B) : reads v -> (forall a, reads (f a)) -> reads (v ≫= f).
Proof.
  intros Hv Hf m. unfold mbind, verb_bind. pose proof (Hv m) as Hm. destruct (v m) as [[a|e] m1]; simpl in *; subst m1; [|done].
  apply Hf.
Qed.
Lemma reads_ret {A} (a : A) : reads (mret a). Proof. done. Qed.
Lemma reads_bail {A} e : reads (bail (A := A) e). Proof. done. Qed.
Lemma reads_ensure b e : reads (ensure b e). Proof. by destruct b. Qed.
Lemma reads_attempt {A} (f : MeshState -> result string A) : reads (attempt f). Proof. done. Qed.
Lemma reads_refuse {A} (r : result VerbError A) : reads (refuse_unless r). Proof. done. Qed.
Lemma reads_gets {A} (f : MeshState -> A) : reads (gets f). Proof. done. Qed.

Create HintDb reads.
#[export] Hint Resolve reads_bind reads_ret reads_bail reads_ensure reads_attempt reads_refuse reads_gets : reads.

(** ** Properties of introductions *)
Section introduce.
Context `{E : Ed25519, T : TextEncoding, R : RowCodec, X : EndpointText}.
Context `{EL : !Ed25519Laws E, TL : !TextEncodingLaws T, RL : !RowCodecLaws R}.

(** What the checks establish about the row they let through. *)
Record vouched (self : key32) (io : PeerIo) (p : PeerIntroduceParams) (s : PeerStore) (e : PeerEntry) : Prop := {
  vo_subject : endpoint_from_str (default (in_subject p) (strip_prefix "eid:" (in_subject p))) = Some (pe_endpoint_id e);
  vo_other : pe_endpoint_id e <> self;
  vo_endorser : exists k e0, row s k e0 /\ is_Some (pe_paired_at e0) /\ pe_user_id e0 = Some (in_endorsed_by p);
  vo_evidence : verify_endorsement (in_endorsed_by p) (in_evidence p) (pe_endpoint_id e) (in_subject_user_id p) = Ok tt;
  vo_user uid : pe_user_id e = Some uid -> exists sig, in_subject_user_id p = Some uid /\
    verify_presented uid sig (pe_endpoint_id e) = Ok uid /\ is_user_revoked (p_user io) s uid = false;
  vo_name k e0 : row s k e0 -> pe_nickname e0 = pe_nickname e -> pe_endpoint_id e0 = pe_endpoint_id e;
  vo_unpaired e0 : row s (key_bytes (pe_endpoint_id e)) e0 -> pe_paired_at e0 = None;
  vo_entry : pe_services e = [] /\ pe_paired_at e = None /\ pe_last_addr e = None }.

Lemma subject_id_Ok verb subject m id m' :
  subject_id verb subject m = (Ok id, m') -> endpoint_from_str (default subject (strip_prefix "eid:" subject)) = Some id /\ m' = m.
Proof. unfold subject_id. destruct (endpoint_from_str _); [|done]. by intros [= <- <-]. Qed.

Lemma proven_user_id_Ok p subject o :
  proven_user_id p subject = Ok o ->
  forall uid, o = Some uid -> exists sig, in_subject_user_id p = Some uid /\ verify_presented uid sig subject = Ok uid.
Proof.
  unfold proven_user_id. destruct (in_subject_user_id p) as [u|], (in_subject_binding p) as [sig|]; try done; [|by intros [= <-]].
  destruct (verify_presented u sig subject) as [v|] eqn:Hv; [|done]. intros [= <-] uid [= <-].
  unfold verify_presented in Hv. apply bind_Ok in Hv as (k & Hk%decode32_Ok & Hv).
  pose proof Hv as (sg & Hs & (un & Hd & [= Hu])%bind_Ok)%bind_Ok. subst u v. exists sig. split; [done|].
  unfold verify_presented. rewrite (proj2 (decode32_Ok _ k) eq_refl). exact Hv.
Qed.

Lemma identity_check_Ok io o m u m' :
  (match o with
   | None => mret tt
   | Some uid => revoked ← gets (fun m => is_user_revoked io (m_store m) uid); ensure (negb revoked) (PrincipalRevoked uid)
   end) m = (Ok u, m') ->
  m' = m /\ forall uid, o = Some uid -> is_user_revoked io (m_store m) uid = false.
Proof.
  destruct o as [uid|]; intros H; verbs_ok; [|by split]. split; [done|]. intros ? [= <-]. by apply negb_true_iff.
Qed.

Lemma reads_check self io p : reads (introduce_check self io p).
Proof.
  assert (Hs : forall verb s, reads (subject_id verb s)) by (intros verb s m; unfold subject_id; by destruct (endpoint_from_str _)).
  unfold introduce_check. repeat first [apply reads_bind; intros|by eauto with reads|case_match; by eauto with reads].
Qed.

Lemma introduce_check_spec self io p m e m' :
  introduce_check self io p m = (Ok e, m') -> m' = m /\ vouched self io p (m_store m) e.
Proof.
  unfold introduce_check. intros H. verbs_ok.
  apply subject_id_Ok in H0 as [Hid ->]. apply identity_check_Ok in H6 as [-> Hrev]. split; [done|].
  apply is_ok_true in H4 as [[] Hev]. apply existsb_elem in H3 as (e0 & Hin & [Hp Hu]%andb_true_iff).
  apply bool_decide_eq_true in Hp, Hu. apply negb_true_iff, bool_decide_eq_false in H1.
  apply (elem_of_list_peers _ _ _ _ H2) in Hin as [k Hk].
  split; simpl; [done|done|by exists k, e0|done| | | |done].
  - intros uid ->. destruct (proven_user_id_Ok _ _ _ H5 uid eq_refl) as (sig & Hs & Hv). exists sig. eauto.
  - intros k0 e1 Hrow Hn. apply negb_true_iff in H8. rewrite existsb_false in H8. specialize (H8 e1).
    rewrite (elem_of_list_peers _ _ _ _ H7) in H8. specialize (H8 (ex_intro _ k0 Hrow)).
    rewrite bool_decide_true in H8 by done. by apply negb_false_iff, bool_decide_eq_true in H8.
  - intros e1 (raw & Hr & Hpr). apply negb_true_iff in H10. unfold Allowlist.resolve in H9. inv_result.
    rewrite Hr in H10. simpl in H10. rewrite Hpr in H10. apply bool_decide_eq_false, eq_None_not_Some in H10. done.
Qed.

(** An introduction installs identity and nothing else, and only a vouched one: when it
    succeeds the one row it writes is the subject's, with no service, no pairing stamp and
    no address; a person paired with here signed the endorsement of exactly that endpoint
    and key, the user id (if any) is proven by the subject's own signature and not
    revoked, no paired row and no other contact's name was overwritten; what is served and
    who may use it is unchanged.  A failure changes nothing. *)
Theorem introduced_only_vouched self io p m r m' :
  introduce_peer self io p m = (r, m') ->
  match r with
  | Err _ => m' = m
  | Ok _ => exists e, vouched self io p (m_store m) e /\
      m_store m' = set_peers (<[key_bytes (pe_endpoint_id e) := peer_to_vec e]> (t_peers (m_store m))) (m_store m) /\
      m_serving m' = m_serving m /\ m_conns m' = m_conns m /\ m_roster m' = m_roster m /\
      m_audit m' = m_audit m ++ [trust_record (p_ts io) "peer_introduce" (Some (pe_nickname e)) (Some (in_endorsed_by p))]
  end.
Proof.
  unfold introduce_peer. destruct r as [u|err].
  - intros H. verbs_ok. apply introduce_check_spec in H as [-> Hv]. unfold introduce_write in H0. verbs_ok.
    exists x. split; [done|]. apply add_put in H as ->. done.
  - intros [H|(e & m1 & Hc & H)]%verb_bind_Err.
    + pose proof (reads_check self io p m) as Hr. by rewrite H in Hr.
    + apply introduce_check_spec in Hc as [-> _]. unfold introduce_write in H.
      apply verb_bind_Err in H as [H|(? & ? & _ & H)]; [by apply on_store_Err in H|done].
Qed.
End introduce.

(** Whatever was stored for the subject between the checks and the write, a pairing
    included, the write replaces. *)
Lemma introduce_write_replaces `{R : RowCodec, RL : !RowCodecLaws R} io p e m m' :
  introduce_write io p e m = (Ok tt, m') -> row (m_store m') (key_bytes (pe_endpoint_id e)) e.
Proof. unfold introduce_write. intros H. verbs_ok. apply add_put in H as ->. apply row_add. by left. Qed.

(** ** Properties of renaming *)
Section rename.
Context `{R : RowCodec, RL : !RowCodecLaws R}.

Lemma rename_mutate_Ok io to targets m u m' :
  store_keyed (m_store m) -> NoDup (pe_endpoint_id <$> targets) ->
  rename_mutate io to targets m = (Ok u, m') ->
  store_keyed (m_store m') /\
  (forall k e, row (m_store m') k e <->
     (exists t, t ∈ targets /\ k = key_bytes (pe_endpoint_id t) /\ e = with_nickname to t) \/
     (k ∉ (fun t => key_bytes (pe_endpoint_id t)) <$> targets /\ row (m_store m) k e)) /\
  t_revoked (m_store m') = t_revoked (m_store m) /\ t_revoked_users (m_store m') = t_revoked_users (m_store m) /\
  m' = with_store (m_store m') m.
Proof.
  unfold rename_mutate. revert m. induction targets as [|t l IH]; intros m Hk Hnd H; simpl in H.
  - verbs_ok. split_and!; [done| |done|done|by destruct m']. intros k e. split; [|by intros [(t & ?%elem_of_nil & _)|[_ ?]]].
    intros ?. right. split; [|done]. simpl. apply not_elem_of_nil.
  - apply NoDup_cons in Hnd as [Hn Hnd]. verbs_ok. pose proof H as Hadd. apply add_put in H. subst x1.
    assert (Hk' : store_keyed (m_store (with_store (set_peers (<[key_bytes (pe_endpoint_id (with_nickname to t)) := peer_to_vec (with_nickname to t)]> (t_peers (m_store m))) (m_store m)) m)))
      by (apply (exec_keyed (p_at io (pe_endpoint_id t)) (m_store m) (OpAdd (with_nickname to t)) _ Hadd Hk)).
    destruct (IH _ Hk' Hnd H0) as (Hk2 & Hrow & Hr & Hu & Hm). split_and!; [done| |done|done|rewrite Hm; by destruct m].
    intros k e. rewrite Hrow. simpl. rewrite (row_add (m_store m) (with_nickname to t)). simpl. rewrite not_elem_of_cons.
    setoid_rewrite elem_of_cons. split.
    + intros [(t' & ? & -> & ->)|[Hnin [[-> ->]|[? ?]]]]; [left; eauto|left; eauto|right; eauto].
    + intros [(t' & [->|?] & -> & ->)|[[? ?] ?]]; [|left; eauto|right; eauto].
      right. split; [|by left]. intros (t' & Heq & Hin)%list_elem_of_fmap. apply (inj key_bytes) in Heq.
      apply Hn. rewrite Heq. apply list_elem_of_fmap. eauto.
Qed.

Lemma list_peers_nodup io s rows : store_keyed s -> list_peers io s = Ok rows -> NoDup (pe_endpoint_id <$> rows).
Proof.
  intros Hk H. unfold list_peers in H. inv_result.
  assert (Hnd : NoDup (Allowlist.rows (t_peers s)).*1).
  { unfold Allowlist.rows. rewrite merge_sort_Permutation. apply NoDup_fst_map_to_list. }
  assert (Hin : forall kv, kv ∈ Allowlist.rows (t_peers s) -> t_peers s !! kv.1 = Some kv.2) by (intros [k v]; by rewrite elem_of_rows).
  induction (Allowlist.rows (t_peers s)) as [|[k v] l IH]; simpl; [constructor|].
  apply NoDup_cons in Hnd as [Hn Hnd]. assert (IH' := IH Hnd (fun kv Hkv => Hin kv (list_elem_of_further _ _ _ Hkv))).
  destruct (peer_from_slice v) as [e|] eqn:Hp; simpl; [|done]. constructor; [|done].
  intros (e' & Heq & ([k' v'] & Hin' & Hp')%list_elem_of_omap)%list_elem_of_fmap. apply Hn.
  assert (H1 := Hk _ _ _ (Hin (k, v) (list_elem_of_here _ _)) Hp).
  assert (H2 := Hk _ _ _ (Hin (k', v') (list_elem_of_further _ _ _ Hin')) Hp'). simpl in *.
  apply list_elem_of_fmap. exists (k', v'). split; [|done]. simpl. congruence.
Qed.

Lemma nodup_fmap_filter {A B} (f : A -> B) (P : A -> Prop) `{!forall x, Decision (P x)} l :
  NoDup (f <$> l) -> NoDup (f <$> filter P l).
Proof.
  induction l as [|a l IH]; simpl; [done|]. intros [Hn Hnd]%NoDup_cons. rewrite filter_cons. case_decide; [|by apply IH].
  simpl. apply NoDup_cons. split; [|by apply IH]. intros (b & Hb & [_ ?]%list_elem_of_filter)%list_elem_of_fmap.
  apply Hn, list_elem_of_fmap. eauto.
Qed.

Lemma rename_plan_Ok io s user_id nickname to plan :
  rename_plan io s user_id nickname to = Ok plan ->
  exists all, list_peers io s = Ok all /\
    let targets := filter (fun e => renames user_id nickname e = true) all in
    targets <> [] /\
    match plan with
    | None => forall e, e ∈ targets -> pe_nickname e = to
    | Some l => l = targets /\ (exists e, e ∈ targets /\ pe_nickname e <> to) /\
        forall e, e ∈ all -> pe_nickname e = to -> pe_endpoint_id e ∈ pe_endpoint_id <$> targets
    end.
Proof.
  unfold rename_plan. intros (all & Hall & H)%bind_Ok. exists all. split; [done|]. cbv zeta in *.
  case_bool_decide as Hne; [done|]. split; [done|]. destruct (forallb _ _) eqn:Hf.
  - injection H as <-. intros e He. rewrite forallb_forall in Hf. apply list_elem_of_In in He.
    specialize (Hf e He). by apply bool_decide_eq_true in Hf.
  - destruct (existsb _ _) eqn:Hx; [done|]. injection H as <-. split; [done|]. split.
    + apply not_true_iff_false in Hf. destruct (decide (Exists (fun e => pe_nickname e <> to) (filter (fun e => renames user_id nickname e = true) all))) as [Hex|Hno].
      * apply Exists_exists in Hex as (e & ? & ?). eauto.
      * exfalso. apply Hf, forallb_forall. intros e He. apply bool_decide_eq_true.
        destruct (decide (pe_nickname e = to)); [done|]. exfalso. apply Hno, Exists_exists. exists e.
        split; [by apply list_elem_of_In|done].
    + intros e He Hto. rewrite existsb_false in Hx. specialize (Hx e He). rewrite bool_decide_true in Hx by done.
      simpl in Hx. apply bool_decide_eq_false in Hx. by destruct (decide (pe_endpoint_id e ∈ pe_endpoint_id <$> filter (fun e => renames user_id nickname e = true) all)).
Qed.

(** A rename that succeeds changes the nickname of exactly the contact's devices and
    nothing else of any row, no revocation, no grant and no connection; and unless it had
    nothing to do, no other contact goes by the new name. *)
Theorem rename_peer_spec io user_id nickname to m u m' :
  store_keyed (m_store m) -> rename_peer io user_id nickname to m = (Ok u, m') ->
  let new := trimmed to in
  (forall k e, row (m_store m') k e <->
     exists e0, row (m_store m) k e0 /\ e = if renames user_id nickname e0 then with_nickname new e0 else e0) /\
  (m' = m \/ forall k e, row (m_store m') k e -> pe_nickname e = new ->
     exists e0, row (m_store m) k e0 /\ renames user_id nickname e0 = true) /\
  t_revoked (m_store m') = t_revoked (m_store m) /\ t_revoked_users (m_store m') = t_revoked_users (m_store m) /\
  m' = with_store (m_store m') m.
Proof.
  intros Hk H. unfold rename_peer in H. verbs_ok. cbv zeta. set (new := trimmed to) in *.
  apply rename_plan_Ok in H1 as (all & Hall & Hne & Hplan). cbv zeta in *.
  set (targets := filter (fun e => renames user_id nickname e = true) all) in *.
  assert (Hin : forall e, e ∈ targets <-> renames user_id nickname e = true /\ exists k, row (m_store m) k e).
  { intros e. unfold targets. by rewrite list_elem_of_filter, (elem_of_list_peers _ _ _ _ Hall). }
  assert (Hkey : forall k e, row (m_store m) k e -> k = key_bytes (pe_endpoint_id e)) by (intros k e (raw & Hr & Hp); by eapply Hk).
  assert (Hnick : forall e, pe_nickname e = new -> with_nickname new e = e) by (by intros [] <-).
  destruct x3 as [l|].
  - destruct Hplan as (-> & _ & Huniq). pose proof (list_peers_nodup _ _ _ Hk Hall) as Hnd.
    assert (Hnt : NoDup (pe_endpoint_id <$> targets)).
    { by apply nodup_fmap_filter. }
    destruct (rename_mutate_Ok _ _ _ _ _ _ Hk Hnt H2) as (_ & Hrow & Hr & Hu & Hm).
    assert (Hrows : forall k e, row (m_store m') k e <->
     exists e0, row (m_store m) k e0 /\ e = if renames user_id nickname e0 then with_nickname new e0 else e0).
    { intros k e. rewrite Hrow. split.
      - intros [(t & Ht & -> & ->)|[Hnot Hrow1]].
        + pose proof Ht as [Hrn (k & Hrt)]%Hin. exists t. rewrite <- (Hkey _ _ Hrt). by rewrite Hrn.
        + exists e. split; [done|]. destruct (renames user_id nickname e) eqn:Hrn; [|done]. exfalso. apply Hnot.
          apply list_elem_of_fmap. exists e. split; [by apply Hkey|]. apply Hin. eauto.
      - intros (e0 & He0 & ->). destruct (renames user_id nickname e0) eqn:Hrn.
        + left. exists e0. split; [apply Hin; eauto|]. split; [by apply Hkey|done].
        + right. split; [|done]. intros (t & Heq & [Hrt (k' & Ht)]%Hin)%list_elem_of_fmap.
          assert (Hrow0 : row (m_store m) k t) by (rewrite Heq, <- (Hkey _ _ Ht); done).
          rewrite (row_fun _ _ _ _ He0 Hrow0) in Hrn. congruence. }
    split_and!; [done| |done|done|done]. right. intros k e (e0 & He0 & ->)%Hrows Hto. exists e0. split; [done|].
    destruct (renames user_id nickname e0) eqn:Hrn; [done|].
    assert (Hin0 : e0 ∈ all) by (apply (elem_of_list_peers _ _ _ _ Hall); eauto).
    specialize (Huniq e0 Hin0 Hto). apply list_elem_of_fmap in Huniq as (t & Heq & [Hrt (k' & Ht)]%Hin).
    assert (Hrow0 : row (m_store m) k t) by (rewrite (Hkey _ _ He0), Heq, <- (Hkey _ _ Ht); done).
    rewrite (row_fun _ _ _ _ He0 Hrow0) in Hrn. congruence.
  - verbs_ok. split_and!; [|by left|done|done|by destruct m']. intros k e. split.
    + intros He0. exists e. split; [done|]. destruct (renames user_id nickname e) eqn:Hrn; [|done].
      rewrite Hnick; [done|]. apply Hplan, Hin. eauto.
    + intros (e0 & He0 & ->). destruct (renames user_id nickname e0) eqn:Hrn; [|done].
      rewrite Hnick; [done|]. apply Hplan, Hin. eauto.
Qed.

(** A rename whose contact is removed between its two transactions writes every row of it
    back, under the new name. *)
Lemma rename_resurrects io all s user_id nickname to targets m removed s' u m' :
  store_keyed s -> rename_plan all s user_id nickname to = Ok (Some targets) ->
  store_keyed (m_store m) -> remove io (m_store m) (default ""%string nickname) = Ok (removed, s') ->
  rename_mutate (no_peer_faults 0 "") to targets (with_store s' m) = (Ok u, m') ->
  targets <> [] /\ forall t, t ∈ targets -> row (m_store m') (key_bytes (pe_endpoint_id t)) (with_nickname to t).
Proof.
  intros Hk Hp Hkm Hrm Hmut. apply rename_plan_Ok in Hp as (l & Hl & Hne & -> & _ & _). split; [done|].
  assert (Hk' : store_keyed s').
  { apply (exec_keyed io (m_store m) (OpRemove (default ""%string nickname)) s'); [|done]. simpl. by rewrite Hrm. }
  assert (Hnd : NoDup (pe_endpoint_id <$> filter (fun e => renames user_id nickname e = true) l)).
  { apply nodup_fmap_filter. exact (list_peers_nodup _ _ _ Hk Hl). }
  destruct (rename_mutate_Ok (no_peer_faults 0 "") to _ (with_store s' m) u m' Hk' Hnd Hmut) as (_ & Hrow & _).
  intros t Ht. apply Hrow. left. eauto.
Qed.
End rename.

(** ** Properties of removal *)
Section remove.
Context `{T : TextEncoding, R : RowCodec, RL : !RowCodecLaws R}.

(** The person a scope keeps serving: any other row carries it, paired or not. *)
Lemma blob_principals_spec nickname rows a :
  a ∈ blob_principals nickname rows <->
  exists t, t ∈ rows /\ pe_nickname t = nickname /\
    (a = principal (pe_endpoint_id t) \/
     pe_user_id t = Some a /\ ~ exists o, o ∈ rows /\ pe_nickname o <> nickname /\ pe_user_id o = Some a).
Proof.
  unfold blob_principals. set (others := filter (fun e => pe_nickname e <> nickname) rows).
  assert (Hshared : forall u, existsb (fun o => bool_decide (pe_user_id o = Some u)) others = true <->
      exists o, o ∈ rows /\ pe_nickname o <> nickname /\ pe_user_id o = Some u).
  { intros u. rewrite existsb_elem. setoid_rewrite bool_decide_eq_true. unfold others. setoid_rewrite list_elem_of_filter.
    split; intros (o & H1 & H2); exists o; tauto. }
  set (gives := fun t => a = principal (pe_endpoint_id t) \/ pe_user_id t = Some a /\ ~ exists o, o ∈ rows /\ pe_nickname o <> nickname /\ pe_user_id o = Some a).
  assert (Huser : forall acc u, a ∈ blob_user others acc u <->
      a ∈ acc \/ (a = u /\ ~ exists o, o ∈ rows /\ pe_nickname o <> nickname /\ pe_user_id o = Some u)).
  { intros acc u. unfold blob_user. rewrite <- Hshared. destruct (existsb _ others); simpl; [tauto|].
    case_bool_decide as Hin; [split; [by left|intros [?|[-> _]]; done]|].
    rewrite elem_of_app, list_elem_of_singleton. naive_solver. }
  assert (Hfold : forall l acc, a ∈ foldl (fun acc t =>
           let acc := acc ++ [principal (pe_endpoint_id t)] in
           match pe_user_id t with Some uid => blob_user others acc uid | None => acc end) acc l <->
      a ∈ acc \/ exists t, t ∈ l /\ gives t).
  { induction l as [|t l IH]; intros acc; simpl; [split; [by left|]; by intros [?|(t & ?%elem_of_nil & _)]|].
    rewrite IH. setoid_rewrite elem_of_cons. clear IH. destruct (pe_user_id t) as [u|] eqn:Hu.
    - rewrite Huser, elem_of_app, list_elem_of_singleton. split.
      + intros [[[?|?]|[-> ?]]|(t' & ? & ?)]; [by left|right; exists t; split; [by left|by left]|right; exists t; split; [by left|by right]|right; eauto].
      + intros [?|(t' & [->|?] & Hg)]; [by left; left; left|destruct Hg as [?|[Hu' ?]]; [by left; left; right|]|right; eauto].
        left. right. split; [congruence|]. assert (u = a) as -> by congruence. done.
    - rewrite elem_of_app, list_elem_of_singleton. split.
      + intros [[?|?]|(t' & ? & ?)]; [by left|right; exists t; split; [by left|by left]|right; eauto].
      + intros [?|(t' & [->|?] & Hg)]; [by left; left|destruct Hg as [?|[Hu' _]]; [by left; right|congruence]|right; eauto]. }
  rewrite Hfold. setoid_rewrite list_elem_of_filter. unfold gives. split.
  - intros [?%elem_of_nil|(t & [? ?] & ?)]; [done|eauto].
  - intros (t & ? & ? & ?). right. eauto.
Qed.

(** A person whose only other row here was introduced, not paired, loses the services with
    the last paired device but keeps the blobs. *)
Lemma blobs_outlive_unpair nickname rows t o uid :
  t ∈ rows -> pe_nickname t = nickname -> pe_user_id t = Some uid ->
  o ∈ rows -> pe_nickname o <> nickname -> pe_user_id o = Some uid ->
  (forall o', o' ∈ rows -> pe_nickname o' <> nickname -> pe_user_id o' = Some uid -> pe_paired_at o' = None) ->
  (forall e, e ∈ rows -> principal (pe_endpoint_id e) <> uid) ->
  uid ∈ service_principals nickname rows /\ uid ∉ blob_principals nickname rows.
Proof.
  intros Ht Hn Hu Ho Hno Huo Hintro Hne. split.
  - apply service_principals_spec. exists t. split_and!; [done..|]. right. split; [done|].
    intros (o' & Ho' & Hno' & Huo' & Hp). rewrite (Hintro o' Ho' Hno' Huo') in Hp. by destruct Hp.
  - intros (t' & Ht' & _ & [Heq|[_ Hno']])%blob_principals_spec; [by eapply Hne|]. apply Hno'. by exists o.
Qed.
End remove.

(** ** Properties of revocations *)
Section revoke.
Context `{E : Ed25519, T : TextEncoding, R : RowCodec, K : TokenCodec}.
Context `{EL : !Ed25519Laws E, TL : !TextEncodingLaws T, RL : !RowCodecLaws R, KL : !TokenCodecLaws K}.

(** What revoking endpoint after endpoint does to the table: nothing but new or rewritten
    rows, and none over a signed one. *)
Definition signed_row (s : PeerStore) (k : bytes) (raw : bytes) : Prop :=
  t_revoked s !! k = Some raw /\ exists e, revoked_from_slice raw = Some e /\ re_source e = "signed"%string.
Record revoked_more (m m' : MeshState) : Prop := {
  rm_frame : m' = with_store (set_revoked (t_revoked (m_store m')) (m_store m)) m;
  rm_kept k : is_Some (t_revoked (m_store m) !! k) -> is_Some (t_revoked (m_store m') !! k);
  rm_signed k raw : signed_row (m_store m) k raw -> signed_row (m_store m') k raw }.

#[export] Instance revoked_more_preorder : PreOrder revoked_more.
Proof.
  split.
  - intros m. split; [by destruct m as [? [] ? ? ?]|done|done].
  - intros m m1 m2 [F1 K1 S1] [F2 K2 S2]. split; [|by eauto|by eauto]. rewrite F2, F1. done.
Qed.

Lemma revoke_row_more io m e s :
  revoke io (m_store m) e = Ok s ->
  (forall raw, ~ signed_row (m_store m) (key_bytes (re_endpoint_id e)) raw) ->
  revoked_more m (with_store s m) /\ is_Some (t_revoked s !! key_bytes (re_endpoint_id e)).
Proof.
  intros ->%revoke_put Hns. simpl. rewrite lookup_insert_eq. split; [|done]. split; [done| |].
  - simpl. intros k Hk. destruct (decide (k = key_bytes (re_endpoint_id e))) as [->|]; [by rewrite lookup_insert_eq|by rewrite lookup_insert_ne].
  - intros k raw Hs. split; [|apply Hs]. simpl. destruct (decide (k = key_bytes (re_endpoint_id e))) as [->|]; [by destruct (Hns raw)|].
    rewrite lookup_insert_ne by done. apply Hs.
Qed.

Lemma revoke_locally_Ok io reason id m u m' :
  revoke_locally io reason id m = (Ok u, m') ->
  revoked_more m m' /\ is_Some (t_revoked (m_store m') !! key_bytes id).
Proof.
  unfold revoke_locally. intros H. verbs_ok. unfold revoked_entry in H. inv_result.
  destruct (t_revoked (m_store m) !! key_bytes id) as [v|] eqn:Hv; simplify_eq/=.
  - case_bool_decide as Hs; verbs_ok; [by rewrite Hv|].
    match goal with Hr : revoke _ _ _ = Ok _ |- _ => apply (revoke_row_more _ _ _ _ Hr) end. intros raw (Hraw & e & He & Hes). simpl in Hraw. apply Hs.
    rewrite Hv in Hraw. injection Hraw as ->. by rewrite He.
  - verbs_ok. match goal with Hr : revoke _ _ _ = Ok _ |- _ => apply (revoke_row_more _ _ _ _ Hr) end. intros raw (Hraw & _). simpl in Hraw. by rewrite Hv in Hraw.
Qed.

Lemma revoke_all_Ok io reason ids m u m' :
  for_each ids (revoke_locally io reason) m = (Ok u, m') ->
  revoked_more m m' /\ forall id, id ∈ ids -> is_Some (t_revoked (m_store m') !! key_bytes id).
Proof.
  revert m. induction ids as [|id ids IH]; intros m H; simpl in H; verbs_ok.
  - split; [done|]. by intros id ?%elem_of_nil.
  - apply revoke_locally_Ok in H as [Hm1 Hid]. apply IH in H0 as [Hm2 Hids]. split; [by trans x0|].
    intros id' [->|?]%elem_of_cons; [|by apply Hids]. by apply (rm_kept _ _ Hm2).
Qed.

Lemma elem_of_revocation_targets io peer m targets e :
  revocation_targets io peer m = Ok targets ->
  (exists k pe, row (m_store m) k pe /\ e = pe_endpoint_id pe /\
     (pe_nickname pe = peer \/ principal e = peer \/ pe_user_id pe = Some peer)) ->
  e ∈ targets.
Proof.
  unfold revocation_targets. intros (out & Hout & (rows & Hrows & [= <-])%bind_Ok)%bind_Ok (k & pe & Hrow & -> & Hp).
  rewrite (elem_of_fold_if (fun pe => bool_decide (pe_nickname pe = peer)) pe_endpoint_id). destruct Hp as [Hn|Hp].
  - right. exists pe. split; [apply (elem_of_list_peers _ _ _ _ Hrows); eauto|]. by rewrite bool_decide_true.
  - left. apply (elem_of_endpoints_for_principal _ _ _ _ _ _ Hout). left. destruct Hrow as (raw & ? & ?).
    by exists k, raw, pe.
Qed.
Lemma audits_Ok {A} (r : A -> AuditRecord) l m u m' :
  for_each l (fun a => audit (r a)) m = (Ok u, m') ->
  m_serving m' = m_serving m /\ m_store m' = m_store m /\ m_roster m' = m_roster m /\ m_conns m' = m_conns m /\
  m_audit m' = m_audit m ++ (r <$> l).
Proof.
  revert m. induction l as [|a l IH]; intros m H; simpl in *; verbs_ok; [by rewrite app_nil_r|].
  apply IH in H0 as (-> & -> & -> & -> & ->). simpl. by rewrite <- app_assoc.
Qed.

Lemma named_targets_Ok io peer m targets m' :
  named_targets io peer m = (Ok targets, m') ->
  m' = m /\ forall k pe, row (m_store m) k pe ->
     pe_nickname pe = peer \/ principal (pe_endpoint_id pe) = peer \/ pe_user_id pe = Some peer ->
     pe_endpoint_id pe ∈ targets.
Proof.
  unfold named_targets. intros H. verbs_ok. split; [done|]. intros k pe Hrow Hp.
  assert (Hin : pe_endpoint_id pe ∈ x) by (eapply elem_of_revocation_targets; eauto 10).
  case_bool_decide; [set_solver|by apply elem_of_elements].
Qed.

Lemma revoke_identity_Ok io peer e m u m' :
  match identity_of_peer peer with
  | Some uid => on_store (fun s => revoke_user io s uid e)
  | None => mret tt
  end m = (Ok u, m') ->
  t_peers (m_store m') = t_peers (m_store m) /\ t_revoked (m_store m') = t_revoked (m_store m) /\
  m' = with_store (m_store m') m /\
  (starts_with "b64u:" peer = true -> is_Some (t_revoked_users (m_store m') !! peer)).
Proof.
  unfold identity_of_peer. destruct (starts_with "b64u:" peer); intros H; verbs_ok; [|by destruct m'].
  apply revoke_user_put in H as ->. simpl. split_and!; [done..|]. by rewrite lookup_insert_eq.
Qed.

Lemma endpoints_each io store roster ps all p :
  endpoints_for_principals io store roster ps = Ok all -> p ∈ ps ->
  exists s, endpoints_for_principal io store roster p = Ok s.
Proof.
  revert all. induction ps as [|q ps IH] using rev_ind; intros all; [by intros _ ?%elem_of_nil|].
  unfold endpoints_for_principals. rewrite foldl_app. simpl.
  intros (a & Ha & (s & Hs & _)%bind_Ok)%bind_Ok [Hin| ->%list_elem_of_singleton]%elem_of_app; [by eapply IH|by exists s].
Qed.

(** A sever reaches every connection of a row's device or of a session admitted as one of
    the principals. *)
Lemma severs_named io joined ps m n m' :
  sever_principals io joined ps m = (Ok n, m') ->
  forall id t, reg_inner (k_registry (m_conns m)) !! id = Some t ->
  (exists p, p ∈ ps /\ (is_Some (t_admitted t !! p) \/
     exists k pe, row (m_store m) k pe /\ pe_endpoint_id pe = t_endpoint_id t /\
       (principal (pe_endpoint_id pe) = p \/ pe_user_id pe = Some p))) ->
  t_conn t ∈ k_closed (m_conns m').
Proof.
  intros H id t Ht (p & Hp & Hwho). destruct (sever_principals_spec _ _ _ _ _ _ H) as (targets & Htg & _ & Hc).
  apply Hc. right. right. exists id, t. split_and!; [done..|]. destruct Hwho as [?|(k & pe & (raw & ? & ?) & He & Hpe)]; [right; by exists p|].
  left. assert (exists s, endpoints_for_principal io (m_store m) (m_roster m) p = Ok s) as [s Hs].
  { by eapply endpoints_each. }
  apply (proj2 (elem_of_endpoints_for_principals _ _ _ _ _ _ Htg)). exists p, s. split_and!; [done..|].
  apply (proj2 (elem_of_endpoints_for_principal _ _ _ _ _ _ Hs)). left. exists k, raw, pe. by rewrite <- He.
Qed.

Lemma composed_revoked_user io now gate s k i uid :
  starts_with "b64u:" uid = true -> is_Some (t_revoked_users s !! uid) ->
  composed_resolve io now {| Gate.c_roster := gate; c_pairs := s |} k = Some i -> id_user_id i <> Some uid.
Proof.
  intros Hb Hr Hres Hu.
  assert (Hrev : is_user_revoked io s uid = true).
  { unfold is_user_revoked, access. destruct (io Begin); [done|]. destruct (io REVOKED_USERS); [done|]. simpl. by apply bool_decide_eq_true. }
  apply composed_resolve_Some in Hres as (_ & _ & [[_ Hid]|(_ & pe & Ha & ->)]); simpl in *.
  - rewrite Hu in Hid. simpl in Hid. unfold is_roster_user_revoked in Hid. by rewrite Hb, Hrev in Hid.
  - by rewrite (admitted_user_not_revoked _ _ _ _ _ Ha Hu) in Hrev.
Qed.

(** C18: a local revocation that succeeds takes effect at once.  It names every device of
    the nickname, principal or person; from then on no gate, whatever roster it holds and
    whatever reads fail, resolves any of them, and none gives anyone a revoked identity;
    the pairings and every signed revocation stand as they were; every tracked connection
    of a named contact's device, or with a session admitted as one of them, is closed; and
    each device is on the audit log. *)
Theorem peer_revoke_takes_effect io peer reason m revoked severed m' :
  peer_revoke io peer reason m = (Ok (revoked, severed), m') ->
  let named pe := pe_nickname pe = peer \/ principal (pe_endpoint_id pe) = peer \/ pe_user_id pe = Some peer in
  exists targets, targets <> [] /\ revoked = principal <$> targets /\
    (forall k pe, row (m_store m) k pe -> named pe -> pe_endpoint_id pe ∈ targets) /\
    (forall io' now gate id, id ∈ targets -> composed_resolve io' now {| Gate.c_roster := gate; c_pairs := m_store m' |} id = None) /\
    (forall io' now gate k i, starts_with "b64u:" peer = true ->
       composed_resolve io' now {| Gate.c_roster := gate; c_pairs := m_store m' |} k = Some i -> id_user_id i <> Some peer) /\
    t_peers (m_store m') = t_peers (m_store m) /\
    (forall k raw, signed_row (m_store m) k raw -> signed_row (m_store m') k raw) /\
    (forall id t, reg_inner (k_registry (m_conns m)) !! id = Some t ->
       (exists p, p ∈ revoked /\ is_Some (t_admitted t !! p)) \/
       (exists k pe, row (m_store m) k pe /\ pe_endpoint_id pe = t_endpoint_id t /\ named pe) ->
       t_conn t ∈ k_closed (m_conns m')) /\
    m_audit m' = m_audit m ++ ((fun p => trust_record (p_ts io) "peer_revoke" (Some peer) (Some p)) <$> revoked).
Proof.
  intros H named. unfold peer_revoke in H. verbs_ok. apply named_targets_Ok in H as [-> Hnamed].
  apply negb_true_iff, bool_decide_eq_false in H0. apply revoke_identity_Ok in H1 as (Hp & Hrv & Hm & Hid).
  apply revoke_all_Ok in H2 as [Hmore Hall]. apply audits_Ok in H4 as (_ & Hst & _ & Hco & Hau).
  destruct (severs_serving _ _ _ _ _ _ H3) as [_ Hst']. rewrite Hm in Hmore.
  assert (Hpe : t_peers (m_store x6) = t_peers (m_store m)) by (rewrite (rm_frame _ _ Hmore); simpl; exact Hp).
  assert (Hus : t_revoked_users (m_store x6) = t_revoked_users (m_store x4)) by (by rewrite (rm_frame _ _ Hmore)).
  exists x. rewrite Hst, Hst'. split_and!; [done|done|done| | |done| | |].
  - intros io' now gate id Hin. by apply revoked_unresolved, Hall.
  - intros io' now gate k i Hb. apply composed_revoked_user; [done|]. rewrite Hus. by apply Hid.
  - intros k raw [Hk He]. apply (rm_signed _ _ Hmore). split; [by rewrite <- Hrv in Hk|done].
  - rewrite Hco. intros id t Ht Hwho. assert (Ht' : reg_inner (k_registry (m_conns x6)) !! id = Some t).
    { rewrite (rm_frame _ _ Hmore). done. }
    apply (severs_named _ _ _ _ _ _ H3 id t Ht'). destruct Hwho as [(p & Hin & Had)|(k & pe & Hrow & He & Hn)].
    + exists p. split; [by apply elem_of_app; left|by left].
    + exists (principal (pe_endpoint_id pe)). split.
      * apply elem_of_app. left. apply list_elem_of_fmap. exists (pe_endpoint_id pe). split; [done|]. by eapply Hnamed.
      * right. exists k, pe. split; [|by auto]. destruct Hrow as (raw & ? & ?). exists raw. by rewrite Hpe.
  - rewrite Hau. f_equal. unfold sever_principals, close_refused_peer_conns in H3. simpl in H3.
    destruct (endpoints_for_principals _ _ _ _); [|done]. injection H3 as _ <-. simpl. by rewrite (rm_frame _ _ Hmore), Hm.
Qed.

(** *** Importing *)
Lemma attempt_bind {A B} (f : MeshState -> result string A) (g : A -> Verb B) m :
  (attempt f ≫= g) m = match f m with Ok a => g a m | Err e => (Err (Failed e), m) end.
Proof. unfold mbind, verb_bind, attempt. by destruct (f m). Qed.
Lemma ensure_bind {B} b e (g : unit -> Verb B) m : (ensure b e ≫= g) m = if b then g tt m else (Err e, m).
Proof. by destruct b. Qed.

Lemma parse_token_Ok line token endpoint pk sig :
  parse_token line = Ok (token, endpoint, pk, sig) <->
  exists raw, trimmed line = REVOKE_SCHEME +:+ base64url_encode raw /\ token_from_slice raw = Some token /\
    tk_endpoint token = principal endpoint /\ tk_user_id token = encode_b64u (key_bytes pk) /\
    decode_b64u (tk_sig token) = Ok sig.
Proof.
  unfold parse_token. split.
  - intros H. apply bind_Ok in H as (body & Hb & H). apply bind_Ok in H as (raw & Hraw & H).
    apply bind_Ok in H as (tk & Htk & H). apply bind_Ok in H as (ep & Hep & H). apply bind_Ok in H as (pk' & Hpk & H).
    apply bind_Ok in H as (sg & Hsg & H). injection H as -> -> -> ->.
    apply ok_or_Ok, strip_prefix_Some in Hb. apply ok_or_Ok in Htk, Hep, Hpk. apply map_err_Ok in Hraw, Hsg.
    apply bind_Some in Hpk as (b & Hd & Hk). apply principal_to_endpoint_spec in Hep. apply try_key32_Some in Hk as ->.
    destruct (decode_b64u (tk_user_id token)) as [b'|] eqn:Hdec; [|done]. injection Hd as ->.
    exists raw. split_and!; [|done|done|by apply encode_decode_b64u|done]. by rewrite Hb, (base64url_encode_decode _ _ Hraw).
  - intros (raw & -> & Htk & Hep & Hpk & Hsg).
    rewrite strip_prefix_app. simpl. rewrite base64url_decode_encode. simpl. rewrite Htk. simpl.
    rewrite (proj2 (principal_to_endpoint_spec _ _) Hep). simpl. rewrite Hpk, decode_encode_b64u. simpl.
    rewrite try_key32_bytes. simpl. by rewrite Hsg.
Qed.

(** What entitles a token to write: its signer signed it, and the device is theirs here. *)
Record entitled (s : PeerStore) (line : string) (token : RevocationToken) (endpoint : key32) : Prop := {
  en_signed : exists pk sig, parse_token line = Ok (token, endpoint, pk, sig) /\
    tk_user_id token = encode_b64u (key_bytes pk) /\
    verify_device_revocation pk endpoint (tk_issued_at token) sig = Ok tt;
  en_owner : exists k pe, row s k pe /\ pe_endpoint_id pe = endpoint /\ pe_user_id pe = Some (tk_user_id token);
  en_newer raw e prior : t_revoked s !! key_bytes endpoint = Some raw -> revoked_from_slice raw = Some e ->
    re_issued_at e = Some prior -> (prior < tk_issued_at token)%Z }.

Definition imported (s : PeerStore) (now : Z) (token : RevocationToken) (endpoint : key32) : PeerStore :=
  set_revoked (<[key_bytes endpoint :=
    revoked_to_vec (signed_entry endpoint now (tk_reason token) (tk_user_id token) (tk_issued_at token))]> (t_revoked s)) s.

Lemma severs_fail io joined ps m e m' :
  sever_principals io joined ps m = (Err e, m') -> m_serving m' = m_serving m /\ m_store m' = m_store m.
Proof.
  unfold sever_principals, close_refused_peer_conns. simpl. destruct (endpoints_for_principals _ _ _ _); [done|]. by intros [= _ <-].
Qed.

Lemma apply_import_run io token endpoint m r m' :
  apply_import io token endpoint m = (r, m') ->
  m_serving m' = m_serving m /\
  ((exists e, r = Err e) /\ m_store m' = m_store m \/ m_store m' = imported (m_store m) (p_now io) token endpoint) /\
  forall b n, r = Ok (b, n) -> b = true /\ m_store m' = imported (m_store m) (p_now io) token endpoint /\
    exists m1, sever_principals (p_sever io) (p_joined io) [principal endpoint]
        (with_store (imported (m_store m) (p_now io) token endpoint) m) = (Ok n, m1) /\ m_conns m' = m_conns m1.
Proof.
  unfold apply_import. intros H. destruct r as [[b n]|e].
  - verbs_ok. apply revoke_put in H as ->. pose proof (severs_serving _ _ _ _ _ _ H0) as [Hs Hst]. simpl in *.
    split_and!; [done|by right|]. intros b n' [= <- <-]. split_and!; [done..|]. by exists x2.
  - apply verb_bind_Err in H as [H|(u & m1 & H1 & H)]; [apply on_store_Err in H as ->; split_and!; [done|left; eauto|done]|].
    verbs_ok. apply revoke_put in H0 as ->. split_and!; [| |done]; apply verb_bind_Err in H as [H|(n & m2 & Hs & H)].
    all: try (by apply verb_bind_Err in H as [H|(? & ? & _ & H)]).
    all: apply severs_fail in H as [Hs Hst].
    + by rewrite Hs.
    + right. by rewrite Hst.
Qed.

Lemma revoked_entry_Some io s k prior raw :
  revoked_entry io s k = Ok prior -> t_revoked s !! key_bytes k = Some raw ->
  prior = Some (default (unreadable_row k) (revoked_from_slice raw)).
Proof.
  unfold revoked_entry, access. intros H Hr. destruct (io Begin); [done|]. destruct (io REVOKED); [done|].
  simpl in H. rewrite Hr in H. by injection H as <-.
Qed.

Lemma import_checks io line m r m' :
  device_revocation_import io line m = (r, m') ->
  (m' = m /\ forall b n, r = Ok (b, n) -> b = false /\ n = 0) \/
  exists token endpoint, entitled (m_store m) line token endpoint /\ apply_import io token endpoint m = (r, m').
Proof.
  unfold device_revocation_import. rewrite attempt_bind.
  destruct (parse_token line) as [[[[token endpoint] pk] sig]|e] eqn:Hparse; [|by intros [= <- <-]; left].
  rewrite ensure_bind. destruct (is_ok _) eqn:Hsig; [|by intros [= <- <-]; left].
  rewrite !attempt_bind. destruct (list_peers _ _) as [rows|] eqn:Hrows; [|by intros [= <- <-]; left].
  rewrite attempt_bind. destruct (revoked_entry _ _ _) as [prior|] eqn:Hprior; [|by intros [= <- <-]; left].
  cbv zeta. rewrite !ensure_bind. destruct (existsb _ rows) eqn:Hany; [|by intros [= <- <-]; left].
  destruct (find_first _ rows) as [pe|] eqn:Hfind; [|by intros [= <- <-]; left].
  rewrite bool_decide_true by done. case_bool_decide as Htheirs; [|by intros [= <- <-]; left].
  apply find_first_Some in Hfind as [Hin Hpe%bool_decide_eq_true]. apply (elem_of_list_peers _ _ _ _ Hrows) in Hin as [k Hk].
  apply is_ok_true in Hsig as [[] Hsig]. pose proof Hparse as (raw & _ & _ & _ & Huid & _)%parse_token_Ok.
  assert (Hent : forall P : Prop, (prior ≫= re_issued_at = None \/ exists p, prior ≫= re_issued_at = Some p /\ (p < tk_issued_at token)%Z) ->
      (entitled (m_store m) line token endpoint -> P) -> P).
  { intros P Hnew HP. apply HP. split; [by exists pk, sig|by exists k, pe|]. intros raw' e p Hr He Hp.
    rewrite (revoked_entry_Some _ _ _ _ _ Hprior Hr), He in Hnew. simpl in Hnew.
    rewrite Hp in Hnew. by destruct Hnew as [|(? & [= <-] & ?)]. }
  destruct (prior ≫= re_issued_at) as [p|]; [destruct (Z.leb_spec (tk_issued_at token) p)|].
  - intros [= <- <-]. left. split; [done|]. by intros b n [= <- <-].
  - intros Hrun. right. exists token, endpoint. split; [|done]. apply Hent; [right; by exists p|done].
  - intros Hrun. right. exists token, endpoint. split; [|done]. apply Hent; [by left|done].
Qed.

(** A signed revocation has an effect only when it is entitled to one.  Whatever comes
    out of an import, either the store is untouched and the answer, if any, is that it was
    not applied; or the token's signature verifies under the key its user id names, this
    node's own row of the device carries that same user id, and any earlier signed
    statement about the device is older; and then only the revocation row of that one
    device changed.  When it is reported applied, no gate resolves the device and every
    tracked connection of it is closed. *)
Theorem revocation_import_sound io line m r m' :
  device_revocation_import io line m = (r, m') ->
  m_serving m' = m_serving m /\
  (m_store m' = m_store m /\ (forall b n, r = Ok (b, n) -> b = false /\ n = 0) \/
   exists token endpoint, entitled (m_store m) line token endpoint /\
     m_store m' = imported (m_store m) (p_now io) token endpoint /\
     (forall b n, r = Ok (b, n) -> b = true /\
        (forall io' now gate, composed_resolve io' now {| Gate.c_roster := gate; c_pairs := m_store m' |} endpoint = None) /\
        forall id t, reg_inner (k_registry (m_conns m)) !! id = Some t -> t_endpoint_id t = endpoint -> t_conn t ∈ k_closed (m_conns m'))).
Proof.
  intros [[-> Hb]|(token & endpoint & Hent & Hrun)]%import_checks; [eauto|].
  apply apply_import_run in Hrun as (Hs & Hst & Hok). split; [done|].
  destruct Hst as [[[e ->] Hst]|Hst]; [by left|right]. exists token, endpoint. split_and!; [done..|].
  intros b n Hr. destruct (Hok b n Hr) as (-> & _ & m1 & Hsev & Hc). split_and!; [done| |].
  - intros io' now gate. apply revoked_unresolved. rewrite Hst. simpl. by rewrite lookup_insert_eq.
  - rewrite Hc. intros id t Ht He. apply (severs_named _ _ _ _ _ _ Hsev id t Ht).
    exists (principal endpoint). split; [by left|]. right. destruct (en_owner _ _ _ _ Hent) as (k & pe & Hrow & Hpe & _).
    exists k, pe. split_and!; [exact Hrow|congruence|left; congruence].
Qed.

(** *** A revocation from signing to effect *)
Lemma sever_healthy joined ps m : exists n m', sever_principals Allowlist.healthy joined ps m = (Ok n, m').
Proof.
  unfold sever_principals, close_refused_peer_conns. cbn [snd fst m_store m_roster m_conns with_conns].
  assert (Hall : exists all, endpoints_for_principals Allowlist.healthy (m_store m) (m_roster m) ps = Ok all).
  { induction ps as [|p ps [all IH]] using rev_ind; [by eexists|]. unfold endpoints_for_principals in *.
    rewrite foldl_app, IH. cbn [foldl]. by eexists. }
  destruct Hall as [all ->]. by eexists _, _.
Qed.

Lemma device_revoke_Ok io adopted key endpoint reason m line m' :
  device_revoke io adopted (Ok key) endpoint reason m = (Ok line, m') ->
  exists id, endpoint = principal id /\ adopted = false /\
    line = encode_token {| tk_user_id := user_id key; tk_endpoint := endpoint; tk_issued_at := p_now io;
             tk_sig := encode_b64u (sign_device_revocation key id (p_now io)); tk_reason := reason |} /\
    m_store m' = set_revoked (<[key_bytes id := revoked_to_vec (signed_entry id (p_now io) reason (user_id key) (p_now io))]>
                   (t_revoked (m_store m))) (m_store m) /\
    m_serving m' = m_serving m.
Proof.
  unfold device_revoke. destruct (principal_to_endpoint endpoint) as [id|] eqn:Hid; [|done]. intros H. verbs_ok.
  apply principal_to_endpoint_spec in Hid as ->. injection H0 as <-. apply negb_true_iff in H. apply revoke_put in H1 as ->.
  apply severs_serving in H2 as [Hs Hst]. by exists id.
Qed.

(** An entitled token is applied when no access fails. *)
Lemma import_applies now ts line token endpoint pk sig k pe m :
  parse_token line = Ok (token, endpoint, pk, sig) ->
  verify_device_revocation pk endpoint (tk_issued_at token) sig = Ok tt ->
  row (m_store m) k pe -> store_keyed (m_store m) -> pe_endpoint_id pe = endpoint -> pe_user_id pe = Some (tk_user_id token) ->
  (forall raw e prior, t_revoked (m_store m) !! key_bytes endpoint = Some raw -> revoked_from_slice raw = Some e ->
     re_issued_at e = Some prior -> (prior < tk_issued_at token)%Z) ->
  exists severed m', device_revocation_import (no_peer_faults now ts) line m = (Ok (true, severed), m') /\
    m_store m' = imported (m_store m) now token endpoint.
Proof.
  intros Hparse Hsig Hrow Hkeyed Hpe Huser Hnew. unfold device_revocation_import.
  rewrite attempt_bind, Hparse, ensure_bind, Hsig. simpl is_ok. cbv iota. rewrite attempt_bind.
  destruct (list_peers _ (m_store m)) as [rows|e] eqn:Hrows; [|done].
  assert (Hin : pe ∈ rows) by (apply (elem_of_list_peers _ _ _ _ Hrows); eauto).
  rewrite attempt_bind. destruct (revoked_entry _ _ _) as [prior|e] eqn:Hprior.
  2: { exfalso. revert Hprior. unfold revoked_entry. simpl. by destruct (t_revoked _ !! _). }
  cbv zeta. rewrite !ensure_bind.
  assert (Hany : existsb (fun e => bool_decide (pe_user_id e = Some (tk_user_id token))) rows = true).
  { apply existsb_elem. exists pe. split; [done|]. by apply bool_decide_eq_true. }
  rewrite Hany. destruct (find_first _ rows) as [pe'|] eqn:Hfind.
  2: { apply find_first_None in Hfind. rewrite Forall_forall in Hfind. specialize (Hfind pe Hin).
       apply bool_decide_eq_false in Hfind. done. }
  apply find_first_Some in Hfind as [Hin' Hpe'%bool_decide_eq_true].
  apply (elem_of_list_peers _ _ _ _ Hrows) in Hin' as [k' Hk'].
  assert (pe' = pe) as ->.
  { assert (k' = k) as ->; [|by eapply row_fun]. destruct Hrow as (raw & Hr & Hp), Hk' as (raw' & Hr' & Hp').
    rewrite (Hkeyed _ _ _ Hr' Hp'), (Hkeyed _ _ _ Hr Hp). congruence. }
  rewrite !bool_decide_true by done. 
  assert (Happly : exists severed m', apply_import (no_peer_faults now ts) token endpoint m = (Ok (true, severed), m') /\
    m_store m' = imported (m_store m) now token endpoint).
  { destruct (sever_healthy true [principal endpoint] (with_store (imported (m_store m) now token endpoint) m)) as (n & m1 & Hs).
    exists n. eexists. split.
    - unfold apply_import. apply verb_bind_Ok. eexists tt, _. split; [apply on_store_Ok; by eexists|].
      apply verb_bind_Ok. exists n, m1. split; [exact Hs|]. apply verb_bind_Ok. by eexists tt, _.
    - simpl. by apply severs_serving in Hs as [_ ->]. }
  destruct (prior ≫= re_issued_at) as [p|] eqn:Hp; [|done]. destruct (Z.leb_spec (tk_issued_at token) p); [|done]. exfalso.
  destruct (t_revoked (m_store m) !! key_bytes endpoint) as [raw|] eqn:Hr.
  - rewrite (revoked_entry_Some _ _ _ _ _ Hprior Hr) in Hp. simpl in Hp. destruct (revoked_from_slice raw) as [e|] eqn:He; [|done].
    specialize (Hnew raw e p eq_refl He Hp). lia.
  - revert Hprior. unfold revoked_entry. simpl. rewrite Hr. by intros [= <-].
Qed.

(** C19: a revocation reaches those it is for: the line [device_revoke] prints for a device,
    imported by any node that holds a row of the device under the signer's user id and no
    statement about it at least as new, is applied there, and no gate of that node
    resolves the device again; nor does one of the signing node. *)
Theorem revocation_delivered io adopted key id reason ma line ma' mb now ts k pe :
  device_revoke io adopted (Ok key) (principal id) reason ma = (Ok line, ma') -> trimmed line = line ->
  row (m_store mb) k pe -> store_keyed (m_store mb) -> pe_endpoint_id pe = id -> pe_user_id pe = Some (user_id key) ->
  (forall raw e prior, t_revoked (m_store mb) !! key_bytes id = Some raw -> revoked_from_slice raw = Some e ->
     re_issued_at e = Some prior -> (prior < p_now io)%Z) ->
  (forall io' now gate, composed_resolve io' now {| Gate.c_roster := gate; c_pairs := m_store ma' |} id = None) /\
  exists severed mb', device_revocation_import (no_peer_faults now ts) line mb = (Ok (true, severed), mb') /\
    forall io' now gate, composed_resolve io' now {| Gate.c_roster := gate; c_pairs := m_store mb' |} id = None.
Proof.
  intros Hrev Htrim Hrow Hkeyed Hpe Huser Hnew.
  apply device_revoke_Ok in Hrev as (id' & <-%(inj principal) & -> & Hline & Hst & _). split.
  { intros io' now' gate. apply revoked_unresolved. rewrite Hst. simpl. by rewrite lookup_insert_eq. }
  set (token := {| tk_user_id := user_id key; tk_endpoint := principal id; tk_issued_at := p_now io;
             tk_sig := encode_b64u (sign_device_revocation key id (p_now io)); tk_reason := reason |}) in Hline.
  assert (Hparse : parse_token line = Ok (token, id, vk_to_bytes (verifying_key key), sign_device_revocation key id (p_now io))).
  { apply parse_token_Ok. exists (token_to_vec token). rewrite Htrim, Hline, token_from_to. split_and!; [done..|].
    apply decode_encode_b64u. }
  destruct (import_applies now ts _ _ _ _ _ _ _ _ Hparse (verify_slice_sign _ _) Hrow Hkeyed Hpe Huser Hnew) as (n & mb' & Hrun & Hst').
  exists n, mb'. split; [done|]. intros io' now' gate. apply revoked_unresolved. rewrite Hst'. simpl. by rewrite lookup_insert_eq.
Qed.

(** *** Lifting *)
Lemma filter_ext_in {A} (P Q : A -> Prop) `{!forall x, Decision (P x), !forall x, Decision (Q x)} (l : list A) :
  (forall x, x ∈ l -> P x <-> Q x) -> filter P l = filter Q l.
Proof.
  induction l as [|x l IH]; intros HPQ; [done|]. rewrite !filter_cons. rewrite IH by set_solver.
  pose proof (HPQ x ltac:(set_solver)). by repeat case_decide; tauto.
Qed.

Lemma lift_all_Ok io ids m lifted m' :
  NoDup ids -> lift_all io ids m = (Ok lifted, m') ->
  lifted = principal <$> filter (fun id => is_Some (t_revoked (m_store m) !! key_bytes id)) ids /\
  m' = with_store (set_revoked (t_revoked (m_store m')) (m_store m)) m /\
  forall id, t_revoked (m_store m') !! key_bytes id = if decide (id ∈ ids) then None else t_revoked (m_store m) !! key_bytes id.
Proof.
  revert m lifted. induction ids as [|id ids IH]; intros m lifted Hnd H; simpl in H; verbs_ok.
  - split_and!; [done|by destruct m' as [? [] ? ? ?]|]. intros id. by rewrite decide_False by apply not_elem_of_nil.
  - apply NoDup_cons in Hnd as [Hn Hnd]. destruct (unrevoke (p_at io id) (m_store m) id) as [[was s]|] eqn:Hu; [|done].
    injection H as <- <-. unfold unrevoke in Hu. inv_result. apply (IH _ _ Hnd) in H0 as (-> & Hm & Hr). simpl in *. split_and!.
    + rewrite filter_cons. assert (Hf : filter (fun id' => is_Some (delete (key_bytes id) (t_revoked (m_store m)) !! key_bytes id')) ids =
        filter (fun id' => is_Some (t_revoked (m_store m) !! key_bytes id')) ids).
      { apply filter_ext_in. intros id' Hin. rewrite lookup_delete_ne; [done|]. intros ->%(inj key_bytes). done. }
      rewrite Hf. case_bool_decide; case_decide; done.
    + by rewrite Hm.
    + intros id'. rewrite Hr. destruct (decide (id' = id)) as [->|Hne].
      * rewrite (decide_False (P := id ∈ ids)), decide_True by set_solver. apply lookup_delete_eq.
      * rewrite lookup_delete_ne by (intros ?%(inj key_bytes); congruence).
        destruct (decide (id' ∈ ids)); [rewrite decide_True by set_solver|rewrite decide_False by set_solver]; done.
Qed.

(** Lifting removes the revocations of exactly the devices named, and of the identity, and
    reports and records those devices that had one; pairings, services and connections
    stay. *)
Lemma peer_unrevoke_spec io peer m lifted m' :
  peer_unrevoke io peer m = (Ok lifted, m') ->
  exists targets, named_targets (p_list io) peer m = (Ok targets, m) /\
    lifted = principal <$> filter (fun id => is_Some (t_revoked (m_store m) !! key_bytes id)) targets /\
    (forall id, t_revoked (m_store m') !! key_bytes id = if decide (id ∈ targets) then None else t_revoked (m_store m) !! key_bytes id) /\
    t_revoked_users (m_store m') = (if starts_with "b64u:" peer then delete peer else id) (t_revoked_users (m_store m)) /\
    t_peers (m_store m') = t_peers (m_store m) /\ m_serving m' = m_serving m /\ m_conns m' = m_conns m /\
    m_audit m' = m_audit m ++ ((fun p => trust_record (p_ts io) "peer_unrevoke" (Some peer) (Some p)) <$> lifted).
Proof.
  unfold peer_unrevoke. intros H. verbs_ok. pose proof H as Hnt. apply named_targets_Ok in Hnt as [-> _].
  assert (Hnd : NoDup x).
  { unfold named_targets in H. verbs_ok. case_bool_decide; [|apply NoDup_elements].
    destruct (principal_to_endpoint peer); [apply NoDup_singleton|apply NoDup_nil_2]. }
  assert (Hid : x2 = with_store (set_revoked_users ((if starts_with "b64u:" peer then delete peer else id) (t_revoked_users (m_store m))) (m_store m)) m).
  { clear -H0. unfold identity_of_peer in H0. destruct (starts_with "b64u:" peer); verbs_ok; [|by destruct x2 as [? [] ? ? ?]].
    unfold unrevoke_user in H. by inv_result. }
  apply (lift_all_Ok _ _ _ _ _ Hnd) in H1 as (-> & Hm & Hr). apply audits_Ok in H2 as (Hs & Hst & _ & Hc & Ha). subst x2.
  exists x. rewrite Hst, Hs, Hc, Ha. rewrite Hm. simpl. split_and!; try done.
Qed.

(** Lifting a person none of whose devices is itself revoked leaves no trace in the log. *)
Lemma identity_lift_unaudited io peer m lifted m' :
  peer_unrevoke io peer m = (Ok lifted, m') -> starts_with "b64u:" peer = true -> t_revoked (m_store m) = ∅ ->
  lifted = [] /\ m_audit m' = m_audit m /\ t_revoked_users (m_store m') !! peer = None.
Proof.
  intros H Hb He. apply peer_unrevoke_spec in H as (targets & _ & -> & _ & Hu & _ & _ & _ & ->). rewrite Hu, Hb, He.
  assert (filter (fun id => is_Some ((∅ : gmap bytes bytes) !! key_bytes id)) targets = []) as ->.
  { induction targets as [|id l IH]; [done|]. rewrite filter_cons, lookup_empty, decide_False; [done|]. by intros []. }
  simpl. rewrite app_nil_r. split_and!; [done..|]. apply lookup_delete_eq.
Qed.
End revoke.


(** ** Removal as a whole *)
Section unpaired.
Context `{H : HashOrder, T : TextEncoding, R : RowCodec, C : TomlCodec, CL : !TomlCodecLaws C, SC : ScopeCodec}.

(** Removing a peer that succeeds leaves no readable row of that name and every other
    row, every revocation as it was, a configuration and live registry that admit what they
    did less what the unpairing strips (each device's principal, and the person's unless
    another paired device of theirs is left), and the blob scopes less the principals that
    name no one else. *)
Theorem remove_peer_spec vio io blob_fault nickname n u n' p rows :
  represents (m_serving (pn_mesh n)) p -> list_peers (v_store vio) (m_store (pn_mesh n)) = Ok rows ->
  remove_peer vio io blob_fault nickname n = (Ok u, n') ->
  represents (m_serving (pn_mesh n')) (verb_spec (VUnpair nickname) rows p) /\
  (forall k e, row (m_store (pn_mesh n')) k e <-> row (m_store (pn_mesh n)) k e /\ pe_nickname e <> nickname) /\
  t_revoked (m_store (pn_mesh n')) = t_revoked (m_store (pn_mesh n)) /\
  t_revoked_users (m_store (pn_mesh n')) = t_revoked_users (m_store (pn_mesh n)) /\
  pn_blobs n' = (match pn_blobs n with
                 | Some scopes => if bool_decide (blob_principals nickname rows = []) then Some scopes
                                  else Some (store_revoke_principals blob_fault (blob_principals nickname rows) scopes).2
                 | None => None
                 end).
Proof.
  intros Hrep Hrows Hrun. unfold remove_peer in Hrun.
  destruct (revoke_service_access vio nickname (pn_mesh n)) as [[revoked|e] m1] eqn:Hra; [|done].
  assert (Hv : run_verb vio (VUnpair nickname) (pn_mesh n) = (Ok tt, m1)) by (simpl; unfold mbind, verb_bind; by rewrite Hra).
  destruct (unpair_refines _ _ _ _ _ Hrep Hv) as [Hrep1 Hst]. rewrite Hrows in Hrep1. simpl in Hrep1.
  destruct (strip_blobs io blob_fault nickname {| pn_mesh := m1; pn_blobs := pn_blobs n |}) as [[[]|e] n1] eqn:Hsb; [|done].
  assert (Hn1 : pn_mesh n1 = m1 /\ pn_blobs n1 = match pn_blobs n with
      | Some scopes => if bool_decide (blob_principals nickname rows = []) then Some scopes
                       else Some (store_revoke_principals blob_fault (blob_principals nickname rows) scopes).2
      | None => None end).
  { clear -Hsb Hrows Hst. unfold strip_blobs in Hsb. simpl in Hsb. destruct (pn_blobs n) as [scopes|]; [|by injection Hsb as <-].
    rewrite Hst in Hsb. destruct (list_peers (p_list io) _) as [rows'|] eqn:Hr'; [|done].
    assert (rows' = rows) as ->.
    { unfold list_peers in Hrows, Hr'. inv_result. done. }
    case_bool_decide; by injection Hsb as <-. }
  destruct Hn1 as [Hm Hb]. rewrite Hm in Hrun. destruct (drop_rows io nickname revoked m1) as [r m2] eqn:Hd. injection Hrun as -> <-.
  unfold drop_rows in Hd. destruct (remove (p_write io) (m_store m1) nickname) as [[removed s]|] eqn:Hrm; [|done].
  destruct (negb revoked && negb removed); [done|]. injection Hd as _ <-.
  apply remove_spec in Hrm as (Hk & _ & Hr & Hu). rewrite Hst in Hk, Hr, Hu. simpl. split_and!; try done.
  intros k e. unfold row. setoid_rewrite Hk. unfold row_named. split.
  - intros (raw & [? Hn] & He). split; [eauto|]. rewrite He in Hn. by apply bool_decide_eq_false in Hn.
  - intros [(raw & ? & He) Hn]. exists raw. rewrite He. split_and!; [done| |done]. by apply bool_decide_eq_false.
Qed.
End unpaired.

(** ** Concrete codecs *)
Module ToyPeers.
Import Toy ToyRows.

#[export] Instance endpoint_text : EndpointText := {| endpoint_from_str s := try_key32 (as_bytes s) |}.

Definition token_to (t : RevocationToken) : Value :=
  VArray [VString (tk_user_id t); VString (tk_endpoint t); int_to (tk_issued_at t); VString (tk_sig t); opt_to VString (tk_reason t)].
Definition token_of (v : Value) : option RevocationToken :=
  match v with
  | VArray [VString u; VString e; t; VString s; r] =>
      t ← int_of t; r ← opt_of as_str r;
      Some {| tk_user_id := u; tk_endpoint := e; tk_issued_at := t; tk_sig := s; tk_reason := r |}
  | _ => None
  end.
#[export] Instance token_codec : TokenCodec := {|
  token_to_vec t := print (token_to t); token_from_slice := slice token_of |}.
#[export] Instance token_codec_laws : TokenCodecLaws token_codec.
Proof.
  split. intros t. transitivity (token_of (token_to t)); [apply slice_print|]. by destruct t as [u e i s []].
Qed.
End ToyPeers.

(** ** Witnesses *)
Module Witness.
Import Toy ToyRows ToyPeers Config.ToyToml Limits.Witness.

Definition alice : SigningKey := key_fill Byte.x41.
Definition carol : SigningKey := key_fill Byte.x43.
Definition phone : key32 := key_fill Byte.x50.
Definition laptop : key32 := key_fill Byte.x51.
Definition me : key32 := key_fill Byte.x52.
Definition io : PeerIo := no_peer_faults 1000 "now".

(** Alice's phone is paired here. *)
Definition phone_row : PeerEntry :=
  {| pe_endpoint_id := phone; pe_nickname := "phone"; pe_services := []; pe_paired_at := Some "then"%string;
     pe_user_id := Some (user_id alice); pe_last_addr := None |}.
Definition with_peers (rows : list PeerEntry) (m : MeshState) : MeshState :=
  with_store (set_peers (list_to_map ((fun e => (key_bytes (pe_endpoint_id e), peer_to_vec e)) <$> rows)) (m_store m)) m.
Definition m1 : MeshState := with_peers [phone_row] Grants.Witness.m0.

Lemma row_of_one e m : row (m_store (with_peers [e] m)) (key_bytes (pe_endpoint_id e)) e.
Proof. exists (peer_to_vec e). split; [|apply peer_from_to]. simpl. apply lookup_insert_eq. Qed.
Lemma one_keyed e m : store_keyed (m_store (with_peers [e] m)).
Proof.
  intros k raw pe Hk Hp.
  change (t_peers (m_store (with_peers [e] m))) with ({[key_bytes (pe_endpoint_id e) := peer_to_vec e]} : gmap bytes bytes) in Hk.
  apply lookup_singleton_Some in Hk as [<- <-].
  rewrite peer_from_to in Hp. by injection Hp as <-.
Qed.
Lemma run_ok {A} (v : Verb A) m : is_ok (v m).1 = true -> exists a, v m = (Ok a, (v m).2).
Proof. destruct (v m) as [[a|e] m']; [by exists a|done]. Qed.

(** Alice introduces her laptop by name, without a user id. *)
Definition evidence : string := encode_b64u (sign_introduction alice laptop None).
Definition intro : PeerIntroduceParams :=
  {| in_subject := "eid:" +:+ from_bytes (key_bytes laptop); in_endorsed_by := user_id alice;
     in_evidence := evidence; in_subject_user_id := None; in_subject_binding := None; in_nickname := "laptop" |}.

Lemma introduced_ok : is_ok (introduce_peer me io intro m1).1 = true.
Proof. vm_compute. reflexivity. Qed.
Lemma introduced_only_vouched_witness : exists e,
  vouched me io intro (m_store m1) e /\ pe_paired_at e = None /\ pe_services e = [] /\
  m_conns (introduce_peer me io intro m1).2 = m_conns m1.
Proof.
  destruct (run_ok _ _ introduced_ok) as [u Hu].
  destruct (introduced_only_vouched me io intro m1 _ _ Hu) as (e & Hv & _ & _ & Hc & _).
  exists e. split; [exact Hv|]. destruct (vo_entry _ _ _ _ _ Hv) as (Hs & Hp & _). split; [exact Hp|]. split; [exact Hs|exact Hc].
Defined.

(** The same after Alice's identity was revoked here. *)
Lemma revoked_endorser_heard :
  let m := with_store (set_revoked_users {[user_id alice := []]} (m_store m1)) m1 in
  is_user_revoked Allowlist.healthy (m_store m) (in_endorsed_by intro) = true /\
  is_ok (introduce_peer me io intro m).1 = true.
Proof. split; vm_compute; reflexivity. Qed.

Lemma renamed_ok : is_ok (rename_peer io None (Some "phone"%string) " alice " m1).1 = true.
Proof. vm_compute. reflexivity. Qed.
Lemma rename_peer_spec_witness :
  row (m_store (rename_peer io None (Some "phone"%string) " alice " m1).2) (key_bytes phone) (with_nickname "alice" phone_row).
Proof.
  destruct (run_ok _ _ renamed_ok) as [u Hu].
  destruct (rename_peer_spec io None (Some "phone"%string) " alice " m1 u _ (one_keyed _ _) Hu) as [Hrow _].
  apply Hrow. exists phone_row. split; [apply row_of_one|]. vm_compute. reflexivity.
Defined.

Lemma revoke_ok : is_ok (peer_revoke io "phone" None m1).1 = true.
Proof. vm_compute. reflexivity. Qed.
Lemma peer_revoke_takes_effect_witness : exists m',
  composed_resolve Allowlist.healthy 0%Z {| Gate.c_roster := empty_gate; c_pairs := m_store m' |} phone = None /\
  t_peers (m_store m') = t_peers (m_store m1).
Proof.
  destruct (run_ok _ _ revoke_ok) as [[revoked severed] Hu]. exists (peer_revoke io "phone" None m1).2.
  destruct (peer_revoke_takes_effect io "phone" None m1 revoked severed _ Hu) as (targets & _ & _ & Hn & Hr & _ & Hp & _).
  split; [|exact Hp]. apply Hr. apply (Hn (key_bytes phone) phone_row); [apply row_of_one|left; reflexivity].
Defined.

(** Alice, on another node, revokes her phone; this node imports her line. *)
Definition m_alice : MeshState := Grants.Witness.m0.
Definition line : string :=
  match (device_revoke io false (Ok alice) (principal phone) None m_alice).1 with Ok l => l | Err _ => "" end.
Lemma line_ok : is_ok (device_revoke io false (Ok alice) (principal phone) None m_alice).1 = true.
Proof. vm_compute. reflexivity. Qed.
Lemma line_run : device_revoke io false (Ok alice) (principal phone) None m_alice =
  (Ok line, (device_revoke io false (Ok alice) (principal phone) None m_alice).2).
Proof. destruct (run_ok _ _ line_ok) as [l Hl]. unfold line. by rewrite Hl. Qed.
Lemma line_trimmed : trimmed line = line.
Proof. vm_compute. reflexivity. Qed.
Lemma revocation_delivered_witness : exists severed m',
  device_revocation_import (no_peer_faults 2000 "later") line m1 = (Ok (true, severed), m') /\
  composed_resolve Allowlist.healthy 0%Z {| Gate.c_roster := empty_gate; c_pairs := m_store m' |} phone = None.
Proof.
  destruct (revocation_delivered io false alice phone None m_alice line _ m1 2000 "later" (key_bytes phone) phone_row
    line_run line_trimmed (row_of_one _ _) (one_keyed _ _) eq_refl eq_refl) as (_ & n & m' & Hrun & Hr).
  - intros raw e prior Hk. change (t_revoked (m_store m1)) with (∅ : gmap bytes bytes) in Hk. by rewrite lookup_empty in Hk.
  - exists n, m'. split; [exact Hrun|apply Hr].
Defined.

Lemma imported_ok : is_ok (device_revocation_import io line m1).1 = true.
Proof. vm_compute. reflexivity. Qed.
Lemma revocation_import_sound_witness : m_serving (device_revocation_import io line m1).2 = m_serving m1.
Proof.
  destruct (run_ok _ _ imported_ok) as [r Hr].
  destruct (revocation_import_sound io line m1 _ _ Hr) as [Hs _]. exact Hs.
Defined.

(** Unpairing the phone. *)
Definition n1 : PeerNode := {| pn_mesh := m1; pn_blobs := None |}.
Lemma removed_ok : is_ok (remove_peer (SC := Scope.Witness.scope_codec) no_faults io false "phone" n1).1 = true.
Proof. vm_compute. reflexivity. Qed.
Lemma remove_peer_spec_witness : exists n',
  remove_peer (SC := Scope.Witness.scope_codec) no_faults io false "phone" n1 = (Ok tt, n') /\
  ~ row (m_store (pn_mesh n')) (key_bytes phone) phone_row.
Proof.
  destruct (remove_peer (SC := Scope.Witness.scope_codec) no_faults io false "phone" n1) as [[[]|e] n'] eqn:Hrun.
  - exists n'. split; [reflexivity|]. destruct (list_peers Allowlist.healthy (m_store m1)) as [rows|e] eqn:Hl; [|discriminate Hl].
    destruct (remove_peer_spec (SC := Scope.Witness.scope_codec) no_faults io false "phone" n1 tt n' Grants.Witness.p0 rows
      Grants.Witness.represents0 Hl Hrun) as (_ & Hrow & _).
    intros [_ Hn]%Hrow. by apply Hn.
  - exfalso. pose proof removed_ok as Hok. rewrite Hrun in Hok. discriminate Hok.
Defined.

(** A rename takes a name that every other way of naming a peer refuses. *)
Lemma rename_unvalidated :
  is_ok (rename_peer io None (Some "phone"%string) "alice/notes" m1).1 = true /\
  is_ok (validated_alias "to" (Some "alice/notes"%string)) = false.
Proof. split; vm_compute; reflexivity. Qed.
End Witness.
