(* ===== verification/Dial.v ===== *)
(** * Dialling

    [node/src/daemon/dial.rs]: from the name of a peer to the addresses that are dialled, the
    staggered race over them, the sources of a blob, and the naming of the service in the first
    frame.  The address hints are [Addrs], the outbound revocation predicate is [Hooks], the
    cache that sits between the plan and the dial is [ConnCache].  Connecting is an argument:
    the race sees the outcomes of its dials and its timer as events. *)
From stdpp Require Import base list gmap strings sorting.
From Stdlib Require Import ZArith Lia Strings.Byte.
From S2P Require Import Prelude Bytes Json Externals Validate Identity Limits Sorting Presence Service Hooks Addrs Mesh Peers Allowlist.

Local Open Scope Z_scope.

Definition MAX_BLOB_SOURCES : nat := 32.
Definition DIAL_TIMEOUT_MS : Z := 20000.
Definition DIAL_STAGGER_MS : Z := 500.

Inductive DialError :=
| BadEid (e : string)
| IdleTooShort (secs keepalive : Z) | IdleUnencodable (secs : Z) (e : string)
| StoreRead (e : string)
| NotInAllowlist (peer : string) | InvalidStoredId (peer : string)
| RevokedPeer (peer : string) | EveryDeviceRevoked
| NoPeer (peer : string)
| TooManySources (n : nat) | NoBlobSource (name : string).

(** The faults of the store reads of one operation. *)
Record DialIo := {
  d_refused : key32 -> Io;
  d_entry : Io;
  d_users : Io;
  d_hint : key32 -> Io }.

(** *** The transport of one session *)
Record TransportConfig := { tc_max_idle : option Z; tc_keep_alive : Z; tc_path_keep_alive : Z }.

(** [encode]: the idle timeout as QUIC encodes it. *)
Definition per_session_transport_config (encode : Z -> result string Z) (secs : option Z) (keepalive_secs : Z) :
    result DialError (option TransportConfig) :=
  let config := fun idle => {| tc_max_idle := idle; tc_keep_alive := keepalive_secs; tc_path_keep_alive := keepalive_secs |} in
  match secs with
  | None => Ok None
  | Some 0 => Ok (Some (config None))
  | Some s =>
      if s <=? keepalive_secs then Err (IdleTooShort s keepalive_secs)
      else idle ← map_err (IdleUnencodable s) (encode s); Ok (Some (config (Some idle)))
  end.

(** *** The order of a person's devices *)
Definition dial_role_rank (role : string) : Z :=
  if decide (role = "primary"%string) then 0 else if decide (role = "mirror"%string) then 1 else 2.

Definition USIZE_MAX : Z := 2 ^ 64 - 1.
Definition recency_rank (by_recency : list key32) (eid : key32) : Z :=
  match position (fun e => bool_decide (e = eid)) by_recency with Some i => Z.of_nat i | None => USIZE_MAX end.

(** The tuple key, role first: the ranks are below [2 ^ 64]. *)
Definition dial_key (by_recency : list key32) (device : key32 * string) : Z :=
  dial_role_rank device.2 * 2 ^ 64 + recency_rank by_recency device.1.

Section dial.
Context `{E : Ed25519, T : TextEncoding, R : RowCodec, A : AddrCodec, H : HashOrder}.

Definition order_dial_candidates (devices : list (key32 * string)) (presence : gmap key32 PresenceEntry) (user_id : string) :
    list key32 :=
  fst <$> sort_by_key (dial_key (endpoints_for_user_by_recency user_id presence)) devices.

Definition dial_refused (io : DialIo) (m : MeshState) (id : key32) : bool :=
  refused_by (d_refused io id) (m_store m) (m_roster m) id.

Definition refuse_if_revoked (io : DialIo) (m : MeshState) (id : key32) (peer : string) : result DialError unit :=
  if dial_refused io m id then Err (RevokedPeer peer) else Ok tt.

(** [EndpointId::from_bytes]. *)
Definition endpoint_id (id : key32) : option key32 := _ ← vk_from_bytes id; Some id.

Definition last_addr_of (io : DialIo) (m : MeshState) (id : key32) : option string :=
  match Allowlist.resolve (d_hint io id) (m_store m) id with
  | Ok (Some e) => pe_last_addr e
  | _ => None
  end.

(** A device with an id that is no key is skipped. *)
Definition hinted_addrs (io : DialIo) (m : MeshState) (candidates : list key32) : result DialError (list EndpointAddr) :=
  let candidates := filter (fun id => dial_refused io m id = false) candidates in
  if decide (candidates = []) then Err EveryDeviceRevoked
  else Ok (omap (fun id => id ← endpoint_id id; Some (stored_dial_addr (last_addr_of io m id) id)) candidates).

(** What a dial of one name comes to: one address with its own transport, or a race. *)
Inductive Plan :=
| Single (addr : EndpointAddr) (transport : option TransportConfig)
| Race (addrs : list EndpointAddr).
Definition plan_addrs (p : Plan) : list EndpointAddr := match p with Single a _ => [a] | Race l => l end.

(** The devices the cache claims, and how long the whole thing may take. *)
Definition plan_peers (p : Plan) : list key32 := ea_id <$> plan_addrs p.
Definition plan_deadline_ms (p : Plan) : Z :=
  match p with
  | Single _ _ => DIAL_TIMEOUT_MS
  | Race addrs => DIAL_TIMEOUT_MS + DIAL_STAGGER_MS * Z.of_nat (length addrs)
  end.

(** [HEXLOWER.decode] and the conversion to 32 bytes. *)
Definition eid_bytes (hex : string) : result DialError key32 :=
  b ← map_err (fun _ => BadEid "invalid eid principal: not lowercase hex") (hexlower_decode hex);
  ok_or (BadEid "invalid eid principal: expected 32 bytes (64 hex chars)") (try_key32 b).

Definition dial_by_eid (io : DialIo) (m : MeshState) (hex : string) (per_conn : option TransportConfig) : result DialError Plan :=
  bytes ← eid_bytes hex;
  id ← ok_or (BadEid "invalid eid principal") (endpoint_id bytes);
  Ok (Single (stored_dial_addr (last_addr_of io m id) id) per_conn).

Definition dial_plan (encode : Z -> result string Z) (keepalive : Z) (io : DialIo) (m : MeshState)
    (presence : gmap key32 PresenceEntry) (peer : string) (idle_timeout_secs : option Z) : result DialError Plan :=
  per_conn ← per_session_transport_config encode idle_timeout_secs keepalive;
  match strip_prefix "eid:" peer with
  | Some hex =>
      _ ← (match eid_bytes hex with Ok id => refuse_if_revoked io m id peer | Err _ => Ok tt end);
      dial_by_eid io m hex per_conn
  | None =>
      let devices := match m_roster m with Some view => devices_for_user view peer | None => [] end in
      if decide (devices <> []) then
        addrs ← hinted_addrs io m (order_dial_candidates devices presence peer); Ok (Race addrs)
      else
        entry ← map_err StoreRead (entry_for (d_entry io) (m_store m) peer);
        by_user ← (match entry with
                   | Some e => Ok [e]
                   | None => map_err StoreRead (entries_for_user (d_users io) (m_store m) peer)
                   end);
        match by_user with
        | [] => Err (NotInAllowlist peer)
        | [e] =>
            _ ← refuse_if_revoked io m (pe_endpoint_id e) peer;
            id ← ok_or (InvalidStoredId peer) (endpoint_id (pe_endpoint_id e));
            Ok (Single (stored_dial_addr (pe_last_addr e) id) per_conn)
        | _ => addrs ← hinted_addrs io m (pe_endpoint_id <$> by_user); Ok (Race addrs)
        end
  end.

(** *** Candidates of a custom protocol, and of a blob *)
Record Candidates := { ca_dialable : list key32; ca_refused : nat }.

Definition dedup (l : list key32) : list key32 := foldl push_unique [] l.

Definition resolve_candidates (io : DialIo) (m : MeshState) (peer : string) : result DialError (list key32) :=
  match strip_prefix "eid:" peer with
  | Some hex => id ← eid_bytes hex; Ok [id]
  | None =>
      let rostered := match m_roster m with Some view => fst <$> devices_for_user view peer | None => [] end in
      entry ← map_err StoreRead (entry_for (d_entry io) (m_store m) peer);
      by_user ← map_err StoreRead (entries_for_user (d_users io) (m_store m) peer);
      Ok (dedup (rostered ++ (pe_endpoint_id <$> option_list entry) ++ (pe_endpoint_id <$> by_user)))
  end.

Definition protocol_candidates (io : DialIo) (m : MeshState) (peer : string) : result DialError Candidates :=
  resolved ← resolve_candidates io m peer;
  let dialable := filter (fun id => dial_refused io m id = false) resolved in
  Ok {| ca_dialable := dialable; ca_refused := length resolved - length dialable |}.

Definition connect_candidates (io : DialIo) (m : MeshState) (peer : string) : result DialError (list key32) :=
  c ← protocol_candidates io m peer;
  if decide (ca_dialable c = []) then Err (if decide (ca_refused c = 0%nat) then NoPeer peer else RevokedPeer peer)
  else Ok (ca_dialable c).

Record BlobSources := { bs_addrs : list EndpointAddr; bs_skipped_revoked : nat }.

(** One device of one source. *)
Definition blob_device (io : DialIo) (m : MeshState) (acc : list key32 * list EndpointAddr) (eid : key32) :
    result DialError (list key32 * list EndpointAddr) :=
  let '(seen, out) := acc in
  if decide (eid ∈ seen) then Ok acc
  else
    match endpoint_id eid with
    | None => Ok (seen ++ [eid], out)
    | Some id =>
        entry ← map_err StoreRead (Allowlist.resolve (d_hint io id) (m_store m) id);
        Ok (seen ++ [eid], out ++ [stored_dial_addr (entry ≫= pe_last_addr) id])
    end.

Definition blob_source (io : DialIo) (m : MeshState) (acc : list key32 * list EndpointAddr * nat) (name : string) :
    result DialError (list key32 * list EndpointAddr * nat) :=
  let '(seen, out, skipped) := acc in
  c ← protocol_candidates io m name;
  if decide (ca_dialable c = [] /\ ca_refused c = 0%nat) then Err (NoBlobSource name)
  else
    so ← fold_result (blob_device io m) (seen, out) (ca_dialable c);
    Ok (so.1, so.2, if decide (ca_dialable c = []) then S skipped else skipped).

Definition blob_source_addrs (io : DialIo) (m : MeshState) (from : list string) : result DialError BlobSources :=
  if (MAX_BLOB_SOURCES <? length from)%nat then Err (TooManySources (length from))
  else
    x ← fold_result (blob_source io m) ([], [], 0%nat) from;
    Ok {| bs_addrs := x.1.2; bs_skipped_revoked := x.2 |}.
End dial.

(** ** The race *)

(** A dial ended, or the stagger's timer did. *)
Inductive RaceEvent (C : Type) := Joined (i : nat) (r : result string C) | Elapsed.
Arguments Joined {C}. Arguments Elapsed {C}.

(** The next candidate to launch, the dials in flight, the last failure. *)
Record RaceState := { rc_next : nat; rc_flight : list nat; rc_last : option string }.

Definition launch (s : RaceState) : RaceState :=
  {| rc_next := S (rc_next s); rc_flight := rc_flight s ++ [rc_next s]; rc_last := rc_last s |}.
Definition failed (i : nat) (e : string) (s : RaceState) : RaceState :=
  {| rc_next := rc_next s; rc_flight := filter (fun j => j <> i) (rc_flight s); rc_last := Some e |}.

(** [join_next] of an empty set answers at once: the next candidate goes, or the race is lost. *)
Definition refill {C} (n : nat) (s : RaceState) : RaceState + result string C :=
  if decide (rc_flight s = []) then
    if (rc_next s <? n)%nat then inl (launch s) else inr (Err (default "all dial candidates failed"%string (rc_last s)))
  else inl s.

(** The timer only runs while a candidate waits; an event of no dial in flight is no event. *)
Definition race_step {C} (n : nat) (s : RaceState) (e : RaceEvent C) : RaceState + result string C :=
  match e with
  | Joined i (Ok c) => if decide (i ∈ rc_flight s) then inr (Ok c) else inl s
  | Joined i (Err x) => if decide (i ∈ rc_flight s) then refill n (failed i x s) else inl s
  | Elapsed => if (rc_next s <? n)%nat then inl (launch s) else inl s
  end.

Fixpoint race_run {C} (n : nat) (s : RaceState) (events : list (RaceEvent C)) : RaceState + result string C :=
  match events with
  | [] => inl s
  | e :: events => match race_step n s e with inl s => race_run n s events | done => done end
  end.

Definition race_start : RaceState := {| rc_next := 1; rc_flight := [0%nat]; rc_last := None |}.
Definition race_dial {C} (candidates : list EndpointAddr) (events : list (RaceEvent C)) : RaceState + result string C :=
  match candidates with
  | [] => inr (Err "no dial candidates to race"%string)
  | _ => race_run (length candidates) race_start events
  end.

(** ** The service's name in the first frame *)
Definition object_of (v : option Value) : Map := match v with Some (VObject m) => m | _ => [] end.

Definition name_service (service : string) (meta : Map) : Map :=
  foldl (fun m key => map_insert key (VString service) m) meta SERVICE_KEYS.

(** A missing or non-object [params] or [_meta] is replaced by an object. *)
Definition inject_service (frame : Value) (service : string) : Value :=
  match frame with
  | VObject top =>
      let params := object_of (map_get "params" top) in
      let meta := object_of (map_get "_meta" params) in
      VObject (map_insert "params" (VObject (map_insert "_meta" (VObject (name_service service meta)) params)) top)
  | _ => frame
  end.

(** ** Lemmas *)
Lemma elem_of_dedup (l : list key32) x : x ∈ dedup l <-> x ∈ l.
Proof. unfold dedup. rewrite elem_of_fold_push_unique. split; [by intros [?%not_elem_of_nil|]|by right]. Qed.

Lemma dedup_nodup (l : list key32) : NoDup (dedup l).
Proof.
  unfold dedup. assert (Hg : forall acc : list key32, NoDup acc -> NoDup (foldl push_unique acc l)); [|apply Hg; constructor].
  induction l as [|x l IH]; intros acc Hacc; simpl; [done|]. apply IH. unfold push_unique. case_decide; [done|].
  apply NoDup_app. split_and!; [done| |apply NoDup_singleton]. intros y Hy Hin%list_elem_of_singleton. by subst.
Qed.

Lemma stored_dial_id `{A : AddrCodec} hint id : ea_id (stored_dial_addr hint id) = id.
Proof. unfold stored_dial_addr. destruct (hint ≫= addr_from_str) as [a|]; [case_decide; [done|]|]; done. Qed.

Lemma stored_dial_dialable `{A : AddrCodec} hint id t : t ∈ ea_addrs (stored_dial_addr hint id) -> is_dialable_addr t = true.
Proof.
  unfold stored_dial_addr. destruct (hint ≫= addr_from_str) as [a|]; [case_decide|]; try by intros ?%not_elem_of_nil.
  by intros [_ ?]%elem_of_dialable_only.
Qed.

Lemma recency_rank_range l eid : Z.of_nat (length l) < 2 ^ 64 -> 0 <= recency_rank l eid < 2 ^ 64.
Proof.
  intros Hl. unfold recency_rank, USIZE_MAX. destruct (position _ l) as [i|] eqn:Hp; [|lia].
  apply position_Some in Hp as (x & Hx & _). apply lookup_lt_Some in Hx. lia.
Qed.

(** The key orders as the tuple does. *)
Lemma dial_key_le l a b :
  Z.of_nat (length l) < 2 ^ 64 -> dial_key l a <= dial_key l b <->
  dial_role_rank a.2 < dial_role_rank b.2 \/
  dial_role_rank a.2 = dial_role_rank b.2 /\ recency_rank l a.1 <= recency_rank l b.1.
Proof.
  intros Hl. unfold dial_key. pose proof (recency_rank_range l a.1 Hl). pose proof (recency_rank_range l b.1 Hl). nia.
Qed.

Section lemmas.
Context `{E : Ed25519, T : TextEncoding, R : RowCodec, A : AddrCodec, H : HashOrder}.

Lemma endpoint_id_Some k id : endpoint_id k = Some id <-> id = k /\ is_Some (vk_from_bytes k).
Proof. unfold endpoint_id. destruct (vk_from_bytes k) as [vk|]; simpl; [|split; [done|by intros [_ [? [=]]]]].
  split; [intros [= ->]; eauto|by intros [-> _]]. Qed.

(** What a race is over: the candidates left, in order. *)
Lemma hinted_addrs_Ok io m l addrs :
  hinted_addrs io m l = Ok addrs ->
  filter (fun id => dial_refused io m id = false) l <> [] /\
  ea_id <$> addrs = filter (fun id => is_Some (vk_from_bytes id)) (filter (fun id => dial_refused io m id = false) l) /\
  forall a t, a ∈ addrs -> t ∈ ea_addrs a -> is_dialable_addr t = true.
Proof.
  unfold hinted_addrs. set (c := filter _ l). case_decide as Hc; [done|]. intros [= <-]. split; [done|]. clear Hc. split.
  - set (f := fun id => _). assert (Hf : forall k, f k = if decide (is_Some (vk_from_bytes k)) then Some (stored_dial_addr (last_addr_of io m k) k) else None).
    { intros k. unfold f, endpoint_id. by destruct (vk_from_bytes k). }
    clearbody f. induction c as [|k c IH]; [done|]. rewrite filter_cons. change (omap f (k :: c)) with (match f k with Some a => a :: omap f c | None => omap f c end).
    rewrite Hf. case_decide; [|done]. rewrite fmap_cons, stored_dial_id. by f_equal.
  - intros a t (k & Hk & Ha)%list_elem_of_omap. apply bind_Some in Ha as (id & _ & [= <-]). apply stored_dial_dialable.
Qed.

Lemma elem_of_hinted io m l addrs id :
  hinted_addrs io m l = Ok addrs ->
  id ∈ ea_id <$> addrs <-> id ∈ l /\ dial_refused io m id = false /\ is_Some (vk_from_bytes id).
Proof. intros (_ & -> & _)%hinted_addrs_Ok. rewrite !list_elem_of_filter. tauto. Qed.

Lemma elem_of_ordered devices presence user id :
  id ∈ order_dial_candidates devices presence user <-> exists role, (id, role) ∈ devices.
Proof.
  unfold order_dial_candidates. rewrite list_elem_of_fmap. split.
  - intros ([k role] & -> & Hk%elem_of_sort_by_key). eauto.
  - intros [role Hr]. exists (id, role). split; [done|]. by apply elem_of_sort_by_key.
Qed.

(** The devices a name stands for: the one it spells, the roster person's, the rows of a
    nickname or of a user id. *)
Definition stands_for (m : MeshState) (peer : string) (id : key32) : Prop :=
  (exists hex, strip_prefix "eid:" peer = Some hex /\ eid_bytes hex = Ok id) \/
  (exists v rd, m_roster m = Some v /\ Validate.resolve v id = Some rd /\ rd_user_id rd = peer) \/
  (exists io rows e, list_peers io (m_store m) = Ok rows /\ e ∈ rows /\ pe_endpoint_id e = id /\
     (pe_nickname e = peer \/ pe_user_id e = Some peer)).

Lemma entry_stands io m peer e : entry_for io (m_store m) peer = Ok (Some e) -> stands_for m peer (pe_endpoint_id e).
Proof.
  intros (rows & Hr & [= He])%bind_Ok. apply find_first_Some in He as [Hin Hn%bool_decide_eq_true].
  right; right. exists io, rows, e. eauto.
Qed.
Lemma user_stands io m peer l e : entries_for_user io (m_store m) peer = Ok l -> e ∈ l -> stands_for m peer (pe_endpoint_id e).
Proof.
  intros (rows & Hr & [= <-])%bind_Ok [Hu Hin]%list_elem_of_filter. right; right. exists io, rows, e. eauto.
Qed.
Lemma device_stands m v peer id role :
  m_roster m = Some v -> (id, role) ∈ devices_for_user v peer -> stands_for m peer id.
Proof. intros Hv Hin. right; left. apply (devices_for_user_spec v peer) in Hin as (rd & ? & ? & _). exists v, rd. eauto. Qed.
End lemmas.

(** *** Candidates *)
Lemma Forall2_elem_of_r {A B} (P : A -> B -> Prop) l k y : Forall2 P l k -> y ∈ k -> exists x, x ∈ l /\ P x y.
Proof.
  induction 1 as [|a b l k Hp Hf IH]; [by intros ?%not_elem_of_nil|]. intros [->|Hy]%elem_of_cons; [exists a; split; [by left|done]|].
  destruct (IH Hy) as (x & ? & ?). exists x. split; [by right|done].
Qed.

Section candidates.
Context `{E : Ed25519, T : TextEncoding, R : RowCodec, A : AddrCodec, H : HashOrder}.

Lemma resolve_candidates_Ok io m peer l :
  resolve_candidates io m peer = Ok l -> NoDup l /\ forall id, id ∈ l -> stands_for m peer id.
Proof.
  unfold resolve_candidates. destruct (strip_prefix "eid:" peer) as [hex|] eqn:He.
  - intros (id & Hid & [= <-])%bind_Ok. split; [apply NoDup_singleton|]. intros x ->%list_elem_of_singleton. left. eauto.
  - intros (entry & Hentry%map_err_Ok & (rows & Hrows%map_err_Ok & [= <-])%bind_Ok)%bind_Ok. split; [apply dedup_nodup|].
    intros id [Hin|[Hin|Hin]%elem_of_app]%elem_of_dedup%elem_of_app.
    + destruct (m_roster m) as [v|] eqn:Hv; [|by apply not_elem_of_nil in Hin].
      apply list_elem_of_fmap in Hin as ([k role] & -> & Hk). by eapply device_stands.
    + apply list_elem_of_fmap in Hin as (e & -> & He'). destruct entry as [e'|]; [|by apply not_elem_of_nil in He'].
      apply list_elem_of_singleton in He' as ->. by eapply entry_stands.
    + apply list_elem_of_fmap in Hin as (e & -> & He'). by eapply user_stands.
Qed.

Lemma protocol_candidates_Ok io m peer c :
  protocol_candidates io m peer = Ok c ->
  NoDup (ca_dialable c) /\ forall id, id ∈ ca_dialable c -> stands_for m peer id /\ dial_refused io m id = false.
Proof.
  intros (l & [Hnd Hin]%resolve_candidates_Ok & [= <-])%bind_Ok. split; [by apply NoDup_filter|].
  intros id [? ?]%list_elem_of_filter. auto.
Qed.

(** What the sources resolved so far amount to. *)
Record sources_inv (io : DialIo) (m : MeshState) (seen : list key32) (out : list EndpointAddr) : Prop := {
  si_nodup : NoDup (ea_id <$> out);
  si_ids id : id ∈ ea_id <$> out <-> id ∈ seen /\ is_Some (vk_from_bytes id);
  si_addrs a t : a ∈ out -> t ∈ ea_addrs a -> is_dialable_addr t = true }.

Lemma blob_device_inv io m seen out eid seen' out' :
  sources_inv io m seen out -> blob_device io m (seen, out) eid = Ok (seen', out') ->
  sources_inv io m seen' out' /\ forall id, id ∈ seen' <-> id ∈ seen \/ id = eid.
Proof.
  intros [Hnd Hids Ha]. unfold blob_device. case_decide as Hin.
  - intros [= <- <-]. split; [by split|]. intros id. split; [by left|]. by intros [?| ->].
  - unfold endpoint_id. destruct (vk_from_bytes eid) as [vk|] eqn:Hvk; simpl.
    + intros (entry & _ & [= <- <-])%bind_Ok. split; [|intros id; by rewrite elem_of_app, list_elem_of_singleton]. split.
      * rewrite fmap_app. cbn [fmap list_fmap]. rewrite stored_dial_id. apply NoDup_app. split_and!; [done| |apply NoDup_singleton].
        intros x [? _]%Hids ->%list_elem_of_singleton. done.
      * intros id. rewrite fmap_app, elem_of_app, elem_of_app, Hids. cbn [fmap list_fmap]. rewrite stored_dial_id, !list_elem_of_singleton.
        split; [intros [[? ?]| ->]; [tauto|rewrite Hvk; eauto]|tauto].
      * intros a t [?|Hx%list_elem_of_singleton]%elem_of_app; [by apply Ha|subst a; apply stored_dial_dialable].
    + intros [= <- <-]. split; [|intros id; by rewrite elem_of_app, list_elem_of_singleton]. split; try done.
      intros id. rewrite Hids, elem_of_app, list_elem_of_singleton. split; [tauto|]. intros [[?| ->] Hs]; [done|].
      rewrite Hvk in Hs. by destruct Hs.
Qed.

Lemma blob_devices_inv io m devices seen out seen' out' :
  sources_inv io m seen out -> fold_result (blob_device io m) (seen, out) devices = Ok (seen', out') ->
  sources_inv io m seen' out' /\ forall id, id ∈ seen' <-> id ∈ seen \/ id ∈ devices.
Proof.
  revert seen out. induction devices as [|d devices IH]; intros seen out Hi Hf; simpl in Hf.
  - injection Hf as <- <-. split; [done|]. intros id. rewrite elem_of_nil. tauto.
  - apply bind_Ok in Hf as ([s1 o1] & Hd & Hf). destruct (blob_device_inv _ _ _ _ _ _ _ Hi Hd) as [Hi1 Hs1].
    destruct (IH _ _ Hi1 Hf) as [Hi2 Hs2]. split; [done|]. intros id. rewrite Hs2, Hs1, elem_of_cons. tauto.
Qed.

(** A name's candidates, when it has any that count. *)
Definition source_of (io : DialIo) (m : MeshState) (name : string) (c : Candidates) : Prop :=
  protocol_candidates io m name = Ok c /\ ~ (ca_dialable c = [] /\ ca_refused c = 0%nat).

Lemma blob_sources_inv io m from seen out n seen' out' n' :
  sources_inv io m seen out -> fold_result (blob_source io m) (seen, out, n) from = Ok (seen', out', n') ->
  sources_inv io m seen' out' /\
  exists cs, Forall2 (source_of io m) from cs /\
    (forall id, id ∈ seen' <-> id ∈ seen \/ exists c, c ∈ cs /\ id ∈ ca_dialable c) /\
    n' = (n + length (filter (fun c => ca_dialable c = []) cs))%nat.
Proof.
  revert seen out n. induction from as [|name from IH]; intros seen out n Hi Hf; simpl in Hf.
  - injection Hf as <- <- <-. split; [done|]. exists []. split_and!; [constructor| |simpl; lia].
    intros id. split; [by left|]. by intros [?|(c & ?%not_elem_of_nil & _)].
  - apply bind_Ok in Hf as ([[s1 o1] n1] & Hs & Hf). apply bind_Ok in Hs as (c & Hc & Hs). case_decide as Hnone; [done|].
    apply bind_Ok in Hs as ([s2 o2] & Hd & [= -> -> <-]). destruct (blob_devices_inv _ _ _ _ _ _ _ Hi Hd) as [Hi1 Hs1].
    destruct (IH _ _ _ Hi1 Hf) as (Hi2 & cs & Hcs & Hs2 & ->). split; [done|]. exists (c :: cs). split_and!.
    + by constructor.
    + intros id. rewrite Hs2, Hs1. split.
      * intros [[?|?]|(c' & ? & ?)]; [by left|right; exists c; split; [by left|done]|right; exists c'; split; [by right|done]].
      * intros [?|(c' & [->|?]%elem_of_cons & ?)]; [tauto|tauto|]. right. eauto.
    + rewrite filter_cons. case_decide; simpl; lia.
Qed.
End candidates.

(** The frame that leaves carries the name under both keys, so the far side selects by it. *)
Lemma map_get_named service meta k :
  map_get k (name_service service meta) = if decide (k ∈ SERVICE_KEYS) then Some (VString service) else map_get k meta.
Proof.
  unfold name_service, SERVICE_KEYS. cbn [foldl]. rewrite !map_get_insert.
  destruct (decide (k ∈ _)) as [Hin|Hin]; repeat case_decide; try done; set_solver.
Qed.
Lemma inject_selects top service allowed :
  (select_service (inject_service (VObject top) service) allowed).2 = if decide (service ∈ allowed) then Selected service else Refuse.
Proof.
  simpl inject_service. set (params := object_of (map_get "params" top)). set (meta := object_of (map_get "_meta" params)).
  set (named := name_service service meta).
  assert (Hr : map (read_meta (VObject (map_insert "params" (VObject (map_insert "_meta" (VObject named) params)) top))) SERVICE_KEYS =
    [Some (VString service); Some (VString service)]).
  { unfold SERVICE_KEYS at 1. cbn [map]. unfold read_meta, meta_path, value_pointer, value_get. simpl.
    rewrite !map_get_insert, !decide_True by done. simpl. rewrite map_get_insert, decide_True by done. simpl.
    unfold named. by rewrite !map_get_named, !decide_True by (unfold SERVICE_KEYS; set_solver). }
  unfold select_service. rewrite Hr. cbn [snd]. unfold decide_service. simpl. by rewrite String.eqb_refl.
Qed.

(** *** The order of a race *)
Lemma StronglySorted_filter {A} (R : A -> A -> Prop) (P : A -> Prop) `{!forall x, Decision (P x)} l :
  StronglySorted R l -> StronglySorted R (filter P l).
Proof.
  induction 1 as [|x l Hs IH Hall]; [constructor|]. rewrite filter_cons. case_decide; [|done]. constructor; [done|].
  rewrite Forall_forall in Hall |- *. intros y [_ Hy]%list_elem_of_filter. by apply Hall.
Qed.

Lemma NoDup_fst_devices v user : NoDup (fst <$> devices_for_user v user).
Proof.
  unfold devices_for_user, sort_candidates. rewrite merge_sort_Permutation, <- list_fmap_compose.
  assert (Hn : NoDup ((map_to_list (v_devices v)).*1)) by apply NoDup_fst_map_to_list.
  revert Hn. generalize (map_to_list (v_devices v)). induction l as [|[k rd] l IH]; [by constructor|].
  rewrite fmap_cons, filter_cons. intros [Hk Hl]%NoDup_cons. case_decide; [|auto]. rewrite fmap_cons. constructor; [|auto].
  intros ([k' rd'] & Hx & [_ Hin]%list_elem_of_filter)%list_elem_of_fmap. apply Hk, list_elem_of_fmap. exists (k', rd'). by split.
Qed.

Lemma filter_fst {A B} (P : A -> Prop) `{!forall x, Decision (P x)} (l : list (A * B)) :
  filter P (fst <$> l) = fst <$> filter (fun x => P x.1) l.
Proof. induction l as [|x l IH]; [done|]. rewrite fmap_cons, !filter_cons. case_decide; rewrite IH; done. Qed.

(** A recency rank below another's: heard no later. *)
Lemma recency_rank_le `{H : HashOrder} user presence a b eb :
  let l := endpoints_for_user_by_recency user presence in
  Z.of_nat (length l) < USIZE_MAX -> recency_rank l a <= recency_rank l b ->
  presence !! b = Some eb -> en_user_id eb = user ->
  exists ea, presence !! a = Some ea /\ en_user_id ea = user /\ en_ts eb <= en_ts ea.
Proof.
  intros l Hlen Hle Hb Hu. destruct (recency_spec user presence) as (Hin & Hnd & Hord). fold l in Hin, Hnd, Hord.
  assert (Hbl : b ∈ l) by (apply Hin; eauto). unfold recency_rank in Hle.
  destruct (position (fun e => bool_decide (e = b)) l) as [j|] eqn:Hj.
  2: { rewrite position_None, Forall_forall in Hj. specialize (Hj _ Hbl). by rewrite bool_decide_true in Hj. }
  apply position_Some in Hj as (x & Hj & ->%bool_decide_eq_true). pose proof (lookup_lt_Some _ _ _ Hj).
  destruct (position (fun e => bool_decide (e = a)) l) as [i|] eqn:Hi; [|lia].
  apply position_Some in Hi as (y & Hi & ->%bool_decide_eq_true).
  assert (Ha : a ∈ l) by by eapply list_elem_of_lookup_2. apply Hin in Ha as (ea & Ha & Hua). exists ea. split_and!; [done..|].
  destruct (decide (i = j)) as [->|Hne]; [|apply (Hord i j a b ea eb); [done..|lia|done|done]].
  rewrite Hi in Hj. injection Hj as <-. rewrite Ha in Hb. by injection Hb as <-.
Qed.

(** *** The race *)
Section race.
Context {C : Type}.

(** Every candidate launched so far is in flight or has failed; no success was let pass. *)
Record race_inv (n : nat) (s : RaceState) (past : list (RaceEvent C)) : Prop := {
  ri_next : (rc_next s <= n)%nat;
  ri_flight i : i ∈ rc_flight s -> (i < rc_next s)%nat;
  ri_busy : rc_flight s <> [];
  ri_failed i : (i < rc_next s)%nat -> i ∈ rc_flight s \/ exists e, Joined i (Err e) ∈ past }.

Lemma race_inv_more n s past e : race_inv n s past -> race_inv n s (past ++ [e]).
Proof.
  intros [H1 H2 H3 H4]. split; try done. intros i Hi. destruct (H4 i Hi) as [?|[x ?]]; [by left|right]. exists x. in_list.
Qed.

Lemma race_inv_launch n s past : race_inv n s past -> (rc_next s < n)%nat -> race_inv n (launch s) past.
Proof.
  intros [H1 H2 H3 H4] Hn. split; simpl; [lia| |by destruct (rc_flight s)|].
  - intros i [?%H2| ->%list_elem_of_singleton]%elem_of_app; lia.
  - intros i Hi. destruct (decide (i = rc_next s)) as [->|]; [left; apply elem_of_app; right; by apply list_elem_of_singleton|].
    destruct (H4 i) as [?|?]; [lia|left; apply elem_of_app; by left|by right].
Qed.

Lemma race_step_inv n s past e :
  race_inv n s past ->
  match race_step n s e with
  | inl s' => race_inv n s' (past ++ [e])
  | inr (Ok c) => exists i, e = Joined i (Ok c) /\ i ∈ rc_flight s
  | inr (Err _) => forall i, (i < n)%nat -> exists x, Joined i (Err x) ∈ past ++ [e]
  end.
Proof.
  intros Hi. destruct e as [i [c|x]|]; simpl.
  - case_decide; [eauto|by apply race_inv_more].
  - case_decide as Hin; [|by apply race_inv_more]. pose proof (race_inv_more _ _ _ (Joined i (Err x)) Hi) as [H1 H2 H3 H4].
    assert (Hf : forall j, (j < rc_next s)%nat -> j ∈ rc_flight (failed i x s) \/ exists e, Joined j (Err e) ∈ past ++ [Joined i (Err x)]).
    { intros j Hj. destruct (decide (j = i)) as [->|Hne]; [right; exists x; in_list|].
      destruct (H4 j Hj) as [?|?]; [left; by apply list_elem_of_filter|by right]. }
    unfold refill. case_decide as Hempty.
    + destruct (Nat.ltb_spec (rc_next (failed i x s)) n) as [Hlt|Hge]; simpl in *.
      * split; simpl; [lia| |by destruct (filter _ (rc_flight s))|].
        -- intros j [[_ ?%H2]%list_elem_of_filter| ->%list_elem_of_singleton]%elem_of_app; lia.
        -- intros j Hj. destruct (decide (j = rc_next s)) as [->|]; [left; apply elem_of_app; right; by apply list_elem_of_singleton|].
           destruct (Hf j) as [?|?]; [lia|left; apply elem_of_app; by left|by right].
      * intros j Hj. destruct (Hf j) as [Hjf|?]; [lia| |done]. rewrite Hempty in Hjf. by apply not_elem_of_nil in Hjf.
    + split; simpl; [done| |done|done]. intros j [_ ?%H2]%list_elem_of_filter. done.
  - destruct (Nat.ltb_spec (rc_next s) n) as [Hlt|Hge]; [apply race_inv_more; by apply race_inv_launch|by apply race_inv_more].
Qed.

Lemma race_run_inv n s past events :
  race_inv n s past ->
  match race_run n s events with
  | inl s' => race_inv n s' (past ++ events)
  | inr (Ok c) => exists before i after s', events = before ++ Joined i (Ok c) :: after /\ race_inv n s' (past ++ before) /\
      race_run n s before = inl s' /\ i ∈ rc_flight s'
  | inr (Err _) => forall i, (i < n)%nat -> exists x, Joined i (Err x) ∈ past ++ events
  end.
Proof.
  revert s past. induction events as [|e events IH]; intros s past Hi; simpl; [by rewrite app_nil_r|].
  pose proof (race_step_inv n s past e Hi) as Hs. destruct (race_step n s e) as [s'|[c|x]] eqn:He.
  - specialize (IH s' _ Hs). rewrite <- app_assoc in IH. simpl in IH. destruct (race_run n s' events) as [s2|[c|x]]; try done.
    destruct IH as (before & i & after & s2 & -> & Hi2 & Hr & Hin). exists (e :: before), i, after, s2.
    rewrite <- app_assoc in Hi2. split_and!; try done. simpl. by rewrite He.
  - destruct Hs as (i & -> & Hin). exists [], i, events, s. by rewrite app_nil_r.
  - intros i Hlt. destruct (Hs i Hlt) as [y Hy]. exists y. rewrite elem_of_app, elem_of_cons. rewrite elem_of_app, list_elem_of_singleton in Hy. tauto.
Qed.

Lemma race_inv_start n : (0 < n)%nat -> race_inv n race_start [].
Proof. intros Hn. split; simpl; [lia|by intros i ->%list_elem_of_singleton; lia|done|]. intros i Hi. left. apply list_elem_of_singleton. lia. Qed.
End race.

(** ** Properties *)

(** The race over a person's devices.  Whatever order its dials and its timer end in: a
    race that is won is won by the first dial in flight that succeeded, to a candidate of the
    list; one that is lost has had every candidate dialled and failed; and until it is decided
    some dial is in flight, so the race never hangs on its own. *)
Theorem race_dial_spec {C} (candidates : list EndpointAddr) (events : list (RaceEvent C)) :
  match race_dial candidates events with
  | inl s => rc_flight s <> [] /\ forall i, i ∈ rc_flight s -> (i < length candidates)%nat
  | inr (Ok c) => exists before i after s, events = before ++ Joined i (Ok c) :: after /\
      race_dial candidates before = inl s /\ i ∈ rc_flight s /\ is_Some (candidates !! i)
  | inr (Err _) => forall i, is_Some (candidates !! i) -> exists e, Joined i (Err e) ∈ events
  end.
Proof.
  destruct candidates as [|a l]; [by intros i [? [=]]|]. cbn [race_dial]. set (cs := a :: l).
  pose proof (race_run_inv (length cs) race_start [] events (race_inv_start (C := C) (length cs) ltac:(simpl; lia))) as Hr.
  change (race_dial cs events) with (race_run (length cs) race_start events).
  destruct (race_run (length cs) race_start events) as [s|[c|x]].
  - destruct Hr as [H1 H2 H3 _]. split; [done|]. intros i ?%H2. lia.
  - destruct Hr as (before & i & after & s & -> & [H1 H2 _ _] & Hrun & Hin). exists before, i, after, s. split_and!; try done.
    apply lookup_lt_is_Some. pose proof (H2 i Hin). lia.
  - intros i Hi%lookup_lt_is_Some. by apply Hr.
Qed.

Section properties.
Context `{E : Ed25519, T : TextEncoding, R : RowCodec, A : AddrCodec, H : HashOrder}.

(** Nothing is dialled that this node refuses.  Every address a dial by name comes to is of
    a device the name stands for, is not revoked here in any table or by the roster, is a real
    key, and carries only addresses a peer can be reached at; a single target gets the transport
    the caller's idle timeout asked for. *)
Theorem dial_plan_sound encode keepalive io m presence peer idle plan :
  dial_plan encode keepalive io m presence peer idle = Ok plan ->
  (forall a, a ∈ plan_addrs plan -> stands_for m peer (ea_id a) /\ dial_refused io m (ea_id a) = false /\
     is_Some (vk_from_bytes (ea_id a)) /\ forall t, t ∈ ea_addrs a -> is_dialable_addr t = true) /\
  match plan with
  | Single _ transport => per_session_transport_config encode idle keepalive = Ok transport
  | Race _ => True
  end.
Proof.
  unfold dial_plan. intros (per & Hper & Hp)%bind_Ok.
  assert (Hrace : forall l addrs, hinted_addrs io m l = Ok addrs -> (forall id, id ∈ l -> stands_for m peer id) -> forall a, a ∈ addrs ->
    stands_for m peer (ea_id a) /\ dial_refused io m (ea_id a) = false /\ is_Some (vk_from_bytes (ea_id a)) /\
    forall t, t ∈ ea_addrs a -> is_dialable_addr t = true).
  { intros l addrs Hh Hl a Ha. destruct (proj1 (elem_of_hinted _ _ _ _ (ea_id a) Hh)) as (Hin & Href & Hvk); [by apply list_elem_of_fmap_2|].
    split_and!; [by apply Hl|done..|]. intros t. by apply (hinted_addrs_Ok _ _ _ _ Hh). }
  assert (Hone : forall hint k id, refuse_if_revoked io m k peer = Ok tt -> endpoint_id k = Some id -> stands_for m peer k ->
    forall a, a ∈ [stored_dial_addr hint id] -> stands_for m peer (ea_id a) /\ dial_refused io m (ea_id a) = false /\
    is_Some (vk_from_bytes (ea_id a)) /\ forall t, t ∈ ea_addrs a -> is_dialable_addr t = true).
  { intros hint k id Href [-> Hvk]%endpoint_id_Some Hs a ->%list_elem_of_singleton. rewrite stored_dial_id. unfold refuse_if_revoked in Href.
    destruct (dial_refused io m k) eqn:Hd; [done|]. split_and!; try done. intros t. apply stored_dial_dialable. }
  destruct (strip_prefix "eid:" peer) as [hex|] eqn:Heid.
  - apply bind_Ok in Hp as ([] & Href & Hp). unfold dial_by_eid in Hp. apply bind_Ok in Hp as (k & Hk & (id & Hid%ok_or_Ok & [= <-])%bind_Ok).
    rewrite Hk in Href. split; [|done]. apply (Hone _ k); [done..|]. left. eauto.
  - case_decide as Hdev.
    + apply bind_Ok in Hp as (addrs & Hh & [= <-]). split; [|done]. apply (Hrace _ _ Hh). intros id [role Hr]%elem_of_ordered.
      destruct (m_roster m) as [v|] eqn:Hv; [|by apply not_elem_of_nil in Hr]. by eapply device_stands.
    + apply bind_Ok in Hp as (entry & He%map_err_Ok & (l & Hl & Hp)%bind_Ok).
      assert (Hstands : forall e, e ∈ l -> stands_for m peer (pe_endpoint_id e)).
      { intros e Hin. destruct entry as [e'|]; [injection Hl as <-; apply list_elem_of_singleton in Hin as ->; by eapply entry_stands|].
        apply map_err_Ok in Hl. by eapply user_stands. }
      destruct l as [|e [|e' l]]; [done| |].
      * apply bind_Ok in Hp as ([] & Href & (id & Hid%ok_or_Ok & [= <-])%bind_Ok). split; [|done].
        apply (Hone _ (pe_endpoint_id e)); [done..|]. apply Hstands. by left.
      * apply bind_Ok in Hp as (addrs & Hh & [= <-]). split; [|done]. apply (Hrace _ _ Hh).
        intros id (x & -> & Hx)%list_elem_of_fmap. by apply Hstands.
Qed.

(** A rostered person is raced over exactly the devices that may be dialled: the active ones
    of the roster that this node does not refuse and whose id is a key, each once; primaries
    before mirrors before the others whatever the presence table says, and within a role the
    more recently heard first.  The bound covers a full timeout and every stagger slot. *)
Theorem person_race encode keepalive io m v presence peer idle plan :
  dial_plan encode keepalive io m presence peer idle = Ok plan ->
  m_roster m = Some v -> strip_prefix "eid:" peer = None -> devices_for_user v peer <> [] ->
  Z.of_nat (length (endpoints_for_user_by_recency peer presence)) < USIZE_MAX ->
  (exists addrs, plan = Race addrs /\ plan_deadline_ms plan = DIAL_TIMEOUT_MS + DIAL_STAGGER_MS * Z.of_nat (length addrs)) /\
  NoDup (plan_peers plan) /\
  (forall id, id ∈ plan_peers plan <->
     (exists rd, Validate.resolve v id = Some rd /\ rd_user_id rd = peer) /\ dial_refused io m id = false /\ is_Some (vk_from_bytes id)) /\
  forall i j a b ra rb, plan_peers plan !! i = Some a -> plan_peers plan !! j = Some b -> (i < j)%nat ->
    Validate.resolve v a = Some ra -> Validate.resolve v b = Some rb ->
    dial_role_rank (rd_role ra) < dial_role_rank (rd_role rb) \/
    dial_role_rank (rd_role ra) = dial_role_rank (rd_role rb) /\
    forall eb, presence !! b = Some eb -> en_user_id eb = peer ->
      exists ea, presence !! a = Some ea /\ en_user_id ea = peer /\ en_ts eb <= en_ts ea.
Proof.
  unfold dial_plan. intros (per & _ & Hp)%bind_Ok Hv He Hd Hlen. rewrite He, Hv in Hp. rewrite decide_True in Hp by done.
  apply bind_Ok in Hp as (addrs & Hh & [= <-]). set (l := endpoints_for_user_by_recency peer presence) in *.
  pose proof (hinted_addrs_Ok _ _ _ _ Hh) as (_ & Hids & _). unfold plan_peers. cbn [plan_addrs].
  set (kept := filter (fun x : key32 * string => is_Some (vk_from_bytes x.1)) (filter (fun x => dial_refused io m x.1 = false)
    (sort_by_key (dial_key l) (devices_for_user v peer)))).
  assert (Hk : ea_id <$> addrs = fst <$> kept) by (rewrite Hids; unfold order_dial_candidates, kept; by rewrite !filter_fst).
  assert (Hin : forall x, x ∈ kept -> exists rd, Validate.resolve v x.1 = Some rd /\ rd_role rd = x.2).
  { intros [k role] [_ [_ Hx%elem_of_sort_by_key]%list_elem_of_filter]%list_elem_of_filter.
    apply (devices_for_user_spec v peer) in Hx as (rd & ? & _ & ?). eauto. }
  assert (Hs : StronglySorted (key_le (dial_key l)) kept) by (do 2 apply StronglySorted_filter; apply sort_by_key_sorted).
  split; [by eexists|]. split_and!.
  - rewrite Hids. do 2 apply NoDup_filter. unfold order_dial_candidates. rewrite sort_by_key_perm. apply NoDup_fst_devices.
  - intros id. rewrite (elem_of_hinted _ _ _ _ _ Hh), elem_of_ordered. split.
    + intros ([role Hr] & ?). split; [|done]. apply (devices_for_user_spec v peer) in Hr as (rd & ? & ? & _). eauto.
    + intros ((rd & ? & ?) & ?). split; [|done]. exists (rd_role rd). apply (devices_for_user_spec v peer). eauto.
  - rewrite Hk. intros i j a b ra rb Ha Hb Hij Hra Hrb.
    apply list_lookup_fmap_Some in Ha as (x & -> & Hx). apply list_lookup_fmap_Some in Hb as (y & -> & Hy).
    destruct (Hin x) as (rx & Hrx & Hrole); [by eapply list_elem_of_lookup_2|]. destruct (Hin y) as (ry & Hry & Hroley); [by eapply list_elem_of_lookup_2|].
    simplify_eq. rewrite Hrole, Hroley. pose proof (StronglySorted_nth _ _ _ _ _ _ Hs Hx Hy Hij) as Hle.
    apply dial_key_le in Hle as [?|[? Hle]]; [by left| |unfold USIZE_MAX in Hlen; lia]. right. split; [done|].
    intros eb Heb Hu. by eapply recency_rank_le.
Qed.

(** The sources of a blob.  A list of names that resolves at all is within the cap, every
    name stands for somebody, and the addresses are those of exactly the devices that may be
    dialled: each stands for a name of the list, is not refused here, and comes once however
    many names share it; the names counted as skipped are those every device of which is
    refused. *)
Theorem blob_sources_sound io m from bs :
  blob_source_addrs io m from = Ok bs ->
  (length from <= MAX_BLOB_SOURCES)%nat /\
  NoDup (ea_id <$> bs_addrs bs) /\
  (forall a, a ∈ bs_addrs bs -> (exists name, name ∈ from /\ stands_for m name (ea_id a)) /\
     dial_refused io m (ea_id a) = false /\ forall t, t ∈ ea_addrs a -> is_dialable_addr t = true) /\
  exists cs, Forall2 (source_of io m) from cs /\
    (forall c id, c ∈ cs -> id ∈ ca_dialable c -> is_Some (vk_from_bytes id) -> id ∈ ea_id <$> bs_addrs bs) /\
    bs_skipped_revoked bs = length (filter (fun c => ca_dialable c = []) cs).
Proof.
  unfold blob_source_addrs. destruct (Nat.ltb_spec MAX_BLOB_SOURCES (length from)) as [|Hlen]; [done|].
  intros ([[seen out] n] & Hf & [= <-])%bind_Ok. cbn [bs_addrs bs_skipped_revoked fst snd].
  destruct (blob_sources_inv io m from [] [] 0%nat seen out n) as ([Hnd Hids Ha] & cs & Hcs & Hseen & Hn); [|done|].
  { split; [constructor| |by intros a t ?%not_elem_of_nil]. intros id. cbn. rewrite elem_of_nil. tauto. }
  split_and!; [done|done| |exists cs; split_and!; [done| |done]].
  - intros a Hin. split_and!; [| |by intros t; apply Ha].
    all: destruct (proj1 (Hids (ea_id a))) as [Hs _]; [by apply list_elem_of_fmap_2|];
      apply Hseen in Hs as [Hs%not_elem_of_nil|(c & Hc & Hd)]; [done|];
      destruct (Forall2_elem_of_r _ _ _ _ Hcs Hc) as (name & Hname & Hp & _);
      destruct (protocol_candidates_Ok _ _ _ _ Hp) as [_ Hdev]; destruct (Hdev _ Hd); eauto.
  - intros c id Hc Hd Hvk. apply Hids. split; [|done]. apply Hseen. right. eauto.
Qed.

(** The service named in the first frame is the service the far side selects.  Whatever the
    client's own [params] and [_meta] hold, a missing or malformed one included, the frame that
    leaves selects exactly the dialled service if the caller is allowed it and refuses if not;
    nothing else of the frame changes, and a frame that is no object is left as it is. *)
Theorem service_delivered frame service allowed :
  match frame with
  | VObject top =>
      (select_service (inject_service frame service) allowed).2 = (if decide (service ∈ allowed) then Selected service else Refuse) /\
      exists top' params meta, inject_service frame service = VObject top' /\
        map_get "params" top' = Some (VObject params) /\ map_get "_meta" params = Some (VObject meta) /\
        (forall k, k <> "params"%string -> map_get k top' = map_get k top) /\
        (forall k, k <> "_meta"%string -> map_get k params = map_get k (object_of (map_get "params" top))) /\
        (forall k, k ∉ SERVICE_KEYS -> map_get k meta = map_get k (object_of (map_get "_meta" (object_of (map_get "params" top)))))
  | _ => inject_service frame service = frame
  end.
Proof.
  destruct frame as [| | | | |top]; try done. simpl inject_service. set (params := object_of (map_get "params" top)).
  set (meta := object_of (map_get "_meta" params)). set (named := name_service service meta).
  pose proof (map_get_named service meta : forall k, map_get k named = _) as Hk.
  split.
  - apply (inject_selects top).
  - eexists _, _, _. split_and!; [done|by rewrite map_get_insert, decide_True| by rewrite map_get_insert, decide_True| | |].
    + intros k Hne. by rewrite map_get_insert, decide_False.
    + intros k Hne. by rewrite map_get_insert, decide_False.
    + intros k Hn. by rewrite Hk, decide_False.
Qed.
End properties.

(** ** Witnesses *)
Module Witness.
Import Toy ToyRows Limits.Witness Peers.Witness.

#[local] Instance no_hints : AddrCodec := {| addr_to_string _ := "hint"; addr_from_str _ := None |}.
Definition dial_io : DialIo := {| d_refused _ := Allowlist.healthy; d_entry := Allowlist.healthy; d_users := Allowlist.healthy; d_hint _ := Allowlist.healthy |}.
Definition encode (s : Z) : result string Z := Ok (1000 * s).

Lemma plan_ok : is_ok (dial_plan encode 5 dial_io m1 ∅ "phone" (Some 30)) = true.
Proof. vm_compute. reflexivity. Qed.
Lemma dial_plan_sound_witness : exists plan, dial_plan encode 5 dial_io m1 ∅ "phone" (Some 30) = Ok plan /\
  forall a, a ∈ plan_addrs plan -> dial_refused dial_io m1 (ea_id a) = false.
Proof.
  destruct (dial_plan encode 5 dial_io m1 ∅ "phone" (Some 30)) as [plan|e] eqn:Hp.
  - exists plan. split; [reflexivity|]. intros a Ha. destruct (dial_plan_sound encode 5 dial_io m1 ∅ "phone" (Some 30) plan Hp) as [Hs _].
    destruct (Hs a Ha) as (_ & Hr & _). exact Hr.
  - exfalso. pose proof plan_ok as Hok. rewrite Hp in Hok. discriminate Hok.
Defined.

(** Alice's phone mirrors her laptop, and was heard of last. *)
Definition device (role : string) : ResolvedDevice :=
  {| rd_user_id := "alice"; rd_display_name := "Alice"; rd_groups := []; rd_role := role; rd_label := "" |}.
Definition roster_view : RosterView :=
  {| v_org_id := "org"; v_serial := 1; v_expires_at_epoch := 100;
     v_devices := {[phone := device "mirror"; laptop := device "primary"]}; v_revoked := ∅; v_groups := []; v_users := [] |}.
Definition m2 : MeshState :=
  {| m_serving := m_serving m1; m_store := m_store m1; m_roster := Some roster_view; m_conns := m_conns m1; m_audit := m_audit m1 |}.
Definition heard : gmap key32 PresenceEntry := {[phone := {| en_user_id := "alice"; en_ts := 9; en_meta := "" |}]}.

Lemma race_ok : is_ok (dial_plan encode 5 dial_io m2 heard "alice" None) = true.
Proof. vm_compute. reflexivity. Qed.
Lemma devices_some : devices_for_user roster_view "alice" <> [].
Proof. vm_compute. discriminate. Qed.
Lemma heard_short : Z.of_nat (length (endpoints_for_user_by_recency "alice" heard)) < USIZE_MAX.
Proof. vm_compute. reflexivity. Qed.
Lemma person_race_witness : exists plan, dial_plan encode 5 dial_io m2 heard "alice" None = Ok plan /\
  NoDup (plan_peers plan) /\ laptop ∈ plan_peers plan.
Proof.
  destruct (dial_plan encode 5 dial_io m2 heard "alice" None) as [plan|e] eqn:Hp.
  - exists plan. split; [reflexivity|].
    destruct (person_race encode 5 dial_io m2 roster_view heard "alice" None plan Hp eq_refl eq_refl devices_some heard_short) as (_ & Hn & Hin & _).
    split; [exact Hn|]. apply Hin. split; [exists (device "primary"); split; vm_compute; reflexivity|].
    split; [vm_compute; reflexivity|]. eexists. reflexivity.
  - exfalso. pose proof race_ok as Hok. rewrite Hp in Hok. discriminate Hok.
Defined.

(** The phone, named twice, is one source. *)
Lemma sources_ok : is_ok (blob_source_addrs dial_io m2 ["alice"; "phone"]) = true.
Proof. vm_compute. reflexivity. Qed.
Lemma blob_sources_sound_witness : exists bs, blob_source_addrs dial_io m2 ["alice"; "phone"]%string = Ok bs /\
  NoDup (ea_id <$> bs_addrs bs).
Proof.
  destruct (blob_source_addrs dial_io m2 ["alice"; "phone"]%string) as [bs|e] eqn:Hb.
  - exists bs. split; [reflexivity|]. destruct (blob_sources_sound dial_io m2 ["alice"; "phone"]%string bs Hb) as (_ & Hn & _). exact Hn.
  - exfalso. pose proof sources_ok as Hok. rewrite Hb in Hok. discriminate Hok.
Defined.

(** The mirror was heard of last and still goes second. *)
Example primary_first : order_dial_candidates (devices_for_user roster_view "alice") heard "alice" = [laptop; phone].
Proof. vm_compute. reflexivity. Qed.

(** The first dial fails before its stagger: the second goes at once, and wins. *)
Example fast_failure : race_dial [{| ea_id := laptop; ea_addrs := [] |}; {| ea_id := phone; ea_addrs := [] |}]
  [Joined 0 (Err "refused"%string); Joined 1 (Ok 7)] = inr (Ok 7).
Proof. reflexivity. Qed.
End Witness.
