(* ===== verification/Status.v ===== *)
(** * What [status] reports

    [node/src/daemon/status.rs] and the revocation rows of [status_result]
    ([node/src/control.rs]): the views of the configuration, the store, the live registry and the
    roster that a person or an embedder reads.  Each is computed from the state as it is; the
    store's faults and the order a hash map is iterated in are arguments. *)
From stdpp Require Import base list gmap sets strings sorting.
From Stdlib Require Import ZArith Lia.
From S2P Require Import Prelude Bytes Externals Validate Identity Limits Gate Service Hooks Config Session Presence Sas Rosters Mesh Grants Dial Allowlist.

(** ** The views *)
Record ServiceInfo := {
  si_name : string; si_allow : list string; si_allow_display : list string;
  si_socket : bool; si_ephemeral : bool }.
Record PeerInfo := { pi_name : string; pi_services : list string; pi_user_id : option string; pi_principal : option string }.
Record PresencePeer := {
  pp_user_id : string; pp_display_name : string; pp_groups : list string; pp_device_label : string;
  pp_role : string; pp_online : bool; pp_meta : string }.
Record RosterStatus := {
  rs_org_id : string; rs_serial : Z; rs_state : string; rs_org_root_fingerprint : string; rs_groups : list string }.
Record RosterMemberDevice := { md_label : string; md_role : string; md_principal : string; md_online : bool }.
Record RosterMember := { rm_user_id : string; rm_display_name : string; rm_groups : list string; rm_devices : list RosterMemberDevice }.
Record RosterMembersResult := { rr_groups : list string; rr_users : list RosterMember }.
Record RevokedEndpoint := {
  rv_principal : string; rv_at : Z; rv_source : string; rv_signer : option string; rv_reason : option string; rv_nickname : option string }.

(** Stable sorts by the keys of the source. *)
Definition str_le (a b : string) : Prop := String.leb a b = true.
#[export] Instance str_le_dec : RelDecision str_le.
Proof. intros a b. unfold str_le. apply _. Defined.

Definition presence_le (a b : PresencePeer) : Prop :=
  String.ltb (pp_user_id a) (pp_user_id b) = true \/
  pp_user_id a = pp_user_id b /\
    ((dial_role_rank (pp_role a) < dial_role_rank (pp_role b))%Z \/
     dial_role_rank (pp_role a) = dial_role_rank (pp_role b) /\ str_le (pp_device_label a) (pp_device_label b)).
#[export] Instance presence_le_dec : RelDecision presence_le.
Proof. intros a b. unfold presence_le. apply _. Defined.

Definition device_le (a b : RosterMemberDevice) : Prop :=
  (dial_role_rank (md_role a) < dial_role_rank (md_role b))%Z \/
  dial_role_rank (md_role a) = dial_role_rank (md_role b) /\ str_le (md_label a) (md_label b).
#[export] Instance device_le_dec : RelDecision device_le.
Proof. intros a b. unfold device_le. apply _. Defined.

Section status.
Context `{E : Ed25519, T : TextEncoding, R : RowCodec, B : Blake3, HO : HashOrder}.

(** *** The roster *)
Definition state_word (s : RosterState) : string :=
  match s with Approved => "approved" | DegradedGrace => "degraded" | DegradedStopped => "stopped" end.

Definition pinned_fingerprint (cfg : option Config) : string :=
  match cfg ≫= (fun c => i_org_root_pk (c_identity c)) with
  | Some s =>
      match parse_org_root_pk s with
      | Ok vk => default ""%string (fingerprint_words (key_bytes (vk_to_bytes vk)))
      | Err _ => ""
      end
  | None => ""
  end.

Definition roster_status (gate : RosterGate) (now : Z) (cfg : option Config) : option RosterStatus :=
  match g_view gate with
  | Some view =>
      Some {| rs_org_id := v_org_id view; rs_serial := v_serial view;
              rs_state := state_word (default Approved (gate_effective_state gate now));
              rs_org_root_fingerprint := pinned_fingerprint cfg; rs_groups := v_groups view |}
  | None =>
      c ← cfg;
      _ ← i_org_root_pk (c_identity c);
      Some {| rs_org_id := default ""%string (i_org_id (c_identity c)); rs_serial := 0; rs_state := "pending";
              rs_org_root_fingerprint := pinned_fingerprint cfg; rs_groups := [] |}
  end.

(** [active]: the live beats by endpoint, read once. *)
Definition active_beats (now : Z) (table : PresenceTable) : gmap key32 PresenceEntry := list_to_map (active now table).

Definition presence_peer (self : key32) (self_meta : string) (beats : gmap key32 PresenceEntry) (kd : key32 * ResolvedDevice) :
    PresencePeer :=
  {| pp_user_id := rd_user_id kd.2; pp_display_name := rd_display_name kd.2; pp_groups := rd_groups kd.2;
     pp_device_label := rd_label kd.2; pp_role := rd_role kd.2; pp_online := bool_decide (is_Some (beats !! kd.1));
     pp_meta := if decide (kd.1 = self) then self_meta else default ""%string (en_meta <$> beats !! kd.1) |}.

Definition presence_peers (self : key32) (self_meta : string) (now : Z) (table : PresenceTable) (view : option RosterView) :
    list PresencePeer :=
  match view with
  | None => []
  | Some view => merge_sort presence_le (presence_peer self self_meta (active_beats now table) <$> iter (v_devices view))
  end.

(** The members by user: seeded from the users, each device pushed to its owner. *)
Definition member_of (user_id display_name : string) (groups : list string) : RosterMember :=
  {| rm_user_id := user_id; rm_display_name := display_name; rm_groups := groups; rm_devices := [] |}.
Definition with_devices (l : list RosterMemberDevice) (m : RosterMember) : RosterMember :=
  {| rm_user_id := rm_user_id m; rm_display_name := rm_display_name m; rm_groups := rm_groups m; rm_devices := l |}.

Definition member_device (beats : gmap key32 PresenceEntry) (kd : key32 * ResolvedDevice) : RosterMemberDevice :=
  {| md_label := rd_label kd.2; md_role := rd_role kd.2; md_principal := principal kd.1; md_online := bool_decide (is_Some (beats !! kd.1)) |}.

Definition push_device (beats : gmap key32 PresenceEntry) (by_user : gmap string RosterMember) (kd : key32 * ResolvedDevice) :
    gmap string RosterMember :=
  let member := default (member_of (rd_user_id kd.2) (rd_display_name kd.2) (rd_groups kd.2)) (by_user !! rd_user_id kd.2) in
  <[rd_user_id kd.2 := with_devices (rm_devices member ++ [member_device beats kd]) member]> by_user.

Definition seed_users (users : list RosterMemberEntry) : gmap string RosterMember :=
  foldl (fun acc u => <[m_user_id u := member_of (m_user_id u) (m_display_name u) (m_groups u)]> acc) ∅ users.

Definition roster_members (now : Z) (table : PresenceTable) (view : option RosterView) : RosterMembersResult :=
  match view with
  | None => {| rr_groups := []; rr_users := [] |}
  | Some view =>
      let by_user := foldl (push_device (active_beats now table)) (seed_users (v_users view)) (iter (v_devices view)) in
      {| rr_groups := v_groups view;
         rr_users := (fun kv => with_devices (merge_sort device_le (rm_devices kv.2)) kv.2) <$> btree_iter by_user |}
  end.

(** *** Services and peers *)
Definition display_principal (p : string) (peers : list PeerEntry) : string :=
  if starts_with "eid:" p then
    default "unpaired-device"%string (pe_nickname <$> find_first (fun e => bool_decide (principal (pe_endpoint_id e) = p)) peers)
  else if starts_with "b64u:" p then
    default "unpaired-peer"%string (pe_nickname <$> find_first (fun e => bool_decide (pe_user_id e = Some p)) peers)
  else p.

Definition service_info (io : Allowlist.Io) (m : MeshState) (peers : list PeerEntry) (kv : string * ServiceEntry) : ServiceInfo :=
  let allow := List.filter (fun p => negb (principal_is_revoked io (m_store m) (m_roster m) p)) (se_allow kv.2) in
  {| si_name := kv.1; si_allow := allow; si_allow_display := (fun p => display_principal p peers) <$> allow;
     si_socket := match se_kind kv.2 with KSocket => true | KRun => false end; si_ephemeral := se_ephemeral kv.2 |}.

Definition service_infos (io : Allowlist.Io) (m : MeshState) (peers : list PeerEntry) : list ServiceInfo :=
  service_info io m peers <$> merge_sort by_key (iter (live_services (m_serving m))).

Definition known_service_names (cfg : Config) (ephemeral : gmap string EphemeralService) : list string :=
  let configured := fst <$> filter (fun kv => is_ok (backend_result kv.2) = true) (btree_iter (c_services cfg)) in
  merge_sort str_le (foldl push_unique configured (fst <$> iter ephemeral)).

Definition peer_info (e : PeerEntry) : PeerInfo :=
  {| pi_name := pe_nickname e; pi_services := pe_services e; pi_user_id := pe_user_id e; pi_principal := Some (principal (pe_endpoint_id e)) |}.
Definition peer_infos (io : Allowlist.Io) (store : PeerStore) : list PeerInfo :=
  peer_info <$> default [] (ok (list_peers io store)).

(** *** The revocations in force *)

(** A table of text keys, in key order. *)
Definition list_revoked_users (io : Allowlist.Io) (s : PeerStore) : result string (list (string * RevokedEntry)) :=
  _ ← access io Begin; _ ← access io REVOKED_USERS;
  Ok ((fun kv => (kv.1, default (unreadable_row (key_fill Byte.x00)) (revoked_from_slice kv.2))) <$> btree_iter (t_revoked_users s)).

Definition nickname_of (rows : list PeerEntry) (id : key32) : option string :=
  pe_nickname <$> find_first (fun e => bool_decide (pe_endpoint_id e = id)) rows.

Definition local_row (rows : list PeerEntry) (r : RevokedEntry) : RevokedEndpoint :=
  {| rv_principal := principal (re_endpoint_id r); rv_at := re_revoked_at r; rv_source := re_source r;
     rv_signer := re_signer_user_id r; rv_reason := re_reason r; rv_nickname := nickname_of rows (re_endpoint_id r) |}.
Definition identity_row (ur : string * RevokedEntry) : RevokedEndpoint :=
  {| rv_principal := ur.1; rv_at := re_revoked_at ur.2; rv_source := re_source ur.2;
     rv_signer := re_signer_user_id ur.2; rv_reason := re_reason ur.2; rv_nickname := None |}.

Definition roster_row (rows : list PeerEntry) (id : key32) : RevokedEndpoint :=
  {| rv_principal := principal id; rv_at := 0; rv_source := "roster"; rv_signer := None; rv_reason := None;
     rv_nickname := nickname_of rows id |}.
Definition roster_identity_row (io : Allowlist.Io) (store : PeerStore) (rows : list PeerEntry) (id : key32) (d : ResolvedDevice) :
    RevokedEndpoint :=
  let at_epoch := match find_first (fun ur => bool_decide (ur.1 = rd_user_id d)) (default [] (ok (list_revoked_users io store))) with
                  | Some ur => re_revoked_at ur.2
                  | None => 0%Z
                  end in
  {| rv_principal := principal id; rv_at := at_epoch; rv_source := "roster_identity"; rv_signer := None;
     rv_reason := Some ("device of revoked identity " +:+ rd_user_id d)%string; rv_nickname := nickname_of rows id |}.

Definition roster_revocations (io : Allowlist.Io) (store : PeerStore) (view : option RosterView) (rows : list PeerEntry) :
    list RevokedEndpoint :=
  match view with
  | None => []
  | Some view =>
      (roster_row rows <$> (fst <$> iter (gset_to_gmap tt (v_revoked view)))) ++
      omap (fun id =>
              d ← Validate.resolve view id;
              if is_roster_user_revoked io store (rd_user_id d) then Some (roster_identity_row io store rows id d) else None)
        (fst <$> iter (v_devices view))
  end.

(** The first row of a principal wins. *)
Definition push_row (acc : list RevokedEndpoint) (r : RevokedEndpoint) : list RevokedEndpoint :=
  if existsb (fun x => bool_decide (rv_principal x = rv_principal r)) acc then acc else acc ++ [r].

(** [status_result]'s [revoked]. *)
Definition revoked_rows (io : Allowlist.Io) (store : PeerStore) (view : option RosterView) : list RevokedEndpoint :=
  let rows := default [] (ok (list_peers io store)) in
  foldl push_row []
    ((local_row rows <$> default [] (ok (list_revoked io store))) ++
     (identity_row <$> default [] (ok (list_revoked_users io store))) ++
     roster_revocations io store view rows).
End status.

(** ** Lemmas *)
Section lemmas.
Context `{E : Ed25519, T : TextEncoding, TL : !TextEncodingLaws T, R : RowCodec, B : Blake3, HO : HashOrder}.

Lemma elem_of_iter {K A} `{Countable K} (m : gmap K A) k a : (k, a) ∈ iter m <-> m !! k = Some a.
Proof. rewrite iter_perm. apply elem_of_map_to_list. Qed.

Lemma push_rows_spec l acc :
  NoDup (rv_principal <$> acc) ->
  NoDup (rv_principal <$> foldl push_row acc l) /\
  acc `prefix_of` foldl push_row acc l /\
  (forall r, r ∈ foldl push_row acc l -> r ∈ acc \/ r ∈ l) /\
  (forall p, p ∈ (rv_principal <$> foldl push_row acc l) <-> p ∈ (rv_principal <$> acc) \/ p ∈ (rv_principal <$> l)).
Proof.
  revert acc. induction l as [|r l IH]; intros acc Hnd; simpl.
  - split_and!; [done|done|by left|]. intros p. rewrite elem_of_nil. tauto.
  - assert (Hex : existsb (fun x => bool_decide (rv_principal x = rv_principal r)) acc = true <-> rv_principal r ∈ (rv_principal <$> acc)).
    { rewrite existsb_elem, list_elem_of_fmap. setoid_rewrite bool_decide_eq_true. naive_solver. }
    unfold push_row at 2 4 6 8. destruct (existsb _ acc) eqn:Hb.
    + destruct (IH acc Hnd) as (H1 & H2 & H3 & H4). split_and!; [done|done| |].
      * intros x Hx. destruct (H3 x Hx); [by left|right; by right].
      * intros p. rewrite H4. cbn [fmap list_fmap]. rewrite elem_of_cons. pose proof (proj1 Hex eq_refl). naive_solver.
    + assert (Hn : rv_principal r ∉ (rv_principal <$> acc)) by (intros Hx%Hex; done).
      destruct (IH (acc ++ [r])) as (H1 & H2 & H3 & H4).
      { rewrite fmap_app. apply NoDup_app. split_and!; [done| |apply NoDup_singleton].
        intros x Hx [->|[]%elem_of_nil]%elem_of_cons. done. }
      split_and!; [done|by eapply prefix_app_l| |].
      * intros x Hx. destruct (H3 x Hx) as [[?|[->|[]%elem_of_nil]%elem_of_cons]%elem_of_app|?]; [by left|right; by left|right; by right].
      * intros p. rewrite H4, fmap_app, elem_of_app. cbn [fmap list_fmap]. rewrite !elem_of_cons, elem_of_nil. tauto.
Qed.

(** Rows written by this node carry the endpoint they are filed under. *)
Definition rows_keyed (s : PeerStore) : Prop :=
  (forall k v, t_revoked s !! k = Some v -> exists id, k = key_bytes id /\ forall e, revoked_from_slice v = Some e -> re_endpoint_id e = id) /\
  (forall k v e, t_peers s !! k = Some v -> peer_from_slice v = Some e -> k = key_bytes (pe_endpoint_id e)).

Lemma listed_endpoints s id :
  rows_keyed s -> id ∈ (re_endpoint_id <$> default [] (ok (list_revoked healthy s))) <-> is_Some (t_revoked s !! key_bytes id).
Proof.
  intros [Hk _]. unfold list_revoked. simpl. rewrite <- list_fmap_compose, list_elem_of_fmap. split.
  - intros ([k v] & -> & Hin%elem_of_rows). destruct (Hk k v Hin) as (id' & -> & He). simpl.
    destruct (revoked_from_slice v) as [e|] eqn:Hv; simpl; [by rewrite (He e eq_refl); eauto|].
    rewrite try_key32_bytes. simpl. eauto.
  - intros [v Hv]. exists (key_bytes id, v). rewrite elem_of_rows. split; [|done]. simpl.
    destruct (Hk _ _ Hv) as (id' & Heq%(inj key_bytes) & He). subst id'.
    destruct (revoked_from_slice v) as [e|] eqn:Hp; simpl; [by rewrite (He e eq_refl)|by rewrite try_key32_bytes].
Qed.

Lemma listed_users s uid :
  uid ∈ (fst <$> default [] (ok (list_revoked_users healthy s))) <-> is_Some (t_revoked_users s !! uid).
Proof.
  unfold list_revoked_users. simpl. rewrite <- list_fmap_compose, list_elem_of_fmap. unfold btree_iter. split.
  - intros ([k v] & -> & Hin). rewrite merge_sort_Permutation, elem_of_map_to_list in Hin. simpl. eauto.
  - intros [v Hv]. exists (uid, v). rewrite merge_sort_Permutation, elem_of_map_to_list. done.
Qed.

(** The endpoints the roster's half of the rows names. *)
Lemma roster_rows_spec io s view rows p :
  p ∈ (rv_principal <$> roster_revocations io s view rows) <->
  exists v id, view = Some v /\ p = principal id /\
    (Validate.is_revoked v id = true \/
     exists d, Validate.resolve v id = Some d /\ is_roster_user_revoked io s (rd_user_id d) = true).
Proof.
  unfold roster_revocations. destruct view as [v|]; [|split; [by intros ?%elem_of_nil|by intros (? & ? & ? & _)]].
  rewrite fmap_app, elem_of_app, <- !list_fmap_compose, !list_elem_of_fmap. split.
  - intros [([id []] & -> & Hin%elem_of_iter)|(r & -> & Hin%list_elem_of_omap)].
    + apply lookup_gset_to_gmap_Some in Hin as [Hin _]. exists v, id. split_and!; [done..|]. left. by apply bool_decide_eq_true.
    + destruct Hin as (id & _ & Hr). exists v, id. destruct (Validate.resolve v id) as [d|] eqn:Hd; simpl in Hr; [|done].
      destruct (is_roster_user_revoked _ _ _) eqn:Hu; [|done]. injection Hr as <-. split_and!; [done..|]. right. by exists d.
  - intros (v' & id & [= <-] & -> & [Hr|(d & Hd & Hu)]).
    + left. exists (id, tt). split; [done|]. rewrite elem_of_iter. apply lookup_gset_to_gmap_Some. split; [|done].
      by apply bool_decide_eq_true in Hr.
    + right. exists (roster_identity_row io s rows id d). split; [done|]. apply list_elem_of_omap. exists id. split.
      * rewrite list_elem_of_fmap. exists (id, d). rewrite elem_of_iter. split; [done|]. exact Hd.
      * rewrite Hd. simpl. by rewrite Hu.
Qed.

Lemma is_refused_healthy s id :
  rows_keyed s ->
  is_refused healthy s id = true <->
  is_Some (t_revoked s !! key_bytes id) \/
  exists e uid, e ∈ default [] (ok (list_peers healthy s)) /\ pe_endpoint_id e = id /\ pe_user_id e = Some uid /\
    is_Some (t_revoked_users s !! uid).
Proof.
  intros [_ Hk]. rewrite is_refused_true, admission_healthy. unfold admission_of. case_decide as Hr; [split; [by left|done]|].
  assert (Hl : forall e, e ∈ default [] (ok (list_peers healthy s)) /\ pe_endpoint_id e = id <->
    t_peers s !! key_bytes id ≫= peer_from_slice = Some e).
  { intros e. unfold list_peers. simpl. rewrite list_elem_of_omap. split.
    - intros [([k v] & Hin%elem_of_rows & Hp) <-]. simpl in Hp. rewrite <- (Hk _ _ _ Hin Hp), Hin. done.
    - destruct (t_peers s !! key_bytes id) as [v|] eqn:Hv; [|done]. simpl. intros He. split.
      + exists (key_bytes id, v). by rewrite elem_of_rows.
      + apply (inj key_bytes). symmetry. eauto. }
  destruct (t_peers s !! key_bytes id ≫= peer_from_slice) as [e|] eqn:He.
  - destruct (proj2 (Hl e) eq_refl) as [Hin Hid]. destruct (pe_user_id e ≫= _) as [u|] eqn:Hu.
    + apply bind_Some in Hu as (uid & Hu & Hs). split; [|done]. intros _. right. exists e, uid. rewrite Hs. eauto.
    + split; [done|]. intros [?|(e' & uid & Hin' & Hid' & Hu' & [x Hx])]; [done|].
      pose proof (proj1 (Hl e') (conj Hin' Hid')) as [= <-]. rewrite Hu' in Hu. simpl in Hu. congruence.
  - split; [done|]. intros [?|(e' & uid & Hin' & Hid' & _)]; [done|].
    by pose proof (proj1 (Hl e') (conj Hin' Hid')).
Qed.

Lemma starts_with_append p s : starts_with p (p +:+ s) = true.
Proof. induction p as [|a p IH]; simpl; [by destruct s|]. unfold starts_with in *. simpl. by destruct (Ascii.ascii_dec a a). Qed.
End lemmas.

(** ** Properties *)
Section properties.
Context `{E : Ed25519, T : TextEncoding, TL : !TextEncodingLaws T, R : RowCodec, RL : !RowCodecLaws R, B : Blake3, HO : HashOrder}.

(** An identity is a [b64u:] text, as every verified binding makes it. *)
Definition op_wf (op : StoreOp) : Prop :=
  match op with
  | OpAdd e => forall uid, pe_user_id e = Some uid -> starts_with "b64u:" uid = true
  | OpRevokeUser uid _ => starts_with "b64u:" uid = true
  | _ => True
  end.

Definition store_wf (s : PeerStore) : Prop :=
  rows_keyed s /\
  (forall uid, is_Some (t_revoked_users s !! uid) -> starts_with "b64u:" uid = true) /\
  (forall k v e uid, t_peers s !! k = Some v -> peer_from_slice v = Some e -> pe_user_id e = Some uid -> starts_with "b64u:" uid = true).

Ltac split_wf := refine (conj (conj _ _) (conj _ _)).

Lemma store_wf_alter s k e :
  store_wf s -> (exists v, t_peers s !! key_bytes (pe_endpoint_id e) = Some v /\ peer_from_slice v = Some e) ->
  store_wf (set_peers (<[key_bytes (pe_endpoint_id e) := peer_to_vec (with_last_addr k e)]> (t_peers s)) s).
Proof.
  intros ((Hr & Hp) & Hu & Hi) (v & Hv & He). split_wf; [done| |done|]; simpl.
  - intros k' v' e' [[<- <-]|[_ Hl]]%lookup_insert_Some Hf; [|by eapply Hp]. rewrite peer_from_to in Hf. by injection Hf as <-.
  - intros k' v' e' uid [[<- <-]|[_ Hl]]%lookup_insert_Some Hf Huid; [|by eapply Hi].
    rewrite peer_from_to in Hf. injection Hf as <-. by eapply (Hi _ v e).
Qed.

Lemma exec_wf io s op s' : exec io s op = Ok s' -> op_wf op -> store_wf s -> store_wf s'.
Proof.
  intros Hex Hop Hwf. pose proof Hwf as [[Hr Hp] [Hu Hi]]. destruct op as [e|k a|k|n|e|k|uid e|uid]; simpl in Hex.
  - apply add_put in Hex as ->. split_wf; [done| |done|]; simpl.
    + intros k v e' [[<- <-]|[_ ?]]%lookup_insert_Some Hf; [|by eapply Hp]. rewrite peer_from_to in Hf. by injection Hf as <-.
    + intros k v e' uid [[<- <-]|[_ ?]]%lookup_insert_Some Hf Huid; [|by eapply Hi]. rewrite peer_from_to in Hf.
      injection Hf as <-. by apply Hop.
  - apply result_fmap_Ok in Hex as ([b s1] & Hex & ->). unfold set_last_addr in Hex. inv_result.
    repeat (case_match; inv_result; simplify_eq/=); try done.
    match goal with Hl : t_peers s !! key_bytes k = Some ?v, Hf : peer_from_slice ?v = Some ?e |- _ =>
      pose proof (inj key_bytes _ _ (Hp _ _ _ Hl Hf)) as ->; apply store_wf_alter; eauto end.
  - apply result_fmap_Ok in Hex as ([b s1] & Hex & ->). unfold clear_last_addr in Hex. inv_result.
    repeat (case_match; inv_result; simplify_eq/=); try done.
    match goal with Hl : t_peers s !! key_bytes k = Some ?v, Hf : peer_from_slice ?v = Some ?e |- _ =>
      pose proof (inj key_bytes _ _ (Hp _ _ _ Hl Hf)) as ->; apply store_wf_alter; eauto end.
  - apply result_fmap_Ok in Hex as ([b s1] & Hex & ->). unfold remove in Hex. inv_result. split_wf; [done| |done|]; simpl.
    + intros k v e'. rewrite lookup_foldl_delete. case_decide; [done|]. apply Hp.
    + intros k v e' uid. rewrite lookup_foldl_delete. case_decide; [done|]. apply Hi.
  - apply revoke_put in Hex as ->. split_wf; [|done..]. simpl. intros k v [[<- <-]|[_ ?]]%lookup_insert_Some; [|by apply Hr].
    exists (re_endpoint_id e). split; [done|]. rewrite revoked_from_to. by intros e' [= ->].
  - apply result_fmap_Ok in Hex as ([b s1] & Hex & ->). unfold unrevoke in Hex. inv_result. split_wf; [|done..].
    simpl. intros k' v [_ ?]%lookup_delete_Some. by apply Hr.
  - apply revoke_user_put in Hex as ->. split_wf; [done..| |done]. simpl. intros u [v [[<- _]|[_ ?]]%lookup_insert_Some]; [done|].
    apply Hu. eauto.
  - apply result_fmap_Ok in Hex as ([b s1] & Hex & ->). unfold unrevoke_user in Hex. inv_result. split_wf; [done..| |done].
    simpl. intros u [v [_ ?]%lookup_delete_Some]. apply Hu. eauto.
Qed.

Lemma run_wf ops s : Forall (fun iop => op_wf iop.2) ops -> store_wf s -> store_wf (run s ops).
Proof.
  revert s. induction ops as [|[io op] ops IH]; intros s Hall Hs; [done|]. apply Forall_cons in Hall as [Hop Hall].
  unfold run. simpl. apply IH; [done|]. destruct (exec io s op) eqn:Hx; [by eapply exec_wf|done].
Qed.

Lemma empty_wf : store_wf empty_store.
Proof. split_wf; simpl; intros *; rewrite ?lookup_empty; try done; by intros [? ?]. Qed.

(** Two texts with different prefixes differ. *)
Lemma not_identity id uid : starts_with "b64u:" uid = true -> uid <> principal id.
Proof. intros Hs ->. unfold principal in Hs. done. Qed.

Lemma refused_by_iff io s view id :
  refused_by io s view id = true <-> is_refused io s id = true \/
  exists v, view = Some v /\ (Validate.is_revoked v id = true \/
    exists d, Validate.resolve v id = Some d /\ is_roster_user_revoked io s (rd_user_id d) = true).
Proof.
  unfold refused_by. destruct (is_refused io s id); [split; [by left|done]|]. destruct view as [v|].
  - rewrite orb_true_iff. split.
    + intros Hx. right. exists v. split; [done|]. destruct (Validate.resolve v id) as [d|]; destruct Hx; [by left|right; by exists d|by left|done].
    + intros [?|(v' & [= <-] & [?|(d & Hd & Hur)])]; [done|by left|right]. by rewrite Hd.
  - split; [done|]. intros [?|(v & ? & _)]; done.
Qed.

(** The principals listed: the revoked endpoints, the revoked people, the roster's. *)
Lemma revoked_principals s view p :
  rows_keyed s ->
  p ∈ (rv_principal <$> revoked_rows healthy s view) <->
    (exists k, p = principal k /\ is_Some (t_revoked s !! key_bytes k)) \/ is_Some (t_revoked_users s !! p) \/
    exists v k, view = Some v /\ p = principal k /\
      (Validate.is_revoked v k = true \/
       exists d, Validate.resolve v k = Some d /\ is_roster_user_revoked healthy s (rd_user_id d) = true).
Proof.
  intros Hk. unfold revoked_rows. set (rows := default [] (ok (list_peers healthy s))).
  rewrite (proj2 (proj2 (proj2 (push_rows_spec _ [] NoDup_nil_2)))).
  rewrite !fmap_app, !elem_of_app, <- (listed_users s p), <- !list_fmap_compose, roster_rows_spec.
  change (rv_principal ∘ identity_row) with (fst (A := string) (B := RevokedEntry)).
  assert (Hloc : p ∈ (rv_principal ∘ local_row rows <$> default [] (ok (list_revoked healthy s))) <->
    exists k, p = principal k /\ is_Some (t_revoked s !! key_bytes k)).
  { setoid_rewrite <- (fun k => listed_endpoints s k Hk). setoid_rewrite list_elem_of_fmap. simpl. split.
    - intros (r & -> & Hr). eexists. split; [done|]. by exists r.
    - intros (k & -> & r & -> & Hr). by exists r. }
  rewrite Hloc, elem_of_nil. tauto.
Qed.

(** C26: [status.revoked] explains the refusals: after any operations on the store, this node refuses
    to dial an endpoint exactly when the list names the endpoint itself, or a person some pair row
    says it belongs to; and each principal is listed once. *)
Theorem revoked_listed ops view id :
  Forall (fun iop => op_wf iop.2) ops ->
  let s := run empty_store ops in
  let listed := rv_principal <$> revoked_rows healthy s view in
  NoDup listed /\
  (refused_by healthy s view id = true <->
     principal id ∈ listed \/
     exists e uid, e ∈ default [] (ok (list_peers healthy s)) /\ pe_endpoint_id e = id /\ pe_user_id e = Some uid /\ uid ∈ listed).
Proof.
  intros Hops s listed. assert (Hwf : store_wf s) by (apply run_wf; [done|apply empty_wf]).
  clearbody s. destruct Hwf as (Hk & Hu & Hi). unfold listed. clear listed.
  split; [apply push_rows_spec; constructor|]. setoid_rewrite (fun p => revoked_principals s view p Hk).
  rewrite refused_by_iff, (is_refused_healthy s id Hk). split.
  - intros [[Hs|(e & uid & He & Hid & Hue & Hs)]|(v & -> & Hv)].
    + left. left. eauto.
    + right. exists e, uid. split_and!; [done..|]. right. by left.
    + left. right. right. by exists v, id.
  - intros [[(k & Heq%principal_inj & Hs)|[Hs|(v & k & Hv & Heq%principal_inj & Hr)]]|(e & uid & He & Hid & Hue & Hl)].
    + subst k. left. by left.
    + apply Hu in Hs. by destruct (not_identity id _ Hs).
    + subst k. right. by exists v.
    + left. right. exists e, uid. split_and!; [done..|].
      assert (Hb : starts_with "b64u:" uid = true).
      { unfold list_peers in He. simpl in He. apply list_elem_of_omap in He as ([k v] & Hkv%elem_of_rows & Hp). by eapply Hi. }
      destruct Hl as [(k & -> & _)|[Hs|(v & k & _ & -> & _)]]; [by destruct (not_identity k _ Hb)|done|by destruct (not_identity k _ Hb)].
Qed.

(** *** Members *)
Lemma seed_users_spec users u (acc : gmap string RosterMember) :
  foldl (fun acc u => <[m_user_id u := member_of (m_user_id u) (m_display_name u) (m_groups u)]> acc) acc users !! u =
  match last (filter (fun x => m_user_id x = u) users) with
  | Some x => Some (member_of u (m_display_name x) (m_groups x))
  | None => acc !! u
  end.
Proof.
  revert acc. induction users as [|x users IH]; intros acc; [done|]. cbn [foldl]. rewrite IH, filter_cons.
  destruct (decide (m_user_id x = u)) as [<-|Hne].
  - rewrite lookup_insert_eq, last_cons. by destruct (last _).
  - by rewrite lookup_insert_ne.
Qed.

Lemma push_devices_spec beats l by_user u :
  let owned := member_device beats <$> filter (fun kd => rd_user_id kd.2 = u) l in
  match by_user !! u with
  | Some m => foldl (push_device beats) by_user l !! u = Some (with_devices (rm_devices m ++ owned) m)
  | None => rm_devices <$> (foldl (push_device beats) by_user l !! u) = match owned with [] => None | _ => Some owned end
  end.
Proof.
  revert by_user. induction l as [|kd l IH]; intros by_user; simpl.
  - destruct (by_user !! u) as [m|] eqn:Hm; [|done]. rewrite app_nil_r. by destruct m.
  - rewrite filter_cons. specialize (IH (push_device beats by_user kd)). simpl in IH. unfold push_device at 1 in IH.
    destruct (decide (rd_user_id kd.2 = u)) as [Hu|Hu].
    + rewrite Hu, lookup_insert_eq in IH. simpl. rewrite IH. destruct (by_user !! u) as [m|]; simpl; [|done].
      by rewrite <- app_assoc.
    + rewrite lookup_insert_ne in IH by done. done.
Qed.

Lemma members_by_user beats users devices u :
  (forall kd, kd ∈ devices -> rd_user_id kd.2 ∈ (m_user_id <$> users)) ->
  foldl (push_device beats) (seed_users users) devices !! u =
  (fun x => {| rm_user_id := u; rm_display_name := m_display_name x; rm_groups := m_groups x;
               rm_devices := member_device beats <$> filter (fun kd => rd_user_id kd.2 = u) devices |}) <$>
  last (filter (fun x => m_user_id x = u) users).
Proof.
  intros Hown. pose proof (push_devices_spec beats devices (seed_users users) u) as Hp. simpl in Hp.
  unfold seed_users in *. rewrite seed_users_spec, lookup_empty in Hp.
  destruct (last (filter (fun x => m_user_id x = u) users)) as [x|] eqn:Hl; [exact Hp|]. simpl.
  rewrite filter_none in Hp; [by destruct (foldl _ _ _ !! u)|].
  intros kd Hin Hu. specialize (Hown kd Hin). rewrite Hu in Hown. apply list_elem_of_fmap in Hown as (x & -> & Hx).
  apply last_None in Hl. assert (Hf : x ∈ filter (fun y => m_user_id y = m_user_id x) users) by (apply list_elem_of_filter; done).
  rewrite Hl in Hf. by apply elem_of_nil in Hf.
Qed.

#[export] Instance str_le_total : Total str_le.
Proof. intros a b. unfold str_le. destruct (String.leb_total a b); auto. Qed.
#[export] Instance str_le_trans : Transitive str_le.
Proof. intros a b c. unfold str_le. rewrite <- !Is_true_true. intros. by apply (transitivity (R := String.le) (y := b)). Qed.
#[export] Instance by_key_total {A} : Total (@by_key A).
Proof. intros a b. exact (total str_le a.1 b.1). Qed.
#[export] Instance by_key_trans {A} : Transitive (@by_key A).
Proof. intros a b c. unfold by_key. apply (transitivity (R := str_le)). Qed.
#[export] Instance device_le_total : Total device_le.
Proof.
  intros a b. unfold device_le. destruct (Z.lt_trichotomy (dial_role_rank (md_role a)) (dial_role_rank (md_role b))) as [?|[?|?]]; [by do 2 left| |by right; left].
  destruct (total str_le (md_label a) (md_label b)); [left|right]; by right.
Qed.
#[export] Instance device_le_trans : Transitive device_le.
Proof.
  intros a b c. unfold device_le. intros [?|[? H1]] [?|[? H2]]; [left; lia..|]. right. split; [lia|]. by etrans.
Qed.

Lemma sorted_keys {A} (l : list (string * A)) : StronglySorted str_le (merge_sort by_key l).*1.
Proof.
  pose proof (StronglySorted_merge_sort by_key l) as Hs. revert Hs. generalize (merge_sort by_key l). clear l. intros l Hs.
  induction Hs as [|a l Hs IH Ha]; simpl; constructor; [done|]. apply Forall_fmap. exact Ha.
Qed.

(** The member list is complete: every person of the roster once, in order, whether or not any
    device of theirs is active or online, under the name and groups the roster gives them, each
    with exactly their active devices, primary ones first. *)
Theorem members_complete now table v :
  (forall k d, v_devices v !! k = Some d -> rd_user_id d ∈ (m_user_id <$> v_users v)) ->
  let members := rr_users (roster_members now table (Some v)) in
  StronglySorted str_le (rm_user_id <$> members) /\ NoDup (rm_user_id <$> members) /\
  (forall u, u ∈ (rm_user_id <$> members) <-> u ∈ (m_user_id <$> v_users v)) /\
  forall m, m ∈ members ->
    (exists x, x ∈ v_users v /\ m_user_id x = rm_user_id m /\ m_display_name x = rm_display_name m /\ m_groups x = rm_groups m) /\
    StronglySorted device_le (rm_devices m) /\
    rm_devices m ≡ₚ member_device (active_beats now table) <$> filter (fun kd => rd_user_id kd.2 = rm_user_id m) (map_to_list (v_devices v)).
Proof.
  intros Hown. simpl. set (beats := active_beats now table).
  set (by_user := foldl (push_device beats) (seed_users (v_users v)) (iter (v_devices v))).
  assert (Hby : forall u, by_user !! u = _) by (intros u; apply members_by_user; intros [k d] Hin%elem_of_iter; eauto).
  assert (Hid : rm_user_id <$> ((fun kv => with_devices (merge_sort device_le (rm_devices kv.2)) kv.2) <$> btree_iter by_user) = (btree_iter by_user).*1).
  { rewrite <- list_fmap_compose. apply list_fmap_ext. intros i [u m] Hi. simpl.
    apply list_elem_of_lookup_2 in Hi. rewrite btree_iter_perm, elem_of_map_to_list, Hby in Hi.
    apply fmap_Some in Hi as (x & _ & ->). done. }
  rewrite Hid. split_and!.
  - apply sorted_keys.
  - rewrite btree_iter_perm. apply NoDup_fst_map_to_list.
  - intros u. rewrite btree_iter_perm, !list_elem_of_fmap. split.
    + intros ([u' m] & -> & Hm%elem_of_map_to_list). rewrite Hby in Hm. apply fmap_Some in Hm as (x & Hx & _).
      apply last_Some_elem_of, list_elem_of_filter in Hx as [<- ?]. by exists x.
    + intros (x & -> & Hx). destruct (last (filter (fun y => m_user_id y = m_user_id x) (v_users v))) as [y|] eqn:Hl.
      * eexists (m_user_id x, _). rewrite elem_of_map_to_list, Hby, Hl. done.
      * apply last_None in Hl. assert (Hf : x ∈ filter (fun y => m_user_id y = m_user_id x) (v_users v)) by (apply list_elem_of_filter; done).
        rewrite Hl in Hf. by apply elem_of_nil in Hf.
  - intros m Hm. apply list_elem_of_fmap in Hm as ([u m'] & -> & Hm). rewrite btree_iter_perm, elem_of_map_to_list, Hby in Hm.
    apply fmap_Some in Hm as (x & Hx & ->). apply last_Some_elem_of, list_elem_of_filter in Hx as [Hu Hx]. simpl.
    split_and!; [by exists x|apply (StronglySorted_merge_sort device_le)|]. by rewrite merge_sort_Permutation, iter_perm.
Qed.

(** *** Services *)
Lemma display_principal_spec p peers :
  (starts_with "eid:" p = false /\ starts_with "b64u:" p = false /\ display_principal p peers = p) \/
  display_principal p peers = "unpaired-device"%string \/ display_principal p peers = "unpaired-peer"%string \/
  exists e, e ∈ peers /\ display_principal p peers = pe_nickname e /\ (principal (pe_endpoint_id e) = p \/ pe_user_id e = Some p).
Proof.
  unfold display_principal. destruct (starts_with "eid:" p) eqn:H1; [|destruct (starts_with "b64u:" p) eqn:H2; [|by left]].
  - destruct (find_first _ peers) as [e|] eqn:Hf; [|by right; left]. right. right. right. exists e.
    apply find_first_Some in Hf as [? ?%bool_decide_eq_true]. simpl. auto.
  - destruct (find_first _ peers) as [e|] eqn:Hf; [|by right; right; left]. right. right. right. exists e.
    apply find_first_Some in Hf as [? ?%bool_decide_eq_true]. simpl. auto.
Qed.

(** What [status] says of the services is what the gate does: exactly the live services, each
    once and in order; a principal is listed exactly when the live entry lists it and it is not
    revoked, so no device this node refuses as revoked is ever listed, even when the store cannot be read;
    and what is displayed is a contact's name, a placeholder or a group's, never a raw principal. *)
Theorem services_reported io m peers :
  let infos := service_infos io m peers in
  StronglySorted str_le (si_name <$> infos) /\ NoDup (si_name <$> infos) /\
  (forall n, n ∈ (si_name <$> infos) <-> is_Some (live_services (m_serving m) !! n)) /\
  forall i, i ∈ infos ->
    (exists entry, live_services (m_serving m) !! si_name i = Some entry /\ si_ephemeral i = se_ephemeral entry /\
      forall p, p ∈ si_allow i <-> p ∈ se_allow entry /\ principal_is_revoked io (m_store m) (m_roster m) p = false) /\
    (forall id, is_refused io (m_store m) id = true -> principal id ∉ si_allow i) /\
    Forall2 (fun p d => (d = p /\ starts_with "eid:" p = false /\ starts_with "b64u:" p = false) \/
                        d = "unpaired-device"%string \/ d = "unpaired-peer"%string \/ exists e, e ∈ peers /\ d = pe_nickname e)
      (si_allow i) (si_allow_display i).
Proof.
  intros infos. assert (Hn : si_name <$> infos = (merge_sort by_key (iter (live_services (m_serving m)))).*1).
  { unfold infos, service_infos. by rewrite <- list_fmap_compose. }
  rewrite Hn. split_and!.
  - apply sorted_keys.
  - rewrite merge_sort_Permutation, iter_perm. apply NoDup_fst_map_to_list.
  - intros n. rewrite merge_sort_Permutation, list_elem_of_fmap. split.
    + intros ([n' e] & -> & Hin%elem_of_iter). simpl. eauto.
    + intros [e He]. exists (n, e). by rewrite elem_of_iter.
  - intros i Hi. apply list_elem_of_fmap in Hi as ([n e] & -> & He). rewrite merge_sort_Permutation, elem_of_iter in He.
    assert (Hal : forall p, p ∈ si_allow (service_info io m peers (n, e)) <->
      p ∈ se_allow e /\ principal_is_revoked io (m_store m) (m_roster m) p = false).
    { intros p. simpl. rewrite list_elem_of_In, filter_In, <- list_elem_of_In, negb_true_iff. done. }
    split_and!.
    + exists e. done.
    + intros id Hr [_ Hp]%Hal. unfold principal_is_revoked in Hp. rewrite (proj2 (principal_to_endpoint_spec _ id) eq_refl), Hr in Hp. done.
    + simpl. apply Forall2_fmap_r, Forall_Forall2_diag, Forall_forall. intros p _.
      destruct (display_principal_spec p peers) as [(? & ? & ?)|[?|[?|(x & ? & ? & _)]]]; [by left|by right; left|by do 2 right; left|].
      do 3 right. by exists x.
Qed.
End properties.

(** ** Witnesses *)
Module Witness.
Import Toy ToyRows Limits.Witness.

Definition phone : key32 := key_fill Byte.x50.
Definition laptop : key32 := key_fill Byte.x51.
Definition alice : string := "b64u:alice".
Definition row_of (id : key32) (name : string) (user : option string) : PeerEntry :=
  {| pe_endpoint_id := id; pe_nickname := name; pe_services := []; pe_paired_at := Some "then"%string; pe_user_id := user; pe_last_addr := None |}.
Definition revocation (id : key32) : RevokedEntry :=
  {| re_endpoint_id := id; re_revoked_at := 7; re_reason := None; re_source := "operator"; re_signer_user_id := None; re_issued_at := None |}.

(** Alice's phone is paired; her identity and another laptop were revoked here. *)
Definition ops : list (Io * StoreOp) :=
  [(healthy, OpAdd (row_of phone "phone" (Some alice))); (healthy, OpRevokeUser alice (revocation (key_fill Byte.x00)));
   (healthy, OpRevoke (revocation laptop))].
Definition s0 : PeerStore := run empty_store ops.

Example phone_refused_by_identity :
  refused_by healthy s0 None phone = true /\
  rv_principal <$> revoked_rows healthy s0 None = [principal laptop; alice].
Proof. split; vm_compute; reflexivity. Qed.

Lemma ops_ok : Forall (fun iop : Io * StoreOp => op_wf iop.2) ops.
Proof. repeat constructor. intros uid [= <-]. reflexivity. Qed.

Lemma revoked_listed_witness :
  Forall (fun iop : Io * StoreOp => op_wf iop.2) ops /\ refused_by healthy s0 None phone = true /\
  (principal phone ∈ (rv_principal <$> revoked_rows healthy s0 None) \/
   exists e uid, e ∈ default [] (ok (list_peers healthy s0)) /\ pe_endpoint_id e = phone /\ pe_user_id e = Some uid /\
     uid ∈ (rv_principal <$> revoked_rows healthy s0 None)).
Proof.
  split; [exact ops_ok|]. assert (Hr : refused_by healthy s0 None phone = true) by (vm_compute; reflexivity).
  split; [exact Hr|]. exact (proj1 (proj2 (revoked_listed ops None phone ops_ok)) Hr).
Defined.

Definition device (owner role label : string) : ResolvedDevice :=
  {| rd_user_id := owner; rd_display_name := "Alice"; rd_groups := ["ops"%string]; rd_role := role; rd_label := label |}.
Definition v0 : RosterView :=
  {| v_org_id := "acme"; v_serial := 3; v_expires_at_epoch := 100; v_devices := {[phone := device "alice" "mirror" "phone"; laptop := device "alice" "primary" "laptop"]};
     v_revoked := ∅; v_groups := ["ops"%string];
     v_users := [{| m_user_id := "bob"; m_display_name := "Bob"; m_groups := [] |}; {| m_user_id := "alice"; m_display_name := "Alice"; m_groups := ["ops"%string] |}] |}.
Definition beats : PresenceTable := {[phone := {| en_user_id := "alice"; en_ts := 50; en_meta := "" |}]}.

(** Bob has no device left and is listed; Alice's primary comes first and is offline. *)
Example members_of_v0 :
  (fun m => (rm_user_id m, (fun d => (md_label d, md_online d)) <$> rm_devices m)) <$> rr_users (roster_members 60 beats (Some v0)) =
  [("alice"%string, [("laptop"%string, false); ("phone"%string, true)]); ("bob"%string, [])].
Proof. vm_compute. reflexivity. Qed.

Lemma owners_listed k d : v_devices v0 !! k = Some d -> rd_user_id d ∈ (m_user_id <$> v_users v0).
Proof.
  intros Hk. assert (Hd : rd_user_id d = "alice"%string); [|rewrite Hd; right; left].
  change (v_devices v0) with (<[phone := device "alice" "mirror" "phone"]> ({[laptop := device "alice" "primary" "laptop"]} : gmap key32 ResolvedDevice)) in Hk.
  apply lookup_insert_Some in Hk as [[_ <-]|[_ Hk]]; [done|]. by apply lookup_singleton_Some in Hk as [_ <-].
Qed.

Lemma members_complete_witness :
  (forall k d, v_devices v0 !! k = Some d -> rd_user_id d ∈ (m_user_id <$> v_users v0)) /\
  forall u, u ∈ (rm_user_id <$> rr_users (roster_members 60 beats (Some v0))) <-> u ∈ (m_user_id <$> v_users v0).
Proof. split; [exact owners_listed|]. exact (proj1 (proj2 (proj2 (members_complete 60 beats v0 owners_listed)))). Defined.

Lemma services_reported_witness :
  is_Some (live_services (m_serving Grants.Witness.m2) !! "notes"%string) /\
  "notes"%string ∈ (si_name <$> service_infos healthy Grants.Witness.m2 []).
Proof.
  assert (Hs : is_Some (live_services (m_serving Grants.Witness.m2) !! "notes"%string)) by (vm_compute; eauto).
  split; [exact Hs|]. exact (proj2 (proj1 (proj2 (proj2 (services_reported healthy Grants.Witness.m2 []))) "notes"%string) Hs).
Defined.
End Witness.
