(* ===== verification/Minting.v ===== *)
(** * Minting an invite

    The [invite] verb ([mint_invite] of [node/src/daemon/handlers.rs]): what it refuses and in
    which order, the invite it registers and the line it hands out. *)
From stdpp Require Import base list gmap strings.
From Stdlib Require Import ZArith Lia Strings.Byte.
From S2P Require Import Prelude Bytes Externals Identity Limits Config Mesh Grants Peers Keys Sign SelfKey Status Allowlist Invites Rendezvous.

Definition MAX_INVITE_USES : Z := 64.
Definition INVITE_TTL : Z := 24 * 60 * 60.
Definition ERR_SELF_ENROLL_NO_KEY : Z := (-32059)%Z.

Record InviteParams := {
  mp_services : list string;
  mp_app_label : option string;
  mp_max_uses : option Z;
  mp_peer_nickname : option string;
  mp_as_self : bool }.
Record InviteResult := { ir_invite_line : string; ir_expires_at_epoch : Z; ir_uses_remaining : Z }.

Inductive MintError := MintVerb (e : VerbError) | MintRefusal (code : Z).

(** The faults of one mint: of the store and of the configuration, of the reap's write and
    of the mint's own. *)
Record MintIo := { mi_store : Allowlist.Io; mi_config : Config.Faults; mi_reap : FileIo; mi_file : FileIo }.

(** What the endpoint and the clock give: our id and address, our name, the secret drawn. *)
Record MintEnv := {
  me_inviter_id : key32; me_inviter_addr_json : string; me_nickname : string; me_secret : key32; me_now : Z }.

(** The names, quoted: one, or several separated by commas. *)
Definition quoted (names : list string) : list string := (fun n => "'" +:+ n +:+ "'") <$> names.
Definition unregistered_service_error (requested served : list string) : option string :=
  let named :=
    match quoted (filter (fun r => r ∉ served) requested) with
    | [] => None
    | [one] => Some ("no service named " +:+ one)
    | many => Some ("no services named " +:+ String.concat ", " many)
    end in
  (fun named =>
     match served with
     | [] => named +:+ " — nothing is served yet; register one with 'mcpmesh serve <name> -- <command>'"
     | _ => named +:+ " — you serve: " +:+ String.concat ", " served +:+ " (see 'mcpmesh status')"
     end) <$> named.

Section mint.
Context `{H : HashOrder, E : Ed25519, T : TextEncoding, R : RowCodec, K : TomlCodec, C : InviteCodec}.

Definition invalid {A} (m : string) : result MintError A := Err (MintVerb (InvalidParams m)).
Definition failed {A} (m : string) : result MintError A := Err (MintVerb (Failed m)).
Definition refuse_if (b : bool) (e : MintError) : result MintError unit := if b then Err e else Ok tt.

Definition uses_of_request (max_uses : option Z) : result MintError Z :=
  match max_uses with
  | None => Ok 1%Z
  | Some n => if decide (n = 0)%Z then invalid "max_uses must be at least 1" else Ok (Z.min n MAX_INVITE_USES)
  end.

Definition multi_use (max_uses : option Z) : bool := match max_uses with Some n => (1 <? n)%Z | None => false end.

(** Whether this device can enroll another: the binding it adopted is looked at first. *)
Definition self_enroll_checks (s : SelfKeys) (p : InviteParams) : result MintError unit :=
  _ ← refuse_if (mp_as_self p && multi_use (mp_max_uses p)) (MintVerb (InvalidParams "as_self cannot be combined with max_uses"));
  _ ← refuse_if (mp_as_self p && negb (bool_decide (mp_services p = []))) (MintVerb (InvalidParams "as_self grants nothing"));
  if mp_as_self p then
    _ ← refuse_if (bool_decide (is_Some (k_adopted s))) (MintRefusal ERR_SELF_ENROLL_NO_KEY);
    refuse_if (bool_decide (self_binding s = None)) (MintVerb (Failed "this device has no user identity to enroll into"))
  else Ok tt.

Definition alias_checks (io : Allowlist.Io) (store : PeerStore) (p : InviteParams) : result MintError (option string) :=
  alias ← map_err MintVerb (validated_alias "peer_nickname" (mp_peer_nickname p));
  _ ← refuse_if (bool_decide (is_Some alias) && multi_use (mp_max_uses p))
        (MintVerb (InvalidParams "peer_nickname cannot be combined with max_uses"));
  match alias with
  | None => Ok None
  | Some a =>
      rows ← map_err (fun e => MintVerb (Failed e)) (list_peers io store);
      _ ← refuse_if (existsb (fun e => bool_decide (pe_nickname e = a)) rows)
            (MintVerb (InvalidParams "peer_nickname is already the name of a peer"));
      Ok (Some a)
  end.

Definition service_checks (io : Config.Faults) (s : Serving) (p : InviteParams) : result MintError unit :=
  _ ← refuse_if (match mp_app_label p with
                 | Some label => (MAX_APP_LABEL_LEN <? Z.of_nat (String.length label))%Z
                 | None => false
                 end) (MintVerb (Failed "app_label is too long"));
  _ ← refuse_if (bool_decide (mp_services p = []) && negb (mp_as_self p))
        (MintVerb (Failed "invite must name at least one registered service"));
  cfg ← map_err (fun e => MintVerb (Failed ("config error in config.toml: " +:+ e))) (config_load io (s_config s));
  match unregistered_service_error (mp_services p) (known_service_names cfg (s_ephemeral s)) with
  | Some msg => failed msg
  | None => Ok tt
  end.

(** Everything that is refused before a secret is drawn. *)
Definition mint_checks (io : MintIo) (m : MeshState) (s : SelfKeys) (p : InviteParams) : result MintError (Z * option string) :=
  uses ← uses_of_request (mp_max_uses p);
  _ ← self_enroll_checks s p;
  alias ← alias_checks (mi_store io) (m_store m) p;
  _ ← service_checks (mi_config io) (m_serving m) p;
  Ok (uses, alias).

Definition new_invite (e : MintEnv) (p : InviteParams) (uses : Z) (alias : option string) : Invite :=
  {| i_secret := me_secret e; i_inviter_id := me_inviter_id e; i_inviter_addr_json := me_inviter_addr_json e;
     i_nickname := me_nickname e; i_services := mp_services p; i_expires_at_epoch := ((me_now e + INVITE_TTL) mod 2 ^ 64)%Z;
     i_app_label := mp_app_label p; i_peer_nickname := alias; i_as_self := mp_as_self p; i_uses_remaining := uses |}.

Definition mint_invite (io : MintIo) (m : MeshState) (s : SelfKeys) (e : MintEnv) (p : InviteParams) (l : LiveInvites) :
    result MintError InviteResult * LiveInvites :=
  match mint_checks io m s p with
  | Err err => (Err err, l)
  | Ok (uses, alias) =>
      let invite := new_invite e p uses alias in
      let l := remove_expired (mi_reap io) l (me_now e) in
      match mint (mi_file io) l invite with
      | (Err err, l) => (Err (MintVerb (Failed err)), l)
      | (Ok _, l) =>
          (Ok {| ir_invite_line := encode invite; ir_expires_at_epoch := i_expires_at_epoch invite;
                 ir_uses_remaining := uses |}, l)
      end
  end.
End mint.

(** ** Redeeming

    The [pair] verb: our own name for the inviter is checked before anything is contacted,
    and a redemption that succeeds grants the inviter what this node serves. *)
Inductive RedeemVerbError := BadAlias (e : VerbError) | BadRedemption (e : RedeemError).

Definition redeem `{E : Ed25519, T : TextEncoding, B : Blake3, R : RowCodec, C : InviteCodec} (F : RedeemFaults) (N : Net)
    (a : RedeemArgs) (invite_line : string) (now : Z) (d : Redeemer) : result RedeemVerbError PairResult * Redeemer :=
  match validated_alias "as_nickname" (a_as_nickname a) with
  | Err e => (Err (BadAlias e), d)
  | Ok alias =>
      let a := {| a_self_id := a_self_id a; a_self_nickname := a_self_nickname a; a_as_nickname := alias;
                  a_self_enroll := a_self_enroll a; a_adopt_binding := a_adopt_binding a; a_self_binding := a_self_binding a;
                  a_grant_back := a_grant_back a |} in
      let '(r, d) := redeem_invite F N a invite_line now d in (map_err BadRedemption r, d)
  end.

(** The hook behind [a_grant_back]: best effort, over the services of the configuration. *)
Definition grant_back `{H : HashOrder, T : TextEncoding, R : RowCodec, K : TomlCodec} (io : VerbIo) (ts principal display : string) : Verb unit := fun m =>
  match config_load (v_check io) (s_config (m_serving m)) with
  | Err _ => (Ok tt, m)
  | Ok cfg =>
      match (btree_iter (c_services cfg)).*1 with
      | [] => (Ok tt, m)
      | names => Grants.logged (grant_service_access io ts principal display names) m
      end
  end.

(** ** Lemmas *)
Lemma refuse_if_Ok b e : refuse_if b e = Ok tt <-> b = false.
Proof. by destruct b. Qed.

Lemma unregistered_None requested served :
  unregistered_service_error requested served = None <-> Forall (fun r => r ∈ served) requested.
Proof.
  unfold unregistered_service_error, quoted. rewrite fmap_None. split.
  - intros Hq. assert (Hf : filter (fun r => r ∉ served) requested = []).
    { destruct (filter _ requested) as [|x [|y l]]; simpl in Hq; done. }
    apply Forall_forall. intros r Hr. destruct (decide (r ∈ served)) as [|Hn]; [done|].
    exfalso. apply (not_elem_of_nil r). rewrite <- Hf. by apply list_elem_of_filter.
  - intros Hall. assert (Hf : filter (fun r => r ∉ served) requested = []); [|by rewrite Hf].
    apply filter_none. intros r Hr Hn. rewrite Forall_forall in Hall. by apply Hn, Hall.
Qed.

Section lemmas.
Context `{H : HashOrder, E : Ed25519, T : TextEncoding, TL : !TextEncodingLaws T, R : RowCodec, K : TomlCodec, C : InviteCodec,
  CL : !InviteCodecLaws C}.

(** What passing the checks means. *)
Record admissible (io : MintIo) (m : MeshState) (s : SelfKeys) (p : InviteParams) (uses : Z) (alias : option string) : Prop := {
  ad_uses : uses = match mp_max_uses p with None => 1%Z | Some n => Z.min n MAX_INVITE_USES end;
  ad_nonzero : mp_max_uses p <> Some 0%Z;
  ad_self : mp_as_self p = true -> mp_services p = [] /\ multi_use (mp_max_uses p) = false /\
    k_adopted s = None /\ is_Some (self_binding s);
  ad_other : mp_as_self p = false -> mp_services p <> [];
  ad_alias : validated_alias "peer_nickname" (mp_peer_nickname p) = Ok alias;
  ad_single a : alias = Some a -> multi_use (mp_max_uses p) = false;
  ad_free a : alias = Some a -> exists rows, list_peers (mi_store io) (m_store m) = Ok rows /\ Forall (fun e => pe_nickname e <> a) rows;
  ad_label label : mp_app_label p = Some label -> (Z.of_nat (String.length label) <= MAX_APP_LABEL_LEN)%Z;
  ad_served : exists cfg, config_load (mi_config io) (s_config (m_serving m)) = Ok cfg /\
    Forall (fun name => name ∈ known_service_names cfg (s_ephemeral (m_serving m))) (mp_services p) }.

Lemma mint_checks_Ok io m s p uses alias :
  mint_checks io m s p = Ok (uses, alias) <-> admissible io m s p uses alias.
Proof.
  unfold mint_checks, self_enroll_checks, alias_checks, service_checks. split.
  - intros H0. apply bind_Ok in H0 as (u & Hu & H0). apply bind_Ok in H0 as ([] & Hself & H0).
    apply bind_Ok in H0 as (a & Ha & H0). apply bind_Ok in H0 as ([] & Hsv & [= -> ->]).
    apply bind_Ok in Hself as ([] & H1%refuse_if_Ok & Hself). apply bind_Ok in Hself as ([] & H2%refuse_if_Ok & Hself).
    apply bind_Ok in Ha as (a' & Hv%map_err_Ok & Ha). apply bind_Ok in Ha as ([] & H3%refuse_if_Ok & Ha).
    apply bind_Ok in Hsv as ([] & H4%refuse_if_Ok & Hsv). apply bind_Ok in Hsv as ([] & H5%refuse_if_Ok & Hsv).
    apply bind_Ok in Hsv as (cfg & Hc%map_err_Ok & Hsv).
    assert (a' = alias /\ forall x, alias = Some x -> exists rows, list_peers (mi_store io) (m_store m) = Ok rows /\
      Forall (fun e => pe_nickname e <> x) rows) as [-> Hfree].
    { destruct a' as [x|]; [|by injection Ha as <-]. apply bind_Ok in Ha as (rows & Hr%map_err_Ok & Ha).
      apply bind_Ok in Ha as ([] & Hx%refuse_if_Ok & [= <-]). split; [done|]. intros y [= <-]. exists rows. split; [done|].
      apply Forall_forall. intros e He. rewrite existsb_false in Hx.
      apply Hx in He. by apply bool_decide_eq_false in He. }
    split; try done.
    + unfold uses_of_request in Hu. destruct (mp_max_uses p) as [n|]; [|by injection Hu as <-]. case_decide; [done|]. by injection Hu as <-.
    + intros Hz. unfold uses_of_request in Hu. rewrite Hz in Hu. done.
    + intros Hs. rewrite Hs in *. apply negb_false_iff, bool_decide_eq_true in H2. split; [done|]. split; [done|].
      apply bind_Ok in Hself as ([] & H6%refuse_if_Ok & H7%refuse_if_Ok).
      apply bool_decide_eq_false in H6, H7. split; [by apply eq_None_not_Some|]. destruct (self_binding s); [eauto|done].
    + intros Hs He. by rewrite Hs, He in H5.
    + intros x Hx. by rewrite Hx, bool_decide_eq_true_2 in H3 by eauto.
    + intros label Hl. rewrite Hl in H4. by apply Z.ltb_ge in H4.
    + exists cfg. split; [done|]. destruct (unregistered_service_error _ _) eqn:Hn; [done|]. by apply unregistered_None in Hn.
  - intros [Hu Hz Hself Hother Hv Hsingle Hfree Hlabel (cfg & Hc & Hsv)].
    assert (uses_of_request (mp_max_uses p) = Ok uses) as ->.
    { unfold uses_of_request. destruct (mp_max_uses p); [|by subst]. rewrite decide_False by congruence. by subst. }
    assert (Hlab : match mp_app_label p with
                   | Some label => (MAX_APP_LABEL_LEN <? Z.of_nat (String.length label))%Z | None => false end = false).
    { destruct (mp_app_label p) as [label|]; [|done]. apply Z.ltb_ge. by apply Hlabel. }
    assert (Hgrant : bool_decide (mp_services p = []) && negb (mp_as_self p) = false).
    { destruct (mp_as_self p); [by rewrite andb_false_r|]. by rewrite bool_decide_eq_false_2 by auto. }
    assert (Hown : (if mp_as_self p
                    then _ ← refuse_if (bool_decide (is_Some (k_adopted s))) (MintRefusal ERR_SELF_ENROLL_NO_KEY);
                         refuse_if (bool_decide (self_binding s = None)) (MintVerb (Failed "this device has no user identity to enroll into"))
                    else Ok tt) = Ok tt).
    { destruct (mp_as_self p); [|done]. destruct (Hself eq_refl) as (_ & _ & Hk & [b Hb]). by rewrite Hk, Hb. }
    assert (H1 : mp_as_self p && multi_use (mp_max_uses p) = false) by (destruct (mp_as_self p); [apply Hself|]; done).
    assert (H2 : mp_as_self p && negb (bool_decide (mp_services p = [])) = false).
    { destruct (mp_as_self p); [|done]. destruct (Hself eq_refl) as [He _]. by rewrite bool_decide_eq_true_2. }
    rewrite H1, H2, Hown, Hv, Hlab, Hgrant, Hc. simpl. rewrite (proj2 (unregistered_None _ _)) by done.
    destruct alias as [a|]; simpl; [|done]. rewrite (Hsingle a eq_refl). destruct (Hfree a eq_refl) as (rows & -> & Hrows).
    simpl. rewrite (proj2 (existsb_false _ rows)); [done|]. rewrite Forall_forall in Hrows. intros e He.
    apply bool_decide_eq_false. by apply Hrows.
Qed.

Lemma reap_incl io l now k i : l_inner (remove_expired io l now) !! k = Some i -> l_inner l !! k = Some i.
Proof.
  assert (Hf : l_inner (remove_expired io l now) = filter (fun kv => live now kv.2) (l_inner l)).
  { unfold remove_expired. case_decide; [done|]. unfold persist, set_inner. simpl. destruct (l_file l); [|done]. by destruct (io Store). }
  rewrite Hf. by intros [? _]%map_lookup_filter_Some.
Qed.

Lemma mint_failed io l i e l' : mint io l i = (Err e, l') -> l_inner l' = l_inner l.
Proof.
  unfold mint, persist, set_inner. simpl. destruct (l_file l); [|done]. destruct (io Store); [|done]. intros [= <- <-]. simpl.
  destruct (l_inner l !! i_secret i) eqn:Hd.
  - by rewrite insert_insert_eq, insert_id.
  - rewrite delete_insert_id by done. done.
Qed.

Lemma mint_recorded io l i l' :
  map_wf (l_inner l) -> invite_wf i -> mint io l i = (Ok (), l') ->
  map_wf (l_inner l') /\ recorded l' /\ l_inner l' = <[i_secret i := i]> (l_inner l).
Proof.
  intros Hm Hi Hmint. unfold mint in Hmint.
  assert (Hm' : map_wf (<[i_secret i := i]> (l_inner l))) by by apply map_Forall_insert_2.
  destruct (persist io _ _) as [r l1] eqn:Hp. apply persist_recorded in Hp as [Hin Hr]; [|done].
  destruct r as [[]|]; [|done]. injection Hmint as <-. rewrite Hin. done.
Qed.

(** A recorded invite is in the registry a restart loads. *)
Definition reopened (now : Z) (l : LiveInvites) : LiveInvites := (invite_step l (disk_ok, OpRestart now)).1.

Lemma reopened_keeps l now k i :
  map_wf (l_inner l) -> l_inner l !! k = Some i -> live now i ->
  (exists m, m = l_inner l /\ l_file l = Some (Some (invites_to_vec (values m)))) -> l_inner (reopened now l) !! k = Some i.
Proof.
  intros Hm Hi Hl (m & -> & Hf). unfold reopened. simpl. rewrite Hf. simpl. unfold read_file. simpl.
  destruct (Hm _ _ Hi) as [Hk _].
  assert (Hw : Forall invite_wf (values (l_inner l))).
  { apply Forall_forall. intros j [k' Hj]%elem_of_values. by destruct (Hm _ _ Hj). }
  rewrite invites_from_to by done.
  assert (Hin : i ∈ filter (live now) (values (l_inner l))) by (apply list_elem_of_filter; split; [done|]; apply elem_of_values; eauto).
  destruct (by_secret_dom (filter (live now) (values (l_inner l))) ∅ k) as [j Hj]; [right; eauto|].
  unfold by_secret. rewrite Hj. f_equal.
  apply by_secret_lookup in Hj as [Hj Hjk]. apply list_elem_of_filter in Hj as [_ [k' Hj]%elem_of_values].
  destruct (Hm _ _ Hj) as [Hjk' _]. congruence.
Qed.

Lemma reopened_wf l now : map_wf (l_inner l) -> map_wf (l_inner (reopened now l)).
Proof.
  intros Hm. unfold reopened. simpl. destruct (l_file l) as [disk|]; [|apply map_Forall_empty]. simpl.
  intros k j [Hj Hk]%by_secret_lookup. split; [done|]. unfold read_file in Hj. simpl in Hj.
  pose proof (file_load_wf disk now) as Hw. rewrite Forall_forall in Hw. by apply Hw.
Qed.

Lemma redeem_live l k now i :
  l_inner l !! k = Some i -> live now i -> (1 <= i_uses_remaining i)%Z ->
  (try_redeem disk_ok l k now).1 = RedeemOk (with_uses (i_uses_remaining i - 1) i).
Proof.
  intros Hi Hl Hu. unfold try_redeem, redeem_step, u32_checked_sub. rewrite Hi, decide_True by done.
  destruct (Z.ltb_spec (i_uses_remaining i) 1); [lia|]. unfold persist, disk_ok.
  case_decide; simpl; destruct (l_file l); done.
Qed.

Lemma mint_written io l i l' :
  mint io l i = (Ok (), l') -> l_file l <> None ->
  exists m, m = l_inner l' /\ l_file l' = Some (Some (invites_to_vec (values m))).
Proof.
  unfold mint, persist, set_inner. simpl. destruct (l_file l); [|done]. destruct (io Store); [done|].
  intros [= <-] _. simpl. eauto.
Qed.

Lemma reap_spec io l now :
  map_wf (l_inner l) -> map_wf (l_inner (remove_expired io l now)) /\ (l_file l <> None -> l_file (remove_expired io l now) <> None).
Proof.
  intros Hm. assert (Hf : map_wf (filter (fun kv => live now kv.2) (l_inner l))).
  { intros k i [Hi _]%map_lookup_filter_Some. by apply Hm. }
  unfold remove_expired. case_decide; [done|]. unfold persist, set_inner. simpl.
  destruct (l_file l); [|done]. by destruct (io Store).
Qed.

Lemma uses_bounds io m s p uses alias :
  admissible io m s p uses alias -> (forall n, mp_max_uses p = Some n -> (0 <= n)%Z) -> (1 <= uses <= MAX_INVITE_USES)%Z.
Proof.
  intros [Hu Hz _ _ _ _ _ _ _] Hn. unfold MAX_INVITE_USES in *. destruct (mp_max_uses p) as [n|]; [|subst; lia].
  specialize (Hn n eq_refl). assert (n <> 0)%Z by congruence. lia.
Qed.

(** C33: minting, exactly: a request is refused for a reason of its own or the write fails, and
    then the registry has gained nothing; one that succeeds was admissible, is given
    between one and sixty-four uses and a day, hands out a line that carries everything
    but the private alias, and until the day is over its secret redeems for the services
    asked for, a restart in between or not. *)
Theorem mint_exact io m s e p l :
  map_wf (l_inner l) -> l_file l <> None ->
  (0 <= me_now e)%Z -> (me_now e + INVITE_TTL <= u64_max)%Z -> (forall n, mp_max_uses p = Some n -> (0 <= n)%Z) ->
  let '(r, l') := mint_invite io m s e p l in
  match r with
  | Err _ =>
      (forall k i, l_inner l' !! k = Some i -> l_inner l !! k = Some i) /\
      ((exists uses alias, admissible io m s p uses alias) -> mi_file io Store = true)
  | Ok res =>
      exists uses alias, admissible io m s p uses alias /\
        let i := new_invite e p uses alias in
        (1 <= uses <= MAX_INVITE_USES)%Z /\ ir_uses_remaining res = uses /\
        ir_expires_at_epoch res = (me_now e + INVITE_TTL)%Z /\
        Invites.decode (ir_invite_line res) = Ok (without_peer_nickname i) /\
        forall now, (now <= me_now e + INVITE_TTL)%Z ->
          (try_redeem disk_ok l' (me_secret e) now).1 = RedeemOk (with_uses (uses - 1) i) /\
          (try_redeem disk_ok (reopened now l') (me_secret e) now).1 = RedeemOk (with_uses (uses - 1) i)
  end.
Proof.
  intros Hm Hf Hnow Httl Hmax. unfold mint_invite. destruct (mint_checks io m s p) as [[uses alias]|err] eqn:Hc.
  2: { split; [done|]. intros (u & a & Ha). apply mint_checks_Ok in Ha. congruence. }
  apply mint_checks_Ok in Hc. set (i := new_invite e p uses alias). pose proof (uses_bounds _ _ _ _ _ _ Hc Hmax) as Hu.
  destruct (reap_spec (mi_reap io) l (me_now e) Hm) as [Hm1 Hf1].
  assert (Hexp : i_expires_at_epoch i = (me_now e + INVITE_TTL)%Z).
  { simpl. apply Z.mod_small. unfold u64_max, INVITE_TTL in *. lia. }
  assert (Hwf : invite_wf i).
  { split; [rewrite Hexp; unfold INVITE_TTL in *; lia|]. simpl. unfold MAX_INVITE_USES, u32_max in *. lia. }
  destruct (mint (mi_file io) _ i) as [r l'] eqn:Hmint. destruct r as [[]|err].
  - exists uses, alias. cbv zeta. fold i. split_and!; [done|lia|lia|done|by rewrite <- Hexp|by apply decode_encode|].
    destruct (mint_recorded _ _ _ _ Hm1 Hwf Hmint) as (Hm' & _ & Hin).
    pose proof (mint_written _ _ _ _ Hmint (Hf1 Hf)) as Hw.
    assert (Hi : l_inner l' !! me_secret e = Some i) by by rewrite Hin, lookup_insert_eq.
    intros now Hn. assert (Hlive : live now i) by (unfold live; by rewrite Hexp).
    split; apply redeem_live; try done; [simpl; lia|by apply reopened_keeps|simpl; lia].
  - split; [|intros _; clear -Hmint; unfold mint, persist, set_inner in Hmint; simpl in Hmint;
      destruct (l_file _); [|done]; by destruct (mi_file io Store)].
    apply mint_failed in Hmint. intros k j. rewrite Hmint. apply reap_incl.
Qed.
End lemmas.

Module Witness.
Import Toy Keys.ToyKeys Allowlist.ToyRows Invites.ToyInvites Limits.Witness Config.ToyToml Grants.Witness.
Local Open Scope string_scope.

Definition healthy_io : MintIo :=
  {| mi_store := Allowlist.healthy; mi_config := Config.healthy; mi_reap := disk_ok; mi_file := disk_ok |}.
Definition env : MintEnv :=
  {| me_inviter_id := key_fill Byte.x61; me_inviter_addr_json := "{}"; me_nickname := "alice"; me_secret := key_fill Byte.x55;
     me_now := 1000 |}.
Definition team : InviteParams :=
  {| mp_services := ["notes"]; mp_app_label := None; mp_max_uses := Some 100%Z; mp_peer_nickname := None; mp_as_self := false |}.
Definition registry : LiveInvites := {| l_inner := ∅; l_file := Some None |}.

Lemma mint_exact_witness : exists res l',
  mint_invite healthy_io m1 SelfKey.Witness.fresh env team registry = (Ok res, l') /\ ir_uses_remaining res = 64%Z /\
  exists i, (try_redeem disk_ok (reopened 87400 l') (me_secret env) 87400).1 = RedeemOk i /\ i_services i = ["notes"].
Proof.
  assert (Hok : ir_uses_remaining <$> ok (mint_invite healthy_io m1 SelfKey.Witness.fresh env team registry).1 = Some 64%Z)
    by (vm_compute; reflexivity).
  assert (Hrange : (me_now env + INVITE_TTL <= u64_max)%Z) by (unfold u64_max, INVITE_TTL; simpl; lia).
  assert (Hmax : forall n, mp_max_uses team = Some n -> (0 <= n)%Z) by (intros n [= <-]; lia).
  pose proof (mint_exact healthy_io m1 SelfKey.Witness.fresh env team registry (map_Forall_empty _)
    ltac:(discriminate) ltac:(simpl; lia) Hrange Hmax) as H.
  destruct (mint_invite _ _ _ _ _ _) as [[res|err] l']; [|discriminate Hok].
  destruct H as (uses & alias & _ & _ & _ & _ & _ & Hr). exists res, l'. split; [reflexivity|].
  split; [simpl in Hok; congruence|]. eexists. split; [apply Hr; simpl; unfold INVITE_TTL; lia|reflexivity].
Defined.

(** Our own devices are enrolled only by the one that holds the key. *)
Lemma enrolled_cannot_enroll :
  (mint_invite healthy_io m1 SelfKey.Witness.enrolled env
     {| mp_services := []; mp_app_label := None; mp_max_uses := None; mp_peer_nickname := None; mp_as_self := true |} registry).1
  = Err (MintRefusal ERR_SELF_ENROLL_NO_KEY).
Proof. vm_compute. reflexivity. Qed.

(** A service registered for the life of a connection is served, but the grant a redemption
    gives back does not name it. *)
Definition scratch : RegisterServiceParams :=
  {| rp_name := "scratch"; rp_backend := Socket "/run/scratch"; rp_allow := []; rp_ephemeral := true; rp_rate_limit_per_min := None |}.
Definition serving_scratch : MeshState := (register_service Grants.no_faults scratch m0).2.
Definition after_pairing : MeshState := (grant_back Grants.no_faults "now" "eid:bob" "bob" serving_scratch).2.

Lemma grant_back_skips_ephemeral :
  sv_ephemeral <$> live_view (m_serving serving_scratch) "scratch" = Some true /\
  eph_allow <$> s_ephemeral (m_serving after_pairing) !! "scratch" = Some [] /\
  sv_allow <$> live_view (m_serving after_pairing) "scratch" = Some [].
Proof. vm_compute. auto. Qed.
End Witness.
