(* ===== verification/Reach.v ===== *)
(** * Reachability

    [node/src/daemon/reach.rs] and [path_watch.rs]: the cache of what is known of each peer, the
    probes and the session watchers that write it, the transitions announced to subscribers, and
    the verbs that read it.  Probes of one peer overlap and end in any order, and a session's
    watcher writes the same rows: the two are steps of a transition system over the shared cache
    and the shared ticket counter. *)
From stdpp Require Import base list gmap strings sorting.
From Stdlib Require Import ZArith Lia Strings.Byte.
From S2P Require Import Prelude Bytes Json Externals Validate Identity Limits Presence Service Gate Registry Session Addrs Paths Mesh Dial Allowlist.

Local Open Scope Z_scope.

Record ReachEntry := {
  re_reachable : bool;
  re_rtt_ms : option Z;
  re_probed_at : Z;
  re_meta : string;
  re_services : list string;
  re_pong_at : option Z;
  re_seq : Z;
  re_observed : Z;
  re_path : PeerPath }.

Inductive ReachabilitySource := FromProbe | FromSession.

Record PeerReachability := {
  pr_name : string; pr_reachable : bool; pr_rtt_ms : option Z; pr_age_secs : option Z;
  pr_path : PeerPath; pr_meta : string; pr_principal : option string }.

Record ReachTransition := { rt_peer : PeerReachability; rt_source : ReachabilitySource }.

Definition REACH_TTL_SECS : Z := 20.

Abbreviation Cache := (gmap key32 ReachEntry).

(** ** Decisions *)
Definition supersedes (seq : Z) (existing : ReachEntry) : bool := re_seq existing <=? seq.

Definition contradicted_by (ours : ReachEntry) (seq : Z) (existing : ReachEntry) : bool :=
  negb (re_reachable ours) && re_reachable existing && (seq <? re_observed existing).

Definition is_transition (previous : option ReachEntry) (current : ReachEntry) : bool :=
  match previous with
  | None => re_reachable current
  | Some prev => negb (Bool.eqb (re_reachable prev) (re_reachable current)) || bool_decide (re_path prev <> re_path current)
  end.

Inductive Outcome := Committed (previous : option ReachEntry) | Superseded (newer : ReachEntry).

(** The winner keeps its verdict and its freshness; it takes over a pong it has none of. *)
Definition keep_pong (ours newer : ReachEntry) : ReachEntry :=
  if re_reachable newer && bool_decide (re_pong_at newer = None) && bool_decide (re_pong_at ours <> None) then
    {| re_reachable := re_reachable newer; re_rtt_ms := re_rtt_ms newer; re_probed_at := re_probed_at newer;
       re_meta := re_meta ours; re_services := re_services ours; re_pong_at := re_pong_at ours;
       re_seq := re_seq newer; re_observed := re_observed newer; re_path := re_path newer |}
  else newer.

(** A probe's commit, under one lock. *)
Definition commit_probe (id : key32) (seq : Z) (entry : ReachEntry) (cache : Cache) : Outcome * Cache :=
  match cache !! id with
  | Some existing =>
      if negb (supersedes seq existing) then
        let newer := keep_pong entry existing in (Superseded newer, <[id := newer]> cache)
      else if contradicted_by entry seq existing then (Superseded existing, cache)
      else (Committed (Some existing), <[id := entry]> cache)
  | None => (Committed None, <[id := entry]> cache)
  end.

(** [path_watch::decide]. *)
Definition decide_path (observed : PeerPath) (cached : option PeerPath) : option PeerPath :=
  match observed with
  | Unknown => None
  | _ => if decide (cached = Some observed) then None else Some observed
  end.

Definition with_path (path : PeerPath) (seq observed : Z) (e : ReachEntry) : ReachEntry :=
  {| re_reachable := re_reachable e; re_rtt_ms := re_rtt_ms e; re_probed_at := re_probed_at e; re_meta := re_meta e;
     re_services := re_services e; re_pong_at := re_pong_at e; re_seq := seq; re_observed := observed; re_path := path |}.
Definition seeded (path : PeerPath) (now seq observed : Z) : ReachEntry :=
  {| re_reachable := true; re_rtt_ms := None; re_probed_at := now; re_meta := ""; re_services := []; re_pong_at := None;
     re_seq := seq; re_observed := observed; re_path := path |}.

(** A watcher's commit, under the lock: the row it wrote, when it wrote one; [ticket] is what
    the counter hands out. *)
Definition commit_path (id : key32) (seq now ticket : Z) (observed : PeerPath) (cache : Cache) : option ReachEntry :=
  match cache !! id with
  | Some existing =>
      if negb (supersedes seq existing) then None
      else path ← decide_path observed (Some (re_path existing)); Some (with_path path seq ticket existing)
  | None => path ← decide_path observed None; Some (seeded path now seq ticket)
  end.

(** ** Rows and pongs *)
Definition name_le (a b : string) : Prop := String.leb a b = true.
#[export] Instance name_le_dec : RelDecision name_le.
Proof. intros a b. unfold name_le. apply _. Defined.

Section rows.
Context `{T : TextEncoding, R : RowCodec}.

Definition reachability_row (nickname : string) (id : key32) (entry : option ReachEntry) (age_secs : option Z) : PeerReachability :=
  {| pr_path := from_option re_path Unknown entry; pr_name := nickname;
     pr_reachable := from_option re_reachable false entry; pr_rtt_ms := entry ≫= re_rtt_ms; pr_age_secs := age_secs;
     pr_meta := from_option re_meta "" entry; pr_principal := Some (principal id) |}.

Definition stored_row (io : Io) (s : PeerStore) (id : key32) (entry : ReachEntry) : option PeerReachability :=
  match resolve io s id with
  | Ok (Some e) => Some (reachability_row (pe_nickname e) id (Some entry) (Some 0))
  | _ => None
  end.

(** [caller_admitted_services], sorted. *)
Definition admitted_services (l : LiveServices) (identity : PeerIdentity) : list string :=
  merge_sort name_le (caller_admitted_services l identity).
End rows.

(** The pong as the accept loop builds it. *)
Definition pong (stack_version : string) (meta : string) (services : list string) : Value :=
  let base := [("stack_version"%string, VString stack_version)] in
  let m := if decide (meta = ""%string) then base else map_insert "meta" (VString meta) base in
  VObject (if decide (services = []) then m else map_insert "services" (VArray (VString <$> services)) m).

Definition pong_services (v : Value) : list string :=
  match value_get "services" v ≫= as_array with
  | Some arr => omap as_str arr
  | None => []
  end.
Definition pong_meta (v : Value) : string :=
  match value_get "meta" v ≫= as_str with
  | Some s => if Z.of_nat (String.length s) <=? APP_METADATA_MAX_BYTES then s else ""
  | None => ""
  end.

(** What the timed exchange came to: a pong with its round trip, or no pong in time. *)
Inductive Exchange := Pong (v : Value) (rtt_ms : Z) | NoPong | Throttled.

(** [classify]: the path is read after the exchange, and changes nothing else. *)
Definition classify (x : Exchange) (settled : PeerPath) : bool * string * list string * PeerPath * option Z :=
  match x with
  | Pong v rtt => (true, pong_meta v, pong_services v, settled, Some rtt)
  | _ => (false, "", [], Unknown, None)
  end.

Definition probe_entry (x : Exchange) (settled : PeerPath) (now seq observed : Z) : ReachEntry :=
  let '(reachable, meta, services, path, rtt) := classify x settled in
  {| re_reachable := reachable; re_rtt_ms := rtt; re_probed_at := now; re_meta := meta; re_services := services;
     re_pong_at := if reachable then Some now else None; re_seq := seq; re_observed := observed; re_path := path |}.

(** The row a refused or throttled probe returns and never caches. *)
Definition uncommitted (now seq : Z) : ReachEntry :=
  {| re_reachable := false; re_rtt_ms := None; re_probed_at := now; re_meta := ""; re_services := []; re_pong_at := None;
     re_seq := seq; re_observed := seq; re_path := Unknown |}.

(** ** The readers *)
Definition age (now : Z) (e : ReachEntry) : Z := Z.max (i64_sub now (re_probed_at e)) 0.

(** [probe_peer_cached]: an entry fresh enough to answer from. *)
Definition fresh_entry (now : Z) (cache : Cache) (id : key32) : option ReachEntry :=
  e ← cache !! id;
  if (age now e <=? REACH_TTL_SECS) && (negb (re_reachable e) || bool_decide (re_pong_at e <> None)) then Some e else None.

Inductive ServicesError := PeerIsRevoked | Unreachable | NotFetched.
(** [peer_services] over the entry it was handed. *)
Definition services_answer (entry : ReachEntry) : result ServicesError (list string) :=
  if negb (re_reachable entry) then Err Unreachable
  else if bool_decide (re_pong_at entry = None) then Err NotFetched
  else Ok (re_services entry).

Section status.
Context `{T : TextEncoding, R : RowCodec}.

(** One peer of [reachability_of]: its row and whether it is stale. *)
Definition reach_one (now : Z) (cache : Cache) (e : PeerEntry) : PeerReachability * bool :=
  let id := pe_endpoint_id e in
  match cache !! id with
  | Some entry => (reachability_row (pe_nickname e) id (Some entry) (Some (age now entry)), REACH_TTL_SECS <? age now entry)
  | None => (reachability_row (pe_nickname e) id None None, true)
  end.

(** [InFlight::claim] for each: the claims taken, and the set after. *)
Fixpoint claim_refreshes (inflight : gset key32) (stale : list key32) : list key32 * gset key32 :=
  match stale with
  | [] => ([], inflight)
  | id :: stale =>
      if decide (id ∈ inflight) then claim_refreshes inflight stale
      else let '(claims, after) := claim_refreshes ({[id]} ∪ inflight) stale in (id :: claims, after)
  end.

Definition reachability_of (io : Io) (now : Z) (s : PeerStore) (cache : Cache) (inflight : gset key32) :
    list PeerReachability * (list key32 * gset key32) :=
  let peers := match list_peers io s with Ok l => l | Err _ => [] end in
  let stale := pe_endpoint_id <$> filter (fun e => (reach_one now cache e).2 = true) peers in
  ((fun e => (reach_one now cache e).1) <$> peers, claim_refreshes inflight stale).
End status.

(** ** The shared state and its steps *)

(** Where a probe's or a watcher's task stands between its shared accesses. *)
Inductive Phase :=
| Queued                                  (* spawned, no ticket yet *)
| Probing (seq : Z)                       (* the revocation check is outstanding *)
| Dialling (seq : Z)
| Answered (seq : Z) (x : Exchange) (settled : PeerPath)
| Ready (seq : Z) (entry : ReachEntry)    (* the commit ticket is drawn *)
| Watching (seq : Z) (observed : PeerPath)
| Observed (seq : Z) (observed : PeerPath).

(** [k_guard]: the task holds the in-flight claim of its peer. *)
Record Task := { k_peer : key32; k_guard : bool; k_phase : Phase }.

(** [w_pending]: committed transitions whose frame is not sent yet, the lock being released.
    [w_log] is every transition in the order of the commits. *)
Record World := {
  w_mesh : MeshState;
  w_cache : Cache;
  w_ticket : Z;
  w_inflight : gset key32;
  w_tasks : gmap nat Task;
  w_pending : list (key32 * ReachEntry * ReachabilitySource);
  w_frames : list ReachTransition;
  w_log : list (key32 * bool * PeerPath) }.

Definition on_tasks (f : gmap nat Task -> gmap nat Task) (w : World) : World :=
  {| w_mesh := w_mesh w; w_cache := w_cache w; w_ticket := w_ticket w; w_inflight := w_inflight w; w_tasks := f (w_tasks w);
     w_pending := w_pending w; w_frames := w_frames w; w_log := w_log w |}.
Definition on_mesh (m : MeshState) (w : World) : World :=
  {| w_mesh := m; w_cache := w_cache w; w_ticket := w_ticket w; w_inflight := w_inflight w; w_tasks := w_tasks w;
     w_pending := w_pending w; w_frames := w_frames w; w_log := w_log w |}.
Definition set_inflight (s : gset key32) (w : World) : World :=
  {| w_mesh := w_mesh w; w_cache := w_cache w; w_ticket := w_ticket w; w_inflight := s; w_tasks := w_tasks w;
     w_pending := w_pending w; w_frames := w_frames w; w_log := w_log w |}.

(** [fetch_add]: the ticket is the counter's old value. *)
Definition draw (w : World) : World :=
  {| w_mesh := w_mesh w; w_cache := w_cache w; w_ticket := w_ticket w + 1; w_inflight := w_inflight w; w_tasks := w_tasks w;
     w_pending := w_pending w; w_frames := w_frames w; w_log := w_log w |}.

Definition spawn_task (t : Task) (w : World) : World := on_tasks (fun ts => <[fresh (dom ts) := t]> ts) w.
Definition set_phase (i : nat) (t : Task) (p : Phase) (w : World) : World :=
  on_tasks (<[i := {| k_peer := k_peer t; k_guard := k_guard t; k_phase := p |}]>) w.

(** A task ends, however it does: its guard is dropped with it. *)
Definition end_task (i : nat) (t : Task) (w : World) : World :=
  let w := on_tasks (delete i) w in
  if k_guard t then set_inflight (w_inflight w ∖ {[k_peer t]}) w else w.

(** The cache after a commit, and the transition it makes, if it makes one. *)
Definition with_cache (cache : Cache) (id : key32) (news : option (ReachEntry * ReachabilitySource)) (w : World) : World :=
  {| w_mesh := w_mesh w; w_cache := cache; w_ticket := w_ticket w; w_inflight := w_inflight w; w_tasks := w_tasks w;
     w_pending := w_pending w ++ option_list ((fun n => (id, n.1, n.2)) <$> news);
     w_frames := w_frames w;
     w_log := w_log w ++ option_list ((fun n => (id, re_reachable n.1, re_path n.1)) <$> news) |}.

Definition probe_commit (id : key32) (seq : Z) (entry : ReachEntry) (w : World) : World :=
  let '(outcome, cache) := commit_probe id seq entry (w_cache w) in
  let news :=
    match outcome with
    | Committed previous => if is_transition previous entry then Some (entry, FromProbe) else None
    | Superseded _ => None
    end in
  with_cache cache id news w.

(** [commit_observation]: its commit ticket is drawn under the lock, and only when it writes. *)
Definition observation_commit (id : key32) (seq now : Z) (observed : PeerPath) (w : World) : World :=
  match commit_path id seq now (w_ticket w) observed (w_cache w) with
  | Some entry => with_cache (<[id := entry]> (w_cache w)) id (Some (entry, FromSession)) (draw w)
  | None => w
  end.

Section steps.
Context `{E : Ed25519, T : TextEncoding, R : RowCodec}.

Definition send_pending (io : Io) (item : key32 * ReachEntry * ReachabilitySource) (rest : list (key32 * ReachEntry * ReachabilitySource)) (w : World) : World :=
  let '(id, entry, source) := item in
  {| w_mesh := w_mesh w; w_cache := w_cache w; w_ticket := w_ticket w; w_inflight := w_inflight w; w_tasks := w_tasks w;
     w_pending := rest;
     w_frames := w_frames w ++ option_list ((fun row => {| rt_peer := row; rt_source := source |}) <$> stored_row io (m_store (w_mesh w)) id entry);
     w_log := w_log w |}.

(** [reachability_of] on the shared state: the rows and a queued refresh for every claim. *)
Definition status_read (io : Io) (now : Z) (w : World) : list PeerReachability * World :=
  let '(rows, (claims, inflight)) := reachability_of io now (m_store (w_mesh w)) (w_cache w) (w_inflight w) in
  (rows, foldr (fun id => spawn_task {| k_peer := id; k_guard := true; k_phase := Queued |}) (set_inflight inflight w) claims).

(** The counter is 64 bits wide; the steps run while it has not wrapped. *)
Inductive step : World -> World -> Prop :=
| s_mesh w m : step w (on_mesh m w)
| s_status w io now : step w (status_read io now w).2
| s_probe w id : step w (spawn_task {| k_peer := id; k_guard := false; k_phase := Queued |} w)
| s_start w i t :
    w_tasks w !! i = Some t -> k_phase t = Queued -> w_ticket w < u64_max ->
    step w (draw (set_phase i t (Probing (w_ticket w)) w))
(* refused, or the check could not be run *)
| s_refused w i t seq :
    w_tasks w !! i = Some t -> k_phase t = Probing seq -> step w (end_task i t w)
| s_allowed w i t seq io :
    w_tasks w !! i = Some t -> k_phase t = Probing seq -> dial_refused io (w_mesh w) (k_peer t) = false ->
    step w (set_phase i t (Dialling seq) w)
| s_throttled w i t seq :
    w_tasks w !! i = Some t -> k_phase t = Dialling seq -> step w (end_task i t w)
| s_exchange w i t seq x settled :
    w_tasks w !! i = Some t -> k_phase t = Dialling seq -> x <> Throttled ->
    step w (set_phase i t (Answered seq x settled) w)
| s_draw w i t seq x settled now :
    w_tasks w !! i = Some t -> k_phase t = Answered seq x settled -> w_ticket w < u64_max ->
    step w (draw (set_phase i t (Ready seq (probe_entry x settled now seq (w_ticket w))) w))
| s_commit w i t seq entry :
    w_tasks w !! i = Some t -> k_phase t = Ready seq entry ->
    step w (end_task i t (probe_commit (k_peer t) seq entry w))
| s_watch w id observed :
    w_ticket w < u64_max ->
    step w (draw (spawn_task {| k_peer := id; k_guard := false; k_phase := Watching (w_ticket w) observed |} w))
| s_watch_refused w i t seq observed :
    w_tasks w !! i = Some t -> k_phase t = Watching seq observed -> step w (end_task i t w)
| s_watch_allowed w i t seq observed io :
    w_tasks w !! i = Some t -> k_phase t = Watching seq observed -> dial_refused io (w_mesh w) (k_peer t) = false ->
    step w (set_phase i t (Observed seq observed) w)
| s_watch_commit w i t seq observed now :
    w_tasks w !! i = Some t -> k_phase t = Observed seq observed -> w_ticket w < u64_max ->
    step w (end_task i t (observation_commit (k_peer t) seq now observed w))
| s_send w l1 item l2 io :
    w_pending w = l1 ++ item :: l2 -> step w (send_pending io item (l1 ++ l2) w)
| s_cancel w i t :
    w_tasks w !! i = Some t -> step w (end_task i t w).
End steps.

Definition world_start (m : MeshState) : World :=
  {| w_mesh := m; w_cache := ∅; w_ticket := 0; w_inflight := ∅; w_tasks := ∅; w_pending := []; w_frames := []; w_log := [] |}.

(** What a subscriber believes that applies the transitions in the order of their commits,
    starting from the snapshot's default, and what the cache says. *)
Definition believed (id : key32) (log : list (key32 * bool * PeerPath)) : bool * PeerPath :=
  foldl (fun b x => if decide (x.1.1 = id) then (x.1.2, x.2) else b) (false, Unknown) log.
Definition view (id : key32) (cache : Cache) : bool * PeerPath :=
  match cache !! id with Some e => (re_reachable e, re_path e) | None => (false, Unknown) end.

(** ** Invariants *)

(** What a row holds: tickets in order, and nothing of a pong without one. *)
Record row_ok (ticket : Z) (e : ReachEntry) : Prop := {
  ro_tickets : 0 <= re_seq e < re_observed e /\ re_observed e < ticket;
  ro_unreachable : re_reachable e = false -> re_pong_at e = None /\ re_rtt_ms e = None;
  ro_no_pong : re_pong_at e = None -> re_services e = [] /\ re_meta e = ""%string }.

Definition phase_seq (p : Phase) : option Z :=
  match p with
  | Queued => None
  | Probing seq | Dialling seq | Answered seq _ _ | Ready seq _ | Watching seq _ | Observed seq _ => Some seq
  end.

Record task_ok (ticket : Z) (t : Task) : Prop := {
  to_seq seq : phase_seq (k_phase t) = Some seq -> 0 <= seq < ticket;
  to_ready seq e : k_phase t = Ready seq e ->
    re_seq e = seq /\ row_ok ticket e /\ (re_reachable e = true -> re_pong_at e <> None) /\ (re_reachable e = false -> re_path e = Unknown) }.

(** Who holds which claim: [pending] is claimed and not spawned yet. *)
Definition holders (w : World) : gmap nat (bool * key32) := (fun t => (k_guard t, k_peer t)) <$> w_tasks w.
Record claims_over (h : gmap nat (bool * key32)) (inflight : gset key32) (pending : list key32) : Prop := {
  co_claims id : id ∈ inflight <-> (exists i, h !! i = Some (true, id)) \/ id ∈ pending;
  co_one i j id : h !! i = Some (true, id) -> h !! j = Some (true, id) -> i = j;
  co_pending i id : h !! i = Some (true, id) -> id ∉ pending }.
Definition claims_ok (w : World) : Prop := claims_over (holders w) (w_inflight w) [].

Record rows_ok (w : World) : Prop := {
  rw_ticket : 0 <= w_ticket w;
  rw_rows id e : w_cache w !! id = Some e -> row_ok (w_ticket w) e;
  rw_tasks i t : w_tasks w !! i = Some t -> task_ok (w_ticket w) t;
  rw_log id : believed id (w_log w) = view id (w_cache w) }.

(** *** Rows *)
Lemma row_ok_mono t t' e : row_ok t e -> t <= t' -> row_ok t' e.
Proof. intros [[? ?] ? ?] ?. split; [lia|done..]. Qed.
Lemma task_ok_mono t t' k : task_ok t k -> t <= t' -> task_ok t' k.
Proof.
  intros [H1 H2] ?. split; [intros seq ?%H1; lia|]. intros seq e Hp. destruct (H2 seq e Hp) as (? & ? & ?).
  split_and!; try done; [by eapply row_ok_mono|tauto..].
Qed.

Lemma probe_entry_ok x settled now seq ticket :
  0 <= seq < ticket -> let e := probe_entry x settled now seq ticket in
  re_seq e = seq /\ row_ok (ticket + 1) e /\ (re_reachable e = true -> re_pong_at e <> None) /\ (re_reachable e = false -> re_path e = Unknown).
Proof. intros Hs. destruct x; split_and!; try done; split; simpl; try done; lia. Qed.

Lemma keep_pong_ok t ours newer : row_ok t ours -> row_ok t newer -> row_ok t (keep_pong ours newer).
Proof.
  intros Ho Hn. unfold keep_pong. destruct (re_reachable newer && _ && _) eqn:Hc; [|done].
  apply andb_true_iff in Hc as [[Hr _]%andb_true_iff _]. split; simpl; [apply (ro_tickets _ _ Hn)|congruence|apply (ro_no_pong _ _ Ho)].
Qed.
Lemma keep_pong_same ours newer :
  let e := keep_pong ours newer in
  re_seq e = re_seq newer /\ re_observed e = re_observed newer /\ re_reachable e = re_reachable newer /\ re_path e = re_path newer /\
  re_probed_at e = re_probed_at newer /\ re_rtt_ms e = re_rtt_ms newer.
Proof. unfold keep_pong. by destruct (_ && _ && _). Qed.

(** Every way a commit ends. *)
Lemma commit_probe_cases id seq entry cache o cache' :
  commit_probe id seq entry cache = (o, cache') ->
  (cache !! id = None /\ o = Committed None /\ cache' = <[id := entry]> cache) \/
  exists old, cache !! id = Some old /\
    (seq < re_seq old /\ o = Superseded (keep_pong entry old) /\ cache' = <[id := keep_pong entry old]> cache \/
     re_seq old <= seq /\ re_reachable entry = false /\ re_reachable old = true /\ seq < re_observed old /\ o = Superseded old /\ cache' = cache \/
     re_seq old <= seq /\ (re_reachable entry = false -> re_reachable old = true -> re_observed old <= seq) /\
       o = Committed (Some old) /\ cache' = <[id := entry]> cache).
Proof.
  unfold commit_probe. destruct (cache !! id) as [old|]; [|intros [= <- <-]; by left].
  unfold supersedes. destruct (Z.leb_spec (re_seq old) seq); simpl.
  - unfold contradicted_by. destruct (re_reachable entry) eqn:He; simpl.
    + intros [= <- <-]. right. exists old. split; [done|]. right; right. by split_and!.
    + destruct (re_reachable old) eqn:Ho; simpl; [destruct (Z.ltb_spec seq (re_observed old)); simpl|];
        intros [= <- <-]; right; exists old; (split; [done|]); right; [left|right|right].
      * by split_and!.
      * by split_and!.
      * split_and!; try done. by rewrite Ho.
  - intros [= <- <-]. right. exists old. split; [done|]. by left.
Qed.

Lemma commit_path_cases id seq now ticket observed cache e :
  commit_path id seq now ticket observed cache = Some e ->
  observed <> Unknown /\
  (cache !! id = None /\ e = seeded observed now seq ticket \/
   exists old, cache !! id = Some old /\ re_seq old <= seq /\ re_path old <> observed /\ e = with_path observed seq ticket old).
Proof.
  unfold commit_path, decide_path, supersedes. destruct (cache !! id) as [old|] eqn:Hc.
  - destruct (Z.leb_spec (re_seq old) seq); simpl; [|done]. intros (p & Hp & [= <-])%bind_Some.
    destruct observed as [|u|]; [| |done]; (case_decide as Hd; [done|]; injection Hp as <-; split; [done|]; right; exists old; split_and!; try done; congruence).
  - intros (p & Hp & [= <-])%bind_Some. destruct observed as [|u|]; [| |done]; (case_decide; [done|]; injection Hp as <-; by split; [|left]).
Qed.

Lemma view_insert id id' e cache : view id (<[id' := e]> cache) = if decide (id' = id) then (re_reachable e, re_path e) else view id cache.
Proof. unfold view. case_decide as H; [subst; by rewrite lookup_insert_eq|by rewrite lookup_insert_ne]. Qed.
Lemma believed_app id log l : believed id (log ++ l) = foldl (fun b x => if decide (x.1.1 = id) then (x.1.2, x.2) else b) (believed id log) l.
Proof. apply foldl_app. Qed.

Lemma rows_with_tasks w f :
  rows_ok w -> (forall i t, f (w_tasks w) !! i = Some t -> task_ok (w_ticket w) t) -> rows_ok (on_tasks f w).
Proof. intros [H1 H2 H3 H4] Hf. by split. Qed.
Lemma rows_set_inflight w s : rows_ok w -> rows_ok (set_inflight s w).
Proof. by intros []. Qed.
Lemma rows_draw w : rows_ok w -> rows_ok (draw w).
Proof.
  intros [H1 H2 H3 H4]. split; simpl; [lia| | |done].
  - intros id e He. eapply row_ok_mono; [by eapply H2|simpl; lia].
  - intros i t Ht. eapply task_ok_mono; [by eapply H3|simpl; lia].
Qed.
Lemma rows_spawn w t : rows_ok w -> task_ok (w_ticket w) t -> rows_ok (spawn_task t w).
Proof.
  intros Hw Ht. apply rows_with_tasks; [done|]. intros i u. rewrite lookup_insert_Some. intros [[_ <-]|[_ Hu]]; [done|]. by eapply rw_tasks.
Qed.
Lemma rows_set_phase w i t p :
  rows_ok w -> w_tasks w !! i = Some t -> task_ok (w_ticket w) {| k_peer := k_peer t; k_guard := k_guard t; k_phase := p |} ->
  rows_ok (set_phase i t p w).
Proof.
  intros Hw _ Hp. apply rows_with_tasks; [done|]. intros j u. rewrite lookup_insert_Some. intros [[_ <-]|[_ Hu]]; [done|]. by eapply rw_tasks.
Qed.
Lemma rows_end w i t : rows_ok w -> rows_ok (end_task i t w).
Proof.
  intros Hw. unfold end_task. assert (Hd : rows_ok (on_tasks (delete i) w)); [|by destruct (k_guard t); [apply rows_set_inflight|]].
  apply rows_with_tasks; [done|]. intros j u [_ Hu]%lookup_delete_Some. by eapply rw_tasks.
Qed.

(** A new row and its news. *)
Lemma rows_with_cache w id e news :
  rows_ok w -> row_ok (w_ticket w) e ->
  (match news with Some n => n.1 = e | None => view id (w_cache w) = (re_reachable e, re_path e) end) ->
  rows_ok (with_cache (<[id := e]> (w_cache w)) id news w).
Proof.
  intros [H1 H2 H3 H4] He Hn. split; simpl; [done| |done|].
  - intros i e'. rewrite lookup_insert_Some. intros [[_ <-]|[_ ?]]; [done|by eapply H2].
  - intros i. rewrite believed_app, view_insert, H4. destruct news as [[e' s]|]; simpl in *.
    + subst e'. by case_decide.
    + case_decide as Hi; [by rewrite <- Hi|done].
Qed.

Lemma rows_probe_commit w id seq entry :
  rows_ok w -> row_ok (w_ticket w) entry -> (re_reachable entry = false -> re_path entry = Unknown) ->
  rows_ok (probe_commit id seq entry w).
Proof.
  intros Hw He Hu. unfold probe_commit. destruct (commit_probe id seq entry (w_cache w)) as [o cache] eqn:Hc.
  apply commit_probe_cases in Hc as [(Hnone & -> & ->)|(old & Hold & [(_ & -> & ->)|[(_ & _ & _ & _ & -> & ->)|(_ & _ & -> & ->)]])].
  - apply rows_with_cache; [done..|]. simpl. destruct (re_reachable entry) eqn:Hr; [done|].
    unfold view. by rewrite Hnone, Hu.
  - destruct (keep_pong_same entry old) as (_ & _ & Hr & Hp & _). apply rows_with_cache; [done| |].
    + apply keep_pong_ok; [done|by eapply rw_rows].
    + unfold view. by rewrite Hold, Hr, Hp.
  - destruct Hw as [H1 H2 H3 H4]. split; simpl; try done. intros i. by rewrite app_nil_r.
  - apply rows_with_cache; [done..|]. unfold view. rewrite Hold. unfold is_transition.
    destruct (Bool.eqb (re_reachable old) (re_reachable entry)) eqn:Hr; simpl; [|done]. case_bool_decide as Hp; [done|]. simpl.
    apply eqb_prop in Hr. rewrite Hr. f_equal. by destruct (decide (re_path old = re_path entry)).
Qed.

Lemma rows_observation_commit w id seq now observed :
  rows_ok w -> 0 <= seq < w_ticket w -> rows_ok (observation_commit id seq now observed w).
Proof.
  intros Hw Hs. unfold observation_commit. destruct (commit_path _ _ _ _ _ _) as [e|] eqn:Hc; [|done].
  apply commit_path_cases in Hc as (_ & Hc). apply (rows_with_cache (draw w)); [by apply rows_draw| |done]. simpl.
  destruct Hc as [[_ ->]|(old & Hold & _ & _ & ->)]; [by split; simpl; [lia| |]|].
  destruct (rw_rows _ Hw _ _ Hold) as [? ? ?]. by split; simpl; [lia| |].
Qed.

Lemma rows_spawn_all w io l :
  rows_ok w -> rows_ok (foldr (fun id => spawn_task {| k_peer := id; k_guard := true; k_phase := Queued |}) (set_inflight io w) l).
Proof. intros Hw. induction l as [|id l IH]; simpl; [by apply rows_set_inflight|]. by apply rows_spawn. Qed.

(** *** Claims *)
Lemma holders_set_phase i t p w : w_tasks w !! i = Some t -> holders (set_phase i t p w) = holders w.
Proof.
  intros Ht. unfold holders, set_phase, on_tasks. simpl. rewrite fmap_insert. simpl. apply insert_id. by rewrite lookup_fmap, Ht.
Qed.
Lemma holders_spawn t w : holders (spawn_task t w) = <[fresh (dom (w_tasks w)) := (k_guard t, k_peer t)]> (holders w).
Proof. unfold holders, spawn_task, on_tasks. simpl. by rewrite fmap_insert. Qed.
Lemma holders_fresh w : holders w !! fresh (dom (w_tasks w)) = None.
Proof. unfold holders. rewrite lookup_fmap. pose proof (is_fresh (dom (w_tasks w))) as Hf. apply not_elem_of_dom in Hf. by rewrite Hf. Qed.

Lemma claims_spawn_free h i id inflight pending :
  claims_over h inflight pending -> h !! i = None -> claims_over (<[i := (false, id)]> h) inflight pending.
Proof.
  intros [H1 H2 H3] Hi.
  assert (Hl : forall j x, <[i := (false, id)]> h !! j = Some (true, x) <-> h !! j = Some (true, x)).
  { intros j x. rewrite lookup_insert_Some. split; [by intros [[_ ?]|[_ ?]]|]. intros Hj. right. split; [|done]. by intros ->; rewrite Hi in Hj. }
  split; intros *; setoid_rewrite Hl; eauto.
Qed.
Lemma claims_spawn_held h i id inflight pending :
  claims_over h inflight (id :: pending) -> h !! i = None -> id ∉ pending -> claims_over (<[i := (true, id)]> h) inflight pending.
Proof.
  intros [H1 H2 H3] Hi Hn.
  assert (Hl : forall j x, <[i := (true, id)]> h !! j = Some (true, x) -> j = i /\ x = id \/ h !! j = Some (true, x)).
  { intros j x [[-> [= ->]]|[_ ?]]%lookup_insert_Some; auto. }
  assert (Hr : forall j x, h !! j = Some (true, x) -> <[i := (true, id)]> h !! j = Some (true, x)).
  { intros j x Hj. rewrite lookup_insert_ne; [done|]. intros ->. congruence. }
  assert (Hid : forall j, h !! j = Some (true, id) -> False) by (intros j Hj; apply (H3 j id Hj); by left).
  split.
  - intros x. rewrite H1, elem_of_cons. split.
    + intros [[j Hj]|[->|?]]; [left; eauto|left; exists i; apply lookup_insert_eq|by right].
    + intros [[j [[-> ->]|Hj]%Hl]|?]; eauto.
  - intros j k x [[-> ->]|Hj]%Hl [[-> Hx]|Hk]%Hl; subst; [done|by destruct (Hid k)|by destruct (Hid j)|by eapply H2].
  - intros j x [[-> ->]|Hj]%Hl; [done|]. intros Hp. apply (H3 j x Hj). by right.
Qed.
Lemma claims_end h i g id inflight :
  claims_over h inflight [] -> h !! i = Some (g, id) -> claims_over (delete i h) (if g : bool then inflight ∖ {[id]} else inflight) [].
Proof.
  intros [H1 H2 H3] Hi.
  assert (Hl : forall j x, delete i h !! j = Some (true, x) <-> h !! j = Some (true, x) /\ j <> i).
  { intros j x. rewrite lookup_delete_Some. naive_solver. }
  split.
  - intros x. setoid_rewrite Hl. split.
    + intros Hx. left. destruct g; [apply elem_of_difference in Hx as [Hx Hne]|]; apply H1 in Hx as [[j Hj]|?%not_elem_of_nil]; try done;
        exists j; (split; [done|]); intros ->; rewrite Hi in Hj; simplify_eq; set_solver.
    + intros [[j [Hj Hne]]|?%not_elem_of_nil]; [|done]. assert (Hx : x ∈ inflight) by (apply H1; eauto). destruct g; [|done].
      apply elem_of_difference. split; [done|]. intros ->%elem_of_singleton. by apply Hne, (H2 j i id).
  - intros j k x [Hj _]%Hl [Hk _]%Hl. by eapply H2.
  - intros j x _. apply not_elem_of_nil.
Qed.

Lemma claim_refreshes_spec inflight stale claims after :
  claim_refreshes inflight stale = (claims, after) ->
  NoDup claims /\ (forall id, id ∈ claims <-> id ∈ stale /\ id ∉ inflight) /\ forall id, id ∈ after <-> id ∈ inflight \/ id ∈ claims.
Proof.
  revert inflight claims after. induction stale as [|id stale IH]; intros inflight claims after; simpl.
  - intros [= <- <-]. split_and!; [constructor|set_solver|set_solver].
  - case_decide as Hin.
    + intros (H1 & H2 & H3)%IH. split_and!; [done| |done]. intros x. rewrite H2. set_solver.
    + destruct (claim_refreshes _ stale) as [c a] eqn:Hc. intros [= <- <-]. apply IH in Hc as (H1 & H2 & H3). split_and!.
      * constructor; [|done]. rewrite H2. set_solver.
      * intros x. rewrite elem_of_cons, H2. destruct (decide (x = id)); set_solver.
      * intros x. rewrite H3, elem_of_cons. set_solver.
Qed.

Lemma claims_pending_ext h inflight p p' : (forall x, x ∈ p <-> x ∈ p') -> claims_over h inflight p -> claims_over h inflight p'.
Proof. intros Hp [H1 H2 H3]. split; [|done|]; intros; rewrite <- ?Hp; eauto. Qed.

Lemma claims_spawn_all w claims rest :
  let spawned := foldr (fun id => spawn_task {| k_peer := id; k_guard := true; k_phase := Queued |}) w claims in
  NoDup (claims ++ rest) -> claims_over (holders w) (w_inflight w) (claims ++ rest) ->
  w_inflight spawned = w_inflight w /\ claims_over (holders spawned) (w_inflight w) rest.
Proof.
  revert rest. induction claims as [|id claims IH]; intros rest; simpl; [done|]. intros Hnd Hw.
  apply NoDup_cons in Hnd as Hnd'. destruct Hnd' as [Hid Hnd']. rewrite not_elem_of_app in Hid.
  destruct (IH (id :: rest)) as [Hi Hc].
  - by rewrite <- Permutation_middle.
  - eapply claims_pending_ext; [|exact Hw]. intros x. set_solver.
  - split; [done|]. rewrite holders_spawn. apply claims_spawn_held; [done|apply holders_fresh|tauto].
Qed.

Section inv.
Context `{E : Ed25519, T : TextEncoding, R : RowCodec}.

Lemma rows_step w w' : rows_ok w -> step w w' -> rows_ok w'.
Proof.
  intros Hw Hs. pose proof (rw_ticket _ Hw) as Ht0.
  destruct Hs as [w m|w io now|w id|w i t Ht Hp Hlt|w i t seq Ht Hp|w i t seq io Ht Hp _|w i t seq Ht Hp|w i t seq x settled Ht Hp _
    |w i t seq x settled now Ht Hp Hlt|w i t seq entry Ht Hp|w id observed Hlt|w i t seq observed Ht Hp|w i t seq observed io Ht Hp _
    |w i t seq observed now Ht Hp Hlt|w l1 item l2 io Hp|w i t Ht];
    try (pose proof (rw_tasks _ Hw _ _ Ht) as [Hseq Hready]; rewrite Hp in Hseq); try (by apply rows_end).
  - by destruct Hw.
  - unfold status_read. destruct (reachability_of _ _ _ _ _) as [rows [claims inflight]]. by apply rows_spawn_all.
  - by apply rows_spawn.
  - apply (rows_set_phase (draw w)); [by apply rows_draw|done|]. split; simpl; [|done]. intros s [= <-]. lia.
  - apply rows_set_phase; [done..|]. split; simpl; [|done]. intros s [= <-]. by apply Hseq.
  - apply rows_set_phase; [done..|]. split; simpl; [|done]. intros s [= <-]. by apply Hseq.
  - pose proof (Hseq seq eq_refl). apply (rows_set_phase (draw w)); [by apply rows_draw|done|]. split; simpl.
    + intros s [= <-]. lia.
    + intros s e [= <- <-]. by apply probe_entry_ok.
  - destruct (Hready _ _ Hp) as (Hs & Hrow & _ & Hu). apply rows_end. by apply rows_probe_commit.
  - apply (rows_spawn (draw w)); [by apply rows_draw|]. split; simpl; [|done]. intros s [= <-]. lia.
  - apply rows_set_phase; [done..|]. split; simpl; [|done]. intros s [= <-]. by apply Hseq.
  - apply rows_end, rows_observation_commit; [done|]. by apply Hseq.
  - destruct item as [[id e] source]. by destruct Hw.
Qed.
Lemma rows_steps m w : rtc step (world_start m) w -> rows_ok w.
Proof.
  intros Hs. assert (H0 : rows_ok (world_start m)) by (split; simpl; done). revert H0.
  induction Hs as [w|w w1 w2 H1 _ IH]; [done|]. intros Hw. by eapply IH, rows_step.
Qed.

Lemma claims_step w w' : claims_ok w -> step w w' -> claims_ok w'.
Proof.
  intros Hw Hs. unfold claims_ok in *.
  assert (Hend : forall v i t, holders v = holders w -> w_inflight v = w_inflight w -> w_tasks w !! i = Some t ->
    claims_over (holders (end_task i t v)) (w_inflight (end_task i t v)) []).
  { intros v i t Hh Hi Ht. assert (Hhi : holders w !! i = Some (k_guard t, k_peer t)) by (unfold holders; by rewrite lookup_fmap, Ht).
    pose proof (claims_end _ _ _ _ _ Hw Hhi) as Hc. unfold end_task. rewrite <- Hh, <- Hi in Hc. revert Hc. unfold holders. rewrite <- fmap_delete.
    by destruct (k_guard t). }
  assert (Hcommit : forall id seq entry, holders (probe_commit id seq entry w) = holders w /\ w_inflight (probe_commit id seq entry w) = w_inflight w).
  { intros id seq entry. unfold probe_commit. by destruct (commit_probe _ _ _ _). }
  assert (Hobs : forall id seq now observed, holders (observation_commit id seq now observed w) = holders w /\
    w_inflight (observation_commit id seq now observed w) = w_inflight w).
  { intros. unfold observation_commit. by destruct (commit_path _ _ _ _ _ _). }
  destruct Hs as [w m|w io now|w id|w i t Ht Hp Hlt|w i t seq Ht Hp|w i t seq io Ht Hp _|w i t seq Ht Hp|w i t seq x settled Ht Hp _
    |w i t seq x settled now Ht Hp Hlt|w i t seq entry Ht Hp|w id observed Hlt|w i t seq observed Ht Hp|w i t seq observed io Ht Hp _
    |w i t seq observed now Ht Hp Hlt|w l1 item l2 io Hp|w i t Ht];
    try (by apply Hend); try (rewrite (holders_set_phase i t _ w Ht); exact Hw).
  - done.
  - unfold status_read, reachability_of. destruct (claim_refreshes _ _) as [claims after] eqn:Hc. simpl.
    apply claim_refreshes_spec in Hc as (Hnd & Hin & Haf). destruct (claims_spawn_all (set_inflight after w) claims []) as [Hi Hcl].
    + by rewrite app_nil_r.
    + rewrite app_nil_r. destruct Hw as [H1 H2 H3]. split; [|done|].
      * intros id. simpl. rewrite Haf, H1, elem_of_nil. tauto.
      * intros i id Hi Hcl. apply Hin in Hcl as [_ Hn]. apply Hn, H1. eauto.
    + by rewrite Hi.
  - rewrite holders_spawn. apply claims_spawn_free; [done|apply holders_fresh].
  - change (holders (draw (set_phase i t (Probing (w_ticket w)) w))) with (holders (set_phase i t (Probing (w_ticket w)) w)). by rewrite holders_set_phase.
  - change (holders (draw (set_phase i t ?p w))) with (holders (set_phase i t p w)). by rewrite holders_set_phase.
  - apply Hend; [apply Hcommit|apply Hcommit|done].
  - change (holders (draw ?x)) with (holders x). rewrite holders_spawn. apply (claims_spawn_free (holders w)); [done|apply holders_fresh].
  - apply Hend; [apply Hobs|apply Hobs|done].
  - by destruct item as [[id e] source].
Qed.
Lemma claims_steps m w : rtc step (world_start m) w -> claims_ok w.
Proof.
  intros Hs. assert (H0 : claims_ok (world_start m)).
  { split; unfold holders; simpl; [|by intros i j id; rewrite fmap_empty, lookup_empty|by intros i id; rewrite fmap_empty, lookup_empty].
    intros id. split; [set_solver|]. intros [[i Hi]|?%not_elem_of_nil]; [|done]. by rewrite fmap_empty, lookup_empty in Hi. }
  revert H0. induction Hs as [w|w w1 w2 H1 _ IH]; [done|]. intros Hw. by eapply IH, claims_step.
Qed.
End inv.

(** What a commit, a frame and a pending transition say of a peer. *)
Section views.
Context `{T : TextEncoding}.
Definition log_view (x : key32 * bool * PeerPath) : option string * bool * PeerPath := (Some (principal x.1.1), x.1.2, x.2).
Definition frame_view (f : ReachTransition) : option string * bool * PeerPath :=
  (pr_principal (rt_peer f), pr_reachable (rt_peer f), pr_path (rt_peer f)).
Definition pending_view (x : key32 * ReachEntry * ReachabilitySource) : option string * bool * PeerPath :=
  (Some (principal x.1.1), re_reachable x.1.2, re_path x.1.2).
End views.

(** ** Properties *)
Section properties.
Context `{E : Ed25519, T : TextEncoding, R : RowCodec}.

(** The cache of one peer across a step: the same row, or one commit of one task. *)
Lemma cache_step w w' id :
  step w w' ->
  w_cache w' !! id = w_cache w !! id \/
  (exists i t seq entry, w_tasks w !! i = Some t /\ k_peer t = id /\ k_phase t = Ready seq entry /\
     w_cache w' !! id = (commit_probe id seq entry (w_cache w)).2 !! id) \/
  exists i t seq observed now e, w_tasks w !! i = Some t /\ k_peer t = id /\ k_phase t = Observed seq observed /\
     commit_path id seq now (w_ticket w) observed (w_cache w) = Some e /\ w_cache w' !! id = Some e.
Proof.
  intros Hs.
  assert (Hend : forall v i t, w_cache (end_task i t v) = w_cache v) by (intros; unfold end_task; by destruct (k_guard _)).
  destruct Hs as [w m|w io now|w x|w i t Ht Hp Hlt|w i t seq Ht Hp|w i t seq io Ht Hp _|w i t seq Ht Hp|w i t seq x settled Ht Hp _
    |w i t seq x settled now Ht Hp Hlt|w i t seq entry Ht Hp|w x observed Hlt|w i t seq observed Ht Hp|w i t seq observed io Ht Hp _
    |w i t seq observed now Ht Hp Hlt|w l1 item l2 io Hp|w i t Ht]; rewrite ?Hend; try by left.
  - left. unfold status_read. destruct (reachability_of _ _ _ _ _) as [rows [claims after]]. simpl. by induction claims.
  - unfold probe_commit. destruct (commit_probe (k_peer t) seq entry (w_cache w)) as [o cache] eqn:Hc. simpl.
    destruct (decide (k_peer t = id)) as [Hid|Hne]; [right; left; exists i, t, seq, entry; split_and!; try done; by rewrite <- Hid, Hc|left].
    apply commit_probe_cases in Hc as [(_ & _ & ->)|(old & _ & [(_ & _ & ->)|[(_ & _ & _ & _ & _ & ->)|(_ & _ & _ & ->)]])];
      rewrite ?lookup_insert_ne; done.
  - unfold observation_commit. destruct (commit_path _ _ _ _ _ _) as [e|] eqn:Hc; [|by left]. simpl.
    destruct (decide (k_peer t = id)) as [Hid|Hne]; [|left; by rewrite lookup_insert_ne]. right; right.
    exists i, t, seq, observed, now, e. subst id. split_and!; try done. by rewrite lookup_insert_eq.
  - left. by destruct item as [[x e] source].
Qed.

(** C22: the cache never goes backwards and keeps its evidence.  Whatever probes and watchers
    overlap, a peer's row is never replaced by one that started earlier; a reachable peer is
    only ever reported unreachable by a probe that started after the evidence for it arrived;
    and what a pong said is not lost while the peer stays reachable. *)
Theorem evidence_kept m w w' id e :
  rtc step (world_start m) w -> step w w' -> w_cache w !! id = Some e ->
  exists e', w_cache w' !! id = Some e' /\ re_seq e <= re_seq e' /\
    (re_reachable e = true -> re_reachable e' = false -> re_observed e <= re_seq e') /\
    (re_pong_at e <> None -> re_reachable e' = true -> re_pong_at e' <> None).
Proof.
  intros Hr Hs He. pose proof (rows_steps _ _ Hr) as Hw.
  destruct (cache_step w w' id Hs) as [->|[(i & t & seq & entry & Ht & Hid & Hp & ->)|(i & t & seq & observed & now & e' & Ht & Hid & Hp & Hc & ->)]].
  - exists e. split_and!; [done|lia|congruence|done].
  - pose proof (rw_tasks _ Hw _ _ Ht) as [_ Hready]. destruct (Hready _ _ Hp) as (Hseq & Hrow & Hpong & _).
    destruct (commit_probe id seq entry (w_cache w)) as [o cache] eqn:Hc. simpl. pose proof (rw_rows _ Hw _ _ He) as Hold.
    apply commit_probe_cases in Hc as [(Hn & _)|(old & Ho & Hc)]; [congruence|]. rewrite He in Ho. injection Ho as <-.
    destruct Hc as [(_ & _ & ->)|[(_ & _ & _ & _ & _ & ->)|(Hle & Hev & _ & ->)]].
    + destruct (keep_pong_same entry e) as (Hks & _ & Hkr & _). exists (keep_pong entry e). rewrite lookup_insert_eq. split_and!; [done|lia|congruence|].
      intros Hpe _. unfold keep_pong. rewrite (bool_decide_false (re_pong_at e = None)) by done. by rewrite andb_false_r.
    + exists e. split_and!; [done|lia|congruence|done].
    + exists entry. rewrite lookup_insert_eq. split_and!; [done|lia|intros; rewrite Hseq; by apply Hev|auto].
  - exists e'. split; [done|]. apply commit_path_cases in Hc as (_ & [(Hn & _)|(old & Ho & Hle & _ & ->)]); [congruence|].
    rewrite He in Ho. injection Ho as <-. simpl. split_and!; [lia|congruence|done].
Qed.

Lemma announced_step w w' :
  (frame_view <$> w_frames w) ++ (pending_view <$> w_pending w) ⊆+ (log_view <$> w_log w) -> step w w' ->
  (frame_view <$> w_frames w') ++ (pending_view <$> w_pending w') ⊆+ (log_view <$> w_log w').
Proof.
  intros Hw Hs.
  assert (Hend : forall v i t, (frame_view <$> w_frames v) ++ (pending_view <$> w_pending v) ⊆+ (log_view <$> w_log v) ->
    (frame_view <$> w_frames (end_task i t v)) ++ (pending_view <$> w_pending (end_task i t v)) ⊆+ (log_view <$> w_log (end_task i t v)))
    by (intros v i t Hv; unfold end_task; by destruct (k_guard t)).
  assert (Hnews : forall cache id news, (frame_view <$> w_frames w) ++ (pending_view <$> w_pending (with_cache cache id news w)) ⊆+
    (log_view <$> w_log (with_cache cache id news w))).
  { intros cache id news. simpl. rewrite !fmap_app, app_assoc. apply submseteq_app; [done|]. by destruct news as [[e s]|]. }
  destruct Hs as [w m|w io now|w x|w i t Ht Hp Hlt|w i t seq Ht Hp|w i t seq io Ht Hp _|w i t seq Ht Hp|w i t seq x settled Ht Hp _
    |w i t seq x settled now Ht Hp Hlt|w i t seq entry Ht Hp|w x observed Hlt|w i t seq observed Ht Hp|w i t seq observed io Ht Hp _
    |w i t seq observed now Ht Hp Hlt|w l1 item l2 io Hp|w i t Ht]; try done; try (by apply Hend).
  - unfold status_read. destruct (reachability_of _ _ _ _ _) as [rows [claims after]]. simpl. by induction claims.
  - apply Hend. unfold probe_commit. destruct (commit_probe _ _ _ _) as [o cache]. apply Hnews.
  - apply Hend. unfold observation_commit. destruct (commit_path _ _ _ _ _ _) as [e|]; [|done]. apply (Hnews (w_cache w) (k_peer t) (Some (e, FromSession))).
  - rewrite Hp in Hw. destruct item as [[id e] source]. simpl. etrans; [|exact Hw]. rewrite !fmap_app, fmap_cons. rewrite <- app_assoc.
    apply submseteq_app; [done|]. rewrite <- (Permutation_middle (pending_view <$> l1)).
    unfold stored_row. destruct (resolve io (m_store (w_mesh w)) id) as [[pe|]|]; simpl; [done|by apply submseteq_cons..].
Qed.

(** The frames tell the cache's story.  Applied in the order of their commits, the
    transitions leave a subscriber believing of every peer exactly what the cache says of its
    reachability and path; and every frame sent or waiting to be sent is of a commit of its own. *)
Theorem transitions_announced m w :
  rtc step (world_start m) w ->
  (forall id, believed id (w_log w) = view id (w_cache w)) /\
  (frame_view <$> w_frames w) ++ (pending_view <$> w_pending w) ⊆+ (log_view <$> w_log w).
Proof.
  intros Hs. split; [apply (rw_log _ (rows_steps _ _ Hs))|].
  assert (H0 : (frame_view <$> w_frames (world_start m)) ++ (pending_view <$> w_pending (world_start m)) ⊆+ (log_view <$> w_log (world_start m))) by done.
  revert H0. induction Hs as [w|w w1 w2 H1 _ IH]; [done|]. intros Hw. by eapply IH, announced_step.
Qed.

(** The tasks of [id] that have passed its revocation check. *)
Definition unchecked (id : key32) (w : World) : Prop :=
  forall i t, w_tasks w !! i = Some t -> k_peer t = id ->
    match k_phase t with Queued | Probing _ | Watching _ _ => True | _ => False end.

Lemma unchecked_step w w' id :
  (forall io, dial_refused io (w_mesh w) id = true) -> unchecked id w -> step w w' -> unchecked id w'.
Proof.
  intros Href Hu Hs.
  assert (Hset : forall i t p, w_tasks w !! i = Some t ->
    (k_peer t = id -> match p with Queued | Probing _ | Watching _ _ => True | _ => False end) -> unchecked id (set_phase i t p w)).
  { intros i t p Ht Hp j u. simpl. rewrite lookup_insert_Some. intros [[_ <-]|[_ Hj]]; [done|by apply Hu with (i := j)]. }
  assert (Hspawn : forall t, (k_phase t = Queued \/ exists a b, k_phase t = Watching a b) -> forall v, unchecked id v -> unchecked id (spawn_task t v)).
  { intros t Ht v Hv j u. simpl. rewrite lookup_insert_Some. intros [[_ <-]|[_ Hj]]; [|by apply Hv with (i := j)].
    intros _. by destruct Ht as [->|(a & b & ->)]. }
  assert (Hend : forall i t v, w_tasks v = w_tasks w -> unchecked id (end_task i t v)).
  { intros i t v Hv j u Hj. apply Hu with (i := j). rewrite <- Hv. unfold end_task in Hj.
    destruct (k_guard t); simpl in Hj; by apply lookup_delete_Some in Hj as [_ ?]. }
  destruct Hs as [w m|w io now|w x|w i t Ht Hp Hlt|w i t seq Ht Hp|w i t seq io Ht Hp Hio|w i t seq Ht Hp|w i t seq x settled Ht Hp _
    |w i t seq x settled now Ht Hp Hlt|w i t seq entry Ht Hp|w x observed Hlt|w i t seq observed Ht Hp|w i t seq observed io Ht Hp Hio
    |w i t seq observed now Ht Hp Hlt|w l1 item l2 io Hp|w i t Ht]; try done; try (by apply Hend).
  - unfold status_read. destruct (reachability_of _ _ _ _ _) as [rows [claims after]]. simpl. induction claims; simpl; [done|]. apply Hspawn; [by left|done].
  - apply Hspawn; [by left|done].
  - by apply Hset.
  - apply Hset; [done|]. intros Hid. by rewrite Hid, Href in Hio.
  - apply Hset; [done|]. intros Hid. pose proof (Hu i t Ht Hid) as Hx. by rewrite Hp in Hx.
  - intros j u Hj Hid. simpl in Hj. rewrite lookup_insert_Some in Hj. destruct Hj as [[<- <-]|[_ Hj]]; [|by apply Hu with (i := j)].
    pose proof (Hu i t Ht Hid) as Hx. by rewrite Hp in Hx.
  - apply Hend. unfold probe_commit. by destruct (commit_probe _ _ _ _).
  - apply (Hspawn {| k_peer := x; k_guard := false; k_phase := Watching (w_ticket w) observed |}); [by right; eexists _, _|exact Hu].
  - apply Hset; [done|]. intros Hid. by rewrite Hid, Href in Hio.
  - apply Hend. unfold observation_commit. by destruct (commit_path _ _ _ _ _ _).
  - by destruct item as [[x e] source].
Qed.

(** A revoked peer is not written about.  While this node refuses a peer, whatever probes,
    refreshes and sessions of it start, end or are cancelled, its row stays what it was. *)
Theorem refused_peer_silent w w' id :
  unchecked id w -> rtc (fun a b => step a b /\ forall io, dial_refused io (w_mesh a) id = true) w w' ->
  w_cache w' !! id = w_cache w !! id.
Proof.
  intros Hu Hs. induction Hs as [w|w w1 w2 [H1 Href] _ IH]; [done|].
  rewrite IH by by eapply unchecked_step. destruct (cache_step w w1 id H1) as [?|[(i & t & seq & entry & Ht & Hid & Hp & _)|(i & t & seq & observed & now & e & Ht & Hid & Hp & _)]];
    [done|..]; pose proof (Hu i t Ht Hid) as Hx; by rewrite Hp in Hx.
Qed.

(** One refresh at a time, and always one.  However reads, probes and cancellations
    interleave, a peer has at most one background refresh; and after a read every stored peer
    that is stale has one, while the read itself answers at once with a row for every peer. *)
Theorem refreshed_once m w io now peers :
  rtc step (world_start m) w -> list_peers io (m_store (w_mesh w)) = Ok peers ->
  let '(out, w') := status_read io now w in
  pr_name <$> out = pe_nickname <$> peers /\
  (forall i j t u, w_tasks w' !! i = Some t -> w_tasks w' !! j = Some u -> k_guard t = true -> k_guard u = true -> k_peer t = k_peer u -> i = j) /\
  forall e, e ∈ peers -> (reach_one now (w_cache w) e).2 = true ->
    exists i t, w_tasks w' !! i = Some t /\ k_guard t = true /\ k_peer t = pe_endpoint_id e.
Proof.
  intros Hr Hl. assert (Hc : claims_ok (status_read io now w).2) by (eapply claims_step; [by eapply claims_steps|apply (s_status _ io now)]).
  assert (Hin : forall e, e ∈ peers -> (reach_one now (w_cache w) e).2 = true -> pe_endpoint_id e ∈ w_inflight (status_read io now w).2).
  { intros e He Hst. unfold status_read, reachability_of. rewrite Hl. destruct (claim_refreshes _ _) as [claims after] eqn:Hcl. simpl.
    apply claim_refreshes_spec in Hcl as (_ & Hcl & Haf).
    assert (Hf : w_inflight (foldr (fun id => spawn_task {| k_peer := id; k_guard := true; k_phase := Queued |}) (set_inflight after w) claims) = after) by (clear Hcl Haf; by induction claims).
    rewrite Hf. apply Haf. destruct (decide (pe_endpoint_id e ∈ w_inflight w)) as [?|Hn]; [by left|right]. apply Hcl. split; [|done].
    apply list_elem_of_fmap_2, list_elem_of_filter. done. }
  assert (Hout : pr_name <$> (status_read io now w).1 = pe_nickname <$> peers).
  { unfold status_read, reachability_of. rewrite Hl. destruct (claim_refreshes _ _) as [claims after]. simpl. rewrite <- list_fmap_compose.
    apply list_fmap_ext. intros i e _. simpl. unfold reach_one. by destruct (w_cache w !! pe_endpoint_id e). }
  destruct (status_read io now w) as [out w']. simpl in *.
  assert (Hh : forall i t, w_tasks w' !! i = Some t -> k_guard t = true -> holders w' !! i = Some (true, k_peer t))
    by (intros i t Ht Hg; unfold holders; rewrite lookup_fmap, Ht; simpl; by rewrite Hg).
  split; [done|]. split.
  - intros i j t u Ht Hu Hg Hg' Hp. apply (co_one _ _ _ Hc i j (k_peer t)); [by apply Hh|]. rewrite Hp. by apply Hh.
  - intros e He Hst. pose proof (Hin e He Hst) as Hx. apply (co_claims _ _ _ Hc) in Hx as [[i Hi]|?%not_elem_of_nil]; [|done].
    unfold holders in Hi. rewrite lookup_fmap in Hi. apply fmap_Some in Hi as (t & Ht & [= Hg Hp]). by exists i, t.
Qed.
End properties.

(** *** Discovery *)
Lemma pong_services_pong v meta services : pong_services (pong v meta services) = services.
Proof.
  unfold pong_services, pong, value_get. simpl. case_decide as Hs.
  - subst. by case_decide.
  - rewrite map_get_insert, decide_True by done. simpl. clear Hs.
    induction services as [|s l IH]; [done|]. change (s :: omap as_str (VString <$> l) = s :: l). by rewrite IH.
Qed.
Lemma pong_meta_pong v meta services :
  Z.of_nat (String.length meta) <= APP_METADATA_MAX_BYTES -> pong_meta (pong v meta services) = meta.
Proof.
  intros Hl. assert (Hg : value_get "meta" (pong v meta services) = if decide (meta = ""%string) then None else Some (VString meta)).
  { unfold pong, value_get. cbn [as_object mbind option_bind]. set (base := [("stack_version"%string, VString v)]).
    assert (Hb : map_get "meta" base = None) by done. destruct (decide (services = [])); [|rewrite map_get_insert, decide_False by done];
      (destruct (decide (meta = ""%string)); [done|by rewrite map_get_insert, decide_True]). }
  unfold pong_meta. rewrite Hg. case_decide as He; simpl; [by subst|]. by rewrite (proj2 (Z.leb_le _ _)).
Qed.

#[export] Instance name_le_total : Total name_le.
Proof. intros a b. destruct (String.leb_total a b); [by left|by right]. Qed.

Section discovery.
Context `{T : TextEncoding}.

(** What a peer is told it may use is what it would be let in to.  The services a caller
    reads out of this node's pong are exactly those whose name, put into its first frame by a
    dial, this node's own selection answers with that service for that caller: never one it
    would be refused, and never one withheld that it would be granted.  They come in order,
    each once, and metadata within the bound comes through with them. *)
Theorem discovery_is_admission l identity version meta :
  let answer := pong version meta (admitted_services l identity) in
  (forall name top, name ∈ pong_services answer <->
     (select_service (inject_service (VObject top) name) (allowed_services (services_at l (live_get l)) (Some identity))).2 = Selected name) /\
  NoDup (pong_services answer) /\ Sorted name_le (pong_services answer) /\
  (Z.of_nat (String.length meta) <= APP_METADATA_MAX_BYTES -> pong_meta answer = meta).
Proof.
  intros answer. unfold answer. rewrite pong_services_pong. split_and!.
  - intros name top. rewrite inject_selects. unfold admitted_services. rewrite merge_sort_Permutation. unfold caller_admitted_services.
    by case_decide.
  - unfold admitted_services. rewrite merge_sort_Permutation. unfold caller_admitted_services, allowed_services.
    assert (Hn : NoDup ((map_to_list (services_at l (live_get l))).*1)) by apply NoDup_fst_map_to_list. revert Hn.
    generalize (map_to_list (services_at l (live_get l))). induction l0 as [|[n e] rows IH]; [by constructor|]. simpl. intros [Hx Hn]%NoDup_cons.
    destruct (caller_admits identity (se_allow e)); [|by apply IH]. constructor; [|by apply IH].
    intros ([n' e'] & Hin & He)%list_elem_of_omap. apply Hx. apply list_elem_of_fmap. exists (n', e'). split; [|done]. simpl in *.
    by destruct (caller_admits identity (se_allow e')); simplify_eq.
  - apply Sorted_merge_sort, _.
  - apply pong_meta_pong.
Qed.
End discovery.

(** A pong that is committed after a probe started later has failed leaves no trace: the row
    stays unreachable, although the peer answered. *)
Lemma late_pong_dropped id v rtt settled now seq observed cache old :
  cache !! id = Some old -> re_reachable old = false -> seq < re_seq old ->
  commit_probe id seq (probe_entry (Pong v rtt) settled now seq observed) cache = (Superseded old, cache).
Proof.
  intros Ho Hr Hlt. unfold commit_probe, supersedes. rewrite Ho, (proj2 (Z.leb_gt _ _)) by done. simpl.
  unfold keep_pong. rewrite Hr. simpl. by rewrite insert_id.
Qed.

(** An unhindered probe, from its start to its commit. *)
Lemma probe_runs `{E : Ed25519, T : TextEncoding, R : RowCodec} w id x settled now io :
  dial_refused io (w_mesh w) id = false -> x <> Throttled -> w_ticket w + 1 < u64_max ->
  exists w', rtc step w w' /\ w_mesh w' = w_mesh w /\ w_ticket w' = w_ticket w + 1 + 1 /\ w_frames w' = w_frames w /\
    let committed := probe_commit id (w_ticket w) (probe_entry x settled now (w_ticket w) (w_ticket w + 1)) w in
    w_cache w' = w_cache committed /\ w_pending w' = w_pending committed.
Proof.
  intros Href Hx Ht. set (i := fresh (dom (w_tasks w))). set (t := fun p => {| k_peer := id; k_guard := false; k_phase := p |}).
  assert (Hi : forall v p, w_tasks (on_tasks (<[i := t p]>) v) !! i = Some (t p)) by (intros; simpl; by rewrite lookup_insert_eq).
  eexists. split.
  - eapply rtc_l; [apply (s_probe w id)|].
    eapply rtc_l; [apply (s_start _ i (t Queued)); [apply (Hi w)|done|simpl; lia]|].
    eapply rtc_l; [apply (s_allowed _ i (t (Probing (w_ticket w))) (w_ticket w) io); [simpl; by rewrite lookup_insert_eq|done|done]|].
    eapply rtc_l; [apply (s_exchange _ i (t (Dialling (w_ticket w))) (w_ticket w) x settled); [simpl; by rewrite lookup_insert_eq|done|done]|].
    eapply rtc_l; [apply (s_draw _ i (t (Answered (w_ticket w) x settled)) (w_ticket w) x settled now); [simpl; by rewrite lookup_insert_eq|done|simpl; lia]|].
    eapply rtc_l; [apply (s_commit _ i (t (Ready (w_ticket w) (probe_entry x settled now (w_ticket w) (w_ticket w + 1)))) (w_ticket w)); [simpl; by rewrite lookup_insert_eq|done]|].
    apply rtc_refl.
  - unfold end_task, probe_commit. simpl. by destruct (commit_probe _ _ _ _) as [o cache].
Qed.

(** ** Witnesses *)
Module Witness.
Import Toy ToyRows Limits.Witness Peers.Witness Dial.Witness.

(** The steps of one observation of the phone, over a relay or direct. *)
Definition w0 : World := world_start m1.
Definition task0 (p : Phase) : Task := {| k_peer := phone; k_guard := false; k_phase := p |}.
Definition watched (p : PeerPath) : World := draw (spawn_task (task0 (Watching 0 p)) w0).
Definition allowed (p : PeerPath) : World := set_phase 0 (task0 (Watching 0 p)) (Observed 0 p) (watched p).
Definition seen (p : PeerPath) : World := end_task 0 (task0 (Observed 0 p)) (observation_commit phone 0 100 p (allowed p)).

Lemma seen_reached : rtc step w0 (seen Direct).
Proof.
  eapply rtc_l; [exact (s_watch w0 phone Direct ltac:(vm_compute; reflexivity))|].
  eapply rtc_l; [eapply (s_watch_allowed (watched Direct) 0 (task0 (Watching 0 Direct)) 0 Direct dial_io); vm_compute; reflexivity|].
  eapply rtc_l; [eapply (s_watch_commit (allowed Direct) 0 (task0 (Observed 0 Direct)) 0 Direct 100); vm_compute; reflexivity|].
  apply rtc_refl.
Defined.
Definition phone_up : ReachEntry := seeded Direct 100 0 1.
Lemma seen_cache : w_cache (seen Direct) !! phone = Some phone_up.
Proof. vm_compute. reflexivity. Qed.

(** A probe of the phone that starts after. *)
Lemma evidence_kept_witness : exists e', w_cache (spawn_task (task0 Queued) (seen Direct)) !! phone = Some e' /\ re_seq phone_up <= re_seq e'.
Proof.
  destruct (evidence_kept m1 (seen Direct) (spawn_task (task0 Queued) (seen Direct)) phone phone_up seen_reached (s_probe (seen Direct) phone) seen_cache)
    as (e' & He & Hs & _). exists e'. split; [exact He|exact Hs].
Defined.

Lemma transitions_announced_witness : believed phone (w_log (seen Direct)) = (true, Direct).
Proof.
  rewrite (proj1 (transitions_announced m1 (seen Direct) seen_reached) phone). vm_compute. reflexivity.
Defined.

(** The phone, revoked by the roster. *)
Definition revoked_view : RosterView :=
  {| v_org_id := "org"; v_serial := 1; v_expires_at_epoch := 100; v_devices := ∅; v_revoked := {[phone]}; v_groups := []; v_users := [] |}.
Definition m3 : MeshState :=
  {| m_serving := m_serving m1; m_store := m_store m1; m_roster := Some revoked_view; m_conns := m_conns m1; m_audit := m_audit m1 |}.
Lemma phone_refused io : dial_refused io m3 phone = true.
Proof. unfold dial_refused, Hooks.refused_by. destruct (is_refused _ _ _); reflexivity. Defined.
Lemma refused_peer_silent_witness : w_cache (spawn_task (task0 Queued) (world_start m3)) !! phone = None.
Proof.
  rewrite (refused_peer_silent (world_start m3) (spawn_task (task0 Queued) (world_start m3)) phone).
  - reflexivity.
  - intros i t Ht. vm_compute in Ht. discriminate Ht.
  - eapply rtc_l; [|apply rtc_refl]. split; [apply s_probe|exact phone_refused].
Defined.

Lemma one_peer : list_peers Allowlist.healthy (m_store (w_mesh w0)) = Ok [phone_row].
Proof. vm_compute. reflexivity. Qed.
Lemma refreshed_once_witness : exists i t, w_tasks (status_read Allowlist.healthy 500 w0).2 !! i = Some t /\ k_guard t = true /\ k_peer t = phone.
Proof.
  pose proof (refreshed_once m1 w0 Allowlist.healthy 500 [phone_row] (rtc_refl _ _) one_peer) as H.
  destruct (status_read Allowlist.healthy 500 w0) as [out w'] eqn:Hs. destruct H as (_ & _ & H).
  apply (H phone_row); [apply list_elem_of_here|vm_compute; reflexivity].
Defined.

(** Two probes of the phone: the first is answered and commits, the second starts later, fails
    and commits; their frames are sent the other way round, and a subscriber is left believing
    that the phone is up. *)
Lemma announced_out_of_order : exists w,
  rtc step w0 w /\ w_pending w = [] /\ view phone (w_cache w) = (false, Unknown) /\
  frame_view <$> last (w_frames w) = Some (Some (principal phone), true, Direct).
Proof.
  assert (Hr : dial_refused dial_io m1 phone = false) by (vm_compute; reflexivity).
  destruct (probe_runs w0 phone (Pong (VObject []) 7) Direct 100 dial_io Hr ltac:(done) ltac:(vm_compute; reflexivity))
    as (w1 & H1 & M1 & T1 & F1 & C1 & P1).
  destruct (probe_runs w1 phone NoPong Unknown 101 dial_io ltac:(rewrite M1; exact Hr) ltac:(done) ltac:(rewrite T1; vm_compute; reflexivity))
    as (w2 & H2 & M2 & T2 & F2 & C2 & P2).
  set (up := probe_entry (Pong (VObject []) 7) Direct 100 0 1). set (down := probe_entry NoPong Unknown 101 2 3).
  assert (Cup : w_cache w1 = {[phone := up]}) by (rewrite C1; reflexivity). assert (Pup : w_pending w1 = [(phone, up, FromProbe)]) by (rewrite P1; reflexivity).
  assert (Hc : commit_probe phone (w_ticket w1) (probe_entry NoPong Unknown 101 (w_ticket w1) (w_ticket w1 + 1)) (w_cache w1) =
    (Committed (Some up), <[phone := down]> {[phone := up]})).
  { rewrite T1, Cup. unfold commit_probe. by rewrite lookup_singleton_eq. }
  unfold probe_commit in C2, P2. rewrite Hc in C2, P2. simpl in C2, P2. rewrite Pup in P2. rewrite F1 in F2.
  assert (Hd : probe_entry NoPong Unknown 101 (w_ticket w1) (w_ticket w1 + 1) = down) by (rewrite T1; reflexivity). rewrite Hd in P2.
  eexists. split.
  - etrans; [exact H1|]. etrans; [exact H2|].
    eapply rtc_l; [apply (s_send w2 [(phone, up, FromProbe)] (phone, down, FromProbe) [] Allowlist.healthy); rewrite P2; reflexivity|].
    eapply rtc_l; [eapply (s_send _ [] (phone, up, FromProbe) [] Allowlist.healthy); reflexivity|]. apply rtc_refl.
  - split; [reflexivity|]. split.
    + simpl. unfold view. by rewrite C2, lookup_insert_eq.
    + simpl. rewrite F2, M2, M1. vm_compute. reflexivity.
Qed.
End Witness.
