(* ===== verification/Selectors.v ===== *)
(** * Verbs on one peer

    The verbs that take a peer by nickname, device or person ([node/src/daemon/handlers.rs]):
    [peer_services], the read-only [peer_diagnostics] with its two address lists, and
    [peer_hint_clear].

    A read or write of the store takes the fault that befalls it; a probe and iroh's view of a
    peer are what they come to. *)
From stdpp Require Import base list gmap strings pretty.
From Stdlib Require Import ZArith Lia.
From S2P Require Import Prelude Bytes Externals Validate Identity Sign Config AuditFiles Auditor Addrs Paths Mesh Grants Peers Dial Status Reach Allowlist.

(** ** Resolving a selector *)

(** The faults of the lookups: by nickname, by person, of the revocation check and of the
    membership check. *)
Record SelectIo := { se_nick : Io; se_user : Io; se_refused : Io; se_member : Io }.
Definition calm : SelectIo := {| se_nick := healthy; se_user := healthy; se_refused := healthy; se_member := healthy |}.

Section selectors.
Context `{T : TextEncoding, R : RowCodec}.

Definition store_refused (io : SelectIo) (s : PeerStore) (eid : key32) : bool := is_refused (se_refused io) s eid.

(** The device's id without a look at the pairs, the row of the nickname, or the first row
    of the person. *)
Definition named_endpoint (io : SelectIo) (s : PeerStore) (peer : string) : result string key32 :=
  match strip_prefix "eid:" peer with
  | Some hex =>
      raw ← map_err (fun _ => "invalid eid principal: not lowercase hex"%string) (hexlower_decode hex);
      ok_or "invalid eid principal: expected 32 bytes"%string (try_key32 raw)
  | None =>
      e ← entry_for (se_nick io) s peer;
      match e with
      | Some e => Ok (pe_endpoint_id e)
      | None =>
          rows ← entries_for_user (se_user io) s peer;
          ok_or "no paired peer"%string (pe_endpoint_id <$> head rows)
      end
  end.

Definition resolve_peer_endpoint (io : SelectIo) (s : PeerStore) (peer : string) : result string key32 :=
  eid ← named_endpoint io s peer;
  if store_refused io s eid then Err "the peer is REVOKED on this node"%string else Ok eid.

(** Every device of a person, or the one paired device that is named. *)
Definition peer_hint_targets (io : SelectIo) (s : PeerStore) (peer : string) : result string (list key32) :=
  if starts_with "b64u:" peer then
    entries ← entries_for_user (se_user io) s peer;
    match entries with
    | [] => Err "no paired device for user"%string
    | _ => Ok (pe_endpoint_id <$> entries)
    end
  else
    id ← resolve_peer_endpoint io s peer;
    known ← Allowlist.resolve (se_member io) s id;
    match known with Some _ => Ok [id] | None => Err "no paired peer - nothing to clear"%string end.

(** ** What a peer offers us

    The outbound revocation check comes before the cached probe. *)
Definition peer_services (io : SelectIo) (dio : DialIo) (probe : key32 -> ReachEntry) (m : MeshState) (peer : string) :
    result string (list string) :=
  endpoint_id ← resolve_peer_endpoint io (m_store m) peer;
  if dial_refused dio m endpoint_id then Err "the peer is REVOKED on this node"%string
  else
    let entry := probe endpoint_id in
    if negb (re_reachable entry) then Err "the peer is unreachable"%string
    else if bool_decide (re_pong_at entry = None) then Err "its shared services could not be fetched just now"%string
    else Ok (re_services entry).

(** ** Forgetting where a peer was *)

(** The devices are cleared one after the other; the first failure ends it. *)
Fixpoint clear_all (io : key32 -> Io) (ids : list key32) (s : PeerStore) :
    result string (list (key32 * option string)) * PeerStore :=
  match ids with
  | [] => (Ok [], s)
  | id :: ids =>
      match clear_last_addr (io id) s id with
      | Err e => (Err e, s)
      | Ok (forgotten, s) =>
          let '(r, s) := clear_all io ids s in
          (outcomes ← r; Ok ((id, forgotten) :: outcomes), s)
      end
  end.

Definition hint_record (ts : string) (o : key32 * option string) : option AuditRecord :=
  _ ← o.2; Some (trust_record ts "peer_hint_clear" (Some (principal o.1)) None).

Definition peer_hint_clear (io : SelectIo) (clear : key32 -> Io) (ts peer : string) : Verb (list string) := fun m =>
  match peer_hint_targets io (m_store m) peer with
  | Err e => (Err (Failed e), m)
  | Ok targets =>
      let '(r, s) := clear_all clear targets (m_store m) in
      let m := with_store s m in
      match r with
      | Err e => (Err (Failed e), m)
      | Ok outcomes => (Ok (omap snd outcomes), foldl (fun m rec => with_audit rec m) m (omap (hint_record ts) outcomes))
      end
  end.
End selectors.

(** ** Addresses as text *)

(** [{:x}] of a 16-bit segment. *)
Fixpoint hex_go (fuel : nat) (z : Z) (acc : string) : string :=
  match fuel with
  | O => acc
  | S fuel =>
      let d := (z mod 16)%Z in
      let acc := (from_bytes [byte_of (if (d <? 10)%Z then 48 + d else 87 + d)] +:+ acc)%string in
      if (z / 16 =? 0)%Z then acc else hex_go fuel (z / 16) acc
  end.
Definition hex_text (z : Z) : string := hex_go 4 z "".

Definition octet (a : Z) (i : Z) : Z := Z.land (Z.shiftr a (8 * i)) 255.
Definition v4_text (a : Z) : string :=
  String.concat "." ((fun i => pretty (octet a i)) <$> [3; 2; 1; 0]%Z).

Definition segments (a : Z) : list Z := (fun i => Z.land (Z.shiftr a (16 * i)) 0xffff) <$> [7; 6; 5; 4; 3; 2; 1; 0]%Z.

(** The first of the longest runs of zeros: its start and its length. *)
Fixpoint zero_run (i : nat) (current longest : nat * nat) (l : list Z) : nat * nat :=
  match l with
  | [] => longest
  | z :: l =>
      if (z =? 0)%Z then
        let current := (if decide (current.2 = 0)%nat then i else current.1, S current.2) in
        zero_run (S i) current (if decide (longest.2 < current.2)%nat then current else longest) l
      else zero_run (S i) (0, 0)%nat longest l
  end.
Definition groups (l : list Z) : string := String.concat ":" (hex_text <$> l).
Definition v6_text (a : Z) : string :=
  match to_canonical (V6 a) with
  | V4 b => "::ffff:" +:+ v4_text b
  | V6 _ =>
      let l := segments a in
      let '(start, len) := zero_run 0 (0, 0)%nat (0, 0)%nat l in
      if decide (1 < len)%nat then groups (take start l) +:+ "::" +:+ groups (drop (start + len) l) else groups l
  end.
Definition socket_text (ip : IpAddr) (port : Z) : string :=
  match ip with
  | V4 a => v4_text a +:+ ":" +:+ pretty port
  | V6 a => "[" +:+ v6_text a +:+ "]:" +:+ pretty port
  end.

Definition addr_differences (hint known : list string) : list string * list string :=
  (filter (fun a => a ∉ known) hint, filter (fun a => a ∉ hint) known).

(** ** The diagnostic *)
Record KnownAddr := { kn_addr : string; kn_active : bool }.
Record PeerDiagnosticsResult := {
  dg_nickname : string; dg_principal : string; dg_user_id : option string; dg_paired_at : option string;
  dg_last_addr : option string; dg_hint_addrs : list string; dg_hint_usable : bool;
  dg_reachability : option PeerReachability; dg_known_addrs : option (list KnownAddr);
  dg_hint_unknown_to_iroh : list string; dg_iroh_not_in_hint : list string }.

Section diagnostics.
Context `{E : Ed25519, T : TextEncoding, R : RowCodec, AC : AddrCodec, RU : RelayUrls}.

(** A relay of the address's type is parsed already; one that is not is named alone. *)
Definition label_transport_addr (a : TransportAddr) : string :=
  match a with
  | Ip ip port => socket_text ip port
  | Relay u => match relay_parse u with
               | Some r => "relay " +:+ sanitize_relay_url r
               | None => "(unsupported transport address)"
               end
  | Custom _ => "(unsupported transport address)"
  end.

Definition known_addr (au : TransportAddr * bool) : KnownAddr :=
  {| kn_addr := label_transport_addr au.1; kn_active := au.2 |}.

(** [remote] is iroh's entry for the peer, [None] when it has none or does not answer in
    time; [store] is read twice, under two faults. *)
Definition peer_diagnostics (io : SelectIo) (row : Io) (now : Z) (cache : Cache)
    (remote : key32 -> option (list (TransportAddr * bool))) (s : PeerStore) (peer : string) : result string PeerDiagnosticsResult :=
  endpoint_id ← resolve_peer_endpoint io s peer;
  found ← Allowlist.resolve row s endpoint_id;
  entry ← ok_or "the peer is not in the allowlist"%string found;
  id ← ok_or "stored endpoint id is invalid"%string (Dial.endpoint_id endpoint_id);
  let dialed := stored_dial_addr (pe_last_addr entry) id in
  let hint_addrs := label_transport_addr <$> ea_addrs dialed in
  let known := option_map (map known_addr) (remote id) in
  let diffs :=
    match known with
    | Some known => addr_differences hint_addrs (map kn_addr known)
    | None => ([], [])
    end in
  Ok {| dg_nickname := pe_nickname entry; dg_principal := principal (pe_endpoint_id entry); dg_user_id := pe_user_id entry;
        dg_paired_at := pe_paired_at entry; dg_last_addr := pe_last_addr entry; dg_hint_addrs := hint_addrs;
        dg_hint_usable := bool_decide (is_Some (pe_last_addr entry)) && negb (bool_decide (ea_addrs dialed = []));
        dg_reachability :=
          option_map (fun e => reachability_row (pe_nickname entry) endpoint_id (Some e) (Some (Z.max (now - re_probed_at e) 0)%Z)) (cache !! endpoint_id);
        dg_known_addrs := known; dg_hint_unknown_to_iroh := diffs.1; dg_iroh_not_in_hint := diffs.2 |}.
End diagnostics.

(** ** Lemmas *)
Section lemmas.
Context `{T : TextEncoding, R : RowCodec, RL : !RowCodecLaws R}.
Implicit Types s : PeerStore.

Definition hint s (id : key32) : option string :=
  (t_peers s !! key_bytes id ≫= peer_from_slice) ≫= pe_last_addr.

(** A row with the hint taken out, when it is one of some devices'. *)
Definition cleared (ids : list key32) (k : bytes) (e : PeerEntry) : PeerEntry :=
  if bool_decide (k ∈ key_bytes <$> ids) then with_last_addr None e else e.

(** The rows of [s] with the hints of some devices taken out, the revocations untouched. *)
Definition hints_cleared (ids : list key32) s s' : Prop :=
  t_revoked s' = t_revoked s /\ t_revoked_users s' = t_revoked_users s /\
  forall k e', row s' k e' <-> exists e, row s k e /\ e' = cleared ids k e.

Lemma with_last_addr_same e : pe_last_addr e = None -> with_last_addr None e = e.
Proof. destruct e; simpl. by intros ->. Qed.

Lemma cleared_nil k e : cleared [] k e = e.
Proof. unfold cleared. by rewrite bool_decide_eq_false_2 by apply not_elem_of_nil. Qed.
Lemma cleared_hit id e : cleared [id] (key_bytes id) e = with_last_addr None e.
Proof. unfold cleared. rewrite bool_decide_eq_true_2; [done|]. cbn. by apply list_elem_of_singleton. Qed.
Lemma cleared_miss id k e : k <> key_bytes id -> cleared [id] k e = e.
Proof. unfold cleared. intros Hk. rewrite bool_decide_eq_false_2; [done|]. cbn. by rewrite list_elem_of_singleton. Qed.
Lemma cleared_cons id ids k e : cleared (id :: ids) k e = cleared ids k (cleared [id] k e).
Proof.
  unfold cleared. cbn [fmap list_fmap]. rewrite (bool_decide_ext (k ∈ _ :: _) (k = key_bytes id \/ k ∈ key_bytes <$> ids))
    by (by rewrite elem_of_cons).
  rewrite (bool_decide_ext (k ∈ [key_bytes id]) (k = key_bytes id)) by (by rewrite list_elem_of_singleton).
  repeat case_bool_decide; by tauto || destruct e.
Qed.

Lemma hints_cleared_nil s : hints_cleared [] s s.
Proof.
  split; [done|]. split; [done|]. intros k e. split; [intros H; exists e; by rewrite cleared_nil|].
  intros (e0 & H & ->). by rewrite cleared_nil.
Qed.

Lemma row_key s id e : row s (key_bytes id) e <-> t_peers s !! key_bytes id ≫= peer_from_slice = Some e.
Proof. unfold row. rewrite bind_Some. naive_solver. Qed.

(** Nothing to clear. *)
Lemma hints_cleared_same s id : (forall e, row s (key_bytes id) e -> pe_last_addr e = None) -> hints_cleared [id] s s.
Proof.
  intros Hn. split; [done|]. split; [done|].
  assert (Hsame : forall k e, row s k e -> cleared [id] k e = e).
  { intros k e He. destruct (decide (k = key_bytes id)) as [->|]; [|by apply cleared_miss].
    rewrite cleared_hit. by apply with_last_addr_same, Hn. }
  intros k e'. split; [intros He; exists e'; by rewrite Hsame|]. intros (e & He & ->). by rewrite Hsame.
Qed.

Lemma hints_cleared_write s id entry raw :
  t_peers s !! key_bytes id = Some raw -> peer_from_slice raw = Some entry ->
  hints_cleared [id] s (set_peers (<[key_bytes id := peer_to_vec (with_last_addr None entry)]> (t_peers s)) s).
Proof.
  intros Hr Hp. split; [done|]. split; [done|]. intros k e'. unfold row. simpl. split.
  - intros (raw' & [[<- <-]|[Hne Hk]]%lookup_insert_Some & Hp').
    + rewrite peer_from_to in Hp'. injection Hp' as <-. exists entry. rewrite cleared_hit. eauto.
    + exists e'. rewrite cleared_miss by done. eauto.
  - intros (e & (raw' & Hk & Hp') & ->). destruct (decide (k = key_bytes id)) as [->|].
    + exists (peer_to_vec (with_last_addr None entry)). rewrite lookup_insert_eq, peer_from_to, cleared_hit. split; [done|]. congruence.
    + exists raw'. rewrite cleared_miss by done. by rewrite lookup_insert_ne by done.
Qed.

Lemma clear_one io s id f s' :
  clear_last_addr io s id = Ok (f, s') -> f = hint s id /\ hints_cleared [id] s s'.
Proof.
  unfold clear_last_addr, hint. intros (? & _ & H)%bind_Ok. apply bind_Ok in H as (? & _ & H).
  destruct (t_peers s !! key_bytes id) as [raw|] eqn:Hr.
  2: { injection H as <- <-. split; [done|]. apply hints_cleared_same. intros e (? & ? & _). congruence. }
  apply bind_Ok in H as (entry & Hp%ok_or_Ok & H). simpl. rewrite Hp. simpl.
  destruct (pe_last_addr entry) as [a|] eqn:Ha.
  - apply bind_Ok in H as (? & _ & [= <- <-]). split; [done|]. by apply (hints_cleared_write _ _ _ raw).
  - injection H as <- <-. split; [done|]. apply hints_cleared_same. intros e (raw' & ? & ?). congruence.
Qed.

Lemma hints_cleared_other id s s' id' : hints_cleared [id] s s' -> id' <> id -> hint s' id' = hint s id'.
Proof.
  intros (_ & _ & H) Hne. assert (Hk : key_bytes id' <> key_bytes id) by (by intros ?%(inj key_bytes)).
  unfold hint. f_equal. apply option_eq. intros e. rewrite <- !row_key, H. split.
  - intros (e0 & Hr & ->). by rewrite cleared_miss.
  - intros Hr. exists e. by rewrite cleared_miss.
Qed.

Lemma hints_cleared_cons id ids s s1 s' :
  hints_cleared [id] s s1 -> hints_cleared ids s1 s' -> hints_cleared (id :: ids) s s'.
Proof.
  intros (Hr1 & Hu1 & H1) (Hr & Hu & H). split; [congruence|]. split; [congruence|]. intros k e'. rewrite H. split.
  - intros (e1 & (e & He & ->)%H1 & ->). exists e. by rewrite (cleared_cons id ids).
  - intros (e & He & ->). exists (cleared [id] k e). rewrite (cleared_cons id ids). split; [|done]. apply H1. eauto.
Qed.

Lemma clear_all_Ok io ids s outcomes s' :
  NoDup ids -> clear_all io ids s = (Ok outcomes, s') ->
  outcomes = (fun id => (id, hint s id)) <$> ids /\ hints_cleared ids s s'.
Proof.
  revert s outcomes. induction ids as [|id ids IH]; intros s outcomes Hnd H.
  - injection H as <- <-. split; [done|apply hints_cleared_nil].
  - apply NoDup_cons in Hnd as [Hni Hnd]. cbn [clear_all] in H.
    destruct (clear_last_addr (io id) s id) as [[f s1]|] eqn:Hc; [|done].
    apply clear_one in Hc as [-> Hs1]. destruct (clear_all io ids s1) as [r s2] eqn:Ha.
    destruct r as [l|]; [|done]. injection H as <- <-. destruct (IH _ _ Hnd Ha) as [-> Hs2]. split.
    + cbn [fmap list_fmap]. f_equal. apply list_fmap_ext. intros i id' Hi. f_equal. eapply hints_cleared_other; [exact Hs1|].
      intros ->. by apply list_elem_of_lookup_2 in Hi.
    + by eapply hints_cleared_cons.
Qed.

Lemma hint_of_row io s id e : Allowlist.resolve io s id = Ok (Some e) -> row s (key_bytes id) e.
Proof. intros (? & _ & (? & _ & [= H])%bind_Ok)%bind_Ok. by apply row_key. Qed.

Lemma targets_spec io s peer ids :
  store_keyed s -> peer_hint_targets io s peer = Ok ids ->
  ids <> [] /\ NoDup ids /\ (forall id, id ∈ ids -> exists e, row s (key_bytes id) e) /\
  if starts_with "b64u:" peer then forall id, id ∈ ids <-> exists e, row s (key_bytes id) e /\ pe_user_id e = Some peer
  else exists id, ids = [id] /\ resolve_peer_endpoint io s peer = Ok id.
Proof.
  intros Hk. unfold peer_hint_targets. destruct (starts_with "b64u:" peer).
  - unfold entries_for_user. intros H. apply bind_Ok in H as (entries & H & Hids).
    apply bind_Ok in H as (rows & Hl & [= <-]). pose proof (list_peers_nodup _ _ _ Hk Hl) as Hnd.
    apply (nodup_fmap_filter _ (fun e => pe_user_id e = Some peer)) in Hnd.
    assert (Hin : forall id, id ∈ (pe_endpoint_id <$> filter (fun e => pe_user_id e = Some peer) rows) <->
      exists e, row s (key_bytes id) e /\ pe_user_id e = Some peer).
    { intros id. rewrite list_elem_of_fmap. setoid_rewrite list_elem_of_filter. setoid_rewrite (elem_of_list_peers _ _ _ _ Hl). split.
      - intros (e & -> & Hu & (k & Hr)). exists e. destruct Hr as (raw & Hr & Hp). pose proof (Hk _ _ _ Hr Hp) as ->. split; [by exists raw|done].
      - intros (e & Hr & Hu). exists e. split; [|split; [done|by exists (key_bytes id)]].
        destruct Hr as (raw & Hr & Hp). apply (inj key_bytes). by apply (Hk _ _ _ Hr Hp). }
    destruct (filter _ rows) as [|e0 l] eqn:Hf; [done|]. injection Hids as <-.
    split; [done|]. split; [done|]. split; [|done]. intros id (e & Hr & _)%Hin. eauto.
  - intros H. apply bind_Ok in H as (id & Hid & H). apply bind_Ok in H as ([e|] & Hr & H); [|done]. injection H as <-.
    split; [done|]. split; [apply NoDup_singleton|]. split; [|by exists id].
    intros id' ->%list_elem_of_singleton. apply hint_of_row in Hr. eauto.
Qed.

Lemma omap_fmap {A B C} (f : A -> B) (g : B -> option C) (l : list A) : omap g (f <$> l) = omap (fun x => g (f x)) l.
Proof. induction l as [|x l IH]; [done|]. cbn. by rewrite IH. Qed.

Lemma audits_appended l m :
  let m' := foldl (fun m rec => with_audit rec m) m l in
  m_audit m' = m_audit m ++ l /\ m_store m' = m_store m /\ m_serving m' = m_serving m /\ m_conns m' = m_conns m /\ m_roster m' = m_roster m.
Proof.
  revert m. induction l as [|r l IH]; intros m; simpl; [by rewrite app_nil_r|].
  destruct (IH (with_audit r m)) as (Ha & Hs & Hv & Hc & Hr). split; [|done]. rewrite Ha. simpl. by rewrite <- app_assoc.
Qed.

(** A clear that reports success named someone this node has paired with, took the hint
    out of every device the selector names and of no other, touched nothing else about
    them, answers exactly the hints that were there, has one audit record for each device
    that had one, and leaves each of them dialled by its bare id. *)
Theorem hint_clear_exact `{AC : AddrCodec} io clear ts peer m forgotten m' :
  store_keyed (m_store m) -> peer_hint_clear io clear ts peer m = (Ok forgotten, m') ->
  exists ids, ids <> [] /\ (forall id, id ∈ ids -> exists e, row (m_store m) (key_bytes id) e) /\
    (if starts_with "b64u:" peer
     then forall id, id ∈ ids <-> exists e, row (m_store m) (key_bytes id) e /\ pe_user_id e = Some peer
     else exists id, ids = [id] /\ resolve_peer_endpoint io (m_store m) peer = Ok id) /\
    hints_cleared ids (m_store m) (m_store m') /\
    forgotten = omap (hint (m_store m)) ids /\
    m_audit m' = m_audit m ++ omap (fun id => hint_record ts (id, hint (m_store m) id)) ids /\
    m_serving m' = m_serving m /\ m_conns m' = m_conns m /\
    forall id dio, id ∈ ids -> stored_dial_addr (last_addr_of dio m' id) id = {| ea_id := id; ea_addrs := [] |}.
Proof.
  intros Hk H. unfold peer_hint_clear in H. destruct (peer_hint_targets io (m_store m) peer) as [ids|] eqn:Ht; [|done].
  apply (targets_spec _ _ _ _ Hk) in Ht as (Hne & Hnd & Hin & Hsel).
  destruct (clear_all clear ids (m_store m)) as [r s'] eqn:Hc. destruct r as [outcomes|]; [|done].
  apply (clear_all_Ok _ _ _ _ _ Hnd) in Hc as [-> Hs']. injection H as <- <-.
  destruct (audits_appended (omap (hint_record ts) ((fun id => (id, hint (m_store m) id)) <$> ids)) (with_store s' m))
    as (Ha & Hst & Hv & Hcn & _).
  exists ids. rewrite Ha, Hst, Hv, Hcn. refine (conj Hne (conj Hin (conj Hsel (conj Hs' (conj _ (conj _ (conj eq_refl (conj eq_refl _)))))))).
  - by rewrite omap_fmap.
  - by rewrite omap_fmap.
  - intros id dio Hid. unfold last_addr_of. rewrite Hst. simpl. destruct (Allowlist.resolve _ s' id) as [[e|]|] eqn:Hr; [|done|done].
    apply hint_of_row in Hr. destruct Hs' as (_ & _ & Hrows). apply Hrows in Hr as (e0 & _ & ->). unfold cleared.
    rewrite bool_decide_eq_true_2; [done|]. by apply list_elem_of_fmap_2.
Qed.
End lemmas.

(** ** The two lists of a diagnostic *)
Section diagnostics_lemmas.
Context `{E : Ed25519, T : TextEncoding, R : RowCodec, AC : AddrCodec, RU : RelayUrls}.

(** A diagnostic is of one paired device: it shows the row's hint as the dial reads it,
    calls it usable exactly when the dial gets an address from it, joins it with the live
    row of that device, and only with an entry of iroh's to compare against does it list
    differences, each in its own direction. *)
Theorem diagnostics_faithful io rd now cache remote s peer d :
  peer_diagnostics io rd now cache remote s peer = Ok d ->
  exists id e, resolve_peer_endpoint io s peer = Ok id /\ row s (key_bytes id) e /\ dg_last_addr d = pe_last_addr e /\
    dg_hint_addrs d = label_transport_addr <$> ea_addrs (stored_dial_addr (pe_last_addr e) id) /\
    (dg_hint_usable d = true <-> ea_addrs (stored_dial_addr (pe_last_addr e) id) <> []) /\
    (dg_reachability d = None <-> cache !! id = None) /\
    (forall a, a ∈ dg_hint_unknown_to_iroh d <->
       exists known, dg_known_addrs d = Some known /\ a ∈ dg_hint_addrs d /\ a ∉ (kn_addr <$> known)) /\
    (forall a, a ∈ dg_iroh_not_in_hint d <->
       exists known, dg_known_addrs d = Some known /\ a ∉ dg_hint_addrs d /\ a ∈ (kn_addr <$> known)).
Proof.
  unfold peer_diagnostics. intros H. apply bind_Ok in H as (id & Hid & H). apply bind_Ok in H as (found & Hf & H).
  apply bind_Ok in H as (e & He%ok_or_Ok & H). subst found. apply bind_Ok in H as (id' & Hid'%ok_or_Ok & H).
  assert (id' = id) as ->. { unfold Dial.endpoint_id in Hid'. destruct (vk_from_bytes id); [by injection Hid' as <-|done]. }
  injection H as <-. exists id, e. cbn [dg_last_addr dg_hint_addrs dg_hint_usable dg_reachability dg_hint_unknown_to_iroh dg_iroh_not_in_hint dg_known_addrs].
  split; [done|]. split; [by eapply hint_of_row|]. split; [done|]. split; [done|]. split; [|split; [|]].
  - rewrite andb_true_iff, negb_true_iff, bool_decide_eq_true, bool_decide_eq_false. split; [by intros [_ ?]|].
    intros Hn. split; [|done]. destruct (pe_last_addr e); [eauto|done].
  - by destruct (cache !! id).
  - destruct (remote id) as [known|]; simpl.
    + split; intros a; (split; [intros (? & ?)%list_elem_of_filter; eexists; done|]);
        intros (known' & [= <-] & ? & ?); by apply list_elem_of_filter.
    + split; intros a; (split; [by intros ?%elem_of_nil|by intros (? & [=] & _)]).
Qed.
End diagnostics_lemmas.


(** ** Witnesses *)
Module Witness.
Import Toy ToyRows Limits.Witness Peers.Witness.

Definition public : TransportAddr := Ip (V4 (203 * 2 ^ 24 + 113 * 2 ^ 8 + 7)) 4433.
Definition lan : TransportAddr := Ip (V6 (0xfe80 * 2 ^ 112 + 0x5)) 7.
Definition hinted : EndpointAddr := {| ea_id := phone; ea_addrs := [public; Relay "eu"; Ip (V4 0) 1] |}.
#[local] Instance hints : AddrCodec := {| addr_to_string _ := "hint"; addr_from_str _ := Some hinted |}.
#[local] Instance relays : RelayUrls :=
  {| RelayUrl := string; relay_parse := Some; url_scheme _ := "https"; url_host u := Some u; url_port _ := None |}.

Example v4_shown : socket_text (V4 (203 * 2 ^ 24 + 113 * 2 ^ 8 + 7)) 4433 = "203.0.113.7:4433".
Proof. vm_compute. reflexivity. Qed.
Example v6_shown : v6_text (0x20010db8 * 2 ^ 96 + 0x00010000 * 2 ^ 32 + 0x2a) = "2001:db8::1:0:0:2a".
Proof. vm_compute. reflexivity. Qed.
Example v6_link_shown : socket_text (V6 (0xfe80 * 2 ^ 112 + 0x5)) 7 = "[fe80::5]:7".
Proof. vm_compute. reflexivity. Qed.
Example v6_unspecified_shown : v6_text 0 = "::".
Proof. vm_compute. reflexivity. Qed.
Example v6_mapped_shown : v6_text (0xffff * 2 ^ 32 + 127 * 2 ^ 24 + 1) = "::ffff:127.0.0.1".
Proof. vm_compute. reflexivity. Qed.
Example v6_lone_zero_shown : v6_text (0x00010000 * 2 ^ 96 + 0x00010001 * 2 ^ 64 + 0x00010001 * 2 ^ 32 + 0x00010001) = "1:0:1:1:1:1:1:1".
Proof. vm_compute. reflexivity. Qed.

(** Alice's phone, with a hint, and her laptop, with another. *)
Definition phone_hinted : PeerEntry := with_last_addr (Some "hint"%string) phone_row.
Definition laptop_hinted : PeerEntry :=
  {| pe_endpoint_id := laptop; pe_nickname := "laptop"; pe_services := []; pe_paired_at := None;
     pe_user_id := Some (user_id alice); pe_last_addr := Some "other"%string |}.
Definition mh : MeshState := with_peers [phone_hinted] Grants.Witness.m0.
Definition sure : key32 -> Allowlist.Io := fun _ => Allowlist.healthy.

Lemma hint_clear_ok : is_ok (peer_hint_clear calm sure "now" "phone" mh).1 = true.
Proof. vm_compute. reflexivity. Qed.
Lemma hint_clear_exact_witness : exists ids, ids <> [] /\
  hints_cleared ids (m_store mh) (m_store (peer_hint_clear calm sure "now" "phone" mh).2) /\
  m_serving (peer_hint_clear calm sure "now" "phone" mh).2 = m_serving mh.
Proof.
  destruct (run_ok _ _ hint_clear_ok) as [l Hl].
  destruct (hint_clear_exact calm sure "now" "phone" mh l _ (one_keyed _ _) Hl) as (ids & Hne & _ & _ & Hc & _ & _ & Hs & _).
  exists ids. split; [exact Hne|]. split; [exact Hc|exact Hs].
Defined.

Definition seen (id : key32) : option (list (TransportAddr * bool)) := Some [(public, true); (lan, false)].
Lemma diagnostics_ok : is_ok (peer_diagnostics calm Allowlist.healthy 50 ∅ seen (m_store mh) "phone") = true.
Proof. vm_compute. reflexivity. Qed.
Lemma diagnostics_faithful_witness : exists d,
  peer_diagnostics calm Allowlist.healthy 50 ∅ seen (m_store mh) "phone" = Ok d /\ dg_last_addr d = Some "hint"%string.
Proof.
  destruct (peer_diagnostics calm Allowlist.healthy 50 ∅ seen (m_store mh) "phone") as [d|e] eqn:Hd;
    [|pose proof diagnostics_ok as Hk; rewrite Hd in Hk; discriminate Hk].
  exists d. split; [reflexivity|].
  destruct (diagnostics_faithful calm Allowlist.healthy 50 ∅ seen (m_store mh) "phone" d Hd) as (id & e & Hid & Hr & Ha & _).
  assert (Hphone : id = phone) by (vm_compute in Hid; injection Hid as <-; reflexivity). subst id.
  rewrite Ha. assert (He : e = phone_hinted); [|rewrite He; reflexivity].
  destruct Hr as (raw & Hk & Hp). vm_compute in Hk. injection Hk as <-. vm_compute in Hp. injection Hp as <-. vm_compute. reflexivity.
Defined.

(** What the phone's diagnostic says: the unusable address is left out, iroh lacks the
    relay, the hint lacks the link-local address. *)
Example diagnostics_shown :
  match peer_diagnostics calm Allowlist.healthy 50 ∅ seen (m_store mh) "phone" with
  | Ok d => (dg_hint_addrs d, dg_hint_unknown_to_iroh d, dg_iroh_not_in_hint d)
  | Err _ => ([], [], [])
  end = (["203.0.113.7:4433"; "relay https://eu"], ["relay https://eu"], ["[fe80::5]:7"]).
Proof. vm_compute. reflexivity. Qed.

(** The store fails under the second of two devices. The verb fails, the first device's hint
    is gone, and no record says so. *)
Definition two : MeshState := with_peers [phone_hinted; laptop_hinted] Grants.Witness.m0.
Definition second_fails (id : key32) : Allowlist.Io :=
  fun a => if bool_decide (id = laptop) then match a with Commit => Some "disk full"%string | _ => None end else None.
Lemma partial_clear_unaudited :
  let out := peer_hint_clear calm second_fails "now" (user_id alice) two in
  is_ok out.1 = false /\ hint (m_store two) phone = Some "hint"%string /\ hint (m_store out.2) phone = None /\
  hint (m_store out.2) laptop = Some "other"%string /\ m_audit out.2 = m_audit two.
Proof. split_and!; vm_compute; reflexivity. Qed.
End Witness.
