(* ===== verification/Boot.v ===== *)
(** * Starting a node

    [node/src/daemon/boot.rs]: the parsing of the [network] knobs, the plan of the endpoint they
    are built into, the transport timers, the advertised protocols and the gossip bootstrap.
    Binding sockets is not modelled: a plan is what would be bound. *)
From stdpp Require Import base list gmap strings.
From Stdlib Require Import ZArith Lia Strings.Byte.
From S2P Require Import Prelude Bytes Externals Validate Identity Config Hooks Addrs Paths Mesh Dial Allowlist.

Local Open Scope Z_scope.

Inductive BootError :=
| UnknownMode (knob value : string)
| NoUrls (knob : string) | BadUrl (knob entry : string)
| ZeroKeepAlive | KeepAliveAboveCap (k : Z) | KeepAliveNotBelowIdle (keep idle : Z) | IdleNotEncodable (idle : Z)
| ZeroServiceRate (service : string).

Inductive PresenceMode := PresencePaired | PresenceGranted | PresenceOff.
#[export] Instance PresenceMode_eq_dec : EqDecision PresenceMode.
Proof. solve_decision. Defined.
Definition presence_str (m : PresenceMode) : string :=
  match m with PresencePaired => "paired" | PresenceGranted => "granted" | PresenceOff => "off" end.

Definition presence_mode (net : NetworkCfg) : result BootError PresenceMode :=
  let v := n_presence_mode net in
  if decide (v = "paired"%string) then Ok PresencePaired
  else if decide (v = "granted"%string) then Ok PresenceGranted
  else if decide (v = "off"%string) then Ok PresenceOff
  else Err (UnknownMode "presence_mode" v).

Record LocalDiscovery := { ld_enabled : bool; ld_advertise : bool }.
Definition local_discovery (net : NetworkCfg) : result BootError LocalDiscovery :=
  let v := n_local_discovery net in
  if decide (v = "off"%string) then Ok {| ld_enabled := false; ld_advertise := false |}
  else if decide (v = "on"%string) then Ok {| ld_enabled := true; ld_advertise := true |}
  else if decide (v = "resolve"%string) then Ok {| ld_enabled := true; ld_advertise := false |}
  else Err (UnknownMode "local_discovery" v).

(** ** The network plan *)

(** [url::Url]'s parser. *)
Class Urls := { Url : Type; url_parse : string -> option Url }.

Section plan.
Context `{RU : RelayUrls, U : Urls}.

Inductive RelayMode := RelayDisabled | RelayDefault | RelayCustom (urls : list RelayUrl).
Inductive DiscoveryPlan := N0 | CustomDiscovery (urls : list Url).
Inductive NetPlan := Hermetic | MeshPlan (relay : RelayMode) (discovery : DiscoveryPlan).

Definition parse_urls {A} (parse : string -> option A) (knob : string) (urls : list string) : result BootError (list A) :=
  match urls with
  | [] => Err (NoUrls knob)
  | _ => fold_result (fun acc u => a ← ok_or (BadUrl knob u) (parse u); Ok (acc ++ [a])) [] urls
  end.

Definition relay_plan (net : NetworkCfg) : result BootError (option RelayMode) :=
  let v := n_relay_mode net in
  if decide (v = "disabled"%string) then Ok None
  else if decide (v = "default"%string) then Ok (Some RelayDefault)
  else if decide (v = "custom"%string) then urls ← parse_urls relay_parse "relay_urls" (n_relay_urls net); Ok (Some (RelayCustom urls))
  else Err (UnknownMode "relay_mode" v).

Definition discovery_plan (net : NetworkCfg) : result BootError DiscoveryPlan :=
  let v := n_discovery_mode net in
  if decide (v = "default"%string) then Ok N0
  else if decide (v = "custom"%string) then urls ← parse_urls url_parse "discovery_urls" (n_discovery_urls net); Ok (CustomDiscovery urls)
  else Err (UnknownMode "discovery_mode" v).

Definition net_plan (net : NetworkCfg) : result BootError NetPlan :=
  relay ← relay_plan net;
  match relay with
  | None => Ok Hermetic
  | Some relay => discovery ← discovery_plan net; Ok (MeshPlan relay discovery)
  end.

(** *** The transport timers *)
Definition IROH_DEFAULT_IDLE_SECS : Z := 30.
Definition IROH_MAX_PATH_KEEP_ALIVE_SECS : Z := 5.

(** What [QuicTransportConfig] is told: [None] of a field leaves iroh's. *)
Record TransportKnobs := { tk_max_idle : option (option Z); tk_keep_alive : option Z; tk_path_keep_alive : option Z }.

Definition ensure (b : bool) (e : BootError) : result BootError unit := if b then Ok tt else Err e.

Definition check_keep_alive (keep : option Z) : result BootError unit :=
  match keep with
  | Some k => _ ← ensure (0 <? k) ZeroKeepAlive; ensure (k <=? IROH_MAX_PATH_KEEP_ALIVE_SECS) (KeepAliveAboveCap k)
  | None => Ok tt
  end.
Definition idle_knob (encode : Z -> result string Z) (idle : option Z) : result BootError (option (option Z)) :=
  match idle with
  | None => Ok None
  | Some i => if i =? 0 then Ok (Some None) else t ← map_err (fun _ => IdleNotEncodable i) (encode i); Ok (Some (Some t))
  end.

Definition build_transport_config (encode : Z -> result string Z) (net : NetworkCfg) : result BootError (option TransportKnobs) :=
  let idle := n_idle_timeout_secs net in
  let keep := n_keep_alive_secs net in
  if bool_decide (idle = None /\ keep = None) then Ok None
  else
    _ ← check_keep_alive keep;
    let effective_keep := default IROH_MAX_PATH_KEEP_ALIVE_SECS keep in
    let effective_idle := default IROH_DEFAULT_IDLE_SECS idle in
    _ ← ensure ((effective_idle =? 0) || (effective_keep <? effective_idle)) (KeepAliveNotBelowIdle effective_keep effective_idle);
    max_idle ← idle_knob encode idle;
    Ok (Some {| tk_max_idle := max_idle; tk_keep_alive := keep; tk_path_keep_alive := keep |}).

(** [MeshState::keep_alive_secs] as boot sets it. *)
Definition keep_alive_secs (net : NetworkCfg) : Z := default IROH_MAX_PATH_KEEP_ALIVE_SECS (n_keep_alive_secs net).

Definition validate_service_rates (services : list (string * ServiceCfg)) : result BootError unit :=
  fold_result (fun _ kv => ensure (negb (bool_decide (sc_rate_limit_per_min kv.2 = Some 0))) (ZeroServiceRate kv.1)) tt services.

Definition validate_transport_config (encode : Z -> result string Z) (net : NetworkCfg) : result BootError unit :=
  _ ← presence_mode net; _ ← build_transport_config encode net; Ok tt.

(** *** What the endpoint is built with *)
(** The protocol names of the two libraries. *)
Class ForeignAlpns := { GOSSIP_ALPN : bytes; BLOB_ALPN : bytes }.
Definition ALPN_MCP : bytes := as_bytes "mcpmesh/mcp/1".
Definition ALPN_PAIR : bytes := as_bytes "mcpmesh/pair/1".
Definition ALPN_PING : bytes := as_bytes "mcpmesh/ping/1".
Definition APP_BLOB_ALPN : bytes := as_bytes "mcpmesh/blob/1".

Inductive Server := N0Server | UrlServer (u : Url).
Inductive Lookup :=
| Publisher (s : Server)
| PkarrResolver (s : Server) (hygienic : bool)
| DnsLookup (s : Server) (hygienic : bool)
| LocalLookup (advertise hygienic : bool).

Record EndpointPlan := {
  ep_relay : RelayMode;
  ep_lookups : list Lookup;
  ep_relay_only : bool;
  ep_transport : option TransportKnobs;
  ep_alpns : list bytes;
  ep_hooked : bool }.

Definition lookups_of (d : DiscoveryPlan) : list Lookup :=
  match d with
  | N0 => [Publisher N0Server; PkarrResolver N0Server true; DnsLookup N0Server true]
  | CustomDiscovery urls => urls ≫= fun u => [Publisher (UrlServer u); PkarrResolver (UrlServer u) true]
  end.

(** The protocols, by the names their crates give them. *)
Context `{FA : ForeignAlpns}.
Definition alpns_for (roster_mode : bool) : list bytes :=
  [ALPN_MCP; ALPN_PAIR; ALPN_PING; APP_BLOB_ALPN] ++ if roster_mode then [GOSSIP_ALPN; BLOB_ALPN] else [].

Definition build_endpoint (encode : Z -> result string Z) (net : NetworkCfg) (roster_mode hooked : bool) : result BootError EndpointPlan :=
  plan ← net_plan net;
  transport ← build_transport_config encode net;
  Ok {| ep_relay := match plan with Hermetic => RelayDisabled | MeshPlan relay _ => relay end;
        ep_lookups := match plan with Hermetic => [] | MeshPlan _ d => lookups_of d end;
        ep_relay_only := n_relay_only net; ep_transport := transport; ep_alpns := alpns_for roster_mode; ep_hooked := hooked |}.

(** [boot_node]'s network half: every knob is checked before anything is bound; the local lookup
    is added to the endpoint when it could be started. *)
Definition boot_network (encode : Z -> result string Z) (cfg : Config) (services : list (string * ServiceCfg)) (local_starts : bool) :
    result BootError (EndpointPlan * PresenceMode) :=
  let net := c_network cfg in
  let roster_mode := bool_decide (is_Some (i_org_root_pk (c_identity cfg))) in
  presence ← presence_mode net;
  _ ← validate_service_rates services;
  local ← local_discovery net;
  ep ← build_endpoint encode net roster_mode true;
  let added := if ld_enabled local && local_starts then [LocalLookup (ld_advertise local) true] else [] in
  Ok ({| ep_relay := ep_relay ep; ep_lookups := ep_lookups ep ++ added; ep_relay_only := ep_relay_only ep;
         ep_transport := ep_transport ep; ep_alpns := ep_alpns ep; ep_hooked := ep_hooked ep |}, presence).
End plan.

(** ** The gossip bootstrap *)
Section gossip.
Context `{E : Ed25519, R : RowCodec}.

(** [devices]: the roster's device endpoints, in the order the map yields them. *)
Definition gossip_bootstrap (io : key32 -> Io) (s : PeerStore) (view : option RosterView) (devices : list key32) (our_id : key32) : list key32 :=
  match view with
  | None => []
  | Some v => omap endpoint_id (filter (fun d => refused_by (io d) s (Some v) d = false) (filter (fun d => d <> our_id) devices))
  end.

Record RosterTransportPlan := { tp_org_id : string; tp_bootstrap : list key32 }.
Definition plan_roster_transport (io : key32 -> Io) (s : PeerStore) (view : option RosterView) (devices : list key32) (cfg : Config)
    (roster_mode joined : bool) (our_id : key32) : option RosterTransportPlan :=
  if negb roster_mode then None
  else
    org_id ← (match i_org_id (c_identity cfg) with Some o => Some o | None => v_org_id <$> view end);
    Some {| tp_org_id := org_id; tp_bootstrap := if joined : bool then gossip_bootstrap io s view devices our_id else [] |}.
End gossip.

(** ** Lemmas *)
Lemma boot_ensure_Ok b e : ensure b e = Ok tt <-> b = true.
Proof. destruct b; simpl; split; congruence. Qed.

Lemma fold_ensure {A} (f : A -> bool) (e : A -> BootError) l :
  fold_result (fun _ a => ensure (f a) (e a)) tt l = Ok tt <-> forall a, a ∈ l -> f a = true.
Proof.
  induction l as [|a l IH]; simpl; [split; [by intros _ a ?%not_elem_of_nil|done]|].
  destruct (f a) eqn:Hf; simpl; [rewrite IH|].
  - split; [by intros H x [->|?%H]%elem_of_cons|]. intros H x Hx. apply H. by right.
  - split; [done|]. intros H. specialize (H a (list_elem_of_here _ _)). congruence.
Qed.

Lemma parse_urls_Ok {A} (parse : string -> option A) knob urls l :
  parse_urls parse knob urls = Ok l <-> urls <> [] /\ Forall2 (fun u a => parse u = Some a) urls l.
Proof.
  assert (Hgen : forall us acc l, fold_result (fun acc u => a ← ok_or (BadUrl knob u) (parse u); Ok (acc ++ [a])) acc us = Ok l <->
    exists l', l = acc ++ l' /\ Forall2 (fun u a => parse u = Some a) us l').
  { clear. induction us as [|u us IH]; intros acc l; simpl.
    - split; [intros [= <-]; exists []; by rewrite app_nil_r|]. intros (l' & -> & Hf%Forall2_nil_inv_l). subst. by rewrite app_nil_r.
    - destruct (parse u) as [a|] eqn:Hu; simpl; [rewrite IH|].
      + split; intros (l' & -> & Hf).
        * exists (a :: l'). rewrite <- app_assoc. split; [done|by constructor].
        * apply Forall2_cons_inv_l in Hf as (a' & l'' & Ha & Hf & ->). exists l''. rewrite <- app_assoc. split; [|done]. simpl. congruence.
      + split; [done|]. intros (l' & _ & Hf). apply Forall2_cons_inv_l in Hf as (a' & l'' & Ha & _ & _). congruence. }
  unfold parse_urls. destruct urls as [|u us]; [split; [done|by intros [? _]]|]. rewrite Hgen. split.
  - intros (l' & -> & ?). by split.
  - intros [_ ?]. by exists l.
Qed.

Section lemmas.
Context `{RU : RelayUrls, U : Urls}.

Lemma check_keep_alive_Ok keep : check_keep_alive keep = Ok tt <-> forall k, keep = Some k -> 1 <= k <= IROH_MAX_PATH_KEEP_ALIVE_SECS.
Proof.
  destruct keep as [k|]; simpl; [|done]. destruct (Z.ltb_spec 0 k); simpl; [rewrite boot_ensure_Ok, Z.leb_le|]; split.
  - intros ? ? [= <-]. lia.
  - intros Hk. by destruct (Hk k eq_refl).
  - done.
  - intros Hk. destruct (Hk k eq_refl). lia.
Qed.

(** An idle timeout is told to QUIC when it is configured: none for zero, else as it encodes. *)
Definition idle_told (encode : Z -> result string Z) (idle : option Z) (knob : option (option Z)) : Prop :=
  match idle with
  | None => knob = None
  | Some i => if decide (i = 0) then knob = Some None else exists x, encode i = Ok x /\ knob = Some (Some x)
  end.
Lemma idle_knob_Ok encode idle knob : idle_knob encode idle = Ok knob <-> idle_told encode idle knob.
Proof.
  destruct idle as [i|]; simpl; [|by split; [intros [= <-]|intros ->]]. destruct (Z.eqb_spec i 0) as [->|Hne].
  - rewrite decide_True by done. by split; [intros [= <-]|intros ->].
  - rewrite decide_False by done. destruct (encode i) as [x|]; simpl; [|split; [done|by intros (? & ? & _)]].
    split; [intros [= <-]; eauto|]. by intros (y & [= ->] & ->).
Qed.

(** The timers that are accepted: exactly those whose keepalive is in the range iroh honours and
    comes strictly before the idle timeout, whichever of the two the configuration leaves out. *)
Lemma build_transport_Ok encode net t :
  build_transport_config encode net = Ok t <->
  (n_idle_timeout_secs net = None /\ n_keep_alive_secs net = None /\ t = None) \/
  ((is_Some (n_idle_timeout_secs net) \/ is_Some (n_keep_alive_secs net)) /\
   (forall k, n_keep_alive_secs net = Some k -> 1 <= k <= IROH_MAX_PATH_KEEP_ALIVE_SECS) /\
   (let idle := default IROH_DEFAULT_IDLE_SECS (n_idle_timeout_secs net) in idle = 0 \/ keep_alive_secs net < idle) /\
   exists knob, idle_told encode (n_idle_timeout_secs net) knob /\
     t = Some {| tk_max_idle := knob; tk_keep_alive := n_keep_alive_secs net; tk_path_keep_alive := n_keep_alive_secs net |}).
Proof.
  unfold build_transport_config, keep_alive_secs. case_bool_decide as Hn.
  - destruct Hn as [-> ->]. split; [intros [= <-]; by left|]. by intros [(_ & _ & ->)|([[? ?]|[? ?]] & _)].
  - assert (Hsome : is_Some (n_idle_timeout_secs net) \/ is_Some (n_keep_alive_secs net)).
    { destruct (n_idle_timeout_secs net) as [i|], (n_keep_alive_secs net) as [k|]; eauto. by destruct Hn. }
    assert (Hb : (default IROH_DEFAULT_IDLE_SECS (n_idle_timeout_secs net) =? 0) ||
        (default IROH_MAX_PATH_KEEP_ALIVE_SECS (n_keep_alive_secs net) <? default IROH_DEFAULT_IDLE_SECS (n_idle_timeout_secs net)) = true <->
      default IROH_DEFAULT_IDLE_SECS (n_idle_timeout_secs net) = 0 \/
      default IROH_MAX_PATH_KEEP_ALIVE_SECS (n_keep_alive_secs net) < default IROH_DEFAULT_IDLE_SECS (n_idle_timeout_secs net))
      by by rewrite orb_true_iff, Z.eqb_eq, Z.ltb_lt.
    split.
    + intros ([] & Hk & ([] & Hi%boot_ensure_Ok%Hb & (knob & Hm%idle_knob_Ok & [= <-])%bind_Ok)%bind_Ok)%bind_Ok.
      pose proof (proj1 (check_keep_alive_Ok _) Hk) as Hk'. clear Hk.
      right. split_and!; eauto.
    + intros [(Hi & Hk & _)|(_ & Hk%check_keep_alive_Ok & Hi%Hb & knob & Hm%idle_knob_Ok & ->)]; [by destruct Hn|].
      by rewrite Hk; simpl; rewrite Hi; simpl; rewrite Hm.
Qed.
Lemma elem_of_lookups d l :
  l ∈ lookups_of d <->
  match d with
  | N0 => l = Publisher N0Server \/ l = PkarrResolver N0Server true \/ l = DnsLookup N0Server true
  | CustomDiscovery urls => exists u, u ∈ urls /\ (l = Publisher (UrlServer u) \/ l = PkarrResolver (UrlServer u) true)
  end.
Proof.
  destruct d as [|urls]; simpl.
  - rewrite !elem_of_cons, elem_of_nil. tauto.
  - rewrite list_elem_of_bind. setoid_rewrite elem_of_cons. setoid_rewrite list_elem_of_singleton. naive_solver.
Qed.

(** The plans that are accepted, by the knobs they come from. *)
Lemma relay_plan_Ok net r :
  relay_plan net = Ok r ->
  (n_relay_mode net = "disabled"%string /\ r = None) \/
  (n_relay_mode net = "default"%string /\ r = Some RelayDefault) \/
  (n_relay_mode net = "custom"%string /\ exists urls, r = Some (RelayCustom urls) /\ n_relay_urls net <> [] /\
     Forall2 (fun raw u => relay_parse raw = Some u) (n_relay_urls net) urls).
Proof.
  unfold relay_plan. case_decide; [intros [= <-]; by left|]. case_decide; [intros [= <-]; right; by left|].
  case_decide; [|done]. intros (urls & [Hn Hf]%parse_urls_Ok & [= <-])%bind_Ok. right; right. split; [done|]. by exists urls.
Qed.
Lemma discovery_plan_Ok net d :
  discovery_plan net = Ok d ->
  (n_discovery_mode net = "default"%string /\ d = N0) \/
  (n_discovery_mode net = "custom"%string /\ exists urls, d = CustomDiscovery urls /\ n_discovery_urls net <> [] /\
     Forall2 (fun raw u => url_parse raw = Some u) (n_discovery_urls net) urls).
Proof.
  unfold discovery_plan. case_decide; [intros [= <-]; by left|]. case_decide; [|done].
  intros (urls & [Hn Hf]%parse_urls_Ok & [= <-])%bind_Ok. right. split; [done|]. by exists urls.
Qed.
Lemma presence_mode_Ok net p : presence_mode net = Ok p -> presence_str p = n_presence_mode net.
Proof. unfold presence_mode. repeat case_decide; by intros [= <-]. Qed.
Lemma local_discovery_Ok net ld :
  local_discovery net = Ok ld -> ld_advertise ld = bool_decide (n_local_discovery net = "on"%string) /\
    ld_enabled ld = bool_decide (n_local_discovery net <> "off"%string).
Proof.
  unfold local_discovery. destruct (decide (n_local_discovery net = "off"%string)) as [->|]; [by intros [= <-]|].
  destruct (decide (n_local_discovery net = "on"%string)) as [->|]; [by intros [= <-]|].
  destruct (decide (n_local_discovery net = "resolve"%string)) as [->|]; [by intros [= <-]|done].
Qed.

(** The servers a lookup talks to. *)
Definition lookup_server (l : Lookup) : option Server :=
  match l with Publisher s | PkarrResolver s _ | DnsLookup s _ => Some s | LocalLookup _ _ => None end.
Definition answers_filtered (l : Lookup) : Prop :=
  match l with Publisher _ => True | PkarrResolver _ h | DnsLookup _ h | LocalLookup _ h => h = true end.

(** What the network plan and the local lookup put on the endpoint. *)
Record lookups_state (net : NetworkCfg) (lookups : list Lookup) : Prop := {
  ls_n0 l : l ∈ lookups -> lookup_server l = Some N0Server -> (n_discovery_mode net = "default" /\ n_relay_mode net <> "disabled")%string;
  ls_disabled : n_relay_mode net = "disabled"%string -> forall l, l ∈ lookups -> lookup_server l = None;
  ls_both u : Publisher (UrlServer u) ∈ lookups <-> PkarrResolver (UrlServer u) true ∈ lookups;
  ls_operator u : Publisher (UrlServer u) ∈ lookups -> exists raw, raw ∈ n_discovery_urls net /\ url_parse raw = Some u;
  ls_local h : LocalLookup true h ∈ lookups -> n_local_discovery net = "on"%string;
  ls_filtered l : l ∈ lookups -> answers_filtered l }.

Lemma lookups_of_state net d :
  discovery_plan net = Ok d -> n_relay_mode net <> "disabled"%string -> lookups_state net (lookups_of d).
Proof.
  intros [[Hd ->]|(Hd & urls & -> & _ & Hf)]%discovery_plan_Ok Hr; split; setoid_rewrite elem_of_lookups; try done; try naive_solver.
  intros u (v & Hv & Hu). destruct (Forall2_elem_of_r _ _ _ _ Hf Hv) as (raw & Hraw & Hp). exists raw. split; [done|]. naive_solver.
Qed.

Lemma lookups_state_local net lookups ld (starts : bool) :
  local_discovery net = Ok ld -> lookups_state net lookups ->
  lookups_state net (lookups ++ if ld_enabled ld && starts then [LocalLookup (ld_advertise ld) true] else []).
Proof.
  intros [Ha _]%local_discovery_Ok [H1 H2 H3 H4 H5 H6]. destruct (ld_enabled ld && starts); [|by rewrite app_nil_r].
  assert (Hin : forall l, l ∈ lookups ++ [LocalLookup (ld_advertise ld) true] <-> l ∈ lookups \/ l = LocalLookup (ld_advertise ld) true)
    by (intros; by rewrite elem_of_app, list_elem_of_singleton).
  split; setoid_rewrite Hin.
  - intros l [Hl| ->]; [by apply H1|done].
  - intros Hd l [Hl| ->]; [by apply H2|done].
  - intros u. split; (intros [Hl|?]; [left; by apply H3|done]).
  - intros u [Hl|?]; [by apply H4|done].
  - intros h [Hl|[= Hh _]]; [by eapply H5|]. rewrite Ha in Hh. symmetry in Hh. by apply bool_decide_eq_true in Hh.
  - intros l [Hl| ->]; [by apply H6|done].
Qed.
End lemmas.

(** ** Properties *)
Section properties.
Context `{RU : RelayUrls, U : Urls}.
Context `{FA : ForeignAlpns}.

(** A node starts with the network posture its configuration states, or not at all.  No
    misspelt knob falls back to public infrastructure: n0's servers are talked to only under
    discovery_mode = "default" and n0's relays only under relay_mode = "default"; a custom
    posture names exactly the operator's servers and at least one; "disabled" resolves and
    relays nothing; the link is told of this node only under local_discovery = "on"; every
    answer any resolver gives is filtered, and the outbound revocation hook is installed. *)
Theorem boot_posture encode cfg services starts ep presence :
  boot_network  encode cfg services starts = Ok (ep, presence) ->
  let net := c_network cfg in
  lookups_state net (ep_lookups ep) /\
  match ep_relay ep with
  | RelayDisabled => n_relay_mode net = "disabled"%string
  | RelayDefault => n_relay_mode net = "default"%string
  | RelayCustom urls => n_relay_mode net = "custom"%string /\ n_relay_urls net <> [] /\
      Forall2 (fun raw u => relay_parse raw = Some u) (n_relay_urls net) urls
  end /\
  presence_str presence = n_presence_mode net /\ ep_hooked ep = true /\
  build_transport_config encode net = Ok (ep_transport ep) /\
  ep_alpns ep = alpns_for  (bool_decide (is_Some (i_org_root_pk (c_identity cfg)))).
Proof.
  unfold boot_network. intros (p & Hp & (_ & _ & (ld & Hld & (e & He & [= <- <-])%bind_Ok)%bind_Ok)%bind_Ok)%bind_Ok. simpl.
  unfold build_endpoint in He. apply bind_Ok in He as (plan & Hplan & (t & Ht & [= <-])%bind_Ok). simpl.
  unfold net_plan in Hplan. apply bind_Ok in Hplan as (relay & Hrelay & Hplan). pose proof (relay_plan_Ok _ _ Hrelay) as Hr.
  assert (Hs : lookups_state (c_network cfg) (match plan with Hermetic => [] | MeshPlan _ d => lookups_of d end)).
  { destruct relay as [r|]; [|injection Hplan as <-; split; try (intros ?; by intros ?%not_elem_of_nil); intros; set_solver].
    apply bind_Ok in Hplan as (d & Hd & [= <-]). apply lookups_of_state; [done|]. intros Hdis.
    destruct Hr as [[_ ?]|[[Hx _]|[Hx _]]]; [done|congruence|congruence]. }
  split_and!; [by apply lookups_state_local| |by apply presence_mode_Ok|done|done|done].
  destruct Hr as [[Hx ->]|[[Hx ->]|(Hx & urls & -> & Hn & Hf)]].
  - by injection Hplan as <-.
  - by apply bind_Ok in Hplan as (d & _ & [= <-]).
  - by apply bind_Ok in Hplan as (d & _ & [= <-]).
Qed.

(** No session is cut on a clock.  Every transport configuration this node sets, on its
    endpoint at boot or on one session's connection, has a keepalive that iroh honours and that
    comes strictly before its idle timeout, or no idle timeout at all; one it could not honour
    is refused, never clamped. *)
Theorem keepalive_before_idle encode net t secs per_session :
  build_transport_config encode net = Ok t -> (forall s, secs = Some s -> 0 <= s) ->
  per_session_transport_config encode secs (keep_alive_secs net) = Ok per_session ->
  0 < keep_alive_secs net <= IROH_MAX_PATH_KEEP_ALIVE_SECS /\
  (let idle := default IROH_DEFAULT_IDLE_SECS (n_idle_timeout_secs net) in idle = 0 \/ keep_alive_secs net < idle) /\
  match per_session with
  | None => secs = None
  | Some c => tc_keep_alive c = keep_alive_secs net /\ tc_path_keep_alive c = keep_alive_secs net /\
      exists s, secs = Some s /\ (s = 0 /\ tc_max_idle c = None \/ keep_alive_secs net < s /\ exists x, encode s = Ok x /\ tc_max_idle c = Some x)
  end.
Proof.
  intros Hb Hsecs Hp. split; [|split].
  - unfold keep_alive_secs, IROH_MAX_PATH_KEEP_ALIVE_SECS. apply build_transport_Ok in Hb as [(_ & -> & _)|(_ & Hk & _)]; simpl; [lia|].
    unfold IROH_MAX_PATH_KEEP_ALIVE_SECS in Hk. destruct (n_keep_alive_secs net) as [k|]; simpl; [specialize (Hk k eq_refl)|]; lia.
  - apply build_transport_Ok in Hb as [(Hi & Hk & _)|(_ & _ & Hi & _)]; [|done]. unfold keep_alive_secs. rewrite Hi, Hk. by right.
  - unfold per_session_transport_config in Hp. destruct secs as [s|]; [|by injection Hp as <-]. specialize (Hsecs s eq_refl).
    destruct s as [|s|s]; [injection Hp as <-; simpl; split_and!; try done; exists 0; split; [done|by left]| |lia].
    destruct (Z.leb_spec (Z.pos s) (keep_alive_secs net)); [done|]. apply bind_Ok in Hp as (x & Hx%map_err_Ok & [= <-]). simpl.
    split_and!; try done. exists (Z.pos s). split; [done|]. right. eauto.
Qed.
End properties.

(** *** The gossip bootstrap *)

(** The bootstrap is every other device of the roster that this node does not refuse, and
    nobody when the filter could not be run. *)
Lemma gossip_bootstrap_spec `{E : Ed25519, R : RowCodec} io s view devices cfg roster_mode joined our_id plan :
  plan_roster_transport io s view devices cfg roster_mode joined our_id = Some plan ->
  roster_mode = true /\ (i_org_id (c_identity cfg) = Some (tp_org_id plan) \/ i_org_id (c_identity cfg) = None /\ v_org_id <$> view = Some (tp_org_id plan)) /\
  forall id, id ∈ tp_bootstrap plan <-> joined = true /\ exists v, view = Some v /\ id ∈ devices /\ id <> our_id /\
    refused_by (io id) s (Some v) id = false /\ is_Some (vk_from_bytes id).
Proof.
  unfold plan_roster_transport. destruct roster_mode; simpl; [|done]. intros (org & Horg & [= <-])%bind_Some. simpl. split_and!; [done| |].
  - destruct (i_org_id (c_identity cfg)); [left; congruence|by right].
  - intros id. destruct joined; [|split; [by intros ?%not_elem_of_nil|by intros []]]. unfold gossip_bootstrap. destruct view as [v|].
    2: { split; [by intros ?%not_elem_of_nil|by intros (_ & v & ? & _)]. }
    rewrite list_elem_of_omap. setoid_rewrite list_elem_of_filter. setoid_rewrite list_elem_of_filter. split.
    + intros (k & (Href & Hne & Hin) & [-> Hvk]%endpoint_id_Some). split; [done|]. exists v. by split_and!.
    + intros (_ & v' & [= <-] & Hin & Hne & Href & Hvk). exists id. split_and!; [done..|]. by apply endpoint_id_Some.
Qed.

(** ** Witnesses *)
Module Witness.
Import Grants.Witness.
#[local] Instance plain_relays : RelayUrls :=
  {| RelayUrl := string; relay_parse := Some; url_scheme _ := "https"; url_host u := Some u; url_port _ := None |}.
#[local] Instance plain_urls : Urls := {| Url := string; url_parse := Some |}.
Definition encode (s : Z) : result string Z := if s <? 2 ^ 62 then Ok (1000 * s) else Err "out of range"%string.

(** The default posture, with a keepalive. *)
Definition net : NetworkCfg :=
  {| n_relay_mode := "default"; n_relay_urls := []; n_discovery_mode := "custom"; n_discovery_urls := ["https://dns"]; n_relay_only := false;
     n_presence_mode := "granted"; n_idle_timeout_secs := Some 20; n_keep_alive_secs := Some 3; n_local_discovery := "resolve" |}.
Definition cfg : Config :=
  {| c_identity := c_identity no_config; c_network := net; c_limits := c_limits no_config; Config.c_roster := Config.c_roster no_config;
     c_blobs := c_blobs no_config; c_services := ∅ |}.
#[export] Instance alpns : ForeignAlpns := {| GOSSIP_ALPN := as_bytes "/iroh-gossip/1"; BLOB_ALPN := as_bytes "/iroh-bytes/4" |}.
Definition booted := boot_network encode cfg [] true.
Lemma booted_ok : is_ok booted = true.
Proof. vm_compute. reflexivity. Qed.
Lemma boot_posture_witness : exists ep, booted = Ok (ep, PresenceGranted) /\ ep_relay ep = RelayDefault /\ lookups_state net (ep_lookups ep).
Proof.
  eexists. split; [reflexivity|]. split; [reflexivity|].
  exact (proj1 (boot_posture encode cfg [] true _ _ eq_refl)).
Defined.

Lemma keepalive_before_idle_witness : 0 < keep_alive_secs net <= 5 /\ keep_alive_secs net < 9.
Proof.
  destruct (keepalive_before_idle encode net (Some {| tk_max_idle := Some (Some 20000); tk_keep_alive := Some 3; tk_path_keep_alive := Some 3 |})
    (Some 9) (Some {| tc_max_idle := Some 9000; tc_keep_alive := 3; tc_path_keep_alive := 3 |})) as (Hk & _ & Hp).
  - vm_compute. reflexivity.
  - intros s [= <-]. lia.
  - vm_compute. reflexivity.
  - split; [exact Hk|]. destruct Hp as (_ & _ & s & [= <-] & [[Hs _]|[Hs _]]); [discriminate Hs|exact Hs].
Defined.

(** An idle timeout alone, at or below iroh's own keepalive, is refused. *)
Example bare_idle_refused : is_ok (build_transport_config encode {| n_relay_mode := "default"; n_relay_urls := []; n_discovery_mode := "default";
  n_discovery_urls := []; n_relay_only := false; n_presence_mode := "paired"; n_idle_timeout_secs := Some 5; n_keep_alive_secs := None;
  n_local_discovery := "off" |}) = false.
Proof. vm_compute. reflexivity. Qed.
End Witness.
