(* ===== verification/Relays.v ===== *)
(** * The live relay set

    [set_relays] of [node/src/daemon/handlers.rs]: the running endpoint's relays, the posture
    the daemon keeps of them ([RelayPosture] of [node/src/daemon.rs]) and the configuration a
    restart reads, which the start turns into a relay map ([Boot.net_plan]).

    A relay map is the set of the canonical texts of its urls. *)
From stdpp Require Import base list gmap strings.
From Stdlib Require Import ZArith Lia Strings.Byte.
From S2P Require Import Prelude Bytes Config Paths Grants Boot.

(** [RelayUrl]'s [Display]: a canonical text parses to the url it was printed from. *)
Class RelayText (RU : RelayUrls) := { relay_to_string : RelayUrl -> string }.
Class RelayTextLaws `{RT : RelayText} := { relay_parse_to u : relay_parse (relay_to_string u) = Some u }.

Record RelayPosture := { po_mode : string; po_urls : list string }.

(** The endpoint's relay map, the posture and [config.toml]. *)
Record RelayNode := {
  rn_file : File;
  rn_live : gset string;
  rn_posture : RelayPosture }.

Section relays.
Context `{C : TomlCodec, RU : RelayUrls, RT : !RelayText RU, U : Urls}.
Context (default_relays : gset string).

Definition norm (u : string) : option string := relay_to_string <$> relay_parse u.
Definition norm_set (urls : list string) : gset string := list_to_set (omap norm urls).

Definition parse_relays (urls : list string) : result string (list RelayUrl) :=
  fold_result (fun acc u => r ← ok_or ("set_relays: relay url " +:+ u) (relay_parse u); Ok (acc ++ [r])) [] urls.

(** The calls on the running endpoint: one insertion for each new url, one removal for each
    dropped one. *)
Definition insert_new (current : gset string) (live : gset string) (desired : list string) : gset string :=
  foldl (fun live u => if decide (u ∈ current) then live else {[u]} ∪ live) live desired.
Definition remove_dropped (desired : gset string) (live : gset string) (current : list string) : gset string :=
  foldl (fun live u => if decide (u ∈ desired) then live
                       else match norm u with Some u => live ∖ {[u]} | None => live end) live current.

(** The answer is whether anything changed, and whether a restart is needed. *)
Definition set_relays (io : Config.Faults) (relay_urls : list string) (n : RelayNode) : result string (bool * bool) * RelayNode :=
  match relay_urls with
  | [] => (Err "set_relays: relay_urls is empty"%string, n)
  | _ =>
      match parse_relays relay_urls with
      | Err e => (Err e, n)
      | Ok parsed =>
          let posture := rn_posture n in
          let restart_required := negb (bool_decide (po_mode posture = "custom"%string)) in
          let desired_norm := relay_to_string <$> parsed in
          let current_norm := omap norm (po_urls posture) in
          let desired_set : gset string := list_to_set desired_norm in
          let current_set : gset string := list_to_set current_norm in
          if decide (current_set = desired_set) then (Ok (false, restart_required), n)
          else
            match rmw io (write_relays desired_norm) (rn_file n) with
            | (Err e, file) => (Err e, {| rn_file := file; rn_live := rn_live n; rn_posture := posture |})
            | (Ok _, file) =>
                let live := if restart_required then rn_live n
                            else remove_dropped desired_set (insert_new current_set (rn_live n) desired_norm) current_norm in
                let new_mode := if restart_required then po_mode posture else "custom"%string in
                (Ok (true, restart_required),
                 {| rn_file := file; rn_live := live; rn_posture := {| po_mode := new_mode; po_urls := desired_norm |} |})
            end
      end
  end.

(** The map of the plan a start binds, and the posture it seeds. *)
Definition planned (p : NetPlan) : gset string :=
  match p with
  | Hermetic | MeshPlan RelayDisabled _ => ∅
  | MeshPlan RelayDefault _ => default_relays
  | MeshPlan (RelayCustom urls) _ => list_to_set (relay_to_string <$> urls)
  end.
Definition start_relays (cfg : Config) (file : File) : result BootError RelayNode :=
  p ← net_plan (c_network cfg);
  Ok {| rn_file := file; rn_live := planned p;
        rn_posture := {| po_mode := n_relay_mode (c_network cfg); po_urls := n_relay_urls (c_network cfg) |} |}.
End relays.

(** ** Lemmas *)
Section lemmas.
Context `{CL : TomlCodecLaws, RU : RelayUrls, RT : !RelayText RU, RL : !RelayTextLaws, U : Urls}.
Context (default_relays : gset string).
Implicit Types n : RelayNode.

Lemma parse_all {A} (parse : string -> option A) {X} (err : string -> X) urls acc l :
  fold_result (fun acc u => a ← ok_or (err u) (parse u); Ok (acc ++ [a])) acc urls = Ok l ->
  exists parsed, l = acc ++ parsed /\ Forall2 (fun u a => parse u = Some a) urls parsed.
Proof.
  revert acc. induction urls as [|u urls IH]; intros acc H; [injection H as <-; exists []; by rewrite app_nil_r|].
  cbn [fold_result] in H. destruct (parse u) as [a|] eqn:Hp; [|done]. simpl in H.
  destruct (IH _ H) as (parsed & -> & Hl). exists (a :: parsed). rewrite <- app_assoc. split; [done|]. by constructor.
Qed.

Lemma parsed_norm urls parsed :
  Forall2 (fun u a => relay_parse u = Some a) urls parsed -> omap norm urls = relay_to_string <$> parsed.
Proof. induction 1 as [|u a urls parsed Hu _ IH]; [done|]. cbn [omap list_omap]. unfold norm at 1. rewrite Hu. simpl. by rewrite IH. Qed.

Lemma norm_to_string u : norm (relay_to_string u) = Some (relay_to_string u).
Proof. unfold norm. by rewrite relay_parse_to. Qed.

Lemma norm_idem (urls : list string) : omap norm (omap norm urls) = omap norm urls.
Proof.
  induction urls as [|u urls IH]; [done|]. cbn [omap list_omap]. destruct (norm u) as [v|] eqn:Hu; [|done].
  cbn [omap list_omap]. unfold norm in Hu. destruct (relay_parse u); [|done]. injection Hu as <-.
  by rewrite norm_to_string, IH.
Qed.

Lemma norm_texts (parsed : list RelayUrl) : omap norm (relay_to_string <$> parsed) = relay_to_string <$> parsed.
Proof.
  induction parsed as [|p parsed IH]; [done|]. cbn [fmap list_fmap omap list_omap]. rewrite norm_to_string.
  by f_equal.
Qed.

Lemma insert_new_spec current live (desired : list string) :
  insert_new current live desired = (list_to_set desired ∖ current) ∪ live.
Proof.
  unfold insert_new. revert live. induction desired as [|u desired IH]; intros live; simpl; [set_solver|].
  rewrite IH. case_decide; [set_solver|]. apply set_eq. intros x. destruct (decide (x = u)); set_solver.
Qed.

Lemma remove_dropped_spec desired live (urls : list string) :
  remove_dropped desired live (omap norm urls) = live ∖ (norm_set urls ∖ desired).
Proof.
  unfold remove_dropped, norm_set. rewrite <- (norm_idem urls) at 2. set (l := omap norm urls).
  assert (Hl : Forall (fun u => norm u = Some u) l).
  { apply Forall_forall. intros u (v & _ & Hv)%list_elem_of_omap. unfold norm in Hv.
    destruct (relay_parse v); [|done]. injection Hv as <-. apply norm_to_string. }
  clearbody l. revert live. induction Hl as [|u l Hu _ IH]; intros live; simpl; [set_solver|].
  rewrite IH, Hu. cbn [list_to_set]. case_decide; apply set_eq; intros x; destruct (decide (x = u)); set_solver.
Qed.

(** The whole diff takes the map of the posture's urls to the map of the wanted ones. *)
Lemma diff_applied urls parsed live :
  live = norm_set urls ->
  remove_dropped (list_to_set (relay_to_string <$> parsed))
    (insert_new (norm_set urls) live (relay_to_string <$> parsed)) (omap norm urls)
  = list_to_set (relay_to_string <$> parsed).
Proof.
  intros ->. rewrite remove_dropped_spec, insert_new_spec. apply set_eq. intros x.
  destruct (decide (x ∈ norm_set urls)), (decide (x ∈ (list_to_set (relay_to_string <$> parsed) : gset string))); set_solver.
Qed.

Lemma parse_relays_Ok urls parsed :
  parse_relays urls = Ok parsed -> Forall2 (fun u a => relay_parse u = Some a) urls parsed.
Proof. unfold parse_relays. intros H. by destruct (parse_all relay_parse _ _ _ _ H) as (l & -> & Hl). Qed.

Lemma relay_urls_Ok urls parsed :
  parse_urls relay_parse "relay_urls" urls = Ok parsed -> urls <> [] /\ Forall2 (fun u a => relay_parse u = Some a) urls parsed.
Proof.
  unfold parse_urls. destruct urls as [|u urls]; [done|]. intros H. split; [done|].
  by destruct (parse_all relay_parse _ _ _ _ H) as (l & -> & Hl).
Qed.

Lemma parse_urls_texts (us : list RelayUrl) :
  us <> [] -> parse_urls relay_parse "relay_urls" (relay_to_string <$> us) = Ok us.
Proof.
  intros Hne. unfold parse_urls. destruct us as [|u us]; [done|]. cbn [fmap list_fmap].
  assert (H : forall l acc, fold_result (fun acc u => a ← ok_or (BadUrl "relay_urls" u) (relay_parse u); Ok (acc ++ [a])) acc
    (relay_to_string <$> l) = Ok (acc ++ l)).
  { induction l as [|v l IH]; intros acc; [by rewrite app_nil_r|]. cbn [fmap list_fmap fold_result].
    rewrite relay_parse_to. simpl. rewrite IH. by rewrite <- app_assoc. }
  apply (H (u :: us) []).
Qed.

(** Every outcome of a call. *)
Lemma set_relays_cases io urls n r n' c :
  config_load healthy (rn_file n) = Ok c -> set_relays io urls n = (r, n') ->
  match r with
  | Err _ => n' = n
  | Ok (changed, restart) =>
      restart = negb (bool_decide (po_mode (rn_posture n) = "custom"%string)) /\
      exists parsed, parsed <> [] /\ norm_set urls = list_to_set (relay_to_string <$> parsed) /\
      if (changed : bool) then
        config_load healthy (rn_file n') = Ok (with_network (Config.set_relays (relay_to_string <$> parsed)) c) /\
        po_urls (rn_posture n') = relay_to_string <$> parsed /\
        po_mode (rn_posture n') = po_mode (rn_posture n) /\
        rn_live n' = (if restart then rn_live n
                      else remove_dropped (list_to_set (relay_to_string <$> parsed))
                             (insert_new (norm_set (po_urls (rn_posture n))) (rn_live n) (relay_to_string <$> parsed))
                             (omap norm (po_urls (rn_posture n))))
      else n' = n /\ norm_set (po_urls (rn_posture n)) = norm_set urls
  end.
Proof.
  intros Hc H. unfold set_relays in H. destruct urls as [|u urls]; [by injection H as <- <-|].
  destruct (parse_relays (u :: urls)) as [parsed|e] eqn:Hp; [|by injection H as <- <-]. cbv zeta in H.
  apply parse_relays_Ok in Hp. pose proof (parsed_norm _ _ Hp) as Hn.
  assert (Hne : parsed <> []) by (intros ->; by inversion Hp).
  assert (Hset : norm_set (u :: urls) = list_to_set (relay_to_string <$> parsed)) by (unfold norm_set; by rewrite Hn).
  destruct (decide _) as [Heq|_] in H.
  - injection H as <- <-. split; [done|]. exists parsed. split_and!; [done..|]. by rewrite Hset.
  - change (write_relays (relay_to_string <$> parsed)) with (config_edit (Relays (relay_to_string <$> parsed))) in H.
    pose proof (run_op_spec io (Relays (relay_to_string <$> parsed)) (rn_file n) c I Hc) as Hs. unfold run_op in Hs.
    destruct (rmw io _ (rn_file n)) as [[b|e] file]; [|injection H as <- <-; destruct Hs as [-> _]; by destruct n].
    injection H as <- <-. split; [done|]. exists parsed. split; [done|]. split; [done|]. simpl.
    destruct Hs as [Hf _]. split_and!; [exact Hf|done| |done].
    destruct (bool_decide _) eqn:Hm; [|done]. simpl. by apply bool_decide_eq_true in Hm.
Qed.

(** A node that runs in custom mode on what its file says. *)
Record agrees n : Prop := {
  ag_mode : po_mode (rn_posture n) = "custom"%string;
  ag_live : rn_live n = norm_set (po_urls (rn_posture n));
  ag_file : exists c d us, config_load healthy (rn_file n) = Ok c /\ n_relay_mode (c_network c) = "custom"%string /\
    discovery_plan (c_network c) = Ok d /\ parse_urls relay_parse "relay_urls" (n_relay_urls (c_network c)) = Ok us /\
    rn_live n = list_to_set (relay_to_string <$> us) }.

Lemma start_custom c file n :
  config_load healthy file = Ok c -> n_relay_mode (c_network c) = "custom"%string ->
  start_relays default_relays c file = Ok n -> agrees n /\ rn_live n = norm_set (n_relay_urls (c_network c)).
Proof.
  intros Hc Hm H. unfold start_relays, net_plan, relay_plan in H. rewrite Hm in H.
  rewrite decide_False, decide_False, decide_True in H by done.
  destruct (parse_urls _ _ _) as [us|] eqn:Hu; [|done]. simpl in H.
  destruct (discovery_plan _) as [d|] eqn:Hd; [|done]. simpl in H. injection H as <-.
  pose proof (relay_urls_Ok _ _ Hu) as [_ Hp]. apply parsed_norm in Hp.
  assert (Hl : norm_set (n_relay_urls (c_network c)) = list_to_set (relay_to_string <$> us)) by (unfold norm_set; by rewrite Hp).
  split; [split; simpl|]; [done|done| |done]. exists c, d, us. done.
Qed.

Lemma agrees_start n : agrees n -> exists c n', config_load healthy (rn_file n) = Ok c /\
  n_relay_mode (c_network c) = "custom"%string /\
  start_relays default_relays c (rn_file n) = Ok n' /\ rn_live n' = rn_live n /\ rn_file n' = rn_file n.
Proof.
  intros [_ _ (c & d & us & Hc & Hm & Hd & Hu & Hl)]. exists c. eexists. split_and!; [done|done| | |].
  - unfold start_relays, net_plan, relay_plan. rewrite Hm, decide_False, decide_False, decide_True by done.
    rewrite Hu. simpl. rewrite Hd. simpl. reflexivity.
  - simpl. done.
  - done.
Qed.

Lemma set_agrees io urls n r n' :
  agrees n -> set_relays io urls n = (r, n') ->
  agrees n' /\ rn_live n' = if is_ok r then norm_set urls else rn_live n.
Proof.
  intros Ha H. pose proof Ha as [Hmode Hlive (c & d & us & Hc & Hm & Hd & Hu & Hl)].
  pose proof (set_relays_cases _ _ _ _ _ _ Hc H) as Hcase. destruct r as [[changed restart]|e]; [|by subst n'].
  destruct Hcase as (-> & parsed & Hne & Hset & Hcase). rewrite Hmode, bool_decide_eq_true_2 in Hcase by done.
  simpl in Hcase. simpl is_ok. cbv iota. destruct changed.
  - destruct Hcase as (Hf & Hpu & Hpm & Hlv). rewrite (diff_applied _ parsed _ Hlive) in Hlv.
    split; [|by rewrite Hlv]. split.
    + by rewrite Hpm.
    + rewrite Hlv, Hpu. unfold norm_set. by rewrite norm_texts.
    + eexists _, d, parsed. split; [exact Hf|]. simpl. split_and!; [done|exact Hd| |done]. by apply parse_urls_texts.
  - destruct Hcase as [-> Heq]. split; [done|]. by rewrite Hlive, Heq.
Qed.

(** ** Histories *)
Inductive RelayOp := RelaySet (io : Config.Faults) (urls : list string) | RelayRestart.

(** A restart reads the file; one that cannot start leaves nothing running and is not a
    step. *)
Definition relay_step (op : RelayOp) (n : RelayNode) : option (list string) * RelayNode :=
  match op with
  | RelaySet io urls => let '(r, n) := set_relays io urls n in (if is_ok r then Some urls else None, n)
  | RelayRestart =>
      match config_load healthy (rn_file n) with
      | Ok c => match start_relays default_relays c (rn_file n) with Ok n => (None, n) | Err _ => (None, n) end
      | Err _ => (None, n)
      end
  end.
Fixpoint run_relays (ops : list RelayOp) (n : RelayNode) : list (list string) * RelayNode :=
  match ops with
  | [] => ([], n)
  | op :: ops =>
      let '(o, n) := relay_step op n in
      let '(accepted, n) := run_relays ops n in
      (option_list o ++ accepted, n)
  end.

Lemma relay_step_agrees op n :
  agrees n -> let '(o, n') := relay_step op n in
  agrees n' /\ rn_live n' = default (rn_live n) (norm_set <$> o).
Proof.
  intros Ha. destruct op as [io urls|]; simpl.
  - destruct (set_relays io urls n) as [r n'] eqn:H. destruct (set_agrees _ _ _ _ _ Ha H) as [Ha' Hl].
    split; [done|]. rewrite Hl. by destruct (is_ok r).
  - destruct (agrees_start _ Ha) as (c & n' & Hc & Hm & Hs & Hl & _). rewrite Hc, Hs.
    by destruct (start_custom _ _ _ Hc Hm Hs).
Qed.

Lemma run_relays_agrees ops n :
  agrees n -> let '(accepted, n') := run_relays ops n in
  agrees n' /\ rn_live n' = foldl (fun _ urls => norm_set urls) (rn_live n) accepted.
Proof.
  revert n. induction ops as [|op ops IH]; intros n Ha; [done|]. simpl.
  pose proof (relay_step_agrees op n Ha) as Hs. destruct (relay_step op n) as [o n1]. destruct Hs as [Ha1 Hl1].
  specialize (IH n1 Ha1). destruct (run_relays ops n1) as [accepted n']. destruct IH as [Ha' Hl]. split; [done|].
  rewrite Hl, foldl_app, Hl1. by destruct o.
Qed.

(** C34: a node started on a custom relay set serves, after any sequence of calls and restarts
    and under any pattern of file faults, exactly the set the last successful call asked
    for, and that is the set the next start serves: a call that fails applies nothing,
    neither to the endpoint nor to the file. *)
Theorem relays_refine c file n ops :
  config_load healthy file = Ok c -> n_relay_mode (c_network c) = "custom"%string ->
  start_relays default_relays c file = Ok n ->
  let '(accepted, n') := run_relays ops n in
  rn_live n' = foldl (fun _ urls => norm_set urls) (norm_set (n_relay_urls (c_network c))) accepted /\
  exists c' n'', config_load healthy (rn_file n') = Ok c' /\ start_relays default_relays c' (rn_file n') = Ok n'' /\
    rn_live n'' = rn_live n'.
Proof.
  intros Hc Hm Hs. destruct (start_custom _ _ _ Hc Hm Hs) as [Ha Hl]. pose proof (run_relays_agrees ops n Ha) as H.
  destruct (run_relays ops n) as [accepted n']. destruct H as [Ha' Hl']. split; [by rewrite Hl', Hl|].
  destruct (agrees_start _ Ha') as (c' & n'' & H1 & _ & H2 & H3 & _). eauto.
Qed.

(** In another mode a call that changes something leaves the endpoint alone, and the next
    start serves exactly the set it asked for. *)
Theorem mode_switch c d n io urls n' :
  config_load healthy (rn_file n) = Ok c -> discovery_plan (c_network c) = Ok d ->
  set_relays io urls n = (Ok (true, true), n') ->
  rn_live n' = rn_live n /\
  exists c' n'', config_load healthy (rn_file n') = Ok c' /\ start_relays default_relays c' (rn_file n') = Ok n'' /\
    po_mode (rn_posture n'') = "custom"%string /\ rn_live n'' = norm_set urls.
Proof.
  intros Hc Hd H. destruct (set_relays_cases _ _ _ _ _ _ Hc H) as (_ & parsed & Hne & Hset & Hf & _ & _ & Hl).
  split; [done|]. eexists _, _. split; [exact Hf|]. split.
  - unfold start_relays, net_plan, relay_plan. cbn [c_network with_network n_relay_mode Config.set_relays n_relay_urls].
    rewrite decide_False, decide_False, decide_True by done. rewrite parse_urls_texts by done. simpl.
    change (discovery_plan _) with (discovery_plan (c_network c)). rewrite Hd. simpl. reflexivity.
  - simpl. split; [done|]. by rewrite Hset.
Qed.
End lemmas.

(** ** Witnesses *)
Module Witness.
Import ToyToml.
Local Open Scope string_scope.

(** Urls with and without their scheme. *)
#[local] Instance relays : RelayUrls :=
  {| RelayUrl := string; relay_parse s := if decide (s = "") then None else Some (default s (strip_prefix "https://" s));
     url_scheme _ := "https"; url_host u := Some u; url_port _ := None |}.
#[local] Instance relay_text : RelayText relays := {| relay_to_string u := "https://" +:+ u |}.
#[local] Instance relay_text_laws : RelayTextLaws (RT := relay_text).
Proof. split. intros u. cbn [relay_parse relays relay_to_string relay_text]. rewrite decide_False by done. by rewrite strip_prefix_app. Qed.
#[local] Instance urls : Urls := {| Url := string; url_parse := Some |}.

Definition n0_relays : gset string := {["https://n0"]}.
Definition unwrap {A E} (r : result E A) (d : A) : A := match r with Ok a => a | Err _ => d end.
Lemma unwrap_ok {A E} (r : result E A) d : is_ok r = true -> r = Ok (unwrap r d).
Proof. by destruct r. Qed.

Definition net (mode : string) (urls : list string) : NetworkCfg :=
  {| n_relay_mode := mode; n_relay_urls := urls; n_discovery_mode := "default"; n_discovery_urls := []; n_relay_only := false;
     n_presence_mode := "paired"; n_idle_timeout_secs := None; n_keep_alive_secs := None; n_local_discovery := "off" |}.
Definition some_config : Config := Grants.Witness.no_config.

Definition file : File := (rmw healthy (write_relays ["https://a"; "b"]) None).2.
Definition c0 : Config := unwrap (config_load healthy file) some_config.
Lemma file_loads : config_load healthy file = Ok c0.
Proof. apply unwrap_ok. vm_compute. reflexivity. Qed.

Definition stopped : RelayNode := {| rn_file := None; rn_live := ∅; rn_posture := {| po_mode := ""; po_urls := [] |} |}.
Definition running : RelayNode := unwrap (start_relays n0_relays c0 file) stopped.
Lemma running_ok : start_relays n0_relays c0 file = Ok running.
Proof. apply unwrap_ok. vm_compute. reflexivity. Qed.

(** One url is kept under another spelling, one is dropped and one is new; then a bad url
    and a full disk. *)
Definition history : list RelayOp :=
  [RelaySet healthy ["a"; "https://c"]; RelaySet healthy ["d"; ""]; RelayRestart;
   RelaySet {| f_read := None; f_write := Some "disk full" |} ["d"]].

Lemma relays_refine_witness :
  (run_relays n0_relays history running).1 = [["a"; "https://c"]] /\
  rn_live (run_relays n0_relays history running).2 = norm_set ["a"; "https://c"].
Proof.
  assert (H1 : (run_relays n0_relays history running).1 = [["a"; "https://c"]]) by (vm_compute; reflexivity).
  split; [exact H1|].
  pose proof (relays_refine n0_relays c0 file running history file_loads ltac:(vm_compute; reflexivity) running_ok) as H.
  destruct (run_relays n0_relays history running) as [accepted n']. simpl in *. rewrite H1 in H. exact (proj1 H).
Defined.

(** On n0's relays; the urls that are left in the configuration mean nothing in that mode. *)
Definition leftover : Config := with_network (fun _ => net "default" ["https://b"]) some_config.
Definition on_n0 : RelayNode := unwrap (start_relays n0_relays leftover None) stopped.

Lemma on_n0_ok : start_relays n0_relays leftover None = Ok on_n0.
Proof. apply unwrap_ok. vm_compute. reflexivity. Qed.

(** Asked for the urls that are left over, the verb answers that nothing changes but that a
    restart is needed, and writes nothing, so the mode never becomes custom and a restart
    serves n0's relays again; the same urls are accepted when another set was asked for
    in between. *)
Lemma leftover_urls_never_switch :
  set_relays healthy ["b"] on_n0 = (Ok (false, true), on_n0) /\ rn_live on_n0 = n0_relays /\ rn_file on_n0 = None /\
  (set_relays healthy ["b"] (set_relays healthy ["a"] on_n0).2).1 = Ok (true, true).
Proof.
  split; [|split; [reflexivity|split; [reflexivity|vm_compute; reflexivity]]].
  vm_compute. reflexivity.
Qed.

Lemma mode_switch_witness : exists c' n'',
  config_load healthy (rn_file (set_relays healthy ["a"] {| rn_file := file; rn_live := n0_relays; rn_posture := rn_posture on_n0 |}).2) = Ok c' /\
  start_relays n0_relays c' (rn_file (set_relays healthy ["a"] {| rn_file := file; rn_live := n0_relays; rn_posture := rn_posture on_n0 |}).2) = Ok n'' /\
  rn_live n'' = norm_set ["a"].
Proof.
  set (n := {| rn_file := file; rn_live := n0_relays; rn_posture := rn_posture on_n0 |}).
  assert (H1 : (set_relays healthy ["a"] n).1 = Ok (true, true)) by (vm_compute; reflexivity).
  destruct (set_relays healthy ["a"] n) as [r n'] eqn:H. simpl in H1. subst r.
  destruct (mode_switch n0_relays c0 N0 n healthy ["a"] n' file_loads ltac:(vm_compute; reflexivity) H) as (_ & c' & n'' & Hc & Hs & _ & Hl).
  exists c', n''. split; [exact Hc|split; [exact Hs|exact Hl]].
Defined.
End Witness.
