(* ===== verification/Doctor.v ===== *)
(** * The health diagnostic

    [cli/src/doctor.rs] and its JSON face in [cli/src/json.rs]: the checks, the inputs they are
    run on, the ordered report and the exit status. What is read of the machine (the
    configuration's text, the modes of files, the daemon's answer) is an argument. *)
From stdpp Require Import base list gmap sorting strings pretty.
From Stdlib Require Import ZArith Lia Strings.Byte.
From S2P Require Import Prelude Bytes Digits Json Externals Schema Validate Identity Limits Config Gate Addrs Paths Mesh Rosters Status Boot.

Local Open Scope Z_scope.

(** [Level] is below [Ok] for the exit status at [Info]. *)
Inductive Level := LInfo | LOk | LWarn | LError.
#[export] Instance Level_eq_dec : EqDecision Level.
Proof. solve_decision. Defined.
Record Verdict := { v_level : Level; v_message : string }.
#[export] Instance Verdict_eq_dec : EqDecision Verdict.
Proof. solve_decision. Defined.

Definition level_str (l : Level) : string :=
  match l with LInfo => "info" | LOk => "ok" | LWarn => "warn" | LError => "error" end.
Definition info (m : string) : Verdict := {| v_level := LInfo; v_message := m |}.
Definition okay (m : string) : Verdict := {| v_level := LOk; v_message := m |}.
Definition warn (m : string) : Verdict := {| v_level := LWarn; v_message := m |}.
Definition error (m : string) : Verdict := {| v_level := LError; v_message := m |}.

(** [{mode:04o}]. *)
Fixpoint octal (fuel : nat) (z : Z) (acc : string) : string :=
  match fuel with
  | O => acc
  | S fuel =>
      let acc := (from_bytes [byte_of (48 + z mod 8)] +:+ acc)%string in
      if z / 8 =? 0 then acc else octal fuel (z / 8) acc
  end.
Definition octal4 (mode : Z) : string := pad 4 (octal 11 mode "").

Definition dquote : string := from_bytes [x22].
Definition quoted (s : string) : string := (dquote +:+ s +:+ dquote)%string.

(** ** The checks *)
Section network.
Context `{RU : RelayUrls, U : Urls}.

(** How an error of the boot reads, and whether the binary was built with the relay-only
    feature. *)
Context (boot_text : BootError -> string) (relay_only_built : bool).

(** The checks of the daemon, then the advice. *)
Definition check_plan (encode : Z -> result string Z) (net : NetworkCfg) : Verdict :=
  let refused e := error ("[network] invalid — the daemon will refuse to start: " +:+ boot_text e) in
  match validate_transport_config encode net with
  | Err e => refused e
  | Ok _ =>
      match net_plan net with
      | Err e => refused e
      | Ok Hermetic =>
          if negb (bool_decide (n_discovery_mode net = "default"%string)) || negb (bool_decide (n_discovery_urls net = []))
          then warn ("relay_mode = " +:+ quoted "disabled" +:+ " is hermetic (no relay, no discovery) — the discovery_mode/discovery_urls knobs are ignored")
          else okay "networking disabled (hermetic) — no relay, no discovery"
      | Ok (MeshPlan _ _) =>
          let relay_self := bool_decide (n_relay_mode net = "custom"%string) in
          let disc_self := bool_decide (n_discovery_mode net = "custom"%string) in
          if xorb relay_self disc_self then
            let '(on, off) := if relay_self then ("relay", "discovery")%string else ("discovery", "relay")%string in
            warn ("self-hosting " +:+ on +:+ " but not " +:+ off +:+ " — an incomplete metadata mitigation (§10.3); self-host both or neither")
          else if relay_self && disc_self then okay "self-hosting relay and discovery"
          else okay "using default relay and discovery"
      end
  end.

Definition check_network (encode : Z -> result string Z) (net : NetworkCfg) : Verdict :=
  if n_relay_only net && negb relay_only_built then
    warn "[network] relay_only = true is IGNORED — this binary lacks the                  `unstable-relay-only` cargo feature. Traffic takes whatever path iroh selects,                  which on a LAN with IPv6 is usually DIRECT. Do NOT treat this run as having                  exercised the relay."
  else if n_relay_only net && bool_decide (n_relay_mode net = "disabled"%string) then
    warn "[network] relay_only = true with a hermetic relay_mode — hermetic mode opens NO relay path, so there is nothing to select and traffic stays direct. relay_only cannot be honoured here."
  else
    check_plan encode net.

(** The connected relays as they normalise, and whether a configured one is among them. *)
Definition connected_urls (live : list RelayInfo) : list string :=
  (fun r => default (ri_url r) (normalize_relay_url (ri_url r))) <$> filter (fun r => ri_connected r = true) live.
Definition relay_alive (live : list RelayInfo) (u : string) : bool :=
  from_option (fun v => bool_decide (v ∈ connected_urls live)) false (normalize_relay_url u).

Definition check_relays (configured : list string) (live : option (list RelayInfo)) : Verdict :=
  let n := length configured in
  match live with
  | None => info (pretty n +:+ " relay(s) configured — live connection state unavailable (no running mesh daemon to ask)")
  | Some live =>
      let dead := List.filter (fun u => negb (relay_alive live u)) configured in
      match dead with
      | [] => okay ("all " +:+ pretty n +:+ " configured relay(s) connected")
      | _ =>
          let listed := String.concat ", " dead in
          if decide (length dead = n) then
            warn ("NO configured relay is connected (" +:+ listed +:+ ") — this node has no relay path right now, so WAN peers are unreachable until one answers. LAN/direct paths are unaffected.")
          else
            warn (pretty (length dead) +:+ " of " +:+ pretty n +:+ " configured relay(s) not connected (" +:+ listed +:+ ") — traffic still flows over the healthy ones, but every boot pays a bounded penalty waiting on the dead entry. Remove it, or fix it, to get that time back (#125).")
      end
  end.
End network.

Definition minutes_ago (m : Z) : string :=
  if m =? 0 then "less than a minute"
  else if m =? 1 then "1 minute"
  else if m <? 60 then pretty m +:+ " minutes"
  else if m <? 120 then "1 hour"
  else if m <? 1440 then pretty (m / 60) +:+ " hours"
  else pretty (m / 1440) +:+ " days".

Definition check_identity_conflict (epoch : option Z) (now : Z) : option Verdict :=
  seen ← epoch;
  Some (warn ("another endpoint was seen presenting this node's identity " +:+ minutes_ago (Z.max (i64_sub now seen) 0 / 60) +:+
    " ago — two nodes booted from COPIES of one mesh root cannot both use the relay, and this node's peers will appear unreachable while that lasts. Stop the duplicate, or give it its own identity. (Advisory: the report comes from a relay and is not authenticated.)")).

Definition check_roster_url (org_root_pinned : bool) (roster_url : option string) : Verdict :=
  match org_root_pinned, roster_url with
  | false, _ => okay "pairing mode — no roster URL needed"
  | true, Some _ => okay "roster URL configured"
  | true, None => warn "roster mode but no [roster].url — this node degrades after max_staleness with no way to re-confirm currency; set [roster].url"
  end.

Definition check_allow_principals (org_root_pinned : bool) (bare : list (string * string)) : Verdict :=
  match bare with
  | [] => okay "allow entries are stable principals"
  | _ =>
      if org_root_pinned then
        info "bare allow entries are treated as roster names; any that were pre-0.8.0              pairing-nickname grants no longer admit — re-pair those peers"
      else
        let listed := (fun se => se.1 +:+ ":" +:+ quoted se.2) <$> bare in
        warn ("nickname-keyed grants no longer admit anyone (0.8.0): " +:+ String.concat ", " listed +:+
              " — re-pair the peer (grants are now written as stable principals) or replace the entry with the peer's b64u:/eid: principal")
  end.

(** The bits of group and world: [0o022], [0o044] and [0o077]. *)
Definition WRITABLE : Z := 2 * 8 + 2.
Definition READABLE : Z := 4 * 8 + 4.
Definition ACCESSIBLE : Z := 7 * 8 + 7.

Definition check_key_perms (present : bool) (mode : Z) : Verdict :=
  if negb present then okay "absent (not yet created)"
  else if negb (Z.land mode WRITABLE =? 0) then
    error ("group/world-writable (mode " +:+ octal4 mode +:+ ") — an attacker could replace this key; run `chmod 600`")
  else if negb (Z.land mode READABLE =? 0) then
    warn ("group/world-readable (mode " +:+ octal4 mode +:+ ") — a private key should be 0600; run `chmod 600`")
  else okay ("0600 (mode " +:+ octal4 mode +:+ ")").

Definition check_runtime_dir (present : bool) (mode uid our_uid : Z) : Verdict :=
  if negb present then okay "not present (daemon not started)"
  else if negb (uid =? our_uid) then
    error ("owned by uid " +:+ pretty uid +:+ ", not you (uid " +:+ pretty our_uid +:+ ") — the daemon refuses to bind here; investigate")
  else if negb (Z.land mode ACCESSIBLE =? 0) then
    error ("mode " +:+ octal4 mode +:+ " is group/world-accessible — the control-socket dir must be 0700; run `chmod 700`")
  else okay ("0700, owned by you (mode " +:+ octal4 mode +:+ ")").

Definition friendly_age (secs : Z) : string :=
  let s := Z.max secs 0 in
  if 86400 <=? s then pretty (s / 86400) +:+ "d"
  else if 3600 <=? s then pretty (s / 3600) +:+ "h"
  else if 60 <=? s then pretty (s / 60) +:+ "m"
  else pretty s +:+ "s".

Definition check_roster_freshness (roster_mode : bool) (daemon_state : option string) (staleness_secs : option Z) (max_staleness_secs : Z) : Verdict :=
  if negb roster_mode then okay "pairing mode — no roster"
  else
    match daemon_state with
    | None => warn "roster mode but the daemon is not running — install/freshness state unknown; start it to check"
    | Some w =>
        if decide (w = "stopped") then error "roster serving STOPPED — stale/expired past grace; re-confirm currency (URL poll / gossip / manual install)"
        else if decide (w = "degraded") then warn "roster DEGRADED — serving in the grace window; re-confirm currency soon"
        else if decide (w = "pending") then warn "joined but not yet approved — no roster installed; ask your operator to approve your join code"
        else if decide (w = "approved") then
          match staleness_secs with
          | Some age =>
              if max_staleness_secs <? age then
                warn ("roster approved but last confirmed " +:+ friendly_age age +:+ " ago (> max_staleness " +:+ friendly_age max_staleness_secs +:+ ") — a refresh is due")
              else okay ("roster approved — last confirmed " +:+ friendly_age age +:+ " ago")
          | None => okay "roster approved"
          end
        else warn ("roster state '" +:+ w +:+ "' — check `mcpmesh status`")
    end.

Definition check_config (parse_ok roster_mode has_org_id : bool) : Verdict :=
  if negb parse_ok then error "config.toml does not parse — fix the syntax (run `mcpmesh status` to see the error)"
  else if roster_mode && negb has_org_id then
    warn "roster mode (org root pinned) but [identity].org_id is missing — the pin is incomplete; re-run `mcpmesh join` (joiner) or `mcpmesh org create` (operator)"
  else okay "config parses; required fields present".

Definition check_daemon (reachable : bool) : Verdict :=
  if reachable then okay "daemon running and reachable"
  else warn "daemon not running — start it with any porcelain verb (e.g. `mcpmesh status`)".

(** ** The report *)
Abbreviation Finding := (string * Verdict)%type (only parsing).
Definition at_level (l : Level) (f : Finding) : bool := bool_decide (v_level f.2 = l).
Definition count_level (l : Level) (findings : list Finding) : nat := length (List.filter (at_level l) findings).

Definition worst_level (findings : list Finding) : Level :=
  if existsb (at_level LError) findings then LError
  else if existsb (at_level LWarn) findings then LWarn
  else LOk.

Definition level_tag (l : Level) : string :=
  match l with LInfo => "INFO" | LOk => "OK  " | LWarn => "WARN" | LError => "ERR " end.
Definition finding_line (f : Finding) : string :=
  "[" +:+ level_tag (v_level f.2) +:+ "] " +:+ f.1 +:+ ": " +:+ v_message f.2.
Definition summary_line (errors warns : nat) : string :=
  match errors, warns with
  | O, O => "doctor: all checks passed"
  | O, w => "doctor: " +:+ pretty (Z.of_nat w) +:+ " warning(s) — see above"
  | e, w => "doctor: " +:+ pretty (Z.of_nat e) +:+ " error(s), " +:+ pretty (Z.of_nat w) +:+ " warning(s) — see above"
  end.
Definition render_report (findings : list Finding) : list string :=
  (finding_line <$> findings) ++ [""%string; summary_line (count_level LError findings) (count_level LWarn findings)].

Definition finding_json (f : Finding) : Value :=
  VObject [("check"%string, VString f.1); ("level"%string, VString (level_str (v_level f.2))); ("message"%string, VString (v_message f.2))].
Definition doctor_json (findings : list Finding) : Value :=
  VObject [("errors"%string, VNumber (NInt (Z.of_nat (count_level LError findings))));
           ("findings"%string, VArray (finding_json <$> findings));
           ("ok"%string, VBool (bool_decide (count_level LError findings = 0%nat)));
           ("warnings"%string, VNumber (NInt (Z.of_nat (count_level LWarn findings))))].

(** ** The inputs *)
Record DoctorInputs := {
  in_parse_ok : bool; in_org_root_pinned : bool; in_has_org_id : bool; in_network : NetworkCfg; in_roster_url : option string;
  in_bare_allow_entries : list (string * string); in_max_staleness_secs : Z;
  in_device_key : bool * Z; in_user_key : bool * Z; in_org_root_key : bool * Z; in_runtime_dir : bool * Z * Z; in_our_uid : Z;
  in_perm_lints_apply : bool; in_staleness_secs : option Z; in_daemon_reachable : bool; in_daemon_roster_state : option string;
  in_live_relays : option (list RelayInfo); in_identity_conflict_epoch : option Z; in_invites_file : bool * Z }.

(** What the daemon answers: no connection, no status, or a status with its roster and network
    blocks. *)
Abbreviation Probe := (option (option (option RosterStatus * option SelfNetwork))) (only parsing).
Definition probe_daemon (p : Probe) : bool * option string * option (list RelayInfo) * option Z :=
  match p with
  | None => (false, None, None, None)
  | Some None => (true, None, None, None)
  | Some (Some (roster, net)) => (true, rs_state <$> roster, sn_relays <$> net, net ≫= sn_identity_conflict_epoch)
  end.

(** The machine the diagnostic runs on. A path that does not resolve is the empty one; [mc_mode]
    is the permission bits of what is at a path, with its owner. *)
Record Machine := {
  mc_unix : bool; mc_now : Z; mc_euid : Z;
  mc_config : result string Config;
  mc_device_key_path : string; mc_user_key_path : string; mc_org_root_key_path : string; mc_invites_path : string;
  mc_runtime_dir : option string;
  mc_mode : string -> option (Z * Z);
  mc_confirmed : result string (option Z);
  mc_daemon : Probe }.

Definition stat_mode (m : Machine) (path : string) : bool * Z :=
  match mc_mode m path with Some (mode, _) => (true, if mc_unix m then Z.land mode 511 else 0) | None => (false, 0) end.
Definition stat_dir (m : Machine) (path : string) : bool * Z * Z :=
  match mc_mode m path with Some (mode, uid) => if mc_unix m then (true, Z.land mode 511, uid) else (true, 0, 0) | None => (false, 0, 0) end.

(** [Default] of the configuration. *)
Definition default_network : NetworkCfg :=
  {| n_relay_mode := "default"; n_relay_urls := []; n_discovery_mode := "default"; n_discovery_urls := []; n_relay_only := false;
     n_presence_mode := "paired"; n_idle_timeout_secs := None; n_keep_alive_secs := None; n_local_discovery := "off" |}.
Definition default_config : Config :=
  {| c_identity := {| i_device_key := None; i_nickname := None; i_org_id := None; i_org_root_pk := None;
       i_user_id := None; i_admit_attested_devices := false; i_user_key := None |};
     c_network := default_network;
     c_limits := {| l_rate_limit_per_min := 120; l_max_inflight := 16; l_max_sessions := 4; l_blob_bytes_per_min := 0; l_audit_retain_months := 0 |};
     Config.c_roster := {| ro_grace_period := "72h"; ro_url := None; ro_poll_interval := "1h"; ro_max_staleness := "24h" |};
     c_blobs := {| bl_gc_interval := None |};
     c_services := ∅ |}.

Definition is_bare (a : string) : bool := negb (starts_with "b64u:" a) && negb (starts_with "eid:" a).
Definition bare_allow_entries (cfg : Config) : list (string * string) :=
  btree_iter (c_services cfg) ≫= fun kv => pair kv.1 <$> List.filter is_bare (sc_allow kv.2).

Definition gather (m : Machine) : DoctorInputs :=
  let cfg := default default_config (ok (mc_config m)) in
  let at_path configured fallback := stat_mode m (default fallback configured) in
  let '(reachable, state, relays, conflict) := probe_daemon (mc_daemon m) in
  {| in_parse_ok := is_ok (mc_config m); in_org_root_pinned := bool_decide (is_Some (i_org_root_pk (c_identity cfg)));
     in_has_org_id := bool_decide (is_Some (i_org_id (c_identity cfg))); in_network := c_network cfg; in_roster_url := ro_url (Config.c_roster cfg);
     in_bare_allow_entries := bare_allow_entries cfg; in_max_staleness_secs := max_staleness_seconds (Config.c_roster cfg);
     in_device_key := at_path (i_device_key (c_identity cfg)) (mc_device_key_path m);
     in_user_key := at_path (i_user_key (c_identity cfg)) (mc_user_key_path m);
     in_org_root_key := stat_mode m (mc_org_root_key_path m);
     in_runtime_dir := from_option (stat_dir m) (false, 0, 0) (mc_runtime_dir m);
     in_our_uid := if mc_unix m then mc_euid m else 0; in_perm_lints_apply := mc_unix m;
     in_staleness_secs := (fun lc => i64_sub (mc_now m) lc) <$> mjoin (ok (mc_confirmed m));
     in_daemon_reachable := reachable; in_daemon_roster_state := state; in_live_relays := relays; in_identity_conflict_epoch := conflict;
     in_invites_file := stat_mode m (mc_invites_path m) |}.

Section findings.
Context `{RU : RelayUrls, U : Urls} (boot_text : BootError -> string) (relay_only_built : bool) (encode : Z -> result string Z).

Definition key_finding (label : string) (k : bool * Z) : Finding := (label, check_key_perms k.1 k.2).

Definition findings (inp : DoctorInputs) (now : Z) : list Finding :=
  [("config", check_config (in_parse_ok inp) (in_org_root_pinned inp) (in_has_org_id inp));
   ("daemon", check_daemon (in_daemon_reachable inp));
   ("self-hosting", check_network boot_text relay_only_built encode (in_network inp));
   ("roster-url", check_roster_url (in_org_root_pinned inp) (in_roster_url inp));
   ("allow vocabulary", check_allow_principals (in_org_root_pinned inp) (in_bare_allow_entries inp));
   ("roster-freshness",
    check_roster_freshness (in_org_root_pinned inp) (in_daemon_roster_state inp) (in_staleness_secs inp) (in_max_staleness_secs inp))]%string ++
  (if bool_decide (n_relay_mode (in_network inp) = "custom"%string) && negb (bool_decide (n_relay_urls (in_network inp) = []))
   then [("relays"%string, check_relays (n_relay_urls (in_network inp)) (in_live_relays inp))] else []) ++
  (match check_identity_conflict (in_identity_conflict_epoch inp) now with Some v => [("identity"%string, v)] | None => [] end) ++
  (if in_perm_lints_apply inp && (in_invites_file inp).1 then [key_finding "invites" (in_invites_file inp)] else []) ++
  (if in_perm_lints_apply inp then
     [key_finding "device.key" (in_device_key inp); key_finding "user.key" (in_user_key inp); key_finding "org-root.key" (in_org_root_key inp);
      ("runtime-dir"%string, let '(present, mode, uid) := in_runtime_dir inp in check_runtime_dir present mode uid (in_our_uid inp))]
   else
     [("file-permission lints"%string, info "n/a on Windows (user-profile ACLs protect %APPDATA%/%LOCALAPPDATA%)")]).

(** What is printed, and the exit status. *)
Definition run_doctor (m : Machine) : list Finding * Z :=
  let findings := findings (gather m) (mc_now m) in
  (findings, if decide (worst_level findings = LError) then 1 else 0).
End findings.

(** ** Lemmas *)
Lemma default_config_read : config_of ∅ = Some default_config.
Proof. reflexivity. Qed.

Lemma worst_error l : worst_level l = LError <-> exists f, f ∈ l /\ v_level f.2 = LError.
Proof.
  unfold worst_level. split.
  - destruct (existsb (at_level LError) l) eqn:He; [|by destruct (existsb (at_level LWarn) l)]. intros _. apply existsb_exists in He as (f & Hf & Hl).
    exists f. split; [by apply list_elem_of_In|]. by apply bool_decide_eq_true in Hl.
  - intros (f & Hf & Hl). by rewrite (proj2 (existsb_exists _ _)) by (exists f; split; [by apply list_elem_of_In|by apply bool_decide_eq_true]).
Qed.
Lemma worst_none l : worst_level l <> LError <-> forall f, f ∈ l -> v_level f.2 <> LError.
Proof.
  rewrite worst_error. split; [intros Hn f Hf Hl; apply Hn; by exists f|]. intros Hn (f & Hf & Hl). by destruct (Hn f).
Qed.
Lemma count_zero lvl l : count_level lvl l = 0%nat <-> forall f, f ∈ l -> v_level f.2 <> lvl.
Proof.
  unfold count_level. rewrite length_zero_iff_nil. split.
  - intros He f Hf Hl. assert (Hin : f ∈ List.filter (at_level lvl) l); [|rewrite He in Hin; by apply not_elem_of_nil in Hin].
    apply list_elem_of_In, filter_In. split; [by apply list_elem_of_In|by apply bool_decide_eq_true].
  - intros Hn. destruct (List.filter _ l) as [|f l'] eqn:He; [done|].
    assert (Hin : In f (List.filter (at_level lvl) l)) by (rewrite He; by left).
    apply filter_In in Hin as [Hin%list_elem_of_In Hl%bool_decide_eq_true]. by destruct (Hn f Hin).
Qed.

Lemma key_perms_error present mode : v_level (check_key_perms present mode) = LError <-> present = true /\ Z.land mode WRITABLE <> 0.
Proof.
  unfold check_key_perms. destruct present; cbn [negb]; [|intuition discriminate].
  destruct (Z.eqb_spec (Z.land mode WRITABLE) 0); cbn [negb]; [|by intuition].
  destruct (Z.land mode READABLE =? 0); cbn [negb]; intuition discriminate.
Qed.
Lemma runtime_dir_error present mode uid our :
  v_level (check_runtime_dir present mode uid our) = LError <-> present = true /\ (uid <> our \/ Z.land mode ACCESSIBLE <> 0).
Proof.
  unfold check_runtime_dir. destruct present; cbn [negb]; [|intuition discriminate].
  destruct (Z.eqb_spec uid our); cbn [negb]; [|by intuition].
  destruct (Z.eqb_spec (Z.land mode ACCESSIBLE) 0); cbn [negb]; intuition discriminate.
Qed.
Lemma freshness_error mode state stale bound :
  v_level (check_roster_freshness mode state stale bound) = LError <-> mode = true /\ state = Some "stopped"%string.
Proof.
  unfold check_roster_freshness. destruct mode; simpl; [|naive_solver]. destruct state as [w|]; [|naive_solver].
  destruct (decide (w = "stopped"%string)); [naive_solver|]. assert (Hn : forall v, v_level v <> LError -> v_level v = LError <-> true = true /\ Some w = Some "stopped"%string) by naive_solver.
  apply Hn. repeat case_decide; try done. destruct stale as [age|]; [by destruct (bound <? age)|done].
Qed.
Lemma config_error parse mode org : v_level (check_config parse mode org) = LError <-> parse = false.
Proof. by destruct parse, mode, org. Qed.
Lemma conflict_warns epoch now v : check_identity_conflict epoch now = Some v -> v_level v = LWarn.
Proof. destruct epoch; simpl; [|done]. by intros [= <-]. Qed.

Lemma rate_refused services e : validate_service_rates services = Err e -> exists service, e = ZeroServiceRate service.
Proof.
  unfold validate_service_rates. induction services as [|kv l IH]; simpl; [done|]. unfold ensure at 1.
  destruct (negb _); simpl; [done|]. intros [= <-]. by exists kv.1.
Qed.

(** The word the daemon answers with is that of its gate. *)
Lemma stopped_reported `{E : Ed25519, T : TextEncoding, B : Blake3} gate now cfg r stale bound :
  roster_status gate now cfg = Some r ->
  v_level (check_roster_freshness true (Some (rs_state r)) stale bound) = LError <->
  exists v, g_view gate = Some v /\ gate_effective_state gate now = Some DegradedStopped.
Proof.
  intros Hr. rewrite freshness_error. unfold roster_status in Hr. destruct (g_view gate) as [v|] eqn:Hv.
  - injection Hr as <-. simpl. split.
    + intros (_ & [= Hs]). exists v. split; [done|]. unfold gate_effective_state in *. rewrite Hv in *. simpl in *. f_equal.
      by destruct (effective_state _ _ _ _ _).
    + intros (_ & _ & ->). done.
  - split; [|by intros (? & [=] & _)]. intros (_ & [= Hs]). destruct cfg as [c|]; [|done]. simpl in Hr.
    destruct (i_org_root_pk (c_identity c)); [|done]. injection Hr as <-. done.
Qed.

Section properties.
Context `{RU : RelayUrls, U : Urls} (boot_text : BootError -> string) (built : bool) (encode : Z -> result string Z).

Lemma relays_never_error configured live : v_level (check_relays configured live) <> LError.
Proof. unfold check_relays. destruct live as [live|]; [|done]. destruct (List.filter _ configured); [done|]. by case_decide. Qed.

Definition knobs (net : NetworkCfg) : result BootError NetPlan := _ ← validate_transport_config encode net; net_plan net.

Lemma plan_error net : v_level (check_plan boot_text encode net) = LError <-> is_ok (knobs net) = false.
Proof.
  unfold check_plan, knobs. destruct (validate_transport_config encode net) as [u|e]; simpl; [|done].
  destruct (net_plan net) as [[|r d]|e]; simpl; [| |done].
  - by destruct (_ || _).
  - by repeat case_bool_decide.
Qed.

(** The relay-only knob cannot be honoured: the verdict is about that alone. *)
Definition relay_only_ignored (net : NetworkCfg) : bool :=
  n_relay_only net && (negb built || bool_decide (n_relay_mode net = "disabled"%string)).

Lemma network_error net :
  v_level (check_network boot_text built encode net) = LError <-> relay_only_ignored net = false /\ is_ok (knobs net) = false.
Proof.
  unfold check_network, relay_only_ignored. rewrite <- plan_error.
  destruct (n_relay_only net), built; simpl; try case_bool_decide; simpl; naive_solver.
Qed.

(** A configured relay counts as connected when a connected one reads the same. *)
Lemma relays_exact configured live :
  v_level (check_relays configured (Some live)) = LOk <->
  forall u, u ∈ configured -> exists v r, normalize_relay_url u = Some v /\ r ∈ live /\ ri_connected r = true /\
    default (ri_url r) (normalize_relay_url (ri_url r)) = v.
Proof.
  assert (Ha : forall u, relay_alive live u = true <-> exists v r, normalize_relay_url u = Some v /\ r ∈ live /\ ri_connected r = true /\
    default (ri_url r) (normalize_relay_url (ri_url r)) = v).
  { intros u. unfold relay_alive. destruct (normalize_relay_url u) as [v|]; simpl; [|naive_solver].
    rewrite bool_decide_eq_true. unfold connected_urls. rewrite list_elem_of_fmap. setoid_rewrite list_elem_of_filter. naive_solver. }
  unfold check_relays. setoid_rewrite <- Ha. destruct (List.filter (fun u => negb (relay_alive live u)) configured) as [|u l] eqn:Hd.
  - split; [|done]. intros _ u Hu. destruct (relay_alive live u) eqn:Hal; [done|].
    assert (Hin : In u (List.filter (fun u => negb (relay_alive live u)) configured)) by (apply filter_In; rewrite Hal; split; [by apply list_elem_of_In|done]).
    by rewrite Hd in Hin.
  - split; [by case_decide|]. intros Hall. assert (Hin : In u (List.filter (fun u => negb (relay_alive live u)) configured)) by (rewrite Hd; by left).
    apply filter_In in Hin as [Hin%list_elem_of_In Hal]. by rewrite (Hall u Hin) in Hal.
Qed.

(** The findings that can be errors. *)
Lemma findings_error inp now :
  in_perm_lints_apply inp = true ->
  (exists f, f ∈ findings boot_text built encode inp now /\ v_level f.2 = LError) <->
  in_parse_ok inp = false \/ v_level (check_network boot_text built encode (in_network inp)) = LError \/
  (in_org_root_pinned inp = true /\ in_daemon_roster_state inp = Some "stopped"%string) \/
  (exists k, k ∈ [in_device_key inp; in_user_key inp; in_org_root_key inp; in_invites_file inp] /\ k.1 = true /\ Z.land k.2 WRITABLE <> 0) \/
  (let '(present, mode, uid) := in_runtime_dir inp in present = true /\ (uid <> in_our_uid inp \/ Z.land mode ACCESSIBLE <> 0)).
Proof.
  intros Hu. unfold findings. rewrite Hu. cbn [andb]. destruct (in_runtime_dir inp) as [[present mode] uid]. rewrite <- runtime_dir_error.
  setoid_rewrite <- key_perms_error. rewrite <- (freshness_error _ _ (in_staleness_secs inp) (in_max_staleness_secs inp)),
    <- (config_error _ (in_org_root_pinned inp) (in_has_org_id inp)).
  rewrite <- (Exists_exists (fun f => v_level f.2 = LError)), !Exists_app. rewrite <- (Exists_exists (fun k => v_level (check_key_perms k.1 k.2) = LError)).
  rewrite !Exists_cons, !Exists_nil. cbn [snd key_finding].
  assert (Hrel : Exists (fun f : string * Verdict => v_level f.2 = LError)
    (if bool_decide (n_relay_mode (in_network inp) = "custom"%string) && negb (bool_decide (n_relay_urls (in_network inp) = []))
     then [("relays"%string, check_relays (n_relay_urls (in_network inp)) (in_live_relays inp))] else []) <-> False).
  { destruct (_ && _); [|by rewrite Exists_nil]. rewrite Exists_cons, Exists_nil. cbn [snd]. pose proof (relays_never_error (n_relay_urls (in_network inp)) (in_live_relays inp)). tauto. }
  assert (Hid : Exists (fun f : string * Verdict => v_level f.2 = LError)
    (match check_identity_conflict (in_identity_conflict_epoch inp) now with Some v => [("identity"%string, v)] | None => [] end) <-> False).
  { destruct (check_identity_conflict _ now) as [v|] eqn:Hv; [|by rewrite Exists_nil]. apply conflict_warns in Hv. rewrite Exists_cons, Exists_nil. simpl. rewrite Hv. intuition discriminate. }
  assert (Hinv : Exists (fun f : string * Verdict => v_level f.2 = LError)
    (if (in_invites_file inp).1 then [key_finding "invites" (in_invites_file inp)] else []) <-> v_level (check_key_perms (in_invites_file inp).1 (in_invites_file inp).2) = LError).
  { destruct (in_invites_file inp) as [[] mo]; cbn [fst snd]; [rewrite Exists_cons, Exists_nil; cbn; tauto|]. rewrite Exists_nil. cbn. intuition discriminate. }
  rewrite Hrel, Hid, Hinv.
  assert (Hd : v_level (check_daemon (in_daemon_reachable inp)) <> LError) by by destruct (in_daemon_reachable inp).
  assert (Hr : v_level (check_roster_url (in_org_root_pinned inp) (in_roster_url inp)) <> LError) by by destruct (in_org_root_pinned inp), (in_roster_url inp).
  assert (Hal : v_level (check_allow_principals (in_org_root_pinned inp) (in_bare_allow_entries inp)) <> LError) by by destruct (in_bare_allow_entries inp), (in_org_root_pinned inp).
  clear Hrel Hid Hinv. revert Hd Hr Hal. repeat match goal with |- context [v_level ?v] => generalize (v_level v); intros ? end.
  intros ???. split; intros H; destruct_or! H; solve [contradiction | auto 20].
Qed.

Lemma land_mask mode bits : Z.land bits 511 = bits -> Z.land (Z.land mode 511) bits = Z.land mode bits.
Proof. intros Hb. by rewrite <- Z.land_assoc, (Z.land_comm 511), Hb. Qed.

Lemma stat_mode_bits m path : mc_unix m = true ->
  (stat_mode m path).1 = true /\ Z.land (stat_mode m path).2 WRITABLE <> 0 <->
  exists mode uid, mc_mode m path = Some (mode, uid) /\ Z.land mode WRITABLE <> 0.
Proof.
  intros Hu. unfold stat_mode. rewrite Hu. destruct (mc_mode m path) as [[mode uid]|]; cbn [fst snd].
  - rewrite (land_mask mode WRITABLE) by done. split; [intros [_ ?]; by eauto|]. by intros (? & ? & [= <- <-] & ?).
  - split; [by intros [? _]|by intros (? & ? & ? & _)].
Qed.

Lemma stat_dir_bits m d : mc_unix m = true ->
  (let '(present, mode, uid) := from_option (stat_dir m) (false, 0, 0) d in present = true /\ (uid <> mc_euid m \/ Z.land mode ACCESSIBLE <> 0)) <->
  exists path mode uid, d = Some path /\ mc_mode m path = Some (mode, uid) /\ (uid <> mc_euid m \/ Z.land mode ACCESSIBLE <> 0).
Proof.
  intros Hu. destruct d as [path|]; cbn [from_option]; [|split; [by intros [? _]|by intros (? & ? & ? & ? & _)]]. unfold stat_dir. rewrite Hu.
  destruct (mc_mode m path) as [[mode uid]|] eqn:Hm.
  - rewrite (land_mask mode ACCESSIBLE) by done. split; [intros [_ ?]; by eauto 10|]. intros (? & ? & ? & [= <-] & Hm' & ?). rewrite Hm in Hm'. by injection Hm' as <- <-.
  - split; [by intros [? _]|]. intros (? & ? & ? & [= <-] & Hm' & _). congruence.
Qed.

Definition loaded (m : Machine) : Config := default default_config (ok (mc_config m)).
(** The files whose modes are looked at. *)
Definition secret_paths (m : Machine) : list string :=
  [default (mc_device_key_path m) (i_device_key (c_identity (loaded m))); default (mc_user_key_path m) (i_user_key (c_identity (loaded m)));
   mc_org_root_key_path m; mc_invites_path m].

Lemma gathered m :
  let inp := gather m in
  in_parse_ok inp = is_ok (mc_config m) /\ in_network inp = c_network (loaded m) /\
  in_org_root_pinned inp = bool_decide (is_Some (i_org_root_pk (c_identity (loaded m)))) /\
  in_daemon_roster_state inp = rs_state <$> (mjoin (mc_daemon m) ≫= fst) /\
  [in_device_key inp; in_user_key inp; in_org_root_key inp; in_invites_file inp] = stat_mode m <$> secret_paths m /\
  in_runtime_dir inp = from_option (stat_dir m) (false, 0, 0) (mc_runtime_dir m) /\
  in_our_uid inp = (if mc_unix m then mc_euid m else 0) /\ in_perm_lints_apply inp = mc_unix m.
Proof. unfold gather. by destruct (mc_daemon m) as [[[roster net]|]|]. Qed.

Lemma stopped_answer m : rs_state <$> (mjoin (mc_daemon m) ≫= fst) = Some "stopped"%string <->
  exists roster net, mc_daemon m = Some (Some (Some roster, net)) /\ rs_state roster = "stopped"%string.
Proof.
  split; [|by intros (roster & net & -> & <-)]. destruct (mc_daemon m) as [[[[roster|] net]|]|]; simpl; try done. intros [= Hs]. eauto.
Qed.

Lemma number_first n rest s : (pretty (Z.of_nat n) +:+ rest)%string = s -> exists b l, as_bytes s = b :: l /\ is_ascii_digit b = true.
Proof.
  intros <-. rewrite as_bytes_app. destruct (pretty_nonneg (Z.of_nat n) ltac:(lia)) as (Hd & _ & Hne).
  destruct (as_bytes (pretty (Z.of_nat n))) as [|b l]; [done|]. apply andb_true_iff in Hd as [Hd _]. by exists b, (l ++ as_bytes rest).
Qed.
Lemma summary_clean e w : summary_line e w = "doctor: all checks passed"%string <-> e = 0%nat /\ w = 0%nat.
Proof.
  destruct e as [|e], w as [|w]; unfold summary_line; (split; [|by try intros []]); try done; intros H; exfalso.
  all: change "doctor: all checks passed"%string with ("doctor: " +:+ "all checks passed")%string in H; apply (inj (String.append "doctor: ")) in H.
  all: apply number_first in H as (b & l & Hb & Hd); vm_compute in Hb; injection Hb as <- <-; discriminate Hd.
Qed.

(** The diagnostic exits with an error exactly when the configuration does not load, the
    network knobs are refused, the running daemon says the roster has stopped, somebody else
    can write one of the secrets, or the runtime directory is not this user's alone; its
    JSON says the same, and the summary line says that all checks passed exactly when there
    is neither an error nor a warning. *)
Theorem doctor_exit_exact m :
  mc_unix m = true ->
  let '(found, exit) := run_doctor boot_text built encode m in
  (exit = 1 \/ exit = 0) /\
  (exit = 1 <->
   is_ok (mc_config m) = false \/
   (relay_only_ignored (c_network (loaded m)) = false /\ is_ok (knobs (c_network (loaded m))) = false) \/
   (is_Some (i_org_root_pk (c_identity (loaded m))) /\ exists roster net, mc_daemon m = Some (Some (Some roster, net)) /\ rs_state roster = "stopped"%string) \/
   (exists path mode uid, path ∈ secret_paths m /\ mc_mode m path = Some (mode, uid) /\ Z.land mode WRITABLE <> 0) \/
   (exists path mode uid, mc_runtime_dir m = Some path /\ mc_mode m path = Some (mode, uid) /\ (uid <> mc_euid m \/ Z.land mode ACCESSIBLE <> 0))) /\
  map_get "ok" (match doctor_json found with VObject o => o | _ => [] end) = Some (VBool (bool_decide (exit = 0))) /\
  (last (render_report found) = Some "doctor: all checks passed"%string <-> forall f, f ∈ found -> v_level f.2 <> LError /\ v_level f.2 <> LWarn).
Proof.
  intros Hu. unfold run_doctor. set (found := findings _ _ _ _ _).
  pose proof (findings_error (gather m) (mc_now m)) as Hf. fold found in Hf.
  split; [case_decide; by auto|]. split; [|split].
  - transitivity (worst_level found = LError); [case_decide; split; by try done|].
    destruct (gathered m) as (Hp & Hn & Ho & Hs & Hk & Hr & Hid & Hl). rewrite Hu in Hid, Hl. specialize (Hf Hl).
    rewrite network_error, Hp, Hn, Ho, Hs, Hk, Hr, Hid, stopped_answer, stat_dir_bits, bool_decide_eq_true in Hf by done. rewrite worst_error, Hf.
    assert (Hsec : (exists k, k ∈ stat_mode m <$> secret_paths m /\ k.1 = true /\ Z.land k.2 WRITABLE <> 0) <->
      exists path mode uid, path ∈ secret_paths m /\ mc_mode m path = Some (mode, uid) /\ Z.land mode WRITABLE <> 0).
    { split; [intros (k & (path & -> & Hin)%list_elem_of_fmap & Hb%stat_mode_bits)|intros (path & mode & uid & Hin & Hb)]; [|done|].
      - destruct Hb as (mode & uid & Hb). by exists path, mode, uid.
      - exists (stat_mode m path). split; [by apply list_elem_of_fmap_2|]. apply stat_mode_bits; [done|]. by exists mode, uid. }
    by rewrite Hsec.
  - simpl. do 3 f_equal. apply bool_decide_ext. rewrite count_zero, <- (worst_none found). case_decide; split; by try done.
  - unfold render_report. rewrite last_app. simpl. split.
    + intros [= [He Hw]%summary_clean] f Hin. split; [by apply (proj1 (count_zero LError found) He)|by apply (proj1 (count_zero LWarn found) Hw)].
    + intros Hall. f_equal. apply summary_clean. split; apply count_zero; intros f Hin; by destruct (Hall f Hin).
Qed.

Context `{FA : ForeignAlpns}.

(** C35: the network verdict is an error only of a posture the node does not start in, and it is
    one of every such posture but three: a relay-only knob that cannot be honoured is all it
    speaks of, and neither the services' rates nor the local discovery word is looked at. *)
Theorem doctor_covers_boot cfg services local_starts :
  let net := c_network cfg in
  let verdict := check_network boot_text built encode net in
  (v_level verdict = LError -> is_ok (boot_network encode cfg services local_starts) = false) /\
  (forall e, boot_network encode cfg services local_starts = Err e ->
     v_level verdict = LError \/ relay_only_ignored net = true \/
     (exists service, e = ZeroServiceRate service) \/ e = UnknownMode "local_discovery" (n_local_discovery net)).
Proof.
  intros net verdict. unfold verdict. setoid_rewrite network_error. unfold boot_network, build_endpoint, knobs, validate_transport_config. fold net. split.
  - intros [_ Hk]. destruct (presence_mode net) as [p|]; [|done]. simpl in *. destruct (validate_service_rates services); [|done].
    destruct (local_discovery net); [|done]. simpl. destruct (net_plan net); [|done]. simpl. by destruct (build_transport_config encode net).
  - intros e H. destruct (relay_only_ignored net); [by right; left|]. destruct (presence_mode net) as [p|]; [|by left; split]. simpl in *.
    destruct (validate_service_rates services) as [u|e1] eqn:Hr.
    2: { simpl in H. injection H as ->. do 2 right. left. by apply (rate_refused services). }
    destruct (local_discovery net) as [ld|e1] eqn:Hl; simpl in H.
    + left. split; [done|]. destruct (net_plan net); simpl in *; [|by destruct (build_transport_config encode net)].
      by destruct (build_transport_config encode net).
    + injection H as ->. do 3 right. unfold local_discovery in Hl. repeat case_decide; try done. by injection Hl as <-.
Qed.
End properties.

(** ** Witnesses *)
Module Witness.
Import Boot.Witness.
#[local] Instance plain_relays : RelayUrls :=
  {| RelayUrl := string; relay_parse := Some; url_scheme _ := "https"; url_host u := Some u; url_port _ := None |}.
#[local] Instance plain_urls : Urls := {| Url := string; url_parse := Some |}.

Definition text (e : BootError) : string := "refused".
Definition with_knobs (relay_mode local : string) (relay_only : bool) (services : gmap string ServiceCfg) : Config :=
  {| c_identity := c_identity default_config;
     c_network := {| n_relay_mode := relay_mode; n_relay_urls := []; n_discovery_mode := "default"; n_discovery_urls := []; n_relay_only := relay_only;
       n_presence_mode := "paired"; n_idle_timeout_secs := None; n_keep_alive_secs := None; n_local_discovery := local |};
     c_limits := c_limits default_config; Config.c_roster := Config.c_roster default_config; c_blobs := c_blobs default_config; c_services := services |}.

(** A machine with a running daemon, private keys but for the mode of one of them, and that
    configuration. *)
Definition machine (cfg : Config) (mode : Z) : Machine :=
  {| mc_unix := true; mc_now := 1000; mc_euid := 1000; mc_config := Ok cfg;
     mc_device_key_path := "device.key"; mc_user_key_path := "user.key"; mc_org_root_key_path := "org-root.key"; mc_invites_path := "invites";
     mc_runtime_dir := Some "run"%string;
     mc_mode path := Some (if bool_decide (path = "run"%string) then 448 else if bool_decide (path = "user.key"%string) then mode else 384, 1000);
     mc_confirmed := Ok None; mc_daemon := Some (Some (None, None)) |}.
Definition run (m : Machine) := run_doctor text false encode m.

Example clean_report : last (render_report (run (machine default_config 384)).1) = Some "doctor: all checks passed"%string.
Proof. vm_compute. reflexivity. Qed.
Example loose_key_line : nth 8 (render_report (run (machine default_config 420)).1) ""%string =
  "[WARN] user.key: group/world-readable (mode 0644) — a private key should be 0600; run `chmod 600`"%string.
Proof. vm_compute. reflexivity. Qed.

Lemma doctor_exit_exact_witness : mc_unix (machine default_config 438) = true /\ (run (machine default_config 438)).2 = 1.
Proof.
  split; [reflexivity|]. pose proof (doctor_exit_exact text false encode (machine default_config 438) eq_refl) as H.
  unfold run. destruct (run_doctor text false encode (machine default_config 438)) as [found exit]. destruct H as (_ & Hx & _). cbn [snd].
  apply Hx. do 3 right. left. exists "user.key"%string, 438, 1000. split; [right; left|]. split; [reflexivity|]. discriminate.
Defined.

(** Postures the node refuses to start in, of which the diagnostic says nothing is wrong or
    only warns. *)
Definition misspelt_relay : Config := with_knobs "cusotm" "off" true ∅.
Definition misspelt_discovery : Config := with_knobs "default" "yes" false ∅.
Definition zero_rate : ServiceCfg :=
  {| sc_run := Some ["cat"%string]; sc_socket := None; sc_allow := []; sc_env := ∅; sc_cwd := None; sc_rate_limit_per_min := Some 0 |}.
Definition rated : Config := with_knobs "default" "off" false {["notes"%string := zero_rate]}.

Lemma doctor_covers_boot_witness : relay_only_ignored false (c_network misspelt_relay) = true.
Proof.
  destruct (boot_network encode misspelt_relay [] true) as [r|e] eqn:Hb; [vm_compute in Hb; discriminate Hb|].
  destruct (proj2 (doctor_covers_boot text false encode misspelt_relay [] true) e Hb) as [H|[H|[[s H]|H]]].
  - vm_compute in H. discriminate H.
  - exact H.
  - vm_compute in Hb. injection Hb as <-. discriminate H.
  - vm_compute in Hb. injection Hb as <-. discriminate H.
Defined.

Lemma relay_only_masks :
  is_ok (boot_network encode misspelt_relay [] true) = false /\ (run (machine misspelt_relay 384)).2 = 0.
Proof. split; vm_compute; reflexivity. Qed.
Lemma refused_postures_pass :
  is_ok (boot_network encode misspelt_discovery [] true) = false /\
  is_ok (boot_network encode rated (map_to_list (c_services rated)) true) = false /\
  last (render_report (run (machine misspelt_discovery 384)).1) = Some "doctor: all checks passed"%string /\
  last (render_report (run (machine rated 384)).1) = Some "doctor: all checks passed"%string.
Proof. split_and!; vm_compute; reflexivity. Qed.
End Witness.
