(* ===== verification/Accept.v ===== *)
(** * The accept loop

    [node/src/daemon/accept.rs] and the embedder protocols of [node/src/daemon.rs]: the dispatch
    of one inbound connection by its protocol, the gate and registration every gated arm shares,
    and the set of protocols the endpoint advertises.  The handlers the arms hand a connection to
    are the rendezvous ([Rendezvous]), the session loop ([Session]) and the protocol handlers of
    other crates, which are a type of the model. *)
From stdpp Require Import base list gmap sorting strings.
From Stdlib Require Import ZArith Lia Strings.Byte.
From S2P Require Import Prelude Bytes Json Sorting Externals Validate Identity Limits Registry Service Session Invites Gate Reach Boot Allowlist.

Local Open Scope Z_scope.

Definition CLOSE_UNAUTHORIZED : Z := 401.
Definition NO_LIVE_INVITE_CLOSE : string := "no pairing in progress".
Definition PING_THROTTLE_CLOSE : string := "ping rate limited".

(** The instants at which one dispatch reads the gate; it may be swapped between any two. *)
Inductive Read := AtWatch | AtResolve | AtRosterUser | AtRecheck | AtRevoked.

(** What a connection that is not closed is given to.  The number is its registration. *)
Inductive Served (Handler : Type) :=
| SessionLoop (id : N) (promoted watched : bool)
| InviterSide
| PongReady (v : Value)
| GossipHandler (id : N)
| RosterBlobHandler (id : N)
| AppBlobHandler (id : N)
| AppHandler (h : Handler) (id : N).
Arguments SessionLoop {Handler}.
Arguments InviterSide {Handler}.
Arguments PongReady {Handler}.
Arguments GossipHandler {Handler}.
Arguments RosterBlobHandler {Handler}.
Arguments AppBlobHandler {Handler}.
Arguments AppHandler {Handler}.

Inductive Outcome (Handler : Type) :=
| Dropped
| Closed (code : Z) (reason : string)
| Serving (s : Served Handler).
Arguments Dropped {Handler}.
Arguments Closed {Handler}.
Arguments Serving {Handler}.

Definition registration {Handler} (s : Served Handler) : option N :=
  match s with
  | SessionLoop id _ _ | GossipHandler id | RosterBlobHandler id | AppBlobHandler id | AppHandler _ id => Some id
  | InviterSide | PongReady _ => None
  end.

(** What the loop changes. *)
Record Loop := { l_limits : MeshLimiters; l_registry : ConnRegistry }.
Definition with_limits (m : MeshLimiters) (l : Loop) : Loop := {| l_limits := m; l_registry := l_registry l |}.
Definition with_registry (r : ConnRegistry) (l : Loop) : Loop := {| l_limits := l_limits l; l_registry := r |}.

(** What the arms read of the node besides the gate: the live invites, the knobs, the services
    and which transports this process composed. *)
Record Arms (Handler : Type) := {
  a_invites : LiveInvites;
  a_admit_attested : bool;
  a_presence : PresenceMode;
  a_services : LiveServices;
  a_metadata : string;
  a_gossip : bool;
  a_blobs : bool;
  a_app_blobs : bool;
  a_protocols : gmap bytes Handler }.
Arguments a_invites {Handler}.
Arguments a_admit_attested {Handler}.
Arguments a_presence {Handler}.
Arguments a_services {Handler}.
Arguments a_metadata {Handler}.
Arguments a_gossip {Handler}.
Arguments a_blobs {Handler}.
Arguments a_app_blobs {Handler}.
Arguments a_protocols {Handler}.

(** An accepted connection: its handle, the endpoint its handshake proved and the protocol it
    negotiated. *)
Record Incoming := { in_conn : N; in_remote : EndpointId; in_alpn : bytes }.

Section accept.
Context `{T : TextEncoding, FA : ForeignAlpns, HO : HashOrder} {Handler : Type} (STACK_VERSION : string).
Implicit Types (g : Read -> TrustGate) (l : Loop) (a : Arms Handler) (c : Incoming).

Definition unauthorized : Outcome Handler := Closed CLOSE_UNAUTHORIZED "unauthorized".

Definition gate_and_register (g : Read -> TrustGate) (now : Instant) (blob_conn_limit : bool) (c : Incoming) (l : Loop) :
    (Outcome Handler + N) * Loop :=
  let remote := in_remote c in
  match gate_resolve (g AtResolve) remote with
  | None => (inl unauthorized, l)
  | Some _ =>
      let '(admitted, limits) := if blob_conn_limit then admit_blob_conn_at remote now (l_limits l) else (true, l_limits l) in
      let l := with_limits limits l in
      if negb admitted then (inl (Closed 0 "blob rate limited"), l)
      else
        let roster_user := gate_roster_user (g AtRosterUser) remote in
        match register_checked (in_conn c) remote roster_user (fun eid => gate_should_sever_now (g AtRecheck) eid roster_user) (l_registry l) with
        | Some (id, r) => (inr id, with_registry r l)
        | None => (inl unauthorized, l)
        end
  end.

(** A gated arm: the handler runs with the registration held, or the connection is closed. *)
Definition gated (g : Read -> TrustGate) (now : Instant) (blob_conn_limit : bool) (handler : N -> Served Handler) (c : Incoming) (l : Loop) :
    Outcome Handler * Loop :=
  match gate_and_register g now blob_conn_limit c l with
  | (inr id, l) => (Serving (handler id), l)
  | (inl closed, l) => (closed, l)
  end.

Definition mcp_arm (g : Read -> TrustGate) (c : Incoming) (l : Loop) : Outcome Handler * Loop :=
  let watched := bool_decide (is_Some (gate_resolve (g AtWatch) (in_remote c))) in
  match accept_connection (g AtResolve) (g AtRosterUser) (g AtRecheck) (in_conn c) (in_remote c) (l_registry l) with
  | None => (unauthorized, l)
  | Some (id, promoted, r) => (Serving (SessionLoop id promoted watched), with_registry r l)
  end.

Definition pair_arm (g : Read -> TrustGate) (now : Instant) (a : Arms Handler) (c : Incoming) (l : Loop) : Outcome Handler * Loop :=
  if bool_decide (count (a_invites a) = 0%nat) && negb (a_admit_attested a) then (Closed 0 NO_LIVE_INVITE_CLOSE, l)
  else
    let '(admitted, limits) := admit_pair_accept_at now (l_limits l) in
    let l := with_limits limits l in
    if negb admitted then (Closed 0 "pair rate limited", l)
    else if gate_is_revoked (g AtRevoked) (in_remote c) then (Closed 0 NO_LIVE_INVITE_CLOSE, l)
    else (Serving InviterSide, l).

Definition pong_allowed (mode : PresenceMode) (admitted : list string) : bool :=
  match mode with
  | PresencePaired => true
  | PresenceGranted => negb (bool_decide (admitted = []))
  | PresenceOff => false
  end.

Definition ping_arm (g : Read -> TrustGate) (now : Instant) (a : Arms Handler) (c : Incoming) (l : Loop) : Outcome Handler * Loop :=
  let remote := in_remote c in
  match gate_resolve (g AtResolve) remote with
  | None => (unauthorized, l)
  | Some identity =>
      let mode := a_presence a in
      let admitted := if decide (mode = PresenceOff) then [] else admitted_services (a_services a) identity in
      let '(token, limits) := admit_ping_at remote now (l_limits l) in
      let l := with_limits limits l in
      if negb (pong_allowed mode admitted) then (unauthorized, l)
      else if negb token then (Closed 0 PING_THROTTLE_CLOSE, l)
      else (Serving (PongReady (pong STACK_VERSION (a_metadata a) admitted)), l)
  end.

Definition dispatch (g : Read -> TrustGate) (now : Instant) (a : Arms Handler) (c : Incoming) (l : Loop) : Outcome Handler * Loop :=
  let alpn := in_alpn c in
  if decide (alpn = ALPN_MCP) then mcp_arm g c l
  else if decide (alpn = ALPN_PAIR) then pair_arm g now a c l
  else if decide (alpn = ALPN_PING) then ping_arm g now a c l
  else if decide (alpn = GOSSIP_ALPN) then
    if a_gossip a then gated g now false GossipHandler c l else (Closed 0 "gossip not enabled", l)
  else if decide (alpn = BLOB_ALPN) then
    if a_blobs a then gated g now false RosterBlobHandler c l else (Closed 0 "blobs not enabled", l)
  else if decide (alpn = APP_BLOB_ALPN) then
    if a_app_blobs a then gated g now true AppBlobHandler c l else (Closed 0 "app blobs not enabled", l)
  else
    match a_protocols a !! alpn with
    | Some handler => gated g now false (AppHandler handler) c l
    | None => (Closed 0 "unknown alpn", l)
    end.

(** One turn of the loop: a handshake that failed leaves nothing behind. *)
Definition accept_one (g : Read -> TrustGate) (now : Instant) (a : Arms Handler) (incoming : option Incoming) (l : Loop) : Outcome Handler * Loop :=
  match incoming with
  | None => (Dropped, l)
  | Some c => dispatch g now a c l
  end.

(** The arm returns: the registration it holds is dropped. *)
Definition arm_returns (s : Served Handler) (l : Loop) : Loop :=
  match registration s with
  | Some id => with_registry (deregister id (l_registry l)) l
  | None => l
  end.

Definition swap_services (s : Services) (a : Arms Handler) : Arms Handler :=
  {| a_invites := a_invites a; a_admit_attested := a_admit_attested a; a_presence := a_presence a; a_services := live_store s (a_services a);
     a_metadata := a_metadata a; a_gossip := a_gossip a; a_blobs := a_blobs a; a_app_blobs := a_app_blobs a; a_protocols := a_protocols a |}.

(** ** Embedder protocols *)

(** [bound_alpns] is set once at boot; [advertised] is what the endpoint was told last. *)
Record Protocols := { p_bound : option (list bytes); p_handlers : gmap bytes Handler; p_advertised : list bytes }.
Inductive AlpnRefusal := EmptyAlpn | BuiltInAlpn | ReservedAlpn.

Definition rebind_alpns (p : Protocols) : Protocols :=
  {| p_bound := p_bound p; p_handlers := p_handlers p;
     p_advertised := default (alpns_for true) (p_bound p) ++ (iter (p_handlers p)).*1 |}.

Definition register_app_protocol (alpn : bytes) (handler : Handler) (p : Protocols) : result AlpnRefusal Protocols :=
  if decide (alpn = []) then Err EmptyAlpn
  else if decide (alpn ∈ alpns_for true) then Err BuiltInAlpn
  else if bool_decide (as_bytes "mcpmesh/" `prefix_of` alpn) then Err ReservedAlpn
  else Ok (rebind_alpns {| p_bound := p_bound p; p_handlers := <[alpn := handler]> (p_handlers p); p_advertised := p_advertised p |}).

Definition set_bound_alpns (alpns : list bytes) (p : Protocols) : Protocols :=
  {| p_bound := Some (default alpns (p_bound p)); p_handlers := p_handlers p; p_advertised := p_advertised p |}.

Definition with_protocols (p : Protocols) (a : Arms Handler) : Arms Handler :=
  {| a_invites := a_invites a; a_admit_attested := a_admit_attested a; a_presence := a_presence a; a_services := a_services a;
     a_metadata := a_metadata a; a_gossip := a_gossip a; a_blobs := a_blobs a; a_app_blobs := a_app_blobs a; a_protocols := p_handlers p |}.
End accept.

(** The protocols of a running node: what boot bound, then registrations. *)
Inductive protocols_reachable `{FA : ForeignAlpns, HO : HashOrder} {Handler} : @Protocols Handler -> Prop :=
| pr_boot roster_mode : protocols_reachable (set_bound_alpns (alpns_for roster_mode)
    {| p_bound := None; p_handlers := ∅; p_advertised := alpns_for roster_mode |})
| pr_register p alpn h p' : protocols_reachable p -> register_app_protocol alpn h p = Ok p' -> protocols_reachable p'.

(** The last instant at which the arm of a protocol asks the gate. *)
Definition last_read (alpn : bytes) : Read :=
  if decide (alpn = ALPN_PAIR) then AtRevoked else if decide (alpn = ALPN_PING) then AtResolve else AtRecheck.

(** ** Lemmas *)
Section lemmas.
Context `{T : TextEncoding, FA : ForeignAlpns, HO : HashOrder} {Handler : Type} (STACK_VERSION : string).
Implicit Types (g : Read -> TrustGate) (l : Loop) (a : Arms Handler) (c : Incoming) (s : Served Handler).

(** A connection that is registered: resolved, not to be severed, and in the registry with the
    endpoint and the discriminator a later pass decides on. *)
Definition held g c id l l' : Prop :=
  is_Some (gate_resolve (g AtResolve) (in_remote c)) /\
  gate_should_sever_now (g AtRecheck) (in_remote c) (gate_roster_user (g AtRosterUser) (in_remote c)) = false /\
  id = reg_seq (l_registry l) /\
  reg_inner (l_registry l') = <[id := {| t_endpoint_id := in_remote c; t_roster_user := gate_roster_user (g AtRosterUser) (in_remote c);
                                        t_admitted := ∅; t_conn := in_conn c |}]> (reg_inner (l_registry l)).

Lemma gate_and_register_cases g now lim c l r l' :
  gate_and_register (Handler := Handler) g now lim c l = (r, l') ->
  match r with
  | inr id => held g c id l l'
  | inl o => (exists code reason, o = Closed code reason) /\ l_registry l' = l_registry l /\
      (gate_resolve (g AtResolve) (in_remote c) = None -> o = unauthorized /\ l' = l)
  end.
Proof.
  unfold gate_and_register. destruct (gate_resolve (g AtResolve) (in_remote c)) as [i|] eqn:Hi.
  2: { intros [= <- <-]. split_and!; [unfold unauthorized; eauto|done..]. }
  destruct lim; [destruct (admit_blob_conn_at _ _ _) as [[] m]|]; simpl;
    try (intros [= <- <-]; split_and!; [eauto|done|done]);
    (destruct (register_checked _ _ _ _ _) as [[id r']|] eqn:Hr; intros [= <- <-];
      [apply register_checked_Some in Hr as (Hs & -> & _ & Hm); split_and!; [by eexists|done..]|split_and!; [unfold unauthorized; eauto|done|done]]).
Qed.

Lemma gated_cases g now lim h c l o l' :
  gated g now lim h c l = (o, l') ->
  (exists id, o = @Serving Handler (h id) /\ held g c id l l') \/
  ((exists code reason, o = Closed code reason) /\ l_registry l' = l_registry l /\
   (gate_resolve (g AtResolve) (in_remote c) = None -> o = unauthorized /\ l' = l)).
Proof.
  unfold gated. destruct (gate_and_register _ _ _ _ _) as [r l1] eqn:Hg. apply gate_and_register_cases in Hg.
  destruct r as [closed|id]; intros [= <- <-]; [by right|left; eauto].
Qed.

Lemma mcp_arm_cases g c l o l' :
  mcp_arm g c l = (o, l') ->
  (exists id b w, o = @Serving Handler (SessionLoop id b w) /\ held g c id l l') \/
  (o = unauthorized /\ l' = l).
Proof.
  unfold mcp_arm. destruct (accept_connection _ _ _ _ _ _) as [[[id b] r]|] eqn:Ha; intros [= <- <-]; [left|by right].
  apply accept_connection_Some in Ha as (Hi & _ & (Hs & -> & _ & Hm)%register_checked_Some).
  eexists _, _, _. split; [done|]. by split_and!.
Qed.

Lemma mcp_arm_unresolved g c l :
  gate_resolve (g AtResolve) (in_remote c) = None -> mcp_arm g c l = (@unauthorized Handler, l).
Proof. intros Hn. unfold mcp_arm, accept_connection. by rewrite Hn. Qed.
Lemma gated_unresolved g now lim h c l :
  gate_resolve (g AtResolve) (in_remote c) = None -> gated g now lim h c l = (@unauthorized Handler, l).
Proof. intros Hn. unfold gated, gate_and_register. by rewrite Hn. Qed.

(** A dispatch is one of the gated arms, the pair arm, the ping arm or a plain close. *)
Inductive arm_of g now a c l : Outcome Handler * Loop -> Prop :=
| arm_mcp : in_alpn c = ALPN_MCP -> arm_of g now a c l (mcp_arm g c l)
| arm_pair : in_alpn c = ALPN_PAIR -> arm_of g now a c l (pair_arm g now a c l)
| arm_ping : in_alpn c = ALPN_PING -> arm_of g now a c l (ping_arm STACK_VERSION g now a c l)
| arm_gated lim h : in_alpn c <> ALPN_PAIR -> in_alpn c <> ALPN_PING -> (forall id, registration (h id) = Some id) ->
    arm_of g now a c l (gated g now lim h c l)
| arm_closed reason : in_alpn c <> ALPN_PAIR -> in_alpn c <> ALPN_PING -> arm_of g now a c l (Closed 0 reason, l).
Lemma dispatch_arm g now a c l : arm_of g now a c l (dispatch STACK_VERSION g now a c l).
Proof.
  unfold dispatch. destruct (decide (in_alpn c = ALPN_MCP)); [by constructor|].
  destruct (decide (in_alpn c = ALPN_PAIR)); [by constructor|]. destruct (decide (in_alpn c = ALPN_PING)); [by constructor|].
  repeat case_decide; [destruct (a_gossip a)|destruct (a_blobs a)|destruct (a_app_blobs a)|destruct (a_protocols a !! _)]; by constructor.
Qed.

Lemma pair_arm_cases g now a c l o l' :
  pair_arm g now a c l = (o, l') ->
  l_registry l' = l_registry l /\
  (o = Closed 0 NO_LIVE_INVITE_CLOSE \/ o = Closed 0 "pair rate limited" \/
   o = Serving InviterSide /\ gate_is_revoked (g AtRevoked) (in_remote c) = false /\
     (count (a_invites a) <> 0%nat \/ a_admit_attested a = true) /\ (admit_pair_accept_at now (l_limits l)).1 = true).
Proof.
  unfold pair_arm. destruct (bool_decide _ && negb _) eqn:Hw; [intros [= <- <-]; auto|].
  destruct (admit_pair_accept_at _ _) as [[] m]; simpl; [|intros [= <- <-]; auto].
  destruct (gate_is_revoked _ _); intros [= <- <-]; [auto|]. split; [done|]. right; right. split_and!; [done..| |done].
  apply andb_false_iff in Hw as [Hw%bool_decide_eq_false|Hw%negb_false_iff]; auto.
Qed.

Lemma ping_arm_cases g now a c l o l' :
  ping_arm STACK_VERSION g now a c l = (o, l') ->
  l_registry l' = l_registry l /\
  match gate_resolve (g AtResolve) (in_remote c) with
  | None => o = unauthorized /\ l' = l
  | Some identity =>
      let admitted := if decide (a_presence a = PresenceOff) then [] else admitted_services (a_services a) identity in
      l_limits l' = (admit_ping_at (in_remote c) now (l_limits l)).2 /\
      o = if pong_allowed (a_presence a) admitted then
            if (admit_ping_at (in_remote c) now (l_limits l)).1 then Serving (PongReady (pong STACK_VERSION (a_metadata a) admitted))
            else Closed 0 PING_THROTTLE_CLOSE
          else unauthorized
  end.
Proof.
  unfold ping_arm. destruct (gate_resolve _ _) as [i|]; [|by intros [= <- <-]].
  destruct (admit_ping_at _ _ _) as [b m]; simpl. destruct (pong_allowed _ _); simpl; [destruct b; simpl|]; by intros [= <- <-].
Qed.
End lemmas.

Lemma pong_allowed_spec mode admitted :
  pong_allowed mode admitted = true <-> mode = PresencePaired \/ mode = PresenceGranted /\ exists name, name ∈ admitted.
Proof.
  destruct mode; simpl; [naive_solver| |naive_solver]. rewrite negb_true_iff, bool_decide_eq_false. split.
  - intros Hn. right. split; [done|]. destruct admitted as [|x ?]; [done|]. exists x. by left.
  - intros [?|[_ [x Hx]]]; [done|]. by intros ->%elem_of_nil_inv || (intros ->; by apply elem_of_nil in Hx).
Qed.

Lemma elem_of_alpns_for `{FA : ForeignAlpns} b alpn :
  alpn ∈ alpns_for b <-> alpn ∈ [ALPN_MCP; ALPN_PAIR; ALPN_PING; APP_BLOB_ALPN] \/ b = true /\ (alpn = GOSSIP_ALPN \/ alpn = BLOB_ALPN).
Proof.
  unfold alpns_for. rewrite elem_of_app. destruct b.
  - rewrite (elem_of_cons [BLOB_ALPN]), list_elem_of_singleton. naive_solver.
  - rewrite elem_of_nil. naive_solver.
Qed.

Section protocols.
Context `{T : TextEncoding, FA : ForeignAlpns, HO : HashOrder} {Handler : Type} (STACK_VERSION : string).
Implicit Types (g : Read -> TrustGate) (l : Loop) (a : Arms Handler) (c : Incoming) (p : @Protocols Handler).

Record protocols_ok p : Prop := {
  po_bound : exists b, p_bound p = Some (alpns_for b);
  po_names alpn : is_Some (p_handlers p !! alpn) -> alpn ∉ alpns_for true /\ alpn <> [] /\ ~ as_bytes "mcpmesh/" `prefix_of` alpn;
  po_advertised alpn : alpn ∈ p_advertised p <-> alpn ∈ default [] (p_bound p) \/ is_Some (p_handlers p !! alpn) }.

Lemma register_app_protocol_Ok alpn h p p' :
  register_app_protocol alpn h p = Ok p' <->
  alpn <> [] /\ alpn ∉ alpns_for true /\ ~ as_bytes "mcpmesh/" `prefix_of` alpn /\
  p' = rebind_alpns {| p_bound := p_bound p; p_handlers := <[alpn := h]> (p_handlers p); p_advertised := p_advertised p |}.
Proof. unfold register_app_protocol. repeat case_decide; try case_bool_decide; split; try naive_solver congruence. Qed.

Lemma elem_of_rebound p alpn :
  alpn ∈ p_advertised (rebind_alpns p) <-> alpn ∈ default (alpns_for true) (p_bound p) \/ is_Some (p_handlers p !! alpn).
Proof.
  simpl. rewrite elem_of_app, iter_perm, list_elem_of_fmap. split; (intros [?|Hin]; [by left|right]).
  - destruct Hin as ([k h] & -> & Hin%elem_of_map_to_list). by exists h.
  - destruct Hin as [h Hin]. exists (alpn, h). by rewrite elem_of_map_to_list.
Qed.

Lemma protocols_reachable_ok p : protocols_reachable p -> protocols_ok p.
Proof.
  induction 1 as [b|p alpn h p' _ [[b Hb] Hn Ha] (Hne & Hnin & Hpre & ->)%register_app_protocol_Ok].
  - split; simpl; [by exists b|by intros ? [? ?]|]. intros x. rewrite lookup_empty. split; [by left|by intros [?|[? ?]]].
  - split; [by exists b| |].
    + simpl. intros x. rewrite lookup_insert_is_Some. intros [<-|[_ Hx]]; [by split_and!|by apply Hn].
    + intros x. rewrite elem_of_rebound. simpl. by rewrite Hb.
Qed.

(** The protocols of a reachable node are neither a built-in nor shadowed by one. *)
Lemma dispatch_app g now a c l p h :
  protocols_reachable p -> p_handlers p !! in_alpn c = Some h ->
  dispatch STACK_VERSION g now (with_protocols p a) c l = gated g now false (AppHandler h) c l.
Proof.
  intros [_ Hn _]%protocols_reachable_ok Hh. destruct (Hn (in_alpn c)) as [Hnin _]; [by eexists|].
  rewrite elem_of_alpns_for in Hnin. unfold dispatch. rewrite !decide_False by (intros Heq; apply Hnin; rewrite Heq; set_solver).
  simpl. by rewrite Hh.
Qed.

Lemma dispatch_built_in g now a c l p :
  in_alpn c ∈ alpns_for true -> dispatch STACK_VERSION g now (with_protocols p a) c l = dispatch STACK_VERSION g now a c l.
Proof.
  rewrite elem_of_alpns_for, !elem_of_cons, elem_of_nil. unfold dispatch. intros Hb. repeat case_decide; try done. exfalso. naive_solver.
Qed.
End protocols.

(** ** Properties *)
Section properties.
Context `{T : TextEncoding, FA : ForeignAlpns, HO : HashOrder} {Handler : Type} (STACK_VERSION : string).
Implicit Types (g : Read -> TrustGate) (l : Loop) (a : Arms Handler) (c : Incoming) (s : Served Handler).

(** A stranger is cheap and learns nothing.  On every protocol but pairing, a connection from
    an endpoint the gate does not resolve is closed; it allocates no rate bucket, spends no token
    and leaves no registration; and the close it sees is the one every other stranger sees on
    that protocol, so nothing about who it is shows. *)
Theorem strangers_stay_cheap g now a c c' l :
  gate_resolve (g AtResolve) (in_remote c) = None -> in_alpn c <> ALPN_PAIR ->
  gate_resolve (g AtResolve) (in_remote c') = None -> in_alpn c' = in_alpn c ->
  exists code reason,
    accept_one STACK_VERSION g now a (Some c) l = (Closed code reason, l) /\
    accept_one STACK_VERSION g now a (Some c') l = (Closed code reason, l).
Proof.
  intros Hn Hp Hn' Ha. simpl. unfold dispatch. rewrite Ha.
  unfold ping_arm. rewrite !mcp_arm_unresolved, !gated_unresolved, Hn, Hn' by done. unfold unauthorized.
  destruct (decide (in_alpn c = ALPN_PAIR)); [done|].
  repeat case_decide; [| |destruct (a_gossip a)|destruct (a_blobs a)|destruct (a_app_blobs a)|destruct (a_protocols a !! _)];
    rewrite ?gated_unresolved by done; eauto.
Qed.

(** Whatever a connection is handed to, a revocation still reaches.  A handler that runs on a
    registration runs for an endpoint the gate resolved and would not have severed at its last
    look; the registry holds the connection under that endpoint and the roster identity it was
    resolved with, so every later pass that names either closes it, until the handler has
    returned.  What runs without a registration is the pairing ceremony, for an endpoint not
    revoked, and one pong, for an endpoint the gate resolved. *)
Theorem served_is_severable g now a inc l s l' :
  accept_one STACK_VERSION g now a inc l = (Serving s, l') ->
  exists c, inc = Some c /\
  match registration s with
  | Some id =>
      is_Some (gate_resolve (g AtResolve) (in_remote c)) /\
      gate_should_sever_now (g AtRecheck) (in_remote c) (gate_roster_user (g AtRosterUser) (in_remote c)) = false /\
      (forall p : EndpointId -> option string -> bool, p (in_remote c) (gate_roster_user (g AtRosterUser) (in_remote c)) = true ->
         in_conn c ∈ sever_matching p (l_registry l')) /\
      (forall (targets : EndpointId -> bool) principals, targets (in_remote c) = true ->
         in_conn c ∈ sever_matching_admitted targets principals (l_registry l')) /\
      reg_inner (l_registry (arm_returns s l')) !! id = None
  | None =>
      l_registry l' = l_registry l /\
      ((s = InviterSide /\ in_alpn c = ALPN_PAIR /\ gate_is_revoked (g AtRevoked) (in_remote c) = false) \/
       (exists v, s = PongReady v) /\ in_alpn c = ALPN_PING /\ is_Some (gate_resolve (g AtResolve) (in_remote c)))
  end.
Proof.
  destruct inc as [c|]; [|done]. simpl. intros Hd. exists c. split; [done|].
  assert (Hheld : forall id, registration s = Some id -> held g c id l l' ->
    is_Some (gate_resolve (g AtResolve) (in_remote c)) /\
    gate_should_sever_now (g AtRecheck) (in_remote c) (gate_roster_user (g AtRosterUser) (in_remote c)) = false /\
    (forall p : EndpointId -> option string -> bool, p (in_remote c) (gate_roster_user (g AtRosterUser) (in_remote c)) = true ->
       in_conn c ∈ sever_matching p (l_registry l')) /\
    (forall (targets : EndpointId -> bool) principals, targets (in_remote c) = true ->
       in_conn c ∈ sever_matching_admitted targets principals (l_registry l')) /\
    reg_inner (l_registry (arm_returns s l')) !! id = None).
  { intros id Hid (Hi & Hs & _ & Hm). split_and!; [done..| | |].
    - intros p Hp. apply elem_of_sever_matching. eexists id, _. rewrite Hm, lookup_insert_eq. by split_and!.
    - intros t ps Ht. apply elem_of_sever_matching_admitted. eexists id, _. rewrite Hm, lookup_insert_eq. split_and!; [done..|]. by left.
    - unfold arm_returns. rewrite Hid. simpl. by rewrite lookup_delete_eq. }
  pose proof (dispatch_arm STACK_VERSION g now a c l) as Harm. rewrite Hd in Harm. inversion Harm as [Ha Heq|Ha Heq|Ha Heq|lim h _ _ Hh Heq|]; clear Harm.
  - apply mcp_arm_cases in Heq as [(id & b & w & [= ->] & Hk)|[? _]]; [|done]. by apply Hheld.
  - apply pair_arm_cases in Heq as (Hr & [?|[?|([= ->] & Hrev & _)]]); [done..|]. simpl. split; [done|]. by left.
  - apply ping_arm_cases in Heq as (Hr & Hc). destruct (gate_resolve _ _) as [i|] eqn:Hi; [|by destruct Hc].
    destruct Hc as [_ Ho]. destruct (pong_allowed _ _); [|done]. destruct (_.1); [|done]. injection Ho as ->. simpl. split; [done|]. right. eauto.
  - apply gated_cases in Heq as [(id & [= ->] & Hk)|((code & reason & ?) & _)]; [|done]. rewrite Hh. by apply Hheld.
Qed.

(** A revoked endpoint is served nothing.  Whatever the policy behind the gate, a connection
    from an endpoint that is revoked by the time its arm last asks the gate is closed and leaves
    no registration, on every protocol, pairing included; and there the close it sees is the one
    a node with no live invite answers with, or the one everybody sees who comes too fast. *)
Theorem revoked_served_nothing g now a c l o l' :
  (forall r, GateLaws (g r)) ->
  gate_is_revoked (g (last_read (in_alpn c))) (in_remote c) = true ->
  gate_roster_user (g AtRosterUser) (in_remote c) = gate_roster_user (g AtRecheck) (in_remote c) ->
  accept_one STACK_VERSION g now a (Some c) l = (o, l') ->
  l_registry l' = l_registry l /\ (exists code reason, o = Closed code reason) /\
  (in_alpn c = ALPN_PAIR -> o = Closed 0 NO_LIVE_INVITE_CLOSE \/ o = Closed 0 "pair rate limited").
Proof.
  intros HL Hrev Hru Hd. simpl in Hd. unfold last_read in Hrev.
  assert (Hnot : forall id, held g c id l l' -> in_alpn c <> ALPN_PAIR -> in_alpn c <> ALPN_PING -> False).
  { intros id (_ & Hs & _) Hp Hq. rewrite !decide_False in Hrev by done.
    rewrite (gate_revoked_severs _ _ Hrev Hru) in Hs. done. }
  pose proof (dispatch_arm STACK_VERSION g now a c l) as Harm. rewrite Hd in Harm. inversion Harm as [Ha Heq|Ha Heq|Ha Heq|lim h Hp Hq _ Heq|reason Hp Hq]; clear Harm.
  - rewrite Ha in Hnot. apply mcp_arm_cases in Heq as [(id & b & w & -> & Hk)|[-> ->]]; [by destruct (Hnot id)|].
    unfold unauthorized. split_and!; [done|eauto|by rewrite Ha].
  - rewrite Ha, decide_True in Hrev by done. apply pair_arm_cases in Heq as (Hr & Ho). split; [done|].
    destruct Ho as [->|[->|(_ & Hrev' & _)]]; [eauto..|congruence].
  - rewrite Ha in Hrev. simpl in Hrev. apply ping_arm_cases in Heq as (Hr & Hc).
    rewrite (gate_revoked_denies _ Hrev) in Hc. destruct Hc as [-> ->]. unfold unauthorized. split_and!; [done|eauto|by rewrite Ha].
  - apply gated_cases in Heq as [(id & -> & Hk)|(Hc & Hr & _)]; [by destruct (Hnot id)|]. by split_and!.
  - split_and!; [done|eauto|done].
Qed.

(** Presence is what its policy says.  A pong goes out exactly to an endpoint the gate
    resolves, that has a token left, and that the mode lets know: any pair, one a service admits
    right now, or nobody.  A peer that is refused it by the mode sees what a stranger sees, but
    its token is spent all the same. *)
Theorem pong_policy g now a c l o l' :
  in_alpn c = ALPN_PING -> accept_one STACK_VERSION g now a (Some c) l = (o, l') ->
  (forall v, o = Serving (PongReady v) <->
     exists i, gate_resolve (g AtResolve) (in_remote c) = Some i /\
       (a_presence a = PresencePaired \/ a_presence a = PresenceGranted /\ exists name, name ∈ caller_admitted_services (a_services a) i) /\
       (admit_ping_at (in_remote c) now (l_limits l)).1 = true /\
       v = pong STACK_VERSION (a_metadata a) (admitted_services (a_services a) i)) /\
  (forall i, gate_resolve (g AtResolve) (in_remote c) = Some i -> l_limits l' = (admit_ping_at (in_remote c) now (l_limits l)).2) /\
  (a_presence a = PresenceOff -> o = unauthorized) /\
  (a_presence a = PresenceGranted ->
     (forall i, gate_resolve (g AtResolve) (in_remote c) = Some i -> forall name, name ∉ caller_admitted_services (a_services a) i) -> o = unauthorized).
Proof.
  intros Ha Hd. simpl in Hd. unfold dispatch in Hd. rewrite Ha in Hd. simpl in Hd. apply ping_arm_cases in Hd as [_ Hc].
  destruct (gate_resolve _ _) as [i|]; [|destruct Hc as [-> ->]; split_and!; try done; intros v; split; [done|by intros (i & ? & _)]].
  destruct Hc as [Hl Ho]. set (adm := if decide _ then _ else _) in Ho.
  assert (Hadm : pong_allowed (a_presence a) adm = true <->
    a_presence a = PresencePaired \/ a_presence a = PresenceGranted /\ exists name, name ∈ caller_admitted_services (a_services a) i).
  { assert (Hin : forall x, x ∈ admitted_services (a_services a) i <-> x ∈ caller_admitted_services (a_services a) i)
      by (intros x; unfold admitted_services; by rewrite merge_sort_Permutation).
    rewrite pong_allowed_spec. unfold adm. setoid_rewrite <- Hin. destruct (a_presence a); simpl; naive_solver. }
  assert (Hv : a_presence a <> PresenceOff -> adm = admitted_services (a_services a) i) by (intros ?; unfold adm; by rewrite decide_False).
  split_and!; [|by intros ? [= <-]| |].
  - intros v. split.
    + intros ->. exists i. destruct (pong_allowed _ adm) eqn:Hp; [|done]. destruct (admit_ping_at _ _ _) as [[] m]; [|done].
      injection Ho as ->. pose proof (proj1 Hadm eq_refl) as Hm. split_and!; [done..|]. rewrite Hv by (destruct Hm as [->|[-> _]]; done). done.
    + intros (? & [= <-] & Hm & Ht & ->). rewrite Ho, Ht, (proj2 Hadm Hm), Hv by (destruct Hm as [->|[-> _]]; done). done.
  - intros Hoff. rewrite Ho, Hoff. done.
  - intros Hgr Hnone. destruct (pong_allowed _ adm) eqn:Hp; [|done].
    destruct (proj1 Hadm eq_refl) as [?|[_ [name Hname]]]; [congruence|by destruct (Hnone i eq_refl name)].
Qed.

(** Embedder protocols neither shadow nor are shadowed.  On any node that has booted and
    accepted registrations, the endpoint advertises exactly the protocols boot bound and the
    registered ones; every registered protocol reaches its own handler, through the same gate
    and registration as the rest; and no registration changes what happens on any built-in
    protocol. *)
Theorem app_protocols_spec p g now a c l :
  protocols_reachable p ->
  (exists roster_mode, forall alpn, alpn ∈ p_advertised p <-> alpn ∈ alpns_for roster_mode \/ is_Some (p_handlers p !! alpn)) /\
  (forall h, p_handlers p !! in_alpn c = Some h ->
     accept_one STACK_VERSION g now (with_protocols p a) (Some c) l = gated g now false (AppHandler h) c l) /\
  (in_alpn c ∈ alpns_for true ->
     accept_one STACK_VERSION g now (with_protocols p a) (Some c) l = accept_one STACK_VERSION g now a (Some c) l) /\
  (forall alpn h, (exists p', register_app_protocol alpn h p = Ok p') <->
     alpn <> [] /\ alpn ∉ alpns_for true /\ ~ as_bytes "mcpmesh/" `prefix_of` alpn).
Proof.
  intros Hp. split_and!.
  - destruct (protocols_reachable_ok _ Hp) as [[b Hb] _ Ha]. exists b. intros x. by rewrite Ha, Hb.
  - intros h Hh. by apply dispatch_app.
  - intros Hb. by apply dispatch_built_in.
  - intros x h. setoid_rewrite register_app_protocol_Ok. naive_solver.
Qed.
End properties.

(** ** Witnesses *)
Module Witness.
Import Toy ToyRows Sample Limits.Witness Boot.Witness.

(** The sample roster is installed and one service admits Alice, whose laptop dials. *)
Definition gates (s : PeerStore) : Read -> TrustGate := fun _ =>
  composed_gate healthy 2000 {| c_roster := install view (with_freshness 60 600); c_pairs := s |}.
Definition notes : Services :=
  {["notes"%string := {| se_backend := 0; se_allow := ["alice"%string]; se_kind := KRun; se_ephemeral := false |}]}.
Definition arms : Arms unit :=
  {| a_invites := new_invites; a_admit_attested := true; a_presence := PresenceGranted; a_services := new_live notes; a_metadata := "";
     a_gossip := false; a_blobs := true; a_app_blobs := true; a_protocols := ∅ |}.
Definition l0 : Loop := {| l_limits := from_config 60 0 0; l_registry := new_registry |}.
Definition revoked_row (e : EndpointId) : RevokedEntry :=
  {| re_endpoint_id := e; re_revoked_at := 5; re_reason := None; re_source := "local"; re_signer_user_id := None; re_issued_at := None |}.
Definition dial (alpn : bytes) (e : EndpointId) : Incoming := {| in_conn := 7; in_remote := e; in_alpn := alpn |}.
Definition stranger (n : Byte.byte) : EndpointId := key_fill n.

Lemma strangers_stay_cheap_witness : exists code reason,
  accept_one "1" (gates empty_store) 0 arms (Some (dial APP_BLOB_ALPN (stranger Byte.x70))) l0 = (Closed code reason, l0).
Proof.
  destruct (strangers_stay_cheap "1" (gates empty_store) 0 arms (dial APP_BLOB_ALPN (stranger Byte.x70)) (dial APP_BLOB_ALPN (stranger Byte.x71)) l0)
    as (code & reason & H & _); [vm_compute; reflexivity|intros H; discriminate H|vm_compute; reflexivity|reflexivity|].
  exists code, reason. exact H.
Defined.

Definition served : Outcome unit * Loop := accept_one "1" (gates empty_store) 0 arms (Some (dial ALPN_MCP alice_ep)) l0.
Lemma served_ok : served.1 = Serving (SessionLoop 0 true true).
Proof. vm_compute. reflexivity. Qed.
Lemma served_is_severable_witness : in_conn (dial ALPN_MCP alice_ep) ∈ sever_matching (fun _ _ => true) (l_registry served.2).
Proof.
  destruct (served_is_severable "1" (gates empty_store) 0 arms (Some (dial ALPN_MCP alice_ep)) l0 (SessionLoop 0 true true) served.2)
    as (c & [= <-] & (_ & _ & H & _)).
  - rewrite <- served_ok. unfold served. destruct (accept_one _ _ _ _ _ _). reflexivity.
  - apply H. reflexivity.
Defined.

(** Alice's laptop is revoked here, by its row, whatever the roster says. *)
Definition revoking : PeerStore :=
  match revoke healthy empty_store (revoked_row alice_ep) with Ok s => s | Err _ => empty_store end.
Definition turned_away : Outcome unit * Loop := accept_one "1" (gates revoking) 0 arms (Some (dial ALPN_PAIR alice_ep)) l0.
Lemma revoked_served_nothing_witness : turned_away.1 = Closed 0 NO_LIVE_INVITE_CLOSE \/ turned_away.1 = Closed 0 "pair rate limited".
Proof.
  destruct (revoked_served_nothing "1" (gates revoking) 0 arms (dial ALPN_PAIR alice_ep) l0 turned_away.1 turned_away.2) as (_ & _ & Hp).
  - intros r. apply composed_gate_laws.
  - vm_compute. reflexivity.
  - reflexivity.
  - unfold turned_away. destruct (accept_one _ _ _ _ _ _). reflexivity.
  - apply Hp. reflexivity.
Defined.

Lemma pong_policy_witness : (accept_one "1" (gates empty_store) 0 arms (Some (dial ALPN_PING alice_ep)) l0).1 = Serving (PongReady (pong "1" "" ["notes"%string])).
Proof.
  destruct (pong_policy "1" (gates empty_store) 0 arms (dial ALPN_PING alice_ep) l0
    (accept_one "1" (gates empty_store) 0 arms (Some (dial ALPN_PING alice_ep)) l0).1
    (accept_one "1" (gates empty_store) 0 arms (Some (dial ALPN_PING alice_ep)) l0).2 eq_refl) as [H _].
  - destruct (accept_one _ _ _ _ _ _). reflexivity.
  - apply H. exists {| id_endpoint := alice_ep; id_name := "alice"; id_user_id := Some "alice"%string; id_groups := ["eng"%string] |}.
    split; [vm_compute; reflexivity|]. split; [right; split; [reflexivity|exists "notes"%string; vm_compute; left]|].
    split; vm_compute; reflexivity.
Defined.

(** An embedder registers a chat protocol. *)
Definition chat : bytes := as_bytes "app/chat/1".
Definition booted_protocols : @Protocols unit :=
  set_bound_alpns (alpns_for true) {| p_bound := None; p_handlers := ∅; p_advertised := alpns_for true |}.
Definition with_chat : @Protocols unit :=
  match register_app_protocol chat tt booted_protocols with Ok p => p | Err _ => booted_protocols end.
Lemma with_chat_reachable : protocols_reachable with_chat.
Proof. apply (pr_register booted_protocols chat tt); [apply pr_boot|reflexivity]. Qed.
Lemma app_protocols_spec_witness :
  accept_one "1" (gates empty_store) 0 (with_protocols with_chat arms) (Some (dial chat alice_ep)) l0 =
  gated (gates empty_store) 0 false (AppHandler tt) (dial chat alice_ep) l0.
Proof.
  destruct (app_protocols_spec "1" with_chat (gates empty_store) 0 arms (dial chat alice_ep) l0 with_chat_reachable) as (_ & H & _).
  apply H. reflexivity.
Defined.
Example reserved_refused : register_app_protocol (as_bytes "mcpmesh/chat/1") tt booted_protocols = Err ReservedAlpn.
Proof. reflexivity. Qed.
End Witness.
