(* ===== verification/BlobGate.v ===== *)
(** * Serving blobs

    [node/src/blobs/provider.rs], the serving side: the loop that answers the blob library's
    requests (who may fetch what, how many bytes, what the audit log says of it) and the
    progress of one transfer as its subscribers see it.  The library itself is the sequence of
    messages it sends. *)
From stdpp Require Import base list gmap sets strings.
From Stdlib Require Import ZArith Lia.
From S2P Require Import Prelude Bytes Externals Float64 Identity Limits Session Scope AuditFiles.

Local Open Scope Z_scope.

(** ** The event mask *)
Inductive ConnectMode := ConnectNone | ConnectNotify | ConnectIntercept.
Inductive RequestMode := RequestNone | RequestNotify | RequestNotifyLog | RequestIntercept | RequestInterceptLog | RequestDisabled.
Inductive ObserveMode := ObserveNone | ObserveNotify | ObserveIntercept.
Inductive ThrottleMode := ThrottleNone | ThrottleIntercept.
Record EventMask := {
  m_connected : ConnectMode; m_get : RequestMode; m_get_many : RequestMode; m_push : RequestMode;
  m_observe : ObserveMode; m_throttle : ThrottleMode }.

Definition APP_BLOB_EVENT_MASK : EventMask :=
  {| m_connected := ConnectIntercept; m_get := RequestInterceptLog; m_get_many := RequestDisabled; m_push := RequestDisabled;
     m_observe := ObserveIntercept; m_throttle := ThrottleNone |}.
Definition APP_BLOB_EVENT_MASK_METERED : EventMask :=
  {| m_connected := m_connected APP_BLOB_EVENT_MASK; m_get := m_get APP_BLOB_EVENT_MASK; m_get_many := m_get_many APP_BLOB_EVENT_MASK;
     m_push := m_push APP_BLOB_EVENT_MASK; m_observe := m_observe APP_BLOB_EVENT_MASK; m_throttle := ThrottleIntercept |}.
Definition blob_bytes_enabled (m : MeshLimiters) : bool := bool_decide (is_Some (blob_bytes m)).
Definition event_mask (m : MeshLimiters) : EventMask :=
  if blob_bytes_enabled m then APP_BLOB_EVENT_MASK_METERED else APP_BLOB_EVENT_MASK.

(** ** The gate loop *)
Definition IROH_CHUNK_BYTES : Z := 16 * 1024.

Inductive AbortReason := Permission | RateLimited.
Abbreviation Verdict := (result AbortReason unit) (only parsing).

Definition blob_fetch_record (ts : string) (peer : option string) (hash status : string) (principal : option string) : AuditRecord :=
  {| ar_ts := ts; ar_kind := BlobFetch; ar_peer := peer; ar_service := None; ar_method := None; ar_tool := None; ar_args_hash := None;
     ar_bytes_out := None; ar_status := Some status; ar_latency_ms := None; ar_event := None; ar_target := Some hash;
     ar_principal := principal |}.

(** What the loop sees of the node when it handles one message. *)
Record Env := { e_gate : TrustGate; e_scopes : gmap string Scope; e_now : Instant; e_ts : string }.

Inductive Message :=
| ClientConnected (conn : N) (endpoint : option EndpointId)
| Throttle (conn : N) (size : Z)
| GetRequest (conn : N) (hash_hex : string) (is_blob : bool)
| GetManyRequest (conn : N)
| PushRequest (conn : N)
| ObserveRequest (conn : N)
| ConnectionClosed (conn : N)
| OtherMessage.

Record GateLoop := { gl_conns : gmap N EndpointId; gl_reported : gset EndpointId; gl_limits : MeshLimiters }.

Section gate.
Context `{T : TextEncoding, HO : HashOrder}.

Definition audit_status (decision : Verdict) (endpoint : option EndpointId) (reported : gset EndpointId) : option string * gset EndpointId :=
  match decision with
  | Err Permission => (Some "denied"%string, reported)
  | Err RateLimited =>
      match endpoint with
      | Some eid => (if decide (eid ∈ reported) then None else Some "rate_limited"%string, {[eid]} ∪ reported)
      | None => (Some "rate_limited"%string, reported)
      end
  | Ok _ => (Some "ok"%string, match endpoint with Some eid => reported ∖ {[eid]} | None => reported end)
  end.

Definition request_budget_ok (endpoint : option EndpointId) (now : Instant) (m : MeshLimiters) : bool * MeshLimiters :=
  match endpoint with Some eid => admit_blob_bytes_at eid IROH_CHUNK_BYTES now m | None => (false, m) end.

Definition get_admission (allow : bool) (endpoint : option EndpointId) (now : Instant) (m : MeshLimiters) : Verdict * MeshLimiters :=
  if negb allow then (Err Permission, m)
  else
    match endpoint with
    | None => (Err Permission, m)
    | Some eid =>
        let '(b, m) := request_budget_ok (Some eid) now m in
        (if b then Ok tt else Err RateLimited, m)
    end.

Definition throttle_decision (endpoint : option EndpointId) (size : Z) (now : Instant) (m : MeshLimiters) : Verdict * MeshLimiters :=
  match endpoint with
  | None => (Err Permission, m)
  | Some eid =>
      let '(b, m) := admit_blob_bytes_at eid size now m in
      (if b then Ok tt else Err RateLimited, m)
  end.

(** The authorisation of a request: the whole blob is asked for, and a scope that lists it grants
    one of the principals the caller's identity carries. *)
Definition get_allowed (identity : option PeerIdentity) (hash_hex : string) (is_blob : bool) (scopes : gmap string Scope) : bool :=
  is_blob && match identity with Some i => allows hash_hex (identity_principals i) scopes | None => false end.

(** One message: the answer if it wants one, what is audited, and the loop after it. *)
Definition gate_step (env : Env) (msg : Message) (s : GateLoop) : option Verdict * option AuditRecord * GateLoop :=
  match msg with
  | ClientConnected conn endpoint =>
      match endpoint with
      | Some eid => (Some (Ok tt), None, {| gl_conns := <[conn := eid]> (gl_conns s); gl_reported := gl_reported s; gl_limits := gl_limits s |})
      | None => (Some (Err Permission), None, s)
      end
  | Throttle conn size =>
      let '(res, m) := throttle_decision (gl_conns s !! conn) size (e_now env) (gl_limits s) in
      (Some res, None, {| gl_conns := gl_conns s; gl_reported := gl_reported s; gl_limits := m |})
  | GetRequest conn hash_hex is_blob =>
      let endpoint := gl_conns s !! conn in
      let identity := endpoint ≫= gate_resolve (e_gate env) in
      let allow := get_allowed identity hash_hex is_blob (e_scopes env) in
      let peer := (fun i => default (id_name i) (id_user_id i)) <$> identity in
      let '(decision, m) := get_admission allow endpoint (e_now env) (gl_limits s) in
      let '(status, reported) := audit_status decision endpoint (gl_reported s) in
      (Some decision, (fun st => blob_fetch_record (e_ts env) peer hash_hex st (principal <$> endpoint)) <$> status,
       {| gl_conns := gl_conns s; gl_reported := reported; gl_limits := m |})
  | GetManyRequest _ | PushRequest _ | ObserveRequest _ => (Some (Err Permission), None, s)
  | ConnectionClosed conn => (None, None, {| gl_conns := delete conn (gl_conns s); gl_reported := gl_reported s; gl_limits := gl_limits s |})
  | OtherMessage => (None, None, s)
  end.

Definition gate_start (m : MeshLimiters) : GateLoop := {| gl_conns := ∅; gl_reported := ∅; gl_limits := m |}.
Definition gate_after (m : MeshLimiters) (l : list (Env * Message)) : GateLoop := foldl (fun s em => (gate_step em.1 em.2 s).2) (gate_start m) l.

(** *** References: what a history of messages says of a connection and of an endpoint *)

(** The endpoint a connection belongs to: the one it last connected with, until it closes. *)
Definition attributed (l : list (Env * Message)) (conn : N) : option EndpointId :=
  foldl (fun o em =>
    match em.2 with
    | ClientConnected c (Some e) => if decide (c = conn) then Some e else o
    | ConnectionClosed c => if decide (c = conn) then None else o
    | _ => o
    end) None l.

(** The endpoint's last request that got past authorisation was refused for its rate. *)
Fixpoint refused_since (s : GateLoop) (eid : EndpointId) (l : list (Env * Message)) (before : bool) : bool :=
  match l with
  | [] => before
  | (env, msg) :: l =>
      let now :=
        match msg with
        | GetRequest conn _ _ =>
            if decide (gl_conns s !! conn = Some eid) then
              match (gate_step env msg s).1.1 with
              | Some (Ok _) => false
              | Some (Err RateLimited) => true
              | _ => before
              end
            else before
        | _ => before
        end in
      refused_since (gate_step env msg s).2 eid l now
  end.
End gate.

(** ** Progress *)
Definition PROGRESS_STRIDE_BYTES : Z := 1024 * 1024.
Definition FRAMES_PER_EPOCH : Z := 16.
Definition sat_sub (a b : Z) : Z := Z.max 0 (a - b).
Definition sat_mul64 (a b : Z) : Z := Z.min (a * b) u64_max.

Record TransferProgressState := {
  tp_hash : string; tp_peer : option string; tp_total : option Z; tp_done : Z;
  tp_last_emitted : Z; tp_epochs : Z; tp_in_epoch : Z }.

Definition stride (st : TransferProgressState) : Z :=
  match tp_total st with
  | Some t => Z.max (t / 100) PROGRESS_STRIDE_BYTES
  | None => Z.max (sat_mul64 PROGRESS_STRIDE_BYTES (2 ^ Z.min (tp_epochs st) 40)) PROGRESS_STRIDE_BYTES
  end.

Definition with_done (n : Z) (st : TransferProgressState) : TransferProgressState :=
  {| tp_hash := tp_hash st; tp_peer := tp_peer st; tp_total := tp_total st; tp_done := n; tp_last_emitted := tp_last_emitted st;
     tp_epochs := tp_epochs st; tp_in_epoch := tp_in_epoch st |}.

Definition note_emitted (st : TransferProgressState) : TransferProgressState :=
  let in_epoch := tp_in_epoch st + 1 in
  let '(epochs, in_epoch) :=
    match tp_total st with
    | Some _ => (tp_epochs st, tp_in_epoch st)
    | None => if FRAMES_PER_EPOCH <=? in_epoch then (Z.min (tp_epochs st + 1) u32_max, 0) else (tp_epochs st, in_epoch)
    end in
  {| tp_hash := tp_hash st; tp_peer := tp_peer st; tp_total := tp_total st; tp_done := tp_done st; tp_last_emitted := tp_done st;
     tp_epochs := epochs; tp_in_epoch := in_epoch |}.

Inductive TransferState := TStarted | TProgress | TCompleted | TAborted.
#[export] Instance TransferState_eq_dec : EqDecision TransferState.
Proof. solve_decision. Defined.
Inductive Direction := Serve | Fetch.
Record BlobTransfer := { bt_direction : Direction; bt_hash : string; bt_done : Z; bt_total : option Z; bt_state : TransferState; bt_peer : option string }.

Definition transfer_frame (st : TransferProgressState) (state : TransferState) : BlobTransfer :=
  {| bt_direction := Serve; bt_hash := tp_hash st; bt_done := tp_done st; bt_total := tp_total st; bt_state := state; bt_peer := tp_peer st |}.
Definition fetch_frame (st : TransferProgressState) (state : TransferState) : BlobTransfer :=
  {| bt_direction := Fetch; bt_hash := tp_hash st; bt_done := tp_done st; bt_total := tp_total st; bt_state := state; bt_peer := None |}.

Definition start_progress (hash : string) (peer : option string) (total : option Z) : TransferProgressState :=
  {| tp_hash := hash; tp_peer := peer; tp_total := total; tp_done := 0; tp_last_emitted := 0; tp_epochs := 0; tp_in_epoch := 0 |}.

(** The coalescing gate, on either side: a frame when the transfer has advanced by a stride. *)
Definition advance (off : Z) (st : TransferProgressState) : bool * TransferProgressState :=
  let st := with_done off st in
  if stride st <=? sat_sub (tp_done st) (tp_last_emitted st) then (true, note_emitted st) else (false, st).

Inductive RequestUpdate := UStarted (hash : string) (size : Z) | UProgress (end_offset : Z) | UCompleted | UAborted.

Definition apply_transfer_update (peer : option string) (u : RequestUpdate) (st : option TransferProgressState) :
    list BlobTransfer * bool * option TransferProgressState :=
  match u with
  | UStarted hash size =>
      let cur := start_progress hash peer (Some size) in
      ([transfer_frame cur TStarted], false, Some cur)
  | UProgress off =>
      match st with
      | Some cur => let '(emit, cur) := advance off cur in (if emit : bool then [transfer_frame cur TProgress] else [], false, Some cur)
      | None => ([], false, st)
      end
  | UCompleted =>
      match st with
      | Some cur =>
          let cur := match tp_total cur with Some t => with_done (Z.max (tp_done cur) t) cur | None => cur end in
          ([transfer_frame cur TCompleted], true, Some cur)
      | None => ([], true, st)
      end
  | UAborted => (match st with Some cur => [transfer_frame cur TAborted] | None => [] end, true, st)
  end.

(** The drain task of one admitted request: it stops at a terminal update, and a stream that ends
    without one is reported as aborted. *)
Fixpoint drain_updates (peer : option string) (us : list RequestUpdate) (st : option TransferProgressState) : list BlobTransfer :=
  match us with
  | [] => match st with Some cur => [transfer_frame cur TAborted] | None => [] end
  | u :: us =>
      let '(frames, terminal, st) := apply_transfer_update peer u st in
      frames ++ if terminal : bool then [] else drain_updates peer us st
  end.

(** The progress frames over the offsets a stream reports. *)
Fixpoint progress_frames (frame : TransferProgressState -> TransferState -> BlobTransfer) (offs : list Z) (st : TransferProgressState) :
    list BlobTransfer * TransferProgressState :=
  match offs with
  | [] => ([], st)
  | off :: offs =>
      let '(emit, st) := advance off st in
      let '(frames, st') := progress_frames frame offs st in
      (if emit : bool then frame st TProgress :: frames else frames, st')
  end.
Definition fetch_progress : list Z -> TransferProgressState -> list BlobTransfer * TransferProgressState := progress_frames fetch_frame.

(** ** Lemmas *)
Section lemmas.
Context `{T : TextEncoding, HO : HashOrder}.

Lemma gate_after_snoc m l em : gate_after m (l ++ [em]) = (gate_step em.1 em.2 (gate_after m l)).2.
Proof. unfold gate_after. by rewrite foldl_app. Qed.

(** The loop's map is what the history says: connections are told apart by the endpoint their
    handshake proved, never by what they ask. *)
Lemma gate_conns m l conn : gl_conns (gate_after m l) !! conn = attributed l conn.
Proof.
  induction l as [|[env msg] l IH] using rev_ind; [done|]. rewrite gate_after_snoc. unfold attributed in *. rewrite foldl_app, <- IH. simpl.
  destruct msg as [c [e|]|c size|c h b| | | |c|]; simpl; try done.
  - case_decide as Hc; [subst; by rewrite lookup_insert_eq|by rewrite lookup_insert_ne].
  - by destruct (throttle_decision _ _ _ _).
  - destruct (get_admission _ _ _ _) as [d m']. by destruct (audit_status _ _ _).
  - case_decide as Hc; [subst; by rewrite lookup_delete_eq|by rewrite lookup_delete_ne].
Qed.

Lemma get_allowed_true identity h b t :
  get_allowed identity h b t = true <->
  b = true /\ exists i name sc, identity = Some i /\ t !! name = Some sc /\ h ∉ sc_withdrawn sc /\ h ∈ sc_hashes sc /\
    exists p, p ∈ sc_grants sc /\ p ∈ identity_principals i.
Proof.
  unfold get_allowed. rewrite andb_true_iff. destruct identity as [i|]; [|naive_solver].
  rewrite allows_true. setoid_rewrite scope_allows_true. naive_solver.
Qed.

Lemma get_admission_cases allow endpoint now m d m' :
  get_admission allow endpoint now m = (d, m') ->
  (d = Err Permission /\ m' = m /\ (allow = false \/ endpoint = None)) \/
  (allow = true /\ exists eid, endpoint = Some eid /\ m' = (admit_blob_bytes_at eid IROH_CHUNK_BYTES now m).2 /\
     d = if (admit_blob_bytes_at eid IROH_CHUNK_BYTES now m).1 then Ok tt else Err RateLimited).
Proof.
  unfold get_admission. destruct allow; simpl; [|intros [= <- <-]; auto]. destruct endpoint as [e|]; [|intros [= <- <-]; auto].
  unfold request_budget_ok. destruct (admit_blob_bytes_at e IROH_CHUNK_BYTES now m) as [b m1] eqn:Ha. intros [= <- <-]. right. split; [done|]. exists e. by rewrite Ha.
Qed.

(** The answer to a request, off the history. *)
Lemma get_step_cases env m l conn h b r rec s' :
  gate_step env (GetRequest conn h b) (gate_after m l) = (r, rec, s') ->
  exists d, r = Some d /\
  ((d = Err Permission /\ gl_limits s' = gl_limits (gate_after m l) /\ gl_reported s' = gl_reported (gate_after m l) /\ ar_status <$> rec = Some (Some "denied"%string) /\
    get_allowed (attributed l conn ≫= gate_resolve (e_gate env)) h b (e_scopes env) = false) \/
   (get_allowed (attributed l conn ≫= gate_resolve (e_gate env)) h b (e_scopes env) = true /\
    exists eid, attributed l conn = Some eid /\
      let a := admit_blob_bytes_at eid IROH_CHUNK_BYTES (e_now env) (gl_limits (gate_after m l)) in
      gl_limits s' = a.2 /\
      (a.1 = true /\ d = Ok tt /\ ar_status <$> rec = Some (Some "ok"%string) /\ gl_reported s' = gl_reported (gate_after m l) ∖ {[eid]} \/
       a.1 = false /\ d = Err RateLimited /\ gl_reported s' = {[eid]} ∪ gl_reported (gate_after m l) /\
         ar_status <$> rec = if decide (eid ∈ gl_reported (gate_after m l)) then None else Some (Some "rate_limited"%string)))) /\
  (forall x, rec = Some x -> ar_ts x = e_ts env /\ ar_kind x = BlobFetch /\ ar_target x = Some h /\ ar_principal x = principal <$> attributed l conn).
Proof.
  simpl. rewrite gate_conns. set (id := attributed l conn ≫= _). destruct (get_admission _ _ _ _) as [d m'] eqn:Hg.
  destruct (audit_status _ _ _) as [st rep] eqn:Hs. intros [= <- <- <-]. exists d. split; [done|]. split; [|intros x (st' & _ & ->)%fmap_Some; by split_and!].
  apply get_admission_cases in Hg as [(-> & -> & Hc)|(Ha & eid & He & -> & ->)]; simpl.
  - left. injection Hs as <- <-. split_and!; try done. destruct Hc as [?|Hn]; [done|]. unfold id. rewrite Hn. simpl. unfold get_allowed. by rewrite andb_false_r.
  - right. split; [done|]. exists eid. split; [done|]. split; [done|]. rewrite He in Hs. destruct (admit_blob_bytes_at _ _ _ _).1; simpl in Hs.
    + injection Hs as <- <-. left. by split_and!.
    + right. injection Hs as <- <-. split_and!; try done. by case_decide.
Qed.
End lemmas.

(** *** Coalescing *)
Section progress.
Implicit Types st : TransferProgressState.

Lemma stride_floor st : PROGRESS_STRIDE_BYTES <= stride st.
Proof. unfold stride. destruct (tp_total st); lia. Qed.

Lemma advance_spec off st b st' :
  advance off st = (b, st') ->
  tp_total st' = tp_total st /\ tp_hash st' = tp_hash st /\ tp_peer st' = tp_peer st /\ tp_done st' = off /\
  if b then tp_last_emitted st' = off /\ tp_last_emitted st + stride st <= off
  else tp_last_emitted st' = tp_last_emitted st /\ tp_epochs st' = tp_epochs st /\ tp_in_epoch st' = tp_in_epoch st.
Proof.
  unfold advance. assert (Hs : stride (with_done off st) = stride st) by done. rewrite Hs. simpl.
  pose proof (stride_floor st) as Hf. unfold PROGRESS_STRIDE_BYTES in Hf. destruct (Z.leb_spec (stride st) (sat_sub off (tp_last_emitted st))) as [Hle|]; intros [= <- <-].
  - unfold note_emitted, sat_sub in *. destruct (tp_total (with_done off st)) eqn:Ht; simpl in *; [split_and!; try done; lia|].
    destruct (_ <=? _); simpl; split_and!; try done; lia.
  - by split_and!.
Qed.

(** With a known size a frame costs a stride of it, whatever the offsets reported. *)
Lemma known_total_frames frame offs st T D :
  tp_total st = Some T -> 0 <= tp_last_emitted st -> (forall o, o ∈ offs -> o <= D) -> tp_last_emitted st <= D ->
  Z.of_nat (length (progress_frames frame offs st).1) * Z.max (T / 100) PROGRESS_STRIDE_BYTES <= D - tp_last_emitted st.
Proof.
  revert st. induction offs as [|o offs IH]; intros st Ht H0 HD Hl; simpl; [lia|].
  destruct (advance o st) as [b st1] eqn:Ha. pose proof (advance_spec _ _ _ _ Ha) as (Ht1 & _ & _ & _ & Hb).
  specialize (IH st1). destruct (progress_frames frame offs st1) as [fr st2]. simpl in IH.
  assert (Ho : o <= D) by (apply HD; by left). unfold stride in Hb. rewrite Ht in Hb. pose proof (Z.le_max_r (T / 100) PROGRESS_STRIDE_BYTES) as Hm.
  unfold PROGRESS_STRIDE_BYTES in Hm at 1.
  assert (HI : tp_last_emitted st <= tp_last_emitted st1 <= D ->
    Z.of_nat (length fr) * Z.max (T / 100) PROGRESS_STRIDE_BYTES <= D - tp_last_emitted st1)
    by (intros ?; apply IH; [congruence|lia|intros; apply HD; by right|lia]).
  destruct b; simpl; [destruct Hb as [Hb1 Hb2]|destruct Hb as (Hb1 & _)]; rewrite Hb1 in HI; [|apply HI; lia].
  rewrite Nat2Z.inj_succ, Z.mul_succ_l. lia.
Qed.

(** With none, the stride doubles with every full epoch. *)
Definition epoch_ok st (n : Z) : Prop :=
  0 <= tp_epochs st /\ 0 <= tp_in_epoch st < FRAMES_PER_EPOCH /\ n = FRAMES_PER_EPOCH * tp_epochs st + tp_in_epoch st /\
  PROGRESS_STRIDE_BYTES * (FRAMES_PER_EPOCH * (2 ^ tp_epochs st - 1) + tp_in_epoch st * 2 ^ tp_epochs st) <= tp_last_emitted st.

Lemma epochs_small st n D : epoch_ok st n -> tp_last_emitted st <= D -> D <= u64_max -> tp_epochs st <= 40.
Proof.
  unfold epoch_ok, PROGRESS_STRIDE_BYTES, FRAMES_PER_EPOCH. change u64_max with 18446744073709551615. intros (He & Hi & _ & Hl) HD HM. destruct (Z.le_gt_cases (tp_epochs st) 40) as [|Hgt]; [done|].
  assert (2 ^ 41 <= 2 ^ tp_epochs st) by (apply Z.pow_le_mono_r; lia). assert (2 ^ 41 = 2199023255552) by done.
  assert (0 <= tp_in_epoch st * 2 ^ tp_epochs st) by (apply Z.mul_nonneg_nonneg; [lia|apply Z.pow_nonneg; lia]). lia.
Qed.
Lemma stride_unknown st : tp_total st = None -> 0 <= tp_epochs st <= 40 -> stride st = PROGRESS_STRIDE_BYTES * 2 ^ tp_epochs st.
Proof.
  intros Ht He. unfold stride, sat_mul64, PROGRESS_STRIDE_BYTES. change u64_max with 18446744073709551615. rewrite Ht, (Z.min_l (tp_epochs st)) by lia.
  assert (1 <= 2 ^ tp_epochs st <= 2 ^ 40) by (split; [apply (Z.pow_le_mono_r 2 0); lia|apply Z.pow_le_mono_r; lia]).
  assert (2 ^ 40 = 1099511627776) by done. lia.
Qed.
Lemma epoch_ok_emit o st n st' D :
  tp_total st = None -> epoch_ok st n -> o <= D -> D <= u64_max -> tp_last_emitted st <= D -> advance o st = (true, st') -> epoch_ok st' (n + 1).
Proof.
  intros Ht Hok Ho HD Hl Ha. pose proof (epochs_small _ _ _ Hok Hl HD) as He. pose proof (advance_spec _ _ _ _ Ha) as (_ & _ & _ & _ & Hlast & Hge).
  destruct Hok as (He0 & Hi & -> & Hsum). rewrite stride_unknown in Hge by done.
  unfold advance in Ha. destruct (_ <=? _) in Ha; [|done]. injection Ha as <-. unfold note_emitted. simpl in *. rewrite Ht in *.
  unfold epoch_ok, FRAMES_PER_EPOCH, PROGRESS_STRIDE_BYTES in *. change u32_max with 4294967295 in *.
  destruct (Z.leb_spec 16 (tp_in_epoch st + 1)); simpl; rewrite ?Hlast.
  - rewrite Z.min_l by lia. assert (tp_in_epoch st = 15) as Hi15 by lia. rewrite Hi15, Z.pow_add_r in * by lia. split_and!; lia.
  - split_and!; lia.
Qed.

Lemma unknown_total_frames frame offs st n D :
  tp_total st = None -> epoch_ok st n -> (forall o, o ∈ offs -> o <= D) -> tp_last_emitted st <= D -> D <= u64_max ->
  epoch_ok (progress_frames frame offs st).2 (n + Z.of_nat (length (progress_frames frame offs st).1)) /\ tp_last_emitted (progress_frames frame offs st).2 <= D.
Proof.
  revert st n. induction offs as [|o offs IH]; intros st n Ht Hok HD Hl HM; simpl; [by rewrite Z.add_0_r|].
  destruct (advance o st) as [b st1] eqn:Ha. pose proof (advance_spec _ _ _ _ Ha) as (Ht1 & _ & _ & _ & Hb).
  assert (Ho : o <= D) by (apply HD; by left). assert (HD' : forall o', o' ∈ offs -> o' <= D) by (intros; apply HD; by right).
  destruct b.
  - pose proof (epoch_ok_emit _ _ _ _ _ Ht Hok Ho HM Hl Ha) as Hok1. destruct Hb as [Hb1 _].
    specialize (IH st1 (n + 1)). destruct (progress_frames frame offs st1) as [fr st2]. simpl in *.
    replace (n + Z.of_nat (S (length fr))) with (n + 1 + Z.of_nat (length fr)) by lia. apply IH; [congruence|done|done|lia|done].
  - destruct Hb as (Hb1 & Hb2 & Hb3). assert (Hok1 : epoch_ok st1 n) by (unfold epoch_ok; by rewrite Hb1, Hb2, Hb3).
    specialize (IH st1 n). destruct (progress_frames frame offs st1) as [fr st2]. simpl in *. apply IH; [congruence|done|done|lia|done].
Qed.
End progress.

Section drain.
(** What a stream reports before its terminal update, and how it ends. *)
Fixpoint offsets (us : list RequestUpdate) : list Z :=
  match us with
  | UProgress off :: us => off :: offsets us
  | UStarted _ _ :: us => offsets us
  | _ => []
  end.
Fixpoint ends (us : list RequestUpdate) : TransferState :=
  match us with
  | [] | UAborted :: _ => TAborted
  | UCompleted :: _ => TCompleted
  | _ :: us => ends us
  end.
Definition not_started (u : RequestUpdate) : Prop := match u with UStarted _ _ => False | _ => True end.

Lemma drain_started peer us st :
  Forall not_started us ->
  exists final, drain_updates peer us (Some st) = (progress_frames transfer_frame (offsets us) st).1 ++ [final] /\ bt_state final = ends us /\
    bt_hash final = tp_hash st /\ bt_total final = tp_total st /\ bt_peer final = tp_peer st /\
    (forall T, tp_total st = Some T -> bt_state final = TCompleted -> T <= bt_done final).
Proof.
  revert st. induction us as [|u us IH]; intros st; simpl; [by eexists|]. intros [Hu Hf]%Forall_cons_1. destruct u as [| off| |]; [done| | |]; simpl.
  - destruct (advance off st) as [b st1] eqn:Ha. pose proof (advance_spec _ _ _ _ Ha) as (Ht & Hh & Hp & _). simpl.
    destruct (IH st1 Hf) as (final & -> & He & Hh' & Ht' & Hp' & HT). exists final.
    destruct (progress_frames transfer_frame (offsets us) st1) as [fr st2]. rewrite He, Hh', Ht', Hp', Ht, Hh, Hp. rewrite Ht in HT.
    destruct b; simpl; (split_and!; [done..|]); intros T HTT; rewrite <- He; by apply HT.
  - eexists. split; [done|]. simpl. destruct (tp_total st) eqn:Ht; simpl; split_and!; try done. intros T [= <-] _. lia.
  - eexists. split; [done|]. simpl. by split_and!.
Qed.

Lemma progress_frames_states frame offs st : (forall st s, bt_state (frame st s) = s) -> Forall (fun f => bt_state f = TProgress) (progress_frames frame offs st).1.
Proof.
  intros Hfr. revert st. induction offs as [|o offs IH]; intros st; simpl; [done|]. destruct (advance o st) as [b st1].
  specialize (IH st1). destruct (progress_frames frame offs st1) as [fr st2]. destruct b; simpl in *; [|done]. by constructor.
Qed.
End drain.

(** ** Properties *)
Section properties.
Context `{T : TextEncoding, HO : HashOrder}.

(** C23: no byte of a blob leaves without a grant.  After any history of messages, a request is let
    through exactly when it asks for one whole blob, on a connection whose handshake proved an
    endpoint, that the gate resolves at that moment to an identity with a principal that a scope
    listing the blob, and not having withdrawn it, grants, and the endpoint has budget left; a
    revoked endpoint is refused on the connections it already has; and no other kind of request
    is ever let through. *)
Theorem blobs_need_a_grant m l env conn h b :
  let reply msg := (gate_step env msg (gate_after m l)).1.1 in
  (reply (GetRequest conn h b) = Some (Ok tt) <->
   b = true /\ exists eid i name sc p,
     attributed l conn = Some eid /\ gate_resolve (e_gate env) eid = Some i /\
     e_scopes env !! name = Some sc /\ h ∈ sc_hashes sc /\ h ∉ sc_withdrawn sc /\ p ∈ sc_grants sc /\ p ∈ identity_principals i /\
     (admit_blob_bytes_at eid IROH_CHUNK_BYTES (e_now env) (gl_limits (gate_after m l))).1 = true) /\
  (GateLaws (e_gate env) -> forall eid, attributed l conn = Some eid -> gate_is_revoked (e_gate env) eid = true ->
     reply (GetRequest conn h b) = Some (Err Permission)) /\
  (forall msg, msg ∈ [GetManyRequest conn; PushRequest conn; ObserveRequest conn] -> reply msg = Some (Err Permission)).
Proof.
  intros reply. unfold reply. destruct (gate_step env (GetRequest conn h b) (gate_after m l)) as [[r rec] s'] eqn:Hs.
  pose proof (get_step_cases _ _ _ _ _ _ _ _ _ Hs) as (d & -> & Hd & _). simpl. split_and!.
  - split.
    + intros [= ->]. destruct Hd as [(? & _)|(Ha & eid & He & _ & [(Hb & _)|(_ & ? & _)])]; [done| |done].
      apply get_allowed_true in Ha as (-> & i & name & sc & Hi & Hsc & Hw & Hh & p & Hp & Hpi). split; [done|].
      rewrite He in Hi. exists eid, i, name, sc, p. by split_and!.
    + intros (-> & eid & i & name & sc & p & He & Hi & Hsc & Hh & Hw & Hp & Hpi & Hb).
      destruct Hd as [(_ & _ & _ & _ & Hf)|(_ & eid' & He' & _ & [(_ & -> & _)|(Hb' & _)])]; [|done|congruence].
      enough (get_allowed (attributed l conn ≫= gate_resolve (e_gate env)) h true (e_scopes env) = true) by congruence.
      apply get_allowed_true. split; [done|]. exists i, name, sc. rewrite He. simpl. split_and!; eauto.
  - intros HL eid He Hrev. destruct Hd as [(-> & _)|(Ha & _)]; [done|]. rewrite He in Ha. simpl in Ha.
    rewrite (gate_revoked_denies _ Hrev) in Ha. unfold get_allowed in Ha. by rewrite andb_false_r in Ha.
  - intros msg. rewrite !elem_of_cons, elem_of_nil. by intros [->|[->|[->|[]]]].
Qed.

Lemma reported_refused m l eid : eid ∈ gl_reported (gate_after m l) <-> refused_since (gate_start m) eid l false = true.
Proof.
  assert (Hgen : forall l s, eid ∈ gl_reported (foldl (fun s em => (gate_step em.1 em.2 s).2) s l) <->
    refused_since s eid l (bool_decide (eid ∈ gl_reported s)) = true).
  { clear l. induction l as [|[env msg] l IH]; intros s; simpl; [by rewrite bool_decide_eq_true|]. rewrite IH. f_equiv. f_equal.
    destruct msg as [c [e|]|c sz|c h b| | | |c|]; simpl; try done; [by destruct (throttle_decision _ _ _ _)|].
    destruct (get_admission _ _ _ _) as [d m'] eqn:Hg. apply get_admission_cases in Hg. simpl.
    destruct (audit_status d (gl_conns s !! c) (gl_reported s)) as [st rep] eqn:Hst. simpl. unfold audit_status in Hst.
    destruct Hg as [(-> & _ & _)|(_ & e & He & _ & ->)]; [injection Hst as <- <-; by case_decide|]. rewrite He in Hst |- *.
    destruct (admit_blob_bytes_at _ _ _ _).1; simpl in *; injection Hst as <- <-; case_decide as Hd.
    - injection Hd as ->. apply bool_decide_eq_false. set_solver.
    - apply bool_decide_ext. assert (e <> eid) by congruence. set_solver.
    - injection Hd as ->. apply bool_decide_eq_true. set_solver.
    - apply bool_decide_ext. assert (e <> eid) by congruence. set_solver. }
  unfold gate_after. rewrite Hgen. simpl. by rewrite bool_decide_false by set_solver.
Qed.

(** The audit log tells what was answered.  Every request that was let through is recorded as
    ok and every refused one as denied, under the endpoint its connection was proved to be; a
    request refused for its rate is recorded once, until that endpoint is served again. *)
Theorem audit_truthful m l env conn h b :
  let answer := gate_step env (GetRequest conn h b) (gate_after m l) in
  let status := ar_status <$> answer.1.2 in
  (answer.1.1 = Some (Ok tt) <-> status = Some (Some "ok"%string)) /\
  (answer.1.1 = Some (Err Permission) <-> status = Some (Some "denied"%string)) /\
  (answer.1.1 = Some (Err RateLimited) -> exists eid, attributed l conn = Some eid /\
     status = if refused_since (gate_start m) eid l false then None else Some (Some "rate_limited"%string)) /\
  (forall rec, answer.1.2 = Some rec -> ar_ts rec = e_ts env /\ ar_kind rec = BlobFetch /\ ar_target rec = Some h /\
     ar_principal rec = principal <$> attributed l conn).
Proof.
  intros answer. unfold answer. destruct (gate_step env (GetRequest conn h b) (gate_after m l)) as [[r rec] s'] eqn:Hs.
  pose proof (get_step_cases _ _ _ _ _ _ _ _ _ Hs) as (d & -> & Hd & Hrec). simpl.
  destruct Hd as [(-> & _ & _ & -> & _)|(_ & eid & He & _ & [(_ & -> & -> & _)|(_ & -> & _ & ->)])].
  - split_and!; done.
  - split_and!; done.
  - split_and!; [by case_decide..| |done]. intros _. exists eid. split; [done|]. pose proof (reported_refused m l eid) as Hrr.
    destruct (refused_since _ _ _ _); case_decide; naive_solver.
Qed.

(** Progress costs a bounded number of frames.  A served transfer of a size the library knows
    is one Started, at most a hundred Progress and exactly one terminal frame, whatever chunks it
    comes in; a fetch of up to [D] bytes, whose size is not known, is at most sixteen frames per
    doubling of [D] over sixteen mebibytes. *)
Theorem progress_bounded peer h size us offs D hash :
  Forall not_started us -> 0 <= size <= u64_max -> (forall o, o ∈ offsets us -> o <= size) ->
  (forall o, o ∈ offs -> o <= D) -> 0 <= D <= u64_max ->
  (exists progress final,
     drain_updates peer (UStarted h size :: us) None =
       transfer_frame (start_progress h peer (Some size)) TStarted :: progress ++ [final] /\
     Forall (fun f => bt_state f = TProgress) progress /\ Z.of_nat (length progress) <= 100 /\
     bt_state final = ends us /\ (bt_state final = TCompleted -> size <= bt_done final)) /\
  (exists e, 0 <= e /\ 2 ^ 24 * (2 ^ e - 1) <= D /\ Z.of_nat (length (fetch_progress offs (start_progress hash None None)).1) <= 16 * e + 15).
Proof.
  intros Hns Hsz Hoffs Hfetch HD. split.
  - simpl. destruct (drain_started peer us (start_progress h peer (Some size)) Hns) as (final & -> & He & _ & _ & _ & HT).
    eexists _, final. split; [done|]. split_and!; [by apply progress_frames_states| |done|by apply HT].
    assert (Hk := known_total_frames transfer_frame (offsets us) (start_progress h peer (Some size)) size size eq_refl ltac:(simpl; lia) Hoffs ltac:(simpl; lia)).
    simpl in Hk. unfold PROGRESS_STRIDE_BYTES in Hk. pose proof (Z.div_mod size 100 ltac:(lia)) as Hdm. pose proof (Z.mod_pos_bound size 100 ltac:(lia)).
    destruct (Z.le_gt_cases (Z.of_nat (length (progress_frames transfer_frame (offsets us) (start_progress h peer (Some size))).1)) 100) as [|Hgt]; [done|].
    assert (101 * Z.max (size / 100) (1024 * 1024) <= size) by nia. lia.
  - destruct (unknown_total_frames fetch_frame offs (start_progress hash None None) 0 D) as [Hok Hl]; simpl; try done; try lia.
    destruct Hok as (He & Hi & Hn & Hsum). eexists. split; [exact He|]. unfold fetch_progress, FRAMES_PER_EPOCH, PROGRESS_STRIDE_BYTES in *.
    assert (0 <= tp_in_epoch (progress_frames fetch_frame offs (start_progress hash None None)).2 * 2 ^ tp_epochs (progress_frames fetch_frame offs (start_progress hash None None)).2)
      by (apply Z.mul_nonneg_nonneg; [lia|apply Z.pow_nonneg; lia]). split; [change (2 ^ 24) with (1024 * 1024 * 16); lia|lia].
Qed.
End properties.

(** ** Witnesses *)
Module Witness.
Import Toy Limits.Witness.

Definition ident : PeerIdentity :=
  {| id_endpoint := alice; id_name := "alice"; id_user_id := Some "alice"%string; id_groups := ["eng"%string] |}.
Definition env : Env :=
  {| e_gate := StaticGate [(alice, ident)]; e_scopes := {["docs"%string := {| sc_hashes := {["aa"%string]}; sc_grants := {["eng"%string]}; sc_withdrawn := ∅ |}]};
     e_now := 5; e_ts := "t" |}.
Definition metered : MeshLimiters := from_config 60 65536 0.
Definition history : list (Env * Message) := [(env, ClientConnected 1 (Some alice)); (env, ClientConnected 2 (Some bob))].

(** Alice, a member of the group the scope grants, is let through; Bob and a second request kind are not. *)
Lemma blobs_need_a_grant_witness : (gate_step env (GetRequest 1 "aa" true) (gate_after metered history)).1.1 = Some (Ok tt).
Proof.
  apply (proj2 (proj1 (blobs_need_a_grant metered history env 1 "aa" true))). split; [reflexivity|].
  exists alice, ident, "docs"%string, {| sc_hashes := {["aa"%string]}; sc_grants := {["eng"%string]}; sc_withdrawn := ∅ |}, "eng"%string.
  split_and!; first [reflexivity|vm_compute; reflexivity|apply not_elem_of_empty|apply bool_decide_eq_true_1; vm_compute; reflexivity].
Defined.
Example bob_denied : (gate_step env (GetRequest 2 "aa" true) (gate_after metered history)).1.1 = Some (Err Permission).
Proof. vm_compute. reflexivity. Qed.

Lemma audit_truthful_witness : ar_status <$> (gate_step env (GetRequest 1 "aa" true) (gate_after metered history)).1.2 = Some (Some "ok"%string).
Proof. apply (proj1 (proj1 (audit_truthful metered history env 1 "aa" true))). vm_compute. reflexivity. Defined.

Definition mib : Z := 1024 * 1024.
Lemma progress_bounded_witness : exists progress final,
  drain_updates None [UStarted "aa" (3 * mib); UProgress mib; UProgress (mib + 1); UCompleted] None =
    transfer_frame (start_progress "aa" None (Some (3 * mib))) TStarted :: progress ++ [final] /\ Z.of_nat (length progress) <= 100.
Proof.
  destruct (progress_bounded None "aa" (3 * mib) [UProgress mib; UProgress (mib + 1); UCompleted] [mib] (3 * mib) "aa") as ((p & f & Hd & _ & Hl & _) & _).
  - repeat constructor.
  - vm_compute. split; congruence.
  - intros o Ho. simpl in Ho. rewrite !elem_of_cons, elem_of_nil in Ho. unfold mib in *. lia.
  - intros o Ho. apply list_elem_of_singleton in Ho as ->. unfold mib. lia.
  - vm_compute. split; congruence.
  - exists p, f. split; [exact Hd|exact Hl].
Defined.
End Witness.
