(* ===== verification/Publishing.v ===== *)
(** * Publishing blobs

    [node/src/blobs/provider.rs], the publishing side, with the verbs of
    [node/src/daemon/handlers.rs] over it: how a hash enters and leaves a scope.  Publishing,
    republishing and withdrawing take several steps each and run concurrently; one lock orders
    them.  A step of the model is what a task does between two points where another may run. *)
From stdpp Require Import base list gmap sets strings relations.
From Stdlib Require Import ZArith Lia.
From S2P Require Import Prelude Bytes Digits Scope.

(** ** Hashes: [iroh_blobs::Hash] *)
Class BlobHash := {
  Hash : Type;
  hash_eq_dec :: EqDecision Hash;
  hash_countable :: Countable Hash;
  to_hex : Hash -> string;
  hash_from_str : string -> option Hash }.

(** The printed form is 64 hexadecimal digits and parses back. *)
Class BlobHashLaws (B : BlobHash) := {
  to_hex_shape h : length (as_bytes (to_hex h)) = 64 /\
    forallb (fun b => is_ascii_digit b || ((97 <=? byte_val b) && (byte_val b <=? 102))%Z) (as_bytes (to_hex h)) = true;
  hash_from_to h : hash_from_str (to_hex h) = Some h }.

Definition is_ascii_hexdigit (b : Byte.byte) : bool :=
  is_ascii_digit b || ((97 <=? byte_val b) && (byte_val b <=? 102))%Z || ((65 <=? byte_val b) && (byte_val b <=? 70))%Z.
Definition is_ascii_alphanumeric (b : Byte.byte) : bool :=
  is_ascii_digit b || ((97 <=? byte_val b) && (byte_val b <=? 122))%Z || ((65 <=? byte_val b) && (byte_val b <=? 90))%Z.

(** The library's parser panics on other lengths: it is called on these texts only. *)
Definition plausible_hash (s : string) : bool :=
  let b := as_bytes s in
  (Nat.eqb (length b) 64 && forallb is_ascii_hexdigit b) || (Nat.eqb (length b) 52 && forallb is_ascii_alphanumeric b).

(** The errors of the verbs; each has its own code on the control socket. *)
Inductive BlobError :=
| NoMesh
| NotEnabled
| NoSuchBlobScope (scope : string)
| NoSuchBlob (hash : string)
| BlobWithdrawn (scope hash : string)
| NotABlake3Hash (s : string)
| ImportFailed (e : string)
| ScopeWriteFailed (e : string).

Section publishing.
Context `{B : BlobHash, C : ScopeCodec}.

Definition parse_blob_hash (s : string) : result BlobError Hash :=
  if plausible_hash s then ok_or (NotABlake3Hash s) (hash_from_str s) else Err (NotABlake3Hash s).

(** ** The provider and the tasks in it

    [w_complete]: the blobs the store holds whole, which fetches and sweeps change at any
    moment.  [w_lock]: the task that holds [hash_membership]. *)
Record World := { w_store : ScopeStore; w_complete : gset Hash; w_lock : option N }.
Definition w_scopes (w : World) : gmap string Scope := s_inner (w_store w).
Definition with_store (s : ScopeStore) (w : World) : World := {| w_store := s; w_complete := w_complete w; w_lock := w_lock w |}.
Definition with_lock (l : option N) (w : World) : World := {| w_store := w_store w; w_complete := w_complete w; w_lock := l |}.
Definition with_complete (c : gset Hash) (w : World) : World := {| w_store := w_store w; w_complete := c; w_lock := w_lock w |}.

Inductive Reply := Published (ticket hash : string) | Unpublished (changed : bool).

(** Where a task is: [..Wait] is before the lock, and what follows it holds the lock. *)
Inductive Phase :=
| PubImport (scope path : string)
| PubWait (scope : string) (h : Hash) (ticket : string)
| PubInsert (scope : string) (h : Hash) (ticket : string)
| RepWait (scope text : string)
| RepScope (scope text : string)
| RepHas (scope : string) (h : Hash)
| RepWithdrawn (scope : string) (h : Hash)
| RepInsert (scope : string) (h : Hash)
| RepTicket (h : Hash)
| UnpWait (scope : string) (h : Hash)
| UnpRemove (scope : string) (h : Hash)
| Done (r : result BlobError Reply).

Definition holds_lock (p : Phase) : bool :=
  match p with
  | PubInsert _ _ _ | RepScope _ _ | RepHas _ _ | RepWithdrawn _ _ | RepInsert _ _ | UnpRemove _ _ => true
  | _ => false
  end.

(** What the outside answers a step: the import's result, the ticket minted, whether the scope
    row's transaction fails, and whether the store's completeness query fails. *)
Record Outside := { o_import : result string Hash; o_ticket : string; o_commit_fails : bool; o_has_fails : bool }.

Definition acquire (i : N) (p : Phase) (w : World) : option (Phase * World) :=
  match w_lock w with None => Some (p, with_lock (Some i) w) | Some _ => None end.
(** The guard is dropped: at the end of the verb, and before the ticket is minted. *)
Definition release (p : Phase) (w : World) : option (Phase * World) := Some (p, with_lock None w).

(** One step of task [i]; [None]: it waits for the lock, or has ended. *)
Definition advance (out : Outside) (i : N) (p : Phase) (w : World) : option (Phase * World) :=
  match p with
  | PubImport scope path =>
      match o_import out with
      | Ok h => Some (PubWait scope h (o_ticket out), w)
      | Err e => Some (Done (Err (ImportFailed e)), w)
      end
  | PubWait scope h ticket => acquire i (PubInsert scope h ticket) w
  | PubInsert scope h ticket =>
      let (r, s) := store_publish_hash (o_commit_fails out) scope (to_hex h) (w_store w) in
      release (Done (match r with Ok _ => Ok (Published ticket (to_hex h)) | Err e => Err (ScopeWriteFailed e) end)) (with_store s w)
  | RepWait scope text => acquire i (RepScope scope text) w
  | RepScope scope text =>
      if has_scope scope (w_scopes w) then
        match parse_blob_hash text with
        | Ok h => Some (RepHas scope h, w)
        | Err e => release (Done (Err e)) w
        end
      else release (Done (Err (NoSuchBlobScope scope))) w
  | RepHas scope h =>
      if negb (o_has_fails out) && bool_decide (h ∈ w_complete w) then Some (RepWithdrawn scope h, w)
      else release (Done (Err (NoSuchBlob (to_hex h)))) w
  | RepWithdrawn scope h =>
      if is_withdrawn scope (to_hex h) (w_scopes w) then release (Done (Err (BlobWithdrawn scope (to_hex h)))) w
      else Some (RepInsert scope h, w)
  | RepInsert scope h =>
      let (r, s) := store_publish_hash (o_commit_fails out) scope (to_hex h) (w_store w) in
      release (match r with Ok _ => RepTicket h | Err e => Done (Err (ScopeWriteFailed e)) end) (with_store s w)
  | RepTicket h => Some (Done (Ok (Published (o_ticket out) (to_hex h))), w)
  | UnpWait scope h => acquire i (UnpRemove scope h) w
  | UnpRemove scope h =>
      let (r, s) := store_unpublish_hash (o_commit_fails out) scope (to_hex h) (w_store w) in
      release (Done (match r with Ok c => Ok (Unpublished c) | Err e => Err (ScopeWriteFailed e) end)) (with_store s w)
  | Done _ => None
  end.

(** [AppBlobs::publish_scope], [republish], [unpublish]: where each begins. *)
Definition publish_scope (scope path : string) : Phase := PubImport scope path.
Definition republish (scope hash_hex : string) : Phase := RepWait scope hash_hex.
Definition unpublish (scope hash_hex : string) : Phase :=
  match parse_blob_hash hash_hex with Ok h => UnpWait scope h | Err e => Done (Err e) end.

(** ** The verbs of the control socket

    [mesh] and [provider]: does this daemon have a mesh, and a blob store that opened?  Each verb
    answers where its task begins, or ends at once. *)
Section verbs.
Context (mesh provider : bool).

Definition mesh_required : result BlobError unit := if mesh then Ok () else Err NoMesh.
Definition app_blobs : result BlobError unit := if provider then Ok () else Err NotEnabled.
Definition started (r : result BlobError Phase) : Phase := match r with Ok p => p | Err e => Done (Err e) end.

Definition blob_publish (scope path : string) : Phase :=
  started (_ ← mesh_required; _ ← app_blobs; Ok (publish_scope scope path)).

Definition blob_republish (scope hash : string) : Phase :=
  started (_ ← mesh_required; _ ← app_blobs; Ok (republish scope hash)).

Definition blob_unpublish (scope hash : string) (w : World) : Phase :=
  started (_ ← mesh_required; _ ← app_blobs;
           h ← parse_blob_hash hash;
           if has_scope scope (w_scopes w) then Ok (unpublish scope (to_hex h)) else Err (NoSuchBlobScope scope)).

(** Granting and revoking take no lock but the table's own. *)
Definition blob_grant (fails : bool) (scope principal : string) (w : World) : result BlobError unit * World :=
  match (_ ← mesh_required; app_blobs) with
  | Err e => (Err e, w)
  | Ok _ =>
      let (r, s) := store_grant fails scope principal (w_store w) in
      (map_err ScopeWriteFailed r, with_store s w)
  end.

Definition blob_revoke (fails : bool) (scope : string) (principals : list string) (w : World) : result BlobError unit * World :=
  match (_ ← mesh_required; app_blobs) with
  | Err e => (Err e, w)
  | Ok _ =>
      if has_scope scope (w_scopes w) then
        let (r, s) := store_revoke_from_scope fails scope principals (w_store w) in
        (_ ← map_err ScopeWriteFailed r; Ok (), with_store s w)
      else (Err (NoSuchBlobScope scope), w)
  end.

Definition no_scopes : ScopePage := {| pg_rows := []; pg_total := 0; pg_truncated := false |}.

(** A daemon without a blob store lists no scopes. *)
Definition blob_list (q : ListQuery) (w : World) : result BlobError ScopePage :=
  _ ← mesh_required;
  if provider then
    match list_page (fun s => match parse_blob_hash s with Ok h => Ok (to_hex h) | Err _ => Err s end) q (w_scopes w) with
    | Ok page => Ok page
    | Err s => Err (NotABlake3Hash s)
    end
  else Ok no_scopes.
End verbs.

(** ** The tasks together *)
Record Sys := { y_world : World; y_tasks : gmap N Phase }.

(** What a step did that a reader of the table may care about. *)
Inductive Label := Quiet | FilePublished (scope : string) (h : Hash).

Definition label (p : Phase) : Label := match p with PubInsert scope h _ => FilePublished scope h | _ => Quiet end.

Inductive step : Sys -> Label -> Sys -> Prop :=
| st_request w ts i scope arg arg2 mesh provider :
    ts !! i = None ->
    forall p, p ∈ [blob_publish mesh provider scope arg; blob_republish mesh provider scope arg; blob_unpublish mesh provider scope arg w;
                   publish_scope scope arg2; republish scope arg2; unpublish scope arg2] ->
    step {| y_world := w; y_tasks := ts |} Quiet {| y_world := w; y_tasks := <[i := p]> ts |}
| st_advance w ts i p out p' w' :
    ts !! i = Some p -> advance out i p w = Some (p', w') ->
    step {| y_world := w; y_tasks := ts |} (label p) {| y_world := w'; y_tasks := <[i := p']> ts |}
(** the future is dropped: the client went away *)
| st_drop w ts i p :
    ts !! i = Some p ->
    step {| y_world := w; y_tasks := ts |} Quiet
         {| y_world := if holds_lock p then with_lock None w else w; y_tasks := delete i ts |}
| st_grant w ts mesh provider fails scope principal :
    step {| y_world := w; y_tasks := ts |} Quiet {| y_world := (blob_grant mesh provider fails scope principal w).2; y_tasks := ts |}
| st_revoke w ts mesh provider fails scope principals :
    step {| y_world := w; y_tasks := ts |} Quiet {| y_world := (blob_revoke mesh provider fails scope principals w).2; y_tasks := ts |}
| st_unpair w ts fails principals :
    step {| y_world := w; y_tasks := ts |} Quiet
         {| y_world := with_store (store_revoke_principals fails principals (w_store w)).2 w; y_tasks := ts |}
| st_bytes w ts complete :
    step {| y_world := w; y_tasks := ts |} Quiet {| y_world := with_complete complete w; y_tasks := ts |}.

Inductive steps : Sys -> list Label -> Sys -> Prop :=
| steps_nil y : steps y [] y
| steps_cons y l y' ls y'' : step y l y' -> steps y' ls y'' -> steps y (l :: ls) y''.

Definition initial (y : Sys) : Prop := w_lock (y_world y) = None /\ y_tasks y = ∅.
Definition reachable (y : Sys) : Prop := exists y0 ls, initial y0 /\ steps y0 ls y.

(** ** The liveness root of garbage collection

    [gc_config]'s callback: what a sweep must keep.  [poisoned]: a task panicked in the middle of
    a mutation, and the run is skipped. *)
Record BlobGcStats := { gc_runs : nat; gc_last_run_epoch : Z; gc_aborted : nat; gc_last_protected : nat }.
Inductive ProtectOutcome := ProtectContinue | ProtectAbort.

Definition protect (poisoned : bool) (now : Z) (t : gmap string Scope) (live : gset Hash) (stats : BlobGcStats) :
    ProtectOutcome * gset Hash * BlobGcStats :=
  let stats := {| gc_runs := S (gc_runs stats); gc_last_run_epoch := now; gc_aborted := gc_aborted stats;
                  gc_last_protected := gc_last_protected stats |} in
  if poisoned then
    (ProtectAbort, live, {| gc_runs := gc_runs stats; gc_last_run_epoch := now; gc_aborted := S (gc_aborted stats);
                            gc_last_protected := gc_last_protected stats |})
  else
    let parsed := omap (fun hex => ok (parse_blob_hash hex)) (elements (live_hashes t)) in
    (ProtectContinue, list_to_set parsed ∪ live,
     {| gc_runs := gc_runs stats; gc_last_run_epoch := now; gc_aborted := gc_aborted stats; gc_last_protected := length parsed |}).
End publishing.

(** ** Lemmas *)
Section lemmas.
Context `{B : BlobHash, BL : !BlobHashLaws B, C : ScopeCodec}.
Implicit Types (w : World) (p : Phase) (y : Sys).

#[export] Instance to_hex_inj : Inj (=) (=) to_hex.
Proof. intros a b Hab. apply (f_equal hash_from_str) in Hab. rewrite !hash_from_to in Hab. by injection Hab. Qed.

(** Every hash's printed form passes the guard and comes back. *)
Lemma parse_to_hex h : parse_blob_hash (to_hex h) = Ok h.
Proof.
  unfold parse_blob_hash. assert (plausible_hash (to_hex h) = true) as ->; [|by rewrite hash_from_to].
  unfold plausible_hash. destruct (to_hex_shape h) as [-> Hd]. rewrite Nat.eqb_refl. apply orb_true_iff. left. simpl.
  apply forallb_forall. intros b Hb. rewrite forallb_forall in Hd. specialize (Hd b Hb).
  unfold is_ascii_hexdigit. by rewrite Hd.
Qed.

Lemma store_one_inner {A} fails scope (f : gmap string Scope -> A * gmap string Scope) s :
  s_inner (store_one fails scope f s).2 = (f (s_inner s)).2.
Proof.
  unfold store_one, persist_scope, with_inner. destruct (f (s_inner s)) as [a t]. simpl. destruct (s_db s); [|done].
  by destruct fails.
Qed.

Lemma revoke_principals_inner fails ps s :
  s_inner (store_revoke_principals fails ps s).2 = (revoke_principals ps (s_inner s)).2.
Proof.
  unfold store_revoke_principals, persist. destruct (revoke_principals ps (s_inner s)) as [[] t]; simpl; [|done].
  destruct (s_db s); [by destruct fails|done].
Qed.

Lemma withdrawn_alter s x s' sc t :
  is_withdrawn s x t = true -> (s' = s -> forall sc0, t !! s = Some sc0 -> x ∈ sc_withdrawn sc0 -> x ∈ sc_withdrawn sc) ->
  is_withdrawn s x (<[s' := sc]> t) = true.
Proof.
  unfold is_withdrawn. intros Hw Hk. destruct (t !! s) as [sc0|] eqn:Hs; [|done]. apply bool_decide_eq_true in Hw.
  destruct (decide (s' = s)) as [->|Hne].
  - rewrite lookup_insert_eq. apply bool_decide_eq_true. eauto.
  - rewrite lookup_insert_ne, Hs by done. by apply bool_decide_eq_true.
Qed.

Lemma publish_hash_withdrawn s x s' x' t :
  (s, x) <> (s', x') -> is_withdrawn s x t = true -> is_withdrawn s x (publish_hash s' x' t) = true.
Proof.
  intros Hne Hw. apply withdrawn_alter; [done|]. intros -> sc0 -> Hx. simpl. apply elem_of_difference. split; [done|].
  rewrite elem_of_singleton. congruence.
Qed.

(** Publishing what is not withdrawn lifts no withdrawal. *)
Lemma publish_hash_live s x s' x' t :
  is_withdrawn s' x' t = false -> is_withdrawn s x t = true -> is_withdrawn s x (publish_hash s' x' t) = true.
Proof. intros Hf Hw. apply publish_hash_withdrawn; [|done]. intros [= -> ->]. congruence. Qed.

Lemma unpublish_hash_withdrawn s x s' x' t :
  is_withdrawn s x t = true -> is_withdrawn s x (unpublish_hash s' x' t).2 = true.
Proof.
  intros Hw. unfold unpublish_hash. destruct (t !! s') as [sc|] eqn:Hs; [|done]. simpl. apply withdrawn_alter; [done|].
  intros -> sc0 Hsc0 Hx. rewrite Hs in Hsc0. injection Hsc0 as ->. simpl. set_solver.
Qed.

(** Granting and revoking leave what each scope lists and has withdrawn. *)
Definition same_listing (t t' : gmap string Scope) : Prop :=
  forall n, (sc_hashes (default empty_scope (t !! n)), sc_withdrawn (default empty_scope (t !! n))) =
            (sc_hashes (default empty_scope (t' !! n)), sc_withdrawn (default empty_scope (t' !! n))).

Lemma grant_listing s pr t : same_listing t (grant s pr t).
Proof.
  intros n. unfold grant. destruct (decide (s = n)) as [->|]; [by rewrite lookup_insert_eq|by rewrite lookup_insert_ne].
Qed.

Lemma revoke_from_scope_listing s ps t : same_listing t (revoke_from_scope s ps t).2.
Proof.
  intros n. unfold revoke_from_scope. destruct (t !! s) as [sc|] eqn:Hs; [|done].
  pose proof (proj1 (strip_grants_spec ps sc)) as Hst. destruct (strip_grants ps sc) as [c sc']. simpl in *. subst sc'.
  destruct (decide (s = n)) as [->|]; [by rewrite lookup_insert_eq, Hs|by rewrite lookup_insert_ne].
Qed.

Lemma revoke_principals_listing ps t : same_listing t (revoke_principals ps t).2.
Proof.
  intros n. simpl. rewrite lookup_fmap. destruct (t !! n) as [sc|]; [|done]. simpl.
  by rewrite (proj1 (strip_grants_spec ps sc)).
Qed.

Lemma is_withdrawn_default s x t : is_withdrawn s x t = bool_decide (x ∈ sc_withdrawn (default empty_scope (t !! s))).
Proof. unfold is_withdrawn. by destruct (t !! s). Qed.

Lemma listing_withdrawn s x t t' : same_listing t t' -> is_withdrawn s x t' = is_withdrawn s x t.
Proof. intros Hl. specialize (Hl s). injection Hl as _ Hw. by rewrite !is_withdrawn_default, Hw. Qed.

Lemma grants_listing mesh provider fails scope principal w :
  same_listing (w_scopes w) (w_scopes (blob_grant mesh provider fails scope principal w).2) /\
  w_lock (blob_grant mesh provider fails scope principal w).2 = w_lock w.
Proof.
  unfold blob_grant. destruct mesh, provider; simpl; try (split; [by intros n|done]).
  pose proof (store_one_inner fails scope (fun t => (tt, grant scope principal t)) (w_store w)) as Hi.
  unfold store_grant. destruct (store_one _ _ _ _) as [r s]. simpl in *. unfold w_scopes, with_store. simpl. rewrite Hi.
  split; [apply grant_listing|done].
Qed.

Lemma revokes_listing mesh provider fails scope ps w :
  same_listing (w_scopes w) (w_scopes (blob_revoke mesh provider fails scope ps w).2) /\
  w_lock (blob_revoke mesh provider fails scope ps w).2 = w_lock w.
Proof.
  unfold blob_revoke. destruct mesh, provider; simpl; try (split; [by intros n|done]).
  destruct (has_scope scope (w_scopes w)); [|split; [by intros n|done]].
  pose proof (store_one_inner fails scope (revoke_from_scope scope ps) (w_store w)) as Hi.
  unfold store_revoke_from_scope. destruct (store_one _ _ _ _) as [r s]. simpl in *. unfold w_scopes, with_store. simpl. rewrite Hi.
  split; [apply revoke_from_scope_listing|done].
Qed.

(** ** The lock *)

(** The lock is held by a task exactly when the task is at a point that holds it. *)
Definition locked_inv (y : Sys) : Prop :=
  forall i, w_lock (y_world y) = Some i <-> exists p, y_tasks y !! i = Some p /\ holds_lock p = true.

(** A republish that is about to insert saw no withdrawal, and none has come since. *)
Definition insert_inv (y : Sys) : Prop :=
  forall i scope h, y_tasks y !! i = Some (RepInsert scope h) -> is_withdrawn scope (to_hex h) (w_scopes (y_world y)) = false.

Lemma advance_lock out i p w p' w' :
  advance out i p w = Some (p', w') ->
  match holds_lock p, holds_lock p' with
  | false, true => w_lock w = None /\ w_lock w' = Some i
  | true, false => w_lock w' = None
  | _, _ => w_lock w' = w_lock w
  end.
Proof.
  destruct p; simpl; unfold acquire, release; intros H; repeat (case_match; simplify_eq/=; try done).
Qed.

Lemma advance_tasks_lock (ts : gmap N Phase) out i p w p' w' :
  ts !! i = Some p -> advance out i p w = Some (p', w') ->
  (forall j, w_lock w = Some j <-> exists q, ts !! j = Some q /\ holds_lock q = true) ->
  forall j, w_lock w' = Some j <-> exists q, <[i := p']> ts !! j = Some q /\ holds_lock q = true.
Proof.
  intros Hp Hadv Hinv j. pose proof (advance_lock _ _ _ _ _ _ Hadv) as Hl.
  assert (Hi : w_lock w = Some i <-> holds_lock p = true).
  { rewrite (Hinv i), Hp. naive_solver. }
  destruct (decide (j = i)) as [->|Hne].
  - rewrite lookup_insert_eq.
    assert (Hq : (exists q, Some p' = Some q /\ holds_lock q = true) <-> holds_lock p' = true) by naive_solver.
    rewrite Hq. clear Hq Hinv Hadv. destruct Hi as [Hi1 Hi2].
    destruct (holds_lock p), (holds_lock p'); try specialize (Hi2 eq_refl); try rewrite Hl; intuition congruence.
  - rewrite lookup_insert_ne by done. rewrite <- (Hinv j). clear Hinv Hadv. destruct Hi as [Hi1 Hi2].
    destruct (holds_lock p), (holds_lock p'); try specialize (Hi2 eq_refl); try rewrite Hl; intuition congruence.
Qed.

Lemma started_free mesh provider (r : result BlobError Phase) :
  (forall p, r = Ok p -> holds_lock p = false) ->
  holds_lock (started (_ ← mesh_required mesh; _ ← app_blobs provider; r)) = false.
Proof. intros Hr. destruct mesh, provider; simpl; try done. destruct r as [p|e]; simpl; [by apply Hr|done]. Qed.

Lemma unpublish_free scope x : holds_lock (unpublish scope x) = false.
Proof. unfold unpublish. by destruct (parse_blob_hash x). Qed.

(** A request's task starts outside the lock, and far from an insert. *)
Lemma requested_free mesh provider scope arg arg2 w p :
  p ∈ [blob_publish mesh provider scope arg; blob_republish mesh provider scope arg; blob_unpublish mesh provider scope arg w;
       publish_scope scope arg2; republish scope arg2; unpublish scope arg2] -> holds_lock p = false.
Proof.
  rewrite !elem_of_cons, elem_of_nil. intros [->|[->|[->|[->|[->|[->|[]]]]]]]; [..|done|done|apply unpublish_free].
  - apply started_free. by intros p [= <-].
  - apply started_free. by intros p [= <-].
  - apply started_free. intros p. destruct (parse_blob_hash arg); simpl; [|done].
    destruct (has_scope _ _); [|done]. intros [= <-]. apply unpublish_free.
Qed.

Lemma locked_inv_step y l y' : locked_inv y -> step y l y' -> locked_inv y'.
Proof.
  intros Hinv Hstep.
  assert (Hw : forall w w' ts, w_lock w' = w_lock w -> locked_inv {| y_world := w; y_tasks := ts |} ->
    locked_inv {| y_world := w'; y_tasks := ts |}).
  { intros w w' ts Heq Hi j. simpl. rewrite Heq. apply Hi. }
  destruct Hstep as [w ts i scope arg arg2 mesh provider Hi p Hp|w ts i p out p' w' Hp Hadv|w ts i p Hp|?|?|?|?].
  - apply requested_free in Hp. intros j. rewrite (Hinv j). simpl. destruct (decide (j = i)) as [->|].
    + rewrite lookup_insert_eq, Hi. split; intros (q & [= <-] & ?). congruence.
    + by rewrite lookup_insert_ne.
  - exact (advance_tasks_lock _ _ _ _ _ _ _ Hp Hadv Hinv).
  - intros j. specialize (Hinv j) as Hj. specialize (Hinv i). simpl in *. destruct (decide (j = i)) as [->|Hne].
    + rewrite lookup_delete_eq. rewrite Hp in Hinv. destruct (holds_lock p) eqn:E; simpl.
      * split; [done|by intros (q & ? & ?)].
      * rewrite Hinv. split; [intros (q & [= <-] & ?); congruence|by intros (q & ? & ?)].
    + rewrite lookup_delete_ne by done. rewrite <- Hj. destruct (holds_lock p) eqn:E; simpl; [|done].
      rewrite Hp in Hinv. destruct Hinv as [_ Hinv]. rewrite Hinv by eauto. split; congruence.
  - eapply Hw; [|exact Hinv]. apply grants_listing.
  - eapply Hw; [|exact Hinv]. apply revokes_listing.
  - eapply Hw; [|exact Hinv]. done.
  - eapply Hw; [|exact Hinv]. done.
Qed.

(** ** The table *)

(** What a step does to the table: nothing outside the lock, and inside it what its phase says. *)
Definition phase_effect (p : Phase) (t : gmap string Scope) : gmap string Scope :=
  match p with
  | PubInsert scope h _ | RepInsert scope h => publish_hash scope (to_hex h) t
  | UnpRemove scope h => (unpublish_hash scope (to_hex h) t).2
  | _ => t
  end.

Lemma advance_effect out i p w p' w' :
  advance out i p w = Some (p', w') -> w_scopes w' = phase_effect p (w_scopes w).
Proof.
  assert (Hpub : forall scope h r s, store_publish_hash (o_commit_fails out) scope (to_hex h) (w_store w) = (r, s) ->
    s_inner s = publish_hash scope (to_hex h) (w_scopes w)).
  { intros scope h r s Heq. unfold store_publish_hash in Heq.
    pose proof (store_one_inner (o_commit_fails out) scope (fun t => (tt, publish_hash scope (to_hex h) t)) (w_store w)) as Hi.
    by rewrite Heq in Hi. }
  destruct p; simpl; unfold acquire, release; intros H; try (case_all; simplify_eq/=; done).
  - destruct (store_publish_hash _ _ _ _) as [r s] eqn:E. injection H as <- <-. unfold w_scopes at 1. simpl. eauto.
  - destruct (store_publish_hash _ _ _ _) as [r s] eqn:E. injection H as <- <-. unfold w_scopes at 1. simpl. eauto.
  - pose proof (store_one_inner (o_commit_fails out) scope (unpublish_hash scope (to_hex h)) (w_store w)) as Hi.
    unfold store_unpublish_hash in H. destruct (store_one _ _ _ _) as [r s]. by injection H as <- <-.
Qed.

Lemma phase_effect_free p t : holds_lock p = false -> phase_effect p t = t.
Proof. by destruct p. Qed.

(** Only a publish of the very file lifts a withdrawal; a republish about to insert has none to lift. *)
Lemma phase_effect_withdrawn s h p t :
  is_withdrawn s (to_hex h) t = true -> label p <> FilePublished s h ->
  (forall scope h', p = RepInsert scope h' -> is_withdrawn scope (to_hex h') t = false) ->
  is_withdrawn s (to_hex h) (phase_effect p t) = true.
Proof.
  intros Hw Hl Hr. destruct p; simpl in *; try done.
  - apply publish_hash_withdrawn; [|done]. intros [= -> ->%(inj to_hex)]. congruence.
  - apply publish_hash_live; [|done]. eauto.
  - by apply unpublish_hash_withdrawn.
Qed.

Lemma insert_inv_step y l y' : locked_inv y -> insert_inv y -> step y l y' -> insert_inv y'.
Proof.
  intros Hlk Hinv Hstep.
  assert (Hw : forall w w' ts, same_listing (w_scopes w) (w_scopes w') -> insert_inv {| y_world := w; y_tasks := ts |} ->
    insert_inv {| y_world := w'; y_tasks := ts |}).
  { intros w w' ts Heq Hi i scope h Ht. simpl. rewrite (listing_withdrawn _ _ _ _ Heq). by apply (Hi i). }
  destruct Hstep as [w ts i scope arg arg2 mesh provider Hi p Hp|w ts i p out p' w' Hp Hadv|w ts i p Hp|?|?|w ts fails ps|?].
  - apply requested_free in Hp. intros j scope' h Hj. simpl in *.
    apply lookup_insert_Some in Hj as [[-> ->]|[_ Hj]]; [done|by apply (Hinv j)].
  - intros j scope h Hj. simpl in *. apply lookup_insert_Some in Hj as [[<- ->]|[Hne Hj]].
    + clear Hinv Hlk Hp. destruct p; simpl in Hadv; unfold acquire, release in Hadv; case_all; by simplify_eq/=.
    + rewrite (advance_effect _ _ _ _ _ _ Hadv). rewrite phase_effect_free; [by apply (Hinv j)|].
      destruct (holds_lock p) eqn:Hlp; [|done]. exfalso. apply Hne.
      assert (Hi : w_lock w = Some i) by (apply (Hlk i); eauto).
      assert (Hj' : w_lock w = Some j) by (apply (Hlk j); eauto). congruence.
  - intros j scope h Hj. simpl in *. apply lookup_delete_Some in Hj as [_ Hj].
    specialize (Hinv j _ _ Hj). by destruct (holds_lock p).
  - eapply Hw; [|exact Hinv]. apply grants_listing.
  - eapply Hw; [|exact Hinv]. apply revokes_listing.
  - eapply Hw; [|exact Hinv]. unfold w_scopes. simpl. rewrite revoke_principals_inner. apply revoke_principals_listing.
  - eapply Hw; [|exact Hinv]. done.
Qed.

Lemma withdrawn_step s h y l y' :
  insert_inv y -> step y l y' -> l <> FilePublished s h ->
  is_withdrawn s (to_hex h) (w_scopes (y_world y)) = true -> is_withdrawn s (to_hex h) (w_scopes (y_world y')) = true.
Proof.
  intros Hinv Hstep Hl Hw.
  destruct Hstep as [?|w ts i p out p' w' Hp Hadv|w ts i p Hp|?|?|w ts fails ps|?]; simpl in *; try done.
  - rewrite (advance_effect _ _ _ _ _ _ Hadv). apply phase_effect_withdrawn; [done..|].
    intros scope h' ->. by apply (Hinv i).
  - by destruct (holds_lock p).
  - by rewrite (listing_withdrawn _ _ _ _ (proj1 (grants_listing _ _ _ _ _ _))).
  - by rewrite (listing_withdrawn _ _ _ _ (proj1 (revokes_listing _ _ _ _ _ _))).
  - unfold w_scopes. simpl. rewrite revoke_principals_inner.
    by rewrite (listing_withdrawn _ _ _ _ (revoke_principals_listing _ _)).
Qed.

(** A scope lists hashes by their printed form only. *)
Definition canonical (t : gmap string Scope) : Prop :=
  forall n x, x ∈ sc_hashes (default empty_scope (t !! n)) -> exists h, x = to_hex h.

Lemma canonical_listing t t' : same_listing t t' -> canonical t -> canonical t'.
Proof. intros Hl Hc n x Hx. specialize (Hl n). injection Hl as Hh _. rewrite <- Hh in Hx. eauto. Qed.

Lemma canonical_effect p t : canonical t -> canonical (phase_effect p t).
Proof.
  intros Hc. assert (Hpub : forall scope h, canonical (publish_hash scope (to_hex h) t)).
  { intros scope h n x. unfold publish_hash. destruct (decide (scope = n)) as [->|].
    - rewrite lookup_insert_eq. simpl. rewrite elem_of_union, elem_of_singleton. intros [->|?]; eauto.
    - rewrite lookup_insert_ne by done. apply Hc. }
  destruct p; simpl; try done. unfold unpublish_hash. destruct (t !! scope) as [sc|] eqn:Hs; [|done].
  intros n x. simpl. destruct (decide (scope = n)) as [->|]; [|rewrite lookup_insert_ne by done; apply Hc].
  rewrite lookup_insert_eq. simpl. intros [Hx _]%elem_of_difference. apply (Hc n). by rewrite Hs.
Qed.

Lemma canonical_step y l y' : canonical (w_scopes (y_world y)) -> step y l y' -> canonical (w_scopes (y_world y')).
Proof.
  intros Hc Hstep.
  destruct Hstep as [?|w ts i p out p' w' Hp Hadv|w ts i p Hp|?|?|w ts fails ps|?]; simpl in *; try done.
  - rewrite (advance_effect _ _ _ _ _ _ Hadv). by apply canonical_effect.
  - by destruct (holds_lock p).
  - eapply canonical_listing; [|done]. apply grants_listing.
  - eapply canonical_listing; [|done]. apply revokes_listing.
  - eapply canonical_listing; [|done]. unfold w_scopes. simpl. rewrite revoke_principals_inner. apply revoke_principals_listing.
Qed.

Lemma steps_inv (P : Sys -> Prop) y ls y' :
  (forall y l y', P y -> step y l y' -> P y') -> steps y ls y' -> P y -> P y'.
Proof. intros HP. induction 1; eauto. Qed.

Definition sys_inv (y : Sys) : Prop := locked_inv y /\ insert_inv y.
Lemma sys_inv_step y l y' : sys_inv y -> step y l y' -> sys_inv y'.
Proof. intros [H1 H2] Hs. split; [by eapply locked_inv_step|by eapply insert_inv_step]. Qed.

Lemma reachable_publishing y : reachable y -> sys_inv y.
Proof.
  intros (y0 & ls & [Hl Ht] & Hs). eapply steps_inv; [apply sys_inv_step|exact Hs|]. split.
  - intros i. rewrite Hl, Ht. split; [done|]. by intros (p & Hp & _).
  - intros i scope h Hi. by rewrite Ht in Hi.
Qed.

Lemma withdrawn_not_served s h P t : is_withdrawn s h t = true -> scope_allows h P (default empty_scope (t !! s)) = false.
Proof.
  rewrite is_withdrawn_default. intros Hw%bool_decide_eq_true. unfold scope_allows. by rewrite bool_decide_true.
Qed.
End lemmas.

(** ** Properties *)
Section properties.
Context `{B : BlobHash, BL : !BlobHashLaws B, C : ScopeCodec}.

(** C25: A withdrawal stands: whatever tasks run and however they interleave (publishes,
    republishes, withdrawals, grants, revocations, dropped clients, changing bytes, failing
    writes), a hash withdrawn from a scope stays withdrawn there and is served to nobody through
    it, until the file itself is published into that scope again. *)
Theorem withdrawal_stands y ls y' s h P :
  reachable y -> steps y ls y' ->
  is_withdrawn s (to_hex h) (w_scopes (y_world y)) = true -> FilePublished s h ∉ ls ->
  is_withdrawn s (to_hex h) (w_scopes (y_world y')) = true /\
  scope_allows (to_hex h) P (default empty_scope (w_scopes (y_world y') !! s)) = false.
Proof.
  intros Hr Hs Hw Hn. enough (Hw' : is_withdrawn s (to_hex h) (w_scopes (y_world y')) = true).
  { split; [done|]. by apply withdrawn_not_served. }
  apply reachable_publishing in Hr. induction Hs as [|y l y1 ls y2 Hs1 _ IH]; [done|].
  apply not_elem_of_cons in Hn as [Hl Hn]. apply IH; [by eapply sys_inv_step| |done].
  eapply withdrawn_step; [apply Hr|exact Hs1|congruence|done].
Qed.

(** Task [i] runs by itself for [n] steps. *)
Fixpoint run (n : nat) (out : Outside) (i : N) (p : Phase) (w : World) : Phase * World :=
  match n with
  | 0 => (p, w)
  | S n => match advance out i p w with Some (p, w) => run n out i p w | None => (p, w) end
  end.

(** How many steps from its end the critical section is. *)
Definition rank (p : Phase) : nat :=
  match p with RepScope _ _ => 4 | RepHas _ _ => 3 | RepWithdrawn _ _ => 2 | _ => 1 end.

Lemma holder_advances out i p w :
  holds_lock p = true -> exists p' w', advance out i p w = Some (p', w') /\ (w_lock w' = None \/ (holds_lock p' = true /\ rank p' < rank p)).
Proof.
  intros Hh. destruct p; try done; simpl; unfold release.
  - destruct (store_publish_hash _ _ _ _) as [r s]. eauto.
  - destruct (has_scope _ _); [|eauto]. destruct (parse_blob_hash _); [|eauto]. do 2 eexists. split; [done|]. right. simpl. lia.
  - destruct (_ && _); [|eauto]. do 2 eexists. split; [done|]. right. simpl. lia.
  - destruct (is_withdrawn _ _ _); [eauto|]. do 2 eexists. split; [done|]. right. simpl. lia.
  - destruct (store_publish_hash _ _ _ _) as [r s]. eauto.
  - destruct (store_unpublish_hash _ _ _ _) as [r s]. eauto.
Qed.

Lemma holder_releases out i k p w :
  rank p <= k -> holds_lock p = true -> exists n, n <= k /\ w_lock (run n out i p w).2 = None.
Proof.
  revert p w. induction k as [|k IH]; intros p w Hk Hh; [destruct p; simpl in Hk; lia|].
  destruct (holder_advances out i p w Hh) as (p' & w' & Ha & [Hw|[Hh' Hr]]).
  - exists 1. simpl. rewrite Ha. split; [lia|done].
  - destruct (IH p' w') as (n & Hn & Hl); [lia|done|]. exists (S n). simpl. rewrite Ha. split; [lia|done].
Qed.

(** The lock is never lost: when it is held, its holder is a live task, and at most four steps of
    that task free the lock, whatever they meet. *)
Theorem lock_is_released y i out :
  reachable y -> w_lock (y_world y) = Some i ->
  exists p, y_tasks y !! i = Some p /\ holds_lock p = true /\
    exists n, n <= 4 /\ w_lock (run n out i p (y_world y)).2 = None.
Proof.
  intros [Hlk _]%reachable_publishing Hi. apply Hlk in Hi as (p & Hp & Hh). exists p. split_and!; [done..|].
  apply holder_releases; [|done]. destruct p; simpl; lia.
Qed.

Lemma run_S n out i p w p' w' : advance out i p w = Some (p', w') -> run (S n) out i p w = run n out i p' w'.
Proof. simpl. by intros ->. Qed.
Lemma run_Done n out i r w : run n out i (Done r) w = (Done r, w).
Proof. by destruct n. Qed.

(** Republishing with nobody else at work always ends, with the lock free.  An error other than a
    failed write leaves everything as it was and names the first thing missing: the scope, a
    readable hash, the whole blob, or a standing withdrawal in its way.  Otherwise exactly that
    scope lists the blob besides, in its printed form, and no scope's grants have changed. *)
Theorem republish_alone out i scope text w :
  w_lock w = None ->
  exists r w', run 6 out i (republish scope text) w = (Done r, w') /\ w_lock w' = None /\
  match r with
  | Err (ScopeWriteFailed _) => o_commit_fails out = true
  | Err e =>
      w' = w /\
      e = (if has_scope scope (w_scopes w) then
             match parse_blob_hash text with
             | Err _ => NotABlake3Hash text
             | Ok h => if o_has_fails out || negb (bool_decide (h ∈ w_complete w)) then NoSuchBlob (to_hex h)
                       else BlobWithdrawn scope (to_hex h)
             end
           else NoSuchBlobScope scope)
  | Ok (Unpublished _) => False
  | Ok (Published ticket hash) =>
      exists h, parse_blob_hash text = Ok h /\ hash = to_hex h /\ ticket = o_ticket out /\
        h ∈ w_complete w /\ is_withdrawn scope hash (w_scopes w) = false /\
        (forall n, sc_grants (default empty_scope (w_scopes w' !! n)) = sc_grants (default empty_scope (w_scopes w !! n))) /\
        forall n x, x ∈ sc_hashes (default empty_scope (w_scopes w' !! n)) <->
          x ∈ sc_hashes (default empty_scope (w_scopes w !! n)) \/ (n = scope /\ x = hash)
  end.
Proof.
  intros Hl. assert (Hid : with_lock None (with_lock (Some i) w) = w) by (destruct w; simpl in *; by subst).
  assert (Hsc : w_scopes (with_lock (Some i) w) = w_scopes w) by done.
  unfold republish. rewrite (run_S _ _ _ _ _ (RepScope scope text) (with_lock (Some i) w)) by (simpl; unfold acquire; by rewrite Hl).
  destruct (has_scope scope (w_scopes w)) eqn:Hs; cycle 1.
  { eexists _, w. split; [erewrite run_S, run_Done; [done|simpl; unfold release; rewrite Hsc, Hs, Hid; done]|done]. }
  destruct (parse_blob_hash text) as [h|e] eqn:Hh; cycle 1.
  { eexists _, w. split; [erewrite run_S, run_Done; [done|simpl; unfold release; rewrite Hsc, Hs, Hh, Hid; done]|]. split; [done|].
    unfold parse_blob_hash, ok_or in Hh. destruct e; case_all. }
  rewrite (run_S _ _ _ _ _ (RepHas scope h) (with_lock (Some i) w)) by (simpl; by rewrite Hsc, Hs, Hh).
  destruct (negb (o_has_fails out) && bool_decide (h ∈ w_complete w)) eqn:Hc; cycle 1.
  { eexists _, w. split; [erewrite run_S, run_Done; [done|simpl; unfold release; rewrite Hc, Hid; done]|]. split; [done|].
    by destruct (o_has_fails out), (bool_decide (h ∈ w_complete w)). }
  rewrite (run_S _ _ _ _ _ (RepWithdrawn scope h) (with_lock (Some i) w)) by (simpl; by rewrite Hc).
  apply andb_true_iff in Hc as [Hf%negb_true_iff Hc]. rewrite Hf, Hc. apply bool_decide_eq_true in Hc.
  destruct (is_withdrawn scope (to_hex h) (w_scopes w)) eqn:Hw.
  { eexists _, w. split; [erewrite run_S, run_Done; [done|simpl; unfold release; rewrite Hsc, Hw, Hid; done]|done]. }
  rewrite (run_S _ _ _ _ _ (RepInsert scope h) (with_lock (Some i) w)) by (simpl; by rewrite Hsc, Hw).
  destruct (advance out i (RepInsert scope h) (with_lock (Some i) w)) as [[p' w']|] eqn:Ha; cycle 1.
  { exfalso. simpl in Ha. by destruct (store_publish_hash _ _ _ _). }
  rewrite (run_S _ _ _ _ _ _ _ Ha).
  pose proof (advance_effect _ _ _ _ _ _ Ha) as He. pose proof (advance_lock _ _ _ _ _ _ Ha) as Hlk.
  simpl in Ha. destruct (store_publish_hash _ _ _ _) as [[[]|e] s] eqn:Hp; injection Ha as <- <-.
  - do 2 eexists. split; [done|]. split; [done|]. exists h. split_and!; [done..| |]; intros n; rewrite He; simpl;
      unfold publish_hash; change (w_scopes (with_lock (Some i) w)) with (w_scopes w);
      (destruct (decide (scope = n)) as [->|Hne]; [rewrite lookup_insert_eq|rewrite lookup_insert_ne by done]); simpl; [done..|set_solver|naive_solver].
  - do 2 eexists. split; [done|]. split; [done|].
    unfold store_publish_hash, store_one, persist_scope in Hp. simpl in Hp.
    destruct (s_db (w_store w)); [destruct (o_commit_fails out)|]; by simplify_eq/=.
Qed.

(** What a sweep keeps: in every reachable state of a daemon whose scopes were well formed at the
    start, a run that is not skipped protects each blob some scope lists, so in particular each
    blob somebody may fetch, and besides what was protected already nothing else; a blob
    withdrawn from its scopes is not protected. *)
Theorem sweep_keeps_served y0 ls y now live stats :
  canonical (w_scopes (y_world y0)) -> steps y0 ls y ->
  exists live' stats', protect false now (w_scopes (y_world y)) live stats = (ProtectContinue, live', stats') /\
    (forall h P, allows (to_hex h) P (w_scopes (y_world y)) = true -> h ∈ live') /\
    (forall h, h ∈ live' <-> h ∈ live \/ to_hex h ∈ live_hashes (w_scopes (y_world y))).
Proof.
  intros Hc Hs. assert (Hcy : canonical (w_scopes (y_world y))).
  { by eapply (steps_inv (fun y => canonical (w_scopes (y_world y)))); [apply canonical_step|exact Hs|]. }
  revert Hcy. generalize (w_scopes (y_world y)). clear - BL. intros t Hc. unfold protect.
  do 2 eexists. split; [done|].
  assert (Hl : forall n x, x ∈ sc_hashes (default empty_scope (t !! n)) -> x ∈ live_hashes t).
  { intros n x Hx. unfold live_hashes. apply elem_of_union_list. destruct (t !! n) as [sc|] eqn:Hn; [|simpl in Hx; set_solver].
    exists (sc_hashes sc). split; [|done]. apply list_elem_of_fmap. exists (n, sc). by rewrite elem_of_map_to_list. }
  assert (Hl' : forall x, x ∈ live_hashes t -> exists h, x = to_hex h).
  { intros x. unfold live_hashes. rewrite elem_of_union_list. intros (X & HX & Hx).
    apply list_elem_of_fmap in HX as ([n sc] & -> & Hn%elem_of_map_to_list). apply (Hc n). by rewrite Hn. }
  assert (Hspec : forall h, h ∈ (list_to_set (omap (fun hex => ok (parse_blob_hash hex)) (elements (live_hashes t))) ∪ live : gset Hash)
    <-> h ∈ live \/ to_hex h ∈ live_hashes t).
  { intros h. rewrite elem_of_union, elem_of_list_to_set, list_elem_of_omap. split.
    - intros [(x & Hx%elem_of_elements & Hp)|?]; [right|by left].
      destruct (Hl' x Hx) as [h' ->]. rewrite parse_to_hex in Hp. by injection Hp as ->.
    - intros [?|Hx]; [by right|left]. exists (to_hex h). by rewrite elem_of_elements, parse_to_hex. }
  split; [|done]. intros h P (n & sc & Hn & (_ & Hh & _)%scope_allows_true)%allows_true.
  apply Hspec. right. apply (Hl n). by rewrite Hn.
Qed.
End properties.

(** ** Witnesses *)
Module Witness.
Definition hex_shape (s : string) : bool :=
  Nat.eqb (length (as_bytes s)) 64 && forallb (fun b => is_ascii_digit b || ((97 <=? byte_val b) && (byte_val b <=? 102))%Z) (as_bytes s).
#[export] Instance toy_hash : BlobHash := {|
  Hash := {s : string | hex_shape s = true};
  to_hex h := proj1_sig h;
  hash_from_str s := match decide (hex_shape s = true) with left H => Some (exist _ s H) | right _ => None end |}.
#[export] Instance toy_hash_laws : BlobHashLaws toy_hash.
Proof.
  split.
  - intros [s Hs]. simpl. unfold hex_shape in Hs. apply andb_true_iff in Hs as [?%Nat.eqb_eq ?]. done.
  - intros [s Hs]. simpl. destruct (decide _) as [H|H]; [|done]. f_equal. by apply (sig_eq_pi _).
Qed.
#[export] Instance toy_scope_codec : ScopeCodec :=
  {| scope_to_vec _ := []; scope_from_slice _ := None; scopes_from_slice _ := None |}.

Definition aa : string := "aaaaaaaaaaaaaaaaaaaaaaaaaaaaaaaaaaaaaaaaaaaaaaaaaaaaaaaaaaaaaaaa".
Definition hash_aa : Hash := exist _ aa (eq_refl : hex_shape aa = true).
Definition shared : gmap string Scope :=
  {["team"%string := {| sc_hashes := {[aa]}; sc_grants := {["alice"%string]}; sc_withdrawn := ∅ |}]}.
Definition out0 : Outside := {| o_import := Err "no such file"%string; o_ticket := "ticket"; o_commit_fails := false; o_has_fails := false |}.
Definition w0 : World := {| w_store := {| s_inner := shared; s_db := None |}; w_complete := {[hash_aa]}; w_lock := None |}.

Example malformed_refused : parse_blob_hash "nope" = Err (NotABlake3Hash "nope").
Proof. reflexivity. Qed.
Example unknown_scope_first : (run 6 out0 1%N (republish "tema" "nope") w0).1 = Done (Err (NoSuchBlobScope "tema")).
Proof. reflexivity. Qed.
(** The file is withdrawn between a republish's request and its turn at the lock. *)
Definition w1 : World := (run 6 out0 2%N (unpublish "team" aa) w0).2.
Example withdrawn_wins : (run 6 out0 1%N (republish "team" aa) w1).1 = Done (Err (BlobWithdrawn "team" aa)).
Proof. vm_compute. reflexivity. Qed.
Example published_again :
  is_withdrawn "team" aa (w_scopes (run 6 {| o_import := Ok hash_aa; o_ticket := "t"; o_commit_fails := false; o_has_fails := false |}
                                       1%N (publish_scope "team" "a.txt") w1).2) = false.
Proof. vm_compute. reflexivity. Qed.

Definition y_of (w : World) (ts : gmap N Phase) : Sys := {| y_world := w; y_tasks := ts |}.
Definition locked : Sys := y_of (with_lock (Some 1%N) w0) (<[1%N := RepScope "team" aa]> (<[1%N := republish "team" aa]> ∅)).

Lemma locked_reachable : reachable locked.
Proof.
  exists (y_of w0 ∅), [Quiet; Quiet]. split; [done|].
  eapply steps_cons; [eapply (st_request w0 ∅ 1%N "team"%string aa aa true true (lookup_empty _) (republish "team" aa)); set_solver|].
  eapply steps_cons; [|constructor].
  eapply (st_advance w0 _ 1%N (republish "team" aa) out0 (RepScope "team" aa)); [by rewrite lookup_insert_eq|done].
Qed.

Lemma lock_is_released_witness :
  w_lock (y_world locked) = Some 1%N /\
  exists p, y_tasks locked !! 1%N = Some p /\ holds_lock p = true /\
    exists n, n <= 4 /\ w_lock (run n out0 1%N p (y_world locked)).2 = None.
Proof. split; [done|]. exact (lock_is_released locked 1%N out0 locked_reachable eq_refl). Defined.

(** A republish waits while the file is withdrawn; then it runs. *)
Definition withdrawn_sys : Sys := y_of w1 ∅.
Lemma withdrawal_stands_witness :
  is_withdrawn "team" (to_hex hash_aa) (w_scopes w1) = true /\
  is_withdrawn "team" (to_hex hash_aa) (w_scopes w1) = true /\
  scope_allows (to_hex hash_aa) {["alice"%string]} (default empty_scope (w_scopes w1 !! "team"%string)) = false.
Proof.
  split; [vm_compute; reflexivity|].
  apply (withdrawal_stands withdrawn_sys [Quiet] (y_of w1 (<[1%N := republish "team" aa]> ∅)) "team" hash_aa).
  - exists withdrawn_sys, []. split; [done|constructor].
  - eapply steps_cons; [|constructor].
    eapply (st_request w1 ∅ 1%N "team"%string aa aa true true (lookup_empty _) (republish "team" aa)). set_solver.
  - vm_compute. reflexivity.
  - rewrite elem_of_cons, elem_of_nil. intros [?|[]]. done.
Defined.

Lemma republish_alone_witness :
  w_lock w0 = None /\ exists r w', run 6 out0 1%N (republish "team" aa) w0 = (Done r, w') /\ w_lock w' = None.
Proof.
  split; [done|]. destruct (republish_alone out0 1%N "team" aa w0 eq_refl) as (r & w' & H1 & H2 & _). by exists r, w'.
Defined.

Lemma shared_canonical : canonical shared.
Proof.
  intros n x. unfold shared. destruct (decide (n = "team"%string)) as [->|Hn].
  - rewrite lookup_singleton_eq. simpl. rewrite elem_of_singleton. intros ->. by exists hash_aa.
  - rewrite lookup_singleton_ne by done. simpl. set_solver.
Qed.

Lemma sweep_keeps_served_witness :
  canonical shared /\
  exists live' stats', protect false 7 (w_scopes w0) ∅ {| gc_runs := 0; gc_last_run_epoch := 0; gc_aborted := 0; gc_last_protected := 0 |}
      = (ProtectContinue, live', stats') /\
    (forall h P, allows (to_hex h) P (w_scopes w0) = true -> h ∈ live') /\
    (forall h, h ∈ live' <-> h ∈ (∅ : gset Hash) \/ to_hex h ∈ live_hashes (w_scopes w0)).
Proof.
  split; [apply shared_canonical|].
  exact (sweep_keeps_served (y_of w0 ∅) [] (y_of w0 ∅) 7 ∅ _ shared_canonical (steps_nil _)).
Defined.
End Witness.
