(* ===== verification/Fetching.v ===== *)
(** * Fetching blobs

    [node/src/blobs/provider.rs] and [node/src/daemon/handlers.rs], the fetching side: the
    sources of a fetch, the hedged race of their dials with one transfer at a time, the registry
    that lets a fetch be cancelled, and the verb over all of it.  Dials, transfers and timers are
    the events of a machine, in any order they can come in. *)
From stdpp Require Import base list gmap sets strings.
From Stdlib Require Import ZArith Lia.
From S2P Require Import Prelude Bytes Externals Json Hooks Addrs Mesh Dial BlobGate Allowlist.

(** ** Tickets and sources *)

(** [BlobTicket]'s parser: the publisher's address and the canonical hash. *)
Record BlobTicket := { bk_addr : EndpointAddr; bk_hash : string }.
Class Tickets := { ticket_from_str : string -> option BlobTicket }.

(** [HashSet::insert] over the alternates. *)
Definition fresh_source (acc : list key32 * list EndpointAddr) (a : EndpointAddr) : list key32 * list EndpointAddr :=
  if decide (ea_id a ∈ acc.1) then acc else (acc.1 ++ [ea_id a], acc.2 ++ [a]).
Definition sources (ticket : BlobTicket) (alternates : list EndpointAddr) (with_publisher : bool) : list EndpointAddr :=
  (if with_publisher then [dialable_only (bk_addr ticket)] else []) ++
  (foldl fresh_source ([ea_id (bk_addr ticket)], []) alternates).2.

Inductive FetchError := BadTicket (t : string) | NoSources (e : DialError).

(** [blob_fetch] up to its dials: the ticket, who is asked in which order, and how many of the names
    given were left out because everybody they name is revoked here. *)
Definition blob_fetch_sources `{Ed25519, TextEncoding, RowCodec, AddrCodec, Tickets} (io : DialIo) (m : MeshState) (ticket_str : string) (from : list string) :
    result FetchError (BlobTicket * list EndpointAddr * nat) :=
  ticket ← ok_or (BadTicket ticket_str) (ticket_from_str ticket_str);
  bs ← map_err NoSources (blob_source_addrs io m from);
  let publisher_refused := dial_refused io m (ea_id (bk_addr ticket)) in
  Ok (ticket, sources ticket (bs_addrs bs) (negb publisher_refused), bs_skipped_revoked bs).

(** ** The schedule of the dials *)
Definition MAX_IN_FLIGHT_DIALS : nat := 3.

Record HedgePlan := { hp_total : nat; hp_next : nat; hp_in_flight : nat }.
Definition hedge_new (total : nat) : HedgePlan := {| hp_total := total; hp_next := 0; hp_in_flight := 0 |}.
Definition may_start (p : HedgePlan) : bool := (hp_next p <? hp_total p)%nat && (hp_in_flight p <? MAX_IN_FLIGHT_DIALS)%nat.
Definition hedge_start (p : HedgePlan) : option (nat * HedgePlan) :=
  if may_start p then Some (hp_next p, {| hp_total := hp_total p; hp_next := S (hp_next p); hp_in_flight := S (hp_in_flight p) |}) else None.
Definition finished (p : HedgePlan) : HedgePlan := {| hp_total := hp_total p; hp_next := hp_next p; hp_in_flight := (hp_in_flight p - 1)%nat |}.
Definition exhausted (p : HedgePlan) : bool := (hp_total p <=? hp_next p)%nat && bool_decide (hp_in_flight p = 0%nat).

(** ** The fetch *)

(** A dial in flight ends, the hedge's timer fires, the running transfer reports or ends. *)
Inductive FetchEvent := DialEnded (i : nat) (r : result string unit) | HedgeElapsed | Progressed (off : Z) | TransferEnded (r : result string unit).
Inductive Phase := Racing | Transferring (i : nat) | Fetched (i : nat) | Failed (e : string).

Record FetchState := {
  fs_plan : HedgePlan; fs_flight : list nat; fs_last : option string; fs_phase : Phase;
  fs_progress : TransferProgressState; fs_frames : list BlobTransfer }.

Definition push_next (s : FetchState) : FetchState :=
  match hedge_start (fs_plan s) with
  | Some (i, p) => {| fs_plan := p; fs_flight := fs_flight s ++ [i]; fs_last := fs_last s; fs_phase := fs_phase s; fs_progress := fs_progress s; fs_frames := fs_frames s |}
  | None => s
  end.
Definition set_phase (ph : Phase) (s : FetchState) : FetchState :=
  {| fs_plan := fs_plan s; fs_flight := fs_flight s; fs_last := fs_last s; fs_phase := ph; fs_progress := fs_progress s; fs_frames := fs_frames s |}.
Definition set_last (e : string) (s : FetchState) : FetchState :=
  {| fs_plan := fs_plan s; fs_flight := fs_flight s; fs_last := Some e; fs_phase := fs_phase s; fs_progress := fs_progress s; fs_frames := fs_frames s |}.
Definition emit (state : TransferState) (s : FetchState) : FetchState :=
  {| fs_plan := fs_plan s; fs_flight := fs_flight s; fs_last := fs_last s; fs_phase := fs_phase s; fs_progress := fs_progress s;
     fs_frames := fs_frames s ++ [fetch_frame (fs_progress s) state] |}.
Definition end_dial (i : nat) (s : FetchState) : FetchState :=
  {| fs_plan := finished (fs_plan s); fs_flight := filter (fun j => j <> i) (fs_flight s); fs_last := fs_last s; fs_phase := fs_phase s;
     fs_progress := fs_progress s; fs_frames := fs_frames s |}.

(** The racer's loop head: it gives up when nothing is left to start and nothing runs. *)
Definition settle_race (s : FetchState) : FetchState :=
  if exhausted (fs_plan s) && bool_decide (fs_flight s = []) then set_phase (Failed (default "no source to try"%string (fs_last s))) (emit TAborted s)
  else s.
(** Entering the racer: the first source is never delayed. *)
Definition enter_race (s : FetchState) : FetchState :=
  let s := set_phase Racing s in
  settle_race (if decide (fs_flight s = []) then push_next s else s).

Definition fetch_start (hash : string) (total : nat) : FetchState :=
  enter_race (emit TStarted
    {| fs_plan := hedge_new total; fs_flight := []; fs_last := None; fs_phase := Racing; fs_progress := start_progress hash None None; fs_frames := [] |}).

(** One event; [None] is an event that cannot come now. *)
Definition fetch_step (ev : FetchEvent) (s : FetchState) : option FetchState :=
  match fs_phase s, ev with
  | Racing, DialEnded i r =>
      if decide (i ∈ fs_flight s) then
        let s := end_dial i s in
        Some (match r with
              | Ok _ => set_phase (Transferring i) s
              | Err e => settle_race (push_next (set_last e s))
              end)
      else None
  | Racing, HedgeElapsed => if may_start (fs_plan s) then Some (push_next s) else None
  | Transferring i, Progressed off =>
      let '(b, p) := advance off (fs_progress s) in
      let s' := {| fs_plan := fs_plan s; fs_flight := fs_flight s; fs_last := fs_last s; fs_phase := fs_phase s; fs_progress := p; fs_frames := fs_frames s |} in
      Some (if b : bool then emit TProgress s' else s')
  | Transferring i, TransferEnded (Ok _) => Some (set_phase (Fetched i) (emit TCompleted s))
  | Transferring i, TransferEnded (Err e) => Some (enter_race (set_last e s))
  | _, _ => None
  end.

Fixpoint fetch_run (evs : list FetchEvent) (s : FetchState) : option FetchState :=
  match evs with [] => Some s | ev :: evs => s ← fetch_step ev s; fetch_run evs s end.

(** ** Cancellation *)

(** [MeshState::fetches] over the tokens: a token is whether it was tripped. *)
Local Open Scope Z_scope.

Record FetchSlot := { sl_token : nat; sl_waiters : Z }.
Record FetchGuard := { fg_hash : string; fg_token : nat; fg_finished : bool }.
Record Fetches := { ft_tokens : list bool; ft_slots : gmap string FetchSlot; ft_guards : gmap nat FetchGuard; ft_aborted : list string }.

Definition tripped (f : Fetches) (t : nat) : bool := default false (ft_tokens f !! t).
Definition no_fetches : Fetches := {| ft_tokens := []; ft_slots := ∅; ft_guards := ∅; ft_aborted := [] |}.

Definition register (id : nat) (hash : string) (f : Fetches) : Fetches :=
  let slot := default {| sl_token := length (ft_tokens f); sl_waiters := 0 |} (ft_slots f !! hash) in
  let tokens := if decide (ft_slots f !! hash = None) then ft_tokens f ++ [false] else ft_tokens f in
  let '(tokens, token) := if default false (tokens !! sl_token slot) then (tokens ++ [false], length tokens) else (tokens, sl_token slot) in
  {| ft_tokens := tokens; ft_slots := <[hash := {| sl_token := token; sl_waiters := (sl_waiters slot + 1) mod 2 ^ 64 |}]> (ft_slots f);
     ft_guards := <[id := {| fg_hash := hash; fg_token := token; fg_finished := false |}]> (ft_guards f); ft_aborted := ft_aborted f |}.

(** The work answered. *)
Definition answer (id : nat) (f : Fetches) : Fetches :=
  match ft_guards f !! id with
  | None => f
  | Some g =>
      {| ft_tokens := ft_tokens f; ft_slots := ft_slots f;
         ft_guards := <[id := {| fg_hash := fg_hash g; fg_token := fg_token g; fg_finished := true |}]> (ft_guards f); ft_aborted := ft_aborted f |}
  end.

(** The guard is dropped; one that has not answered owes its subscribers a terminal frame. *)
Definition drop_guard (id : nat) (f : Fetches) : Fetches :=
  match ft_guards f !! id with
  | None => f
  | Some g =>
      let slots :=
        match ft_slots f !! fg_hash g with
        | Some slot =>
            let waiters := Z.max 0 (sl_waiters slot - 1) in
            if decide (waiters = 0) then delete (fg_hash g) (ft_slots f)
            else <[fg_hash g := {| sl_token := sl_token slot; sl_waiters := waiters |}]> (ft_slots f)
        | None => ft_slots f
        end in
      {| ft_tokens := ft_tokens f; ft_slots := slots; ft_guards := delete id (ft_guards f);
         ft_aborted := if fg_finished g then ft_aborted f else ft_aborted f ++ [fg_hash g] |}
  end.

(** [blob_fetch_cancel], on the canonical hash: whether a fetch was there to cancel. *)
Definition cancel (hash : string) (f : Fetches) : bool * Fetches :=
  match ft_slots f !! hash with
  | Some slot => (true, {| ft_tokens := <[sl_token slot := true]> (ft_tokens f); ft_slots := ft_slots f; ft_guards := ft_guards f; ft_aborted := ft_aborted f |})
  | None => (false, f)
  end.

Inductive fetches_step : Fetches -> Fetches -> Prop :=
| fstep_register f id hash : ft_guards f !! id = None -> Z.of_nat (size (ft_guards f)) + 1 < 2 ^ 64 -> fetches_step f (register id hash f)
| fstep_answer f id : fetches_step f (answer id f)
| fstep_drop f id : fetches_step f (drop_guard id f)
| fstep_cancel f hash : fetches_step f (cancel hash f).2.

(** ** Lemmas *)

(** *** The fetch *)

(** The sources given up, in order: their dial failed, or the transfer over it did. *)
Fixpoint gave_up (current : option nat) (evs : list FetchEvent) : list nat :=
  match evs with
  | [] => []
  | DialEnded i (Err _) :: evs => i :: gave_up current evs
  | DialEnded i (Ok _) :: evs => gave_up (Some i) evs
  | TransferEnded (Err _) :: evs => option_list current ++ gave_up None evs
  | _ :: evs => gave_up current evs
  end.
Definition current (s : FetchState) : option nat := match fs_phase s with Transferring i | Fetched i => Some i | _ => None end.
Definition terminal (ph : Phase) : list TransferState := match ph with Fetched _ => [TCompleted] | Failed _ => [TAborted] | _ => [] end.
Definition is_step (ev : FetchEvent) : bool := match ev with Progressed _ => false | _ => true end.
Definition steps (evs : list FetchEvent) : nat := length (filter (fun ev => is_step ev = true) evs).
#[export] Instance FetchEvent_is_hedge_dec (ev : FetchEvent) : Decision (ev = HedgeElapsed).
Proof. destruct ev; [right|left|right|right]; done. Defined.
Definition hedges (evs : list FetchEvent) : nat := length (filter (fun ev => ev = HedgeElapsed) evs).


Section fetch.
Variable n : nat.

(** Every source started so far is in exactly one place. *)
Record fetch_inv (given : list nat) (s : FetchState) : Prop := {
  fi_total : hp_total (fs_plan s) = n;
  fi_next : (hp_next (fs_plan s) <= n)%nat;
  fi_count : hp_in_flight (fs_plan s) = length (fs_flight s);
  fi_cap : (length (fs_flight s) <= MAX_IN_FLIGHT_DIALS)%nat;
  fi_places : given ++ option_list (current s) ++ fs_flight s ≡ₚ seq 0 (hp_next (fs_plan s));
  fi_frames : exists hash progress, bt_state <$> fs_frames s = TStarted :: progress ++ terminal (fs_phase s) /\
    Forall (fun st => st = TProgress) progress /\ Forall (fun f => bt_hash f = hash) (fs_frames s) /\ tp_hash (fs_progress s) = hash }.

Definition not_over (s : FetchState) : Prop := terminal (fs_phase s) = [].

(** What is left to happen. *)
Definition measure (s : FetchState) : nat :=
  (3 * (n - hp_next (fs_plan s)) + 2 * length (fs_flight s) + match fs_phase s with Transferring _ => 1 | _ => 0 end)%nat.

Lemma may_start_true p : may_start p = true <-> (hp_next p < hp_total p)%nat /\ (hp_in_flight p < MAX_IN_FLIGHT_DIALS)%nat.
Proof. unfold may_start. by rewrite andb_true_iff, !Nat.ltb_lt. Qed.

Lemma push_next_inv given s :
  fetch_inv given s ->
  fetch_inv given (push_next s) /\ fs_phase (push_next s) = fs_phase s /\ fs_last (push_next s) = fs_last s /\
  if may_start (fs_plan s) then measure s = S (measure (push_next s)) /\ fs_flight (push_next s) <> [] /\
    hp_next (fs_plan (push_next s)) = S (hp_next (fs_plan s))
  else push_next s = s.
Proof.
  intros [H1 H2 H3 H4 H5 H6]. unfold push_next, hedge_start. destruct (may_start (fs_plan s)) eqn:Hm; [|by split].
  apply may_start_true in Hm as [Hn Hc]. rewrite H1 in Hn. split.
  - split; simpl; [done|lia|rewrite length_app; simpl; lia|rewrite length_app; simpl; lia| |done].
    change (given ++ option_list (current s) ++ fs_flight s ++ [hp_next (fs_plan s)] ≡ₚ seq 0 (S (hp_next (fs_plan s)))).
    rewrite seq_S, <- H5. by rewrite <- !app_assoc.
  - split_and!; [done|done| |by destruct (fs_flight s)|done]. unfold measure. simpl. rewrite length_app. simpl. lia.
Qed.

Lemma settle_race_inv given s :
  fetch_inv given s -> fs_phase s = Racing -> (fs_flight s = [] -> hp_next (fs_plan s) = n) ->
  fetch_inv given (settle_race s) /\ (measure (settle_race s) <= measure s)%nat /\
  fs_plan (settle_race s) = fs_plan s /\ fs_flight (settle_race s) = fs_flight s /\
  (fs_phase (settle_race s) = Racing /\ fs_flight s <> [] \/
   (exists e, fs_phase (settle_race s) = Failed e) /\ fs_flight s = [] /\ hp_next (fs_plan s) = n).
Proof.
  intros [H1 H2 H3 H4 H5 H6] Hp Hn. unfold settle_race, exhausted. destruct (decide (fs_flight s = [])) as [He|He].
  - rewrite H1, (Hn He), (proj2 (Nat.leb_le n n) (le_n n)), (bool_decide_true (hp_in_flight _ = _)) by (rewrite H3, He; done).
    rewrite bool_decide_true by done. simpl. split_and!; try done; [|unfold measure; simpl; by rewrite Hp|right; eauto].
    split; simpl; try done. { rewrite <- H5. unfold current. simpl. by rewrite Hp. }
    destruct H6 as (hash & pr & Hf & Hpr & Hh & Hs). exists hash, pr. rewrite fmap_app, Hf, Hp. simpl. rewrite app_nil_r.
    split_and!; [done|done| |done]. apply Forall_app. split; [done|]. apply Forall_singleton. by simpl.
  - rewrite (bool_decide_false (fs_flight s = [])) by done. rewrite andb_false_r. split_and!; try done. by left.
Qed.

Lemma set_racing_inv given s i :
  fetch_inv given s -> fs_phase s = Transferring i -> fetch_inv (given ++ [i]) (set_phase Racing s).
Proof.
  intros [H1 H2 H3 H4 H5 H6] Hp. split; simpl; try done.
  - rewrite <- H5. unfold current. simpl. rewrite Hp. simpl. by rewrite <- app_assoc.
  - destruct H6 as (hash & pr & Hf & ?). exists hash, pr. by rewrite Hf, Hp.
Qed.

Lemma enter_race_inv given s :
  fetch_inv given (set_phase Racing s) ->
  fetch_inv given (enter_race s) /\ (measure (enter_race s) <= measure (set_phase Racing s))%nat /\
  (hp_next (fs_plan (enter_race s)) <= S (hp_next (fs_plan s)))%nat /\ (fs_flight s <> [] -> hp_next (fs_plan (enter_race s)) = hp_next (fs_plan s)) /\
  (fs_phase (enter_race s) = Racing /\ fs_flight (enter_race s) <> [] \/
   (exists e, fs_phase (enter_race s) = Failed e) /\ fs_flight (enter_race s) = [] /\ hp_next (fs_plan (enter_race s)) = n).
Proof.
  intros Hi. unfold enter_race. set (s0 := set_phase Racing s) in *. case_decide as He.
  - destruct (push_next_inv given s0 Hi) as (Hi' & Hp & _ & Hm).
    destruct (may_start (fs_plan s0)) eqn:Hs.
    + destruct Hm as (Hm & Hf & Hnext). destruct (settle_race_inv given (push_next s0) Hi' Hp ltac:(done)) as (H1 & H2 & H3 & H4 & H5).
      rewrite H3, H4. split_and!; [done|lia|rewrite Hnext; simpl; lia|done|]. destruct H5 as [[? ?]|(? & ? & ?)]; [by left|done].
    + rewrite Hm. destruct (settle_race_inv given s0 Hi eq_refl) as (H1 & H2 & H3 & H4 & H5).
      { intros _. destruct Hi as [Ht Hn Hc _ _ _]. destruct (decide (hp_next (fs_plan s0) = n)); [done|].
        assert (may_start (fs_plan s0) = true); [|congruence]. apply may_start_true. rewrite Ht, Hc, He. unfold MAX_IN_FLIGHT_DIALS. cbn [length]. lia. }
      rewrite H3, H4. split_and!; [done|lia|simpl; lia|done|done].
  - destruct (settle_race_inv given s0 Hi eq_refl ltac:(done)) as (H1 & H2 & H3 & H4 & H5). rewrite H3, H4. split_and!; [done|lia|simpl; lia|done|done].
Qed.

Definition given_by (cur : option nat) (ev : FetchEvent) : list nat :=
  match ev with DialEnded i (Err _) => [i] | TransferEnded (Err _) => option_list cur | _ => [] end.
Definition busy (s : FetchState) : Prop := fs_phase s = Racing -> fs_flight s <> [].
Definition over (s : FetchState) : Prop := forall e, fs_phase s = Failed e -> fs_flight s = [] /\ hp_next (fs_plan s) = n.
Definition is_hedge (ev : FetchEvent) : nat := if decide (ev = HedgeElapsed) then 1 else 0.

Lemma end_dial_places given s i :
  fetch_inv given s -> i ∈ fs_flight s -> fs_phase s = Racing ->
  given ++ i :: fs_flight (end_dial i s) ≡ₚ seq 0 (hp_next (fs_plan s)) /\ length (fs_flight s) = S (length (fs_flight (end_dial i s))).
Proof.
  intros [_ _ _ _ H5 _] Hin Hp. unfold current in H5. rewrite Hp in H5. simpl in H5. simpl.
  assert (Hnd : NoDup (fs_flight s)) by (pose proof (NoDup_seq 0 (hp_next (fs_plan s))) as Hnd; rewrite <- H5 in Hnd; by apply NoDup_app in Hnd as (_ & _ & ?)).
  assert (Hperm : i :: filter (fun j => j <> i) (fs_flight s) ≡ₚ fs_flight s).
  { apply NoDup_Permutation; [|done|].
    - constructor; [by intros [? _]%list_elem_of_filter|by apply NoDup_filter].
    - intros x. rewrite elem_of_cons, list_elem_of_filter. destruct (decide (x = i)) as [->|]; naive_solver. }
  split; [by rewrite Hperm|]. rewrite <- Hperm at 1. done.
Qed.

Lemma fetch_step_inv given ev s s' :
  fetch_inv given s -> fetch_step ev s = Some s' ->
  fetch_inv (given ++ given_by (current s) ev) s' /\ busy s' /\ over s' /\
  (measure s' + (if is_step ev then 1 else 0) <= measure s)%nat /\
  (hp_next (fs_plan s') <= hp_next (fs_plan s) + length (given_by (current s) ev) + is_hedge ev)%nat /\
  current s' = match fs_phase s' with Transferring i | Fetched i => Some i | _ => None end.
Proof.
  intros Hi. unfold fetch_step. destruct (fs_phase s) eqn:Hp; [| |by destruct ev|by destruct ev].
  - destruct ev as [i r| | |]; [| |done|done].
    + case_decide as Hin; [|done]. destruct (end_dial_places given s i Hi Hin Hp) as [Hpl Hlen]. simpl in Hlen. pose proof Hi as [H1 H2 H3 H4 H5 H6].
      assert (Hed : forall e, fetch_inv (given ++ [i]) (set_last e (end_dial i s))).
      { intros e. split; simpl; [done|done|lia|unfold MAX_IN_FLIGHT_DIALS in *; simpl in *; lia| |].
        - rewrite <- Hpl. unfold current. simpl. rewrite Hp. simpl. by rewrite <- app_assoc.
        - destruct H6 as (hash & pr & H6). exists hash, pr. by rewrite Hp in *. }
      destruct r as [[]|e]; intros [= <-].
      * cbn [given_by]. rewrite app_nil_r. split_and!; try done.
        -- split; simpl; [done|done|simpl in Hlen; lia|unfold MAX_IN_FLIGHT_DIALS in *; simpl in *; lia|by rewrite <- Hpl|].
           destruct H6 as (hash & pr & H6). exists hash, pr. by rewrite Hp in H6.
        -- unfold measure. simpl in *. rewrite Hp. lia.
        -- simpl. lia.
      * specialize (Hed e). destruct (push_next_inv _ _ Hed) as (Hi' & Hph & _ & Hm).
        set (s1 := set_last e (end_dial i s)) in *.
        assert (Hn : fs_flight (push_next s1) = [] -> hp_next (fs_plan (push_next s1)) = n).
        { intros He. destruct (may_start (fs_plan s1)) eqn:Hms; [by destruct Hm as (_ & ? & _)|]. rewrite Hm in He |- *.
          destruct Hed as [Ht1 Hn1 Hc1 _ _ _]. destruct (decide (hp_next (fs_plan s1) = n)); [done|].
          assert (may_start (fs_plan s1) = true); [|congruence]. apply may_start_true. rewrite Ht1, Hc1, He. unfold MAX_IN_FLIGHT_DIALS. cbn [length]. lia. }
        destruct (settle_race_inv _ _ Hi' ltac:(by rewrite Hph) Hn) as (Hi2 & Hme & Hpl2 & Hfl2 & Hend).
        assert (Hms1 : (measure (push_next s1) <= measure s1)%nat) by (destruct (may_start (fs_plan s1)); [lia|by rewrite Hm]).
        assert (Hs1 : measure s = (measure s1 + 2)%nat) by (unfold measure; simpl in *; rewrite Hp; lia).
        split_and!; [done| | |simpl; lia| |done].
        -- intros Hr. destruct Hend as [[_ ?]|([x Hx] & _)]; [congruence|congruence].
        -- intros x Hx. destruct Hend as [[? _]|(_ & ? & ?)]; [congruence|]. by rewrite Hfl2, Hpl2.
        -- rewrite Hpl2. simpl. destruct (may_start (fs_plan s1)); [destruct Hm as (_ & _ & ->); simpl; lia|rewrite Hm; simpl; lia].
    + destruct (may_start (fs_plan s)) eqn:Hms; [|done]. intros [= <-]. destruct (push_next_inv given s Hi) as (Hi' & Hph & _ & Hm). rewrite Hms in Hm.
      destruct Hm as (Hm & Hf & Hn). cbn [given_by]. rewrite app_nil_r, Hn. split_and!; [done|by intros _|intros x Hx; congruence|simpl; lia|unfold is_hedge; rewrite decide_True by done; simpl; lia|done].
  - destruct ev as [| |off|r]; [done|done| |].
    + destruct (advance off (fs_progress s)) as [b p] eqn:Ha. intros [= <-]. cbn [given_by]. rewrite app_nil_r.
      pose proof (advance_spec _ _ _ _ Ha) as (_ & Hh & _). destruct Hi as [H1 H2 H3 H4 H5 (hash & pr & Hf & Hpr & Hfh & Hs)].
      unfold current in H5. rewrite Hp in *.
      destruct b; (split_and!; [split; simpl; try done|unfold busy; simpl; congruence|unfold over; simpl; congruence|unfold measure; simpl; rewrite Hp; lia|simpl; lia|done]).
      * exists hash, (pr ++ [TProgress]). rewrite fmap_app, Hf. simpl. rewrite !app_nil_r. split_and!; [done|apply Forall_app_2; [done|by apply Forall_singleton]| |congruence].
        apply Forall_app_2; [done|]. apply Forall_singleton. simpl. congruence.
      * exists hash, pr. split_and!; [done|done|done|congruence].
    + destruct r as [[]|e]; intros [= <-].
      * cbn [given_by]. rewrite app_nil_r. destruct Hi as [H1 H2 H3 H4 H5 (hash & pr & Hf & Hpr & Hfh & Hs)]. unfold current in H5. rewrite Hp in *.
        split_and!; try done; [split; simpl; try done|unfold measure; simpl; rewrite Hp; lia|simpl; lia].
        exists hash, pr. rewrite fmap_app, Hf. simpl. rewrite app_nil_r. split_and!; [done|done| |done]. apply Forall_app_2; [done|]. by apply Forall_singleton.
      * assert (Hsl : fetch_inv given (set_last e s)) by (destruct Hi; by split).
        assert (Hr := set_racing_inv given (set_last e s) i Hsl Hp). destruct (enter_race_inv _ _ Hr) as (Hi' & Hm & Hn & _ & Hend).
        assert (Hcur : current s = Some i) by (unfold current; by rewrite Hp). rewrite Hcur. simpl.
        split_and!; [done| | |unfold measure in *; simpl in *; rewrite Hp; lia|simpl in *; lia|done].
        -- intros Hrc. destruct Hend as [[_ ?]|([x Hx] & _)]; [done|congruence].
        -- intros x Hx. destruct Hend as [[? _]|(_ & ? & ?)]; [congruence|done].
Qed.

Lemma phase_push s : fs_phase (push_next s) = fs_phase s.
Proof. unfold push_next. by destruct (hedge_start _) as [[? ?]|]. Qed.
Lemma current_settle s : fs_phase s = Racing -> current (settle_race s) = None.
Proof. intros Hp. unfold settle_race, current. destruct (_ && _); simpl; by rewrite ?Hp. Qed.
Lemma current_enter s : current (enter_race s) = None.
Proof. unfold enter_race. apply current_settle. case_decide; by rewrite ?phase_push. Qed.

Lemma fetch_run_inv evs given s s' :
  fetch_inv given s -> busy s -> over s -> fetch_run evs s = Some s' ->
  fetch_inv (given ++ gave_up (current s) evs) s' /\ busy s' /\ over s' /\ (measure s' + steps evs <= measure s)%nat /\
  (hp_next (fs_plan s') <= hp_next (fs_plan s) + length (gave_up (current s) evs) + hedges evs)%nat.
Proof.
  revert given s. induction evs as [|ev evs IH]; intros given s Hi Hb Ho; cbn [fetch_run].
  { intros [= <-]. cbn [gave_up]. rewrite app_nil_r. unfold steps, hedges. simpl. split_and!; try done; lia. }
  intros (s1 & Hs & Hr)%bind_Some. destruct (fetch_step_inv given ev s s1 Hi Hs) as (Hi1 & Hb1 & Ho1 & Hm1 & Hn1 & _).
  destruct (IH _ _ Hi1 Hb1 Ho1 Hr) as (Hi2 & Hb2 & Ho2 & Hm2 & Hn2).
  assert (Hg : gave_up (current s) (ev :: evs) = given_by (current s) ev ++ gave_up (current s1) evs).
  { assert (Hcur : current s = match fs_phase s with Transferring i | Fetched i => Some i | _ => None end) by done.
    unfold fetch_step in Hs. rewrite Hcur. destruct (fs_phase s) eqn:Hp; destruct ev as [j [[]|x]| |off|[[]|x]]; simpl; try done.
    - case_decide; [|done]. by injection Hs as <-.
    - case_decide; [|done].
      injection Hs as <-. by rewrite current_settle by by rewrite phase_push.
    - destruct (may_start (fs_plan s)); [|done]. injection Hs as <-. unfold current. by rewrite phase_push, Hp.
    - destruct (advance off _) as [b p]. injection Hs as <-. unfold current. by destruct b.
    - injection Hs as <-. simpl. destruct evs as [|ev' evs']; [done|]. simpl in Hr. unfold fetch_step in Hr. simpl in Hr. by destruct ev'.
    - injection Hs as <-. by rewrite current_enter. }
  rewrite Hg, app_assoc. split_and!; try done.
  - unfold steps in *. rewrite filter_cons. destruct (is_step ev); case_decide; simpl in *; try done; lia.
  - rewrite length_app. unfold hedges, is_hedge in *. rewrite filter_cons. repeat case_decide; simpl in *; try done; lia.
Qed.
End fetch.

Lemma fetch_start_inv hash n :
  fetch_inv n [] (fetch_start hash n) /\ busy (fetch_start hash n) /\ over n (fetch_start hash n) /\
  (measure n (fetch_start hash n) <= 3 * n)%nat /\ (hp_next (fs_plan (fetch_start hash n)) <= 1)%nat.
Proof.
  unfold fetch_start. set (s0 := emit TStarted _).
  assert (Hi : fetch_inv n [] (set_phase Racing s0)).
  { split; simpl; try done; [lia..|]. exists hash, []. split_and!; [done|done| |done]. by apply Forall_singleton. }
  destruct (enter_race_inv n [] s0 Hi) as (H1 & H2 & H3 & _ & H5). split_and!; [done| | |unfold measure in *; simpl in *; lia|done].
  - intros Hr. destruct H5 as [[_ ?]|([x Hx] & _)]; [done|congruence].
  - intros x Hx. destruct H5 as [[? _]|(_ & ? & ?)]; [congruence|done].
Qed.

Lemma fetch_step_done ev s s' i : fetch_step ev s = Some s' -> fs_phase s' = Fetched i -> ev = TransferEnded (Ok tt).
Proof.
  unfold fetch_step. destruct (fs_phase s) eqn:Hp; destruct ev as [j [[]|x]| |off|[[]|x]]; try done.
  - case_decide; [|done]. by intros [= <-].
  - case_decide; [|done]. intros [= <-]. unfold settle_race. destruct (_ && _); simpl; [done|]. rewrite phase_push. simpl. congruence.
  - destruct (may_start _); [|done]. intros [= <-]. rewrite phase_push. congruence.
  - destruct (advance off _) as [b p]. intros [= <-]. destruct b; simpl; congruence.
  - intros [= <-]. unfold enter_race, settle_race. destruct (_ && _); simpl; [done|]. case_decide; rewrite ?phase_push; done.
Qed.
Lemma fetch_run_done evs s s' i :
  fetch_run evs s = Some s' -> fs_phase s' = Fetched i -> (forall j, fs_phase s <> Fetched j) -> exists evs', evs = evs' ++ [TransferEnded (Ok tt)].
Proof.
  revert s. induction evs as [|ev evs IH]; intros s; simpl; [intros [= <-] Hp Hn; by destruct (Hn i)|].
  intros (s1 & Hs & Hr)%bind_Some Hp Hn. destruct (fs_phase s1) as [|j|j|x] eqn:Hp1; try by (destruct (IH s1 Hr Hp ltac:(congruence)) as [evs' ->]; exists (ev :: evs')).
  pose proof (fetch_step_done _ _ _ _ Hs Hp1) as ->. destruct evs as [|ev' evs]; [by exists []|]. exfalso. simpl in Hr. unfold fetch_step in Hr. rewrite Hp1 in Hr. by destruct ev'.
Qed.

(** *** The registry of fetches *)
Definition watching (h : string) (guards : gmap nat FetchGuard) : nat := size (filter (fun kv => fg_hash kv.2 = h) guards).

Record fetches_inv (f : Fetches) : Prop := {
  ci_waiters h : from_option sl_waiters 0 (ft_slots f !! h) = Z.of_nat (watching h (ft_guards f));
  ci_live h slot : ft_slots f !! h = Some slot -> 0 < sl_waiters slot /\ (sl_token slot < length (ft_tokens f))%nat;
  ci_guard id g : ft_guards f !! id = Some g -> exists slot, ft_slots f !! fg_hash g = Some slot /\ (fg_token g < length (ft_tokens f))%nat /\
    (fg_token g = sl_token slot \/ tripped f (fg_token g) = true);
  ci_apart h h' slot slot' : ft_slots f !! h = Some slot -> ft_slots f !! h' = Some slot' -> sl_token slot = sl_token slot' -> h = h';
  ci_room : Z.of_nat (size (ft_guards f)) < 2 ^ 64 }.

Lemma watching_le h guards : (watching h guards <= size guards)%nat.
Proof. apply map_size_filter. Qed.
Lemma watching_insert h id g guards :
  guards !! id = None -> watching h (<[id := g]> guards) = (watching h guards + if decide (fg_hash g = h) then 1 else 0)%nat.
Proof.
  intros Hid. unfold watching. rewrite map_filter_insert. simpl. case_decide.
  - rewrite map_size_insert_None; [lia|]. apply map_lookup_filter_None. by left.
  - rewrite delete_id by done. lia.
Qed.
Lemma watching_delete h id g guards :
  guards !! id = Some g -> watching h guards = (watching h (delete id guards) + if decide (fg_hash g = h) then 1 else 0)%nat.
Proof. intros Hid. rewrite <- (insert_delete_id guards id g Hid) at 1. apply watching_insert. apply lookup_delete_eq. Qed.
Lemma watching_0 h guards : watching h guards = 0%nat <-> forall id g, guards !! id = Some g -> fg_hash g <> h.
Proof.
  split.
  - intros Hw id g Hg Hh. rewrite (watching_delete h id g guards Hg), decide_True in Hw by done. lia.
  - intros Hf. unfold watching. apply map_size_empty_iff, map_empty. intros id. apply map_lookup_filter_None. right. intros g Hg. by apply (Hf id).
Qed.

Lemma tripped_app f t l : (t < length (ft_tokens f))%nat -> default false ((ft_tokens f ++ l) !! t) = tripped f t.
Proof. intros Ht. unfold tripped. by rewrite lookup_app_l. Qed.

(** The token a fetch registers on is live, and is the one its siblings watch unless that one was tripped. *)
Lemma register_spec id h f :
  fetches_inv f ->
  exists more token,
    register id h f = {| ft_tokens := ft_tokens f ++ more;
      ft_slots := <[h := {| sl_token := token; sl_waiters := (from_option sl_waiters 0 (ft_slots f !! h) + 1) mod 2 ^ 64 |}]> (ft_slots f);
      ft_guards := <[id := {| fg_hash := h; fg_token := token; fg_finished := false |}]> (ft_guards f); ft_aborted := ft_aborted f |} /\
    (token < length (ft_tokens f ++ more))%nat /\ default false ((ft_tokens f ++ more) !! token) = false /\
    ((length (ft_tokens f) <= token)%nat /\ (forall slot, ft_slots f !! h = Some slot -> tripped f (sl_token slot) = true) \/
     exists slot, ft_slots f !! h = Some slot /\ token = sl_token slot).
Proof.
  intros Hi. unfold register. destruct (ft_slots f !! h) as [slot|] eqn:Hs; simpl.
  - destruct (ci_live _ Hi _ _ Hs) as [_ Hl]. destruct (default false (ft_tokens f !! sl_token slot)) eqn:Ht.
    + exists [false], (length (ft_tokens f)). split_and!; [done|rewrite length_app; simpl; lia|by rewrite list_lookup_middle|].
      left. split; [done|]. by intros ? [= <-].
    + exists [], (sl_token slot). rewrite app_nil_r. split_and!; [done|done|done|]. right. by exists slot.
  - rewrite list_lookup_middle by done. simpl. exists [false], (length (ft_tokens f)). split_and!; [done|rewrite length_app; simpl; lia|by rewrite list_lookup_middle|].
    left. by split.
Qed.


Lemma register_inv id h f :
  fetches_inv f -> ft_guards f !! id = None -> Z.of_nat (size (ft_guards f)) + 1 < 2 ^ 64 -> fetches_inv (register id h f).
Proof.
  intros Hi Hid Hroom. destruct (register_spec id h f Hi) as (more & token & -> & Hlt & Hfresh & Hsib). pose proof Hi as [H1 H2 H3 H4 H5].
  assert (Hw : (from_option sl_waiters 0 (ft_slots f !! h) + 1) mod 2 ^ 64 = Z.of_nat (watching h (ft_guards f)) + 1).
  { rewrite H1. apply Z.mod_small. pose proof (watching_le h (ft_guards f)). lia. }
  assert (Hold : forall h' slot', ft_slots f !! h' = Some slot' -> h' <> h -> sl_token slot' <> token).
  { intros h' slot' Hs' Hne Heq. destruct Hsib as [[Hge _]|(slot & Hs & Htok)]; [destruct (H2 _ _ Hs'); lia|]. apply Hne, (H4 _ _ _ _ Hs' Hs). congruence. }
  split; simpl.
  - intros h'. rewrite watching_insert by done. simpl. destruct (decide (h = h')) as [<-|Hne]; [rewrite lookup_insert_eq; simpl; rewrite Hw; lia|].
    rewrite lookup_insert_ne by done. rewrite H1. lia.
  - intros h' slot' [[<- <-]|[Hne Hs]]%lookup_insert_Some; simpl; [split; [rewrite Hw; lia|done]|].
    destruct (H2 _ _ Hs). rewrite length_app. split; [done|lia].
  - intros id' g' [[<- <-]|[Hne Hg]]%lookup_insert_Some; simpl.
    + eexists. rewrite lookup_insert_eq. split_and!; [done|done|by left].
    + destruct (H3 _ _ Hg) as (slot & Hs & Hl & Ht). unfold tripped. simpl. rewrite tripped_app by done.
      destruct (decide (h = fg_hash g')) as [->|Hne']; [rewrite lookup_insert_eq|rewrite lookup_insert_ne by done];
        (eexists; split_and!; [done|rewrite length_app; lia|]); simpl; [|done].
      destruct Hsib as [[_ Htr]|(slot0 & Hs0 & ->)]; [right; destruct Ht as [->|?]; [by apply Htr|done]|].
      assert (slot0 = slot) as -> by congruence. done.
  - intros h1 h2 s1 s2 [[<- <-]|[Hn1 Hs1]]%lookup_insert_Some [[<- <-]|[Hn2 Hs2]]%lookup_insert_Some; simpl; intros Heq; [done| | |by apply (H4 _ _ _ _ Hs1 Hs2)].
    + exfalso. by apply (Hold _ _ Hs2).
    + exfalso. by apply (Hold _ _ Hs1).
  - rewrite map_size_insert_None by done. lia.
Qed.

Lemma drop_guard_inv id f : fetches_inv f -> fetches_inv (drop_guard id f).
Proof.
  intros Hi. unfold drop_guard. destruct (ft_guards f !! id) as [g|] eqn:Hg; [|done]. pose proof Hi as [H1 H2 H3 H4 H5].
  destruct (H3 _ _ Hg) as (slot & Hs & _). rewrite Hs. destruct (H2 _ _ Hs) as [Hpos Hl].
  pose proof (H1 (fg_hash g)) as Hw. rewrite Hs in Hw. simpl in Hw. rewrite (watching_delete _ _ _ _ Hg), decide_True in Hw by done.
  assert (Hother : forall h, h <> fg_hash g -> watching h (delete id (ft_guards f)) = watching h (ft_guards f)).
  { intros h Hne. rewrite (watching_delete h _ _ _ Hg), decide_False by congruence. lia. }
  set (slots := if decide _ then _ else _).
  assert (Hsl : forall h, slots !! h = if decide (h = fg_hash g) then
      (if decide (watching (fg_hash g) (delete id (ft_guards f)) = 0%nat) then None else Some {| sl_token := sl_token slot; sl_waiters := sl_waiters slot - 1 |})
      else ft_slots f !! h).
  { intros h. unfold slots. rewrite Z.max_r by lia. destruct (decide (sl_waiters slot - 1 = 0)) as [Hz|Hz].
    - rewrite (decide_True (P := watching _ _ = _)) by lia. case_decide; [subst; by rewrite lookup_delete_eq|by rewrite lookup_delete_ne].
    - rewrite (decide_False (P := watching _ _ = _)) by lia. case_decide; [subst; by rewrite lookup_insert_eq|by rewrite lookup_insert_ne]. }
  split; simpl.
  - intros h. rewrite Hsl. destruct (decide (h = fg_hash g)) as [->|Hh]; [case_decide; simpl; lia|rewrite Hother by done; apply H1].
  - intros h sl. rewrite Hsl. destruct (decide (h = fg_hash g)) as [->|Hh]; [case_decide; [done|]; intros [= <-]; simpl; lia|apply H2].
  - intros id' g' [Hne Hg']%lookup_delete_Some. destruct (H3 _ _ Hg') as (slot' & Hs' & Hl' & Ht'). rewrite Hsl.
    destruct (decide (fg_hash g' = fg_hash g)) as [Hh|Hh]; [|by exists slot']. case_decide as Hz.
    + exfalso. apply (proj1 (watching_0 _ _) Hz id' g'); [by rewrite lookup_delete_ne|done].
    + eexists. split_and!; [done|done|]. simpl. by replace slot with slot' by congruence.
  - intros h1 h2 s1 s2. rewrite !Hsl. repeat case_decide; try done; subst; try (by intros); intros; simplify_eq; simpl in *; eauto.
  - rewrite map_size_delete, Hg. lia.
Qed.

Lemma answer_inv id f : fetches_inv f -> fetches_inv (answer id f).
Proof.
  intros Hi. unfold answer. destruct (ft_guards f !! id) as [g|] eqn:Hg; [|done]. pose proof Hi as [H1 H2 H3 H4 H5].
  assert (Hw : forall h, watching h (<[id := {| fg_hash := fg_hash g; fg_token := fg_token g; fg_finished := true |}]> (ft_guards f)) = watching h (ft_guards f)).
  { intros h. rewrite <- insert_delete_eq, watching_insert by apply lookup_delete_eq. by rewrite (watching_delete h id g _ Hg). }
  split; simpl; try done.
  - intros h. by rewrite Hw.
  - intros id' g' [[<- <-]|[_ Hg']]%lookup_insert_Some; simpl; [by apply (H3 id)|by apply (H3 id')].
  - rewrite map_size_insert_Some; [done|by eexists].
Qed.

Lemma cancel_tripped h f t slot :
  fetches_inv f -> ft_slots f !! h = Some slot -> tripped (cancel h f).2 t = true <-> tripped f t = true \/ t = sl_token slot.
Proof.
  intros Hi Hs. unfold cancel, tripped. rewrite Hs. simpl. destruct (ci_live _ Hi _ _ Hs) as [_ Hl].
  destruct (decide (t = sl_token slot)) as [->|Hne]; [rewrite list_lookup_insert_eq by done; naive_solver|].
  rewrite list_lookup_insert_ne by congruence. naive_solver.
Qed.

Lemma cancel_inv h f : fetches_inv f -> fetches_inv (cancel h f).2.
Proof.
  intros Hi. destruct (ft_slots f !! h) as [slot|] eqn:Hs; [|unfold cancel; by rewrite Hs]. pose proof Hi as [H1 H2 H3 H4 H5].
  assert (Hc : (cancel h f).2 = {| ft_tokens := <[sl_token slot := true]> (ft_tokens f); ft_slots := ft_slots f; ft_guards := ft_guards f; ft_aborted := ft_aborted f |})
    by (unfold cancel; by rewrite Hs).
  split; [by rewrite Hc| | |by rewrite Hc|by rewrite Hc].
  - intros h' slot' Hs'. rewrite Hc in *. simpl in *. rewrite length_insert. by apply (H2 h').
  - intros id g Hg. assert (Hg' : ft_guards f !! id = Some g) by (by rewrite Hc in Hg). destruct (H3 _ _ Hg') as (slot' & Hs' & Hl' & Ht').
    exists slot'. split_and!; [by rewrite Hc|rewrite Hc; simpl; by rewrite length_insert|].
    destruct Ht' as [?|?]; [by left|right]. apply (cancel_tripped h f _ slot Hi Hs). by left.
Qed.

Lemma fetches_reachable_inv f : rtc fetches_step no_fetches f -> fetches_inv f.
Proof.
  apply (rtc_ind_r (fun f => fetches_inv f)); [by split|].
  intros f1 f2 _ Hs Hi. destruct Hs; [by apply register_inv|by apply answer_inv|by apply drop_guard_inv|by apply cancel_inv].
Qed.

(** ** Properties *)

(** A fetch asks no more of others than it must.  Whatever order dials, hedges and transfers end
    in, every source dialled so far is in exactly one place (given up, in use, or being dialled),
    in the order of the list, so none is dialled twice; at most three dials run at once; without
    a hedge a further source is dialled only for one given up; and its subscribers see one
    Started, then progress of one blob, and one terminal frame, at the end and nowhere else. *)
Theorem fetch_hedged hash n evs s :
  fetch_run evs (fetch_start hash n) = Some s ->
  let dialled := hp_next (fs_plan s) in
  gave_up None evs ++ option_list (current s) ++ fs_flight s ≡ₚ seq 0 dialled /\ (dialled <= n)%nat /\
  (length (fs_flight s) <= 3)%nat /\
  (dialled <= 1 + length (gave_up None evs) + hedges evs)%nat /\
  exists progress, bt_state <$> fs_frames s = TStarted :: progress ++ terminal (fs_phase s) /\
    Forall (fun st => st = TProgress) progress /\ exists h, Forall (fun f => bt_hash f = h) (fs_frames s).
Proof.
  intros Hr dialled. destruct (fetch_start_inv hash n) as (Hi & Hb & Ho & _ & Hn). assert (Hc : current (fetch_start hash n) = None) by apply current_enter.
  destruct (fetch_run_inv n evs [] _ s Hi Hb Ho Hr) as ([_ H2 _ H4 H5 (h & pr & Hf & Hpr & Hh & _)] & _ & _ & _ & Hd). rewrite Hc in *.
  split_and!; [done|done|done|unfold dialled; lia|]. exists pr. split_and!; [done|done|by exists h].
Qed.

(** C24: a fetch ends, and only gives up when everybody was asked.  Its dials, hedges and transfers
    together are at most three per source; as long as it is not over a dial or a transfer of it
    runs; it succeeds only on a transfer that completed; and it fails only when every source was
    dialled and its dial, or the transfer over it, failed. *)
Theorem fetch_ends hash n evs s :
  fetch_run evs (fetch_start hash n) = Some s ->
  (steps evs <= 3 * n)%nat /\
  match fs_phase s with
  | Racing => fs_flight s <> []
  | Transferring i => (i < n)%nat
  | Fetched i => (i < n)%nat /\ exists evs', evs = evs' ++ [TransferEnded (Ok tt)]
  | Failed _ => gave_up None evs ≡ₚ seq 0 n
  end.
Proof.
  intros Hr. destruct (fetch_start_inv hash n) as (Hi & Hb & Ho & Hm & _). assert (Hc : current (fetch_start hash n) = None) by apply current_enter.
  destruct (fetch_run_inv n evs [] _ s Hi Hb Ho Hr) as ([_ H2 _ _ H5 _] & Hb' & Ho' & Hs & _). rewrite Hc in *. split; [lia|].
  assert (Hlt : forall i, current s = Some i -> (i < n)%nat).
  { intros i Hcur. assert (i ∈ seq 0 (hp_next (fs_plan s))) as [_ ?]%elem_of_seq; [|lia]. rewrite <- H5, Hcur. simpl. in_list. }
  destruct (fs_phase s) as [|i|i|e] eqn:Hp; [by apply Hb'|apply Hlt; unfold current; by rewrite Hp| |].
  - split; [apply Hlt; unfold current; by rewrite Hp|]. apply (fetch_run_done evs (fetch_start hash n) s i Hr Hp).
    intros j Hj. unfold current in Hc. by rewrite Hj in Hc.
  - destruct (Ho' e Hp) as [Hf Hn]. rewrite Hf, Hn in H5. unfold current in H5. rewrite Hp in H5. simpl in H5. by rewrite !app_nil_r in H5.
Qed.

(** A cancellation stops exactly the fetches of its hash.  Whatever fetches have started,
    answered and been dropped, it answers that there was one exactly when one is registered; it
    trips the token of every fetch of the hash, of no other, and a fetch registered afterwards,
    of the same hash too, starts on a live one. *)
Theorem cancel_reaches f h :
  rtc fetches_step no_fetches f ->
  ((cancel h f).1 = true <-> exists id g, ft_guards f !! id = Some g /\ fg_hash g = h) /\
  (forall id g, ft_guards f !! id = Some g ->
     tripped (cancel h f).2 (fg_token g) = true <-> tripped f (fg_token g) = true \/ fg_hash g = h) /\
  (forall id' h', exists g, ft_guards (register id' h' (cancel h f).2) !! id' = Some g /\ fg_hash g = h' /\
     tripped (register id' h' (cancel h f).2) (fg_token g) = false).
Proof.
  intros Hi%fetches_reachable_inv. split_and!.
  - destruct (ft_slots f !! h) as [slot|] eqn:Hs; unfold cancel; rewrite Hs; simpl; (split; [|]).
    + intros _. destruct (decide (watching h (ft_guards f) = 0%nat)) as [Hz|Hz].
      * pose proof (ci_waiters _ Hi h) as Hw. rewrite Hs, Hz in Hw. simpl in Hw. destruct (ci_live _ Hi _ _ Hs). lia.
      * apply dec_stable. intros Hn. apply Hz, watching_0. intros id g Hg Hh. apply Hn. eauto.
    + done.
    + done.
    + intros (id & g & Hg & <-). destruct (ci_guard _ Hi _ _ Hg) as (slot & Hs' & _). congruence.
  - intros id g Hg. destruct (ci_guard _ Hi _ _ Hg) as (slot & Hs & _ & Ht). destruct (ft_slots f !! h) as [slot'|] eqn:Hs'.
    + rewrite (cancel_tripped h f _ slot' Hi Hs'). split.
      * intros [?|Htok]; [by left|]. destruct Ht as [Ht|?]; [right|by left]. apply (ci_apart _ Hi _ _ _ _ Hs Hs'). congruence.
      * intros [?|<-]; [by left|]. destruct Ht as [?|?]; [right; congruence|by left].
    + unfold cancel. rewrite Hs'. simpl. split; [by left|]. intros [?|<-]; [done|congruence].
  - intros id' h'. destruct (register_spec id' h' _ (cancel_inv h f Hi)) as (more & token & -> & _ & Hfresh & _). simpl.
    eexists. rewrite lookup_insert_eq. by split_and!.
Qed.

Lemma fresh_sources_spec alternates seen out :
  let r := foldl fresh_source (seen, out) alternates in
  (forall id, id ∈ r.1 <-> id ∈ seen \/ id ∈ ea_id <$> alternates) /\
  exists more, r.2 = out ++ more /\ more `sublist_of` alternates /\ NoDup (ea_id <$> more) /\ (forall a, a ∈ more -> ea_id a ∉ seen) /\
    (forall a, a ∈ alternates -> ea_id a ∈ seen \/ ea_id a ∈ ea_id <$> more).
Proof.
  revert seen out. induction alternates as [|a l IH]; intros seen out; cbn [foldl].
  - split; [intros id; rewrite elem_of_nil; tauto|]. exists []. rewrite app_nil_r. split_and!; try done; [constructor|by intros a ?%not_elem_of_nil|by intros a ?%not_elem_of_nil].
  - unfold fresh_source at 2 4. cbn [fst snd]. case_decide as Hin.
    + destruct (IH seen out) as (H1 & more & H2 & H3 & H4 & H5 & H6). split.
      * intros id. rewrite H1, fmap_cons, elem_of_cons. naive_solver.
      * exists more. split_and!; try done; [by apply sublist_cons|]. intros x [->|Hx]%elem_of_cons; [by left|by apply H6].
    + destruct (IH (seen ++ [ea_id a]) (out ++ [a])) as (H1 & more & H2 & H3 & H4 & H5 & H6). split.
      * intros id. rewrite H1, elem_of_app, list_elem_of_singleton, fmap_cons, elem_of_cons. tauto.
      * exists (a :: more). rewrite H2, <- app_assoc. split_and!; [done|by apply sublist_skip| | |].
        -- rewrite fmap_cons. constructor; [|done]. intros (b & Hb & Hbm)%list_elem_of_fmap. apply (H5 b Hbm). rewrite elem_of_app, list_elem_of_singleton. by right.
        -- intros x [->|Hx]%elem_of_cons; [done|]. intros Hs. apply (H5 x Hx). rewrite elem_of_app. by left.
        -- intros x [->|Hx]%elem_of_cons; [right; rewrite fmap_cons; by left|]. destruct (H6 x Hx) as [Hs|?]; [|right; rewrite fmap_cons; by right].
           rewrite elem_of_app, list_elem_of_singleton in Hs. destruct Hs as [?|Heq]; [by left|right; rewrite fmap_cons, Heq; by left].
Qed.

Section sources.
Context `{E : Ed25519, T : TextEncoding, R : RowCodec, A : AddrCodec, K : Tickets}.

(** A fetch dials nobody this node refuses, whoever wrote the ticket.  Every source is the
    ticket's publisher or a device one of the caller's names stands for, is not revoked here in any
    table, appears once, and is dialled only at addresses a peer can be reached at; the
    publisher comes first unless it is revoked, and then no name brings it back. *)
Theorem fetch_sources_sound io m ticket_str from ticket srcs skipped :
  blob_fetch_sources io m ticket_str from = Ok (ticket, srcs, skipped) ->
  ticket_from_str ticket_str = Some ticket /\ NoDup (ea_id <$> srcs) /\
  (forall a, a ∈ srcs -> dial_refused io m (ea_id a) = false /\ (forall t, t ∈ ea_addrs a -> is_dialable_addr t = true) /\
     (ea_id a = ea_id (bk_addr ticket) \/ exists name, name ∈ from /\ stands_for m name (ea_id a))) /\
  (dial_refused io m (ea_id (bk_addr ticket)) = false -> head srcs = Some (dialable_only (bk_addr ticket))).
Proof.
  unfold blob_fetch_sources. intros (tk & Ht%ok_or_Ok & (bs & Hbs%map_err_Ok & [= -> <- _])%bind_Ok)%bind_Ok.
  destruct (blob_sources_sound _ _ _ _ Hbs) as (_ & Hnd & Hbs' & _).
  destruct (fresh_sources_spec (bs_addrs bs) [ea_id (bk_addr ticket)] []) as (_ & more & Hmore & Hsub & Hndm & Hapart & _).
  unfold sources. rewrite Hmore. cbn [app]. split_and!; [done| | |].
  - destruct (dial_refused _ _ _); simpl; [done|]. constructor; [|done].
    intros (b & Hb & Hbm)%list_elem_of_fmap. apply (Hapart b Hbm). apply list_elem_of_singleton. by rewrite <- Hb.
  - intros a [Ha|Ha]%elem_of_app.
    + destruct (dial_refused io m (ea_id (bk_addr ticket))) eqn:Hr; [by apply not_elem_of_nil in Ha|]. apply list_elem_of_singleton in Ha as ->.
      split_and!; [done| |by left]. intros t Hin. unfold dialable_only in Hin. simpl in Hin. by apply list_elem_of_filter in Hin as [? _].
    + destruct (Hbs' a) as (Hname & Href & Hd); [by eapply elem_of_sublist|]. split_and!; [done|done|by right].
  - intros ->. done.
Qed.
End sources.

(** ** Witnesses *)
Module Witness.
Import Toy ToyRows Limits.Witness Peers.Witness Dial.Witness.

(** The publisher is unreachable; the alternate holds the blob. *)
Definition evs : list FetchEvent := [DialEnded 0 (Err "timed out"%string); DialEnded 1 (Ok tt); Progressed 5000000; TransferEnded (Ok tt)].
Definition over_alternate : FetchState := default (fetch_start "aa" 2) (fetch_run evs (fetch_start "aa" 2)).
Lemma over_alternate_run : fetch_run evs (fetch_start "aa" 2) = Some over_alternate.
Proof. reflexivity. Qed.
Lemma fetch_hedged_witness : (hp_next (fs_plan over_alternate) <= 1 + length (gave_up None evs) + hedges evs)%nat /\
  bt_state <$> fs_frames over_alternate = [TStarted; TProgress; TCompleted].
Proof. destruct (fetch_hedged "aa" 2 evs over_alternate over_alternate_run) as (_ & _ & _ & H & _). split; [exact H|vm_compute; reflexivity]. Defined.
Lemma fetch_ends_witness : (steps evs <= 6)%nat /\ fs_phase over_alternate = Fetched 1.
Proof. destruct (fetch_ends "aa" 2 evs over_alternate over_alternate_run) as [H _]. split; [exact H|reflexivity]. Defined.

Definition one_fetch : Fetches := register 0 "aa" no_fetches.
Lemma one_fetch_reached : rtc fetches_step no_fetches one_fetch.
Proof. apply rtc_once. apply fstep_register; [reflexivity|vm_compute; reflexivity]. Qed.
Lemma cancel_reaches_witness : (cancel "aa" one_fetch).1 = true.
Proof.
  apply (proj2 (proj1 (cancel_reaches one_fetch "aa" one_fetch_reached))). exists 0%nat, {| fg_hash := "aa"; fg_token := 0; fg_finished := false |}. split; reflexivity.
Defined.

#[local] Instance no_hints : AddrCodec := {| addr_to_string _ := "hint"; addr_from_str _ := None |}.
#[local] Instance tickets : Tickets := {| ticket_from_str _ := Some {| bk_addr := {| ea_id := phone; ea_addrs := [] |}; bk_hash := "aa" |} |}.
Lemma fetch_ok : is_ok (blob_fetch_sources dial_io m2 "t" ["alice"%string]) = true.
Proof. vm_compute. reflexivity. Qed.
Lemma fetch_sources_sound_witness : exists t srcs n, blob_fetch_sources dial_io m2 "t" ["alice"%string] = Ok (t, srcs, n) /\ NoDup (ea_id <$> srcs).
Proof.
  destruct (blob_fetch_sources dial_io m2 "t" ["alice"%string]) as [[[t srcs] n]|e] eqn:Hf; [|pose proof fetch_ok as Hk; rewrite Hf in Hk; discriminate Hk].
  exists t, srcs, n. split; [reflexivity|]. destruct (fetch_sources_sound dial_io m2 "t" ["alice"%string] t srcs n Hf) as (_ & H & _). exact H.
Defined.
End Witness.
