(* ===== verification/Control.v ===== *)
(** * The control server

    [node/src/control.rs]: the frames of mcpmesh-local/1, the dispatch of a request to its verb,
    the codes errors carry, the loop of one connection with its concurrent requests and its two
    upgrades, the teardown of what a connection registered ephemerally, the event stream, and the
    audit verbs.  What a verb does is modelled with its component; here a verb is the outcome of
    its handler.  Requests of one connection run concurrently: a step is one thing the loop or one
    of its tasks does. *)
From stdpp Require Import base list gmap sets strings relations.
From Stdlib Require Import ZArith Lia.
From S2P Require Import Prelude Bytes Json AuditFiles Session Mesh Publishing.

Local Open Scope Z_scope.

(** ** Frames *)
Definition API_NAME : string := "mcpmesh-local/1".
Definition API_VERSION : string := "1.66".
Definition API_MINOR : Z := 66.
Definition MAX_INFLIGHT : nat := 32.

Definition ERR_NO_SUCH_SERVICE : Z := -32040.
Definition ERR_NO_SUCH_BLOB : Z := -32041.
Definition ERR_BLOB_WITHDRAWN : Z := -32042.
Definition ERR_NICKNAME_TAKEN : Z := -32043.
Definition ERR_CANCELLED : Z := -32050.
Definition ERR_TOO_MANY_INFLIGHT : Z := -32051.
Definition ERR_PRINCIPAL_REVOKED : Z := -32056.

(** The server speaks first. *)
Definition hello (stack_version : string) : Value :=
  VObject [("api"%string, VString API_NAME); ("api_version"%string, VString API_VERSION);
           ("api_minor"%string, VNumber (NInt API_MINOR)); ("stack_version"%string, VString stack_version)].

Definition method_of (v : Value) : option string := value_get "method" v ≫= as_str.
Definition id_of (req : Value) : Value := default VNull (value_get "id" req).
Definition params_in (req : Value) : Value := default VNull (value_get "params" req).

Definition ok_frame (id result : Value) : Value :=
  VObject [("id"%string, id); ("jsonrpc"%string, VString "2.0"); ("result"%string, result)].
Definition error_frame (id : Value) (code : Z) (message : string) : Value :=
  VObject [("error"%string, VObject [("code"%string, VNumber (NInt code)); ("message"%string, VString message)]);
           ("id"%string, id); ("jsonrpc"%string, VString "2.0")].

Definition as_bool (v : Value) : option bool := match v with VBool b => Some b | _ => None end.

(** The name a request would register ephemerally. *)
Definition ephemeral_name (req : Value) : option string :=
  if bool_decide (method_of req = Some "register_service"%string) then
    params ← value_get "params" req;
    if default false (value_get "ephemeral" params ≫= as_bool) then value_get "name" params ≫= as_str else None
  else None.

(** ** Errors and their codes *)
Inductive CallKind :=
| KInvalidParams | KBlobWithdrawn | KNoSuchBlob | KCancelled | KPairRefusal (code : Z) | KNicknameTaken
| KNoSuchService | KNoSuchBlobScope | KPrincipalRevoked | KOther.
Record CallError := { ce_kind : CallKind; ce_msg : string }.

Definition error_code (k : CallKind) : Z :=
  match k with
  | KInvalidParams => -32602
  | KBlobWithdrawn => ERR_BLOB_WITHDRAWN
  | KNoSuchBlob => ERR_NO_SUCH_BLOB
  | KCancelled => ERR_CANCELLED
  | KPairRefusal code => code
  | KNicknameTaken => ERR_NICKNAME_TAKEN
  | KNoSuchService | KNoSuchBlobScope => ERR_NO_SUCH_SERVICE
  | KPrincipalRevoked => ERR_PRINCIPAL_REVOKED
  | KOther => -32000
  end.

Definition respond (id : Value) (method : string) (r : result CallError Value) : Value :=
  match r with
  | Ok v => ok_frame id v
  | Err e => error_frame id (error_code (ce_kind e)) (method +:+ " failed: " +:+ ce_msg e)
  end.

(** What the service and blob verbs' typed errors become. *)
Definition verb_kind (e : VerbError) : CallKind :=
  match e with
  | InvalidParams _ => KInvalidParams
  | NoSuchService _ => KNoSuchService
  | PrincipalRevoked _ => KPrincipalRevoked
  | Failed _ => KOther
  end.
Definition blob_kind (e : BlobError) : CallKind :=
  match e with
  | NoSuchBlobScope _ => KNoSuchBlobScope
  | NoSuchBlob _ => KNoSuchBlob
  | BlobWithdrawn _ _ => KBlobWithdrawn
  | _ => KOther
  end.

(** ** Dispatch *)
Inductive Method :=
| RegisterService | PeerAdd | PeerIntroduce | PeerEndorse | PeerRemove | OrgRotate | AttestOffer | AttestTo
| PeerRevoke | PeerUnrevoke | DeviceRevoke | DeviceRevocationImport | PeerRename | Invite | Pair
| RosterMembers | OrgCreate | OrgApprove | UserKeyExport | UserKeyImport | SelfEnrollDetach | OrgJoinCode | OrgRevoke
| RosterInstall | OrgJoin | SetRosterUrl | SetNickname | SetRelays | PeerServices | PeerDiagnostics | PeerHintClear
| UnregisterService | ServiceAllowGrant | ServiceAllowRevoke | SetAppMetadata
| BlobPublish | BlobGrant | BlobRevoke | BlobUnpublish | BlobRepublish | BlobList | BlobFetchVerb | BlobFetchCancel
| AuditSummary | AuditPrune | AuditList | Status | Shutdown.

#[export] Instance Method_eq_dec : EqDecision Method.
Proof. solve_decision. Defined.

Definition methods : list (string * Method) :=
  [("register_service", RegisterService); ("peer_add", PeerAdd); ("peer_introduce", PeerIntroduce); ("peer_endorse", PeerEndorse);
   ("peer_remove", PeerRemove); ("org_rotate", OrgRotate); ("attest_offer", AttestOffer); ("attest_to", AttestTo);
   ("peer_revoke", PeerRevoke); ("peer_unrevoke", PeerUnrevoke); ("device_revoke", DeviceRevoke);
   ("device_revocation_import", DeviceRevocationImport); ("peer_rename", PeerRename); ("invite", Invite); ("pair", Pair);
   ("roster_members", RosterMembers); ("org_create", OrgCreate); ("org_approve", OrgApprove); ("user_key_export", UserKeyExport);
   ("user_key_import", UserKeyImport); ("self_enroll_detach", SelfEnrollDetach); ("org_join_code", OrgJoinCode);
   ("org_revoke", OrgRevoke); ("roster_install", RosterInstall); ("org_join", OrgJoin); ("set_roster_url", SetRosterUrl);
   ("set_nickname", SetNickname); ("set_relays", SetRelays); ("peer_services", PeerServices); ("peer_diagnostics", PeerDiagnostics);
   ("peer_hint_clear", PeerHintClear); ("unregister_service", UnregisterService); ("service_allow_grant", ServiceAllowGrant);
   ("service_allow_revoke", ServiceAllowRevoke); ("set_app_metadata", SetAppMetadata); ("blob_publish", BlobPublish);
   ("blob_grant", BlobGrant); ("blob_revoke", BlobRevoke); ("blob_unpublish", BlobUnpublish); ("blob_republish", BlobRepublish);
   ("blob_list", BlobList); ("blob_fetch", BlobFetchVerb); ("blob_fetch_cancel", BlobFetchCancel); ("audit_summary", AuditSummary);
   ("audit_prune", AuditPrune); ("audit_list", AuditList); ("status", Status); ("shutdown", Shutdown)]%string.

Definition find_method (name : string) : option Method :=
  snd <$> find_first (fun nm => String.eqb name nm.1) methods.

(** How an arm takes its parameters: not at all; deserialized, a failure reported like any other of
    the verb; deserialized with a bare message; or after asking for the mesh. *)
Inductive Shape := NoParams | WithParams | BareParams | MeshFirst.
Definition shape (m : Method) : Shape :=
  match m with
  | AttestOffer | RosterMembers | UserKeyExport | SelfEnrollDetach | AuditSummary | Status | Shutdown => NoParams
  | PeerServices | PeerDiagnostics | PeerHintClear => BareParams
  | Invite => MeshFirst
  | _ => WithParams
  end.

(** A verb that answers nothing answers the empty object. *)
Definition answers_unit (m : Method) : bool :=
  match m with
  | RegisterService | PeerAdd | PeerIntroduce | PeerRemove | PeerRename | SetRosterUrl | SetNickname | UnregisterService
  | ServiceAllowGrant | ServiceAllowRevoke | SetAppMetadata | BlobGrant | BlobRevoke | BlobUnpublish => true
  | _ => false
  end.
Definition unit_value : Value := VObject [].

(** serde: do these parameters deserialize into the method's struct, and if not, why. *)
Class ParamsCodec := { params_error : Method -> Value -> option string }.

Definition NO_MESH : string := "daemon has no mesh (control-only mode)".

Section dispatch.
Context `{P : ParamsCodec}.

Definition params_of (m : Method) (params : Value) : result CallError Value :=
  let v := if is_null params then VObject [] else params in
  match params_error m v with
  | None => Ok v
  | Some e => Err {| ce_kind := KInvalidParams; ce_msg := "invalid params: " +:+ e |}
  end.

(** What the handlers do: [h_run] on the parameters; [h_join] when the summary's blocking task
    panicked. *)
Record Handlers := {
  h_mesh : bool;
  h_run : Method -> Value -> result CallError Value;
  h_join : option string }.

Definition finish (m : Method) (r : result CallError Value) : result CallError Value :=
  if answers_unit m then (fun _ => unit_value) <$> r else r.

Definition run_method (h : Handlers) (id params : Value) (name : string) (m : Method) : Value :=
  match shape m with
  | NoParams =>
      match m, h_join h with
      | AuditSummary, Some e => error_frame id (-32000) ("audit_summary task failed: " +:+ e)
      | Shutdown, _ => ok_frame id unit_value
      | _, _ => respond id name (finish m (h_run h m VNull))
      end
  | WithParams => respond id name (finish m (p ← params_of m params; h_run h m p))
  | BareParams =>
      match params_of m params with
      | Ok p => respond id name (finish m (h_run h m p))
      | Err e => error_frame id (-32602) (name +:+ ": " +:+ ce_msg e)
      end
  | MeshFirst =>
      if h_mesh h then respond id name (finish m (p ← params_of m params; h_run h m p))
      else error_frame id (-32000) NO_MESH
  end.

Definition handle_request (h : Handlers) (req : Value) : Value :=
  let id := id_of req in
  match method_of req with
  | Some name =>
      match find_method name with
      | Some m => run_method h id (params_in req) name m
      | None => error_frame id (-32601) ("unknown method: " +:+ name)
      end
  | None => error_frame id (-32600) "request is missing a `method`"
  end.

(** ** One connection *)

(** A running request: [tk_ephemeral] is the name recorded for teardown before it began. *)
Record Task := { tk_req : Value; tk_ephemeral : option string }.
Inductive Upgrade := OpenSession (params : Value) | Subscribe.
(** An upgrade first waits for the requests that run; the loop returns; then what the connection
    holds is torn down. *)
Inductive ConnPhase := Reading | Draining (u : Upgrade) | Upgraded (u : Upgrade) | Ended | TornDown.
Record Conn := { cn_phase : ConnPhase; cn_tasks : gmap N Task; cn_out : list Value; cn_held : list string }.

Definition conn_start : Conn := {| cn_phase := Reading; cn_tasks := ∅; cn_out := []; cn_held := [] |}.
Definition with_phase (p : ConnPhase) (c : Conn) : Conn :=
  {| cn_phase := p; cn_tasks := cn_tasks c; cn_out := cn_out c; cn_held := cn_held c |}.
Definition with_tasks (t : gmap N Task) (c : Conn) : Conn :=
  {| cn_phase := cn_phase c; cn_tasks := t; cn_out := cn_out c; cn_held := cn_held c |}.
Definition with_held (l : list string) (c : Conn) : Conn :=
  {| cn_phase := cn_phase c; cn_tasks := cn_tasks c; cn_out := cn_out c; cn_held := l |}.
(** Frames go out whole, one at a time. *)
Definition write_frame (v : Value) (c : Conn) : Conn :=
  {| cn_phase := cn_phase c; cn_tasks := cn_tasks c; cn_out := cn_out c ++ [v]; cn_held := cn_held c |}.
(** The loop returns: dropping the set asks its tasks to stop, and each does where it next yields.
    One that is being polled on another thread runs on until then, or to its end. *)
Definition end_loop (c : Conn) : Conn := with_phase Ended c.
(** A frame the loop writes itself; when that fails the loop returns. *)
Definition write_or_end (writable : bool) (v : Value) (c : Conn) : Conn :=
  if writable then write_frame v c else end_loop (write_frame v c).

Inductive Inbound := Frame (v : Value) | Violation (shown : string).

Definition is_method (name : string) (req : Value) : bool := bool_decide (method_of req = Some name).

(** [session_error]: do the parameters of an [open_session] deserialize. *)
Definition begin_upgrade (u : Upgrade) (c : Conn) : Conn :=
  if decide (cn_tasks c = ∅) then with_phase (Upgraded u) c else with_phase (Draining u) c.

(** One frame off the reader; [i] is a fresh task. *)
Definition read_frame (session_error : Value -> option string) (h : Handlers) (i : N) (writable : bool) (r : Inbound) (c : Conn) : Conn :=
  match r with
  | Violation v => write_or_end writable (error_frame VNull (-32700) ("invalid request frame: " +:+ v)) c
  | Frame req =>
      if is_method "shutdown" req then end_loop (write_frame (handle_request h req) c)
      else if is_method "open_session" req then
        let params := if is_null (params_in req) then VObject [] else params_in req in
        match session_error params with
        | Some e => write_or_end writable (error_frame (id_of req) (-32602) ("open_session failed: invalid params: " +:+ e)) c
        | None => begin_upgrade (OpenSession params) c
        end
      else if is_method "subscribe" req then begin_upgrade Subscribe c
      else if (MAX_INFLIGHT <=? size (cn_tasks c))%nat then
        write_or_end writable
          (error_frame (id_of req) ERR_TOO_MANY_INFLIGHT
             "connection already has 32 requests in flight; retry after one completes, or use a second control connection") c
      else
        let name := ephemeral_name req in
        with_tasks (<[i := {| tk_req := req; tk_ephemeral := name |}]> (cn_tasks c))
          (with_held (cn_held c ++ match name with Some n => [n] | None => [] end) c)
  end.

(** [rposition] and [remove]: the last occurrence goes. *)
Fixpoint remove_last (n : string) (l : list string) : list string :=
  match l with
  | [] => []
  | x :: l => if decide (n ∈ l) then x :: remove_last n l else if decide (x = n) then l else x :: l
  end.

(** A task ends: its handler answered, or panicked.  A registration that failed is not torn down
    for. *)
Definition task_response (h : option Handlers) (t : Task) : Value :=
  match h with
  | Some h => handle_request h (tk_req t)
  | None => error_frame (id_of (tk_req t)) (-32603) "internal error: the request handler panicked (see the daemon log)"
  end.
Definition succeeded (resp : Value) : bool := bool_decide (is_Some (value_get "result" resp)).

Definition finish_task (h : option Handlers) (i : N) (t : Task) (c : Conn) : Conn :=
  let resp := task_response h t in
  let held := match tk_ephemeral t with
              | Some n => if succeeded resp then cn_held c else remove_last n (cn_held c)
              | None => cn_held c
              end in
  let c := write_frame resp (with_held held (with_tasks (delete i (cn_tasks c)) c)) in
  match cn_phase c with
  | Draining u => begin_upgrade u c
  | _ => c
  end.

Inductive Event :=
| Read (i : N) (writable : bool) (h : Handlers) (r : Inbound)
| Hangup
| Finish (i : N) (h : option Handlers)
| Stopped (i : N)
| UpgradeOver.

Definition conn_step (session_error : Value -> option string) (e : Event) (c : Conn) : option Conn :=
  match e, cn_phase c with
  | Read i writable h r, Reading =>
      if decide (cn_tasks c !! i = None) then Some (read_frame session_error h i writable r c) else None
  | Hangup, Reading => Some (end_loop c)
  | Finish i h, (Reading | Draining _ | Ended | TornDown) => t ← cn_tasks c !! i; Some (finish_task h i t c)
  | Stopped i, (Ended | TornDown) => _ ← cn_tasks c !! i; Some (with_tasks (delete i (cn_tasks c)) c)
  | UpgradeOver, Upgraded _ => Some (end_loop c)
  | _, _ => None
  end.

Fixpoint conn_run (session_error : Value -> option string) (es : list Event) (c : Conn) : option Conn :=
  match es with
  | [] => Some c
  | e :: es => c ← conn_step session_error e c; conn_run session_error es c
  end.
End dispatch.

(** ** The connections over the registrations they share

    [sv_took]: the tasks whose registration has put its name in the table (they still have a
    reload to do, which can fail, and can be aborted at it). *)
Record Server := {
  sv_conns : gmap N Conn;
  sv_services : gmap string EphemeralService;
  sv_took : gset (N * N) }.

Definition set_conn (k : N) (c : Conn) (y : Server) : Server :=
  {| sv_conns := <[k := c]> (sv_conns y); sv_services := sv_services y; sv_took := sv_took y |}.
Definition set_services (m : gmap string EphemeralService) (y : Server) : Server :=
  {| sv_conns := sv_conns y; sv_services := m; sv_took := sv_took y |}.
Definition delete_names (names : list string) (m : gmap string EphemeralService) : gmap string EphemeralService :=
  foldl (fun m n => delete n m) m names.

(** A registration that answers an error, or panics, although it took its name; and one whose task
    was told to stop, and took its name when the teardown had been. *)
Inductive Note := Plain | FailedAfterTaking (k i : N) | TookAfterTeardown (k i : N).
#[export] Instance torn_dec p : Decision (p = TornDown).
Proof. destruct p; [right; done..|by left]. Defined.

Section server.
Context `{P : ParamsCodec} (session_error : Value -> option string).

Definition note_of (k : N) (e : Event) (c : Conn) (took : gset (N * N)) : Note :=
  match e with
  | Finish i h =>
      match cn_tasks c !! i with
      | Some t =>
          if bool_decide (cn_phase c <> TornDown) && bool_decide ((k, i) ∈ took) && negb (succeeded (task_response h t))
          then FailedAfterTaking k i else Plain
      | None => Plain
      end
  | _ => Plain
  end.

(** A task id is used once; a registration that succeeds has taken its name. *)
Definition event_ok (k : N) (e : Event) (c : Conn) (took : gset (N * N)) : Prop :=
  match e with
  | Read i _ _ _ => (k, i) ∉ took
  | Finish i h =>
      forall t n, cn_tasks c !! i = Some t -> tk_ephemeral t = Some n -> succeeded (task_response h t) = true -> (k, i) ∈ took
  | _ => True
  end.

Inductive server_step : Server -> Note -> Server -> Prop :=
| ss_open y k : sv_conns y !! k = None -> server_step y Plain (set_conn k conn_start y)
| ss_conn y k c e c' :
    sv_conns y !! k = Some c -> event_ok k e c (sv_took y) -> conn_step session_error e c = Some c' ->
    server_step y (note_of k e c (sv_took y)) (set_conn k c' y)
(** [register_service] inserts the name it was asked for *)
| ss_take y k c i t n service :
    sv_conns y !! k = Some c -> cn_tasks c !! i = Some t -> tk_ephemeral t = Some n ->
    server_step y (if decide (cn_phase c = TornDown) then TookAfterTeardown k i else Plain)
      {| sv_conns := sv_conns y; sv_services := <[n := service]> (sv_services y); sv_took := {[(k, i)]} ∪ sv_took y |}
(** after the loop: [unregister_ephemeral] *)
| ss_teardown y k c :
    sv_conns y !! k = Some c -> cn_phase c = Ended ->
    server_step y Plain (set_conn k (with_phase TornDown c) (set_services (delete_names (cn_held c) (sv_services y)) y))
(** [unregister_service], and the grants, which change no name *)
| ss_unregister y n : server_step y Plain (set_services (delete n (sv_services y)) y)
| ss_allow y m : dom m = dom (sv_services y) -> server_step y Plain (set_services m y).

Inductive server_steps : Server -> list Note -> Server -> Prop :=
| server_nil y : server_steps y [] y
| server_cons y l y' ls y'' : server_step y l y' -> server_steps y' ls y'' -> server_steps y (l :: ls) y''.
End server.

Definition server_start : Server := {| sv_conns := ∅; sv_services := ∅; sv_took := ∅ |}.

(** ** The event stream

    Five rings feed a subscription.  A ring gives its next value, or how many it had to drop, or
    its end; an absent or ended ring gives nothing. *)
Inductive Ring := RAudit | RReach | RSelf | RBlob | RResume.
#[export] Instance Ring_eq_dec : EqDecision Ring.
Proof. solve_decision. Defined.
Inductive Recv (A : Type) := Got (a : A) | LaggedBy (n : Z) | RingClosed.
Arguments Got {A}.
Arguments LaggedBy {A}.
Arguments RingClosed {A}.

Section stream.
(** What each ring carries, as the frame it becomes, and the snapshot. *)
Context {Payload : Type}.
Inductive StreamFrame := Snapshot (s : Payload) | Pushed (r : Ring) (p : Payload) | LaggedFrame (dropped : Z).

(** [audit_frame], [reach_frame], [self_net_frame], [blob_frame], [resume_frame]. *)
Definition ring_frame (r : Ring) (v : Recv Payload) : option StreamFrame :=
  match v with Got p => Some (Pushed r p) | LaggedBy n => Some (LaggedFrame n) | RingClosed => None end.

Inductive StreamEnd := NoRingLeft | ClientGone | StillOpen.

(** The loop over what the rings give, in the order they give it; [writable n]: the [n]th frame can
    still be written. *)
Fixpoint push_loop (writable : nat -> bool) (n : nat) (open : list Ring) (given : list (Ring * Recv Payload)) :
    list StreamFrame * StreamEnd :=
  match open with
  | [] => ([], NoRingLeft)
  | _ =>
      match given with
      | [] => ([], StillOpen)
      | (r, v) :: given =>
          let open := match v with RingClosed => List.filter (fun x => negb (bool_decide (x = r))) open | _ => open end in
          match ring_frame r v with
          | Some f =>
              if writable n then let '(l, e) := push_loop writable (S n) open given in (f :: l, e) else ([], ClientGone)
          | None => push_loop writable n open given
          end
      end
  end.

(** [run_subscription]: the rings there are (a daemon without a mesh has none but the audit log's,
    and that only when it is on), the snapshot, the loop. *)
Definition rings (mesh audit_on : bool) : list Ring :=
  (if audit_on then [RAudit] else []) ++ (if mesh then [RReach; RSelf; RBlob; RResume] else []).
Definition run_subscription (mesh audit_on : bool) (snapshot : Payload) (writable : nat -> bool) (given : list (Ring * Recv Payload)) :
    list StreamFrame * StreamEnd :=
  if writable 0%nat then let '(l, e) := push_loop writable 1 (rings mesh audit_on) given in (Snapshot snapshot :: l, e)
  else ([], ClientGone).
End stream.
Arguments StreamFrame : clear implicits.

(** ** The audit verbs

    [sink]: the directory of this daemon's own log, if its writer runs; [env]: the default one of
    the environment, which reading falls back to and deleting does not. *)
Section audit.
Context `{AC : AuditCodec, HO : Limits.HashOrder}.

Definition other {A} (r : result string A) : result CallError A := map_err (fun e => {| ce_kind := KOther; ce_msg := e |}) r.
Definition ensure_call (b : bool) (m : string) : result CallError unit := if b then Ok tt else Err {| ce_kind := KOther; ce_msg := m |}.

Definition read_dir (sink : option Dir) (env : result string Dir) : result string Dir :=
  match sink with Some d => Ok d | None => env end.

Definition audit_summary (fs : Fs) (sink : option Dir) (env : result string Dir) : result CallError AuditSummaryResult :=
  other (d ← read_dir sink env; recs ← read_all_records fs d; Ok (summarize_sessions recs)).

Definition audit_prune (fs : Fs) (sink : option Dir) (before : string) : result CallError (list string) * option Dir :=
  match (_ ← ensure_call (valid_month_key before) ("before must be a zero-padded YYYY-MM month key, got '" +:+ before +:+ "'");
         other (ok_or "audit_prune requires a daemon with a live audit writer"%string sink)) with
  | Err e => (Err e, sink)
  | Ok d => let '(r, d) := prune_before fs before d in (other r, Some d)
  end.

Record AuditListParams := {
  al_since : option string; al_until : option string; al_kind : option string; al_peer : option string;
  al_limit : option Z; al_offset : option Z }.

Definition check_bound (name : string) (bound : option string) : result CallError unit :=
  match bound with
  | Some m => ensure_call (valid_month_key m) (name +:+ " must be a zero-padded YYYY-MM month key, got '" +:+ m +:+ "'")
  | None => Ok tt
  end.

Definition check_kind (kind : option string) : result CallError (option AuditKind) :=
  match kind with
  | None => Ok None
  | Some s => Some <$> ok_or {| ce_kind := KOther; ce_msg := "unknown kind '" +:+ s +:+ "'" |} (parse_kind s)
  end.

Definition audit_list (fs : Fs) (sink : option Dir) (env : result string Dir) (p : AuditListParams) : result CallError AuditListResult :=
  _ ← check_bound "since" (al_since p);
  _ ← check_bound "until" (al_until p);
  kind ← check_kind (al_kind p);
  let limit := Z.to_nat (Z.min (default 500 (al_limit p)) 1000) in
  let offset := Z.to_nat (default 0 (al_offset p)) in
  other (d ← read_dir sink env; list_page fs d (al_since p) (al_until p) kind (al_peer p) limit offset).
End audit.

(** ** The tasks of the control connections

    [track_control_task] drops the finished handles first; [abort_control_tasks] takes them all. *)
Definition track_control_task (finished : N -> bool) (handle : N) (tasks : list N) : list N :=
  List.filter (fun h => negb (finished h)) tasks ++ [handle].
Definition abort_control_tasks (tasks : list N) : list N * list N := (tasks, []).

(** ** Lemmas *)
Lemma id_of_ok id v : id_of (ok_frame id v) = id.
Proof. done. Qed.
Lemma id_of_error id code m : id_of (error_frame id code m) = id.
Proof. done. Qed.
Lemma id_of_respond id name r : id_of (respond id name r) = id.
Proof. by destruct r. Qed.

Section conn_lemmas.
Context `{P : ParamsCodec} (session_error : Value -> option string).

Lemma id_of_run_method h id params name m : id_of (run_method h id params name m) = id.
Proof.
  unfold run_method. destruct (shape m).
  - by destruct m, (h_join h); rewrite ?id_of_respond.
  - apply id_of_respond.
  - destruct (params_of m params); [apply id_of_respond|done].
  - destruct (h_mesh h); [apply id_of_respond|done].
Qed.

(** A response carries its request's id. *)
Lemma id_of_handle h req : id_of (handle_request h req) = id_of req.
Proof.
  unfold handle_request. destruct (method_of req) as [name|]; [|done]. destruct (find_method name); [apply id_of_run_method|done].
Qed.

Lemma id_of_task_response h t : id_of (task_response h t) = id_of (tk_req t).
Proof. destruct h; [apply id_of_handle|done]. Qed.

(** The answers the frames read so far are owed: one each, but for those that turn the
    connection into something else. *)
Definition upgrades (req : Value) : bool :=
  negb (is_method "shutdown" req) &&
  ((is_method "open_session" req && negb (bool_decide (is_Some (session_error (if is_null (params_in req) then VObject [] else params_in req))))) ||
   (negb (is_method "open_session" req) && is_method "subscribe" req)).
Definition owed_by (e : Event) : option Value :=
  match e with
  | Read _ _ _ (Frame req) => if upgrades req then None else Some (id_of req)
  | Read _ _ _ (Violation _) => Some VNull
  | _ => None
  end.

Definition written (c : Conn) : list Value := id_of <$> cn_out c.
Definition running (c : Conn) : list Value := (fun it : N * Task => id_of (tk_req it.2)) <$> map_to_list (cn_tasks c).

(** The loop has not returned. *)
Definition is_live (c : Conn) : bool := match cn_phase c with Ended | TornDown => false | _ => true end.

(** What one event adds to the answers owed; what ends with the loop is dropped. *)
Definition accounts (owed : list Value) (c c' : Conn) : Prop :=
  exists dropped, written c' ++ running c' ++ dropped ≡ₚ owed ++ written c ++ running c /\ (is_live c' = true -> dropped = []).

Lemma written_write v c : written (write_frame v c) = written c ++ [id_of v].
Proof. unfold written. simpl. by rewrite fmap_app. Qed.

Lemma running_insert i t c : cn_tasks c !! i = None -> running (with_tasks (<[i := t]> (cn_tasks c)) c) ≡ₚ id_of (tk_req t) :: running c.
Proof. intros Hi. unfold running. simpl. by rewrite map_to_list_insert. Qed.

Lemma running_delete i t c : cn_tasks c !! i = Some t -> running c ≡ₚ id_of (tk_req t) :: running (with_tasks (delete i (cn_tasks c)) c).
Proof. intros Hi. unfold running. simpl. by rewrite <- (map_to_list_delete (cn_tasks c) i t Hi). Qed.

Lemma accounts_keep owed c c1 : written c1 ++ running c1 ≡ₚ owed ++ written c ++ running c -> accounts owed c c1.
Proof. intros Hp. exists []. by rewrite app_nil_r. Qed.

Lemma accounts_end owed c c1 :
  written c1 ++ running c1 ≡ₚ owed ++ written c ++ running c -> accounts owed c (end_loop c1).
Proof. intros Hp. by apply accounts_keep. Qed.

Lemma accounts_write owed w v c : owed = [id_of v] -> accounts owed c (write_or_end w v c).
Proof.
  intros ->. assert (Hp : written (write_frame v c) ++ running (write_frame v c) ≡ₚ [id_of v] ++ written c ++ running c).
  { rewrite written_write. change (running (write_frame v c)) with (running c). solve_Permutation. }
  unfold write_or_end. destruct w; [by apply accounts_keep|by apply accounts_end].
Qed.

Lemma accounts_upgrade u c : accounts [] c (begin_upgrade u c).
Proof. apply accounts_keep. unfold begin_upgrade. by case_decide. Qed.

Lemma read_frame_accounts h i w r c :
  cn_tasks c !! i = None -> accounts (option_list (owed_by (Read i w h r))) c (read_frame session_error h i w r c).
Proof.
  intros Hi. destruct r as [req|v]; [|by apply accounts_write]. unfold owed_by, read_frame, upgrades.
  destruct (is_method "shutdown" req); cbn [negb andb orb option_list].
  { apply accounts_end. rewrite written_write, id_of_handle. change (running (write_frame _ c)) with (running c). solve_Permutation. }
  destruct (is_method "open_session" req); cbn [negb andb orb option_list].
  { destruct (session_error _) as [e|]; cbn [negb andb orb option_list bool_decide is_Some]; [by apply accounts_write|apply accounts_upgrade]. }
  destruct (is_method "subscribe" req); cbn [negb andb orb option_list bool_decide is_Some]; [apply accounts_upgrade|].
  destruct (MAX_INFLIGHT <=? size (cn_tasks c))%nat; [by apply accounts_write|].
  apply accounts_keep. set (c1 := with_held _ c).
  change (cn_tasks c) with (cn_tasks c1). rewrite running_insert by done. cbn [tk_req].
  change (written (with_tasks _ c1)) with (written c). change (running c1) with (running c). solve_Permutation.
Qed.

Lemma finish_task_accounts h i t c : cn_tasks c !! i = Some t -> accounts [] c (finish_task h i t c).
Proof.
  intros Hi. unfold finish_task. set (held := match tk_ephemeral t with Some n => _ | None => _ end).
  set (c1 := write_frame _ _).
  assert (Hp : written c1 ++ running c1 ≡ₚ written c ++ running c).
  { unfold c1. rewrite written_write, id_of_task_response. rewrite (running_delete i t c Hi).
    change (running (write_frame _ _)) with (running (with_tasks (delete i (cn_tasks c)) c)).
    change (written (with_held held _)) with (written c). solve_Permutation. }
  clearbody c1. destruct (cn_phase c1); try (apply accounts_keep; exact Hp).
  destruct (accounts_upgrade u c1) as (d & H1 & H2). exists d. split; [|done]. by rewrite H1, Hp.
Qed.

Lemma stopped_accounts i t c :
  cn_tasks c !! i = Some t -> is_live c = false -> accounts [] c (with_tasks (delete i (cn_tasks c)) c).
Proof.
  intros Hi Hl. exists [id_of (tk_req t)]. split; [|unfold is_live in *; simpl; by rewrite Hl].
  rewrite (running_delete i t c Hi). change (written (with_tasks _ c)) with (written c). solve_Permutation.
Qed.

Lemma conn_step_accounts e c c' :
  conn_step session_error e c = Some c' -> accounts (option_list (owed_by e)) c c' /\ (is_live c = false -> is_live c' = false).
Proof.
  intros Hs. unfold is_live. destruct e as [i w h r| |i h|i|]; simpl in Hs; destruct (cn_phase c) eqn:Hp; try done.
  - destruct (decide (cn_tasks c !! i = None)); [|done]. injection Hs as <-. split; [by apply read_frame_accounts|done].
  - injection Hs as <-. split; [by apply accounts_end|done].
  - apply bind_Some in Hs as (t & Hi & [= <-]). split; [by apply finish_task_accounts|done].
  - apply bind_Some in Hs as (t & Hi & [= <-]). split; [by apply finish_task_accounts|done].
  - apply bind_Some in Hs as (t & Hi & [= <-]). split; [by apply finish_task_accounts|]. unfold finish_task. simpl. by rewrite Hp; simpl; rewrite Hp.
  - apply bind_Some in Hs as (t & Hi & [= <-]). split; [by apply finish_task_accounts|]. unfold finish_task. simpl. by rewrite Hp; simpl; rewrite Hp.
  - apply bind_Some in Hs as (t & Hi & [= <-]). split; [apply (stopped_accounts i t); [done|unfold is_live; by rewrite Hp]|]. simpl. by rewrite Hp.
  - apply bind_Some in Hs as (t & Hi & [= <-]). split; [apply (stopped_accounts i t); [done|unfold is_live; by rewrite Hp]|]. simpl. by rewrite Hp.
  - injection Hs as <-. split; [by apply accounts_end|done].
Qed.

Lemma ended_stays es c c' : conn_run session_error es c = Some c' -> is_live c = false -> is_live c' = false.
Proof.
  revert c. induction es as [|e es IH]; intros c; simpl; [by intros [= ->]|]. intros (c1 & Hs & Hr)%bind_Some Hl.
  apply (IH c1 Hr). by eapply conn_step_accounts.
Qed.

Lemma conn_run_accounts es c c' :
  conn_run session_error es c = Some c' -> accounts (omap owed_by es) c c'.
Proof.
  revert c. induction es as [|e es IH]; intros c Hr; simpl in Hr.
  - injection Hr as <-. by apply accounts_keep.
  - apply bind_Some in Hr as (c1 & Hs & Hr). pose proof (conn_step_accounts _ _ _ Hs) as [(d1 & Hp1 & Hd1) _].
    destruct (IH c1 Hr) as (d2 & Hp2 & Hd2). exists (d2 ++ d1). split.
    + transitivity ((written c' ++ running c' ++ d2) ++ d1); [by rewrite <- !app_assoc|]. rewrite Hp2, <- !app_assoc, Hp1.
      simpl. destruct (owed_by e); simpl; solve_Permutation.
    + intros Hne. rewrite (Hd2 Hne), Hd1; [done|]. destruct (is_live c1) eqn:He; [done|]. by rewrite (ended_stays es c1 c' Hr He) in Hne.
Qed.

(** The loop never has more requests running than the cap, and runs none once it has upgraded. *)
Definition conn_inv (c : Conn) : Prop :=
  (size (cn_tasks c) <= MAX_INFLIGHT)%nat /\
  match cn_phase c with Upgraded _ => cn_tasks c = ∅ | Draining _ => cn_tasks c <> ∅ | _ => True end.

Lemma begin_upgrade_inv u c : (size (cn_tasks c) <= MAX_INFLIGHT)%nat -> conn_inv (begin_upgrade u c).
Proof. intros Hs. unfold begin_upgrade, conn_inv. by case_decide. Qed.

Lemma end_loop_inv c : (size (cn_tasks c) <= MAX_INFLIGHT)%nat -> conn_inv (end_loop c).
Proof. by split. Qed.

Lemma write_or_end_inv w v c : conn_inv c -> conn_inv (write_or_end w v c).
Proof. intros Hc. unfold write_or_end. destruct w; [done|apply end_loop_inv, Hc]. Qed.

Lemma conn_step_inv e c c' : conn_inv c -> conn_step session_error e c = Some c' -> conn_inv c'.
Proof.
  intros [Hsz Hph] Hs. destruct e as [i w h r| |i h|i|]; unfold conn_step in Hs.
  - destruct (cn_phase c) eqn:Hp; try done. destruct (decide (cn_tasks c !! i = None)) as [Hi|]; [|done]. injection Hs as <-.
    assert (Hc : conn_inv c) by (split; [done|by rewrite Hp]).
    unfold read_frame. destruct r as [req|v]; [|by apply write_or_end_inv]. destruct (is_method "shutdown" req); [by apply end_loop_inv|].
    destruct (is_method "open_session" req); [destruct (session_error _); [by apply write_or_end_inv|by apply begin_upgrade_inv]|].
    destruct (is_method "subscribe" req); [by apply begin_upgrade_inv|].
    destruct (Nat.leb_spec MAX_INFLIGHT (size (cn_tasks c))); [by apply write_or_end_inv|].
    split; cbn [with_tasks with_held cn_tasks cn_phase]; [rewrite map_size_insert_None by done; lia|by rewrite Hp].
  - destruct (cn_phase c); try done. injection Hs as <-. by apply end_loop_inv.
  - assert (Hd : exists t, cn_tasks c !! i = Some t /\ c' = finish_task h i t c /\ forall u, cn_phase c <> Upgraded u).
    { destruct (cn_phase c); try done; apply bind_Some in Hs as (t & Hi & [= <-]); by exists t. }
    clear Hs. destruct Hd as (t & Hi & -> & Hp).
    assert (Hlt : (size (delete i (cn_tasks c)) <= MAX_INFLIGHT)%nat) by (rewrite map_size_delete, Hi; lia).
    unfold finish_task. cbn [write_frame with_held with_tasks cn_phase]. destruct (cn_phase c) eqn:Hpc; [|by apply begin_upgrade_inv|by destruct (Hp u)|..];
      (split; cbn [cn_tasks cn_phase write_frame with_held with_tasks]; [done|by rewrite Hpc]).
  - assert (Hd : exists t, cn_tasks c !! i = Some t /\ c' = with_tasks (delete i (cn_tasks c)) c /\ is_live c = false).
    { unfold is_live. destruct (cn_phase c); try done; apply bind_Some in Hs as (t & Hi & [= <-]); by exists t. }
    clear Hs. destruct Hd as (t & Hi & -> & Hl). split; simpl; [rewrite map_size_delete, Hi; lia|]. unfold is_live in Hl. by destruct (cn_phase c).
  - destruct (cn_phase c); try done. injection Hs as <-. by apply end_loop_inv.
Qed.

Lemma conn_run_inv es c c' : conn_inv c -> conn_run session_error es c = Some c' -> conn_inv c'.
Proof.
  revert c. induction es as [|e es IH]; intros c Hc Hr; simpl in Hr; [by injection Hr as <-|].
  apply bind_Some in Hr as (c1 & Hs & Hr). eapply IH; [|exact Hr]. by eapply conn_step_inv.
Qed.
End conn_lemmas.

(** *** What is held for teardown *)
Definition times (n : string) (l : list string) : nat := length (filter (fun x => x = n) l).
Definition inflight (n : string) (ts : gmap N Task) : nat := size (filter (fun it : N * Task => tk_ephemeral it.2 = Some n) ts).

Lemma times_app n l1 l2 : times n (l1 ++ l2) = (times n l1 + times n l2)%nat.
Proof. unfold times. by rewrite filter_app, length_app. Qed.

Lemma times_in n l : (0 < times n l)%nat <-> n ∈ l.
Proof.
  unfold times. split.
  - destruct (filter _ l) as [|x l'] eqn:Hf; simpl; [lia|]. intros _.
    assert (Hx : x ∈ filter (fun y => y = n) l) by (rewrite Hf; left). by apply list_elem_of_filter in Hx as [-> ?].
  - intros Hn. assert (Hx : n ∈ filter (fun y => y = n) l) by (by apply list_elem_of_filter).
    destruct (filter _ l); [by apply elem_of_nil in Hx|simpl; lia].
Qed.

Lemma times_remove_last n m l : times n (remove_last m l) = if decide (n = m) then pred (times n l) else times n l.
Proof.
  induction l as [|x l IH]; cbn [remove_last]; [by case_decide|].
  destruct (decide (m ∈ l)) as [Hin|Hin].
  - assert (Hpos := proj2 (times_in m l) Hin). unfold times in *. rewrite !filter_cons. destruct (decide (x = n)); simpl; rewrite IH;
      destruct (decide (n = m)); subst; simpl; lia.
  - assert (Hz : times m l = 0%nat) by (destruct (times m l) eqn:E; [done|]; exfalso; apply Hin, times_in; lia).
    unfold times in *. rewrite !filter_cons. destruct (decide (x = m)) as [->|Hx]; [|rewrite filter_cons].
    + destruct (decide (m = n)), (decide (n = m)); subst; simpl; done.
    + destruct (decide (x = n)); destruct (decide (n = m)); subst; simpl; try done; lia.
Qed.

Lemma inflight_insert n i t ts :
  ts !! i = None -> inflight n (<[i := t]> ts) = ((if decide (tk_ephemeral t = Some n) then 1 else 0) + inflight n ts)%nat.
Proof.
  intros Hi. unfold inflight. case_decide as Ht.
  - rewrite map_filter_insert_True by done. rewrite map_size_insert_None; [done|]. apply map_lookup_filter_None. by left.
  - rewrite map_filter_insert_not' by naive_solver. done.
Qed.

Lemma inflight_delete n i t ts :
  ts !! i = Some t -> inflight n ts = ((if decide (tk_ephemeral t = Some n) then 1 else 0) + inflight n (delete i ts))%nat.
Proof.
  intros Hi. rewrite <- (insert_delete_id ts i t Hi) at 1. by rewrite inflight_insert by apply lookup_delete_eq.
Qed.

Lemma inflight_pos n i t ts : ts !! i = Some t -> tk_ephemeral t = Some n -> (0 < inflight n ts)%nat.
Proof. intros Hi Ht. rewrite (inflight_delete n i t ts Hi), decide_True by done. lia. Qed.

(** While a connection lives, each name it has running or registered is held: as often as it is
    running, and once more when [registered]. *)
Definition holds_running (c : Conn) : Prop := forall n, (inflight n (cn_tasks c) <= times n (cn_held c))%nat.
Definition registered (n : string) (c : Conn) : Prop := (inflight n (cn_tasks c) < times n (cn_held c))%nat.

Section server_lemmas.
Context `{P : ParamsCodec} (session_error : Value -> option string).

Lemma begin_upgrade_held u c : cn_held (begin_upgrade u c) = cn_held c /\ cn_tasks (begin_upgrade u c) = cn_tasks c.
Proof. unfold begin_upgrade. by case_decide. Qed.

(** What one event does to the tasks and the names held. *)
Inductive change : Event -> Conn -> Conn -> Prop :=
| ch_same e c c' : cn_tasks c' = cn_tasks c -> cn_held c' = cn_held c -> change e c c'
| ch_start i w h r c c' t :
    cn_tasks c !! i = None -> cn_tasks c' = <[i := t]> (cn_tasks c) ->
    cn_held c' = cn_held c ++ match tk_ephemeral t with Some n => [n] | None => [] end -> change (Read i w h r) c c'
| ch_finish i h c c' t :
    cn_tasks c !! i = Some t -> cn_tasks c' = delete i (cn_tasks c) ->
    cn_held c' = match tk_ephemeral t with
                 | Some n => if succeeded (task_response h t) then cn_held c else remove_last n (cn_held c)
                 | None => cn_held c
                 end -> change (Finish i h) c c'
| ch_stop i c c' t :
    cn_tasks c !! i = Some t -> cn_tasks c' = delete i (cn_tasks c) -> cn_held c' = cn_held c -> change (Stopped i) c c'.

Lemma write_or_end_change e w v c : change e c (write_or_end w v c).
Proof. unfold write_or_end. destruct w; by apply ch_same. Qed.

Lemma begin_upgrade_change e u c : change e c (begin_upgrade u c).
Proof. apply ch_same; apply begin_upgrade_held. Qed.

Lemma finish_change h i t c : cn_tasks c !! i = Some t -> change (Finish i h) c (finish_task h i t c).
Proof.
  intros Hi. eapply ch_finish; [exact Hi|..]; unfold finish_task; simpl; destruct (cn_phase c); simpl;
    by rewrite ?(proj1 (begin_upgrade_held _ _)), ?(proj2 (begin_upgrade_held _ _)).
Qed.

Lemma begin_upgrade_live u c : cn_phase (begin_upgrade u c) <> TornDown.
Proof. unfold begin_upgrade. by case_decide. Qed.

(** No event tears a connection down, and none brings it back. *)
Lemma conn_step_torn e c c' : conn_step session_error e c = Some c' -> cn_phase c' = TornDown <-> cn_phase c = TornDown.
Proof.
  intros Hs. destruct e as [i w h r| |i h|i|]; unfold conn_step in Hs; destruct (cn_phase c) eqn:Hp; try done.
  - destruct (decide _); [|done]. injection Hs as <-. split; [|done]. unfold read_frame, write_or_end, begin_upgrade.
    repeat case_match; simpl; congruence.
  - by injection Hs as <-.
  - apply bind_Some in Hs as (t & Hi & [= <-]). unfold finish_task. simpl. rewrite Hp. simpl. by rewrite Hp.
  - apply bind_Some in Hs as (t & Hi & [= <-]). unfold finish_task. simpl. rewrite Hp. split; [|done]. by intros ?%begin_upgrade_live.
  - apply bind_Some in Hs as (t & Hi & [= <-]). unfold finish_task. simpl. rewrite Hp. simpl. by rewrite Hp.
  - apply bind_Some in Hs as (t & Hi & [= <-]). unfold finish_task. simpl. rewrite Hp. simpl. by rewrite Hp.
  - apply bind_Some in Hs as (t & Hi & [= <-]). simpl. by rewrite Hp.
  - apply bind_Some in Hs as (t & Hi & [= <-]). simpl. by rewrite Hp.
  - by injection Hs as <-.
Qed.

Lemma conn_step_change e c c' : conn_step session_error e c = Some c' -> change e c c'.
Proof.
  intros Hs. destruct e as [i w h r| |i h|i|]; unfold conn_step in Hs; destruct (cn_phase c) eqn:Hp; try done;
    try (apply bind_Some in Hs as (t & Hi & [= <-]); first [by apply finish_change|by eapply ch_stop]).
  - destruct (decide (cn_tasks c !! i = None)) as [Hi|]; [|done]. injection Hs as <-. unfold read_frame.
    destruct r as [req|v]; [|apply write_or_end_change]. destruct (is_method "shutdown" req); [by apply ch_same|].
    destruct (is_method "open_session" req); [destruct (session_error _); [apply write_or_end_change|apply begin_upgrade_change]|].
    destruct (is_method "subscribe" req); [apply begin_upgrade_change|].
    destruct (MAX_INFLIGHT <=? size (cn_tasks c))%nat; [apply write_or_end_change|]. by eapply ch_start.
  - injection Hs as <-. by apply ch_same.
  - injection Hs as <-. by apply ch_same.
Qed.

Lemma change_holds e c c' : change e c c' -> holds_running c -> holds_running c'.
Proof.
  intros Hc Hh n. specialize (Hh n). destruct Hc as [e c c' Ht Hl|i w h r c c' t Hi Ht Hl|i h c c' t Hi Ht Hl|i c c' t Hi Ht Hl]; rewrite Ht, Hl.
  - done.
  - rewrite inflight_insert, times_app by done. destruct (tk_ephemeral t) as [m|]; [|rewrite decide_False by done; simpl; lia].
    unfold times at 2. rewrite filter_cons. destruct (decide (m = n)) as [->|]; [rewrite decide_True by done|rewrite decide_False by congruence]; simpl; lia.
  - rewrite (inflight_delete n i t _ Hi) in Hh. destruct (tk_ephemeral t) as [m|]; [|rewrite decide_False in Hh by done; lia].
    destruct (succeeded _); [case_decide; lia|]. rewrite times_remove_last. destruct (decide (n = m)) as [->|].
    + rewrite decide_True in Hh by done. lia.
    + rewrite decide_False in Hh by congruence. lia.
  - rewrite (inflight_delete n i t _ Hi) in Hh. case_decide; lia.
Qed.

(** A registration in force: its task took the name and still runs, or it has succeeded or was
    stopped after taking it. *)
Definition backed (took : gset (N * N)) (k : N) (n : string) (c : Conn) : Prop :=
  cn_phase c <> TornDown /\
  ((exists i t, cn_tasks c !! i = Some t /\ tk_ephemeral t = Some n /\ (k, i) ∈ took) \/ registered n c).

Lemma change_registered e c c' n took k :
  change e c c' -> cn_phase c <> TornDown -> note_of k e c took = Plain -> event_ok k e c took ->
  (exists i t, cn_tasks c !! i = Some t /\ tk_ephemeral t = Some n /\ (k, i) ∈ took) \/ registered n c ->
  holds_running c ->
  (exists i t, cn_tasks c' !! i = Some t /\ tk_ephemeral t = Some n /\ (k, i) ∈ took) \/ registered n c'.
Proof.
  intros Hc Hlive Hn Hok Hr Hh. unfold registered in *.
  destruct Hc as [e c c' Ht Hl|i w h r c c' t Hi Ht Hl|i h c c' t Hi Ht Hl|i c c' t Hi Ht Hl]; rewrite Ht, Hl.
  - done.
  - destruct Hr as [(j & u & Hj & Hu & Hin)|Hr].
    + left. exists j, u. rewrite lookup_insert_ne; [done|]. intros ->. congruence.
    + right. rewrite inflight_insert, times_app by done. destruct (tk_ephemeral t) as [m|]; [|rewrite decide_False by done; simpl; lia].
      unfold times at 2. rewrite filter_cons.
      destruct (decide (m = n)) as [->|]; [rewrite decide_True by done|rewrite decide_False by congruence]; simpl; lia.
  - destruct Hr as [(j & u & Hj & Hu & Hin)|Hr].
    + destruct (decide (j = i)) as [->|Hne]; [|left; exists j, u; by rewrite lookup_delete_ne].
      rewrite Hi in Hj. injection Hj as <-. right. rewrite Hu. specialize (Hh n). rewrite (inflight_delete n i t _ Hi), decide_True in Hh by done.
      simpl in Hn. rewrite Hi, !bool_decide_true in Hn by done. destruct (succeeded (task_response h t)); [lia|done].
    + right. rewrite (inflight_delete n i t _ Hi) in Hr. destruct (tk_ephemeral t) as [m|]; [|rewrite decide_False in Hr by done; lia].
      destruct (succeeded _); [case_decide; lia|]. rewrite times_remove_last. destruct (decide (n = m)) as [->|].
      * rewrite decide_True in Hr by done. lia.
      * rewrite decide_False in Hr by congruence. lia.
  - destruct Hr as [(j & u & Hj & Hu & Hin)|Hr].
    + destruct (decide (j = i)) as [->|Hne]; [|left; exists j, u; by rewrite lookup_delete_ne].
      rewrite Hi in Hj. injection Hj as <-. right. specialize (Hh n). rewrite (inflight_delete n i t _ Hi), decide_True in Hh by done. lia.
    + right. rewrite (inflight_delete n i t _ Hi) in Hr. case_decide; lia.
Qed.

Definition server_inv (y : Server) : Prop :=
  (forall k c, sv_conns y !! k = Some c -> conn_inv c /\ (cn_phase c <> TornDown -> holds_running c)) /\
  forall n, is_Some (sv_services y !! n) -> exists k c, sv_conns y !! k = Some c /\ backed (sv_took y) k n c.

Lemma lookup_delete_names l m n : delete_names l m !! n = if decide (n ∈ l) then None else m !! n.
Proof.
  unfold delete_names. revert m. induction l as [|x l IH]; intros m; cbn [foldl]; [done|]. rewrite IH.
  destruct (decide (n = x)) as [->|Hne].
  - rewrite lookup_delete_eq, (decide_True (P := x ∈ x :: l)) by left. by case_decide.
  - rewrite lookup_delete_ne by congruence. apply decide_ext. rewrite elem_of_cons. naive_solver.
Qed.

Lemma backed_more took took' k n c : took ⊆ took' -> backed took k n c -> backed took' k n c.
Proof.
  intros Hs [Hp [(i & t & ? & ? & ?)|?]]; (split; [done|]); [left; exists i, t; set_solver|by right].
Qed.

(** What is backed is held, so the teardown finds it. *)
Lemma backed_held took k n c : holds_running c -> backed took k n c -> n ∈ cn_held c.
Proof.
  intros Hh [_ [(i & t & Hi & Ht & _)|Hr]]; apply times_in; specialize (Hh n).
  - pose proof (inflight_pos n i t _ Hi Ht). lia.
  - unfold registered in Hr. lia.
Qed.

Lemma server_inv_conn y k c e c' :
  sv_conns y !! k = Some c -> event_ok k e c (sv_took y) -> conn_step session_error e c = Some c' ->
  note_of k e c (sv_took y) = Plain -> server_inv y -> server_inv (set_conn k c' y).
Proof.
  intros Hk Hok Hs Hn [H1 H2]. pose proof (conn_step_change _ _ _ Hs) as Hch. pose proof (conn_step_torn _ _ _ Hs) as Htorn.
  destruct (H1 k c Hk) as [Hci Hh]. split; simpl.
  - intros j d [[<- <-]|[_ Hj]]%lookup_insert_Some; [|by apply (H1 j)]. split; [by eapply conn_step_inv|].
    intros Hd. eapply change_holds; [exact Hch|]. apply Hh. by rewrite <- Htorn.
  - intros n Hsn. destruct (H2 n Hsn) as (j & d & Hj & Hb). destruct (decide (j = k)) as [->|Hjk]; [|exists j, d; by rewrite lookup_insert_ne].
    rewrite Hk in Hj. injection Hj as <-. exists k, c'. rewrite lookup_insert_eq. split; [done|].
    destruct Hb as [Hlive Hb]. split; [by rewrite Htorn|]. by eapply (change_registered _ _ _ n (sv_took y) k Hch); [..|apply Hh].
Qed.

Lemma server_inv_step y l y' : server_step session_error y l y' -> l = Plain -> server_inv y -> server_inv y'.
Proof.
  intros Hs. destruct Hs as [y k Hk|y k c e c' Hk Hok Hs|y k c i t n service Hk Hi Ht|y k c Hk He|y n|y m Hm]; intros Hl Hinv;
    try (by eapply server_inv_conn; eauto); pose proof Hinv as [H1 H2]; (split; simpl).
  - intros j d [[<- <-]|[_ Hj]]%lookup_insert_Some; [|by apply (H1 j)]. split; [split; simpl; [rewrite map_size_empty; lia|done]|].
    intros _ n. unfold inflight. simpl. rewrite map_filter_empty, map_size_empty. lia.
  - intros n Hn. destruct (H2 n Hn) as (j & d & Hj & Hb). exists j, d. rewrite lookup_insert_ne; [done|]. intros ->. congruence.
  - exact H1.
  - intros n' [s [[<- <-]|[_ Hs]]%lookup_insert_Some].
    + exists k, c. split; [done|]. split; [|left; exists i, t; set_solver]. intros He. by rewrite decide_True in Hl.
    + destruct (H2 n' (mk_is_Some _ _ Hs)) as (j & d & Hj & Hb). exists j, d. split; [done|]. eapply backed_more; [|exact Hb]. set_solver.
  - intros j d [[<- <-]|[_ Hj]]%lookup_insert_Some; [|by apply (H1 j)]. split; [|done].
    destruct (H1 k c Hk) as [[Hsz _] _]. by split.
  - intros n [s Hn]. rewrite lookup_delete_names in Hn. case_decide as Hin; [done|].
    destruct (H2 n (mk_is_Some _ _ Hn)) as (j & d & Hj & Hb). exists j, d. rewrite lookup_insert_ne; [done|]. intros <-.
    rewrite Hk in Hj. injection Hj as <-. apply Hin. eapply backed_held; [|exact Hb]. apply (H1 k c Hk). by rewrite He.
  - exact H1.
  - intros n' [s [_ Hs]%lookup_delete_Some]. apply H2. by eexists.
  - exact H1.
  - intros n' Hn. apply H2. apply elem_of_dom. rewrite <- Hm. by apply elem_of_dom.
Qed.

Lemma server_steps_inv y ls y' : server_steps session_error y ls y' -> Forall (fun l => l = Plain) ls -> server_inv y -> server_inv y'.
Proof.
  induction 1 as [|y l y1 ls y2 Hs _ IH]; [done|]. intros [Hl Hls]%Forall_cons Hy. apply IH; [done|]. by eapply server_inv_step.
Qed.
End server_lemmas.

Lemma one_of_both `{P : ParamsCodec} h req :
  bool_decide (is_Some (value_get "result" (handle_request h req))) = negb (bool_decide (is_Some (value_get "error" (handle_request h req)))).
Proof.
  assert (Hr : forall id name r, bool_decide (is_Some (value_get "result" (respond id name r))) = negb (bool_decide (is_Some (value_get "error" (respond id name r))))).
  { by intros id name [v|e]. }
  unfold handle_request. destruct (method_of req) as [name|]; [|done]. destruct (find_method name) as [m|]; [|done].
  unfold run_method. destruct (shape m); [by destruct m, (h_join h); rewrite ?Hr|apply Hr| |].
  - destruct (params_of _ _); [apply Hr|done].
  - destruct (h_mesh h); [apply Hr|done].
Qed.

(** ** Properties *)
Section properties.
Context `{P : ParamsCodec} (session_error : Value -> option string).

(** C27: Every request is answered exactly once.  While a connection lives, the frames written and the
    requests still running are, up to order, one for each frame read, under its id: for a line that
    is no request, for a request over the cap, for one whose handler panicked, whichever order they
    end in; only what upgrades the connection has no answer, and it takes effect when everything
    before it is answered. *)
Theorem every_request_answered es c :
  conn_run session_error es conn_start = Some c -> is_live c = true ->
  written c ++ running c ≡ₚ omap (owed_by session_error) es /\
  forall u, cn_phase c = Upgraded u -> written c ≡ₚ omap (owed_by session_error) es.
Proof.
  intros Hr Hne. destruct (conn_run_accounts session_error es conn_start c Hr) as (d & Hp & Hd).
  rewrite (Hd Hne), app_nil_r, app_nil_r in Hp. split; [exact Hp|]. intros u Hu.
  assert (Hi : conn_inv c) by (eapply conn_run_inv; [|exact Hr]; split; simpl; [rewrite map_size_empty; lia|done]).
  destruct Hi as [_ Ht]. rewrite Hu in Ht. rewrite <- Hp. unfold running. by rewrite Ht, map_to_list_empty, app_nil_r.
Qed.

(** C28: A connection never has more than 32 requests running, and one over that is refused at once with
    its own code, without waiting for any of them. *)
Theorem inflight_capped es c i w h req :
  conn_run session_error es conn_start = Some c ->
  (size (cn_tasks c) <= 32)%nat /\
  (size (cn_tasks c) = 32%nat -> cn_phase c = Reading -> cn_tasks c !! i = None ->
   upgrades session_error req = false -> is_method "shutdown" req = false -> is_method "open_session" req = false ->
   exists c', conn_step session_error (Read i w h (Frame req)) c = Some c' /\
     cn_out c' = cn_out c ++ [error_frame (id_of req) ERR_TOO_MANY_INFLIGHT
             "connection already has 32 requests in flight; retry after one completes, or use a second control connection"] /\
     (w = true -> cn_tasks c' = cn_tasks c)).
Proof.
  intros Hr. assert (Hi : conn_inv c) by (eapply conn_run_inv; [|exact Hr]; split; simpl; [rewrite map_size_empty; lia|done]).
  split; [apply Hi|]. intros Hsz Hp Hn Hu Hsh Hos. unfold upgrades in Hu. rewrite Hsh, Hos in Hu. simpl in Hu.
  eexists. split; [unfold conn_step; rewrite Hp, decide_True by done; reflexivity|].
  unfold read_frame. rewrite Hsh, Hos, Hu. destruct (Nat.leb_spec MAX_INFLIGHT (size (cn_tasks c))); [|unfold MAX_INFLIGHT in *; lia].
  unfold write_or_end. destruct w; done.
Qed.

(** C29: What a connection registered goes with it: however connections and their requests interleave,
    and wherever the end of a connection catches the requests it aborts, every name in the table is
    held for teardown by a connection that has not been torn down, so when the last one has been the
    table is empty. Two things are needed of every registration: it does not answer an error, or
    panic, after it has taken its name; and it does not take its name when the connection that
    aborted it has already been torn down. *)
Theorem teardown_complete ls y :
  server_steps session_error server_start ls y -> Forall (fun l => l = Plain) ls ->
  (forall n, is_Some (sv_services y !! n) -> exists k c, sv_conns y !! k = Some c /\ cn_phase c <> TornDown /\ n ∈ cn_held c) /\
  ((forall k c, sv_conns y !! k = Some c -> cn_phase c = TornDown) -> sv_services y = ∅).
Proof.
  intros Hs Hl. assert (Hi : server_inv y).
  { eapply server_steps_inv; [exact Hs|exact Hl|]. split; simpl; [intros k c Hk; by rewrite lookup_empty in Hk|].
    intros n [s Hn]. by rewrite lookup_empty in Hn. }
  destruct Hi as [H1 H2].
  assert (Hheld : forall n, is_Some (sv_services y !! n) -> exists k c, sv_conns y !! k = Some c /\ cn_phase c <> TornDown /\ n ∈ cn_held c).
  { intros n Hn. destruct (H2 n Hn) as (k & c & Hk & Hb). exists k, c. split; [done|]. split; [apply Hb|].
    eapply backed_held; [|exact Hb]. destruct (H1 k c Hk) as [_ Hh]. apply Hh, Hb. }
  split; [done|]. intros Hdone. apply map_eq. intros n. rewrite lookup_empty. destruct (sv_services y !! n) as [s|] eqn:Hn; [|done].
  destruct (Hheld n (mk_is_Some _ _ Hn)) as (k & c & Hk & Hlive & _). by destruct Hlive; apply (Hdone k c).
Qed.

(** A client can tell errors apart by their code: every answer carries its request's id and either a
    result or an error; an unknown method, a missing one and bad parameters have the protocol's
    codes; and a verb's error has the code of its kind, which no other kind shares (but
    for a service and a scope that do not exist, and a refused pairing, which carries the code of
    what refused it). *)
Theorem errors_branchable h req :
  id_of (handle_request h req) = id_of req /\
  bool_decide (is_Some (value_get "result" (handle_request h req))) = negb (bool_decide (is_Some (value_get "error" (handle_request h req)))) /\
  (forall name, method_of req = Some name -> find_method name = None ->
     handle_request h req = error_frame (id_of req) (-32601) ("unknown method: " +:+ name)) /\
  (forall name m e, method_of req = Some name -> find_method name = Some m -> shape m = WithParams ->
     (p ← params_of m (params_in req); h_run h m p) = Err e ->
     handle_request h req = error_frame (id_of req) (error_code (ce_kind e)) (name +:+ " failed: " +:+ ce_msg e)) /\
  (forall k1 k2, error_code k1 = error_code k2 ->
     (forall c, k1 <> KPairRefusal c) -> (forall c, k2 <> KPairRefusal c) ->
     k1 = k2 \/ (k1 ∈ [KNoSuchService; KNoSuchBlobScope] /\ k2 ∈ [KNoSuchService; KNoSuchBlobScope])).
Proof.
  split_and!; [apply id_of_handle|apply one_of_both| | |].
  - intros name Hm Hf. unfold handle_request. by rewrite Hm, Hf.
  - intros name m e Hm Hf Hs He. unfold handle_request, run_method. rewrite Hm, Hf, Hs, He. unfold finish. by destruct (answers_unit m).
  - intros k1 k2 Hc H1 H2. destruct k1, k2; try (by destruct (H1 code)); try (by destruct (H2 code)); try (by left); try done;
      right; in_list.
Qed.

(** *** The event stream *)
Lemma push_loop_prefix {Payload} writable n open (given : list (Ring * Recv Payload)) :
  (forall k, writable k = true) ->
  exists heard, heard `prefix_of` given /\ (push_loop writable n open given).1 = omap (fun rv => ring_frame rv.1 rv.2) heard /\
    (forall r, r ∈ open -> (r, RingClosed) ∉ given -> heard = given) /\
    ((push_loop writable n open given).2 = StillOpen \/ (push_loop writable n open given).2 = NoRingLeft).
Proof.
  intros Hw. revert n open. induction given as [|[r v] given IH]; intros n open.
  - exists []. destruct open; simpl; (split; [done|split; [done|split; [done|auto]]]).
  - destruct open as [|r0 open0]; [exists []; simpl; (split; [apply prefix_nil|split; [done|split; [by intros r' ?%elem_of_nil|auto]]])|].
    set (open := r0 :: open0). set (open' := match v with RingClosed => List.filter (fun x => negb (bool_decide (x = r))) open | _ => open end).
    assert (Hkeep : forall r', r' ∈ open -> (r', RingClosed) ∉ (r, v) :: given -> r' ∈ open' /\ (r', RingClosed) ∉ given).
    { intros r' Hr Hn. rewrite not_elem_of_cons in Hn. destruct Hn as [Hne Hn]. split; [|done]. unfold open'. destruct v; [done..|].
      apply list_elem_of_In, filter_In. split; [by apply list_elem_of_In|]. rewrite bool_decide_false; [done|]. congruence. }
    assert (Hloop : push_loop writable n open ((r, v) :: given) =
      match ring_frame r v with
      | Some f => let '(l, e) := push_loop writable (S n) open' given in (f :: l, e)
      | None => push_loop writable n open' given
      end).
    { unfold open, open'. cbn [push_loop]. by rewrite Hw. }
    rewrite Hloop. destruct (ring_frame r v) as [f|] eqn:Hf.
    + destruct (IH (S n) open') as (heard & Hp & Hl & Hall & He). destruct (push_loop writable (S n) open' given) as [l e]. simpl in *.
      exists ((r, v) :: heard). split; [by apply prefix_cons|]. split; [simpl; rewrite Hf; by f_equal|]. split; [|done].
      intros r' Hr Hn. f_equal. destruct (Hkeep r' Hr Hn). eauto.
    + destruct (IH n open') as (heard & Hp & Hl & Hall & He). exists ((r, v) :: heard). split; [by apply prefix_cons|].
      split; [simpl; by rewrite Hf|]. split; [|done]. intros r' Hr Hn. f_equal. destruct (Hkeep r' Hr Hn). eauto.
Qed.

(** A subscription begins with the snapshot and then has one frame for each value its rings give, in
    the order they give them, a lag as a frame of its own; it hears every ring to the end as long as
    one of those it began with is open, and ends when none is. *)
Theorem subscription_faithful {Payload} mesh audit_on (snapshot : Payload) writable given :
  (forall k, writable k = true) ->
  exists heard, heard `prefix_of` given /\
    (run_subscription mesh audit_on snapshot writable given).1 = Snapshot snapshot :: omap (fun rv => ring_frame rv.1 rv.2) heard /\
    (forall r, r ∈ rings mesh audit_on -> (r, RingClosed) ∉ given -> heard = given) /\
    (rings mesh audit_on = [] -> heard = []).
Proof.
  intros Hw. unfold run_subscription. rewrite Hw.
  destruct (push_loop_prefix writable 1 (rings mesh audit_on) given Hw) as (heard & Hp & Hl & Hall & _).
  destruct (rings mesh audit_on) as [|r0 l0] eqn:Hrs.
  - exists []. destruct given; simpl; (split; [apply prefix_nil|split; [done|split; [by intros r ?%elem_of_nil|done]]]).
  - destruct (push_loop writable 1 (r0 :: l0) given) as [l e]. simpl in *. exists heard. split_and!; [done|by f_equal|done|done].
Qed.
End properties.

(** *** The audit verbs *)
Section audit_properties.
Context `{AC : AuditCodec, HO : Limits.HashOrder}.

(** A typo never deletes and never answers "nothing held": both verbs refuse a month that is not one
    before any file is looked at, the listing an unknown kind too; deleting needs this daemon's own
    log and touches no other. *)
Theorem audit_verbs_refuse fs sink env before p :
  (valid_month_key before = false \/ sink = None ->
     is_ok (audit_prune fs sink before).1 = false /\ (audit_prune fs sink before).2 = sink) /\
  (forall d, sink = Some d -> valid_month_key before = true ->
     audit_prune fs sink before = (other (prune_before fs before d).1, Some (prune_before fs before d).2)) /\
  ((exists m, (al_since p = Some m \/ al_until p = Some m) /\ valid_month_key m = false) \/
   (exists s, al_kind p = Some s /\ parse_kind s = None) -> is_ok (audit_list fs sink env p) = false).
Proof.
  split_and!.
  - unfold audit_prune, ensure_call. intros [Hv| ->]; [by rewrite Hv|]. by destruct (valid_month_key before).
  - intros d -> Hv. unfold audit_prune, ensure_call. rewrite Hv. simpl. by destruct (prune_before fs before d).
  - unfold audit_list, check_bound, check_kind, ensure_call. intros [(m & [Hm|Hm] & Hv)|(s & Hs & Hk)].
    + by rewrite Hm, Hv.
    + rewrite Hm, Hv. destruct (al_since p) as [m'|]; simpl; [|done]. by destruct (valid_month_key m').
    + rewrite Hs, Hk. destruct (al_since p) as [m|]; simpl; [destruct (valid_month_key m); simpl; [|done]|];
        (destruct (al_until p) as [m'|]; simpl; [|done]; by destruct (valid_month_key m')).
Qed.
End audit_properties.

(** ** Witnesses *)
Module Witness.
#[local] Instance any_params : ParamsCodec := {| params_error _ _ := None |}.
Definition no_session_error : Value -> option string := fun _ => None.
Definition fine : Handlers := {| h_mesh := true; h_run _ _ := Ok VNull; h_join := None |}.
Definition failing : Handlers :=
  {| h_mesh := true; h_run _ _ := Err {| ce_kind := KOther; ce_msg := "config error" |}; h_join := None |}.

Definition request (id : Z) (method : string) (params : Value) : Value :=
  VObject [("id"%string, VNumber (NInt id)); ("method"%string, VString method); ("params"%string, params)].
Definition register_kb (id : Z) : Value :=
  request id "register_service" (VObject [("name"%string, VString "kb"); ("ephemeral"%string, VBool true)]).
Definition num (z : Z) : Value := VNumber (NInt z).
Definition present {A} (o : option A) : bool := match o with Some _ => true | None => false end.
Lemma present_default {A} (o : option A) d : present o = true -> o = Some (default d o).
Proof. by destruct o. Qed.
Definition stepped (e : Event) (c : Conn) : Conn := default c (conn_step no_session_error e c).
Lemma stepped_ok e c : present (conn_step no_session_error e c) = true -> conn_step no_session_error e c = Some (stepped e c).
Proof. apply present_default. Qed.

(** Three requests pipelined before a subscription; they end in another order, one by a panic. *)
Definition talk : list Event :=
  [Read 1 true fine (Frame (request 1 "status" VNull)); Read 2 true fine (Violation "TooLong"); Read 3 true fine (Frame (request 3 "blob_fetch" VNull));
   Read 4 true fine (Frame (request 4 "nope" VNull)); Read 5 true fine (Frame (request 5 "subscribe" VNull));
   Finish 4 (Some fine); Finish 3 None; Finish 1 (Some fine)].
Definition talked : Conn := default conn_start (conn_run no_session_error talk conn_start).
Example talk_answers : written talked = [VNull; num 4; num 3; num 1] /\ cn_phase talked = Upgraded Subscribe.
Proof. split; vm_compute; reflexivity. Qed.

Lemma talk_runs : conn_run no_session_error talk conn_start = Some talked.
Proof. apply present_default. vm_compute. reflexivity. Qed.

Lemma every_request_answered_witness :
  conn_run no_session_error talk conn_start = Some talked /\ is_live talked = true /\
  written talked ≡ₚ omap (owed_by no_session_error) talk.
Proof.
  split; [exact talk_runs|]. assert (Hne : is_live talked = true) by (vm_compute; reflexivity).
  split; [exact Hne|]. apply (proj2 (every_request_answered no_session_error talk talked talk_runs Hne) Subscribe). vm_compute. reflexivity.
Defined.

(** Thirty-two fetches, and one more. *)
Definition fetches : list Event := (fun i => Read (N.of_nat i) true fine (Frame (request (Z.of_nat i) "blob_fetch" VNull))) <$> seq 0 32.
Definition busy : Conn := default conn_start (conn_run no_session_error fetches conn_start).
Lemma busy_runs : conn_run no_session_error fetches conn_start = Some busy.
Proof. apply present_default. vm_compute. reflexivity. Qed.
Lemma inflight_capped_witness :
  (size (cn_tasks busy) <= 32)%nat /\
  exists c', conn_step no_session_error (Read 99 true fine (Frame (request 99 "status" VNull))) busy = Some c' /\ cn_tasks c' = cn_tasks busy.
Proof.
  destruct (inflight_capped no_session_error fetches busy 99 true fine (request 99 "status" VNull) busy_runs) as [Hle Hfull].
  split; [exact Hle|]. destruct Hfull as (c' & Hs & _ & Ht); try (vm_compute; reflexivity).
  exists c'. split; [exact Hs|]. by apply Ht.
Defined.

(** A register whose service is taken, answered and torn down; and the same where the reload
    fails. *)
Definition service : EphemeralService := {| eph_backend := Config.Socket "/run/kb"; eph_allow := []; eph_rate_limit_per_min := None |}.
Definition asked : Conn := stepped (Read 1 true fine (Frame (register_kb 1))) conn_start.
Definition server (cs : list (N * Conn)) (names : list string) (took : list (N * N)) : Server :=
  {| sv_conns := foldr (fun kc m => <[kc.1 := kc.2]> m) ∅ cs; sv_services := foldr (fun n m => <[n := service]> m) ∅ names;
     sv_took := list_to_set took |}.

Definition registered_conn (h : Handlers) : Conn := stepped (Finish 1 (Some h)) asked.
Definition y1 : Server := server [(1%N, conn_start)] [] [].
Definition y2 : Server := set_conn 1 asked y1.
Definition y3 : Server := {| sv_conns := sv_conns y2; sv_services := <["kb"%string := service]> ∅; sv_took := {[(1%N, 1%N)]} ∪ ∅ |}.
Definition y4 (h : Handlers) : Server := set_conn 1 (registered_conn h) y3.

Lemma to_y3 : server_steps no_session_error server_start [Plain; Plain; Plain] y3.
Proof.
  apply (server_cons _ _ Plain y1); [by apply (ss_open _ server_start 1)|].
  apply (server_cons _ _ Plain y2).
  { apply (ss_conn _ y1 1 conn_start (Read 1 true fine (Frame (register_kb 1))) asked); [done| |by apply stepped_ok; vm_compute]. simpl. set_solver. }
  apply (server_cons _ _ Plain y3); [|constructor].
  by apply (ss_take _ y2 1 asked 1 {| tk_req := register_kb 1; tk_ephemeral := Some "kb"%string |} "kb" service).
Qed.

Lemma to_y4 h : h = fine \/ h = failing -> server_step no_session_error y3 (note_of 1 (Finish 1 (Some h)) asked (sv_took y3)) (y4 h).
Proof.
  intros Hh. apply (ss_conn _ y3 1 asked (Finish 1 (Some h)) (registered_conn h)); [done| |apply stepped_ok; by destruct Hh as [-> | ->]; vm_compute].
  intros t n _ _ _. set_solver.
Qed.

(** The registration failed after taking its name: nobody will tear it down. *)
Lemma failed_register_orphaned :
  exists y, server_steps no_session_error server_start [Plain; Plain; Plain; FailedAfterTaking 1 1] y /\
    is_Some (sv_services y !! "kb"%string) /\ forall k c, sv_conns y !! k = Some c -> "kb"%string ∉ cn_held c.
Proof.
  exists (y4 failing). split_and!.
  - apply (server_cons _ _ Plain y1); [by apply (ss_open _ server_start 1)|].
    apply (server_cons _ _ Plain y2).
    { apply (ss_conn _ y1 1 conn_start (Read 1 true fine (Frame (register_kb 1))) asked); [done| |by apply stepped_ok; vm_compute]. simpl. set_solver. }
    apply (server_cons _ _ Plain y3).
    { by apply (ss_take _ y2 1 asked 1 {| tk_req := register_kb 1; tk_ephemeral := Some "kb"%string |} "kb" service). }
    eapply server_cons; [|constructor]. exact (to_y4 failing (or_intror eq_refl)).
  - eexists. reflexivity.
  - intros k c Hk. simpl in Hk. apply lookup_insert_Some in Hk as [[_ <-]|[Hne Hk]]; [apply not_elem_of_nil|].
    by rewrite !lookup_insert_ne, lookup_empty in Hk.
Qed.

(** Another connection asks for the same name and closes at once: the first one's service is gone,
    while it is open and holds it. *)
Definition y5 : Server := set_conn 2 conn_start (y4 fine).
Definition y6 : Server := set_conn 2 asked y5.
Definition y7 : Server := set_conn 2 (end_loop asked) y6.
Definition y8 : Server := set_conn 2 (with_phase TornDown (end_loop asked)) (set_services (delete_names (cn_held (end_loop asked)) (sv_services y7)) y7).
Lemma foreign_teardown :
  exists ls, Forall (fun l => l = Plain) ls /\ server_steps no_session_error (y4 fine) ls y8 /\
    sv_conns y8 !! 1%N = Some (registered_conn fine) /\ cn_phase (registered_conn fine) = Reading /\
    "kb"%string ∈ cn_held (registered_conn fine) /\ sv_services y8 !! "kb"%string = None.
Proof.
  exists [Plain; Plain; Plain; Plain]. split_and!; [by repeat constructor| |reflexivity|reflexivity|left|reflexivity].
  apply (server_cons _ _ Plain y5); [by apply (ss_open _ (y4 fine) 2)|].
  apply (server_cons _ _ Plain y6).
  { apply (ss_conn _ y5 2 conn_start (Read 1 true fine (Frame (register_kb 1))) asked); [done| |by apply stepped_ok; vm_compute]. simpl. set_solver. }
  apply (server_cons _ _ Plain y7); [by apply (ss_conn _ y6 2 asked Hangup (end_loop asked))|].
  apply (server_cons _ _ Plain y8); [|constructor]. by apply (ss_teardown _ y7 2 (end_loop asked)).
Qed.

(** A client that asks for a service and hangs up while its request is being polled: the teardown
    finds nothing yet, the request goes on to take the name, and nobody will tear it down. *)
Definition hung_up : Server := set_conn 1 (end_loop asked) y2.
Definition torn : Server := set_conn 1 (with_phase TornDown (end_loop asked)) (set_services (delete_names ["kb"%string] ∅) hung_up).
Definition orphaned : Server := {| sv_conns := sv_conns torn; sv_services := <["kb"%string := service]> (sv_services torn); sv_took := {[(1%N, 1%N)]} ∪ ∅ |}.
Lemma late_register_orphaned :
  server_steps no_session_error server_start [Plain; Plain; Plain; Plain; TookAfterTeardown 1 1] orphaned /\
  is_Some (sv_services orphaned !! "kb"%string) /\ forall k c, sv_conns orphaned !! k = Some c -> cn_phase c = TornDown.
Proof.
  split; [|split; [by eexists|]].
  - apply (server_cons _ _ Plain y1); [by apply (ss_open _ server_start 1)|].
    apply (server_cons _ _ Plain y2).
    { apply (ss_conn _ y1 1 conn_start (Read 1 true fine (Frame (register_kb 1))) asked); [done| |by apply stepped_ok; vm_compute]. simpl. set_solver. }
    apply (server_cons _ _ Plain hung_up); [by apply (ss_conn _ y2 1 asked Hangup (end_loop asked))|].
    apply (server_cons _ _ Plain torn); [by apply (ss_teardown _ hung_up 1 (end_loop asked))|].
    eapply server_cons; [|constructor].
    by apply (ss_take _ torn 1 (with_phase TornDown (end_loop asked)) 1 {| tk_req := register_kb 1; tk_ephemeral := Some "kb"%string |} "kb" service).
  - intros k c Hk. simpl in Hk. apply lookup_insert_Some in Hk as [[_ <-]|[Hne Hk]]; [done|].
    by rewrite !lookup_insert_ne, lookup_empty in Hk.
Qed.

Lemma teardown_complete_witness :
  server_steps no_session_error server_start [Plain; Plain; Plain] y3 /\
  exists k c, sv_conns y3 !! k = Some c /\ cn_phase c <> TornDown /\ "kb"%string ∈ cn_held c.
Proof.
  split; [exact to_y3|].
  exact (proj1 (teardown_complete no_session_error [Plain; Plain; Plain] y3 to_y3 (Forall_cons_2 _ _ _ eq_refl (Forall_cons_2 _ _ _ eq_refl
    (Forall_cons_2 _ _ _ eq_refl (Forall_nil_2 _))))) "kb"%string (ltac:(eexists; reflexivity))).
Defined.

Example codes : handle_request failing (request 7 "blob_list" VNull) = error_frame (num 7) (-32000) "blob_list failed: config error" /\
  handle_request fine (request 8 "open_sesame" VNull) = error_frame (num 8) (-32601) "unknown method: open_sesame" /\
  error_code (blob_kind (BlobWithdrawn "team" "aa")) = -32042.
Proof. split_and!; reflexivity. Qed.

Lemma subscription_faithful_witness :
  exists heard, heard = [(RReach, Got 1); (RAudit, LaggedBy 3); (RBlob, RingClosed); (RReach, Got 2)] /\
    (run_subscription true true 0 (fun _ => true) heard).1 = [Snapshot 0; Pushed RReach 1; LaggedFrame 3; Pushed RReach 2].
Proof.
  eexists. split; [reflexivity|].
  destruct (subscription_faithful true true 0 (fun _ => true) [(RReach, Got 1); (RAudit, LaggedBy 3); (RBlob, RingClosed); (RReach, Got 2)] (fun _ => eq_refl))
    as (heard & _ & Hl & Hall & _).
  rewrite Hl, (Hall RSelf); [reflexivity|by do 2 right; left|].
  rewrite !not_elem_of_cons. split_and!; try discriminate. apply not_elem_of_nil.
Defined.
End Witness.
