(* ===== verification/Client.v ===== *)
(** * The client of the control protocol

    [local-api/src/client.rs]: the handshake, a request and its response, the verbs' helpers, the
    two upgrades and the event stream; [Request] of [local-api/src/protocol.rs]. The bytes that
    will arrive are the reader's; the parameters of a request are given as they serialize. *)
From stdpp Require Import base list strings gmap.
From Stdlib Require Import ZArith Lia Ascii.
From S2P Require Import Prelude Bytes Json Externals Session Mesh Control Framing.

Local Open Scope Z_scope.

(** ** Requests *)
Inductive Request :=
| RqRegisterService | RqStatus | RqInvite | RqPair | RqPeerRemove | RqPeerRename | RqAttestOffer | RqAttestTo | RqPeerRevoke
| RqPeerUnrevoke | RqDeviceRevoke | RqDeviceRevocationImport | RqPeerAdd | RqPeerIntroduce | RqPeerEndorse | RqOpenSession
| RqRosterInstall | RqRosterMembers | RqOrgCreate | RqOrgApprove | RqOrgRotate | RqOrgJoinCode | RqOrgRevoke | RqUserKeyExport
| RqUserKeyImport | RqSelfEnrollDetach | RqOrgJoin | RqSetRosterUrl | RqSetNickname | RqSetAppMetadata | RqSetRelays
| RqUnregisterService | RqPeerServices | RqPeerDiagnostics | RqPeerHintClear | RqServiceAllowGrant | RqServiceAllowRevoke
| RqBlobPublish | RqBlobGrant | RqBlobRevoke | RqBlobUnpublish | RqBlobRepublish | RqBlobList | RqBlobFetch | RqBlobFetchCancel
| RqAuditSummary | RqAuditPrune | RqAuditList | RqSubscribe.

Definition variant (r : Request) : string :=
  match r with
  | RqRegisterService => "RegisterService" | RqStatus => "Status" | RqInvite => "Invite" | RqPair => "Pair" | RqPeerRemove => "PeerRemove"
  | RqPeerRename => "PeerRename" | RqAttestOffer => "AttestOffer" | RqAttestTo => "AttestTo" | RqPeerRevoke => "PeerRevoke"
  | RqPeerUnrevoke => "PeerUnrevoke" | RqDeviceRevoke => "DeviceRevoke" | RqDeviceRevocationImport => "DeviceRevocationImport"
  | RqPeerAdd => "PeerAdd" | RqPeerIntroduce => "PeerIntroduce" | RqPeerEndorse => "PeerEndorse" | RqOpenSession => "OpenSession"
  | RqRosterInstall => "RosterInstall" | RqRosterMembers => "RosterMembers" | RqOrgCreate => "OrgCreate" | RqOrgApprove => "OrgApprove"
  | RqOrgRotate => "OrgRotate" | RqOrgJoinCode => "OrgJoinCode" | RqOrgRevoke => "OrgRevoke" | RqUserKeyExport => "UserKeyExport"
  | RqUserKeyImport => "UserKeyImport" | RqSelfEnrollDetach => "SelfEnrollDetach" | RqOrgJoin => "OrgJoin" | RqSetRosterUrl => "SetRosterUrl"
  | RqSetNickname => "SetNickname" | RqSetAppMetadata => "SetAppMetadata" | RqSetRelays => "SetRelays"
  | RqUnregisterService => "UnregisterService" | RqPeerServices => "PeerServices" | RqPeerDiagnostics => "PeerDiagnostics"
  | RqPeerHintClear => "PeerHintClear" | RqServiceAllowGrant => "ServiceAllowGrant" | RqServiceAllowRevoke => "ServiceAllowRevoke"
  | RqBlobPublish => "BlobPublish" | RqBlobGrant => "BlobGrant" | RqBlobRevoke => "BlobRevoke" | RqBlobUnpublish => "BlobUnpublish"
  | RqBlobRepublish => "BlobRepublish" | RqBlobList => "BlobList" | RqBlobFetch => "BlobFetch" | RqBlobFetchCancel => "BlobFetchCancel"
  | RqAuditSummary => "AuditSummary" | RqAuditPrune => "AuditPrune" | RqAuditList => "AuditList" | RqSubscribe => "Subscribe"
  end.

(** serde's [snake_case] of a variant: an underscore before each capital but the first. *)
Definition is_upper (a : ascii) : bool := (65 <=? Z.of_nat (nat_of_ascii a)) && (Z.of_nat (nat_of_ascii a) <=? 90).
Fixpoint snake_from (first : bool) (s : string) : string :=
  match s with
  | EmptyString => EmptyString
  | String a s =>
      if is_upper a then
        let c := String (ascii_of_nat (nat_of_ascii a + 32)) (snake_from false s) in
        if first then c else String "_" c
      else String a (snake_from false s)
  end.
Definition method_name (r : Request) : string := snake_from true (variant r).

(** [#[serde(tag = "method", content = "params")]]: a unit variant has no params. *)
Definition to_value (r : Request) (params : option Value) : Value :=
  VObject (("method"%string, VString (method_name r)) :: match params with Some p => [("params"%string, p)] | None => [] end).

(** ** The connection *)
Record Hello := { he_api : string; he_api_version : string; he_api_minor : Z; he_stack_version : string }.

Definition u32_of (v : Value) : option Z :=
  match v with VNumber (NInt z) => if (0 <=? z) && (z <=? u32_max) then Some z else None | _ => None end.
(** serde reads the struct from an object or from the sequence of its fields. *)
Definition hello_of (v : Value) : option Hello :=
  match v with
  | VObject m =>
      api ← map_get "api" m ≫= as_str; version ← map_get "api_version" m ≫= as_str;
      minor ← match map_get "api_minor" m with Some v => u32_of v | None => Some 0 end;
      stack ← map_get "stack_version" m ≫= as_str;
      Some {| he_api := api; he_api_version := version; he_api_minor := minor; he_stack_version := stack |}
  | VArray [api; version; minor; stack] =>
      api ← as_str api; version ← as_str version; minor ← u32_of minor; stack ← as_str stack;
      Some {| he_api := api; he_api_version := version; he_api_minor := minor; he_stack_version := stack |}
  | _ => None
  end.

Inductive ClientError :=
| EIo (e : string) | EClosed (what : string) | EMalformed (what : string) | EWrongApi (got want : string) | EApi (error : Value).

Record ControlClient := { cl_hello : Hello; cl_reader : FrameReader; cl_writer : Writer }.
Definition with_reader (r : FrameReader) (c : ControlClient) : ControlClient :=
  {| cl_hello := cl_hello c; cl_reader := r; cl_writer := cl_writer c |}.
Definition with_writer (w : Writer) (c : ControlClient) : ControlClient :=
  {| cl_hello := cl_hello c; cl_reader := cl_reader c; cl_writer := w |}.

Section client.
Context `{J : SerdeJson}.

(** A frame that has to be there; nothing when the caller dropped the future. *)
Definition next_value (what : string) (r : FrameReader) : option (result ClientError Value) * FrameReader :=
  let '(o, r) := next r in
  (match o with
   | Dropped => None
   | Done (Err e) => Some (Err (EIo e))
   | Done (Ok (Some (Framing.Frame v))) => Some (Ok v)
   | Done (Ok (Some (Violated _))) => Some (Err (EMalformed what))
   | Done (Ok None) => Some (Err (EClosed what))
   end, r).

Definition connect_control_io (reads : list Read) (writer : Writer) : option (result ClientError ControlClient) :=
  let '(o, reader) := next_value "hello" (new_reader reads MAX_FRAME_BYTES) in
  r ← o;
  Some (v ← r;
        hello ← ok_or (EMalformed "hello") (hello_of v);
        if decide (he_api hello = API_NAME) then Ok {| cl_hello := hello; cl_reader := reader; cl_writer := writer |}
        else Err (EWrongApi (he_api hello) API_NAME)).

Definition send (request : Value) (c : ControlClient) : result ClientError unit * ControlClient :=
  let '(r, w) := Framing.write_frame (cl_writer c) request in (map_err EIo r, with_writer w c).

(** What the response says. *)
Definition answer (resp : Value) : result ClientError Value :=
  match value_get "error" resp with
  | Some e => Err (EApi e)
  | None => Ok (default VNull (value_get "result" resp))
  end.
Definition read_response (c : ControlClient) : option (result ClientError Value) * ControlClient :=
  let '(o, r) := next_value "response" (cl_reader c) in
  ((fun r => resp ← r; answer resp) <$> o, with_reader r c).

Definition request_value (request : Value) (c : ControlClient) : option (result ClientError Value) * ControlClient :=
  match send request c with
  | (Err e, c) => (Some (Err e), c)
  | (Ok _, c) => read_response c
  end.
Definition request (r : Request) (params : option Value) (c : ControlClient) : option (result ClientError Value) * ControlClient :=
  request_value (to_value r params) c.
Definition request_typed {A} (decode : Value -> option A) (what : string) (r : Request) (params : option Value) (c : ControlClient) :
    option (result ClientError A) * ControlClient :=
  let '(o, c) := request r params c in
  ((fun res => v ← res; ok_or (EMalformed what) (decode v)) <$> o, c).
Definition request_ack (r : Request) (params : option Value) (c : ControlClient) : option (result ClientError unit) * ControlClient :=
  let '(o, c) := request r params c in ((fun res => _ ← res; Ok tt) <$> o, c).

(** The upgrades send and hand the two halves on. *)
Definition open_session (params : Value) (c : ControlClient) : result ClientError (FrameReader * Writer) :=
  let '(r, c) := send (to_value RqOpenSession (Some params)) c in _ ← r; Ok (cl_reader c, cl_writer c).
Definition open_stream (method : string) (c : ControlClient) : result ClientError (FrameReader * Writer) :=
  let '(r, c) := send (VObject [("method"%string, VString method)]) c in _ ← r; Ok (cl_reader c, cl_writer c).
Definition subscribe (c : ControlClient) : result ClientError (FrameReader * Writer) := open_stream "subscribe" c.

(** [StreamSubscription::next]. *)
Definition next_frame {F} (decode : Value -> option F) (r : FrameReader) : option (result ClientError (option F)) * FrameReader :=
  let '(o, r) := next r in
  (match o with
   | Dropped => None
   | Done (Err e) => Some (Err (EIo e))
   | Done (Ok (Some (Framing.Frame v))) => Some (Some <$> ok_or (EMalformed "stream frame") (decode v))
   | Done (Ok (Some (Violated _))) => Some (Err (EMalformed "stream frame"))
   | Done (Ok None) => Some (Ok None)
   end, r).
End client.

(** ** The verbs' helpers

    A helper reads a result under a name, or acknowledges; an upgrade reads no response. *)
Inductive Helper := Ack | Typed (what : string) | Upgrades | NoHelper.
Definition helper (r : Request) : Helper :=
  match r with
  | RqRegisterService | RqPeerIntroduce | RqPeerRemove | RqPeerRename | RqSetRosterUrl | RqUnregisterService | RqServiceAllowGrant
  | RqServiceAllowRevoke | RqSetAppMetadata | RqSetNickname | RqBlobGrant => Ack
  | RqStatus => Typed "status result" | RqInvite => Typed "invite result" | RqPeerEndorse => Typed "peer endorse result"
  | RqPeerDiagnostics => Typed "peer diagnostics result" | RqPeerHintClear => Typed "peer hint clear result" | RqPair => Typed "pair result"
  | RqRosterInstall => Typed "roster_install result" | RqRosterMembers => Typed "roster_members result" | RqOrgCreate => Typed "org_create result"
  | RqOrgApprove => Typed "org_approve result" | RqOrgRotate => Typed "org_rotate result" | RqAttestOffer => Typed "attest_offer result"
  | RqAttestTo => Typed "attest_to result" | RqPeerRevoke => Typed "peer_revoke result" | RqPeerUnrevoke => Typed "peer_unrevoke result"
  | RqDeviceRevoke => Typed "device_revoke result" | RqDeviceRevocationImport => Typed "device_revocation_import result"
  | RqUserKeyExport => Typed "user_key_export result" | RqUserKeyImport => Typed "user_key_import result"
  | RqSelfEnrollDetach => Typed "self_enroll_detach result" | RqOrgJoinCode => Typed "org_join_code result" | RqOrgRevoke => Typed "org_revoke result"
  | RqOrgJoin => Typed "org_join result" | RqPeerServices => Typed "peer_services" | RqSetRelays => Typed "set_relays"
  | RqAuditSummary => Typed "audit_summary result" | RqBlobPublish => Typed "blob_publish result" | RqBlobList => Typed "blob_list result"
  | RqBlobFetch => Typed "blob_fetch result" | RqBlobFetchCancel => Typed "blob_fetch_cancel result"
  | RqOpenSession | RqSubscribe => Upgrades
  | RqPeerAdd | RqBlobRevoke | RqBlobUnpublish | RqBlobRepublish | RqAuditPrune | RqAuditList => NoHelper
  end.

(** ** The client against the server *)
Section conversation.
Context `{J : SerdeJson, P : ParamsCodec} (session_error : Value -> option string).

Definition feed (bs : bytes) (r : FrameReader) : FrameReader :=
  {| fr_reader := fr_reader r ++ (RByte <$> bs); fr_max := fr_max r; fr_buf := fr_buf r; fr_discarding := fr_discarding r |}.

(** The two ends: the client, the server's reader and its connection. *)
Record Ends := { en_client : ControlClient; en_reader : FrameReader; en_conn : Conn }.

(** One request: its task, what its handlers answer, or whether they panic. *)
Record Call := { ca_task : N; ca_handlers : Handlers; ca_panics : bool; ca_request : Value }.
Definition outcome (c : Call) : option Handlers := if ca_panics c then None else Some (ca_handlers c).

(** The server reads a frame, runs it as a task, and the task ends. *)
Definition serve_one (k : Call) (r : FrameReader) (c : Conn) : option (FrameReader * Conn) :=
  match next r with
  | (Done (Ok (Some (Framing.Frame req))), r) =>
      c ← conn_step session_error (Control.Read (ca_task k) true (ca_handlers k) (Control.Frame req)) c;
      c ← conn_step session_error (Finish (ca_task k) (outcome k)) c;
      Some (r, c)
  | _ => None
  end.

(** A request as the client makes it, the server between its two halves. *)
Definition exchange (k : Call) (e : Ends) : option (result ClientError Value * Ends) :=
  match send (ca_request k) (en_client e) with
  | (Err _, _) => None
  | (Ok _, cl) =>
      let sent := drop (length (w_sent (cl_writer (en_client e)))) (w_sent (cl_writer cl)) in
      '(r, c) ← serve_one k (feed sent (en_reader e)) (en_conn e);
      let out := drop (length (cn_out (en_conn e))) (cn_out c) in
      let '(o, cl) := read_response (with_reader (feed (out ≫= frame_bytes) (cl_reader cl)) cl) in
      res ← o; Some (res, {| en_client := cl; en_reader := r; en_conn := c |})
  end.
Fixpoint converse (calls : list Call) (e : Ends) : option (list (result ClientError Value) * Ends) :=
  match calls with
  | [] => Some ([], e)
  | k :: calls => '(res, e) ← exchange k e; '(rs, e) ← converse calls e; Some (res :: rs, e)
  end.

(** What the server answers a call, and what the client makes of an answer. *)
Definition response_to (k : Call) : Value :=
  task_response (outcome k) {| tk_req := ca_request k; tk_ephemeral := ephemeral_name (ca_request k) |}.
Definition read_as (resp : Value) : result ClientError Value :=
  if Z.of_nat (length (json_to_vec resp)) <=? MAX_FRAME_BYTES then answer resp else Err (EMalformed "response").

Definition fits (v : Value) : Prop := plain_value v = true /\ Z.of_nat (length (json_to_vec v)) <= MAX_FRAME_BYTES.
Definition plain_request (req : Value) : Prop :=
  method_of req <> Some "shutdown"%string /\ method_of req <> Some "open_session"%string /\ method_of req <> Some "subscribe"%string.
Definition at_rest (r : FrameReader) : Prop := fr_reader r = [] /\ fr_max r = MAX_FRAME_BYTES /\ fr_buf r = [] /\ fr_discarding r = false.
Definition idle (e : Ends) : Prop :=
  at_rest (cl_reader (en_client e)) /\ w_finished (cl_writer (en_client e)) = false /\ w_faults (cl_writer (en_client e)) = [] /\
  at_rest (en_reader e) /\ cn_phase (en_conn e) = Reading /\ cn_tasks (en_conn e) = ∅.
End conversation.

(** ** Lemmas *)
Section lemmas.
Context `{J : SerdeJson, JL : !SerdeJsonLaws J}.

Lemma next_loop_line max line rest buf :
  newline ∉ line -> Z.of_nat (length buf + length line) <= max ->
  next_loop max ((RByte <$> line ++ [newline]) ++ rest) buf false =
  (Done (Ok (Some (parse_line (buf ++ line)))), {| fr_reader := rest; fr_max := max; fr_buf := []; fr_discarding := false |}).
Proof.
  revert buf. induction line as [|b line IH]; intros buf Hn Hl.
  - cbn. by rewrite app_nil_r.
  - apply not_elem_of_cons in Hn as [Hb Hn]. cbn. rewrite decide_False by (by intros ->). cbn [length] in Hl.
    destruct (Z.leb_spec max (Z.of_nat (length buf))); [lia|]. rewrite IH by (rewrite ?length_app; cbn [length]; try done; lia). by rewrite <- app_assoc.
Qed.

(** The rest of a line that is over the cap is skipped. *)
Lemma next_loop_skip max line rest :
  newline ∉ line ->
  next_loop max ((RByte <$> line ++ [newline]) ++ rest) [] true =
  (Done (Ok (Some (Violated TooLarge))), {| fr_reader := rest; fr_max := max; fr_buf := []; fr_discarding := false |}).
Proof.
  induction line as [|b line IH]; intros Hn; [done|]. apply not_elem_of_cons in Hn as [Hb Hn]. cbn.
  rewrite decide_False by (by intros ->). by apply IH.
Qed.
Lemma next_loop_over max line rest buf :
  newline ∉ line -> Z.of_nat (length buf) <= max < Z.of_nat (length buf + length line) ->
  next_loop max ((RByte <$> line ++ [newline]) ++ rest) buf false =
  (Done (Ok (Some (Violated TooLarge))), {| fr_reader := rest; fr_max := max; fr_buf := []; fr_discarding := false |}).
Proof.
  revert buf. induction line as [|b line IH]; intros buf Hn Hl; [simpl in Hl; lia|].
  apply not_elem_of_cons in Hn as [Hb Hn]. cbn. rewrite decide_False by (by intros ->). cbn [length] in Hl.
  destruct (Z.leb_spec max (Z.of_nat (length buf))); [by apply next_loop_skip|].
  apply IH; [done|]. rewrite length_app. cbn [length]. lia.
Qed.

Lemma next_frame_bytes v rest r :
  fits v -> at_rest r ->
  next {| fr_reader := (RByte <$> frame_bytes v) ++ rest; fr_max := fr_max r; fr_buf := fr_buf r; fr_discarding := fr_discarding r |} =
  (Done (Ok (Some (Framing.Frame v))), {| fr_reader := rest; fr_max := MAX_FRAME_BYTES; fr_buf := []; fr_discarding := false |}).
Proof.
  intros [Hp Hl] (_ & Hm & Hb & Hd). unfold next, frame_bytes. cbn [fr_max fr_reader fr_buf fr_discarding]. rewrite Hm, Hb, Hd.
  rewrite next_loop_line by (done || apply json_no_newline). unfold parse_line. simpl. by rewrite json_from_to.
Qed.

Lemma next_fed v r : fits v -> at_rest r -> exists r', next (feed (frame_bytes v) r) = (Done (Ok (Some (Framing.Frame v))), r') /\ at_rest r'.
Proof.
  intros Hv Hr. eexists. unfold feed. pose proof Hr as (-> & _). rewrite app_nil_l, <- (app_nil_r (RByte <$> frame_bytes v)), (next_frame_bytes v [] r Hv Hr).
  split; [reflexivity|]. done.
Qed.
Lemma next_over v r :
  MAX_FRAME_BYTES < Z.of_nat (length (json_to_vec v)) -> at_rest r ->
  exists r', next (feed (frame_bytes v) r) = (Done (Ok (Some (Violated TooLarge))), r') /\ at_rest r'.
Proof.
  intros Hl (Hr & Hm & Hb & Hd). eexists. unfold feed, next, frame_bytes. cbn [fr_max fr_reader fr_buf fr_discarding].
  rewrite Hr, Hm, Hb, Hd, app_nil_l, <- (app_nil_r (RByte <$> _)). rewrite next_loop_over by (try apply json_no_newline; simpl; unfold MAX_FRAME_BYTES in *; lia).
  split; [reflexivity|]. done.
Qed.
End lemmas.

Section properties.
Context `{J : SerdeJson, JL : !SerdeJsonLaws J, P : ParamsCodec} (session_error : Value -> option string).

Lemma serve_one_spec k r c :
  fits (ca_request k) -> at_rest r -> plain_request (ca_request k) -> cn_phase c = Reading -> cn_tasks c = ∅ ->
  exists r' c', serve_one session_error k (feed (frame_bytes (ca_request k)) r) c = Some (r', c') /\ at_rest r' /\
    cn_phase c' = Reading /\ cn_tasks c' = ∅ /\ cn_out c' = cn_out c ++ [response_to k].
Proof.
  intros Hf Hr (Hs & Ho & Hb) Hp Ht. set (i := ca_task k). set (req := ca_request k) in *.
  destruct (next_fed req r Hf Hr) as (r' & Hn & Hr'). unfold serve_one. rewrite Hn. fold i.
  cbn [conn_step]. rewrite Hp, Ht, lookup_empty, decide_True by done. cbn [mbind option_bind].
  unfold read_frame, is_method. rewrite !bool_decide_eq_false_2 by done. rewrite Ht, map_size_empty.
  destruct (Nat.leb_spec MAX_INFLIGHT 0); [unfold MAX_INFLIGHT in *; lia|]. cbn [conn_step cn_phase with_tasks with_held]. rewrite Hp.
  cbn [cn_tasks with_tasks with_held]. rewrite lookup_insert_eq. cbn [mbind option_bind].
  exists r', (finish_task (outcome k) i {| tk_req := req; tk_ephemeral := ephemeral_name req |}
    (with_tasks {[i := {| tk_req := req; tk_ephemeral := ephemeral_name req |}]}
       (with_held (cn_held c ++ match ephemeral_name req with Some n => [n] | None => [] end) c))).
  split; [done|]. split; [done|]. unfold finish_task. cbn. rewrite Hp. cbn. split_and!; [done| |done]. apply delete_singleton_eq.
Qed.

Lemma exchange_spec k e :
  idle e -> plain_request (ca_request k) -> fits (ca_request k) -> plain_value (response_to k) = true ->
  exists e', exchange session_error k e = Some (read_as (response_to k), e') /\ idle e'.
Proof.
  intros (Hr & Hf & Hw & Hs & Hp & Ht) Hreq Hfit Hresp. unfold exchange, send, Framing.write_frame. rewrite Hf, Hw. cbn [map_err cl_writer with_writer w_sent].
  rewrite drop_app_length. destruct (serve_one_spec k _ _ Hfit Hs Hreq Hp Ht) as (r' & c' & Hsv & Hr' & Hp' & Ht' & Ho'). rewrite Hsv.
  cbn [mbind option_bind]. rewrite Ho', drop_app_length. cbn [mbind list_bind]. rewrite app_nil_r. unfold read_as.
  destruct (Z.leb_spec (Z.of_nat (length (json_to_vec (response_to k)))) MAX_FRAME_BYTES) as [Hle|Hgt].
  - destruct (next_fed (response_to k) _ (conj Hresp Hle) Hr) as (r2 & Hn & Hr2).
    unfold read_response, next_value. cbn [cl_reader with_reader with_writer]. rewrite Hn. cbn.
    eexists. split; [reflexivity|]. done.
  - destruct (next_over (response_to k) _ Hgt Hr) as (r2 & Hn & Hr2).
    unfold read_response, next_value. cbn [cl_reader with_reader with_writer]. rewrite Hn. cbn.
    eexists. split; [reflexivity|]. done.
Qed.

(** An answer of the server, as the client reads it. *)
Lemma answer_spec k :
  match answer (response_to k) with
  | Ok v => value_get "result" (response_to k) = Some v /\ value_get "error" (response_to k) = None
  | Err (EApi e) => value_get "error" (response_to k) = Some e /\ value_get "result" (response_to k) = None
  | Err _ => False
  end.
Proof.
  assert (Hb : bool_decide (is_Some (value_get "result" (response_to k))) = negb (bool_decide (is_Some (value_get "error" (response_to k))))).
  { unfold response_to, outcome. destruct (ca_panics k); [done|]. apply one_of_both. }
  unfold answer. destruct (value_get "error" (response_to k)) as [e|] eqn:He, (value_get "result" (response_to k)) as [v|]; done.
Qed.

(** C36: on a connection that stays up, a client that finishes its requests one after the other gets,
    for each of them, the answer to that request and never another one's: what the handler made
    of it, or that it panicked; and for a response over the frame cap, that it was malformed, with
    the connection as good for the next request as before. *)
Theorem conversation_answered e calls :
  idle e -> Forall (fun k => plain_request (ca_request k) /\ fits (ca_request k) /\ plain_value (response_to k) = true) calls ->
  exists e', converse session_error calls e = Some ((fun k => read_as (response_to k)) <$> calls, e') /\ idle e' /\
    forall k, k ∈ calls ->
      match read_as (response_to k) with
      | Ok v => value_get "result" (response_to k) = Some v
      | Err (EApi err) => value_get "error" (response_to k) = Some err
      | Err err => err = EMalformed "response" /\ MAX_FRAME_BYTES < Z.of_nat (length (json_to_vec (response_to k)))
      end.
Proof.
  intros He Hc. revert e He. induction Hc as [|k calls (Hreq & Hfit & Hresp) _ IH]; intros e He.
  - exists e. split; [done|]. split; [done|]. by intros c ?%not_elem_of_nil.
  - destruct (exchange_spec k e He Hreq Hfit Hresp) as (e1 & Hx & He1). destruct (IH e1 He1) as (e2 & Hcv & He2 & Hall).
    exists e2. cbn [converse]. rewrite Hx. cbn [mbind option_bind]. rewrite Hcv. split; [done|]. split; [done|].
    intros c [->|Hin]%elem_of_cons; [|by apply Hall]. pose proof (answer_spec k) as Ha. unfold read_as.
    destruct (Z.leb_spec (Z.of_nat (length (json_to_vec (response_to k)))) MAX_FRAME_BYTES) as [Hle|Hgt]; [|by split].
    destruct (answer (response_to k)) as [v|[| | | |err]]; try done; by destruct Ha.
Qed.

(** The handshake accepts the server's greeting, and keeps what was sent behind it. *)
Lemma handshake version more w :
  fits (Control.hello version) ->
  connect_control_io ((RByte <$> frame_bytes (Control.hello version)) ++ more) w =
  Some (Ok {| cl_hello := {| he_api := API_NAME; he_api_version := API_VERSION; he_api_minor := API_MINOR; he_stack_version := version |};
    cl_reader := {| fr_reader := more; fr_max := MAX_FRAME_BYTES; fr_buf := []; fr_discarding := false |}; cl_writer := w |}).
Proof.
  intros Hf. unfold connect_control_io, next_value, new_reader.
  pose proof (next_frame_bytes (Control.hello version) more (new_reader [] MAX_FRAME_BYTES) Hf ltac:(done)) as Hn. cbn [new_reader fr_max fr_buf fr_discarding] in Hn.
  rewrite Hn. reflexivity.
Qed.
End properties.

Definition all_requests : list Request :=
  [RqRegisterService; RqStatus; RqInvite; RqPair; RqPeerRemove; RqPeerRename; RqAttestOffer; RqAttestTo; RqPeerRevoke; RqPeerUnrevoke;
   RqDeviceRevoke; RqDeviceRevocationImport; RqPeerAdd; RqPeerIntroduce; RqPeerEndorse; RqRosterInstall; RqRosterMembers; RqOrgCreate;
   RqOrgApprove; RqOrgRotate; RqOrgJoinCode; RqOrgRevoke; RqUserKeyExport; RqUserKeyImport; RqSelfEnrollDetach; RqOrgJoin; RqSetRosterUrl;
   RqSetNickname; RqSetAppMetadata; RqSetRelays; RqUnregisterService; RqPeerServices; RqPeerDiagnostics; RqPeerHintClear; RqServiceAllowGrant;
   RqServiceAllowRevoke; RqBlobPublish; RqBlobGrant; RqBlobRevoke; RqBlobUnpublish; RqBlobRepublish; RqBlobList; RqBlobFetch; RqBlobFetchCancel;
   RqAuditSummary; RqAuditPrune; RqAuditList].
Lemma every_method_named :
  forallb (fun nm : string * Method => bool_decide (nm.1 = "shutdown"%string) || existsb (fun r => String.eqb (method_name r) nm.1) all_requests) methods = true.
Proof. vm_compute. reflexivity. Qed.

(** The client and the dispatcher have one vocabulary: no two requests share a method; every
    request is a verb the server runs or an upgrade; a helper acknowledges exactly a verb that
    answers nothing; and but for the daemon's own shutdown there is no verb without a
    request. *)
Theorem vocabulary_agrees :
  (forall r1 r2, method_name r1 = method_name r2 -> r1 = r2) /\
  (forall r, match helper r with
             | Upgrades => find_method (method_name r) = None /\ (r = RqOpenSession \/ r = RqSubscribe)
             | Ack => exists m, find_method (method_name r) = Some m /\ answers_unit m = true
             | Typed _ => exists m, find_method (method_name r) = Some m /\ answers_unit m = false
             | NoHelper => is_Some (find_method (method_name r))
             end) /\
  (forall name, is_Some (find_method name) -> name = "shutdown"%string \/ exists r, method_name r = name).
Proof.
  split; [|split].
  - intros r1 r2. destruct r1, r2; try reflexivity; vm_compute; discriminate.
  - intros r. destruct r; vm_compute; eauto.
  - intros name [m Hm]. unfold find_method in Hm. apply fmap_Some in Hm as ([n m'] & Hm & _). apply find_first_Some in Hm as [Hin Heq].
    apply String.eqb_eq in Heq. simpl in Heq. subst n. apply list_elem_of_In in Hin.
    pose proof (proj1 (forallb_forall _ _) every_method_named _ Hin) as H. cbn [fst] in H. apply orb_true_iff in H as [H|H].
    + left. by apply bool_decide_eq_true in H.
    + right. apply existsb_exists in H as (r & _ & Hr%String.eqb_eq). by exists r.
Qed.

(** ** Witnesses *)
Module Witness.
Import Toy Control.Witness.
#[local] Instance any_params : ParamsCodec := {| params_error _ _ := None |}.

Definition start : Ends :=
  {| en_client := {| cl_hello := {| he_api := API_NAME; he_api_version := API_VERSION; he_api_minor := API_MINOR; he_stack_version := "1" |};
       cl_reader := new_reader [] MAX_FRAME_BYTES; cl_writer := {| w_sent := []; w_faults := []; w_finished := false |} |};
     en_reader := new_reader [] MAX_FRAME_BYTES; en_conn := conn_start |}.
Lemma start_idle : idle start.
Proof. by repeat split. Qed.

Definition revoke : Value := to_value RqServiceAllowRevoke (Some (VObject [("principal"%string, VString "eid:bob"); ("service"%string, VString "notes")])).
Definition call (i : N) (h : Handlers) (panics : bool) (req : Value) : Call :=
  {| ca_task := i; ca_handlers := h; ca_panics := panics; ca_request := req |}.
Definition calls : list Call := [call 1 failing false revoke; call 2 fine true revoke; call 3 fine false (to_value RqStatus None)].

Lemma plain_calls : Forall (fun k => plain_request (ca_request k) /\ fits (ca_request k) /\ plain_value (response_to k) = true) calls.
Proof. repeat constructor; vm_compute; first [discriminate|reflexivity]. Qed.
Lemma conversation_answered_witness : exists e', idle e' /\
  converse no_session_error calls start = Some ((fun k => read_as (response_to k)) <$> calls, e').
Proof. destruct (conversation_answered no_session_error start calls start_idle plain_calls) as (e' & Hc & Hi & _). exists e'. split; [exact Hi|exact Hc]. Defined.

Example answers : (fun k => is_ok (read_as (response_to k))) <$> calls = [false; false; true].
Proof. vm_compute. reflexivity. Qed.

(** A request whose future is dropped once it was written: the next request reads its answer. The
    revocation failed, and its caller is told that it succeeded. *)
Definition abandon (i : N) (h : Handlers) (req : Value) (e : Ends) : option Ends :=
  let '(_, cl) := send req (en_client e) in
  '(r, c) ← serve_one no_session_error (call i h false req) (feed (frame_bytes req) (en_reader e)) (en_conn e);
  Some {| en_client := Client.with_reader (feed (cn_out c ≫= frame_bytes) (cl_reader cl)) cl; en_reader := r; en_conn := c |}.
Lemma abandoned_answer_taken :
  (res ← (e ← abandon 1 fine (to_value RqStatus None) start; exchange no_session_error (call 2 failing false revoke) e); Some (is_ok res.1)) = Some true /\
  is_ok (answer (handle_request failing revoke)) = false.
Proof. split; vm_compute; reflexivity. Qed.
End Witness.
