(* ===== verification/ConnCache.v ===== *)
(** * The client-connection cache

    [node/src/daemon/conn_cache.rs]: one connection per remote for MCP sessions, with
    single-flight dials.  The cache's map is only touched under its lock; every await of
    [session_on] is a boundary between steps, so the callers of the cache, the endings of their
    dials and the deaths of connections interleave freely as the steps of a transition system.
    A connection stays upgradable while some session holds it; its being so and not closed is
    one flag. *)
From stdpp Require Import base list gmap strings.
From Stdlib Require Import NArith Lia Strings.Byte.
From S2P Require Import Prelude Bytes.

Local Open Scope N_scope.

(** ** State *)
Inductive Slot := Live (conn : N) | Dialing (lead : N).
#[export] Instance Slot_eq_dec : EqDecision Slot.
Proof. solve_decision. Defined.

(** A lead: the devices it dials, and what its waiters read: nothing while it is in flight,
    then the leader's failure, or that it settled or was cancelled. *)
Record DialLead := { dl_peers : list key32; dl_outcome : option (option string) }.
Record Connection := { cn_remote : key32; cn_open : bool }.

Inductive Outcome :=
| Reused (conn : N) | Fresh (conn : N)
| Revoked | CheckFailed (e : string) | DialFailed (e : string)
| TimedOut (leader_failure : option string) | Dropped | Panicked.

(** Where a caller of [session_on] stands. *)
Inductive Phase :=
| Claiming
| Checking (peer : key32) (conn : N)
| Opening (peer : key32) (conn : N)
| Waiting (lead : N)
| Leading (lead : N)
| DialingOwn
| Done (o : Outcome).

Record Caller := {
  ca_peers : list key32;
  ca_dial : bool;
  ca_leader_failure : option string;
  ca_phase : Phase }.

Record World := {
  w_slots : gmap key32 Slot;
  w_leads : gmap N DialLead;
  w_next : N;
  w_conns : gmap N Connection;
  w_callers : gmap N Caller }.

Definition initial : World :=
  {| w_slots := ∅; w_leads := ∅; w_next := 0; w_conns := ∅; w_callers := ∅ |}.

Definition with_slots (s : gmap key32 Slot) (w : World) : World :=
  {| w_slots := s; w_leads := w_leads w; w_next := w_next w; w_conns := w_conns w; w_callers := w_callers w |}.
Definition with_conns (c : gmap N Connection) (w : World) : World :=
  {| w_slots := w_slots w; w_leads := w_leads w; w_next := w_next w; w_conns := c; w_callers := w_callers w |}.
Definition with_caller (id : N) (ca : Caller) (w : World) : World :=
  {| w_slots := w_slots w; w_leads := w_leads w; w_next := w_next w; w_conns := w_conns w;
     w_callers := <[id := ca]> (w_callers w) |}.
Definition with_lead (l : N) (d : DialLead) (w : World) : World :=
  {| w_slots := w_slots w; w_leads := <[l := d]> (w_leads w); w_next := w_next w; w_conns := w_conns w;
     w_callers := w_callers w |}.

Definition at_phase (ph : Phase) (ca : Caller) : Caller :=
  {| ca_peers := ca_peers ca; ca_dial := ca_dial ca; ca_leader_failure := ca_leader_failure ca; ca_phase := ph |}.
(** [dial.take()]. *)
Definition taken (ca : Caller) : Caller :=
  {| ca_peers := ca_peers ca; ca_dial := false; ca_leader_failure := ca_leader_failure ca; ca_phase := ca_phase ca |}.
Definition without (peer : key32) (ca : Caller) : Caller :=
  {| ca_peers := filter (fun p => p <> peer) (ca_peers ca); ca_dial := ca_dial ca;
     ca_leader_failure := ca_leader_failure ca; ca_phase := ca_phase ca |}.
Definition heard (why : option string) (ca : Caller) : Caller :=
  {| ca_peers := ca_peers ca; ca_dial := ca_dial ca;
     ca_leader_failure := match why with Some _ => why | None => ca_leader_failure ca end; ca_phase := ca_phase ca |}.

(** ** The cache *)

(** [open]: the weak handle upgrades to a connection without a close reason. *)
Definition open (w : World) (c : N) : bool :=
  match w_conns w !! c with Some x => cn_open x | None => false end.

Fixpoint claim_live (opens : N -> bool) (peers : list key32) (slots : gmap key32 Slot) :
    option (key32 * N) * gmap key32 Slot :=
  match peers with
  | [] => (None, slots)
  | peer :: peers =>
      match slots !! peer with
      | Some (Live c) => if opens c then (Some (peer, c), slots) else claim_live opens peers (delete peer slots)
      | _ => claim_live opens peers slots
      end
  end.

Fixpoint claim_wait (peers : list key32) (slots : gmap key32 Slot) : option N :=
  match peers with
  | [] => None
  | peer :: peers => match slots !! peer with Some (Dialing l) => Some l | _ => claim_wait peers slots end
  end.

Inductive Claim := ClaimLive (peer : key32) (conn : N) | ClaimWait (lead : N) | ClaimLead (lead : N).

Definition dialing (l : N) (peers : list key32) (slots : gmap key32 Slot) : gmap key32 Slot :=
  foldl (fun m peer => <[peer := Dialing l]> m) slots peers.

(** One look, under one lock. *)
Definition claim (peers : list key32) (w : World) : Claim * World :=
  match claim_live (open w) peers (w_slots w) with
  | (Some (peer, c), slots) => (ClaimLive peer c, with_slots slots w)
  | (None, slots) =>
      match claim_wait peers slots with
      | Some l => (ClaimWait l, with_slots slots w)
      | None =>
          let l := w_next w in
          (ClaimLead l,
           {| w_slots := dialing l peers slots;
              w_leads := <[l := {| dl_peers := peers; dl_outcome := None |}]> (w_leads w);
              w_next := N.succ l; w_conns := w_conns w; w_callers := w_callers w |})
      end
  end.

Definition remove_dialing (m : gmap key32 Slot) (peer : key32) : gmap key32 Slot :=
  match m !! peer with Some (Dialing _) => delete peer m | _ => m end.

Definition settled_slots (winner : key32) (conn : N) (peers : list key32) (slots : gmap key32 Slot) : gmap key32 Slot :=
  foldl (fun m peer => if decide (peer = winner) then <[peer := Live conn]> m else remove_dialing m peer) slots peers.
Definition dropped_slots (peers : list key32) (slots : gmap key32 Slot) : gmap key32 Slot :=
  foldl remove_dialing slots peers.

(** [DialLead]'s three endings. *)
Definition end_lead (l : N) (outcome : option string) (slots : list key32 -> gmap key32 Slot -> gmap key32 Slot)
    (w : World) : World :=
  match w_leads w !! l with
  | None => w
  | Some d => with_lead l {| dl_peers := dl_peers d; dl_outcome := Some outcome |}
                (with_slots (slots (dl_peers d) (w_slots w)) w)
  end.
Definition settle (l : N) (winner : key32) (conn : N) : World -> World := end_lead l None (settled_slots winner conn).
Definition fail (l : N) (e : string) : World -> World := end_lead l (Some e) dropped_slots.
Definition drop_lead (l : N) : World -> World := end_lead l None dropped_slots.

(** A cached connection that refused a stream is forgotten, unless a newer one took its slot. *)
Definition forget (peer : key32) (conn : N) (w : World) : World :=
  if decide (w_slots w !! peer = Some (Live conn)) then with_slots (delete peer (w_slots w)) w else w.

(** ** The callers *)
Inductive Stream := StreamOpen | StreamStale | StreamSaturated.

Inductive Event :=
| Start (id : N) (peers : list key32)
| Claims (id : N)
| Checked (id : N) (refused : result string bool)
| Answered (id : N) (stream : Stream)
| Woken (id : N)
| Dialled (id : N) (r : result string (N * key32))
| Deadline (id : N)
| Cancel (id : N)
| Closed (conn : N).

(** A dial begins; the closure can be taken once. *)
Definition begin_dial (id : N) (ca : Caller) (ph : Phase) (w : World) : World :=
  if ca_dial ca then with_caller id (at_phase ph (taken ca)) w
  else with_caller id (at_phase (Done Panicked) ca) w.

Definition on_claim (id : N) (ca : Caller) (w : World) : World :=
  match claim (ca_peers ca) w with
  | (ClaimLive peer c, w) => with_caller id (at_phase (Checking peer c) ca) w
  | (ClaimWait l, w) => with_caller id (at_phase (Waiting l) ca) w
  | (ClaimLead l, w) => begin_dial id ca (Leading l) w
  end.

Definition on_checked (id : N) (ca : Caller) (peer : key32) (c : N) (refused : result string bool) (w : World) : World :=
  match refused with
  | Ok false => with_caller id (at_phase (Opening peer c) ca) w
  | Ok true =>
      let ca := without peer ca in
      with_caller id (at_phase (if decide (ca_peers ca = []) then Done Revoked else Claiming) ca) w
  | Err e => with_caller id (at_phase (Done (CheckFailed e)) ca) w
  end.

Definition on_answered (id : N) (ca : Caller) (peer : key32) (c : N) (s : Stream) (w : World) : World :=
  match s with
  | StreamOpen => with_caller id (at_phase (Done (Reused c)) ca) w
  | StreamStale => with_caller id (at_phase Claiming ca) (forget peer c w)
  | StreamSaturated => begin_dial id ca DialingOwn w
  end.

Definition on_dialled (id : N) (ca : Caller) (r : result string (N * key32)) (w : World) : World :=
  let w := match r with
           | Ok (c, remote) => with_conns (<[c := {| cn_remote := remote; cn_open := true |}]> (w_conns w)) w
           | Err _ => w
           end in
  let w := match ca_phase ca, r with
           | Leading l, Ok (c, remote) => settle l remote c w
           | Leading l, Err e => fail l e w
           | _, _ => w
           end in
  with_caller id (at_phase (Done (match r with Ok (c, _) => Fresh c | Err e => DialFailed e end)) ca) w.

(** The future of a caller is dropped: by its deadline, or by whoever awaited it. *)
Definition on_dropped (id : N) (ca : Caller) (o : Outcome) (w : World) : World :=
  let w := match ca_phase ca with Leading l => drop_lead l w | _ => w end in
  with_caller id (at_phase (Done o) ca) w.

Definition running (ca : Caller) : bool := match ca_phase ca with Done _ => false | _ => true end.

(** [None] when the event cannot happen. *)
Definition step (e : Event) (w : World) : option World :=
  match e with
  | Start id peers =>
      match w_callers w !! id with
      | Some _ => None
      | None => Some (with_caller id {| ca_peers := peers; ca_dial := true; ca_leader_failure := None; ca_phase := Claiming |} w)
      end
  | Claims id =>
      ca ← w_callers w !! id;
      match ca_phase ca with Claiming => Some (on_claim id ca w) | _ => None end
  | Checked id refused =>
      ca ← w_callers w !! id;
      match ca_phase ca with Checking peer c => Some (on_checked id ca peer c refused w) | _ => None end
  | Answered id s =>
      ca ← w_callers w !! id;
      match ca_phase ca with Opening peer c => Some (on_answered id ca peer c s w) | _ => None end
  | Woken id =>
      ca ← w_callers w !! id;
      match ca_phase ca with
      | Waiting l => d ← w_leads w !! l; why ← dl_outcome d; Some (with_caller id (at_phase Claiming (heard why ca)) w)
      | _ => None
      end
  | Dialled id r =>
      ca ← w_callers w !! id;
      match ca_phase ca with
      | Leading _ | DialingOwn =>
          match r with
          | Ok (c, _) => match w_conns w !! c with Some _ => None | None => Some (on_dialled id ca r w) end
          | Err _ => Some (on_dialled id ca r w)
          end
      | _ => None
      end
  | Deadline id =>
      ca ← w_callers w !! id;
      if running ca then Some (on_dropped id ca (TimedOut (ca_leader_failure ca)) w) else None
  | Cancel id =>
      ca ← w_callers w !! id;
      if running ca then Some (on_dropped id ca Dropped w) else None
  | Closed c =>
      x ← w_conns w !! c;
      Some (with_conns (<[c := {| cn_remote := cn_remote x; cn_open := false |}]> (w_conns w)) w)
  end.

Inductive reachable : World -> Prop :=
| reachable_initial : reachable initial
| reachable_step e w w' : reachable w -> step e w = Some w' -> reachable w'.

Definition run (events : list Event) (w : World) : option World :=
  foldl (fun w e => w ≫= step e) (Some w) events.

(** ** Lemmas *)

(** *** The slots *)
Lemma lookup_dialing l peers slots p :
  dialing l peers slots !! p = if decide (p ∈ peers) then Some (Dialing l) else slots !! p.
Proof.
  unfold dialing. revert slots. induction peers as [|q peers IH]; intros slots; cbn [foldl]; [by rewrite decide_False by (apply not_elem_of_nil)|].
  rewrite IH. destruct (decide (p ∈ peers)) as [Hin|Hout]; [by rewrite decide_True by in_list|].
  destruct (decide (p = q)) as [->|Hne]; [by rewrite lookup_insert_eq, decide_True by left|].
  rewrite lookup_insert_ne by done. by rewrite decide_False by in_list.
Qed.

Definition undialled (s : option Slot) : option Slot := match s with Some (Dialing _) => None | _ => s end.

Lemma lookup_remove_dialing m q p :
  remove_dialing m q !! p = if decide (p = q) then undialled (m !! p) else m !! p.
Proof.
  unfold remove_dialing, undialled. destruct (decide (p = q)) as [->|Hne].
  - destruct (m !! q) as [[c|l]|] eqn:Hq; [done|by rewrite lookup_delete_eq|done].
  - destruct (m !! q) as [[c|l]|]; [done|by rewrite lookup_delete_ne|done].
Qed.

Lemma lookup_dropped peers slots p :
  dropped_slots peers slots !! p = if decide (p ∈ peers) then undialled (slots !! p) else slots !! p.
Proof.
  unfold dropped_slots. revert slots. induction peers as [|q peers IH]; intros slots; cbn [foldl]; [by rewrite decide_False by (apply not_elem_of_nil)|].
  rewrite IH, lookup_remove_dialing. destruct (decide (p = q)) as [->|Hne].
  - rewrite (decide_True (P := q ∈ q :: peers)) by in_list. case_decide; [|done]. by destruct (slots !! q) as [[]|].
  - destruct (decide (p ∈ peers)) as [Hin|Hout]; [by rewrite decide_True by in_list|].
    by rewrite decide_False by in_list.
Qed.

Lemma lookup_settled winner conn peers slots p :
  settled_slots winner conn peers slots !! p =
    if decide (p ∈ peers) then if decide (p = winner) then Some (Live conn) else undialled (slots !! p) else slots !! p.
Proof.
  unfold settled_slots. revert slots. induction peers as [|q peers IH]; intros slots; cbn [foldl]; [by rewrite decide_False by (apply not_elem_of_nil)|].
  rewrite IH. destruct (decide (p ∈ q :: peers)) as [Hin|Hout].
  - destruct (decide (p ∈ peers)) as [Hin'|Hout'].
    + destruct (decide (p = winner)); [done|]. destruct (decide (q = winner)) as [->|].
      * by rewrite lookup_insert_ne by done.
      * rewrite lookup_remove_dialing. case_decide; [|done]. by destruct (slots !! p) as [[]|].
    + apply elem_of_cons in Hin as [->|?]; [|done]. destruct (decide (q = winner)) as [->|]; [by rewrite lookup_insert_eq|].
      by rewrite lookup_remove_dialing, decide_True.
  - apply not_elem_of_cons in Hout as [Hne Hout]. rewrite decide_False by done.
    destruct (decide (q = winner)) as [->|]; [by rewrite lookup_insert_ne|by rewrite lookup_remove_dialing, decide_False].
Qed.

(** A look only removes slots of connections that are not open. *)
Lemma claim_live_slots opens peers slots r slots' :
  claim_live opens peers slots = (r, slots') ->
  (forall p, slots' !! p = slots !! p \/ slots' !! p = None /\ exists c, slots !! p = Some (Live c) /\ opens c = false) /\
  match r with
  | Some (p, c) => p ∈ peers /\ slots !! p = Some (Live c) /\ opens c = true
  | None => forall p c, p ∈ peers -> slots' !! p <> Some (Live c)
  end.
Proof.
  revert slots. induction peers as [|q peers IH]; intros slots H; simpl in H.
  { injection H as <- <-. split; [by left|]. by intros p c ?%not_elem_of_nil. }
  destruct (slots !! q) as [[c|l]|] eqn:Hq; [destruct (opens c) eqn:Ho| |].
  - injection H as <- <-. split; [by left|]. split; [left|done].
  - apply IH in H as [Hs Hr]. assert (Hd : slots' !! q = None).
    { destruct (Hs q) as [Hd|[Hd _]]; [by rewrite Hd, lookup_delete_eq|done]. }
    split.
    + intros p. destruct (decide (p = q)) as [->|]; [right; eauto|]. specialize (Hs p). by rewrite lookup_delete_ne in Hs.
    + destruct r as [[p c']|].
      * destruct Hr as (Hin & Hp & ?). destruct (decide (p = q)) as [->|]; [by rewrite lookup_delete_eq in Hp|].
        rewrite lookup_delete_ne in Hp by done. split_and!; [by right|done..].
      * intros p c' [->|Hin]%elem_of_cons; [congruence|by apply Hr].
  - apply IH in H as [Hs Hr]. split; [done|]. destruct r as [[p c']|].
    + destruct Hr as (? & ? & ?). split_and!; [by right|done..].
    + intros p c' [->|Hin]%elem_of_cons; [|by apply Hr]. destruct (Hs q) as [->|[-> _]]; congruence.
  - apply IH in H as [Hs Hr]. split; [done|]. destruct r as [[p c']|].
    + destruct Hr as (? & ? & ?). split_and!; [by right|done..].
    + intros p c' [->|Hin]%elem_of_cons; [|by apply Hr]. destruct (Hs q) as [->|[-> _]]; congruence.
Qed.

Lemma claim_wait_slots peers slots :
  match claim_wait peers slots with
  | Some l => exists p, p ∈ peers /\ slots !! p = Some (Dialing l)
  | None => forall p l, p ∈ peers -> slots !! p <> Some (Dialing l)
  end.
Proof.
  induction peers as [|q peers IH]; simpl; [by intros p l ?%not_elem_of_nil|].
  destruct (slots !! q) as [[c|l]|] eqn:Hq.
  2: { exists q. split; [left|done]. }
  all: destruct (claim_wait peers slots) as [l'|]; [destruct IH as (p & ? & ?); exists p; split; [by right|done]|];
    intros p l' [->|Hin]%elem_of_cons; [congruence|by apply IH].
Qed.

(** *** The invariant *)
Definition in_flight (w : World) (l : N) (d : DialLead) : Prop := w_leads w !! l = Some d /\ dl_outcome d = None.
Definition leads (w : World) (id l : N) : Prop := exists ca, w_callers w !! id = Some ca /\ ca_phase ca = Leading l.

(** A caller still in its loop has its dial; one that is past it has not panicked. *)
Definition loop_phase (ph : Phase) : bool :=
  match ph with Claiming | Checking _ _ | Opening _ _ | Waiting _ => true | _ => false end.
Definition caller_ok (w : World) (ca : Caller) : Prop :=
  (loop_phase (ca_phase ca) = true -> ca_dial ca = true) /\
  match ca_phase ca with
  | Checking p c | Opening p c => p ∈ ca_peers ca /\ exists x, w_conns w !! c = Some x /\ cn_remote x = p
  | Waiting l => is_Some (w_leads w !! l)
  | Done Panicked => False
  | _ => True
  end.

Record inv (w : World) : Prop := {
  inv_slots p l : w_slots w !! p = Some (Dialing l) <-> exists d, in_flight w l d /\ p ∈ dl_peers d;
  inv_live p c : w_slots w !! p = Some (Live c) -> exists x, w_conns w !! c = Some x /\ cn_remote x = p;
  inv_owner l d : in_flight w l d -> exists id, leads w id l;
  inv_lead id l : leads w id l -> exists d, in_flight w l d;
  inv_unique id id' l : leads w id l -> leads w id' l -> id = id';
  inv_next l d : w_leads w !! l = Some d -> l < w_next w;
  inv_callers id ca : w_callers w !! id = Some ca -> caller_ok w ca }.

(** What a step may do to the connections: new ones, and ends; no remote changes. *)
Definition conns_extend (w w' : World) : Prop :=
  forall c x, w_conns w !! c = Some x -> exists x', w_conns w' !! c = Some x' /\ cn_remote x' = cn_remote x.
Definition leads_extend (w w' : World) : Prop := forall l, is_Some (w_leads w !! l) -> is_Some (w_leads w' !! l).

Lemma caller_ok_extend w w' ca : conns_extend w w' -> leads_extend w w' -> caller_ok w ca -> caller_ok w' ca.
Proof.
  intros Hc Hl [Hd Hp]. split; [done|]. destruct (ca_phase ca); try done.
  - destruct Hp as (? & x & (x' & ? & <-)%Hc & <-). eauto.
  - destruct Hp as (? & x & (x' & ? & <-)%Hc & <-). eauto.
  - by apply Hl.
Qed.

Lemma with_caller_leads w id ca id' l :
  leads (with_caller id ca w) id' l <-> (id' = id /\ ca_phase ca = Leading l) \/ (id' <> id /\ leads w id' l).
Proof.
  unfold leads. simpl. split.
  - intros (ca' & Hc & Hp). destruct (decide (id' = id)) as [->|]; [rewrite lookup_insert_eq in Hc; simplify_eq; by left|].
    rewrite lookup_insert_ne in Hc by done. right. eauto.
  - intros [[-> Hp]|[Hne (ca' & Hc & Hp)]]; [exists ca; by rewrite lookup_insert_eq|exists ca'; by rewrite lookup_insert_ne].
Qed.

(** A caller that neither leads nor starts to lead moves on. *)
Lemma inv_caller w id ca :
  inv w -> (forall l, ~ leads w id l) -> (forall l, ca_phase ca <> Leading l) -> caller_ok w ca -> inv (with_caller id ca w).
Proof.
  intros [Hs Hv Ho Hl Hu Hn Hc] Hold Hnew Hok. split; try done.
  - intros l d Hd. destruct (Ho l d Hd) as [id' Hid]. exists id'. apply with_caller_leads. right. split; [|done].
    intros ->. by apply (Hold l).
  - intros id' l [[-> ?]|[_ ?]]%with_caller_leads; [by destruct (Hnew l)|eauto].
  - intros i j l [[-> ?]|[_ ?]]%with_caller_leads; [by destruct (Hnew l)|].
    intros [[-> ?]|[_ ?]]%with_caller_leads; [by destruct (Hnew l)|eauto].
  - intros i ca'. simpl. destruct (decide (i = id)) as [->|]; [by rewrite lookup_insert_eq; intros [= <-]|].
    rewrite lookup_insert_ne by done. apply Hc.
Qed.

(** Slots of live connections may go. *)
Lemma inv_forget w slots :
  inv w -> (forall p, slots !! p = w_slots w !! p \/ slots !! p = None /\ exists c, w_slots w !! p = Some (Live c)) ->
  inv (with_slots slots w).
Proof.
  intros [Hs Hv Ho Hl Hu Hn Hc] Hsub. split; try done; simpl.
  - intros p l. transitivity (w_slots w !! p = Some (Dialing l)); [|apply Hs].
    destruct (Hsub p) as [->|[-> [c ->]]]; [done|by split].
  - intros p c Hp. apply Hv. destruct (Hsub p) as [Heq|[Heq _]]; congruence.
Qed.

(** Connections may come and end. *)
Lemma inv_conns w conns : inv w -> conns_extend w (with_conns conns w) -> inv (with_conns conns w).
Proof.
  intros [Hs Hv Ho Hl Hu Hn Hc] Hext. split; try done; simpl.
  - intros p c (x & (x' & ? & <-)%Hext & <-)%Hv. eauto.
  - intros id ca Hid%Hc. eapply caller_ok_extend; [done| |done]. by intros l.
Qed.

(** A caller that found none of its devices cached or being dialled leads a dial to them all. *)
Lemma inv_leading w id ca peers :
  inv w -> (forall l, ~ leads w id l) -> (forall p, p ∈ peers -> w_slots w !! p = None) -> ca_phase ca = Leading (w_next w) ->
  inv (with_caller id ca {| w_slots := dialing (w_next w) peers (w_slots w);
         w_leads := <[w_next w := {| dl_peers := peers; dl_outcome := None |}]> (w_leads w);
         w_next := N.succ (w_next w); w_conns := w_conns w; w_callers := w_callers w |}).
Proof.
  intros [Hs Hv Ho Hl Hu Hn Hc] Hold Hfree Hph. set (l0 := w_next w) in *. set (w1 := Build_World _ _ _ _ _).
  assert (Hnew : w_leads w !! l0 = None) by (destruct (w_leads w !! l0) eqn:He; [apply Hn in He; lia|done]).
  assert (Hfl : forall l d, in_flight w1 l d <-> (l = l0 /\ d = {| dl_peers := peers; dl_outcome := None |}) \/ (l <> l0 /\ in_flight w l d)).
  { intros l d. unfold in_flight, w1. simpl. destruct (decide (l = l0)) as [->|].
    - rewrite lookup_insert_eq. naive_solver.
    - rewrite lookup_insert_ne by done. naive_solver. }
  assert (Hlead : forall i l, leads w1 i l <-> leads w i l) by done.
  assert (Hnone : forall i, ~ leads w i l0) by (intros i [d [Hd _]]%Hl; congruence).
  split.
  - intros p l. change (w_slots (with_caller id ca w1)) with (w_slots w1). change (in_flight (with_caller id ca w1)) with (in_flight w1).
    unfold w1. cbn [w_slots]. rewrite lookup_dialing. destruct (decide (p ∈ peers)) as [Hp|Hp].
    + split; [intros [= <-]; eexists; by split; [by apply Hfl; left|]|].
      intros (d & [[-> _]|[Hne Hd]]%Hfl & Hin); [done|]. assert (w_slots w !! p = Some (Dialing l)) by (apply Hs; eauto).
      rewrite Hfree in H; done.
    + rewrite Hs. split; intros (d & Hd & Hin); exists d.
      * split; [|done]. apply Hfl. right. split; [|done]. intros ->. destruct Hd. congruence.
      * apply Hfl in Hd as [[-> ->]|[_ Hd]]; [done|by split].
  - intros p c. change (w_slots (with_caller id ca w1)) with (dialing l0 peers (w_slots w)). rewrite lookup_dialing.
    destruct (decide (p ∈ peers)); [done|apply Hv].
  - intros l d [[-> ->]|[Hne Hd]]%Hfl; [exists id; apply with_caller_leads; by left|].
    destruct (Ho l d Hd) as [i Hi]. exists i. apply with_caller_leads. right. split; [|done]. intros ->. by apply (Hold l).
  - intros i l [[-> Hp]|[_ [d Hd]%Hl]]%with_caller_leads; [|exists d; apply Hfl; right; split; [intros ->; destruct Hd; congruence|done]].
    rewrite Hph in Hp. injection Hp as <-. eexists. apply Hfl. by left.
  - intros i j l [[-> Hp]|[Hi Hil]]%with_caller_leads [[-> Hq]|[Hj Hjl]]%with_caller_leads; [done| | |by eapply Hu].
    + rewrite Hph in Hp. injection Hp as <-. by destruct (Hnone j).
    + rewrite Hph in Hq. injection Hq as <-. by destruct (Hnone i).
  - intros l d. simpl. destruct (decide (l = l0)) as [->|]; [lia|]. rewrite lookup_insert_ne by done. intros ?%Hn. lia.
  - intros i ca'. simpl. destruct (decide (i = id)) as [->|].
    + rewrite lookup_insert_eq. intros [= <-]. split; rewrite Hph; done.
    + rewrite lookup_insert_ne by done. intros Hi%Hc. eapply caller_ok_extend; [..|exact Hi].
      * intros c x Hx. exists x. done.
      * intros l Hlk. simpl. destruct (decide (l = l0)) as [->|]; [by rewrite lookup_insert_eq|by rewrite lookup_insert_ne].
Qed.

(** A lead ends: its slots go, or its winner's becomes the connection. *)
Lemma inv_ended w id l d slots ca outcome :
  inv w -> leads w id l -> w_leads w !! l = Some d -> dl_outcome d = None ->
  (forall p, p ∉ dl_peers d -> slots !! p = w_slots w !! p) ->
  (forall p, p ∈ dl_peers d -> slots !! p = None \/ exists c x, slots !! p = Some (Live c) /\ w_conns w !! c = Some x /\ cn_remote x = p) ->
  (forall l', ca_phase ca <> Leading l') -> caller_ok w ca ->
  inv (with_caller id ca (with_lead l {| dl_peers := dl_peers d; dl_outcome := Some outcome |} (with_slots slots w))).
Proof.
  intros [Hs Hv Ho Hl Hu Hn Hc] Hid Hd Hout Hsame Hgone Hph Hok. set (w1 := with_lead _ _ _).
  assert (Hfl : forall k e, in_flight w1 k e <-> k <> l /\ in_flight w k e).
  { intros k e. unfold in_flight, w1. simpl. destruct (decide (k = l)) as [->|]; [|rewrite lookup_insert_ne by done; naive_solver].
    rewrite lookup_insert_eq. split; [by intros [[= <-] [=]]|naive_solver]. }
  assert (Hpeers : forall p k e, in_flight w k e -> p ∈ dl_peers e -> p ∈ dl_peers d -> k = l).
  { intros p k e He Hp Hp'. assert (w_slots w !! p = Some (Dialing k)) by (apply Hs; eauto).
    assert (w_slots w !! p = Some (Dialing l)) by (apply Hs; exists d; by split). congruence. }
  split.
  - intros p k. change (w_slots (with_caller id ca w1)) with slots. change (in_flight (with_caller id ca w1)) with (in_flight w1).
    destruct (decide (p ∈ dl_peers d)) as [Hp|Hp].
    + split; [destruct (Hgone p Hp) as [->|(c & x & -> & _)]; done|].
      intros (e & [Hne He]%Hfl & Hin). by destruct (Hne (Hpeers p k e He Hin Hp)).
    + rewrite Hsame, Hs by done. split; intros (e & He & Hin); exists e.
      * split; [|done]. apply Hfl. split; [|done]. intros ->. destruct He as [He _]. congruence.
      * by apply Hfl in He as [_ He].
  - intros p c. change (w_slots (with_caller id ca w1)) with slots. change (w_conns (with_caller id ca w1)) with (w_conns w).
    destruct (decide (p ∈ dl_peers d)) as [Hp|Hp]; [|rewrite Hsame by done; apply Hv].
    destruct (Hgone p Hp) as [->|(c' & x & -> & Hx & <-)]; [done|]. intros [= <-]. eauto.
  - intros k e [Hne He]%Hfl. destruct (Ho k e He) as [i Hi]. exists i. apply with_caller_leads. right. split; [|done].
    intros ->. destruct Hid as (ca1 & Hca1 & Hp1), Hi as (ca2 & Hca2 & Hp2). congruence.
  - intros i k [[-> Hp]|[Hne Hi]]%with_caller_leads; [by destruct (Hph k)|]. destruct (Hl i k Hi) as [e He]. exists e.
    apply Hfl. split; [|done]. intros ->. apply Hne. by apply (Hu i id l).
  - intros i j k [[-> ?]|[_ ?]]%with_caller_leads; [by destruct (Hph k)|].
    intros [[-> ?]|[_ ?]]%with_caller_leads; [by destruct (Hph k)|eauto].
  - intros k e. simpl. destruct (decide (k = l)) as [->|]; [intros _; by eapply Hn|].
    rewrite lookup_insert_ne by done. apply Hn.
  - assert (Hext : forall ca', caller_ok w ca' -> caller_ok (with_caller id ca w1) ca').
    { intros ca'. apply caller_ok_extend; [by intros c x Hx; exists x|]. intros k Hk. simpl.
      destruct (decide (k = l)) as [->|]; [by rewrite lookup_insert_eq|by rewrite lookup_insert_ne]. }
    intros i ca'. simpl. destruct (decide (i = id)) as [->|]; [rewrite lookup_insert_eq; intros [= <-]; by apply Hext|].
    rewrite lookup_insert_ne by done. intros Hi%Hc. by apply Hext.
Qed.

(** The endings [end_lead] makes. *)
Lemma inv_end_lead w id l f ca outcome :
  inv w -> leads w id l ->
  (forall peers slots p, p ∉ peers -> f peers slots !! p = slots !! p) ->
  (forall peers slots p, p ∈ peers -> undialled (slots !! p) = None ->
     f peers slots !! p = None \/ exists c x, f peers slots !! p = Some (Live c) /\ w_conns w !! c = Some x /\ cn_remote x = p) ->
  (forall l', ca_phase ca <> Leading l') -> caller_ok w ca ->
  inv (with_caller id ca (end_lead l outcome f w)).
Proof.
  intros Hinv Hid Hout Hin Hph Hok. pose proof Hinv as [Hs _ _ Hl _ _ _]. destruct (Hl id l Hid) as (d & Hd & Hnone).
  unfold end_lead. rewrite Hd. eapply inv_ended; [done..| | |done|done]; [intros p Hp; by apply Hout|].
  intros p Hp. apply Hin; [done|]. assert (w_slots w !! p = Some (Dialing l)) as ->; [apply Hs; exists d; by split|done].
Qed.

Lemma not_leading w id ca l : w_callers w !! id = Some ca -> (forall k, ca_phase ca <> Leading k) -> ~ leads w id l.
Proof. intros Hc Hph (ca' & Hc' & Hp). rewrite Hc in Hc'. injection Hc' as <-. by destruct (Hph l). Qed.

Lemma claim_inv w id ca :
  inv w -> w_callers w !! id = Some ca -> ca_phase ca = Claiming -> inv (on_claim id ca w).
Proof.
  intros Hinv Hca Hph. pose proof (inv_callers _ Hinv _ _ Hca) as [Hdial _]. rewrite Hph in Hdial. specialize (Hdial eq_refl).
  assert (Hnl : forall l, ~ leads w id l) by (intros l; eapply not_leading; [done|]; by rewrite Hph).
  unfold on_claim, claim. destruct (claim_live (open w) (ca_peers ca) (w_slots w)) as [r slots] eqn:Hcl.
  apply claim_live_slots in Hcl as [Hslots Hr].
  assert (Hinv1 : inv (with_slots slots w)).
  { apply inv_forget; [done|]. intros p. destruct (Hslots p) as [?|[? (c & ? & _)]]; [by left|right; eauto]. }
  destruct r as [[peer c]|].
  - destruct Hr as (Hin & Hp & _). apply inv_caller; [done|exact Hnl|done|]. split; [done|]. split; [done|].
    by apply (inv_live _ Hinv).
  - pose proof (claim_wait_slots (ca_peers ca) slots) as Hw. destruct (claim_wait (ca_peers ca) slots) as [l|].
    + destruct Hw as (p & _ & Hp). apply (inv_slots _ Hinv1) in Hp as (d & [Hd _] & _).
      apply inv_caller; [done|exact Hnl|done|]. split; [done|]. by exists d.
    + unfold begin_dial. rewrite Hdial. apply (inv_leading (with_slots slots w)); [done|exact Hnl| |done].
      intros p Hp. simpl. destruct (slots !! p) as [[c|l]|] eqn:Hs; [by destruct (Hr p c Hp)|by destruct (Hw p l Hp)|done].
Qed.

Lemma checked_inv w id ca peer c refused :
  inv w -> w_callers w !! id = Some ca -> ca_phase ca = Checking peer c -> inv (on_checked id ca peer c refused w).
Proof.
  intros Hinv Hca Hph. pose proof (inv_callers _ Hinv _ _ Hca) as [Hdial Hok]. rewrite Hph in Hdial, Hok.
  assert (Hnl : forall l, ~ leads w id l) by (intros l; eapply not_leading; [done|]; by rewrite Hph).
  unfold on_checked. destruct refused as [[]|e].
  - apply inv_caller; [done..|intros l; by case_decide|]. split; simpl; [by case_decide; auto|by case_decide].
  - by apply inv_caller.
  - by apply inv_caller.
Qed.

Lemma answered_inv w id ca peer c s :
  inv w -> w_callers w !! id = Some ca -> ca_phase ca = Opening peer c -> inv (on_answered id ca peer c s w).
Proof.
  intros Hinv Hca Hph. pose proof (inv_callers _ Hinv _ _ Hca) as [Hdial _]. rewrite Hph in Hdial. specialize (Hdial eq_refl).
  assert (Hnl : forall l, ~ leads w id l) by (intros l; eapply not_leading; [done|]; by rewrite Hph).
  unfold on_answered. destruct s; [by apply inv_caller| |unfold begin_dial; rewrite Hdial; by apply inv_caller].
  unfold forget. case_decide as Hs; [|by apply inv_caller].
  apply (inv_caller (with_slots _ w)); [|done..]. apply inv_forget; [done|].
  intros p. destruct (decide (p = peer)) as [->|]; [right; rewrite lookup_delete_eq; eauto|left; by rewrite lookup_delete_ne].
Qed.

(** A future that is dropped clears the slots it led. *)
Lemma dropped_inv w id ca o :
  inv w -> w_callers w !! id = Some ca -> o <> Panicked -> inv (on_dropped id ca o w).
Proof.
  intros Hinv Hca Ho. assert (Hdone : caller_ok w (at_phase (Done o) ca)) by (split; [done|]; by destruct o).
  unfold on_dropped. destruct (ca_phase ca) eqn:Hph.
  5: { apply inv_end_lead; [done|by exists ca| | |done|done]; intros peers slots p Hp; rewrite lookup_dropped.
       - by rewrite decide_False.
       - rewrite decide_True by done. by left. }
  all: apply inv_caller; [done| |done|done]; intros l; eapply not_leading; [done|]; by rewrite Hph.
Qed.

Lemma dialled_inv w id ca r :
  inv w -> w_callers w !! id = Some ca -> (exists l, ca_phase ca = Leading l) \/ ca_phase ca = DialingOwn ->
  (forall c remote, r = Ok (c, remote) -> w_conns w !! c = None) -> inv (on_dialled id ca r w).
Proof.
  intros Hinv Hca Hph Hfresh. unfold on_dialled. set (w1 := match r with Ok (c, remote) => with_conns _ w | Err _ => w end).
  assert (Hinv1 : inv w1).
  { unfold w1. destruct r as [[c remote]|e]; [|done]. apply inv_conns; [done|]. intros c' x Hx. simpl. exists x. split; [|done].
    rewrite lookup_insert_ne; [done|]. intros <-. by rewrite (Hfresh c remote eq_refl) in Hx. }
  assert (Hca1 : w_callers w1 !! id = Some ca) by (unfold w1; by destruct r as [[]|]).
  assert (Hdone : caller_ok w1 (at_phase (Done (match r with Ok (c, _) => Fresh c | Err e => DialFailed e end)) ca))
    by (split; [done|]; by destruct r as [[]|]).
  destruct Hph as [[l Hph]|Hph]; rewrite Hph.
  - assert (Hlead : leads w1 id l) by (by exists ca). destruct r as [[c remote]|e].
    + apply inv_end_lead; [done..| | |done|done]; intros peers slots p Hp; rewrite lookup_settled.
      * by rewrite decide_False.
      * rewrite decide_True by done. case_decide as Hw; [|by left]. intros _. right. exists c, {| cn_remote := remote; cn_open := true |}.
        split_and!; [done| |done]. unfold w1. simpl. by rewrite lookup_insert_eq.
    + apply inv_end_lead; [done..| | |done|done]; intros peers slots p Hp; rewrite lookup_dropped.
      * by rewrite decide_False.
      * rewrite decide_True by done. by left.
  - assert (Hsame : match r with Ok _ | Err _ => w1 end = w1) by (by destruct r).
    destruct r as [[c remote]|e]; (apply inv_caller; [done| |done|done]); intros l; (eapply not_leading; [done|]); by rewrite Hph.
Qed.

Lemma step_inv e w w' : inv w -> step e w = Some w' -> inv w'.
Proof.
  intros Hinv H. destruct e as [id peers|id|id refused|id s|id|id r|id|id|c]; simpl in H.
  - destruct (w_callers w !! id) eqn:Hc; [done|]. injection H as <-. apply inv_caller; try done.
    intros l (ca & Hca & _). congruence.
  - apply bind_Some in H as (ca & Hca & H). destruct (ca_phase ca) eqn:Hph; try done. injection H as <-. by apply claim_inv.
  - apply bind_Some in H as (ca & Hca & H). destruct (ca_phase ca) eqn:Hph; try done. injection H as <-. by apply checked_inv.
  - apply bind_Some in H as (ca & Hca & H). destruct (ca_phase ca) eqn:Hph; try done. injection H as <-. by apply answered_inv.
  - apply bind_Some in H as (ca & Hca & H). destruct (ca_phase ca) eqn:Hph; try done.
    apply bind_Some in H as (d & _ & H). apply bind_Some in H as (why & _ & [= <-]).
    pose proof (inv_callers _ Hinv _ _ Hca) as [Hdial _]. rewrite Hph in Hdial. apply inv_caller; [done| |done|by split].
    intros l. eapply not_leading; [done|]. by rewrite Hph.
  - apply bind_Some in H as (ca & Hca & H).
    assert (Hph : (exists l, ca_phase ca = Leading l) \/ ca_phase ca = DialingOwn) by (destruct (ca_phase ca); try done; eauto).
    assert (Hr : Some w' = Some (on_dialled id ca r w) /\ forall c remote, r = Ok (c, remote) -> w_conns w !! c = None).
    { destruct Hph as [[l Hph]|Hph]; rewrite Hph in H; destruct r as [[c remote]|e]; try done;
        destruct (w_conns w !! c) eqn:Hc; try done; (split; [done|]); by intros ?? [= <- <-]. }
    destruct Hr as [[= ->] Hfresh]. by apply dialled_inv.
  - apply bind_Some in H as (ca & Hca & H). destruct (running ca); [|done]. injection H as <-. by apply dropped_inv.
  - apply bind_Some in H as (ca & Hca & H). destruct (running ca); [|done]. injection H as <-. by apply dropped_inv.
  - apply bind_Some in H as (x & Hx & [= <-]). apply inv_conns; [done|]. intros c' y Hy. simpl.
    destruct (decide (c' = c)) as [->|]; [|exists y; by rewrite lookup_insert_ne].
    rewrite lookup_insert_eq. eexists. split; [done|]. simpl. congruence.
Qed.

Lemma cache_inv w : reachable w -> inv w.
Proof.
  induction 1 as [|e w w' _ IH Hs]; [|by eapply step_inv].
  assert (Hf : forall l d, ~ in_flight initial l d) by (intros l d [Hd _]; unfold initial in Hd; simpl in Hd; by rewrite lookup_empty in Hd).
  assert (Hl : forall i l, ~ leads initial i l) by (intros i l (ca & Hca & _); unfold initial in Hca; simpl in Hca; by rewrite lookup_empty in Hca).
  split.
  - intros p l. simpl. rewrite lookup_empty. split; [done|]. intros (d & Hd & _). by destruct (Hf l d).
  - intros p c. simpl. by rewrite lookup_empty.
  - intros l d Hd. by destruct (Hf l d).
  - intros i l Hi. by destruct (Hl i l).
  - intros i j l Hi. by destruct (Hl i l).
  - intros l d. simpl. by rewrite lookup_empty.
  - intros i ca. simpl. by rewrite lookup_empty.
Qed.

(** *** Histories *)
Definition actor (e : Event) : option N :=
  match e with
  | Start id _ | Claims id | Checked id _ | Answered id _ | Woken id | Dialled id _ | Deadline id | Cancel id => Some id
  | Closed _ => None
  end.

Lemma end_lead_callers l o f w : w_callers (end_lead l o f w) = w_callers w.
Proof. unfold end_lead. by destruct (w_leads w !! l). Qed.

(** A caller's state changes by its own steps only. *)
Lemma step_other e w w' id : step e w = Some w' -> actor e <> Some id -> w_callers w' !! id = w_callers w !! id.
Proof.
  intros H Hne. destruct e as [i peers|i|i refused|i s|i|i r|i|i|c]; simpl in H, Hne.
  9: by apply bind_Some in H as (x & _ & [= <-]).
  all: assert (Hi : id <> i) by congruence.
  1: destruct (w_callers w !! i); [done|]; injection H as <-; simpl; by rewrite lookup_insert_ne.
  all: apply bind_Some in H as (ca & _ & H).
  - destruct (ca_phase ca); try done. injection H as <-. unfold on_claim, claim, begin_dial.
    destruct (claim_live _ _ _) as [[[p c]|] slots]; [|destruct (claim_wait _ _); [|destruct (ca_dial ca)]]; simpl; by rewrite lookup_insert_ne.
  - destruct (ca_phase ca); try done. injection H as <-. unfold on_checked.
    destruct refused as [[]|]; simpl; by rewrite lookup_insert_ne.
  - destruct (ca_phase ca); try done. injection H as <-. unfold on_answered, forget, begin_dial.
    destruct s; [|case_decide|destruct (ca_dial ca)]; simpl; by rewrite lookup_insert_ne.
  - destruct (ca_phase ca); try done. apply bind_Some in H as (d & _ & (why & _ & [= <-])%bind_Some). simpl.
    by rewrite lookup_insert_ne.
  - assert (w' = on_dialled i ca r w) as ->.
    { destruct (ca_phase ca); try done; destruct r as [[c ?]|]; try destruct (w_conns w !! c); by simplify_eq. }
    unfold on_dialled. simpl. rewrite lookup_insert_ne by done.
    destruct (ca_phase ca); destruct r as [[c ?]|]; unfold settle, fail; rewrite ?end_lead_callers; done.
  - destruct (running ca); [|done]. injection H as <-. unfold on_dropped. simpl. rewrite lookup_insert_ne by done.
    destruct (ca_phase ca); unfold drop_lead; rewrite ?end_lead_callers; done.
  - destruct (running ca); [|done]. injection H as <-. unfold on_dropped. simpl. rewrite lookup_insert_ne by done.
    destruct (ca_phase ca); unfold drop_lead; rewrite ?end_lead_callers; done.
Qed.

Lemma run_snoc events e w : run (events ++ [e]) w = run events w ≫= step e.
Proof. unfold run. by rewrite foldl_app. Qed.

Lemma run_reachable events w : run events initial = Some w -> reachable w.
Proof.
  revert w. induction events as [|e events IH] using rev_ind; intros w; [intros [= <-]; constructor|].
  rewrite run_snoc. intros (w1 & Hw & Hs)%bind_Some. econstructor; [by apply IH|done].
Qed.

(** How a caller came by a connection that it is checking, opening a stream on, or has reused. *)
Definition quiet (id : N) (events : list Event) : Prop := Forall (fun e => actor e <> Some id) events.
Definition found (id : N) (p : key32) (c : N) (events : list Event) : Prop :=
  exists before after w, events = before ++ Claims id :: after /\ quiet id after /\
    run before initial = Some w /\ w_slots w !! p = Some (Live c) /\ open w c = true /\
    exists asked, w_callers w !! id = Some asked /\ p ∈ ca_peers asked.
Definition cleared (id : N) (p : key32) (c : N) (events : list Event) : Prop :=
  exists before after, events = before ++ Checked id (Ok false) :: after /\ quiet id after /\ found id p c before.
Definition reused (id : N) (p : key32) (c : N) (events : list Event) : Prop :=
  exists before after, events = before ++ Answered id StreamOpen :: after /\ quiet id after /\ cleared id p c before.

Definition provenance (id : N) (ph : Phase) (events : list Event) : Prop :=
  match ph with
  | Checking p c => found id p c events
  | Opening p c => cleared id p c events
  | Done (Reused c) => exists p, reused id p c events
  | _ => True
  end.

Lemma provenance_other id ph events e : actor e <> Some id -> provenance id ph events -> provenance id ph (events ++ [e]).
Proof.
  intros He. assert (Hq : forall l, quiet id l -> quiet id (l ++ [e])) by (intros l Hl; apply Forall_app; split; [done|by constructor]).
  destruct ph as [| |p c| | | |[c| | | | | | |]]; simpl; try done.
  - intros (b & a & w & -> & ? & ?). exists b, (a ++ [e]), w. rewrite <- app_assoc. split; [done|]. split; [auto|done].
  - intros (b & a & -> & ? & ?). exists b, (a ++ [e]). rewrite <- app_assoc. split; [done|]. split; [auto|done].
  - intros (p & b & a & -> & ? & ?). exists p, b, (a ++ [e]). rewrite <- app_assoc. split; [done|]. split; [auto|done].
Qed.

Lemma own_step e w w' id ca' :
  step e w = Some w' -> actor e = Some id -> w_callers w' !! id = Some ca' ->
  match ca_phase ca' with
  | Checking p c => e = Claims id /\ w_slots w !! p = Some (Live c) /\ open w c = true /\
      exists asked, w_callers w !! id = Some asked /\ p ∈ ca_peers asked
  | Opening p c => e = Checked id (Ok false) /\ exists ca, w_callers w !! id = Some ca /\ ca_phase ca = Checking p c
  | Done (Reused c) => e = Answered id StreamOpen /\ exists ca p, w_callers w !! id = Some ca /\ ca_phase ca = Opening p c
  | _ => True
  end.
Proof.
  intros H He Hca'. destruct e as [i peers|i|i refused|i s|i|i r|i|i|c]; simpl in H, He; simplify_eq.
  1: destruct (w_callers w !! id); [done|]; injection H as <-; simpl in Hca'; by rewrite lookup_insert_eq in Hca'; simplify_eq.
  all: apply bind_Some in H as (ca & Hca & H).
  - destruct (ca_phase ca) eqn:Hph; try done. injection H as <-. unfold on_claim, claim, begin_dial in Hca'.
    destruct (claim_live _ _ _) as [[[p c]|] slots] eqn:Hcl; [|destruct (claim_wait _ _); [|destruct (ca_dial ca)]];
      simpl in Hca'; rewrite lookup_insert_eq in Hca'; simplify_eq/=; try done.
    apply claim_live_slots in Hcl as (_ & ? & ? & ?). eauto 6.
  - destruct (ca_phase ca) eqn:Hph; try done. injection H as <-. unfold on_checked in Hca'.
    destruct refused as [[]|]; simpl in Hca'; rewrite lookup_insert_eq in Hca'; simplify_eq/=; [by case_decide|eauto|done].
  - destruct (ca_phase ca) eqn:Hph; try done. injection H as <-. unfold on_answered, forget, begin_dial in Hca'.
    destruct s; [|case_decide|destruct (ca_dial ca)]; simpl in Hca'; rewrite lookup_insert_eq in Hca'; simplify_eq/=; eauto.
  - destruct (ca_phase ca) eqn:Hph; try done. apply bind_Some in H as (d & _ & (why & _ & [= <-])%bind_Some).
    simpl in Hca'. by rewrite lookup_insert_eq in Hca'; simplify_eq/=.
  - assert (w' = on_dialled id ca r w) as ->.
    { destruct (ca_phase ca); try done; destruct r as [[c ?]|]; try destruct (w_conns w !! c); by simplify_eq. }
    unfold on_dialled in Hca'. simpl in Hca'. rewrite lookup_insert_eq in Hca'. simplify_eq/=. by destruct r as [[]|].
  - destruct (running ca); [|done]. injection H as <-. unfold on_dropped in Hca'. simpl in Hca'. by rewrite lookup_insert_eq in Hca'; simplify_eq/=.
  - destruct (running ca); [|done]. injection H as <-. unfold on_dropped in Hca'. simpl in Hca'. by rewrite lookup_insert_eq in Hca'; simplify_eq/=.
Qed.

Lemma run_provenance events w id ca :
  run events initial = Some w -> w_callers w !! id = Some ca -> provenance id (ca_phase ca) events.
Proof.
  revert w ca. induction events as [|e events IH] using rev_ind; intros w ca.
  { intros [= <-]. simpl. by rewrite lookup_empty. }
  rewrite run_snoc. intros (w1 & Hw & Hs)%bind_Some Hca. destruct (decide (actor e = Some id)) as [He|He].
  - pose proof (own_step _ _ _ _ _ Hs He Hca) as Ho. destruct (ca_phase ca) as [| |p c| | | |[c| | | | | | |]]; simpl; try done.
    + destruct Ho as (-> & ? & ? & ?). exists events, [], w1. split_and!; [done|constructor|done..].
    + destruct Ho as (-> & ca1 & Hca1 & Hph). exists events, []. split_and!; [done|constructor|].
      specialize (IH _ _ Hw Hca1). by rewrite Hph in IH.
    + destruct Ho as (-> & ca1 & p & Hca1 & Hph). exists p, events, []. split_and!; [done|constructor|].
      specialize (IH _ _ Hw Hca1). by rewrite Hph in IH.
  - apply provenance_other; [done|]. eapply IH; [done|]. by rewrite <- (step_other _ _ _ _ Hs He).
Qed.

(** ** Properties *)

(** C21: dials are single-flight, whatever interleaving of callers, dials, failures,
    cancellations and dying connections led here: no two callers dial the same device at the
    same time for the cache, a slot that says a dial is in flight has a caller dialling it, a
    caller that waits has either been answered or waits on a caller that is dialling, and no
    caller ever finds its dial already used. *)
Theorem single_flight w :
  reachable w ->
  (forall i j l k d e p, leads w i l -> leads w j k -> w_leads w !! l = Some d -> w_leads w !! k = Some e ->
     p ∈ dl_peers d -> p ∈ dl_peers e -> i = j /\ l = k) /\
  (forall p l, w_slots w !! p = Some (Dialing l) -> exists id, leads w id l) /\
  (forall id ca l, w_callers w !! id = Some ca -> ca_phase ca = Waiting l ->
     (exists w', step (Woken id) w = Some w') \/ exists id', leads w id' l) /\
  (forall id ca, w_callers w !! id = Some ca -> ca_phase ca <> Done Panicked).
Proof.
  intros Hinv%cache_inv. pose proof Hinv as [Hs _ Ho Hl Hu _ Hc]. split_and!.
  - intros i j l k d e p Hi Hj Hd He Hp Hp'. assert (Hslot : forall i l d, leads w i l -> w_leads w !! l = Some d -> p ∈ dl_peers d ->
      w_slots w !! p = Some (Dialing l)).
    { intros i' l' d' [d2 [Hd2 Hn]]%Hl Hd' Hin. apply Hs. exists d2. split; [by split|]. congruence. }
    pose proof (Hslot _ _ _ Hi Hd Hp) as H1. pose proof (Hslot _ _ _ Hj He Hp') as H2. rewrite H1 in H2. injection H2 as <-.
    split; [by eapply Hu|done].
  - intros p l (d & Hd & _)%Hs. by eapply Ho.
  - intros id ca l Hca Hph. pose proof (Hc _ _ Hca) as [_ Hw]. rewrite Hph in Hw. destruct Hw as [d Hd].
    destruct (dl_outcome d) as [why|] eqn:Hout; [left|right; by apply (Ho l d)].
    simpl. rewrite Hca. simpl. rewrite Hph, Hd. simpl. rewrite Hout. simpl. eauto.
  - intros id ca Hca Hph. pose proof (Hc _ _ Hca) as [_ Hp]. by rewrite Hph in Hp.
Qed.

(** A connection is only reused after a check.  A session that ended on a cached
    connection, last looked in the cache, where the connection was the open one of a device
    it had asked for; then was told that this device is not refused; then got its stream,
    with no step of its own in between. *)
Theorem reuse_checked events w id ca c :
  run events initial = Some w -> w_callers w !! id = Some ca -> ca_phase ca = Done (Reused c) ->
  exists p before mid after final w1 asked x,
    events = before ++ Claims id :: mid ++ Checked id (Ok false) :: after ++ Answered id StreamOpen :: final /\
    quiet id mid /\ quiet id after /\ quiet id final /\ run before initial = Some w1 /\
    w_callers w1 !! id = Some asked /\ p ∈ ca_peers asked /\
    w_slots w1 !! p = Some (Live c) /\ w_conns w1 !! c = Some x /\ cn_open x = true /\ cn_remote x = p.
Proof.
  intros Hrun Hca Hph. pose proof (run_provenance _ _ _ _ Hrun Hca) as H. rewrite Hph in H.
  destruct H as (p & b1 & final & -> & Hq1 & b2 & after & -> & Hq2 & b3 & mid & w1 & -> & Hq3 & Hw1 & Hs & Ho & asked & Ha & Hin).
  pose proof (run_reachable _ _ Hw1) as Hinv%cache_inv. destruct (inv_live _ Hinv _ _ Hs) as (x & Hx & Hr).
  unfold open in Ho. rewrite Hx in Ho. exists p, b3, mid, after, final, w1, asked, x.
  split; [by rewrite <- !app_assoc|]. done.
Qed.

(** A settled dial is found by the next look at any of its winner's names. *)
Lemma claim_finds w id ca p c :
  inv w -> w_callers w !! id = Some ca -> ca_phase ca = Claiming -> p ∈ ca_peers ca -> w_slots w !! p = Some (Live c) ->
  open w c = true ->
  exists w' ca' q c', step (Claims id) w = Some w' /\ w_callers w' !! id = Some ca' /\ ca_phase ca' = Checking q c' /\ open w' c' = true.
Proof.
  intros Hinv Hca Hph Hin Hs Ho. simpl. rewrite Hca. simpl. rewrite Hph. unfold on_claim, claim.
  destruct (claim_live (open w) (ca_peers ca) (w_slots w)) as [[[q c']|] slots] eqn:Hcl; apply claim_live_slots in Hcl as [Hsl Hr].
  - destruct Hr as (_ & _ & Hq). eexists _, _, q, c'. split; [done|]. simpl. rewrite lookup_insert_eq. by split.
  - exfalso. destruct (Hsl p) as [Hp|[_ (c1 & Hc1 & Hno)]]; [|congruence]. apply (Hr p c Hin). congruence.
Qed.

(** One dial serves everyone that waited for it.  When the leader's dial succeeds on a
    device it claimed, every caller waiting on it that asked for this device may go on at once,
    and finds an open connection rather than a reason to dial. *)
Theorem waiters_share w id l c p w' i ca :
  reachable w -> leads w id l -> step (Dialled id (Ok (c, p))) w = Some w' ->
  (exists d, w_leads w !! l = Some d /\ p ∈ dl_peers d) ->
  w_callers w !! i = Some ca -> ca_phase ca = Waiting l -> p ∈ ca_peers ca ->
  exists w'' ca' q c', run [Woken i; Claims i] w' = Some w'' /\ w_callers w'' !! i = Some ca' /\
    ca_phase ca' = Checking q c' /\ open w'' c' = true.
Proof.
  intros Hreach Hid Hs (d & Hd & Hp) Hca Hph Hin. pose proof (reachable_step _ _ _ Hreach Hs) as Hinv'%cache_inv.
  assert (Hne : i <> id) by (intros ->; destruct Hid as (ca1 & Hca1 & Hp1); congruence).
  assert (Hi : w_callers w' !! i = Some ca) by (rewrite (step_other _ _ _ i Hs); [done|by intros [= ->]]).
  destruct Hid as (ca1 & Hca1 & Hph1). simpl in Hs. rewrite Hca1 in Hs. simpl in Hs. rewrite Hph1 in Hs.
  destruct (w_conns w !! c) eqn:Hc; [done|]. injection Hs as Hw'. unfold on_dialled in Hw'. rewrite Hph1 in Hw'. simpl in Hw'.
  unfold settle, end_lead in Hw'. simpl in Hw'. rewrite Hd in Hw'.
  assert (Hlive : w_slots w' !! p = Some (Live c) /\ open w' c = true /\ w_leads w' !! l = Some {| dl_peers := dl_peers d; dl_outcome := Some None |}).
  { subst w'. unfold open. simpl. rewrite lookup_settled, !lookup_insert_eq. by rewrite !decide_True. }
  destruct Hlive as (Hsl & Ho & Hl). set (w2 := with_caller i (at_phase Claiming (heard None ca)) w').
  assert (Hwk : step (Woken i) w' = Some w2) by (simpl; rewrite Hi; simpl; rewrite Hph, Hl; done).
  destruct (claim_finds w2 i (at_phase Claiming (heard None ca)) p c) as (w'' & ca' & q & c' & Hcl & ? & ? & ?); try done.
  - by apply (step_inv (Woken i) w').
  - simpl. by rewrite lookup_insert_eq.
  - exists w'', ca', q, c'. split; [|done]. unfold run. cbn [foldl mbind option_bind]. by rewrite Hwk.
Qed.

(** ** Witnesses *)
Module Witness.

Definition laptop : key32 := key_fill Byte.x11.
Definition phone : key32 := key_fill Byte.x22.

(** A race to two devices, and a second caller that wants one of them. *)
Definition racing : list Event := [Start 1 [laptop; phone]; Claims 1; Start 2 [phone]; Claims 2].
Definition sharing : list Event :=
  racing ++ [Dialled 1 (Ok (7, phone)); Woken 2; Claims 2; Checked 2 (Ok false); Answered 2 StreamOpen].
Definition after (l : list Event) : World := default initial (run l initial).

Definition ran (o : option World) : bool := match o with Some _ => true | None => false end.
Lemma ran_after l : ran (run l initial) = true -> run l initial = Some (after l).
Proof. unfold after. by destruct (run l initial). Qed.
Definition phase (w : World) (id : N) : option Phase := ca_phase <$> w_callers w !! id.
Lemma at_of_phase w id ph : phase w id = Some ph -> exists ca, w_callers w !! id = Some ca /\ ca_phase ca = ph.
Proof. unfold phase. intros (ca & ? & ->)%fmap_Some. eauto. Qed.

Lemma racing_runs : ran (run racing initial) = true.
Proof. vm_compute. reflexivity. Qed.
Lemma sharing_runs : ran (run sharing initial) = true.
Proof. vm_compute. reflexivity. Qed.
Lemma second_waits : phase (after racing) 2 = Some (Waiting 0).
Proof. vm_compute. reflexivity. Qed.
Lemma first_leads : phase (after racing) 1 = Some (Leading 0).
Proof. vm_compute. reflexivity. Qed.
Lemma second_reuses : phase (after sharing) 2 = Some (Done (Reused 7)).
Proof. vm_compute. reflexivity. Qed.
Lemma racing_reachable : reachable (after racing).
Proof. exact (run_reachable _ _ (ran_after _ racing_runs)). Qed.

Lemma single_flight_witness : (exists w', step (Woken 2) (after racing) = Some w') \/ exists id, leads (after racing) id 0.
Proof.
  destruct (at_of_phase _ _ _ second_waits) as (ca & Hca & Hph).
  destruct (single_flight (after racing) racing_reachable) as (_ & _ & Hw & _). exact (Hw 2 ca 0 Hca Hph).
Defined.

Lemma reuse_checked_witness : exists p before rest, sharing = before ++ Claims 2 :: rest /\
  exists w, run before initial = Some w /\ w_slots w !! p = Some (Live 7).
Proof.
  destruct (at_of_phase _ _ _ second_reuses) as (ca & Hca & Hph).
  destruct (reuse_checked sharing (after sharing) 2 ca 7 (ran_after _ sharing_runs) Hca Hph)
    as (p & before & mid & aft & final & w1 & asked & x & Heq & _ & _ & _ & Hrun & _ & _ & Hs & _).
  exists p, before, (mid ++ Checked 2 (Ok false) :: aft ++ Answered 2 StreamOpen :: final).
  split; [exact Heq|]. exists w1. split; [exact Hrun|exact Hs].
Defined.

Definition settled : World := default initial (step (Dialled 1 (Ok (7, phone))) (after racing)).
Lemma settles : ran (step (Dialled 1 (Ok (7, phone))) (after racing)) = true.
Proof. vm_compute. reflexivity. Qed.
Lemma settled_step : step (Dialled 1 (Ok (7, phone))) (after racing) = Some settled.
Proof. unfold settled. pose proof settles as H. by destruct (step _ _). Qed.
Definition lead_peers (w : World) (l : N) : bool :=
  match w_leads w !! l with Some d => bool_decide (phone ∈ dl_peers d) | None => false end.
Lemma led : lead_peers (after racing) 0 = true.
Proof. vm_compute. reflexivity. Qed.
Definition asks (w : World) (id : N) : bool :=
  match w_callers w !! id with Some ca => bool_decide (phone ∈ ca_peers ca) | None => false end.
Lemma asked : asks (after racing) 2 = true.
Proof. vm_compute. reflexivity. Qed.

Lemma waiters_share_witness : exists w ca q c, run [Woken 2; Claims 2] settled = Some w /\ w_callers w !! 2 = Some ca /\
  ca_phase ca = Checking q c /\ open w c = true.
Proof.
  destruct (at_of_phase _ _ _ second_waits) as (ca & Hca & Hph).
  assert (Hlead : exists d, w_leads (after racing) !! 0 = Some d /\ phone ∈ dl_peers d).
  { pose proof led as Hl. unfold lead_peers in Hl. destruct (w_leads (after racing) !! 0) as [d|]; [|discriminate].
    exists d. split; [reflexivity|by apply bool_decide_eq_true in Hl]. }
  assert (Hask : phone ∈ ca_peers ca).
  { pose proof asked as Ha. unfold asks in Ha. rewrite Hca in Ha. by apply bool_decide_eq_true in Ha. }
  exact (waiters_share (after racing) 1 0 7 phone settled 2 ca racing_reachable (at_of_phase _ _ _ first_leads) settled_step
    Hlead Hca Hph Hask).
Defined.
End Witness.
