(* ===== verification/Resume.v ===== *)
(** * Suspend detection

    [node/src/daemon/resume.rs]: the watcher compares, every tick, how far the monotonic clock
    and the wall clock went; a suspended machine's wall clock outruns the other.  Waiting for a
    tick and reading the clocks are arguments; the broadcast is the list of events sent. *)
From stdpp Require Import base list.
From Stdlib Require Import ZArith Lia.
From S2P Require Import Prelude Limits.

Local Open Scope Z_scope.

Definition TICK : Z := 5.
Definition RESUME_THRESHOLD_SECS : Z := 10.
Definition NANOS : Z := 1000000000.

Record ClockDeltas := { mono_secs : Z; wall_secs : Z }.
Record ResumeEvent := { suspended_secs : Z; at_epoch : Z }.

(** [Duration::as_secs] of the saturating difference, cast to [i64]. *)
Definition deltas (last now : Instant * Z) : ClockDeltas :=
  {| mono_secs := i64_wrap (saturating_duration_since now.1 last.1 / NANOS);
     wall_secs := i64_saturating_sub now.2 last.2 |}.

Definition detect_suspend (d : ClockDeltas) : option Z :=
  let skew := i64_saturating_sub (wall_secs d) (mono_secs d) in
  if RESUME_THRESHOLD_SECS <=? skew then Some skew else None.

Definition tick (sent : list ResumeEvent) (d : ClockDeltas) (now_wall : Z) : option ResumeEvent * list ResumeEvent :=
  match detect_suspend d with
  | None => (None, sent)
  | Some suspended =>
      let event := {| suspended_secs := suspended; at_epoch := now_wall |} in
      (Some event, sent ++ [event])
  end.

(** The watcher over the successive readings of its clocks. *)
Fixpoint resume_watch (last : Instant * Z) (readings : list (Instant * Z)) (sent : list ResumeEvent) : list ResumeEvent :=
  match readings with
  | [] => sent
  | now :: readings => resume_watch now readings (tick sent (deltas last now) now.2).2
  end.

(** A span of [elapsed] nanoseconds from the instant [t], of which [asleep] were spent
    suspended: the monotonic clock misses those, the wall clock shows whole seconds. *)
Definition wall (epoch t : Z) : Z := epoch + t / NANOS.
Definition span (epoch mono t elapsed asleep : Z) : ClockDeltas :=
  deltas (mono, wall epoch t) (mono + (elapsed - asleep), wall epoch (t + elapsed)).

(** Ten seconds asleep are always reported and eight never are, so a busy machine that was not
    suspended reports nothing however late its tick; what is reported is within two seconds. *)
Lemma suspend_reported epoch mono t elapsed asleep :
  0 <= t -> 0 <= asleep <= elapsed -> elapsed <= NANOS * 2 ^ 40 -> in_i64 (wall epoch t) -> in_i64 (wall epoch (t + elapsed)) ->
  (10 * NANOS <= asleep -> detect_suspend (span epoch mono t elapsed asleep) <> None) /\
  (asleep <= 8 * NANOS -> detect_suspend (span epoch mono t elapsed asleep) = None) /\
  (forall s, detect_suspend (span epoch mono t elapsed asleep) = Some s -> (s - 2) * NANOS < asleep < (s + 1) * NANOS).
Proof.
  intros Ht Ha He Hw Hw'. unfold span, deltas, detect_suspend. cbn [mono_secs wall_secs fst snd].
  assert (Hm : saturating_duration_since (mono + (elapsed - asleep)) mono = elapsed - asleep) by (unfold saturating_duration_since; lia).
  rewrite Hm. set (m := (elapsed - asleep) / NANOS). set (a := t / NANOS). set (b := (t + elapsed) / NANOS).
  assert (Hma : m * NANOS <= elapsed - asleep < (m + 1) * NANOS) by (subst m; unfold NANOS; pose proof (Z.div_mod (elapsed - asleep) 1000000000); pose proof (Z.mod_pos_bound (elapsed - asleep) 1000000000); lia).
  assert (Hta : a * NANOS <= t < (a + 1) * NANOS) by (subst a; unfold NANOS; pose proof (Z.div_mod t 1000000000); pose proof (Z.mod_pos_bound t 1000000000); lia).
  assert (Htb : b * NANOS <= t + elapsed < (b + 1) * NANOS) by (subst b; unfold NANOS; pose proof (Z.div_mod (t + elapsed) 1000000000); pose proof (Z.mod_pos_bound (t + elapsed) 1000000000); lia).
  unfold wall in *. fold a in Hw |- *. fold b in Hw' |- *. clearbody m a b. unfold NANOS in *.
  assert (Hd : i64_saturating_sub (epoch + b) (epoch + a) = b - a)
    by (rewrite i64_saturating_sub_exact; unfold in_i64, i64_min, i64_max in *; lia).
  rewrite Hd, i64_wrap_id by (unfold in_i64, i64_min, i64_max; lia).
  rewrite i64_saturating_sub_exact by (unfold in_i64, i64_min, i64_max; lia).
  unfold RESUME_THRESHOLD_SECS. destruct (Z.leb_spec 10 (b - a - m)); (split; [|split]); try done; try lia.
  intros s [= <-]. lia.
Qed.

(** Each event is one reading's. *)
Lemma resume_watch_app last readings sent :
  exists events, resume_watch last readings sent = sent ++ events /\
    Forall (fun e => exists now, now ∈ readings /\ at_epoch e = now.2 /\ RESUME_THRESHOLD_SECS <= suspended_secs e) events.
Proof.
  revert last sent. induction readings as [|now readings IH]; intros last sent; simpl; [exists []; by rewrite app_nil_r|].
  destruct (IH now (tick sent (deltas last now) now.2).2) as (events & -> & Hall).
  assert (Hall' : Forall (fun e => exists now', now' ∈ now :: readings /\ at_epoch e = now'.2 /\ RESUME_THRESHOLD_SECS <= suspended_secs e) events).
  { eapply Forall_impl; [exact Hall|]. intros e (n & Hn & ?). exists n. split; [by right|done]. }
  unfold tick. destruct (detect_suspend _) as [s|] eqn:Hd; simpl; [|by exists events].
  exists ({| suspended_secs := s; at_epoch := now.2 |} :: events). rewrite <- app_assoc. split; [done|].
  constructor; [|done]. exists now. split; [left|]. split; [done|]. simpl. unfold detect_suspend in Hd.
  destruct (Z.leb_spec RESUME_THRESHOLD_SECS (i64_saturating_sub (wall_secs (deltas last now)) (mono_secs (deltas last now)))); [|done].
  by injection Hd as <-.
Qed.
