(* ===== verification/Autostart.v ===== *)
(** * Finding or starting the daemon

    [cli/src/client.rs]: a verb connects to the running daemon or starts one and waits for it;
    [cli/src/daemonshell.rs], [local-api/src/transport/unix.rs] and the beginning of
    [node/src/daemon/boot.rs]: how a started process becomes the one daemon of its user or
    leaves. The unix arms.

    The operating system is what the attempts return: a connection, the child's exit, the clock.
    The processes that race for the lock and the socket are a transition system. *)
From stdpp Require Import base list gmap strings pretty.
From Stdlib Require Import ZArith Lia Strings.Byte.
From S2P Require Import Prelude Bytes Digits.

Local Open Scope Z_scope.

(** ** A caller *)
Definition DEFAULT_READY_TIMEOUT : Z := 10000.
Definition MAX_SOCKET_PATH : Z := 107.
Definition FIRST_BACKOFF : Z := 20.
Definition MAX_BACKOFF : Z := 200.

Definition autostart_failure_message (stderr : string) : string :=
  let reason := from_bytes (trim (as_bytes stderr)) in
  let reason := default reason (strip_prefix "Error: " reason) in
  if bool_decide (reason = ""%string) then "the daemon failed to start — run 'mcpmesh doctor' to diagnose"
  else "the daemon failed to start: " +:+ reason +:+ from_bytes [Byte.x0a] +:+ "run 'mcpmesh doctor' to diagnose".

Inductive StartError :=
| PathTooLong
| SpawnFailed (e : string)
| StartFailed (message : string)
| NotReady (cause : string) (secs : Z).

Definition check_socket_path_len (socket : string) : result StartError unit :=
  if MAX_SOCKET_PATH <? Z.of_nat (length (as_bytes socket)) then Err PathTooLong else Ok tt.

Section caller.
Context {Conn : Type}.

(** One pass of the loop: what connecting came to, whether the child has exited and how, what it
    has written to its error stream, and the clock when the deadline is looked at. A connection
    attempt has no limit of its own: [None] is one that does not return. *)
Record Round := {
  rd_connect : option (result string Conn);
  rd_exit : option bool;
  rd_stderr : string;
  rd_now : Z }.

Definition next_backoff (backoff : Z) : Z := Z.min (backoff * 2) MAX_BACKOFF.
Fixpoint backoff_at (i : nat) : Z := match i with O => FIRST_BACKOFF | S i => next_backoff (backoff_at i) end.

(** [SpawnedDaemon::read_stderr]: trimmed. *)
Definition read_stderr (r : Round) : string := from_bytes (trim (as_bytes (rd_stderr r))).

(** What a pass decides; nothing when it goes on to sleep. *)
Definition settle_round (deadline timeout : Z) (r : Round) (connected : result string Conn) : option (result StartError Conn) :=
  match connected with
  | Ok c => Some (Ok c)
  | Err e =>
      if bool_decide (rd_exit r = Some false) then Some (Err (StartFailed (autostart_failure_message (read_stderr r))))
      else if deadline <=? rd_now r then
        Some (Err (if bool_decide (read_stderr r = ""%string) then NotReady e (timeout / 1000)
                   else StartFailed (autostart_failure_message (read_stderr r))))
      else None
  end.

(** The loop, over the passes to come; [None] is one still running. *)
Fixpoint poll (fuel : nat) (deadline timeout : Z) (rounds : nat -> Round) : option (result StartError Conn) :=
  match fuel with
  | O => None
  | S fuel =>
      connected ← rd_connect (rounds O);
      match settle_round deadline timeout (rounds O) connected with
      | Some res => Some res
      | None => poll fuel deadline timeout (fun i => rounds (S i))
      end
  end.

(** [probe] is the connection tried before anything is started, [start] the clock after the
    spawn. *)
Definition ensure_daemon_with_timeout (fuel : nat) (socket : string) (probe : option (result string Conn))
    (spawn : result string unit) (start timeout : Z) (rounds : nat -> Round) : option (result StartError Conn) :=
  match check_socket_path_len socket with
  | Err e => Some (Err e)
  | Ok _ =>
      probe ← probe;
      match probe, spawn with
      | Ok c, _ => Some (Ok c)
      | Err _, Err e => Some (Err (SpawnFailed e))
      | Err _, Ok _ => poll fuel (start + timeout) timeout rounds
      end
  end.

(** *** Lemmas *)
Lemma backoff_bounds i : FIRST_BACKOFF <= backoff_at i <= MAX_BACKOFF.
Proof. unfold FIRST_BACKOFF, MAX_BACKOFF. induction i; simpl; unfold next_backoff, FIRST_BACKOFF, MAX_BACKOFF in *; lia. Qed.

(** A sleep lasts at least as long as asked for, and the clock never goes back. *)
Definition clock_runs (start : Z) (rounds : nat -> Round) : Prop :=
  start <= rd_now (rounds O) /\ forall i, rd_now (rounds i) + backoff_at i <= rd_now (rounds (S i)).

Lemma clock_far start rounds i : clock_runs start rounds -> start + FIRST_BACKOFF * Z.of_nat i <= rd_now (rounds i).
Proof.
  intros [H0 Hs]. induction i as [|i IH]; [lia|]. specialize (Hs i). pose proof (backoff_bounds i). lia.
Qed.

Definition undecided (deadline timeout : Z) (r : Round) : Prop :=
  exists c, rd_connect r = Some c /\ settle_round deadline timeout r c = None.

(** The loop ends with the first pass that decides. *)
Lemma poll_first n deadline timeout rounds c res fuel :
  (forall j, (j < n)%nat -> undecided deadline timeout (rounds j)) ->
  rd_connect (rounds n) = Some c -> settle_round deadline timeout (rounds n) c = Some res -> (n < fuel)%nat ->
  poll fuel deadline timeout rounds = Some res.
Proof.
  revert rounds fuel. induction n as [|n IH]; intros rounds fuel Hpre Hc Hs Hf; (destruct fuel as [|fuel]; [lia|]); simpl.
  - by rewrite Hc; simpl; rewrite Hs.
  - destruct (Hpre 0%nat) as (c0 & Hc0 & Hs0); [lia|]. rewrite Hc0. simpl. rewrite Hs0.
    apply (IH (fun i => rounds (S i))); [intros j Hj; apply Hpre; lia|done|done|lia].
Qed.

Lemma settle_decides deadline timeout r c : deadline <= rd_now r -> is_Some (settle_round deadline timeout r c).
Proof. intros Hd. apply Z.leb_le in Hd. unfold settle_round. rewrite Hd. destruct c; [eauto|]. case_bool_decide; eauto. Qed.

Lemma first_decided n deadline timeout rounds :
  (forall i, is_Some (rd_connect (rounds i))) -> deadline <= rd_now (rounds n) ->
  exists i c res, (i <= n)%nat /\ (forall j, (j < i)%nat -> undecided deadline timeout (rounds j)) /\
    rd_connect (rounds i) = Some c /\ settle_round deadline timeout (rounds i) c = Some res.
Proof.
  intros Hc. revert rounds Hc. induction n as [|n IH]; intros rounds Hc Hd; destruct (Hc 0%nat) as [c Hc0].
  - destruct (settle_decides deadline timeout _ c Hd) as [res Hs]. exists 0%nat, c, res. split_and!; [done|lia|done..].
  - destruct (settle_round deadline timeout (rounds 0%nat) c) as [res|] eqn:Hs.
    + exists 0%nat, c, res. split_and!; [lia|lia|done..].
    + destruct (IH (fun i => rounds (S i)) (fun i => Hc (S i)) Hd) as (i & c' & res & Hi & Hpre & Hci & Hsi).
      exists (S i), c', res. split_and!; [lia| |done..]. intros [|j] Hj; [by exists c|]. apply Hpre. lia.
Qed.

(** How the loop decided. *)
Definition decided (deadline timeout : Z) (r : Round) (res : result StartError Conn) : Prop :=
  (exists c, rd_connect r = Some (Ok c) /\ res = Ok c) \/
  (exists e, rd_connect r = Some (Err e) /\
     ((rd_exit r = Some false /\ res = Err (StartFailed (autostart_failure_message (read_stderr r)))) \/
      (rd_exit r <> Some false /\ deadline <= rd_now r /\
       res = Err (if bool_decide (read_stderr r = ""%string) then NotReady e (timeout / 1000)
                  else StartFailed (autostart_failure_message (read_stderr r)))))).

(** A call to start the daemon ends as soon as one pass decides, and one does within the timeout
    over the shortest pause, plus one: the first connection made is returned; a child that has
    exited with an error is reported at once with what it printed; a child that has exited
    without one (it found another daemon) is no failure; and otherwise the deadline ends it. All of
    that when no connection attempt hangs. *)
Theorem ensure_daemon_ends socket probe start timeout rounds :
  Z.of_nat (length (as_bytes socket)) <= MAX_SOCKET_PATH -> 0 <= timeout ->
  (forall i, is_Some (rd_connect (rounds i))) -> clock_runs start rounds -> is_ok probe = false ->
  exists n res, (n <= Z.to_nat (timeout / FIRST_BACKOFF) + 1)%nat /\ decided (start + timeout) timeout (rounds n) res /\
    (forall j, (j < n)%nat -> exists e, rd_connect (rounds j) = Some (Err e) /\ rd_exit (rounds j) <> Some false /\ rd_now (rounds j) < start + timeout) /\
    forall fuel, (n < fuel)%nat -> ensure_daemon_with_timeout fuel socket (Some probe) (Ok tt) start timeout rounds = Some res.
Proof.
  intros Hp Ht Hc Hclk Hprobe. set (last := (Z.to_nat (timeout / FIRST_BACKOFF) + 1)%nat).
  assert (Hd : start + timeout <= rd_now (rounds last)).
  { pose proof (clock_far _ _ last Hclk) as Hfar. unfold last, FIRST_BACKOFF in *. pose proof (Z.div_pos timeout 20 Ht ltac:(lia)).
    pose proof (Z.mul_succ_div_gt timeout 20 ltac:(lia)). lia. }
  destruct (first_decided last (start + timeout) timeout rounds Hc Hd) as (n & c & res & Hn & Hpre & Hcn & Hs).
  exists n, res. split_and!; [done| | |].
  - unfold decided. unfold settle_round in Hs. destruct c as [c|e]; [injection Hs as <-; left; eauto|right]. exists e. split; [done|].
    case_bool_decide; [injection Hs as <-; by left|right]. destruct (start + timeout <=? _) eqn:Hle; [|done]. injection Hs as <-.
    split_and!; [done|lia|done].
  - intros j Hj. destruct (Hpre j Hj) as (cj & Hcj & Hsj). unfold settle_round in Hsj. destruct cj as [cj|e]; [done|].
    case_bool_decide; [done|]. destruct (_ <=? _) eqn:Hle; [done|]. exists e. split_and!; [done..|lia].
  - intros fuel Hf. unfold ensure_daemon_with_timeout, check_socket_path_len.
    replace (MAX_SOCKET_PATH <? _) with false by (symmetry; apply Z.ltb_ge; done). simpl. destruct probe; [done|].
    by eapply poll_first.
Qed.

(** The deadline is looked at after an attempt has returned: against a daemon that has bound its
    socket and is still starting, an attempt waits for its greeting without limit, and the call
    with it, whatever the timeout. *)
Lemma hung_connect_never_ends socket probe start timeout rounds fuel :
  Z.of_nat (length (as_bytes socket)) <= MAX_SOCKET_PATH -> is_ok probe = false -> rd_connect (rounds 0%nat) = None ->
  ensure_daemon_with_timeout fuel socket (Some probe) (Ok tt) start timeout rounds = None.
Proof.
  intros Hp Hprobe Hc. unfold ensure_daemon_with_timeout, check_socket_path_len.
  replace (MAX_SOCKET_PATH <? _) with false by (symmetry; apply Z.ltb_ge; done). simpl. destruct probe; [done|].
  destruct fuel; [done|]. simpl. by rewrite Hc.
Qed.
End caller.
Arguments Round : clear implicits.

(** ** The daemons *)
Section daemons.
Abbreviation Pid := nat.

(** Where a process that was told to be the daemon has got to: [run] of the shell up to its lock,
    then [serve_forever]. The lock is the kernel's, and goes with the process that holds it. *)
Inductive Phase :=
| Started
| Holding
| Unlinked
| Booting
| Serving
| Gone (exit_zero : bool).

#[export] Instance Phase_eq_dec : EqDecision Phase.
Proof. solve_decision. Defined.

(** The lock's holder, the process that listens on what the socket's path names ([None]: no
    file), and every process. A listener that is dropped leaves its file behind. *)
Record Machine := {
  mc_lock : option Pid;
  mc_socket : option Pid;
  mc_procs : gmap Pid Phase }.
Definition machine0 : Machine := {| mc_lock := None; mc_socket := None; mc_procs := ∅ |}.

Definition at_phase (p : Pid) (ph : Phase) (m : Machine) : Machine :=
  {| mc_lock := mc_lock m; mc_socket := mc_socket m; mc_procs := <[p := ph]> (mc_procs m) |}.
Definition with_lock (l : option Pid) (m : Machine) : Machine :=
  {| mc_lock := l; mc_socket := mc_socket m; mc_procs := mc_procs m |}.
Definition with_socket (s : option Pid) (m : Machine) : Machine :=
  {| mc_lock := mc_lock m; mc_socket := s; mc_procs := mc_procs m |}.

(** [acquire_singleton_lock]: an error, the lock, or another's. *)
Definition acquire_singleton_lock (fault : bool) (p : Pid) (m : Machine) : Machine :=
  if fault then at_phase p (Gone false) m
  else match mc_lock m with
       | None => at_phase p Holding (with_lock (Some p) m)
       | Some _ => at_phase p (Gone true) m
       end.
(** What can go wrong with the listener: before the bind, or making its file private after it. *)
Inductive BindFault := BindFails | ChmodFails.
(** [bind_uds]: the stale file is removed, best effort, then the listener bound; a file that is
    there is [AddrInUse], with which [serve_forever] returns [Ok]. A listener that is dropped leaves
    its file. *)
Definition remove_stale (fails : bool) (p : Pid) (m : Machine) : Machine :=
  at_phase p Unlinked (if fails then m else with_socket None m).
Definition leave (exit_zero : bool) (p : Pid) (m : Machine) : Machine :=
  at_phase p (Gone exit_zero) (with_lock (if decide (mc_lock m = Some p) then None else mc_lock m) m).
Definition bind_uds (fault : option BindFault) (p : Pid) (m : Machine) : Machine :=
  match fault, mc_socket m with
  | Some BindFails, _ => leave false p m
  | _, Some _ => leave true p m
  | Some ChmodFails, None => leave false p (with_socket (Some p) m)
  | None, None => at_phase p Booting (with_socket (Some p) m)
  end.

(** Anyone may start a process at any time, and a process may die at any point. *)
Inductive machine_step : Machine -> Machine -> Prop :=
| ms_spawn m p : mc_procs m !! p = None -> machine_step m (at_phase p Started m)
| ms_lock m p fault : mc_procs m !! p = Some Started -> machine_step m (acquire_singleton_lock fault p m)
| ms_unlink m p fails : mc_procs m !! p = Some Holding -> machine_step m (remove_stale fails p m)
| ms_bind m p fault : mc_procs m !! p = Some Unlinked -> machine_step m (bind_uds fault p m)
| ms_boot m p : mc_procs m !! p = Some Booting -> machine_step m (at_phase p Serving m)
| ms_leave m p ph zero : mc_procs m !! p = Some ph -> (forall z, ph <> Gone z) -> machine_step m (leave zero p m).

Definition machine_runs : Machine -> Machine -> Prop := rtc machine_step.

Definition beyond_lock (ph : Phase) : bool := match ph with Holding | Unlinked | Booting | Serving => true | _ => false end.
Definition bound (ph : Phase) : bool := match ph with Booting | Serving => true | _ => false end.

(** Who reached the socket's path: the connection's other end, once it greets. *)
Definition connects_to (m : Machine) : option Pid :=
  p ← mc_socket m; if bool_decide (mc_procs m !! p = Some Serving) then Some p else None.

(** *** The invariant *)
Record machine_inv (m : Machine) : Prop := {
  mi_lock : forall p ph, mc_procs m !! p = Some ph -> (beyond_lock ph = true <-> mc_lock m = Some p);
  mi_alive : forall p, mc_lock m = Some p -> is_Some (mc_procs m !! p);
  mi_bound : forall p ph, mc_procs m !! p = Some ph -> bound ph = true -> mc_socket m = Some p }.

(** At most one process is beyond the lock, so what one does to the shared state the others do not
    see. *)
Lemma holder_alone m p q ph ph' :
  machine_inv m -> mc_procs m !! p = Some ph -> mc_procs m !! q = Some ph' -> beyond_lock ph = true -> beyond_lock ph' = true -> p = q.
Proof. intros [Hl _ _] Hp Hq Hb Hb'. apply (Hl _ _ Hp) in Hb. apply (Hl _ _ Hq) in Hb'. congruence. Qed.

Lemma bound_beyond ph : bound ph = true -> beyond_lock ph = true.
Proof. by destruct ph. Qed.

(** A step by the holder of the lock, to a phase beyond it. *)
Lemma holder_moves m p ph ph' socket :
  machine_inv m -> mc_procs m !! p = Some ph -> beyond_lock ph = true -> beyond_lock ph' = true ->
  (bound ph' = true -> socket = Some p) ->
  machine_inv (at_phase p ph' (with_socket socket m)).
Proof.
  intros Hi Hp Hb Hb' Hs. pose proof Hi as [Hl Ha Hbd]. pose proof (proj1 (Hl _ _ Hp) Hb) as Hlk. split; simpl.
  - intros q x Hq. destruct (decide (q = p)) as [->|Hne].
    + rewrite lookup_insert_eq in Hq. injection Hq as <-. by split.
    + rewrite lookup_insert_ne in Hq by done. by apply Hl.
  - intros q Hq. destruct (decide (q = p)) as [->|Hne]; [rewrite lookup_insert_eq; eauto|]. rewrite lookup_insert_ne by done. by apply Ha.
  - intros q x Hq Hx. destruct (decide (q = p)) as [->|Hne].
    + rewrite lookup_insert_eq in Hq. injection Hq as <-. by apply Hs.
    + rewrite lookup_insert_ne in Hq by done. destruct Hne. eapply holder_alone; [done..|by apply bound_beyond|done].
Qed.

(** A process that leaves, or never got the lock. *)
Lemma process_leaves m p ph zero : machine_inv m -> mc_procs m !! p = Some ph -> machine_inv (leave zero p m).
Proof.
  intros Hi Hp. pose proof Hi as [Hl Ha Hbd]. split; simpl.
  - intros q x Hq. destruct (decide (q = p)) as [->|Hne].
    + rewrite lookup_insert_eq in Hq. injection Hq as <-. simpl. split; [done|]. case_decide; [done|]. congruence.
    + rewrite lookup_insert_ne in Hq by done. rewrite (Hl _ _ Hq). case_decide as Hd; [|done]. split; [|done]. rewrite Hd. congruence.
  - intros q. case_decide as Hd; [done|]. intros Hq. destruct (decide (q = p)) as [->|Hne]; [by destruct Hd|].
    rewrite lookup_insert_ne by done. by apply Ha.
  - intros q x Hq Hx. destruct (decide (q = p)) as [->|Hne].
    + rewrite lookup_insert_eq in Hq. by injection Hq as <-.
    + rewrite lookup_insert_ne in Hq by done. by eapply Hbd.
Qed.

Lemma started_waits m p : machine_inv m -> mc_procs m !! p = Some Started -> mc_lock m <> Some p.
Proof. intros [Hl _ _] Hp Hlk. by apply (Hl _ _ Hp) in Hlk. Qed.

Lemma at_gone_leave m p zero : mc_lock m <> Some p -> at_phase p (Gone zero) m = leave zero p m.
Proof. intros Hl. unfold leave. rewrite decide_False by done. by destruct m. Qed.

Lemma machine_inv_step m m' : machine_inv m -> machine_step m m' -> machine_inv m'.
Proof.
  intros Hi Hst. pose proof Hi as [Hl Ha Hbd]. destruct Hst as [m p Hp|m p fault Hp|m p fails Hp|m p fault Hp|m p Hp|m p ph zero Hp Hng].
  - split; simpl.
    + intros q x Hq. destruct (decide (q = p)) as [->|Hne].
      * rewrite lookup_insert_eq in Hq. injection Hq as <-. simpl. split; [done|]. intros Hlk. by destruct (Ha _ Hlk); simplify_eq.
      * rewrite lookup_insert_ne in Hq by done. by apply Hl.
    + intros q Hq. destruct (decide (q = p)) as [->|Hne]; [rewrite lookup_insert_eq; eauto|]. rewrite lookup_insert_ne by done. by apply Ha.
    + intros q x Hq Hx. destruct (decide (q = p)) as [->|Hne]; [rewrite lookup_insert_eq in Hq; by injection Hq as <-|].
      rewrite lookup_insert_ne in Hq by done. by eapply Hbd.
  - pose proof (started_waits _ _ Hi Hp) as Hn. unfold acquire_singleton_lock.
    destruct fault; [rewrite at_gone_leave by done; by eapply process_leaves|].
    destruct (mc_lock m) as [o|] eqn:Hlk; [rewrite at_gone_leave by (by rewrite Hlk); by eapply process_leaves|].
    split; simpl.
    + intros q x Hq. destruct (decide (q = p)) as [->|Hne]; [rewrite lookup_insert_eq in Hq; by injection Hq as <-|].
      rewrite lookup_insert_ne in Hq by done. rewrite (Hl _ _ Hq). split; [done|]. intros [= Heq]. congruence.
    + intros q [= <-]. rewrite lookup_insert_eq. eauto.
    + intros q x Hq Hx. destruct (decide (q = p)) as [->|Hne]; [rewrite lookup_insert_eq in Hq; by injection Hq as <-|].
      rewrite lookup_insert_ne in Hq by done. by eapply Hbd.
  - unfold remove_stale. replace (if fails then m else with_socket None m) with (with_socket (if fails then mc_socket m else None) m)
      by (by destruct fails, m). by eapply holder_moves.
  - assert (Hb : machine_inv (at_phase p Booting (with_socket (Some p) m))) by (by eapply holder_moves).
    unfold bind_uds. destruct fault as [[|]|], (mc_socket m) eqn:Hs.
    all: try (by eapply process_leaves).
    2: done.
    replace (leave false p (with_socket (Some p) m)) with (leave false p (at_phase p Booting (with_socket (Some p) m)))
      by (unfold leave, at_phase; simpl; by rewrite insert_insert_eq).
    eapply process_leaves; [exact Hb|apply lookup_insert_eq].
  - replace m with (with_socket (mc_socket m) m) at 1 by (by destruct m). eapply holder_moves; try done. intros _. by eapply Hbd.
  - by eapply process_leaves.
Qed.

Lemma machine_invariant m : machine_runs machine0 m -> machine_inv m.
Proof.
  revert m. apply (rtc_ind_r machine_inv).
  - split; simpl; intros ? ?; by rewrite ?lookup_empty.
  - intros y z _ Hst Hi. by eapply machine_inv_step.
Qed.

(** What the others do while a process is where it is. *)
Definition others (p : Pid) : Machine -> Machine -> Prop := rtc (fun m m' => machine_step m m' /\ mc_procs m' !! p = mc_procs m !! p).

(** They do not touch the lock or the socket of one that is beyond the lock. *)
Lemma other_step m m' p ph :
  machine_inv m -> mc_procs m !! p = Some ph -> beyond_lock ph = true -> machine_step m m' -> mc_procs m' !! p = mc_procs m !! p ->
  mc_lock m' = mc_lock m /\ mc_socket m' = mc_socket m.
Proof.
  intros Hi Hp Hb Hst Hsame. pose proof Hi as [Hl _ _]. pose proof (proj1 (Hl _ _ Hp) Hb) as Hlk.
  assert (Hmoved : forall q ph', mc_procs m !! q = Some ph' -> beyond_lock ph' = true -> mc_procs m' !! q <> Some ph' ->
    mc_lock m' = mc_lock m /\ mc_socket m' = mc_socket m).
  { intros q ph' Hq Hb' Hne. assert (q = p) as -> by (by eapply holder_alone). by rewrite Hsame in Hne. }
  destruct Hst as [m q Hq|m q fault Hq|m q fails Hq|m q fault Hq|m q Hq|m q ph' zero Hq Hng].
  - done.
  - unfold acquire_singleton_lock. rewrite Hlk. by destruct fault.
  - eapply Hmoved; [exact Hq|done|]. simpl. by rewrite lookup_insert_eq.
  - eapply Hmoved; [exact Hq|done|]. unfold bind_uds. destruct fault as [[|]|], (mc_socket m); simpl; by rewrite lookup_insert_eq.
  - eapply Hmoved; [exact Hq|done|]. simpl. by rewrite lookup_insert_eq.
  - destruct (beyond_lock ph') eqn:Hb'.
    + eapply Hmoved; [exact Hq|exact Hb'|]. simpl. rewrite lookup_insert_eq. intros [= Hg]. by destruct (Hng zero).
    + unfold leave. simpl. rewrite decide_False; [done|]. intros Hlq. pose proof (proj2 (Hl _ _ Hq) Hlq). congruence.
Qed.

Lemma others_keep p m m' ph :
  machine_inv m -> mc_procs m !! p = Some ph -> beyond_lock ph = true -> others p m m' ->
  machine_inv m' /\ mc_procs m' !! p = Some ph /\ mc_lock m' = mc_lock m /\ mc_socket m' = mc_socket m.
Proof.
  intros Hi Hp Hb Ho. revert Hi Hp. induction Ho as [m|m m1 m' [Hst Hsame] _ IH]; intros Hi Hp; [done|].
  destruct (other_step _ _ _ _ Hi Hp Hb Hst Hsame) as [Hlk Hso]. rewrite Hp in Hsame.
  destruct (IH (machine_inv_step _ _ Hi Hst) Hsame) as (? & ? & ? & ?). split_and!; [done|done|congruence|congruence].
Qed.

(** *** Properties *)

(** C38: however processes are started, race for the lock, fail and die: at most one is past the
    lock; the socket's path names the one that has bound it until it is gone, whoever starts
    meanwhile, so a connection that is greeted is to that one daemon and callers cannot end up with
    two; and when nobody is past the lock, a process that takes it and then meets no failure of its
    own (of removing the old socket file, of binding, of starting the node) becomes the daemon,
    stale socket and all, whatever the others do in between. *)
Theorem single_daemon m :
  machine_runs machine0 m ->
  (forall p q ph ph', mc_procs m !! p = Some ph -> mc_procs m !! q = Some ph' -> beyond_lock ph = true -> beyond_lock ph' = true -> p = q) /\
  (forall p ph, mc_procs m !! p = Some ph -> bound ph = true -> mc_socket m = Some p /\ mc_lock m = Some p) /\
  (forall p, mc_procs m !! p = Some Serving -> connects_to m = Some p) /\
  (forall p, connects_to m = Some p -> mc_procs m !! p = Some Serving) /\
  ((forall p ph, mc_procs m !! p = Some ph -> beyond_lock ph = false) ->
   forall p m1 m2 m3, mc_procs m !! p = Some Started ->
     others p (acquire_singleton_lock false p m) m1 -> others p (remove_stale false p m1) m2 -> others p (bind_uds None p m2) m3 ->
     machine_runs m (at_phase p Serving m3) /\ connects_to (at_phase p Serving m3) = Some p).
Proof.
  intros Hr. pose proof (machine_invariant _ Hr) as Hi. pose proof Hi as [Hl Ha Hbd]. split_and!.
  - intros p q ph ph'. by apply holder_alone.
  - intros p ph Hp Hb. split; [by eapply Hbd|]. by apply (Hl _ _ Hp), bound_beyond.
  - intros p Hp. unfold connects_to. rewrite (Hbd _ _ Hp eq_refl). simpl. by rewrite bool_decide_eq_true_2.
  - intros p. unfold connects_to. destruct (mc_socket m) as [q|]; [|done]. simpl. case_bool_decide; [|done]. by intros [= <-].
  - intros Hnone p m1 m2 m3 Hp H1 H2 H3. assert (Hfree : mc_lock m = None).
    { destruct (mc_lock m) as [o|] eqn:Hlk; [|done]. destruct (Ha _ eq_refl) as [x Hx].
      pose proof (proj2 (Hl _ _ Hx) eq_refl) as Hb. by rewrite (Hnone _ _ Hx) in Hb. }
    assert (Hothers : forall a b, others p a b -> machine_runs a b) by (intros a b; apply rtc_subrel; by intros ?? [? _]).
    pose proof (ms_lock m p false Hp) as S1. assert (P1 : mc_procs (acquire_singleton_lock false p m) !! p = Some Holding).
    { unfold acquire_singleton_lock. rewrite Hfree. apply lookup_insert_eq. }
    destruct (others_keep _ _ _ _ (machine_inv_step _ _ Hi S1) P1 eq_refl H1) as (I1 & Q1 & _ & _).
    pose proof (ms_unlink m1 p false Q1) as S2.
    destruct (others_keep p _ _ Unlinked (machine_inv_step _ _ I1 S2) (lookup_insert_eq _ _ _) eq_refl H2) as (I2 & Q2 & _ & K2).
    pose proof (ms_bind m2 p None Q2) as S3. simpl in K2.
    assert (E3 : bind_uds None p m2 = at_phase p Booting (with_socket (Some p) m2)) by (unfold bind_uds; by rewrite K2).
    rewrite E3 in H3, S3.
    destruct (others_keep p _ _ Booting (machine_inv_step _ _ I2 S3) (lookup_insert_eq _ _ _) eq_refl H3) as (I3 & Q3 & _ & K3).
    pose proof (ms_boot m3 p Q3) as S4. split.
    + eapply rtc_l; [exact S1|]. etrans; [by apply Hothers|]. eapply rtc_l; [exact S2|]. etrans; [by apply Hothers|].
      eapply rtc_l; [exact S3|]. etrans; [by apply Hothers|]. by apply rtc_once.
    + unfold connects_to. simpl. rewrite K3. simpl. by rewrite bool_decide_eq_true_2 by apply lookup_insert_eq.
Qed.
End daemons.

(** ** Witnesses *)
Module Witness.
Definition refused : Round unit := {| rd_connect := Some (Err "connection refused"%string); rd_exit := None; rd_stderr := ""; rd_now := 0 |}.
Definition at_time (t : Z) (r : Round unit) : Round unit :=
  {| rd_connect := rd_connect r; rd_exit := rd_exit r; rd_stderr := rd_stderr r; rd_now := t |}.
(** Nothing ever answers, and the clock goes by the sleeps. *)
Fixpoint elapsed (i : nat) : Z := match i with O => 0 | S i => elapsed i + backoff_at i end.
Definition silence (i : nat) : Round unit := at_time (elapsed i) refused.

Lemma ensure_daemon_ends_witness : exists n res,
  (n <= 6)%nat /\ decided 100 100 (silence n) res.
Proof.
  destruct (ensure_daemon_ends "/run/mcpmesh.sock" (Err "no such file"%string) 0 100 silence) as (n & res & Hn & Hd & _).
  - vm_compute. discriminate.
  - lia.
  - intros i. exists (Err "connection refused"%string). reflexivity.
  - split; [vm_compute; discriminate|]. intros i. simpl. lia.
  - reflexivity.
  - exists n, res. split; [exact Hn|exact Hd].
Defined.

(** A child that refuses to start is reported with its own words, without a stutter; one that
    lost to another daemon is not. *)
Definition died (i : nat) : Round unit :=
  {| rd_connect := Some (Err "connection refused"%string); rd_exit := Some false;
     rd_stderr := "Error: config.toml: bad value" +:+ from_bytes [Byte.x0a]; rd_now := 0 |}.
Lemma dead_child_reported :
  ensure_daemon_with_timeout 1 "/s" (Some (Err "x"%string)) (Ok tt) 0 10000 died =
    Some (Err (StartFailed ("the daemon failed to start: config.toml: bad value" +:+ from_bytes [Byte.x0a] +:+ "run 'mcpmesh doctor' to diagnose"))).
Proof. vm_compute. reflexivity. Qed.
Definition outrun (i : nat) : Round unit :=
  {| rd_connect := if (i <? 2)%nat then Some (Err "connection refused"%string) else Some (Ok tt);
     rd_exit := Some true; rd_stderr := ""; rd_now := elapsed i |}.
Lemma loser_converges : ensure_daemon_with_timeout 3 "/s" (Some (Err "x"%string)) (Ok tt) 0 10000 outrun = Some (Ok tt).
Proof. vm_compute. reflexivity. Qed.

(** One daemon crashes while serving; the next one takes its place. *)
Definition first_up : Machine := at_phase 0 Serving (bind_uds None 0 (remove_stale false 0 (acquire_singleton_lock false 0 (at_phase 0 Started machine0)))).
Definition crashed : Machine := leave false 0 first_up.
Lemma crashed_reachable : machine_runs machine0 crashed.
Proof.
  unfold crashed, first_up.
  eapply rtc_l; [apply (ms_spawn _ 0%nat); reflexivity|]. eapply rtc_l; [apply (ms_lock _ 0%nat false); reflexivity|].
  eapply rtc_l; [apply (ms_unlink _ 0%nat false); reflexivity|]. eapply rtc_l; [apply (ms_bind _ 0%nat None); reflexivity|].
  eapply rtc_l; [apply (ms_boot _ 0%nat); reflexivity|].
  eapply rtc_l; [apply (ms_leave _ 0%nat Serving false); [reflexivity|discriminate]|]. apply rtc_refl.
Qed.
(** A second process starts, and a third one while it is on its way. *)
Definition restarting : Machine := at_phase 1 Started crashed.
Lemma restarting_reachable : machine_runs machine0 restarting.
Proof. eapply rtc_r; [exact crashed_reachable|]. apply ms_spawn. vm_compute. reflexivity. Qed.
Definition meanwhile : Machine := at_phase 2 Started (acquire_singleton_lock false 1 restarting).
Definition taken_over : Machine := at_phase 1 Serving (bind_uds None 1 (remove_stale false 1 meanwhile)).
Lemma single_daemon_witness : mc_socket crashed = Some 0%nat /\ connects_to taken_over = Some 1%nat.
Proof.
  split; [vm_compute; reflexivity|].
  destruct (single_daemon restarting restarting_reachable) as (_ & _ & _ & _ & H).
  apply (H ltac:(intros p ph Hp; change (mc_procs restarting) with (<[1%nat := Started]> (mc_procs crashed)) in Hp; apply lookup_insert_Some in Hp as [[_ <-]|[_ Hp]]; [reflexivity|];
    change (mc_procs crashed) with ({[0%nat := Gone false]} : gmap nat Phase) in Hp; apply lookup_singleton_Some in Hp as [_ <-]; reflexivity)
    1%nat meanwhile (remove_stale false 1 meanwhile) (bind_uds None 1 (remove_stale false 1 meanwhile))).
  - vm_compute. reflexivity.
  - apply rtc_once. split; [apply ms_spawn; vm_compute; reflexivity|vm_compute; reflexivity].
  - apply rtc_refl.
  - apply rtc_refl.
Defined.

(** A leftover socket that cannot be removed is taken for a live daemon: the one process there
    is leaves with success, and its caller waits for a daemon that does not exist. *)
Definition stuck_socket : Machine :=
  bind_uds None 1 (remove_stale true 1 (acquire_singleton_lock false 1 (at_phase 1 Started crashed))).
Lemma stale_socket_mistaken : mc_procs stuck_socket !! 1%nat = Some (Gone true) /\ connects_to stuck_socket = None /\ mc_lock stuck_socket = None.
Proof. vm_compute. done. Qed.
End Witness.
