(* ===== verification/Endpoints.v ===== *)
(** * Where a node keeps its files, and where its daemon listens

    [local-api/src/paths.rs] and [node/src/paths.rs]: the one rule by which the daemon, the
    command line and plugins resolve the same paths from their environment; the launching
    environment of [cli/src/client.rs]. A path is its bytes, with [Path::join] of unix. *)
From stdpp Require Import base list gmap strings.
From Stdlib Require Import ZArith Lia Strings.Byte.
From S2P Require Import Prelude Bytes Digits Keys Rosters.

Local Open Scope Z_scope.

(** ** Paths *)
Definition slash_byte : byte := Byte.x2f.
Definition is_absolute (p : string) : bool := starts_with "/" p.
Definition ends_with_slash (p : string) : bool := match rev (as_bytes p) with c :: _ => bool_decide (c = slash_byte) | [] => true end.
Definition path_join (dir seg : string) : string :=
  if is_absolute seg then seg else if ends_with_slash dir then dir +:+ seg else dir +:+ "/" +:+ seg.

Inductive PathError := NoHome (var : string) | NoBase | NoRuntimeDir | NoUserName.

Definition MAX_SOCKET_PATH : Z := 107.

(** The process: the root pinned in it, its variables, as bytes. *)
Record Env := { ev_root_override : option string; ev_vars : gmap string string }.
(** [std::env::var(..).ok()]: a variable that is no text is as good as unset. *)
Definition var (e : Env) (name : string) : option string :=
  v ← ev_vars e !! name; if utf8 (as_bytes v) then Some v else None.
(** [std::env::temp_dir] of unix. *)
Definition temp_dir (e : Env) : string := default "/tmp"%string (ev_vars e !! "TMPDIR"%string).

Definition nonempty (s : string) : bool := negb (bool_decide (s = ""%string)).
Definition set_absolute (x : option string) : option string :=
  s ← x; if nonempty s && is_absolute s then Some s else None.

(** First set wins. *)
Definition set_root (dir : string) (e : Env) : result string unit * Env :=
  match ev_root_override e with
  | Some _ => (Err dir, e)
  | None => (Ok tt, {| ev_root_override := Some dir; ev_vars := ev_vars e |})
  end.

Definition profile_root (e : Env) : option string :=
  match ev_root_override e with
  | Some p => Some p
  | None => set_absolute (var e "MCPMESH_HOME")
  end.

(** FNV-1a folded to 32 bits. *)
Definition u64 (z : Z) : Z := z mod 2 ^ 64.
Definition fnv_step (h : Z) (b : byte) : Z := u64 (Z.lxor h (byte_val b) * 0x100000001b3).
Definition fnv_fold (s : string) : Z := foldl fnv_step 0xcbf29ce484222325 (as_bytes s).
Definition fnv8 (s : string) : string :=
  let h := fnv_fold s in
  let folded := Z.lxor (Z.shiftr h 32) h mod 2 ^ 32 in
  from_bytes (concat ((fun i => lower_hex (byte_of (folded / 256 ^ i))) <$> [3; 2; 1; 0])).

(** [to_string_lossy]: each maximal part of a character that does not go on is replaced. *)
Definition replacement : bytes := [Byte.xef; Byte.xbf; Byte.xbd].
Definition second_of_three (c d : byte) : bool :=
  (between 0xe0 0xe0 c && between 0xa0 0xbf d) || ((between 0xe1 0xec c || between 0xee 0xef c) && continuation d)
  || (between 0xed 0xed c && between 0x80 0x9f d).
Definition second_of_four (c d : byte) : bool :=
  (between 0xf0 0xf0 c && between 0x90 0xbf d) || (between 0xf1 0xf3 c && continuation d) || (between 0xf4 0xf4 c && between 0x80 0x8f d).
Fixpoint lossy (b : bytes) : bytes :=
  match b with
  | [] => []
  | c :: b =>
      if between 0 0x7f c then c :: lossy b
      else
        match b with
        | [] => replacement
        | d :: b' =>
            if between 0xc2 0xdf c then if continuation d then c :: d :: lossy b' else replacement ++ lossy b
            else if second_of_three c d then
              match b' with
              | [] => replacement
              | e :: b'' => if continuation e then c :: d :: e :: lossy b'' else replacement ++ lossy b'
              end
            else if second_of_four c d then
              match b' with
              | [] => replacement
              | e :: b'' =>
                  if continuation e then
                    match b'' with
                    | [] => replacement
                    | f :: b''' => if continuation f then c :: d :: e :: f :: lossy b''' else replacement ++ lossy b''
                    end
                  else replacement ++ lossy b'
              end
            else replacement ++ lossy b
        end
  end.

Definition runtime_under_root (root tmp : string) : string :=
  let natural := path_join root "run" in
  let sock_len := Z.of_nat (String.length (path_join natural "mcpmesh.sock")) in
  if sock_len <=? MAX_SOCKET_PATH then natural
  else path_join tmp ("mcpmesh-" +:+ fnv8 (from_bytes (lossy (as_bytes root)))).

Definition xdg_dir_from (name : string) (xdg home : option string) (home_segments : list string) : result PathError string :=
  match set_absolute xdg with
  | Some x => Ok (path_join x "mcpmesh")
  | None =>
      match home with
      | Some h => if nonempty h then Ok (path_join (foldl path_join h home_segments) "mcpmesh") else Err (NoHome name)
      | None => Err (NoHome name)
      end
  end.
Definition xdg_dir (e : Env) (name : string) (home_segments : list string) : result PathError string :=
  xdg_dir_from name (var e name) (var e "HOME") home_segments.

Definition runtime_dir_from (xdg : option string) (tmp : string) : result PathError string :=
  match set_absolute xdg with
  | Some x => Ok (path_join x "mcpmesh")
  | None => let dir := path_join tmp "mcpmesh" in if is_absolute dir then Ok dir else Err NoRuntimeDir
  end.

Definition runtime_tmp (e : Env) : string :=
  match var e "TMPDIR" with
  | Some t => if nonempty t then t else temp_dir e
  | None => temp_dir e
  end.
Definition runtime_dir (e : Env) : result PathError string :=
  match profile_root e with
  | Some root => Ok (runtime_under_root root (runtime_tmp e))
  | None => runtime_dir_from (var e "XDG_RUNTIME_DIR") (runtime_tmp e)
  end.
Definition default_endpoint (e : Env) : result PathError string := d ← runtime_dir e; Ok (path_join d "mcpmesh.sock").

(** The three directories a profile root replaces. *)
Definition rooted (e : Env) (sub name : string) (home_segments : list string) : result PathError string :=
  match profile_root e with
  | Some root => Ok (path_join root sub)
  | None => xdg_dir e name home_segments
  end.
Definition config_dir (e : Env) := rooted e "config" "XDG_CONFIG_HOME" [".config"]%string.
Definition data_dir (e : Env) := rooted e "data" "XDG_DATA_HOME" [".local"; "share"]%string.
Definition state_dir (e : Env) := rooted e "state" "XDG_STATE_HOME" [".local"; "state"]%string.

(** ** A node's files *)
Record NodePaths := {
  np_config_path : string; np_device_key_path : string; np_user_key_path : string; np_roster_path : string;
  np_state_db_path : string; np_invites_path : string; np_blobs_dir : string; np_blob_scopes_path : string; np_audit_dir : string }.

Definition under_root (root : string) : NodePaths :=
  let config := path_join root "config" in
  let data := path_join root "data" in
  {| np_config_path := path_join config "config.toml"; np_device_key_path := path_join config "device.key";
     np_user_key_path := path_join config "user.key"; np_roster_path := path_join config "roster.json";
     np_state_db_path := path_join data "state.redb"; np_invites_path := path_join data "invites.json";
     np_blobs_dir := path_join data "blobs"; np_blob_scopes_path := path_join data "blob-scopes.redb";
     np_audit_dir := path_join (path_join root "state") "audit" |}.

Definition in_dir (dir : Env -> result PathError string) (file : string) (e : Env) : result PathError string :=
  d ← dir e; Ok (path_join d file).
Definition from_env (e : Env) : result PathError NodePaths :=
  config ← in_dir config_dir "config.toml" e;
  device ← in_dir config_dir "device.key" e;
  user ← in_dir config_dir "user.key" e;
  roster ← in_dir config_dir "roster.json" e;
  db ← in_dir data_dir "state.redb" e;
  invites ← in_dir data_dir "invites.json" e;
  blobs ← in_dir data_dir "blobs" e;
  scopes ← in_dir data_dir "blob-scopes.redb" e;
  audit ← in_dir state_dir "audit" e;
  Ok {| np_config_path := config; np_device_key_path := device; np_user_key_path := user; np_roster_path := roster;
        np_state_db_path := db; np_invites_path := invites; np_blobs_dir := blobs; np_blob_scopes_path := scopes; np_audit_dir := audit |}.

(** What the daemon a command starts finds: its variables, and the root pinned here as one. *)
Definition daemon_env (e : Env) : Env :=
  {| ev_root_override := None;
     ev_vars := match profile_root e with Some root => <["MCPMESH_HOME"%string := root]> (ev_vars e) | None => ev_vars e end |}.

(** ** Windows *)
Definition win_dir_from (xdg base : option string) (join : string -> string -> string) (segments : list string) : result PathError string :=
  match set_absolute xdg with
  | Some x => Ok (join x "mcpmesh"%string)
  | None =>
      match base with
      | Some b => if nonempty b then Ok (foldl join (join b "mcpmesh"%string) segments) else Err NoBase
      | None => Err NoBase
      end
  end.

Definition pipe_char (c : byte) : bool :=
  ((97 <=? byte_val c) && (byte_val c <=? 122)) || ((48 <=? byte_val c) && (byte_val c <=? 57)) || bool_decide (c = Byte.x5f) || bool_decide (c = Byte.x2d).
(** A character outside ASCII is one dash: its first byte gives it, the others nothing. *)
Definition sanitize_byte (c : byte) : bytes :=
  if pipe_char c then [c]
  else if (65 <=? byte_val c) && (byte_val c <=? 90) then [byte_of (byte_val c + 32)]
  else if continuation c then [] else [Byte.x2d].
Definition sanitize_pipe_component (s : string) : string := from_bytes (concat (sanitize_byte <$> as_bytes s)).

Definition windows_pipe_name_from (domain user xdg : option string) : result PathError string :=
  user ← ok_or NoUserName (u ← user; if nonempty u then Some u else None);
  let name := "\\.\pipe\mcpmesh-" +:+ sanitize_pipe_component (default "local"%string domain) +:+ "-" +:+ sanitize_pipe_component user in
  Ok (match xdg with
      | Some x => if nonempty x then name +:+ "-" +:+ fnv8 x else name
      | None => name
      end).

(** ** Lemmas *)
Lemma lossy_text n b : (length b <= n)%nat -> utf8 b = true -> lossy b = b.
Proof.
  revert b. induction n as [|n IH]; intros [|c b] Hn; try done; [simpl in Hn; lia|]. simpl in Hn. cbn [utf8 lossy].
  destruct (between 0 0x7f c); [intros; f_equal; apply IH; [lia|done]|].
  destruct b as [|d b]; [done|]. simpl in Hn. destruct (between 0xc2 0xdf c).
  { intros [-> Hb]%andb_true_iff. do 2 f_equal. apply IH; [lia|done]. }
  destruct b as [|e b]; [done|]. simpl in Hn. fold (second_of_three c d). destruct (second_of_three c d).
  { intros [-> Hb]%andb_true_iff. do 3 f_equal. apply IH; [lia|done]. }
  destruct b as [|f b]; [done|]. simpl in Hn. fold (second_of_four c d).
  intros [[[-> ->]%andb_true_iff ->]%andb_true_iff Hb]%andb_true_iff. do 4 f_equal. apply IH; [lia|done].
Qed.

Lemma set_absolute_Some x s : set_absolute x = Some s <-> x = Some s /\ nonempty s = true /\ is_absolute s = true.
Proof.
  unfold set_absolute. destruct x as [y|]; simpl; [|naive_solver]. destruct (nonempty y && is_absolute y) eqn:H.
  - apply andb_true_iff in H as [? ?]. naive_solver.
  - split; [done|]. intros ([= ->] & Hn & Ha). by rewrite Hn, Ha in H.
Qed.

Lemma var_text e name v : ev_vars e !! name = Some v -> utf8 (as_bytes v) = true -> var e name = Some v.
Proof. unfold var. intros ->. simpl. by intros ->. Qed.
Lemma var_Some e name v : var e name = Some v -> ev_vars e !! name = Some v /\ utf8 (as_bytes v) = true.
Proof. unfold var. destruct (ev_vars e !! name) as [w|]; simpl; [|done]. destruct (utf8 (as_bytes w)) eqn:Hu; [|done]. by intros [= <-]. Qed.

(** What the command line pins: [main] makes it absolute; it is text unless a file name is not. *)
Definition pinned_well (e : Env) : Prop :=
  forall root, ev_root_override e = Some root -> nonempty root = true /\ is_absolute root = true /\ utf8 (as_bytes root) = true.

Lemma daemon_profile e : pinned_well e -> profile_root (daemon_env e) = profile_root e.
Proof.
  intros Hp. assert (Hset : forall root, profile_root e = Some root -> profile_root (daemon_env e) = Some root).
  { intros root Hr. assert (Hw : nonempty root = true /\ is_absolute root = true /\ utf8 (as_bytes root) = true).
    { unfold profile_root in Hr. destruct (ev_root_override e) as [p|] eqn:Ho; [injection Hr as ->; by apply Hp|].
      apply set_absolute_Some in Hr as ([_ Hu]%var_Some & ? & ?). done. }
    destruct Hw as (Hn & Ha & Hu). unfold profile_root at 1, daemon_env. rewrite Hr. simpl. apply set_absolute_Some.
    split; [|done]. apply var_text; [apply lookup_insert_eq|done]. }
  destruct (profile_root e) as [root|] eqn:Hr; [by apply Hset|].
  unfold profile_root in Hr |- *. unfold daemon_env. destruct (ev_root_override e) as [p|] eqn:Ho; [done|]. simpl.
  unfold profile_root. rewrite Ho, Hr. unfold var in *. simpl. done.
Qed.

Lemma daemon_var e name : name <> "MCPMESH_HOME"%string -> var (daemon_env e) name = var e name.
Proof. intros Hn. unfold var, daemon_env. simpl. destruct (profile_root e); [|done]. by rewrite lookup_insert_ne. Qed.
Lemma daemon_tmp e : runtime_tmp (daemon_env e) = runtime_tmp e.
Proof.
  unfold runtime_tmp, temp_dir. rewrite daemon_var by done.
  assert (ev_vars (daemon_env e) !! "TMPDIR"%string = ev_vars e !! "TMPDIR"%string) as ->; [|done].
  unfold daemon_env. simpl. destruct (profile_root e); [|done]. by rewrite lookup_insert_ne.
Qed.
Lemma daemon_rooted e sub name segments :
  pinned_well e -> name <> "MCPMESH_HOME"%string -> rooted (daemon_env e) sub name segments = rooted e sub name segments.
Proof.
  intros Hp Hn. unfold rooted, xdg_dir. rewrite daemon_profile, !daemon_var by done. done.
Qed.

Lemma fnv8_length s : String.length (fnv8 s) = 8%nat.
Proof. unfold fnv8. by rewrite <- length_as_bytes, as_from_bytes. Qed.

Lemma path_join_length a b : (String.length (path_join a b) <= String.length a + 1 + String.length b)%nat.
Proof.
  unfold path_join. destruct (is_absolute b); [lia|]. destruct (ends_with_slash a);
    rewrite <- !length_as_bytes, !as_bytes_app, !length_app; [lia|]. change (length (as_bytes "/")) with 1%nat. lia.
Qed.

(** ** Properties *)

(** The daemon a command starts resolves what the command resolved: its socket, so the two meet
    whatever the variables are, and every file of the node. Under a profile those are the files of
    a node embedded under that root. *)
Theorem endpoints_meet e :
  pinned_well e ->
  default_endpoint (daemon_env e) = default_endpoint e /\ from_env (daemon_env e) = from_env e /\
  forall root, profile_root e = Some root -> from_env e = Ok (under_root root).
Proof.
  intros Hp. split_and!.
  - unfold default_endpoint, runtime_dir. by rewrite daemon_profile, daemon_tmp, daemon_var by done.
  - unfold from_env, in_dir, config_dir, data_dir, state_dir. by rewrite !daemon_rooted by done.
  - intros root Hr. unfold from_env, in_dir, config_dir, data_dir, state_dir, rooted. by rewrite Hr.
Qed.

(** A profile's socket can be bound however deep the root is, as long as the temporary
    directory's name leaves room for the short form. *)
Theorem profile_socket_bindable e root sock :
  profile_root e = Some root -> default_endpoint e = Ok sock -> (String.length (runtime_tmp e) <= 76)%nat ->
  Z.of_nat (String.length sock) <= MAX_SOCKET_PATH.
Proof.
  intros Hr Hs Ht. unfold default_endpoint, runtime_dir in Hs. rewrite Hr in Hs. injection Hs as <-. unfold runtime_under_root.
  destruct (_ <=? _) eqn:Hle; [by apply Z.leb_le in Hle|].
  set (short := ("mcpmesh-" +:+ fnv8 _)%string). assert (String.length short = 16%nat) as Hl.
  { unfold short. rewrite <- length_as_bytes, as_bytes_app, length_app, !length_as_bytes, fnv8_length. done. }
  pose proof (path_join_length (runtime_tmp e) short). pose proof (path_join_length (path_join (runtime_tmp e) short) "mcpmesh.sock").
  unfold MAX_SOCKET_PATH. simpl in *. lia.
Qed.

(** ** Witnesses *)
Module Witness.
Definition home : gmap string string := list_to_map [("HOME", "/home/ann"); ("XDG_RUNTIME_DIR", "/run/user/1000")]%string.
Definition plain : Env := {| ev_root_override := None; ev_vars := home |}.
Definition profiled : Env := (set_root "/home/ann/work" plain).2.
Lemma layout : default_endpoint plain = Ok "/run/user/1000/mcpmesh/mcpmesh.sock"%string /\
  in_dir data_dir "state.redb" plain = Ok "/home/ann/.local/share/mcpmesh/state.redb"%string /\
  default_endpoint profiled = Ok "/home/ann/work/run/mcpmesh.sock"%string /\ (set_root "/other" profiled).1 = Err "/other"%string.
Proof. vm_compute. done. Qed.
Lemma pipe_names :
  windows_pipe_name_from (Some "CORP"%string) (Some "Ann B"%string) None = Ok "\\.\pipe\mcpmesh-corp-ann-b"%string /\
  fnv8 "" = "4fd0bfc1"%string.
Proof. vm_compute. done. Qed.

Lemma profiled_well : pinned_well profiled.
Proof. intros root [= <-]. vm_compute. done. Qed.
Lemma endpoints_meet_witness : default_endpoint (daemon_env profiled) = default_endpoint profiled /\
  from_env profiled = Ok (under_root "/home/ann/work").
Proof.
  destruct (endpoints_meet profiled profiled_well) as (H1 & _ & H3). split; [exact H1|]. apply H3. vm_compute. reflexivity.
Defined.

Fixpoint deep (n : nat) : string := match n with O => "/p" | S n => deep n +:+ "/directory" end.
Definition deeply : Env := {| ev_root_override := Some (deep 12); ev_vars := home |}.
Lemma profile_socket_bindable_witness : exists sock, default_endpoint deeply = Ok sock /\ Z.of_nat (String.length sock) <= MAX_SOCKET_PATH.
Proof.
  destruct (default_endpoint deeply) as [sock|e] eqn:H; [|vm_compute in H; discriminate].
  exists sock. split; [reflexivity|]. apply (profile_socket_bindable deeply (deep 12) sock); [vm_compute; reflexivity|exact H|vm_compute; lia].
Defined.

(** A root that is no text (a file name need not be) is pinned here, and lost on the way: the
    daemon started for it takes the variable for unset, and runs on the user's own files and
    socket. *)
Definition odd_root : string := from_bytes (as_bytes "/tmp/sandbox-" ++ [Byte.xff]).
Definition odd : Env := {| ev_root_override := Some odd_root; ev_vars := home |}.
Lemma profile_lost :
  default_endpoint odd = Ok (odd_root +:+ "/run/mcpmesh.sock") /\
  default_endpoint (daemon_env odd) = default_endpoint plain /\ from_env (daemon_env odd) = from_env plain.
Proof. vm_compute. done. Qed.

(** The guard that a socket is not placed relative to the working directory is not there for a
    profile whose socket goes to the temporary directory. *)
Definition adrift : Env := {| ev_root_override := Some (deep 12); ev_vars := <["TMPDIR"%string := "tmp"%string]> home |}.
Lemma profile_socket_relative :
  is_absolute (match default_endpoint adrift with Ok s => s | Err _ => "/" end) = false /\
  runtime_dir_from None (runtime_tmp adrift) = Err NoRuntimeDir.
Proof. vm_compute. done. Qed.
End Witness.
