(* ===== verification/Tunnel.v ===== *)
(** * A session opened through the daemon

    [open_session] of [node/src/daemon/handlers.rs] and [pipe_session] of
    [node/src/daemon/dial.rs]: the dial, or the refusal made up in its place; the naming of the
    service in the client's first frame; and the pipe between the control connection and the
    peer, whose two directions run concurrently: a step is one frame of one of them. It is put
    together with the connect proxy of [Proxy] at its other end. *)
From stdpp Require Import base list strings relations.
From Stdlib Require Import ZArith Lia Strings.Byte.
From S2P Require Import Prelude Bytes Json Externals AuditFiles Auditor Service Framing Dial Proxy.

Local Open Scope Z_scope.

(** ** The pipe *)
Record Pipe := {
  pp_control_reader : FrameReader; pp_transport : NdjsonTransport; pp_control_writer : Writer; pp_parked : bool; pp_over : bool }.

Section pipe.
Context `{J : SerdeJson}.

(** To the peer: what ends this direction half-closes, and it parks. *)
Definition to_mesh (p : Pipe) : Pipe :=
  let '(o, r) := next (pp_control_reader p) in
  let set t parked :=
    {| pp_control_reader := r; pp_transport := t; pp_control_writer := pp_control_writer p; pp_parked := parked; pp_over := pp_over p |} in
  match o with
  | Dropped => set (pp_transport p) false
  | Done (Ok (Some (Frame frame))) =>
      match send_value (pp_transport p) frame with
      | (Ok _, t) => set t false
      | (Err _, t) => set (shutdown t) true
      end
  | Done _ => set (shutdown (pp_transport p)) true
  end.

(** To the control connection: what ends this direction ends the session, and both halves are
    shut down. *)
Definition from_mesh (p : Pipe) : Pipe :=
  let '(o, t) := recv_value (pp_transport p) in
  let set w :=
    {| pp_control_reader := pp_control_reader p; pp_transport := t; pp_control_writer := w; pp_parked := pp_parked p; pp_over := false |} in
  let teardown w :=
    {| pp_control_reader := pp_control_reader p; pp_transport := shutdown t; pp_control_writer := finish_writer w;
       pp_parked := pp_parked p; pp_over := true |} in
  match o with
  | None => set (pp_control_writer p)
  | Some (Ok (Some frame)) =>
      match write_frame (pp_control_writer p) frame with
      | (Ok _, w) => set w
      | (Err _, w) => teardown w
      end
  | Some _ => teardown (pp_control_writer p)
  end.

Inductive pipe_step : Pipe -> Pipe -> Prop :=
| step_to_mesh p : pp_over p = false -> pp_parked p = false -> pipe_step p (to_mesh p)
| step_from_mesh p : pp_over p = false -> pipe_step p (from_mesh p).

(** ** Opening it *)

(** Piping, or ended before that: with what, and what the peer and the client have by then. *)
Inductive Tunnel :=
| Piping (p : Pipe)
| Ended (outcome : result string unit) (transport : option NdjsonTransport) (control_writer : Writer)
| Cancelled (transport : NdjsonTransport) (control_writer : Writer).

(** [pipe_session] up to its two loops. *)
Definition pipe_session (transport : NdjsonTransport) (service : string) (control_reader : FrameReader) (control_writer : Writer) : Tunnel :=
  let '(o, control_reader) := next control_reader in
  match o with
  | Dropped => Cancelled transport control_writer
  | Done (Err e) => Ended (Err e) (Some transport) control_writer
  | Done (Ok None) | Done (Ok (Some (Violated _))) => Ended (Ok ()) (Some transport) control_writer
  | Done (Ok (Some (Frame v))) =>
      match send_value transport (inject_service v service) with
      | (Err e, t) => Ended (Err ("forward initialize to peer: " +:+ e)) (Some t) control_writer
      | (Ok _, t) =>
          Piping {| pp_control_reader := control_reader; pp_transport := t; pp_control_writer := control_writer; pp_parked := false; pp_over := false |}
      end
  end.

(** [mesh]: the audit log of the node's mesh, when it has one; [accepted]: whether the log's queue
    has room; [dial]: [dial_service_with_idle_timeout], which [Dial] plans. *)
Definition open_session (accepted : bool) (ts : string) (mesh : option AuditLog)
    (dial : string -> string -> option Z -> result DialError NdjsonTransport) (peer service : string) (idle_timeout_secs : option Z)
    (control_reader : FrameReader) (control_writer : Writer) : Tunnel * option AuditLog :=
  match mesh with
  | None => (Ended (Ok ()) None (write_frame control_writer (synthesized VNull ERR_UNREACHABLE "daemon has no mesh")).2, None)
  | Some audit =>
      match dial peer service idle_timeout_secs with
      | Err _ =>
          (Ended (Ok ()) None (write_frame control_writer (synthesized VNull ERR_UNREACHABLE "peer unreachable")).2,
           Some (record accepted (with_status (session_open ts (Some peer) service None) "error") audit))
      | Ok transport => (pipe_session transport service control_reader control_writer, Some audit)
      end
  end.
End pipe.

(** ** The pipe is a pump *)
Section simulation.
Context `{J : SerdeJson}.

(** A pipe and a pump of [Proxy] that are at the same point. *)
Record same_point (p : Pipe) (q : Pump) : Prop := {
  sp_stdin : pm_stdin q = pp_control_reader p;
  sp_control : pm_control q = t_reader (pp_transport p);
  sp_parked : pm_parked q = pp_parked p;
  sp_over : pm_over q = pp_over p;
  sp_stdout : pm_stdout q = pp_control_writer p;
  sp_writer : exists w, t_writer (pp_transport p) = Some w /\ w_sent (pm_control_writer q) = w_sent w /\
    (pp_over p = false -> pm_control_writer q = w) }.

Lemma to_mesh_pumps p q : pp_over p = false -> same_point p q -> same_point (to_mesh p) (to_control q).
Proof.
  intros Ho [Hin Hout Hpk Hov Hso (w & Hw & Hs & Hq)]. specialize (Hq Ho). unfold to_mesh, to_control. rewrite Hin, Hq.
  destruct (next (pp_control_reader p)) as [[[[[v|v]|]|e]|] r]; cbn.
  2-4: split; cbn; try done; rewrite Hw; by exists (finish_writer w).
  2: { split; cbn; try done. rewrite Hw. by exists w. }
  unfold send_value. rewrite Hw. destruct (write_frame w v) as [[u|e] w1]; split; cbn; try done; eexists; by split_and!.
Qed.
Lemma from_mesh_pumps p q : pp_over p = false -> same_point p q -> same_point (from_mesh p) (to_stdout q).
Proof.
  intros Ho [Hin Hout Hpk Hov Hso (w & Hw & Hs & Hq)]. specialize (Hq Ho). unfold from_mesh, to_stdout, recv_value. rewrite Hout, Hso.
  destruct (next (t_reader (pp_transport p))) as [[[[[v|v]|]|e]|] r]; cbn.
  1: destruct (write_frame (pp_control_writer p) v) as [[u|e] w1].
  all: split; cbn; try done; rewrite Hw; eexists; by split_and!.
Qed.
Lemma pipe_pumps p p' q : pipe_step p p' -> same_point p q -> exists q', pump_step q q' /\ same_point p' q'.
Proof.
  intros [p1 Ho Hpk|p1 Ho] Hsame.
  - exists (to_control q). split; [|by apply to_mesh_pumps]. apply pump_in; [by rewrite (sp_over _ _ Hsame)|by rewrite (sp_parked _ _ Hsame)].
  - exists (to_stdout q). split; [|by apply from_mesh_pumps]. apply pump_out. by rewrite (sp_over _ _ Hsame).
Qed.
Lemma pipe_steps_pump n p p' q : nsteps pipe_step n p p' -> same_point p q -> exists q', nsteps pump_step n q q' /\ same_point p' q'.
Proof.
  intros Hn. revert q. induction Hn as [p|n p p1 p' Hs _ IH]; intros q Hq; [by exists q; split; [constructor|]|].
  destruct (pipe_pumps _ _ _ Hs Hq) as (q1 & Hs1 & Hq1). destruct (IH _ Hq1) as (q' & Hn' & Hq'). exists q'. split; [by econstructor|done].
Qed.

(** What a pipe has carried after some steps. *)
Definition pump_at (p : Pipe) (w : Writer) : Pump :=
  {| pm_stdin := pp_control_reader p; pm_control_writer := w; pm_parked := pp_parked p;
     pm_control := t_reader (pp_transport p); pm_stdout := pp_control_writer p; pm_ended_on := None; pm_over := pp_over p |}.
Lemma pump_at_same p w : t_writer (pp_transport p) = Some w -> same_point p (pump_at p w).
Proof. intros Hw. split; try done. by exists w. Qed.

Definition peer_sent (p : Pipe) : bytes := default [] (w_sent <$> t_writer (pp_transport p)).

Lemma pipe_carries n p0 w p line line' :
  t_writer (pp_transport p0) = Some w -> pp_parked p0 = false -> pp_over p0 = false ->
  mid_line (pp_control_reader p0) line -> mid_line (t_reader (pp_transport p0)) line' ->
  nsteps pipe_step n p0 p ->
  let outgoing := to_come (pp_control_reader p0) line in
  let incoming := to_come (t_reader (pp_transport p0)) line' in
  (exists sent, sent `prefix_of` outgoing /\ peer_sent p = w_sent w ++ flat sent) /\
  (exists relayed, relayed `prefix_of` incoming /\
     (w_faults (pp_control_writer p0) = [] /\ w_finished (pp_control_writer p0) = false -> pp_over p = true -> relayed = incoming) /\
     w_sent (pp_control_writer p) = w_sent (pp_control_writer p0) ++ flat relayed) /\
  (n <= 2 + fuel_of (pp_control_reader p0) + fuel_of (t_reader (pp_transport p0)))%nat.
Proof.
  intros Hw Hpk Hov Hl Hl' Hn outgoing incoming.
  destruct (pipe_steps_pump _ _ _ _ Hn (pump_at_same _ _ Hw)) as (q & Hq & [Hin Hout Hpk' Hov' Hso (w' & Hw' & Hs & _)]).
  set (ok := bool_decide (w_faults (pp_control_writer p0) = [] /\ w_finished (pp_control_writer p0) = false)).
  assert (Hinv : pump_inv (w_sent w) (w_sent (pp_control_writer p0)) outgoing incoming ok (pump_at p0 w)).
  { split; [exists [], line|exists [], line']; cbn; rewrite app_nil_r; split; [done|by rewrite Hpk|done|]. rewrite Hov. split; [by split|].
    unfold ok. by intros ?%bool_decide_eq_true. }
  destruct (pump_steps_inv _ _ _ _ _ _ _ _ Hq Hinv) as [[(done1 & l1 & Hs1 & Hr1) (done2 & l2 & Hs2 & Hr2 & _)] Hwork].
  split_and!.
  - exists done1. split; [|unfold peer_sent; rewrite Hw'; cbn; congruence]. destruct (pm_parked q); [done|]. destruct Hr1 as [_ <-]. by eexists.
  - exists done2. rewrite <- Hso, <- Hov'. split; [|split; [|done]].
    + destruct (pm_over q); [by destruct Hr2|]. destruct Hr2 as [_ <-]. by eexists.
    + intros Hok Ho. rewrite Ho in Hr2. destruct Hr2 as [_ Hr2]. apply Hr2. unfold ok. by apply bool_decide_eq_true.
  - unfold work in Hwork. cbn in Hwork. rewrite Hpk, Hov in Hwork. lia.
Qed.

(** The same for the proxy. *)
Lemma pump_carries n stdin stdout back control_writer q :
  nsteps pump_step n (pump_start stdin stdout (new_reader back MAX_FRAME_BYTES) control_writer) q ->
  (exists sent, sent `prefix_of` frames_before (reference MAX_FRAME_BYTES (observed stdin)).1 /\
     w_sent (pm_control_writer q) = w_sent control_writer ++ flat sent) /\
  (exists relayed, relayed `prefix_of` frames_before (reference MAX_FRAME_BYTES (observed back)).1 /\
     (w_faults stdout = [] /\ w_finished stdout = false -> pm_over q = true ->
      relayed = frames_before (reference MAX_FRAME_BYTES (observed back)).1) /\
     w_sent (pm_stdout q) = w_sent stdout ++ flat relayed).
Proof.
  intros Hq. destruct (new_to_come stdin MAX_FRAME_BYTES) as [Hi1 <-]; [done|]. destruct (new_to_come back MAX_FRAME_BYTES) as [Ho1 <-]; [done|].
  set (ok := bool_decide (w_faults stdout = [] /\ w_finished stdout = false)).
  assert (Hinv : pump_inv (w_sent control_writer) (w_sent stdout) (to_come (new_reader stdin MAX_FRAME_BYTES) [])
    (to_come (new_reader back MAX_FRAME_BYTES) []) ok (pump_start stdin stdout (new_reader back MAX_FRAME_BYTES) control_writer)).
  { split; exists [], []; cbn [w_sent pump_start pm_control_writer pm_stdout flat]; rewrite app_nil_r; [split; [done|by split]|].
    split; [done|]. split; [by split|]. unfold ok. by intros ?%bool_decide_eq_true. }
  destruct (pump_steps_inv _ _ _ _ _ _ _ _ Hq Hinv) as [[(done1 & l1 & Hs1 & Hr1) (done2 & l2 & Hs2 & Hr2 & _)] _]. split.
  - exists done1. split; [|done]. destruct (pm_parked q); [done|]. destruct Hr1 as [_ <-]. by eexists.
  - exists done2. split; [|split; [|done]].
    + destruct (pm_over q); [by destruct Hr2|]. destruct Hr2 as [_ <-]. by eexists.
    + intros Hok Ho. rewrite Ho in Hr2. destruct Hr2 as [_ Hr2]. apply Hr2. unfold ok. by apply bool_decide_eq_true.
Qed.

(** ** Frames over a stream that is read as far as it has come *)

(** A frame that reads back as it was, within the cap. *)
Definition faithful (max : Z) (v : Value) : Prop := json_from_slice (json_to_vec v) = Some v /\ Z.of_nat (length (json_to_vec v)) <= max.

Lemma lines_prefix b c : (lines b).1 `prefix_of` (lines (b ++ c)).1.
Proof.
  induction b as [|x b IH]; [apply prefix_nil|]. simpl. destruct (lines b) as [ls rest], (lines (b ++ c)) as [ls' rest']. simpl in IH.
  case_decide; simpl; [by apply prefix_cons|]. destruct ls as [|l ls]; simpl; [apply prefix_nil|].
  destruct ls' as [|l' ls']; [by apply prefix_nil_inv in IH|]. simpl.
  rewrite (prefix_cons_inv_1 _ _ _ _ IH). apply prefix_cons. by eapply prefix_cons_inv_2.
Qed.

Lemma frames_before_app vs l : frames_before l = [] -> frames_before ((Frame <$> vs) ++ l) = vs.
Proof. intros Hl. induction vs as [|v vs IH]; [done|]. exact (f_equal (cons v) IH). Qed.

Lemma classify_faithful max vs : Forall (faithful max) vs -> classify max <$> (json_to_vec <$> vs) = Frame <$> vs.
Proof.
  induction 1 as [|v vs [Hp Hl] _ IH]; [done|]. simpl. f_equal; [|done]. unfold classify, parse_line. by rewrite (proj2 (Z.leb_le _ _)), Hp.
Qed.

Lemma written_read `{!SerdeJsonLaws J} max vs reads :
  Forall (faithful max) vs -> (observed reads).1 `prefix_of` flat vs ->
  frames_before (reference max (observed reads)).1 `prefix_of` vs /\
  ((observed reads).1 = flat vs -> frames_before (reference max (observed reads)).1 = vs).
Proof.
  intros Hvs Hpre. unfold reference.
  assert (Hcut : exists k rest, k `prefix_of` vs /\ lines (observed reads).1 = (json_to_vec <$> k, rest) /\ ((observed reads).1 = flat vs -> k = vs)).
  { destruct Hpre as [c Hc]. pose proof (lines_prefix (observed reads).1 c) as Hl. rewrite <- Hc in Hl. unfold flat in Hl. rewrite lines_frames in Hl.
    destruct (lines (observed reads).1) as [ls rest] eqn:Hls. destruct Hl as [ls' Hl]. simpl in Hl.
    apply fmap_app_inv in Hl as (k & vs' & -> & _ & ->). exists k, rest. split; [by eexists|]. split; [done|].
    intros Heq. rewrite Heq in Hls. unfold flat in Hls. rewrite lines_frames in Hls. injection Hls as Hk _.
    apply (f_equal length) in Hk. rewrite !length_fmap, length_app in Hk. destruct vs'; [by rewrite app_nil_r|simpl in Hk; lia]. }
  destruct Hcut as (k & rest & Hk & Hls & Hall). rewrite Hls. cbn [fst].
  rewrite classify_faithful by (destruct Hk as [x ->]; by apply Forall_app in Hvs as [? _]).
  rewrite frames_before_app; [by split|]. destruct (observed reads).2; [done|]. by destruct (_ <=? _).
Qed.

(** What [pipe_session] has done when it pipes. *)
Lemma session_starts t w service cr line cw p0 :
  t_writer t = Some w -> mid_line cr line -> pipe_session t service cr cw = Piping p0 ->
  exists first w', to_come cr line = first :: to_come (pp_control_reader p0) [] /\ mid_line (pp_control_reader p0) [] /\
    t_reader (pp_transport p0) = t_reader t /\ t_writer (pp_transport p0) = Some w' /\ w_sent w' = w_sent w ++ frame_bytes (inject_service first service) /\
    pp_control_writer p0 = cw /\ pp_parked p0 = false /\ pp_over p0 = false.
Proof.
  intros Hw Hl. unfold pipe_session. destruct (next cr) as [o r] eqn:Hn. pose proof (next_to_come _ _ _ _ Hl Hn) as Hc.
  destruct o as [[[[v|v]|]|e]|]; try done. unfold send_value. rewrite Hw. destruct (write_frame w (inject_service v service)) as [[u|e] w'] eqn:Hwr; [|done].
  intros [= <-]. destruct Hc as (Hm & Hc & _). apply write_sent in Hwr. by exists v, w'.
Qed.
End simulation.

(** ** Properties *)
Section properties.
Context `{J : SerdeJson}.

(** A session that cannot be dialled is answered, not left hanging: the client gets one frame,
    which the proxy recognises and tells its person about; the attempt is in the audit log once,
    as an error attributed to nobody, when there is a mesh to have dialled at all. *)
Theorem session_refused accepted ts mesh dial peer service idle cr cw :
  w_faults cw = [] -> w_finished cw = false -> (forall audit t, mesh = Some audit -> dial peer service idle <> Ok t) ->
  exists refusal cw',
    open_session accepted ts mesh dial peer service idle cr cw =
      (Ended (Ok ()) None cw', record accepted (with_status (session_open ts (Some peer) service None) "error") <$> mesh) /\
    w_sent cw' = w_sent cw ++ frame_bytes refusal /\ mesh_error_code refusal = Some ERR_UNREACHABLE.
Proof.
  intros Hf Hn Hd. unfold open_session.
  assert (Hw : forall message, exists refusal cw', (write_frame cw (synthesized VNull ERR_UNREACHABLE message)).2 = cw' /\
    w_sent cw' = w_sent cw ++ frame_bytes refusal /\ mesh_error_code refusal = Some ERR_UNREACHABLE).
  { intros message. destruct (write_healthy cw (synthesized VNull ERR_UNREACHABLE message) Hf Hn) as (cw' & Hw & _). rewrite Hw.
    apply write_sent in Hw. eexists _, cw'. split; [done|]. split; [exact Hw|]. apply refusals_recognised. by left. }
  destruct mesh as [audit|].
  - destruct (dial peer service idle) as [t|e]; [by destruct (Hd audit t eq_refl)|].
    destruct (Hw "peer unreachable"%string) as (refusal & cw' & <- & ? & ?). by exists refusal; eexists.
  - destruct (Hw "daemon has no mesh"%string) as (refusal & cw' & <- & ? & ?). by exists refusal; eexists.
Qed.

(** A session is carried as it is said: the peer is sent the client's first frame with the
    service named in it, then a prefix of its other frames unchanged; the client a prefix of the
    peer's frames, all of them by the time the pipe is over if it still reads; and the pipe is
    over after boundedly many steps, by the end of the peer's direction only. When the client
    sends no frame, nothing goes out. *)
Theorem session_carried t w service cr line line' cw :
  t_writer t = Some w -> mid_line cr line -> mid_line (t_reader t) line' ->
  match pipe_session t service cr cw with
  | Piping p0 => forall n p, nsteps pipe_step n p0 p ->
      (exists first sent, first :: sent `prefix_of` to_come cr line /\
         peer_sent p = w_sent w ++ flat (inject_service first service :: sent)) /\
      (exists relayed, relayed `prefix_of` to_come (t_reader t) line' /\
         (w_faults cw = [] /\ w_finished cw = false -> pp_over p = true -> relayed = to_come (t_reader t) line') /\
         w_sent (pp_control_writer p) = w_sent cw ++ flat relayed) /\
      (n <= 2 + fuel_of cr + fuel_of (t_reader t))%nat /\
      (pp_over p = false -> pipe_step p (from_mesh p))
  | Ended _ t' cw' => cw' = cw /\ exists t1 w', t' = Some t1 /\ t_writer t1 = Some w' /\ w_sent w' = w_sent w
  | Cancelled t' cw' => t' = t /\ cw' = cw
  end.
Proof.
  intros Hw Hl Hl'. destruct (pipe_session t service cr cw) as [p0|end_ t' cw'|t' cw'] eqn:Hp.
  - intros n p Hn. destruct (session_starts _ _ _ _ _ _ _ Hw Hl Hp) as (first & w' & Hc & Hm & Hr & Hw' & Hs & Hcw & Hpk & Hov).
    rewrite <- Hr in *. destruct (pipe_carries _ _ _ _ _ _ Hw' Hpk Hov Hm Hl' Hn) as ((sent & Hpre & Hsent) & Hback & Hle).
    rewrite Hcw in Hback. split_and!; [|done| |].
    + exists first, sent. rewrite Hc. split; [by apply prefix_cons|]. rewrite Hsent, Hs, <- app_assoc. done.
    + revert Hp. unfold pipe_session. destruct (next cr) as [o r] eqn:Hnx. pose proof (next_to_come _ _ _ _ Hl Hnx) as Hcome.
      destruct o as [[[[v|v]|]|e]|]; try done. destruct (send_value t _) as [[u|e] t1]; [|done]. intros [= <-]. simpl in *.
      destruct Hcome as (_ & _ & ?). lia.
    + apply step_from_mesh.
  - revert Hp. unfold pipe_session. destruct (next cr) as [[[[[v|v]|]|e]|] r]; try done.
    2-4: intros [= _ <- <-]; eauto 10.
    unfold send_value. rewrite Hw. destruct (write_frame w (inject_service v service)) as [[u|e] w'] eqn:Hwr; [done|].
    intros [= _ <- <-]. apply write_sent in Hwr. eauto 10.
  - revert Hp. unfold pipe_session. destruct (next cr) as [[[[[v|v]|]|e]|] r]; try done; [|by intros [= <- <-]].
    by destruct (send_value t _) as [[u|e] t1].
Qed.

(** C39: the whole way of a session: an AI client's frames go through the proxy's standard input
    and the control connection into the daemon's pipe and to the peer, and the peer's answers
    back, each stage reading as far as the one before has written, in any interleaving. Then what
    the peer is sent is a prefix of the AI client's frames, unchanged but for the service named in
    the first, which the peer selects exactly when the caller is allowed it; what the AI client
    reads is a prefix of the peer's frames, and all of them once everything is over. *)
Theorem session_end_to_end `{!SerdeJsonLaws J} stdin stdout back control_writer m q accepted ts audit audit' dial peer service idle t w to_daemon from_peer cw p0 n p :
  let asked := frames_before (reference MAX_FRAME_BYTES (observed stdin)).1 in
  let answered := frames_before (reference MAX_FRAME_BYTES (observed from_peer)).1 in
  Forall (faithful MAX_FRAME_BYTES) asked -> Forall (faithful MAX_FRAME_BYTES) answered ->
  dial peer service idle = Ok t -> t_reader t = new_reader from_peer MAX_FRAME_BYTES -> t_writer t = Some w -> w_sent w = [] ->
  open_session accepted ts (Some audit) dial peer service idle (new_reader to_daemon MAX_FRAME_BYTES) cw = (Piping p0, audit') ->
  nsteps pump_step m (pump_start stdin stdout (new_reader back MAX_FRAME_BYTES) control_writer) q ->
  nsteps pipe_step n p0 p ->
  w_sent control_writer ++ (observed to_daemon).1 `prefix_of` w_sent (pm_control_writer q) ->
  w_sent cw ++ (observed back).1 `prefix_of` w_sent (pp_control_writer p) ->
  (exists first sent, first :: sent `prefix_of` asked /\ peer_sent p = flat (inject_service first service :: sent) /\
     forall top allowed, first = VObject top ->
       (select_service (inject_service first service) allowed).2 = if decide (service ∈ allowed) then Selected service else Refuse) /\
  (exists shown, shown `prefix_of` answered /\ w_sent (pm_stdout q) = w_sent stdout ++ flat shown /\
     (w_faults cw = [] /\ w_finished cw = false -> w_faults stdout = [] /\ w_finished stdout = false ->
      pp_over p = true -> pm_over q = true -> w_sent cw ++ (observed back).1 = w_sent (pp_control_writer p) -> shown = answered)).
Proof.
  intros asked answered Hasked Hanswered Hdial Hr Hw Hw0 Hopen Hq Hp Hto Hback. unfold open_session in Hopen. rewrite Hdial in Hopen. injection Hopen as Hopen _.
  destruct (new_to_come to_daemon MAX_FRAME_BYTES) as [Hd1 Hd2]; [done|]. destruct (new_to_come from_peer MAX_FRAME_BYTES) as [Hf1 Hf2]; [done|].
  destruct (session_starts _ _ _ _ _ _ _ Hw Hd1 Hopen) as (first & w' & Hc & Hm & Hr' & Hw' & Hs & Hcw & Hpk & Hov).
  rewrite <- Hr, <- Hr' in Hf1, Hf2.
  destruct (pump_carries _ _ _ _ _ _ Hq) as ((in1 & Hin1 & Hsin1) & (out1 & Hout1 & Hall1 & Hsout1)).
  destruct (pipe_carries _ _ _ _ _ _ Hw' Hpk Hov Hm Hf1 Hp) as ((in2 & Hin2 & Hsin2) & (out2 & Hout2 & Hall2 & Hsout2) & _).
  rewrite Hf2 in Hout2, Hall2. rewrite Hcw in Hsout2, Hall2. rewrite Hsin1 in Hto. apply prefix_app_inv in Hto. rewrite Hsout2 in Hback. apply prefix_app_inv in Hback.
  assert (Hfaith : Forall (faithful MAX_FRAME_BYTES) in1) by (destruct Hin1 as [x Hx]; unfold asked in Hasked; rewrite Hx in Hasked; by apply Forall_app in Hasked as [? _]).
  assert (Hfaith2 : Forall (faithful MAX_FRAME_BYTES) out2) by (destruct Hout2 as [x Hx]; unfold answered in Hanswered; rewrite Hx in Hanswered; by apply Forall_app in Hanswered as [? _]).
  destruct (written_read _ _ _ Hfaith Hto) as [Hread1 _]. destruct (written_read _ _ _ Hfaith2 Hback) as [Hread2 Hread2'].
  split.
  - exists first, in2. split_and!.
    + etrans; [|exact Hin1]. etrans; [|exact Hread1]. rewrite <- Hd2, Hc. by apply prefix_cons.
    + rewrite Hsin2, Hs, Hw0. done.
    + intros top allowed ->. apply inject_selects.
  - exists out1. split_and!; [by etrans; [|etrans]|done|]. intros Hhcw Hhout Hop Hoq Heq. rewrite Hall1 by done.
    rewrite Hsout2 in Heq. apply app_inv_head in Heq. rewrite Hread2' by done. by apply Hall2.
Qed.
End properties.

(** ** Witnesses *)
Module Witness.
Import Toy Proxy.Witness.

Definition reply : Value := VObject [("id"%string, VNumber (NInt 1)); ("result"%string, VString "ok")].
Definition fresh : Writer := {| w_sent := []; w_faults := []; w_finished := false |}.
Definition asks : list Read := RByte <$> frame_bytes init.
Definition answers : list Read := RByte <$> frame_bytes reply.
Definition mesh_stream : NdjsonTransport := new_transport answers fresh MAX_FRAME_BYTES.
Definition dial (peer service : string) (idle : option Z) : result DialError NdjsonTransport :=
  if bool_decide (peer = "alice"%string) then Ok mesh_stream else Err (NoPeer peer).

(** The pipe the daemon opens, until the peer's stream ends. *)
Definition start_pipe : Pipe :=
  match open_session true "t" (Some new_log) dial "alice" "notes" None (new_reader asks MAX_FRAME_BYTES) fresh with
  | (Piping p, _) => p
  | _ => {| pp_control_reader := new_reader [] 0; pp_transport := mesh_stream; pp_control_writer := fresh; pp_parked := true; pp_over := true |}
  end.
Definition end_pipe : Pipe := from_mesh (from_mesh (to_mesh start_pipe)).
Lemma opened : open_session true "t" (Some new_log) dial "alice" "notes" None (new_reader asks MAX_FRAME_BYTES) fresh = (Piping start_pipe, Some new_log).
Proof. vm_compute. reflexivity. Qed.
Lemma piped : nsteps pipe_step 3 start_pipe end_pipe.
Proof.
  eapply nsteps_l; [apply step_to_mesh; vm_compute; reflexivity|]. eapply nsteps_l; [apply step_from_mesh; vm_compute; reflexivity|].
  eapply nsteps_l; [apply step_from_mesh; vm_compute; reflexivity|]. apply nsteps_O.
Qed.

(** The proxy at the other end, until its daemon closes. *)
Definition start_pump : Pump := pump_start asks fresh (new_reader answers MAX_FRAME_BYTES) fresh.
Definition end_pump : Pump := to_stdout (to_stdout (to_control start_pump)).
Lemma pumped : nsteps pump_step 3 start_pump end_pump.
Proof.
  eapply nsteps_l; [apply pump_in; vm_compute; reflexivity|]. eapply nsteps_l; [apply pump_out; vm_compute; reflexivity|].
  eapply nsteps_l; [apply pump_out; vm_compute; reflexivity|]. apply nsteps_O.
Qed.

Lemma asked_is : frames_before (reference MAX_FRAME_BYTES (observed asks)).1 = [init].
Proof. vm_compute. reflexivity. Qed.
Lemma answered_is : frames_before (reference MAX_FRAME_BYTES (observed answers)).1 = [reply].
Proof. vm_compute. reflexivity. Qed.
Lemma faithful_init : Forall (faithful MAX_FRAME_BYTES) [init].
Proof. repeat constructor; vm_compute; congruence. Qed.
Lemma faithful_reply : Forall (faithful MAX_FRAME_BYTES) [reply].
Proof. repeat constructor; vm_compute; congruence. Qed.

Lemma session_end_to_end_witness :
  (exists sent, peer_sent end_pipe = flat (inject_service init "notes" :: sent) /\
     (select_service (inject_service init "notes") ["notes"%string]).2 = Selected "notes") /\
  w_sent (pm_stdout end_pump) = frame_bytes reply.
Proof.
  destruct (session_end_to_end asks fresh answers fresh 3 end_pump true "t" new_log (Some new_log) dial "alice" "notes" None mesh_stream fresh
    asks answers fresh start_pipe 3 end_pipe) as ((first & sent & Hpre & Hsent & Hsel) & shown & _ & Hshown & Hall).
  - rewrite asked_is. exact faithful_init.
  - rewrite answered_is. exact faithful_reply.
  - reflexivity.
  - reflexivity.
  - reflexivity.
  - reflexivity.
  - exact opened.
  - exact pumped.
  - exact piped.
  - exists []. vm_compute. reflexivity.
  - exists []. vm_compute. reflexivity.
  - rewrite asked_is in Hpre. apply prefix_cons_inv_1 in Hpre. subst first. split.
    + exists sent. split; [exact Hsent|]. rewrite (Hsel _ _ eq_refl). rewrite decide_True by (apply list_elem_of_singleton; reflexivity). reflexivity.
    + rewrite Hshown, Hall, answered_is by (vm_compute; first [reflexivity|split; reflexivity]). vm_compute. reflexivity.
Defined.

Lemma session_refused_witness : exists refusal cw',
  open_session true "t" (Some new_log) dial "bob" "notes" None (new_reader asks MAX_FRAME_BYTES) fresh =
    (Ended (Ok ()) None cw', record true (with_status (AuditFiles.session_open "t" (Some "bob"%string) "notes" None) "error") <$> Some new_log) /\
  w_sent cw' = w_sent fresh ++ frame_bytes refusal /\ mesh_error_code refusal = Some ERR_UNREACHABLE.
Proof.
  apply (session_refused true "t" (Some new_log) dial "bob" "notes" None (new_reader asks MAX_FRAME_BYTES) fresh eq_refl eq_refl).
  intros audit t _. vm_compute. discriminate.
Defined.
Lemma session_carried_witness : exists first sent, peer_sent end_pipe = w_sent fresh ++ flat (inject_service first "notes" :: sent).
Proof.
  pose proof (session_carried mesh_stream fresh "notes" (new_reader asks MAX_FRAME_BYTES) [] [] fresh eq_refl) as H.
  destruct (new_to_come asks MAX_FRAME_BYTES) as [H1 _]; [done|]. destruct (new_to_come answers MAX_FRAME_BYTES) as [H2 _]; [done|].
  specialize (H H1 H2). assert (Hp : pipe_session mesh_stream "notes" (new_reader asks MAX_FRAME_BYTES) fresh = Piping start_pipe) by (vm_compute; reflexivity).
  rewrite Hp in H. destruct (H _ _ piped) as ((first & sent & _ & Hs) & _). eauto.
Defined.
End Witness.
